(* ===== verification/_CoqProject ===== *)
-Q . S2P
Prelude.v
ListPool.v
SkipList.v
SkipListInv.v
BookSpec.v
OrderBook.v
SkipListBook.v
BookRun.v
Types.v
Pools.v
Engine.v
MatchSpec.v
EngineInv.v
EngineMatch.v
EngineOps.v
EnginePlace.v
EngineRun.v
EngineFacts.v
EngineProps.v
EngineRestore.v
EngineBatch.v
Bytes.v
SnapshotCodec.v
Fixed.v
RiskCalc.v
RiskEngine.v
Funding.v
RiskInv.v
RiskLedger.v
BTreeMap.v
Trigger.v
F64.v
MarketData.v
F64Grid.v
MarketDiff.v
MarketBook.v
F64Int.v
RateLimit.v
Text.v
Money.v
SymbolRules.v
Pod.v
Sbe.v
WsSbe.v
Routing.v
PersistEvent.v
CounterForward.v
AeronTransport.v
PgStore.v
PgWriter.v
Snowflake.v
Leader.v
SymbolThread.v
SymbolThreadInv.v
SymbolThreadProps.v
SymbolThreadReplay.v
Journal.v
PgTables.v
RiskTyped.v
RiskPersist.v
IndexPrice.v
Desk.v
DeskSend.v
DeskRecv.v
DeskTick.v
Custody.v
F64Err.v
AccountMirror.v
RedisStore.v
RedisProps.v
RedisWriter.v
Reconcile.v
Auth.v
WsParse.v
WsEntry.v
WsProps.v
