(* ===== verification/Prelude.v ===== *)
(** * Lightning Exchange: a verified model

    The program ([src/src]) is a derivatives exchange made of processes that
    talk over Aeron.  A desk server authenticates users, reserves margin and
    forwards orders; an exchange engine runs one matching thread per symbol; a
    Postgres writer stores what the desk publishes.  This development translates
    the code of these processes that decides anything into executable functions
    and proves what they promise each other.

    ** Conventions

    - A machine integer is a [Z]; every operation that can leave the range of
      its type wraps explicitly, as the release build does (Prelude, Fixed).
    - An [f64] is a [spec_float], the Standard Library's IEEE 754 (F64); in
      messages and records it is its 64-bit pattern.
    - [None] is a panic or undefined behaviour, [Err] an error value: a theorem
      with a [Some] on its right excludes the panic.
    - Clock readings, answers of the database and of Aeron publications are
      arguments.  Third-party code is a class with what its documentation
      promises as laws ([Publication], [Ring], [Rtrb], [Chrono], [Crypto]; [HashIter] for
      the arbitrary order in which a hash map is visited), with instances that
      show the laws can hold.
    - Threads that race are step relations (Snowflake, Leader, Auth); elsewhere a
      handler is one step on the state it locks.

    ** Matching ([src/src/matching])

    - ListPool: [list_pool.rs], the queues threaded through a slot pool.
    - SkipList, SkipListInv: [skiplist.rs], the price levels in an arena, and the
      shape of the links at every height.
    - BookSpec, OrderBook, SkipListBook, BookRun: the abstract book, the
      [OrderBook] trait of [orderbook.rs] as a class with laws, the skip list as
      its instance, and the refinement over whole runs.
    - Types, Pools: [order.rs], [trade.rs], [error.rs], [event.rs], [pools.rs].
    - Engine: [engine.rs], all of it, over any instance of [OrderBook].
    - MatchSpec, EngineInv, EngineMatch, EngineOps, EnginePlace, EngineRun,
      EngineFacts, EngineProps, EngineRestore, EngineBatch: price-time priority as
      an executable specification on sorted levels, the invariant that relates
      the engine to it, the refinement of each handler and of whole runs, and
      the guarantees that follow: priority and exhaustiveness of matching, FOK
      and post-only, an uncrossed market, exact cancellation, error branches that
      change nothing, snapshot and restore.
    - SnapshotCodec: [engine_snapshot.rs], the byte format and its round trip.
    - MarketData, MarketDiff, MarketBook: [market_data.rs] and [snapshot.rs]; a
      subscriber that applies the increments holds the book, and bars partition
      the trades.

    ** The engine process ([src/src/bin/exchange_engine.rs])

    - SymbolThread, SymbolThreadInv, SymbolThreadProps, SymbolThreadReplay: the
      matching thread, its refinement to a specification on markets, the exact
      open-order counts and the determinism of replays.
    - Journal: [transport/journal.rs], the choice of replays at start-up and
      [bin/journal_audit.rs]; a restart sees every frame once.
    - Leader: [desk/leader.rs], the lease and the fencing token; no two processes
      are ever leaders of one epoch.

    ** The desk ([src/src/desk], [src/src/bin/desk_server.rs])

    - Fixed, RiskCalc, RiskEngine, Funding: [risk/calc.rs], [risk/types.rs],
      [risk/engine.rs], [funding.rs].
    - RiskInv, RiskLedger, RiskTyped: the risk engine's summaries agree with its
      positions over runs without a takeover of losses that leaves margin behind,
      money is conserved over any run that starts and ends flat, and every amount
      stays in its machine type.
    - Desk, DeskSend, DeskRecv, DeskTick: the shared state of the desk server and
      its threads, handler by handler: the command processor with settlement
      batches, the send thread with desk-to-desk forwarding, the receive loop with
      its burst batches, the risk tick and the trigger task.  Settlement
      conserves every asset; a forwarded order is all or nothing; its life from
      acceptance to an unfilled cancel restores the books; the id tables stay
      inverse; liquidation is guarded and ends; a trigger injection that fails
      before its order is offered to the queue leaves the margin books as they
      were.
    - IndexPrice: [index_price.rs] and the mark price of [desk_server.rs]; no book
      moves the mark outside the band of an honest majority.
    - RiskPersist: [risk_persist.rs]; a restart from the tables restores the
      margin state.
    - Trigger, BTreeMap: [trigger.rs]; exactly the due triggers fire.
    - Money, SymbolRules, Text: [money.rs], [symbol_rules.rs]; decimal text is
      parsed and printed exactly, holds are covered by balances, notionals agree
      between the risk engine and the ledger.
    - RateLimit: [rate_limit.rs], exact token buckets: a bound on the requests let
      through and a guarantee for idle users.
    - Snowflake: [snowflake.rs], unique ids in every interleaving.
    - Routing: [order_state.rs], [counter_shard.rs].
    - Custody: [account_repository.rs] and the deposit and withdrawal handlers of
      [api.rs]; every balance is deposits less withdrawals moved around, and an
      approved withdrawal can be settled.
    - Auth: [user_service.rs] and the authentication of [api.rs]: tokens, API keys,
      signatures, and revocation across desks and restarts, with the steps of a
      refresh interleaved with everything else.
    - WsParse: the client messages of [ws_handler.rs]: the hand-written JSON
      scanner reads what a client sent, and the binary frames.
    - WsEntry, WsProps: its handlers and connections.  A connection acts only for
      the user whose credentials it presented; an order is queued with its
      reservation or not at all; a binary order keeps its ticks and lots.
    - AccountMirror: the frames the command processor publishes, decoded and
      flushed by the writer, keep the accounts table equal to the desk's cache.

    ** Wire and storage ([src/src/transport] and the two writers)

    - Bytes, Pod, Sbe, WsSbe, PersistEvent, CounterForward: the packed messages,
      their encoders and decoders, with round trips and totality on any bytes.
    - AeronTransport: [aeron_transport.rs]; exactly the acknowledged messages
      reach the subscriber, in order.
    - PgStore, PgWriter: the write batch and the writer loop; every frame is
      stored exactly once whatever fails, as long as starts read the checkpoints,
      the archive leaves no gap after them and no reply to a commit is lost.
    - PgTables: the SQL of the flush as functions on tables with the constraints
      of [src/migrations]; a batch stores what its frames store one by one, and a
      funding settlement moves money without creating any.
    - RedisStore, RedisProps, RedisWriter: [redis_store.rs], [redis_writer.rs]:
      the commands of each frame on a typed Redis, the cold load, the orphan
      sweep, the purge, the readers, and the writer with its catch-up and floors.
      A sweep removes exactly the orders Postgres does not know, readers show an
      order to its owner only, and a writer that has caught up leaves what one
      pass over the journal leaves, however often it restarted.
    - Reconcile: [reconcile.rs]; the accounts of Postgres and Redis agree once
      both writers have caught up with the journal.

    ** Floating point

    - F64, F64Grid, F64Int, F64Err: the operations, the tolerances of the
      market-data engine on integers, integer arithmetic below [2^53], and the
      relative error of products and quotients, from which amounts, prices on the
      tick grid and quantities on the lot grid survive the trip through [f64].

    ** Fuel

    The traversals of the skip list get one more step than the arena has nodes
    ([walk_fuel]); the matching loops two more than the list pool has slots
    ([match_fuel]); the extraction of due triggers one more than the book has
    entries.  SkipListInv, EngineMatch and Trigger show that a well-formed
    structure never uses them up, and their theorems conclude that there is a
    result.  Trimming a string and printing an integer get a step for every byte
    and every bit.  The spin loop of a claimed publication has the bound of the
    source.  Every other recursion is structural or a fold.

    ** Where the code falls short

    Some lemmas are concrete runs on which the code does not do what it means
    to, for instance [batch_skips_better_price], [flip_mints_dust],
    [leveraged_fill_mints], [cancel_releases_notional],
    [partial_cancel_releases_twice], [failed_frame_lost], [restart_counts_upnl_twice],
    [early_fill_lost], [regression_repeats_id].  Where a theorem needs a
    hypothesis because of one of them, its comment says so.

    ** Not modelled

    - The rest of the HTTP API ([desk/api.rs]), the WebSocket gateway with
      matching engines inside the desk and its market-data broadcaster: handlers
      over a web framework.
    - Repositories and actors ([db.rs], [read_actor.rs], [write_actor.rs],
      [account.rs], [positions.rs]): SQL queries and channels.  The rate-limit
      buckets in Redis.
    - Threads, pinning, idle strategies, connection set-up, signal handling, the
      media driver and the archive; the desk's public market-data loop and its
      funding task; the pollers that fill the index sources.
    - Market-data servers, bots and load generators in [src/src/bin], metrics and
      tracing. *)
From Stdlib Require Import ZArith Lia.
From stdpp Require Import base numbers list gmap sorting.

#[local] Open Scope Z_scope.

(** * Machine integers

    The release profile of the crate compiles with [overflow-checks = false],
    so every [+], [-], [*] on an [i64]/[u64]/[usize] wraps.  A [w]-bit integer
    is a [Z] kept in its range by the wrapping functions below. *)

Definition two64 : Z := 18446744073709551616.
Definition two63 : Z := 9223372036854775808.
Definition i64_max : Z := 9223372036854775807.
Definition i64_min : Z := -9223372036854775808.
Definition u64_max : Z := 18446744073709551615.

Definition wrap_i64 (z : Z) : Z := (z + two63) mod two64 - two63.
Definition wrap_u64 (z : Z) : Z := z mod two64.

Definition i64_add (a b : Z) : Z := wrap_i64 (a + b).
Definition i64_sub (a b : Z) : Z := wrap_i64 (a - b).
Definition i64_mul (a b : Z) : Z := wrap_i64 (a * b).
Definition u64_add (a b : Z) : Z := wrap_u64 (a + b).
Definition u64_sub (a b : Z) : Z := wrap_u64 (a - b).

(** [saturating_add] of [u64]. *)
Definition u64_saturating_add (a b : Z) : Z := Z.min (a + b) u64_max.

Definition in_i64 (z : Z) : Prop := i64_min <= z <= i64_max.
Definition in_u64 (z : Z) : Prop := 0 <= z <= u64_max.

(** Unfold every machine-integer constant and close the arithmetic goal. *)
Ltac machine_unfold :=
  unfold i64_add, i64_sub, i64_mul, u64_add, u64_sub, u64_saturating_add,
    wrap_i64, wrap_u64, in_i64, in_u64, i64_max, i64_min, u64_max,
    two63, two64 in *.
Ltac machine := machine_unfold; Z.div_mod_to_equations; lia.

Lemma wrap_i64_id z : in_i64 z -> wrap_i64 z = z.
Proof. intros ?. machine_unfold. rewrite Z.mod_small; lia. Qed.

Lemma wrap_u64_id z : in_u64 z -> wrap_u64 z = z.
Proof. intros ?. machine_unfold. rewrite Z.mod_small; lia. Qed.

Lemma wrap_i64_range z : in_i64 (wrap_i64 z).
Proof.
  machine_unfold.
  pose proof (Z.mod_pos_bound (z + 9223372036854775808) 18446744073709551616). lia.
Qed.

Lemma i64_add_id a b : in_i64 (a + b) -> i64_add a b = a + b.
Proof. apply wrap_i64_id. Qed.
Lemma i64_sub_id a b : in_i64 (a - b) -> i64_sub a b = a - b.
Proof. apply wrap_i64_id. Qed.
Lemma i64_mul_id a b : in_i64 (a * b) -> i64_mul a b = a * b.
Proof. apply wrap_i64_id. Qed.
Lemma u64_add_id a b : in_u64 (a + b) -> u64_add a b = a + b.
Proof. apply wrap_u64_id. Qed.
Lemma u64_sub_id a b : in_u64 (a - b) -> u64_sub a b = a - b.
Proof. apply wrap_u64_id. Qed.

(** Range facts and the removal of wraps that cannot occur, for [eauto with
    machine] and [autorewrite with machine]. *)
Create HintDb machine.
Lemma i64_add_range a b : in_i64 (i64_add a b).
Proof. apply wrap_i64_range. Qed.
Lemma i64_sub_range a b : in_i64 (i64_sub a b).
Proof. apply wrap_i64_range. Qed.
Lemma i64_mul_range a b : in_i64 (i64_mul a b).
Proof. apply wrap_i64_range. Qed.
Lemma wrap_u64_range z : in_u64 (wrap_u64 z).
Proof. machine_unfold. pose proof (Z.mod_pos_bound z 18446744073709551616). lia. Qed.
Lemma u64_add_range a b : in_u64 (u64_add a b).
Proof. apply wrap_u64_range. Qed.
#[export] Hint Resolve wrap_i64_range wrap_u64_range i64_add_range i64_sub_range i64_mul_range
  u64_add_range : machine.
#[export] Hint Rewrite wrap_i64_id wrap_u64_id i64_add_id i64_sub_id i64_mul_id u64_add_id u64_sub_id
  using (machine_unfold; lia) : machine.

(** * Results and panics

    A Rust [Result<A, E>] is [result A E].  A computation that may panic, read
    through a dangling pointer or (in the model only) run out of loop fuel has
    type [option _] with [None] for that outcome, and is sequenced with
    stdpp's option monad. *)

Inductive result (A E : Type) : Type :=
| Ok (a : A)
| Err (e : E).
Arguments Ok {A E} a.
Arguments Err {A E} e.

(** The [?] operator on a pure [Result]: [x ←? r; k] returns the error of [r]. *)
Definition result_bind {A B E} (r : result A E) (k : A -> result B E) : result B E :=
  match r with Ok a => k a | Err e => Err e end.

Declare Scope result_scope.
Delimit Scope result_scope with result.
Notation "x ←? r ; k" := (result_bind r (fun x => k))
  (at level 20, r at level 100, k at level 200, only parsing) : result_scope.
#[global] Open Scope result_scope.

Definition is_ok {A E} (r : result A E) : bool :=
  match r with Ok _ => true | Err _ => false end.
Definition is_err {A E} (r : result A E) : bool := negb (is_ok r).

(** * Vectors used as stacks: [Vec::push] and [Vec::pop] *)

Definition vec_push {A} (v : list A) (x : A) : list A := v ++ [x].

Definition vec_pop {A} (v : list A) : option (A * list A) :=
  match reverse v with
  | [] => None
  | x :: r => Some (x, reverse r)
  end.

Lemma vec_pop_snoc {A} (v : list A) x : vec_pop (v ++ [x]) = Some (x, v).
Proof. unfold vec_pop. rewrite reverse_snoc. by rewrite reverse_involutive. Qed.

Lemma vec_pop_nil {A} : vec_pop ([] : list A) = None.
Proof. done. Qed.

Lemma vec_pop_Some {A} (v : list A) x w :
  vec_pop v = Some (x, w) -> v = w ++ [x].
Proof.
  unfold vec_pop. destruct (reverse v) as [|y r] eqn:Hr; [done|].
  intros [= -> <-]. rewrite <- (reverse_involutive v), Hr. apply reverse_cons.
Qed.

(** * Lists *)

Lemma Forall_impl2 {A} (P Q R : A -> Prop) (l : list A) :
  Forall P l -> Forall Q l -> (forall x, P x -> Q x -> R x) -> Forall R l.
Proof. intros HP HQ HR. induction HP; inversion HQ; subst; constructor; auto. Qed.

Lemma Forall_sublist {A} (P : A -> Prop) (l m : list A) : sublist l m -> Forall P m -> Forall P l.
Proof. induction 1; intros Hm; [done| |]; inversion Hm; subst; [constructor|]; auto. Qed.

Lemma sorted_snoc {A} (R : relation A) (l : list A) (x : A) :
  StronglySorted R l -> Forall (fun y => R y x) l -> StronglySorted R (l ++ [x]).
Proof.
  induction 1 as [|y l Hl IH Hy]; intros Hx; simpl; [repeat constructor|].
  apply Forall_cons in Hx as [Hyx Hx]. constructor; [by apply IH|].
  apply Forall_app. split; [done|]. by repeat constructor.
Qed.

Lemma filter_all {A} (P : A -> Prop) `{!forall x, Decision (P x)} (l : list A) :
  Forall P l -> filter P l = l.
Proof. induction 1 as [|x l Hx Hl IH]; [done|]. by rewrite filter_cons, decide_True, IH. Qed.

Lemma filter_none {A} (P : A -> Prop) `{!forall x, Decision (P x)} (l : list A) :
  Forall (fun x => ~ P x) l -> filter P l = [].
Proof. induction 1; [done|]. by rewrite filter_cons_False. Qed.

(** * Loops

    [mfold f b l]: the [for x in l { b = f(b, x) }] loop whose body may panic. *)
Fixpoint mfold {A B} (f : B -> A -> option B) (b : B) (l : list A) : option B :=
  match l with
  | [] => Some b
  | x :: l => b' ← f b x; mfold f b' l
  end.

Lemma mfold_app {A B} (f : B -> A -> option B) b l1 l2 :
  mfold f b (l1 ++ l2) = (b' ← mfold f b l1; mfold f b' l2).
Proof.
  revert b. induction l1 as [|x l1 IH]; intros b; simpl; [done|].
  destruct (f b x); simpl; [apply IH | done].
Qed.

(** Step the option monad without unfolding anything else. *)
Ltac bind_step := cbn [mbind option_bind].

(** * Stateful, fallible code

    A method taking [&mut self] on a state [S] and returning [Result<A, E>] is
    a computation [M S E A]: it panics ([None]), or returns the new state
    together with an [Ok] value or an [Err]; the [?] operator is the bind, which
    keeps the state reached when an error is returned. *)

Definition M (S E A : Type) : Type := S -> option (S * result A E).

#[global] Instance M_ret S E : MRet (M S E) := fun A a s => Some (s, Ok a).
#[global] Instance M_bind S E : MBind (M S E) := fun A B k m s =>
  match m s with
  | Some (s', Ok a) => k a s'
  | Some (s', Err e) => Some (s', Err e)
  | None => None
  end.

Section monad.
Context {S E : Type}.

Definition throw {A} (e : E) : M S E A := fun s => Some (s, Err e).
Definition panic {A} : M S E A := fun _ => None.
Definition gets {A} (f : S -> A) : M S E A := fun s => Some (s, Ok (f s)).
Definition modify (f : S -> S) : M S E unit := fun s => Some (f s, Ok ()).

(** A read that may panic. *)
Definition reads {A} (f : S -> option A) : M S E A := fun s => a ← f s; Some (s, Ok a).

(** [opt.ok_or(e)?] *)
Definition ok_or {A} (o : option A) (e : E) : M S E A :=
  match o with Some a => mret a | None => throw e end.

Definition when (b : bool) (m : M S E unit) : M S E unit := if b then m else mret ().

(** [m.ok()], [let _ = m], [m.is_ok()]: the error becomes a value. *)
Definition attempt {A} (m : M S E A) : M S E (result A E) :=
  fun s => '(s', r) ← m s; Some (s', Ok r).

Fixpoint for_each {A} (f : A -> M S E unit) (l : list A) : M S E unit :=
  match l with
  | [] => mret ()
  | x :: l => _ ← f x; for_each f l
  end.

Lemma bind_ok {A B} (m : M S E A) (k : A -> M S E B) s s' a :
  m s = Some (s', Ok a) -> mbind k m s = k a s'.
Proof. intros Hm. unfold mbind, M_bind. by rewrite Hm. Qed.

Lemma bind_err {A B} (m : M S E A) (k : A -> M S E B) s s' e :
  m s = Some (s', Err e) -> mbind k m s = Some (s', Err e).
Proof. intros Hm. unfold mbind, M_bind. by rewrite Hm. Qed.
End monad.
