(* ===== verification/ListPool.v ===== *)
(** The pooled doubly-linked queues of a price level
    ([src/src/matching/list_pool.rs]): the node pool [ListNodePool], the list
    [PooledList] threaded through it, and the invariant that makes every list a
    well-formed queue of slots that no other list and no free slot shares. *)
From Stdlib Require Import ZArith Lia.
From stdpp Require Import base numbers list gmap.
From S2P Require Import Prelude.

#[local] Open Scope Z_scope.

(** ** Data *)

(** A list node; [next]/[prev] are slot indices of the pool. *)
Record ListNode := mkListNode {
  ln_order_id : Z;
  ln_quantity_lots : Z;
  ln_next : option nat;
  ln_prev : option nat
}.

Definition ListNode_default : ListNode := mkListNode 0 0 None None.

Record ListNodePool := mkListNodePool {
  lp_nodes : list ListNode;
  lp_free_indices : list nat;
  lp_allocated : Z;
  lp_capacity : Z
}.

Record PooledList := mkPooledList {
  pl_head : option nat;
  pl_tail : option nat;
  pl_count : Z
}.

(** ** Operations *)

Definition ln_set_next (n : ListNode) (v : option nat) : ListNode :=
  mkListNode (ln_order_id n) (ln_quantity_lots n) v (ln_prev n).
Definition ln_set_prev (n : ListNode) (v : option nat) : ListNode :=
  mkListNode (ln_order_id n) (ln_quantity_lots n) (ln_next n) v.
Definition ln_set_quantity (n : ListNode) (q : Z) : ListNode :=
  mkListNode (ln_order_id n) q (ln_next n) (ln_prev n).

Module ListNodePool.

(** [ListNodePool::new]: all slots free, popped from the highest index. *)
Definition new (capacity : nat) : ListNodePool :=
  mkListNodePool (replicate capacity ListNode_default) (seq 0 capacity) 0
    (Z.of_nat capacity).

(** [acquire]: pop a free slot and initialise it; the inner [None] is the
    exhausted pool, the outer one the out-of-bounds panic of [self.nodes[idx]]. *)
Definition acquire (p : ListNodePool) (order_id quantity_lots : Z)
  : option (ListNodePool * option nat) :=
  match vec_pop (lp_free_indices p) with
  | None => Some (p, None)
  | Some (idx, free) =>
      _ ← lp_nodes p !! idx;
      Some (mkListNodePool
              (<[idx := mkListNode order_id quantity_lots None None]> (lp_nodes p))
              free (u64_add (lp_allocated p) 1) (lp_capacity p), Some idx)
  end.

Definition release (p : ListNodePool) (index : nat) : ListNodePool :=
  mkListNodePool (lp_nodes p) (vec_push (lp_free_indices p) index)
    (u64_sub (lp_allocated p) 1) (lp_capacity p).

Definition get (p : ListNodePool) (index : nat) : option ListNode :=
  lp_nodes p !! index.

(** [pool.get_mut(idx).unwrap()] followed by a write: panics out of range. *)
Definition update (p : ListNodePool) (index : nat) (f : ListNode -> ListNode)
  : option ListNodePool :=
  n ← lp_nodes p !! index;
  Some (mkListNodePool (<[index := f n]> (lp_nodes p)) (lp_free_indices p)
          (lp_allocated p) (lp_capacity p)).

Definition allocated_count (p : ListNodePool) : Z := lp_allocated p.

Definition available_count (p : ListNodePool) : Z :=
  u64_sub (lp_capacity p) (lp_allocated p).

End ListNodePool.

Module PooledList.

Definition new : PooledList := mkPooledList None None 0.

Definition len (l : PooledList) : Z := pl_count l.

Definition is_empty (l : PooledList) : bool := Z.eqb (pl_count l) 0.

Definition push_back (l : PooledList) (node_idx : nat) (pool : ListNodePool)
  : option (PooledList * ListNodePool) :=
  match pl_tail l with
  | Some idx =>
      pool ← ListNodePool.update pool idx (fun n => ln_set_next n (Some node_idx));
      pool ← ListNodePool.update pool node_idx (fun n => ln_set_prev n (Some idx));
      Some (mkPooledList (pl_head l) (Some node_idx) (u64_add (pl_count l) 1), pool)
  | None =>
      Some (mkPooledList (Some node_idx) (Some node_idx) (u64_add (pl_count l) 1), pool)
  end.

Definition remove (l : PooledList) (node_idx : nat) (pool : ListNodePool)
  : option (PooledList * ListNodePool) :=
  node ← ListNodePool.get pool node_idx;
  match ln_prev node, ln_next node with
  | None, None =>
      Some (mkPooledList None None (u64_sub (pl_count l) 1), pool)
  | None, Some next_idx =>
      pool ← ListNodePool.update pool next_idx (fun n => ln_set_prev n None);
      Some (mkPooledList (Some next_idx) (pl_tail l) (u64_sub (pl_count l) 1), pool)
  | Some prev_idx, None =>
      pool ← ListNodePool.update pool prev_idx (fun n => ln_set_next n None);
      Some (mkPooledList (pl_head l) (Some prev_idx) (u64_sub (pl_count l) 1), pool)
  | Some prev_idx, Some next_idx =>
      pool ← ListNodePool.update pool prev_idx (fun n => ln_set_next n (Some next_idx));
      pool ← ListNodePool.update pool next_idx (fun n => ln_set_prev n (Some prev_idx));
      Some (mkPooledList (pl_head l) (pl_tail l) (u64_sub (pl_count l) 1), pool)
  end.

Definition front (l : PooledList) : option nat := pl_head l.

Definition clear (l : PooledList) : PooledList := mkPooledList None None 0.

End PooledList.

(** ** Well-formed segments *)

(** First (last) element of a list of slots, or a default link. *)
Definition hd_or (l : list nat) (d : option nat) : option nat :=
  match l with [] => d | k :: _ => Some k end.
Definition last_or (l : list nat) (d : option nat) : option nat :=
  match last l with None => d | Some k => Some k end.

(** [dseg nodes p l nx]: the slots [l] are linked in order, the first one
    pointing back to [p] and the last one forward to [nx]. *)

Fixpoint dseg (nodes : list ListNode) (p : option nat) (l : list nat)
  (nx : option nat) : Prop :=
  match l with
  | [] => True
  | k :: l' =>
      (exists n, nodes !! k = Some n /\ ln_prev n = p /\
        ln_next n = hd_or l' nx) /\
      dseg nodes (Some k) l' nx
  end.

(** The (order id, quantity) pairs stored in the slots [l]. *)
Definition entry_of (n : ListNode) : Z * Z := (ln_order_id n, ln_quantity_lots n).

Definition holds (nodes : list ListNode) (l : list nat) (es : list (Z * Z)) : Prop :=
  Forall2 (fun k e => exists n, nodes !! k = Some n /\ entry_of n = e) l es.

(** [queue_ok nodes pl l es]: the pooled list [pl] is exactly the slots [l],
    holding the entries [es]. *)
Record queue_ok (nodes : list ListNode) (pl : PooledList) (l : list nat)
  (es : list (Z * Z)) : Prop := {
  q_head : pl_head pl = head l;
  q_tail : pl_tail pl = last l;
  q_count : pl_count pl = Z.of_nat (length l);
  q_dseg : dseg nodes None l None;
  q_holds : holds nodes l es
}.

(** [pool_ok p used]: every slot of the pool is free or in [used], exactly once,
    and the counters agree. *)
Record pool_ok (p : ListNodePool) (used : list nat) : Prop := {
  po_perm : lp_free_indices p ++ used ≡ₚ seq 0 (length (lp_nodes p));
  po_cap : lp_capacity p = Z.of_nat (length (lp_nodes p));
  po_width : lp_capacity p <= u64_max;
  po_alloc : lp_allocated p = Z.of_nat (length used)
}.

(** [pool_frame p p' l]: going from [p] to [p'] only the slots [l] were written,
    and none of them changed its order id or quantity. *)
Record pool_frame (p p' : ListNodePool) (l : list nat) : Prop := {
  fr_free : lp_free_indices p' = lp_free_indices p;
  fr_alloc : lp_allocated p' = lp_allocated p;
  fr_cap : lp_capacity p' = lp_capacity p;
  fr_len : length (lp_nodes p') = length (lp_nodes p);
  fr_out : forall k, k ∉ l -> lp_nodes p' !! k = lp_nodes p !! k;
  fr_entries : forall k, entry_of <$> lp_nodes p' !! k = entry_of <$> lp_nodes p !! k
}.

(** ** Segment lemmas *)

Lemma dseg_app nodes p X Y nx :
  dseg nodes p (X ++ Y) nx <->
  dseg nodes p X (hd_or Y nx) /\ dseg nodes (last_or X p) Y nx.
Proof.
  revert p. induction X as [|k X IH]; intros p; simpl; [tauto|].
  rewrite IH. assert (hd_or (X ++ Y) nx = hd_or X (hd_or Y nx)) as -> by by destruct X.
  assert (last_or (k :: X) p = last_or X (Some k)) as ->; [|tauto].
  unfold last_or. rewrite last_cons. by destruct (last X).
Qed.

Lemma dseg_frame nodes nodes' p l nx :
  (forall k, k ∈ l -> nodes' !! k = nodes !! k) ->
  dseg nodes p l nx -> dseg nodes' p l nx.
Proof.
  revert p. induction l as [|k l IH]; intros p Hsame; simpl; [done|].
  intros [(n & Hk & ?) Hl]. split.
  - exists n. rewrite Hsame by set_solver. done.
  - apply IH; [set_solver | done].
Qed.

Lemma dseg_set_prev nodes p p' k l nx n :
  k ∉ l -> nodes !! k = Some n ->
  dseg nodes p (k :: l) nx ->
  dseg (<[k := ln_set_prev n p']> nodes) p' (k :: l) nx.
Proof.
  intros Hk Hn [(n' & Hn' & _ & Hnext) Hl]. simplify_eq. split.
  - exists (ln_set_prev n p'). rewrite list_lookup_insert_eq by (by eapply lookup_lt_Some). done.
  - eapply dseg_frame; [|done]. intros j Hj. apply list_lookup_insert_ne. set_solver.
Qed.

Lemma dseg_set_next nodes p k l nx nx' n :
  k ∉ l -> nodes !! k = Some n ->
  dseg nodes p (l ++ [k]) nx ->
  dseg (<[k := ln_set_next n nx']> nodes) p (l ++ [k]) nx'.
Proof.
  intros Hk Hn. rewrite !dseg_app. intros [Hl [(n' & Hn' & Hprev & _) _]]. simplify_eq.
  split.
  - eapply dseg_frame; [|done]. intros j Hj. apply list_lookup_insert_ne. set_solver.
  - split; [|done]. exists (ln_set_next n nx').
    rewrite list_lookup_insert_eq by (by eapply lookup_lt_Some). done.
Qed.

Lemma dseg_lookup nodes p l nx k : dseg nodes p l nx -> k ∈ l -> is_Some (nodes !! k).
Proof.
  revert p. induction l as [|j l IH]; intros p; simpl; [set_solver|].
  intros [(n & Hn & _) Hl] [->|Hk]%elem_of_cons; eauto.
Qed.

Lemma holds_frame nodes nodes' l es :
  (forall k, k ∈ l -> entry_of <$> nodes' !! k = entry_of <$> nodes !! k) ->
  holds nodes l es -> holds nodes' l es.
Proof.
  intros Hsame H. induction H as [|k e l es (n & Hn & He) _ IH]; constructor.
  - specialize (Hsame k ltac:(set_solver)). rewrite Hn in Hsame.
    destruct (nodes' !! k) as [n'|]; simpl in Hsame; [|done].
    exists n'. split; congruence.
  - apply IH. set_solver.
Qed.

Lemma holds_length nodes l es : holds nodes l es -> length l = length es.
Proof. apply Forall2_length. Qed.

Lemma holds_app nodes l1 l2 es1 es2 :
  holds nodes l1 es1 -> holds nodes l2 es2 -> holds nodes (l1 ++ l2) (es1 ++ es2).
Proof. apply Forall2_app. Qed.

Lemma holds_one nodes k e : entry_of <$> nodes !! k = Some e -> holds nodes [k] [e].
Proof. intros (n & ? & ?)%fmap_Some. constructor; [by exists n | constructor]. Qed.

Lemma queue_ok_frame nodes nodes' pl l es :
  (forall k, k ∈ l -> nodes' !! k = nodes !! k) ->
  queue_ok nodes pl l es -> queue_ok nodes' pl l es.
Proof.
  intros Hsame []. split; [done..| |].
  - by eapply dseg_frame.
  - eapply holds_frame; [|done]. intros k Hk. by rewrite Hsame.
Qed.

Lemma pool_frame_trans p1 p2 p3 l1 l2 :
  pool_frame p1 p2 l1 -> pool_frame p2 p3 l2 -> pool_frame p1 p3 (l1 ++ l2).
Proof.
  intros [] []. split; try congruence.
  intros k Hk. rewrite fr_out1, fr_out0; set_solver.
Qed.

Lemma pool_frame_refl p l : pool_frame p p l.
Proof. by split. Qed.

Lemma pool_frame_weaken p p' l l' :
  (forall k, k ∈ l -> k ∈ l') -> pool_frame p p' l -> pool_frame p p' l'.
Proof. intros ? []. split; auto. Qed.

Lemma pool_frame_ok p p' l used : pool_frame p p' l -> pool_ok p used -> pool_ok p' used.
Proof. intros [] []. split; congruence. Qed.

(** ** Pool lemmas *)

Lemma update_ok p i f n :
  lp_nodes p !! i = Some n -> entry_of (f n) = entry_of n ->
  exists p', ListNodePool.update p i f = Some p' /\
    lp_nodes p' = <[i := f n]> (lp_nodes p) /\ pool_frame p p' [i].
Proof.
  intros Hn He. unfold ListNodePool.update. rewrite Hn. simpl. eexists. split; [done|].
  split; [done|]. split; simpl; try done.
  - apply length_insert.
  - intros k Hk. apply list_lookup_insert_ne. set_solver.
  - intros k. destruct (decide (k = i)) as [->|].
    + rewrite list_lookup_insert_eq by (by eapply lookup_lt_Some). rewrite Hn. simpl. congruence.
    + by rewrite list_lookup_insert_ne.
Qed.

Lemma pool_ok_perm p used used' : used ≡ₚ used' -> pool_ok p used -> pool_ok p used'.
Proof. intros Hp []. split; rewrite <- ?Hp; done. Qed.

Lemma pool_ok_NoDup p used : pool_ok p used -> NoDup used.
Proof.
  intros []. assert (NoDup (lp_free_indices p ++ used)) as Hnd.
  { rewrite po_perm0. apply NoDup_seq. }
  by apply NoDup_app in Hnd as (_ & _ & ?).
Qed.

Lemma pool_ok_bound p used : pool_ok p used -> Z.of_nat (length used) <= u64_max.
Proof.
  intros []. apply (f_equal length) in po_perm0 || apply Permutation_length in po_perm0.
  rewrite length_app, length_seq in po_perm0. lia.
Qed.

Lemma new_ok capacity :
  Z.of_nat capacity <= u64_max -> pool_ok (ListNodePool.new capacity) [].
Proof.
  intros ?. split; simpl; rewrite ?length_replicate; try done. by rewrite app_nil_r.
Qed.

Lemma acquire_exhausted p used id q :
  pool_ok p used -> length used = length (lp_nodes p) ->
  ListNodePool.acquire p id q = Some (p, None).
Proof.
  intros [] Hlen. apply Permutation_length in po_perm0.
  rewrite length_app, length_seq in po_perm0.
  unfold ListNodePool.acquire. destruct (lp_free_indices p); [done|simpl in *; lia].
Qed.

Lemma acquire_ok p used id q :
  pool_ok p used -> (length used < length (lp_nodes p))%nat ->
  exists idx p', ListNodePool.acquire p id q = Some (p', Some idx) /\
    pool_ok p' (idx :: used) /\ idx ∉ used /\
    lp_nodes p' = <[idx := mkListNode id q None None]> (lp_nodes p) /\
    (idx < length (lp_nodes p))%nat /\
    ListNodePool.release p' idx =
      mkListNodePool (lp_nodes p') (lp_free_indices p) (lp_allocated p) (lp_capacity p).
Proof.
  intros Hok Hlen. pose proof (pool_ok_bound _ _ Hok) as Hbd. destruct Hok.
  pose proof (Permutation_length po_perm0) as Hl.
  rewrite length_app, length_seq in Hl.
  unfold ListNodePool.acquire.
  destruct (vec_pop (lp_free_indices p)) as [[idx free]|] eqn:Hpop.
  2:{ destruct (lp_free_indices p) as [|a f] eqn:Hf using rev_ind; [simpl in *; lia|].
      by rewrite vec_pop_snoc in Hpop. }
  apply vec_pop_Some in Hpop. rewrite Hpop in *.
  assert (idx < length (lp_nodes p))%nat as Hidx.
  { assert (idx ∈ seq 0 (length (lp_nodes p))) as Hin by (rewrite <- po_perm0; set_solver).
    apply elem_of_seq in Hin. lia. }
  destruct (lookup_lt_is_Some_2 _ _ Hidx) as [n Hn]. rewrite Hn. simpl.
  assert (NoDup ((free ++ [idx]) ++ used)) as Hnd by (rewrite po_perm0; apply NoDup_seq).
  rewrite length_app in Hl. simpl in Hl.
  assert (u64_add (lp_allocated p) 1 = lp_allocated p + 1) as Halloc.
  { apply u64_add_id. machine_unfold. lia. }
  eexists idx, _. split; [done|]. split_and!; simpl; try done.
  - split; simpl; rewrite ?length_insert; try done.
    + rewrite <- po_perm0, <- app_assoc. done.
    + lia.
  - apply NoDup_app in Hnd as (_ & Hnd & _). set_solver.
  - unfold ListNodePool.release, vec_push. simpl. rewrite Halloc. f_equal.
    rewrite u64_sub_id; [lia|]. machine_unfold; lia.
Qed.

Lemma release_ok p idx used :
  pool_ok p (idx :: used) -> pool_ok (ListNodePool.release p idx) used.
Proof.
  intros Hok. pose proof (pool_ok_bound _ _ Hok) as Hbd. destruct Hok.
  split; simpl in *; try done.
  - rewrite <- po_perm0. unfold vec_push. by rewrite <- app_assoc.
  - rewrite po_alloc0, u64_sub_id; machine_unfold; lia.
Qed.

(** Slots that stay free or move between free and used keep the other queues. *)
Lemma acquire_exhausts_iff p used :
  pool_ok p used -> ListNodePool.available_count p =
    Z.of_nat (length (lp_nodes p)) - Z.of_nat (length used).
Proof.
  intros Hok. pose proof (pool_ok_bound _ _ Hok). destruct Hok.
  apply Permutation_length in po_perm0. rewrite length_app, length_seq in po_perm0.
  unfold ListNodePool.available_count. rewrite po_cap0, po_alloc0, u64_sub_id; machine_unfold; lia.
Qed.

(** ** List operations *)

Lemma push_back_ok pool pl l es idx n :
  queue_ok (lp_nodes pool) pl l es -> NoDup l -> idx ∉ l ->
  Z.of_nat (length l) < u64_max ->
  lp_nodes pool !! idx = Some n -> ln_next n = None -> ln_prev n = None ->
  exists pl' pool', PooledList.push_back pl idx pool = Some (pl', pool') /\
    queue_ok (lp_nodes pool') pl' (l ++ [idx]) (es ++ [entry_of n]) /\
    pool_frame pool pool' (l ++ [idx]).
Proof.
  intros Hq Hnd Hidx Hlen Hn Hnext Hprev. destruct Hq as [Hh Ht Hc Hs Hv].
  unfold PooledList.push_back. rewrite Ht.
  assert (u64_add (pl_count pl) 1 = Z.of_nat (length (l ++ [idx]))) as Hcnt.
  { rewrite length_app, Hc, u64_add_id; simpl; [lia | machine_unfold; lia]. }
  destruct l as [|k l _] using rev_ind.
  - simpl. eexists _, _. split; [done|]. split; [|apply pool_frame_refl].
    inversion Hv; subst. split; simpl; try done.
    + split; [|done]. by exists n.
    + apply holds_one. by rewrite Hn.
  - rewrite last_snoc. apply NoDup_app in Hnd as (Hnd & Hdisj & _).
    destruct (dseg_lookup _ _ _ _ k Hs ltac:(set_solver)) as [nk Hnk].
    destruct (update_ok pool k (fun n => ln_set_next n (Some idx)) nk Hnk eq_refl)
      as (p1 & -> & Hp1 & F1). simpl.
    assert (lp_nodes p1 !! idx = Some n) as Hn1.
    { rewrite Hp1, list_lookup_insert_ne by set_solver. done. }
    destruct (update_ok p1 idx (fun n => ln_set_prev n (Some k)) n Hn1 eq_refl)
      as (p2 & -> & Hp2 & F2). simpl.
    eexists _, _. split; [done|]. pose proof (pool_frame_trans _ _ _ _ _ F1 F2) as F.
    split; [|eapply pool_frame_weaken; [|exact F]; set_solver].
    split; simpl.
    + rewrite Hh. by destruct l.
    + by rewrite last_snoc.
    + done.
    + rewrite dseg_app. simpl. split.
      * eapply dseg_frame with (nodes := lp_nodes p1).
        { intros j Hj. rewrite Hp2. apply list_lookup_insert_ne. set_solver. }
        rewrite Hp1. apply (dseg_set_next _ _ _ _ None); [set_solver|done|done].
      * split; [|done]. exists (ln_set_prev n (Some k)). rewrite Hp2.
        rewrite list_lookup_insert_eq by (by eapply lookup_lt_Some).
        unfold last_or. by rewrite last_snoc.
    + apply holds_app.
      * eapply holds_frame; [|done]. intros j _. apply F.
      * apply holds_one. by rewrite (fr_entries _ _ _ F), Hn.
Qed.

(** [remove] as two independent relinking steps. *)
Definition opt_update (p : ListNodePool) (i : option nat) (f : ListNode -> ListNode)
  : option ListNodePool :=
  match i with Some i => ListNodePool.update p i f | None => Some p end.

Lemma remove_unfold l idx pool node :
  lp_nodes pool !! idx = Some node ->
  PooledList.remove l idx pool =
    (p1 ← opt_update pool (ln_prev node) (fun n => ln_set_next n (ln_next node));
     p2 ← opt_update p1 (ln_next node) (fun n => ln_set_prev n (ln_prev node));
     Some (mkPooledList (if ln_prev node then pl_head l else ln_next node)
                        (if ln_next node then pl_tail l else ln_prev node)
                        (u64_sub (pl_count l) 1), p2)).
Proof.
  intros Hn. unfold PooledList.remove, ListNodePool.get. rewrite Hn. simpl.
  by destruct (ln_prev node), (ln_next node).
Qed.

Lemma relink_next pool p X nx nx' :
  dseg (lp_nodes pool) p X nx -> NoDup X ->
  exists pool', opt_update pool (last X) (fun n => ln_set_next n nx') = Some pool' /\
    dseg (lp_nodes pool') p X nx' /\ pool_frame pool pool' X.
Proof.
  intros Hd Hnd. destruct X as [|k X _] using rev_ind.
  - exists pool. split_and!; [done..|apply pool_frame_refl].
  - rewrite last_snoc. apply NoDup_app in Hnd as (_ & Hdisj & _).
    destruct (dseg_lookup _ _ _ _ k Hd ltac:(set_solver)) as [n Hn].
    destruct (update_ok pool k (fun n => ln_set_next n nx') n Hn eq_refl)
      as (p' & Hu & Hp' & F).
    exists p'. split; [done|]. rewrite Hp'. split.
    + eapply dseg_set_next; [set_solver | done | done].
    + eapply pool_frame_weaken; [|done]. set_solver.
Qed.

Lemma relink_prev pool p p' Y nx :
  dseg (lp_nodes pool) p Y nx -> NoDup Y ->
  exists pool', opt_update pool (head Y) (fun n => ln_set_prev n p') = Some pool' /\
    dseg (lp_nodes pool') p' Y nx /\ pool_frame pool pool' Y.
Proof.
  intros Hd Hnd. destruct Y as [|k Y].
  - exists pool. split_and!; [done..|apply pool_frame_refl].
  - apply NoDup_cons in Hnd as [Hk _].
    destruct (dseg_lookup _ _ _ _ k Hd ltac:(set_solver)) as [n Hn].
    destruct (update_ok pool k (fun n => ln_set_prev n p') n Hn eq_refl)
      as (pl' & Hu & Hp' & F).
    exists pl'. split; [done|]. rewrite Hp'. split.
    + by eapply dseg_set_prev.
    + eapply pool_frame_weaken; [|done]. set_solver.
Qed.

Lemma hd_or_None l : hd_or l None = head l.
Proof. by destruct l. Qed.
Lemma last_or_None l : last_or l None = last l.
Proof. unfold last_or. by destruct (last l). Qed.

Lemma queue_ok_split nodes pl X k Y es :
  queue_ok nodes pl (X ++ k :: Y) es -> exists ex e ey n,
    es = ex ++ e :: ey /\ nodes !! k = Some n /\ entry_of n = e /\
    ln_prev n = last X /\ ln_next n = head Y /\
    dseg nodes None X (Some k) /\ dseg nodes (Some k) Y None /\
    holds nodes X ex /\ holds nodes Y ey.
Proof.
  intros [_ _ _ Hd Hv]. apply Forall2_app_inv_l in Hv as (ex & ey' & Hx & Hy & ->).
  inversion Hy as [|? e ? ey (n & Hn & He) Hy']; subst.
  apply dseg_app in Hd as [Hd1 [(n' & Hn' & Hp & Hnx) Hd2]]. simplify_eq.
  rewrite hd_or_None in Hnx. rewrite last_or_None in Hp.
  exists ex, (entry_of n'), ey, n'. by split_and!.
Qed.

Lemma remove_ok pool pl X k Y ex e ey :
  queue_ok (lp_nodes pool) pl (X ++ k :: Y) (ex ++ e :: ey) ->
  length X = length ex -> NoDup (X ++ k :: Y) ->
  Z.of_nat (length (X ++ k :: Y)) <= u64_max ->
  exists pl' pool', PooledList.remove pl k pool = Some (pl', pool') /\
    queue_ok (lp_nodes pool') pl' (X ++ Y) (ex ++ ey) /\
    pool_frame pool pool' (X ++ Y).
Proof.
  intros Hq HlX Hnd Hbd.
  destruct (queue_ok_split _ _ _ _ _ _ Hq)
    as (ex' & e' & ey' & n & Heq & Hn & _ & Hp & Hnx & HdX & HdY & HvX & HvY).
  apply app_inj_1 in Heq as [<- Heq]; [|rewrite <- HlX; by eapply holds_length].
  simplify_eq. destruct Hq as [Hh Ht Hc _ _].
  apply NoDup_app in Hnd as (HndX & Hdisj & [HkY HndY]%NoDup_cons).
  rewrite (remove_unfold _ _ _ n) by done. rewrite Hp, Hnx.
  destruct (relink_next pool None X (Some k) (head Y) HdX HndX)
    as (p1 & -> & HdX' & F1). simpl.
  assert (dseg (lp_nodes p1) (Some k) Y None) as HdY1.
  { eapply dseg_frame; [|done]. intros j Hj. apply F1. set_solver. }
  destruct (relink_prev p1 (Some k) (last X) Y None HdY1 HndY)
    as (p2 & -> & HdY' & F2). simpl.
  pose proof (pool_frame_trans _ _ _ _ _ F1 F2) as F.
  eexists _, _. split; [done|]. split; [|done]. split; simpl.
  - destruct (last X) eqn:HX.
    + rewrite Hh. destruct X; [done|]. done.
    + apply last_None in HX as ->. done.
  - rewrite last_app, Ht, last_app. simpl. destruct Y as [|y Y]; simpl; [done|].
    by destruct (last (y :: Y)) eqn:HY; [|apply last_None in HY].
  - rewrite Hc, u64_sub_id; rewrite ?length_app in *; simpl in *; machine_unfold; lia.
  - rewrite dseg_app, hd_or_None, last_or_None. split; [|done].
    eapply dseg_frame; [|done]. intros j Hj. apply F2. set_solver.
  - apply holds_app; (eapply holds_frame; [|done]); intros; apply F.
Qed.
