(* ===== verification/SkipList.v ===== *)
(** The skip list of price levels ([src/src/matching/skiplist.rs]) as an
    executable model: nodes live in an arena addressed by index, the raw
    pointers [*mut SkipListNode] are arena indices ([None] is the null
    pointer), and every traversal follows the [forward] arrays exactly as the
    code does.  [None] results stand for undefined behaviour (a dangling or null
    dereference), for an index panic, or for a traversal that exhausts its
    fuel; SkipListInv shows that none of these happens. *)
From Stdlib Require Import ZArith Lia.
From stdpp Require Import base numbers list gmap.
From S2P Require Import Prelude ListPool.

#[local] Open Scope Z_scope.

Definition MAX_LEVEL : nat := 12.

(** ** Data *)

Record SkipListNode := mkSkipListNode {
  sn_price_ticks : Z;
  sn_total_quantity_lots : Z;
  sn_orders : PooledList;
  sn_level : nat;
  sn_forward : list (option nat)
}.

Inductive SortOrder := Ascending | Descending.

#[global] Instance SortOrder_eq_dec : EqDecision SortOrder.
Proof. solve_decision. Defined.

Record SkipList := mkSkipList {
  sl_head : nat;
  sl_level : nat;
  sl_count : Z;
  sl_order : SortOrder;
  sl_list_pool : ListNodePool;
  sl_arena : list SkipListNode;
  sl_free_nodes : list nat;
  sl_rng_state : Z;
  sl_best_price : option Z
}.

(** The error strings of the [Result<(), String>] operations. *)
Inductive BookError :=
| PriceLevelAlreadyExists
| PriceNotFound
| ListPoolExhausted
| PriceLevelNotFound (price : Z)
| OrderNotFoundAtLevel (order_id price : Z).

Definition no_links : list (option nat) := replicate MAX_LEVEL None.

(** [SkipListNode::new]. *)
Definition SkipListNode_new (price_ticks : Z) (level : nat) : SkipListNode :=
  mkSkipListNode price_ticks 0 PooledList.new level no_links.

(** ** Field updates *)

Definition sn_set_forward (n : SkipListNode) (f : list (option nat)) : SkipListNode :=
  mkSkipListNode (sn_price_ticks n) (sn_total_quantity_lots n) (sn_orders n) (sn_level n) f.
Definition sn_set_queue (n : SkipListNode) (total : Z) (o : PooledList) : SkipListNode :=
  mkSkipListNode (sn_price_ticks n) total o (sn_level n) (sn_forward n).

Definition sl_set_arena (s : SkipList) (a : list SkipListNode) : SkipList :=
  mkSkipList (sl_head s) (sl_level s) (sl_count s) (sl_order s) (sl_list_pool s) a
    (sl_free_nodes s) (sl_rng_state s) (sl_best_price s).
Definition sl_set_pool (s : SkipList) (p : ListNodePool) : SkipList :=
  mkSkipList (sl_head s) (sl_level s) (sl_count s) (sl_order s) p (sl_arena s)
    (sl_free_nodes s) (sl_rng_state s) (sl_best_price s).
Definition sl_set_rng (s : SkipList) (r : Z) : SkipList :=
  mkSkipList (sl_head s) (sl_level s) (sl_count s) (sl_order s) (sl_list_pool s) (sl_arena s)
    (sl_free_nodes s) r (sl_best_price s).
Definition sl_set_best (s : SkipList) (b : option Z) : SkipList :=
  mkSkipList (sl_head s) (sl_level s) (sl_count s) (sl_order s) (sl_list_pool s) (sl_arena s)
    (sl_free_nodes s) (sl_rng_state s) b.
Definition sl_set_shape (s : SkipList) (level : nat) (count : Z)
  (a : list SkipListNode) (free : list nat) : SkipList :=
  mkSkipList (sl_head s) level count (sl_order s) (sl_list_pool s) a
    free (sl_rng_state s) (sl_best_price s).

(** [c.forward[i]]: a dangling [c] or an index beyond the array is [None]. *)
Definition fwd (a : list SkipListNode) (c : nat) (i : nat) : option (option nat) :=
  n ← a !! c; sn_forward n !! i.

(** [c.forward[i] = v]. *)
Definition set_fwd (a : list SkipListNode) (c : nat) (i : nat) (v : option nat)
  : option (list SkipListNode) :=
  n ← a !! c;
  _ ← sn_forward n !! i;
  Some (<[c := sn_set_forward n (<[i := v]> (sn_forward n))]> a).

Module SkipList.

(** [SkipList::new_with_pool]: an arena holding only the head sentinel. *)
Definition new_with_pool (order : SortOrder) (pool_capacity : nat) : SkipList :=
  let head_price := match order with Ascending => i64_min | Descending => i64_max end in
  mkSkipList 0 0 0 order (ListNodePool.new pool_capacity)
    [SkipListNode_new head_price 0] [] 0x9E3779B97F4A7C15 None.

(** The promotion loop of [random_level]: two bits per level. *)
Fixpoint promote (fuel : nat) (lv : nat) (bits : Z) : nat :=
  match fuel with
  | O => lv
  | S fuel => if Z.eqb (Z.land bits 3) 0 then promote fuel (S lv) (Z.shiftr bits 2) else lv
  end.

(** [random_level]: one xorshift64* draw, then at most [MAX_LEVEL - 1] promotions. *)
Definition random_level (s : SkipList) : SkipList * nat :=
  let x := sl_rng_state s in
  let x := Z.lxor x (Z.shiftr x 12) in
  let x := Z.lxor x (wrap_u64 (Z.shiftl x 25)) in
  let x := Z.lxor x (Z.shiftr x 27) in
  let bits := wrap_u64 (x * 0x2545F4914F6CDD1D) in
  (sl_set_rng s x, promote (MAX_LEVEL - 1) 0 bits).

(** [should_insert]: does [new_price] come strictly before [existing_price]? *)
Definition should_insert (order : SortOrder) (new_price existing_price : Z) : bool :=
  match order with
  | Ascending => Z.ltb new_price existing_price
  | Descending => Z.ltb existing_price new_price
  end.

(** The inner [loop] of every traversal at level [i]: step right while the next
    node exists, is not at [price] and is not behind [price]. *)
Fixpoint advance (a : list SkipListNode) (order : SortOrder) (price : Z) (i : nat)
  (fuel : nat) (current : nat) : option nat :=
  match fuel with
  | O => None
  | S fuel =>
      f ← fwd a current i;
      match f with
      | None => Some current
      | Some nx =>
          n ← a !! nx;
          if Z.eqb (sn_price_ticks n) price then Some current
          else if should_insert order price (sn_price_ticks n) then Some current
          else advance a order price i fuel nx
      end
  end.

(** Enough for any traversal of one level: a level is a simple path. *)
Definition walk_fuel (a : list SkipListNode) : nat := S (length a).

(** The outer [for i in (0..=self.level).rev()] of [find_update], recording the
    predecessor of every level. *)
Fixpoint descend (a : list SkipListNode) (order : SortOrder) (price : Z) (i : nat)
  (current : nat) (update : list (option nat)) : option (list (option nat) * nat) :=
  c ← advance a order price i (walk_fuel a) current;
  let update := <[i := Some c]> update in
  match i with
  | O => Some (update, c)
  | S i => descend a order price i c update
  end.

(** [find_update]: predecessors on every level; above the current level the
    head is the predecessor. *)
Definition find_update (s : SkipList) (price : Z) : option (list (option nat) * nat) :=
  '(update, c) ← descend (sl_arena s) (sl_order s) price (sl_level s) (sl_head s) no_links;
  Some (foldl (fun u i => <[i := Some (sl_head s)]> u) update
          (seq (S (sl_level s)) (MAX_LEVEL - S (sl_level s))), c).

Definition count (s : SkipList) : Z := sl_count s.

(** One level of [get_node_at_price]: [inr] is the early [return]. *)
Fixpoint search_level (a : list SkipListNode) (order : SortOrder) (price : Z) (i : nat)
  (fuel : nat) (current : nat) : option (nat + nat) :=
  match fuel with
  | O => None
  | S fuel =>
      f ← fwd a current i;
      match f with
      | None => Some (inl current)
      | Some nx =>
          n ← a !! nx;
          if Z.eqb (sn_price_ticks n) price then Some (inr nx)
          else if should_insert order price (sn_price_ticks n) then Some (inl current)
          else search_level a order price i fuel nx
      end
  end.

Fixpoint search (a : list SkipListNode) (order : SortOrder) (price : Z) (i : nat)
  (current : nat) : option (option nat) :=
  r ← search_level a order price i (walk_fuel a) current;
  match r with
  | inr found => Some (Some found)
  | inl c => match i with O => Some None | S i => search a order price i c end
  end.

(** [get_node_mut]: the arena index of the node at [price]. *)
Definition get_node_mut (s : SkipList) (price : Z) : option (option nat) :=
  search (sl_arena s) (sl_order s) price (sl_level s) (sl_head s).

(** [get_node_at_price]: the node itself. *)
Definition get_node_at_price (s : SkipList) (price : Z) : option (option SkipListNode) :=
  r ← get_node_mut s price;
  match r with
  | None => Some None
  | Some k => n ← sl_arena s !! k; Some (Some n)
  end.

(** One iteration of the linking loop of [insert_level]. *)
Definition link_at (new : nat) (update : list (option nat)) (a : list SkipListNode) (i : nat)
  : option (list SkipListNode) :=
  u ← update !! i;
  u ← u;
  f ← fwd a u i;
  a ← set_fwd a new i f;
  set_fwd a u i (Some new).

(** The node allocation of [insert_level]: reuse a freed node or push a new box. *)
Definition alloc_node (s : SkipList) (n : SkipListNode)
  : option (nat * list SkipListNode * list nat) :=
  match vec_pop (sl_free_nodes s) with
  | Some (ptr, free) =>
      _ ← sl_arena s !! ptr;
      Some (ptr, <[ptr := n]> (sl_arena s), free)
  | None => Some (length (sl_arena s), vec_push (sl_arena s) n, sl_free_nodes s)
  end.

(** [insert_level]. *)
Definition insert_level (s : SkipList) (price : Z) : option (SkipList * result unit BookError) :=
  r ← get_node_at_price s price;
  match r with
  | Some _ => Some (s, Err PriceLevelAlreadyExists)
  | None =>
      let '(s, new_level) := random_level s in
      '(update, _) ← find_update s price;
      '(new_ptr, a, free) ← alloc_node s (SkipListNode_new price new_level);
      let level := if Nat.ltb (sl_level s) new_level then new_level else sl_level s in
      a ← mfold (link_at new_ptr update) a (seq 0 (S new_level));
      Some (sl_set_shape s level (u64_add (sl_count s) 1) a free, Ok ())
  end.

(** [find_node]. *)
Definition find_node (s : SkipList) (price : Z) : option (result unit BookError) :=
  r ← get_node_at_price s price;
  Some (match r with Some _ => Ok () | None => Err PriceNotFound end).

(** [best]: the first node of level 0. *)
Definition best (s : SkipList) : option (option SkipListNode) :=
  f ← fwd (sl_arena s) (sl_head s) 0;
  match f with
  | None => Some None
  | Some k => n ← sl_arena s !! k; Some (Some n)
  end.

(** The loop of [best_with_orders]. *)
Fixpoint scan_nonempty (a : list SkipListNode) (fuel : nat) (current : nat)
  : option (option SkipListNode) :=
  match fuel with
  | O => None
  | S fuel =>
      f ← fwd a current 0;
      match f with
      | None => Some None
      | Some k =>
          n ← a !! k;
          if negb (PooledList.is_empty (sn_orders n)) then Some (Some n)
          else scan_nonempty a fuel k
      end
  end.

Definition best_with_orders (s : SkipList) : option (option SkipListNode) :=
  scan_nonempty (sl_arena s) (walk_fuel (sl_arena s)) (sl_head s).

(** The positioning loop shared by the three queue operations, followed by the
    check of the level-0 successor: the index of the node at [price], if any. *)
Fixpoint locate_from (a : list SkipListNode) (order : SortOrder) (price : Z) (i : nat)
  (current : nat) : option nat :=
  c ← advance a order price i (walk_fuel a) current;
  match i with O => Some c | S i => locate_from a order price i c end.

Definition locate (s : SkipList) (price : Z) : option (option nat) :=
  c ← locate_from (sl_arena s) (sl_order s) price (sl_level s) (sl_head s);
  f ← fwd (sl_arena s) c 0;
  match f with
  | None => Some None
  | Some k =>
      n ← sl_arena s !! k;
      if Z.eqb (sn_price_ticks n) price then Some (Some k) else Some None
  end.

(** [add_order_at_level]. *)
Definition add_order_at_level (s : SkipList) (price order_id quantity : Z)
  : option (SkipList * result unit BookError) :=
  '(pool, idx) ← ListNodePool.acquire (sl_list_pool s) order_id quantity;
  match idx with
  | None => Some (s, Err ListPoolExhausted)
  | Some node_idx =>
      r ← locate s price;
      match r with
      | Some k =>
          n ← sl_arena s !! k;
          '(orders, pool) ← PooledList.push_back (sn_orders n) node_idx pool;
          let n := sn_set_queue n (i64_add (sn_total_quantity_lots n) quantity) orders in
          Some (sl_set_pool (sl_set_arena s (<[k := n]> (sl_arena s))) pool, Ok ())
      | None =>
          Some (sl_set_pool s (ListNodePool.release pool node_idx),
                Err (PriceLevelNotFound price))
      end
  end.

(** The [while let Some(node_idx)] scan of a level's queue for [order_id]. *)
Fixpoint find_in_queue (p : ListNodePool) (order_id : Z) (fuel : nat) (node_idx_opt : option nat)
  : option (option nat) :=
  match node_idx_opt with
  | None => Some None
  | Some node_idx =>
      match fuel with
      | O => None
      | S fuel =>
          match ListNodePool.get p node_idx with
          | Some list_node =>
              if Z.eqb (ln_order_id list_node) order_id then Some (Some node_idx)
              else find_in_queue p order_id fuel (ln_next list_node)
          | None => Some None
          end
      end
  end.

Definition queue_fuel (p : ListNodePool) : nat := S (length (lp_nodes p)).

(** [remove_order_at_level]. *)
Definition remove_order_at_level (s : SkipList) (price order_id : Z)
  : option (SkipList * result unit BookError) :=
  r ← locate s price;
  match r with
  | None => Some (s, Err (PriceLevelNotFound price))
  | Some k =>
      n ← sl_arena s !! k;
      let pool := sl_list_pool s in
      f ← find_in_queue pool order_id (queue_fuel pool) (PooledList.front (sn_orders n));
      match f with
      | None => Some (s, Err (OrderNotFoundAtLevel order_id price))
      | Some node_idx =>
          list_node ← ListNodePool.get pool node_idx;
          let quantity := ln_quantity_lots list_node in
          '(orders, pool) ← PooledList.remove (sn_orders n) node_idx pool;
          let pool := ListNodePool.release pool node_idx in
          let n := sn_set_queue n (i64_sub (sn_total_quantity_lots n) quantity) orders in
          Some (sl_set_pool (sl_set_arena s (<[k := n]> (sl_arena s))) pool, Ok ())
      end
  end.

(** [reduce_order_quantity_at_level]. *)
Definition reduce_order_quantity_at_level (s : SkipList) (price order_id quantity : Z)
  : option (SkipList * result unit BookError) :=
  r ← locate s price;
  match r with
  | None => Some (s, Err (PriceLevelNotFound price))
  | Some k =>
      n ← sl_arena s !! k;
      let pool := sl_list_pool s in
      f ← find_in_queue pool order_id (queue_fuel pool) (PooledList.front (sn_orders n));
      match f with
      | None => Some (s, Err (OrderNotFoundAtLevel order_id price))
      | Some node_idx =>
          pool ← ListNodePool.update pool node_idx (fun list_node =>
            ln_set_quantity list_node
              (Z.max (i64_sub (ln_quantity_lots list_node) quantity) 0));
          let n := sn_set_queue n
            (Z.max (i64_sub (sn_total_quantity_lots n) quantity) 0) (sn_orders n) in
          Some (sl_set_pool (sl_set_arena s (<[k := n]> (sl_arena s))) pool, Ok ())
      end
  end.

(** One iteration of the unlinking loop of [remove_level]. *)
Definition unlink_at (target : nat) (update : list (option nat)) (a : list SkipListNode) (i : nat)
  : option (list SkipListNode) :=
  u ← update !! i;
  u ← u;
  f ← fwd a u i;
  if decide (f = Some target) then
    t ← fwd a target i;
    set_fwd a u i t
  else Some a.

(** [while self.level > 0 && self.head.forward[self.level].is_null()]. *)
Fixpoint shrink_level (a : list SkipListNode) (head : nat) (level : nat) : option nat :=
  match level with
  | O => Some O
  | S l =>
      f ← fwd a head level;
      match f with None => shrink_level a head l | Some _ => Some level end
  end.

(** [remove_level]. *)
Definition remove_level (s : SkipList) (price : Z) : option (SkipList * result unit BookError) :=
  '(update, _) ← find_update s price;
  u0 ← update !! 0%nat;
  u0 ← u0;
  f ← fwd (sl_arena s) u0 0;
  match f with
  | None => Some (s, Err PriceNotFound)
  | Some target =>
      t ← sl_arena s !! target;
      if negb (Z.eqb (sn_price_ticks t) price) then Some (s, Err PriceNotFound)
      else
        a ← mfold (unlink_at target update) (sl_arena s) (seq 0 (S (sn_level t)));
        level ← shrink_level a (sl_head s) (sl_level s);
        t ← a !! target;
        let t := mkSkipListNode (sn_price_ticks t) 0 (PooledList.clear (sn_orders t))
                   (sn_level t) no_links in
        Some (sl_set_shape s level (u64_sub (sl_count s) 1) (<[target := t]> a)
                (vec_push (sl_free_nodes s) target), Ok ())
  end.

(** [clear]: drops every node but the head sentinel; the list pool is untouched. *)
Definition clear (s : SkipList) : option SkipList :=
  h ← sl_arena s !! sl_head s;
  let a := take 1 (<[sl_head s := sn_set_forward h no_links]> (sl_arena s)) in
  Some (sl_set_best (sl_set_shape s 0 0 a []) None).

(** [get_best_price_cached]. *)
Definition get_best_price_cached (s : SkipList) : option (SkipList * option Z) :=
  hit ← match sl_best_price s with
        | Some price =>
            r ← get_node_at_price s price;
            Some (match r with
                  | Some n => if negb (PooledList.is_empty (sn_orders n)) then Some price else None
                  | None => None
                  end)
        | None => Some None
        end;
  match hit with
  | Some price => Some (s, Some price)
  | None =>
      b ← best_with_orders s;
      let best := sn_price_ticks <$> b in
      Some (sl_set_best s best, best)
  end.

Definition invalidate_best_price_cache (s : SkipList) : SkipList := sl_set_best s None.

(** The level-0 walk of [get_top_levels] and [fill_top_levels]: at most [limit]
    (price, total) pairs. *)
Fixpoint top_from (a : list SkipListNode) (limit : nat) (current : nat) : option (list (Z * Z)) :=
  match limit with
  | O => Some []
  | S limit =>
      f ← fwd a current 0;
      match f with
      | None => Some []
      | Some k =>
          n ← a !! k;
          rest ← top_from a limit k;
          Some ((sn_price_ticks n, sn_total_quantity_lots n) :: rest)
      end
  end.

Definition get_top_levels (s : SkipList) (limit : nat) : option (list (Z * Z)) :=
  top_from (sl_arena s) limit (sl_head s).

(** [fill_top_levels]: overwrite a prefix of the caller's buffer. *)
Definition fill_top_levels (s : SkipList) (out : list (Z * Z)) : option (list (Z * Z) * nat) :=
  w ← top_from (sl_arena s) (length out) (sl_head s);
  Some (w ++ drop (length w) out, length w).

(** The loop of [has_cumulative_quantity_until]. *)
Fixpoint cumulative (a : list SkipListNode) (target_qty limit_price : Z)
  (is_market buy_taker : bool) (fuel : nat) (current : nat) (available : Z) : option bool :=
  match fuel with
  | O => None
  | S fuel =>
      f ← fwd a current 0;
      match f with
      | None => Some false
      | Some k =>
          n ← a !! k;
          let price := sn_price_ticks n in
          let acceptable := is_market ||
            (if buy_taker then Z.leb price limit_price else Z.leb limit_price price) in
          if negb acceptable then Some false
          else
            let available := i64_add available (sn_total_quantity_lots n) in
            if Z.leb target_qty available then Some true
            else cumulative a target_qty limit_price is_market buy_taker fuel k available
      end
  end.

Definition has_cumulative_quantity_until (s : SkipList) (target_qty limit_price : Z)
  (is_market buy_taker : bool) : option bool :=
  cumulative (sl_arena s) target_qty limit_price is_market buy_taker
    (walk_fuel (sl_arena s)) (sl_head s) 0.

End SkipList.
