(* ===== verification/SkipListInv.v ===== *)
(** The shape invariant of the skip list: on every level the [forward] links
    form one simple path through exactly the nodes whose height reaches that
    level, in strict price order.  From it follow the correctness of every
    traversal, that no traversal runs out of fuel or dereferences a dangling
    pointer, and that inserting and removing a level keep the shape. *)
From Stdlib Require Import ZArith Lia.
From stdpp Require Import base numbers list gmap sorting.
From S2P Require Import Prelude ListPool SkipList.

#[local] Open Scope Z_scope.

(** ** Price order *)

Definition before (order : SortOrder) (p q : Z) : Prop :=
  match order with Ascending => p < q | Descending => q < p end.

#[global] Instance before_dec order p q : Decision (before order p q).
Proof. destruct order; simpl; apply _. Defined.

Lemma should_insert_spec order p q :
  SkipList.should_insert order p q = bool_decide (before order p q).
Proof.
  destruct order; simpl; case_bool_decide; simpl in *;
    [apply Z.ltb_lt | apply Z.ltb_nlt | apply Z.ltb_lt | apply Z.ltb_nlt]; lia.
Qed.

Lemma before_irrefl order p : ~ before order p p.
Proof. destruct order; simpl; lia. Qed.
Lemma before_trans order p q r : before order p q -> before order q r -> before order p r.
Proof. destruct order; simpl; lia. Qed.
Lemma before_total order p q : ~ before order p q -> p <> q -> before order q p.
Proof. destruct order; simpl; lia. Qed.
Lemma before_asym order p q : before order p q -> ~ before order q p.
Proof. destruct order; simpl; lia. Qed.

(** ** Arena accessors *)

Definition price_of (a : list SkipListNode) (k : nat) : Z :=
  default 0 (sn_price_ticks <$> a !! k).
Definition level_of (a : list SkipListNode) (k : nat) : nat :=
  default O (sn_level <$> a !! k).

(** Nodes of [l] that are linked on level [i]. *)
Definition at_level (a : list SkipListNode) (i : nat) (l : list nat) : list nat :=
  filter (fun k => (i <= level_of a k)%nat) l.

(** Last element of a path that starts at [c]. *)
Fixpoint path_end (c : nat) (l : list nat) : nat :=
  match l with [] => c | k :: l => path_end k l end.

(** The level-[i] links lead from [c] through [l] (and then on). *)
Fixpoint seg (a : list SkipListNode) (i : nat) (c : nat) (l : list nat) : Prop :=
  match l with
  | [] => True
  | k :: l => fwd a c i = Some (Some k) /\ seg a i k l
  end.

(** The level-[i] links lead from [c] through [l] and end there. *)
Definition chain (a : list SkipListNode) (i : nat) (c : nat) (l : list nat) : Prop :=
  seg a i c l /\ fwd a (path_end c l) i = Some None.

(** ** The invariant: [ks] are the arena indices of the price levels, in order *)

Record skip_ok (s : SkipList) (ks : list nat) : Prop := {
  so_head : sl_head s = O;
  so_perm : O :: ks ++ sl_free_nodes s ≡ₚ seq 0 (length (sl_arena s));
  so_fwd : forall k n, sl_arena s !! k = Some n -> length (sn_forward n) = MAX_LEVEL;
  so_sorted : StronglySorted
    (fun j k => before (sl_order s) (price_of (sl_arena s) j) (price_of (sl_arena s) k)) ks;
  so_levels : forall k, k ∈ ks -> (level_of (sl_arena s) k <= sl_level s)%nat;
  so_max : (sl_level s < MAX_LEVEL)%nat;
  so_chain : forall i, (i < MAX_LEVEL)%nat ->
    chain (sl_arena s) i O (at_level (sl_arena s) i ks);
  so_count : sl_count s = wrap_u64 (Z.of_nat (length ks))
}.

(** ** Paths *)

Lemma path_end_app c X Y : path_end c (X ++ Y) = path_end (path_end c X) Y.
Proof. revert c. induction X; intros c; simpl; auto. Qed.

Lemma path_end_elem c l : path_end c l = c \/ path_end c l ∈ l.
Proof.
  revert c. induction l as [|k l IH]; intros c; simpl; [by left|].
  right. destruct (IH k) as [->|]; set_solver.
Qed.

Lemma path_end_in c l : path_end c l ∈ c :: l.
Proof. destruct (path_end_elem c l) as [->|]; set_solver. Qed.

(** Entering a level at the last node reached on the level above. *)
Lemma path_end_enter c L1 L2 :
  (forall k, k ∈ L1 -> k ∈ L2) ->
  exists X Y, L2 = X ++ Y /\ path_end c X = path_end c L1.
Proof.
  intros Hsub. destruct L1 as [|j L1 _] using rev_ind; [by exists [], L2|].
  assert (j ∈ L2) as (X & Y & ->)%list_elem_of_split by (apply Hsub; set_solver).
  exists (X ++ [j]), Y. rewrite <- app_assoc. split; [done|].
  by rewrite !path_end_app.
Qed.

Lemma seg_app a i c X Y : seg a i c (X ++ Y) <-> seg a i c X /\ seg a i (path_end c X) Y.
Proof. revert c. induction X as [|k X IH]; intros c; simpl; [tauto|]. rewrite IH. tauto. Qed.

Lemma chain_app a i c X Y :
  chain a i c (X ++ Y) <-> seg a i c X /\ chain a i (path_end c X) Y.
Proof. unfold chain. rewrite seg_app, path_end_app. tauto. Qed.

Lemma chain_cons a i c k l :
  chain a i c (k :: l) <-> fwd a c i = Some (Some k) /\ chain a i k l.
Proof. unfold chain. simpl. tauto. Qed.

Lemma chain_head a i c l : chain a i c l -> fwd a c i = Some (head l).
Proof. destruct l; [by intros []|]. by intros []%chain_cons. Qed.

Lemma chain_lookup a i c l k : chain a i c l -> k ∈ c :: l -> is_Some (a !! k).
Proof.
  revert c. induction l as [|j l IH]; intros c Hc.
  - intros ->%list_elem_of_singleton. destruct Hc as [_ Hc]. simpl in Hc.
    unfold fwd in Hc. destruct (a !! c); [done | discriminate].
  - apply chain_cons in Hc as [Hf Hc]. intros [->|Hk]%elem_of_cons; [|by eapply IH].
    unfold fwd in Hf. destruct (a !! c); [done | discriminate].
Qed.

Lemma seg_frame a a' i c l :
  (forall k, k ∈ c :: l -> path_end c l = k \/ fwd a' k i = fwd a k i) ->
  NoDup (c :: l) -> seg a i c l -> seg a' i c l.
Proof.
  revert c. induction l as [|k l IH]; intros c Hs Hnd; simpl; [done|].
  intros [Hf Hl]. apply NoDup_cons in Hnd as [Hc Hnd]. split.
  - destruct (Hs c) as [He| ->]; [set_solver| |done]. simpl in He. subst.
    destruct Hc. apply path_end_in.
  - apply IH; [|done..]. intros j Hj. apply (Hs j). set_solver.
Qed.

Lemma chain_frame a a' i c l :
  (forall k, k ∈ c :: l -> fwd a' k i = fwd a k i) -> chain a i c l -> chain a' i c l.
Proof.
  revert c. induction l as [|k l IH]; intros c Hs.
  - intros [_ Hc]. split; [done|]. simpl in *. rewrite Hs; [done|set_solver].
  - rewrite !chain_cons. intros [Hf Hl]. split; [rewrite Hs; [done|set_solver]|].
    apply IH; [set_solver|done].
Qed.

Lemma chain_insert a a' i c X Y k :
  chain a i c (X ++ Y) -> NoDup (c :: X ++ Y) -> k ∉ c :: X ++ Y ->
  fwd a' k i = fwd a (path_end c X) i ->
  fwd a' (path_end c X) i = Some (Some k) ->
  (forall j, j ∈ c :: X ++ Y -> j <> path_end c X -> fwd a' j i = fwd a j i) ->
  chain a' i c (X ++ k :: Y).
Proof.
  intros [HX HY]%chain_app Hnd Hk Hfk Hfu Hs. apply chain_app.
  assert (NoDup (c :: X)) as HndX.
  { apply (NoDup_app (c :: X) Y) in Hnd. tauto. }
  split.
  - eapply seg_frame; [|done..]. intros j Hj. destruct (decide (j = path_end c X)); [by left|].
    right. apply Hs; [set_solver|done].
  - apply chain_cons. split; [done|]. destruct Y as [|y Y].
    + split; [done|]. simpl. rewrite Hfk. by destruct HY.
    + apply chain_cons in HY as [Hy HY]. apply chain_cons. split; [by rewrite Hfk|].
      eapply chain_frame; [|done]. intros j Hj. apply Hs; [set_solver|].
      intros ->. pose proof (path_end_in c X).
      apply (NoDup_app (c :: X) (y :: Y)) in Hnd. set_solver.
Qed.

Lemma chain_delete a a' i c X Y k :
  chain a i c (X ++ k :: Y) -> NoDup (c :: X ++ k :: Y) ->
  fwd a' (path_end c X) i = fwd a k i ->
  (forall j, j ∈ c :: X ++ Y -> j <> path_end c X -> fwd a' j i = fwd a j i) ->
  chain a' i c (X ++ Y).
Proof.
  intros [HX [Hk HY]%chain_cons]%chain_app Hnd Hfu Hs. apply chain_app.
  apply (NoDup_app (c :: X) (k :: Y)) in Hnd as (HndX & Hdisj & HndY).
  pose proof (path_end_in c X) as He.
  split.
  - eapply seg_frame; [|done..]. intros j Hj. destruct (decide (j = path_end c X)); [by left|].
    right. apply Hs; [set_solver|done].
  - destruct Y as [|y Y].
    + split; [done|]. simpl. rewrite Hfu. by destruct HY.
    + apply chain_cons in HY as [Hy HY]. apply chain_cons. split; [by rewrite Hfu|].
      eapply chain_frame; [|done]. intros j Hj. apply Hs; [set_solver|]. set_solver.
Qed.

(** ** Traversals *)

Lemma price_of_lookup a k n : a !! k = Some n -> price_of a k = sn_price_ticks n.
Proof. intros H. unfold price_of. by rewrite H. Qed.

Section traversal.
Context (a : list SkipListNode) (order : SortOrder) (price : Z).

(** [B] does not continue before [price]. *)
Definition stops (B : list nat) : Prop :=
  forall b, head B = Some b -> ~ before order (price_of a b) price.

Lemma advance_ok i c A B fuel :
  chain a i c (A ++ B) ->
  Forall (fun k => before order (price_of a k) price) A -> stops B ->
  (length A < fuel)%nat ->
  SkipList.advance a order price i fuel c = Some (path_end c A).
Proof.
  revert c fuel. induction A as [|k A IH]; intros c fuel Hc HA HB Hlen;
    (destruct fuel as [|fuel]; [simpl in Hlen; lia|]); simpl.
  - simpl in Hc. rewrite (chain_head _ _ _ _ Hc). simpl.
    destruct B as [|b B]; simpl; [done|].
    destruct (chain_lookup _ _ _ _ b Hc ltac:(set_solver)) as [n Hn]. rewrite Hn. simpl.
    specialize (HB b eq_refl). rewrite (price_of_lookup _ _ _ Hn) in HB.
    destruct (Z.eqb_spec (sn_price_ticks n) price); [done|].
    rewrite should_insert_spec, bool_decide_true; [done|]. by apply before_total.
  - apply chain_cons in Hc as [Hf Hc]. rewrite Hf. simpl.
    destruct (chain_lookup _ _ _ _ k Hc ltac:(set_solver)) as [n Hn]. rewrite Hn. simpl.
    apply Forall_cons in HA as [Hk HA]. rewrite (price_of_lookup _ _ _ Hn) in Hk.
    destruct (Z.eqb_spec (sn_price_ticks n) price) as [He|_].
    { rewrite He in Hk. by apply before_irrefl in Hk. }
    rewrite should_insert_spec, bool_decide_false by by apply before_asym.
    apply IH; try done. simpl in Hlen. lia.
Qed.

Lemma search_level_ok i c A B fuel :
  chain a i c (A ++ B) ->
  Forall (fun k => before order (price_of a k) price) A -> stops B ->
  (length A < fuel)%nat ->
  SkipList.search_level a order price i fuel c =
    Some (match head B with
          | Some b => if Z.eqb (price_of a b) price then inr b else inl (path_end c A)
          | None => inl (path_end c A)
          end).
Proof.
  revert c fuel. induction A as [|k A IH]; intros c fuel Hc HA HB Hlen;
    (destruct fuel as [|fuel]; [simpl in Hlen; lia|]); simpl.
  - simpl in Hc. rewrite (chain_head _ _ _ _ Hc). simpl.
    destruct B as [|b B]; simpl; [done|].
    destruct (chain_lookup _ _ _ _ b Hc ltac:(set_solver)) as [n Hn]. rewrite Hn. simpl.
    specialize (HB b eq_refl). rewrite (price_of_lookup _ _ _ Hn) in *.
    destruct (Z.eqb_spec (sn_price_ticks n) price); [done|].
    rewrite should_insert_spec, bool_decide_true; [done|]. by apply before_total.
  - apply chain_cons in Hc as [Hf Hc]. rewrite Hf. simpl.
    destruct (chain_lookup _ _ _ _ k Hc ltac:(set_solver)) as [n Hn]. rewrite Hn. simpl.
    apply Forall_cons in HA as [Hk HA]. rewrite (price_of_lookup _ _ _ Hn) in Hk.
    destruct (Z.eqb_spec (sn_price_ticks n) price) as [He|_].
    { rewrite He in Hk. by apply before_irrefl in Hk. }
    rewrite should_insert_spec, bool_decide_false by by apply before_asym.
    apply IH; try done. simpl in Hlen. lia.
Qed.
End traversal.

Lemma at_level_app a i X Y : at_level a i (X ++ Y) = at_level a i X ++ at_level a i Y.
Proof. apply filter_app. Qed.

Lemma at_level_in a i l k : k ∈ at_level a i l -> k ∈ l.
Proof. unfold at_level. rewrite list_elem_of_filter. tauto. Qed.

Lemma at_level_mono a i l k : k ∈ at_level a (S i) l -> k ∈ at_level a i l.
Proof. unfold at_level. rewrite !list_elem_of_filter. intros []. split; [lia|done]. Qed.

Lemma at_level_0 a l : at_level a 0 l = l.
Proof.
  unfold at_level. induction l as [|k l IH]; [done|].
  rewrite filter_cons_True by lia. by rewrite IH.
Qed.

Lemma at_level_ext a a' i l :
  (forall k, k ∈ l -> level_of a' k = level_of a k) -> at_level a' i l = at_level a i l.
Proof.
  unfold at_level. induction l as [|k l IH]; intros Hl; [done|].
  rewrite !filter_cons, Hl, IH by set_solver. done.
Qed.

Lemma at_level_nil a i l :
  (forall k, k ∈ l -> (level_of a k < i)%nat) -> at_level a i l = [].
Proof.
  unfold at_level. induction l as [|k l IH]; intros Hl; [done|].
  rewrite filter_cons_False, IH; [done|set_solver|].
  specialize (Hl k ltac:(set_solver)). lia.
Qed.

Lemma NoDup_at_level a i l : NoDup l -> NoDup (at_level a i l).
Proof. apply NoDup_filter. Qed.

Lemma skip_NoDup s ks : skip_ok s ks -> NoDup (O :: ks ++ sl_free_nodes s).
Proof. intros []. rewrite so_perm0. apply NoDup_seq. Qed.

Lemma skip_NoDup_ks s ks : skip_ok s ks -> NoDup (O :: ks).
Proof. intros H%skip_NoDup. by apply (NoDup_app (O :: ks)) in H as (? & _). Qed.

Lemma skip_length s ks : skip_ok s ks -> (length ks < length (sl_arena s))%nat.
Proof.
  intros []. apply Permutation_length in so_perm0.
  rewrite length_seq in so_perm0. simpl in so_perm0. rewrite length_app in so_perm0. lia.
Qed.

Lemma skip_lookup s ks k : skip_ok s ks -> k ∈ O :: ks -> is_Some (sl_arena s !! k).
Proof.
  intros H Hk. eapply (chain_lookup _ 0 O (at_level (sl_arena s) 0 ks)).
  - apply H. unfold MAX_LEVEL. lia.
  - by rewrite at_level_0.
Qed.

Lemma skip_chain0 s ks : skip_ok s ks -> chain (sl_arena s) 0 O ks.
Proof. intros H. rewrite <- (at_level_0 (sl_arena s) ks). apply H. unfold MAX_LEVEL. lia. Qed.

(** [A] are the levels before [price], [B] the others. *)
Record split_at (s : SkipList) (price : Z) (ks A B : list nat) : Prop := {
  sp_eq : ks = A ++ B;
  sp_A : Forall (fun k => before (sl_order s) (price_of (sl_arena s) k) price) A;
  sp_B : Forall (fun k => ~ before (sl_order s) (price_of (sl_arena s) k) price) B
}.

Lemma split_exists s ks price : skip_ok s ks -> exists A B, split_at s price ks A B.
Proof.
  intros H. pose proof (so_sorted _ _ H) as Hs. clear H. induction Hs as [|k ks Hs IH Hk].
  - exists [], []. by split.
  - destruct (decide (before (sl_order s) (price_of (sl_arena s) k) price)) as [Hb|Hb].
    + destruct IH as (A & B & [-> HA HB]). exists (k :: A), B. split; auto.
    + exists [], (k :: ks). split; [done..|]. constructor; [done|].
      eapply Forall_impl; [exact Hk|]. simpl. intros j Hj Hjp. apply Hb.
      by eapply before_trans.
Qed.

(** The node at [price], if there is one, is the first of [B]. *)
Definition hit (s : SkipList) (price : Z) (B : list nat) : option nat :=
  match head B with
  | Some b => if Z.eqb (price_of (sl_arena s) b) price then Some b else None
  | None => None
  end.

Section find.
Context (s : SkipList) (ks A B : list nat) (price : Z).
Context (Hok : skip_ok s ks) (Hsp : split_at s price ks A B).

Let a := sl_arena s.
Let fA i := at_level a i A.
Let fB i := at_level a i B.

Lemma find_chain i : (i < MAX_LEVEL)%nat -> chain a i O (fA i ++ fB i).
Proof.
  intros Hi. unfold fA, fB. rewrite <- at_level_app, <- (sp_eq _ _ _ _ _ Hsp). by apply Hok.
Qed.

Lemma find_stops i : stops a (sl_order s) price (fB i).
Proof.
  intros b Hb. assert (b ∈ fB i) as Hin%at_level_in by (by apply head_Some_elem_of).
  pose proof (sp_B _ _ _ _ _ Hsp) as HB. rewrite Forall_forall in HB. by apply HB.
Qed.

(** Start of level [i]: the end of a path of nodes also linked on level [i]. *)
Lemma find_enter i L :
  (i < MAX_LEVEL)%nat -> (forall k, k ∈ L -> k ∈ fA i) ->
  exists Y, chain a i (path_end O L) (Y ++ fB i) /\
    Forall (fun k => before (sl_order s) (price_of a k) price) Y /\
    path_end (path_end O L) Y = path_end O (fA i) /\ (length Y < SkipList.walk_fuel a)%nat.
Proof.
  intros Hi HL. destruct (path_end_enter O L (fA i) HL) as (X & Y & HfA & HX).
  pose proof (find_chain i Hi) as Hc. rewrite HfA, <- app_assoc in Hc.
  apply chain_app in Hc as [_ Hc]. rewrite HX in Hc. exists Y. split_and!; [done| | |].
  - apply Forall_forall. intros k Hk. pose proof (sp_A _ _ _ _ _ Hsp) as HA.
    rewrite Forall_forall in HA. apply HA. apply (at_level_in a i). change (k ∈ fA i).
    rewrite HfA. set_solver.
  - by rewrite <- HX, <- path_end_app, <- HfA.
  - pose proof (skip_length _ _ Hok) as Hl. rewrite (sp_eq _ _ _ _ _ Hsp), length_app in Hl.
    assert (length (fA i) <= length A)%nat as HfAl by apply length_filter.
    rewrite HfA, length_app in HfAl. unfold SkipList.walk_fuel, a. lia.
Qed.

Lemma locate_from_ok i L :
  (i < MAX_LEVEL)%nat -> (forall k, k ∈ L -> k ∈ fA i) ->
  SkipList.locate_from a (sl_order s) price i (path_end O L) = Some (path_end O A).
Proof.
  revert L. induction i as [|i IH]; intros L Hi HL;
    destruct (find_enter _ L Hi HL) as (Y & Hc & HY & HE & Hlen);
    cbn [SkipList.locate_from SkipList.descend];
    rewrite (advance_ok a (sl_order s) price _ _ Y (fB _)) by (done || apply find_stops);
    simpl; rewrite HE.
  - unfold fA. by rewrite at_level_0.
  - apply (IH (fA (S i))); [lia|]. intros k. apply at_level_mono.
Qed.

Lemma descend_ok i L update :
  (i < MAX_LEVEL)%nat -> (forall k, k ∈ L -> k ∈ fA i) -> length update = MAX_LEVEL ->
  exists u, SkipList.descend a (sl_order s) price i (path_end O L) update = Some (u, path_end O A) /\
    length u = MAX_LEVEL /\
    (forall j, (j <= i)%nat -> u !! j = Some (Some (path_end O (fA j)))) /\
    (forall j, (i < j)%nat -> u !! j = update !! j).
Proof.
  revert L update. induction i as [|i IH]; intros L update Hi HL Hlu;
    destruct (find_enter _ L Hi HL) as (Y & Hc & HY & HE & Hlen);
    cbn [SkipList.locate_from SkipList.descend];
    rewrite (advance_ok a (sl_order s) price _ _ Y (fB _)) by (done || apply find_stops);
    simpl; rewrite HE.
  - exists (<[O := Some (path_end O (fA 0))]> update). split_and!.
    + unfold fA. by rewrite at_level_0.
    + by rewrite length_insert.
    + intros j Hj. replace j with O by lia. apply list_lookup_insert_eq. lia.
    + intros j Hj. apply list_lookup_insert_ne. lia.
  - destruct (IH (fA (S i)) (<[S i := Some (path_end O (fA (S i)))]> update))
      as (u & -> & Hl & Hlo & Hhi).
    + lia.
    + intros k. apply at_level_mono.
    + by rewrite length_insert.
    + exists u. split_and!; [done..| |].
      * intros j Hj. destruct (decide (j = S i)) as [->|]; [|apply Hlo; lia].
        rewrite Hhi by lia. apply list_lookup_insert_eq. lia.
      * intros j Hj. rewrite Hhi by lia. apply list_lookup_insert_ne. lia.
Qed.

Lemma fill_heads_ok n m u :
  length u = MAX_LEVEL -> (n + m = MAX_LEVEL)%nat ->
  let u' := foldl (fun u i => <[i := Some (sl_head s)]> u) u (seq n m) in
  length u' = MAX_LEVEL /\
  (forall j, (j < n)%nat -> u' !! j = u !! j) /\
  (forall j, (n <= j < MAX_LEVEL)%nat -> u' !! j = Some (Some (sl_head s))).
Proof.
  revert n u. induction m as [|m IH]; intros n u Hl Hnm; simpl; [naive_solver lia|].
  destruct (IH (S n) (<[n := Some (sl_head s)]> u)) as (Hl' & Hlo & Hhi).
  { by rewrite length_insert. } { lia. }
  split_and!; [done| |].
  - intros j Hj. rewrite Hlo by lia. apply list_lookup_insert_ne. lia.
  - intros j Hj. destruct (decide (j = n)) as [->|]; [|apply Hhi; lia].
    rewrite Hlo by lia. apply list_lookup_insert_eq. lia.
Qed.

Lemma find_update_ok :
  exists u, SkipList.find_update s price = Some (u, path_end O A) /\
    forall j, (j < MAX_LEVEL)%nat -> u !! j = Some (Some (path_end O (fA j))).
Proof.
  pose proof (so_max _ _ Hok) as Hmax. pose proof (so_head _ _ Hok) as Hh.
  destruct (descend_ok (sl_level s) [] no_links Hmax) as (u & Hd & Hl & Hlo & _).
  { set_solver. } { done. }
  unfold SkipList.find_update. rewrite Hh. simpl in Hd. fold a. rewrite Hd. simpl.
  eexists. split; [done|].
  destruct (fill_heads_ok (S (sl_level s)) (MAX_LEVEL - S (sl_level s)) u Hl) as (_ & Hlo' & Hhi).
  { lia. }
  rewrite Hh in *. intros j Hj. destruct (decide (j <= sl_level s)%nat).
  - rewrite Hlo' by lia. by apply Hlo.
  - rewrite Hhi by lia. unfold fA. rewrite at_level_nil; [done|].
    intros k Hk. pose proof (so_levels _ _ Hok k) as Hlev.
    rewrite (sp_eq _ _ _ _ _ Hsp) in Hlev. specialize (Hlev ltac:(set_solver)). unfold a. lia.
Qed.

Lemma locate_ok : SkipList.locate s price = Some (hit s price B).
Proof.
  unfold SkipList.locate. rewrite (so_head _ _ Hok).
  pose proof (locate_from_ok (sl_level s) [] (so_max _ _ Hok) ltac:(set_solver)) as HL.
  simpl in HL. fold a. rewrite HL. simpl.
  pose proof (skip_chain0 _ _ Hok) as Hc. rewrite (sp_eq _ _ _ _ _ Hsp) in Hc.
  apply chain_app in Hc as [_ Hc]. fold a in Hc. rewrite (chain_head _ _ _ _ Hc). simpl.
  unfold hit. destruct B as [|b B']; simpl; [done|].
  destruct (chain_lookup _ _ _ _ b Hc ltac:(set_solver)) as [n Hn]. rewrite Hn. simpl.
  fold a. rewrite (price_of_lookup _ _ _ Hn). by destruct (Z.eqb _ _).
Qed.

(** On every level the first node not before [price] tells whether the level
    holds the node at [price]. *)
Lemma search_hit i : (i < MAX_LEVEL)%nat ->
  match head (fB i) with
  | Some b => if Z.eqb (price_of a b) price then hit s price B = Some b else
      (forall b', hit s price B = Some b' -> (level_of a b' < i)%nat)
  | None => forall b', hit s price B = Some b' -> (level_of a b' < i)%nat
  end.
Proof.
  intros Hi. unfold hit, fB. destruct B as [|b B'] eqn:EB; [done|]. simpl. fold a.
  unfold at_level. rewrite filter_cons. fold (at_level a i B'). case_decide as Hlev; simpl.
  - destruct (Z.eqb _ _); [done|]. naive_solver.
  - assert (Forall (fun k => before (sl_order s) (price_of a b) (price_of a k)) B') as Hafter.
    { pose proof (so_sorted _ _ Hok) as Hs. rewrite (sp_eq _ _ _ _ _ Hsp) in Hs.
      apply StronglySorted_app_1_r in Hs. by apply StronglySorted_cons in Hs as [? _]. }
    assert (~ before (sl_order s) (price_of a b) price) as Hnb.
    { pose proof (sp_B _ _ _ _ _ Hsp) as HB. by apply Forall_cons in HB as []. }
    destruct (head (at_level a i B')) as [b'|] eqn:Hb'.
    + assert (b' ∈ B') as Hin by (apply (at_level_in a i), head_Some_elem_of; done).
      rewrite Forall_forall in Hafter. specialize (Hafter _ Hin).
      destruct (Z.eqb_spec (price_of a b') price) as [He|]; [rewrite He in Hafter; done|].
      intros j. destruct (Z.eqb _ _); intros; simplify_eq. lia.
    + intros j. destruct (Z.eqb _ _); intros; simplify_eq. lia.
Qed.

Lemma search_ok i L :
  (i < MAX_LEVEL)%nat -> (forall k, k ∈ L -> k ∈ fA i) ->
  (forall b, hit s price B = Some b -> (level_of a b <= i)%nat) ->
  SkipList.search a (sl_order s) price i (path_end O L) = Some (hit s price B).
Proof.
  revert L. induction i as [|i IH]; intros L Hi HL Hlv;
    destruct (find_enter _ L Hi HL) as (Y & Hc & HY & HE & Hlen);
    pose proof (search_hit _ Hi) as Hh; cbn [SkipList.search];
    rewrite (search_level_ok a (sl_order s) price _ _ Y (fB _)) by (done || apply find_stops);
    simpl; rewrite HE.
  - destruct (head (fB 0)) as [b|]; [destruct (Z.eqb _ _)|]; simpl; try congruence;
      (destruct (hit s price B) as [b'|]; [specialize (Hh b' eq_refl); lia | done]).
  - assert (forall b, hit s price B = Some b -> (level_of a b < S i)%nat ->
              (level_of a b <= i)%nat) as Hdown by lia.
    destruct (head (fB (S i))) as [b|]; [destruct (Z.eqb _ _)|]; simpl; try congruence;
      (apply (IH (fA (S i))); [lia | intros k; apply at_level_mono | naive_solver lia]).
Qed.

Lemma get_node_mut_ok : SkipList.get_node_mut s price = Some (hit s price B).
Proof.
  unfold SkipList.get_node_mut. rewrite (so_head _ _ Hok).
  apply (search_ok (sl_level s) []).
  - apply Hok.
  - set_solver.
  - intros b Hb. apply Hok. rewrite (sp_eq _ _ _ _ _ Hsp).
    unfold hit in Hb. destruct B; simpl in *; [done|]. destruct (Z.eqb _ _); set_solver.
Qed.
End find.

(** ** Pointer writes *)

(** Everything of a node but its links. *)
Definition node_data (n : SkipListNode) : Z * Z * PooledList * nat * nat :=
  (sn_price_ticks n, sn_total_quantity_lots n, sn_orders n, sn_level n, length (sn_forward n)).

Definition same_data (a a' : list SkipListNode) : Prop :=
  length a' = length a /\ forall k, node_data <$> a' !! k = node_data <$> a !! k.

Lemma same_data_refl a : same_data a a.
Proof. by split. Qed.
Lemma same_data_trans a b c : same_data a b -> same_data b c -> same_data a c.
Proof. intros [? H1] [? H2]. split; [congruence|]. intros k. by rewrite H2, H1. Qed.

Lemma same_data_lookup a a' k n :
  same_data a a' -> a !! k = Some n -> exists n', a' !! k = Some n' /\ node_data n' = node_data n.
Proof.
  intros [_ H] Hn. specialize (H k). rewrite Hn in H.
  destruct (a' !! k) as [n'|]; simpl in H; [|done]. exists n'. split; congruence.
Qed.

Lemma price_of_data a a' k :
  node_data <$> a' !! k = node_data <$> a !! k -> price_of a' k = price_of a k.
Proof.
  unfold price_of. destruct (a' !! k), (a !! k); simpl; try done. unfold node_data. congruence.
Qed.
Lemma level_of_data a a' k :
  node_data <$> a' !! k = node_data <$> a !! k -> level_of a' k = level_of a k.
Proof.
  unfold level_of. destruct (a' !! k), (a !! k); simpl; try done. unfold node_data. congruence.
Qed.

Lemma set_fwd_ok a c i v n :
  a !! c = Some n -> (i < length (sn_forward n))%nat ->
  exists a', set_fwd a c i v = Some a' /\ same_data a a' /\
    forall c' j, fwd a' c' j = if decide (c' = c /\ j = i) then Some v else fwd a c' j.
Proof.
  intros Hn Hi. unfold set_fwd. rewrite Hn. simpl.
  destruct (lookup_lt_is_Some_2 _ _ Hi) as [w Hw]. rewrite Hw. simpl.
  assert (c < length a)%nat as Hc by by eapply lookup_lt_Some.
  eexists. split; [done|]. split.
  - split; [apply length_insert|]. intros k. destruct (decide (k = c)) as [->|].
    + rewrite list_lookup_insert_eq, Hn by done. simpl. unfold node_data. simpl.
      by rewrite length_insert.
    + by rewrite list_lookup_insert_ne.
  - intros c' j. unfold fwd. destruct (decide (c' = c)) as [->|].
    + rewrite list_lookup_insert_eq, Hn by done. simpl. destruct (decide (j = i)) as [->|].
      * rewrite decide_True by done. by apply list_lookup_insert_eq.
      * rewrite decide_False by tauto. by apply list_lookup_insert_ne.
    + rewrite list_lookup_insert_ne by done. rewrite decide_False by tauto. done.
Qed.

Lemma fwd_None_lookup a c i v : fwd a c i = Some v -> exists n,
  a !! c = Some n /\ (i < length (sn_forward n))%nat.
Proof.
  unfold fwd. destruct (a !! c) as [n|]; simpl; [|done]. intros H%lookup_lt_Some. eauto.
Qed.

(** ** Inserting a level *)

Lemma promote_le fuel lv bits : (SkipList.promote fuel lv bits <= lv + fuel)%nat.
Proof.
  revert lv bits. induction fuel as [|fuel IH]; intros lv bits; simpl; [lia|].
  destruct (Z.eqb _ _); [|lia]. specialize (IH (S lv) (Z.shiftr bits 2)). lia.
Qed.

Lemma random_level_lt s : (snd (SkipList.random_level s) < MAX_LEVEL)%nat.
Proof.
  unfold SkipList.random_level. cbv zeta. cbn [snd].
  match goal with |- (SkipList.promote ?f ?l ?b < _)%nat => pose proof (promote_le f l b) end.
  unfold MAX_LEVEL in *. lia.
Qed.

(** One linking step: level [i] now passes through [new], the others are as before. *)
Lemma link_at_ok a new update i A B :
  (exists n, a !! new = Some n /\ (i < length (sn_forward n))%nat) ->
  update !! i = Some (Some (path_end O A)) ->
  chain a i O (A ++ B) -> NoDup (O :: A ++ B) -> new ∉ O :: A ++ B ->
  exists a', SkipList.link_at new update a i = Some a' /\ same_data a a' /\
    chain a' i O (A ++ new :: B) /\
    (forall c j, j <> i -> fwd a' c j = fwd a c j).
Proof.
  intros (n & Hn & Hi) Hu Hc Hnd Hnew. unfold SkipList.link_at. rewrite Hu. simpl.
  pose proof Hc as [_ HcB]%chain_app. pose proof (chain_head _ _ _ _ HcB) as Hf.
  rewrite Hf. simpl.
  destruct (set_fwd_ok a new i (head B) n Hn Hi) as (a1 & -> & Hd1 & Hf1). simpl.
  assert (path_end O A <> new) as Hne by (pose proof (path_end_in O A); set_solver).
  assert (fwd a1 (path_end O A) i = Some (head B)) as Hf1'.
  { rewrite Hf1, decide_False by tauto. done. }
  destruct (fwd_None_lookup _ _ _ _ Hf1') as (n1 & Hn1 & Hi1).
  destruct (set_fwd_ok a1 (path_end O A) i (Some new) n1 Hn1 Hi1) as (a2 & -> & Hd2 & Hf2).
  exists a2. split_and!; [done | by eapply same_data_trans | |].
  - eapply chain_insert; [done..| | |].
    + rewrite Hf2, decide_False by naive_solver. rewrite Hf1, decide_True by done. done.
    + by rewrite Hf2, decide_True.
    + intros j Hj Hje. rewrite Hf2, decide_False by tauto.
      rewrite Hf1, decide_False by set_solver. done.
  - intros c j Hj. rewrite Hf2, decide_False by tauto. by rewrite Hf1, decide_False by tauto.
Qed.

Lemma link_loop_ok a new update A B m :
  (m <= MAX_LEVEL)%nat ->
  (exists n, a !! new = Some n /\ length (sn_forward n) = MAX_LEVEL) ->
  (forall j, (j < MAX_LEVEL)%nat -> update !! j = Some (Some (path_end O (at_level a j A)))) ->
  (forall j, (j < MAX_LEVEL)%nat -> chain a j O (at_level a j A ++ at_level a j B)) ->
  NoDup (O :: A ++ B) -> new ∉ O :: A ++ B ->
  exists a', mfold (SkipList.link_at new update) a (seq 0 m) = Some a' /\ same_data a a' /\
    (forall j, (j < m)%nat -> chain a' j O (at_level a j A ++ new :: at_level a j B)) /\
    (forall c j, (m <= j)%nat -> fwd a' c j = fwd a c j).
Proof.
  intros Hm (n & Hn & Hln) Hu Hc Hnd Hnew. induction m as [|m IH].
  - exists a. split_and!; [done | apply same_data_refl | lia | done].
  - destruct IH as (a1 & Hfold & Hd & Hlo & Hhi); [lia|].
    rewrite seq_S, mfold_app, Hfold. simpl.
    destruct (same_data_lookup _ _ _ _ Hd Hn) as (n1 & Hn1 & Hdn).
    assert (forall k, k ∈ at_level a m A ++ at_level a m B -> k ∈ A ++ B) as Hsub.
    { intros k. rewrite <- at_level_app. apply at_level_in. }
    destruct (link_at_ok a1 new update m (at_level a m A) (at_level a m B))
      as (a2 & Hl & Hd2 & Hc2 & Hf2).
    + exists n1. split; [done|]. injection Hdn as _ _ _ _ Hlen. rewrite Hlen, Hln. lia.
    + apply Hu. lia.
    + eapply chain_frame; [|apply Hc; lia]. intros k _. by apply Hhi.
    + apply NoDup_cons in Hnd as [H0 Hnd]. apply NoDup_cons. split; [set_solver|].
      rewrite <- at_level_app. by apply NoDup_at_level.
    + set_solver.
    + rewrite Hl. simpl. exists a2. split_and!; [done | by eapply same_data_trans | |].
      * intros j Hj. destruct (decide (j = m)) as [->|]; [done|].
        eapply chain_frame; [|apply Hlo; lia]. intros k _. apply Hf2. lia.
      * intros c j Hj. rewrite Hf2 by lia. apply Hhi. lia.
Qed.

Lemma alloc_node_ok s ks n :
  skip_ok s ks -> length (sn_forward n) = MAX_LEVEL ->
  exists k a free, SkipList.alloc_node s n = Some (k, a, free) /\
    k ∉ O :: ks /\ a !! k = Some n /\
    (forall j, j ∈ O :: ks -> a !! j = sl_arena s !! j) /\
    O :: k :: ks ++ free ≡ₚ seq 0 (length a) /\
    (forall j m, a !! j = Some m -> length (sn_forward m) = MAX_LEVEL).
Proof.
  intros Hok Hn. pose proof (skip_NoDup _ _ Hok) as Hnd.
  pose proof (so_perm _ _ Hok) as Hp. pose proof (so_fwd _ _ Hok) as Hf.
  unfold SkipList.alloc_node. destruct (vec_pop (sl_free_nodes s)) as [[k free]|] eqn:Hpop.
  - apply vec_pop_Some in Hpop. rewrite Hpop in *.
    assert (k < length (sl_arena s))%nat as Hk.
    { assert (k ∈ seq 0 (length (sl_arena s))) as Hin by (rewrite <- Hp; set_solver).
      apply elem_of_seq in Hin. lia. }
    destruct (lookup_lt_is_Some_2 _ _ Hk) as [m Hm]. rewrite Hm. simpl.
    assert (k ∉ O :: ks) as Hfresh.
    { rewrite app_assoc in Hnd. apply (NoDup_app (O :: ks ++ free) [k]) in Hnd. set_solver. }
    eexists k, _, free. split; [done|]. split_and!; [done|by apply list_lookup_insert_eq| | |].
    + intros j Hj. apply list_lookup_insert_ne. set_solver.
    + rewrite length_insert, <- Hp. apply perm_skip. rewrite app_assoc.
      by rewrite <- Permutation_cons_append.
    + intros j m' Hj. destruct (decide (j = k)) as [->|].
      * rewrite list_lookup_insert_eq in Hj by done. by simplify_eq.
      * rewrite list_lookup_insert_ne in Hj by done. by eapply Hf.
  - assert (sl_free_nodes s = []) as Hnil.
    { destruct (sl_free_nodes s) as [|x l] using rev_ind; [done|]. by rewrite vec_pop_snoc in Hpop. }
    rewrite Hnil in *. eexists (length (sl_arena s)), _, []. split; [done|]. unfold vec_push.
    assert (forall j, j ∈ O :: ks -> (j < length (sl_arena s))%nat) as Hlt.
    { intros j Hj. destruct (skip_lookup _ _ _ Hok Hj) as [? ?]. by eapply lookup_lt_Some. }
    split_and!.
    + intros Hin%Hlt. lia.
    + rewrite lookup_app_r, Nat.sub_diag by lia. done.
    + intros j Hj. apply lookup_app_l. by apply Hlt.
    + rewrite length_app. simpl. rewrite seq_app, <- Hp. simpl. rewrite !app_nil_r.
      apply perm_skip. apply Permutation_cons_append.
    + intros j m Hj. apply lookup_app_Some in Hj as [Hj|[_ Hj]]; [by eapply Hf|].
      by apply list_lookup_singleton_Some in Hj as [_ <-].
Qed.

Lemma skip_ok_rng s ks r : skip_ok s ks -> skip_ok (sl_set_rng s r) ks.
Proof. intros []. by split. Qed.

Lemma split_at_rng s price ks A B r :
  split_at s price ks A B -> split_at (sl_set_rng s r) price ks A B.
Proof. intros []. by split. Qed.

Lemma wrap_u64_succ n : u64_add (wrap_u64 n) 1 = wrap_u64 (n + 1).
Proof. unfold u64_add, wrap_u64. by rewrite Zplus_mod_idemp_l. Qed.

Lemma wrap_u64_pred n : u64_sub (wrap_u64 n) 1 = wrap_u64 (n - 1).
Proof. unfold u64_sub, wrap_u64. by rewrite Zminus_mod_idemp_l. Qed.

(** What an operation that only touches the shape leaves alone. *)
Record shape_frame (s s' : SkipList) (ks : list nat) : Prop := {
  sf_order : sl_order s' = sl_order s;
  sf_pool : sl_list_pool s' = sl_list_pool s;
  sf_best : sl_best_price s' = sl_best_price s;
  sf_data : forall j, j ∈ ks -> node_data <$> sl_arena s' !! j = node_data <$> sl_arena s !! j
}.

Lemma sorted_insert (f g : nat -> Z) order A k B price :
  StronglySorted (fun i j => before order (f i) (f j)) (A ++ B) ->
  Forall (fun i => before order (f i) price) A ->
  Forall (fun i => before order price (f i)) B ->
  g k = price -> (forall i, i ∈ A ++ B -> g i = f i) ->
  StronglySorted (fun i j => before order (g i) (g j)) (A ++ k :: B).
Proof.
  rewrite !Forall_forall. intros Hs HA HB Hk Hg.
  assert (StronglySorted (fun i j => before order (g i) (g j)) (A ++ B)) as Hs'.
  { clear -Hs Hg. induction Hs as [|x l Hs IH Hx]; [constructor|]. constructor.
    - apply IH. set_solver.
    - rewrite Forall_forall in *. intros y Hy. rewrite !Hg by set_solver. by apply Hx. }
  apply StronglySorted_app. split_and!.
  - intros i j Hi [->|Hj]%elem_of_cons.
    + rewrite Hk, Hg by set_solver. by apply HA.
    + by apply (StronglySorted_app_1_elem_of (fun i j => before order (g i) (g j)) A B).
  - by eapply StronglySorted_app_1_l.
  - constructor; [by eapply StronglySorted_app_1_r|]. apply Forall_forall. intros j Hj.
    rewrite Hk, Hg by set_solver. by apply HB.
Qed.

Lemma hit_None_after s price ks A B :
  skip_ok s ks -> split_at s price ks A B -> hit s price B = None ->
  Forall (fun k => before (sl_order s) price (price_of (sl_arena s) k)) B.
Proof.
  intros Hok Hsp Hh. pose proof (so_sorted _ _ Hok) as Hs. destruct Hsp as [-> _ HB].
  apply StronglySorted_app_1_r in Hs. unfold hit in Hh. destruct B as [|b B]; [constructor|].
  simpl in Hh. destruct (Z.eqb_spec (price_of (sl_arena s) b) price); [done|].
  apply Forall_cons in HB as [Hb HB].
  assert (before (sl_order s) price (price_of (sl_arena s) b)) as Hpb by by apply before_total.
  constructor; [done|]. apply StronglySorted_cons in Hs as [Hs _].
  eapply Forall_impl; [done|]. intros k Hk. by eapply before_trans.
Qed.

Lemma random_level_fst s :
  fst (SkipList.random_level s) = sl_set_rng s (sl_rng_state (fst (SkipList.random_level s))).
Proof. reflexivity. Qed.

Lemma insert_level_ok s ks A B price :
  skip_ok s ks -> split_at s price ks A B -> hit s price B = None ->
  exists s' k n, SkipList.insert_level s price = Some (s', Ok ()) /\
    skip_ok s' (A ++ k :: B) /\ k ∉ ks /\ shape_frame s s' ks /\
    sl_arena s' !! k = Some n /\ sn_price_ticks n = price /\
    sn_total_quantity_lots n = 0 /\ sn_orders n = PooledList.new.
Proof.
  intros Hok Hsp Hh. unfold SkipList.insert_level, SkipList.get_node_at_price.
  rewrite (get_node_mut_ok _ _ _ _ _ Hok Hsp), Hh. bind_step.
  pose proof (random_level_lt s) as Hnl. pose proof (random_level_fst s) as Hs1.
  destruct (SkipList.random_level s) as [s1 nl]. cbn [fst snd] in *.
  assert (skip_ok s1 ks) as Hok1 by (rewrite Hs1; by apply skip_ok_rng).
  assert (split_at s1 price ks A B) as Hsp1 by (rewrite Hs1; by apply split_at_rng).
  destruct (find_update_ok _ _ _ _ _ Hok1 Hsp1) as (u & -> & Hu). bind_step.
  destruct (alloc_node_ok s1 ks (SkipListNode_new price nl) Hok1 eq_refl)
    as (k & a & free & -> & Hk & Hak & Haj & Hperm & Hfl). bind_step.
  pose proof (skip_NoDup_ks _ _ Hok1) as Hnd. pose proof (sp_eq _ _ _ _ _ Hsp1) as Hks.
  assert (forall j, j ∈ ks -> level_of a j = level_of (sl_arena s1) j) as Hlev.
  { intros j Hj. unfold level_of. by rewrite Haj by set_solver. }
  assert (forall i, at_level a i A = at_level (sl_arena s1) i A) as HatA.
  { intros i. apply at_level_ext. intros j Hj. apply Hlev. set_solver. }
  assert (forall i, at_level a i B = at_level (sl_arena s1) i B) as HatB.
  { intros i. apply at_level_ext. intros j Hj. apply Hlev. set_solver. }
  assert (forall j, (j < MAX_LEVEL)%nat -> chain a j O (at_level a j A ++ at_level a j B)) as Hch.
  { intros j Hj. rewrite HatA, HatB, <- at_level_app, <- Hks.
    eapply chain_frame; [|by apply Hok1]. intros c Hc. unfold fwd. rewrite Haj; [done|].
    apply elem_of_cons in Hc as [->|Hc]; [set_solver|]. apply at_level_in in Hc. set_solver. }
  destruct (link_loop_ok a k u A B (S nl)) as (a' & -> & Hd & Hlo & Hhi).
  { lia. } { by exists (SkipListNode_new price nl). }
  { intros j Hj. rewrite HatA. by apply Hu. } { done. } { by rewrite <- Hks. }
  { by rewrite <- Hks. }
  bind_step. destruct (same_data_lookup _ _ _ _ Hd Hak) as (n & Hn & Hdn).
  injection Hdn as Hn1 Hn2 Hn3 Hn4 _.
  assert (forall j, j ∈ ks -> node_data <$> a' !! j = node_data <$> sl_arena s1 !! j) as Hdata.
  { intros j Hj. rewrite (proj2 Hd), Haj by set_solver. done. }
  eexists _, k, n. split; [done|]. split_and!; simpl; try done; [|set_solver|].
  2:{ rewrite Hs1 in Hdata. simpl in Hdata. split; simpl; try done; by rewrite Hs1. }
  assert (forall i, at_level a' i (A ++ k :: B) =
            at_level a i A ++ (if decide (i <= nl)%nat then [k] else []) ++ at_level a i B) as Hat.
  { intros i. assert (forall l, at_level a' i l = at_level a i l) as ->.
    { intros l. apply at_level_ext. intros j _. apply level_of_data, Hd. }
    rewrite at_level_app. f_equal. unfold at_level. rewrite filter_cons.
    assert (level_of a k = nl) as -> by (unfold level_of; by rewrite Hak).
    by repeat case_decide. }
  split; simpl.
  - apply Hok1.
  - rewrite (proj1 Hd), <- Hperm, Hks, <- !app_assoc. apply perm_skip. simpl.
    symmetry. apply Permutation_middle.
  - intros j m Hj. pose proof (proj2 Hd j) as Hdj. rewrite Hj in Hdj.
    destruct (a !! j) as [m0|] eqn:Hm0; [|done]. injection Hdj as _ _ _ _ ->. by eapply Hfl.
  - eapply (sorted_insert (price_of (sl_arena s1))); [rewrite <- Hks; apply Hok1|apply Hsp1| | |].
    + by eapply hit_None_after; [exact Hok1 | exact Hsp1 | rewrite Hs1].
    + by rewrite (price_of_lookup _ _ _ Hn).
    + intros j Hj. apply price_of_data, Hdata. by rewrite Hks.
  - intros j Hj. assert (j = k \/ j ∈ ks) as [->|Hj'] by set_solver.
    + unfold level_of. rewrite Hn. simpl. rewrite Hn4.
      destruct (Nat.ltb_spec (sl_level s1) nl); lia.
    + rewrite (level_of_data _ _ _ (Hdata _ Hj')). pose proof (so_levels _ _ Hok1 j Hj').
      destruct (Nat.ltb_spec (sl_level s1) nl); lia.
  - pose proof (so_max _ _ Hok1). destruct (Nat.ltb_spec (sl_level s1) nl); lia.
  - intros i Hi. rewrite Hat. case_decide as Hin.
    + apply (Hlo i). lia.
    + simpl. eapply chain_frame; [|by apply Hch]. intros c _. apply Hhi. lia.
  - rewrite (so_count _ _ Hok1), wrap_u64_succ, Hks, !length_app. simpl. f_equal. lia.
Qed.

(** ** Removing a level *)

Lemma unlink_at_ok a t update i A B :
  update !! i = Some (Some (path_end O A)) ->
  chain a i O (A ++ t :: B) -> NoDup (O :: A ++ t :: B) ->
  exists a', SkipList.unlink_at t update a i = Some a' /\ same_data a a' /\
    chain a' i O (A ++ B) /\ (forall c j, j <> i -> fwd a' c j = fwd a c j).
Proof.
  intros Hu Hc Hnd. unfold SkipList.unlink_at. rewrite Hu. bind_step.
  pose proof Hc as [_ [Hf Ht]%chain_cons]%chain_app.
  rewrite Hf. bind_step. rewrite decide_True by done.
  rewrite (chain_head _ _ _ _ Ht). bind_step.
  destruct (fwd_None_lookup _ _ _ _ Hf) as (n & Hn & Hi).
  destruct (set_fwd_ok a (path_end O A) i (head B) n Hn Hi) as (a' & -> & Hd & Hf').
  exists a'. split_and!; [done..| |].
  - eapply chain_delete; [done..| |].
    + rewrite Hf', decide_True by done. symmetry. by apply chain_head.
    + intros j _ Hj. by rewrite Hf', decide_False by tauto.
  - intros c j Hj. by rewrite Hf', decide_False by tauto.
Qed.

Lemma unlink_loop_ok a t update A B m :
  (m <= S (level_of a t))%nat -> (m <= MAX_LEVEL)%nat ->
  (forall j, (j < MAX_LEVEL)%nat -> update !! j = Some (Some (path_end O (at_level a j A)))) ->
  (forall j, (j < MAX_LEVEL)%nat -> chain a j O (at_level a j (A ++ t :: B))) ->
  NoDup (O :: A ++ t :: B) ->
  exists a', mfold (SkipList.unlink_at t update) a (seq 0 m) = Some a' /\ same_data a a' /\
    (forall j, (j < m)%nat -> chain a' j O (at_level a j (A ++ B))) /\
    (forall c j, (m <= j)%nat -> fwd a' c j = fwd a c j).
Proof.
  intros Hm HM Hu Hc Hnd. induction m as [|m IH].
  - exists a. split_and!; [done | apply same_data_refl | lia | done].
  - destruct IH as (a1 & Hfold & Hd & Hlo & Hhi); [lia..|].
    rewrite seq_S, mfold_app, Hfold. simpl.
    assert (at_level a m (A ++ t :: B) = at_level a m A ++ t :: at_level a m B) as Hat.
    { rewrite at_level_app. unfold at_level at 2. by rewrite filter_cons_True by lia. }
    destruct (unlink_at_ok a1 t update m (at_level a m A) (at_level a m B))
      as (a2 & Hl & Hd2 & Hc2 & Hf2).
    + apply Hu. lia.
    + rewrite <- Hat. eapply chain_frame; [|apply Hc; lia]. intros k _. by apply Hhi.
    + rewrite <- Hat. apply NoDup_cons in Hnd as [H0 Hnd]. apply NoDup_cons.
      split; [|by apply NoDup_at_level]. intros ?%at_level_in. done.
    + rewrite Hl. simpl. exists a2. split_and!; [done | by eapply same_data_trans | |].
      * intros j Hj. destruct (decide (j = m)) as [->|]; [by rewrite at_level_app|].
        eapply chain_frame; [|apply Hlo; lia]. intros k _. apply Hf2. lia.
      * intros c j Hj. rewrite Hf2 by lia. apply Hhi. lia.
Qed.

Lemma shrink_level_ok a ks lvl :
  (lvl < MAX_LEVEL)%nat ->
  (forall j, (j < MAX_LEVEL)%nat -> chain a j O (at_level a j ks)) ->
  (forall k, k ∈ ks -> (level_of a k <= lvl)%nat) ->
  exists l, SkipList.shrink_level a O lvl = Some l /\ (l <= lvl)%nat /\
    forall k, k ∈ ks -> (level_of a k <= l)%nat.
Proof.
  intros Hl Hc. induction lvl as [|lvl IH]; intros Hlev; simpl.
  - exists O. naive_solver.
  - rewrite (chain_head _ _ _ _ (Hc (S lvl) Hl)). simpl.
    destruct (head (at_level a (S lvl) ks)) as [k|] eqn:Hk; [naive_solver|].
    apply head_None in Hk. destruct IH as (l & -> & ? & ?); [lia| |naive_solver lia].
    intros k Hkin. destruct (decide (S lvl <= level_of a k)%nat); [|lia].
    assert (k ∈ at_level a (S lvl) ks) as Hin by (by apply list_elem_of_filter).
    rewrite Hk in Hin. set_solver.
Qed.

Lemma hit_Some s price B t :
  hit s price B = Some t -> exists B', B = t :: B' /\ price_of (sl_arena s) t = price.
Proof.
  unfold hit. destruct B as [|b B]; simpl; [done|].
  destruct (Z.eqb_spec (price_of (sl_arena s) b) price); intros; simplify_eq. eauto.
Qed.

Lemma sorted_delete (f g : nat -> Z) order A t B :
  StronglySorted (fun i j => before order (f i) (f j)) (A ++ t :: B) ->
  (forall i, i ∈ A ++ B -> g i = f i) ->
  StronglySorted (fun i j => before order (g i) (g j)) (A ++ B).
Proof.
  intros Hs Hg. assert (StronglySorted (fun i j => before order (f i) (f j)) (A ++ B)) as Hs'.
  { apply StronglySorted_app in Hs as (H1 & H2 & H3). apply StronglySorted_app. split_and!.
    - intros i j Hi Hj. apply H1; set_solver.
    - done.
    - by apply StronglySorted_cons in H3 as [_ ?]. }
  clear Hs. induction Hs' as [|x l Hs IH Hx]; [constructor|]. constructor.
  - apply IH. set_solver.
  - rewrite Forall_forall in *. intros y Hy. rewrite !Hg by set_solver. by apply Hx.
Qed.

Lemma remove_level_missing s ks A B price :
  skip_ok s ks -> split_at s price ks A B -> hit s price B = None ->
  SkipList.remove_level s price = Some (s, Err PriceNotFound).
Proof.
  intros Hok Hsp Hh. unfold SkipList.remove_level.
  destruct (find_update_ok _ _ _ _ _ Hok Hsp) as (u & -> & Hu). bind_step.
  rewrite Hu by (unfold MAX_LEVEL; lia). bind_step. rewrite at_level_0.
  pose proof (skip_chain0 _ _ Hok) as Hc. rewrite (sp_eq _ _ _ _ _ Hsp) in Hc.
  apply chain_app in Hc as [_ Hc]. rewrite (chain_head _ _ _ _ Hc). bind_step.
  unfold hit in Hh. destruct B as [|b B]; [done|]. simpl in *.
  destruct (chain_lookup _ _ _ _ b Hc ltac:(set_solver)) as [n Hn]. rewrite Hn. bind_step.
  rewrite (price_of_lookup _ _ _ Hn) in Hh. by destruct (Z.eqb _ _).
Qed.

(** Freeing a node that no chain visits any more. *)
Lemma free_node_ok a t n ks :
  a !! t = Some n -> t ∉ O :: ks ->
  (forall j, (j < MAX_LEVEL)%nat -> chain a j O (at_level a j ks)) ->
  (forall j m, a !! j = Some m -> length (sn_forward m) = MAX_LEVEL) ->
  let a' := <[t := mkSkipListNode (sn_price_ticks n) 0 (PooledList.clear (sn_orders n))
                   (sn_level n) no_links]> a in
  (forall j, (j < MAX_LEVEL)%nat -> chain a' j O (at_level a' j ks)) /\
  (forall j m, a' !! j = Some m -> length (sn_forward m) = MAX_LEVEL) /\
  (forall j, j ∈ ks -> a' !! j = a !! j).
Proof.
  intros Hn Ht Hc Hf a'.
  assert (forall j, j ∈ O :: ks -> a' !! j = a !! j) as Hsame.
  { intros j Hj. apply list_lookup_insert_ne. set_solver. }
  split_and!.
  - intros j Hj. rewrite (at_level_ext a).
    + eapply chain_frame; [|by apply Hc]. intros c Hcin. unfold fwd. rewrite Hsame; [done|].
      apply elem_of_cons in Hcin as [->|Hcin%at_level_in]; set_solver.
    + intros k Hk. unfold level_of. by rewrite Hsame by set_solver.
  - intros j m. destruct (decide (j = t)) as [->|].
    + unfold a'. rewrite list_lookup_insert_eq by (by eapply lookup_lt_Some).
      intros; simplify_eq/=. done.
    + unfold a'. rewrite list_lookup_insert_ne by done. apply Hf.
  - set_solver.
Qed.

Lemma remove_level_ok s ks A B price t :
  skip_ok s ks -> split_at s price ks A (t :: B) -> hit s price (t :: B) = Some t ->
  exists s', SkipList.remove_level s price = Some (s', Ok ()) /\
    skip_ok s' (A ++ B) /\ shape_frame s s' (A ++ B).
Proof.
  intros Hok Hsp Hh. unfold SkipList.remove_level.
  destruct (find_update_ok _ _ _ _ _ Hok Hsp) as (u & -> & Hu). bind_step.
  rewrite Hu by (unfold MAX_LEVEL; lia). bind_step. rewrite at_level_0.
  pose proof (sp_eq _ _ _ _ _ Hsp) as Hks. pose proof (skip_NoDup_ks _ _ Hok) as Hnd.
  pose proof (skip_chain0 _ _ Hok) as Hc. rewrite Hks in Hc, Hnd.
  apply chain_app in Hc as [_ Hc]. rewrite (chain_head _ _ _ _ Hc). bind_step. cbn [head].
  destruct (chain_lookup _ _ _ _ t Hc ltac:(set_solver)) as [n Hn]. rewrite Hn. bind_step.
  apply hit_Some in Hh as (_ & _ & Hpt). rewrite (price_of_lookup _ _ _ Hn) in Hpt.
  rewrite (proj2 (Z.eqb_eq _ _) Hpt). cbn [negb].
  assert (level_of (sl_arena s) t = sn_level n) as Hlt by (unfold level_of; by rewrite Hn).
  assert (sn_level n <= sl_level s)%nat as Hlev.
  { rewrite <- Hlt. apply Hok. rewrite Hks. set_solver. }
  pose proof (so_max _ _ Hok) as Hmax. pose proof (so_chain _ _ Hok) as Hch. rewrite Hks in Hch.
  destruct (unlink_loop_ok (sl_arena s) t u A B (S (sn_level n)))
    as (a & -> & Hd & Hlo & Hhi); [lia..|done|done|done|]. bind_step.
  assert (forall j l, at_level a j l = at_level (sl_arena s) j l) as Hata.
  { intros j l. apply at_level_ext. intros k _. apply level_of_data, Hd. }
  assert (forall j, (j < MAX_LEVEL)%nat -> chain a j O (at_level a j (A ++ B))) as Hcha.
  { intros j Hj. rewrite Hata. destruct (decide (j < S (sn_level n))%nat); [by apply Hlo|].
    assert (at_level (sl_arena s) j (A ++ B) = at_level (sl_arena s) j (A ++ t :: B)) as ->.
    { rewrite !at_level_app. f_equal. unfold at_level at 2.
      rewrite filter_cons_False by lia. done. }
    eapply chain_frame; [|by apply Hch]. intros k _. apply Hhi. lia. }
  assert (forall k, k ∈ A ++ B -> (level_of a k <= sl_level s)%nat) as Hleva.
  { intros k Hk. rewrite (level_of_data _ _ _ (proj2 Hd k)). apply Hok. rewrite Hks. set_solver. }
  rewrite (so_head _ _ Hok).
  destruct (shrink_level_ok a (A ++ B) (sl_level s) Hmax Hcha Hleva) as (l & -> & Hl & Hlevl).
  bind_step. destruct (same_data_lookup _ _ _ _ Hd Hn) as (n' & Hn' & _). rewrite Hn'. bind_step.
  assert (t ∉ O :: A ++ B) as Htn.
  { apply NoDup_cons in Hnd as [H0 Hnd]. apply NoDup_app in Hnd as (_ & ? & [? _]%NoDup_cons).
    set_solver. }
  destruct (free_node_ok a t n' (A ++ B) Hn' Htn Hcha) as (Hc' & Hf' & Hs').
  { intros j m Hj. pose proof (proj2 Hd j) as Hdj. rewrite Hj in Hdj.
    destruct (sl_arena s !! j) eqn:Hm0; [|done]. injection Hdj as _ _ _ _ ->.
    by eapply Hok. }
  assert (forall j, j ∈ A ++ B -> node_data <$> <[t:=mkSkipListNode (sn_price_ticks n') 0
     (PooledList.clear (sn_orders n')) (sn_level n') no_links]> a !! j =
       node_data <$> sl_arena s !! j) as Hdata.
  { intros j Hj. rewrite Hs' by done. apply Hd. }
  eexists. split; [done|]. split; [|by split]. split; simpl; try done.
  - apply Hok.
  - rewrite length_insert, (proj1 Hd), <- (so_perm _ _ Hok), Hks. apply perm_skip.
    unfold vec_push. rewrite <- !app_assoc. simpl. f_equiv.
    rewrite app_assoc. symmetry. apply Permutation_cons_append.
  - eapply sorted_delete; [rewrite <- Hks; apply Hok|]. intros j Hj. by apply price_of_data, Hdata.
  - intros k Hk. rewrite (level_of_data a) by by rewrite Hs'. by apply Hlevl.
  - lia.
  - rewrite (so_count _ _ Hok), wrap_u64_pred, Hks, !length_app. simpl. f_equal. lia.
Qed.

(** [clear] and [new_with_pool] leave an empty, well-shaped list. *)
Lemma clear_ok s ks :
  skip_ok s ks -> exists s', SkipList.clear s = Some s' /\ skip_ok s' [] /\
    sl_order s' = sl_order s /\ sl_list_pool s' = sl_list_pool s /\ sl_best_price s' = None.
Proof.
  intros Hok. unfold SkipList.clear. pose proof (so_head _ _ Hok) as Hh. rewrite Hh.
  destruct (skip_lookup _ _ O Hok ltac:(set_solver)) as [h Hn]. rewrite Hn. bind_step.
  eexists. split; [done|]. split; [|done].
  destruct (sl_arena s) as [|h' rest]; simplify_eq/=. split; simpl; try done.
  - intros [|k] n Hk; simplify_eq/=. done.
  - constructor.
  - set_solver.
  - unfold MAX_LEVEL. lia.
  - intros i Hi. split; [done|]. unfold fwd. simpl. unfold no_links.
    apply lookup_replicate_2. done.
Qed.

Lemma new_with_pool_ok order cap : skip_ok (SkipList.new_with_pool order cap) [].
Proof.
  split; simpl; try done.
  - intros [|k] n Hk; simplify_eq/=. done.
  - constructor.
  - set_solver.
  - unfold MAX_LEVEL. lia.
  - intros i Hi. split; [done|]. unfold fwd. simpl. by apply lookup_replicate_2.
Qed.
