(* ===== verification/BookSpec.v ===== *)
(** The abstract order book of one side: price levels in priority order, each a
    FIFO queue of (order id, resting quantity) entries.  This is what the
    [OrderBook] trait of [src/src/matching/orderbook.rs] promises its client. *)
From Stdlib Require Import ZArith Lia.
From stdpp Require Import base numbers list gmap sorting.
From S2P Require Import Prelude ListPool SkipList SkipListInv.

#[local] Open Scope Z_scope.

Abbreviation queue := (list (Z * Z)).
Abbreviation abook := (list (Z * list (Z * Z))).

(** ** Queues *)

Fixpoint qty_sum (es : queue) : Z :=
  match es with [] => 0 | (_, q) :: es => q + qty_sum es end.

(** Quantity of the first entry of [id]. *)
Fixpoint qty_of (id : Z) (es : queue) : option Z :=
  match es with
  | [] => None
  | (i, q) :: es => if Z.eqb i id then Some q else qty_of id es
  end.

(** Drop the first entry of [id]. *)
Fixpoint remove_id (id : Z) (es : queue) : queue :=
  match es with
  | [] => []
  | (i, q) :: es => if Z.eqb i id then es else (i, q) :: remove_id id es
  end.

(** Reduce the first entry of [id] by [r]. *)
Fixpoint reduce_id (id r : Z) (es : queue) : queue :=
  match es with
  | [] => []
  | (i, q) :: es => if Z.eqb i id then (i, q - r) :: es else (i, q) :: reduce_id id r es
  end.

(** ** Books *)

Fixpoint a_find (p : Z) (ab : abook) : option queue :=
  match ab with
  | [] => None
  | (q, es) :: ab => if Z.eqb q p then Some es else a_find p ab
  end.

Fixpoint a_insert (order : SortOrder) (p : Z) (ab : abook) : abook :=
  match ab with
  | [] => [(p, [])]
  | (q, es) :: ab' =>
      if decide (before order p q) then (p, []) :: ab else (q, es) :: a_insert order p ab'
  end.

Fixpoint a_update (p : Z) (f : queue -> queue) (ab : abook) : abook :=
  match ab with
  | [] => []
  | (q, es) :: ab => if Z.eqb q p then (q, f es) :: ab else (q, es) :: a_update p f ab
  end.

Fixpoint a_remove (p : Z) (ab : abook) : abook :=
  match ab with
  | [] => []
  | (q, es) :: ab => if Z.eqb q p then ab else (q, es) :: a_remove p ab
  end.

(** Best price among the levels that hold an order. *)
Fixpoint a_best (ab : abook) : option Z :=
  match ab with
  | [] => None
  | (p, []) :: ab => a_best ab
  | (p, _ :: _) :: _ => Some p
  end.

Definition a_top (n : nat) (ab : abook) : list (Z * Z) :=
  take n ((fun '(p, es) => (p, qty_sum es)) <$> ab).

Definition a_entries (ab : abook) : queue := concat (snd <$> ab).

Definition a_volume (ab : abook) : Z := qty_sum (a_entries ab).

(** Is [p] an acceptable execution price for the taker? *)
Definition acceptable (is_market buy_taker : bool) (limit p : Z) : bool :=
  is_market || (if buy_taker then Z.leb p limit else Z.leb limit p).

(** Does the volume at acceptable prices reach [target]? *)
Fixpoint a_cumulative (ab : abook) (target limit : Z) (is_market buy_taker : bool)
  (available : Z) : bool :=
  match ab with
  | [] => false
  | (p, es) :: ab =>
      if acceptable is_market buy_taker limit p then
        let available := available + qty_sum es in
        if Z.leb target available then true
        else a_cumulative ab target limit is_market buy_taker available
      else false
  end.

(** What the caller of [get_best_price] sees: the cached price while its level
    holds orders, otherwise the best one. *)
Definition a_best_cached (cached : option Z) (ab : abook) : option Z :=
  match cached with
  | Some p => match a_find p ab with
              | Some (_ :: _) => Some p
              | _ => a_best ab
              end
  | None => a_best ab
  end.

(** Prices in strict priority order. *)
Definition a_sorted (order : SortOrder) (ab : abook) : Prop :=
  StronglySorted (before order) (fst <$> ab).

(** Quantities are non-negative and a level's total fits its [i64]. *)
Definition queue_bounded (es : queue) : Prop :=
  Forall (fun e => 0 <= snd e) es /\ qty_sum es <= i64_max.

(** ** Lemmas *)

Lemma qty_sum_app es1 es2 : qty_sum (es1 ++ es2) = qty_sum es1 + qty_sum es2.
Proof. induction es1 as [|[i q] es1 IH]; simpl; lia. Qed.

Lemma qty_sum_nonneg es : Forall (fun e => 0 <= snd e) es -> 0 <= qty_sum es.
Proof. induction 1 as [|[i q] es]; simpl in *; lia. Qed.

(** The first entry of an id splits its queue. *)
Lemma qty_of_Some id es q :
  qty_of id es = Some q <->
  exists ex ey, es = ex ++ (id, q) :: ey /\ id ∉ ex.*1.
Proof.
  split.
  - induction es as [|[i q'] es IH]; simpl; [done|]. destruct (Z.eqb_spec i id) as [->|Hi].
    + intros [= ->]. exists [], es. set_solver.
    + intros (ex & ey & -> & Hex)%IH. exists ((i, q') :: ex), ey. set_solver.
  - intros (ex & ey & -> & Hex). induction ex as [|[i q'] ex IH]; simpl in *.
    + by rewrite Z.eqb_refl.
    + destruct (Z.eqb_spec i id); [set_solver|]. apply IH. set_solver.
Qed.

Lemma qty_of_None id es : qty_of id es = None <-> id ∉ es.*1.
Proof.
  induction es as [|[i q'] es IH]; simpl; [set_solver|].
  destruct (Z.eqb_spec i id); [set_solver|]. rewrite IH. set_solver.
Qed.

Lemma remove_id_app id ex q ey :
  id ∉ ex.*1 -> remove_id id (ex ++ (id, q) :: ey) = ex ++ ey.
Proof.
  induction ex as [|[i q'] ex IH]; simpl; intros Hid.
  - by rewrite Z.eqb_refl.
  - destruct (Z.eqb_spec i id); [set_solver|]. rewrite IH; [done|set_solver].
Qed.

Lemma reduce_id_app id r ex q ey :
  id ∉ ex.*1 -> reduce_id id r (ex ++ (id, q) :: ey) = ex ++ (id, q - r) :: ey.
Proof.
  induction ex as [|[i q'] ex IH]; simpl; intros Hid.
  - by rewrite Z.eqb_refl.
  - destruct (Z.eqb_spec i id); [set_solver|]. rewrite IH; [done|set_solver].
Qed.

Lemma a_find_skip p A B : p ∉ A.*1 -> a_find p (A ++ B) = a_find p B.
Proof.
  induction A as [|[q es] A IH]; simpl; intros Hp; [done|].
  destruct (Z.eqb_spec q p); [set_solver|]. apply IH. set_solver.
Qed.

Lemma a_find_None p ab : a_find p ab = None <-> p ∉ ab.*1.
Proof.
  induction ab as [|[q es] ab IH]; simpl; [set_solver|].
  destruct (Z.eqb_spec q p); [set_solver|]. rewrite IH. set_solver.
Qed.

Lemma a_update_app p f A es B :
  p ∉ A.*1 -> a_update p f (A ++ (p, es) :: B) = A ++ (p, f es) :: B.
Proof.
  induction A as [|[q es'] A IH]; simpl; intros Hp.
  - by rewrite Z.eqb_refl.
  - destruct (Z.eqb_spec q p); [set_solver|]. rewrite IH; [done|set_solver].
Qed.

Lemma a_remove_app p A es B : p ∉ A.*1 -> a_remove p (A ++ (p, es) :: B) = A ++ B.
Proof.
  induction A as [|[q es'] A IH]; simpl; intros Hp.
  - by rewrite Z.eqb_refl.
  - destruct (Z.eqb_spec q p); [set_solver|]. rewrite IH; [done|set_solver].
Qed.

Lemma a_insert_app order p A B :
  Forall (fun q => before order q p) A.*1 -> Forall (before order p) B.*1 ->
  a_insert order p (A ++ B) = A ++ (p, []) :: B.
Proof.
  intros HA HB. induction A as [|[q es] A IH]; simpl in *.
  - destruct B as [|[q es] B]; simpl in *; [done|]. apply Forall_cons in HB as [? _].
    by rewrite decide_True.
  - apply Forall_cons in HA as [Hq HA]. rewrite decide_False by by apply before_asym.
    by rewrite IH.
Qed.

Lemma a_entries_app ab1 ab2 : a_entries (ab1 ++ ab2) = a_entries ab1 ++ a_entries ab2.
Proof. unfold a_entries. by rewrite fmap_app, concat_app. Qed.

Lemma a_entries_cons p es ab : a_entries ((p, es) :: ab) = es ++ a_entries ab.
Proof. done. Qed.
