(* ===== verification/OrderBook.v ===== *)
(** The interface between the matching engine and its books: the operations of
    the [OrderBook] trait ([src/src/matching/orderbook.rs]) together with the
    inherent [SkipList] methods the engine calls on its [OrderBookWrapper], and
    the laws by which they act on the abstract book of BookSpec.  The engine is
    written and verified against this class; SkipListBook is its instance. *)
From Stdlib Require Import ZArith Lia.
From stdpp Require Import base numbers list gmap sorting.
From S2P Require Import Prelude ListPool SkipList SkipListInv BookSpec.

#[local] Open Scope Z_scope.

(** [PriceLevel]: the layout-compatible prefix of a skip-list node. *)
Record PriceLevel := mkPriceLevel {
  lvl_price_ticks : Z;
  lvl_total_quantity_lots : Z;
  lvl_orders : PooledList
}.

Class OrderBook (B : Type) := {
  ob_new : SortOrder -> nat -> B;
  ob_insert_level : B -> Z -> option (B * result unit BookError);
  ob_get_node_at_price : B -> Z -> option (option PriceLevel);
  ob_get_node_mut : B -> Z -> option (option PriceLevel);
  ob_best : B -> option (option PriceLevel);
  ob_add_order_at_level : B -> Z -> Z -> Z -> option (B * result unit BookError);
  ob_remove_order_at_level : B -> Z -> Z -> option (B * result unit BookError);
  ob_reduce_order_quantity_at_level : B -> Z -> Z -> Z -> option (B * result unit BookError);
  ob_remove_level : B -> Z -> option (B * result unit BookError);
  ob_get_top_levels : B -> nat -> option (list (Z * Z));
  ob_fill_top_levels : B -> list (Z * Z) -> option (list (Z * Z) * nat);
  ob_has_cumulative_quantity_until : B -> Z -> Z -> bool -> bool -> option bool;
  ob_count : B -> Z;
  ob_get_list_pool : B -> ListNodePool;
  ob_get_best_price : B -> option (B * option Z);
  ob_invalidate_best_price : B -> B
}.

(** [level_shows pool lvl p es]: [lvl] is the level at [p] with queue [es]; its
    front slot, read through the list pool, names the first order. *)
Definition level_shows (pool : ListNodePool) (lvl : PriceLevel) (p : Z) (es : queue) : Prop :=
  lvl_price_ticks lvl = p /\
  lvl_total_quantity_lots lvl = qty_sum es /\
  PooledList.is_empty (lvl_orders lvl) = bool_decide (es = []) /\
  match es with
  | [] => PooledList.front (lvl_orders lvl) = None
  | (id, _) :: _ => exists idx n, PooledList.front (lvl_orders lvl) = Some idx /\
      ListNodePool.get pool idx = Some n /\ ln_order_id n = id
  end.

Class OrderBookLaws (B : Type) `{OB : OrderBook B} := {
  ob_repr : B -> abook -> Prop;
  ob_order : B -> SortOrder;
  ob_cached : B -> option Z;
  ob_capacity : B -> nat;
  (** [b'] differs from [b] only in its levels. *)
  ob_keeps (b b' : B) : Prop :=
    ob_order b' = ob_order b /\ ob_capacity b' = ob_capacity b /\ ob_cached b' = ob_cached b;

  law_new order cap : Z.of_nat cap <= u64_max ->
    ob_repr (ob_new order cap) [] /\ ob_order (ob_new order cap) = order /\
    ob_cached (ob_new order cap) = None /\ ob_capacity (ob_new order cap) = cap;
  law_sorted b ab : ob_repr b ab -> a_sorted (ob_order b) ab;
  law_bounded b ab : ob_repr b ab -> Forall (fun l => queue_bounded l.2) ab;
  law_capacity b ab : ob_repr b ab -> (length (a_entries ab) <= ob_capacity b)%nat;
  law_width b ab : ob_repr b ab -> length (lp_nodes (ob_get_list_pool b)) = ob_capacity b;

  law_insert_new b ab p : ob_repr b ab -> a_find p ab = None ->
    exists b', ob_insert_level b p = Some (b', Ok ()) /\
      ob_repr b' (a_insert (ob_order b) p ab) /\ ob_keeps b b';
  law_insert_exists b ab p es : ob_repr b ab -> a_find p ab = Some es ->
    ob_insert_level b p = Some (b, Err PriceLevelAlreadyExists);

  law_get_node b ab p : ob_repr b ab ->
    match a_find p ab with
    | None => ob_get_node_at_price b p = Some None
    | Some es => exists lvl, ob_get_node_at_price b p = Some (Some lvl) /\
        level_shows (ob_get_list_pool b) lvl p es
    end;
  law_get_node_mut b p : ob_get_node_mut b p = ob_get_node_at_price b p;
  law_best b ab : ob_repr b ab ->
    match ab with
    | [] => ob_best b = Some None
    | (p, es) :: _ => exists lvl, ob_best b = Some (Some lvl) /\
        level_shows (ob_get_list_pool b) lvl p es
    end;

  law_add b ab p es id q : ob_repr b ab -> a_find p ab = Some es ->
    (length (a_entries ab) < ob_capacity b)%nat -> 0 <= q -> qty_sum es + q <= i64_max ->
    exists b', ob_add_order_at_level b p id q = Some (b', Ok ()) /\
      ob_repr b' (a_update p (fun es => es ++ [(id, q)]) ab) /\ ob_keeps b b';
  law_add_full b ab p id q : ob_repr b ab -> length (a_entries ab) = ob_capacity b ->
    ob_add_order_at_level b p id q = Some (b, Err ListPoolExhausted);
  law_add_missing b ab p id q : ob_repr b ab -> a_find p ab = None ->
    (length (a_entries ab) < ob_capacity b)%nat ->
    exists b', ob_add_order_at_level b p id q = Some (b', Err (PriceLevelNotFound p)) /\
      ob_repr b' ab /\ ob_keeps b b';

  law_remove_order b ab p es id q : ob_repr b ab -> a_find p ab = Some es ->
    qty_of id es = Some q ->
    exists b', ob_remove_order_at_level b p id = Some (b', Ok ()) /\
      ob_repr b' (a_update p (remove_id id) ab) /\ ob_keeps b b';
  law_remove_order_absent b ab p es id : ob_repr b ab -> a_find p ab = Some es ->
    qty_of id es = None ->
    ob_remove_order_at_level b p id = Some (b, Err (OrderNotFoundAtLevel id p));

  law_reduce b ab p es id q r : ob_repr b ab -> a_find p ab = Some es ->
    qty_of id es = Some q -> 0 <= r <= q ->
    exists b', ob_reduce_order_quantity_at_level b p id r = Some (b', Ok ()) /\
      ob_repr b' (a_update p (reduce_id id r) ab) /\ ob_keeps b b';

  law_remove_level b ab p : ob_repr b ab -> a_find p ab = Some [] ->
    exists b', ob_remove_level b p = Some (b', Ok ()) /\
      ob_repr b' (a_remove p ab) /\ ob_keeps b b';
  law_remove_level_missing b ab p : ob_repr b ab -> a_find p ab = None ->
    ob_remove_level b p = Some (b, Err PriceNotFound);

  law_top b ab n : ob_repr b ab -> ob_get_top_levels b n = Some (a_top n ab);
  law_fill b ab out : ob_repr b ab ->
    ob_fill_top_levels b out =
      let w := a_top (length out) ab in Some (w ++ drop (length w) out, length w);
  law_cumulative b ab target limit is_market buy_taker : ob_repr b ab ->
    a_volume ab <= i64_max ->
    ob_has_cumulative_quantity_until b target limit is_market buy_taker =
      Some (a_cumulative ab target limit is_market buy_taker 0);
  law_count b ab : ob_repr b ab -> ob_count b = wrap_u64 (Z.of_nat (length ab));

  law_get_best b ab : ob_repr b ab ->
    exists b', ob_get_best_price b = Some (b', a_best_cached (ob_cached b) ab) /\
      ob_repr b' ab /\ ob_order b' = ob_order b /\ ob_capacity b' = ob_capacity b /\
      ob_cached b' = a_best_cached (ob_cached b) ab;
  law_invalidate b ab : ob_repr b ab ->
    ob_repr (ob_invalidate_best_price b) ab /\
    ob_order (ob_invalidate_best_price b) = ob_order b /\
    ob_capacity (ob_invalidate_best_price b) = ob_capacity b /\
    ob_cached (ob_invalidate_best_price b) = None
}.
