(* ===== verification/SkipListBook.v ===== *)
(** The skip list implements the order-book interface: the representation
    relation between a [SkipList] and the abstract book, the refinement of
    every operation, and the resulting instances of [OrderBook] and
    [OrderBookLaws]. *)
From Stdlib Require Import ZArith Lia.
From stdpp Require Import base numbers list gmap sorting.
From S2P Require Import Prelude ListPool SkipList SkipListInv BookSpec OrderBook.

#[local] Open Scope Z_scope.

(** ** The instance of the operations *)

(** The pointer cast [&SkipListNode as &PriceLevel]. *)
Definition as_price_level (n : SkipListNode) : PriceLevel :=
  mkPriceLevel (sn_price_ticks n) (sn_total_quantity_lots n) (sn_orders n).

Definition skip_get_node_at_price (s : SkipList) (p : Z) : option (option PriceLevel) :=
  r ← SkipList.get_node_at_price s p; Some (as_price_level <$> (r : option SkipListNode)).

Definition skip_get_node_mut (s : SkipList) (p : Z) : option (option PriceLevel) :=
  r ← SkipList.get_node_mut s p;
  match r with
  | None => Some None
  | Some k => n ← sl_arena s !! k; Some (Some (as_price_level n))
  end.

Definition skip_best (s : SkipList) : option (option PriceLevel) :=
  r ← SkipList.best s; Some (as_price_level <$> (r : option SkipListNode)).

#[global] Instance skip_OrderBook : OrderBook SkipList := {
  ob_new := SkipList.new_with_pool;
  ob_insert_level := SkipList.insert_level;
  ob_get_node_at_price := skip_get_node_at_price;
  ob_get_node_mut := skip_get_node_mut;
  ob_best := skip_best;
  ob_add_order_at_level := SkipList.add_order_at_level;
  ob_remove_order_at_level := SkipList.remove_order_at_level;
  ob_reduce_order_quantity_at_level := SkipList.reduce_order_quantity_at_level;
  ob_remove_level := SkipList.remove_level;
  ob_get_top_levels := SkipList.get_top_levels;
  ob_fill_top_levels := SkipList.fill_top_levels;
  ob_has_cumulative_quantity_until := SkipList.has_cumulative_quantity_until;
  ob_count := SkipList.count;
  ob_get_list_pool := sl_list_pool;
  ob_get_best_price := SkipList.get_best_price_cached;
  ob_invalidate_best_price := SkipList.invalidate_best_price_cache
}.

(** ** The representation relation *)

(** One price level: its arena node, its list-pool slots, its abstract content. *)
Record ghost := mkGhost { g_node : nat; g_slots : list nat; g_price : Z; g_queue : queue }.

Definition g_level (g : ghost) : Z * queue := (g_price g, g_queue g).

Definition level_rel (a : list SkipListNode) (nodes : list ListNode) (g : ghost) : Prop :=
  exists n, a !! g_node g = Some n /\ sn_price_ticks n = g_price g /\
    sn_total_quantity_lots n = qty_sum (g_queue g) /\
    queue_ok nodes (sn_orders n) (g_slots g) (g_queue g) /\
    queue_bounded (g_queue g).

Record skip_rep (s : SkipList) (G : list ghost) : Prop := {
  sr_shape : skip_ok s (g_node <$> G);
  sr_pool : pool_ok (sl_list_pool s) (concat (g_slots <$> G));
  sr_levels : Forall (level_rel (sl_arena s) (lp_nodes (sl_list_pool s))) G
}.

Definition skip_repr (s : SkipList) (ab : abook) : Prop :=
  exists G, skip_rep s G /\ ab = g_level <$> G.

Definition skip_capacity (s : SkipList) : nat := length (lp_nodes (sl_list_pool s)).

(** ** Locating a level *)

Lemma level_rel_price a nodes g : level_rel a nodes g -> price_of a (g_node g) = g_price g.
Proof. intros (n & Hn & Hp & _). by rewrite (price_of_lookup _ _ _ Hn). Qed.

Lemma rep_prices s G : skip_rep s G ->
  Forall (fun g => price_of (sl_arena s) (g_node g) = g_price g) G.
Proof. intros []. eapply Forall_impl; [done|]. intros g. apply level_rel_price. Qed.

(** Where the level of price [p] is, or would be. *)
Inductive found (s : SkipList) (p : Z) (G : list ghost) : Prop :=
| found_at GA g GB :
    G = GA ++ g :: GB -> g_price g = p ->
    split_at s p (g_node <$> G) (g_node <$> GA) (g_node <$> (g :: GB)) ->
    hit s p (g_node <$> (g :: GB)) = Some (g_node g) ->
    p ∉ (g_level <$> GA).*1 -> found s p G
| found_gap GA GB :
    G = GA ++ GB ->
    split_at s p (g_node <$> G) (g_node <$> GA) (g_node <$> GB) ->
    hit s p (g_node <$> GB) = None ->
    Forall (fun q => before (sl_order s) q p) (g_level <$> GA).*1 ->
    Forall (before (sl_order s) p) (g_level <$> GB).*1 -> found s p G.

Lemma Forall_level_prices (P : Z -> Prop) a GA :
  Forall (fun g => price_of a (g_node g) = g_price g) GA ->
  Forall (fun k => P (price_of a k)) (g_node <$> GA) ->
  Forall P (g_level <$> GA).*1.
Proof.
  intros HG HP. rewrite <- list_fmap_compose, Forall_fmap. rewrite Forall_fmap in HP.
  rewrite Forall_forall in *. intros g Hg. simpl. rewrite <- (HG g Hg). by apply HP.
Qed.

Lemma rep_found s G p : skip_rep s G -> found s p G.
Proof.
  intros HR. pose proof (rep_prices _ _ HR) as HP. pose proof (sr_shape _ _ HR) as Hok.
  destruct (split_exists _ _ p Hok) as (A & B & Hsp).
  pose proof (sp_eq _ _ _ _ _ Hsp) as Heq. apply fmap_app_inv in Heq as (GA & GB & -> & -> & ->).
  apply Forall_app in HP as [HPA HPB].
  assert (Forall (fun q => before (sl_order s) q p) (g_level <$> GA).*1) as HA.
  { apply (Forall_level_prices (fun q => before (sl_order s) q p) (sl_arena s)); [done|]. apply Hsp. }
  destruct (hit s p (g_node <$> GB)) as [t|] eqn:Hh.
  - pose proof (hit_Some _ _ _ _ Hh) as (B' & HB & Ht).
    destruct GB as [|g GB]; simplify_eq/=. apply Forall_cons in HPB as [Hg _].
    apply (found_at _ _ _ GA g GB); [done|congruence|done|done|].
    rewrite Forall_forall in HA. intros Hin%HA. by apply before_irrefl in Hin.
  - apply (found_gap _ _ _ GA GB); [done..|].
    apply (Forall_level_prices (before (sl_order s) p) (sl_arena s)); [done|].
    by eapply hit_None_after.
Qed.

Lemma found_find s p G es :
  found s p G -> a_find p (g_level <$> G) = Some es ->
  exists GA g GB, G = GA ++ g :: GB /\ g_price g = p /\ g_queue g = es /\
    split_at s p (g_node <$> G) (g_node <$> GA) (g_node <$> (g :: GB)) /\
    hit s p (g_node <$> (g :: GB)) = Some (g_node g) /\ p ∉ (g_level <$> GA).*1.
Proof.
  intros [GA g GB -> Hp Hsp Hh HA|GA GB -> Hsp Hh HA HB] Hf.
  - rewrite fmap_app, a_find_skip in Hf by done. simpl in Hf.
    rewrite (proj2 (Z.eqb_eq _ _) Hp) in Hf. simplify_eq. exists GA, g, GB. done.
  - assert (p ∉ (g_level <$> GA ++ GB).*1) as Hn.
    { rewrite !Forall_forall in *. rewrite !fmap_app, elem_of_app.
      intros [Hin%HA|Hin%HB]; by apply before_irrefl in Hin. }
    apply a_find_None in Hn. congruence.
Qed.

Lemma found_nofind s p G :
  found s p G -> a_find p (g_level <$> G) = None ->
  exists GA GB, G = GA ++ GB /\
    split_at s p (g_node <$> G) (g_node <$> GA) (g_node <$> GB) /\
    hit s p (g_node <$> GB) = None /\
    Forall (fun q => before (sl_order s) q p) (g_level <$> GA).*1 /\
    Forall (before (sl_order s) p) (g_level <$> GB).*1.
Proof.
  intros [GA g GB -> Hp Hsp Hh HA|GA GB -> Hsp Hh HA HB] Hf; [|by exists GA, GB].
  rewrite fmap_app, a_find_skip in Hf by done. simpl in Hf.
  by rewrite (proj2 (Z.eqb_eq _ _) Hp) in Hf.
Qed.

(** ** Reading a level *)

Lemma queue_front nodes pl l es :
  queue_ok nodes pl l es ->
  PooledList.is_empty pl = bool_decide (es = []) /\
  match es with
  | [] => PooledList.front pl = None
  | (id, _) :: _ => exists idx n, PooledList.front pl = Some idx /\
      nodes !! idx = Some n /\ ln_order_id n = id
  end.
Proof.
  intros [Hh _ Hc _ Hv]. unfold PooledList.is_empty, PooledList.front. rewrite Hh, Hc.
  inversion Hv as [|k [id q] l' es' (n & Hn & He) Hv']; subst; simpl; [done|].
  split; [done|]. exists k, n. injection He. auto.
Qed.

Lemma level_rel_shows a pool g n :
  level_rel a (lp_nodes pool) g -> a !! g_node g = Some n ->
  level_shows pool (as_price_level n) (g_price g) (g_queue g).
Proof.
  intros (n' & Hn' & Hp & Ht & Hq & _) Hn. simplify_eq.
  destruct (queue_front _ _ _ _ Hq) as [? ?]. by split_and!.
Qed.

Lemma rep_level s G g : skip_rep s G -> g ∈ G ->
  level_rel (sl_arena s) (lp_nodes (sl_list_pool s)) g.
Proof. intros []. rewrite Forall_forall in sr_levels0. auto. Qed.

Lemma rep_get_node s G p : skip_rep s G ->
  match a_find p (g_level <$> G) with
  | None => skip_get_node_at_price s p = Some None
  | Some es => exists lvl, skip_get_node_at_price s p = Some (Some lvl) /\
      level_shows (sl_list_pool s) lvl p es
  end.
Proof.
  intros HR. pose proof (rep_found s G p HR) as HF.
  unfold skip_get_node_at_price, SkipList.get_node_at_price.
  destruct (a_find p (g_level <$> G)) as [es|] eqn:Hf.
  - destruct (found_find _ _ _ _ HF Hf) as (GA & g & GB & -> & <- & <- & Hsp & Hh & _).
    rewrite (get_node_mut_ok _ _ _ _ _ (sr_shape _ _ HR) Hsp), Hh. bind_step.
    assert (level_rel (sl_arena s) (lp_nodes (sl_list_pool s)) g) as Hg.
    { eapply rep_level; [done|]. set_solver. }
    pose proof Hg as (n & Hn & _). rewrite Hn. simpl. eexists. split; [done|].
    by eapply level_rel_shows.
  - destruct (found_nofind _ _ _ HF Hf) as (GA & GB & -> & Hsp & Hh & _).
    by rewrite (get_node_mut_ok _ _ _ _ _ (sr_shape _ _ HR) Hsp), Hh.
Qed.

Lemma skip_get_node_mut_eq s p : skip_get_node_mut s p = skip_get_node_at_price s p.
Proof.
  unfold skip_get_node_mut, skip_get_node_at_price, SkipList.get_node_at_price.
  destruct (SkipList.get_node_mut s p) as [[k|]|]; simpl; try done.
  by destruct (sl_arena s !! k).
Qed.

Lemma rep_best s G : skip_rep s G ->
  match g_level <$> G with
  | [] => skip_best s = Some None
  | (p, es) :: _ => exists lvl, skip_best s = Some (Some lvl) /\
      level_shows (sl_list_pool s) lvl p es
  end.
Proof.
  intros HR. unfold skip_best, SkipList.best. rewrite (so_head _ _ (sr_shape _ _ HR)).
  rewrite (chain_head _ _ _ _ (skip_chain0 _ _ (sr_shape _ _ HR))). bind_step.
  destruct G as [|g G]; simpl; [done|].
  assert (level_rel (sl_arena s) (lp_nodes (sl_list_pool s)) g) as Hg.
  { eapply rep_level; [done|]. set_solver. }
  pose proof Hg as (n & Hn & _). rewrite Hn. simpl. eexists. split; [done|].
  by eapply level_rel_shows.
Qed.

(** ** Walking level 0 *)

Section walk.
Context (a : list SkipListNode) (nodes : list ListNode).

Lemma scan_nonempty_ok G c fuel :
  chain a 0 c (g_node <$> G) -> Forall (level_rel a nodes) G -> (length G < fuel)%nat ->
  exists r, SkipList.scan_nonempty a fuel c = Some r /\
    sn_price_ticks <$> r = a_best (g_level <$> G).
Proof.
  revert c fuel. induction G as [|g G IH]; intros c [|fuel] Hc HG Hl; simpl in Hl; try lia.
  - simpl. rewrite (chain_head _ _ _ _ Hc). simpl. by exists None.
  - simpl in Hc. apply chain_cons in Hc as [Hf Hc].
    apply Forall_cons in HG as [(n & Hn & Hp & _ & Hq & _) HG].
    simpl. rewrite Hf. simpl. rewrite Hn. simpl.
    destruct (queue_front _ _ _ _ Hq) as [-> _].
    destruct (g_queue g) as [|e es]; simpl.
    + apply IH; [done..|lia].
    + exists (Some n). split; [done|]. simpl. congruence.
Qed.

Lemma top_from_ok G c limit :
  chain a 0 c (g_node <$> G) -> Forall (level_rel a nodes) G ->
  SkipList.top_from a limit c = Some (a_top limit (g_level <$> G)).
Proof.
  revert c limit. induction G as [|g G IH]; intros c [|limit] Hc HG; try done.
  - simpl. by rewrite (chain_head _ _ _ _ Hc).
  - simpl in Hc. apply chain_cons in Hc as [Hf Hc].
    apply Forall_cons in HG as [(n & Hn & Hp & Ht & _) HG].
    simpl. rewrite Hf. simpl. rewrite Hn. simpl. rewrite (IH _ _ Hc HG). simpl.
    by rewrite Hp, Ht.
Qed.

Lemma cumulative_ok G c fuel target limit is_market buy_taker av :
  chain a 0 c (g_node <$> G) -> Forall (level_rel a nodes) G -> (length G < fuel)%nat ->
  0 <= av -> av + a_volume (g_level <$> G) <= i64_max ->
  SkipList.cumulative a target limit is_market buy_taker fuel c av =
    Some (a_cumulative (g_level <$> G) target limit is_market buy_taker av).
Proof.
  revert c fuel av. induction G as [|g G IH]; intros c [|fuel] av Hc HG Hl Hav Hv;
    simpl in Hl; try lia.
  - simpl. by rewrite (chain_head _ _ _ _ Hc).
  - simpl in Hc. apply chain_cons in Hc as [Hf Hc].
    apply Forall_cons in HG as [(n & Hn & Hp & Ht & _ & [Hnn _]) HG].
    simpl. rewrite Hf. simpl. rewrite Hn. simpl. rewrite Hp, Ht. unfold acceptable.
    destruct (is_market || _); simpl; [|done].
    unfold a_volume in Hv. rewrite fmap_cons in Hv. unfold g_level at 1 in Hv.
    rewrite a_entries_cons, qty_sum_app in Hv.
    pose proof (qty_sum_nonneg _ Hnn) as Hq.
    assert (0 <= qty_sum (a_entries (g_level <$> G))) as Hr.
    { apply qty_sum_nonneg. clear -HG. unfold a_entries.
      induction HG as [|g' G' (n' & _ & _ & _ & _ & [Hb _]) _ IHG]; simpl; [constructor|].
      by apply Forall_app. }
    rewrite i64_add_id by (machine_unfold; lia).
    destruct (Z.leb _ _); [done|]. apply IH; try done; [lia..|]. unfold a_volume. lia.
Qed.
End walk.

Lemma rep_fuel s G : skip_rep s G -> (length G < SkipList.walk_fuel (sl_arena s))%nat.
Proof.
  intros HR. pose proof (skip_length _ _ (sr_shape _ _ HR)) as Hl.
  rewrite length_fmap in Hl. unfold SkipList.walk_fuel. lia.
Qed.

(** ** Inserting and removing levels *)

Lemma level_rel_data a a' nodes g :
  node_data <$> a' !! g_node g = node_data <$> a !! g_node g ->
  level_rel a nodes g -> level_rel a' nodes g.
Proof.
  intros Hd (n & Hn & Hp & Ht & Hq & Hb). rewrite Hn in Hd.
  destruct (a' !! g_node g) as [n'|] eqn:Hn'; [|done]. injection Hd as H1 H2 H3 _ _.
  exists n'. split_and!; congruence || done || (rewrite H3; done).
Qed.

Lemma rep_insert s G p : skip_rep s G -> a_find p (g_level <$> G) = None ->
  exists s' G', SkipList.insert_level s p = Some (s', Ok ()) /\ skip_rep s' G' /\
    g_level <$> G' = a_insert (sl_order s) p (g_level <$> G) /\
    sl_order s' = sl_order s /\ sl_list_pool s' = sl_list_pool s /\
    sl_best_price s' = sl_best_price s.
Proof.
  intros HR Hf. pose proof (rep_found s G p HR) as HF.
  destruct (found_nofind _ _ _ HF Hf) as (GA & GB & -> & Hsp & Hh & HA & HB).
  destruct (insert_level_ok _ _ _ _ _ (sr_shape _ _ HR) Hsp Hh)
    as (s' & k & n & Hins & Hok' & Hk & [Ho Hpl Hbe Hdata] & Hn & Hp & Ht & Hord).
  exists s', (GA ++ mkGhost k [] p [] :: GB). split_and!; [done| | |done..].
  - destruct HR as [_ Hpool Hlv]. split.
    + by rewrite fmap_app.
    + rewrite Hpl. rewrite fmap_app, concat_app in *. done.
    + rewrite Hpl. assert (Forall (level_rel (sl_arena s') (lp_nodes (sl_list_pool s))) (GA ++ GB))
        as Hlv'.
      { rewrite Forall_forall in *. intros g Hg. eapply level_rel_data; [|by apply Hlv].
        apply Hdata. by apply list_elem_of_fmap_2. }
      apply Forall_app in Hlv' as [? ?]. apply Forall_app. split; [done|]. constructor; [|done].
      exists n. split_and!; simpl; try done.
      rewrite Hord. split; simpl; try done. constructor.
  - rewrite !fmap_app. simpl. symmetry. by apply a_insert_app.
Qed.

Lemma rep_insert_exists s G p es : skip_rep s G -> a_find p (g_level <$> G) = Some es ->
  SkipList.insert_level s p = Some (s, Err PriceLevelAlreadyExists).
Proof.
  intros HR Hf. pose proof (rep_found s G p HR) as HF.
  destruct (found_find _ _ _ _ HF Hf) as (GA & g & GB & -> & Hp & He & Hsp & Hh & _).
  unfold SkipList.insert_level, SkipList.get_node_at_price.
  rewrite (get_node_mut_ok _ _ _ _ _ (sr_shape _ _ HR) Hsp), Hh. bind_step.
  destruct (rep_level s _ g HR ltac:(set_solver)) as (n & -> & _). done.
Qed.

Lemma rep_remove_level s G p : skip_rep s G -> a_find p (g_level <$> G) = Some [] ->
  exists s' G', SkipList.remove_level s p = Some (s', Ok ()) /\ skip_rep s' G' /\
    g_level <$> G' = a_remove p (g_level <$> G) /\
    sl_order s' = sl_order s /\ sl_list_pool s' = sl_list_pool s /\
    sl_best_price s' = sl_best_price s.
Proof.
  intros HR Hf. pose proof (rep_found s G p HR) as HF.
  destruct (found_find _ _ _ _ HF Hf) as (GA & g & GB & -> & <- & He & Hsp & Hh & Hp).
  destruct (remove_level_ok _ _ _ (fmap (M:=list) g_node GB) _ _ (sr_shape _ _ HR) Hsp Hh)
    as (s' & Hrem & Hok' & [Ho Hpl Hbe Hdata]).
  exists s', (GA ++ GB). split_and!; [done| | |done..].
  - destruct (rep_level s _ g HR ltac:(set_solver)) as (n & _ & _ & _ & Hq & _).
    destruct HR as [_ Hpool Hlv]. apply q_holds, holds_length in Hq as Hlen.
    rewrite He in Hlen. destruct (g_slots g) eqn:Hs; [|done]. split.
    + by rewrite fmap_app.
    + rewrite Hpl. rewrite fmap_app, concat_app in *. simpl in Hpool. by rewrite Hs in Hpool.
    + rewrite Hpl. rewrite Forall_forall in *. intros g' Hg'.
      eapply level_rel_data; [|apply Hlv; set_solver]. apply Hdata.
      rewrite <- fmap_app. by apply list_elem_of_fmap_2.
  - rewrite !fmap_app. symmetry. simpl. unfold g_level at 2. by apply a_remove_app.
Qed.

Lemma rep_remove_level_missing s G p : skip_rep s G -> a_find p (g_level <$> G) = None ->
  SkipList.remove_level s p = Some (s, Err PriceNotFound).
Proof.
  intros HR Hf. pose proof (rep_found s G p HR) as HF.
  destruct (found_nofind _ _ _ HF Hf) as (GA & GB & -> & Hsp & Hh & _).
  by eapply remove_level_missing; [apply HR| |].
Qed.

(** ** Queue operations *)

Lemma skip_ok_queue s ks k n total pl pool :
  sl_arena s !! k = Some n -> skip_ok s ks ->
  skip_ok (sl_set_pool (sl_set_arena s (<[k := sn_set_queue n total pl]> (sl_arena s))) pool) ks.
Proof.
  intros Hn [Hh Hpm Hfw Hst Hlv Hmx Hch Hct].
  set (a' := <[k := sn_set_queue n total pl]> (sl_arena s)).
  assert (forall {A} (f : SkipListNode -> A), f (sn_set_queue n total pl) = f n ->
    forall j, f <$> a' !! j = f <$> sl_arena s !! j) as Hf.
  { intros A f Hf j. unfold a'. rewrite list_lookup_insert. case_decide as Hj; [|done].
    destruct Hj as [<- _]. rewrite Hn. simpl. by rewrite Hf. }
  assert (forall j, price_of a' j = price_of (sl_arena s) j) as Hp.
  { intros j. specialize (Hf _ sn_price_ticks eq_refl j). unfold price_of.
    destruct (a' !! j), (sl_arena s !! j); simplify_eq/=; congruence. }
  assert (forall j, level_of a' j = level_of (sl_arena s) j) as Hl.
  { intros j. specialize (Hf _ sn_level eq_refl j). unfold level_of.
    destruct (a' !! j), (sl_arena s !! j); simplify_eq/=; congruence. }
  assert (forall i j, fwd a' j i = fwd (sl_arena s) j i) as Hw.
  { intros i j. specialize (Hf _ sn_forward eq_refl j). unfold fwd.
    destruct (a' !! j), (sl_arena s !! j); simplify_eq/=; congruence. }
  split; simpl; try done; fold a'.
  - unfold a'. by rewrite length_insert.
  - intros j m Hj. specialize (Hf _ sn_forward eq_refl j). rewrite Hj in Hf.
    destruct (sl_arena s !! j) eqn:Hs; [|done]. simplify_eq/=. rewrite Hf. eauto.
  - clear -Hst Hp. induction Hst as [|x l _ IH Hx]; constructor; [done|].
    eapply Forall_impl; [done|]. intros y. by rewrite !Hp.
  - intros j Hj. rewrite Hl. auto.
  - intros i Hi. rewrite (at_level_ext (sl_arena s) a'); [|done].
    eapply chain_frame; [|by apply Hch]. done.
Qed.

(** Replacing the queue of one level, the slots of the others being kept. *)
Lemma rep_update s GA g GB n pool total pl slots es :
  skip_rep s (GA ++ g :: GB) -> sl_arena s !! g_node g = Some n ->
  queue_ok (lp_nodes pool) pl slots es -> total = qty_sum es -> queue_bounded es ->
  pool_ok pool (slots ++ concat (g_slots <$> GA ++ GB)) ->
  (forall k, k ∈ concat (g_slots <$> GA ++ GB) ->
    lp_nodes pool !! k = lp_nodes (sl_list_pool s) !! k) ->
  skip_rep (sl_set_pool (sl_set_arena s (<[g_node g := sn_set_queue n total pl]> (sl_arena s))) pool)
    (GA ++ mkGhost (g_node g) slots (g_price g) es :: GB).
Proof.
  intros [Hok Hpool Hlv] Hn Hq Ht Hb Hpool' Hframe.
  assert (Forall (level_rel (<[g_node g := sn_set_queue n total pl]> (sl_arena s)) (lp_nodes pool))
    (GA ++ GB)) as Hrest.
  { rewrite Forall_forall in *. intros g' Hg'.
    destruct (Hlv g') as (n' & Hn' & Hp' & Ht' & Hq' & Hb'); [set_solver|].
    exists n'. rewrite list_lookup_insert_ne.
    - split_and!; try done. eapply queue_ok_frame; [|done]. intros k Hk. apply Hframe.
      rewrite list_elem_of_In, in_concat. exists (g_slots g').
      rewrite <- !list_elem_of_In. split; [|done]. by apply list_elem_of_fmap_2.
    - intros He. pose proof (skip_NoDup_ks _ _ Hok) as [_ Hnd]%NoDup_cons.
      rewrite fmap_app in Hnd. simpl in Hnd. rewrite NoDup_app, NoDup_cons in Hnd.
      assert (g_node g' ∈ (g_node <$> GA) ++ (g_node <$> GB)) as Hin.
      { rewrite <- fmap_app. by apply list_elem_of_fmap_2. }
      rewrite <- He in Hin. set_solver. }
  split.
  - rewrite fmap_app in *. simpl in *. by apply skip_ok_queue.
  - simpl. eapply pool_ok_perm; [|done].
    rewrite !fmap_app, !concat_app. simpl. by rewrite Permutation_app_swap_app.
  - apply Forall_app in Hrest as [? ?]. apply Forall_app. split; [done|]. constructor; [|done].
    destruct (proj1 (Forall_forall _ _) Hlv g) as (n' & Hn' & Hp' & _); [set_solver|].
    simplify_eq. exists (sn_set_queue n (qty_sum es) pl). simpl.
    rewrite list_lookup_insert_eq by by eapply lookup_lt_Some. done.
Qed.

(** The slots of one level and of the rest of the book. *)
Lemma rep_slots s GA g GB : skip_rep s (GA ++ g :: GB) ->
  pool_ok (sl_list_pool s) (g_slots g ++ concat (g_slots <$> GA ++ GB)).
Proof.
  intros [_ Hpool _]. eapply pool_ok_perm; [|done].
  rewrite !fmap_app, !concat_app. simpl. by rewrite Permutation_app_swap_app.
Qed.

Lemma other_slots pool l rest k : pool_ok pool (l ++ rest) -> k ∈ rest -> k ∉ l.
Proof. intros Hpool%pool_ok_NoDup Hk Hl. apply NoDup_app in Hpool as (_ & Hd & _). by eapply Hd. Qed.

Lemma slots_length G s : skip_rep s G ->
  length (concat (g_slots <$> G)) = length (a_entries (g_level <$> G)).
Proof.
  intros [_ _ Hlv]. induction Hlv as [|g G (n & _ & _ & _ & Hq & _) _ IH]; [done|].
  rewrite !fmap_cons. unfold g_level at 1. rewrite a_entries_cons. simpl.
  rewrite !length_app, IH. f_equal. by eapply holds_length, q_holds.
Qed.

Lemma rep_locate s GA g GB p :
  skip_rep s (GA ++ g :: GB) ->
  split_at s p (g_node <$> GA ++ g :: GB) (g_node <$> GA) (g_node <$> g :: GB) ->
  hit s p (g_node <$> g :: GB) = Some (g_node g) ->
  exists n, SkipList.locate s p = Some (Some (g_node g)) /\ sl_arena s !! g_node g = Some n /\
    sn_total_quantity_lots n = qty_sum (g_queue g) /\
    queue_ok (lp_nodes (sl_list_pool s)) (sn_orders n) (g_slots g) (g_queue g) /\
    queue_bounded (g_queue g).
Proof.
  intros HR Hsp Hh. rewrite (locate_ok _ _ _ _ _ (sr_shape _ _ HR) Hsp), Hh.
  destruct (rep_level s _ g HR ltac:(set_solver)) as (n & ? & ? & ? & ? & ?). eauto 10.
Qed.

Lemma slots_capacity s G : skip_rep s G ->
  (length (a_entries (g_level <$> G)) <= skip_capacity s)%nat.
Proof.
  intros HR. rewrite <- (slots_length _ _ HR). destruct (sr_pool _ _ HR) as [Hp _ _ _].
  apply Permutation_length in Hp. rewrite length_app, length_seq in Hp.
  unfold skip_capacity. lia.
Qed.

(** What a queue operation at [p] leaves: the same book but for the queue at [p]. *)
Definition updates (s s' : SkipList) (p : Z) (f : queue -> queue) (G : list ghost) : Prop :=
  exists G', skip_rep s' G' /\ g_level <$> G' = a_update p f (g_level <$> G) /\
    sl_order s' = sl_order s /\ sl_best_price s' = sl_best_price s /\
    skip_capacity s' = skip_capacity s.

Lemma updates_intro s GA g GB n pool total pl slots es f :
  skip_rep s (GA ++ g :: GB) -> sl_arena s !! g_node g = Some n ->
  g_price g ∉ (g_level <$> GA).*1 ->
  queue_ok (lp_nodes pool) pl slots es -> total = qty_sum es -> queue_bounded es ->
  pool_ok pool (slots ++ concat (g_slots <$> GA ++ GB)) ->
  length (lp_nodes pool) = length (lp_nodes (sl_list_pool s)) ->
  (forall k, k ∈ concat (g_slots <$> GA ++ GB) ->
    lp_nodes pool !! k = lp_nodes (sl_list_pool s) !! k) ->
  es = f (g_queue g) ->
  updates s (sl_set_pool
    (sl_set_arena s (<[g_node g := sn_set_queue n total pl]> (sl_arena s))) pool)
    (g_price g) f (GA ++ g :: GB).
Proof.
  intros HR Hn Hp Hq Ht Hb Hpool Hlen Hframe ->. eexists. split_and!; [by apply rep_update|..].
  - rewrite !fmap_app, !fmap_cons. symmetry. by apply a_update_app.
  - done.
  - done.
  - done.
Qed.

Lemma rep_add s G p es id q : skip_rep s G -> a_find p (g_level <$> G) = Some es ->
  (length (a_entries (g_level <$> G)) < skip_capacity s)%nat -> 0 <= q ->
  qty_sum es + q <= i64_max ->
  exists s', SkipList.add_order_at_level s p id q = Some (s', Ok ()) /\
    updates s s' p (fun es => es ++ [(id, q)]) G.
Proof.
  intros HR Hf Hcap Hq Hsum. pose proof (rep_found s G p HR) as HF.
  destruct (found_find _ _ _ _ HF Hf) as (GA & g & GB & -> & <- & <- & Hsp & Hh & Hp).
  destruct (rep_locate _ _ _ _ _ HR Hsp Hh) as (n & Hloc & Hn & Ht & Hqu & [Hb1 Hb2]).
  pose proof (rep_slots _ _ _ _ HR) as Hpool.
  rewrite <- (slots_length _ _ HR) in Hcap.
  assert (length (g_slots g ++ concat (g_slots <$> GA ++ GB)) =
    length (concat (g_slots <$> GA ++ g :: GB))) as Hll.
  { rewrite !fmap_app, fmap_cons, !concat_app. cbn [concat]. rewrite !length_app. lia. }
  destruct (acquire_ok _ _ id q Hpool) as (idx & pool & Hacq & Hpool1 & Hidx & Hnodes & Hlt & _).
  { unfold skip_capacity in Hcap. lia. }
  unfold SkipList.add_order_at_level. rewrite Hacq. bind_step.
  rewrite Hloc. bind_step. rewrite Hn. bind_step.
  destruct (push_back_ok pool (sn_orders n) (g_slots g) (g_queue g) idx (mkListNode id q None None))
    as (pl' & pool' & -> & Hqu' & Hfr).
  { eapply queue_ok_frame; [|done]. intros k Hk. rewrite Hnodes, list_lookup_insert_ne; [done|].
    set_solver. }
  { apply pool_ok_NoDup in Hpool. by apply NoDup_app in Hpool as [? _]. }
  { set_solver. }
  { apply pool_ok_bound in Hpool1. simpl in Hpool1. rewrite length_app in Hpool1. lia. }
  { by rewrite Hnodes, list_lookup_insert_eq. }
  { done. }
  { done. }
  bind_step. eexists. split; [done|].
  eapply updates_intro; try done.
  - rewrite Ht, qty_sum_app. simpl. pose proof (qty_sum_nonneg _ Hb1).
    rewrite i64_add_id; [lia|]. machine_unfold. lia.
  - split; [|rewrite qty_sum_app; simpl; lia]. apply Forall_app. split; [done|].
    by repeat constructor.
  - eapply pool_ok_perm; [|by eapply pool_frame_ok]. by rewrite <- app_assoc, Permutation_middle.
  - by rewrite (fr_len _ _ _ Hfr), Hnodes, length_insert.
  - intros k Hk. pose proof (other_slots _ _ _ k Hpool Hk) as Hk1.
    assert (k <> idx) by (intros ->; apply Hidx, elem_of_app; by right).
    rewrite (fr_out _ _ _ Hfr) by by rewrite elem_of_app, list_elem_of_singleton; intros [].
    by rewrite Hnodes, list_lookup_insert_ne.
Qed.

Lemma rep_add_full s G p id q : skip_rep s G ->
  length (a_entries (g_level <$> G)) = skip_capacity s ->
  SkipList.add_order_at_level s p id q = Some (s, Err ListPoolExhausted).
Proof.
  intros HR Hcap. unfold SkipList.add_order_at_level.
  rewrite (acquire_exhausted _ _ _ _ (sr_pool _ _ HR)); [done|].
  by rewrite (slots_length _ _ HR).
Qed.

Lemma rep_add_missing s G p id q : skip_rep s G -> a_find p (g_level <$> G) = None ->
  (length (a_entries (g_level <$> G)) < skip_capacity s)%nat ->
  exists s', SkipList.add_order_at_level s p id q = Some (s', Err (PriceLevelNotFound p)) /\
    skip_rep s' G /\ sl_order s' = sl_order s /\ sl_best_price s' = sl_best_price s /\
    skip_capacity s' = skip_capacity s.
Proof.
  intros HR Hf Hcap. pose proof (rep_found s G p HR) as HF.
  destruct (found_nofind _ _ _ HF Hf) as (GA & GB & -> & Hsp & Hh & _).
  rewrite <- (slots_length _ _ HR) in Hcap. destruct HR as [Hok Hpool Hlv].
  destruct (acquire_ok _ _ id q Hpool Hcap) as (idx & pool & Hacq & Hpool1 & Hidx & Hnodes & Hlt & Hrel).
  unfold SkipList.add_order_at_level. rewrite Hacq. bind_step.
  rewrite (locate_ok _ _ _ _ _ Hok Hsp), Hh. bind_step. eexists. split; [done|].
  assert (length (lp_nodes pool) = length (lp_nodes (sl_list_pool s))) as Hlen
    by by rewrite Hnodes, length_insert.
  split; [|by split_and!].
  split; simpl.
  - destruct Hok. by split.
  - by apply release_ok.
  - rewrite Hnodes. rewrite Forall_forall in *. intros g Hg.
    destruct (Hlv g Hg) as (n & Hn & Hp & Ht & Hq & Hb). exists n. split_and!; try done.
    eapply queue_ok_frame; [|done]. intros k Hk. rewrite list_lookup_insert_ne; [done|].
    intros ->. apply Hidx. rewrite list_elem_of_In, in_concat. exists (g_slots g).
    rewrite <- !list_elem_of_In. split; [by apply list_elem_of_fmap_2|done].
Qed.

(** The queue scan finds the first slot of an id. *)
Lemma find_in_queue_ok pool id l es p fuel :
  dseg (lp_nodes pool) p l None -> holds (lp_nodes pool) l es -> (length l < fuel)%nat ->
  match qty_of id es with
  | None => SkipList.find_in_queue pool id fuel (head l) = Some None
  | Some q => exists X k Y ex ey, l = X ++ k :: Y /\ es = ex ++ (id, q) :: ey /\
      length X = length ex /\ id ∉ ex.*1 /\
      SkipList.find_in_queue pool id fuel (head l) = Some (Some k)
  end.
Proof.
  intros Hd Hh. revert p fuel Hd. induction Hh as [|k [i q] l es (n & Hn & He) Hh IH];
    intros p fuel Hd Hl; [by destruct fuel|].
  destruct Hd as [(n' & Hn' & _ & Hnext) Hd]. simplify_eq.
  destruct fuel as [|fuel]; simpl in Hl; [lia|].
  assert (forall x, SkipList.find_in_queue pool id (S fuel) (head (k :: l)) = Some x <->
    (if Z.eqb (ln_order_id n) id then Some (Some k)
     else SkipList.find_in_queue pool id fuel (head l)) = Some x) as Heq.
  { intros x. simpl. unfold ListNodePool.get. rewrite Hn, Hnext. by rewrite hd_or_None. }
  injection He as Hi Hq. rewrite Hi in Heq. cbn [qty_of]. destruct (Z.eqb_spec i id) as [->|Hne].
  - exists [], k, l, [], es. split_and!; [done..|set_solver|]. by apply Heq.
  - specialize (IH (Some k) fuel Hd ltac:(lia)). destruct (qty_of id es) as [q'|].
    + destruct IH as (X & k' & Y & ex & ey & -> & -> & HX & Hex & Hf).
      exists (k :: X), k', Y, ((i, q) :: ex), ey. split_and!; [done..| | |].
      * simpl. by rewrite HX.
      * simpl. set_solver.
      * by apply Heq.
    + by apply Heq.
Qed.

Lemma find_in_level_ok s GA g GB n id :
  skip_rep s (GA ++ g :: GB) ->
  queue_ok (lp_nodes (sl_list_pool s)) (sn_orders n) (g_slots g) (g_queue g) ->
  let pool := sl_list_pool s in
  let r := SkipList.find_in_queue pool id (SkipList.queue_fuel pool) (PooledList.front (sn_orders n)) in
  match qty_of id (g_queue g) with
  | None => r = Some None
  | Some q => exists X k Y ex ey, g_slots g = X ++ k :: Y /\ g_queue g = ex ++ (id, q) :: ey /\
      length X = length ex /\ id ∉ ex.*1 /\ r = Some (Some k)
  end.
Proof.
  intros HR Hq. cbv zeta. unfold PooledList.front. rewrite (q_head _ _ _ _ Hq).
  apply (find_in_queue_ok _ _ _ _ None); [apply Hq..|]. unfold SkipList.queue_fuel.
  destruct (rep_slots _ _ _ _ HR) as [Hp _ _ _]. apply Permutation_length in Hp.
  rewrite length_app, length_seq, length_app in Hp. lia.
Qed.

Lemma holds_at nodes X k Y ex id q ey :
  holds nodes (X ++ k :: Y) (ex ++ (id, q) :: ey) -> length X = length ex ->
  exists n, nodes !! k = Some n /\ ln_quantity_lots n = q.
Proof.
  intros Hh HX. apply Forall2_app_inv in Hh as [_ Hh]; [|done].
  apply Forall2_cons in Hh as [(n & Hn & He) _]. exists n. split; [done|].
  change q with (id, q).2. by rewrite <- He.
Qed.

Lemma rep_remove_order s G p es id q : skip_rep s G -> a_find p (g_level <$> G) = Some es ->
  qty_of id es = Some q ->
  exists s', SkipList.remove_order_at_level s p id = Some (s', Ok ()) /\
    updates s s' p (remove_id id) G.
Proof.
  intros HR Hf Hqo. pose proof (rep_found s G p HR) as HF.
  destruct (found_find _ _ _ _ HF Hf) as (GA & g & GB & -> & <- & <- & Hsp & Hh & Hp).
  destruct (rep_locate _ _ _ _ _ HR Hsp Hh) as (n & Hloc & Hn & Ht & Hqu & [Hb1 Hb2]).
  pose proof (find_in_level_ok _ _ _ _ n id HR Hqu) as Hfind. rewrite Hqo in Hfind.
  destruct Hfind as (X & k & Y & ex & ey & Hsl & Hes & HX & Hex & Hfind).
  pose proof (rep_slots _ _ _ _ HR) as Hpool. rewrite Hsl, Hes in *.
  unfold SkipList.remove_order_at_level. rewrite Hloc. bind_step. rewrite Hn. bind_step.
  cbv zeta. rewrite Hfind. bind_step.
  destruct (remove_ok _ _ _ _ _ _ _ _ Hqu HX) as (pl' & pool' & Hrem & Hqu' & Hfr).
  { apply pool_ok_NoDup in Hpool. by apply NoDup_app in Hpool as [? _]. }
  { apply pool_ok_bound in Hpool. rewrite length_app in Hpool. lia. }
  assert (exists ln, lp_nodes (sl_list_pool s) !! k = Some ln /\ ln_quantity_lots ln = q)
    as (ln & Hln & Hlq).
  { by eapply holds_at; [apply Hqu|]. }
  unfold ListNodePool.get at 1. rewrite Hln. bind_step. rewrite Hrem. bind_step.
  eexists. split; [done|]. rewrite qty_sum_app in *. simpl in *.
  apply Forall_app in Hb1 as [Hb1 [Hbq Hb3]%Forall_cons]. simpl in Hbq.
  pose proof (qty_sum_nonneg _ Hb1). pose proof (qty_sum_nonneg _ Hb3).
  eapply updates_intro; try done.
  - rewrite Ht, Hlq, qty_sum_app. rewrite i64_sub_id; [lia|]. machine_unfold. lia.
  - split; [by apply Forall_app|]. rewrite qty_sum_app. lia.
  - apply release_ok. eapply pool_ok_perm; [|by eapply pool_frame_ok].
    by rewrite <- !app_assoc, Permutation_middle.
  - simpl. by rewrite (fr_len _ _ _ Hfr).
  - intros j Hj. pose proof (other_slots _ _ _ j Hpool Hj) as Hj1. simpl.
    apply (fr_out _ _ _ Hfr). set_solver.
  - rewrite Hes. by rewrite remove_id_app.
Qed.

Lemma rep_remove_order_absent s G p es id : skip_rep s G ->
  a_find p (g_level <$> G) = Some es -> qty_of id es = None ->
  SkipList.remove_order_at_level s p id = Some (s, Err (OrderNotFoundAtLevel id p)).
Proof.
  intros HR Hf Hqo. pose proof (rep_found s G p HR) as HF.
  destruct (found_find _ _ _ _ HF Hf) as (GA & g & GB & -> & <- & <- & Hsp & Hh & Hp).
  destruct (rep_locate _ _ _ _ _ HR Hsp Hh) as (n & Hloc & Hn & Ht & Hqu & _).
  pose proof (find_in_level_ok _ _ _ _ n id HR Hqu) as Hfind. rewrite Hqo in Hfind.
  unfold SkipList.remove_order_at_level. rewrite Hloc. bind_step. rewrite Hn. bind_step.
  cbv zeta. by rewrite Hfind.
Qed.

(** Rewriting the quantity of one slot keeps the links. *)
Lemma queue_ok_set_quantity nodes pl X k Y ex id q q' ey n :
  queue_ok nodes pl (X ++ k :: Y) (ex ++ (id, q) :: ey) -> length X = length ex ->
  NoDup (X ++ k :: Y) -> nodes !! k = Some n ->
  queue_ok (<[k := ln_set_quantity n q']> nodes) pl (X ++ k :: Y) (ex ++ (id, q') :: ey).
Proof.
  intros [Hh Ht Hc Hd Hv] HX Hnd Hn. split; try done.
  - clear -Hd Hn. revert Hd. generalize (X ++ k :: Y), (None : option nat) at 1 3.
    induction l as [|j l IH]; intros o; [done|]. intros [(m & Hm & Hp & Hx) Hd].
    split; [|by apply IH]. rewrite list_lookup_insert. case_decide as Hj; [|by eauto].
    destruct Hj as [<- _]. simplify_eq. by eexists.
  - apply NoDup_app in Hnd as (_ & Hd1 & [Hk _]%NoDup_cons).
    apply Forall2_app_inv in Hv as [Hv1 Hv2]; [|done].
    inversion Hv2 as [|? ? ? ? (m & Hm & He) Hv3]; subst. simplify_eq.
    injection He as Hi _. apply Forall2_app; [|constructor].
    + eapply holds_frame; [|done]. intros j Hj. rewrite list_lookup_insert_ne; [done|].
      intros ->. apply (Hd1 j Hj). set_solver.
    + exists (ln_set_quantity n q'). rewrite list_lookup_insert_eq by by eapply lookup_lt_Some.
      split; [done|]. unfold entry_of. simpl. by rewrite Hi.
    + eapply holds_frame; [|done]. intros j Hj. rewrite list_lookup_insert_ne; [done|]. set_solver.
Qed.

Lemma rep_reduce s G p es id q r : skip_rep s G -> a_find p (g_level <$> G) = Some es ->
  qty_of id es = Some q -> 0 <= r <= q ->
  exists s', SkipList.reduce_order_quantity_at_level s p id r = Some (s', Ok ()) /\
    updates s s' p (reduce_id id r) G.
Proof.
  intros HR Hf Hqo Hr. pose proof (rep_found s G p HR) as HF.
  destruct (found_find _ _ _ _ HF Hf) as (GA & g & GB & -> & <- & <- & Hsp & Hh & Hp).
  destruct (rep_locate _ _ _ _ _ HR Hsp Hh) as (n & Hloc & Hn & Ht & Hqu & [Hb1 Hb2]).
  pose proof (find_in_level_ok _ _ _ _ n id HR Hqu) as Hfind. rewrite Hqo in Hfind.
  destruct Hfind as (X & k & Y & ex & ey & Hsl & Hes & HX & Hex & Hfind).
  pose proof (rep_slots _ _ _ _ HR) as Hpool. rewrite Hsl, Hes in *.
  unfold SkipList.reduce_order_quantity_at_level. rewrite Hloc. bind_step. rewrite Hn. bind_step.
  cbv zeta. rewrite Hfind. bind_step.
  assert (exists ln, lp_nodes (sl_list_pool s) !! k = Some ln /\ ln_quantity_lots ln = q)
    as (ln & Hln & Hlq).
  { by eapply holds_at; [apply Hqu|]. }
  unfold ListNodePool.update. rewrite Hln. bind_step.
  eexists. split; [done|]. rewrite qty_sum_app in *. simpl in *.
  apply Forall_app in Hb1 as [Hb1 [Hbq Hb3]%Forall_cons]. simpl in Hbq.
  pose proof (qty_sum_nonneg _ Hb1). pose proof (qty_sum_nonneg _ Hb3).
  assert (NoDup (X ++ k :: Y)) as Hnd.
  { apply pool_ok_NoDup in Hpool. by apply NoDup_app in Hpool as [? _]. }
  eapply (updates_intro _ _ _ _ _ _ _ _ (X ++ k :: Y) (ex ++ (id, q - r) :: ey)); try done.
  - simpl. rewrite Hlq, i64_sub_id, Z.max_l by (machine_unfold; lia).
    by eapply queue_ok_set_quantity.
  - rewrite Ht, qty_sum_app. simpl. rewrite i64_sub_id by (machine_unfold; lia). lia.
  - split; [|rewrite qty_sum_app; simpl; lia]. apply Forall_app. split; [done|].
    constructor; [simpl; lia|done].
  - destruct Hpool. split; simpl; try done; rewrite ?length_insert; done.
  - simpl. by rewrite length_insert.
  - intros j Hj. pose proof (other_slots _ _ _ j Hpool Hj) as Hj1. simpl.
    rewrite list_lookup_insert_ne; [done|]. set_solver.
  - rewrite Hes. by rewrite reduce_id_app.
Qed.

(** ** Best price *)

Lemma skip_ok_best s ks b : skip_ok s ks -> skip_ok (sl_set_best s b) ks.
Proof. intros []. by split. Qed.

Lemma rep_set_best s G b : skip_rep s G -> skip_rep (sl_set_best s b) G.
Proof. intros []. split; [by apply skip_ok_best|done..]. Qed.

Lemma rep_best_with_orders s G : skip_rep s G ->
  exists r, SkipList.best_with_orders s = Some r /\ sn_price_ticks <$> r = a_best (g_level <$> G).
Proof.
  intros HR. pose proof (sr_shape _ _ HR) as Hok. unfold SkipList.best_with_orders.
  rewrite (so_head _ _ Hok). eapply scan_nonempty_ok; [by apply skip_chain0|apply HR|].
  by apply rep_fuel.
Qed.

Lemma rep_get_best s G : skip_rep s G ->
  exists s', SkipList.get_best_price_cached s =
      Some (s', a_best_cached (sl_best_price s) (g_level <$> G)) /\
    skip_rep s' G /\ sl_order s' = sl_order s /\ skip_capacity s' = skip_capacity s /\
    sl_best_price s' = a_best_cached (sl_best_price s) (g_level <$> G).
Proof.
  intros HR. unfold SkipList.get_best_price_cached, a_best_cached.
  destruct (rep_best_with_orders _ _ HR) as (r & Hr & Hbest).
  destruct (sl_best_price s) as [p|] eqn:Hc; bind_step.
  2:{ rewrite Hr. bind_step. rewrite <- Hbest. eexists. split; [done|].
      split; [by apply rep_set_best|done]. }
  pose proof (rep_get_node _ _ p HR) as Hg. unfold skip_get_node_at_price in Hg.
  destruct (a_find p (g_level <$> G)) as [es|].
  - destruct Hg as (lvl & Hg & _ & _ & Hemp & _).
    destruct (SkipList.get_node_at_price s p) as [[n|]|]; simplify_eq/=.
    rewrite Hemp. destruct es as [|e es]; simpl; [|by exists s].
    rewrite Hr. bind_step. rewrite <- Hbest. eexists. split; [done|].
    split; [by apply rep_set_best|done].
  - destruct (SkipList.get_node_at_price s p) as [[n|]|]; simplify_eq/=.
    rewrite Hr. bind_step. rewrite <- Hbest. eexists. split; [done|].
    split; [by apply rep_set_best|done].
Qed.

(** ** The laws *)

Lemma rep_sorted s G : skip_rep s G -> a_sorted (sl_order s) (g_level <$> G).
Proof.
  intros HR. pose proof (rep_prices _ _ HR) as HP. destruct HR as [Hok _ _].
  pose proof (so_sorted _ _ Hok) as Hs. unfold a_sorted. clear Hok.
  induction G as [|g G IH]; simpl in *; [constructor|].
  apply Forall_cons in HP as [Hg HP]. inversion Hs as [|? ? Hs' Hf]; subst.
  constructor; [by apply IH|]. rewrite <- Hg.
  by apply (Forall_level_prices _ (sl_arena s)).
Qed.

Lemma rep_bounded s G : skip_rep s G -> Forall (fun l : Z * queue => queue_bounded l.2) (g_level <$> G).
Proof.
  intros [_ _ Hlv]. rewrite Forall_fmap. eapply Forall_impl; [done|].
  by intros g (n & _ & _ & _ & _ & ?).
Qed.

Lemma rep_new order cap : Z.of_nat cap <= u64_max -> skip_rep (SkipList.new_with_pool order cap) [].
Proof. intros ?. split; [apply new_with_pool_ok|by apply new_ok|constructor]. Qed.

#[global] Instance skip_OrderBookLaws : OrderBookLaws SkipList.
Proof.
  refine {| ob_repr := skip_repr; ob_order := sl_order; ob_cached := sl_best_price;
            ob_capacity := skip_capacity |}.
  - intros order cap Hc. split_and!; try done; [by exists []; split; [apply rep_new|]|].
    unfold skip_capacity. simpl. by rewrite length_replicate.
  - intros s ab (G & HR & ->). by apply rep_sorted.
  - intros s ab (G & HR & ->). by eapply rep_bounded.
  - intros s ab (G & HR & ->). by apply slots_capacity.
  - done.
  - intros s ab p (G & HR & ->) Hf. destruct (rep_insert _ _ _ HR Hf) as (s' & G' & ? & ? & HG & ? & Hp & ?).
    exists s'. split; [done|]. split; [by exists G'|]. split_and!; try done.
    unfold skip_capacity. by rewrite Hp.
  - intros s ab p es (G & HR & ->) Hf. by eapply rep_insert_exists.
  - intros s ab p (G & HR & ->). by apply rep_get_node.
  - intros s p. apply skip_get_node_mut_eq.
  - intros s ab (G & HR & ->). by apply rep_best.
  - intros s ab p es id q (G & HR & ->) Hf Hc Hq Hs.
    destruct (rep_add _ _ _ _ id q HR Hf Hc Hq Hs) as (s' & ? & G' & ? & ? & ? & ? & ?).
    exists s'. split; [done|]. by split; [exists G'|].
  - intros s ab p id q (G & HR & ->) Hc. by eapply rep_add_full.
  - intros s ab p id q (G & HR & ->) Hf Hc.
    destruct (rep_add_missing _ _ _ id q HR Hf Hc) as (s' & ? & ? & ? & ? & ?).
    exists s'. split; [done|]. by split; [exists G|].
  - intros s ab p es id q (G & HR & ->) Hf Hq.
    destruct (rep_remove_order _ _ _ _ _ _ HR Hf Hq) as (s' & ? & G' & ? & ? & ? & ? & ?).
    exists s'. split; [done|]. by split; [exists G'|].
  - intros s ab p es id (G & HR & ->) Hf Hq. by eapply rep_remove_order_absent.
  - intros s ab p es id q r (G & HR & ->) Hf Hq Hr.
    destruct (rep_reduce _ _ _ _ _ _ _ HR Hf Hq Hr) as (s' & ? & G' & ? & ? & ? & ? & ?).
    exists s'. split; [done|]. by split; [exists G'|].
  - intros s ab p (G & HR & ->) Hf.
    destruct (rep_remove_level _ _ _ HR Hf) as (s' & G' & ? & ? & HG & ? & Hp & ?).
    exists s'. split; [done|]. split; [by exists G'|]. split_and!; try done.
    unfold skip_capacity. by rewrite Hp.
  - intros s ab p (G & HR & ->) Hf. by eapply rep_remove_level_missing.
  - intros s ab n (G & HR & ->). simpl. unfold SkipList.get_top_levels.
    rewrite (so_head _ _ (sr_shape _ _ HR)). eapply top_from_ok; [|apply HR].
    apply skip_chain0, HR.
  - intros s ab out (G & HR & ->). simpl. unfold SkipList.fill_top_levels.
    rewrite (so_head _ _ (sr_shape _ _ HR)).
    erewrite top_from_ok; [done| |apply HR]. apply skip_chain0, HR.
  - intros s ab target limit is_market buy_taker (G & HR & ->) Hv.
    simpl. unfold SkipList.has_cumulative_quantity_until.
    rewrite (so_head _ _ (sr_shape _ _ HR)). eapply cumulative_ok; [|apply HR| |lia..].
    + apply skip_chain0, HR.
    + by apply rep_fuel.
  - intros s ab (G & HR & ->). simpl. unfold SkipList.count.
    by rewrite (so_count _ _ (sr_shape _ _ HR)), !length_fmap.
  - intros s ab (G & HR & ->). destruct (rep_get_best _ _ HR) as (s' & ? & ? & ? & ? & ?).
    exists s'. split; [done|]. by split; [exists G|].
  - intros s ab (G & HR & ->). split; [|done]. exists G. split; [|done]. by apply rep_set_best.
Defined.
