(* ===== verification/BookRun.v ===== *)
(** The skip list against the abstract book, over whole runs: any sequence of
    operations, run on a fresh [SkipList], answers call by call what the sorted
    list of FIFO queues answers. *)
From Stdlib Require Import ZArith Lia.
From stdpp Require Import base numbers list gmap sorting.
From S2P Require Import Prelude ListPool SkipList SkipListInv BookSpec OrderBook SkipListBook.

#[local] Open Scope Z_scope.

Inductive book_op :=
  | InsertLevel (price : Z)
  | AddOrder (price order_id quantity : Z)
  | RemoveOrder (price order_id : Z)
  | ReduceOrder (price order_id quantity : Z)
  | RemoveLevel (price : Z)
  | BestPrice
  | InvalidateBest
  | TopLevels (n : nat)
  | CanFill (target limit : Z) (is_market buy_taker : bool).

Inductive book_out :=
  | Done (r : result unit BookError)
  | Price (p : option Z)
  | Levels (l : list (Z * Z))
  | Answer (b : bool).

(** ** The two ways to run an operation *)

Section run.
Context {B : Type} {OB : OrderBook B}.

Definition done_with (r : option (B * result unit BookError)) : option (B * book_out) :=
  '(b, r) ← r; Some (b, Done r).

Definition book_exec (op : book_op) (b : B) : option (B * book_out) :=
  match op with
  | InsertLevel p => done_with (ob_insert_level b p)
  | AddOrder p id q => done_with (ob_add_order_at_level b p id q)
  | RemoveOrder p id => done_with (ob_remove_order_at_level b p id)
  | ReduceOrder p id q => done_with (ob_reduce_order_quantity_at_level b p id q)
  | RemoveLevel p => done_with (ob_remove_level b p)
  | BestPrice => '(b, p) ← ob_get_best_price b; Some (b, Price p)
  | InvalidateBest => Some (ob_invalidate_best_price b, Done (Ok ()))
  | TopLevels n => l ← ob_get_top_levels b n; Some (b, Levels l)
  | CanFill t l mk bt => a ← ob_has_cumulative_quantity_until b t l mk bt; Some (b, Answer a)
  end.

Fixpoint book_run (ops : list book_op) (b : B) : option (B * list book_out) :=
  match ops with
  | [] => Some (b, [])
  | op :: ops => '(b, o) ← book_exec op b; '(b, os) ← book_run ops b; Some (b, o :: os)
  end.
End run.

(** The abstract book remembers the price last returned as best.  [None]: outside
    the contract (a level emptied of orders first, quantities that fit). *)
Definition abstract : Type := option Z * abook.

Definition spec_op (order : SortOrder) (cap : nat) (op : book_op) (a : abstract)
  : option (abstract * book_out) :=
  let '(c, ab) := a in
  match op with
  | InsertLevel p =>
      match a_find p ab with
      | None => Some ((c, a_insert order p ab), Done (Ok ()))
      | Some _ => Some (a, Done (Err PriceLevelAlreadyExists))
      end
  | AddOrder p id q =>
      if decide (length (a_entries ab) = cap) then Some (a, Done (Err ListPoolExhausted))
      else match a_find p ab with
      | None => Some (a, Done (Err (PriceLevelNotFound p)))
      | Some es =>
          if Z.leb 0 q && Z.leb (qty_sum es + q) i64_max
          then Some ((c, a_update p (fun es => es ++ [(id, q)]) ab), Done (Ok ())) else None
      end
  | RemoveOrder p id =>
      es ← a_find p ab;
      match qty_of id es with
      | Some _ => Some ((c, a_update p (remove_id id) ab), Done (Ok ()))
      | None => Some (a, Done (Err (OrderNotFoundAtLevel id p)))
      end
  | ReduceOrder p id r =>
      es ← a_find p ab;
      q ← qty_of id es;
      if Z.leb 0 r && Z.leb r q then Some ((c, a_update p (reduce_id id r) ab), Done (Ok ())) else None
  | RemoveLevel p =>
      match a_find p ab with
      | None => Some (a, Done (Err PriceNotFound))
      | Some [] => Some ((c, a_remove p ab), Done (Ok ()))
      | Some _ => None
      end
  | BestPrice => Some ((a_best_cached c ab, ab), Price (a_best_cached c ab))
  | InvalidateBest => Some ((None, ab), Done (Ok ()))
  | TopLevels n => Some (a, Levels (a_top n ab))
  | CanFill t l mk bt =>
      if Z.leb (a_volume ab) i64_max then Some (a, Answer (a_cumulative ab t l mk bt 0)) else None
  end.

Fixpoint spec_ops (order : SortOrder) (cap : nat) (ops : list book_op) (a : abstract)
  : option (abstract * list book_out) :=
  match ops with
  | [] => Some (a, [])
  | op :: ops => '(a, o) ← spec_op order cap op a; '(a, os) ← spec_ops order cap ops a; Some (a, o :: os)
  end.

(** ** Simulation, against the interface *)

Section simulation.
Context {B : Type} {OB : OrderBook B} {LAWS : OrderBookLaws B}.
Implicit Type b : B.

Record shows_book (order : SortOrder) (cap : nat) b (a : abstract) : Prop := {
  sb_repr : ob_repr b a.2;
  sb_order : ob_order b = order;
  sb_cap : ob_capacity b = cap;
  sb_cached : ob_cached b = a.1
}.

Lemma shows_keeps order cap b b' c ab ab' : shows_book order cap b (c, ab) -> ob_repr b' ab' ->
  ob_keeps b b' -> shows_book order cap b' (c, ab').
Proof. intros [? ? ? ?] ? (? & ? & ?). split; simpl in *; congruence. Qed.

Ltac sim_done H := eexists; unfold done_with; rewrite H; split; [reflexivity|].
Ltac sim_step L := let b := fresh "b" in let E := fresh in let R := fresh in let K := fresh in
  destruct L as (b & E & R & K); try done; sim_done E; by eapply shows_keeps.

Lemma spec_op_ok order cap op b a a' o : shows_book order cap b a -> spec_op order cap op a = Some (a', o) ->
  exists b', book_exec op b = Some (b', o) /\ shows_book order cap b' a'.
Proof.
  intros S Hop. pose proof S as [R HO HC HB]. destruct a as [c ab]. simpl in R, HB.
  pose proof (law_capacity _ _ R) as Hcap. destruct op; cbn [spec_op book_exec] in *.
  - destruct (a_find price ab) eqn:Hf; simplify_eq; [sim_done (law_insert_exists _ _ _ _ R Hf); done|].
    sim_step (law_insert_new _ _ price R Hf).
  - case_decide as Hd.
    { rewrite <- HC in Hd. simplify_eq. sim_done (law_add_full _ _ price order_id quantity R Hd). done. }
    destruct (a_find price ab) as [es|] eqn:Hf.
    + destruct (Z.leb_spec 0 quantity), (Z.leb_spec (qty_sum es + quantity) i64_max); simplify_eq/=.
      sim_step (law_add _ _ _ _ order_id quantity R Hf ltac:(lia)).
    + simplify_eq. sim_step (law_add_missing _ _ _ order_id quantity R Hf ltac:(lia)).
  - destruct (a_find price ab) as [es|] eqn:Hf; [|done]. simpl in Hop.
    destruct (qty_of order_id es) as [q|] eqn:Hq; simplify_eq.
    + sim_step (law_remove_order _ _ _ _ _ _ R Hf Hq).
    + sim_done (law_remove_order_absent _ _ _ _ _ R Hf Hq). done.
  - destruct (a_find price ab) as [es|] eqn:Hf; [|done]. simpl in Hop.
    destruct (qty_of order_id es) as [q|] eqn:Hq; [|done]. simpl in Hop.
    destruct (Z.leb_spec 0 quantity), (Z.leb_spec quantity q); simplify_eq/=.
    sim_step (law_reduce _ _ _ _ _ _ quantity R Hf Hq ltac:(lia)).
  - destruct (a_find price ab) as [[|]|] eqn:Hf; simplify_eq.
    + sim_step (law_remove_level _ _ _ R Hf).
    + sim_done (law_remove_level_missing _ _ _ R Hf). done.
  - injection Hop as <- <-. destruct (law_get_best _ _ R) as (b' & E & R' & O' & C' & K'). rewrite HB in E, K'.
    exists b'. rewrite E. split; [done|]. split; simpl; congruence.
  - injection Hop as <- <-. destruct (law_invalidate _ _ R) as (R' & O' & C' & K').
    eexists. split; [done|]. split; simpl; congruence.
  - simplify_eq. sim_done (law_top _ _ n R). done.
  - destruct (Z.leb_spec (a_volume ab) i64_max) as [Hv|]; simplify_eq.
    sim_done (law_cumulative _ _ target limit is_market buy_taker R Hv). done.
Qed.

Lemma spec_ops_ok order cap ops : forall b a a' os, shows_book order cap b a ->
  spec_ops order cap ops a = Some (a', os) ->
  exists b', book_run ops b = Some (b', os) /\ shows_book order cap b' a'.
Proof.
  induction ops as [|op ops IH]; intros b a a' os S H; cbn [spec_ops book_run] in *; [simplify_eq; by exists b|].
  destruct (spec_op order cap op a) as [[a1 o1]|] eqn:H1; [|done]. simpl in H.
  destruct (spec_ops order cap ops a1) as [[a2 os2]|] eqn:H2; [|done]. simpl in H. simplify_eq.
  destruct (spec_op_ok _ _ _ _ _ _ _ S H1) as (b1 & E1 & S1).
  destruct (IH _ _ _ _ S1 H2) as (b2 & E2 & S2). exists b2. rewrite E1. simpl. rewrite E2. done.
Qed.
End simulation.

(** C9: the skip list implements the sorted book.  Every run of level
    insertions and removals, order additions, removals and reductions,
    best-price queries (with their cache), depth queries and fill-or-kill checks
    that the abstract book allows succeeds on a fresh skip list without a panic,
    with the same answers and errors, and ends in a list that represents the
    abstract book. *)
Theorem skip_list_refines order cap ops a os : Z.of_nat cap <= u64_max ->
  spec_ops order cap ops (None, []) = Some (a, os) ->
  exists b, book_run ops (SkipList.new_with_pool order cap) = Some (b, os) /\ ob_repr b a.2 /\ ob_cached b = a.1.
Proof.
  intros Hc H. destruct (law_new (B := SkipList) order cap Hc) as (R & O & K & C).
  destruct (spec_ops_ok (B := SkipList) order cap ops (SkipList.new_with_pool order cap) (None, []) a os)
    as (b & E & [HR _ _ HK]); [by split|done|]. by exists b.
Qed.

(** Two levels of a sell book, one emptied and dropped, with the queries between. *)
Definition demo_ops : list book_op :=
  [InsertLevel 101; InsertLevel 100; AddOrder 101 1 5; AddOrder 100 2 3; BestPrice; AddOrder 100 3 4;
   InsertLevel 100; ReduceOrder 100 2 1; TopLevels 5; CanFill 11 101 false true; RemoveOrder 100 2;
   RemoveOrder 100 9; RemoveOrder 100 3; RemoveLevel 100; BestPrice; AddOrder 102 4 1; TopLevels 5].

Lemma skip_list_refines_witness : exists b,
  book_run demo_ops (SkipList.new_with_pool Ascending 4) =
    Some (b, [Done (Ok ()); Done (Ok ()); Done (Ok ()); Done (Ok ()); Price (Some 100); Done (Ok ());
              Done (Err PriceLevelAlreadyExists); Done (Ok ()); Levels [(100, 6); (101, 5)]; Answer true;
              Done (Ok ()); Done (Err (OrderNotFoundAtLevel 9 100)); Done (Ok ()); Done (Ok ());
              Price (Some 101); Done (Err (PriceLevelNotFound 102)); Levels [(101, 5)]]) /\
  ob_repr b [(101, [(1, 5)])] /\ ob_cached b = Some 101.
Proof. apply (skip_list_refines Ascending 4 demo_ops (Some 101, [(101, [(1, 5)])])); by vm_compute. Defined.
