(* ===== verification/Types.v ===== *)
(** The data of the matching engine: orders, trades, engine errors, market-data
    events and their configuration ([src/src/matching/order.rs], [trade.rs],
    [error.rs], [market_data.rs]), and the interface of the third-party ring
    buffer the engine publishes to. *)
From Stdlib Require Import ZArith Lia SpecFloat.
From stdpp Require Import base numbers list gmap.
From S2P Require Import Prelude.

#[local] Open Scope Z_scope.

(** ** Orders *)

Inductive Side := Buy | Sell.
#[global] Instance Side_eq_dec : EqDecision Side.
Proof. solve_decision. Defined.

Definition opposite (s : Side) : Side := match s with Buy => Sell | Sell => Buy end.

Inductive TimeInForce := GTC | IOC | FOK | PostOnly.
#[global] Instance TimeInForce_eq_dec : EqDecision TimeInForce.
Proof. solve_decision. Defined.

(** [Order], without its padding bytes. *)
Record Order := mkOrder {
  o_id : Z;
  o_side : Side;
  o_price_ticks : Z;
  o_quantity_lots : Z;
  o_filled_lots : Z;
  o_time_in_force : TimeInForce;
  o_timestamp : Z;
  o_is_market : bool
}.

#[global] Instance Order_eq_dec : EqDecision Order.
Proof. solve_decision. Defined.

Module Order.

Definition new (id : Z) (side : Side) (price_ticks quantity_lots : Z)
  (time_in_force : TimeInForce) (timestamp : Z) : Order :=
  mkOrder id side price_ticks quantity_lots 0 time_in_force timestamp false.

Definition new_market (id : Z) (side : Side) (quantity_lots timestamp : Z) : Order :=
  mkOrder id side 0 quantity_lots 0 IOC timestamp true.

Definition remaining_lots (o : Order) : Z := i64_sub (o_quantity_lots o) (o_filled_lots o).

Definition is_filled (o : Order) : bool := Z.leb (remaining_lots o) 0.

Definition is_valid (o : Order) : bool :=
  let price_valid := if o_is_market o then true else Z.ltb 0 (o_price_ticks o) in
  price_valid && Z.ltb 0 (o_quantity_lots o).

Definition default : Order := mkOrder 0 Buy 0 0 0 GTC 0 false.

(** [o.filled_lots = f], [o.quantity_lots = q] and [o.is_market = m]. *)
Definition set_filled (o : Order) (f : Z) : Order :=
  mkOrder (o_id o) (o_side o) (o_price_ticks o) (o_quantity_lots o) f
    (o_time_in_force o) (o_timestamp o) (o_is_market o).
Definition set_quantity (o : Order) (q : Z) : Order :=
  mkOrder (o_id o) (o_side o) (o_price_ticks o) q (o_filled_lots o)
    (o_time_in_force o) (o_timestamp o) (o_is_market o).
Definition set_is_market (o : Order) (m : bool) : Order :=
  mkOrder (o_id o) (o_side o) (o_price_ticks o) (o_quantity_lots o) (o_filled_lots o)
    (o_time_in_force o) (o_timestamp o) m.

End Order.

(** ** Trades *)

Record Trade := mkTrade {
  t_taker_id : Z;
  t_maker_id : Z;
  t_price_ticks : Z;
  t_quantity_lots : Z
}.

Definition Trade_default : Trade := mkTrade 0 0 0 0.

(** ** Errors *)

Inductive MatchingEngineError :=
| OrderNotFound
| InvalidPrice (p : Z)
| InvalidQuantity (q : Z)
| AlreadyFilled
| AlreadyCancelled
| DuplicateOrderId (id : Z)
| InvalidTimeInForce
| OrderPoolExhausted
| NodePoolExhausted
| QueuePoolExhausted
| AeronNotConnected
| AeronBackPressured
| AeronClosed.

(** ** Floating-point values

    The engine only produces [f64] values by the cast [i64 as f64], which rounds
    to nearest, ties to even, and never compares or adds them. *)

Definition f64 := spec_float.
Definition f64_zero : f64 := S754_zero false.
Definition i64_as_f64 (z : Z) : f64 := binary_normalize 53 1024 z 0 false.

(** ** Market-data events *)

Record TradeEvent := mkTradeEvent {
  te_sequence : Z;
  te_order_id : Z;
  te_maker_order_id : Z;
  te_timestamp : Z;
  te_price : f64;
  te_quantity : f64;
  te_taker_id : Z;
  te_maker_id : Z;
  te_side : Side
}.

Definition TradeEvent_new (sequence order_id maker_order_id timestamp : Z)
  (price quantity : f64) (side : Side) (taker_id maker_id : Z) : TradeEvent :=
  mkTradeEvent sequence order_id maker_order_id timestamp price quantity taker_id maker_id side.

(** The three depth events differ in the length of their arrays (20, 50, 400)
    and in the width of their counters (u8, u8, u16). *)
Record DepthSnapshotEvent := mkDepthSnapshotEvent {
  ds_timestamp : Z;
  ds_sequence : Z;
  ds_num_bids : Z;
  ds_num_asks : Z;
  ds_symbol : list Z;
  ds_bids : list (f64 * f64);
  ds_asks : list (f64 * f64)
}.

Definition DepthSnapshotEvent_new (timestamp sequence : Z) : DepthSnapshotEvent :=
  mkDepthSnapshotEvent timestamp sequence 0 0 (replicate 16 0)
    (replicate 20 (f64_zero, f64_zero)) (replicate 20 (f64_zero, f64_zero)).

Record Depth50SnapshotEvent := mkDepth50SnapshotEvent {
  d50_timestamp : Z;
  d50_sequence : Z;
  d50_num_bids : Z;
  d50_num_asks : Z;
  d50_bids : list (f64 * f64);
  d50_asks : list (f64 * f64)
}.

Definition Depth50SnapshotEvent_new (timestamp sequence : Z) : Depth50SnapshotEvent :=
  mkDepth50SnapshotEvent timestamp sequence 0 0
    (replicate 50 (f64_zero, f64_zero)) (replicate 50 (f64_zero, f64_zero)).

Record Level2SnapshotEvent := mkLevel2SnapshotEvent {
  l2_timestamp : Z;
  l2_sequence : Z;
  l2_num_bids : Z;
  l2_num_asks : Z;
  l2_bids : list (f64 * f64);
  l2_asks : list (f64 * f64)
}.

Definition Level2SnapshotEvent_new (timestamp sequence : Z) : Level2SnapshotEvent :=
  mkLevel2SnapshotEvent timestamp sequence 0 0
    (replicate 400 (f64_zero, f64_zero)) (replicate 400 (f64_zero, f64_zero)).

Record MarketDataConfig := mkMarketDataConfig {
  cfg_shallow_sample_interval_ns : Z;
  cfg_enable_depth_increments : bool;
  cfg_depth50_interval_ns : Z;
  cfg_level2_interval_ns : Z
}.

Definition MarketDataConfig_default : MarketDataConfig :=
  mkMarketDataConfig 10000000 false 50000000 100000000.

(** ** The ring buffer (crate [rtrb])

    [push] returns the value back when the ring is full; [write_chunk n] hands
    out two slices of [n] default-initialised slots in all, or fails; [commit]
    publishes the filled slices. *)

Class Rtrb := {
  Producer : Type -> Type;
  push : forall {T}, Producer T -> T -> Producer T * result unit T;
  write_chunk : forall {T}, T -> Producer T -> nat -> result (list T * list T) nat;
  commit : forall {T}, Producer T -> list T -> list T -> nat -> Producer T
}.
