(* ===== verification/Pools.v ===== *)
(** The object pools of the engine ([src/src/matching/pools.rs]): slots handed
    out by index from a free stack.  The invariant [objpool_ok] states that the
    free stack and the slots in use partition the pool, so that a slot is never
    handed out twice and none is lost. *)
From Stdlib Require Import ZArith Lia.
From stdpp Require Import base numbers list gmap.
From S2P Require Import Prelude Types.

#[local] Open Scope Z_scope.

Record ObjectPool (T : Type) := mkObjectPool {
  op_objects : list T;
  op_free_indices : list nat;
  op_capacity : Z;
  op_allocated : Z
}.
Arguments mkObjectPool {T}.
Arguments op_objects {T}.
Arguments op_free_indices {T}.
Arguments op_capacity {T}.
Arguments op_allocated {T}.

Module ObjectPool.
Section ops.
Context {T : Type}.

(** [new(capacity)]; [dflt] is [T::default()]. *)
Definition new (dflt : T) (capacity : nat) : ObjectPool T :=
  mkObjectPool (replicate capacity dflt) (reverse (seq 0 capacity)) (Z.of_nat capacity) 0.

Definition acquire (p : ObjectPool T) : ObjectPool T * option nat :=
  match vec_pop (op_free_indices p) with
  | Some (idx, free) =>
      (mkObjectPool (op_objects p) free (op_capacity p) (u64_add (op_allocated p) 1), Some idx)
  | None => (p, None)
  end.

Definition release (p : ObjectPool T) (index : nat) : ObjectPool T :=
  mkObjectPool (op_objects p) (vec_push (op_free_indices p) index) (op_capacity p)
    (u64_sub (op_allocated p) 1).

Definition get (p : ObjectPool T) (index : nat) : option T := op_objects p !! index.

(** [if let Some(x) = pool.get_mut(index) { x = f(x) }] *)
Definition get_mut (p : ObjectPool T) (index : nat) (f : T -> T) : ObjectPool T :=
  mkObjectPool (alter f index (op_objects p)) (op_free_indices p) (op_capacity p) (op_allocated p).

Definition allocated_count (p : ObjectPool T) : Z := op_allocated p.

Definition available_count (p : ObjectPool T) : Z := u64_sub (op_capacity p) (op_allocated p).

Definition clear (p : ObjectPool T) : ObjectPool T :=
  mkObjectPool (op_objects p) (reverse (seq 0 (Z.to_nat (op_capacity p)))) (op_capacity p) 0.

End ops.
End ObjectPool.

(** A [VecDeque<u64>] of the unused queue pool. *)
Abbreviation VecDeque := (list Z).

Record Pools := mkPools {
  pl_orders : ObjectPool Order;
  pl_trades : ObjectPool Trade;
  pl_queues : ObjectPool VecDeque
}.

Record PoolStats := mkPoolStats {
  ps_orders_allocated : Z;
  ps_orders_capacity : Z;
  ps_trades_allocated : Z;
  ps_trades_capacity : Z;
  ps_queues_allocated : Z;
  ps_queues_capacity : Z
}.

Module Pools.

Definition new (order_capacity queue_capacity : nat) : Pools :=
  mkPools (ObjectPool.new Order.default order_capacity)
    (ObjectPool.new Trade_default order_capacity) (ObjectPool.new [] queue_capacity).

Definition has_space_for_order (p : Pools) : bool :=
  Z.ltb 0 (ObjectPool.available_count (pl_orders p)) &&
  Z.ltb 0 (ObjectPool.available_count (pl_queues p)).

Definition stats (p : Pools) : PoolStats :=
  mkPoolStats (ObjectPool.allocated_count (pl_orders p)) (op_capacity (pl_orders p))
    (ObjectPool.allocated_count (pl_trades p)) (op_capacity (pl_trades p))
    (ObjectPool.allocated_count (pl_queues p)) (op_capacity (pl_queues p)).

Definition set_orders (p : Pools) (x : ObjectPool Order) : Pools :=
  mkPools x (pl_trades p) (pl_queues p).
Definition set_trades (p : Pools) (x : ObjectPool Trade) : Pools :=
  mkPools (pl_orders p) x (pl_queues p).

End Pools.

(** ** The pool invariant *)

Record objpool_ok {T} (p : ObjectPool T) (used : list nat) : Prop := {
  ok_perm : op_free_indices p ++ used ≡ₚ seq 0 (length (op_objects p));
  ok_cap : op_capacity p = Z.of_nat (length (op_objects p));
  ok_width : op_capacity p <= u64_max;
  ok_alloc : op_allocated p = Z.of_nat (length used)
}.

Section lemmas.
Context {T : Type}.
Implicit Types (p : ObjectPool T) (used : list nat).

Lemma objpool_perm p used used' : used ≡ₚ used' -> objpool_ok p used -> objpool_ok p used'.
Proof. intros Hp []. split; rewrite <- ?Hp; done. Qed.

Lemma objpool_length p used : objpool_ok p used ->
  (length (op_free_indices p) + length used = length (op_objects p))%nat.
Proof.
  intros []. apply Permutation_length in ok_perm0.
  rewrite length_app, length_seq in ok_perm0. done.
Qed.

Lemma objpool_NoDup p used : objpool_ok p used -> NoDup used.
Proof.
  intros []. assert (NoDup (op_free_indices p ++ used)) as Hnd.
  { rewrite ok_perm0. apply NoDup_seq. }
  by apply NoDup_app in Hnd as (_ & _ & ?).
Qed.

Lemma objpool_lookup p used k : objpool_ok p used -> k ∈ used -> is_Some (op_objects p !! k).
Proof.
  intros [] Hk. apply lookup_lt_is_Some. assert (k ∈ seq 0 (length (op_objects p))) as Hin.
  { rewrite <- ok_perm0. set_solver. }
  apply elem_of_seq in Hin. lia.
Qed.

Lemma objpool_new dflt capacity :
  Z.of_nat capacity <= u64_max -> objpool_ok (@ObjectPool.new T dflt capacity) [].
Proof.
  intros ?. split; simpl; rewrite ?length_replicate; try done.
  rewrite app_nil_r. by rewrite reverse_Permutation.
Qed.

Lemma objpool_acquire p used : objpool_ok p used -> (length used < length (op_objects p))%nat ->
  exists idx p', ObjectPool.acquire p = (p', Some idx) /\ objpool_ok p' (idx :: used) /\
    op_objects p' = op_objects p.
Proof.
  intros Hok Hlt. pose proof (objpool_length _ _ Hok) as Hlen. destruct Hok.
  unfold ObjectPool.acquire.
  destruct (op_free_indices p) as [|idx free _] using rev_ind; [simpl in Hlen; lia|].
  rewrite vec_pop_snoc. eexists _, _. split; [done|]. split; [|done]. split; simpl; try done.
  - rewrite <- ok_perm0. rewrite <- app_assoc. done.
  - rewrite ok_alloc0, u64_add_id by (machine_unfold; lia). lia.
Qed.

Lemma objpool_acquire_full p used : objpool_ok p used ->
  length used = length (op_objects p) -> ObjectPool.acquire p = (p, None).
Proof.
  intros Hok Heq. pose proof (objpool_length _ _ Hok) as Hlen. unfold ObjectPool.acquire.
  by destruct (op_free_indices p); [|simpl in Hlen; lia].
Qed.

Lemma objpool_release p used k : objpool_ok p (k :: used) ->
  objpool_ok (ObjectPool.release p k) used.
Proof.
  intros Hok. pose proof (objpool_length _ _ Hok) as Hlen. destruct Hok.
  split; simpl in *; try done.
  - rewrite <- ok_perm0. unfold vec_push. by rewrite <- app_assoc.
  - rewrite ok_alloc0, u64_sub_id; machine_unfold; lia.
Qed.

Lemma objpool_get_mut p used k f : objpool_ok p used -> objpool_ok (ObjectPool.get_mut p k f) used.
Proof. intros []. split; simpl; rewrite ?length_alter; done. Qed.

Lemma objpool_available p used : objpool_ok p used ->
  ObjectPool.available_count p = Z.of_nat (length (op_objects p)) - Z.of_nat (length used).
Proof.
  intros Hok. pose proof (objpool_length _ _ Hok). destruct Hok.
  unfold ObjectPool.available_count. rewrite ok_cap0, ok_alloc0, u64_sub_id; machine_unfold; lia.
Qed.
End lemmas.
