(* ===== verification/Engine.v ===== *)
(** The matching engine ([src/src/matching/engine.rs]): its state, the order
    handlers, the matching loops, cancellation, batches, depth sampling and the
    resting-state snapshot.  The engine is written against the [OrderBook]
    interface; the readings of the monotonic and wall clocks are arguments. *)
From Stdlib Require Import ZArith Lia.
From stdpp Require Import base numbers list gmap sorting.
From S2P Require Import Prelude ListPool SkipList OrderBook Types Pools.

#[local] Open Scope Z_scope.

(** ** State *)

(** The depth-sampling fields of [MatchingEngine]. *)
Record DepthSampling `{Rtrb} := mkDepthSampling {
  ds_depth_snapshot_sender : option (Producer DepthSnapshotEvent);
  ds_depth50_sender : option (Producer Depth50SnapshotEvent);
  ds_level2_sender : option (Producer Level2SnapshotEvent);
  ds_market_data_config : MarketDataConfig;
  ds_depth_sampling_initialized : bool;
  ds_last_shallow_sample_ns : Z;
  ds_last_depth50_sample_ns : Z;
  ds_last_level2_sample_ns : Z;
  ds_depth_snapshot_seq : Z;
  ds_depth50_seq : Z;
  ds_level2_seq : Z
}.

Arguments mkDepthSampling {_}.

(** Updates of the sampling times and of the three senders. *)
Definition ds_set_times `{Rtrb} (d : DepthSampling) (initialized : bool)
  (shallow depth50 level2 : Z) : DepthSampling :=
  mkDepthSampling (ds_depth_snapshot_sender d) (ds_depth50_sender d) (ds_level2_sender d)
    (ds_market_data_config d) initialized shallow depth50 level2
    (ds_depth_snapshot_seq d) (ds_depth50_seq d) (ds_level2_seq d).

Definition ds_sent_depth `{Rtrb} (d : DepthSampling) (p : Producer DepthSnapshotEvent) : DepthSampling :=
  mkDepthSampling (Some p) (ds_depth50_sender d) (ds_level2_sender d)
    (ds_market_data_config d) (ds_depth_sampling_initialized d) (ds_last_shallow_sample_ns d)
    (ds_last_depth50_sample_ns d) (ds_last_level2_sample_ns d)
    (u64_add (ds_depth_snapshot_seq d) 1) (ds_depth50_seq d) (ds_level2_seq d).

Definition ds_sent_depth50 `{Rtrb} (d : DepthSampling) (p : Producer Depth50SnapshotEvent) : DepthSampling :=
  mkDepthSampling (ds_depth_snapshot_sender d) (Some p) (ds_level2_sender d)
    (ds_market_data_config d) (ds_depth_sampling_initialized d) (ds_last_shallow_sample_ns d)
    (ds_last_depth50_sample_ns d) (ds_last_level2_sample_ns d)
    (ds_depth_snapshot_seq d) (u64_add (ds_depth50_seq d) 1) (ds_level2_seq d).

Definition ds_sent_level2 `{Rtrb} (d : DepthSampling) (p : Producer Level2SnapshotEvent) : DepthSampling :=
  mkDepthSampling (ds_depth_snapshot_sender d) (ds_depth50_sender d) (Some p)
    (ds_market_data_config d) (ds_depth_sampling_initialized d) (ds_last_shallow_sample_ns d)
    (ds_last_depth50_sample_ns d) (ds_last_level2_sample_ns d)
    (ds_depth_snapshot_seq d) (ds_depth50_seq d) (u64_add (ds_level2_seq d) 1).

Record MatchingEngine (B : Type) `{Rtrb} := mkMatchingEngine {
  e_buy_book : B;
  e_sell_book : B;
  e_orders : gmap Z nat;
  e_pools : Pools;
  e_next_order_id : Z;
  e_snapshot_sequence : Z;
  e_trade_event_sender : option (Producer TradeEvent);
  e_trade_sequence : Z;
  e_sampling : DepthSampling;
  e_affected_makers_buf : list Z;
  e_fills_buf : list (Z * Z * Z)
}.
Arguments mkMatchingEngine {B _}.
Arguments e_buy_book {B _}.
Arguments e_sell_book {B _}.
Arguments e_orders {B _}.
Arguments e_pools {B _}.
Arguments e_next_order_id {B _}.
Arguments e_snapshot_sequence {B _}.
Arguments e_trade_event_sender {B _}.
Arguments e_trade_sequence {B _}.
Arguments e_sampling {B _}.
Arguments e_affected_makers_buf {B _}.
Arguments e_fills_buf {B _}.

Inductive OrderStatus := Accepted | PartiallyFilled | Filled | Rejected | Cancelled.

Record PlaceOrderResult := mkPlaceOrderResult {
  r_order_id : Z;
  r_filled_lots : Z;
  r_status : OrderStatus;
  r_fills : list (Z * Z * Z)
}.

Record CancelOrderResult := mkCancelOrderResult {
  c_order_id : Z;
  c_cancelled_quantity : Z
}.

Record PoolConfig := mkPoolConfig { pc_order_capacity : nat; pc_queue_capacity : nat }.

Record EngineSnapshot := mkEngineSnapshot {
  es_orders : list Order;
  es_next_order_id : Z;
  es_trade_sequence : Z
}.

Record EngineStats := mkEngineStats {
  st_total_orders : Z;
  st_buy_book_levels : Z;
  st_sell_book_levels : Z;
  st_next_order_id : Z;
  st_pools : PoolStats
}.

(** [matching/snapshot.rs]: a depth snapshot of at most 20 levels per side. *)
Record DepthSnapshot := mkDepthSnapshot {
  dp_timestamp : Z;
  dp_sequence : Z;
  dp_num_bids : Z;
  dp_num_asks : Z;
  dp_bids : list (f64 * f64);
  dp_asks : list (f64 * f64)
}.

Definition DepthSnapshot_new (timestamp sequence : Z) : DepthSnapshot :=
  mkDepthSnapshot timestamp sequence 0 0
    (replicate 20 (f64_zero, f64_zero)) (replicate 20 (f64_zero, f64_zero)).

Definition add_bid (s : DepthSnapshot) (price quantity : f64) : result DepthSnapshot unit :=
  if Z.leb 20 (dp_num_bids s) then Err ()
  else Ok (mkDepthSnapshot (dp_timestamp s) (dp_sequence s) (dp_num_bids s + 1) (dp_num_asks s)
             (<[Z.to_nat (dp_num_bids s) := (price, quantity)]> (dp_bids s)) (dp_asks s)).

Definition add_ask (s : DepthSnapshot) (price quantity : f64) : result DepthSnapshot unit :=
  if Z.leb 20 (dp_num_asks s) then Err ()
  else Ok (mkDepthSnapshot (dp_timestamp s) (dp_sequence s) (dp_num_bids s) (dp_num_asks s + 1)
             (dp_bids s) (<[Z.to_nat (dp_num_asks s) := (price, quantity)]> (dp_asks s))).

(** The events the engine would publish; [publish_event] is empty in the source. *)
Inductive MatchingEvent :=
| OrderPlaced (order_id : Z) (side : Side) (price_ticks quantity_lots timestamp : Z)
| OrderCancelled (order_id timestamp : Z)
| TradeMade (taker_order_id maker_order_id price_ticks quantity_lots timestamp : Z).

Module Engine.
Section engine.
Context {B : Type} {OB : OrderBook B} {RB : Rtrb}.

Abbreviation State := (MatchingEngine B).
Abbreviation EM := (M (MatchingEngine B) MatchingEngineError).
Implicit Types (e : State) (order : Order).

(** ** Field updates *)

Definition e_book e (s : Side) : B :=
  match s with Buy => e_buy_book e | Sell => e_sell_book e end.

Definition e_set_book e (s : Side) (b : B) : State :=
  mkMatchingEngine (match s with Buy => b | Sell => e_buy_book e end)
    (match s with Buy => e_sell_book e | Sell => b end)
    (e_orders e) (e_pools e) (e_next_order_id e) (e_snapshot_sequence e)
    (e_trade_event_sender e) (e_trade_sequence e) (e_sampling e)
    (e_affected_makers_buf e) (e_fills_buf e).

Definition e_set_orders e (m : gmap Z nat) : State :=
  mkMatchingEngine (e_buy_book e) (e_sell_book e) m (e_pools e) (e_next_order_id e)
    (e_snapshot_sequence e) (e_trade_event_sender e) (e_trade_sequence e) (e_sampling e)
    (e_affected_makers_buf e) (e_fills_buf e).

Definition e_set_pools e (p : Pools) : State :=
  mkMatchingEngine (e_buy_book e) (e_sell_book e) (e_orders e) p (e_next_order_id e)
    (e_snapshot_sequence e) (e_trade_event_sender e) (e_trade_sequence e) (e_sampling e)
    (e_affected_makers_buf e) (e_fills_buf e).

Definition e_set_sequences e (next_order_id snapshot_sequence trade_sequence : Z) : State :=
  mkMatchingEngine (e_buy_book e) (e_sell_book e) (e_orders e) (e_pools e) next_order_id
    snapshot_sequence (e_trade_event_sender e) trade_sequence (e_sampling e)
    (e_affected_makers_buf e) (e_fills_buf e).

Definition e_set_trade_sender e (p : option (Producer TradeEvent)) : State :=
  mkMatchingEngine (e_buy_book e) (e_sell_book e) (e_orders e) (e_pools e) (e_next_order_id e)
    (e_snapshot_sequence e) p (e_trade_sequence e) (e_sampling e)
    (e_affected_makers_buf e) (e_fills_buf e).

Definition e_set_sampling e (d : DepthSampling) : State :=
  mkMatchingEngine (e_buy_book e) (e_sell_book e) (e_orders e) (e_pools e) (e_next_order_id e)
    (e_snapshot_sequence e) (e_trade_event_sender e) (e_trade_sequence e) d
    (e_affected_makers_buf e) (e_fills_buf e).

Definition e_set_bufs e (makers : list Z) (fills : list (Z * Z * Z)) : State :=
  mkMatchingEngine (e_buy_book e) (e_sell_book e) (e_orders e) (e_pools e) (e_next_order_id e)
    (e_snapshot_sequence e) (e_trade_event_sender e) (e_trade_sequence e) (e_sampling e)
    makers fills.

Definition e_set_order_pool e (p : ObjectPool Order) : State :=
  e_set_pools e (Pools.set_orders (e_pools e) p).
Definition e_set_trade_pool e (p : ObjectPool Trade) : State :=
  e_set_pools e (Pools.set_trades (e_pools e) p).

Definition e_incr_trade_sequence e : State :=
  e_set_sequences e (e_next_order_id e) (e_snapshot_sequence e) (u64_add (e_trade_sequence e) 1).

(** ** Construction and configuration *)

(** [new(pool_config)] *)
Definition new (c : PoolConfig) : State :=
  mkMatchingEngine (ob_new Descending (pc_queue_capacity c)) (ob_new Ascending (pc_queue_capacity c))
    ∅ (Pools.new (pc_order_capacity c) (pc_queue_capacity c)) 1 0 None 0
    (mkDepthSampling None None None MarketDataConfig_default false 0 0 0 0 0 0) [] [].

Definition set_trade_event_sender e (sender : Producer TradeEvent) : State :=
  e_set_trade_sender e (Some sender).

Definition set_depth_snapshot_sender e (sender : Producer DepthSnapshotEvent) : State :=
  let d := e_sampling e in
  e_set_sampling e (mkDepthSampling (Some sender) (ds_depth50_sender d) (ds_level2_sender d)
    (ds_market_data_config d) (ds_depth_sampling_initialized d) (ds_last_shallow_sample_ns d)
    (ds_last_depth50_sample_ns d) (ds_last_level2_sample_ns d) (ds_depth_snapshot_seq d)
    (ds_depth50_seq d) (ds_level2_seq d)).

Definition set_depth50_sender e (sender : Producer Depth50SnapshotEvent) : State :=
  let d := e_sampling e in
  e_set_sampling e (mkDepthSampling (ds_depth_snapshot_sender d) (Some sender) (ds_level2_sender d)
    (ds_market_data_config d) (ds_depth_sampling_initialized d) (ds_last_shallow_sample_ns d)
    (ds_last_depth50_sample_ns d) (ds_last_level2_sample_ns d) (ds_depth_snapshot_seq d)
    (ds_depth50_seq d) (ds_level2_seq d)).

Definition set_level2_sender e (sender : Producer Level2SnapshotEvent) : State :=
  let d := e_sampling e in
  e_set_sampling e (mkDepthSampling (ds_depth_snapshot_sender d) (ds_depth50_sender d) (Some sender)
    (ds_market_data_config d) (ds_depth_sampling_initialized d) (ds_last_shallow_sample_ns d)
    (ds_last_depth50_sample_ns d) (ds_last_level2_sample_ns d) (ds_depth_snapshot_seq d)
    (ds_depth50_seq d) (ds_level2_seq d)).

Definition set_market_data_config e (config : MarketDataConfig) : State :=
  let d := e_sampling e in
  e_set_sampling e (mkDepthSampling (ds_depth_snapshot_sender d) (ds_depth50_sender d)
    (ds_level2_sender d) config (ds_depth_sampling_initialized d) (ds_last_shallow_sample_ns d)
    (ds_last_depth50_sample_ns d) (ds_last_level2_sample_ns d) (ds_depth_snapshot_seq d)
    (ds_depth50_seq d) (ds_level2_seq d)).

(** ** Queries *)

Definition last_affected_makers e : list Z := e_affected_makers_buf e.

Definition get_top_levels e (limit : nat) (is_buy : bool) : option (list (Z * Z)) :=
  if is_buy then ob_get_top_levels (e_buy_book e) limit
  else ob_get_top_levels (e_sell_book e) limit.

Definition fill_top_levels e (is_buy : bool) (out : list (Z * Z)) : option (list (Z * Z) * nat) :=
  if is_buy then ob_fill_top_levels (e_buy_book e) out
  else ob_fill_top_levels (e_sell_book e) out.

Definition best_price_ticks e (is_buy : bool) : option (option Z) :=
  r ← ob_best (if is_buy then e_buy_book e else e_sell_book e);
  Some (lvl_price_ticks <$> (r : option PriceLevel)).

Definition contains_order e (order_id : Z) : bool :=
  match e_orders e !! order_id with Some _ => true | None => false end.

Definition get_order e (order_id : Z) : option Order :=
  pool_idx ← e_orders e !! order_id; ObjectPool.get (pl_orders (e_pools e)) pool_idx.

Definition get_order_fill_status e (order_id : Z) : option (Z * Z) :=
  o ← get_order e order_id; Some (o_filled_lots o, Order.remaining_lots o).

Definition stats e : EngineStats :=
  mkEngineStats (Z.of_nat (size (e_orders e))) (ob_count (e_buy_book e)) (ob_count (e_sell_book e))
    (e_next_order_id e) (Pools.stats (e_pools e)).

Definition validate_order order : result unit MatchingEngineError :=
  if negb (o_is_market order) && Z.leb (o_price_ticks order) 0
  then Err (InvalidPrice (o_price_ticks order))
  else if Z.leb (o_quantity_lots order) 0 then Err (InvalidQuantity (o_quantity_lots order))
  else Ok ().

Definition check_valid order : EM unit :=
  match validate_order order with Ok _ => mret () | Err x => throw x end.

(** ** Depth sampling *)

(** [for (i, (p, q)) in levels.iter().take(num).enumerate()]: copy the levels
    into an event's array and count them in a [w]-bit counter. *)
Definition copy_levels (w : Z) (levels : list (Z * Z)) (num : nat)
  (out : list (f64 * f64) * Z) : list (f64 * f64) * Z :=
  foldl (fun (out : list (f64 * f64) * Z) '(i, (p, q)) =>
           (<[i := (i64_as_f64 p, i64_as_f64 q)]> out.1, (Z.of_nat i + 1) mod 2 ^ w))
    out (imap pair (take num levels)).

(** The two sides of the book, top [n] levels each, as event arrays. *)
Definition copy_books (n : nat) (w : Z) e : option (list (f64 * f64) * Z * (list (f64 * f64) * Z)) :=
  '(bids, num_bids) ← ob_fill_top_levels (e_buy_book e) (replicate n (0, 0));
  '(asks, num_asks) ← ob_fill_top_levels (e_sell_book e) (replicate n (0, 0));
  let out := (replicate n (f64_zero, f64_zero), 0) in
  Some (copy_levels w bids num_bids out, copy_levels w asks num_asks out).

Definition build_depth_event e (now_ns : Z) : option DepthSnapshotEvent :=
  '((bids, nb), (asks, na)) ← copy_books 20 8 e;
  let ev := DepthSnapshotEvent_new now_ns (ds_depth_snapshot_seq (e_sampling e)) in
  Some (mkDepthSnapshotEvent (ds_timestamp ev) (ds_sequence ev) nb na (ds_symbol ev) bids asks).

Definition build_depth50_event e (now_ns : Z) : option Depth50SnapshotEvent :=
  '((bids, nb), (asks, na)) ← copy_books 50 8 e;
  let ev := Depth50SnapshotEvent_new now_ns (ds_depth50_seq (e_sampling e)) in
  Some (mkDepth50SnapshotEvent (d50_timestamp ev) (d50_sequence ev) nb na bids asks).

Definition build_level2_event e (now_ns : Z) : option Level2SnapshotEvent :=
  '((bids, nb), (asks, na)) ← copy_books 400 16 e;
  let ev := Level2SnapshotEvent_new now_ns (ds_level2_seq (e_sampling e)) in
  Some (mkLevel2SnapshotEvent (l2_timestamp ev) (l2_sequence ev) nb na bids asks).

Definition set_sampling (f : DepthSampling -> DepthSampling) : EM unit :=
  modify (fun e => e_set_sampling e (f (e_sampling e))).

(** [if let Some(ref mut sender) = self.depth_snapshot_sender { ... }] *)
Definition send_depth (now_ns : Z) : EM unit :=
  d ← gets e_sampling;
  match ds_depth_snapshot_sender d with
  | None => mret ()
  | Some sender =>
      event ← reads (fun e => build_depth_event e now_ns);
      set_sampling (fun d => ds_sent_depth d (push sender event).1)
  end.

(** The Depth-50 and Level-2 events are built before the sender is looked at. *)
Definition send_depth50 (now_ns : Z) : EM unit :=
  event ← reads (fun e => build_depth50_event e now_ns);
  d ← gets e_sampling;
  match ds_depth50_sender d with
  | None => mret ()
  | Some sender => set_sampling (fun d => ds_sent_depth50 d (push sender event).1)
  end.

Definition send_level2 (now_ns : Z) : EM unit :=
  event ← reads (fun e => build_level2_event e now_ns);
  d ← gets e_sampling;
  match ds_level2_sender d with
  | None => mret ()
  | Some sender => set_sampling (fun d => ds_sent_level2 d (push sender event).1)
  end.

(** The first-call branch of [maybe_sample_depth]. *)
Definition first_sample (now_ns : Z) : EM unit :=
  d ← gets e_sampling;
  let increments := cfg_enable_depth_increments (ds_market_data_config d) in
  _ ← set_sampling (fun d => ds_set_times d true now_ns
        (if increments then now_ns else ds_last_depth50_sample_ns d)
        (if increments then now_ns else ds_last_level2_sample_ns d));
  _ ← send_depth now_ns;
  when increments (_ ← send_depth50 now_ns; send_level2 now_ns).

(** [maybe_sample_depth], with [now_ns] the reading of the monotonic clock. *)
Definition maybe_sample_depth (now_ns : Z) : EM unit :=
  d ← gets e_sampling;
  let cfg := ds_market_data_config d in
  if negb (ds_depth_sampling_initialized d) then first_sample now_ns
  else
    let threshold := u64_saturating_add (ds_last_shallow_sample_ns d)
                       (cfg_shallow_sample_interval_ns cfg) in
    _ ← when (Z.leb threshold now_ns)
      (_ ← send_depth now_ns;
       set_sampling (fun d => ds_set_times d (ds_depth_sampling_initialized d) now_ns
         (ds_last_depth50_sample_ns d) (ds_last_level2_sample_ns d)));
    when (cfg_enable_depth_increments cfg)
      (_ ← when (Z.leb (u64_add (ds_last_depth50_sample_ns d) (cfg_depth50_interval_ns cfg)) now_ns)
         (_ ← send_depth50 now_ns;
          set_sampling (fun d => ds_set_times d (ds_depth_sampling_initialized d)
            (ds_last_shallow_sample_ns d) now_ns (ds_last_level2_sample_ns d)));
       when (Z.leb (u64_add (ds_last_level2_sample_ns d) (cfg_level2_interval_ns cfg)) now_ns)
         (_ ← send_level2 now_ns;
          set_sampling (fun d => ds_set_times d (ds_depth_sampling_initialized d)
            (ds_last_shallow_sample_ns d) (ds_last_depth50_sample_ns d) now_ns))).

(** ** Access to the books and pools *)

Definition read_book {A} (s : Side) (f : B -> option A) : EM A := reads (fun e => f (e_book e s)).

(** A call on the book of side [s]; its [Result] is an ordinary value. *)
Definition on_book {A} (s : Side) (f : B -> option (B * A)) : EM A :=
  fun e => '(b, a) ← f (e_book e s); Some (e_set_book e s b, Ok a).

Definition is_level_empty (lvl : option PriceLevel) (missing : bool) : bool :=
  match lvl with Some n => PooledList.is_empty (lvl_orders n) | None => missing end.

(** [if book.get_node_at_price(p).map(|n| n.orders.is_empty()).unwrap_or(missing)
    { let _ = book.remove_level(p); }] *)
Definition remove_level_if_empty (s : Side) (price : Z) (missing : bool) : EM unit :=
  lvl ← read_book s (fun b => ob_get_node_at_price b price);
  when (is_level_empty lvl missing)
    (_ ← on_book s (fun b => ob_remove_level b price); mret ()).

(** [if let Some(idx) = self.orders.remove(&id) { self.pools.orders.release(idx); }] *)
Definition e_forget e (order_id : Z) : State :=
  match e_orders e !! order_id with
  | Some idx =>
      e_set_order_pool (e_set_orders e (delete order_id (e_orders e)))
        (ObjectPool.release (pl_orders (e_pools e)) idx)
  | None => e
  end.

Definition forget_order (order_id : Z) : EM unit := modify (fun e => e_forget e order_id).

(** [if let Some(&i) = self.orders.get(&id) { if let Some(o) = pool.get_mut(i)
    { o.filled_lots += lots; } }] *)
Definition e_bump e (order_id lots : Z) : State :=
  match e_orders e !! order_id with
  | Some idx =>
      e_set_order_pool e (ObjectPool.get_mut (pl_orders (e_pools e)) idx
        (fun o => Order.set_filled o (i64_add (o_filled_lots o) lots)))
  | None => e
  end.

Definition bump_filled (order_id lots : Z) : EM unit := modify (fun e => e_bump e order_id lots).

Definition acquire_order_slot : EM (option nat) :=
  fun e => let '(p, idx) := ObjectPool.acquire (pl_orders (e_pools e)) in
           Some (e_set_order_pool e p, Ok idx).

Definition acquire_trade_slot : EM (option nat) :=
  fun e => let '(p, idx) := ObjectPool.acquire (pl_trades (e_pools e)) in
           Some (e_set_trade_pool e p, Ok idx).

(** [publish_event] has an empty body. *)
Definition publish_event (ev : MatchingEvent) : EM unit := mret ().

(** ** Resting an order *)

(** [add_to_book] *)
Definition add_to_book order : EM unit :=
  dup ← gets (fun e => contains_order e (o_id order));
  if (dup : bool) then throw (DuplicateOrderId (o_id order))
  else
    slot ← acquire_order_slot;
    pool_idx ← ok_or slot OrderPoolExhausted;
    _ ← modify (fun e => e_set_order_pool e
          (ObjectPool.get_mut (pl_orders (e_pools e)) pool_idx (fun _ => order)));
    let side := o_side order in
    let price := o_price_ticks order in
    _ ← on_book side (fun b => ob_insert_level b price);
    r ← on_book side (fun b =>
          ob_add_order_at_level b price (o_id order) (Order.remaining_lots order));
    if is_err r then
      _ ← modify (fun e => e_set_order_pool e
            (ObjectPool.release (pl_orders (e_pools e)) pool_idx));
      _ ← remove_level_if_empty side price false;
      throw NodePoolExhausted
    else
      _ ← modify (fun e => e_set_orders e (<[o_id order := pool_idx]> (e_orders e)));
      modify (fun e => e_set_book e side (ob_invalidate_best_price (e_book e side))).

(** ** Matching *)

(** Local variables of the matching loops. *)
Record Locals := mkLocals {
  l_filled : Z;
  l_trade_indices : list nat;
  l_trade_events : list TradeEvent
}.

(** Id of the first order queued at [price]. *)
Definition front_order_id (s : Side) (price : Z) : EM (option Z) :=
  node ← read_book s (fun b => ob_get_node_mut b price);
  match node with
  | None => mret None
  | Some node =>
      match PooledList.front (lvl_orders node) with
      | None => mret None
      | Some node_idx =>
          gets (fun e => ln_order_id <$> ListNodePool.get (ob_get_list_pool (e_book e s)) node_idx)
      end
  end.

(** Take an order off the level [price] of side [s], forget it and drop the
    level when it was the last one. *)
Definition drop_counter (s : Side) (price counter_id : Z) : EM unit :=
  _ ← on_book s (fun b => ob_remove_order_at_level b price counter_id);
  _ ← forget_order counter_id;
  remove_level_if_empty s price true.

(** The level entry has no order behind it: no slot is released. *)
Definition drop_stale (s : Side) (price counter_id : Z) : EM unit :=
  _ ← on_book s (fun b => ob_remove_order_at_level b price counter_id);
  _ ← modify (fun e => e_set_orders e (delete counter_id (e_orders e)));
  remove_level_if_empty s price true.

Definition drop_zombie (s : Side) (price counter_id : Z) : EM unit :=
  _ ← on_book s (fun b => ob_remove_order_at_level b price counter_id);
  remove_level_if_empty s price true.

Definition price_matches order (price : Z) : bool :=
  o_is_market order ||
  match o_side order with
  | Buy => Z.leb price (o_price_ticks order)
  | Sell => Z.leb (o_price_ticks order) price
  end.

(** The trade against [counter_order]: everything from the quantity of the
    trade to the removal of a filled counter order.  [record] is set in
    [match_order], which keeps the maker and fill buffers, and unset in
    [match_orders_batch], which does not. *)
Definition trade_with (record has_trade_sender : bool) order (best_price counter_order_id : Z)
  (trade_lots : Z) (l : Locals) : EM Locals :=
  let opp := opposite (o_side order) in
  _ ← when record (modify (fun e => e_set_bufs e
        (vec_push (e_affected_makers_buf e) counter_order_id)
        (vec_push (e_fills_buf e) (counter_order_id, best_price, trade_lots))));
  _ ← bump_filled (o_id order) trade_lots;
  _ ← bump_filled counter_order_id trade_lots;
  _ ← on_book opp (fun b =>
        ob_reduce_order_quantity_at_level b best_price counter_order_id trade_lots);
  let filled := i64_add (l_filled l) trade_lots in
  slot ← acquire_trade_slot;
  trade_idx ← ok_or slot OrderPoolExhausted;
  _ ← modify (fun e => e_set_trade_pool e
        (ObjectPool.get_mut (pl_trades (e_pools e)) trade_idx
           (fun _ => mkTrade (o_id order) counter_order_id best_price trade_lots)));
  _ ← when record (publish_event (TradeMade (o_id order) counter_order_id best_price trade_lots
        (o_timestamp order)));
  _ ← modify e_incr_trade_sequence;
  seq ← gets e_trade_sequence;
  let events := if has_trade_sender then vec_push (l_trade_events l)
        (TradeEvent_new seq (o_id order) counter_order_id (o_timestamp order)
           (i64_as_f64 best_price) (i64_as_f64 trade_lots) (o_side order)
           (o_id order) counter_order_id)
      else l_trade_events l in
  counter ← gets (fun e => get_order e counter_order_id);
  _ ← when (match counter with Some c => Order.is_filled c | None => false end)
        (drop_counter opp best_price counter_order_id);
  mret (mkLocals filled (vec_push (l_trade_indices l) trade_idx) events).

(** One iteration of the inner loop: [None] is [break]. *)
Definition match_step (record has_trade_sender : bool) order (best_price : Z) (l : Locals)
  : EM (option Locals) :=
  let opp := opposite (o_side order) in
  if Z.leb (o_quantity_lots order) (l_filled l) then mret None
  else
    front ← front_order_id opp best_price;
    match front with
    | None => mret None
    | Some counter_order_id =>
        entry ← gets (fun e => e_orders e !! counter_order_id);
        match entry with
        | None => _ ← drop_zombie opp best_price counter_order_id; mret (Some l)
        | Some pool_idx =>
            counter ← gets (fun e => ObjectPool.get (pl_orders (e_pools e)) pool_idx);
            match counter with
            | None => _ ← drop_stale opp best_price counter_order_id; mret (Some l)
            | Some counter_order =>
                let order_remaining := i64_sub (o_quantity_lots order) (l_filled l) in
                let counter_remaining := Order.remaining_lots counter_order in
                if Z.leb counter_remaining 0 then
                  _ ← drop_counter opp best_price counter_order_id; mret (Some l)
                else
                  l ← trade_with record has_trade_sender order best_price counter_order_id
                        (Z.min order_remaining counter_remaining) l;
                  mret (Some l)
            end
        end
    end.

Fixpoint match_level (record has_trade_sender : bool) order (best_price : Z) (fuel : nat)
  (l : Locals) : EM Locals :=
  match fuel with
  | O => panic
  | S fuel =>
      r ← match_step record has_trade_sender order best_price l;
      match r with
      | None => mret l
      | Some l => match_level record has_trade_sender order best_price fuel l
      end
  end.

(** The outer loop.  [level_fuel] bounds the inner one. *)
Fixpoint match_levels (record has_trade_sender : bool) order (level_fuel fuel : nat)
  (l : Locals) : EM Locals :=
  match fuel with
  | O => panic
  | S fuel =>
      if Z.leb (o_quantity_lots order) (l_filled l) then mret l
      else
        let opp := opposite (o_side order) in
        best ← on_book opp ob_get_best_price;
        match best with
        | None => mret l
        | Some price =>
            node ← read_book opp (fun b => ob_get_node_at_price b price);
            match node with
            | None => mret l
            | Some _ =>
                if negb (price_matches order price) then mret l
                else
                  l ← match_level record has_trade_sender order price level_fuel l;
                  match_levels record has_trade_sender order level_fuel fuel l
            end
        end
  end.

(** Every iteration of a loop but the last takes an entry off the opposite
    book, whose entries are slots of its list pool. *)
Definition match_fuel e (s : Side) : nat :=
  (2 + length (lp_nodes (ob_get_list_pool (e_book e s))))%nat.

Definition release_trades (indices : list nat) : EM unit :=
  for_each (fun i => modify (fun e =>
    e_set_trade_pool e (ObjectPool.release (pl_trades (e_pools e)) i))) indices.

(** [for ev in events { let _ = sender.push(ev); }] *)
Definition push_all {T} (sender : Producer T) (events : list T) : Producer T :=
  foldl (fun p ev => (push p ev).1) sender events.

Definition send_trades (events : list TradeEvent) : EM unit :=
  modify (fun e =>
    match e_trade_event_sender e with
    | Some sender => e_set_trade_sender e (Some (push_all sender events))
    | None => e
    end).

Definition has_trade_sender e : bool :=
  match e_trade_event_sender e with Some _ => true | None => false end.

(** [match_order] *)
Definition match_order order : EM Z :=
  _ ← modify (fun e => e_set_bufs e [] []);
  has_sender ← gets has_trade_sender;
  fuel ← gets (fun e => match_fuel e (opposite (o_side order)));
  l ← match_levels true has_sender order fuel fuel (mkLocals 0 [] []);
  _ ← send_trades (l_trade_events l);
  _ ← release_trades (l_trade_indices l);
  mret (l_filled l).

(** ** Handlers *)

Definition result_with_fills order (filled_lots : Z) (status : OrderStatus) : EM PlaceOrderResult :=
  fills ← gets e_fills_buf;
  mret (mkPlaceOrderResult (o_id order) filled_lots status fills).

(** Status of a taker that is not rested. *)
Definition taker_status order (filled_lots : Z) : OrderStatus :=
  if Z.leb (o_quantity_lots order) filled_lots then Filled
  else if Z.ltb 0 filled_lots then PartiallyFilled else Rejected.

Definition handle_market_order order : EM PlaceOrderResult :=
  filled_lots ← match_order order;
  result_with_fills order filled_lots (taker_status order filled_lots).

Definition rejected order : PlaceOrderResult := mkPlaceOrderResult (o_id order) 0 Rejected [].

Definition handle_post_only order : EM PlaceOrderResult :=
  best ← read_book (opposite (o_side order)) ob_best;
  let would_match :=
    match best with
    | Some best =>
        match o_side order with
        | Buy => Z.leb (lvl_price_ticks best) (o_price_ticks order)
        | Sell => Z.leb (o_price_ticks order) (lvl_price_ticks best)
        end
    | None => false
    end in
  if would_match then mret (rejected order)
  else
    _ ← add_to_book order;
    _ ← publish_event (OrderPlaced (o_id order) (o_side order) (o_price_ticks order)
          (o_quantity_lots order) (o_timestamp order));
    mret (mkPlaceOrderResult (o_id order) 0 Accepted []).

Definition can_fill_fok e order : option bool :=
  ob_has_cumulative_quantity_until (e_book e (opposite (o_side order)))
    (o_quantity_lots order) (o_price_ticks order) (o_is_market order)
    (bool_decide (o_side order = Buy)).

Definition handle_fok order : EM PlaceOrderResult :=
  ok ← reads (fun e => can_fill_fok e order);
  if negb ok then mret (rejected order)
  else
    filled_lots ← match_order order;
    result_with_fills order filled_lots Filled.

Definition handle_ioc order : EM PlaceOrderResult :=
  filled_lots ← match_order order;
  result_with_fills order filled_lots (taker_status order filled_lots).

Definition handle_gtc order : EM PlaceOrderResult :=
  filled_lots ← match_order order;
  _ ← when (Z.ltb filled_lots (o_quantity_lots order))
        (add_to_book (Order.set_filled order filled_lots));
  let status :=
    if Z.leb (o_quantity_lots order) filled_lots then Filled
    else if Z.ltb 0 filled_lots then PartiallyFilled else Accepted in
  result_with_fills order filled_lots status.

(** The dispatch shared by [place_order] and [place_orders]. *)
Definition dispatch order : EM PlaceOrderResult :=
  _ ← modify (fun e => e_set_bufs e [] (e_fills_buf e));
  if o_is_market order then handle_market_order order
  else match o_time_in_force order with
       | PostOnly => handle_post_only order
       | FOK => handle_fok order
       | IOC => handle_ioc order
       | GTC => handle_gtc order
       end.

(** [place_order]; [now_ns] is the clock reading of [maybe_sample_depth]. *)
Definition place_order (now_ns : Z) order : EM PlaceOrderResult :=
  _ ← check_valid order;
  dup ← gets (fun e => contains_order e (o_id order));
  if (dup : bool) then throw (DuplicateOrderId (o_id order))
  else
    space ← gets (fun e => Pools.has_space_for_order (e_pools e));
    if negb space then throw OrderPoolExhausted
    else
      result ← dispatch order;
      _ ← maybe_sample_depth now_ns;
      mret result.

(** The validation loop of [place_orders]: [prev] are the orders already seen. *)
Fixpoint check_orders (prev orders : list Order) : EM unit :=
  match orders with
  | [] => mret ()
  | order :: orders =>
      _ ← check_valid order;
      dup ← gets (fun e => contains_order e (o_id order));
      if (dup : bool) then throw (DuplicateOrderId (o_id order))
      else if existsb (fun p => Z.eqb (o_id p) (o_id order)) prev
      then throw (DuplicateOrderId (o_id order))
      else
        space ← gets (fun e => Pools.has_space_for_order (e_pools e));
        if negb space then throw OrderPoolExhausted
        else check_orders (prev ++ [order]) orders
  end.

Fixpoint dispatch_all (orders : list Order) : EM (list PlaceOrderResult) :=
  match orders with
  | [] => mret []
  | order :: orders =>
      r ← dispatch order;
      rs ← dispatch_all orders;
      mret (r :: rs)
  end.

(** [place_orders] *)
Definition place_orders (orders : list Order) : EM (list PlaceOrderResult) :=
  _ ← check_orders [] orders;
  dispatch_all orders.

(** ** Batch matching *)

(** Copy the trades of one order out of the pool and release their slots. *)
Fixpoint collect_trades (indices : list nat) : EM (list Trade) :=
  match indices with
  | [] => mret []
  | i :: indices =>
      t ← gets (fun e => ObjectPool.get (pl_trades (e_pools e)) i);
      _ ← modify (fun e => e_set_trade_pool e (ObjectPool.release (pl_trades (e_pools e)) i));
      ts ← collect_trades indices;
      mret (match t with Some t => t :: ts | None => ts end)
  end.

(** The resting path of [match_orders_batch]. *)
Definition batch_rest order (filled : Z) : EM unit :=
  let remaining_order := Order.set_filled order filled in
  let side := o_side remaining_order in
  let price := o_price_ticks remaining_order in
  slot ← acquire_order_slot;
  pool_idx ← ok_or slot OrderPoolExhausted;
  _ ← modify (fun e => e_set_order_pool e
        (ObjectPool.get_mut (pl_orders (e_pools e)) pool_idx (fun _ => remaining_order)));
  node ← read_book side (fun b => ob_get_node_at_price b price);
  _ ← when (match node with None => true | Some _ => false end)
        (_ ← on_book side (fun b => ob_insert_level b price); mret ());
  r ← on_book side (fun b => ob_add_order_at_level b price (o_id remaining_order)
        (i64_sub (o_quantity_lots remaining_order) (o_filled_lots remaining_order)));
  if is_err r then
    _ ← modify (fun e => e_set_order_pool e (ObjectPool.release (pl_orders (e_pools e)) pool_idx));
    throw NodePoolExhausted
  else modify (fun e => e_set_orders e (<[o_id remaining_order := pool_idx]> (e_orders e))).

Definition batch_one (has_sender : bool) order (events : list TradeEvent)
  : EM (Z * list Trade * list TradeEvent) :=
  fuel ← gets (fun e => match_fuel e (opposite (o_side order)));
  l ← match_levels false has_sender order fuel fuel (mkLocals 0 [] events);
  trades ← collect_trades (l_trade_indices l);
  _ ← when (Z.ltb (l_filled l) (o_quantity_lots order)) (batch_rest order (l_filled l));
  mret (l_filled l, trades, l_trade_events l).

Fixpoint batch_all (has_sender : bool) (orders : list Order) (events : list TradeEvent)
  : EM (list (Z * list Trade) * list TradeEvent) :=
  match orders with
  | [] => mret ([], events)
  | order :: orders =>
      '(filled, trades, events) ← batch_one has_sender order events;
      '(results, events) ← batch_all has_sender orders events;
      mret ((filled, trades) :: results, events)
  end.

(** [for slot in s.iter_mut() { if idx < num_events { *slot = events[idx]; idx += 1; } }] *)
Fixpoint fill_slice (slice events : list TradeEvent) (idx : nat) : list TradeEvent * nat :=
  match slice with
  | [] => ([], idx)
  | slot :: slice =>
      match events !! idx with
      | Some ev => let '(rest, idx) := fill_slice slice events (S idx) in (ev :: rest, idx)
      | None => let '(rest, idx) := fill_slice slice events idx in (slot :: rest, idx)
      end
  end.

Definition TradeEvent_default : TradeEvent :=
  mkTradeEvent 0 0 0 0 f64_zero f64_zero 0 0 Buy.

(** Publish a batch: one chunk when the ring has room for it, else one by one. *)
Definition send_batch (events : list TradeEvent) : EM unit :=
  modify (fun e =>
    match e_trade_event_sender e with
    | None => e
    | Some sender =>
        let num_events := length events in
        match write_chunk TradeEvent_default sender num_events with
        | Ok (s1, s2) =>
            let '(s1, idx) := fill_slice s1 events 0 in
            let '(s2, _) := fill_slice s2 events idx in
            e_set_trade_sender e (Some (commit sender s1 s2 num_events))
        | Err _ => e_set_trade_sender e (Some (push_all sender events))
        end
    end).

(** [match_orders_batch] *)
Definition match_orders_batch (now_ns : Z) (orders : list Order) : EM (list (Z * list Trade)) :=
  has_sender ← gets has_trade_sender;
  '(results, events) ← batch_all has_sender orders [];
  _ ← send_batch events;
  _ ← maybe_sample_depth now_ns;
  mret results.

(** ** Cancellation *)

(** [remove_from_book] *)
Definition remove_from_book (order_id : Z) : EM unit :=
  entry ← gets (fun e => e_orders e !! order_id);
  pool_idx ← ok_or entry OrderNotFound;
  slot ← gets (fun e => ObjectPool.get (pl_orders (e_pools e)) pool_idx);
  order ← ok_or slot OrderNotFound;
  r ← on_book (o_side order) (fun b => ob_remove_order_at_level b (o_price_ticks order) order_id);
  if is_err r then throw OrderNotFound
  else remove_level_if_empty (o_side order) (o_price_ticks order) true.

(** [cancel_order_inner]; [sample] carries the clock reading when [sample_depth]. *)
Definition cancel_order_inner (order_id : Z) (sample : option Z) : EM CancelOrderResult :=
  entry ← gets (fun e => e_orders e !! order_id);
  pool_idx ← ok_or entry OrderNotFound;
  slot ← gets (fun e => ObjectPool.get (pl_orders (e_pools e)) pool_idx);
  order ← ok_or slot OrderNotFound;
  if Order.is_filled order then throw AlreadyFilled
  else
    let remaining := Order.remaining_lots order in
    _ ← remove_from_book order_id;
    _ ← forget_order order_id;
    _ ← publish_event (OrderCancelled order_id (o_timestamp order));
    _ ← match sample with Some now_ns => maybe_sample_depth now_ns | None => mret () end;
    mret (mkCancelOrderResult order_id remaining).

Definition cancel_order (now_ns order_id : Z) : EM CancelOrderResult :=
  cancel_order_inner order_id (Some now_ns).

Fixpoint cancel_each (order_ids : list Z) : EM (list (Z * Z)) :=
  match order_ids with
  | [] => mret []
  | id :: order_ids =>
      r ← attempt (cancel_order_inner id None);
      rs ← cancel_each order_ids;
      mret (match r with Ok r => (id, c_cancelled_quantity r) :: rs | Err _ => rs end)
  end.

(** [cancel_orders_batch] *)
Definition cancel_orders_batch (now_ns : Z) (order_ids : list Z) : EM (list (Z * Z)) :=
  results ← cancel_each order_ids;
  _ ← when (match results with [] => false | _ => true end) (maybe_sample_depth now_ns);
  mret results.

(** ** Snapshots *)

(** The key of [sort_unstable_by_key]. *)
Definition key_le (o1 o2 : Order) : Prop :=
  o_timestamp o1 < o_timestamp o2 \/ (o_timestamp o1 = o_timestamp o2 /\ o_id o1 <= o_id o2).

#[global] Instance key_le_dec : RelDecision key_le.
Proof. intros o1 o2. unfold key_le. apply _. Defined.

(** The closure of [snapshot_resting]: a resting order of size its remaining. *)
Definition as_resting (o : Order) : Order :=
  Order.set_filled (Order.set_quantity o (Order.remaining_lots o)) 0.

(** [snapshot_resting]; the iteration order of the hash map does not matter
    since the result is sorted by a key that contains the id. *)
Definition snapshot_resting e : EngineSnapshot :=
  let orders := omap (ObjectPool.get (pl_orders (e_pools e))) (map_to_list (e_orders e)).*2 in
  let orders := filter (fun o => 0 < o_quantity_lots o) (as_resting <$> orders) in
  mkEngineSnapshot (merge_sort key_le orders) (e_next_order_id e) (e_trade_sequence e).

(** The loop of [restore_resting]; [clock i] is the clock reading of call [i]. *)
Fixpoint restore_loop (clock : nat -> Z) (orders : list Order) (i : nat) : EM Z :=
  match orders with
  | [] => mret 0
  | o :: orders =>
      r ← attempt (place_order (clock i) (Order.set_is_market o false));
      n ← restore_loop clock orders (S i);
      mret (if is_ok r then u64_add n 1 else n)
  end.

Definition restore_resting (clock : nat -> Z) (snap : EngineSnapshot) : EM Z :=
  n ← restore_loop clock (es_orders snap) 0;
  _ ← modify (fun e => e_set_sequences e (es_next_order_id snap) (e_snapshot_sequence e)
        (es_trade_sequence snap));
  mret n.

(** ** Depth snapshots *)

(** The queue walk of [generate_depth_snapshot]. *)
Fixpoint sum_remaining e (pool : ListNodePool) (fuel : nat) (node_idx_opt : option nat) (total : Z)
  : option Z :=
  match node_idx_opt with
  | None => Some total
  | Some node_idx =>
      match fuel with
      | O => None
      | S fuel =>
          match ListNodePool.get pool node_idx with
          | None => Some total
          | Some list_node =>
              let total := match get_order e (ln_order_id list_node) with
                           | Some order => i64_add total (Order.remaining_lots order)
                           | None => total
                           end in
              sum_remaining e pool fuel (ln_next list_node) total
          end
      end
  end.

Definition level_remaining e (s : Side) (price : Z) : option Z :=
  node ← ob_get_node_at_price (e_book e s) price;
  match node with
  | None => Some 0
  | Some node =>
      let pool := ob_get_list_pool (e_book e s) in
      sum_remaining e pool (S (length (lp_nodes pool))) (PooledList.front (lvl_orders node)) 0
  end.

Definition add_level (s : Side) (snapshot : DepthSnapshot) (price total : Z) : DepthSnapshot :=
  if Z.ltb 0 total then
    match (match s with Buy => add_bid | Sell => add_ask end) snapshot
            (i64_as_f64 price) (i64_as_f64 total) with
    | Ok snapshot => snapshot
    | Err _ => snapshot
    end
  else snapshot.

Definition add_side e (s : Side) (snapshot : DepthSnapshot) : option DepthSnapshot :=
  levels ← ob_get_top_levels (e_book e s) 20;
  mfold (fun snapshot '(price, _) =>
    total ← level_remaining e s price; Some (add_level s snapshot price total)) snapshot levels.

(** [generate_depth_snapshot], at wall-clock time [timestamp]. *)
Definition generate_depth_snapshot e (timestamp : Z) : option DepthSnapshot :=
  snapshot ← add_side e Buy (DepthSnapshot_new timestamp (e_snapshot_sequence e));
  add_side e Sell snapshot.

Definition publish_depth_snapshot (timestamp : Z) : EM unit :=
  _ ← reads (fun e => generate_depth_snapshot e timestamp);
  modify (fun e => e_set_sequences e (e_next_order_id e) (u64_add (e_snapshot_sequence e) 1)
    (e_trade_sequence e)).

Definition tick_snapshot (timestamp interval_ns : Z) : EM unit := publish_depth_snapshot timestamp.

End engine.
End Engine.
