(* ===== verification/MatchSpec.v ===== *)
(** The specification of matching: a side of the market as price levels of
    orders in priority order, and the sweep of a side by an incoming order.
    Nothing here mentions the engine's data structures; EngineInv relates the
    two. *)
From Stdlib Require Import ZArith Lia.
From stdpp Require Import base numbers list gmap sorting.
From S2P Require Import Prelude SkipList SkipListInv BookSpec Types.

#[local] Open Scope Z_scope.

(** Price levels in priority order, each a FIFO queue of orders. *)
Abbreviation levels := (list (Z * list Order)).
(** A fill is (maker id, price, lots). *)
Abbreviation fill := (Z * Z * Z)%type.

Definition remaining (o : Order) : Z := o_quantity_lots o - o_filled_lots o.

(** Quantities are in range; a live order has something left to trade. *)
Definition sane (o : Order) : Prop :=
  0 <= o_filled_lots o <= o_quantity_lots o /\ o_quantity_lots o <= i64_max.
Definition live (o : Order) : Prop := 0 < remaining o.

Definition fill_order (o : Order) (lots : Z) : Order := Order.set_filled o (o_filled_lots o + lots).

Definition entry (o : Order) : Z * Z := (o_id o, remaining o).
Definition shows_level (l : Z * list Order) : Z * queue := (l.1, entry <$> l.2).
(** The abstract book of a side. *)
Definition shows (L : levels) : abook := shows_level <$> L.

Definition orders_of (L : levels) : list Order := concat L.*2.
Definition volume (os : list Order) : Z := foldr (fun o v => remaining o + v) 0 os.
Definition fill_sum (fs : list fill) : Z := foldr (fun f v => f.2 + v) 0 fs.
Definition makers (fs : list fill) : list Z := (fun f => f.1.1) <$> fs.

(** A level of an emptied queue disappears. *)
Definition put_level (p : Z) (os : list Order) (L : levels) : levels :=
  match os with [] => L | _ => (p, os) :: L end.

(** Trade [rem] lots against the queue [os] of price [p], first order first:
    the fills, what is left of the queue, the lots left to trade. *)
Fixpoint eat (p rem : Z) (os : list Order) : list fill * list Order * Z :=
  match os with
  | [] => ([], [], rem)
  | o :: os' =>
      if Z.leb rem 0 then ([], os, rem)
      else if Z.ltb rem (remaining o) then ([(o_id o, p, rem)], fill_order o rem :: os', 0)
      else
        let '(fs, rest, rem') := eat p (rem - remaining o) os' in
        ((o_id o, p, remaining o) :: fs, rest, rem')
  end.

(** Sweep the levels whose price the taker accepts, best first. *)
Fixpoint sweep (ok : Z -> bool) (rem : Z) (L : levels) : list fill * levels * Z :=
  match L with
  | [] => ([], [], rem)
  | (p, os) :: L' =>
      if Z.leb rem 0 || negb (ok p) then ([], L, rem)
      else
        let '(fs, rest, rem1) := eat p rem os in
        match rest with
        | [] => let '(fs', L'', rem2) := sweep ok rem1 L' in (fs ++ fs', L'', rem2)
        | _ => (fs, (p, rest) :: L', rem1)
        end
  end.

(** Volume of the leading levels the taker accepts. *)
Fixpoint available (ok : Z -> bool) (L : levels) : Z :=
  match L with
  | [] => 0
  | (p, os) :: L => if ok p then volume os + available ok L else 0
  end.

(** The orders of a side with their prices, in price-time priority order. *)
Definition priced_level (l : Z * list Order) : list (Z * Order) := pair l.1 <$> l.2.
Definition priced (L : levels) : list (Z * Order) := L ≫= priced_level.

(** [served q fs q']: the fills [fs] serve the priority queue [q] from its front,
    each maker completely but possibly the last one, and leave [q']. *)
Inductive served : list (Z * Order) -> list fill -> list (Z * Order) -> Prop :=
| served_done q : served q [] q
| served_full p o q fs q' :
    served q fs q' -> served ((p, o) :: q) ((o_id o, p, remaining o) :: fs) q'
| served_cut p o q lots :
    0 < lots < remaining o ->
    served ((p, o) :: q) [(o_id o, p, lots)] ((p, fill_order o lots) :: q).

(** ** Lemmas *)

Lemma orders_of_app A C : orders_of (A ++ C) = orders_of A ++ orders_of C.
Proof. unfold orders_of. by rewrite fmap_app, concat_app. Qed.

Lemma orders_of_cons p os L : orders_of ((p, os) :: L) = os ++ orders_of L.
Proof. done. Qed.

Lemma orders_of_put p os L : orders_of (put_level p os L) = os ++ orders_of L.
Proof. by destruct os. Qed.

Lemma volume_app l1 l2 : volume (l1 ++ l2) = volume l1 + volume l2.
Proof. induction l1; simpl; lia. Qed.

Lemma fill_sum_app l1 l2 : fill_sum (l1 ++ l2) = fill_sum l1 + fill_sum l2.
Proof. induction l1; simpl; lia. Qed.

Lemma volume_nonneg os : Forall live os -> 0 <= volume os.
Proof. induction 1; simpl in *; unfold live in *; lia. Qed.

Lemma volume_pos os : Forall live os -> os <> [] -> 0 < volume os.
Proof.
  intros H Hne. destruct H as [|o os Ho Hos]; [done|]. simpl. unfold live in Ho.
  pose proof (volume_nonneg _ Hos). lia.
Qed.

Lemma qty_sum_entries os : qty_sum (entry <$> os) = volume os.
Proof. induction os as [|o os IH]; [done|]. rewrite fmap_cons. simpl. by rewrite IH. Qed.

Lemma a_entries_shows L : a_entries (shows L) = entry <$> orders_of L.
Proof.
  induction L as [|[p os] L IH]; [done|]. unfold shows. rewrite fmap_cons. unfold shows_level at 1.
  simpl. rewrite a_entries_cons. fold (shows L). by rewrite IH, orders_of_cons, fmap_app.
Qed.

Lemma a_volume_shows L : a_volume (shows L) = volume (orders_of L).
Proof. unfold a_volume. by rewrite a_entries_shows, qty_sum_entries. Qed.

Lemma shows_app A C : shows (A ++ C) = shows A ++ shows C.
Proof. apply fmap_app. Qed.

Lemma shows_mid A p os C : shows (A ++ (p, os) :: C) = shows A ++ (p, entry <$> os) :: shows C.
Proof. by rewrite shows_app. Qed.

Lemma shows_prices L : (shows L).*1 = L.*1.
Proof. unfold shows. rewrite <- list_fmap_compose. by apply list_fmap_ext. Qed.

(** *** Eating a queue *)

Section eat.
Context (p : Z).

Lemma eat_spec rem os fs rest rem' :
  Forall live os -> 0 <= rem -> eat p rem os = (fs, rest, rem') ->
  rem' = rem - fill_sum fs /\ 0 <= rem' /\ fill_sum fs + volume rest = volume os /\
  Forall live rest /\ (rest = [] \/ rem' = 0).
Proof.
  intros Hl. revert rem fs rest rem'. induction Hl as [|o os Ho Hos IH]; simpl; intros rem fs rest rem' Hr.
  - intros [= <- <- <-]. simpl. repeat split; auto; lia.
  - unfold live in Ho. destruct (Z.leb_spec rem 0).
    { intros [= <- <- <-]. simpl. repeat split; auto; lia. }
    destruct (Z.ltb_spec rem (remaining o)).
    { intros [= <- <- <-]. simpl. unfold remaining, fill_order in *. simpl.
      repeat split; auto; [lia..|]. constructor; [|done]. unfold live, remaining. simpl. lia. }
    destruct (eat p (rem - remaining o) os) as [[fs0 rest0] rem0] eqn:He.
    intros [= <- <- <-]. apply IH in He; [|lia]. destruct He as (-> & ? & ? & ? & ?). simpl.
    repeat split; auto; lia.
Qed.


Lemma eat_served rem os fs rest rem' q :
  Forall live os -> eat p rem os = (fs, rest, rem') ->
  served ((pair p <$> os) ++ q) fs ((pair p <$> rest) ++ q).
Proof.
  intros Hl. revert rem fs rest rem'. induction Hl as [|o os Ho _ IH]; simpl; intros rem fs rest rem'.
  { intros [= <- <- <-]. constructor. }
  destruct (Z.leb_spec rem 0); [intros [= <- <- <-]; constructor|].
  destruct (Z.ltb_spec rem (remaining o)); [intros [= <- <- <-]; by constructor|].
  destruct (eat _ _ _) as [[fs0 rest0] rem0] eqn:He. intros [= <- <- <-].
  constructor. by eapply IH.
Qed.

(** A queue eaten completely, followed by the fills of the next levels. *)
Lemma eat_served_all rem os fs rem' q fs' q' :
  Forall live os -> eat p rem os = (fs, [], rem') -> served q fs' q' ->
  served ((pair p <$> os) ++ q) (fs ++ fs') q'.
Proof.
  intros Hl He Hq. revert rem fs rem' He.
  induction Hl as [|o os Ho _ IH]; simpl; intros rem fs rem'; [by intros [= <- <-]|].
  destruct (Z.leb_spec rem 0); [done|]. destruct (Z.ltb_spec rem (remaining o)); [done|].
  destruct (eat _ _ _) as [[fs0 rest0] rem0] eqn:He. intros [= <- -> <-].
  constructor. by eapply IH.
Qed.
End eat.

(** *** Sweeping a side *)

Lemma eat_nil_sum p rem os fs rem' : eat p rem os = (fs, [], rem') ->
  Forall live os -> fill_sum fs = volume os.
Proof.
  revert rem fs rem'. induction os as [|o os IH]; simpl; intros rem fs rem'.
  { by intros [= <- <-]. }
  destruct (Z.leb_spec rem 0); [done|]. destruct (Z.ltb_spec rem (remaining o)); [done|].
  destruct (eat _ _ _) as [[fs0 rest0] rem0] eqn:He. intros [= <- -> <-] [_ Hos]%Forall_cons.
  simpl. by rewrite (IH _ _ _ He Hos).
Qed.

Lemma eat_length p rem os fs rest rem' : eat p rem os = (fs, rest, rem') ->
  (length fs <= length os)%nat.
Proof.
  revert rem fs rest rem'. induction os as [|o os IH]; simpl; intros rem fs rest rem'.
  { by intros [= <- <- <-]. }
  destruct (Z.leb rem 0); [intros [= <- <- <-]; simpl; lia|].
  destruct (Z.ltb rem (remaining o)); [intros [= <- <- <-]; simpl; lia|].
  destruct (eat _ _ _) as [[fs0 rest0] rem0] eqn:He. intros [= <- <- <-].
  apply IH in He. simpl. lia.
Qed.

(** Every fill of a queue is positive. *)
Lemma served_positive q fs q' : Forall (fun po => live po.2) q -> served q fs q' ->
  Forall (fun f => 0 < f.2) fs.
Proof.
  intros Hq Hs. induction Hs as [|p o q fs q' _ IH|]; [done| |].
  - apply Forall_cons in Hq as [Ho Hq]. constructor; [done|]. auto.
  - repeat constructor. simpl. lia.
Qed.

Lemma served_makers q fs q' : served q fs q' ->
  makers fs = take (length fs) (o_id <$> q.*2).
Proof. induction 1; simpl; [done| |done]. by f_equal. Qed.

Section sweep.
Context (ok : Z -> bool).

Lemma sweep_spec rem L fs L' rem' :
  Forall live (orders_of L) -> 0 <= rem -> sweep ok rem L = (fs, L', rem') ->
  rem' = rem - fill_sum fs /\ 0 <= rem' /\
  fill_sum fs + volume (orders_of L') = volume (orders_of L) /\ Forall live (orders_of L').
Proof.
  revert rem fs L' rem'. induction L as [|[p os] L IH]; simpl; intros rem fs L' rem' Hl Hr.
  { intros [= <- <- <-]. simpl. repeat split; auto; lia. }
  rewrite orders_of_cons in Hl. apply Forall_app in Hl as Hl2. destruct Hl2 as [Hos HL].
  destruct (_ || _); [intros [= <- <- <-]; simpl; rewrite ?orders_of_cons; repeat split; auto; lia|].
  destruct (eat p rem os) as [[fs1 rest] rem1] eqn:He.
  destruct (eat_spec _ _ _ _ _ _ Hos Hr He) as (-> & Hr1 & Hv & Hlv & _). destruct rest as [|r rest].
  - destruct (sweep _ _ _) as [[fs2 L2] rem2] eqn:Hs. intros [= <- <- <-].
    destruct (IH _ _ _ _ HL Hr1 Hs) as (-> & ? & ? & ?).
    rewrite fill_sum_app, orders_of_cons, volume_app. simpl in Hv. repeat split; auto; lia.
  - intros [= <- <- <-]. rewrite !orders_of_cons, !volume_app. repeat split; auto; [lia..|].
    by apply Forall_app.
Qed.

Lemma sweep_served rem L fs L' rem' :
  Forall live (orders_of L) -> sweep ok rem L = (fs, L', rem') ->
  served (priced L) fs (priced L').
Proof.
  revert rem fs L' rem'. induction L as [|[p os] L IH]; simpl; intros rem fs L' rem' Hl.
  { intros [= <- <- <-]. constructor. }
  rewrite orders_of_cons in Hl. apply Forall_app in Hl as [Hos HL].
  destruct (_ || _); [intros [= <- <- <-]; constructor|].
  destruct (eat p rem os) as [[fs1 rest] rem1] eqn:He. destruct rest as [|r rest].
  - destruct (sweep _ _ _) as [[fs2 L2] rem2] eqn:Hs. intros [= <- <- <-].
    eapply eat_served_all; [done..|]. by eapply IH.
  - intros [= <- <- <-]. simpl. by eapply (eat_served _ _ _ _ (r :: rest)).
Qed.

(** Every fill is at a price the taker accepts. *)
Lemma eat_prices p rem os fs rest rem' :
  eat p rem os = (fs, rest, rem') -> Forall (fun f => f.1.2 = p) fs.
Proof.
  revert rem fs rest rem'. induction os as [|o os IH]; simpl; intros rem fs rest rem'.
  { by intros [= <- <- <-]. }
  destruct (Z.leb rem 0); [by intros [= <- <- <-]|].
  destruct (Z.ltb rem (remaining o)); [intros [= <- <- <-]; by repeat constructor|].
  destruct (eat _ _ _) as [[fs0 rest0] rem0] eqn:He. intros [= <- <- <-].
  constructor; [done|]. by eapply IH.
Qed.

Lemma sweep_prices rem L fs L' rem' :
  sweep ok rem L = (fs, L', rem') -> Forall (fun f => ok f.1.2 = true) fs.
Proof.
  revert rem fs L' rem'. induction L as [|[p os] L IH]; simpl; intros rem fs L' rem'.
  { by intros [= <- <- <-]. }
  destruct (Z.leb rem 0); [by intros [= <- <- <-]|]. simpl.
  destruct (ok p) eqn:Hp; simpl; [|by intros [= <- <- <-]].
  destruct (eat p rem os) as [[fs1 rest] rem1] eqn:He. pose proof (eat_prices _ _ _ _ _ _ He) as Hf.
  assert (Forall (fun f => ok f.1.2 = true) fs1) as Hf1.
  { eapply Forall_impl; [done|]. by intros f ->. }
  destruct rest as [|r rest].
  - destruct (sweep _ _ _) as [[fs2 L2] rem2] eqn:Hs. intros [= <- <- <-].
    apply Forall_app. split; [done|]. by eapply IH.
  - by intros [= <- <- <-].
Qed.

(** The sweep stops when the taker is done or nothing acceptable is left. *)
Lemma sweep_stops rem L fs L' rem' :
  Forall live (orders_of L) -> 0 <= rem -> sweep ok rem L = (fs, L', rem') ->
  rem' = 0 \/ match L' with [] => True | (p, _) :: _ => ok p = false end.
Proof.
  revert rem fs L' rem'. induction L as [|[p os] L IH]; simpl; intros rem fs L' rem' Hl Hr.
  { intros [= <- <- <-]. by right. }
  rewrite orders_of_cons in Hl. apply Forall_app in Hl as [Hos HL].
  destruct (Z.leb_spec rem 0); [intros [= <- <- <-]; left; lia|]. simpl.
  destruct (ok p) eqn:Hp; simpl; [|intros [= <- <- <-]; by right].
  destruct (eat p rem os) as [[fs1 rest] rem1] eqn:He.
  destruct (eat_spec _ _ _ _ _ _ Hos Hr He) as (-> & ? & _ & _ & Hor). destruct rest as [|r rest].
  - destruct (sweep _ _ _) as [[fs2 L2] rem2] eqn:Hs. intros [= <- <- <-]. eauto.
  - intros [= <- <- <-]. destruct Hor; [done|]. by left.
Qed.

Lemma available_nonneg L : Forall live (orders_of L) -> 0 <= available ok L.
Proof.
  induction L as [|[p os] L IH]; simpl; [done|]. rewrite orders_of_cons, Forall_app.
  intros [Hos HL]. destruct (ok p); [|done]. pose proof (volume_nonneg _ Hos).
  specialize (IH HL). lia.
Qed.

(** The sweep trades all it can: the smaller of the demand and the volume
    available at acceptable prices. *)
Lemma sweep_fills_min rem L fs L' rem' :
  Forall live (orders_of L) -> 0 <= rem -> sweep ok rem L = (fs, L', rem') ->
  fill_sum fs = Z.min rem (available ok L).
Proof.
  revert rem fs L' rem'. induction L as [|[p os] L IH]; simpl; intros rem fs L' rem' Hl Hr.
  { intros [= <- <- <-]. simpl. lia. }
  rewrite orders_of_cons in Hl. apply Forall_app in Hl as [Hos HL].
  pose proof (available_nonneg L HL). pose proof (volume_nonneg _ Hos).
  destruct (Z.leb_spec rem 0); simpl.
  { intros [= <- <- <-]. simpl. destruct (ok p); lia. }
  destruct (ok p) eqn:Hp; simpl; [|intros [= <- <- <-]; simpl; lia].
  destruct (eat p rem os) as [[fs1 rest] rem1] eqn:He.
  destruct (eat_spec _ _ _ _ _ _ Hos Hr He) as (-> & Hr1 & Hv & Hlr & Hor). destruct rest as [|r rest].
  - destruct (sweep _ _ _) as [[fs2 L2] rem2] eqn:Hs. intros [= <- <- <-].
    rewrite fill_sum_app, (IH _ _ _ _ HL Hr1 Hs). simpl in Hv. lia.
  - intros [= <- <- <-]. destruct Hor; [done|]. pose proof (volume_nonneg _ Hlr). lia.
Qed.
End sweep.
