(* ===== verification/EngineInv.v ===== *)
(** The invariant of the matching engine and its primitive steps.  [wf e L T]
    says that engine [e] holds the resting orders [L] (a list of price levels
    per side): the books show them, the id map and the order pool store exactly
    them, no level is empty, and the trade-pool slots [T] are in use. *)
From Stdlib Require Import ZArith Lia.
From stdpp Require Import base numbers list gmap sorting.
From S2P Require Import Prelude ListPool SkipList SkipListInv BookSpec OrderBook Types Pools Engine.
From S2P Require Import MatchSpec.

#[local] Open Scope Z_scope.

(** ** Definitions *)

Definition sort_order (s : Side) : SortOrder :=
  match s with Buy => Descending | Sell => Ascending end.

(** All resting orders; replacing the levels of one side. *)
Definition resting (L : Side -> levels) : list Order := orders_of (L Buy) ++ orders_of (L Sell).
Definition upd (L : Side -> levels) (s : Side) (l : levels) : Side -> levels :=
  fun s' => if decide (s' = s) then l else L s'.

Definition level_ok (s : Side) (l : Z * list Order) : Prop :=
  l.2 <> [] /\ Forall (fun o => o_side o = s /\ o_price_ticks o = l.1 /\ sane o) l.2.

(** The cached price, once checked, is the best one. *)
Definition cache_ok (c : option Z) (ab : abook) : Prop := a_best_cached c ab = a_best ab.

Section wf.
Context {B : Type} {OB : OrderBook B} {LAWS : OrderBookLaws B} {RB : Rtrb}.
Implicit Types (e : MatchingEngine B) (L : Side -> levels).

(** Capacities: of the two list pools, the order pool and the queue pool. *)
Definition caps e :=
  (ob_capacity (e_buy_book e), ob_capacity (e_sell_book e),
   length (op_objects (pl_orders (e_pools e))), pl_queues (e_pools e)).

(** What book and pool operations leave alone. *)
Definition meta e :=
  (e_next_order_id e, e_snapshot_sequence e, e_trade_event_sender e, e_trade_sequence e,
   e_sampling e, e_affected_makers_buf e, e_fills_buf e, caps e).

(** The book [b] of side [s] shows the levels [l]. *)
Record side_ok (b : B) (s : Side) (l : levels) : Prop := {
  sd_book : ob_repr b (shows l);
  sd_order : ob_order b = sort_order s;
  sd_cache : cache_ok (ob_cached b) (shows l);
  sd_levels : Forall (level_ok s) l
}.

Record wf e L (T : list (nat * Trade)) : Prop := {
  w_side s : side_ok (Engine.e_book e s) s (L s);
  w_ids : NoDup (o_id <$> resting L);
  w_in o : o ∈ resting L -> Engine.get_order e (o_id o) = Some o;
  w_dom id : is_Some (e_orders e !! id) -> id ∈ o_id <$> resting L;
  w_pool : objpool_ok (pl_orders (e_pools e)) (map_to_list (e_orders e)).*2;
  w_trades : objpool_ok (pl_trades (e_pools e)) T.*1;
  w_slots i t : (i, t) ∈ T -> op_objects (pl_trades (e_pools e)) !! i = Some t;
  w_tcap : length (op_objects (pl_trades (e_pools e))) = length (op_objects (pl_orders (e_pools e)))
}.

Lemma w_book e L T : wf e L T -> forall s, ob_repr (Engine.e_book e s) (shows (L s)).
Proof. intros W s. apply W. Qed.
Lemma w_levels e L T : wf e L T -> forall s, Forall (level_ok s) (L s).
Proof. intros W s. apply W. Qed.

(** Every resting order has lots left. *)
Definition all_live L : Prop := Forall live (resting L).

(** ** Sides and levels *)

Lemma upd_same L s l : upd L s l s = l.
Proof. unfold upd. by rewrite decide_True. Qed.

Lemma upd_other L s s' l : s' <> s -> upd L s l s' = L s'.
Proof. intros. unfold upd. by rewrite decide_False. Qed.

Lemma resting_side L s : resting L ≡ₚ orders_of (L s) ++ orders_of (L (opposite s)).
Proof. destruct s; [done|]. unfold resting. simpl. by rewrite Permutation_app_comm. Qed.

Lemma resting_upd L s l : resting (upd L s l) ≡ₚ orders_of l ++ orders_of (L (opposite s)).
Proof. rewrite (resting_side _ s), upd_same, upd_other; [done|]. by destruct s. Qed.

(** Replacing part of a side's orders. *)
Lemma resting_replace L s l X Y R :
  orders_of (L s) ≡ₚ X ++ R -> orders_of l ≡ₚ Y ++ R ->
  exists R', resting L ≡ₚ X ++ R' /\ resting (upd L s l) ≡ₚ Y ++ R'.
Proof.
  intros HX HY. exists (R ++ orders_of (L (opposite s))).
  by rewrite (resting_side L s), resting_upd, HX, HY, <- !app_assoc.
Qed.

Lemma live_side L s : all_live L -> Forall live (orders_of (L s)).
Proof. unfold all_live. rewrite (resting_side L s), Forall_app. tauto. Qed.

Lemma sane_remaining o : sane o -> Order.remaining_lots o = remaining o.
Proof.
  intros [? ?]. unfold Order.remaining_lots, remaining. apply i64_sub_id. machine_unfold. lia.
Qed.

Lemma level_ok_best s (l : levels) : Forall (level_ok s) l ->
  a_best (shows l) = fst <$> head l.
Proof. intros [|[p os] l' [Hne _] _]; [done|]. simpl in *. by destruct os. Qed.

Lemma sorted_mid order A p es C : a_sorted order (A ++ (p, es) :: C) -> p ∉ A.*1 /\ p ∉ C.*1.
Proof.
  unfold a_sorted. rewrite fmap_app. simpl. intros Hs. split.
  - intros Hp. induction A as [|[q es'] A IH]; simpl in *; [set_solver|].
    inversion Hs as [|? ? Hs' Hf]; subst. apply elem_of_cons in Hp as [->|Hp]; [|by apply IH].
    rewrite Forall_forall in Hf. apply (before_irrefl order q), Hf. set_solver.
  - intros Hp. induction A as [|[q es'] A IH]; simpl in *; inversion Hs as [|? ? Hs' Hf]; subst.
    + rewrite Forall_forall in Hf. by eapply (before_irrefl order p), Hf.
    + by apply IH.
Qed.

Lemma wf_mid e L T s A p os C : wf e L T -> L s = A ++ (p, os) :: C ->
  p ∉ A.*1 /\ p ∉ C.*1 /\ a_find p (shows (L s)) = Some (entry <$> os) /\
  shows (L s) = shows A ++ (p, entry <$> os) :: shows C.
Proof.
  intros W HL. pose proof (law_sorted _ _ (w_book _ _ _ W s)) as Hs. rewrite HL in *.
  rewrite shows_app in *. simpl in *. destruct (sorted_mid _ _ _ _ _ Hs) as [HA HC].
  rewrite !shows_prices in *. split_and!; try done.
  rewrite a_find_skip by by rewrite shows_prices. simpl. by rewrite Z.eqb_refl.
Qed.

Lemma wf_order e L T s A p X o Y C : wf e L T -> L s = A ++ (p, X ++ o :: Y) :: C ->
  o ∈ resting L /\ o_side o = s /\ o_price_ticks o = p /\ sane o /\ o_id o ∉ o_id <$> X.
Proof.
  intros W HL. assert (o ∈ resting L) as Hin.
  { rewrite (resting_side L s), HL, orders_of_app, orders_of_cons. set_solver. }
  pose proof (w_levels _ _ _ W s) as Hlv. rewrite HL in Hlv.
  apply Forall_app in Hlv as [_ [[_ Ho] _]%Forall_cons]. simpl in Ho.
  apply Forall_app in Ho as [_ [(? & ? & ?) _]%Forall_cons]. split_and!; try done.
  pose proof (w_ids _ _ _ W) as Hnd. rewrite (resting_side L s), HL, orders_of_app, orders_of_cons in Hnd.
  intros Hx. rewrite !fmap_app, fmap_cons in Hnd.
  apply NoDup_app in Hnd as [Hnd _]. apply NoDup_app in Hnd as (_ & _ & Hnd).
  rewrite <- app_assoc in Hnd. apply NoDup_app in Hnd as (_ & Hd & _). apply (Hd _ Hx). set_solver.
Qed.

(** The invariant only reads [L] pointwise. *)
Lemma wf_ext e L L' T : (forall s, L' s = L s) -> wf e L T -> wf e L' T.
Proof.
  intros HL []. assert (resting L' = resting L) as HR by (unfold resting; by rewrite !HL).
  split; rewrite ?HR; try done. intros s. by rewrite HL.
Qed.

(** ** The lookup of an order *)

Lemma wf_lookup e L T o : wf e L T -> o ∈ resting L ->
  exists idx, e_orders e !! o_id o = Some idx /\
    op_objects (pl_orders (e_pools e)) !! idx = Some o.
Proof.
  intros W Ho. pose proof (w_in _ _ _ W o Ho) as Hg. unfold Engine.get_order in Hg.
  destruct (e_orders e !! o_id o) as [idx|]; [|done]. by exists idx.
Qed.

Lemma wf_contains e L T id : wf e L T ->
  Engine.contains_order e id = bool_decide (id ∈ o_id <$> resting L).
Proof.
  intros W. unfold Engine.contains_order. destruct (e_orders e !! id) as [idx|] eqn:Hi.
  - rewrite bool_decide_true; [done|]. apply (w_dom _ _ _ W). by rewrite Hi.
  - rewrite bool_decide_false; [done|]. intros (o & -> & Ho)%list_elem_of_fmap.
    destruct (wf_lookup _ _ _ _ W Ho) as (idx & ? & _). congruence.
Qed.

(** The number of resting orders is the number of slots in use. *)
Lemma wf_count e L T : wf e L T -> length (map_to_list (e_orders e)) = length (resting L).
Proof.
  intros W. rewrite <- (length_fmap fst), <- (length_fmap o_id (resting L)).
  apply Permutation_length, NoDup_Permutation; [apply NoDup_fst_map_to_list|apply W|].
  intros id. rewrite !list_elem_of_fmap. split.
  - intros ([id' idx] & -> & Hin%elem_of_map_to_list). simpl.
    apply list_elem_of_fmap, (w_dom _ _ _ W). by rewrite Hin.
  - intros (o & -> & Ho). destruct (wf_lookup _ _ _ _ W Ho) as (idx & Hi & _).
    exists (o_id o, idx). split; [done|]. by apply elem_of_map_to_list.
Qed.

(** Distinct ids have distinct slots. *)
Lemma wf_inj e L T i j k : wf e L T -> e_orders e !! i = Some k -> e_orders e !! j = Some k -> i = j.
Proof.
  intros W Hi Hj. destruct (decide (i = j)) as [|Hne]; [done|].
  pose proof (objpool_NoDup _ _ (w_pool _ _ _ W)) as Hnd.
  rewrite <- (map_to_list_delete _ _ _ Hi) in Hnd. simpl in Hnd. apply NoDup_cons in Hnd as [Hk _].
  destruct Hk. apply list_elem_of_fmap. exists (j, k). split; [done|].
  apply elem_of_map_to_list. by rewrite lookup_delete_ne.
Qed.

(** ** Field algebra *)

Lemma book_set_same e s b : Engine.e_book (Engine.e_set_book e s b) s = b.
Proof. by destruct s. Qed.

Lemma book_set_other e s s' b : s' <> s ->
  Engine.e_book (Engine.e_set_book e s b) s' = Engine.e_book e s'.
Proof. by destruct s, s'. Qed.

Lemma book_order_pool e p s :
  Engine.e_book (Engine.e_set_order_pool e p) s = Engine.e_book e s.
Proof. by destruct s. Qed.

Lemma set_book_id e s : Engine.e_set_book e s (Engine.e_book e s) = e.
Proof. by destruct e, s. Qed.

Lemma set_book_set e s b b' :
  Engine.e_set_book (Engine.e_set_book e s b) s b' = Engine.e_set_book e s b'.
Proof. by destruct s. Qed.

Lemma forget_set_book e s b id :
  Engine.e_forget (Engine.e_set_book e s b) id = Engine.e_set_book (Engine.e_forget e id) s b.
Proof. unfold Engine.e_forget. simpl. by destruct (e_orders e !! id). Qed.

Lemma bump_set_book e s b id t :
  Engine.e_bump (Engine.e_set_book e s b) id t = Engine.e_set_book (Engine.e_bump e id t) s b.
Proof. unfold Engine.e_bump. simpl. by destruct (e_orders e !! id). Qed.

Lemma book_forget e id s : Engine.e_book (Engine.e_forget e id) s = Engine.e_book e s.
Proof. unfold Engine.e_forget. by destruct (e_orders e !! id), s. Qed.

Lemma book_bump e id t s : Engine.e_book (Engine.e_bump e id t) s = Engine.e_book e s.
Proof. unfold Engine.e_bump. by destruct (e_orders e !! id), s. Qed.

Lemma meta_set_book e s b : ob_keeps (Engine.e_book e s) b ->
  meta (Engine.e_set_book e s b) = meta e.
Proof. intros (_ & Hc & _). destruct s; unfold meta, caps; simpl in *; by rewrite Hc. Qed.

Lemma meta_forget e id : meta (Engine.e_forget e id) = meta e.
Proof. unfold Engine.e_forget. by destruct (e_orders e !! id). Qed.

Lemma meta_bump e id t : meta (Engine.e_bump e id t) = meta e.
Proof.
  unfold Engine.e_bump. destruct (e_orders e !! id); [|done].
  unfold meta, caps. simpl. by rewrite length_alter.
Qed.

(** ** The cached best price *)

Lemma cache_ok_spec s c l : Forall (level_ok s) l ->
  cache_ok (Some c) (shows l) <-> c ∉ l.*1 \/ fst <$> head l = Some c.
Proof.
  intros Hl. unfold cache_ok, a_best_cached. rewrite (level_ok_best _ _ Hl).
  destruct (a_find c (shows l)) as [es|] eqn:Hf.
  - assert (c ∈ l.*1) as Hin.
    { destruct (decide (c ∈ (shows l).*1)) as [Hin|Hn]; [by rewrite shows_prices in Hin|].
      apply a_find_None in Hn. congruence. }
    assert (es <> []) as Hes.
    { clear Hin. induction Hl as [|[p os] l [Hne _] _ IH]; simpl in *; [done|].
      destruct (Z.eqb p c); [|by apply IH]. simplify_eq. by destruct os. }
    destruct es; [done|]. rewrite (eq_comm (Some c)). tauto.
  - apply a_find_None in Hf. rewrite shows_prices in Hf. tauto.
Qed.

Lemma cache_ok_drop s c A p os os' C :
  Forall (level_ok s) (A ++ (p, os) :: C) -> Forall (level_ok s) (A ++ put_level p os' C) ->
  p ∉ C.*1 -> cache_ok c (shows (A ++ (p, os) :: C)) -> cache_ok c (shows (A ++ put_level p os' C)).
Proof.
  intros H1 H2 HpC. destruct c as [c|]; [|done].
  rewrite (cache_ok_spec _ _ _ H1), (cache_ok_spec _ _ _ H2).
  rewrite !fmap_app. destruct A as [|[q es] A], os' as [|o os']; simpl; set_solver.
Qed.

(** ** Taking an order off the book *)

Lemma repr_mid b A p os C : ob_repr b (shows (A ++ (p, os) :: C)) ->
  p ∉ A.*1 /\ a_find p (shows (A ++ (p, os) :: C)) = Some (entry <$> os).
Proof.
  intros HR%law_sorted. rewrite shows_mid in *. apply sorted_mid in HR as [HA _].
  rewrite shows_prices in HA. split; [done|]. rewrite a_find_skip by by rewrite shows_prices.
  simpl. by rewrite Z.eqb_refl.
Qed.

Lemma qty_of_entry X o Y : o_id o ∉ o_id <$> X ->
  qty_of (o_id o) (entry <$> X ++ o :: Y) = Some (remaining o).
Proof.
  intros HX. apply qty_of_Some. exists (entry <$> X), (entry <$> Y). rewrite fmap_app.
  split; [done|]. by rewrite <- list_fmap_compose.
Qed.

Lemma book_remove b A p X o Y C :
  ob_repr b (shows (A ++ (p, X ++ o :: Y) :: C)) -> o_id o ∉ o_id <$> X ->
  exists b', ob_remove_order_at_level b p (o_id o) = Some (b', Ok ()) /\
    ob_repr b' (shows (A ++ (p, X ++ Y) :: C)) /\ ob_keeps b b'.
Proof.
  intros HR HX. destruct (repr_mid _ _ _ _ _ HR) as [HA Hf].
  assert (qty_of (o_id o) (entry <$> X ++ o :: Y) = Some (remaining o)) as Hq.
  { by apply qty_of_entry. }
  destruct (law_remove_order _ _ _ _ _ _ HR Hf Hq) as (b' & Hb & HR' & Hk).
  exists b'. split_and!; [done| |done]. rewrite shows_mid in *.
  rewrite a_update_app, fmap_app, fmap_cons in HR' by by rewrite shows_prices.
  unfold entry at 2 in HR'. rewrite remove_id_app in HR' by by rewrite <- list_fmap_compose.
  by rewrite fmap_app.
Qed.

Lemma remove_level_if_empty_ok e s p m A os C :
  ob_repr (Engine.e_book e s) (shows (A ++ (p, os) :: C)) ->
  exists b', Engine.remove_level_if_empty s p m e = Some (Engine.e_set_book e s b', Ok ()) /\
    ob_repr b' (shows (A ++ put_level p os C)) /\ ob_keeps (Engine.e_book e s) b'.
Proof.
  intros HR. destruct (repr_mid _ _ _ _ _ HR) as [HA Hf].
  pose proof (law_get_node _ _ p HR) as Hg. rewrite Hf in Hg. destruct Hg as (lvl & Hg & Hsh).
  destruct Hsh as (_ & _ & Hemp & _).
  unfold Engine.remove_level_if_empty. erewrite bind_ok.
  2:{ unfold Engine.read_book, reads. rewrite Hg. done. }
  simpl. rewrite Hemp. destruct os as [|o os]; simpl.
  - destruct (law_remove_level _ _ _ HR Hf) as (b' & Hb & HR' & Hk).
    exists b'. erewrite bind_ok; [|unfold Engine.on_book; rewrite Hb; done].
    split_and!; [done| |done]. rewrite shows_mid, a_remove_app in HR' by by rewrite shows_prices.
    by rewrite shows_app.
  - exists (Engine.e_book e s). by rewrite set_book_id.
Qed.

Lemma levels_drop s A p X o Y C : Forall (level_ok s) (A ++ (p, X ++ o :: Y) :: C) ->
  Forall (level_ok s) (A ++ put_level p (X ++ Y) C).
Proof.
  rewrite !Forall_app, Forall_cons. intros (HA & [_ Ho] & HC). split; [done|].
  simpl in Ho. apply Forall_app in Ho as [HX [_ HY]%Forall_cons].
  destruct (X ++ Y) as [|x os] eqn:Hxy; simpl; [done|]. constructor; [|done].
  rewrite <- Hxy. split; [by rewrite Hxy|]. by apply Forall_app.
Qed.

(** Replacing the book of one side. *)
Lemma sides_upd e L T e1 s b l : wf e L T -> side_ok b s l ->
  (forall s', Engine.e_book e1 s' = Engine.e_book e s') ->
  forall s', side_ok (Engine.e_book (Engine.e_set_book e1 s b) s') s' (upd L s l s').
Proof.
  intros W Hb He s'. destruct (decide (s' = s)) as [->|Hs].
  - by rewrite upd_same, book_set_same.
  - rewrite upd_other, book_set_other, He by done. apply W.
Qed.

Lemma wf_drop e L T s A p X o Y C b' :
  wf e L T -> L s = A ++ (p, X ++ o :: Y) :: C ->
  ob_repr b' (shows (A ++ put_level p (X ++ Y) C)) -> ob_keeps (Engine.e_book e s) b' ->
  wf (Engine.e_set_book (Engine.e_forget e (o_id o)) s b')
    (upd L s (A ++ put_level p (X ++ Y) C)) T.
Proof.
  intros W HL HR (Hko & _ & Hkc).
  destruct (wf_order _ _ _ _ _ _ _ _ _ _ W HL) as (Hin & _ & _ & _ & _).
  destruct (wf_lookup _ _ _ _ W Hin) as (idx & Hidx & Hobj).
  destruct (resting_replace L s (A ++ put_level p (X ++ Y) C) [o] []
    (orders_of A ++ X ++ Y ++ orders_of C)) as (R & HR1 & HR2).
  { rewrite HL, orders_of_app, orders_of_cons. solve_Permutation. }
  { by rewrite orders_of_app, orders_of_put, <- app_assoc. }
  simpl in HR1, HR2. pose proof (w_ids _ _ _ W) as Hnd. rewrite HR1 in Hnd. simpl in Hnd.
  apply NoDup_cons in Hnd as [Hno Hnd].
  pose proof (wf_mid _ _ _ _ _ _ _ _ W HL) as (_ & HpC & _).
  pose proof (w_levels _ _ _ W s) as Hlv. rewrite HL in Hlv.
  unfold Engine.e_forget. rewrite Hidx.
  split.
  - eapply (sides_upd e); [done| |by intros []]. split; [done|..].
    + by rewrite Hko, (sd_order _ _ _ (w_side _ _ _ W s)).
    + rewrite Hkc. eapply cache_ok_drop; [done|by eapply levels_drop|done|].
      rewrite <- HL. apply W.
    + by eapply levels_drop.
  - by rewrite HR2.
  - intros o' Ho'. rewrite HR2 in Ho'.
    assert (o_id o' <> o_id o) as Hne.
    { intros Heq. apply Hno. rewrite <- Heq. by apply list_elem_of_fmap_2. }
    destruct (wf_lookup e L T o' W) as (idx' & Hi' & Ho2). { rewrite HR1. by right. }
    unfold Engine.get_order. simpl. by rewrite lookup_delete_ne, Hi'.
  - intros id. simpl. rewrite lookup_delete_is_Some. intros [Hne His].
    apply (w_dom _ _ _ W) in His. rewrite HR1 in His. rewrite HR2.
    simpl in His. apply elem_of_cons in His as [->|]; done.
  - simpl. apply objpool_release. eapply objpool_perm; [|apply W].
    by rewrite <- (map_to_list_delete _ _ _ Hidx).
  - apply W.
  - apply W.
  - apply W.
Qed.

Lemma drop_counter_ok e L T s A p X o Y C :
  wf e L T -> L s = A ++ (p, X ++ o :: Y) :: C ->
  exists e', Engine.drop_counter s p (o_id o) e = Some (e', Ok ()) /\
    wf e' (upd L s (A ++ put_level p (X ++ Y) C)) T /\ meta e' = meta e.
Proof.
  intros W HL. destruct (wf_order _ _ _ _ _ _ _ _ _ _ W HL) as (_ & _ & _ & _ & HX).
  pose proof (w_book _ _ _ W s) as HR. rewrite HL in HR.
  destruct (book_remove _ _ _ _ _ _ _ HR HX) as (b1 & Hb1 & HR1 & Hk1).
  set (e1 := Engine.e_forget (Engine.e_set_book e s b1) (o_id o)).
  assert (Engine.e_book e1 s = b1) as He1.
  { unfold e1. by rewrite forget_set_book, book_set_same. }
  destruct (remove_level_if_empty_ok e1 s p true A (X ++ Y) C) as (b2 & Hb2 & HR2 & Hk2).
  { by rewrite He1. }
  assert (ob_keeps (Engine.e_book e s) b2) as Hk.
  { rewrite He1 in Hk2. unfold ob_keeps in *. intuition congruence. }
  assert (Engine.e_set_book e1 s b2 = Engine.e_set_book (Engine.e_forget e (o_id o)) s b2) as He.
  { unfold e1. by rewrite forget_set_book, set_book_set. }
  eexists. split_and!.
  - unfold Engine.drop_counter. erewrite bind_ok; [|unfold Engine.on_book; rewrite Hb1; done].
    erewrite bind_ok; [|done]. fold e1. rewrite Hb2, He. done.
  - by eapply wf_drop.
  - rewrite meta_set_book; [by rewrite meta_forget|]. by rewrite book_forget.
Qed.

(** [remove_from_book] followed by the removal from the id map and the pool. *)
Lemma remove_from_book_ok e L T s A p X o Y C :
  wf e L T -> L s = A ++ (p, X ++ o :: Y) :: C ->
  exists e', Engine.remove_from_book (o_id o) e = Some (e', Ok ()) /\
    wf (Engine.e_forget e' (o_id o)) (upd L s (A ++ put_level p (X ++ Y) C)) T /\
    meta (Engine.e_forget e' (o_id o)) = meta e.
Proof.
  intros W HL. destruct (wf_order _ _ _ _ _ _ _ _ _ _ W HL) as (Hin & Hs & Hp & _ & HX).
  pose proof (w_book _ _ _ W s) as HR. rewrite HL in HR.
  destruct (book_remove _ _ _ _ _ _ _ HR HX) as (b1 & Hb1 & HR1 & Hk1).
  destruct (wf_lookup _ _ _ _ W Hin) as (idx & Hidx & Hobj).
  destruct (remove_level_if_empty_ok (Engine.e_set_book e s b1) s p true A (X ++ Y) C)
    as (b2 & Hb2 & HR2 & Hk2).
  { by rewrite book_set_same. }
  rewrite set_book_set in Hb2. rewrite book_set_same in Hk2.
  assert (ob_keeps (Engine.e_book e s) b2) as Hk by (unfold ob_keeps in *; intuition congruence).
  eexists. split_and!.
  - unfold Engine.remove_from_book. erewrite bind_ok; [|done]. rewrite Hidx.
    erewrite bind_ok; [|done]. erewrite bind_ok; [|done]. unfold ObjectPool.get. rewrite Hobj.
    erewrite bind_ok; [|done]. rewrite Hs, Hp.
    erewrite bind_ok; [|unfold Engine.on_book; rewrite Hb1; done]. simpl. exact Hb2.
  - rewrite forget_set_book. by eapply wf_drop.
  - rewrite forget_set_book, meta_set_book; [by rewrite meta_forget|]. by rewrite book_forget.
Qed.

(** ** Filling a resting order *)

Lemma book_reduce b A p X o Y C t :
  ob_repr b (shows (A ++ (p, X ++ o :: Y) :: C)) -> o_id o ∉ o_id <$> X ->
  0 <= t <= remaining o ->
  exists b', ob_reduce_order_quantity_at_level b p (o_id o) t = Some (b', Ok ()) /\
    ob_repr b' (shows (A ++ (p, X ++ fill_order o t :: Y) :: C)) /\ ob_keeps b b'.
Proof.
  intros HR HX Ht. destruct (repr_mid _ _ _ _ _ HR) as [HA Hf].
  destruct (law_reduce _ _ _ _ _ _ _ HR Hf (qty_of_entry _ _ Y HX) Ht) as (b' & Hb & HR' & Hk).
  exists b'. split_and!; [done| |done]. rewrite shows_mid in *.
  rewrite a_update_app, fmap_app, fmap_cons in HR' by by rewrite shows_prices.
  unfold entry at 2 in HR'. rewrite reduce_id_app in HR' by by rewrite <- list_fmap_compose.
  rewrite fmap_app, fmap_cons. unfold entry at 2, remaining, fill_order. simpl.
  unfold remaining in HR'. replace (o_quantity_lots o - (o_filled_lots o + t))
    with (o_quantity_lots o - o_filled_lots o - t) by lia. done.
Qed.

Lemma fill_sane o t : sane o -> 0 <= t <= remaining o -> sane (fill_order o t).
Proof. unfold sane, remaining, fill_order. simpl. lia. Qed.

Lemma levels_fill s A p X o Y C t : Forall (level_ok s) (A ++ (p, X ++ o :: Y) :: C) ->
  0 <= t <= remaining o -> Forall (level_ok s) (A ++ (p, X ++ fill_order o t :: Y) :: C).
Proof.
  rewrite !Forall_app, !Forall_cons. intros (HA & [_ Ho] & HC) Ht. split_and!; try done.
  simpl in Ho. apply Forall_app in Ho as [HX [(? & ? & ?) HY]%Forall_cons].
  split; [by destruct X|]. apply Forall_app. split; [done|]. constructor; [|done].
  split_and!; try done. by apply fill_sane.
Qed.

Lemma cache_ok_fill s c A p os os' C :
  Forall (level_ok s) (A ++ (p, os) :: C) -> Forall (level_ok s) (A ++ (p, os') :: C) ->
  cache_ok c (shows (A ++ (p, os) :: C)) -> cache_ok c (shows (A ++ (p, os') :: C)).
Proof.
  intros H1 H2. destruct c as [c|]; [|done].
  rewrite (cache_ok_spec _ _ _ H1), (cache_ok_spec _ _ _ H2), !fmap_app.
  by destruct A as [|[q es] A].
Qed.

Lemma wf_fill e L T s A p X o Y C b' t :
  wf e L T -> L s = A ++ (p, X ++ o :: Y) :: C -> 0 <= t <= remaining o ->
  ob_repr b' (shows (A ++ (p, X ++ fill_order o t :: Y) :: C)) -> ob_keeps (Engine.e_book e s) b' ->
  wf (Engine.e_set_book (Engine.e_bump e (o_id o) t) s b')
    (upd L s (A ++ (p, X ++ fill_order o t :: Y) :: C)) T.
Proof.
  intros W HL Ht HR (Hko & _ & Hkc).
  destruct (wf_order _ _ _ _ _ _ _ _ _ _ W HL) as (Hin & _ & _ & Hsane & _).
  destruct (wf_lookup _ _ _ _ W Hin) as (idx & Hidx & Hobj).
  destruct (resting_replace L s (A ++ (p, X ++ fill_order o t :: Y) :: C) [o] [fill_order o t]
    (orders_of A ++ X ++ Y ++ orders_of C)) as (R & HR1 & HR2).
  { rewrite HL, orders_of_app, orders_of_cons. solve_Permutation. }
  { rewrite orders_of_app, orders_of_cons. solve_Permutation. }
  pose proof (w_ids _ _ _ W) as Hnd. rewrite HR1 in Hnd. simpl in Hnd.
  pose proof (w_levels _ _ _ W s) as Hlv. rewrite HL in Hlv.
  assert (i64_add (o_filled_lots o) t = o_filled_lots o + t) as Hadd.
  { apply i64_add_id. unfold sane, remaining in *. machine_unfold. lia. }
  unfold Engine.e_bump. rewrite Hidx.
  split.
  - eapply (sides_upd e); [done| |by intros []]. split; [done|..].
    + by rewrite Hko, (sd_order _ _ _ (w_side _ _ _ W s)).
    + rewrite Hkc. eapply cache_ok_fill; [done|by apply levels_fill|]. rewrite <- HL. apply W.
    + by apply levels_fill.
  - rewrite HR2. done.
  - intros o' Ho'. rewrite HR2 in Ho'. unfold Engine.get_order. simpl.
    apply elem_of_cons in Ho' as [->|Ho'].
    + simpl. rewrite Hidx. simpl. unfold ObjectPool.get. simpl.
      rewrite list_lookup_alter_eq, Hobj. simpl. by rewrite Hadd.
    + destruct (wf_lookup e L T o' W) as (idx' & Hi' & Ho2). { rewrite HR1. by right. }
      rewrite Hi'. simpl. unfold ObjectPool.get. simpl. rewrite list_lookup_alter_ne; [done|].
      intros <-. apply NoDup_cons in Hnd as [Hno _]. apply Hno.
      rewrite (wf_inj _ _ _ _ _ _ W Hidx Hi'). by apply list_elem_of_fmap_2.
  - intros id His. apply (w_dom _ _ _ W) in His. rewrite HR1 in His. by rewrite HR2.
  - simpl. apply objpool_get_mut, W.
  - apply W.
  - apply W.
  - simpl. rewrite length_alter. apply W.
Qed.
End wf.
