(* ===== verification/EngineMatch.v ===== *)
(** The matching loops implement the sweep of MatchSpec: from a well-formed
    engine they terminate, produce the fills of the specification in its order,
    leave the engine well-formed with the swept side, and keep the trade pool,
    the sequence numbers, the buffers and the trade events in step. *)
From Stdlib Require Import ZArith Lia.
From stdpp Require Import base numbers list gmap sorting.
From S2P Require Import Prelude ListPool SkipList SkipListInv BookSpec OrderBook Types Pools Engine.
From S2P Require Import MatchSpec EngineInv.

#[local] Open Scope Z_scope.

(** ** What a run of the loops leaves behind *)

Definition trade_of (order : Order) (f : fill) : Trade := mkTrade (o_id order) f.1.1 f.1.2 f.2.

(** Consecutive sequence numbers. *)
Definition seq_after (n : nat) (seq : Z) : Z := Nat.iter n (fun s => u64_add s 1) seq.

(** One trade event per fill, numbered from [seq + 1]. *)
Fixpoint events_of (order : Order) (seq : Z) (fs : list fill) : list TradeEvent :=
  match fs with
  | [] => []
  | f :: fs =>
      let seq := u64_add seq 1 in
      TradeEvent_new seq (o_id order) f.1.1 (o_timestamp order) (i64_as_f64 f.1.2)
        (i64_as_f64 f.2) (o_side order) (o_id order) f.1.1 :: events_of order seq fs
  end.

Lemma seq_after_app n m s : seq_after (n + m) s = seq_after m (seq_after n s).
Proof. unfold seq_after. by rewrite Nat.add_comm, Nat.iter_add. Qed.

Lemma events_of_app order seq fs fs' :
  events_of order seq (fs ++ fs') =
    events_of order seq fs ++ events_of order (seq_after (length fs) seq) fs'.
Proof.
  revert seq. induction fs as [|f fs IH]; intros seq; [done|].
  cbn [app events_of length]. rewrite IH. f_equal. f_equal.
  unfold seq_after. by rewrite (Nat.iter_succ_r (length fs)).
Qed.

(** Step a bind whose first computation is known to succeed. *)
Ltac run_step := erewrite bind_ok; [|reflexivity]; cbn beta iota.
Tactic Notation "run_by" tactic3(tac) := erewrite bind_ok; [|solve [tac]]; cbn beta iota.

Section matching.
Context {B : Type} {OB : OrderBook B} {LAWS : OrderBookLaws B} {RB : Rtrb}.
Implicit Types (e : MatchingEngine B) (L : Side -> levels).

(** The fields matching never touches. *)
Definition fixed e :=
  (e_next_order_id e, e_snapshot_sequence e, e_trade_event_sender e, e_sampling e, caps e).

Record progress (record has : bool) (order : Order) e (l : Engine.Locals) (T : list (nat * Trade))
  (fs : list fill) e' (l' : Engine.Locals) (T' : list (nat * Trade)) : Prop := {
  pg_fixed : fixed e' = fixed e;
  pg_seq : e_trade_sequence e' = seq_after (length fs) (e_trade_sequence e);
  pg_makers : e_affected_makers_buf e' =
    e_affected_makers_buf e ++ (if record then makers fs else []);
  pg_fills : e_fills_buf e' = e_fills_buf e ++ (if record then fs else []);
  pg_filled : Engine.l_filled l' = Engine.l_filled l + fill_sum fs;
  pg_events : Engine.l_trade_events l' =
    Engine.l_trade_events l ++ (if has then events_of order (e_trade_sequence e) fs else []);
  pg_slots : exists N, T' = T ++ N /\ N.*2 = trade_of order <$> fs /\
    Engine.l_trade_indices l' = Engine.l_trade_indices l ++ N.*1
}.

Lemma progress_refl record has order e l T e' l' :
  fixed e' = fixed e -> e_trade_sequence e' = e_trade_sequence e ->
  e_affected_makers_buf e' = e_affected_makers_buf e -> e_fills_buf e' = e_fills_buf e ->
  l' = l -> progress record has order e l T [] e' l' T.
Proof.
  intros ? ? H1 H2 ->. split; simpl; rewrite ?H1, ?H2; try done; try lia.
  - by destruct record; rewrite app_nil_r.
  - by destruct record; rewrite app_nil_r.
  - by destruct has; rewrite app_nil_r.
  - exists []. by rewrite !app_nil_r.
Qed.

Lemma progress_trans record has order e l T fs e1 l1 T1 fs' e2 l2 T2 :
  progress record has order e l T fs e1 l1 T1 -> progress record has order e1 l1 T1 fs' e2 l2 T2 ->
  progress record has order e l T (fs ++ fs') e2 l2 T2.
Proof.
  intros [F1 S1 M1 R1 G1 E1 (N1 & -> & HN1 & I1)] [F2 S2 M2 R2 G2 E2 (N2 & -> & HN2 & I2)].
  split.
  - congruence.
  - by rewrite S2, S1, length_app, seq_after_app.
  - rewrite M2, M1, <- app_assoc. unfold makers. by destruct record; rewrite ?fmap_app.
  - rewrite R2, R1, <- app_assoc. by destruct record.
  - rewrite G2, G1, fill_sum_app. lia.
  - rewrite E2, E1, <- app_assoc, S1. destruct has; [by rewrite events_of_app|done].
  - exists (N1 ++ N2). rewrite !fmap_app, HN1, HN2, I2, I1, <- !app_assoc. done.
Qed.

(** ** Steps outside the books *)

(** The invariant only reads the books, the id map and the pools. *)
Lemma wf_same e e' L T :
  e_buy_book e' = e_buy_book e -> e_sell_book e' = e_sell_book e ->
  e_orders e' = e_orders e -> e_pools e' = e_pools e -> wf e L T -> wf e' L T.
Proof.
  intros H1 H2 H3 H4 []. split; unfold Engine.get_order in *; rewrite ?H3, ?H4; try done.
  intros s. replace (Engine.e_book e' s) with (Engine.e_book e s) by by destruct s. done.
Qed.

Lemma wf_trade_pool e L T T' tp : wf e L T -> objpool_ok tp T'.*1 ->
  (forall i t, (i, t) ∈ T' -> op_objects tp !! i = Some t) ->
  length (op_objects tp) = length (op_objects (pl_trades (e_pools e))) ->
  wf (Engine.e_set_trade_pool e tp) L T'.
Proof.
  intros [] Hok Hs Hl. split; try done. simpl. by rewrite Hl.
Qed.

(** Acquiring a trade slot and writing the trade. *)
Lemma trade_slot_ok e L T t : wf e L T ->
  (length T < length (op_objects (pl_orders (e_pools e))))%nat ->
  exists idx tp, ObjectPool.acquire (pl_trades (e_pools e)) = (tp, Some idx) /\
    wf (Engine.e_set_trade_pool e (ObjectPool.get_mut tp idx (fun _ => t))) L (T ++ [(idx, t)]).
Proof.
  intros W Hl. destruct (objpool_acquire _ _ (w_trades _ _ _ W)) as (idx & tp & Ha & Hok & Ho).
  { rewrite length_fmap, (w_tcap _ _ _ W). done. }
  exists idx, tp. split; [done|]. eapply wf_trade_pool; [done|..].
  - apply objpool_get_mut. eapply objpool_perm; [|done].
    rewrite fmap_app. simpl. by rewrite Permutation_app_comm.
  - intros i u. rewrite elem_of_app, list_elem_of_singleton. simpl. intros [Hin|[= -> ->]].
    + rewrite list_lookup_alter_ne, Ho; [by apply (w_slots _ _ _ W)|].
      apply objpool_NoDup, NoDup_cons in Hok as [Hn _]. intros ->. apply Hn.
      apply list_elem_of_fmap. by exists (i, u).
    + rewrite list_lookup_alter_eq.
      destruct (objpool_lookup _ _ idx Hok ltac:(set_solver)) as [x Hx]. by rewrite Hx.
  - simpl. by rewrite length_alter, Ho.
Qed.

(** An id that rests nowhere is not bumped. *)
Lemma bump_absent e L T id t : wf e L T -> id ∉ o_id <$> resting L -> Engine.e_bump e id t = e.
Proof.
  intros W Hid. unfold Engine.e_bump. destruct (e_orders e !! id) eqn:Hi; [|done].
  destruct Hid. apply (w_dom _ _ _ W). by rewrite Hi.
Qed.

Lemma fixed_meta e e' : meta e' = meta e -> fixed e' = fixed e.
Proof. unfold meta, fixed, caps. congruence. Qed.

Lemma meta_logs e e' : meta e' = meta e ->
  e_trade_sequence e' = e_trade_sequence e /\ e_affected_makers_buf e' = e_affected_makers_buf e /\
  e_fills_buf e' = e_fills_buf e.
Proof. unfold meta. intros. split_and!; congruence. Qed.

Lemma fixed_len e e' : fixed e' = fixed e ->
  length (op_objects (pl_orders (e_pools e'))) = length (op_objects (pl_orders (e_pools e))).
Proof. unfold fixed, caps. congruence. Qed.

(** The books, id map and order pool after a trade of [t] lots with [o], the
    first order of the best level. *)
Lemma counter_filled_ok e L T s p o os C t :
  wf e L T -> L s = (p, o :: os) :: C -> 0 <= t <= remaining o ->
  exists b', ob_reduce_order_quantity_at_level (Engine.e_book e s) p (o_id o) t = Some (b', Ok ()) /\
    wf (Engine.e_set_book (Engine.e_bump e (o_id o) t) s b')
      (upd L s ((p, fill_order o t :: os) :: C)) T /\
    meta (Engine.e_set_book (Engine.e_bump e (o_id o) t) s b') = meta e.
Proof.
  intros W HL Ht. pose proof (w_book _ _ _ W s) as HR. rewrite HL in HR.
  destruct (book_reduce _ [] p [] o os C t HR ltac:(set_solver) Ht) as (b' & Hb & HR' & Hk).
  exists b'. split_and!; [done|by eapply (wf_fill _ _ _ _ [] _ [])|].
  rewrite meta_set_book; [by rewrite meta_bump|]. by rewrite book_bump.
Qed.

Lemma filled_test o t : sane o -> 0 <= t <= remaining o ->
  Order.is_filled (fill_order o t) = Z.leb (remaining o) t.
Proof.
  intros Hs Ht. unfold Order.is_filled. rewrite sane_remaining by by apply fill_sane.
  unfold remaining, fill_order in *. simpl. apply eq_true_iff_eq. rewrite !Z.leb_le. lia.
Qed.

(** The level left by a trade of [t] lots with its first order. *)
Definition after_trade (p : Z) (o : Order) (os : list Order) (C : levels) (t : Z) : levels :=
  if Z.leb (remaining o) t then put_level p os C else (p, fill_order o t :: os) :: C.

Lemma close_counter_ok e L T s p o os C t :
  wf e (upd L s ((p, fill_order o t :: os) :: C)) T -> sane o -> 0 <= t <= remaining o ->
  exists e', (when (match Engine.get_order e (o_id o) with
                    | Some c => Order.is_filled c | None => false end)
               (Engine.drop_counter s p (o_id o))) e = Some (e', Ok ()) /\
    wf e' (upd L s (after_trade p o os C t)) T /\ meta e' = meta e.
Proof.
  intros W Hs Ht. assert (Engine.get_order e (o_id o) = Some (fill_order o t)) as ->.
  { change (o_id o) with (o_id (fill_order o t)). apply (w_in _ _ _ W).
    rewrite resting_upd, orders_of_cons. set_solver. }
  rewrite (filled_test _ _ Hs Ht). unfold after_trade. destruct (Z.leb_spec (remaining o) t) as [Hle|].
  2:{ by exists e. }
  simpl. assert (upd L s ((p, fill_order o t :: os) :: C) s = (p, fill_order o t :: os) :: C) as HL
    by apply upd_same.
  destruct (drop_counter_ok _ _ _ _ [] p [] (fill_order o t) os C W HL) as (e' & Hd & W' & Hm).
  exists e'. split_and!; [done| |done].
  eapply wf_ext; [|done]. intros s'. unfold upd. by destruct (decide (s' = s)).
Qed.

Lemma trade_with_ok record has order e L T l p o os C t :
  let s := opposite (o_side order) in
  wf e L T -> L s = (p, o :: os) :: C -> o_id order ∉ o_id <$> resting L ->
  0 <= t <= remaining o -> 0 <= Engine.l_filled l -> Engine.l_filled l + t <= i64_max ->
  (length T < length (op_objects (pl_orders (e_pools e))))%nat ->
  exists e' l' T', Engine.trade_with record has order p (o_id o) t l e = Some (e', Ok l') /\
    wf e' (upd L s (after_trade p o os C t)) T' /\
    progress record has order e l T [(o_id o, p, t)] e' l' T'.
Proof.
  intros s W HL Hid Ht Hl0 Hl1 HT.
  destruct (wf_order _ _ _ s [] p [] o os C W HL) as (_ & _ & _ & Hsane & _).
  set (e0 := if record then Engine.e_set_bufs e (vec_push (e_affected_makers_buf e) (o_id o))
    (vec_push (e_fills_buf e) (o_id o, p, t)) else e).
  assert (wf e0 L T) as W0 by (unfold e0; destruct record; [by apply (wf_same e)|done]).
  destruct (counter_filled_ok _ _ _ _ _ _ _ _ _ W0 HL Ht) as (b' & Hb & W1 & Hm1).
  set (e1 := Engine.e_set_book (Engine.e_bump e0 (o_id o) t) s b') in *.
  destruct (trade_slot_ok _ _ _ (mkTrade (o_id order) (o_id o) p t) W1) as (idx & tp & Ha & W2).
  { rewrite (fixed_len _ _ (fixed_meta _ _ Hm1)). unfold e0. by destruct record. }
  set (e2 := Engine.e_set_trade_pool e1 _) in *.
  assert (wf (Engine.e_incr_trade_sequence e2) (upd L s ((p, fill_order o t :: os) :: C))
    (T ++ [(idx, mkTrade (o_id order) (o_id o) p t)])) as W3 by by apply (wf_same e2).
  destruct (close_counter_ok _ _ _ _ _ _ _ _ _ W3 Hsane Ht) as (e4 & Hc & W4 & Hm4).
  eexists e4, _, _. split_and!; [|exact W4|].
  - unfold Engine.trade_with. erewrite (bind_ok _ _ _ e0); [|unfold e0; by destruct record].
    run_step. rewrite (bump_absent _ _ _ _ _ W0 Hid). run_step.
    run_by (unfold Engine.on_book; rewrite book_bump; fold s; rewrite Hb; reflexivity).
    fold e1. run_by (unfold Engine.acquire_trade_slot; rewrite Ha; reflexivity).
    run_step. run_step. run_by (by destruct record). run_step. run_step. run_step.
    erewrite bind_ok; [|exact Hc]. reflexivity.
  - pose proof (fixed_meta _ _ Hm1) as Hf1. pose proof (fixed_meta _ _ Hm4) as Hf4.
    destruct (meta_logs _ _ Hm1) as (Hs1 & Hma1 & Hfi1).
    destruct (meta_logs _ _ Hm4) as (Hs4 & Hma4 & Hfi4).
    split.
    + rewrite Hf4. transitivity (fixed e1); [done|]. rewrite Hf1. unfold e0. by destruct record.
    + rewrite Hs4. change (u64_add (e_trade_sequence e1) 1 = u64_add (e_trade_sequence e) 1).
      rewrite Hs1. unfold e0. by destruct record.
    + rewrite Hma4. change (e_affected_makers_buf e1 =
        e_affected_makers_buf e ++ (if record then [o_id o] else [])).
      rewrite Hma1. unfold e0. destruct record; [done|by rewrite app_nil_r].
    + rewrite Hfi4. change (e_fills_buf e1 =
        e_fills_buf e ++ (if record then [(o_id o, p, t)] else [])).
      rewrite Hfi1. unfold e0. destruct record; [done|by rewrite app_nil_r].
    + simpl. rewrite i64_add_id; [lia|]. machine_unfold. lia.
    + cbn [Engine.l_trade_events]. destruct has; [|by rewrite app_nil_r].
      assert (e_trade_sequence e1 = e_trade_sequence e) as <-; [|done].
      rewrite Hs1. unfold e0. by destruct record.
    + by exists [(idx, mkTrade (o_id order) (o_id o) p t)].
Qed.

(** ** The inner loop *)

Lemma front_order_id_ok e L T s p o os C : wf e L T -> L s = (p, o :: os) :: C ->
  Engine.front_order_id s p e = Some (e, Ok (Some (o_id o))).
Proof.
  intros W HL. destruct (wf_mid _ _ _ s [] p (o :: os) C W HL) as (_ & _ & Hf & _).
  pose proof (law_get_node _ _ p (w_book _ _ _ W s)) as Hg. rewrite Hf in Hg.
  destruct Hg as (lvl & Hg & _ & _ & _ & idx & n & Hfr & Hn & Hid).
  unfold Engine.front_order_id.
  run_by (unfold Engine.read_book, reads; rewrite law_get_node_mut, Hg; reflexivity).
  simpl. rewrite Hfr. unfold gets. rewrite Hn. simpl. by rewrite Hid.
Qed.

Lemma front_order_id_none e L T s p : wf e L T -> p ∉ (L s).*1 ->
  Engine.front_order_id s p e = Some (e, Ok None).
Proof.
  intros W Hp. pose proof (law_get_node _ _ p (w_book _ _ _ W s)) as Hg.
  assert (a_find p (shows (L s)) = None) as Hf by (apply a_find_None; by rewrite shows_prices).
  rewrite Hf in Hg. unfold Engine.front_order_id.
  by run_by (unfold Engine.read_book, reads; rewrite law_get_node_mut, Hg; reflexivity).
Qed.

Lemma match_step_done record has order p l e :
  o_quantity_lots order <= Engine.l_filled l ->
  Engine.match_step record has order p l e = Some (e, Ok None).
Proof. intros H. unfold Engine.match_step. by rewrite (proj2 (Z.leb_le _ _) H). Qed.

Lemma match_step_trade record has order e L T l p o os C :
  let s := opposite (o_side order) in
  let t := Z.min (o_quantity_lots order - Engine.l_filled l) (remaining o) in
  wf e L T -> L s = (p, o :: os) :: C -> o_id order ∉ o_id <$> resting L -> live o ->
  0 <= Engine.l_filled l < o_quantity_lots order -> o_quantity_lots order <= i64_max ->
  (length T < length (op_objects (pl_orders (e_pools e))))%nat ->
  exists e' l' T', Engine.match_step record has order p l e = Some (e', Ok (Some l')) /\
    wf e' (upd L s (after_trade p o os C t)) T' /\
    progress record has order e l T [(o_id o, p, t)] e' l' T'.
Proof.
  intros s t W HL Hid Hlive Hl Hq HT.
  destruct (wf_order _ _ _ s [] p [] o os C W HL) as (Hin & _ & _ & Hsane & _).
  destruct (wf_lookup _ _ _ _ W Hin) as (idx & Hidx & Hobj).
  unfold live in Hlive.
  destruct (trade_with_ok record has order e L T l p o os C t W HL Hid) as (e' & l' & T' & Ht & W' & P);
    [lia|lia|lia|done|].
  exists e', l', T'. split_and!; [|done..]. unfold Engine.match_step.
  rewrite (proj2 (Z.leb_gt _ _)) by lia.
  run_by (eapply front_order_id_ok; done). run_step. rewrite Hidx. run_step.
  unfold ObjectPool.get. rewrite Hobj. rewrite (sane_remaining _ Hsane).
  rewrite (proj2 (Z.leb_gt _ _)) by lia.
  rewrite i64_sub_id by (machine_unfold; lia). by erewrite bind_ok; [|exact Ht].
Qed.

(** The taker's id stays fresh as the side shrinks. *)
Lemma fresh_upd L s l id : id ∉ o_id <$> resting L ->
  (forall o, o ∈ orders_of l -> o_id o ∈ o_id <$> orders_of (L s)) ->
  id ∉ o_id <$> resting (upd L s l).
Proof.
  intros Hid Hl Hin. apply Hid. rewrite resting_upd in Hin. rewrite (resting_side L s).
  rewrite fmap_app, elem_of_app in *. destruct Hin as [(o & -> & Ho)%list_elem_of_fmap|]; [|by right].
  left. by apply Hl.
Qed.

Lemma wf_upd_same e L T s l : wf e L T -> L s = l -> wf e (upd L s l) T.
Proof. intros W <-. eapply wf_ext; [|done]. intros s'. unfold upd. by destruct (decide _) as [->|]. Qed.

Lemma wf_upd_upd e L T s l l' : wf e (upd (upd L s l) s l') T -> wf e (upd L s l') T.
Proof. apply wf_ext. intros s'. unfold upd. by destruct (decide _). Qed.

Lemma after_full p o os C : after_trade p o os C (remaining o) = put_level p os C.
Proof. unfold after_trade. by rewrite Z.leb_refl. Qed.

Lemma after_part p o os C t : t < remaining o -> after_trade p o os C t = (p, fill_order o t :: os) :: C.
Proof. intros. unfold after_trade. by rewrite (proj2 (Z.leb_gt _ _)). Qed.

Lemma progress_count record has order e l T fs e' l' T' :
  progress record has order e l T fs e' l' T' -> length T' = (length T + length fs)%nat.
Proof.
  intros [_ _ _ _ _ _ (N & -> & HN & _)]. rewrite length_app. f_equal.
  by rewrite <- (length_fmap snd N), HN, length_fmap.
Qed.

Lemma match_level_ok record has order p C os : forall e L T l fuel fs rest rem',
  let s := opposite (o_side order) in
  wf e L T -> L s = put_level p os C -> p ∉ C.*1 -> o_id order ∉ o_id <$> resting L ->
  Forall live os -> 0 <= Engine.l_filled l <= o_quantity_lots order ->
  o_quantity_lots order <= i64_max ->
  eat p (o_quantity_lots order - Engine.l_filled l) os = (fs, rest, rem') ->
  (length T + length os <= length (op_objects (pl_orders (e_pools e))))%nat ->
  (length os < fuel)%nat ->
  exists e' l' T', Engine.match_level record has order p fuel l e = Some (e', Ok l') /\
    wf e' (upd L s (put_level p rest C)) T' /\ progress record has order e l T fs e' l' T'.
Proof.
  induction os as [|o os IH]; intros e L T l fuel fs rest rem' s W HL Hp Hid Hlive Hl Hq He HT Hf;
    (destruct fuel as [|fuel]; [simpl in Hf; lia|]); cbn [Engine.match_level].
  - simpl in He. injection He as <- <- <-. exists e, l, T.
    assert (Engine.match_step record has order p l e = Some (e, Ok None)) as Hs.
    { unfold Engine.match_step. destruct (Z.leb _ _); [done|].
      run_by (eapply front_order_id_none; [done|by fold s; rewrite HL]). done. }
    run_by (exact Hs). split_and!; [done|by apply wf_upd_same|by apply progress_refl].
  - simpl in He. apply Forall_cons in Hlive as [Ho Hos]. simpl in HT, Hf, HL.
    destruct (Z.leb_spec (o_quantity_lots order - Engine.l_filled l) 0) as [Hr|Hr].
    { injection He as <- <- <-. exists e, l, T. run_by (apply match_step_done; lia).
      split_and!; [done|by apply wf_upd_same|by apply progress_refl]. }
    destruct (match_step_trade record has order e L T l p o os C W HL Hid Ho)
      as (e1 & l1 & T1 & Hs & W1 & P1); [lia|lia|lia|]. fold s in W1.
    run_by (exact Hs). pose proof (pg_filled _ _ _ _ _ _ _ _ _ _ P1) as Hfl. simpl in Hfl.
    destruct (Z.ltb_spec (o_quantity_lots order - Engine.l_filled l) (remaining o)) as [Hlt|Hge].
    + injection He as <- <- <-. rewrite Z.min_l in * by lia. exists e1, l1, T1.
      rewrite after_part in W1 by done. destruct fuel as [|fuel]; [lia|]. cbn [Engine.match_level].
      run_by (apply match_step_done; lia). done.
    + rewrite Z.min_r in * by lia. rewrite after_full in W1.
      destruct (eat p _ os) as [[fs0 rest0] rem0] eqn:He0. injection He as <- <- <-.
      destruct (IH e1 (upd L s (put_level p os C)) T1 l1 fuel fs0 rest0 rem0 W1)
        as (e' & l' & T' & Hm & W' & P'); try done.
      * apply upd_same.
      * apply fresh_upd; [done|]. intros o'. rewrite HL, orders_of_put, orders_of_cons.
        intros Ho'. apply list_elem_of_fmap_2. set_solver.
      * unfold live in Ho. lia.
      * rewrite <- He0. f_equal. lia.
      * rewrite (progress_count _ _ _ _ _ _ _ _ _ _ P1), (fixed_len _ _ (pg_fixed _ _ _ _ _ _ _ _ _ _ P1)).
        simpl. lia.
      * lia.
      * exists e', l', T'. split_and!; [done|by eapply wf_upd_upd|].
        by eapply (progress_trans _ _ _ _ _ _ [_]).
Qed.

(** ** The outer loop *)

Lemma best_cached_best ab : a_best_cached (a_best ab) ab = a_best ab.
Proof.
  unfold a_best_cached. destruct (a_best ab) as [p|] eqn:Hb; [|done].
  by destruct (a_find p ab) as [[|]|].
Qed.

(** Asking for the best price only refreshes the cache. *)
Lemma get_best_ok e L T s : wf e L T ->
  exists e', Engine.on_book s ob_get_best_price e = Some (e', Ok (fst <$> head (L s))) /\
    wf e' L T /\ meta e' = meta e.
Proof.
  intros W. destruct (w_side _ _ _ W s) as [HR Ho Hc Hlv].
  destruct (law_get_best _ _ HR) as (b' & Hb & HR' & Ho' & Hcap & Hc').
  rewrite Hc in Hb, Hc'. rewrite (level_ok_best _ _ Hlv) in Hb. eexists. split_and!.
  - unfold Engine.on_book. rewrite Hb. done.
  - destruct W. split; try done. intros s'.
    destruct (decide (s' = s)) as [->|Hs]; [|by rewrite book_set_other].
    rewrite book_set_same. split; [done|congruence| |done].
    unfold cache_ok. rewrite Hc'. apply best_cached_best.
  - unfold meta, caps. by destruct s; simpl in *; rewrite Hcap.
Qed.

Lemma progress_fixed record has order e l T e1 fs e' l' T' : meta e1 = meta e ->
  progress record has order e1 l T fs e' l' T' -> progress record has order e l T fs e' l' T'.
Proof.
  intros Hm P. destruct (meta_logs _ _ Hm) as (? & ? & ?).
  apply (progress_trans record has order e l T [] e1 l T); [|done].
  apply progress_refl; try done. by apply fixed_meta.
Qed.

Lemma match_levels_ok record has order level_fuel l0 : forall e L T l fuel fs l1 rem',
  let s := opposite (o_side order) in
  wf e L T -> L s = l0 -> o_id order ∉ o_id <$> resting L ->
  Forall live (orders_of l0) -> 0 <= Engine.l_filled l <= o_quantity_lots order ->
  o_quantity_lots order <= i64_max ->
  sweep (Engine.price_matches order) (o_quantity_lots order - Engine.l_filled l) l0 = (fs, l1, rem') ->
  (length T + length (orders_of l0) <= length (op_objects (pl_orders (e_pools e))))%nat ->
  (length (orders_of l0) < level_fuel)%nat -> (length l0 < fuel)%nat ->
  exists e' l' T', Engine.match_levels record has order level_fuel fuel l e = Some (e', Ok l') /\
    wf e' (upd L s l1) T' /\ progress record has order e l T fs e' l' T'.
Proof.
  induction l0 as [|[p os] C IH];
    intros e L T l fuel fs l1 rem' s W HL Hid Hlive Hl Hq Hsw HT Hlf Hf;
    (destruct fuel as [|fuel]; [simpl in Hf; lia|]); cbn [Engine.match_levels].
  all: destruct (Z.leb_spec (o_quantity_lots order) (Engine.l_filled l)) as [Hd|Hd].
  1,3: simpl in Hsw; rewrite ?(proj2 (Z.leb_le _ 0)) in Hsw by lia; injection Hsw as <- <- <-;
    exists e, l, T; split_and!; [done|by apply wf_upd_same|by apply progress_refl].
  all: fold s; destruct (get_best_ok _ _ _ s W) as (e1 & Hb & W1 & Hm1);
    rewrite HL in Hb; run_by (exact Hb).
  - injection Hsw as <- <- <-. exists e1, l, T. split_and!; [done|by apply wf_upd_same|].
    eapply progress_fixed; [done|]. by apply progress_refl.
  - simpl in Hsw, Hf. rewrite orders_of_cons in *. rewrite length_app in *.
    apply Forall_app in Hlive as [Hos HC]. rewrite (proj2 (Z.leb_gt _ 0)) in Hsw by lia. simpl in Hsw.
    pose proof (wf_mid _ _ _ s [] p os C W1 HL) as (_ & HpC & Hfind & _).
    pose proof (law_get_node _ _ p (w_book _ _ _ W1 s)) as Hg. rewrite Hfind in Hg.
    destruct Hg as (lvl & Hg & _). cbn [head fmap option_fmap option_map fst].
    run_by (unfold Engine.read_book, reads; rewrite Hg; reflexivity).
    destruct (Engine.price_matches order p) eqn:Hpm; simpl in Hsw |- *.
    2:{ injection Hsw as <- <- <-. exists e1, l, T. split_and!; [done|by apply wf_upd_same|].
        eapply progress_fixed; [done|]. by apply progress_refl. }
    destruct (eat p _ os) as [[fs1 rest] rem1] eqn:He.
    pose proof (fixed_len _ _ (fixed_meta _ _ Hm1)) as Hlen.
    assert (L s = put_level p os C) as HL'.
    { rewrite HL. pose proof (w_levels _ _ _ W s) as Hlv. rewrite HL in Hlv.
      apply Forall_cons in Hlv as [[Hne _] _]. by destruct os. }
    destruct (match_level_ok record has order p C os e1 L T l level_fuel fs1 rest rem1 W1)
      as (e2 & l2 & T2 & Hml & W2 & P2); try done; [lia..|]. fold s in W2. run_by (exact Hml).
    assert (0 <= o_quantity_lots order - Engine.l_filled l) as Hr0 by lia.
    destruct (eat_spec _ _ _ _ _ _ Hos Hr0 He) as (Hr1 & Hr1' & Hv & _ & Hor).
    pose proof (pg_filled _ _ _ _ _ _ _ _ _ _ P2) as Hfl.
    pose proof (eat_length _ _ _ _ _ _ He) as Hle.
    destruct rest as [|r rest].
    + destruct (sweep _ rem1 C) as [[fs2 C2] rem2] eqn:Hs2. injection Hsw as <- <- <-.
      destruct (IH e2 (upd L s C) T2 l2 fuel fs2 C2 rem2 W2) as (e' & l' & T' & Hm & W' & P').
      * apply upd_same.
      * apply fresh_upd; [done|]. intros o'. rewrite HL, orders_of_cons. intros Ho'.
        apply list_elem_of_fmap_2. set_solver.
      * done.
      * pose proof (volume_nonneg _ Hos). simpl in Hv. lia.
      * done.
      * rewrite <- Hs2. f_equal. lia.
      * rewrite (progress_count _ _ _ _ _ _ _ _ _ _ P2),
          (fixed_len _ _ (pg_fixed _ _ _ _ _ _ _ _ _ _ P2)). lia.
      * lia.
      * lia.
      * exists e', l', T'. split_and!; [done|by eapply wf_upd_upd|].
        eapply progress_fixed; [done|]. by eapply progress_trans.
    + destruct Hor as [|Hor]; [done|]. injection Hsw as <- <- <-. exists e2, l2, T2.
      destruct fuel as [|fuel]; [lia|]. cbn [Engine.match_levels].
      rewrite (proj2 (Z.leb_le _ _)) by lia. split_and!; [done|done|].
      by eapply progress_fixed.
Qed.

(** ** [match_order] *)

(** Releasing the slots of a run frees them all. *)
Lemma release_trades_ok L T : forall e, wf e L T ->
  exists e', Engine.release_trades T.*1 e = Some (e', Ok ()) /\ wf e' L [] /\ meta e' = meta e.
Proof.
  induction T as [|[i t] T IH]; intros e W; [by exists e|].
  unfold Engine.release_trades. cbn [fmap list_fmap fst for_each]. run_step.
  destruct (IH (Engine.e_set_trade_pool e (ObjectPool.release (pl_trades (e_pools e)) i)))
    as (e' & Hr & W' & Hm).
  - eapply wf_trade_pool; [done| | |done].
    + apply objpool_release, W.
    + intros j u Hju. apply (w_slots _ _ _ W). by right.
  - exists e'. split_and!; [exact Hr|done|by rewrite Hm].
Qed.

(** The sender after the events of a run were pushed one by one. *)
Definition sender_after (sender : option (Producer TradeEvent)) (events : list TradeEvent) :=
  (fun p => Engine.push_all p events) <$> sender.

Lemma send_trades_eq events e :
  Engine.send_trades events e =
    Some (Engine.e_set_trade_sender e (sender_after (e_trade_event_sender e) events), Ok ()).
Proof. unfold Engine.send_trades, modify. by destruct e as [? ? ? ? ? ? [] ? ? ? ?]. Qed.

(** What [match_order] leaves besides the books and pools. *)
Record matched (order : Order) e (fs : list fill) e' : Prop := {
  mt_fills : e_fills_buf e' = fs;
  mt_makers : e_affected_makers_buf e' = makers fs;
  mt_seq : e_trade_sequence e' = seq_after (length fs) (e_trade_sequence e);
  mt_sender : e_trade_event_sender e' =
    sender_after (e_trade_event_sender e) (events_of order (e_trade_sequence e) fs);
  mt_ids : e_next_order_id e' = e_next_order_id e;
  mt_snap : e_snapshot_sequence e' = e_snapshot_sequence e;
  mt_sampling : e_sampling e' = e_sampling e;
  mt_caps : caps e' = caps e
}.

Lemma levels_length s (l : levels) : Forall (level_ok s) l -> (length l <= length (orders_of l))%nat.
Proof.
  induction 1 as [|[p os] l [Hne _] _ IH]; [done|]. rewrite orders_of_cons, length_app.
  destruct os; simpl in *; [done|lia].
Qed.

Lemma wf_room e L T s : wf e L T ->
  (length (orders_of (L s)) <= length (op_objects (pl_orders (e_pools e))))%nat.
Proof.
  intros W. pose proof (objpool_length _ _ (w_pool _ _ _ W)) as Hl.
  rewrite length_fmap, (wf_count _ _ _ W), (Permutation_length (resting_side L s)), length_app in Hl.
  lia.
Qed.

Lemma fuel_enough e L T s : wf e L T ->
  (length (orders_of (L s)) < Engine.match_fuel e s)%nat /\ (length (L s) < Engine.match_fuel e s)%nat.
Proof.
  intros W. destruct (w_side _ _ _ W s) as [HR _ _ Hlv].
  pose proof (law_capacity _ _ HR) as Hc. rewrite a_entries_shows, length_fmap in Hc.
  pose proof (levels_length _ _ Hlv). unfold Engine.match_fuel. rewrite (law_width _ _ HR). lia.
Qed.

Lemma match_order_ok order e L fs l' rem' :
  let s := opposite (o_side order) in
  wf e L [] -> all_live L -> o_id order ∉ o_id <$> resting L ->
  0 <= o_quantity_lots order <= i64_max ->
  sweep (Engine.price_matches order) (o_quantity_lots order) (L s) = (fs, l', rem') ->
  exists e', Engine.match_order order e = Some (e', Ok (fill_sum fs)) /\
    wf e' (upd L s l') [] /\ matched order e fs e'.
Proof.
  intros s W Hlive Hid Hq Hsw. set (e0 := Engine.e_set_bufs e [] []).
  assert (wf e0 L []) as W0 by by apply (wf_same e).
  assert (Forall live (orders_of (L s))) as Hls.
  { unfold all_live in Hlive. rewrite (resting_side L s) in Hlive. by apply Forall_app in Hlive as [? _]. }
  destruct (fuel_enough _ _ _ s W0) as [Hf1 Hf2]. pose proof (wf_room _ _ _ s W0) as Hroom.
  rewrite <- (Z.sub_0_r (o_quantity_lots order)) in Hsw.
  destruct (match_levels_ok true (Engine.has_trade_sender e0) order (Engine.match_fuel e0 s) (L s)
    e0 L [] (Engine.mkLocals 0 [] []) (Engine.match_fuel e0 s) fs l' rem' W0)
    as (e1 & l1 & T1 & Hm & W1 & P); try done; try (simpl; lia). fold s in W1.
  destruct P as [HF HS HM HB HG HE (N & -> & _ & HI)]. simpl in HI, HG, HB, HM, HE.
  unfold Engine.match_order. run_step. fold e0. run_step. run_step. fold s. run_by (exact Hm).
  set (e2 := Engine.e_set_trade_sender e1
    (sender_after (e_trade_event_sender e1) (Engine.l_trade_events l1))).
  assert (wf e2 (upd L s l') ([] ++ N)) as W2 by by apply (wf_same e1).
  destruct (release_trades_ok _ _ _ W2) as (e3 & Hr & W3 & Hm3). simpl in Hr.
  run_by (apply send_trades_eq). fold e2. rewrite HI. run_by (exact Hr).
  exists e3. split_and!; [by rewrite HG|done|].
  unfold meta, fixed in *. simpl in Hm3, HF. injection Hm3 as M1 M2 M3 M4 M5 M6 M7 M8.
  injection HF as F1 F2 F3 F4 F5.
  change (e_trade_sequence e0) with (e_trade_sequence e) in HS, HE.
  split; try congruence; [|unfold caps; congruence].
  rewrite M3, F3, HE. unfold sender_after, Engine.has_trade_sender. simpl.
  by destruct (e_trade_event_sender e).
Qed.
End matching.
