(* ===== verification/EngineOps.v ===== *)
(** Resting, placing and cancelling: every handler of the engine in terms of the
    specification of MatchSpec, on every branch. *)
From Stdlib Require Import ZArith Lia.
From stdpp Require Import base numbers list gmap sorting.
From S2P Require Import Prelude ListPool SkipList SkipListInv BookSpec OrderBook Types Pools Engine.
From S2P Require Import MatchSpec EngineInv EngineMatch.

#[local] Open Scope Z_scope.

(** ** Resting an order, abstractly *)

(** Append the order to the queue of its price, in a new level if needed. *)
Fixpoint add_order (so : SortOrder) (o : Order) (l : levels) : levels :=
  match l with
  | [] => [(o_price_ticks o, [o])]
  | (q, os) :: l' =>
      if Z.eqb q (o_price_ticks o) then (q, os ++ [o]) :: l'
      else if decide (before so (o_price_ticks o) q) then (o_price_ticks o, [o]) :: l
      else (q, os) :: add_order so o l'
  end.

Lemma orders_of_add so o l : orders_of (add_order so o l) ≡ₚ o :: orders_of l.
Proof.
  induction l as [|[q os] l IH]; simpl; [done|].
  destruct (Z.eqb q _); [|destruct (decide _)]; rewrite ?orders_of_cons, ?IH; solve_Permutation.
Qed.

Lemma add_order_levels s o l : Forall (level_ok s) l -> o_side o = s -> sane o ->
  Forall (level_ok s) (add_order (sort_order s) o l).
Proof.
  intros Hl Hs Ho. induction Hl as [|[q os] l [Hne Hos] Hl IH]; simpl.
  - rewrite Forall_singleton. split; simpl; [done|]. by rewrite Forall_singleton.
  - destruct (Z.eqb_spec q (o_price_ticks o)) as [->|]; [|destruct (decide _)].
    + constructor; [|done]. split; simpl in *; [by destruct os|]. apply Forall_app.
      split; [done|]. by rewrite Forall_singleton.
    + constructor; [|by constructor]. split; simpl; [done|]. by rewrite Forall_singleton.
    + by constructor.
Qed.

(** The levels of the order's price are created if missing and appended to. *)
Definition with_level (so : SortOrder) (p : Z) (ab : abook) : abook :=
  match a_find p ab with Some _ => ab | None => a_insert so p ab end.

Lemma a_find_insert so p ab : a_find p ab = None -> a_find p (a_insert so p ab) = Some [].
Proof.
  induction ab as [|[q es] ab IH]; simpl; [by rewrite Z.eqb_refl|].
  destruct (Z.eqb_spec q p) as [|Hne]; [done|]. intros Hf. destruct (decide _); simpl.
  - by rewrite Z.eqb_refl.
  - rewrite (proj2 (Z.eqb_neq _ _) Hne). auto.
Qed.

Lemma a_remove_insert so p ab : a_find p ab = None -> a_remove p (a_insert so p ab) = ab.
Proof.
  induction ab as [|[q es] ab IH]; simpl; [by rewrite Z.eqb_refl|].
  destruct (Z.eqb_spec q p) as [|Hne]; [done|]. intros Hf. destruct (decide _); simpl.
  - by rewrite Z.eqb_refl.
  - rewrite (proj2 (Z.eqb_neq _ _) Hne). by rewrite IH.
Qed.

Lemma a_entries_insert so p ab : a_find p ab = None -> a_entries (a_insert so p ab) = a_entries ab.
Proof.
  induction ab as [|[q es] ab IH]; simpl; [done|]. destruct (Z.eqb q p); [done|].
  intros Hf. destruct (decide _); [done|]. by rewrite !a_entries_cons, IH.
Qed.

Lemma shows_add so o l : a_sorted so (shows l) ->
  shows (add_order so o l) =
    a_update (o_price_ticks o) (fun es => es ++ [entry o]) (with_level so (o_price_ticks o) (shows l)).
Proof.
  unfold with_level. induction l as [|[q os] l IH]; simpl; intros Hs.
  { unfold shows. simpl. unfold shows_level. simpl. by rewrite Z.eqb_refl. }
  inversion Hs as [|? ? Hs' Hf]; subst.
  destruct (Z.eqb_spec q (o_price_ticks o)) as [Hq|Hne]; simpl.
  - rewrite (proj2 (Z.eqb_eq _ _) Hq). unfold shows. simpl. f_equal. unfold shows_level. simpl.
    by rewrite fmap_app.
  - destruct (decide (before so (o_price_ticks o) q)) as [Hb|Hb].
    + assert (a_find (o_price_ticks o) (shows l) = None) as ->.
      { apply a_find_None. intros Hin. rewrite Forall_forall in Hf. apply Hf in Hin.
        by apply (before_asym _ _ _ Hb) in Hin. }
      simpl. by rewrite Z.eqb_refl.
    + specialize (IH Hs'). unfold shows at 1. rewrite fmap_cons. fold (shows (add_order so o l)).
      rewrite IH. destruct (a_find (o_price_ticks o) (shows l)); simpl;
        by rewrite (proj2 (Z.eqb_neq _ _) Hne).
Qed.

Lemma find_volume p l es : Forall live (orders_of l) -> a_find p (shows l) = Some es ->
  0 <= qty_sum es <= volume (orders_of l).
Proof.
  induction l as [|[q os] l IH]; [done|]. rewrite orders_of_cons, volume_app.
  intros [Hos Hl]%Forall_app. pose proof (volume_nonneg _ Hos). pose proof (volume_nonneg _ Hl).
  simpl. destruct (Z.eqb q p).
  - intros [= <-]. rewrite qty_sum_entries. lia.
  - intros Hf. specialize (IH Hl Hf). lia.
Qed.

Section ops.
Context {B : Type} {OB : OrderBook B} {LAWS : OrderBookLaws B} {RB : Rtrb}.
Implicit Types (e : MatchingEngine B) (L : Side -> levels).

(** The first book call of the resting path: the level exists afterwards. *)
Lemma book_with_level b ab p : ob_repr b ab ->
  exists b' r, ob_insert_level b p = Some (b', r) /\
    ob_repr b' (with_level (ob_order b) p ab) /\ ob_keeps b b' /\
    a_find p (with_level (ob_order b) p ab) = Some (default [] (a_find p ab)) /\
    a_entries (with_level (ob_order b) p ab) = a_entries ab.
Proof.
  intros HR. unfold with_level. destruct (a_find p ab) as [es|] eqn:Hf.
  - rewrite (law_insert_exists _ _ _ _ HR Hf). exists b. eexists. by split_and!.
  - destruct (law_insert_new _ _ _ HR Hf) as (b' & Hb & HR' & Hk). exists b'. eexists.
    split_and!; try done; [by apply Hk..|by apply a_find_insert|by apply a_entries_insert].
Qed.

Lemma book_add b l o :
  ob_repr b (shows l) -> Forall live (orders_of l) -> live o ->
  (length (orders_of l) < ob_capacity b)%nat -> volume (orders_of l) + remaining o <= i64_max ->
  exists b1 r b2, ob_insert_level b (o_price_ticks o) = Some (b1, r) /\
    ob_add_order_at_level b1 (o_price_ticks o) (o_id o) (remaining o) = Some (b2, Ok ()) /\
    ob_repr b2 (shows (add_order (ob_order b) o l)) /\ ob_keeps b b2.
Proof.
  intros HR Hl Ho Hcap Hv. pose proof (law_sorted _ _ HR) as Hs.
  destruct (book_with_level _ _ (o_price_ticks o) HR) as (b1 & r & Hb1 & HR1 & Hk1 & Hf1 & He1).
  destruct (law_add _ _ _ _ (o_id o) (remaining o) HR1 Hf1) as (b2 & Hb2 & HR2 & Hk2).
  - rewrite He1, a_entries_shows, length_fmap. by destruct Hk1 as (_ & -> & _).
  - unfold live in Ho. lia.
  - pose proof (volume_nonneg _ Hl). destruct (a_find _ (shows l)) as [es|] eqn:Hf; simpl.
    + pose proof (find_volume _ _ _ Hl Hf). lia.
    + lia.
  - exists b1, r, b2. split_and!; try done; [by rewrite shows_add|unfold ob_keeps in *; intuition congruence..].
Qed.

(** The id map and the order pool after an order took slot [idx]. *)
Definition e_stored e (o : Order) (idx : nat) (pool : ObjectPool Order) : MatchingEngine B :=
  Engine.e_set_orders (Engine.e_set_order_pool e (ObjectPool.get_mut pool idx (fun _ => o)))
    (<[o_id o := idx]> (e_orders e)).

Lemma wf_add e L T o idx pool b :
  wf e L T -> o_id o ∉ o_id <$> resting L -> sane o ->
  objpool_ok pool (idx :: (map_to_list (e_orders e)).*2) ->
  op_objects pool = op_objects (pl_orders (e_pools e)) ->
  ob_repr b (shows (add_order (sort_order (o_side o)) o (L (o_side o)))) ->
  ob_order b = sort_order (o_side o) -> ob_cached b = None ->
  wf (Engine.e_set_book (e_stored e o idx pool) (o_side o) b)
    (upd L (o_side o) (add_order (sort_order (o_side o)) o (L (o_side o)))) T.
Proof.
  intros W Hid Hsane Hpool Hobj HR Hord Hcache. set (s := o_side o) in *.
  destruct (resting_replace L s (add_order (sort_order s) o (L s)) [] [o] (orders_of (L s)))
    as (R & HR1 & HR2); [done|apply orders_of_add|]. simpl in HR1, HR2.
  assert (e_orders e !! o_id o = None) as Hnone.
  { destruct (e_orders e !! o_id o) eqn:E; [|done]. destruct Hid. apply (w_dom _ _ _ W). by rewrite E. }
  pose proof (objpool_NoDup _ _ Hpool) as [Hidx _]%NoDup_cons.
  destruct (objpool_lookup _ _ idx Hpool ltac:(set_solver)) as [x Hx].
  split.
  - eapply (sides_upd e); [done| |by intros []]. split; try done.
    + by rewrite Hcache.
    + by apply add_order_levels; [apply W|..].
  - rewrite HR2, <- HR1. simpl. apply NoDup_cons. split; [done|apply W].
  - intros o'. rewrite HR2, <- HR1, elem_of_cons. unfold Engine.get_order, ObjectPool.get. simpl.
    intros [->|Ho'].
    + rewrite lookup_insert_eq. simpl. by rewrite list_lookup_alter_eq, Hx.
    + assert (o_id o <> o_id o') as Hne.
      { intros Heq. apply Hid. rewrite Heq. by apply list_elem_of_fmap_2. }
      rewrite lookup_insert_ne by done. destruct (wf_lookup _ _ _ _ W Ho') as (i & Hi & Hio).
      rewrite Hi. simpl. rewrite list_lookup_alter_ne, Hobj; [done|]. intros <-. apply Hidx.
      apply list_elem_of_fmap. exists (o_id o', idx). split; [done|]. by apply elem_of_map_to_list.
  - intros id. simpl. rewrite HR2, <- HR1. simpl. rewrite elem_of_cons.
    destruct (decide (id = o_id o)) as [->|Hne]; [by left|]. rewrite lookup_insert_ne by done.
    intros His. right. by apply (w_dom _ _ _ W).
  - simpl. apply objpool_get_mut. eapply objpool_perm; [|done].
    by rewrite (map_to_list_insert _ _ _ Hnone).
  - apply W.
  - apply W.
  - simpl. rewrite length_alter, Hobj. apply W.
Qed.

(** Room for one more resting order. *)
Definition has_slot e L : Prop :=
  (length (resting L) < length (op_objects (pl_orders (e_pools e))))%nat.

Lemma acquire_slot_ok e L T : wf e L T -> has_slot e L ->
  exists idx pool, ObjectPool.acquire (pl_orders (e_pools e)) = (pool, Some idx) /\
    objpool_ok pool (idx :: (map_to_list (e_orders e)).*2) /\
    op_objects pool = op_objects (pl_orders (e_pools e)).
Proof.
  intros W Hs. apply objpool_acquire; [apply W|]. by rewrite length_fmap, (wf_count _ _ _ W).
Qed.

Lemma add_to_book_ok e L T o :
  wf e L T -> o_id o ∉ o_id <$> resting L -> sane o -> live o -> all_live L -> has_slot e L ->
  (length (orders_of (L (o_side o))) < ob_capacity (Engine.e_book e (o_side o)))%nat ->
  volume (orders_of (L (o_side o))) + remaining o <= i64_max ->
  exists e', Engine.add_to_book o e = Some (e', Ok ()) /\
    wf e' (upd L (o_side o) (add_order (sort_order (o_side o)) o (L (o_side o)))) T /\
    meta e' = meta e.
Proof.
  intros W Hid Hsane Hlive Hall Hslot Hcap Hvol. set (s := o_side o) in *.
  destruct (acquire_slot_ok _ _ _ W Hslot) as (idx & pool & Ha & Hok & Hobj).
  destruct (w_side _ _ _ W s) as [HR Hord Hc Hlv].
  assert (Forall live (orders_of (L s))) as Hls by by eapply live_side.
  destruct (book_add _ _ _ HR Hls Hlive Hcap Hvol) as (b1 & r & b2 & Hb1 & Hb2 & HR2 & Hk).
  rewrite Hord in HR2. destruct (law_invalidate _ _ HR2) as (HR3 & Ho3 & Hcap3 & Hc3).
  eexists. split_and!.
  - unfold Engine.add_to_book. run_step. rewrite (wf_contains _ _ _ _ W), bool_decide_false by done.
    run_by (unfold Engine.acquire_order_slot; rewrite Ha; reflexivity). run_step. run_step.
    fold s. run_by (unfold Engine.on_book; rewrite book_order_pool, book_order_pool, Hb1; reflexivity).
    run_by (unfold Engine.on_book; rewrite book_set_same, (sane_remaining _ Hsane), Hb2; reflexivity).
    cbn [is_err is_ok negb]. run_step. reflexivity.
  - assert (ob_order (ob_invalidate_best_price b2) = sort_order s) as Ho4.
    { rewrite Ho3. destruct Hk as (-> & _). done. }
    pose proof (wf_add e L T o idx pool _ W Hid Hsane Hok Hobj HR3 Ho4 Hc3) as W'.
    revert W'. fold s. by destruct s.
  - destruct Hk as (_ & Hk & _). unfold meta, caps. destruct s; simpl in *;
      rewrite Hcap3, Hk, length_alter, Hobj; done.
Qed.

(** ** A full list pool *)

(** Rewriting a free slot of the order pool keeps the invariant. *)
Lemma wf_order_pool e L T pool : wf e L T ->
  objpool_ok pool (map_to_list (e_orders e)).*2 ->
  (forall k, k ∈ (map_to_list (e_orders e)).*2 ->
    op_objects pool !! k = op_objects (pl_orders (e_pools e)) !! k) ->
  length (op_objects pool) = length (op_objects (pl_orders (e_pools e))) ->
  wf (Engine.e_set_order_pool e pool) L T.
Proof.
  intros W Hok Hsame Hlen. pose proof W as []. split; try done.
  - intros o Ho. destruct (wf_lookup _ _ _ _ W Ho) as (i & Hi & Hio).
    unfold Engine.get_order, ObjectPool.get. simpl. rewrite Hi. simpl. rewrite Hsame; [done|].
    apply list_elem_of_fmap. exists (o_id o, i). split; [done|]. by apply elem_of_map_to_list.
  - simpl. by rewrite Hlen.
Qed.

(** A replaced book with the same content. *)
Lemma wf_book e L T s b : wf e L T -> ob_repr b (shows (L s)) -> ob_keeps (Engine.e_book e s) b ->
  wf (Engine.e_set_book e s b) L T.
Proof.
  intros W HR (Ho & _ & Hc). eapply wf_ext; [|]; cycle 1.
  - destruct (w_side _ _ _ W s) as [_ Ho' Hc' Hl']. pose proof W as [].
    assert (side_ok b s (L s)) as Hs by (split; congruence || done).
    split; try done. intros s'. destruct (decide (s' = s)) as [->|Hne].
    + by rewrite book_set_same.
    + by rewrite book_set_other.
  - done.
Qed.

Lemma drop_new_level_ok e s l p : ob_repr (Engine.e_book e s) (with_level (sort_order s) p (shows l)) ->
  Forall (level_ok s) l ->
  exists b, Engine.remove_level_if_empty s p false e = Some (Engine.e_set_book e s b, Ok ()) /\
    ob_repr b (shows l) /\ ob_keeps (Engine.e_book e s) b.
Proof.
  unfold with_level. intros HR Hl. pose proof (law_get_node _ _ p HR) as Hg.
  unfold Engine.remove_level_if_empty. destruct (a_find p (shows l)) as [es|] eqn:Hf.
  - rewrite Hf in Hg. destruct Hg as (lvl & Hg & _ & _ & Hemp & _).
    run_by (unfold Engine.read_book, reads; rewrite Hg; reflexivity). simpl. rewrite Hemp.
    assert (es <> []) as Hne.
    { clear -Hf Hl. induction Hl as [|[q os] l [Hne _] _ IH]; simpl in *; [done|].
      destruct (Z.eqb q p); [|auto]. simplify_eq. by destruct os. }
    rewrite bool_decide_false by done. simpl. exists (Engine.e_book e s). by rewrite set_book_id.
  - pose proof (a_find_insert (sort_order s) p _ Hf) as Hfi. rewrite Hfi in Hg.
    destruct Hg as (lvl & Hg & _ & _ & Hemp & _).
    run_by (unfold Engine.read_book, reads; rewrite Hg; reflexivity). simpl. rewrite Hemp. simpl.
    destruct (law_remove_level _ _ _ HR Hfi) as (b & Hb & HR' & Hk). exists b.
    run_by (unfold Engine.on_book; rewrite Hb; reflexivity).
    rewrite a_remove_insert in HR' by done. done.
Qed.

Lemma add_to_book_full e L T o :
  wf e L T -> o_id o ∉ o_id <$> resting L -> sane o -> has_slot e L ->
  length (orders_of (L (o_side o))) = ob_capacity (Engine.e_book e (o_side o)) ->
  exists e', Engine.add_to_book o e = Some (e', Err NodePoolExhausted) /\
    wf e' L T /\ meta e' = meta e.
Proof.
  intros W Hid Hsane Hslot Hcap. set (s := o_side o) in *.
  destruct (acquire_slot_ok _ _ _ W Hslot) as (idx & pool & Ha & Hok & Hobj).
  destruct (w_side _ _ _ W s) as [HR Hord Hc Hlv].
  destruct (book_with_level _ _ (o_price_ticks o) HR) as (b1 & r & Hb1 & HR1 & Hk1 & _ & He1).
  assert (ob_add_order_at_level b1 (o_price_ticks o) (o_id o) (remaining o) =
    Some (b1, Err ListPoolExhausted)) as Hb2.
  { eapply law_add_full; [done|]. rewrite He1, a_entries_shows, length_fmap, Hcap.
    by destruct Hk1 as (_ & -> & _). }
  set (pool' := ObjectPool.release (ObjectPool.get_mut pool idx (fun _ => o)) idx).
  set (e1 := Engine.e_set_order_pool (Engine.e_set_book e s b1) pool').
  destruct (drop_new_level_ok e1 s (L s) (o_price_ticks o)) as (b3 & Hb3 & HR3 & Hk3); [|done|].
  { unfold e1. rewrite book_order_pool, book_set_same, <- Hord. done. }
  unfold e1 in Hk3. rewrite book_order_pool, book_set_same in Hk3.
  assert (ob_keeps (Engine.e_book e s) b3) as Hk by (unfold ob_keeps in *; intuition congruence).
  exists (Engine.e_set_order_pool (Engine.e_set_book e s b3) pool'). split_and!.
  - unfold Engine.add_to_book. run_step. rewrite (wf_contains _ _ _ _ W), bool_decide_false by done.
    run_by (unfold Engine.acquire_order_slot; rewrite Ha; reflexivity). run_step. run_step.
    fold s. run_by (unfold Engine.on_book; rewrite book_order_pool, book_order_pool, Hb1; reflexivity).
    run_by (unfold Engine.on_book; rewrite book_set_same, (sane_remaining _ Hsane), Hb2; reflexivity).
    cbn [is_err is_ok negb]. run_step. erewrite bind_ok; [|].
    2:{ etransitivity; [|exact Hb3]. f_equal. unfold e1. by destruct s. }
    unfold throw, e1. by destruct s.
  - assert (objpool_ok pool' (map_to_list (e_orders e)).*2) as Hok'
      by by apply objpool_release, objpool_get_mut.
    apply wf_order_pool; [by apply wf_book|done| |].
    + intros k Hk4. simpl. rewrite list_lookup_alter_ne, Hobj; [done|]. intros <-.
      by apply objpool_NoDup, NoDup_cons in Hok as [? _].
    + simpl. by rewrite length_alter, Hobj.
  - transitivity (meta (Engine.e_set_book e s b3)); [|by apply meta_set_book].
    unfold meta, caps. simpl. by rewrite length_alter, Hobj.
Qed.

(** ** Depth sampling never fails and only touches its own fields *)

(** [m] succeeds and changes at most the sampling fields. *)
Definition samples (m : M (MatchingEngine B) MatchingEngineError unit) : Prop :=
  forall e L T, wf e L T -> exists d, m e = Some (Engine.e_set_sampling e d, Ok ()).

Lemma set_sampling_id e : Engine.e_set_sampling e (e_sampling e) = e.
Proof. by destruct e. Qed.

Lemma wf_sampling e L T d : wf e L T -> wf (Engine.e_set_sampling e d) L T.
Proof. by apply wf_same. Qed.

Lemma samples_ret : samples (mret ()).
Proof. intros e L T _. exists (e_sampling e). by rewrite set_sampling_id. Qed.

Lemma samples_seq m (k : unit -> _) : samples m -> (forall u, samples (k u)) -> samples (mbind k m).
Proof.
  intros Hm Hk e L T W. destruct (Hm _ _ _ W) as [d Hd]. erewrite bind_ok; [|exact Hd].
  destruct (Hk () _ _ _ (wf_sampling _ _ _ d W)) as [d' Hd']. exists d'. by rewrite Hd'.
Qed.

Lemma samples_gets {A} (f : MatchingEngine B -> A) k : (forall a, samples (k a)) ->
  samples (mbind k (gets f)).
Proof. intros Hk e L T W. run_step. by eapply Hk. Qed.

Lemma samples_when b m : samples m -> samples (when b m).
Proof. destruct b; [done|]. intros _. apply samples_ret. Qed.

Lemma samples_set f : samples (Engine.set_sampling f).
Proof. intros e L T _. by eexists. Qed.

Lemma copy_books_ok e L T n w : wf e L T -> is_Some (Engine.copy_books n w e).
Proof.
  intros W. unfold Engine.copy_books. pose proof (w_book _ _ _ W Buy) as H1.
  pose proof (w_book _ _ _ W Sell) as H2. simpl in H1, H2.
  rewrite (law_fill _ _ _ H1). simpl. rewrite (law_fill _ _ _ H2). by eexists.
Qed.

Lemma samples_reads {A} (f : MatchingEngine B -> option A) k :
  (forall e L T, wf e L T -> is_Some (f e)) -> (forall a, samples (k a)) ->
  samples (mbind k (reads f)).
Proof.
  intros Hf Hk e L T W. destruct (Hf _ _ _ W) as [a Ha].
  run_by (unfold reads; rewrite Ha; reflexivity). by eapply Hk.
Qed.

Lemma send_depth_samples now_ns : samples (Engine.send_depth now_ns).
Proof.
  apply samples_gets. intros d. destruct (ds_depth_snapshot_sender d); [|apply samples_ret].
  apply samples_reads; [|intros; apply samples_set]. intros e L T W. unfold Engine.build_depth_event.
  by destruct (copy_books_ok _ _ _ 20 8 W) as [[[? ?] [? ?]] ->].
Qed.

Lemma send_depth50_samples now_ns : samples (Engine.send_depth50 now_ns).
Proof.
  apply samples_reads.
  - intros e L T W. unfold Engine.build_depth50_event.
    by destruct (copy_books_ok _ _ _ 50 8 W) as [[[? ?] [? ?]] ->].
  - intros ev. apply samples_gets. intros d. destruct (ds_depth50_sender d); [apply samples_set|apply samples_ret].
Qed.

Lemma send_level2_samples now_ns : samples (Engine.send_level2 now_ns).
Proof.
  apply samples_reads.
  - intros e L T W. unfold Engine.build_level2_event.
    by destruct (copy_books_ok _ _ _ 400 16 W) as [[[? ?] [? ?]] ->].
  - intros ev. apply samples_gets. intros d. destruct (ds_level2_sender d); [apply samples_set|apply samples_ret].
Qed.

Create HintDb sampling.
#[local] Hint Resolve samples_ret samples_set send_depth_samples send_depth50_samples
  send_level2_samples samples_when samples_gets samples_seq : sampling.

Lemma maybe_sample_depth_ok now_ns : samples (Engine.maybe_sample_depth now_ns).
Proof.
  unfold Engine.maybe_sample_depth, Engine.first_sample. apply samples_gets. intros d.
  destruct (negb _); [apply samples_gets; intros d'|]; eauto 12 with sampling.
Qed.
End ops.
