(* ===== verification/EnginePlace.v ===== *)
(** The contract of [place_order] and [cancel_order]: an executable
    specification on price levels of orders, the refinement of every handler of
    the engine to it, and the invariants of the specification (uncrossed market,
    live orders). *)
From Stdlib Require Import ZArith Lia.
From stdpp Require Import base numbers list gmap sorting.
From S2P Require Import Prelude ListPool SkipList SkipListInv BookSpec OrderBook Types Pools Engine.
From S2P Require Import MatchSpec EngineInv EngineMatch EngineOps.

#[local] Open Scope Z_scope.

(** ** The specification *)

(** Both sides of the market. *)
Abbreviation market := (Side -> levels).

Definition accepts : Order -> Z -> bool := Engine.price_matches.

(** Sweep the opposite side. *)
Definition spec_match (L : market) (order : Order) : market * list fill :=
  let s := opposite (o_side order) in
  let '(fs, l, _) := sweep (accepts order) (o_quantity_lots order) (L s) in
  (upd L s l, fs).

(** Rest an order on its own side. *)
Definition spec_rest (L : market) (o : Order) : market :=
  upd L (o_side o) (add_order (sort_order (o_side o)) o (L (o_side o))).

Definition taker_result (order : Order) (fs : list fill) (none : OrderStatus) : PlaceOrderResult :=
  let filled := fill_sum fs in
  mkPlaceOrderResult (o_id order) filled
    (if Z.leb (o_quantity_lots order) filled then Filled
     else if Z.ltb 0 filled then PartiallyFilled else none) fs.

(** Does an order of this price cross the best opposite level? *)
Definition crosses (L : market) (order : Order) : bool :=
  match L (opposite (o_side order)) with
  | [] => false
  | (p, _) :: _ =>
      match o_side order with
      | Buy => Z.leb p (o_price_ticks order)
      | Sell => Z.leb (o_price_ticks order) p
      end
  end.

Definition spec_place (L : market) (order : Order) : market * PlaceOrderResult :=
  let reject := (L, mkPlaceOrderResult (o_id order) 0 Rejected []) in
  let '(L', fs) := spec_match L order in
  let filled := fill_sum fs in
  if o_is_market order then (L', taker_result order fs Rejected)
  else match o_time_in_force order with
       | IOC => (L', taker_result order fs Rejected)
       | FOK =>
           if Z.leb (o_quantity_lots order) (available (accepts order) (L (opposite (o_side order))))
           then (L', mkPlaceOrderResult (o_id order) filled Filled fs) else reject
       | PostOnly =>
           if crosses L order then reject
           else (spec_rest L order, mkPlaceOrderResult (o_id order) 0 Accepted [])
       | GTC =>
           (if Z.ltb filled (o_quantity_lots order)
            then spec_rest L' (Order.set_filled order filled) else L',
            taker_result order fs Accepted)
       end.

(** Does [place_order] rest (part of) the order in state [L]? *)
Definition spec_rests (L : market) (order : Order) : bool :=
  negb (o_is_market order) &&
  match o_time_in_force order with
  | PostOnly => negb (crosses L order)
  | GTC => Z.ltb (fill_sum (spec_match L order).2) (o_quantity_lots order)
  | IOC | FOK => false
  end.

(** Remove an order from a side. *)
Fixpoint remove_order (id : Z) (l : levels) : levels :=
  match l with
  | [] => []
  | (p, os) :: l =>
      if decide (id ∈ o_id <$> os)
      then put_level p (filter (fun o => o_id o <> id) os) l
      else (p, os) :: remove_order id l
  end.

(** ** Properties of the specification *)

(** Every bid is below every ask. *)
Definition uncrossed (L : market) : Prop :=
  forall pb pa, pb ∈ (L Buy).*1 -> pa ∈ (L Sell).*1 -> pb < pa.

Lemma cumulative_available order l av :
  Forall live (orders_of l) -> av < o_quantity_lots order ->
  a_cumulative (shows l) (o_quantity_lots order) (o_price_ticks order) (o_is_market order)
    (bool_decide (o_side order = Buy)) av =
  Z.leb (o_quantity_lots order) (av + available (accepts order) l).
Proof.
  revert av. induction l as [|[p os] l IH]; intros av; [simpl; intros; symmetry; apply Z.leb_gt; lia|].
  rewrite orders_of_cons. intros [Hos Hl]%Forall_app Hav. simpl.
  assert (acceptable (o_is_market order) (bool_decide (o_side order = Buy)) (o_price_ticks order) p =
    accepts order p) as ->.
  { unfold acceptable, accepts, Engine.price_matches. by destruct (o_side order). }
  pose proof (available_nonneg (accepts order) l Hl). pose proof (volume_nonneg _ Hos).
  destruct (accepts order p); [|symmetry; apply Z.leb_gt; lia].
  rewrite qty_sum_entries. destruct (Z.leb_spec (o_quantity_lots order) (av + volume os)).
  - symmetry. apply Z.leb_le. lia.
  - rewrite IH by done. f_equal. lia.
Qed.

Lemma sweep_live ok rem L fs L' rem' : Forall live (orders_of L) -> 0 <= rem ->
  sweep ok rem L = (fs, L', rem') -> Forall live (orders_of L').
Proof. intros Hl Hr Hs. by apply (sweep_spec _ _ _ _ _ _ Hl Hr Hs). Qed.

Lemma sweep_elem ok rem L fs L' rem' : sweep ok rem L = (fs, L', rem') ->
  forall p, p ∈ L'.*1 -> p ∈ L.*1.
Proof.
  revert rem fs L' rem'. induction L as [|[q os] L IH]; simpl; intros rem fs L' rem'.
  { by intros [= <- <- <-]. }
  destruct (_ || _); [by intros [= <- <- <-]|].
  destruct (eat q rem os) as [[fs1 rest] rem1]. destruct rest as [|r rest].
  - destruct (sweep _ _ _) as [[fs2 L2] rem2] eqn:Hs. intros [= <- <- <-] p Hp.
    right. by eapply IH.
  - by intros [= <- <- <-].
Qed.

Lemma sweep_ids ok rem L fs L' rem' : sweep ok rem L = (fs, L', rem') ->
  forall o, o ∈ orders_of L' -> o_id o ∈ o_id <$> orders_of L.
Proof.
  assert (forall p rem os fs rest rem', eat p rem os = (fs, rest, rem') ->
    forall o, o ∈ rest -> o_id o ∈ o_id <$> os) as Heat.
  { intros p rem0 os. revert rem0. induction os as [|o1 os IH]; simpl; intros rem0 fs0 rest0 rem1.
    { intros [= <- <- <-]. set_solver. }
    destruct (Z.leb rem0 0); [intros [= <- <- <-] o Ho; by apply (list_elem_of_fmap_2 o_id (o1 :: os))|].
    destruct (Z.ltb rem0 (remaining o1)).
    { intros [= <- <- <-] o [->|Ho]%elem_of_cons; [by left|right; by apply list_elem_of_fmap_2]. }
    destruct (eat _ _ _) as [[? ?] ?] eqn:He. intros [= <- <- <-] o Ho. right. by eapply IH. }
  revert rem fs L' rem'. induction L as [|[q os] L IH]; simpl; intros rem fs L' rem'.
  { intros [= <- <- <-]. set_solver. }
  destruct (_ || _); [intros [= <- <- <-] o; apply list_elem_of_fmap_2|].
  destruct (eat q rem os) as [[fs1 rest] rem1] eqn:He. rewrite orders_of_cons, fmap_app.
  destruct rest as [|r rest].
  - destruct (sweep _ _ _) as [[fs2 L2] rem2] eqn:Hs. intros [= <- <- <-] o Ho.
    apply elem_of_app. right. by eapply IH.
  - intros [= <- <- <-] o. rewrite orders_of_cons, !elem_of_app.
    intros [Ho|Ho]; [left; by eapply Heat|right; by apply list_elem_of_fmap_2].
Qed.

Lemma sweep_length ok rem L fs L' rem' : sweep ok rem L = (fs, L', rem') ->
  (length (orders_of L') <= length (orders_of L))%nat.
Proof.
  assert (forall p rem os fs rest rem', eat p rem os = (fs, rest, rem') ->
    (length rest <= length os)%nat) as Heat.
  { intros p rem0 os. revert rem0. induction os as [|o1 os IH]; simpl; intros rem0 fs0 rest0 rem1.
    { by intros [= <- <- <-]. }
    destruct (Z.leb rem0 0); [by intros [= <- <- <-]|].
    destruct (Z.ltb rem0 (remaining o1)); [intros [= <- <- <-]; simpl; lia|].
    destruct (eat _ _ _) as [[? ?] ?] eqn:He. intros [= <- <- <-]. apply IH in He. lia. }
  revert rem fs L' rem'. induction L as [|[q os] L IH]; simpl; intros rem fs L' rem'.
  { by intros [= <- <- <-]. }
  destruct (_ || _); [by intros [= <- <- <-]|].
  destruct (eat q rem os) as [[fs1 rest] rem1] eqn:He. rewrite orders_of_cons, length_app.
  apply Heat in He. destruct rest as [|r rest].
  - destruct (sweep _ _ _) as [[fs2 L2] rem2] eqn:Hs. intros [= <- <- <-]. apply IH in Hs. lia.
  - intros [= <- <- <-]. rewrite orders_of_cons, length_app. lia.
Qed.

Lemma spec_place_split L order : spec_place L order =
  let L' := (spec_match L order).1 in let fs := (spec_match L order).2 in
  let reject := (L, mkPlaceOrderResult (o_id order) 0 Rejected []) in
  if o_is_market order then (L', taker_result order fs Rejected)
  else match o_time_in_force order with
       | IOC => (L', taker_result order fs Rejected)
       | FOK =>
           if Z.leb (o_quantity_lots order) (available (accepts order) (L (opposite (o_side order))))
           then (L', mkPlaceOrderResult (o_id order) (fill_sum fs) Filled fs) else reject
       | PostOnly =>
           if crosses L order then reject
           else (spec_rest L order, mkPlaceOrderResult (o_id order) 0 Accepted [])
       | GTC =>
           (if Z.ltb (fill_sum fs) (o_quantity_lots order)
            then spec_rest L' (Order.set_filled order (fill_sum fs)) else L',
            taker_result order fs Accepted)
       end.
Proof. unfold spec_place. by destruct (spec_match L order). Qed.

(** *** The market stays uncrossed *)

Definition sorted_market (L : market) : Prop := forall s, a_sorted (sort_order s) (shows (L s)).

Lemma sorted_head so p es ab q : a_sorted so ((p, es) :: ab) -> q ∈ ((p, es) :: ab).*1 ->
  q = p \/ before so p q.
Proof.
  intros Hs. inversion Hs as [|? ? _ Hf]; subst. simpl. rewrite elem_of_cons.
  intros [->|Hq]; [by left|]. right. rewrite Forall_forall in Hf. by apply Hf.
Qed.

Lemma add_order_prices so o l p : p ∈ (add_order so o l).*1 -> p = o_price_ticks o \/ p ∈ l.*1.
Proof.
  induction l as [|[q os] l IH]; simpl; [set_solver|].
  destruct (Z.eqb q (o_price_ticks o)); [set_solver|]. destruct (decide _); set_solver.
Qed.

Lemma uncrossed_rest L o : sorted_market L -> uncrossed L -> crosses L o = false ->
  uncrossed (spec_rest L o).
Proof.
  intros Hs Hu Hc pb pa. unfold spec_rest, crosses in *.
  destruct (o_side o); rewrite ?upd_same, ?(upd_other _ _ Buy), ?(upd_other _ _ Sell) by done;
    simpl in Hc.
  - intros [->|Hb]%add_order_prices Ha; [|by apply Hu].
    pose proof (Hs Sell) as HsS. destruct (L Sell) as [|[p os] l]; [set_solver|].
    apply Z.leb_gt in Hc. rewrite <- (shows_prices (_ :: _)) in Ha.
    destruct (sorted_head _ _ _ _ _ HsS Ha) as [->|Hlt]; simpl in *; lia.
  - intros Hb [->|Ha]%add_order_prices; [|by apply Hu].
    pose proof (Hs Buy) as HsB. destruct (L Buy) as [|[p os] l]; [set_solver|].
    apply Z.leb_gt in Hc. rewrite <- (shows_prices (_ :: _)) in Hb.
    destruct (sorted_head _ _ _ _ _ HsB Hb) as [->|Hlt]; simpl in *; lia.
Qed.

Lemma uncrossed_shrink L s l : uncrossed L -> (forall p, p ∈ l.*1 -> p ∈ (L s).*1) ->
  uncrossed (upd L s l).
Proof.
  intros Hu Hl pb pa. destruct s; rewrite ?upd_same, ?(upd_other _ _ Buy), ?(upd_other _ _ Sell) by done;
    intros Hb Ha; apply Hu; auto.
Qed.

Lemma uncrossed_match L order : uncrossed L -> uncrossed (spec_match L order).1.
Proof.
  intros Hu. unfold spec_match. destruct (sweep _ _ _) as [[fs l] rem] eqn:Hs. simpl.
  apply uncrossed_shrink; [done|]. by eapply sweep_elem.
Qed.

(** A limit order that is not filled has exhausted the prices it crosses. *)
Lemma crosses_match L order : Forall live (orders_of (L (opposite (o_side order)))) ->
  o_is_market order = false -> 0 <= o_quantity_lots order ->
  fill_sum (spec_match L order).2 < o_quantity_lots order ->
  forall f, crosses (spec_match L order).1 (Order.set_filled order f) = false.
Proof.
  intros Hl Hm Hq. unfold spec_match, crosses. destruct (sweep _ _ _) as [[fs l] rem] eqn:Hs. simpl.
  rewrite upd_same. intros Hlt f. destruct (sweep_spec _ _ _ _ _ _ Hl Hq Hs) as (Hr & _).
  destruct (sweep_stops _ _ _ _ _ _ Hl Hq Hs) as [|Hst]; [lia|].
  destruct l as [|[p os] l]; [done|]. unfold accepts, Engine.price_matches in Hst.
  rewrite Hm in Hst. simpl in Hst. by destruct (o_side order).
Qed.

Lemma uncrossed_place L order :
  sorted_market L -> sorted_market (spec_match L order).1 -> all_live L -> uncrossed L ->
  0 <= o_quantity_lots order -> uncrossed (spec_place L order).1.
Proof.
  intros Hs Hs' Hl Hu Hq. rewrite spec_place_split. cbv zeta.
  pose proof (uncrossed_match L order Hu) as Hum.
  destruct (o_is_market order) eqn:Hm; [done|]. destruct (o_time_in_force order); cbn [fst].
  - destruct (Z.ltb_spec (fill_sum (spec_match L order).2) (o_quantity_lots order)) as [Hlt|]; [|done].
    apply uncrossed_rest; [done..|]. by apply crosses_match; [apply live_side|..].
  - done.
  - by destruct (Z.leb _ _).
  - destruct (crosses L order) eqn:Hc; [done|]. by apply uncrossed_rest.
Qed.

(** *** Resting volume *)

#[global] Instance volume_proper : Proper ((≡ₚ) ==> eq) volume.
Proof. induction 1; simpl; lia. Qed.

Lemma volume_match L order : all_live L -> 0 <= o_quantity_lots order ->
  volume (resting (spec_match L order).1) + fill_sum (spec_match L order).2 = volume (resting L).
Proof.
  intros Hl Hq. unfold spec_match. set (s := opposite (o_side order)).
  destruct (sweep _ _ _) as [[fs l] rem] eqn:Hs. simpl.
  destruct (sweep_spec _ _ _ _ _ _ (live_side _ s Hl) Hq Hs) as (_ & _ & Hv & _).
  rewrite resting_upd, (resting_side L s), !volume_app. lia.
Qed.

Lemma volume_rest L o : volume (resting (spec_rest L o)) = volume (resting L) + remaining o.
Proof.
  unfold spec_rest. rewrite resting_upd, orders_of_add, (resting_side L (o_side o)).
  simpl. rewrite !volume_app. lia.
Qed.

Lemma spec_fills_nonneg L order : all_live L -> 0 <= o_quantity_lots order ->
  0 <= fill_sum (spec_match L order).2 <= o_quantity_lots order.
Proof.
  intros Hl Hq. unfold spec_match. destruct (sweep _ _ _) as [[fs l] rem] eqn:Hs. simpl.
  pose proof (live_side _ (opposite (o_side order)) Hl) as Hls.
  rewrite (sweep_fills_min _ _ _ _ _ _ Hls Hq Hs). pose proof (available_nonneg (accepts order) _ Hls). lia.
Qed.

Lemma volume_place L order : all_live L -> 0 <= o_quantity_lots order -> o_filled_lots order = 0 ->
  volume (resting (spec_place L order).1) <= volume (resting L) + o_quantity_lots order.
Proof.
  intros Hl Hq Hf. pose proof (volume_match L order Hl Hq). pose proof (spec_fills_nonneg L order Hl Hq).
  rewrite spec_place_split. cbv zeta. destruct (o_is_market order); [simpl; lia|].
  destruct (o_time_in_force order); cbn [fst].
  - destruct (Z.ltb _ _); [|lia]. rewrite volume_rest. unfold remaining. simpl. lia.
  - lia.
  - destruct (Z.leb _ _); simpl; lia.
  - destruct (crosses L order); simpl; [lia|]. rewrite volume_rest. unfold remaining. lia.
Qed.

Section place.
Context {B : Type} {OB : OrderBook B} {LAWS : OrderBookLaws B} {RB : Rtrb}.
Implicit Types (e : MatchingEngine B) (L : market).

(** An order the engine can take: valid, unfilled, of a fresh id, with a free
    slot in the pools and, if it is going to rest, in the list pool of its side;
    the volume of a side stays within [i64]. *)
Record placeable e L (order : Order) : Prop := {
  pl_valid : Engine.validate_order order = Ok ();
  pl_width : o_quantity_lots order <= i64_max;
  pl_unfilled : o_filled_lots order = 0;
  pl_fresh : o_id order ∉ o_id <$> resting L;
  pl_slot : has_slot e L;
  pl_queue : 0 < ObjectPool.available_count (pl_queues (e_pools e));
  pl_room : spec_rests L order = true ->
    (length (orders_of (L (o_side order))) < ob_capacity (Engine.e_book e (o_side order)))%nat;
  pl_volume s : volume (orders_of (L s)) + o_quantity_lots order <= i64_max
}.

Lemma placeable_pos e L order : placeable e L order -> 0 < o_quantity_lots order.
Proof.
  intros [Hv _ _ _ _ _ _ _]. unfold Engine.validate_order in Hv.
  destruct (_ && _); [done|]. destruct (Z.leb_spec (o_quantity_lots order) 0); [done|lia].
Qed.

Lemma resting_length L s l : (length (orders_of l) <= length (orders_of (L s)))%nat ->
  (length (resting (upd L s l)) <= length (resting L))%nat.
Proof.
  intros H. rewrite (Permutation_length (resting_upd L s l)), (Permutation_length (resting_side L s)).
  rewrite !length_app. lia.
Qed.

Lemma live_upd L s l : all_live L -> Forall live (orders_of l) -> all_live (upd L s l).
Proof.
  unfold all_live. intros HL Hl. rewrite resting_upd. apply Forall_app. split; [done|].
  by apply live_side.
Qed.

(** Matching, against the specification. *)
Lemma match_refines e L order :
  wf e L [] -> all_live L -> o_id order ∉ o_id <$> resting L ->
  0 <= o_quantity_lots order <= i64_max ->
  exists e', Engine.match_order order e = Some (e', Ok (fill_sum (spec_match L order).2)) /\
    wf e' (spec_match L order).1 [] /\ matched order e (spec_match L order).2 e' /\
    all_live (spec_match L order).1 /\ o_id order ∉ o_id <$> resting (spec_match L order).1 /\
    (length (resting (spec_match L order).1) <= length (resting L))%nat /\
    0 <= fill_sum (spec_match L order).2 <= o_quantity_lots order.
Proof.
  intros W Hl Hid Hq. unfold spec_match, accepts. set (s := opposite (o_side order)).
  destruct (sweep _ _ (L s)) as [[fs l] rem] eqn:Hs. simpl.
  destruct (match_order_ok order e L fs l rem W Hl Hid Hq Hs) as (e' & Hm & W' & M).
  pose proof (live_side _ s Hl) as Hls.
  pose proof (sweep_spec _ _ _ _ _ _ Hls (proj1 Hq) Hs) as (Hr & Hr0 & _ & Hl').
  pose proof (sweep_fills_min _ _ _ _ _ _ Hls (proj1 Hq) Hs) as Hmin.
  pose proof (available_nonneg (Engine.price_matches order) _ Hls).
  exists e'. split_and!; try done; [by apply live_upd| | |lia..].
  - apply fresh_upd; [done|]. by eapply sweep_ids.
  - apply resting_length. by eapply sweep_length.
Qed.

(** Resting, against the specification. *)
Lemma rest_refines e L o :
  wf e L [] -> all_live L -> o_id o ∉ o_id <$> resting L -> sane o -> live o -> has_slot e L ->
  (length (orders_of (L (o_side o))) < ob_capacity (Engine.e_book e (o_side o)))%nat ->
  volume (orders_of (L (o_side o))) + remaining o <= i64_max ->
  exists e', Engine.add_to_book o e = Some (e', Ok ()) /\ wf e' (spec_rest L o) [] /\
    meta e' = meta e /\ all_live (spec_rest L o).
Proof.
  intros W Hall Hid Hs Hl Hslot Hcap Hv.
  destruct (add_to_book_ok _ _ _ _ W Hid Hs Hl Hall Hslot Hcap Hv) as (e' & He & W' & Hm).
  exists e'. split_and!; try done. apply live_upd; [done|]. rewrite orders_of_add.
  constructor; [done|by apply live_side].
Qed.

(** The trade sequence and the trade events after the fills [fs]. *)
Definition logged e order (fs : list fill) e' : Prop :=
  e_trade_sequence e' = seq_after (length fs) (e_trade_sequence e) /\
  e_trade_event_sender e' =
    sender_after (e_trade_event_sender e) (events_of order (e_trade_sequence e) fs).

Lemma matched_logged order e fs e' : matched order e fs e' -> logged e order fs e'.
Proof. by intros []. Qed.

Lemma logged_nil e order : logged e order [] e.
Proof. split; [done|]. unfold sender_after. simpl. by destruct (e_trade_event_sender e). Qed.

Lemma logged_meta e order fs e1 e' : logged e order fs e1 -> meta e' = meta e1 -> logged e order fs e'.
Proof. unfold logged, meta. intros [? ?] ?. split; congruence. Qed.

(** What a handler returns for an order, against [spec_place]. *)
Definition handled e L order (m : M (MatchingEngine B) MatchingEngineError PlaceOrderResult) : Prop :=
  exists e', m e = Some (e', Ok (spec_place L order).2) /\ wf e' (spec_place L order).1 [] /\
    all_live (spec_place L order).1 /\ caps e' = caps e /\
    logged e order (r_fills (spec_place L order).2) e'.

Lemma result_ok order filled status e :
  Engine.result_with_fills order filled status e =
    Some (e, Ok (mkPlaceOrderResult (o_id order) filled status (e_fills_buf e))).
Proof. done. Qed.

Lemma handle_market_ok e L order : wf e L [] -> all_live L -> placeable e L order ->
  o_is_market order = true -> handled e L order (Engine.handle_market_order order).
Proof.
  intros W Hl HP Hm. pose proof (placeable_pos _ _ _ HP).
  destruct (match_refines e L order W Hl (pl_fresh _ _ _ HP)) as (e' & He & W' & M & Hl' & _ & _ & _).
  { pose proof (pl_width _ _ _ HP). lia. }
  exists e'. rewrite spec_place_split, Hm. simpl. split_and!; try done; [|apply M|by apply matched_logged].
  unfold Engine.handle_market_order. run_by (exact He). rewrite result_ok, (mt_fills _ _ _ _ M). done.
Qed.

Lemma handle_ioc_ok e L order : wf e L [] -> all_live L -> placeable e L order ->
  o_is_market order = false -> o_time_in_force order = IOC ->
  handled e L order (Engine.handle_ioc order).
Proof.
  intros W Hl HP Hm Ht. pose proof (placeable_pos _ _ _ HP).
  destruct (match_refines e L order W Hl (pl_fresh _ _ _ HP)) as (e' & He & W' & M & Hl' & _ & _ & _).
  { pose proof (pl_width _ _ _ HP). lia. }
  exists e'. rewrite spec_place_split, Hm, Ht. simpl. split_and!; try done; [|apply M|by apply matched_logged].
  unfold Engine.handle_ioc. run_by (exact He). rewrite result_ok, (mt_fills _ _ _ _ M). done.
Qed.

Lemma handle_fok_ok e L order : wf e L [] -> all_live L -> placeable e L order ->
  o_is_market order = false -> o_time_in_force order = FOK ->
  handled e L order (Engine.handle_fok order).
Proof.
  intros W Hl HP Hm Ht. pose proof (placeable_pos _ _ _ HP) as Hpos. set (s := opposite (o_side order)).
  assert (Engine.can_fill_fok e order =
    Some (Z.leb (o_quantity_lots order) (available (accepts order) (L s)))) as Hc.
  { unfold Engine.can_fill_fok. fold s. rewrite (law_cumulative _ _ _ _ _ _ (w_book _ _ _ W s)).
    - by rewrite cumulative_available by (by apply live_side || lia).
    - rewrite a_volume_shows. pose proof (pl_volume _ _ _ HP s). lia. }
  unfold handled, Engine.handle_fok. rewrite spec_place_split, Hm, Ht. cbv zeta. fold s.
  erewrite bind_ok; [|unfold reads; rewrite Hc; reflexivity].
  destruct (Z.leb _ _); cbn [negb fst snd].
  - destruct (match_refines e L order W Hl (pl_fresh _ _ _ HP)) as (e' & He & W' & M & Hl' & _ & _ & _).
    { pose proof (pl_width _ _ _ HP). lia. }
    exists e'. split_and!; try done; [|apply M|by apply matched_logged]. run_by (exact He).
    by rewrite result_ok, (mt_fills _ _ _ _ M).
  - exists e. split_and!; try done; apply logged_nil.
Qed.

Lemma new_order_ok e L order : placeable e L order -> sane order /\ live order.
Proof.
  intros HP. pose proof (placeable_pos _ _ _ HP). destruct HP. unfold sane, live, remaining. lia.
Qed.

Lemma handle_post_only_ok e L order : wf e L [] -> all_live L -> placeable e L order ->
  o_is_market order = false -> o_time_in_force order = PostOnly ->
  handled e L order (Engine.handle_post_only order).
Proof.
  intros W Hl HP Hm Ht. destruct (new_order_ok _ _ _ HP) as [Hs Hlv].
  unfold handled, Engine.handle_post_only. rewrite spec_place_split, Hm, Ht. cbv zeta.
  set (s := opposite (o_side order)). pose proof (law_best _ _ (w_book _ _ _ W s)) as Hb.
  assert (exists best, ob_best (Engine.e_book e s) = Some best /\
    lvl_price_ticks <$> best = fst <$> head (L s)) as (best & Hbest & Hbp).
  { destruct (L s) as [|[p os] l]; simpl in Hb; [by exists None|].
    destruct Hb as (lvl & Hb & Hp & _). exists (Some lvl). split; [done|]. simpl. by rewrite Hp. }
  erewrite bind_ok; [|unfold Engine.read_book, reads; rewrite Hbest; reflexivity].
  assert (match best with
    | Some best => match o_side order with
                   | Buy => lvl_price_ticks best <=? o_price_ticks order
                   | Sell => o_price_ticks order <=? lvl_price_ticks best end
    | None => false end = crosses L order) as ->.
  { unfold crosses. fold s. destruct (L s) as [|[p os] l], best as [lvl|]; simplify_eq/=; try done. }
  destruct (crosses L order) eqn:Hc; [exists e; split_and!; try done; apply logged_nil|].
  assert (spec_rests L order = true) as Hr by by (unfold spec_rests; rewrite Hm, Ht, Hc).
  destruct (rest_refines e L order W Hl (pl_fresh _ _ _ HP) Hs Hlv (pl_slot _ _ _ HP)
    (pl_room _ _ _ HP Hr)) as (e' & He & W' & Hme & Hl').
  { pose proof (pl_volume _ _ _ HP (o_side order)). unfold remaining. rewrite (pl_unfilled _ _ _ HP). lia. }
  exists e'. split_and!; try done; [by run_by (exact He)|unfold meta in Hme; congruence|].
  eapply logged_meta; [apply logged_nil|done].
Qed.

Lemma caps_book e e' s : caps e' = caps e ->
  ob_capacity (Engine.e_book e' s) = ob_capacity (Engine.e_book e s) /\
  length (op_objects (pl_orders (e_pools e'))) = length (op_objects (pl_orders (e_pools e))).
Proof. unfold caps. intros Hc. destruct s; simpl; split; congruence. Qed.

Lemma spec_match_own L order : (spec_match L order).1 (o_side order) = L (o_side order).
Proof.
  unfold spec_match. destruct (sweep _ _ _) as [[fs l] rem]. simpl. apply upd_other.
  by destruct (o_side order).
Qed.

Lemma handle_gtc_ok e L order : wf e L [] -> all_live L -> placeable e L order ->
  o_is_market order = false -> o_time_in_force order = GTC ->
  handled e L order (Engine.handle_gtc order).
Proof.
  intros W Hl HP Hm Ht. pose proof (placeable_pos _ _ _ HP) as Hpos.
  pose proof (pl_width _ _ _ HP) as Hwd.
  destruct (match_refines e L order W Hl (pl_fresh _ _ _ HP))
    as (e1 & He & W1 & Hmt & Hl1 & Hid1 & Hlen & Hf); [lia|].
  unfold handled, Engine.handle_gtc. rewrite spec_place_split, Hm, Ht. cbv zeta.
  set (fs := (spec_match L order).2) in *. set (L1 := (spec_match L order).1) in *.
  run_by (exact He). destruct (Z.ltb_spec (fill_sum fs) (o_quantity_lots order)) as [Hlt|Hge];
    cbn [when fst snd].
  - set (o' := Order.set_filled order (fill_sum fs)).
    destruct (caps_book _ _ (o_side order) (mt_caps _ _ _ _ Hmt)) as [Hcap Hobj].
    assert (spec_rests L order = true) as Hr.
    { unfold spec_rests. rewrite Hm, Ht. simpl. fold fs. by apply Z.ltb_lt. }
    destruct (rest_refines e1 L1 o' W1 Hl1) as (e' & Ha & W' & Hme & Hl').
    + done.
    + unfold sane. simpl. lia.
    + unfold live, remaining. simpl. lia.
    + pose proof (pl_slot _ _ _ HP). unfold has_slot in *. lia.
    + simpl. unfold L1. rewrite spec_match_own, Hcap. apply (pl_room _ _ _ HP Hr).
    + simpl. unfold L1. rewrite spec_match_own. pose proof (pl_volume _ _ _ HP (o_side order)).
      unfold remaining. simpl. lia.
    + exists e'. destruct (meta_logs _ _ Hme) as (_ & _ & Hfb). split_and!; try done.
      * run_by (exact Ha). rewrite result_ok, Hfb, (mt_fills _ _ _ _ Hmt). done.
      * pose proof (mt_caps _ _ _ _ Hmt). unfold meta in Hme. congruence.
      * eapply logged_meta; [by apply matched_logged|done].
  - exists e1. split_and!; try done; [|apply Hmt|by apply matched_logged]. run_step.
    by rewrite result_ok, (mt_fills _ _ _ _ Hmt).
Qed.

Lemma placeable_meta e e' L order : placeable e L order ->
  e_pools e' = e_pools e -> (forall s, Engine.e_book e' s = Engine.e_book e s) -> placeable e' L order.
Proof.
  intros [] Hp Hb. split; try done.
  - unfold has_slot. by rewrite Hp.
  - by rewrite Hp.
  - by rewrite Hb.
Qed.

Lemma dispatch_ok e L order : wf e L [] -> all_live L -> placeable e L order ->
  handled e L order (Engine.dispatch order).
Proof.
  intros W Hl HP. set (e0 := Engine.e_set_bufs e [] (e_fills_buf e)).
  assert (wf e0 L []) as W0 by by apply (wf_same e).
  assert (placeable e0 L order) as HP0 by (eapply placeable_meta; [done|done|by intros []]).
  assert (handled e0 L order (fun s => Engine.dispatch order e)) as (e' & He & H').
  2:{ by exists e'. }
  unfold Engine.dispatch.
  assert (forall m, handled e0 L order m ->
    handled e0 L order (fun _ => (_ ← modify (fun e => Engine.e_set_bufs e [] (e_fills_buf e)); m) e)) as Hk.
  { intros m (e' & He & H'). exists e'. split; [|done]. run_step. done. }
  apply Hk. destruct (o_is_market order) eqn:Hm; [by apply handle_market_ok|].
  destruct (o_time_in_force order) eqn:Ht;
    [by apply handle_gtc_ok|by apply handle_ioc_ok|by apply handle_fok_ok|by apply handle_post_only_ok].
Qed.

Lemma has_space_ok e L T : wf e L T -> has_slot e L ->
  0 < ObjectPool.available_count (pl_queues (e_pools e)) ->
  Pools.has_space_for_order (e_pools e) = true.
Proof.
  intros W Hs Hq. unfold Pools.has_space_for_order. rewrite (objpool_available _ _ (w_pool _ _ _ W)).
  rewrite length_fmap, (wf_count _ _ _ W). unfold has_slot in Hs.
  rewrite !(proj2 (Z.ltb_lt _ _)); [done|done|lia].
Qed.

(** [place_order] implements [spec_place]. *)
Lemma place_order_ok now_ns e L order : wf e L [] -> all_live L -> placeable e L order ->
  handled e L order (Engine.place_order now_ns order).
Proof.
  intros W Hl HP. destruct (dispatch_ok _ _ _ W Hl HP) as (e1 & He & W1 & Hl1 & Hc1 & Hlog).
  destruct (maybe_sample_depth_ok now_ns _ _ _ W1) as [d Hd].
  exists (Engine.e_set_sampling e1 d). split_and!; try done; [|by apply wf_sampling].
  unfold Engine.place_order, Engine.check_valid. rewrite (pl_valid _ _ _ HP). run_step. run_step.
  rewrite (wf_contains _ _ _ _ W), bool_decide_false by apply HP. run_step.
  rewrite (has_space_ok _ _ _ W (pl_slot _ _ _ HP) (pl_queue _ _ _ HP)). cbn [negb].
  run_by (exact He). run_by (exact Hd). done.
Qed.
End place.
