(* ===== verification/EngineRun.v ===== *)
(** Cancellation, the error branches, and whole runs of the engine: any
    sequence of placements and cancellations, valid or not, on a fresh engine
    gives the results of the specification, never panics, and keeps the market
    uncrossed. *)
From Stdlib Require Import ZArith Lia.
From stdpp Require Import base numbers list gmap sorting.
From S2P Require Import Prelude ListPool SkipList SkipListInv BookSpec OrderBook Types Pools Engine.
From S2P Require Import MatchSpec EngineInv EngineMatch EngineOps EnginePlace.

#[local] Open Scope Z_scope.

(** ** The specification of a command *)

Inductive command :=
| Place (now_ns : Z) (order : Order)
| Cancel (now_ns : Z) (order_id : Z).

Inductive outcome :=
| Placed (r : result PlaceOrderResult MatchingEngineError)
| CancelledAs (r : result CancelOrderResult MatchingEngineError).

Definition spec_place_checked (capacity : nat) (L : market) (order : Order)
  : market * result PlaceOrderResult MatchingEngineError :=
  match Engine.validate_order order with
  | Err x => (L, Err x)
  | Ok _ =>
      if decide (o_id order ∈ o_id <$> resting L) then (L, Err (DuplicateOrderId (o_id order)))
      else if Nat.leb capacity (length (resting L)) then (L, Err OrderPoolExhausted)
      else let '(L', r) := spec_place L order in (L', Ok r)
  end.

Definition find_order (id : Z) (L : market) : option Order :=
  List.find (fun o => Z.eqb (o_id o) id) (resting L).

Definition spec_cancel (L : market) (id : Z) : market * result CancelOrderResult MatchingEngineError :=
  match find_order id L with
  | None => (L, Err OrderNotFound)
  | Some o => (upd L (o_side o) (remove_order id (L (o_side o))),
               Ok (mkCancelOrderResult id (remaining o)))
  end.

Definition spec_exec (capacity : nat) (L : market) (c : command) : market * outcome :=
  match c with
  | Place _ order => let '(L', r) := spec_place_checked capacity L order in (L', Placed r)
  | Cancel _ id => let '(L', r) := spec_cancel L id in (L', CancelledAs r)
  end.

Fixpoint spec_run (capacity : nat) (L : market) (cs : list command) : market * list outcome :=
  match cs with
  | [] => (L, [])
  | c :: cs =>
      let '(L, r) := spec_exec capacity L c in
      let '(L, rs) := spec_run capacity L cs in (L, r :: rs)
  end.

(** ** The engine on a command *)

Section exec.
Context {B : Type} {OB : OrderBook B} {RB : Rtrb}.

Definition exec (c : command) : M (MatchingEngine B) MatchingEngineError outcome :=
  match c with
  | Place now_ns order => r ← attempt (Engine.place_order now_ns order); mret (Placed r)
  | Cancel now_ns id => r ← attempt (Engine.cancel_order now_ns id); mret (CancelledAs r)
  end.

Fixpoint run (cs : list command) : M (MatchingEngine B) MatchingEngineError (list outcome) :=
  match cs with
  | [] => mret []
  | c :: cs => r ← exec c; rs ← run cs; mret (r :: rs)
  end.
End exec.

(** ** Cancellation, abstractly *)

Lemma orders_of_split o l : o ∈ orders_of l ->
  exists A p X Y C, l = A ++ (p, X ++ o :: Y) :: C.
Proof.
  induction l as [|[p os] l IH]; [set_solver|]. rewrite orders_of_cons, elem_of_app.
  intros [(X & Y & ->)%list_elem_of_split|Ho].
  - by exists [], p, X, Y, l.
  - destruct (IH Ho) as (A & q & X & Y & C & ->). by exists ((p, os) :: A), q, X, Y, C.
Qed.

Lemma filter_others (X : list Order) id : id ∉ o_id <$> X -> filter (fun o => o_id o <> id) X = X.
Proof.
  induction X as [|x X IH]; [done|]. simpl. intros Hid.
  rewrite filter_cons_True by set_solver. f_equal. apply IH. set_solver.
Qed.

Lemma remove_order_split A p X o Y C : NoDup (o_id <$> orders_of (A ++ (p, X ++ o :: Y) :: C)) ->
  remove_order (o_id o) (A ++ (p, X ++ o :: Y) :: C) = A ++ put_level p (X ++ Y) C.
Proof.
  induction A as [|[q os] A IH]; simpl; rewrite orders_of_cons, fmap_app.
  - rewrite fmap_app, fmap_cons, <- app_assoc. intros Hnd.
    rewrite decide_True by set_solver. f_equal.
    apply NoDup_app in Hnd as (_ & Hd & [Hn _]%NoDup_cons).
    rewrite filter_app, filter_cons_False by by intros H.
    rewrite !filter_others; [done|set_solver|]. intros Hx. apply (Hd _ Hx). set_solver.
  - intros (_ & Hd & Hnd)%NoDup_app. rewrite decide_False.
    + by rewrite IH.
    + intros Hin. apply (Hd _ Hin). apply list_elem_of_fmap_2.
      rewrite orders_of_app, orders_of_cons, !elem_of_app, elem_of_cons. tauto.
Qed.

Lemma remove_volume id l : Forall live (orders_of l) ->
  volume (orders_of (remove_order id l)) <= volume (orders_of l).
Proof.
  induction l as [|[p os] l IH]; [done|]. rewrite orders_of_cons. intros [Hos Hl]%Forall_app.
  simpl. destruct (decide _).
  - rewrite orders_of_put, !volume_app. clear IH. induction Hos as [|o os Ho _ IHo]; [done|].
    unfold live in Ho. simpl in *. destruct (decide (o_id o = id)) as [He|Hne].
    + rewrite filter_cons_False by tauto.
      destruct (decide (id ∈ o_id <$> os)); [specialize (IHo e0); lia|].
      rewrite filter_others by done. lia.
    + rewrite filter_cons_True by done. simpl.
      enough (volume (filter (fun o => o_id o <> id) os) <= volume os) by lia.
      assert (id ∈ o_id <$> os) by set_solver. specialize (IHo H). lia.
  - rewrite orders_of_cons, !volume_app. specialize (IH Hl). lia.
Qed.

Lemma find_order_Some id L o : NoDup (o_id <$> resting L) -> o ∈ resting L -> o_id o = id ->
  find_order id L = Some o.
Proof.
  unfold find_order. intros Hnd Hin <-. induction (resting L) as [|x l IH]; [set_solver|]. simpl.
  simpl in Hnd. apply NoDup_cons in Hnd as [Hx Hnd]. apply elem_of_cons in Hin as [->|Hin].
  - by rewrite Z.eqb_refl.
  - destruct (Z.eqb_spec (o_id x) (o_id o)) as [He|_]; [|by apply IH].
    destruct Hx. rewrite He. by apply list_elem_of_fmap_2.
Qed.

Lemma find_order_inv id L o : find_order id L = Some o -> o ∈ resting L /\ o_id o = id.
Proof.
  intros Hf. apply find_some in Hf as [Hin He]. split; [by apply list_elem_of_In|by apply Z.eqb_eq].
Qed.

Section runs.
Context {B : Type} {OB : OrderBook B} {LAWS : OrderBookLaws B} {RB : Rtrb}.
Implicit Types (e : MatchingEngine B) (L : market).

Lemma wf_own_side e L T o : wf e L T -> o ∈ resting L -> o ∈ orders_of (L (o_side o)).
Proof.
  intros W. unfold resting. rewrite elem_of_app.
  assert (forall s, o ∈ orders_of (L s) -> o_side o = s) as Hs.
  { intros s (A & p & X & Y & C & HL)%orders_of_split.
    by apply (wf_order _ _ _ _ _ _ _ _ _ _ W HL). }
  intros [H|H]; rewrite (Hs _ H); done.
Qed.

Lemma cancel_order_ok sample e L id o :
  wf e L [] -> all_live L -> find_order id L = Some o ->
  exists e', Engine.cancel_order_inner id sample e =
      Some (e', Ok (mkCancelOrderResult id (remaining o))) /\
    wf e' (spec_cancel L id).1 [] /\ caps e' = caps e.
Proof.
  intros W Hl Hf. destruct (find_order_inv _ _ _ Hf) as [Hin <-].
  unfold spec_cancel. rewrite Hf. cbn [fst].
  destruct (orders_of_split _ _ (wf_own_side _ _ _ _ W Hin)) as (A & p & X & Y & C & HL).
  destruct (wf_order _ _ _ _ _ _ _ _ _ _ W HL) as (_ & _ & _ & Hsane & _).
  destruct (wf_lookup _ _ _ _ W Hin) as (idx & Hidx & Hobj).
  destruct (remove_from_book_ok _ _ _ _ _ _ _ _ _ _ W HL) as (e1 & Hr & W1 & Hm1).
  assert (remove_order (o_id o) (L (o_side o)) = A ++ put_level p (X ++ Y) C) as ->.
  { rewrite HL. apply remove_order_split. rewrite <- HL. pose proof (w_ids _ _ _ W) as Hnd.
    rewrite (resting_side L (o_side o)), fmap_app in Hnd. by apply NoDup_app in Hnd as [? _]. }
  assert (Order.is_filled o = false) as Hnf.
  { unfold Order.is_filled. rewrite (sane_remaining _ Hsane). apply Z.leb_gt.
    unfold all_live in Hl. rewrite Forall_forall in Hl. by apply Hl. }
  assert (exists d, match sample with
    | Some now_ns => Engine.maybe_sample_depth now_ns | None => mret () end (Engine.e_forget e1 (o_id o)) =
    Some (Engine.e_set_sampling (Engine.e_forget e1 (o_id o)) d, Ok ())) as [d Hd].
  { destruct sample; [by eapply maybe_sample_depth_ok|]. eexists. by rewrite set_sampling_id. }
  exists (Engine.e_set_sampling (Engine.e_forget e1 (o_id o)) d). split_and!; [|by apply wf_sampling|].
  - unfold Engine.cancel_order_inner. run_step. rewrite Hidx. run_step. run_step.
    unfold ObjectPool.get. rewrite Hobj. run_step. rewrite Hnf. run_by (exact Hr).
    run_step. run_step. run_by (exact Hd). by rewrite (sane_remaining _ Hsane).
  - unfold meta in Hm1. change (caps (Engine.e_forget e1 (o_id o)) = caps e). congruence.
Qed.

Lemma cancel_missing_ok sample e L id : wf e L [] -> find_order id L = None ->
  Engine.cancel_order_inner id sample e = Some (e, Err OrderNotFound).
Proof.
  intros W Hf. assert (e_orders e !! id = None) as Hn.
  { destruct (e_orders e !! id) eqn:E; [|done].
    assert (id ∈ o_id <$> resting L) as (o & -> & Ho)%list_elem_of_fmap.
    { apply (w_dom _ _ _ W). by rewrite E. }
    rewrite (find_order_Some (o_id o) L o (w_ids _ _ _ W) Ho eq_refl) in Hf. done. }
  unfold Engine.cancel_order_inner. run_step. rewrite Hn. done.
Qed.

(** ** Runs *)

(** A market that an engine of [n] order slots and [m] list slots per side holds. *)
Record good (n m : nat) e L : Prop := {
  gd_wf : wf e L [];
  gd_live : all_live L;
  gd_uncrossed : uncrossed L;
  gd_slots : length (op_objects (pl_orders (e_pools e))) = n;
  gd_lists s : ob_capacity (Engine.e_book e s) = m;
  gd_queues : ObjectPool.available_count (pl_queues (e_pools e)) = Z.of_nat m
}.

Lemma good_caps n m e e' L L' : good n m e L -> wf e' L' [] -> all_live L' -> uncrossed L' ->
  caps e' = caps e -> good n m e' L'.
Proof.
  intros [] W Hl Hu Hc. split; try done.
  - by destruct (caps_book _ _ Buy Hc) as [_ ->].
  - intros s. by destruct (caps_book _ _ s Hc) as [-> _].
  - unfold caps in Hc. congruence.
Qed.

Lemma wf_sorted e L T : wf e L T -> sorted_market L.
Proof. intros W s. destruct (w_side _ _ _ W s) as [HR Ho _ _]. rewrite <- Ho. by apply law_sorted. Qed.

Lemma good_new n m : Z.of_nat n <= u64_max -> Z.of_nat m <= u64_max ->
  good n m (Engine.new (mkPoolConfig n m) : MatchingEngine B) (fun _ => []).
Proof.
  intros Hn Hm. destruct (law_new Descending m Hm) as (HB & HBo & HBc & HBp).
  destruct (law_new Ascending m Hm) as (HS & HSo & HSc & HSp). split.
  - split; try done.
    + intros []; split; simpl; rewrite ?HBc, ?HSc; done.
    + simpl. constructor.
    + intros o Ho. apply elem_of_nil in Ho. done.
    + intros id [x Hx]. simpl in Hx. by rewrite lookup_empty in Hx.
    + simpl. rewrite map_to_list_empty. apply objpool_new. lia.
    + apply objpool_new. simpl. lia.
    + intros i t Hit. set_solver.
    + simpl. by rewrite !length_replicate.
  - constructor.
  - intros pb pa Hpb. set_solver.
  - simpl. by rewrite length_replicate.
  - by intros [].
  - simpl. rewrite (objpool_available _ []) by by apply objpool_new. simpl.
    rewrite length_replicate. lia.
Qed.

(** Lots that the commands may still add to the book. *)
Definition command_lots (c : command) : Z :=
  match c with Place _ order => Z.max 0 (o_quantity_lots order) | Cancel _ _ => 0 end.
Definition total_lots (cs : list command) : Z := foldr (fun c v => command_lots c + v) 0 cs.

Definition command_ok (c : command) : Prop :=
  match c with Place _ order => o_filled_lots order = 0 | Cancel _ _ => True end.

Lemma room_placeable n m e L order : good n m e L -> o_filled_lots order = 0 ->
  volume (resting L) + o_quantity_lots order <= i64_max ->
  Engine.validate_order order = Ok () -> o_id order ∉ o_id <$> resting L ->
  (length (resting L) < n)%nat -> (length (orders_of (L (o_side order))) < m)%nat ->
  placeable e L order.
Proof.
  intros G Hf Hv Hval Hid Hlen Hroom. pose proof (live_side L Buy (gd_live _ _ _ _ G)) as HB.
  pose proof (live_side L Sell (gd_live _ _ _ _ G)) as HS.
  pose proof (volume_nonneg _ HB). pose proof (volume_nonneg _ HS).
  unfold resting in Hv. rewrite volume_app in Hv. split; try done.
  - lia.
  - unfold has_slot. by rewrite (gd_slots _ _ _ _ G).
  - rewrite (gd_queues _ _ _ _ G). lia.
  - intros _. by rewrite (gd_lists _ _ _ _ G).
  - intros []; lia.
Qed.

(** With list pools at least as large as the order pool, a free order slot is
    enough. *)
Lemma good_placeable n m e L order : good n m e L -> (n <= m)%nat -> o_filled_lots order = 0 ->
  volume (resting L) + o_quantity_lots order <= i64_max ->
  Engine.validate_order order = Ok () -> o_id order ∉ o_id <$> resting L ->
  (length (resting L) < n)%nat -> placeable e L order.
Proof.
  intros G Hnm Hf Hv Hval Hid Hlen. eapply room_placeable; try done.
  unfold resting in Hlen. rewrite length_app in Hlen. destruct (o_side order); lia.
Qed.

Lemma place_good n m now_ns e L order : good n m e L -> placeable e L order ->
  exists e', Engine.place_order now_ns order e = Some (e', Ok (spec_place L order).2) /\
    good n m e' (spec_place L order).1.
Proof.
  intros G HP. pose proof (gd_wf _ _ _ _ G) as W. pose proof (gd_live _ _ _ _ G) as Hl.
  pose proof (placeable_pos _ _ _ HP) as Hpos. pose proof (pl_width _ _ _ HP) as Hwd.
  destruct (place_order_ok now_ns _ _ _ W Hl HP) as (e' & He & W' & Hl' & Hc' & _).
  destruct (match_refines e L order W Hl (pl_fresh _ _ _ HP)) as (em & _ & Wm & _); [lia|].
  exists e'. split; [done|]. eapply good_caps; try done.
  apply uncrossed_place; [by eapply wf_sorted|by eapply wf_sorted|done|apply G|lia].
Qed.

Lemma place_checked_ok n m now_ns e L order : good n m e L -> (n <= m)%nat ->
  o_filled_lots order = 0 -> volume (resting L) + Z.max 0 (o_quantity_lots order) <= i64_max ->
  exists e', Engine.place_order now_ns order e = Some (e', (spec_place_checked n L order).2) /\
    good n m e' (spec_place_checked n L order).1 /\
    volume (resting (spec_place_checked n L order).1) <=
      volume (resting L) + Z.max 0 (o_quantity_lots order).
Proof.
  intros G Hnm Hf Hv. pose proof (gd_wf _ _ _ _ G) as W. unfold spec_place_checked.
  destruct (Engine.validate_order order) as [[]|x] eqn:Hval.
  2:{ exists e. cbn [fst snd]. split_and!; [|done|lia]. unfold Engine.place_order, Engine.check_valid.
      rewrite Hval. by erewrite bind_err. }
  destruct (decide (o_id order ∈ o_id <$> resting L)) as [Hd|Hd].
  { exists e. cbn [fst snd]. split_and!; [|done|lia]. unfold Engine.place_order, Engine.check_valid.
    rewrite Hval. run_step. run_step. by rewrite (wf_contains _ _ _ _ W), bool_decide_true. }
  destruct (Nat.leb_spec n (length (resting L))) as [Hle|Hlt].
  { exists e. cbn [fst snd]. split_and!; [|done|lia]. unfold Engine.place_order, Engine.check_valid.
    rewrite Hval. run_step. run_step. rewrite (wf_contains _ _ _ _ W), bool_decide_false by done.
    run_step. unfold Pools.has_space_for_order. rewrite (objpool_available _ _ (w_pool _ _ _ W)).
    rewrite length_fmap, (wf_count _ _ _ W), (gd_slots _ _ _ _ G).
    by rewrite (proj2 (Z.ltb_ge _ _)) by lia. }
  assert (placeable e L order) as HP by (eapply good_placeable; try done; lia).
  pose proof (placeable_pos _ _ _ HP) as Hpos. destruct (place_good _ _ now_ns _ _ _ G HP) as (e' & He & G').
  pose proof (volume_place L order (gd_live _ _ _ _ G) ltac:(lia) Hf) as Hvol.
  destruct (spec_place L order) as [L' r]. cbn [fst snd] in *. exists e'. split_and!; [done|done|lia].
Qed.

Lemma remove_order_sub id l : (forall p, p ∈ (remove_order id l).*1 -> p ∈ l.*1) /\
  (forall o, o ∈ orders_of (remove_order id l) -> o ∈ orders_of l).
Proof.
  induction l as [|[q os] l [IH1 IH2]]; [done|]. simpl. destruct (decide _).
  - split; intros x.
    + destruct (filter _ os); simpl; set_solver.
    + rewrite orders_of_put, orders_of_cons, !elem_of_app, list_elem_of_filter. tauto.
  - rewrite !orders_of_cons. split; [set_solver|]. intros o. rewrite !elem_of_app. naive_solver.
Qed.

Lemma cancel_checked_ok n m now_ns e L id : good n m e L ->
  exists e', Engine.cancel_order now_ns id e = Some (e', (spec_cancel L id).2) /\
    good n m e' (spec_cancel L id).1 /\ volume (resting (spec_cancel L id).1) <= volume (resting L).
Proof.
  intros G. pose proof (gd_wf _ _ _ _ G) as W. unfold Engine.cancel_order.
  destruct (find_order id L) as [o|] eqn:Hf.
  2:{ exists e. rewrite (cancel_missing_ok _ _ _ _ W Hf). unfold spec_cancel. by rewrite Hf. }
  destruct (cancel_order_ok (Some now_ns) _ _ _ _ W (gd_live _ _ _ _ G) Hf) as (e' & He & W' & Hc).
  exists e'. revert W'. unfold spec_cancel. rewrite Hf. cbn [fst snd]. intros W'.
  destruct (remove_order_sub id (L (o_side o))) as [Hp Ho].
  assert (Forall live (orders_of (remove_order id (L (o_side o))))) as Hlive.
  { pose proof (live_side L (o_side o) (gd_live _ _ _ _ G)) as Hls. rewrite Forall_forall in *. auto. }
  split_and!; [done| |].
  - eapply good_caps; try done; [by apply live_upd; [apply G|]|].
    apply uncrossed_shrink; [apply G|done].
  - rewrite resting_upd, (resting_side L (o_side o)), !volume_app.
    enough (volume (orders_of (remove_order id (L (o_side o)))) <= volume (orders_of (L (o_side o)))) by lia.
    apply remove_volume. apply live_side, G.
Qed.
End runs.
