(* ===== verification/EngineFacts.v ===== *)
(** Facts behind the guarantees of EngineProps: accepted placements inverted to
    the specification, and what the specification does to fills, quantities,
    priorities and best prices. *)
From Stdlib Require Import ZArith Lia.
From stdpp Require Import base numbers list gmap sorting.
From S2P Require Import Prelude ListPool SkipList SkipListInv BookSpec OrderBook Types.
From S2P Require Import Pools Engine MatchSpec EngineInv EngineMatch EngineOps EnginePlace.
From S2P Require Import EngineRun.

#[local] Open Scope Z_scope.

(** ** Placements, inverted *)

Section props.
Context {B : Type} {OB : OrderBook B} {LAWS : OrderBookLaws B} {RB : Rtrb}.
Implicit Types (e : MatchingEngine B) (L : market).

Lemma run_good n m cs : forall e L, (n <= m)%nat -> good n m e L -> Forall command_ok cs ->
  volume (resting L) + total_lots cs <= i64_max ->
  exists e', run cs e = Some (e', Ok (spec_run n L cs).2) /\ good n m e' (spec_run n L cs).1.
Proof.
  induction cs as [|c cs IH]; intros e L Hnm G Hok Hv; [by exists e|].
  apply Forall_cons in Hok as [Hc Hcs]. simpl in Hv.
  assert (0 <= total_lots cs) as Hpos.
  { clear. induction cs as [|[now o|now id] cs IH]; simpl; lia. }
  cbn [run]. assert (exists e1, exec c e = Some (e1, Ok (spec_exec n L c).2) /\
    good n m e1 (spec_exec n L c).1 /\
    volume (resting (spec_exec n L c).1) <= volume (resting L) + command_lots c) as (e1 & He & G1 & Hv1).
  { destruct c as [now order|now id]; simpl in *.
    - destruct (place_checked_ok n m now e L order G Hnm Hc) as (e1 & He & G1 & Hv1); [lia|].
      exists e1. unfold attempt. destruct (spec_place_checked n L order) as [L1 r]. simpl in *.
      split_and!; [|done..]. by run_by (rewrite He; reflexivity).
    - destruct (cancel_checked_ok n m now e L id G) as (e1 & He & G1 & Hv1).
      exists e1. unfold attempt. destruct (spec_cancel L id) as [L1 r]. simpl in *.
      split_and!; [|done|lia]. by run_by (rewrite He; reflexivity). }
  run_by (exact He). cbn [spec_run]. destruct (spec_exec n L c) as [L1 r]. simpl in G1, Hv1.
  destruct (IH e1 L1 Hnm G1 Hcs) as (e' & Hr & G'); [lia|]. run_by (exact Hr).
  destruct (spec_run n L1 cs) as [L2 rs]. by exists e'.
Qed.

(** The engine holds [L] and can account for [order]: nothing is said about
    whether it accepts it. *)
Record ready (n m : nat) e L (order : Order) : Prop := {
  rd_good : good n m e L;
  rd_caps : (n <= m)%nat;
  rd_unfilled : o_filled_lots order = 0;
  rd_volume : volume (resting L) + o_quantity_lots order <= i64_max
}.

(** A placement that the engine accepts is one of [spec_place]. *)
Lemma placed_inv n m now_ns e L order e' r :
  ready n m e L order -> Engine.place_order now_ns order e = Some (e', Ok r) ->
  0 < o_quantity_lots order /\ o_id order ∉ o_id <$> resting L /\
  r = (spec_place L order).2 /\ good n m e' (spec_place L order).1 /\ placeable e L order.
Proof.
  intros [G Hnm Hf Hv] Hp. pose proof (gd_wf _ _ _ _ G) as W.
  assert (0 < o_quantity_lots order) as Hpos.
  { unfold Engine.place_order, Engine.check_valid, Engine.validate_order in Hp.
    destruct (Z.leb_spec (o_quantity_lots order) 0); [|lia].
    destruct (negb _ && _); by erewrite bind_err in Hp. }
  destruct (place_checked_ok n m now_ns e L order G Hnm Hf) as (e1 & He & G1 & _); [lia|].
  rewrite He in Hp. injection Hp as <- Hr. revert G1 Hr. unfold spec_place_checked.
  destruct (Engine.validate_order order) as [[]|] eqn:Hval; [|done].
  destruct (decide _) as [|Hd]; [done|]. destruct (Nat.leb_spec n (length (resting L))); [done|].
  destruct (spec_place L order) as [L' r'] eqn:Hsp. simpl. intros G1 [= ->].
  split_and!; try done. eapply good_placeable; done || lia.
Qed.

(** ** Facts of the specification *)

Lemma add_order_back so o l : exists A os C,
  add_order so o l = A ++ (o_price_ticks o, os ++ [o]) :: C.
Proof.
  induction l as [|[q os] l (A & os' & C & IH)]; simpl; [by exists [], [], []|].
  destruct (Z.eqb_spec q (o_price_ticks o)) as [->|]; [by exists [], os, l|].
  destruct (decide _); [by exists [], [], ((q, os) :: l)|]. rewrite IH.
  by exists ((q, os) :: A), os', C.
Qed.

Lemma spec_rest_opp L o : spec_rest L o (opposite (o_side o)) = L (opposite (o_side o)).
Proof. unfold spec_rest. apply upd_other. by destruct (o_side o). Qed.

Lemma spec_match_served L order : all_live L ->
  served (priced (L (opposite (o_side order)))) (spec_match L order).2
    (priced ((spec_match L order).1 (opposite (o_side order)))).
Proof.
  intros Hl. unfold spec_match. destruct (sweep _ _ _) as [[fs l] rem] eqn:Hs. simpl.
  rewrite upd_same. eapply sweep_served; [|done]. by apply live_side.
Qed.

Lemma spec_place_served L order : all_live L ->
  served (priced (L (opposite (o_side order)))) (r_fills (spec_place L order).2)
    (priced ((spec_place L order).1 (opposite (o_side order)))).
Proof.
  intros Hl. pose proof (spec_match_served L order Hl) as Hs. rewrite spec_place_split. cbv zeta.
  destruct (o_is_market order); [done|]. destruct (o_time_in_force order); cbn [fst snd].
  - destruct (Z.ltb _ _); [|done]. change (opposite (o_side order)) with
      (opposite (o_side (Order.set_filled order (fill_sum (spec_match L order).2)))) at 2.
    by rewrite spec_rest_opp.
  - done.
  - destruct (Z.leb _ _); [done|constructor].
  - destruct (crosses L order); [constructor|]. cbn [r_fills fst snd]. rewrite spec_rest_opp. constructor.
Qed.

Lemma spec_place_sum L order : r_filled_lots (spec_place L order).2 = fill_sum (r_fills (spec_place L order).2).
Proof.
  rewrite spec_place_split. cbv zeta. destruct (o_is_market order); [done|].
  destruct (o_time_in_force order); try done; [by destruct (Z.leb _ _)|by destruct (crosses L order)].
Qed.

Lemma spec_place_fills L order : r_fills (spec_place L order).2 = (spec_match L order).2 \/
  r_fills (spec_place L order).2 = [].
Proof.
  rewrite spec_place_split. cbv zeta. destruct (o_is_market order); [by left|].
  destruct (o_time_in_force order);
    [by left|by left|destruct (Z.leb _ _); [by left|by right]|destruct (crosses L order); by right].
Qed.

Lemma spec_place_prices L order : all_live L ->
  Forall (fun f => accepts order f.1.2 = true /\ 0 < f.2) (r_fills (spec_place L order).2).
Proof.
  intros Hl. destruct (spec_place_fills L order) as [-> | ->]; [|done]. apply Forall_and. split.
  - unfold spec_match. destruct (sweep _ _ _) as [[fs l] rem] eqn:Hs. by eapply sweep_prices.
  - eapply served_positive; [|by apply spec_match_served]. unfold priced.
    pose proof (live_side L (opposite (o_side order)) Hl) as Hls. apply Forall_forall.
    intros [p o] Hpo. apply (proj1 (Forall_forall _ _) Hls). apply list_elem_of_bind in Hpo as ([q os] & Hpo & Hin).
    unfold priced_level in Hpo. apply list_elem_of_fmap in Hpo as (o' & [= <- <-] & Ho').
    unfold orders_of. rewrite list_elem_of_In, in_concat. exists os. rewrite <- !list_elem_of_In.
    split; [|done]. apply list_elem_of_fmap. by exists (p, os).
Qed.

(** *** Quantities *)

Lemma get_order_remaining e L id : wf e L [] ->
  Order.remaining_lots <$> Engine.get_order e id = remaining <$> find_order id L.
Proof.
  intros W. destruct (find_order id L) as [o|] eqn:Hf.
  - destruct (find_order_inv _ _ _ Hf) as [Hin <-]. rewrite (w_in _ _ _ W o Hin). simpl. f_equal.
    apply sane_remaining. destruct (orders_of_split _ _ (wf_own_side _ _ _ _ W Hin)) as (A & p & X & Y & C & HL).
    by apply (wf_order _ _ _ _ _ _ _ _ _ _ W HL).
  - pose proof (wf_contains _ _ _ id W) as Hc. rewrite bool_decide_false in Hc.
    + unfold Engine.contains_order, Engine.get_order in *. by destruct (e_orders e !! id).
    + intros (o & -> & Ho)%list_elem_of_fmap.
      by rewrite (find_order_Some _ _ _ (w_ids _ _ _ W) Ho eq_refl) in Hf.
Qed.

Lemma find_order_None id L : id ∉ o_id <$> resting L -> find_order id L = None.
Proof.
  intros Hid. destruct (find_order id L) as [o|] eqn:Hf; [|done].
  destruct (find_order_inv _ _ _ Hf) as [Hin <-]. destruct Hid. by apply list_elem_of_fmap_2.
Qed.

Lemma spec_match_fresh L order : o_id order ∉ o_id <$> resting L ->
  o_id order ∉ o_id <$> resting (spec_match L order).1.
Proof.
  intros Hid. unfold spec_match. destruct (sweep _ _ _) as [[fs l] rem] eqn:Hs. simpl.
  apply fresh_upd; [done|]. by eapply sweep_ids.
Qed.

Lemma spec_rest_find L o : NoDup (o_id <$> resting L) -> o_id o ∉ o_id <$> resting L ->
  find_order (o_id o) (spec_rest L o) = Some o.
Proof.
  intros Hnd Hid. unfold spec_rest.
  assert (resting (upd L (o_side o) (add_order (sort_order (o_side o)) o (L (o_side o)))) ≡ₚ
    o :: resting L) as Hp.
  { rewrite resting_upd, orders_of_add, (resting_side L (o_side o)). done. }
  apply find_order_Some; [|rewrite Hp; by left|done]. rewrite Hp. simpl. by apply NoDup_cons.
Qed.

Lemma spec_place_volume L order : all_live L -> 0 <= o_quantity_lots order ->
  NoDup (o_id <$> resting L) -> NoDup (o_id <$> resting (spec_match L order).1) ->
  o_id order ∉ o_id <$> resting L -> o_filled_lots order = 0 ->
  volume (resting (spec_place L order).1) + r_filled_lots (spec_place L order).2 =
    volume (resting L) + default 0 (remaining <$> find_order (o_id order) (spec_place L order).1).
Proof.
  intros Hl Hq Hnd Hnd' Hid Hf. pose proof (volume_match L order Hl Hq) as Hv.
  pose proof (spec_match_fresh L order Hid) as Hid'.
  assert (find_order (o_id order) (spec_match L order).1 = None) as Hn by by apply find_order_None.
  rewrite spec_place_split. cbv zeta. destruct (o_is_market order); [simpl; rewrite Hn; simpl; lia|].
  destruct (o_time_in_force order); cbn [fst snd taker_result r_filled_lots].
  - destruct (Z.ltb _ _); [|rewrite Hn; simpl; lia]. set (o' := Order.set_filled order _).
    change (o_id order) with (o_id o'). rewrite spec_rest_find, volume_rest by done.
    unfold o', remaining. simpl. unfold remaining. simpl. lia.
  - rewrite Hn. simpl. lia.
  - destruct (Z.leb _ _); simpl; [rewrite Hn; simpl; lia|]. rewrite find_order_None by done. simpl. lia.
  - destruct (crosses L order); simpl; [rewrite find_order_None by done; simpl; lia|].
    rewrite spec_rest_find, volume_rest by done. simpl. lia.
Qed.

(** *** Cancellation *)

Lemma filter_priced_level (p : Z) (os : list Order) id : id ∉ o_id <$> os ->
  filter (fun po => o_id po.2 <> id) (pair p <$> os) = pair p <$> os.
Proof.
  induction os as [|o os IH]; [done|]. simpl. intros Hid. rewrite filter_cons_True; [|set_solver].
  f_equal. apply IH. set_solver.
Qed.

Lemma priced_cons p os l : priced ((p, os) :: l) = (pair p <$> os) ++ priced l.
Proof. done. Qed.

Lemma filter_priced l id : id ∉ o_id <$> orders_of l ->
  filter (fun po => o_id po.2 <> id) (priced l) = priced l.
Proof.
  induction l as [|[p os] l IH]; [done|]. rewrite orders_of_cons, fmap_app, elem_of_app.
  intros Hid. rewrite priced_cons, filter_app, IH by tauto. by rewrite filter_priced_level by tauto.
Qed.

Lemma filter_level_pairs p (os : list Order) id :
  pair p <$> filter (fun o => o_id o <> id) os =
    filter (fun po : Z * Order => o_id po.2 <> id) (pair p <$> os).
Proof.
  induction os as [|o os IH]; [done|]. rewrite fmap_cons. destruct (decide (o_id o <> id)).
  - rewrite !filter_cons_True by done. by rewrite fmap_cons, IH.
  - by rewrite !filter_cons_False by done.
Qed.

Lemma priced_put p os l : priced (put_level p os l) = (pair p <$> os) ++ priced l.
Proof. by destruct os. Qed.

Lemma remove_order_priced id l : NoDup (o_id <$> orders_of l) ->
  priced (remove_order id l) = filter (fun po => o_id po.2 <> id) (priced l).
Proof.
  induction l as [|[p os] l IH]; [done|]. rewrite orders_of_cons, fmap_app.
  intros (_ & Hd & Hnd)%NoDup_app. cbn [remove_order]. rewrite priced_cons, filter_app. destruct (decide (id ∈ o_id <$> os)) as [Hin|Hn].
  - rewrite priced_put, filter_level_pairs, filter_priced; [done|]. by apply Hd.
  - by rewrite priced_cons, IH, filter_priced_level.
Qed.

Lemma resting_ids_side L s : NoDup (o_id <$> resting L) -> NoDup (o_id <$> orders_of (L s)) /\
  forall id, id ∈ o_id <$> orders_of (L s) -> id ∉ o_id <$> orders_of (L (opposite s)).
Proof. rewrite (resting_side L s), fmap_app, NoDup_app. naive_solver. Qed.

Lemma cancel_priced e L T o s : wf e L T -> o ∈ resting L ->
  priced (upd L (o_side o) (remove_order (o_id o) (L (o_side o))) s) =
    filter (fun po => o_id po.2 <> o_id o) (priced (L s)).
Proof.
  intros W Hin. destruct (resting_ids_side L (o_side o) (w_ids _ _ _ W)) as [Hnd Hdis].
  destruct (decide (s = o_side o)) as [->|Hs].
  - rewrite upd_same. by apply remove_order_priced.
  - rewrite upd_other by done. rewrite filter_priced; [done|].
    assert (s = opposite (o_side o)) as -> by by destruct s, (o_side o).
    apply Hdis. apply list_elem_of_fmap_2. by eapply wf_own_side.
Qed.

Lemma priced_orders l : snd <$> priced l = orders_of l.
Proof.
  induction l as [|[p os] l IH]; [done|]. rewrite priced_cons, fmap_app, IH, orders_of_cons.
  f_equal. rewrite <- list_fmap_compose. apply list_fmap_id.
Qed.

(** *** Best prices *)

Lemma best_price_head e L T s : wf e L T ->
  Engine.best_price_ticks e (bool_decide (s = Buy)) = Some (fst <$> head (L s)).
Proof.
  intros W. unfold Engine.best_price_ticks.
  assert ((if bool_decide (s = Buy) then e_buy_book e else e_sell_book e) = Engine.e_book e s) as ->
    by by destruct s.
  pose proof (law_best _ _ (w_book _ _ _ W s)) as Hb. destruct (L s) as [|[p os] l]; simpl in *.
  - by rewrite Hb.
  - destruct Hb as (lvl & -> & <- & _). done.
Qed.

Lemma best_price_in e L T s p : wf e L T ->
  Engine.best_price_ticks e (bool_decide (s = Buy)) = Some (Some p) -> p ∈ (L s).*1.
Proof.
  intros W. rewrite (best_price_head _ _ _ s W). destruct (L s) as [|[q os] l]; [done|].
  simpl. intros [= ->]. by left.
Qed.

(** *** Batches of cancellations *)

Fixpoint spec_cancel_all (L : market) (ids : list Z) : market * list (Z * Z) :=
  match ids with
  | [] => (L, [])
  | id :: ids =>
      let '(L1, r) := spec_cancel L id in
      let '(L2, rs) := spec_cancel_all L1 ids in
      (L2, match r with Ok r => (id, c_cancelled_quantity r) :: rs | Err _ => rs end)
  end.

Lemma cancel_each_ok n m ids : forall e L, good n m e L ->
  exists e', Engine.cancel_each ids e = Some (e', Ok (spec_cancel_all L ids).2) /\
    good n m e' (spec_cancel_all L ids).1.
Proof.
  induction ids as [|id ids IH]; intros e L G; [by exists e|]. pose proof (gd_wf _ _ _ _ G) as W.
  assert (exists e1, Engine.cancel_order_inner id None e = Some (e1, (spec_cancel L id).2) /\
    good n m e1 (spec_cancel L id).1) as (e1 & He & G1).
  { destruct (find_order id L) as [o|] eqn:Hf.
    - destruct (cancel_order_ok None e L id o W (gd_live _ _ _ _ G) Hf) as (e1 & He & W1 & Hc).
      destruct (cancel_checked_ok n m 0 e L id G) as (e2 & _ & G2 & _).
      exists e1. rewrite He. split; [by unfold spec_cancel; rewrite Hf|].
      eapply good_caps; [exact G|done|apply G2|apply G2|done].
    - exists e. rewrite (cancel_missing_ok _ _ _ _ W Hf). unfold spec_cancel. by rewrite Hf. }
  cbn [Engine.cancel_each spec_cancel_all]. run_by (unfold attempt; rewrite He; reflexivity).
  destruct (spec_cancel L id) as [L1 r]. cbn [fst snd] in *.
  destruct (IH e1 L1 G1) as (e' & Hr & G'). run_by (exact Hr).
  destruct (spec_cancel_all L1 ids) as [L2 rs]. by exists e'.
Qed.

(** *** Placing then cancelling *)

Lemma remove_add so o l : o_id o ∉ o_id <$> orders_of l -> Forall (fun q => q.2 <> []) l ->
  remove_order (o_id o) (add_order so o l) = l.
Proof.
  intros Hid Hne. induction l as [|[q os] l IH].
  { simpl. rewrite decide_True by set_solver. by rewrite filter_cons_False by by intros H. }
  rewrite orders_of_cons, fmap_app, elem_of_app in Hid. apply Forall_cons in Hne as [Hq Hne].
  cbn [add_order]. destruct (Z.eqb q (o_price_ticks o)); [|destruct (decide _)]; cbn [remove_order].
  - rewrite decide_True by (rewrite fmap_app; set_solver).
    rewrite filter_app, filter_others by tauto. rewrite filter_cons_False by by intros H.
    rewrite app_nil_r. by destruct os.
  - rewrite decide_True by set_solver. by rewrite filter_cons_False by by intros H.
  - rewrite decide_False by tauto. by rewrite IH by tauto.
Qed.

Lemma good_ext n m e L L' : (forall s, L' s = L s) -> good n m e L -> good n m e L'.
Proof.
  intros HL [W Hl Hu ? ? ?]. assert (resting L' = resting L) as HR by (unfold resting; by rewrite !HL).
  split; try done; [by eapply wf_ext|unfold all_live; by rewrite HR|]. intros pb pa. rewrite !HL. apply Hu.
Qed.

Lemma available_uncrossed L order : crosses L order = false -> o_is_market order = false ->
  sweep (accepts order) (o_quantity_lots order) (L (opposite (o_side order))) =
    ([], L (opposite (o_side order)), o_quantity_lots order).
Proof.
  unfold crosses. intros Hc Hm. destruct (L (opposite (o_side order))) as [|[p os] l]; [done|].
  simpl. assert (accepts order p = false) as ->.
  { unfold accepts, Engine.price_matches. rewrite Hm. by destruct (o_side order). }
  by rewrite orb_true_r.
Qed.

(** An order that crosses nothing is rested as it is. *)
Lemma spec_place_quiet L order : crosses L order = false -> o_is_market order = false ->
  0 < o_quantity_lots order -> o_filled_lots order = 0 ->
  o_time_in_force order = GTC \/ o_time_in_force order = PostOnly ->
  (forall s, (spec_place L order).1 s = spec_rest L order s) /\
  (spec_place L order).2 = mkPlaceOrderResult (o_id order) 0 Accepted [].
Proof.
  intros Hc Hm Hq Hf Ht. rewrite spec_place_split, Hm. cbv zeta.
  assert (spec_match L order = (upd L (opposite (o_side order)) (L (opposite (o_side order))), [])) as Hs.
  { unfold spec_match. by rewrite available_uncrossed. }
  destruct Ht as [-> | ->]; [|by rewrite Hc]. rewrite Hs. cbn [fst snd fill_sum foldr].
  unfold taker_result. cbn [fill_sum foldr].
  rewrite (proj2 (Z.ltb_lt _ _) Hq), (proj2 (Z.leb_gt _ _) Hq). split; [|done].
  assert (Order.set_filled order 0 = order) as -> by (destruct order; simpl in *; by subst).
  intros s. unfold spec_rest, upd. by destruct s, (o_side order).
Qed.
End props.
