(* ===== verification/EngineProps.v ===== *)
(** The guarantees of the matching engine, stated on its own operations for any
    book that satisfies the laws of the interface, with witnesses on the skip
    list. *)
From Stdlib Require Import ZArith Lia.
From stdpp Require Import base numbers list gmap sorting.
From S2P Require Import Prelude ListPool SkipList SkipListInv BookSpec OrderBook SkipListBook Types.
From S2P Require Import Pools Engine MatchSpec EngineInv EngineMatch EngineOps EnginePlace.
From S2P Require Import EngineRun EngineFacts.

#[local] Open Scope Z_scope.

(** ** A concrete ring buffer and a concrete engine, for the witnesses *)

(** A ring with unbounded room. *)
#[global] Instance vec_ring : Rtrb := {|
  Producer := list;
  push := fun T p x => (p ++ [x], Ok ());
  write_chunk := fun T d p n => Ok (replicate n d, []);
  commit := fun T p s1 s2 n => p ++ take n (s1 ++ s2)
|}.

(** Two asks at 100, one at 101, one bid at 99. *)
Definition demo_commands : list command :=
  [Place 0 (Order.new 1 Sell 100 5 GTC 1); Place 0 (Order.new 2 Sell 101 4 GTC 2);
   Place 0 (Order.new 3 Sell 100 3 GTC 3); Place 0 (Order.new 4 Buy 99 7 GTC 4)].

Definition demo_engine : MatchingEngine SkipList :=
  match run demo_commands (Engine.new (mkPoolConfig 8 8)) with
  | Some (e, _) => e
  | None => Engine.new (mkPoolConfig 8 8)
  end.

Definition demo_market : market := (spec_run 8 (fun _ => []) demo_commands).1.

Lemma demo_good : good 8 8 demo_engine demo_market.
Proof.
  destruct (run_good 8 8 demo_commands (Engine.new (mkPoolConfig 8 8)) (fun _ => []))
    as (e & He & G); [lia|by apply good_new|by repeat constructor|done|].
  unfold demo_engine. by rewrite He.
Qed.

(** The engine after one more order. *)
Definition demo_after (order : Order) : MatchingEngine SkipList :=
  match Engine.place_order 0 order demo_engine with Some (e, _) => e | None => demo_engine end.

Lemma demo_ready order : o_filled_lots order = 0 ->
  volume (resting demo_market) + o_quantity_lots order <= i64_max ->
  ready 8 8 demo_engine demo_market order.
Proof. intros Hf Hv. split; [apply demo_good|lia|done|done]. Qed.

(** Discharge [ready] and the evaluation of a placement on the demo engine. *)
Ltac demo_ready_tac := solve [apply demo_ready; [reflexivity|by vm_compute]].
Ltac demo_eval := solve [vm_compute; reflexivity].

(** A second engine, of four order slots but one list slot per side: one ask at
    100, one bid at 90, so that both list pools are full. *)
Definition tight_market : market :=
  (spec_place (spec_place (fun _ => []) (Order.new 1 Sell 100 5 GTC 1)).1 (Order.new 2 Buy 90 5 GTC 2)).1.

Lemma tight_good : exists e : MatchingEngine SkipList, good 4 1 e tight_market.
Proof.
  pose proof (good_new (B := SkipList) 4 1 ltac:(by vm_compute) ltac:(by vm_compute)) as G0.
  destruct (place_good 4 1 0 _ _ (Order.new 1 Sell 100 5 GTC 1) G0) as (e1 & _ & G1).
  { eapply room_placeable; try done; [set_solver|simpl; lia..]. }
  destruct (place_good 4 1 0 _ _ (Order.new 2 Buy 90 5 GTC 2) G1) as (e2 & _ & G2); [|by exists e2].
  eapply room_placeable; try done; [rewrite list_elem_of_In; vm_compute; intuition discriminate|vm_compute; lia..].
Qed.

Section claims.
Context {B : Type} {OB : OrderBook B} {LAWS : OrderBookLaws B} {RB : Rtrb}.
Implicit Types (e : MatchingEngine B) (L : market).

(** C1: any sequence of placements and cancellations, valid or not, run on a
    fresh engine whose list pools are at least as large as its order pool, never
    panics, terminates, returns result for result what the specification
    returns, and ends in an uncrossed, well-formed engine that holds exactly the
    orders of the specification. *)
Theorem run_refines_spec n m cs :
  (n <= m)%nat -> Z.of_nat m <= u64_max -> Forall command_ok cs -> total_lots cs <= i64_max ->
  exists e, run cs (Engine.new (mkPoolConfig n m)) = Some (e, Ok (spec_run n (fun _ => []) cs).2) /\
    good n m e (spec_run n (fun _ => []) cs).1.
Proof.
  intros Hnm Hm Hok Hv. apply (run_good n m cs); [done|apply good_new; lia|done|]. simpl. lia.
Qed.

(** C15: price-time priority.  The fills of an accepted order serve the opposite
    side from the front of its price-time queue, each maker completely but
    possibly the last; every fill is positive and at a price the taker accepts;
    the reported filled quantity is their sum. *)
Theorem place_order_priority n m now_ns e L order e' r :
  ready n m e L order -> Engine.place_order now_ns order e = Some (e', Ok r) ->
  exists L', good n m e' L' /\
    served (priced (L (opposite (o_side order)))) (r_fills r)
      (priced (L' (opposite (o_side order)))) /\
    Forall (fun f => Engine.price_matches order f.1.2 = true /\ 0 < f.2) (r_fills r) /\
    r_filled_lots r = fill_sum (r_fills r).
Proof.
  intros R Hp. destruct (placed_inv _ _ _ _ _ _ _ _ R Hp) as (_ & _ & -> & G & _).
  pose proof (gd_live _ _ _ _ (rd_good _ _ _ _ _ R)) as Hl. eexists. split; [exact G|].
  split_and!; [by apply spec_place_served|by apply spec_place_prices|apply spec_place_sum].
Qed.

(** matching is exhaustive.  A market, IOC or GTC order trades the smaller of
    its quantity and the volume resting at the prices it accepts. *)
Theorem place_order_exhaustive n m now_ns e L order e' r :
  ready n m e L order -> Engine.place_order now_ns order e = Some (e', Ok r) ->
  o_is_market order = true \/ o_time_in_force order = IOC \/ o_time_in_force order = GTC ->
  r_filled_lots r =
    Z.min (o_quantity_lots order)
      (available (Engine.price_matches order) (L (opposite (o_side order)))).
Proof.
  intros R Hp Hkind. destruct (placed_inv _ _ _ _ _ _ _ _ R Hp) as (Hpos & _ & -> & _ & _).
  pose proof (live_side L (opposite (o_side order)) (gd_live _ _ _ _ (rd_good _ _ _ _ _ R))) as Hls.
  assert (r_filled_lots (spec_place L order).2 = fill_sum (spec_match L order).2) as ->.
  { rewrite spec_place_split. cbv zeta. destruct (o_is_market order); [done|].
    destruct (o_time_in_force order); naive_solver. }
  unfold spec_match. destruct (sweep _ _ _) as [[fs l] rem] eqn:Hs. simpl.
  eapply sweep_fills_min; [done|lia|done].
Qed.

(** fill-or-kill is all or nothing.  A FOK limit order is filled completely
    when the volume at acceptable prices suffices, and otherwise is rejected
    with the market untouched. *)
Theorem place_order_fok n m now_ns e L order e' r :
  ready n m e L order -> Engine.place_order now_ns order e = Some (e', Ok r) ->
  o_is_market order = false -> o_time_in_force order = FOK ->
  let v := available (Engine.price_matches order) (L (opposite (o_side order))) in
  (o_quantity_lots order <= v /\ r_status r = Filled /\ r_filled_lots r = o_quantity_lots order) \/
  (v < o_quantity_lots order /\ r = mkPlaceOrderResult (o_id order) 0 Rejected [] /\ good n m e' L).
Proof.
  intros R Hp Hm Ht v. destruct (placed_inv _ _ _ _ _ _ _ _ R Hp) as (Hpos & _ & -> & G & _).
  pose proof (live_side L (opposite (o_side order)) (gd_live _ _ _ _ (rd_good _ _ _ _ _ R))) as Hls.
  revert G. rewrite spec_place_split, Hm, Ht. cbv zeta. fold v.
  change (available (accepts order) _) with v.
  destruct (Z.leb_spec (o_quantity_lots order) v) as [Hle|Hlt]; intros G; [left|right; done].
  split_and!; [done..|]. simpl. unfold spec_match. destruct (sweep _ _ _) as [[fs l] rem] eqn:Hs. simpl.
  rewrite (sweep_fills_min _ _ _ _ _ _ Hls (Z.lt_le_incl _ _ Hpos) Hs). change (available (accepts order) _) with v. lia.
Qed.

(** a post-only order never takes liquidity.  It produces no fill; if it
    would cross the best opposite level it is rejected and the market is
    untouched, otherwise it is added at the back of the queue of its price. *)
Theorem place_order_post_only n m now_ns e L order e' r :
  ready n m e L order -> Engine.place_order now_ns order e = Some (e', Ok r) ->
  o_is_market order = false -> o_time_in_force order = PostOnly ->
  r_fills r = [] /\ r_filled_lots r = 0 /\
  if crosses L order then r_status r = Rejected /\ good n m e' L
  else r_status r = Accepted /\ good n m e' (spec_rest L order).
Proof.
  intros R Hp Hm Ht. destruct (placed_inv _ _ _ _ _ _ _ _ R Hp) as (_ & _ & -> & G & _).
  revert G. rewrite spec_place_split, Hm, Ht. cbv zeta. by destruct (crosses L order).
Qed.

(** market, IOC and FOK orders never rest in the book. *)
Theorem taker_never_rests n m now_ns e L order e' r :
  ready n m e L order -> Engine.place_order now_ns order e = Some (e', Ok r) ->
  o_is_market order = true \/ o_time_in_force order = IOC \/ o_time_in_force order = FOK ->
  Engine.contains_order e' (o_id order) = false /\ Engine.get_order e' (o_id order) = None.
Proof.
  intros R Hp Hkind. destruct (placed_inv _ _ _ _ _ _ _ _ R Hp) as (Hpos & Hid & _ & G & HP).
  assert (o_id order ∉ o_id <$> resting (spec_place L order).1) as Hn.
  { destruct (match_refines e L order (gd_wf _ _ _ _ (rd_good _ _ _ _ _ R))
      (gd_live _ _ _ _ (rd_good _ _ _ _ _ R)) Hid) as (? & _ & _ & _ & _ & Hm & _).
    { pose proof (pl_width _ _ _ HP). lia. }
    rewrite spec_place_split. cbv zeta. destruct (o_is_market order); [done|].
    destruct (o_time_in_force order); cbn [fst]; try done; [naive_solver| |naive_solver].
    by destruct (Z.leb _ _). }
  assert (Engine.contains_order e' (o_id order) = false) as Hc.
  { by rewrite (wf_contains _ _ _ _ (gd_wf _ _ _ _ G)), bool_decide_false. }
  split; [done|]. unfold Engine.contains_order, Engine.get_order in *.
  by destruct (e_orders e' !! o_id order).
Qed.

(** an unfilled GTC remainder rests.  After a GTC limit order that is not
    completely filled, the engine holds it under its id with exactly the reported
    filled quantity, at the back of the queue of its price. *)
Theorem gtc_rests_remainder n m now_ns e L order e' r :
  ready n m e L order -> Engine.place_order now_ns order e = Some (e', Ok r) ->
  o_is_market order = false -> o_time_in_force order = GTC ->
  r_filled_lots r < o_quantity_lots order ->
  let o' := Order.set_filled order (r_filled_lots r) in
  Engine.get_order e' (o_id order) = Some o' /\
  exists L' A os C, good n m e' L' /\
    L' (o_side order) = A ++ (o_price_ticks order, os ++ [o']) :: C.
Proof.
  intros R Hp Hm Ht Hlt o'. destruct (placed_inv _ _ _ _ _ _ _ _ R Hp) as (_ & _ & Hr & G & _).
  unfold o' in *. clear o'. rewrite Hr in *. revert Hlt G. rewrite spec_place_split, Hm, Ht.
  cbv zeta. cbn [fst snd taker_result r_filled_lots]. intros Hlt.
  rewrite (proj2 (Z.ltb_lt _ _) Hlt). set (o' := Order.set_filled order _). intros G.
  split.
  - change (o_id order) with (o_id o'). apply (w_in _ _ _ (gd_wf _ _ _ _ G)). unfold spec_rest.
    rewrite resting_upd, orders_of_add. set_solver.
  - eexists. destruct (add_order_back (sort_order (o_side o')) o' ((spec_match L order).1 (o_side o')))
      as (A & os & C & HA). exists A, os, C. split; [exact G|]. unfold spec_rest. by rewrite upd_same.
Qed.

(** conservation of lots.  What an accepted order takes off the market is
    exactly what it reports as filled: the resting volume after it, plus the
    filled quantity, is the volume before plus what is left of the order in the
    book. *)
Theorem place_order_conserves n m now_ns e L order e' r :
  ready n m e L order -> Engine.place_order now_ns order e = Some (e', Ok r) ->
  exists L', good n m e' L' /\
    volume (resting L') + r_filled_lots r =
      volume (resting L) + default 0 (Order.remaining_lots <$> Engine.get_order e' (o_id order)).
Proof.
  intros R Hp. destruct (placed_inv _ _ _ _ _ _ _ _ R Hp) as (Hpos & Hid & -> & G & HP).
  pose proof (gd_live _ _ _ _ (rd_good _ _ _ _ _ R)) as Hl.
  pose proof (gd_wf _ _ _ _ (rd_good _ _ _ _ _ R)) as W.
  destruct (match_refines e L order W Hl Hid) as (? & _ & Wm & _).
  { pose proof (pl_width _ _ _ HP). lia. }
  exists (spec_place L order).1. split; [done|].
  rewrite (get_order_remaining _ _ _ (gd_wf _ _ _ _ G)).
  apply spec_place_volume; [done|lia|apply W|apply Wm|done|apply R].
Qed.

(** C27: cancelling a resting order removes exactly it.  The engine returns its
    unfilled quantity, forgets the id, and leaves every other resting order as it
    is and in the same priority. *)
Theorem cancel_order_exact n m now_ns e L o :
  good n m e L -> o ∈ resting L ->
  exists e' L', Engine.cancel_order now_ns (o_id o) e =
      Some (e', Ok (mkCancelOrderResult (o_id o) (remaining o))) /\
    good n m e' L' /\ Engine.get_order e' (o_id o) = None /\
    forall s, priced (L' s) = filter (fun po => o_id po.2 <> o_id o) (priced (L s)).
Proof.
  intros G Hin. pose proof (gd_wf _ _ _ _ G) as W.
  pose proof (find_order_Some _ _ _ (w_ids _ _ _ W) Hin eq_refl) as Hf.
  destruct (cancel_checked_ok n m now_ns e L (o_id o) G) as (e' & He & G' & _).
  unfold spec_cancel in He, G'. rewrite Hf in He, G'. cbn [fst snd] in He, G'.
  pose proof (fun s => cancel_priced _ _ _ _ s W Hin) as Hp.
  eexists e', _. split_and!; [exact He|exact G'| |exact Hp].
  assert (Engine.contains_order e' (o_id o) = false) as Hc.
  { rewrite (wf_contains _ _ _ _ (gd_wf _ _ _ _ G')), bool_decide_false; [done|].
    unfold resting. rewrite <- !priced_orders, !Hp.
    intros (o' & Ho' & Hin')%list_elem_of_fmap. rewrite <- fmap_app, <- filter_app in Hin'.
    apply list_elem_of_fmap in Hin' as (po & -> & [? _]%list_elem_of_filter). done. }
  unfold Engine.contains_order, Engine.get_order in *. by destruct (e_orders e' !! o_id o).
Qed.

(** the market is never crossed.  After any run from a fresh engine, if both
    sides quote, the best bid is below the best ask. *)
Theorem run_uncrossed n m cs e rs b a :
  (n <= m)%nat -> Z.of_nat m <= u64_max -> Forall command_ok cs -> total_lots cs <= i64_max ->
  run cs (Engine.new (mkPoolConfig n m)) = Some (e, rs) ->
  Engine.best_price_ticks e true = Some (Some b) -> Engine.best_price_ticks e false = Some (Some a) ->
  b < a.
Proof.
  intros Hnm Hm Hok Hv Hrun Hb Ha.
  destruct (run_good n m cs _ _ Hnm (good_new n m ltac:(lia) Hm) Hok) as (e' & He & G); [simpl; lia|].
  rewrite He in Hrun. injection Hrun as -> _.
  apply (gd_uncrossed _ _ _ _ G).
  - by apply (best_price_in e _ [] Buy), Hb; apply G.
  - by apply (best_price_in e _ [] Sell), Ha; apply G.
Qed.

(** placing an order that crosses nothing and cancelling it is the
    identity on the market; the cancel returns the whole quantity. *)
Theorem place_cancel_roundtrip n m t1 t2 e L order :
  ready n m e L order -> Engine.validate_order order = Ok () ->
  o_id order ∉ o_id <$> resting L -> (length (resting L) < n)%nat ->
  o_is_market order = false -> crosses L order = false ->
  o_time_in_force order = GTC \/ o_time_in_force order = PostOnly ->
  exists e1 e2,
    Engine.place_order t1 order e = Some (e1, Ok (mkPlaceOrderResult (o_id order) 0 Accepted [])) /\
    Engine.cancel_order t2 (o_id order) e1 =
      Some (e2, Ok (mkCancelOrderResult (o_id order) (o_quantity_lots order))) /\
    good n m e2 L.
Proof.
  intros [G Hnm Hf Hv] Hval Hid Hlen Hm Hc Ht.
  assert (placeable e L order) as HP by by eapply good_placeable.
  pose proof (placeable_pos _ _ _ HP) as Hpos.
  destruct (spec_place_quiet L order Hc Hm Hpos Hf Ht) as [Hs1 Hs2].
  destruct (place_checked_ok n m t1 e L order G Hnm Hf) as (e1 & He1 & G1 & _); [lia|].
  unfold spec_place_checked in He1, G1. rewrite Hval in He1, G1.
  rewrite decide_False in He1, G1 by done. rewrite (proj2 (Nat.leb_gt _ _)) in He1, G1 by done.
  destruct (spec_place L order) as [L1 r]. cbn [fst snd] in *. subst r.
  apply (good_ext _ _ _ _ (spec_rest L order)) in G1; [|done].
  pose proof (spec_rest_find L order (w_ids _ _ _ (gd_wf _ _ _ _ G)) Hid) as Hfind.
  destruct (cancel_checked_ok n m t2 e1 _ (o_id order) G1) as (e2 & He2 & G2 & _).
  unfold spec_cancel in He2, G2. rewrite Hfind in He2, G2. cbn [fst snd] in He2, G2.
  exists e1, e2. split_and!; [done|rewrite He2; unfold remaining; rewrite Hf; do 4 f_equal; lia|].
  eapply good_ext; [|exact G2]. intros s. unfold spec_rest, upd.
  destruct (decide (s = o_side order)) as [->|]; [|done]. rewrite decide_True by done.
  symmetry. apply remove_add.
  - intros Hin. apply Hid. rewrite (resting_side L (o_side order)), fmap_app. set_solver.
  - pose proof (w_levels _ _ _ (gd_wf _ _ _ _ G) (o_side order)) as Hlv.
    eapply Forall_impl; [done|]. by intros [p os] [? _].
Qed.

(** C28: a refused order changes nothing.  An invalid order, an order whose id
    already rests, and an order that finds the order pool full are refused with
    the corresponding error and the engine state is exactly what it was. *)
Theorem place_order_refused n m now_ns e L order : good n m e L ->
  (forall x, Engine.validate_order order = Err x ->
    Engine.place_order now_ns order e = Some (e, Err x)) /\
  (Engine.validate_order order = Ok () -> o_id order ∈ o_id <$> resting L ->
    Engine.place_order now_ns order e = Some (e, Err (DuplicateOrderId (o_id order)))) /\
  (Engine.validate_order order = Ok () -> o_id order ∉ o_id <$> resting L ->
    length (resting L) = n -> Engine.place_order now_ns order e = Some (e, Err OrderPoolExhausted)).
Proof.
  intros G. pose proof (gd_wf _ _ _ _ G) as W. unfold Engine.place_order, Engine.check_valid.
  split_and!.
  - intros x ->. by erewrite bind_err.
  - intros -> Hd. run_step. run_step. by rewrite (wf_contains _ _ _ _ W), bool_decide_true.
  - intros -> Hd Hlen. run_step. run_step. rewrite (wf_contains _ _ _ _ W), bool_decide_false by done.
    run_step. unfold Pools.has_space_for_order. rewrite (objpool_available _ _ (w_pool _ _ _ W)).
    rewrite length_fmap, (wf_count _ _ _ W), (gd_slots _ _ _ _ G).
    by rewrite (proj2 (Z.ltb_ge _ _)) by lia.
Qed.

(** the cached best price is the best price.  In every engine state reached
    by placements and cancellations, [get_best_price] (which trusts the cache
    when its level still holds orders) returns the price of the first level of
    the side. *)
Theorem best_price_cache_sound n m e L s : good n m e L ->
  exists e' p, Engine.on_book s ob_get_best_price e = Some (e', Ok p) /\
    Engine.best_price_ticks e (bool_decide (s = Buy)) = Some p /\ good n m e' L.
Proof.
  intros G. pose proof (gd_wf _ _ _ _ G) as W.
  destruct (get_best_ok e L [] s W) as (e' & He & W' & Hm). exists e'. eexists.
  split_and!; [exact He|by apply (best_price_head e L [])|].
  eapply good_caps; [exact G|done|apply G|apply G|]. unfold meta in Hm. congruence.
Qed.

(** trade events.  An accepted order pushes to the trade ring, in order,
    one event per fill of its result, numbered consecutively after the engine's
    trade sequence, which advances by their number. *)
Theorem place_order_events n m now_ns e L order e' r :
  ready n m e L order -> Engine.place_order now_ns order e = Some (e', Ok r) ->
  e_trade_sequence e' = seq_after (length (r_fills r)) (e_trade_sequence e) /\
  e_trade_event_sender e' =
    sender_after (e_trade_event_sender e) (events_of order (e_trade_sequence e) (r_fills r)).
Proof.
  intros R Hp. destruct (placed_inv _ _ _ _ _ _ _ _ R Hp) as (_ & _ & -> & _ & HP).
  destruct (place_order_ok now_ns e L order (gd_wf _ _ _ _ (rd_good _ _ _ _ _ R))
    (gd_live _ _ _ _ (rd_good _ _ _ _ _ R)) HP) as (e1 & He & _ & _ & _ & Hlog).
  rewrite He in Hp. by injection Hp as <-.
Qed.

(** the depth of a side is the truth.  [get_top_levels] returns its first
    levels, best first, each with the total unfilled quantity resting there. *)
Theorem top_levels_exact n m e L k is_buy : good n m e L ->
  Engine.get_top_levels e k is_buy =
    Some (take k ((fun l => (l.1, volume l.2)) <$> L (if is_buy then Buy else Sell))).
Proof.
  intros G. pose proof (gd_wf _ _ _ _ G) as W. unfold Engine.get_top_levels.
  assert (forall s, ob_get_top_levels (Engine.e_book e s) k =
    Some (take k ((fun l => (l.1, volume l.2)) <$> L s))) as Ht.
  { intros s. rewrite (law_top _ _ k (w_book _ _ _ W s)). unfold a_top, shows.
    rewrite <- list_fmap_compose. do 2 f_equal. apply list_fmap_ext. intros _ [p os] _. simpl.
    by rewrite qty_sum_entries. }
  destruct is_buy; [apply (Ht Buy)|apply (Ht Sell)].
Qed.

(** a batch of cancellations is their sequence.  [cancel_orders_batch]
    cancels in order every id that rests, reports exactly those with their
    unfilled quantities, skips the others, and leaves a well-formed engine. *)
Theorem cancel_batch_refines n m now_ns e L ids : good n m e L ->
  exists e', Engine.cancel_orders_batch now_ns ids e = Some (e', Ok (spec_cancel_all L ids).2) /\
    good n m e' (spec_cancel_all L ids).1.
Proof.
  intros G. destruct (cancel_each_ok n m ids e L G) as (e1 & He & G1).
  unfold Engine.cancel_orders_batch. run_by (exact He).
  destruct (spec_cancel_all L ids) as [L1 rs]. cbn [fst snd] in *. destruct rs as [|r rs].
  - exists e1. by run_step.
  - destruct (maybe_sample_depth_ok now_ns _ _ _ (gd_wf _ _ _ _ G1)) as [d Hd].
    exists (Engine.e_set_sampling e1 d). run_by (exact Hd). split; [done|].
    eapply good_caps; [exact G1|apply wf_sampling, G1|apply G1|apply G1|done].
Qed.

(** a GTC order can fail after it traded.  If the list pool of its own side
    is full, a GTC order that is not filled completely is answered with
    [NodePoolExhausted] although its trades stand: the makers are consumed, the
    fills are in the fill buffer, and the caller learns of neither. *)
Theorem gtc_error_keeps_trades now_ns e L order :
  wf e L [] -> all_live L -> Engine.validate_order order = Ok () ->
  0 < o_quantity_lots order <= i64_max -> o_id order ∉ o_id <$> resting L -> has_slot e L ->
  0 < ObjectPool.available_count (pl_queues (e_pools e)) ->
  o_is_market order = false -> o_time_in_force order = GTC ->
  length (orders_of (L (o_side order))) = ob_capacity (Engine.e_book e (o_side order)) ->
  fill_sum (spec_match L order).2 < o_quantity_lots order ->
  exists e', Engine.place_order now_ns order e = Some (e', Err NodePoolExhausted) /\
    wf e' (spec_match L order).1 [] /\ e_fills_buf e' = (spec_match L order).2.
Proof.
  intros W Hl Hval Hq Hid Hslot Hqueue Hm Ht Hfull Hlt. set (e0 := Engine.e_set_bufs e [] (e_fills_buf e)).
  assert (wf e0 L []) as W0 by by apply (wf_same e).
  destruct (match_refines e0 L order W0 Hl Hid) as (e1 & He & W1 & M & Hl1 & Hid1 & Hlen & Hf); [lia|].
  destruct (caps_book _ _ (o_side order) (mt_caps _ _ _ _ M)) as [Hcap Hobj].
  set (o' := Order.set_filled order (fill_sum (spec_match L order).2)).
  destruct (add_to_book_full e1 (spec_match L order).1 [] o') as (e2 & Ha & W2 & Hme).
  - done.
  - done.
  - unfold sane. simpl. lia.
  - unfold has_slot in *. rewrite Hobj. unfold e0. simpl. lia.
  - simpl. rewrite spec_match_own, Hcap, Hfull. by destruct (o_side order).
  - exists e2. split_and!; [|done|].
    + unfold Engine.place_order, Engine.check_valid. rewrite Hval. run_step. run_step.
      rewrite (wf_contains _ _ _ _ W), bool_decide_false by done. run_step.
      rewrite (has_space_ok _ _ _ W Hslot Hqueue). cbn [negb]. erewrite bind_err; [done|].
      unfold Engine.dispatch. run_step. fold e0. rewrite Hm, Ht. unfold Engine.handle_gtc.
      run_by (exact He). rewrite (proj2 (Z.ltb_lt _ _) Hlt). by erewrite bind_err.
    + destruct (meta_logs _ _ Hme) as (_ & _ & ->). apply M.
Qed.
End claims.






Lemma run_refines_spec_witness :
  exists e, run (demo_commands ++ [Place 0 (Order.new 5 Buy 101 10 GTC 5); Cancel 0 2])
      (Engine.new (mkPoolConfig 8 8) : MatchingEngine SkipList) =
    Some (e, Ok [Placed (Ok (mkPlaceOrderResult 1 0 Accepted []));
                 Placed (Ok (mkPlaceOrderResult 2 0 Accepted []));
                 Placed (Ok (mkPlaceOrderResult 3 0 Accepted []));
                 Placed (Ok (mkPlaceOrderResult 4 0 Accepted []));
                 Placed (Ok (mkPlaceOrderResult 5 10 Filled [(1, 100, 5); (3, 100, 3); (2, 101, 2)]));
                 CancelledAs (Ok (mkCancelOrderResult 2 2))]).
Proof.
  destruct (run_refines_spec (B := SkipList) 8 8
    (demo_commands ++ [Place 0 (Order.new 5 Buy 101 10 GTC 5); Cancel 0 2])) as (e & He & _).
  - lia.
  - by vm_compute.
  - by repeat constructor.
  - by vm_compute.
  - exists e. rewrite He. vm_compute. reflexivity.
Defined.

(** ** Witnesses on the skip list *)

Lemma place_order_priority_witness :
  exists L', good 8 8 (demo_after (Order.new 5 Buy 101 10 GTC 5)) L' /\
    served (priced (demo_market Sell)) [(1, 100, 5); (3, 100, 3); (2, 101, 2)] (priced (L' Sell)).
Proof.
  destruct (place_order_priority 8 8 0 demo_engine demo_market (Order.new 5 Buy 101 10 GTC 5)
    (demo_after (Order.new 5 Buy 101 10 GTC 5))
    (mkPlaceOrderResult 5 10 Filled [(1, 100, 5); (3, 100, 3); (2, 101, 2)])) as (L' & G & Hs & _);
    [demo_ready_tac|demo_eval|]. exists L'. split; [exact G|exact Hs].
Defined.

Lemma place_order_exhaustive_witness :
  20 <> 8 /\ 8 = Z.min 20 (available (Engine.price_matches (Order.new 5 Buy 100 20 IOC 5)) (demo_market Sell)).
Proof.
  split; [lia|].
  apply (place_order_exhaustive 8 8 0 demo_engine demo_market (Order.new 5 Buy 100 20 IOC 5)
    (demo_after (Order.new 5 Buy 100 20 IOC 5))
    (mkPlaceOrderResult 5 8 PartiallyFilled [(1, 100, 5); (3, 100, 3)]));
    [demo_ready_tac|demo_eval|right; left; reflexivity].
Defined.

Lemma place_order_fok_witness :
  available (Engine.price_matches (Order.new 5 Buy 100 9 FOK 5)) (demo_market Sell) < 9 /\
  good 8 8 (demo_after (Order.new 5 Buy 100 9 FOK 5)) demo_market.
Proof.
  destruct (place_order_fok 8 8 0 demo_engine demo_market (Order.new 5 Buy 100 9 FOK 5)
    (demo_after (Order.new 5 Buy 100 9 FOK 5)) (mkPlaceOrderResult 5 0 Rejected []))
    as [(_ & H & _)|(Hv & _ & G)];
    [demo_ready_tac|demo_eval|reflexivity|reflexivity|discriminate H|]. split; [exact Hv|exact G].
Defined.

Lemma place_order_post_only_witness :
  good 8 8 (demo_after (Order.new 5 Buy 99 4 PostOnly 5)) (spec_rest demo_market (Order.new 5 Buy 99 4 PostOnly 5)).
Proof.
  apply (place_order_post_only 8 8 0 demo_engine demo_market (Order.new 5 Buy 99 4 PostOnly 5)
    (demo_after (Order.new 5 Buy 99 4 PostOnly 5)) (mkPlaceOrderResult 5 0 Accepted []));
    [demo_ready_tac|demo_eval|reflexivity|reflexivity].
Defined.

Lemma taker_never_rests_witness :
  Engine.contains_order (demo_after (Order.new_market 5 Buy 20 5)) 5 = false.
Proof.
  apply (taker_never_rests 8 8 0 demo_engine demo_market (Order.new_market 5 Buy 20 5)
    (demo_after (Order.new_market 5 Buy 20 5))
    (mkPlaceOrderResult 5 12 PartiallyFilled [(1, 100, 5); (3, 100, 3); (2, 101, 4)]));
    [demo_ready_tac|demo_eval|left; reflexivity].
Defined.

Lemma gtc_rests_remainder_witness :
  Engine.get_order (demo_after (Order.new 5 Buy 100 10 GTC 5)) 5 = Some (mkOrder 5 Buy 100 10 8 GTC 5 false).
Proof.
  apply (gtc_rests_remainder 8 8 0 demo_engine demo_market (Order.new 5 Buy 100 10 GTC 5)
    (demo_after (Order.new 5 Buy 100 10 GTC 5))
    (mkPlaceOrderResult 5 8 PartiallyFilled [(1, 100, 5); (3, 100, 3)]));
    [demo_ready_tac|demo_eval|reflexivity|reflexivity|simpl; lia].
Defined.

Lemma place_order_conserves_witness :
  exists L', good 8 8 (demo_after (Order.new 5 Buy 100 10 GTC 5)) L' /\ volume (resting L') + 8 = 19 + 2.
Proof.
  destruct (place_order_conserves 8 8 0 demo_engine demo_market (Order.new 5 Buy 100 10 GTC 5)
    (demo_after (Order.new 5 Buy 100 10 GTC 5))
    (mkPlaceOrderResult 5 8 PartiallyFilled [(1, 100, 5); (3, 100, 3)])) as (L' & G & Hv);
    [demo_ready_tac|demo_eval|]. exists L'. split; [exact G|]. exact Hv.
Defined.

Lemma run_uncrossed_witness :
  Engine.best_price_ticks demo_engine true = Some (Some 99) /\
  Engine.best_price_ticks demo_engine false = Some (Some 100) /\ 99 < 100.
Proof.
  split; [demo_eval|split; [demo_eval|]]. apply (run_uncrossed (B := SkipList) 8 8 demo_commands demo_engine
    (Ok [Placed (Ok (mkPlaceOrderResult 1 0 Accepted [])); Placed (Ok (mkPlaceOrderResult 2 0 Accepted []));
         Placed (Ok (mkPlaceOrderResult 3 0 Accepted [])); Placed (Ok (mkPlaceOrderResult 4 0 Accepted []))]));
    [lia|by vm_compute|by repeat constructor|by vm_compute|demo_eval..].
Defined.

Lemma cancel_order_exact_witness :
  exists e' L', Engine.cancel_order 0 3 demo_engine = Some (e', Ok (mkCancelOrderResult 3 3)) /\
    good 8 8 e' L'.
Proof.
  destruct (cancel_order_exact 8 8 0 demo_engine demo_market (Order.new 3 Sell 100 3 GTC 3))
    as (e' & L' & He & G & _); [exact demo_good|apply list_elem_of_In; vm_compute; tauto|].
  exists e', L'. split; [exact He|exact G].
Defined.

Lemma place_cancel_roundtrip_witness :
  exists e1 e2, Engine.place_order 0 (Order.new 5 Buy 99 4 GTC 5) demo_engine =
      Some (e1, Ok (mkPlaceOrderResult 5 0 Accepted [])) /\
    Engine.cancel_order 0 5 e1 = Some (e2, Ok (mkCancelOrderResult 5 4)) /\ good 8 8 e2 demo_market.
Proof.
  apply (place_cancel_roundtrip 8 8 0 0 demo_engine demo_market (Order.new 5 Buy 99 4 GTC 5));
    [demo_ready_tac|reflexivity| |by vm_compute; lia|reflexivity|reflexivity|left; reflexivity].
  rewrite list_elem_of_In. vm_compute. intuition discriminate.
Defined.

Lemma place_order_refused_witness :
  Engine.place_order 0 (Order.new 3 Sell 105 1 GTC 9) demo_engine = Some (demo_engine, Err (DuplicateOrderId 3)).
Proof.
  apply (place_order_refused 8 8 0 demo_engine demo_market (Order.new 3 Sell 105 1 GTC 9) demo_good);
    [reflexivity|apply list_elem_of_In; vm_compute; tauto].
Defined.

Lemma best_price_cache_sound_witness :
  exists e' p, Engine.on_book Sell ob_get_best_price demo_engine = Some (e', Ok p) /\
    Engine.best_price_ticks demo_engine false = Some p.
Proof.
  destruct (best_price_cache_sound 8 8 demo_engine demo_market Sell demo_good) as (e' & p & He & Hp & _).
  exists e', p. split; [exact He|exact Hp].
Defined.

Lemma place_order_events_witness :
  e_trade_sequence (demo_after (Order.new 5 Buy 101 10 GTC 5)) = 3.
Proof.
  apply (place_order_events 8 8 0 demo_engine demo_market (Order.new 5 Buy 101 10 GTC 5)
    (demo_after (Order.new 5 Buy 101 10 GTC 5))
    (mkPlaceOrderResult 5 10 Filled [(1, 100, 5); (3, 100, 3); (2, 101, 2)]));
    [demo_ready_tac|demo_eval].
Defined.

Lemma top_levels_exact_witness :
  Engine.get_top_levels demo_engine 5 false = Some [(100, 8); (101, 4)].
Proof. rewrite (top_levels_exact 8 8 demo_engine demo_market 5 false demo_good). vm_compute. reflexivity. Defined.

Lemma cancel_batch_refines_witness :
  exists e', Engine.cancel_orders_batch 0 [3; 7; 1] demo_engine = Some (e', Ok [(3, 3); (1, 5)]).
Proof.
  destruct (cancel_batch_refines 8 8 0 demo_engine demo_market [3; 7; 1] demo_good) as (e' & He & _).
  exists e'. rewrite He. vm_compute. reflexivity.
Defined.

Lemma gtc_error_keeps_trades_witness :
  exists (e e' : MatchingEngine SkipList),
    Engine.place_order 0 (Order.new 3 Buy 100 8 GTC 3) e = Some (e', Err NodePoolExhausted) /\
    e_fills_buf e' = [(1, 100, 5)].
Proof.
  destruct tight_good as [e G]. exists e.
  destruct (gtc_error_keeps_trades 0 e tight_market (Order.new 3 Buy 100 8 GTC 3)) as (e' & He & _ & Hf);
    [exact (gd_wf _ _ _ _ G)|exact (gd_live _ _ _ _ G)|reflexivity|by vm_compute| | | |reflexivity|reflexivity| |by vm_compute|].
  - rewrite list_elem_of_In. vm_compute. intuition discriminate.
  - unfold has_slot. rewrite (gd_slots _ _ _ _ G). vm_compute. lia.
  - rewrite (gd_queues _ _ _ _ G). lia.
  - rewrite (gd_lists _ _ _ _ G). vm_compute. reflexivity.
  - exists e'. split; [exact He|exact Hf].
Defined.
