(* ===== verification/EngineRestore.v ===== *)
(** Snapshot and restore of the resting state ([snapshot_resting],
    [restore_resting]): restoring a snapshot into a fresh engine reproduces the
    market, provided the FIFO order of each level agrees with the (timestamp, id)
    key the snapshot is sorted by. *)
From Stdlib Require Import ZArith Lia.
From stdpp Require Import base numbers list gmap sorting.
From S2P Require Import Prelude ListPool SkipList SkipListInv BookSpec OrderBook SkipListBook Types.
From S2P Require Import Pools Engine MatchSpec EngineInv EngineMatch EngineOps EnginePlace.
From S2P Require Import EngineRun EngineFacts EngineProps.

#[local] Open Scope Z_scope.

(** ** Definitions *)

(** The market as a snapshot sees it: every order reduced to its remainder. *)
Definition resume (L : market) : market :=
  fun s => fmap (M := list) (fun l : Z * list Order => (l.1, Engine.as_resting <$> l.2)) (L s).

(** The queue of a price. *)
Fixpoint queue_at (p : Z) (l : levels) : list Order :=
  match l with
  | [] => []
  | (q, os) :: l => if Z.eqb q p then os else queue_at p l
  end.

(** Resting orders are limit orders of a kind that can rest. *)
Definition restable (o : Order) : Prop :=
  o_is_market o = false /\ (o_time_in_force o = GTC \/ o_time_in_force o = PostOnly) /\
  0 < o_price_ticks o.

(** Every queue is in (timestamp, id) order. *)
Definition fifo_by_key (L : market) : Prop :=
  forall s, Forall (fun l => StronglySorted Engine.key_le l.2) (L s).

(** ** Level lists are determined by their queues *)

Definition prices_sorted (so : SortOrder) (l : levels) : Prop := StronglySorted (before so) l.*1.

Lemma queue_at_None p l : p ∉ l.*1 -> queue_at p l = [].
Proof.
  induction l as [|[q os] l IH]; [done|]. simpl. intros Hp.
  rewrite (proj2 (Z.eqb_neq _ _)) by set_solver. apply IH. set_solver.
Qed.

Lemma sorted_not_in so p q l : StronglySorted (before so) (q :: l) -> before so p q -> p ∉ q :: l.
Proof.
  intros Hs Hpq Hin. inversion Hs as [|? ? _ Hf]; subst. rewrite Forall_forall in Hf.
  apply elem_of_cons in Hin as [->|Hin]; [by apply before_irrefl in Hpq|].
  apply (before_asym _ _ _ Hpq). by apply Hf.
Qed.

Lemma sorted_head_notin so q l : StronglySorted (before so) (q :: l) -> q ∉ l.
Proof.
  intros Hs Hin. inversion Hs as [|? ? _ Hf]; subst. rewrite Forall_forall in Hf.
  by apply Hf, before_irrefl in Hin.
Qed.

Lemma levels_ext so l1 l2 : prices_sorted so l1 -> prices_sorted so l2 ->
  Forall (fun l => l.2 <> []) l1 -> Forall (fun l => l.2 <> []) l2 ->
  (forall p, queue_at p l1 = queue_at p l2) -> l1 = l2.
Proof.
  revert l2. induction l1 as [|[p os] l1 IH]; intros [|[q os'] l2] S1 S2 N1 N2 Hq; [done| | |].
  - specialize (Hq q). simpl in Hq. rewrite Z.eqb_refl in Hq. apply Forall_cons in N2 as [N2 _]. done.
  - specialize (Hq p). simpl in Hq. rewrite Z.eqb_refl in Hq. apply Forall_cons in N1 as [N1 _]. done.
  - apply Forall_cons in N1 as [N1 N1']. apply Forall_cons in N2 as [N2 N2']. simpl in N1, N2.
    destruct (decide (p = q)) as [->|Hne].
    + assert (os = os') as ->.
      { specialize (Hq q). simpl in Hq. by rewrite Z.eqb_refl in Hq. }
      f_equal. pose proof (sorted_head_notin _ _ _ S1). pose proof (sorted_head_notin _ _ _ S2).
      inversion S1; inversion S2; subst. apply IH; try done. intros r. specialize (Hq r). simpl in Hq.
      destruct (Z.eqb_spec q r) as [Heq|]; [subst; by rewrite !queue_at_None|done].
    + destruct (decide (before so p q)) as [Hb|Hb].
      * specialize (Hq p). rewrite (queue_at_None p (_ :: l2)) in Hq by by eapply sorted_not_in.
        simpl in Hq. by rewrite Z.eqb_refl in Hq.
      * apply before_total in Hb; [|done]. specialize (Hq q).
        rewrite (queue_at_None q (_ :: l1)) in Hq by by eapply sorted_not_in.
        simpl in Hq. by rewrite Z.eqb_refl in Hq.
Qed.

(** ** Rebuilding a side *)

Lemma add_order_sorted so o l : prices_sorted so l -> prices_sorted so (add_order so o l).
Proof.
  unfold prices_sorted. induction l as [|[q os] l IH]; intros Hs; [by repeat constructor|]. cbn [add_order].
  destruct (Z.eqb_spec q (o_price_ticks o)) as [|Hne]; [done|]. destruct (decide _) as [Hb|Hb].
  - constructor; [done|]. inversion Hs as [|? ? _ Hf]; subst. constructor; [done|].
    eapply Forall_impl; [done|]. intros r. by apply before_trans.
  - inversion Hs as [|? ? Hs' Hf]; subst. constructor; [by apply IH|]. rewrite Forall_forall in *.
    intros r [->|Hr]%add_order_prices; [|by apply Hf]. apply before_total; simpl in *; congruence.
Qed.

Lemma queue_at_add so o l p : prices_sorted so l ->
  queue_at p (add_order so o l) =
    if Z.eqb p (o_price_ticks o) then queue_at p l ++ [o] else queue_at p l.
Proof.
  unfold prices_sorted. induction l as [|[q os] l IH]; intros Hs; cbn [add_order queue_at].
  { rewrite Z.eqb_sym. by destruct (Z.eqb p _). }
  destruct (Z.eqb_spec q (o_price_ticks o)) as [->|Hne]; cbn [queue_at].
  { rewrite Z.eqb_sym. by destruct (Z.eqb p _). }
  destruct (decide _) as [Hb|Hb]; cbn [queue_at].
  - rewrite (Z.eqb_sym p). destruct (Z.eqb_spec (o_price_ticks o) p) as [<-|]; [|done].
    rewrite (proj2 (Z.eqb_neq _ _) Hne).
    rewrite queue_at_None; [done|]. pose proof (sorted_not_in _ _ _ _ Hs Hb). simpl in *. set_solver.
  - inversion Hs as [|? ? Hs' _]; subst. destruct (Z.eqb_spec q p) as [<-|]; [|by apply IH].
    by rewrite (proj2 (Z.eqb_neq _ _) Hne).
Qed.

Lemma add_order_nonempty so o l : Forall (fun l => l.2 <> []) l ->
  Forall (fun l => l.2 <> []) (add_order so o l).
Proof.
  induction 1 as [|[q os] l Hq Hl IH]; simpl in *; [by repeat constructor|].
  destruct (Z.eqb _ _); [|destruct (decide _)]; repeat constructor; try done. simpl. by destruct os.
Qed.

(** Folding a list of orders into an empty side collects, per price, the orders
    of that price in the order of the list. *)
Definition build (so : SortOrder) (os : list Order) : levels :=
  foldl (fun l o => add_order so o l) [] os.

Lemma build_ok so os : prices_sorted so (build so os) /\ Forall (fun l => l.2 <> []) (build so os) /\
  forall p, queue_at p (build so os) = filter (fun o => o_price_ticks o = p) os.
Proof.
  unfold build. induction os as [|o os (Hs & Hn & Hq)] using rev_ind; [by repeat constructor|].
  rewrite foldl_app. cbn [foldl]. split_and!; [by apply add_order_sorted|by apply add_order_nonempty|].
  intros p. rewrite queue_at_add by done. rewrite Hq, filter_app.
  destruct (Z.eqb_spec p (o_price_ticks o)) as [->|Hne].
  - by rewrite filter_cons_True.
  - by rewrite filter_cons_False, app_nil_r by congruence.
Qed.

Lemma foldl_spec_rest os s : forall L,
  foldl spec_rest L os s = foldl (fun l o => add_order (sort_order s) o l) (L s) (filter (fun o => o_side o = s) os).
Proof.
  induction os as [|o os IH]; intros L; [done|]. cbn [foldl]. rewrite IH. unfold spec_rest.
  destruct (decide (o_side o = s)) as [<-|Hs].
  - by rewrite upd_same, filter_cons_True.
  - by rewrite upd_other, filter_cons_False by congruence.
Qed.

(** ** Running the restore loop *)

Section restore.
Context {B : Type} {OB : OrderBook B} {LAWS : OrderBookLaws B} {RB : Rtrb}.
Implicit Types (e : MatchingEngine B) (L : market).

(** An order a snapshot may hold. *)
Definition restorable (o : Order) : Prop :=
  restable o /\ o_filled_lots o = 0 /\ 0 < o_quantity_lots o.

Definition no_cross (os : list Order) : Prop :=
  forall b a, b ∈ os -> a ∈ os -> o_side b = Buy -> o_side a = Sell -> o_price_ticks b < o_price_ticks a.

Lemma level_order e L s p os : wf e L [] -> (p, os) ∈ L s ->
  exists o, o ∈ resting L /\ o_side o = s /\ o_price_ticks o = p.
Proof.
  intros W Hin. destruct (w_side _ _ _ W s) as [_ _ _ Hl].
  destruct (proj1 (Forall_forall _ _) Hl _ Hin) as [Hne Hos]. simpl in *.
  destruct os as [|o os]; [done|]. apply Forall_cons in Hos as [(Hs & Hp & _) _]. exists o.
  split_and!; [|done..]. rewrite (resting_side L s), elem_of_app. left.
  apply list_elem_of_split in Hin as (A & C & ->). rewrite orders_of_app, orders_of_cons. set_solver.
Qed.

Lemma no_cross_quiet e L o os : wf e L [] -> no_cross (resting L ++ o :: os) -> crosses L o = false.
Proof.
  intros W Hn. unfold crosses. destruct (L (opposite (o_side o))) as [|[p q] l] eqn:HL; [done|].
  destruct (level_order e L (opposite (o_side o)) p q W) as (x & Hx & Hs & Hp); [rewrite HL; set_solver|].
  assert (x ∈ resting L ++ o :: os) as Hx' by set_solver.
  assert (o ∈ resting L ++ o :: os) as Ho by set_solver.
  destruct (o_side o) eqn:E; apply Z.leb_gt; [specialize (Hn o x)|specialize (Hn x o)];
    rewrite <- Hp; by apply Hn.
Qed.

Lemma resting_rest L o : resting (spec_rest L o) ≡ₚ o :: resting L.
Proof.
  unfold spec_rest. rewrite resting_upd, orders_of_add, (resting_side L (o_side o)). done.
Qed.

Lemma volume_restorable (os : list Order) : Forall restorable os -> 0 <= volume os.
Proof.
  intros H. apply volume_nonneg. eapply Forall_impl; [exact H|]. intros o (_ & Hf & Hq).
  unfold live, remaining. lia.
Qed.

Lemma restore_loop_ok n m clock os : forall i e L, good n m e L -> (n <= m)%nat -> Z.of_nat n <= u64_max ->
  Forall restorable os -> NoDup (o_id <$> resting L ++ os) -> no_cross (resting L ++ os) ->
  (length (resting L) + length os <= n)%nat -> volume (resting L) + volume os <= i64_max ->
  exists e', Engine.restore_loop clock os i e = Some (e', Ok (Z.of_nat (length os))) /\
    good n m e' (foldl spec_rest L os).
Proof.
  induction os as [|o os IH]; intros i e L G Hnm Hn Hr Hnd Hx Hlen Hv; [by exists e|].
  apply Forall_cons in Hr as [((Hmk & Ht & Hp) & Hf & Hq) Hr]. pose proof (gd_wf _ _ _ _ G) as W.
  assert (Order.set_is_market o false = o) as Ho by (destruct o; simpl in *; by subst).
  pose proof (no_cross_quiet _ _ _ _ W Hx) as Hc.
  destruct (spec_place_quiet L o Hc Hmk Hq Hf Ht) as [HL HR].
  assert (volume (o :: os) = o_quantity_lots o + volume os) as Hvo.
  { unfold volume. simpl. unfold remaining. rewrite Hf. lia. }
  destruct (place_good n m (clock i) e L o G) as (e1 & He1 & G1).
  { eapply good_placeable; try done.
    - rewrite Hvo in Hv. pose proof (volume_restorable os Hr). lia.
    - unfold Engine.validate_order. rewrite Hmk. simpl.
      by rewrite (proj2 (Z.leb_gt _ _) Hp), (proj2 (Z.leb_gt _ _) Hq).
    - rewrite fmap_app, fmap_cons in Hnd. apply NoDup_app in Hnd as (_ & Hd & _). intros Hin.
      apply (Hd _ Hin). set_solver.
    - simpl in Hlen. lia. }
  apply (good_ext n m e1 _ (spec_rest L o)) in G1; [|by intros s; rewrite HL].
  pose proof (resting_rest L o) as HP.
  assert (resting (spec_rest L o) ++ os ≡ₚ resting L ++ o :: os) as HP'.
  { rewrite HP. by rewrite <- Permutation_middle. }
  destruct (IH (S i) e1 (spec_rest L o)) as (e' & He' & G'); try done.
  - by rewrite HP'.
  - intros b a. rewrite HP'. apply Hx.
  - rewrite HP. simpl in *. lia.
  - rewrite HP. unfold volume at 1. simpl. fold (volume (resting L)). unfold remaining. lia.
  - exists e'. split; [|done]. cbn [Engine.restore_loop]. rewrite Ho.
    erewrite bind_ok; [|unfold attempt; rewrite He1; reflexivity]. erewrite bind_ok; [|exact He'].
    cbn [is_ok]. rewrite length_cons in *. rewrite u64_add_id by (unfold in_u64; lia).
    unfold mret, M_ret. do 3 f_equal. lia.
Qed.

(** ** The snapshot holds the resting orders, in key order *)

#[local] Instance key_le_trans : Transitive Engine.key_le.
Proof. intros o1 o2 o3. unfold Engine.key_le. lia. Qed.

#[local] Instance key_le_total : Total Engine.key_le.
Proof. intros o1 o2. unfold Engine.key_le. lia. Qed.

Lemma omap_ids (f : nat -> option Order) (l : list (Z * nat)) :
  Forall (fun x => exists o, f x.2 = Some o /\ o_id o = x.1) l -> o_id <$> omap f l.*2 = l.*1.
Proof.
  induction 1 as [|[id i] l (o & Hf & Ho) _ IH]; [done|]. rewrite !fmap_cons. cbn [omap list_omap fst snd] in *.
  rewrite Hf. rewrite fmap_cons, IH. by rewrite Ho.
Qed.

Lemma pool_orders e L : wf e L [] ->
  omap (ObjectPool.get (pl_orders (e_pools e))) (map_to_list (e_orders e)).*2 ≡ₚ resting L.
Proof.
  intros W. pose proof (w_ids _ _ _ W) as Hnd. apply NoDup_Permutation.
  - apply (NoDup_fmap_1 o_id). rewrite omap_ids; [apply NoDup_fst_map_to_list|].
    apply Forall_forall. intros [id i] Hin%elem_of_map_to_list. simpl.
    destruct (proj1 (list_elem_of_fmap _ _ _) (w_dom _ _ _ W id ltac:(by exists i))) as (o & -> & Ho).
    exists o. split; [|done]. pose proof (w_in _ _ _ W o Ho) as Hg. unfold Engine.get_order in Hg.
    rewrite Hin in Hg. done.
  - by eapply NoDup_fmap_1.
  - intros o. rewrite list_elem_of_omap. split.
    + intros (i & Hi & Hg). apply list_elem_of_fmap in Hi as ([id j] & -> & Hin%elem_of_map_to_list).
      destruct (proj1 (list_elem_of_fmap _ _ _) (w_dom _ _ _ W id ltac:(by exists j))) as (o' & -> & Ho).
      pose proof (w_in _ _ _ W o' Ho) as Hg'. unfold Engine.get_order in Hg'. rewrite Hin in Hg'.
      simpl in *. by simplify_eq.
    + intros Ho. pose proof (w_in _ _ _ W o Ho) as Hg. unfold Engine.get_order in Hg.
      destruct (e_orders e !! o_id o) as [i|] eqn:Hi; [|done]. exists i. split; [|done].
      apply list_elem_of_fmap. exists (o_id o, i). split; [done|]. by apply elem_of_map_to_list.
Qed.

Lemma resting_sane e L : wf e L [] -> Forall sane (resting L).
Proof.
  intros W. apply Forall_forall. intros o Ho.
  destruct (orders_of_split _ _ (wf_own_side _ _ _ _ W Ho)) as (A & p & X & Y & C & HL).
  by apply (wf_order _ _ _ _ _ _ _ _ _ _ W HL).
Qed.

Lemma as_resting_quantity o : sane o -> o_quantity_lots (Engine.as_resting o) = remaining o.
Proof. intros Ho. by apply sane_remaining. Qed.

Lemma snapshot_orders e L : wf e L [] -> all_live L ->
  es_orders (Engine.snapshot_resting e) ≡ₚ Engine.as_resting <$> resting L /\
  StronglySorted Engine.key_le (es_orders (Engine.snapshot_resting e)).
Proof.
  intros W Hl. split; [|apply StronglySorted_merge_sort; apply _]. simpl. rewrite merge_sort_Permutation.
  rewrite (pool_orders _ _ W). rewrite filter_all; [done|]. apply Forall_fmap, Forall_forall. intros o Ho.
  unfold compose. rewrite as_resting_quantity by by eapply (proj1 (Forall_forall _ _) (resting_sane _ _ W)).
  by apply (proj1 (Forall_forall _ _) Hl).
Qed.

(** ** Queues of the restored market *)

Lemma sorted_filter (P : Order -> Prop) `{!forall o, Decision (P o)} (l : list Order) :
  StronglySorted Engine.key_le l -> StronglySorted Engine.key_le (filter P l).
Proof.
  induction 1 as [|o l Hs IH Hf]; [constructor|]. destruct (decide (P o)).
  - rewrite filter_cons_True by done. constructor; [done|]. rewrite Forall_forall in *.
    intros x [_ Hx]%list_elem_of_filter. by apply Hf.
  - by rewrite filter_cons_False.
Qed.

Lemma filter_resting (P : Order -> Prop) `{!forall o, Decision (P o)} (l : list Order) :
  (forall o, P (Engine.as_resting o) <-> P o) ->
  filter P (Engine.as_resting <$> l) = Engine.as_resting <$> filter P l.
Proof.
  intros HP. induction l as [|o l IH]; [done|]. rewrite fmap_cons. destruct (decide (P o)).
  - rewrite !filter_cons_True by by rewrite ?HP. by rewrite fmap_cons, IH.
  - by rewrite !filter_cons_False by by rewrite ?HP.
Qed.

Lemma queue_at_resume p l :
  queue_at p ((fun x : Z * list Order => (x.1, Engine.as_resting <$> x.2)) <$> l) =
  Engine.as_resting <$> queue_at p l.
Proof. induction l as [|[q os] l IH]; [done|]. rewrite fmap_cons. simpl. by destruct (Z.eqb q p). Qed.

(** The queue of a price is the orders of that price. *)
Lemma queue_at_filter s p l : Forall (level_ok s) l -> NoDup l.*1 ->
  queue_at p l = filter (fun o => o_price_ticks o = p) (orders_of l).
Proof.
  intros Hl Hnd. induction Hl as [|[q os] l [_ Hos] Hl IH]; [done|]. simpl in Hos.
  rewrite orders_of_cons, filter_app. rewrite fmap_cons in Hnd. apply NoDup_cons in Hnd as [Hq Hnd].
  cbn [queue_at]. destruct (Z.eqb_spec q p) as [->|Hne].
  - rewrite filter_all by (eapply Forall_impl; [exact Hos|]; simpl; tauto).
    rewrite <- IH by done. by rewrite queue_at_None, app_nil_r.
  - rewrite filter_none; [by apply IH|]. eapply Forall_impl; [exact Hos|]. simpl. intros o (_ & -> & _). done.
Qed.

Lemma sorted_prices_nodup so l : prices_sorted so l -> NoDup l.*1.
Proof.
  unfold prices_sorted. induction l as [|[q os] l IH]; [constructor|]. intros Hs.
  constructor; [by eapply sorted_head_notin|]. apply IH. by inversion Hs.
Qed.

Lemma wf_prices e L s : wf e L [] -> prices_sorted (sort_order s) (L s).
Proof.
  intros W. pose proof (wf_sorted _ _ _ W s) as Hs. unfold a_sorted in Hs. unfold prices_sorted.
  unfold shows in Hs. rewrite <- list_fmap_compose in Hs. exact Hs.
Qed.

Lemma side_filter e L s : wf e L [] -> orders_of (L s) ≡ₚ filter (fun o => o_side o = s) (resting L).
Proof.
  intros W. rewrite (resting_side L s), filter_app.
  assert (forall s', Forall (fun o => o_side o = s') (orders_of (L s'))) as Hs.
  { intros s'. apply Forall_forall. intros o (A & p & X & Y & C & HL)%orders_of_split.
    by apply (wf_order _ _ _ _ _ _ _ _ _ _ W HL). }
  rewrite filter_all by apply Hs. rewrite filter_none, app_nil_r; [done|].
  eapply Forall_impl; [apply Hs|]. simpl. intros o ->. by destruct s.
Qed.

Lemma queue_at_sorted p (l : levels) :
  Forall (fun l => StronglySorted Engine.key_le l.2) l -> StronglySorted Engine.key_le (queue_at p l).
Proof. induction 1 as [|[q os] l Hos _ IH]; simpl; [constructor|]. by destruct (Z.eqb q p). Qed.

Lemma restored_market e L os : wf e L [] -> fifo_by_key L -> StronglySorted Engine.key_le os ->
  os ≡ₚ Engine.as_resting <$> resting L -> forall s, resume L s = foldl spec_rest (fun _ => []) os s.
Proof.
  intros W HF Hs HP s. pose proof (wf_prices _ _ s W) as Hp. pose proof (w_levels _ _ _ W s) as Hlv.
  rewrite foldl_spec_rest. change (resume L s = build (sort_order s) (filter (fun o => o_side o = s) os)).
  destruct (build_ok (sort_order s) (filter (fun o => o_side o = s) os)) as (Bs & Bn & Bq).
  apply (levels_ext (sort_order s)); try done.
  - unfold prices_sorted, resume. rewrite <- list_fmap_compose. exact Hp.
  - apply Forall_fmap. eapply Forall_impl; [exact Hlv|]. intros [q l] [Hne _]. simpl in *. by destruct l.
  - intros p. rewrite Bq. unfold resume. rewrite queue_at_resume.
    apply (StronglySorted_unique_strong Engine.key_le).
    + intros o1 o2 H1 [_ [_ H2]%list_elem_of_filter]%list_elem_of_filter K1 K2. rewrite HP in H2.
      apply list_elem_of_fmap in H1 as (o1' & -> & H1), H2 as (o2' & -> & H2). f_equal.
      rewrite (queue_at_filter s) in H1 by (done || by eapply sorted_prices_nodup).
      apply list_elem_of_filter in H1 as [_ H1]. rewrite (side_filter _ _ _ W) in H1.
      apply list_elem_of_filter in H1 as [_ H1]. pose proof (w_in _ _ _ W _ H1) as G1.
      pose proof (w_in _ _ _ W _ H2) as G2. assert (o_id o1' = o_id o2') as Hid.
      { unfold Engine.key_le in K1, K2. simpl in K1, K2. lia. }
      rewrite Hid in G1. congruence.
    + eapply (StronglySorted_fmap _ Engine.key_le); [by intros x y|].
      apply queue_at_sorted, HF.
    + by apply sorted_filter, sorted_filter.
    + rewrite HP, !filter_resting by (intros o; destruct o; done).
      rewrite (queue_at_filter s) by (done || by eapply sorted_prices_nodup).
      by rewrite (side_filter _ _ _ W).
Qed.

Lemma good_sequences n m e L next seq : good n m e L ->
  good n m (Engine.e_set_sequences e next (e_snapshot_sequence e) seq) L.
Proof. intros [[] Hl Hu H1 H2 H3]. split; try done. Qed.

Lemma uncrossed_orders e L : wf e L [] -> uncrossed L -> no_cross (resting L).
Proof.
  intros W Hu b a Hb Ha Sb Sa. apply (wf_own_side _ _ _ _ W) in Hb, Ha. rewrite Sb in Hb. rewrite Sa in Ha.
  apply orders_of_split in Hb as (A & p & X & Y & C & HL), Ha as (A' & q & X' & Y' & C' & HL').
  destruct (wf_order _ _ _ _ _ _ _ _ _ _ W HL) as (_ & _ & -> & _).
  destruct (wf_order _ _ _ _ _ _ _ _ _ _ W HL') as (_ & _ & -> & _).
  apply Hu; rewrite ?HL, ?HL', fmap_app; set_solver.
Qed.

(** What the restored orders are like, given what the resting ones are like. *)
Lemma resting_restorable e L : wf e L [] -> all_live L -> Forall restable (resting L) ->
  Forall restorable (Engine.as_resting <$> resting L) /\
  o_id <$> (Engine.as_resting <$> resting L) = o_id <$> resting L /\
  volume (Engine.as_resting <$> resting L) = volume (resting L).
Proof.
  intros W Hl Hr. pose proof (resting_sane _ _ W) as Hs. unfold all_live in Hl.
  induction (resting L) as [|o l IH]; [done|]. apply Forall_cons in Hl as [Hlo Hl], Hr as [Hro Hr], Hs as [Hso Hs].
  destruct (IH Hl Hr Hs) as (H1 & H2 & H3). pose proof (as_resting_quantity _ Hso) as Hq. split_and!.
  - rewrite fmap_cons. constructor; [|done]. split_and!; [by destruct Hro as (? & ? & ?)..|done|].
    rewrite Hq. exact Hlo.
  - rewrite !fmap_cons, H2. done.
  - rewrite fmap_cons. unfold volume in *. cbn [foldr]. rewrite H3. unfold remaining at 1. rewrite Hq. simpl. lia.
Qed.

(** C19: snapshot and restore.  Restoring the snapshot of an engine whose queues
    are in (timestamp, id) order, into a fresh engine with room for its orders,
    re-places every order and reproduces the market level by level and queue by
    queue, each order reduced to its remainder, together with the order-id and
    trade counters. *)
Theorem snapshot_restore n m n' m' clock e L :
  good n m e L -> fifo_by_key L -> Forall restable (resting L) -> volume (resting L) <= i64_max ->
  (n' <= m')%nat -> Z.of_nat m' <= u64_max -> (length (resting L) <= n')%nat ->
  exists e',
    Engine.restore_resting clock (Engine.snapshot_resting e) (Engine.new (mkPoolConfig n' m')) =
      Some (e', Ok (Z.of_nat (length (resting L)))) /\
    good n' m' e' (resume L) /\
    e_next_order_id e' = e_next_order_id e /\ e_trade_sequence e' = e_trade_sequence e.
Proof.
  intros G HF Hr Hv Hnm Hm Hlen. pose proof (gd_wf _ _ _ _ G) as W.
  destruct (snapshot_orders _ _ W (gd_live _ _ _ _ G)) as [HP HS].
  destruct (resting_restorable _ _ W (gd_live _ _ _ _ G) Hr) as (Hok & Hids & Hvol).
  set (os := es_orders (Engine.snapshot_resting e)) in *.
  assert (length os = length (resting L)) as Hlos by (by rewrite HP, length_fmap).
  destruct (restore_loop_ok n' m' clock os 0 (Engine.new (mkPoolConfig n' m') : MatchingEngine B) (fun _ => []))
    as (e1 & He1 & G1); simpl; try lia.
  - apply good_new; lia.
  - by rewrite HP.
  - rewrite HP, Hids. apply W.
  - intros b a. rewrite HP. intros (b' & -> & Hb)%list_elem_of_fmap (a' & -> & Ha)%list_elem_of_fmap.
    apply (uncrossed_orders _ _ W (gd_uncrossed _ _ _ _ G) b' a' Hb Ha).
  - rewrite HP, Hvol. done.
  - eexists. split; [|split_and!].
    + rewrite <- Hlos. unfold Engine.restore_resting. erewrite bind_ok; [|exact He1]. reflexivity.
    + apply good_sequences. eapply good_ext; [|exact G1]. by apply (restored_market e).
    + done.
    + done.
Qed.
End restore.

(** The demo engine, whose queues are in key order. *)
Lemma snapshot_restore_witness : exists e',
    Engine.restore_resting (fun _ => 0) (Engine.snapshot_resting demo_engine)
      (Engine.new (mkPoolConfig 8 8)) = Some (e', Ok (Z.of_nat (length (resting demo_market)))) /\
    good 8 8 e' (resume demo_market) /\
    e_next_order_id e' = e_next_order_id demo_engine /\ e_trade_sequence e' = e_trade_sequence demo_engine.
Proof.
  apply (snapshot_restore 8 8 8 8); [apply demo_good|..].
  - intros []; vm_compute; repeat constructor; vm_compute; intuition discriminate.
  - vm_compute. repeat constructor; vm_compute; intuition discriminate.
  - by vm_compute.
  - lia.
  - by vm_compute.
  - vm_compute. lia.
Defined.

