(* ===== verification/EngineBatch.v ===== *)
(** Batch matching ([match_orders_batch]): on batches whose orders all fill
    completely it is the sequence of the specification's sweeps; two concrete
    runs show what it, and [place_orders], do on other batches. *)
From Stdlib Require Import ZArith Lia.
From stdpp Require Import base numbers list gmap sorting.
From S2P Require Import Prelude ListPool SkipList SkipListInv BookSpec OrderBook SkipListBook Types.
From S2P Require Import Pools Engine MatchSpec EngineInv EngineMatch EngineOps EnginePlace.
From S2P Require Import EngineRun EngineFacts EngineProps.

#[local] Open Scope Z_scope.

(** Sweep the orders one after the other. *)
Fixpoint spec_batch (L : market) (orders : list Order) : market * list (list fill) :=
  match orders with
  | [] => (L, [])
  | o :: orders =>
      let '(L1, fs) := spec_match L o in
      let '(L2, fss) := spec_batch L1 orders in
      (L2, fs :: fss)
  end.

Definition batch_result (o : Order) (fs : list fill) : Z * list Trade :=
  (fill_sum fs, trade_of o <$> fs).

Section batch.
Context {B : Type} {OB : OrderBook B} {LAWS : OrderBookLaws B} {RB : Rtrb}.
Implicit Types (e : MatchingEngine B) (L : market).

Lemma collect_trades_ok L T : forall e, wf e L T ->
  exists e', Engine.collect_trades T.*1 e = Some (e', Ok T.*2) /\ wf e' L [] /\ meta e' = meta e.
Proof.
  induction T as [|[i t] T IH]; intros e W; [by exists e|].
  rewrite !fmap_cons. cbn [Engine.collect_trades fst snd]. run_step. run_step.
  destruct (IH (Engine.e_set_trade_pool e (ObjectPool.release (pl_trades (e_pools e)) i)))
    as (e' & Hr & W' & Hm).
  - eapply wf_trade_pool; [done| | |done].
    + apply objpool_release, W.
    + intros j u Hju. apply (w_slots _ _ _ W). by right.
  - exists e'. run_by (exact Hr). split_and!; [|done|by rewrite Hm].
    unfold ObjectPool.get. by rewrite (w_slots _ _ _ W i t) by by left.
Qed.

(** Matching shrinks the set of resting ids. *)
Lemma spec_match_ids L order id : id ∉ o_id <$> resting L -> id ∉ o_id <$> resting (spec_match L order).1.
Proof.
  intros Hid. unfold spec_match. destruct (sweep _ _ _) as [[fs l] rem] eqn:Hs. simpl.
  apply fresh_upd; [done|]. by eapply sweep_ids.
Qed.

Lemma batch_one_ok has order ev e L : wf e L [] -> all_live L -> o_id order ∉ o_id <$> resting L ->
  0 <= o_quantity_lots order <= i64_max -> fill_sum (spec_match L order).2 = o_quantity_lots order ->
  exists e' ev', Engine.batch_one has order ev e =
      Some (e', Ok (batch_result order (spec_match L order).2, ev')) /\
    wf e' (spec_match L order).1 [] /\ all_live (spec_match L order).1 /\ caps e' = caps e.
Proof.
  intros W Hl Hid Hq. unfold spec_match, accepts. set (s := opposite (o_side order)).
  destruct (sweep _ _ (L s)) as [[fs l] rem] eqn:Hs. simpl. intros Hfull.
  pose proof (live_side _ s Hl) as Hls.
  pose proof (sweep_spec _ _ _ _ _ _ Hls (proj1 Hq) Hs) as (_ & _ & _ & Hl').
  destruct (fuel_enough _ _ _ s W) as [Hf1 Hf2]. pose proof (wf_room _ _ _ s W) as Hroom.
  rewrite <- (Z.sub_0_r (o_quantity_lots order)) in Hs.
  destruct (match_levels_ok false has order (Engine.match_fuel e s) (L s) e L []
    (Engine.mkLocals 0 [] ev) (Engine.match_fuel e s) fs l rem W)
    as (e1 & l1 & T1 & Hm & W1 & P); try done; try (simpl; lia). fold s in W1.
  destruct P as [HF _ _ _ HG _ (N & -> & HN & HI)]. simpl in HI, HG.
  change ([] ++ N) with N in W1. destruct (collect_trades_ok _ _ _ W1) as (e2 & Hc & W2 & Hm2).
  exists e2, (Engine.l_trade_events l1). split_and!; [|done|by apply live_upd|].
  - unfold Engine.batch_one. run_step. fold s. run_by (exact Hm). rewrite HI.
    run_by (exact Hc). rewrite HG, (proj2 (Z.ltb_ge _ _)) by lia. run_step.
    unfold batch_result. by rewrite HN.
  - unfold meta in Hm2. unfold fixed in HF. congruence.
Qed.

Lemma batch_all_ok has orders : forall ev e L, wf e L [] -> all_live L ->
  Forall (fun o => 0 <= o_quantity_lots o <= i64_max /\ o_id o ∉ o_id <$> resting L) orders ->
  Forall2 (fun o fs => fill_sum fs = o_quantity_lots o) orders (spec_batch L orders).2 ->
  exists e' ev', Engine.batch_all has orders ev e =
      Some (e', Ok (zip_with batch_result orders (spec_batch L orders).2, ev')) /\
    wf e' (spec_batch L orders).1 [] /\ all_live (spec_batch L orders).1 /\ caps e' = caps e.
Proof.
  induction orders as [|o orders IH]; intros ev e L W Hl Ho Hf; [by exists e, ev|].
  apply Forall_cons in Ho as [[Hq Hid] Ho]. cbn [spec_batch Engine.batch_all] in *.
  destruct (spec_match L o) as [L1 fs] eqn:HM. destruct (spec_batch L1 orders) as [L2 fss] eqn:HB.
  simpl in Hf. apply Forall2_cons in Hf as [Hfo Hf].
  destruct (batch_one_ok has o ev e L W Hl Hid Hq) as (e1 & ev1 & H1 & W1 & Hl1 & C1); [by rewrite HM|].
  rewrite HM in *. simpl in *. destruct (IH ev1 e1 L1 W1 Hl1) as (e2 & ev2 & H2 & W2 & Hl2 & C2).
  - eapply Forall_impl; [exact Ho|]. simpl. intros o' [? Hid']. split; [done|].
    pose proof (spec_match_ids L o (o_id o') Hid') as Hi. by rewrite HM in Hi.
  - by rewrite HB.
  - rewrite HB in *. exists e2, ev2. run_by (exact H1). cbn [batch_result]. run_by (exact H2).
    split_and!; try done. congruence.
Qed.

Lemma spec_batch_uncrossed orders : forall L, uncrossed L -> uncrossed (spec_batch L orders).1.
Proof.
  induction orders as [|o orders IH]; intros L Hu; [done|]. cbn [spec_batch].
  pose proof (uncrossed_match L o Hu) as H1. destruct (spec_match L o) as [L1 fs].
  specialize (IH L1 H1). by destruct (spec_batch L1 orders).
Qed.

(** a batch of takers that the book can fill completely is matched as the
    same orders one after the other: every order gets the fills of its own
    sweep, reported as its trades in order, the trade slots are all given back,
    and the engine stays well-formed and uncrossed. *)
Theorem match_batch_filled n m now_ns orders e L : good n m e L ->
  Forall (fun o => 0 <= o_quantity_lots o <= i64_max /\ o_id o ∉ o_id <$> resting L) orders ->
  Forall2 (fun o fs => fill_sum fs = o_quantity_lots o) orders (spec_batch L orders).2 ->
  exists e', Engine.match_orders_batch now_ns orders e =
      Some (e', Ok (zip_with batch_result orders (spec_batch L orders).2)) /\
    good n m e' (spec_batch L orders).1.
Proof.
  intros G Ho Hf. pose proof (gd_wf _ _ _ _ G) as W.
  destruct (batch_all_ok (Engine.has_trade_sender e) orders [] e L W (gd_live _ _ _ _ G) Ho Hf)
    as (e1 & ev & H1 & W1 & Hl1 & C1).
  unfold Engine.match_orders_batch. run_step. run_by (exact H1).
  assert (exists e2, Engine.send_batch ev e1 = Some (e2, Ok ()) /\ wf e2 (spec_batch L orders).1 [] /\
    caps e2 = caps e1) as (e2 & H2 & W2 & C2).
  { eexists. split; [reflexivity|]. destruct (e_trade_event_sender e1) as [p|]; [|done]. cbv zeta.
    destruct (write_chunk Engine.TradeEvent_default p (length ev)) as [[s1 s2]|]; [|split; [by apply (wf_same e1)|done]].
    destruct (Engine.fill_slice s1 ev 0) as [s1' idx], (Engine.fill_slice s2 ev idx) as [s2' idx'].
    split; [by apply (wf_same e1)|done]. }
  run_by (exact H2). destruct (maybe_sample_depth_ok now_ns _ _ _ W2) as [d Hd]. run_by (exact Hd).
  eexists. split; [done|]. eapply (good_caps n m e); [done|by apply wf_sampling|done| |].
  - apply spec_batch_uncrossed, G.
  - transitivity (caps e2); [done|congruence].
Qed.
End batch.

(** A market order and a limit order that between them sweep one ask level and
    part of the next. *)
Definition demo_batch : list Order := [Order.new_market 10 Buy 6 9; Order.new 11 Buy 101 4 GTC 9].

Lemma match_batch_filled_witness : exists e',
  Engine.match_orders_batch 0 demo_batch demo_engine =
    Some (e', Ok (zip_with batch_result demo_batch (spec_batch demo_market demo_batch).2)) /\
  good 8 8 e' (spec_batch demo_market demo_batch).1.
Proof.
  apply match_batch_filled; [apply demo_good| |].
  - repeat constructor; try by vm_compute.
    all: rewrite list_elem_of_In; vm_compute; intuition discriminate.
  - vm_compute. repeat constructor.
Defined.

(** ** What the batch entry points do beyond that *)

(** The cached best price is not refreshed when a batch rests an order, so a
    later order of the batch can trade at a worse price: with an ask of 5 at 100,
    the batch "buy 2 at 100; sell 5 at 99; buy 1 at 100" fills its last order
    against the ask at 100 while the ask at 99 rests. *)
Lemma batch_skips_better_price :
  match Engine.place_order 0 (Order.new 1 Sell 100 5 GTC 1)
          (Engine.new (mkPoolConfig 8 8) : MatchingEngine SkipList) with
  | Some (e, _) =>
      match Engine.match_orders_batch 0
              [Order.new 2 Buy 100 2 GTC 2; Order.new 3 Sell 99 5 GTC 3; Order.new 4 Buy 100 1 GTC 4] e with
      | Some (e', Ok rs) =>
          rs = [(2, [mkTrade 2 1 100 2]); (0, []); (1, [mkTrade 4 1 100 1])] /\
          Engine.get_order_fill_status e' 3 = Some (0, 5)
      | _ => False
      end
  | None => False
  end.
Proof. vm_compute. by split. Qed.

(** [place_orders] checks that a slot is free per order without counting the
    orders before it: with one slot, the second of two orders fails after the
    first has been placed, and the caller sees only the error. *)
Lemma place_orders_partial :
  match Engine.place_orders [Order.new 1 Sell 100 5 GTC 1; Order.new 2 Sell 101 5 GTC 2]
          (Engine.new (mkPoolConfig 1 1) : MatchingEngine SkipList) with
  | Some (e, r) => r = Err OrderPoolExhausted /\ Engine.contains_order e 1 = true
  | None => False
  end.
Proof. vm_compute. by split. Qed.
