(* ===== verification/Bytes.v ===== *)
(** Byte strings: little-endian encoding of machine integers ([to_le_bytes],
    [from_le_bytes]), slices and cursors, shared by the binary codecs. *)
From Stdlib Require Import ZArith Lia.
From stdpp Require Import base numbers list.
From S2P Require Import Prelude.

#[local] Open Scope Z_scope.

(** A byte is a [Z] in [0, 256). *)
Abbreviation bytes := (list Z).

Definition is_byte (b : Z) : Prop := 0 <= b < 256.

(** The [n] low bytes of [z], least significant first. *)
Fixpoint to_le (n : nat) (z : Z) : bytes :=
  match n with
  | O => []
  | S n => z mod 256 :: to_le n (z / 256)
  end.

Fixpoint from_le (bs : bytes) : Z :=
  match bs with
  | [] => 0
  | b :: bs => b + 256 * from_le bs
  end.

Definition u16_to_le : Z -> bytes := to_le 2.
Definition u32_to_le : Z -> bytes := to_le 4.
Definition u64_to_le : Z -> bytes := to_le 8.
Definition i64_to_le (z : Z) : bytes := to_le 8 (wrap_u64 z).

Definition i64_from_le (bs : bytes) : Z := wrap_i64 (from_le bs).

(** [buf[i..i + n]]: panics when the range leaves the buffer. *)
Definition slice (buf : bytes) (i n : nat) : option bytes :=
  if Nat.leb (i + n) (length buf) then Some (take n (drop i buf)) else None.

(** ** Lemmas *)

Lemma length_to_le n z : length (to_le n z) = n.
Proof. revert z. induction n; intros z; simpl; auto. Qed.

Lemma to_le_bytes_ok n z : Forall is_byte (to_le n z).
Proof.
  revert z. induction n as [|n IH]; intros z; simpl; constructor; [|apply IH].
  apply Z.mod_pos_bound. lia.
Qed.

Lemma from_to_le n z : from_le (to_le n z) = z mod 256 ^ Z.of_nat n.
Proof.
  revert z. induction n as [|n IH]; intros z; [by rewrite Z.mod_1_r|].
  cbn [to_le from_le]. rewrite IH, Nat2Z.inj_succ, Z.pow_succ_r by lia.
  assert (0 < 256 ^ Z.of_nat n) by (apply Z.pow_pos_nonneg; lia).
  rewrite Z.rem_mul_r by lia. done.
Qed.

Lemma to_from_le bs : Forall is_byte bs -> to_le (length bs) (from_le bs) = bs.
Proof.
  induction 1 as [|b bs Hb _ IH]; [done|]. cbn [length from_le to_le]. unfold is_byte in Hb. f_equal.
  - rewrite Z.mul_comm, Z.mod_add, Z.mod_small by lia. done.
  - rewrite Z.mul_comm, Z.div_add, Z.div_small by lia. done.
Qed.

Lemma from_le_bound bs : Forall is_byte bs -> 0 <= from_le bs < 256 ^ Z.of_nat (length bs).
Proof.
  induction 1 as [|b bs Hb _ IH]; [done|]. cbn [length from_le]. unfold is_byte in Hb.
  rewrite Nat2Z.inj_succ, Z.pow_succ_r by lia. lia.
Qed.

Lemma u64_le_roundtrip z : in_u64 z -> from_le (u64_to_le z) = z.
Proof. intros ?. unfold u64_to_le. rewrite from_to_le. apply Z.mod_small. machine_unfold. simpl. lia. Qed.

Lemma u32_le_roundtrip z : 0 <= z < 2 ^ 32 -> from_le (u32_to_le z) = z.
Proof. intros ?. unfold u32_to_le. rewrite from_to_le. apply Z.mod_small. simpl. lia. Qed.

Lemma u16_le_roundtrip z : 0 <= z < 2 ^ 16 -> from_le (u16_to_le z) = z.
Proof. intros ?. unfold u16_to_le. rewrite from_to_le. apply Z.mod_small. simpl. lia. Qed.

Lemma i64_le_roundtrip z : in_i64 z -> i64_from_le (i64_to_le z) = z.
Proof.
  intros ?. unfold i64_from_le, i64_to_le. rewrite from_to_le.
  change (256 ^ Z.of_nat 8) with 18446744073709551616. machine_unfold.
  rewrite Z.mod_mod, Zplus_mod_idemp_l by lia. rewrite Z.mod_small; lia.
Qed.

Lemma slice_app A X C i n : length A = i -> length X = n -> slice (A ++ X ++ C) i n = Some X.
Proof.
  intros <- <-. unfold slice. rewrite (proj2 (Nat.leb_le _ _)) by (rewrite !length_app; lia).
  by rewrite drop_app_length, take_app_length.
Qed.

Lemma slice_is_Some buf i n : (i + n <= length buf)%nat -> is_Some (slice buf i n).
Proof. intros H. unfold slice. rewrite (proj2 (Nat.leb_le _ _) H). by eexists. Qed.

(** Reading past a prefix. *)
Lemma slice_skip A C k n : (k + n <= length C)%nat ->
  slice (A ++ C) (length A + k) n = Some (take n (drop k C)).
Proof.
  intros H. unfold slice. rewrite (proj2 (Nat.leb_le _ _)) by (rewrite length_app; lia).
  by rewrite drop_app_add'.
Qed.

Lemma lookup_skip {A} (l k : list A) i : (l ++ k) !! (length l + i)%nat = k !! i.
Proof. rewrite lookup_app_r by lia. f_equal. lia. Qed.
