(* ===== verification/SnapshotCodec.v ===== *)
(** The wire format of an engine snapshot ([src/src/matching/engine_snapshot.rs]):
    [serialize] and [deserialize] on byte strings, their round trip, and that
    decoding arbitrary bytes never panics.  The two database functions of the
    file are not modelled. *)
From Stdlib Require Import ZArith Lia.
From stdpp Require Import base numbers list gmap.
From S2P Require Import Prelude Bytes Types Engine.

#[local] Open Scope Z_scope.

(** [b"ESN1"] *)
Definition MAGIC : bytes := [69; 83; 78; 49].

Definition side_byte (s : Side) : Z := match s with Buy => 0 | Sell => 1 end.
Definition tif_byte (t : TimeInForce) : Z :=
  match t with GTC => 0 | IOC => 1 | FOK => 2 | PostOnly => 3 end.

Definition serialize_order (o : Order) : bytes :=
  u64_to_le (o_id o) ++ [side_byte (o_side o)] ++ [tif_byte (o_time_in_force o)] ++
  i64_to_le (o_price_ticks o) ++ i64_to_le (o_quantity_lots o) ++ u64_to_le (o_timestamp o).

(** [serialize] *)
Definition serialize (snap : EngineSnapshot) : bytes :=
  MAGIC ++ u64_to_le (es_next_order_id snap) ++ u64_to_le (es_trade_sequence snap) ++
  u32_to_le (Z.of_nat (length (es_orders snap)) mod 2 ^ 32) ++
  concat (serialize_order <$> es_orders snap).

Definition side_of_byte (b : Z) : option Side :=
  if Z.eqb b 0 then Some Buy else if Z.eqb b 1 then Some Sell else None.
Definition tif_of_byte (b : Z) : option TimeInForce :=
  if Z.eqb b 0 then Some GTC else if Z.eqb b 1 then Some IOC
  else if Z.eqb b 2 then Some FOK else if Z.eqb b 3 then Some PostOnly else None.

(** One order at offset [p].  The outer [option] is a panic (an index out of
    range), the inner one the decoder's [None]. *)
Definition deserialize_order (buf : bytes) (p : nat) : option (option Order) :=
  id ← slice buf p 8;
  bside ← buf !! (p + 8)%nat;
  btif ← buf !! (p + 9)%nat;
  match side_of_byte bside with
  | None => Some None
  | Some side =>
      match tif_of_byte btif with
      | None => Some None
      | Some tif =>
          price ← slice buf (p + 10) 8;
          qty ← slice buf (p + 18) 8;
          ts ← slice buf (p + 26) 8;
          Some (Some (Order.new (from_le id) side (i64_from_le price) (i64_from_le qty) tif
                        (from_le ts)))
      end
  end.

(** [for _ in 0..count] *)
Fixpoint deserialize_orders (buf : bytes) (count p : nat) : option (option (list Order)) :=
  match count with
  | O => Some (Some [])
  | S count =>
      if Nat.ltb (length buf) (p + 34) then Some None
      else
        o ← deserialize_order buf p;
        match o with
        | None => Some None
        | Some o =>
            rest ← deserialize_orders buf count (p + 34);
            Some (cons o <$> (rest : option (list Order)))
        end
  end.

(** [deserialize] *)
Definition deserialize (buf : bytes) : option (option EngineSnapshot) :=
  if Nat.ltb (length buf) 24 then Some None
  else
    magic ← slice buf 0 4;
    if negb (bool_decide (magic = MAGIC)) then Some None
    else
      next_order_id ← slice buf 4 8;
      trade_sequence ← slice buf 12 8;
      count ← slice buf 20 4;
      orders ← deserialize_orders buf (Z.to_nat (from_le count)) 24;
      Some ((fun orders => mkEngineSnapshot orders (from_le next_order_id) (from_le trade_sequence))
              <$> (orders : option (list Order))).

(** ** Round trip *)

(** Snapshots as the engine produces them: unfilled limit orders, machine
    integers in range, fewer than 2^32 orders. *)
Definition order_encodable (o : Order) : Prop :=
  in_u64 (o_id o) /\ in_i64 (o_price_ticks o) /\ in_i64 (o_quantity_lots o) /\
  in_u64 (o_timestamp o) /\ o_filled_lots o = 0 /\ o_is_market o = false.

Definition snapshot_encodable (s : EngineSnapshot) : Prop :=
  Forall order_encodable (es_orders s) /\ in_u64 (es_next_order_id s) /\
  in_u64 (es_trade_sequence s) /\ Z.of_nat (length (es_orders s)) < 2 ^ 32.

Lemma length_serialize_order o : length (serialize_order o) = 34%nat.
Proof. unfold serialize_order, i64_to_le, u64_to_le. by rewrite !length_app, !length_to_le. Qed.

Lemma length_serialize_orders os : length (concat (serialize_order <$> os)) = (34 * length os)%nat.
Proof.
  induction os as [|o os IH]; [done|]. cbn [fmap list_fmap concat length].
  rewrite length_app, length_serialize_order. cbn [fmap list_fmap] in IH. rewrite IH. lia.
Qed.

Lemma deserialize_order_ok A o C : order_encodable o ->
  deserialize_order (A ++ serialize_order o ++ C) (length A) = Some (Some o).
Proof.
  intros (Hid & Hp & Hq & Ht & Hf & Hm). unfold deserialize_order.
  assert (forall k, (k <= 34)%nat -> (k <= length (serialize_order o ++ C))%nat) as Hlen.
  { intros k Hk. rewrite length_app, length_serialize_order. lia. }
  rewrite <- (Nat.add_0_r (length A)) at 1. rewrite !slice_skip, !lookup_skip by (apply Hlen; lia).
  change (take 8 (drop 0 _)) with (u64_to_le (o_id o)).
  change ((serialize_order o ++ C) !! 8%nat) with (Some (side_byte (o_side o))).
  change ((serialize_order o ++ C) !! 9%nat) with (Some (tif_byte (o_time_in_force o))).
  change (take 8 (drop 10 _)) with (i64_to_le (o_price_ticks o)).
  change (take 8 (drop 18 _)) with (i64_to_le (o_quantity_lots o)).
  change (take 8 (drop 26 _)) with (u64_to_le (o_timestamp o)).
  bind_step. rewrite !u64_le_roundtrip, !i64_le_roundtrip by done.
  destruct o as [id [] p q f [] t m]; simpl in *; by subst.
Qed.

Lemma deserialize_orders_ok os : forall A, Forall order_encodable os ->
  deserialize_orders (A ++ concat (serialize_order <$> os)) (length os) (length A) = Some (Some os).
Proof.
  induction os as [|o os IH]; intros A Hok; [done|]. apply Forall_cons in Hok as [Ho Hos].
  cbn [fmap list_fmap concat length deserialize_orders].
  rewrite (proj2 (Nat.ltb_ge _ _)) by (rewrite !length_app, length_serialize_order; lia).
  rewrite deserialize_order_ok by done. bind_step.
  replace (length A + 34)%nat with (length (A ++ serialize_order o))
    by (rewrite length_app, length_serialize_order; lia).
  rewrite app_assoc, IH by done. done.
Qed.

(** *** Claims *)

(** an engine snapshot survives the wire: decoding the encoding of any
    snapshot whose fields fit their widths gives the snapshot back. *)
Theorem snapshot_wire_roundtrip snap : snapshot_encodable snap ->
  deserialize (serialize snap) = Some (Some snap).
Proof.
  intros (Ho & Hn & Ht & Hc). unfold deserialize, serialize.
  set (body := concat (serialize_order <$> es_orders snap)).
  set (h := MAGIC ++ u64_to_le (es_next_order_id snap) ++ u64_to_le (es_trade_sequence snap) ++
    u32_to_le (Z.of_nat (length (es_orders snap)) mod 2 ^ 32)).
  replace (MAGIC ++ _) with (h ++ body) by by unfold h; rewrite <- !app_assoc.
  assert (length h = 24%nat) as Hh by done.
  rewrite (proj2 (Nat.ltb_ge _ _)) by (rewrite length_app; lia).
  unfold slice. rewrite !(proj2 (Nat.leb_le _ _)) by (rewrite length_app; lia). bind_step.
  change (take 4 (drop 0 (h ++ body))) with MAGIC. rewrite bool_decide_true by done. cbn [negb].
  change (take 8 (drop 4 (h ++ body))) with (u64_to_le (es_next_order_id snap)).
  change (take 8 (drop 12 (h ++ body))) with (u64_to_le (es_trade_sequence snap)).
  change (take 4 (drop 20 (h ++ body))) with (u32_to_le (Z.of_nat (length (es_orders snap)) mod 2 ^ 32)).
  rewrite Z.mod_small, u32_le_roundtrip, Nat2Z.id, !u64_le_roundtrip by (done || lia).
  rewrite <- Hh. unfold body. rewrite deserialize_orders_ok by done. by destruct snap.
Qed.

(** decoding never panics: on any byte string the decoder returns, with a
    snapshot or a refusal. *)
Theorem deserialize_total buf : is_Some (deserialize buf).
Proof.
  unfold deserialize. destruct (Nat.ltb_spec (length buf) 24) as [|Hl]; [by eexists|].
  assert (forall n p, is_Some (deserialize_orders buf n p)) as Hos.
  { induction n as [|n IH]; intros p; simpl; [by eexists|].
    destruct (Nat.ltb_spec (length buf) (p + 34)) as [|Hp]; [by eexists|].
    assert (is_Some (deserialize_order buf p)) as [[o|] ->]; simpl; [|destruct (IH (p + 34)%nat) as [r ->]|];
      [|by eexists..].
    unfold deserialize_order. destruct (slice_is_Some buf p 8) as [? ->]; [lia|]. bind_step.
    destruct (lookup_lt_is_Some_2 buf (p + 8)) as [bs ->]; [lia|].
    destruct (lookup_lt_is_Some_2 buf (p + 9)) as [bt ->]; [lia|]. bind_step.
    destruct (side_of_byte bs), (tif_of_byte bt); try by eexists.
    destruct (slice_is_Some buf (p + 10) 8) as [? ->]; [lia|].
    destruct (slice_is_Some buf (p + 18) 8) as [? ->]; [lia|].
    destruct (slice_is_Some buf (p + 26) 8) as [? ->]; [lia|]. by eexists. }
  destruct (slice_is_Some buf 0 4) as [? ->]; [lia|]. bind_step. destruct (negb _); [by eexists|].
  destruct (slice_is_Some buf 4 8) as [? ->]; [lia|].
  destruct (slice_is_Some buf 12 8) as [? ->]; [lia|].
  destruct (slice_is_Some buf 20 4) as [c ->]; [lia|]. bind_step.
  destruct (Hos (Z.to_nat (from_le c)) 24%nat) as [r ->]. by eexists.
Qed.

Lemma snapshot_wire_roundtrip_witness :
  let snap := mkEngineSnapshot [Order.new 7 Sell 101 5 GTC 3; Order.new 9 Buy 99 2 PostOnly 4] 12 40 in
  deserialize (serialize snap) = Some (Some snap).
Proof.
  apply snapshot_wire_roundtrip. split; [|by vm_compute].
  by repeat constructor.
Defined.
