(* ===== verification/Fixed.v ===== *)
(** Fixed-point arithmetic of the desk: 128-bit intermediates, truncating
    division with its panics, checked and saturating operations, and sums over
    finite maps. *)
From Stdlib Require Import ZArith Lia.
From stdpp Require Import base numbers list gmap.
From S2P Require Import Prelude.

#[local] Open Scope Z_scope.

(** ** [i128] *)

Definition two127 : Z := 170141183460469231731687303715884105728.
Definition two128 : Z := 340282366920938463463374607431768211456.
Definition i128_min : Z := - two127.
Definition in_i128 (z : Z) : Prop := - two127 <= z < two127.
Definition wrap_i128 (z : Z) : Z := (z + two127) mod two128 - two127.

Definition i128_add (a b : Z) : Z := wrap_i128 (a + b).
Definition i128_sub (a b : Z) : Z := wrap_i128 (a - b).
Definition i128_mul (a b : Z) : Z := wrap_i128 (a * b).
Definition i128_neg (a : Z) : Z := wrap_i128 (- a).

(** Division and remainder panic on a zero divisor and on [MIN / -1], in every
    build profile. *)
Definition div_panics (min a b : Z) : bool := Z.eqb b 0 || (Z.eqb a min && Z.eqb b (-1)).
Definition i128_div (a b : Z) : option Z := if div_panics i128_min a b then None else Some (Z.quot a b).
Definition i64_div (a b : Z) : option Z := if div_panics i64_min a b then None else Some (Z.quot a b).
Definition i64_rem (a b : Z) : option Z := if div_panics i64_min a b then None else Some (Z.rem a b).

Definition i64_neg (a : Z) : Z := wrap_i64 (- a).

(** ** Checked and saturating [i64] *)

Definition fits_i64 (z : Z) : bool := Z.leb i64_min z && Z.leb z i64_max.
Definition i64_checked_add (a b : Z) : option Z := if fits_i64 (a + b) then Some (a + b) else None.
Definition i64_checked_sub (a b : Z) : option Z := if fits_i64 (a - b) then Some (a - b) else None.
Definition i64_checked_mul (a b : Z) : option Z := if fits_i64 (a * b) then Some (a * b) else None.
Definition i64_clamp (z : Z) : Z := Z.max i64_min (Z.min z i64_max).
Definition i64_saturating_add (a b : Z) : Z := i64_clamp (a + b).
Definition i64_saturating_sub (a b : Z) : Z := i64_clamp (a - b).

Lemma wrap_i128_id z : in_i128 z -> wrap_i128 z = z.
Proof. unfold in_i128, wrap_i128, two127, two128. intros ?. rewrite Z.mod_small; lia. Qed.

Lemma fits_i64_spec z : fits_i64 z = true <-> in_i64 z.
Proof. unfold fits_i64, in_i64. rewrite andb_true_iff, !Z.leb_le. lia. Qed.

Lemma i128_div_ok a b : b <> 0 -> a <> i128_min -> i128_div a b = Some (Z.quot a b).
Proof.
  intros Hb Ha. unfold i128_div, div_panics.
  by rewrite (proj2 (Z.eqb_neq _ _) Hb), (proj2 (Z.eqb_neq _ _) Ha).
Qed.

Lemma i64_div_ok a b : 0 < b -> i64_div a b = Some (Z.quot a b).
Proof.
  intros Hb. unfold i64_div, div_panics.
  rewrite (proj2 (Z.eqb_neq b 0)), (proj2 (Z.eqb_neq b (-1))), andb_false_r by lia. done.
Qed.

Lemma i64_rem_ok a b : 0 < b -> i64_rem a b = Some (Z.rem a b).
Proof.
  intros Hb. unfold i64_rem, div_panics.
  rewrite (proj2 (Z.eqb_neq b 0)), (proj2 (Z.eqb_neq b (-1))), andb_false_r by lia. done.
Qed.

(** Drop the wrapping where the value is in range. *)
Ltac in_range := unfold in_i128, in_i64, i64_max, i64_min, two127 in *; try lia; try nia.
Ltac no_wrap := repeat first
  [ rewrite i64_add_id by in_range | rewrite i64_sub_id by in_range | rewrite i64_mul_id by in_range
  | rewrite wrap_i64_id by in_range | rewrite wrap_i128_id by in_range ].

(** ** Wrapping is congruence modulo the width *)

Definition eq64 (a b : Z) : Prop := a mod two64 = b mod two64.

#[global] Instance eq64_equiv : Equivalence eq64.
Proof. split; [done|intros ? ?; by symmetry|intros ? ? ?; apply eq_trans]. Qed.

Lemma eq64_iff a b : eq64 a b <-> exists k, a = b + k * two64.
Proof.
  unfold eq64, two64. split.
  - intros H. exists (a / 18446744073709551616 - b / 18446744073709551616).
    pose proof (Z.div_mod a 18446744073709551616). pose proof (Z.div_mod b 18446744073709551616). lia.
  - intros [k ->]. by rewrite Z.mod_add.
Qed.

#[global] Instance eq64_add : Proper (eq64 ==> eq64 ==> eq64) Z.add.
Proof.
  intros a a' [k ->]%eq64_iff b b' [l ->]%eq64_iff. apply eq64_iff. exists (k + l). lia.
Qed.

#[global] Instance eq64_sub : Proper (eq64 ==> eq64 ==> eq64) Z.sub.
Proof.
  intros a a' [k ->]%eq64_iff b b' [l ->]%eq64_iff. apply eq64_iff. exists (k - l). lia.
Qed.

#[global] Instance eq64_mul : Proper (eq64 ==> eq64 ==> eq64) Z.mul.
Proof.
  intros a a' [k ->]%eq64_iff b b' [l ->]%eq64_iff. apply eq64_iff.
  exists (a' * l + k * b' + k * l * two64). lia.
Qed.

#[global] Instance eq64_opp : Proper (eq64 ==> eq64) Z.opp.
Proof. intros a a' [k ->]%eq64_iff. apply eq64_iff. exists (- k). lia. Qed.

Lemma eq64_refl_by a b : a = b -> eq64 a b.
Proof. by intros ->. Qed.

Lemma wrap_i64_eq64 z : eq64 (wrap_i64 z) z.
Proof.
  apply eq64_iff. exists (- ((z + two63) / two64)). unfold wrap_i64.
  pose proof (Z.div_mod (z + two63) two64). unfold two63, two64 in *. lia.
Qed.

Lemma i64_add_eq64 a b : eq64 (i64_add a b) (a + b).
Proof. apply wrap_i64_eq64. Qed.
Lemma i64_sub_eq64 a b : eq64 (i64_sub a b) (a - b).
Proof. apply wrap_i64_eq64. Qed.

Lemma eq64_range a b : eq64 a b -> in_i64 a -> in_i64 b -> a = b.
Proof. intros [k ->]%eq64_iff. unfold in_i64, i64_min, i64_max, two64. lia. Qed.

Lemma wrap_i64_proper a b : eq64 a b -> wrap_i64 a = wrap_i64 b.
Proof.
  intros H. apply eq64_range; [|apply wrap_i64_range..]. by rewrite !wrap_i64_eq64.
Qed.

(** ** Sums over finite maps *)

Section msum.
Context {K A : Type} `{Countable K}.
Implicit Type m : gmap K A.

Definition msum (f : K -> A -> Z) m : Z := map_fold (fun k x acc => f k x + acc) 0 m.

Lemma msum_empty f : msum f ∅ = 0.
Proof. apply map_fold_empty. Qed.

Lemma msum_insert f k x m : m !! k = None -> msum f (<[k:=x]> m) = f k x + msum f m.
Proof. intros Hk. unfold msum. rewrite map_fold_insert_L; [done|lia|done]. Qed.

(** Overwriting or adding a key replaces its contribution. *)
Lemma msum_upsert f k x m :
  msum f (<[k:=x]> m) = msum f m - from_option (f k) 0 (m !! k) + f k x.
Proof.
  destruct (m !! k) as [y|] eqn:Hk; simpl; [|rewrite msum_insert by done; lia].
  rewrite <- (insert_delete_id m k y) at 2 by done. rewrite <- insert_delete_eq.
  rewrite !msum_insert by apply lookup_delete_eq. lia.
Qed.

Lemma msum_zero f m : (forall k x, m !! k = Some x -> f k x = 0) -> msum f m = 0.
Proof.
  induction m as [|k x m Hk IH] using map_ind; intros Hf; [apply msum_empty|].
  rewrite msum_insert by done. rewrite (Hf k x) by apply lookup_insert_eq. apply IH.
  intros j y Hj. apply Hf. rewrite lookup_insert_ne; [done|congruence].
Qed.

Lemma msum_delete f k m : msum f (delete k m) = msum f m - from_option (f k) 0 (m !! k).
Proof.
  destruct (m !! k) as [y|] eqn:Hk; simpl; [|rewrite delete_id by done; lia].
  rewrite <- (insert_delete_id m k y) at 2 by done. rewrite msum_insert by apply lookup_delete_eq. lia.
Qed.
End msum.
