(* ===== verification/RiskCalc.v ===== *)
(** The data and the pure arithmetic of the risk engine
    ([src/src/desk/risk/types.rs], [src/src/desk/risk/calc.rs]).  Money is in
    atoms, prices in ticks, quantities in lots; every function that divides
    returns an [option], [None] being the division's panic. *)
From Stdlib Require Import ZArith Lia String.
From stdpp Require Import base numbers list gmap.
From S2P Require Import Prelude Fixed.

#[local] Open Scope Z_scope.

(** * Types *)

Inductive RiskStatus := Normal | MarginCall | LiquidationPending | Liquidating | Liquidated | Bankruptcy.
Inductive PositionSide := Long | Short.

#[global] Instance RiskStatus_eq_dec : EqDecision RiskStatus.
Proof. solve_decision. Defined.
#[global] Instance PositionSide_eq_dec : EqDecision PositionSide.
Proof. solve_decision. Defined.

(** [\[u8; 16\]] *)
Definition Symbol : Type := list Z.

(** [AccountRiskState]; [new] is an account with all of its balance available. *)
Record AccountRiskState := mkAccount {
  ac_user_id : Z;
  ac_equity : Z;
  ac_available_margin : Z;
  ac_order_margin : Z;
  ac_used_margin : Z;
  ac_maintenance_margin : Z;
  ac_unrealized_pnl : Z;
  ac_status : RiskStatus;
  ac_mark_price_ever_updated : bool
}.

Record PositionRiskState := mkPosition {
  ps_user_id : Z;
  ps_symbol : Symbol;
  ps_side : PositionSide;
  ps_qty_lots : Z;
  ps_cost_atoms : Z;
  ps_entry_price_ticks : Z;
  ps_mark_price_ticks : Z;
  ps_unrealized_pnl : Z;
  ps_initial_margin : Z;
  ps_maintenance_margin : Z;
  ps_liquidation_price_ticks : Z;
  ps_bankruptcy_price_ticks : Z;
  ps_leverage : Z
}.

Record AdlEvent := mkAdlEvent {
  ad_bankrupt_user_id : Z;
  ad_counterparty_user_id : Z;
  ad_qty_lots : Z;
  ad_price_ticks : Z
}.

Record LiquidationEvent := mkLiquidationEvent {
  lq_user_id : Z;
  lq_symbol : Symbol;
  lq_side : PositionSide;
  lq_qty_lots : Z;
  lq_liq_price_ticks : Z
}.

Module RiskStatus.

Definition to_u8 (s : RiskStatus) : Z :=
  match s with
  | Normal => 0 | MarginCall => 1 | LiquidationPending => 2
  | Liquidating => 3 | Liquidated => 4 | Bankruptcy => 5
  end.

Definition from_u8 (v : Z) : option RiskStatus :=
  match v with
  | 0 => Some Normal | 1 => Some MarginCall | 2 => Some LiquidationPending
  | 3 => Some Liquidating | 4 => Some Liquidated | 5 => Some Bankruptcy
  | _ => None
  end.

Definition as_db_str (s : RiskStatus) : string :=
  match s with
  | Normal => "normal" | MarginCall => "margin_call" | LiquidationPending => "liquidation_pending"
  | Liquidating => "liquidating" | Liquidated => "liquidated" | Bankruptcy => "bankruptcy"
  end%string.

Definition from_db_str (s : string) : option RiskStatus :=
  (if String.eqb s "normal" then Some Normal
   else if String.eqb s "margin_call" then Some MarginCall
   else if String.eqb s "liquidation_pending" then Some LiquidationPending
   else if String.eqb s "liquidating" then Some Liquidating
   else if String.eqb s "liquidated" then Some Liquidated
   else if String.eqb s "bankruptcy" then Some Bankruptcy
   else None)%string.
End RiskStatus.

Module PositionSide.

Definition to_u8 (s : PositionSide) : Z := match s with Long => 0 | Short => 1 end.

Definition from_u8 (v : Z) : option PositionSide :=
  match v with 0 => Some Long | 1 => Some Short | _ => None end.

Definition as_db_str (s : PositionSide) : string :=
  match s with Long => "long" | Short => "short" end%string.
End PositionSide.

Module AccountRiskState.

Definition new (user_id usdt_balance_atoms : Z) : AccountRiskState :=
  mkAccount user_id usdt_balance_atoms usdt_balance_atoms 0 0 0 0 Normal false.

Definition can_place_order (a : AccountRiskState) : bool :=
  match ac_status a with Normal | MarginCall => true | _ => false end.
End AccountRiskState.

(** * Arithmetic *)

Definition ATOMS_PER_CENT : Z := 1000000.

(** [((a as i128 * b as i128 * c) / d as i128) as i64] *)
Definition calc_notional_atoms (price_ticks qty_lots notional_scale : Z) : option Z :=
  q ← i128_div (i128_mul (i128_mul price_ticks qty_lots) ATOMS_PER_CENT) notional_scale;
  Some (wrap_i64 q).

Definition calc_initial_margin_atoms (notional_atoms leverage : Z) : option Z :=
  if Z.eqb leverage 0 then Some 0 else i64_div notional_atoms leverage.

Definition calc_maintenance_margin_atoms (notional_atoms rate_bps : Z) : option Z :=
  q ← i128_div (i128_mul notional_atoms rate_bps) 10000; Some (wrap_i64 q).

Definition calc_liquidation_price_ticks (entry_ticks leverage maintenance_rate_bps : Z)
  (side : PositionSide) : option Z :=
  if Z.eqb leverage 0 then Some 0
  else
    let denom := i128_mul leverage 10000 in
    match side with
    | Long =>
        let numer := i128_mul entry_ticks
          (i128_add (i128_sub (i128_mul leverage 10000) 10000) maintenance_rate_bps) in
        q ← i128_div numer denom; Some (wrap_i64 q)
    | Short =>
        let numer := i128_mul entry_ticks
          (i128_sub (i128_add (i128_mul leverage 10000) 10000) maintenance_rate_bps) in
        q ← i128_div numer denom; Some (wrap_i64 q)
    end.

Definition calc_bankruptcy_price_ticks (entry_ticks leverage : Z) (side : PositionSide) : option Z :=
  match side with
  | Long => q ← i128_div (i128_mul entry_ticks (i128_sub leverage 1)) leverage; Some (wrap_i64 q)
  | Short => q ← i128_div (i128_mul entry_ticks (i128_add leverage 1)) leverage; Some (wrap_i64 q)
  end.

Definition calc_unrealized_pnl_atoms (side : PositionSide)
  (qty_lots entry_price_ticks mark_price_ticks notional_scale : Z) : option Z :=
  let diff := match side with
    | Long => i64_sub mark_price_ticks entry_price_ticks
    | Short => i64_sub entry_price_ticks mark_price_ticks
    end in
  q ← i128_div (i128_mul (i128_mul diff qty_lots) ATOMS_PER_CENT) notional_scale;
  Some (wrap_i64 q).

Definition fee_atoms (notional_atoms fee_bps : Z) : option Z :=
  q ← i128_div (i128_mul notional_atoms fee_bps) 10000; Some (wrap_i64 q).

Definition liquidation_tranche_lots (position_lots tranche_bps : Z) : option Z :=
  if Z.leb 10000 tranche_bps || Z.leb position_lots 0 then Some position_lots
  else
    q ← i128_div (i128_mul position_lots tranche_bps) 10000;
    let tranche := Z.max (wrap_i64 q) 1 in
    let remainder := i64_sub position_lots tranche in
    Some (if Z.ltb (i64_mul remainder 5) position_lots then position_lots else tranche).

Fixpoint max_leverage_for_notional (notional_atoms : Z) (tiers : list (Z * Z)) : Z :=
  match tiers with
  | [] => 1
  | (bound_atoms, lev) :: tiers =>
      if Z.eqb bound_atoms i64_max || Z.leb notional_atoms bound_atoms then lev
      else max_leverage_for_notional notional_atoms tiers
  end.

(** * Facts the engine's proofs use *)

(** What is exact: no truncation and no overflow. *)
Lemma calc_notional_exact p q s : 0 < s -> Z.abs (p * q * ATOMS_PER_CENT) < two127 ->
  in_i64 (Z.quot (p * q * ATOMS_PER_CENT) s) ->
  calc_notional_atoms p q s = Some (Z.quot (p * q * ATOMS_PER_CENT) s).
Proof.
  intros Hs Hb Hr. unfold calc_notional_atoms, i128_mul, ATOMS_PER_CENT, i128_min in *.
  assert (Z.abs (p * q) < two127) by lia.
  rewrite (wrap_i128_id (p * q)) by (unfold in_i128; lia).
  rewrite wrap_i128_id by (unfold in_i128; lia).
  rewrite i128_div_ok by (unfold i128_min; lia). cbn [mbind option_bind].
  by rewrite wrap_i64_id.
Qed.

(** The nominal value of a fill is additive when the scale divides the atoms of
    a cent, which is so for the configured scales. *)
Lemma notional_split p q1 q2 s : 0 < s -> (s | ATOMS_PER_CENT) ->
  Z.quot (p * (q1 + q2) * ATOMS_PER_CENT) s =
  Z.quot (p * q1 * ATOMS_PER_CENT) s + Z.quot (p * q2 * ATOMS_PER_CENT) s.
Proof.
  intros Hs [k ->]. rewrite !Z.mul_assoc, !Z.quot_mul by lia. lia.
Qed.
