(* ===== verification/RiskEngine.v ===== *)
(** The risk engine ([src/src/desk/risk/engine.rs]): accounts, positions, mark
    prices, open interest and the insurance fund, with every operation on them.
    A concurrent map is a finite map; each method is the transformer of the
    whole state it performs when no other thread interferes. *)
From Stdlib Require Import ZArith Lia String.
From stdpp Require Import base numbers list gmap sorting.
From S2P Require Import Prelude Fixed RiskCalc.

#[local] Open Scope Z_scope.

(** * Iteration over hash containers

    [DashMap::iter] and [HashSet::iter] visit every entry once, in an order
    they do not promise. *)
Class HashIter := {
  iter_map {K A} `{Countable K} : gmap K A -> list (K * A);
  iter_set {K} `{Countable K} : gset K -> list K;
  iter_map_perm {K A} `{Countable K} (m : gmap K A) : iter_map m ≡ₚ map_to_list m;
  iter_set_perm {K} `{Countable K} (s : gset K) : iter_set s ≡ₚ elements s
}.

(** Each in the order of its own representation. *)
#[global] Instance plain_iter : HashIter := {|
  iter_map := fun K A _ _ m => map_to_list m;
  iter_set := fun K _ _ s => elements s;
  iter_map_perm := fun K A _ _ m => reflexivity _;
  iter_set_perm := fun K _ _ s => reflexivity _
|}.

(** * State *)

Record RiskEngine := mkRiskEngine {
  re_accounts : gmap Z AccountRiskState;
  re_positions : gmap (Z * Symbol) PositionRiskState;
  re_mark_prices : gmap Symbol Z;
  re_symbol_position_index : gmap Symbol (gset Z);
  re_symbol_oi_lots : gmap Symbol Z;
  re_insurance_fund_atoms : Z
}.

Module RiskEngine.

Definition set_accounts (e : RiskEngine) (a : gmap Z AccountRiskState) : RiskEngine :=
  mkRiskEngine a (re_positions e) (re_mark_prices e) (re_symbol_position_index e)
    (re_symbol_oi_lots e) (re_insurance_fund_atoms e).
Definition set_positions (e : RiskEngine) (p : gmap (Z * Symbol) PositionRiskState) : RiskEngine :=
  mkRiskEngine (re_accounts e) p (re_mark_prices e) (re_symbol_position_index e)
    (re_symbol_oi_lots e) (re_insurance_fund_atoms e).
Definition set_mark_prices (e : RiskEngine) (m : gmap Symbol Z) : RiskEngine :=
  mkRiskEngine (re_accounts e) (re_positions e) m (re_symbol_position_index e)
    (re_symbol_oi_lots e) (re_insurance_fund_atoms e).
Definition set_index (e : RiskEngine) (i : gmap Symbol (gset Z)) : RiskEngine :=
  mkRiskEngine (re_accounts e) (re_positions e) (re_mark_prices e) i
    (re_symbol_oi_lots e) (re_insurance_fund_atoms e).
Definition set_oi (e : RiskEngine) (o : gmap Symbol Z) : RiskEngine :=
  mkRiskEngine (re_accounts e) (re_positions e) (re_mark_prices e) (re_symbol_position_index e)
    o (re_insurance_fund_atoms e).
(** [insurance_fund_atoms.fetch_add(delta)] *)
Definition fund_add (e : RiskEngine) (delta : Z) : RiskEngine :=
  mkRiskEngine (re_accounts e) (re_positions e) (re_mark_prices e) (re_symbol_position_index e)
    (re_symbol_oi_lots e) (i64_add (re_insurance_fund_atoms e) delta).

Definition ac_set_status (a : AccountRiskState) (s : RiskStatus) : AccountRiskState :=
  mkAccount (ac_user_id a) (ac_equity a) (ac_available_margin a) (ac_order_margin a)
    (ac_used_margin a) (ac_maintenance_margin a) (ac_unrealized_pnl a) s
    (ac_mark_price_ever_updated a).
Definition ac_set_cash (a : AccountRiskState) (equity available : Z) : AccountRiskState :=
  mkAccount (ac_user_id a) equity available (ac_order_margin a) (ac_used_margin a)
    (ac_maintenance_margin a) (ac_unrealized_pnl a) (ac_status a) (ac_mark_price_ever_updated a).
Definition ac_set_margins (a : AccountRiskState) (available order : Z) : AccountRiskState :=
  mkAccount (ac_user_id a) (ac_equity a) available order (ac_used_margin a)
    (ac_maintenance_margin a) (ac_unrealized_pnl a) (ac_status a) (ac_mark_price_ever_updated a).

Definition new : RiskEngine := mkRiskEngine ∅ ∅ ∅ ∅ ∅ 0.

Definition insurance_fund (e : RiskEngine) : Z := re_insurance_fund_atoms e.

Definition initialize_account (e : RiskEngine) (user_id usdt_balance_atoms : Z) : RiskEngine :=
  set_accounts e (<[user_id := AccountRiskState.new user_id usdt_balance_atoms]> (re_accounts e)).

Definition account_count (e : RiskEngine) : nat := size (re_accounts e).
Definition mark_price_ticks (e : RiskEngine) (symbol : Symbol) : option Z := re_mark_prices e !! symbol.

Definition set_account_status (e : RiskEngine) (user_id : Z) (status : RiskStatus) : RiskEngine * bool :=
  match re_accounts e !! user_id with
  | None => (e, false)
  | Some a => (set_accounts e (<[user_id := ac_set_status a status]> (re_accounts e)), true)
  end.

Definition set_account_status_if (e : RiskEngine) (user_id : Z) (expected status : RiskStatus)
  : RiskEngine * bool :=
  match re_accounts e !! user_id with
  | None => (e, false)
  | Some a =>
      if negb (bool_decide (ac_status a = expected)) then (e, false)
      else (set_accounts e (<[user_id := ac_set_status a status]> (re_accounts e)), true)
  end.

(** * Limits *)

Definition symbol_open_interest_lots (e : RiskEngine) (symbol : Symbol) : Z :=
  match re_symbol_oi_lots e !! symbol with Some v => Z.max v 0 | None => 0 end.

Definition check_position_limit (e : RiskEngine) (user_id : Z) (symbol : Symbol)
  (additional_lots max_position_lots : Z) : result unit string :=
  if Z.leb max_position_lots 0 then Ok ()
  else
    let current := match re_positions e !! (user_id, symbol) with Some p => ps_qty_lots p | None => 0 end in
    if Z.ltb max_position_lots (i64_saturating_add current additional_lots)
    then Err "Position limit exceeded"%string else Ok ().

Definition check_symbol_oi_limit (e : RiskEngine) (symbol : Symbol)
  (additional_lots max_oi_lots : Z) : result unit string :=
  if Z.leb max_oi_lots 0 then Ok ()
  else if Z.ltb max_oi_lots (i64_saturating_add (symbol_open_interest_lots e symbol) additional_lots)
  then Err "Symbol open interest limit exceeded"%string else Ok ().

Definition check_reduce_only (e : RiskEngine) (user_id : Z) (symbol : Symbol)
  (order_side qty_lots : Z) : result Z string :=
  match re_positions e !! (user_id, symbol) with
  | None => Err "reduce-only: no open position to reduce"%string
  | Some pos =>
      let reduces := match ps_side pos with Long => Z.eqb order_side 1 | Short => Z.eqb order_side 0 end in
      if negb reduces then Err "reduce-only: order would increase the position"%string
      else Ok (Z.min qty_lots (ps_qty_lots pos))
  end.

Definition check_leverage_tier (e : RiskEngine) (user_id : Z) (symbol : Symbol)
  (add_notional_atoms notional_scale : Z) (tiers : list (Z * Z)) (used_leverage : Z)
  : option (result unit string) :=
  match tiers with
  | [] => Some (Ok ())
  | _ =>
      current ← match re_positions e !! (user_id, symbol) with
        | Some p => calc_notional_atoms (ps_mark_price_ticks p) (ps_qty_lots p) notional_scale
        | None => Some 0
        end;
      let total := i64_saturating_add current (Z.max add_notional_atoms 0) in
      Some (if Z.ltb (max_leverage_for_notional total tiers) used_leverage
            then Err "Leverage exceeds risk tier for position size"%string else Ok ())
  end.

(** * Order margin *)

Definition check_and_reserve_margin (e : RiskEngine) (user_id initial_margin_atoms : Z)
  : RiskEngine * result Z string :=
  match re_accounts e !! user_id with
  | None => (e, Err "Account not found"%string)
  | Some a =>
      if negb (AccountRiskState.can_place_order a) then (e, Err "Account in liquidation"%string)
      else
        let cur := ac_available_margin a in
        if Z.ltb cur initial_margin_atoms then (e, Err "Insufficient margin"%string)
        else
          let a := ac_set_margins a (i64_sub cur initial_margin_atoms)
                     (i64_add (ac_order_margin a) initial_margin_atoms) in
          (set_accounts e (<[user_id := a]> (re_accounts e)), Ok initial_margin_atoms)
  end.

Definition release_order_margin (e : RiskEngine) (user_id initial_margin_atoms : Z) : RiskEngine :=
  match re_accounts e !! user_id with
  | None => e
  | Some a =>
      let a := ac_set_margins a (i64_add (ac_available_margin a) initial_margin_atoms)
                 (i64_sub (ac_order_margin a) initial_margin_atoms) in
      set_accounts e (<[user_id := a]> (re_accounts e))
  end.

Definition charge_fee (e : RiskEngine) (user_id fee : Z) : RiskEngine :=
  if Z.eqb fee 0 then e
  else
    let e := match re_accounts e !! user_id with
      | None => e
      | Some a =>
          let a := ac_set_cash a (i64_sub (ac_equity a) fee) (i64_sub (ac_available_margin a) fee) in
          set_accounts e (<[user_id := a]> (re_accounts e))
      end in
    fund_add e fee.

(** * Fills *)

(** [refresh_risk_fields] *)
Definition refresh_risk_fields (pos : PositionRiskState) (notional_scale maintenance_rate_bps : Z)
  : option PositionRiskState :=
  notional ← calc_notional_atoms (ps_entry_price_ticks pos) (ps_qty_lots pos) notional_scale;
  maint ← calc_maintenance_margin_atoms notional maintenance_rate_bps;
  liq ← calc_liquidation_price_ticks (ps_entry_price_ticks pos) (ps_leverage pos)
          maintenance_rate_bps (ps_side pos);
  bkrpt ← calc_bankruptcy_price_ticks (ps_entry_price_ticks pos) (ps_leverage pos) (ps_side pos);
  Some (mkPosition (ps_user_id pos) (ps_symbol pos) (ps_side pos) (ps_qty_lots pos)
    (ps_cost_atoms pos) (ps_entry_price_ticks pos) (ps_mark_price_ticks pos)
    (ps_unrealized_pnl pos) (ps_initial_margin pos) maint liq bkrpt (ps_leverage pos)).

Definition ps_set_pnl (pos : PositionRiskState) (mark upnl : Z) : PositionRiskState :=
  mkPosition (ps_user_id pos) (ps_symbol pos) (ps_side pos) (ps_qty_lots pos)
    (ps_cost_atoms pos) (ps_entry_price_ticks pos) mark upnl (ps_initial_margin pos)
    (ps_maintenance_margin pos) (ps_liquidation_price_ticks pos) (ps_bankruptcy_price_ticks pos)
    (ps_leverage pos).

(** [refresh_unrealized_pnl] *)
Definition refresh_unrealized_pnl (pos : PositionRiskState) (notional_scale : Z)
  : option PositionRiskState :=
  upnl ← calc_unrealized_pnl_atoms (ps_side pos) (ps_qty_lots pos) (ps_entry_price_ticks pos)
           (ps_mark_price_ticks pos) notional_scale;
  Some (ps_set_pnl pos (ps_mark_price_ticks pos) upnl).

(** A position opened by one fill: the fresh side of [compute_position_update],
    with no position before and after a flip. *)
Definition open_position (user_id : Z) (symbol : Symbol) (side : PositionSide)
  (price qty margin notional_scale leverage maintenance_rate_bps : Z) : option PositionRiskState :=
  notional ← calc_notional_atoms price qty notional_scale;
  maint ← calc_maintenance_margin_atoms notional maintenance_rate_bps;
  liq ← calc_liquidation_price_ticks price leverage maintenance_rate_bps side;
  bkrpt ← calc_bankruptcy_price_ticks price leverage side;
  Some (mkPosition user_id symbol side qty notional price price 0 margin maint liq bkrpt leverage).

(** The position with the quantities a fill changes, before the refreshes. *)
Definition ps_resize (pos : PositionRiskState) (qty cost entry mark margin : Z) : PositionRiskState :=
  mkPosition (ps_user_id pos) (ps_symbol pos) (ps_side pos) qty cost entry mark
    (ps_unrealized_pnl pos) margin (ps_maintenance_margin pos) (ps_liquidation_price_ticks pos)
    (ps_bankruptcy_price_ticks pos) (ps_leverage pos).

(** [compute_position_update]: (new position, released margin, realized PnL). *)
Definition compute_position_update (existing : option PositionRiskState) (user_id : Z)
  (symbol : Symbol) (fill_side : PositionSide)
  (fill_price_ticks fill_qty_lots fill_margin_atoms notional_scale leverage maintenance_rate_bps : Z)
  : option (option PositionRiskState * Z * Z) :=
  match existing with
  | None =>
      p ← open_position user_id symbol fill_side fill_price_ticks fill_qty_lots fill_margin_atoms
            notional_scale leverage maintenance_rate_bps;
      Some (Some p, 0, 0)
  | Some pos =>
      if bool_decide (ps_side pos = fill_side) then
        let old_qty := ps_qty_lots pos in
        let new_qty := i64_add old_qty fill_qty_lots in
        entry ← i128_div (i128_add (i128_mul (ps_entry_price_ticks pos) old_qty)
                  (i128_mul fill_price_ticks fill_qty_lots)) new_qty;
        value ← calc_notional_atoms fill_price_ticks fill_qty_lots notional_scale;
        let updated := ps_resize pos new_qty (i64_add (ps_cost_atoms pos) value) (wrap_i64 entry)
          fill_price_ticks (i64_add (ps_initial_margin pos) fill_margin_atoms) in
        updated ← refresh_risk_fields updated notional_scale maintenance_rate_bps;
        updated ← refresh_unrealized_pnl updated notional_scale;
        Some (Some updated, 0, 0)
      else
        let sign := match ps_side pos with Long => 1 | Short => -1 end in
        if Z.leb (ps_qty_lots pos) fill_qty_lots then
          let close_qty := ps_qty_lots pos in
          exit_value ← calc_notional_atoms fill_price_ticks close_qty notional_scale;
          let realized_pnl := i128_mul sign (i128_sub exit_value (ps_cost_atoms pos)) in
          let released_margin := ps_initial_margin pos in
          let remaining_qty := i64_sub fill_qty_lots close_qty in
          if Z.eqb remaining_qty 0 then Some (None, released_margin, wrap_i64 realized_pnl)
          else
            flip_margin ← i64_div (i64_mul fill_margin_atoms remaining_qty) fill_qty_lots;
            p ← open_position user_id symbol fill_side fill_price_ticks remaining_qty flip_margin
                  notional_scale leverage maintenance_rate_bps;
            Some (Some p, released_margin, wrap_i64 realized_pnl)
        else
          let close_qty := fill_qty_lots in
          released_cost ← i128_div (i128_mul (ps_cost_atoms pos) close_qty) (ps_qty_lots pos);
          let released_cost := wrap_i64 released_cost in
          exit_value ← calc_notional_atoms fill_price_ticks close_qty notional_scale;
          let realized_pnl := i128_mul sign (i128_sub exit_value released_cost) in
          released_margin ← i64_div (i64_mul (ps_initial_margin pos) close_qty) (ps_qty_lots pos);
          let updated := ps_resize pos (i64_sub (ps_qty_lots pos) close_qty)
            (i64_sub (ps_cost_atoms pos) released_cost) (ps_entry_price_ticks pos) fill_price_ticks
            (i64_sub (ps_initial_margin pos) released_margin) in
          updated ← refresh_risk_fields updated notional_scale maintenance_rate_bps;
          updated ← refresh_unrealized_pnl updated notional_scale;
          Some (Some updated, released_margin, wrap_i64 realized_pnl)
  end.

(** What a fill owes the insurance fund. *)
Definition insurance_delta (e : RiskEngine) (user_id order_side fill_price_ticks fill_qty_lots
  notional_scale liq_price_ticks released_used_margin realized_pnl : Z) : option Z :=
  if Z.ltb 0 released_used_margin then
    if negb (Z.eqb liq_price_ticks 0) then
      let sign := if Z.eqb order_side 1 then 1 else -1 in
      fill_value ← calc_notional_atoms fill_price_ticks fill_qty_lots notional_scale;
      settle_value ← calc_notional_atoms liq_price_ticks fill_qty_lots notional_scale;
      Some (i64_mul sign (i64_sub fill_value settle_value))
    else
      let is_liquidating := match re_accounts e !! user_id with
        | Some a => bool_decide (ac_status a = Liquidating) | None => false end in
      Some (if is_liquidating then realized_pnl else 0)
  else Some 0.

(** The account's side of a fill. *)
Definition fill_account (a : AccountRiskState) (fill_margin_atoms liq_price_ticks
  released_used_margin realized_pnl flip_margin flip_dust upnl_delta maint_delta : Z)
  : AccountRiskState :=
  let order_margin :=
    if Z.eqb liq_price_ticks 0 then Z.max (i64_sub (ac_order_margin a) fill_margin_atoms) 0
    else ac_order_margin a in
  let '(used_margin, available, status) :=
    if Z.ltb 0 released_used_margin then
      (i64_add (Z.max (i64_sub (ac_used_margin a) released_used_margin) 0) flip_margin,
       i64_add (i64_sub (i64_add (i64_add (i64_add (ac_available_margin a) fill_margin_atoms)
         released_used_margin) realized_pnl) flip_margin) flip_dust,
       if bool_decide (ac_status a = Liquidating) then Normal else ac_status a)
    else (i64_add (ac_used_margin a) fill_margin_atoms, ac_available_margin a, ac_status a) in
  let unrealized_pnl := i64_add (ac_unrealized_pnl a) upnl_delta in
  mkAccount (ac_user_id a)
    (i64_add (i64_add (i64_add available order_margin) used_margin) unrealized_pnl)
    available order_margin used_margin
    (Z.max (i64_add (ac_maintenance_margin a) maint_delta) 0)
    unrealized_pnl status (ac_mark_price_ever_updated a).

(** Keep [symbol_position_index] in step with the position of [user_id]. *)
Definition reindex (e : RiskEngine) (user_id : Z) (symbol : Symbol) : RiskEngine :=
  let has_open := match re_positions e !! (user_id, symbol) with
    | Some p => Z.ltb 0 (ps_qty_lots p) | None => false end in
  let idx := re_symbol_position_index e in
  if has_open then set_index e (<[symbol := {[user_id]} ∪ default ∅ (idx !! symbol)]> idx)
  else match idx !! symbol with
    | Some s => set_index e (<[symbol := s ∖ {[user_id]}]> idx)
    | None => e
    end.

(** [on_fill] *)
Definition on_fill (e : RiskEngine) (user_id : Z) (symbol : Symbol) (order_side fill_price_ticks
  fill_qty_lots fill_margin_atoms notional_scale leverage maintenance_rate_bps liq_price_ticks : Z)
  : option RiskEngine :=
  if Z.leb fill_qty_lots 0 then Some e
  else
    let fill_side := if Z.eqb order_side 0 then Long else Short in
    let settlement_price_ticks := if Z.eqb liq_price_ticks 0 then fill_price_ticks else liq_price_ticks in
    let existing := re_positions e !! (user_id, symbol) in
    let old f := match existing with Some p => f p | None => 0 end in
    '(new_pos, released_used_margin, realized_pnl) ←
      compute_position_update existing user_id symbol fill_side settlement_price_ticks
        fill_qty_lots fill_margin_atoms notional_scale leverage maintenance_rate_bps;
    let new f := match new_pos with Some p => f p | None => 0 end in
    let unrealized_pnl_delta := i64_sub (new ps_unrealized_pnl) (old ps_unrealized_pnl) in
    let maintenance_margin_delta := i64_sub (new ps_maintenance_margin) (old ps_maintenance_margin) in
    let e := set_positions e
      (match new_pos with
       | Some p => <[(user_id, symbol) := p]> (re_positions e)
       | None => delete (user_id, symbol) (re_positions e)
       end) in
    let oi_delta := i64_sub (new ps_qty_lots) (old ps_qty_lots) in
    let e := if Z.eqb oi_delta 0 then e
      else set_oi e (<[symbol := i64_add (default 0 (re_symbol_oi_lots e !! symbol)) oi_delta]>
             (re_symbol_oi_lots e)) in
    insurance ← insurance_delta e user_id order_side fill_price_ticks fill_qty_lots notional_scale
                  liq_price_ticks released_used_margin realized_pnl;
    let e := if Z.eqb insurance 0 then e else fund_add e insurance in
    '(flip_margin, flip_dust) ← match new_pos with
      | Some p =>
          if bool_decide (ps_side p = fill_side) then
            dust ← i64_rem (i64_mul fill_margin_atoms (ps_qty_lots p)) fill_qty_lots;
            Some (ps_initial_margin p, dust)
          else Some (0, 0)
      | None => Some (0, 0)
      end;
    let e := match re_accounts e !! user_id with
      | Some a => set_accounts e (<[user_id := fill_account a fill_margin_atoms liq_price_ticks
          released_used_margin realized_pnl flip_margin flip_dust unrealized_pnl_delta
          maintenance_margin_delta]> (re_accounts e))
      | None => e
      end in
    let e := match re_mark_prices e !! symbol with
      | Some _ => e
      | None => set_mark_prices e (<[symbol := fill_price_ticks]> (re_mark_prices e))
      end in
    Some (reindex e user_id symbol).

(** * Mark prices *)

(** [(new_price_ticks + 9 * old) / 10] *)
Definition ewma (old new_price_ticks : Z) : Z := Z.quot (i64_add new_price_ticks (i64_mul 9 old)) 10.

(** One user of the loop of [update_mark_price]. *)
Definition remark (symbol : Symbol) (mark_ticks notional_scale : Z) (e : RiskEngine) (uid : Z)
  : option RiskEngine :=
  match re_positions e !! (uid, symbol) with
  | None => Some e
  | Some pos =>
      new_upnl ← calc_unrealized_pnl_atoms (ps_side pos) (ps_qty_lots pos) (ps_entry_price_ticks pos)
                   mark_ticks notional_scale;
      let upnl_delta := i64_sub new_upnl (ps_unrealized_pnl pos) in
      let e := set_positions e (<[(uid, symbol) := ps_set_pnl pos mark_ticks new_upnl]> (re_positions e)) in
      Some (match re_accounts e !! uid with
        | None => e
        | Some a =>
            let upnl := i64_add (ac_unrealized_pnl a) upnl_delta in
            let equity := i64_add (i64_add (i64_add (ac_available_margin a) (ac_order_margin a))
                            (ac_used_margin a)) upnl in
            set_accounts e (<[uid := mkAccount (ac_user_id a) equity (ac_available_margin a)
              (ac_order_margin a) (ac_used_margin a) (ac_maintenance_margin a) upnl (ac_status a) true]>
              (re_accounts e))
        end)
  end.

Section iteration.
Context `{HashIter}.

(** The users [symbol_position_index] lists for a symbol. *)
Definition holders (e : RiskEngine) (symbol : Symbol) : list Z :=
  match re_symbol_position_index e !! symbol with Some s => iter_set s | None => [] end.

Definition update_mark_price (e : RiskEngine) (symbol : Symbol) (new_price_ticks notional_scale : Z)
  : option RiskEngine :=
  if Z.leb new_price_ticks 0 then Some e
  else
    let mark_ticks := ewma (default new_price_ticks (re_mark_prices e !! symbol)) new_price_ticks in
    let e := set_mark_prices e (<[symbol := mark_ticks]> (re_mark_prices e)) in
    mfold (remark symbol mark_ticks notional_scale) e (holders e symbol).

(** * The risk tick *)

(** [Vec::dedup]: drop repeats of the element before. *)
Fixpoint dedup (l : list Z) : list Z :=
  match l with
  | x :: (y :: _) as l' => if Z.eqb x y then dedup l' else x :: dedup l'
  | l => l
  end.

Definition assess (a : AccountRiskState) : RiskStatus :=
  let equity := ac_equity a in
  let maintenance_margin := ac_maintenance_margin a in
  if Z.eqb (ac_used_margin a) 0 then Normal
  else if Z.leb equity 0 then Bankruptcy
  else if Z.leb equity maintenance_margin then LiquidationPending
  else if Z.ltb (i64_mul equity 2) (i64_mul 3 maintenance_margin) then MarginCall
  else Normal.

(** Pass 1 for one account: (user, old status, new status). *)
Definition status_update (a : AccountRiskState) : option (Z * RiskStatus * RiskStatus) :=
  if negb (ac_mark_price_ever_updated a) then None
  else match ac_status a with
    | Liquidating | Liquidated | Bankruptcy => None
    | _ => Some (ac_user_id a, ac_status a, assess a)
    end.

Definition newly_pending (u : Z * RiskStatus * RiskStatus) : bool :=
  bool_decide (u.2 = LiquidationPending) && negb (bool_decide (u.1.2 = LiquidationPending)).

(** Pass 3 for one account: compare and swap. *)
Definition apply_status (e : RiskEngine) (u : Z * RiskStatus * RiskStatus) : RiskEngine :=
  match re_accounts e !! u.1.1 with
  | None => e
  | Some a =>
      if bool_decide (ac_status a = u.1.2)
      then set_accounts e (<[u.1.1 := ac_set_status a u.2]> (re_accounts e)) else e
  end.

Definition liquidation_event (x : (Z * Symbol) * PositionRiskState) : LiquidationEvent :=
  mkLiquidationEvent x.1.1 x.1.2 (ps_side x.2) (ps_qty_lots x.2) (ps_liquidation_price_ticks x.2).

Definition risk_updates (e : RiskEngine) : list (Z * RiskStatus * RiskStatus) :=
  let risk_user_ids := dedup (merge_sort Z.le (fst <$> (iter_map (re_positions e)).*1)) in
  omap status_update (omap (fun uid => re_accounts e !! uid) risk_user_ids).

Definition run_risk_tick (e : RiskEngine) : RiskEngine * list LiquidationEvent :=
  let updates := risk_updates e in
  let liq_uids := (fun u => u.1.1) <$> filter (fun u => newly_pending u = true) updates in
  let to_liquidate := match liq_uids with
    | [] => []
    | _ => liquidation_event <$> filter (fun x => x.1.1 ∈ merge_sort Z.le liq_uids) (iter_map (re_positions e))
    end in
  (foldl apply_status e updates, to_liquidate).

(** * Auto-deleveraging *)

Definition is_bankrupt (e : RiskEngine) (uid : Z) : bool :=
  match re_accounts e !! uid with Some a => bool_decide (ac_status a = Bankruptcy) | None => false end.

Definition adl_bankrupts (e : RiskEngine) (symbol : Symbol) : list (Z * PositionSide * Z * Z) :=
  omap (fun uid =>
      p ← re_positions e !! (uid, symbol);
      Some (uid, ps_side p, ps_qty_lots p, ps_bankruptcy_price_ticks p))
    (filter (fun uid => is_bankrupt e uid = true) (holders e symbol)).

Definition score_ge (x y : Z * Z * Z) : Prop := y.2 <= x.2.

#[global] Instance score_ge_dec : RelDecision score_ge.
Proof. intros x y. unfold score_ge. apply _. Defined.

(** Opposite-side holders: (user, lots, score), best score first. *)
Definition adl_candidates (e : RiskEngine) (symbol : Symbol) (hs : list Z) (bankrupt_uid : Z)
  (b_side : PositionSide) : list (Z * Z * Z) :=
  merge_sort score_ge
    (omap (fun uid =>
        p ← re_positions e !! (uid, symbol);
        if bool_decide (ps_side p = b_side) then None
        else Some (uid, ps_qty_lots p,
               Z.quot (i128_mul (Z.max (ps_unrealized_pnl p) 0) 10000) (Z.max (ps_initial_margin p) 1)))
      (filter (fun uid => uid <> bankrupt_uid) hs)).

(** The pairing loop of one bankrupt account. *)
Fixpoint adl_pair (e : RiskEngine) (symbol : Symbol) (notional_scale leverage maintenance_rate_bps : Z)
  (bankrupt_uid : Z) (b_side : PositionSide) (bkrpt_price qty_left : Z) (candidates : list (Z * Z * Z))
  : option (RiskEngine * list AdlEvent) :=
  match candidates with
  | [] => Some (e, [])
  | (cand_uid, cand_qty, _) :: candidates =>
      if Z.leb qty_left 0 then Some (e, [])
      else
        let take := Z.min qty_left cand_qty in
        let close_side_cand := match b_side with Long => 0 | Short => 1 end in
        e ← on_fill e cand_uid symbol close_side_cand bkrpt_price take 0 notional_scale leverage
              maintenance_rate_bps 0;
        let close_side_b := match b_side with Long => 1 | Short => 0 end in
        e ← on_fill e bankrupt_uid symbol close_side_b bkrpt_price take 0 notional_scale leverage
              maintenance_rate_bps bkrpt_price;
        '(e, events) ← adl_pair e symbol notional_scale leverage maintenance_rate_bps bankrupt_uid
              b_side bkrpt_price (i64_sub qty_left take) candidates;
        Some (e, mkAdlEvent bankrupt_uid cand_uid take bkrpt_price :: events)
  end.

(** The fund takes over a negative equity; a flat account returns to normal. *)
Definition socialize (e : RiskEngine) (bankrupt_uid : Z) : RiskEngine :=
  match re_accounts e !! bankrupt_uid with
  | None => e
  | Some a =>
      let '(e, a) :=
        if Z.ltb (ac_equity a) 0 then (fund_add e (ac_equity a), ac_set_cash a 0 0) else (e, a) in
      let a := if Z.eqb (ac_used_margin a) 0 then ac_set_status a Normal else a in
      set_accounts e (<[bankrupt_uid := a]> (re_accounts e))
  end.

Fixpoint adl_all (e : RiskEngine) (symbol : Symbol) (notional_scale leverage maintenance_rate_bps : Z)
  (hs : list Z) (bankrupts : list (Z * PositionSide * Z * Z)) : option (RiskEngine * list AdlEvent) :=
  match bankrupts with
  | [] => Some (e, [])
  | (bankrupt_uid, b_side, qty_left, bkrpt_price) :: bankrupts =>
      let candidates := adl_candidates e symbol hs bankrupt_uid b_side in
      '(e, evs1) ← adl_pair e symbol notional_scale leverage maintenance_rate_bps bankrupt_uid b_side
                     bkrpt_price qty_left candidates;
      '(e, evs2) ← adl_all (socialize e bankrupt_uid) symbol notional_scale leverage
                     maintenance_rate_bps hs bankrupts;
      Some (e, evs1 ++ evs2)
  end.

Definition run_adl (e : RiskEngine) (symbol : Symbol) (notional_scale leverage maintenance_rate_bps : Z)
  : option (RiskEngine * list AdlEvent) :=
  adl_all e symbol notional_scale leverage maintenance_rate_bps (holders e symbol) (adl_bankrupts e symbol).
End iteration.
End RiskEngine.
