(* ===== verification/Funding.v ===== *)
(** Perpetual-swap funding ([src/src/desk/funding.rs]): premium sampling, the
    period's rate, the settlement over a position set, its mirror in the risk
    engine, and the settlement schedule. *)
From Stdlib Require Import ZArith Lia.
From stdpp Require Import base numbers list gmap.
From S2P Require Import Prelude Fixed RiskCalc RiskEngine.

#[local] Open Scope Z_scope.

Definition RATE_SCALE_E9 : Z := 1000000000.

Record FundingConfig := mkFundingConfig {
  fc_period_secs : Z;
  fc_interest_e9 : Z;
  fc_clamp_e9 : Z
}.

(** [FundingConfig::from_env], with the three environment values already parsed
    ([None]: unset or not a number). *)
Definition config_from (period interest clamp : option Z) : option FundingConfig :=
  let clamp_e9 := default 7500000 clamp in
  let interest_e9 := default 100000 interest in
  if Z.ltb clamp_e9 0 then None
  else if Z.ltb 1000000 (wrap_i64 (Z.abs interest_e9)) then None
  else Some (mkFundingConfig (wrap_u64 (default 28800 period)) interest_e9 clamp_e9).

(** * Premium *)

Record PremiumTracker := mkPremiumTracker { pt_sum_e9 : Z; pt_samples : Z }.

Module PremiumTracker.

Definition default : PremiumTracker := mkPremiumTracker 0 0.

Definition sample (t : PremiumTracker) (mark_ticks index_ticks : Z) : PremiumTracker :=
  if Z.leb index_ticks 0 || Z.leb mark_ticks 0 then t
  else
    let premium := Z.quot (i128_mul (i128_sub mark_ticks index_ticks) RATE_SCALE_E9) index_ticks in
    mkPremiumTracker (i128_add (pt_sum_e9 t) premium) (u64_add (pt_samples t) 1).

Definition twap_e9 (t : PremiumTracker) : Z :=
  if Z.eqb (pt_samples t) 0 then 0 else wrap_i64 (Z.quot (pt_sum_e9 t) (pt_samples t)).

(** [clamp] panics when its bounds are crossed. *)
Definition close_period (t : PremiumTracker) (cfg : FundingConfig) : option (PremiumTracker * Z) :=
  let raw := i128_add (twap_e9 t) (fc_interest_e9 cfg) in
  let lo := i128_neg (fc_clamp_e9 cfg) in
  let hi := fc_clamp_e9 cfg in
  if Z.ltb hi lo then None
  else Some (mkPremiumTracker 0 0, wrap_i64 (Z.max lo (Z.min raw hi))).
End PremiumTracker.

(** * Settlement *)

Definition compute_payment (qty_lots mark_ticks notional_scale rate_e9 : Z) : option Z :=
  value ← calc_notional_atoms mark_ticks qty_lots notional_scale;
  Some (wrap_i64 (Z.quot (i128_mul value rate_e9) RATE_SCALE_E9)).

Record FundingSettlement := mkFundingSettlement {
  fs_deltas : list (Z * Z);
  fs_long_paid_atoms : Z;
  fs_short_received_atoms : Z;
  fs_residue_atoms : Z
}.

(** The loop of [compute_settlement]. *)
Definition settle_one (mark_ticks notional_scale rate_e9 : Z) (out : FundingSettlement)
  (pos : Z * PositionSide * Z) : option FundingSettlement :=
  let '(user_id, side, qty_lots) := pos in
  p ← compute_payment qty_lots mark_ticks notional_scale rate_e9;
  let delta := match side with Long => i64_neg p | Short => p end in
  Some (if Z.eqb delta 0 then out
        else mkFundingSettlement (vec_push (fs_deltas out) (user_id, delta))
          (if Z.ltb delta 0 then i64_add (fs_long_paid_atoms out) (i64_neg delta) else fs_long_paid_atoms out)
          (if Z.ltb delta 0 then fs_short_received_atoms out else i64_add (fs_short_received_atoms out) delta)
          (fs_residue_atoms out)).

Definition compute_settlement (positions : list (Z * PositionSide * Z))
  (mark_ticks notional_scale rate_e9 : Z) : option FundingSettlement :=
  let out := mkFundingSettlement [] 0 0 0 in
  if Z.eqb rate_e9 0 then Some out
  else
    out ← mfold (settle_one mark_ticks notional_scale rate_e9) out positions;
    let sum := foldl i64_add 0 (fs_deltas out).*2 in
    Some (mkFundingSettlement (fs_deltas out) (fs_long_paid_atoms out) (fs_short_received_atoms out)
            (i64_neg sum)).

(** One delta of [apply_in_memory]. *)
Definition credit (e : RiskEngine) (d : Z * Z) : RiskEngine :=
  match re_accounts e !! d.1 with
  | None => e
  | Some a =>
      let a := RiskEngine.ac_set_cash a (i64_add (ac_equity a) d.2) (i64_add (ac_available_margin a) d.2) in
      RiskEngine.set_accounts e (<[d.1 := a]> (re_accounts e))
  end.

Definition apply_in_memory (e : RiskEngine) (s : FundingSettlement) : RiskEngine :=
  let e := foldl credit e (fs_deltas s) in
  if Z.eqb (fs_residue_atoms s) 0 then e else RiskEngine.fund_add e (fs_residue_atoms s).

(** * Schedule *)

Record FundingScheduler := mkFundingScheduler { sc_next_settlement_at_ms : Z; sc_period_ms : Z }.

Module FundingScheduler.

Definition new (persisted_next_ms : option Z) (now_ms : Z) (cfg : FundingConfig) : FundingScheduler :=
  let period_ms := i64_mul (wrap_i64 (fc_period_secs cfg)) 1000 in
  mkFundingScheduler (default (i64_add now_ms period_ms) persisted_next_ms) period_ms.

Definition due (s : FundingScheduler) (now_ms : Z) : FundingScheduler * option Z :=
  if Z.ltb now_ms (sc_next_settlement_at_ms s) then (s, None)
  else
    let boundary := sc_next_settlement_at_ms s in
    (mkFundingScheduler (i64_add boundary (sc_period_ms s)) (sc_period_ms s), Some boundary).
End FundingScheduler.
