(* ===== verification/RiskInv.v ===== *)
(** Invariants of the risk engine: what a fill changes, and the book-keeping that
    every operation keeps. *)
From Stdlib Require Import ZArith Lia String.
From stdpp Require Import base numbers list gmap sorting.
From S2P Require Import Prelude Fixed RiskCalc RiskEngine Funding.

#[local] Open Scope Z_scope.

Definition pos_field (f : PositionRiskState -> Z) (p : option PositionRiskState) : Z :=
  match p with Some p => f p | None => 0 end.

Definition put_pos (m : gmap (Z * Symbol) PositionRiskState) (k : Z * Symbol)
  (p : option PositionRiskState) : gmap (Z * Symbol) PositionRiskState :=
  match p with Some p => <[k := p]> m | None => delete k m end.

Definition fill_side_of (order_side : Z) : PositionSide := if Z.eqb order_side 0 then Long else Short.
Definition settle_price (fill_price liq_price : Z) : Z := if Z.eqb liq_price 0 then fill_price else liq_price.

(** The flip terms of [on_fill]. *)
Definition flip_terms (new_pos : option PositionRiskState) (fill_side : PositionSide)
  (fill_margin fill_qty : Z) : option (Z * Z) :=
  match new_pos with
  | Some p =>
      if bool_decide (ps_side p = fill_side) then
        dust ← i64_rem (i64_mul fill_margin (ps_qty_lots p)) fill_qty;
        Some (ps_initial_margin p, dust)
      else Some (0, 0)
  | None => Some (0, 0)
  end.

(** Everything a fill of positive quantity does, component by component. *)
Record filled (e : RiskEngine) (uid : Z) (sym : Symbol) (side price qty margin scale lev rate liq : Z)
  (new_pos : option PositionRiskState) (released pnl fm fd ins : Z) (e' : RiskEngine) : Prop := {
  fl_update : RiskEngine.compute_position_update (re_positions e !! (uid, sym)) uid sym (fill_side_of side)
    (settle_price price liq) qty margin scale lev rate = Some (new_pos, released, pnl);
  fl_flip : flip_terms new_pos (fill_side_of side) margin qty = Some (fm, fd);
  fl_ins : RiskEngine.insurance_delta e uid side price qty scale liq released pnl = Some ins;
  fl_positions : re_positions e' = put_pos (re_positions e) (uid, sym) new_pos;
  fl_accounts : re_accounts e' =
    alter (fun a => RiskEngine.fill_account a margin liq released pnl fm fd
      (i64_sub (pos_field ps_unrealized_pnl new_pos) (pos_field ps_unrealized_pnl (re_positions e !! (uid, sym))))
      (i64_sub (pos_field ps_maintenance_margin new_pos) (pos_field ps_maintenance_margin (re_positions e !! (uid, sym)))))
      uid (re_accounts e);
  fl_fund : eq64 (re_insurance_fund_atoms e') (re_insurance_fund_atoms e + ins);
  fl_oi s : eq64 (default 0 (re_symbol_oi_lots e' !! s))
    (default 0 (re_symbol_oi_lots e !! s) + (if decide (s = sym) then
       pos_field ps_qty_lots new_pos - pos_field ps_qty_lots (re_positions e !! (uid, sym)) else 0));
  fl_index s u : u ∈ default ∅ (re_symbol_position_index e' !! s) <->
    if decide (s = sym /\ u = uid) then 0 < pos_field ps_qty_lots new_pos
    else u ∈ default ∅ (re_symbol_position_index e !! s)
}.

Lemma put_pos_lookup m k p k' : put_pos m k p !! k' = if decide (k' = k) then p else m !! k'.
Proof.
  unfold put_pos. destruct p; (destruct (decide (k' = k)) as [->|Hk];
    [rewrite ?lookup_insert_eq, ?lookup_delete_eq; done|rewrite ?lookup_insert_ne, ?lookup_delete_ne; done]).
Qed.

Lemma reindex_spec e uid sym s u :
  u ∈ default ∅ (re_symbol_position_index (RiskEngine.reindex e uid sym) !! s) <->
  if decide (s = sym /\ u = uid) then 0 < pos_field ps_qty_lots (re_positions e !! (uid, sym))
  else u ∈ default ∅ (re_symbol_position_index e !! s).
Proof.
  unfold RiskEngine.reindex. set (q := pos_field _ _).
  assert (match re_positions e !! (uid, sym) with Some p => Z.ltb 0 (ps_qty_lots p) | None => false end
    = Z.ltb 0 q) as -> by (unfold q, pos_field; by destruct (re_positions e !! (uid, sym))).
  destruct (Z.ltb_spec 0 q); [|destruct (re_symbol_position_index e !! sym) as [x|] eqn:Hx]; simpl.
  all: destruct (decide (s = sym)) as [->|Hs]; rewrite ?lookup_insert_eq, ?lookup_insert_ne by done; simpl;
    rewrite ?Hx; simpl.
  all: destruct (decide _) as [Hd|Hd]; try (destruct Hd; by subst); try set_solver.
  all: destruct Hd as [_ ->]; split; [set_solver|lia].
Qed.

Lemma reindex_fields e uid sym :
  re_accounts (RiskEngine.reindex e uid sym) = re_accounts e /\
  re_positions (RiskEngine.reindex e uid sym) = re_positions e /\
  re_symbol_oi_lots (RiskEngine.reindex e uid sym) = re_symbol_oi_lots e /\
  re_insurance_fund_atoms (RiskEngine.reindex e uid sym) = re_insurance_fund_atoms e.
Proof. unfold RiskEngine.reindex. by repeat case_match. Qed.

Lemma on_fill_inv e uid sym side price qty margin scale lev rate liq e' : 0 < qty ->
  RiskEngine.on_fill e uid sym side price qty margin scale lev rate liq = Some e' ->
  exists new_pos released pnl fm fd ins,
    filled e uid sym side price qty margin scale lev rate liq new_pos released pnl fm fd ins e'.
Proof.
  intros Hq H. unfold RiskEngine.on_fill in H. rewrite (proj2 (Z.leb_gt _ _) Hq) in H. cbv zeta in H.
  fold (fill_side_of side) in H. fold (settle_price price liq) in H.
  destruct (RiskEngine.compute_position_update _ _ _ _ _ _ _ _ _ _) as [[[np rel] pnl]|] eqn:HU; [|done].
  cbn [mbind option_bind] in H.
  set (e1 := RiskEngine.set_positions e _) in H.
  set (e2 := if Z.eqb (i64_sub _ _) 0 then e1 else _) in H.
  destruct (RiskEngine.insurance_delta _ _ _ _ _ _ _ _ _) as [ins|] eqn:HI; [|done]. cbn [mbind option_bind] in H.
  set (e3 := if Z.eqb ins 0 then e2 else _) in H.
  fold (flip_terms np (fill_side_of side) margin qty) in H.
  destruct (flip_terms _ _ _ _) as [[fm fd]|] eqn:HF; [|done]. cbn [mbind option_bind] in H.
  set (e4 := match re_accounts e3 !! uid with Some a => _ | None => e3 end) in H.
  set (e5 := match re_mark_prices e4 !! sym with Some _ => e4 | None => _ end) in H.
  injection H as <-. exists np, rel, pnl, fm, fd, ins.
  assert (re_accounts e3 = re_accounts e) as A3 by (unfold e3, e2, e1; by repeat case_match).
  assert (re_positions e5 = put_pos (re_positions e) (uid, sym) np) as P5
    by (unfold e5, e4, e3, e2, e1; by repeat case_match).
  assert (re_symbol_position_index e5 = re_symbol_position_index e) as X5
    by (unfold e5, e4, e3, e2, e1; by repeat case_match).
  assert (re_symbol_oi_lots e5 = re_symbol_oi_lots e2) as O5 by (unfold e5, e4, e3; by repeat case_match).
  assert (re_insurance_fund_atoms e5 = re_insurance_fund_atoms e3) as F5
    by (unfold e5, e4; by repeat case_match).
  assert (re_accounts e5 = re_accounts e4) as A5 by (unfold e5; by repeat case_match).
  destruct (reindex_fields e5 uid sym) as (R1 & R2 & R3 & R4). split; try done.
  - rewrite <- HI. unfold RiskEngine.insurance_delta.
    by replace (re_accounts e2) with (re_accounts e) by (unfold e2, e1; by repeat case_match).
  - by rewrite R2.
  - rewrite R1, A5. unfold e4. rewrite A3. apply map_eq. intros u.
    destruct (re_accounts e !! uid) as [a|] eqn:Ha; simpl; rewrite ?A3;
      (destruct (decide (u = uid)) as [->|Hu]; [rewrite lookup_alter_eq, Ha|rewrite lookup_alter_ne by done]).
    + by rewrite lookup_insert_eq.
    + by rewrite lookup_insert_ne.
    + done.
    + done.
  - rewrite R4, F5. unfold e3. assert (re_insurance_fund_atoms e2 = re_insurance_fund_atoms e) as F2
      by (unfold e2, e1; by repeat case_match).
    destruct (Z.eqb_spec ins 0) as [->|]; simpl; rewrite F2; [by rewrite Z.add_0_r|apply i64_add_eq64].
  - intros s. rewrite R3, O5. change (re_symbol_oi_lots e) with (re_symbol_oi_lots e1). unfold e2.
    fold (pos_field ps_qty_lots np). fold (pos_field ps_qty_lots (re_positions e !! (uid, sym))).
    set (d := i64_sub _ _). assert (eq64 d (pos_field ps_qty_lots np -
      pos_field ps_qty_lots (re_positions e !! (uid, sym)))) as Hd by apply i64_sub_eq64.
    destruct (Z.eqb_spec d 0) as [H0|]; simpl.
    + destruct (decide _); [|by rewrite Z.add_0_r]. by rewrite <- Hd, H0, Z.add_0_r.
    + destruct (decide (s = sym)) as [->|Hs]; [|by rewrite lookup_insert_ne, Z.add_0_r].
      rewrite lookup_insert_eq. simpl. by rewrite i64_add_eq64, Hd.
  - intros s u. rewrite reindex_spec, P5, put_pos_lookup, X5.
    destruct (decide (s = sym /\ u = uid)); [|done]. by rewrite decide_True.
Qed.

(** * The books agree *)

(** Contribution of a position to the totals of a user or of a symbol. *)
Definition of_user (f : PositionRiskState -> Z) (uid : Z) (k : Z * Symbol) (p : PositionRiskState) : Z :=
  if decide (k.1 = uid) then f p else 0.
Definition of_symbol (f : PositionRiskState -> Z) (s : Symbol) (k : Z * Symbol) (p : PositionRiskState) : Z :=
  if decide (k.2 = s) then f p else 0.

Definition balances (a : AccountRiskState) : Prop :=
  eq64 (ac_equity a)
    (ac_available_margin a + ac_order_margin a + ac_used_margin a + ac_unrealized_pnl a).

Record booked (e : RiskEngine) : Prop := {
  (** equity is the sum of its parts *)
  bk_equity uid a : re_accounts e !! uid = Some a -> balances a;
  (** an account's unrealized PnL is that of its positions *)
  bk_upnl uid a : re_accounts e !! uid = Some a ->
    eq64 (ac_unrealized_pnl a) (msum (of_user ps_unrealized_pnl uid) (re_positions e));
  (** positions are never empty *)
  bk_qty k p : re_positions e !! k = Some p -> 0 < ps_qty_lots p <= i64_max;
  (** open interest is the lots of the symbol's positions *)
  bk_oi s : eq64 (default 0 (re_symbol_oi_lots e !! s)) (msum (of_symbol ps_qty_lots s) (re_positions e));
  (** the symbol index lists exactly the holders *)
  bk_index s u : u ∈ default ∅ (re_symbol_position_index e !! s) <-> is_Some (re_positions e !! (u, s))
}.

Lemma msum_put f m k p :
  msum f (put_pos m k p) = msum f m - from_option (f k) 0 (m !! k) + from_option (f k) 0 p.
Proof. destruct p; simpl; [apply msum_upsert|rewrite msum_delete; lia]. Qed.

Lemma of_user_put f uid m k p :
  msum (of_user f uid) (put_pos m k p) =
    msum (of_user f uid) m + (if decide (k.1 = uid) then pos_field f p - pos_field f (m !! k) else 0).
Proof. rewrite msum_put. unfold of_user. destruct (m !! k), p; simpl; destruct (decide _); lia. Qed.

Lemma of_symbol_put f s m k p :
  msum (of_symbol f s) (put_pos m k p) =
    msum (of_symbol f s) m + (if decide (k.2 = s) then pos_field f p - pos_field f (m !! k) else 0).
Proof. rewrite msum_put. unfold of_symbol. destruct (m !! k), p; simpl; destruct (decide _); lia. Qed.

(** ** What [compute_position_update] returns *)

Lemma refresh_keeps pos scale rate u : RiskEngine.refresh_risk_fields pos scale rate = Some u ->
  ps_side u = ps_side pos /\ ps_qty_lots u = ps_qty_lots pos /\ ps_cost_atoms u = ps_cost_atoms pos /\
  ps_initial_margin u = ps_initial_margin pos.
Proof.
  unfold RiskEngine.refresh_risk_fields. intros H.
  repeat (apply bind_Some in H as (? & ? & H)). by injection H as <-.
Qed.

Lemma repnl_keeps pos scale u : RiskEngine.refresh_unrealized_pnl pos scale = Some u ->
  ps_side u = ps_side pos /\ ps_qty_lots u = ps_qty_lots pos /\ ps_cost_atoms u = ps_cost_atoms pos /\
  ps_initial_margin u = ps_initial_margin pos.
Proof.
  unfold RiskEngine.refresh_unrealized_pnl. intros H. apply bind_Some in H as (? & ? & H).
  by injection H as <-.
Qed.

(** A position of the given side, size, cost and margin. *)
Definition pos_is (p : PositionRiskState) (side : PositionSide) (qty cost margin : Z) : Prop :=
  ps_side p = side /\ ps_qty_lots p = qty /\ ps_cost_atoms p = cost /\ ps_initial_margin p = margin.

Definition pnl_sign (side : PositionSide) : Z := match side with Long => 1 | Short => -1 end.

(** The five outcomes: open, increase, close, flip, reduce. *)
Inductive updated (fs : PositionSide) (price qty margin scale : Z) :
  option PositionRiskState -> option PositionRiskState -> Z -> Z -> Prop :=
| up_open v p : calc_notional_atoms price qty scale = Some v -> pos_is p fs qty v margin ->
    updated fs price qty margin scale None (Some p) 0 0
| up_add pos v p : ps_side pos = fs -> calc_notional_atoms price qty scale = Some v ->
    pos_is p fs (i64_add (ps_qty_lots pos) qty) (i64_add (ps_cost_atoms pos) v)
      (i64_add (ps_initial_margin pos) margin) ->
    updated fs price qty margin scale (Some pos) (Some p) 0 0
| up_close pos x : ps_side pos <> fs -> ps_qty_lots pos <= qty -> i64_sub qty (ps_qty_lots pos) = 0 ->
    calc_notional_atoms price (ps_qty_lots pos) scale = Some x ->
    updated fs price qty margin scale (Some pos) None (ps_initial_margin pos)
      (wrap_i64 (i128_mul (pnl_sign (ps_side pos)) (i128_sub x (ps_cost_atoms pos))))
| up_flip pos x v fm p : ps_side pos <> fs -> ps_qty_lots pos <= qty -> i64_sub qty (ps_qty_lots pos) <> 0 ->
    calc_notional_atoms price (ps_qty_lots pos) scale = Some x ->
    calc_notional_atoms price (i64_sub qty (ps_qty_lots pos)) scale = Some v ->
    i64_div (i64_mul margin (i64_sub qty (ps_qty_lots pos))) qty = Some fm ->
    pos_is p fs (i64_sub qty (ps_qty_lots pos)) v fm ->
    updated fs price qty margin scale (Some pos) (Some p) (ps_initial_margin pos)
      (wrap_i64 (i128_mul (pnl_sign (ps_side pos)) (i128_sub x (ps_cost_atoms pos))))
| up_reduce pos x rc rm p : ps_side pos <> fs -> qty < ps_qty_lots pos ->
    calc_notional_atoms price qty scale = Some x ->
    i64_div (i64_mul (ps_initial_margin pos) qty) (ps_qty_lots pos) = Some rm ->
    pos_is p (ps_side pos) (i64_sub (ps_qty_lots pos) qty) (i64_sub (ps_cost_atoms pos) (wrap_i64 rc))
      (i64_sub (ps_initial_margin pos) rm) ->
    updated fs price qty margin scale (Some pos) (Some p) rm
      (wrap_i64 (i128_mul (pnl_sign (ps_side pos)) (i128_sub x (wrap_i64 rc)))).

Lemma open_is uid sym side price qty margin scale lev rate p :
  RiskEngine.open_position uid sym side price qty margin scale lev rate = Some p ->
  exists v, calc_notional_atoms price qty scale = Some v /\ pos_is p side qty v margin.
Proof.
  unfold RiskEngine.open_position. intros H. apply bind_Some in H as (v & Hv & H).
  repeat (apply bind_Some in H as (? & ? & H)). injection H as <-. by exists v.
Qed.

Lemma refreshed_is pos scale rate u1 u : RiskEngine.refresh_risk_fields pos scale rate = Some u1 ->
  RiskEngine.refresh_unrealized_pnl u1 scale = Some u ->
  pos_is u (ps_side pos) (ps_qty_lots pos) (ps_cost_atoms pos) (ps_initial_margin pos).
Proof.
  intros (? & ? & ? & ?)%refresh_keeps (? & ? & ? & ?)%repnl_keeps. unfold pos_is. split_and!; congruence.
Qed.

Lemma update_inv existing uid sym fs price qty margin scale lev rate np rel pnl :
  RiskEngine.compute_position_update existing uid sym fs price qty margin scale lev rate = Some (np, rel, pnl) ->
  updated fs price qty margin scale existing np rel pnl.
Proof.
  unfold RiskEngine.compute_position_update. destruct existing as [pos|]; intros H.
  2:{ apply bind_Some in H as (p & (v & Hv & Hp)%open_is & H). injection H as <- <- <-. by eapply up_open. }
  case_bool_decide as Hs.
  { apply bind_Some in H as (en & _ & H). apply bind_Some in H as (v & Hv & H). cbv zeta in H.
    apply bind_Some in H as (u1 & H1 & H). apply bind_Some in H as (u & H2 & H). injection H as <- <- <-.
    eapply up_add; [done..|]. rewrite <- Hs. exact (refreshed_is _ _ _ _ _ H1 H2). }
  cbv zeta in H. fold (pnl_sign (ps_side pos)) in H. destruct (Z.leb_spec (ps_qty_lots pos) qty) as [Hq|Hq].
  - apply bind_Some in H as (x & Hx & H). destruct (Z.eqb_spec (i64_sub qty (ps_qty_lots pos)) 0) as [H0|H0].
    { injection H as <- <- <-. by apply up_close. }
    apply bind_Some in H as (fm & Hfm & H). apply bind_Some in H as (p & (v & Hv & Hp)%open_is & H).
    injection H as <- <- <-. by eapply up_flip.
  - apply bind_Some in H as (rc & _ & H). apply bind_Some in H as (x & Hx & H).
    apply bind_Some in H as (rm & Hrm & H). apply bind_Some in H as (u1 & H1 & H).
    apply bind_Some in H as (u & H2 & H). injection H as <- <- <-.
    eapply up_reduce; [done..|]. exact (refreshed_is _ _ _ _ _ H1 H2).
Qed.

Lemma updated_qty fs price qty margin scale existing np rel pnl :
  updated fs price qty margin scale existing np rel pnl -> 0 < qty <= i64_max ->
  (forall p, existing = Some p -> 0 < ps_qty_lots p /\ ps_qty_lots p + qty <= i64_max) ->
  forall p, np = Some p -> 0 < ps_qty_lots p <= i64_max.
Proof.
  intros HU Hq Hex. destruct HU as [v p _ Hp|pos v p _ _ Hp|pos x|pos x v fm p _ Hle Hne _ _ _ Hp|pos x rc rm p _ Hlt _ _ Hp];
    intros p' [=]; subst p'; try (destruct (Hex pos eq_refl) as [? ?]); destruct Hp as (_ & -> & _); [done|..].
  - rewrite i64_add_id by (unfold in_i64, i64_min; lia). lia.
  - rewrite i64_sub_id in * by (unfold in_i64, i64_min in *; lia). lia.
  - rewrite i64_sub_id by (unfold in_i64, i64_min in *; lia). lia.
Qed.

(** ** Preservation *)

Lemma fill_account_balances a margin liq rel pnl fm fd du dm :
  balances (RiskEngine.fill_account a margin liq rel pnl fm fd du dm).
Proof.
  unfold balances, RiskEngine.fill_account. destruct (Z.ltb 0 rel); cbn -[eq64]; by rewrite !i64_add_eq64.
Qed.

Lemma fill_account_upnl a margin liq rel pnl fm fd du dm :
  ac_unrealized_pnl (RiskEngine.fill_account a margin liq rel pnl fm fd du dm) = i64_add (ac_unrealized_pnl a) du.
Proof. unfold RiskEngine.fill_account. by destruct (Z.ltb 0 rel). Qed.

Lemma on_fill_booked e uid sym side price qty margin scale lev rate liq e' : booked e -> qty <= i64_max ->
  (forall p, re_positions e !! (uid, sym) = Some p -> ps_qty_lots p + qty <= i64_max) ->
  RiskEngine.on_fill e uid sym side price qty margin scale lev rate liq = Some e' -> booked e'.
Proof.
  intros K Hq Hfit H. destruct (Z.leb_spec qty 0) as [Hn|Hp].
  { unfold RiskEngine.on_fill in H. rewrite (proj2 (Z.leb_le _ _) Hn) in H. by injection H as <-. }
  apply on_fill_inv in H as (np & rel & pnl & fm & fd & ins & F); [|done].
  pose proof (update_inv _ _ _ _ _ _ _ _ _ _ _ _ _ (fl_update _ _ _ _ _ _ _ _ _ _ _ _ _ _ _ _ _ _ F)) as HU.
  assert (forall p, np = Some p -> 0 < ps_qty_lots p <= i64_max) as Hnp.
  { eapply updated_qty; [exact HU|lia|]. intros p Hx. split; [by eapply K|by apply Hfit]. }
  split; rewrite ?(fl_positions _ _ _ _ _ _ _ _ _ _ _ _ _ _ _ _ _ _ F), ?(fl_accounts _ _ _ _ _ _ _ _ _ _ _ _ _ _ _ _ _ _ F).
  - intros u a. destruct (decide (u = uid)) as [->|Hu]; [rewrite lookup_alter_eq|rewrite lookup_alter_ne by done; apply K].
    intros (a0 & _ & ->)%fmap_Some. apply fill_account_balances.
  - intros u a. rewrite of_user_put. cbn [fst]. destruct (decide (u = uid)) as [->|Hu].
    + rewrite lookup_alter_eq, decide_True by done. intros (a0 & Ha0 & ->)%fmap_Some_1.
      rewrite fill_account_upnl, i64_add_eq64, i64_sub_eq64. by rewrite (bk_upnl _ K _ _ Ha0).
    + rewrite lookup_alter_ne, decide_False, Z.add_0_r by done. apply K.
  - intros k p. rewrite put_pos_lookup. destruct (decide _); [apply Hnp|apply K].
  - intros s. rewrite (fl_oi _ _ _ _ _ _ _ _ _ _ _ _ _ _ _ _ _ _ F s), of_symbol_put. cbn [snd].
    rewrite (bk_oi _ K s). destruct (decide (s = sym)) as [->|Hs]; [by rewrite decide_True|by rewrite decide_False].
  - intros s u. rewrite (fl_index _ _ _ _ _ _ _ _ _ _ _ _ _ _ _ _ _ _ F s u), put_pos_lookup.
    destruct (decide (s = sym /\ u = uid)) as [[-> ->]|Hd].
    + rewrite decide_True by done. destruct np as [p|]; simpl; [|split; [lia|by intros [? ?]]].
      split; [by exists p|]. intros _. by apply Hnp.
    + rewrite decide_False by naive_solver. apply K.
Qed.

Lemma booked_touch e e' : booked e -> re_positions e' = re_positions e ->
  re_symbol_oi_lots e' = re_symbol_oi_lots e -> re_symbol_position_index e' = re_symbol_position_index e ->
  (forall uid a', re_accounts e' !! uid = Some a' -> balances a' /\
     exists a, re_accounts e !! uid = Some a /\ ac_unrealized_pnl a' = ac_unrealized_pnl a) -> booked e'.
Proof.
  intros K HP HO HX HA. split; rewrite ?HP, ?HO, ?HX; try apply K.
  - intros uid a' Ha. by destruct (HA _ _ Ha).
  - intros uid a' Ha. destruct (HA _ _ Ha) as (_ & a & Ha0 & ->). by apply (bk_upnl _ K).
Qed.

(** Replacing one account by one with the same unrealized PnL. *)
Lemma booked_account e uid a a' : booked e -> re_accounts e !! uid = Some a ->
  ac_unrealized_pnl a' = ac_unrealized_pnl a -> (balances a -> balances a') ->
  booked (RiskEngine.set_accounts e (<[uid := a']> (re_accounts e))).
Proof.
  intros K Ha Hu Hb. apply (booked_touch e); try done. intros u b. simpl.
  destruct (decide (u = uid)) as [->|Hne].
  - rewrite lookup_insert_eq. intros [= <-]. split; [apply Hb, (bk_equity _ K _ _ Ha)|by exists a].
  - rewrite lookup_insert_ne by done. intros Hb'. split; [by eapply K|by exists b].
Qed.

Lemma booked_fund e d : booked e -> booked (RiskEngine.fund_add e d).
Proof. intros K. apply (booked_touch e); try done. intros uid a Ha. split; [by eapply K|by exists a]. Qed.

Lemma booked_new : booked RiskEngine.new.
Proof.
  split; simpl; try (intros ? ?; by rewrite lookup_empty).
  - intros s. rewrite lookup_empty, msum_empty. done.
  - intros s u. rewrite !lookup_empty. simpl. split; [set_solver|by intros [? ?]].
Qed.

Lemma booked_initialize e uid bal : booked e ->
  (forall s, re_positions e !! (uid, s) = None) -> booked (RiskEngine.initialize_account e uid bal).
Proof.
  intros K Hno. split; simpl; try apply K.
  - intros u a. destruct (decide (u = uid)) as [->|Hu].
    + rewrite lookup_insert_eq. intros [= <-]. unfold balances. simpl. by rewrite !Z.add_0_r.
    + rewrite lookup_insert_ne by done. apply K.
  - intros u a. destruct (decide (u = uid)) as [->|Hu].
    + rewrite lookup_insert_eq. intros [= <-]. rewrite msum_zero; [done|].
      intros [v s] p Hp. unfold of_user. simpl. destruct (decide (v = uid)) as [->|]; [|done].
      by rewrite Hno in Hp.
    + rewrite lookup_insert_ne by done. apply K.
Qed.

Lemma booked_reserve e uid m : booked e -> booked (RiskEngine.check_and_reserve_margin e uid m).1.
Proof.
  intros K. unfold RiskEngine.check_and_reserve_margin. destruct (re_accounts e !! uid) as [a|] eqn:Ha; [|done].
  destruct (negb _); [done|]. cbv zeta. destruct (Z.ltb _ _); [done|]. eapply booked_account; [done..|].
  unfold balances. simpl. intros ->. rewrite i64_sub_eq64, i64_add_eq64. apply eq64_iff. exists 0. lia.
Qed.

Lemma booked_release e uid m : booked e -> booked (RiskEngine.release_order_margin e uid m).
Proof.
  intros K. unfold RiskEngine.release_order_margin. destruct (re_accounts e !! uid) as [a|] eqn:Ha; [|done].
  eapply booked_account; [done..|].
  unfold balances. simpl. intros ->. rewrite i64_sub_eq64, i64_add_eq64. apply eq64_iff. exists 0. lia.
Qed.

Lemma balances_credit a d : balances a ->
  balances (RiskEngine.ac_set_cash a (i64_add (ac_equity a) d) (i64_add (ac_available_margin a) d)).
Proof.
  unfold balances. simpl. intros H. rewrite !i64_add_eq64, H. apply eq64_iff. exists 0. lia.
Qed.

Lemma booked_fee e uid fee : booked e -> booked (RiskEngine.charge_fee e uid fee).
Proof.
  intros K. unfold RiskEngine.charge_fee. destruct (Z.eqb fee 0); [done|]. apply booked_fund.
  destruct (re_accounts e !! uid) as [a|] eqn:Ha; [|done]. eapply booked_account; [done..|].
  unfold balances. simpl. intros H. rewrite !i64_sub_eq64, H. apply eq64_iff. exists 0. lia.
Qed.

Lemma booked_status_if e uid x s : booked e -> booked (RiskEngine.set_account_status_if e uid x s).1.
Proof.
  intros K. unfold RiskEngine.set_account_status_if. destruct (re_accounts e !! uid) as [a|] eqn:Ha; [|done].
  destruct (negb _); [done|]. by eapply booked_account.
Qed.

Lemma booked_status e uid s : booked e -> booked (RiskEngine.set_account_status e uid s).1.
Proof.
  intros K. unfold RiskEngine.set_account_status. destruct (re_accounts e !! uid) as [a|] eqn:Ha; [|done].
  by eapply booked_account.
Qed.

Lemma booked_credit e d : booked e -> booked (credit e d).
Proof.
  intros K. unfold credit. destruct (re_accounts e !! d.1) as [a|] eqn:Ha; [|done].
  eapply booked_account; [done..|]. apply balances_credit.
Qed.

Lemma booked_funding e s : booked e -> booked (apply_in_memory e s).
Proof.
  intros K. unfold apply_in_memory. assert (booked (foldl credit e (fs_deltas s))) as K'.
  { generalize (fs_deltas s). intros l. revert e K. induction l as [|d l IH]; intros e K; [done|].
    apply IH. by apply booked_credit. }
  destruct (Z.eqb _ 0); [done|]. by apply booked_fund.
Qed.

Lemma booked_apply_status e u : booked e -> booked (RiskEngine.apply_status e u).
Proof.
  intros K. unfold RiskEngine.apply_status. destruct (re_accounts e !! u.1.1) as [a|] eqn:Ha; [|done].
  destruct (bool_decide _); [|done]. by eapply booked_account.
Qed.

Lemma booked_tick `{HashIter} e : booked e -> booked (RiskEngine.run_risk_tick e).1.
Proof.
  unfold RiskEngine.run_risk_tick. cbn [fst]. generalize (RiskEngine.risk_updates e). intros l. revert e.
  induction l as [|u l IH]; intros e K; [done|]. apply IH. by apply booked_apply_status.
Qed.

(** An account after the unrealized PnL of one of its positions moved by [d]. *)
Definition remark_account (d : Z) (a : AccountRiskState) : AccountRiskState :=
  let upnl := i64_add (ac_unrealized_pnl a) d in
  mkAccount (ac_user_id a)
    (i64_add (i64_add (i64_add (ac_available_margin a) (ac_order_margin a)) (ac_used_margin a)) upnl)
    (ac_available_margin a) (ac_order_margin a) (ac_used_margin a) (ac_maintenance_margin a) upnl
    (ac_status a) true.

Lemma remark_inv sym mark scale e uid e' p : re_positions e !! (uid, sym) = Some p ->
  RiskEngine.remark sym mark scale e uid = Some e' ->
  exists x, calc_unrealized_pnl_atoms (ps_side p) (ps_qty_lots p) (ps_entry_price_ticks p) mark scale = Some x /\
    re_positions e' = put_pos (re_positions e) (uid, sym) (Some (RiskEngine.ps_set_pnl p mark x)) /\
    re_accounts e' = alter (remark_account (i64_sub x (ps_unrealized_pnl p))) uid (re_accounts e) /\
    re_symbol_oi_lots e' = re_symbol_oi_lots e /\
    re_symbol_position_index e' = re_symbol_position_index e /\
    re_insurance_fund_atoms e' = re_insurance_fund_atoms e.
Proof.
  intros Hp H. unfold RiskEngine.remark in H. rewrite Hp in H.
  apply bind_Some in H as (x & Hx & H). cbv zeta in H. exists x. split; [done|].
  change (re_accounts (RiskEngine.set_positions e _)) with (re_accounts e) in H.
  destruct (re_accounts e !! uid) as [a|] eqn:Ha; injection H as <-; split_and!; try done; simpl; apply map_eq; intros u;
    (destruct (decide (u = uid)) as [->|Hu]; [rewrite lookup_alter_eq, Ha|rewrite lookup_alter_ne by done]).
  - by rewrite lookup_insert_eq.
  - by rewrite lookup_insert_ne.
  - done.
  - done.
Qed.

Lemma booked_remark sym mark scale e uid e' : booked e ->
  RiskEngine.remark sym mark scale e uid = Some e' -> booked e'.
Proof.
  intros K H. destruct (re_positions e !! (uid, sym)) as [p|] eqn:Hp.
  2:{ unfold RiskEngine.remark in H. rewrite Hp in H. by injection H as <-. }
  destruct (remark_inv _ _ _ _ _ _ _ Hp H) as (x & _ & HP & HA & HO & HX & _).
  split; rewrite ?HP, ?HO, ?HX, ?HA.
  - intros u a. destruct (decide (u = uid)) as [->|Hu]; [rewrite lookup_alter_eq|rewrite lookup_alter_ne by done; apply K].
    intros (a0 & _ & ->)%fmap_Some. unfold balances. simpl. by rewrite !i64_add_eq64.
  - intros u a. rewrite of_user_put, Hp. cbn [fst]. destruct (decide (u = uid)) as [->|Hu].
    + rewrite lookup_alter_eq, decide_True by done. intros (a0 & Ha0 & ->)%fmap_Some_1. simpl.
      rewrite i64_add_eq64, i64_sub_eq64. by rewrite (bk_upnl _ K _ _ Ha0).
    + rewrite lookup_alter_ne, decide_False, Z.add_0_r by done. apply K.
  - intros k q. rewrite put_pos_lookup. destruct (decide _) as [->|]; [|apply K].
    intros [= <-]. by apply (bk_qty _ K _ _ Hp).
  - intros s. rewrite of_symbol_put, Hp, (bk_oi _ K s). simpl. by rewrite Z.sub_diag; destruct (decide _); rewrite Z.add_0_r.
  - intros s u. rewrite put_pos_lookup, (bk_index _ K). destruct (decide _) as [[= -> ->]|]; [|done].
    rewrite Hp. split; by eexists.
Qed.

Lemma booked_mark `{HashIter} e sym price scale e' : booked e ->
  RiskEngine.update_mark_price e sym price scale = Some e' -> booked e'.
Proof.
  unfold RiskEngine.update_mark_price. intros K. destruct (Z.leb price 0); [by intros [= <-]|]. cbv zeta.
  set (e0 := RiskEngine.set_mark_prices e _). assert (booked e0) as K0.
  { apply (booked_touch e); try done. intros uid a Ha. split; [by eapply K|by exists a]. }
  generalize (RiskEngine.holders e0 sym). intros l. clearbody e0. revert e0 K0.
  induction l as [|u l IH]; intros e0 K0; simpl; [by intros [= <-]|].
  intros (e1 & H1 & H2)%bind_Some. apply (IH e1); [|done]. by eapply booked_remark.
Qed.

(** ** Runs of the engine *)

(** An account a loss of which the fund may take over without leaving margin
    behind. *)
Definition cashless (a : AccountRiskState) : Prop :=
  ac_equity a < 0 -> ac_order_margin a = 0 /\ ac_used_margin a = 0 /\ ac_unrealized_pnl a = 0.

Lemma booked_socialize e uid : (forall a, re_accounts e !! uid = Some a -> cashless a) -> booked e ->
  booked (RiskEngine.socialize e uid).
Proof.
  intros Hc K. unfold RiskEngine.socialize. destruct (re_accounts e !! uid) as [a|] eqn:Ha; [|done]. specialize (Hc a eq_refl).
  destruct (Z.ltb_spec (ac_equity a) 0) as [Hneg|_].
  - destruct (Hc Hneg) as (Ho & Hu & Hp). eapply (booked_account (RiskEngine.fund_add e (ac_equity a))); [by apply booked_fund|done|..];
      destruct (Z.eqb _ 0); try done; intros _; unfold balances; simpl; by rewrite Ho, Hu, Hp.
  - eapply booked_account; [done|done|..]; destruct (Z.eqb _ 0); done.
Qed.

(** The operations of the engine on its own state, with the conditions under
    which its callers invoke them.  Auto-deleveraging is its forced fills and the
    takeover of the bankrupt's loss; that one step only for an account that has
    nothing else left. *)
Inductive risk_step `{HashIter} : RiskEngine -> RiskEngine -> Prop :=
| rs_initialize e uid bal : (forall s, re_positions e !! (uid, s) = None) ->
    risk_step e (RiskEngine.initialize_account e uid bal)
| rs_reserve e uid m : risk_step e (RiskEngine.check_and_reserve_margin e uid m).1
| rs_release e uid m : risk_step e (RiskEngine.release_order_margin e uid m)
| rs_fill e uid sym side price qty margin scale lev rate liq e' : qty <= i64_max ->
    (forall p, re_positions e !! (uid, sym) = Some p -> ps_qty_lots p + qty <= i64_max) ->
    RiskEngine.on_fill e uid sym side price qty margin scale lev rate liq = Some e' -> risk_step e e'
| rs_fee e uid fee : risk_step e (RiskEngine.charge_fee e uid fee)
| rs_mark e sym price scale e' : RiskEngine.update_mark_price e sym price scale = Some e' -> risk_step e e'
| rs_tick e : risk_step e (RiskEngine.run_risk_tick e).1
| rs_status e uid s : risk_step e (RiskEngine.set_account_status e uid s).1
| rs_status_if e uid x s : risk_step e (RiskEngine.set_account_status_if e uid x s).1
| rs_funding e s : risk_step e (apply_in_memory e s)
| rs_socialize e uid : (forall a, re_accounts e !! uid = Some a -> cashless a) -> risk_step e (RiskEngine.socialize e uid).

Lemma risk_step_booked `{HashIter} e e' : risk_step e e' -> booked e -> booked e'.
Proof.
  destruct 1; eauto using booked_initialize, booked_reserve, booked_release, on_fill_booked, booked_fee,
    booked_mark, booked_tick, booked_status, booked_status_if, booked_funding, booked_socialize.
Qed.

(** C21: the risk books agree.  In every state reachable from an empty engine by
    account seeds for users without positions, fills that keep positions within
    64 bits, marks, ticks, margin reservations and releases, fees, status
    changes, funding, and takeovers by the insurance fund of losses of accounts
    without margin in use, order margin or unrealized PnL, each account's equity is available + order + used margin +
    unrealized PnL and its unrealized PnL is that of its positions (modulo the
    64-bit width), no position is empty, each symbol's open interest is the sum
    of its positions' lots, and the symbol index lists exactly the holders. *)
Theorem risk_books_agree `{HashIter} e : rtc risk_step RiskEngine.new e -> booked e.
Proof.
  intros Hr. remember RiskEngine.new as e0 eqn:He0.
  assert (booked e0) as K by (subst; apply booked_new). clear He0.
  induction Hr as [|e0 e1 e2 Hs _ IH]; [done|]. apply IH. by eapply risk_step_booked.
Qed.
