(* ===== verification/RiskLedger.v ===== *)
(** Conservation in the risk engine.  The venue's ledger is the cash of all
    accounts (available + order + used margin), minus the signed open cost of all
    positions, plus the insurance fund.  A buy fill takes its value out of the
    ledger and a sell fill puts it in, so a matched trade leaves it unchanged. *)
From Stdlib Require Import ZArith Lia Znumtheory String.
From stdpp Require Import base numbers list gmap sorting.
From S2P Require Import Prelude Fixed RiskCalc RiskEngine Funding RiskInv.

#[local] Open Scope Z_scope.

(** ** The ledger *)

Definition cash (a : AccountRiskState) : Z := ac_available_margin a + ac_order_margin a + ac_used_margin a.
Definition signed_cost (p : PositionRiskState) : Z := pnl_sign (ps_side p) * ps_cost_atoms p.

Definition venue (e : RiskEngine) : Z :=
  msum (fun _ a => cash a) (re_accounts e) - msum (fun _ p => signed_cost p) (re_positions e)
  + re_insurance_fund_atoms e.

(** The value a fill moves: a buyer pays it, a seller receives it. *)
Definition value (price qty scale : Z) : Z := Z.quot (price * qty * ATOMS_PER_CENT) scale.
Definition flow (side price qty scale : Z) : Z :=
  if Z.eqb side 0 then - value price qty scale else value price qty scale.

(** A price and quantity the 128-bit product can hold. *)
Definition representable (price qty : Z) : Prop := Z.abs (price * qty * ATOMS_PER_CENT) < two127.

(** When a fill of [qty] at [price] settles exactly: the account exists and its
    reserved margin covers the fill (a liquidation fill carries none and closes a
    position); a position on the other side was opened with margin that the close
    releases in a whole number of atoms; a flip splits the fill's margin
    without remainder; the scale divides the atoms of a cent. *)
Record settles (e : RiskEngine) (uid : Z) (sym : Symbol) (side price qty margin scale liq : Z)
  (a : AccountRiskState) : Prop := {
  st_account : re_accounts e !! uid = Some a;
  st_side : side = 0 \/ side = 1;
  st_qty : 0 < qty <= i64_max;
  st_scale : 0 < scale /\ (scale | ATOMS_PER_CENT);
  st_fits : representable price qty /\ representable liq qty;
  st_margin : if decide (liq = 0) then 0 <= margin <= ac_order_margin a /\ ac_order_margin a <= i64_max
    else margin = 0;
  st_legacy : liq = 0 -> ac_status a <> Liquidating;
  st_closes : liq <> 0 -> exists p, re_positions e !! (uid, sym) = Some p /\ ps_side p <> fill_side_of side;
  st_position p : re_positions e !! (uid, sym) = Some p -> ps_side p <> fill_side_of side ->
    in_i64 (ps_cost_atoms p) /\ 0 < ps_qty_lots p <= i64_max /\
    ps_initial_margin p <= ac_used_margin a <= i64_max /\
    (ps_qty_lots p <= qty -> 0 < ps_initial_margin p) /\
    (qty < ps_qty_lots p -> ps_qty_lots p <= ps_initial_margin p * qty <= i64_max) /\
    (ps_qty_lots p < qty -> margin * qty <= i64_max /\ (qty | margin * (qty - ps_qty_lots p)))
}.

(** ** Values *)

Lemma notional_eq64 p q s v : 0 < s -> representable p q -> calc_notional_atoms p q s = Some v ->
  eq64 v (value p q s) /\ in_i64 v.
Proof.
  unfold representable, calc_notional_atoms, value, i128_mul. intros Hs Hr H.
  assert (Z.abs (p * q) < two127) by (unfold ATOMS_PER_CENT in *; lia).
  rewrite (wrap_i128_id (p * q)) in H by (unfold in_i128; lia).
  rewrite wrap_i128_id in H by (unfold in_i128; lia).
  rewrite i128_div_ok in H by (unfold i128_min; lia). injection H as <-.
  split; [apply wrap_i64_eq64|apply wrap_i64_range].
Qed.

Lemma representable_le p q q' : 0 <= q' <= q -> representable p q -> representable p q'.
Proof.
  unfold representable, ATOMS_PER_CENT. rewrite !Z.abs_mul. intros Hq Hr.
  assert (Z.abs p * Z.abs q' <= Z.abs p * Z.abs q) by (apply Z.mul_le_mono_nonneg_l; lia). lia.
Qed.

Lemma pnl_eq64 sign x c : (sign = 1 \/ sign = -1) -> in_i64 x -> in_i64 c ->
  eq64 (wrap_i64 (i128_mul sign (i128_sub x c))) (sign * (x - c)).
Proof.
  unfold in_i64, i64_min, i64_max. intros Hs Hx Hc. rewrite wrap_i64_eq64. unfold i128_mul, i128_sub.
  rewrite (wrap_i128_id (x - c)) by (unfold in_i128, two127; lia).
  rewrite wrap_i128_id by (unfold in_i128, two127; lia). done.
Qed.

Lemma pnl_sign_cases s : pnl_sign s = 1 \/ pnl_sign s = -1.
Proof. destruct s; auto. Qed.

Lemma flow_sign side price qty scale : side = 0 \/ side = 1 ->
  flow side price qty scale = - pnl_sign (fill_side_of side) * value price qty scale.
Proof. unfold flow. intros [-> | ->]; cbn [Z.eqb fill_side_of pnl_sign]; lia. Qed.

Lemma opposite_sign s t : s <> t -> pnl_sign s = - pnl_sign t.
Proof. by destruct s, t. Qed.

(** ** The account's side *)

Lemma fill_account_cash a margin liq rel pnl fm fd du dm :
  (if decide (liq = 0) then 0 <= margin <= ac_order_margin a /\ ac_order_margin a <= i64_max else margin = 0) ->
  (0 < rel -> rel <= ac_used_margin a <= i64_max) ->
  eq64 (cash (RiskEngine.fill_account a margin liq rel pnl fm fd du dm))
    (cash a + if decide (0 < rel) then pnl + fd else 0).
Proof.
  intros Hm Hu. unfold cash, RiskEngine.fill_account.
  assert (eq64 (if Z.eqb liq 0 then Z.max (i64_sub (ac_order_margin a) margin) 0 else ac_order_margin a)
    (ac_order_margin a - margin)) as Hom.
  { destruct (decide (liq = 0)) as [->|Hl].
    - rewrite Z.eqb_refl, i64_sub_id by in_range. by rewrite Z.max_l by lia.
    - rewrite (proj2 (Z.eqb_neq _ _) Hl). subst. by rewrite Z.sub_0_r. }
  destruct (Z.ltb_spec 0 rel) as [Hr|Hr]; cbn -[eq64]; rewrite Hom.
  - rewrite decide_True by done. specialize (Hu Hr).
    rewrite (i64_sub_id (ac_used_margin a)) by in_range. rewrite Z.max_l by lia.
    rewrite !i64_add_eq64, i64_sub_eq64, !i64_add_eq64. apply eq64_iff. exists 0. lia.
  - rewrite decide_False by lia. rewrite i64_add_eq64. apply eq64_iff. exists 0. lia.
Qed.

(** ** The position's side *)

Lemma flip_other np fs margin qty p : np = Some p -> ps_side p <> fs -> flip_terms np fs margin qty = Some (0, 0).
Proof. intros -> Hs. simpl. by rewrite bool_decide_false. Qed.

Lemma flip_same np fs margin qty p fm fd : np = Some p -> ps_side p = fs -> 0 < qty ->
  flip_terms np fs margin qty = Some (fm, fd) -> fd = Z.rem (i64_mul margin (ps_qty_lots p)) qty.
Proof.
  intros -> Hs Hq. simpl. rewrite bool_decide_true by done. rewrite i64_rem_ok by done. simpl.
  by intros [= <- <-].
Qed.

Lemma reduce_released m q Q rm : 0 < q -> q < Q -> Q <= m * q <= i64_max ->
  i64_div (i64_mul m q) Q = Some rm -> 0 < rm <= m.
Proof.
  intros Hq HQ Hm H. rewrite i64_mul_id in H by (unfold in_i64, i64_min; lia).
  rewrite i64_div_ok in H by lia. injection H as <-. rewrite Z.quot_div_nonneg by lia. split.
  - apply Z.div_str_pos. lia.
  - apply Z.div_le_upper_bound; nia.
Qed.

Section flow.
Context (e : RiskEngine) (uid : Z) (sym : Symbol) (side price qty margin scale liq : Z) (a : AccountRiskState).
Hypothesis ST : settles e uid sym side price qty margin scale liq a.

Abbreviation P := (settle_price price liq).
Abbreviation fs := (fill_side_of side).

Lemma settle_representable : representable P qty.
Proof. unfold settle_price. destruct (st_fits _ _ _ _ _ _ _ _ _ _ ST). by destruct (Z.eqb liq 0). Qed.

(** Released margin and cash-minus-cost effect of a fill. *)
Definition settled (np : option PositionRiskState) (rel pnl fd : Z) : Prop :=
  (0 < rel -> rel <= ac_used_margin a <= i64_max) /\ (liq <> 0 -> 0 < rel) /\
  eq64 ((if decide (0 < rel) then pnl + fd else 0)
        - (pos_field signed_cost np - pos_field signed_cost (re_positions e !! (uid, sym))))
    (flow side P qty scale).

Lemma opening_settled np v fd : (forall p, re_positions e !! (uid, sym) = Some p -> ps_side p = fs) ->
  calc_notional_atoms P qty scale = Some v ->
  eq64 (pos_field signed_cost np) (pos_field signed_cost (re_positions e !! (uid, sym)) + pnl_sign fs * v) ->
  settled np 0 0 fd.
Proof.
  intros Hs Hv Hc. destruct (st_scale _ _ _ _ _ _ _ _ _ _ ST) as [Hs0 _].
  destruct (notional_eq64 _ _ _ _ Hs0 settle_representable Hv) as [Hv' _]. unfold settled. split_and!; [lia| |].
  - intros Hl. destruct (st_closes _ _ _ _ _ _ _ _ _ _ ST Hl) as (p & Hp & Hne). destruct Hne. by apply Hs.
  - rewrite decide_False by lia. rewrite flow_sign by apply ST. rewrite Hc.
    rewrite Hv'. apply eq64_refl_by. lia.
Qed.

(** Facts about a position on the other side. *)
Lemma closing_facts pos x q : re_positions e !! (uid, sym) = Some pos -> ps_side pos <> fs -> 0 <= q <= qty ->
  calc_notional_atoms P q scale = Some x -> eq64 x (value P q scale) /\ in_i64 x.
Proof.
  intros Hp Hs Hq Hx. apply (notional_eq64 _ _ scale); [apply ST| |done].
  by apply (representable_le _ qty), settle_representable.
Qed.

Lemma value_split q1 q2 : value P (q1 + q2) scale = value P q1 scale + value P q2 scale.
Proof. unfold value. apply notional_split; apply ST. Qed.

Lemma close_settled pos x : re_positions e !! (uid, sym) = Some pos -> ps_side pos <> fs ->
  ps_qty_lots pos = qty -> calc_notional_atoms P qty scale = Some x ->
  settled None (ps_initial_margin pos)
    (wrap_i64 (i128_mul (pnl_sign (ps_side pos)) (i128_sub x (ps_cost_atoms pos)))) 0.
Proof.
  intros Hp Hs Hq Hx. destruct (st_position _ _ _ _ _ _ _ _ _ _ ST _ Hp Hs) as (Hc & _ & Hu & Hi & _).
  pose proof (st_qty _ _ _ _ _ _ _ _ _ _ ST). specialize (Hi ltac:(lia)).
  destruct (closing_facts pos x qty Hp Hs ltac:(lia) Hx) as [Hv Hr]. unfold settled. split_and!; [done|done|].
  rewrite decide_True, Hp, pnl_eq64 by (done || apply pnl_sign_cases). unfold pos_field, signed_cost.
  rewrite flow_sign by apply ST. rewrite Hv, (opposite_sign _ _ Hs). apply eq64_refl_by. lia.
Qed.

Lemma flip_settled pos x v p fm fd : re_positions e !! (uid, sym) = Some pos -> ps_side pos <> fs ->
  ps_qty_lots pos < qty -> calc_notional_atoms P (ps_qty_lots pos) scale = Some x ->
  calc_notional_atoms P (qty - ps_qty_lots pos) scale = Some v ->
  ps_side p = fs -> ps_qty_lots p = qty - ps_qty_lots pos -> ps_cost_atoms p = v ->
  flip_terms (Some p) fs margin qty = Some (fm, fd) ->
  settled (Some p) (ps_initial_margin pos)
    (wrap_i64 (i128_mul (pnl_sign (ps_side pos)) (i128_sub x (ps_cost_atoms pos)))) fd.
Proof.
  intros Hp Hs Hlt Hx Hv Ps Pq Pc HF. pose proof (st_qty _ _ _ _ _ _ _ _ _ _ ST) as Hq0.
  destruct (st_position _ _ _ _ _ _ _ _ _ _ ST _ Hp Hs) as (Hc & Hpq & Hu & Hi & _ & Hd).
  specialize (Hi ltac:(lia)). destruct (Hd Hlt) as [Hov Hdv].
  destruct (closing_facts pos x (ps_qty_lots pos) Hp Hs ltac:(lia) Hx) as [Hxv Hxr].
  destruct (closing_facts pos v (qty - ps_qty_lots pos) Hp Hs ltac:(lia) Hv) as [Hvv _].
  assert (fd = 0) as ->.
  { rewrite (flip_same _ _ _ _ _ _ _ eq_refl Ps (proj1 Hq0) HF), Pq.
    pose proof (st_margin _ _ _ _ _ _ _ _ _ _ ST) as Hm.
    assert (0 <= margin) by (destruct (decide (liq = 0)); lia).
    assert (0 <= margin * (qty - ps_qty_lots pos) <= margin * qty) by nia.
    rewrite i64_mul_id by (unfold in_i64, i64_min; lia). destruct Hdv as [k ->]. apply Z.rem_mul. lia. }
  unfold settled. split_and!; [done|done|].
  rewrite decide_True, Hp, pnl_eq64 by (done || apply pnl_sign_cases). unfold pos_field, signed_cost.
  rewrite flow_sign by apply ST. rewrite Ps, Pc, Hxv, Hvv, (opposite_sign _ _ Hs).
  replace qty with (ps_qty_lots pos + (qty - ps_qty_lots pos)) at 2 by lia. rewrite value_split.
  apply eq64_refl_by. lia.
Qed.

Lemma reduce_settled pos x rc rm p : re_positions e !! (uid, sym) = Some pos -> ps_side pos <> fs ->
  qty < ps_qty_lots pos -> calc_notional_atoms P qty scale = Some x ->
  i64_div (i64_mul (ps_initial_margin pos) qty) (ps_qty_lots pos) = Some rm ->
  ps_side p = ps_side pos -> ps_cost_atoms p = i64_sub (ps_cost_atoms pos) (wrap_i64 rc) ->
  settled (Some p) rm (wrap_i64 (i128_mul (pnl_sign (ps_side pos)) (i128_sub x (wrap_i64 rc)))) 0.
Proof.
  intros Hp Hs Hlt Hx Hrm Ps Pc. pose proof (st_qty _ _ _ _ _ _ _ _ _ _ ST) as Hq0.
  destruct (st_position _ _ _ _ _ _ _ _ _ _ ST _ Hp Hs) as (Hc & Hpq & Hu & _ & Hr & _). specialize (Hr Hlt).
  destruct (reduce_released _ _ _ _ (proj1 Hq0) Hlt Hr Hrm) as [Hrm0 Hrm1].
  destruct (closing_facts pos x qty Hp Hs ltac:(lia) Hx) as [Hv Hr']. unfold settled. split_and!; [lia|done|].
  rewrite decide_True, Hp, pnl_eq64 by (done || apply pnl_sign_cases || apply wrap_i64_range).
  unfold pos_field, signed_cost. rewrite flow_sign by apply ST.
  rewrite Ps, Pc, i64_sub_eq64, Hv, (opposite_sign _ _ Hs). apply eq64_refl_by. lia.
Qed.

Lemma updated_settled np rel pnl fm fd :
  updated fs P qty margin scale (re_positions e !! (uid, sym)) np rel pnl ->
  flip_terms np fs margin qty = Some (fm, fd) -> settled np rel pnl fd.
Proof.
  intros HU HF. remember (re_positions e !! (uid, sym)) as ex eqn:Hex. symmetry in Hex.
  pose proof (st_qty _ _ _ _ _ _ _ _ _ _ ST) as Hq0. pose proof (st_position _ _ _ _ _ _ _ _ _ _ ST) as Hst.
  destruct HU as [v p Hv (P1 & P2 & P3 & P4)|pos v p Hs Hv (P1 & P2 & P3 & P4)|pos x Hs Hle H0 Hx
    |pos x v fm' p Hs Hle H0 Hx Hv Hfm (P1 & P2 & P3 & P4)|pos x rc rm p Hs Hlt Hx Hrm (P1 & P2 & P3 & P4)].
  - eapply opening_settled; [by rewrite Hex|done|]. rewrite Hex. unfold pos_field, signed_cost. by rewrite P1, P3.
  - eapply opening_settled; [rewrite Hex; by intros ? [= <-]|done|]. rewrite Hex. unfold pos_field, signed_cost.
    rewrite P1, P3, Hs, i64_add_eq64. apply eq64_refl_by. lia.
  - destruct (Hst _ Hex Hs) as (_ & ? & _). rewrite i64_sub_id in H0 by in_range. injection HF as <- <-.
    assert (ps_qty_lots pos = qty) as Hqq by lia. apply close_settled; [done..|]. by rewrite <- Hqq.
  - destruct (Hst _ Hex Hs) as (_ & ? & _). rewrite i64_sub_id in H0, Hv, P2 by in_range.
    eapply flip_settled; try done. lia.
  - rewrite (flip_other _ _ _ _ _ eq_refl) in HF by congruence. injection HF as <- <-. by eapply reduce_settled.
Qed.
End flow.

(** ** A fill *)

Lemma alter_is_insert (f : AccountRiskState -> AccountRiskState) uid a (m : gmap Z AccountRiskState) :
  m !! uid = Some a -> alter f uid m = <[uid := f a]> m.
Proof.
  intros Ha. apply map_eq. intros u. destruct (decide (u = uid)) as [->|Hu].
  - by rewrite lookup_alter_eq, lookup_insert_eq, Ha.
  - by rewrite lookup_alter_ne, lookup_insert_ne.
Qed.

Lemma put_cost m k np :
  msum (fun _ p => signed_cost p) (put_pos m k np) =
    msum (fun _ p => signed_cost p) m + (pos_field signed_cost np - pos_field signed_cost (m !! k)).
Proof. rewrite msum_put. unfold pos_field. destruct (m !! k), np; simpl; lia. Qed.

(** The fund's side: the spread between the fill and the settlement price. *)
Lemma insurance_flow e uid sym side price qty margin scale liq a rel pnl ins :
  settles e uid sym side price qty margin scale liq a -> (liq <> 0 -> 0 < rel) ->
  RiskEngine.insurance_delta e uid side price qty scale liq rel pnl = Some ins ->
  eq64 (flow side (settle_price price liq) qty scale + ins) (flow side price qty scale).
Proof.
  intros ST Hl H. destruct ST as [Ha Hsd Hq [Hs0 _] [Hr1 Hr2] _ Hleg _ _].
  unfold RiskEngine.insurance_delta in H. unfold settle_price.
  destruct (Z.eqb_spec liq 0) as [->|Hliq].
  - destruct (Z.ltb 0 rel); [|injection H as <-; by rewrite Z.add_0_r]. cbn [negb] in H.
    rewrite Ha, bool_decide_false in H by by apply Hleg. injection H as <-. by rewrite Z.add_0_r.
  - rewrite (proj2 (Z.ltb_lt _ _) (Hl Hliq)) in H. cbn [negb] in H.
    apply bind_Some in H as (fv & Hfv & H). apply bind_Some in H as (sv & Hsv & H). injection H as <-.
    destruct (notional_eq64 _ _ _ _ Hs0 Hr1 Hfv) as [Hf _], (notional_eq64 _ _ _ _ Hs0 Hr2 Hsv) as [Hs _].
    unfold i64_mul. rewrite wrap_i64_eq64, i64_sub_eq64, Hf, Hs. unfold flow.
    destruct Hsd as [-> | ->]; cbn [Z.eqb Pos.eqb]; apply eq64_refl_by; lia.
Qed.

Lemma fill_venue e uid sym side price qty margin scale lev rate liq a e' :
  settles e uid sym side price qty margin scale liq a ->
  RiskEngine.on_fill e uid sym side price qty margin scale lev rate liq = Some e' ->
  eq64 (venue e') (venue e + flow side price qty scale).
Proof.
  intros ST H. pose proof (st_qty _ _ _ _ _ _ _ _ _ _ ST) as Hq. pose proof (st_account _ _ _ _ _ _ _ _ _ _ ST) as Ha.
  apply on_fill_inv in H as (np & rel & pnl & fm & fd & ins & [HU HF HI HP HA HFu _ _]); [|lia].
  apply update_inv in HU. destruct (updated_settled _ _ _ _ _ _ _ _ _ _ ST _ _ _ _ _ HU HF) as (Hu & Hl & Hflow).
  pose proof (insurance_flow _ _ _ _ _ _ _ _ _ _ _ _ _ ST Hl HI) as Hins.
  unfold venue. rewrite HP, HA, (alter_is_insert _ _ _ _ Ha), msum_upsert, put_cost, Ha, HFu. cbn [from_option].
  set (du := i64_sub (pos_field ps_unrealized_pnl np) _). set (dm := i64_sub (pos_field ps_maintenance_margin np) _).
  rewrite (fill_account_cash a margin liq rel pnl fm fd du dm (st_margin _ _ _ _ _ _ _ _ _ _ ST) Hu).
  rewrite <- Hins, <- Hflow. apply eq64_refl_by. lia.
Qed.

(** trades are zero-sum.  When a buyer's and a seller's fill of the same
    price and quantity settle (each may open, increase, reduce, close or flip a
    position, and either may be a liquidation settled at its own price with the
    spread going to the insurance fund), the venue's ledger of cash, open cost and
    fund is unchanged, to the atom. *)
Theorem trade_zero_sum e buyer seller sym price qty scale mb lb ab levb rateb ms ls ag levs rates e1 e2 :
  settles e buyer sym 0 price qty mb scale lb ab ->
  RiskEngine.on_fill e buyer sym 0 price qty mb scale levb rateb lb = Some e1 ->
  settles e1 seller sym 1 price qty ms scale ls ag ->
  RiskEngine.on_fill e1 seller sym 1 price qty ms scale levs rates ls = Some e2 ->
  eq64 (venue e2) (venue e).
Proof.
  intros S1 H1 S2 H2. rewrite (fill_venue _ _ _ _ _ _ _ _ _ _ _ _ _ S2 H2).
  rewrite (fill_venue _ _ _ _ _ _ _ _ _ _ _ _ _ S1 H1). unfold flow. cbn [Z.eqb]. apply eq64_refl_by. lia.
Qed.

(** ** Runs *)

Lemma venue_same e e' : re_positions e' = re_positions e -> re_insurance_fund_atoms e' = re_insurance_fund_atoms e ->
  eq64 (msum (fun _ a => cash a) (re_accounts e')) (msum (fun _ a => cash a) (re_accounts e)) ->
  eq64 (venue e') (venue e).
Proof. intros HP HF HA. unfold venue. by rewrite HP, HF, HA. Qed.

(** Replacing an account by one whose cash differs by [d]. *)
Lemma venue_account e uid a a' d : re_accounts e !! uid = Some a -> eq64 (cash a') (cash a + d) ->
  eq64 (venue (RiskEngine.set_accounts e (<[uid := a']> (re_accounts e)))) (venue e + d).
Proof.
  intros Ha Hd. unfold venue. cbn [re_accounts re_positions re_insurance_fund_atoms RiskEngine.set_accounts].
  rewrite msum_upsert, Ha. cbn [from_option]. rewrite Hd. apply eq64_refl_by. lia.
Qed.

Lemma venue_fund e d : eq64 (venue (RiskEngine.fund_add e d)) (venue e + d).
Proof. unfold venue. simpl. rewrite i64_add_eq64. apply eq64_refl_by. lia. Qed.

(** An account change that leaves its cash alone. *)
Lemma venue_still e uid a a' : re_accounts e !! uid = Some a -> eq64 (cash a') (cash a) ->
  eq64 (venue (RiskEngine.set_accounts e (<[uid := a']> (re_accounts e)))) (venue e).
Proof.
  intros Ha Hd. rewrite (venue_account e uid a a' 0) by (done || by rewrite Z.add_0_r). by rewrite Z.add_0_r.
Qed.

Lemma venue_reserve e uid m : eq64 (venue (RiskEngine.check_and_reserve_margin e uid m).1) (venue e).
Proof.
  unfold RiskEngine.check_and_reserve_margin. destruct (re_accounts e !! uid) as [a|] eqn:Ha; [|done].
  destruct (negb _); [done|]. cbv zeta. destruct (Z.ltb _ _); [done|]. eapply venue_still; [done|].
  unfold cash. simpl. rewrite i64_sub_eq64, i64_add_eq64. apply eq64_refl_by. lia.
Qed.

Lemma venue_release e uid m : eq64 (venue (RiskEngine.release_order_margin e uid m)) (venue e).
Proof.
  unfold RiskEngine.release_order_margin. destruct (re_accounts e !! uid) as [a|] eqn:Ha; [|done].
  eapply venue_still; [done|]. unfold cash. simpl. rewrite i64_sub_eq64, i64_add_eq64. apply eq64_refl_by. lia.
Qed.

Lemma venue_fee e uid fee : is_Some (re_accounts e !! uid) -> eq64 (venue (RiskEngine.charge_fee e uid fee)) (venue e).
Proof.
  intros [a Ha]. unfold RiskEngine.charge_fee. destruct (Z.eqb fee 0); [done|]. rewrite Ha, venue_fund.
  rewrite (venue_account _ _ a _ (- fee)); [apply eq64_refl_by; lia|done|].
  unfold cash. simpl. rewrite i64_sub_eq64. apply eq64_refl_by. lia.
Qed.

Lemma venue_status_if e uid x s : eq64 (venue (RiskEngine.set_account_status_if e uid x s).1) (venue e).
Proof.
  unfold RiskEngine.set_account_status_if. destruct (re_accounts e !! uid) as [a|] eqn:Ha; [|done].
  destruct (negb _); [done|]. by eapply venue_still.
Qed.

Lemma venue_tick `{HashIter} e : eq64 (venue (RiskEngine.run_risk_tick e).1) (venue e).
Proof.
  unfold RiskEngine.run_risk_tick. cbn [fst]. generalize (RiskEngine.risk_updates e). intros l. revert e.
  induction l as [|u l IH]; intros e; [done|]. cbn [foldl]. rewrite IH. unfold RiskEngine.apply_status.
  destruct (re_accounts e !! u.1.1) as [a|] eqn:Ha; [|done]. destruct (bool_decide _); [|done].
  by eapply venue_still.
Qed.

Lemma venue_remark sym mark scale e uid e' :
  RiskEngine.remark sym mark scale e uid = Some e' -> eq64 (venue e') (venue e).
Proof.
  intros H. destruct (re_positions e !! (uid, sym)) as [p|] eqn:Hp.
  2:{ unfold RiskEngine.remark in H. rewrite Hp in H. by injection H as <-. }
  destruct (remark_inv _ _ _ _ _ _ _ Hp H) as (x & _ & HP & HA & _ & _ & HF).
  unfold venue. rewrite HP, put_cost, Hp, HF, HA. unfold pos_field, signed_cost. simpl. rewrite Z.sub_diag, Z.add_0_r.
  destruct (re_accounts e !! uid) as [a|] eqn:Ha.
  - rewrite (alter_is_insert _ _ _ _ Ha), msum_upsert, Ha. simpl. unfold cash. simpl. apply eq64_refl_by. lia.
  - by rewrite alter_id by by rewrite Ha.
Qed.

Lemma venue_mark `{HashIter} e sym price scale e' :
  RiskEngine.update_mark_price e sym price scale = Some e' -> eq64 (venue e') (venue e).
Proof.
  unfold RiskEngine.update_mark_price. destruct (Z.leb price 0); [by intros [= <-]|]. cbv zeta.
  set (e0 := RiskEngine.set_mark_prices e _). change (venue e) with (venue e0).
  generalize (RiskEngine.holders e0 sym). intros l. clearbody e0. revert e0.
  induction l as [|u l IH]; intros e0; simpl; [by intros [= <-]|].
  intros (e1 & H1 & H2)%bind_Some. rewrite (IH e1 H2). by eapply venue_remark.
Qed.

(** *** Funding *)

Lemma venue_credit l : forall e, Forall (fun d => is_Some (re_accounts e !! d.1)) l ->
  eq64 (venue (foldl credit e l)) (venue e + foldr (fun d s => d.2 + s) 0 l).
Proof.
  induction l as [|[u d] l IH]; intros e Hl; simpl; [by rewrite Z.add_0_r|].
  apply Forall_cons in Hl as [[a Ha] Hl]. simpl in Ha. rewrite IH.
  - unfold credit. cbn [fst snd]. rewrite Ha, (venue_account e u a _ d); [apply eq64_refl_by; lia|done|].
    unfold cash. simpl. rewrite i64_add_eq64. apply eq64_refl_by. lia.
  - eapply Forall_impl; [exact Hl|]. intros [u' d'] Hs. unfold credit. simpl in *. rewrite Ha. simpl.
    destruct (decide (u' = u)) as [->|]; [rewrite lookup_insert_eq; by eexists|by rewrite lookup_insert_ne].
Qed.

Lemma sum_eq64 l : forall z, eq64 (foldl i64_add z l) (z + foldr Z.add 0 l).
Proof.
  induction l as [|x l IH]; intros z; simpl; [by rewrite Z.add_0_r|].
  rewrite IH, i64_add_eq64. apply eq64_refl_by. lia.
Qed.

(** The residue balances the deltas. *)
Lemma settlement_sum ps mark scale rate s : compute_settlement ps mark scale rate = Some s ->
  eq64 (foldr (fun d acc => d.2 + acc) 0 (fs_deltas s) + fs_residue_atoms s) 0.
Proof.
  unfold compute_settlement. destruct (Z.eqb rate 0); [by intros [= <-]|].
  intros (out & _ & H)%bind_Some. injection H as <-. cbn [fs_deltas fs_residue_atoms]. unfold i64_neg.
  rewrite wrap_i64_eq64, sum_eq64.
  assert (foldr (fun d acc => d.2 + acc) 0 (fs_deltas out) = foldr Z.add 0 (fs_deltas out).*2) as ->.
  { induction (fs_deltas out) as [|d l IH]; simpl; [done|]. by rewrite IH. }
  apply eq64_refl_by. lia.
Qed.

Lemma venue_funding e ps mark scale rate s : compute_settlement ps mark scale rate = Some s ->
  Forall (fun d => is_Some (re_accounts e !! d.1)) (fs_deltas s) ->
  eq64 (venue (apply_in_memory e s)) (venue e).
Proof.
  intros Hs Hl. pose proof (settlement_sum _ _ _ _ _ Hs) as H0. pose proof (venue_credit _ _ Hl) as HV.
  unfold apply_in_memory. destruct (Z.eqb_spec (fs_residue_atoms s) 0) as [Hr|_].
  - rewrite HV. rewrite Hr, Z.add_0_r in H0. rewrite H0. by rewrite Z.add_0_r.
  - rewrite venue_fund, HV. rewrite <- Z.add_assoc, H0. by rewrite Z.add_0_r.
Qed.

(** The operations between deposits and withdrawals: matched trades that settle,
    and everything else that moves or re-marks money. *)
Inductive ledger_step `{HashIter} : RiskEngine -> RiskEngine -> Prop :=
| ls_trade e e1 e2 buyer seller sym price qty scale mb lb ab levb rateb ms ls ag levs rates :
    settles e buyer sym 0 price qty mb scale lb ab ->
    RiskEngine.on_fill e buyer sym 0 price qty mb scale levb rateb lb = Some e1 ->
    settles e1 seller sym 1 price qty ms scale ls ag ->
    RiskEngine.on_fill e1 seller sym 1 price qty ms scale levs rates ls = Some e2 -> ledger_step e e2
| ls_reserve e uid m : ledger_step e (RiskEngine.check_and_reserve_margin e uid m).1
| ls_release e uid m : ledger_step e (RiskEngine.release_order_margin e uid m)
| ls_fee e uid fee : is_Some (re_accounts e !! uid) -> ledger_step e (RiskEngine.charge_fee e uid fee)
| ls_mark e sym price scale e' : RiskEngine.update_mark_price e sym price scale = Some e' -> ledger_step e e'
| ls_tick e : ledger_step e (RiskEngine.run_risk_tick e).1
| ls_status e uid x s : ledger_step e (RiskEngine.set_account_status_if e uid x s).1
| ls_funding e ps mark scale rate s : compute_settlement ps mark scale rate = Some s ->
    Forall (fun d => is_Some (re_accounts e !! d.1)) (fs_deltas s) -> ledger_step e (apply_in_memory e s).

Lemma ledger_step_venue `{HashIter} e e' : ledger_step e e' -> eq64 (venue e') (venue e).
Proof.
  destruct 1 as [e e1 e2 buyer seller sym price qty scale mb lb ab levb rateb ms ls ag levs rates S1 H1 S2 H2| | | | | | |].
  - rewrite (fill_venue _ _ _ _ _ _ _ _ _ _ _ _ _ S2 H2), (fill_venue _ _ _ _ _ _ _ _ _ _ _ _ _ S1 H1).
    unfold flow. cbn [Z.eqb]. apply eq64_refl_by. lia.
  - apply venue_reserve.
  - apply venue_release.
  - by apply venue_fee.
  - by eapply venue_mark.
  - apply venue_tick.
  - apply venue_status_if.
  - by eapply venue_funding.
Qed.

Lemma flat_equity e : booked e -> re_positions e = ∅ ->
  eq64 (msum (fun _ a => ac_equity a) (re_accounts e) + re_insurance_fund_atoms e) (venue e).
Proof.
  intros K HP. unfold venue. rewrite HP, msum_empty, Z.sub_0_r.
  assert (forall uid a, re_accounts e !! uid = Some a -> eq64 (ac_equity a) (cash a)) as HE.
  { intros uid a Ha. pose proof (bk_equity _ K _ _ Ha) as H1. pose proof (bk_upnl _ K _ _ Ha) as H2.
    rewrite HP, msum_empty in H2. unfold balances in H1. rewrite H2, Z.add_0_r in H1. exact H1. }
  assert (eq64 (msum (fun _ a => ac_equity a) (re_accounts e)) (msum (fun _ a => cash a) (re_accounts e))) as ->; [|done].
  generalize dependent (re_accounts e). intros m. induction m as [|k x m Hk IH] using map_ind; intros HE; [done|].
  rewrite !msum_insert by done. rewrite IH.
  - by rewrite (HE k x) by apply lookup_insert_eq.
  - intros uid a Ha. apply (HE uid). rewrite lookup_insert_ne; [done|congruence].
Qed.

(** C2: the venue is closed.  Over any run of settling trades, margin
    reservations and releases, fees, funding settlements, mark updates, status
    changes and risk ticks that starts and ends with no open positions, the sum
    of all equities and the insurance fund is what it was: no operation creates
    or destroys an atom (modulo the 64-bit width). *)
Theorem venue_conserved `{HashIter} e e' : rtc ledger_step e e' -> booked e -> booked e' ->
  re_positions e = ∅ -> re_positions e' = ∅ ->
  eq64 (msum (fun _ a => ac_equity a) (re_accounts e') + re_insurance_fund_atoms e')
       (msum (fun _ a => ac_equity a) (re_accounts e) + re_insurance_fund_atoms e).
Proof.
  intros Hr K K' HP HP'. rewrite (flat_equity e' K' HP'), (flat_equity e K HP). clear - Hr.
  induction Hr as [|e0 e1 e2 Hs _ IH]; [done|]. rewrite IH. by apply ledger_step_venue.
Qed.

(** ** A concrete venue *)

Definition demo_symbol : Symbol := [66; 84; 67].

(** Two users with margin reserved for the trades below. *)
Definition demo_risk : RiskEngine :=
  let e := RiskEngine.initialize_account (RiskEngine.initialize_account RiskEngine.new 1 1000000000) 2 1000000000 in
  (RiskEngine.check_and_reserve_margin (RiskEngine.check_and_reserve_margin e 1 7000000).1 2 7000000).1.

Definition or_else (e : RiskEngine) (o : option RiskEngine) : RiskEngine := match o with Some e => e | None => e end.

(** User 1 buys 10 lots at 70000.00 from user 2, both opening. *)
Definition demo_half : RiskEngine :=
  or_else demo_risk (RiskEngine.on_fill demo_risk 1 demo_symbol 0 7000000 10 7000000 1000000 10 50 0).
Definition demo_open : RiskEngine :=
  or_else demo_half (RiskEngine.on_fill demo_half 2 demo_symbol 1 7000000 10 7000000 1000000 10 50 0).
(** User 2 buys 4 of them back at 70500.00, which user 1 sells. *)
Definition demo_half2 : RiskEngine :=
  or_else demo_open (RiskEngine.on_fill demo_open 2 demo_symbol 0 7050000 4 0 1000000 10 50 0).
Definition demo_reduced : RiskEngine :=
  or_else demo_half2 (RiskEngine.on_fill demo_half2 1 demo_symbol 1 7050000 4 0 1000000 10 50 0).
(** And the remaining 6 at 69000.00. *)
Definition demo_half3 : RiskEngine :=
  or_else demo_reduced (RiskEngine.on_fill demo_reduced 2 demo_symbol 0 6900000 6 0 1000000 10 50 0).
Definition demo_flat : RiskEngine :=
  or_else demo_half3 (RiskEngine.on_fill demo_half3 1 demo_symbol 1 6900000 6 0 1000000 10 50 0).

Definition the_account (e : RiskEngine) (uid : Z) : AccountRiskState :=
  match re_accounts e !! uid with Some a => a | None => AccountRiskState.new uid 0 end.

(** Decide [settles] on a concrete state. *)
Ltac settles_tac :=
  split;
  [ by vm_compute | lia | by vm_compute
  | split; [lia|by exists 1]
  | split; by vm_compute
  | vm_compute; (done || lia)
  | intros _; by vm_compute
  | lia
  | let p := fresh "p" in let Hp := fresh "Hp" in let Hs := fresh "Hs" in
    intros p Hp Hs; vm_compute in Hp;
    first [ discriminate Hp
          | injection Hp as <-;
            first [ exfalso; by apply Hs
                  | split_and!; intros; try (by vm_compute); vm_compute in *; congruence ] ] ].

Lemma demo_settles1 : settles demo_risk 1 demo_symbol 0 7000000 10 7000000 1000000 0 (the_account demo_risk 1).
Proof. settles_tac. Qed.
Lemma demo_settles2 : settles demo_half 2 demo_symbol 1 7000000 10 7000000 1000000 0 (the_account demo_half 2).
Proof. settles_tac. Qed.
Lemma demo_settles3 : settles demo_open 2 demo_symbol 0 7050000 4 0 1000000 0 (the_account demo_open 2).
Proof. settles_tac. Qed.
Lemma demo_settles4 : settles demo_half2 1 demo_symbol 1 7050000 4 0 1000000 0 (the_account demo_half2 1).
Proof. settles_tac. Qed.
Lemma demo_settles5 : settles demo_reduced 2 demo_symbol 0 6900000 6 0 1000000 0 (the_account demo_reduced 2).
Proof. settles_tac. Qed.
Lemma demo_settles6 : settles demo_half3 1 demo_symbol 1 6900000 6 0 1000000 0 (the_account demo_half3 1).
Proof. settles_tac. Qed.

(** The runs of these fills. *)
Ltac fill_tac := vm_compute; reflexivity.

Lemma demo_fill1 : RiskEngine.on_fill demo_risk 1 demo_symbol 0 7000000 10 7000000 1000000 10 50 0 = Some demo_half.
Proof. fill_tac. Qed.
Lemma demo_fill2 : RiskEngine.on_fill demo_half 2 demo_symbol 1 7000000 10 7000000 1000000 10 50 0 = Some demo_open.
Proof. fill_tac. Qed.
Lemma demo_fill3 : RiskEngine.on_fill demo_open 2 demo_symbol 0 7050000 4 0 1000000 10 50 0 = Some demo_half2.
Proof. fill_tac. Qed.
Lemma demo_fill4 : RiskEngine.on_fill demo_half2 1 demo_symbol 1 7050000 4 0 1000000 10 50 0 = Some demo_reduced.
Proof. fill_tac. Qed.
Lemma demo_fill5 : RiskEngine.on_fill demo_reduced 2 demo_symbol 0 6900000 6 0 1000000 10 50 0 = Some demo_half3.
Proof. fill_tac. Qed.
Lemma demo_fill6 : RiskEngine.on_fill demo_half3 1 demo_symbol 1 6900000 6 0 1000000 10 50 0 = Some demo_flat.
Proof. fill_tac. Qed.

(** A fill of the demo as a step. *)
Ltac demo_step H :=
  eapply rtc_l; [eapply rs_fill; [| |exact H]; [by vm_compute|];
    let p := fresh in let Hp := fresh in
    intros p Hp; vm_compute in Hp; first [discriminate Hp|injection Hp as <-; by vm_compute]|].

Lemma demo_reaches_risk : rtc risk_step RiskEngine.new demo_risk.
Proof.
  eapply rtc_l; [apply (rs_initialize RiskEngine.new 1 1000000000); done|].
  eapply rtc_l; [apply (rs_initialize _ 2 1000000000); intros s; apply lookup_empty|].
  eapply rtc_l; [apply (rs_reserve _ 1 7000000)|]. eapply rtc_l; [apply (rs_reserve _ 2 7000000)|]. apply rtc_refl.
Qed.

Lemma demo_reaches_flat : rtc risk_step demo_risk demo_flat.
Proof.
  demo_step demo_fill1. demo_step demo_fill2. demo_step demo_fill3. demo_step demo_fill4.
  demo_step demo_fill5. demo_step demo_fill6. apply rtc_refl.
Qed.

Lemma risk_books_agree_witness : booked demo_flat.
Proof. apply risk_books_agree. etransitivity; [apply demo_reaches_risk|apply demo_reaches_flat]. Defined.

Lemma trade_zero_sum_witness : eq64 (venue demo_reduced) (venue demo_open).
Proof.
  exact (trade_zero_sum _ _ _ _ _ _ _ _ _ _ _ _ _ _ _ _ _ _ _ demo_settles3 demo_fill3 demo_settles4 demo_fill4).
Defined.

Lemma demo_booked e : rtc risk_step RiskEngine.new e -> booked e.
Proof.
  intros Hr. assert (forall a b, rtc risk_step a b -> booked a -> booked b) as H.
  { induction 1; eauto using risk_step_booked. }
  eapply H; [exact Hr|apply booked_new].
Qed.

Lemma venue_conserved_witness :
  eq64 (msum (fun _ a => ac_equity a) (re_accounts demo_flat) + re_insurance_fund_atoms demo_flat)
       (msum (fun _ a => ac_equity a) (re_accounts demo_risk) + re_insurance_fund_atoms demo_risk).
Proof.
  apply (venue_conserved demo_risk demo_flat).
  - eapply rtc_l; [exact (ls_trade _ _ _ _ _ _ _ _ _ _ _ _ _ _ _ _ _ _ _ demo_settles1 demo_fill1 demo_settles2 demo_fill2)|].
    eapply rtc_l; [exact (ls_trade _ _ _ _ _ _ _ _ _ _ _ _ _ _ _ _ _ _ _ demo_settles3 demo_fill3 demo_settles4 demo_fill4)|].
    eapply rtc_l; [exact (ls_trade _ _ _ _ _ _ _ _ _ _ _ _ _ _ _ _ _ _ _ demo_settles5 demo_fill5 demo_settles6 demo_fill6)|].
    apply rtc_refl.
  - apply demo_booked, demo_reaches_risk.
  - eapply demo_booked; etransitivity; [apply demo_reaches_risk|apply demo_reaches_flat].
  - by vm_compute.
  - by vm_compute.
Defined.

(** ** Where the ledger leaks *)

(** The value of the ledger after an operation, as a difference. *)
Definition leak (e : RiskEngine) (o : option RiskEngine) : option Z :=
  match o with Some e' => Some (venue e' - venue e) | None => None end.

(** A flip credits the remainder of the margin split twice: closing 3 lots of a
    long with a sell of 7 whose margin is 10 atoms leaves 10 * 4 rem 7 = 5 atoms
    more than the fill is worth. *)
Lemma flip_mints_dust :
  let e := or_else demo_risk (RiskEngine.on_fill demo_risk 1 demo_symbol 0 7000000 3 3000000 1000000 10 50 0) in
  leak e (RiskEngine.on_fill e 1 demo_symbol 1 7000000 7 10 1000000 10 50 0) =
    Some (flow 1 7000000 7 1000000 + 5).
Proof. vm_compute. reflexivity. Qed.

(** A partial close whose released margin truncates to zero books no PnL: with 3
    atoms of margin on 10 lots, selling 2 lots at a 100-tick profit moves the
    cost out of the position but credits nothing. *)
Lemma tiny_close_loses_pnl :
  let e := or_else demo_risk (RiskEngine.on_fill demo_risk 1 demo_symbol 0 7000000 10 3 1000000 10 50 0) in
  match RiskEngine.on_fill e 1 demo_symbol 1 7000100 2 0 1000000 10 50 0 with
  | Some e' =>
      ac_available_margin (the_account e' 1) = ac_available_margin (the_account e 1) /\
      venue e' - venue e <> flow 1 7000100 2 1000000
  | None => False
  end.
Proof. vm_compute. by split. Qed.

(** Socialising a deficit while margin is still in use forgets that margin: the
    next mark update brings the account back to a positive equity although the
    fund has already taken the loss. *)
Definition deficit : RiskEngine :=
  RiskEngine.set_accounts RiskEngine.new
    {[ 7 := mkAccount 7 (-70) (-100) 0 50 10 (-20) Bankruptcy true ]}.

Lemma socialize_unbalances :
  balances (the_account deficit 7) /\ ~ balances (the_account (RiskEngine.socialize deficit 7) 7).
Proof. split; vm_compute; [done|intros H; discriminate H]. Qed.

(** A fee on an unknown account still credits the fund. *)
Lemma fee_on_missing_account_mints fee : 0 < fee <= i64_max ->
  venue (RiskEngine.charge_fee RiskEngine.new 9 fee) = venue RiskEngine.new + fee.
Proof.
  intros Hf. unfold RiskEngine.charge_fee. rewrite (proj2 (Z.eqb_neq _ _)) by lia.
  unfold venue, RiskEngine.new, RiskEngine.fund_add. cbn [re_accounts].
  rewrite lookup_empty. cbn [re_accounts re_positions re_insurance_fund_atoms].
  rewrite i64_add_id by (unfold in_i64, i64_min; lia). lia.
Qed.
