(* ===== verification/BTreeMap.v ===== *)
(** [std::collections::BTreeMap] as a list of entries in strictly increasing key
    order: insertion, removal, the first and the last entry of a range.  The
    order of the keys is a class, as [Ord] is a trait. *)
From Stdlib Require Import ZArith Lia Bool.
From stdpp Require Import base numbers list sorting.
From S2P Require Import Prelude.

#[local] Open Scope Z_scope.

(** [Ord]: a decidable strict total order. *)
Class Ord (K : Type) := key_ltb : K -> K -> bool.

Class OrdLaws (K : Type) `{Ord K} : Prop := {
  key_irrefl : forall a, key_ltb a a = false;
  key_trans : forall a b c, key_ltb a b = true -> key_ltb b c = true -> key_ltb a c = true;
  key_total : forall a b, key_ltb a b = false -> key_ltb b a = false -> a = b;
}.

#[global] Instance i64_ord : Ord Z := Z.ltb.
#[global] Instance i64_ord_laws : OrdLaws Z.
Proof. split; unfold key_ltb, i64_ord; intros *; rewrite ?Z.ltb_lt, ?Z.ltb_ge; lia. Qed.

(** Tuples are ordered lexicographically. *)
#[global] Instance pair_ord {A B} `{Ord A, Ord B} : Ord (A * B) := fun x y =>
  if key_ltb (fst x) (fst y) then true
  else if key_ltb (fst y) (fst x) then false else key_ltb (snd x) (snd y).
Lemma pair_ltb {A B} `{Ord A, Ord B} (a a' : A) (b b' : B) :
  key_ltb (a, b) (a', b') =
    if key_ltb a a' then true else if key_ltb a' a then false else key_ltb b b'.
Proof. done. Qed.
#[global] Instance pair_ord_laws {A B} `{OrdLaws A, OrdLaws B} : OrdLaws (A * B).
Proof.
  assert (Has : forall X `{OrdLaws X} (a b : X), key_ltb a b = true -> key_ltb b a = false).
  { intros X ? HX a b Hab. destruct (key_ltb b a) eqn:Hba; [|done].
    by rewrite <- (key_irrefl a), (key_trans _ _ _ Hab Hba). }
  split.
  - intros [a b]. by rewrite pair_ltb, !key_irrefl.
  - intros [a b] [a' b'] [a'' b'']. rewrite !pair_ltb. intros Hx Hy.
    destruct (key_ltb a a') eqn:E1; [|destruct (key_ltb a' a) eqn:E1'; [done|]];
      (destruct (key_ltb a' a'') eqn:E2; [|destruct (key_ltb a'' a') eqn:E2'; [done|]]).
    + by rewrite (key_trans _ _ _ E1 E2).
    + rewrite <- (key_total _ _ E2 E2'). by rewrite E1.
    + rewrite (key_total _ _ E1 E1'). by rewrite E2.
    + rewrite (key_total _ _ E1 E1'), E2, E2'. by eapply key_trans.
  - intros [a b] [a' b']. rewrite !pair_ltb.
    destruct (key_ltb a a') eqn:E1; [done|]. destruct (key_ltb a' a) eqn:E2; [done|].
    intros Hx Hy. by rewrite (key_total _ _ E1 E2), (key_total _ _ Hx Hy).
Qed.

Definition BTreeMap (K V : Type) : Type := list (K * V).

Section btree.
Context {K V : Type} `{OrdLaws K}.
Implicit Types (m : list (K * V)) (k : K) (v : V).

Fixpoint bt_insert m k v : BTreeMap K V :=
  match m with
  | [] => [(k, v)]
  | (k', v') :: m' =>
      if key_ltb k k' then (k, v) :: m
      else if key_ltb k' k then (k', v') :: bt_insert m' k v
      else (k, v) :: m'
  end.

(** The value removed, and the map without it. *)
Fixpoint bt_remove m k : option V * BTreeMap K V :=
  match m with
  | [] => (None, [])
  | (k', v') :: m' =>
      if key_ltb k k' then (None, m)
      else if key_ltb k' k then let '(r, m') := bt_remove m' k in (r, (k', v') :: m')
      else (Some v', m')
  end.

(** [range(..=k)] and [range(k..)]; [next] is the head and [next_back] the last. *)
Definition bt_upto k m : list (K * V) := filter (fun e => key_ltb k (fst e) = false) m.
Definition bt_from k m : list (K * V) := filter (fun e => key_ltb (fst e) k = false) m.

Definition bt_sorted m : Prop := StronglySorted (fun a b => key_ltb (fst a) (fst b) = true) m.

Lemma key_asym k k' : key_ltb k k' = true -> key_ltb k' k = false.
Proof.
  intros Hab. destruct (key_ltb k' k) eqn:Hba; [|done].
  by rewrite <- (key_irrefl k), (key_trans _ _ _ Hab Hba).
Qed.

Lemma bt_insert_keys (P : K -> Prop) m k v :
  P k -> Forall (fun e => P (fst e)) m -> Forall (fun e => P (fst e)) (bt_insert m k v).
Proof.
  intros Hk. induction 1 as [|[k' v'] m Hk' Hm IH]; simpl; [by repeat constructor|].
  destruct (key_ltb k k'), (key_ltb k' k); by repeat constructor.
Qed.

Lemma bt_insert_sorted m k v : bt_sorted m -> bt_sorted (bt_insert m k v).
Proof.
  induction 1 as [|[k' v'] m Hm IH Hk']; simpl; [by repeat constructor|].
  destruct (key_ltb k k') eqn:E1; [|destruct (key_ltb k' k) eqn:E2].
  - constructor; [by constructor|]. constructor; [done|].
    eapply Forall_impl; [exact Hk'|]. simpl. eauto using key_trans.
  - constructor; [done|]. by apply (bt_insert_keys (fun x => key_ltb k' x = true)).
  - rewrite (key_total _ _ E1 E2). by constructor.
Qed.

(** In a sorted map, removing the key of an entry takes that entry out. *)
Lemma bt_remove_entry p k v q : bt_sorted (p ++ (k, v) :: q) -> bt_remove (p ++ (k, v) :: q) k = (Some v, p ++ q).
Proof.
  induction p as [|[k' v'] p IH]; simpl; intros Hs; apply StronglySorted_inv in Hs as [Hs Hall].
  - by rewrite key_irrefl.
  - apply Forall_app in Hall as [_ Hall]. apply Forall_cons in Hall as [Hlt _]. simpl in Hlt.
    by rewrite (key_asym _ _ Hlt), Hlt, IH.
Qed.

Lemma bt_sorted_app_remove p e q : bt_sorted (p ++ e :: q) -> bt_sorted (p ++ q).
Proof.
  induction p as [|x p IH]; simpl; intros Hs; apply StronglySorted_inv in Hs as [Hs Hall]; [done|].
  constructor; [by apply IH|]. apply Forall_app in Hall as [? Hall]. apply Forall_cons in Hall as [_ ?].
  apply Forall_app; done.
Qed.

(** A sorted map splits at every bound into the entries up to it and the rest. *)
Lemma bt_split_upto k m : bt_sorted m -> exists q, m = bt_upto k m ++ q /\ Forall (fun e => key_ltb k (fst e) = true) q.
Proof.
  induction 1 as [|[k' v'] m Hm (q & Heq & Hq) Hall]; [by exists []|].
  unfold bt_upto. rewrite filter_cons. simpl. destruct (key_ltb k k') eqn:E.
  - rewrite decide_False by done. exists ((k', v') :: m).
    assert (Hgt : Forall (fun e => key_ltb k (fst e) = true) m).
    { eapply Forall_impl; [exact Hall|]. simpl. eauto using key_trans. }
    split; [|by constructor]. rewrite filter_none; [done|].
    eapply Forall_impl; [exact Hgt|]. simpl. congruence.
  - rewrite decide_True by done. exists q. split; [|done]. simpl. by f_equal.
Qed.

Lemma bt_split_from k m : bt_sorted m -> exists q, m = q ++ bt_from k m /\ Forall (fun e => key_ltb (fst e) k = true) q.
Proof.
  induction 1 as [|[k' v'] m Hm (q & Heq & Hq) Hall]; [by exists []|].
  unfold bt_from. rewrite filter_cons. simpl. destruct (key_ltb k' k) eqn:E.
  - rewrite decide_False by done. exists ((k', v') :: q). split; [simpl; by f_equal|by constructor].
  - rewrite decide_True by done. exists []. split; [|constructor]. simpl. f_equal.
    symmetry. apply filter_all. eapply Forall_impl; [exact Hall|]. simpl. intros e Hlt.
    destruct (key_ltb (fst e) k) eqn:E'; [|done]. by rewrite (key_trans _ _ _ Hlt E') in E.
Qed.

Lemma bt_upto_bounded k m : Forall (fun e => key_ltb k (fst e) = false) (bt_upto k m).
Proof. apply Forall_forall. intros e He. by apply list_elem_of_filter in He as [? _]. Qed.

Lemma bt_from_bounded k m : Forall (fun e => key_ltb (fst e) k = false) (bt_from k m).
Proof. apply Forall_forall. intros e He. by apply list_elem_of_filter in He as [? _]. Qed.

Lemma bt_upto_prefix k p q :
  Forall (fun e => key_ltb k (fst e) = false) p -> Forall (fun e => key_ltb k (fst e) = true) q ->
  bt_upto k (p ++ q) = p.
Proof.
  intros Hp Hq. unfold bt_upto. rewrite filter_app, filter_all, filter_none; [apply app_nil_r| |done].
  eapply Forall_impl; [exact Hq|]. simpl. congruence.
Qed.

Lemma bt_from_suffix k p q :
  Forall (fun e => key_ltb (fst e) k = true) q -> Forall (fun e => key_ltb (fst e) k = false) p ->
  bt_from k (q ++ p) = p.
Proof.
  intros Hq Hp. unfold bt_from. rewrite filter_app, (filter_all _ p), filter_none; [done| |done].
  eapply Forall_impl; [exact Hq|]. simpl. congruence.
Qed.
End btree.
