(* ===== verification/Trigger.v ===== *)
(** Stop and take-profit orders ([src/src/desk/trigger.rs]): the per-symbol book
    of pending triggers, the extraction of the triggers due at a mark price, and
    the decisions of the firing and recovery paths. *)
From Stdlib Require Import ZArith Lia String.
From stdpp Require Import base numbers list sorting.
From S2P Require Import Prelude BTreeMap Fixed RiskCalc.

#[local] Open Scope Z_scope.

Record PendingTrigger := mkTrigger {
  tg_id : Z;
  tg_user_id : Z;
  tg_side : Z;
  tg_is_market : bool;
  tg_trigger_price_ticks : Z;
  tg_price_ticks : option Z;
  tg_qty_lots : Z;
}.

Inductive TriggerWhen := Rising | Falling.

Definition as_db_str (w : TriggerWhen) : string :=
  match w with Rising => "rising" | Falling => "falling" end.

Definition from_db_str (s : string) : option TriggerWhen :=
  if String.eqb s "rising" then Some Rising
  else if String.eqb s "falling" then Some Falling
  else None.

Definition default_stop_loss_direction (side : Z) : TriggerWhen :=
  if Z.eqb side 0 then Rising else Falling.

Record TriggerBook := mkTriggerBook {
  tb_rising : list ((Z * Z) * PendingTrigger);
  tb_falling : list ((Z * Z) * PendingTrigger);
}.

Module TriggerBook.
Definition empty : TriggerBook := mkTriggerBook [] [].

Definition insert (b : TriggerBook) (when : TriggerWhen) (t : PendingTrigger) : TriggerBook :=
  let key := (tg_trigger_price_ticks t, tg_id t) in
  match when with
  | Rising => mkTriggerBook (bt_insert (tb_rising b) key t) (tb_falling b)
  | Falling => mkTriggerBook (tb_rising b) (bt_insert (tb_falling b) key t)
  end.

Definition remove (b : TriggerBook) (when : TriggerWhen) (trigger_price_ticks id : Z) : bool * TriggerBook :=
  let key := (trigger_price_ticks, id) in
  match when with
  | Rising => let '(r, m) := bt_remove (tb_rising b) key in
              (bool_decide (is_Some r), mkTriggerBook m (tb_falling b))
  | Falling => let '(r, m) := bt_remove (tb_falling b) key in
               (bool_decide (is_Some r), mkTriggerBook (tb_rising b) m)
  end.

Definition len (b : TriggerBook) : Z := Z.of_nat (length (tb_rising b)) + Z.of_nat (length (tb_falling b)).
Definition is_empty (b : TriggerBook) : bool := Z.eqb (len b) 0.

(** The loop over the rising triggers; [None] is the [expect]'s panic or the end
    of the fuel. *)
Fixpoint due_rising (fuel : nat) (mark_ticks : Z) (rising : list ((Z * Z) * PendingTrigger))
  (fired : list PendingTrigger) : option (list ((Z * Z) * PendingTrigger) * list PendingTrigger) :=
  match fuel with
  | O => None
  | S fuel =>
      match last (bt_upto (mark_ticks, i64_max) rising) with
      | None => Some (rising, fired)
      | Some (key, _) =>
          match bt_remove rising key with
          | (None, _) => None
          | (Some t, rising) =>
              match bt_upto (mark_ticks, i64_max) rising with
              | [] => Some (rising, fired ++ [t])
              | _ => due_rising fuel mark_ticks rising (fired ++ [t])
              end
          end
      end
  end.

Fixpoint due_falling (fuel : nat) (mark_ticks : Z) (falling : list ((Z * Z) * PendingTrigger))
  (fired : list PendingTrigger) : option (list ((Z * Z) * PendingTrigger) * list PendingTrigger) :=
  match fuel with
  | O => None
  | S fuel =>
      match bt_from (mark_ticks, i64_min) falling with
      | [] => Some (falling, fired)
      | (key, _) :: _ =>
          match bt_remove falling key with
          | (None, _) => None
          | (Some t, falling) => due_falling fuel mark_ticks falling (fired ++ [t])
          end
      end
  end.

(** Each iteration removes a trigger, so one more than their number is enough. *)
Definition due (b : TriggerBook) (mark_ticks : Z) : option (TriggerBook * list PendingTrigger) :=
  '(rising, fired) ← due_rising (S (length (tb_rising b))) mark_ticks (tb_rising b) [];
  '(falling, fired) ← due_falling (S (length (tb_falling b))) mark_ticks (tb_falling b) fired;
  Some (mkTriggerBook rising falling, fired).
End TriggerBook.

Definition needs_reinjection (has_orders_row has_matching_event is_pending_submission : bool) : bool :=
  if is_pending_submission then negb has_matching_event
  else negb has_orders_row && negb has_matching_event.

Definition firing_margin_atoms (price_ticks qty_lots notional_scale leverage : Z) : option Z :=
  notional ← calc_notional_atoms price_ticks qty_lots notional_scale;
  calc_initial_margin_atoms notional leverage.

Definition closes_side (order_side : Z) : PositionSide :=
  if Z.eqb order_side 0 then Short else Long.

(** ** The book's invariant *)

Definition entry_ok (e : (Z * Z) * PendingTrigger) : Prop :=
  fst e = (tg_trigger_price_ticks (snd e), tg_id (snd e)) /\
  in_i64 (tg_trigger_price_ticks (snd e)) /\ in_i64 (tg_id (snd e)).

Record book_ok (b : TriggerBook) : Prop := mkBookOk {
  bo_rising : bt_sorted (tb_rising b);
  bo_falling : bt_sorted (tb_falling b);
  bo_rising_keys : Forall entry_ok (tb_rising b);
  bo_falling_keys : Forall entry_ok (tb_falling b);
}.

(** When a trigger fires. *)
Definition fires (mark : Z) (w : TriggerWhen) (t : PendingTrigger) : Prop :=
  match w with
  | Rising => tg_trigger_price_ticks t <= mark
  | Falling => mark <= tg_trigger_price_ticks t
  end.

#[global] Instance fires_dec mark w t : Decision (fires mark w t).
Proof. destruct w; simpl; apply _. Defined.

Definition triggers (b : TriggerBook) (w : TriggerWhen) : list PendingTrigger :=
  snd <$> match w with Rising => tb_rising b | Falling => tb_falling b end.

Lemma pair_lex (a b a' b' : Z) : key_ltb (a, b) (a', b') = true <-> a < a' \/ a = a' /\ b < b'.
Proof.
  rewrite pair_ltb. unfold key_ltb, i64_ord.
  destruct (Z.ltb_spec a a'); [intuition lia|]. destruct (Z.ltb_spec a' a); [intuition lia|].
  rewrite Z.ltb_lt. intuition lia.
Qed.

Lemma upto_fires mark e : entry_ok e -> key_ltb (mark, i64_max) (fst e) = false <-> fires mark Rising (snd e).
Proof.
  intros (Hk & Hp & Hi). rewrite Hk, <- not_true_iff_false, pair_lex. simpl. machine_unfold. lia.
Qed.

Lemma from_fires mark e : entry_ok e -> key_ltb (fst e) (mark, i64_min) = false <-> fires mark Falling (snd e).
Proof.
  intros (Hk & Hp & Hi). rewrite Hk, <- not_true_iff_false, pair_lex. simpl. machine_unfold. lia.
Qed.

(** ** The extraction loops *)

Lemma due_rising_all mark p q fired fuel :
  bt_sorted (p ++ q) -> Forall (fun e => key_ltb (mark, i64_max) (fst e) = false) p ->
  Forall (fun e => key_ltb (mark, i64_max) (fst e) = true) q -> (length p < fuel)%nat ->
  TriggerBook.due_rising fuel mark (p ++ q) fired = Some (q, fired ++ reverse (snd <$> p)).
Proof.
  intros Hs Hp Hq. revert fired fuel Hs Hp.
  induction p as [|[key t] p IH] using rev_ind; intros fired fuel Hs Hp Hf;
    destruct fuel as [|fuel]; try (simpl in Hf; lia); cbn [TriggerBook.due_rising];
    rewrite (bt_upto_prefix _ _ q) by done.
  { simpl. by rewrite app_nil_r. }
  rewrite last_snoc. rewrite <- app_assoc in *. cbn [app] in *.
  rewrite bt_remove_entry by done. apply Forall_app in Hp as [Hp _].
  rewrite (bt_upto_prefix _ _ q) by done.
  rewrite length_app in Hf. simpl in Hf. rewrite fmap_app, reverse_app. cbn [fmap list_fmap snd].
  destruct p as [|e l] eqn:E; [done|]. rewrite <- E in *.
  rewrite IH; [|by eapply bt_sorted_app_remove|done|lia]. by rewrite <- app_assoc.
Qed.

Lemma due_falling_all mark p q fired fuel :
  bt_sorted (q ++ p) -> Forall (fun e => key_ltb (fst e) (mark, i64_min) = true) q ->
  Forall (fun e => key_ltb (fst e) (mark, i64_min) = false) p -> (length p < fuel)%nat ->
  TriggerBook.due_falling fuel mark (q ++ p) fired = Some (q, fired ++ (snd <$> p)).
Proof.
  intros Hs Hq. revert fired fuel Hs.
  induction p as [|[key t] p IH]; intros fired fuel Hs Hp Hf;
    destruct fuel as [|fuel]; try (simpl in Hf; lia); cbn [TriggerBook.due_falling];
    rewrite bt_from_suffix by done.
  { simpl. by rewrite !app_nil_r. }
  rewrite bt_remove_entry by done. apply Forall_cons in Hp as [_ Hp]. simpl in Hf.
  rewrite IH; [|by eapply bt_sorted_app_remove|done|lia]. by rewrite <- app_assoc.
Qed.

(** A list in two parts, of which one has a property and the other not. *)
Lemma split_filter {A} (P : A -> Prop) `{!forall x, Decision (P x)} (p q l : list A) :
  l = p ++ q \/ l = q ++ p -> Forall P p -> Forall (fun x => ~ P x) q ->
  filter P l = p /\ filter (fun x => ~ P x) l = q.
Proof.
  intros Hl Hp Hq. assert (Hpp : Forall (fun x => ~ ~ P x) p) by (eapply Forall_impl; [exact Hp|auto]).
  destruct Hl as [-> | ->]; rewrite !filter_app, !(filter_all _ p), !(filter_none _ q),
    !(filter_all _ q), !(filter_none _ p), ?app_nil_r by done; done.
Qed.

(** What [due] does to a well-formed book: each side splits at the mark, the
    triggers on the mark's side fire, rising ones from the highest price down
    and falling ones from the lowest up, and the others stay. *)
Lemma due_split b mark : book_ok b ->
  exists pr qr pf qf, tb_rising b = pr ++ qr /\ tb_falling b = qf ++ pf /\
    Forall (fires mark Rising) (snd <$> pr) /\ Forall (fun t => ~ fires mark Rising t) (snd <$> qr) /\
    Forall (fires mark Falling) (snd <$> pf) /\ Forall (fun t => ~ fires mark Falling t) (snd <$> qf) /\
    TriggerBook.due b mark = Some (mkTriggerBook qr qf, reverse (snd <$> pr) ++ (snd <$> pf)).
Proof.
  intros [Hr Hf Hkr Hkf].
  destruct (bt_split_upto (mark, i64_max) _ Hr) as (qr & Er & Hqr).
  destruct (bt_split_from (mark, i64_min) _ Hf) as (qf & Ef & Hqf).
  pose proof (bt_upto_bounded (mark, i64_max) (tb_rising b)) as Hpr.
  pose proof (bt_from_bounded (mark, i64_min) (tb_falling b)) as Hpf.
  set (pr := bt_upto (mark, i64_max) (tb_rising b)) in *.
  set (pf := bt_from (mark, i64_min) (tb_falling b)) in *.
  exists pr, qr, pf, qf. split; [done|]. split; [done|].
  assert (Hdue : TriggerBook.due b mark = Some (mkTriggerBook qr qf, reverse (snd <$> pr) ++ (snd <$> pf))).
  { unfold TriggerBook.due. rewrite Er, due_rising_all; [|by rewrite <- Er|done|done|rewrite length_app; lia].
    cbn [mbind option_bind]. rewrite Ef, due_falling_all; [done|by rewrite <- Ef|done|done|rewrite length_app; lia]. }
  rewrite Er in Hkr. rewrite Ef in Hkf. apply Forall_app in Hkr as [Hkp Hkq], Hkf as [Hkq' Hkp'].
  rewrite !Forall_fmap. repeat split; try done.
  - eapply (Forall_impl2 _ _ _ _ Hpr Hkp). intros e He Hok. by apply upto_fires.
  - eapply (Forall_impl2 _ _ _ _ Hqr Hkq). intros e He Hok Hx. apply upto_fires in Hx; [congruence|done].
  - eapply (Forall_impl2 _ _ _ _ Hpf Hkp'). intros e He Hok. by apply from_fires.
  - eapply (Forall_impl2 _ _ _ _ Hqf Hkq'). intros e He Hok Hx. apply from_fires in Hx; [congruence|done].
Qed.

(** ** Reachable books *)

Inductive trigger_op :=
| TInsert (w : TriggerWhen) (t : PendingTrigger)
| TRemove (w : TriggerWhen) (price id : Z)
| TDue (mark : Z).

Definition trigger_op_ok (op : trigger_op) : Prop :=
  match op with TInsert _ t => in_i64 (tg_trigger_price_ticks t) /\ in_i64 (tg_id t) | _ => True end.

Definition trigger_run_op (b : TriggerBook) (op : trigger_op) : option TriggerBook :=
  match op with
  | TInsert w t => Some (TriggerBook.insert b w t)
  | TRemove w p id => Some (snd (TriggerBook.remove b w p id))
  | TDue mark => fst <$> TriggerBook.due b mark
  end.

Definition trigger_run (b : TriggerBook) (ops : list trigger_op) : option TriggerBook :=
  foldl (fun b op => b ← b; trigger_run_op b op) (Some b) ops.

Lemma bt_remove_sublist {K V} `{Ord K} (m : list (K * V)) k : sublist (snd (bt_remove m k)) m.
Proof.
  induction m as [|[k' v'] m IH]; simpl; [done|].
  destruct (key_ltb k k'); [done|]. destruct (key_ltb k' k); [|by apply sublist_cons].
  destruct (bt_remove m k) as [r m']. simpl in *. by apply sublist_skip.
Qed.

Lemma sorted_sublist {K V} `{OrdLaws K} (l m : list (K * V)) : sublist l m -> bt_sorted m -> bt_sorted l.
Proof.
  induction 1 as [|x l m Hs IH|x l m Hs IH]; intros Hm; [done| |].
  - apply StronglySorted_inv in Hm as [Hm Hx]. constructor; [by apply IH|].
    eapply Forall_sublist; eauto.
  - apply StronglySorted_inv in Hm as [Hm _]. by apply IH.
Qed.

Lemma book_ok_insert b w t :
  book_ok b -> in_i64 (tg_trigger_price_ticks t) -> in_i64 (tg_id t) -> book_ok (TriggerBook.insert b w t).
Proof.
  intros [Hr Hf Hkr Hkf] Hp Hi.
  assert (Hkey : forall m, Forall entry_ok m ->
            Forall entry_ok (bt_insert m (tg_trigger_price_ticks t, tg_id t) t)).
  { assert (He : entry_ok ((tg_trigger_price_ticks t, tg_id t), t)) by done.
    generalize dependent (tg_trigger_price_ticks t, tg_id t). intros key He.
    induction 1 as [|[k v] m Hk Hm IH]; cbn [bt_insert]; [by constructor|].
    destruct (key_ltb key k), (key_ltb k key); auto. }
  destruct w; split; simpl; try done; try (by apply bt_insert_sorted); by apply Hkey.
Qed.

Lemma book_ok_remove b w p id : book_ok b -> book_ok (snd (TriggerBook.remove b w p id)).
Proof.
  intros [Hr Hf Hkr Hkf]. unfold TriggerBook.remove.
  destruct w; [pose proof (bt_remove_sublist (tb_rising b) (p, id)) as Hs
              |pose proof (bt_remove_sublist (tb_falling b) (p, id)) as Hs];
    destruct (bt_remove _ _) as [r m]; simpl in *; split; simpl;
    try done; first [by eapply sorted_sublist | by eapply Forall_sublist].
Qed.

Lemma book_ok_due b mark b' fired : book_ok b -> TriggerBook.due b mark = Some (b', fired) -> book_ok b'.
Proof.
  intros Hb Hd. destruct (due_split b mark Hb) as (pr & qr & pf & qf & Er & Ef & _ & _ & _ & _ & Hd').
  rewrite Hd' in Hd. injection Hd as <- _. destruct Hb as [Hr Hf Hkr Hkf].
  assert (sublist qr (tb_rising b)) by (rewrite Er; apply sublist_inserts_l; done).
  assert (sublist qf (tb_falling b)) by (rewrite Ef; apply sublist_inserts_r; done).
  split; simpl; try done; first [by eapply sorted_sublist | by eapply Forall_sublist].
Qed.

Lemma trigger_run_ok ops b : book_ok b -> Forall trigger_op_ok ops ->
  exists b', trigger_run b ops = Some b' /\ book_ok b'.
Proof.
  intros Hb Hops. revert b Hb. induction Hops as [|op ops Hop _ IH]; intros b Hb; [by exists b|].
  assert (exists b', trigger_run_op b op = Some b' /\ book_ok b') as (b' & Hr & Hb').
  { destruct op as [w t|w p id|mark]; simpl in *.
    - destruct Hop. eauto using book_ok_insert.
    - eauto using book_ok_remove.
    - destruct (due_split b mark Hb) as (pr & qr & pf & qf & _ & _ & _ & _ & _ & _ & Hd).
      rewrite Hd. simpl. eexists. split; [done|]. by eapply book_ok_due. }
  unfold trigger_run. cbn [foldl]. cbn [mbind option_bind]. rewrite Hr. by apply IH.
Qed.

Lemma empty_ok : book_ok TriggerBook.empty.
Proof. split; constructor. Qed.

(** C30: After any sequence of registrations, cancellations and mark moves, the
    extraction at a mark price terminates without panicking and fires exactly
    the due triggers, each once: the rising ones whose price the mark has
    reached, highest first, then the falling ones the mark has fallen to, lowest
    first.  It leaves exactly the others, and a second extraction at the same
    mark fires nothing. *)
Theorem due_exact ops mark :
  Forall trigger_op_ok ops ->
  exists b b' fired, trigger_run TriggerBook.empty ops = Some b /\
    TriggerBook.due b mark = Some (b', fired) /\
    fired = reverse (filter (fires mark Rising) (triggers b Rising))
            ++ filter (fires mark Falling) (triggers b Falling) /\
    (forall w, triggers b' w = filter (fun t => ~ fires mark w t) (triggers b w)) /\
    TriggerBook.due b' mark = Some (b', []).
Proof.
  intros Hops. destruct (trigger_run_ok ops _ empty_ok Hops) as (b & Hr & Hb).
  destruct (due_split b mark Hb) as (pr & qr & pf & qf & Er & Ef & Hpr & Hqr & Hpf & Hqf & Hd).
  pose proof (split_filter (fires mark Rising) (snd <$> pr) (snd <$> qr) (triggers b Rising)) as [H1 H2];
    [left; unfold triggers; by rewrite Er, fmap_app|done|done|].
  pose proof (split_filter (fires mark Falling) (snd <$> pf) (snd <$> qf) (triggers b Falling)) as [H3 H4];
    [right; unfold triggers; by rewrite Ef, fmap_app|done|done|].
  eexists b, _, _. split; [done|]. split; [exact Hd|]. split; [by rewrite H1, H3|].
  split; [intros []; [by rewrite H2|by rewrite H4]|].
  pose proof (book_ok_due _ _ _ _ Hb Hd) as Hb'.
  destruct (due_split _ mark Hb') as (pr' & qr' & pf' & qf' & Er' & Ef' & Hpr' & _ & Hpf' & _ & ->).
  simpl in Er', Ef'. subst qr qf. rewrite fmap_app in Hqr, Hqf.
  apply Forall_app in Hqr as [Hqr _], Hqf as [_ Hqf].
  assert (pr' = []) as -> by (destruct pr'; [done|inversion Hpr'; inversion Hqr; done]).
  assert (pf' = []) as -> by (destruct pf'; [done|inversion Hpf'; inversion Hqf; done]).
  by rewrite !app_nil_r.
Qed.

Definition stop (id price : Z) : PendingTrigger := mkTrigger id 1 0 true price None 5.

Lemma due_exact_witness :
  exists b b' fired,
    trigger_run TriggerBook.empty [TInsert Rising (stop 1 100); TInsert Rising (stop 2 105);
      TInsert Rising (stop 3 111); TInsert Falling (stop 4 110); TInsert Falling (stop 5 90)] = Some b /\
    TriggerBook.due b 105 = Some (b', fired) /\
    fired = reverse (filter (fires 105 Rising) (triggers b Rising))
            ++ filter (fires 105 Falling) (triggers b Falling) /\
    (forall w, triggers b' w = filter (fun t => ~ fires 105 w t) (triggers b w)) /\
    TriggerBook.due b' 105 = Some (b', []).
Proof.
  apply due_exact. repeat constructor; cbn; machine_unfold; lia.
Defined.

(** The direction column of the trigger table is read back as it was written. *)
Lemma db_str_roundtrip w : from_db_str (as_db_str w) = Some w.
Proof. by destruct w. Qed.

(** A trigger whose order the engine has accepted is never injected again. *)
Lemma no_double_injection has_row pending : needs_reinjection has_row true pending = false.
Proof. by destruct has_row, pending. Qed.
