(* ===== verification/F64.v ===== *)
(** IEEE 754 binary64 as the desk uses it at its boundaries: bit patterns,
    comparisons, multiplication and division, [round], [is_finite] and the
    saturating cast to [i64].  A value is a [spec_float] of the Standard
    Library, which rounds every operation to nearest, ties to even. *)
From Stdlib Require Import ZArith Lia SpecFloat.
From stdpp Require Import base numbers list.
From S2P Require Import Prelude Fixed Types.

#[local] Open Scope Z_scope.

#[global] Instance spec_float_eq_dec : EqDecision spec_float.
Proof. solve_decision. Defined.
#[global] Instance f64_eq_dec : EqDecision f64 := spec_float_eq_dec.

(** The value of a 64-bit pattern: sign, eleven bits of exponent, 52 of
    fraction. *)
Definition f64_of_bits (bits : Z) : f64 :=
  let sign := Z.testbit bits 63 in
  let exponent := Z.shiftr bits 52 mod 2048 in
  let fraction := bits mod 2 ^ 52 in
  if Z.eqb exponent 2047 then (if Z.eqb fraction 0 then S754_infinity sign else S754_nan)
  else if Z.eqb exponent 0 then
    match fraction with
    | Zpos m => S754_finite sign m (-1074)
    | _ => S754_zero sign
    end
  else match fraction + 2 ^ 52 with
       | Zpos m => S754_finite sign m (exponent - 1075)
       | _ => S754_nan
       end.

(** [f64::to_bits]; every NaN is the canonical quiet one. *)
Definition f64_to_bits (x : f64) : Z :=
  let sign (s : bool) := if s then 2 ^ 63 else 0 in
  match x with
  | S754_zero s => sign s
  | S754_infinity s => sign s + 2047 * 2 ^ 52
  | S754_nan => 2047 * 2 ^ 52 + 2 ^ 51
  | S754_finite s m e =>
      if Z.leb (2 ^ 52) (Zpos m) then sign s + (e + 1075) * 2 ^ 52 + (Zpos m - 2 ^ 52)
      else sign s + Zpos m
  end.

Definition f64_mul (a b : f64) : f64 := SFmul 53 1024 a b.
Definition f64_div (a b : f64) : f64 := SFdiv 53 1024 a b.
Definition f64_add (a b : f64) : f64 := SFadd 53 1024 a b.
Definition f64_sub (a b : f64) : f64 := SFsub 53 1024 a b.
Definition f64_abs (a : f64) : f64 := SFabs a.

(** [a < b], [a <= b], [a == b]: false on NaN. *)
Definition f64_lt (a b : f64) : bool := SFltb a b.
Definition f64_le (a b : f64) : bool := SFleb a b.
Definition f64_eq (a b : f64) : bool := SFeqb a b.

(** [f64::max] and [f64::min]: the other argument when one is NaN. *)
Definition f64_max (a b : f64) : f64 :=
  match a, b with
  | S754_nan, _ => b
  | _, S754_nan => a
  | _, _ => if f64_lt a b then b else a
  end.

Definition f64_min (a b : f64) : f64 :=
  match a, b with
  | S754_nan, _ => b
  | _, S754_nan => a
  | _, _ => if f64_lt b a then b else a
  end.

Definition f64_is_finite (a : f64) : bool :=
  match a with S754_zero _ | S754_finite _ _ _ => true | _ => false end.

(** The magnitude [m * 2^e] rounded to an integer, halves away from zero. *)
Definition round_magnitude (m : positive) (e : Z) : Z :=
  if Z.leb 0 e then Zpos m * 2 ^ e else (Zpos m + 2 ^ (- e - 1)) / 2 ^ (- e).

(** [f64::round], exact: the rounded value of a binary64 is representable. *)
Definition f64_round (a : f64) : f64 :=
  match a with
  | S754_finite s m e => binary_normalize 53 1024 (cond_Zopp s (round_magnitude m e)) 0 s
  | _ => a
  end.

(** [a as i64]: truncation, saturating, NaN to 0. *)
Definition f64_as_i64 (a : f64) : Z :=
  match a with
  | S754_finite s m e =>
      i64_clamp (cond_Zopp s (if Z.leb 0 e then Zpos m * 2 ^ e else Zpos m / 2 ^ (- e)))
  | S754_infinity s => if s then i64_min else i64_max
  | _ => 0
  end.

(** A literal [p / q] whose numerator and denominator are exact. *)
Definition f64_lit (p q : Z) : f64 := f64_div (i64_as_f64 p) (i64_as_f64 q).

Lemma f64_as_i64_range a : in_i64 (f64_as_i64 a).
Proof.
  destruct a as [| [] | |s m e]; simpl; unfold i64_clamp; machine_unfold; try lia.
Qed.
