(* ===== verification/MarketData.v ===== *)
(** The market-data engine ([src/src/matching/market_data.rs]): best bid and
    offer, the ten-level book, bars of one second, five seconds and one minute,
    24-hour statistics, the increments between depth snapshots and the snapshot
    timer.  Arrays are lists of fixed length; an access out of bounds is [None]. *)
From Stdlib Require Import ZArith Lia SpecFloat.
From stdpp Require Import base numbers list.
From S2P Require Import Prelude Fixed Types F64.

#[local] Open Scope Z_scope.

Record BBOSnapshot := mkBBO {
  bbo_timestamp : Z;
  bbo_sequence : Z;
  bbo_best_bid_price : f64;
  bbo_best_bid_qty : f64;
  bbo_best_ask_price : f64;
  bbo_best_ask_qty : f64;
  bbo_bid_level_count : Z;
  bbo_ask_level_count : Z;
}.

Definition BBOSnapshot_new (timestamp sequence : Z)
  (best_bid_price best_bid_qty best_ask_price best_ask_qty : f64)
  (bid_level_count ask_level_count : Z) : BBOSnapshot :=
  mkBBO timestamp sequence best_bid_price best_bid_qty best_ask_price best_ask_qty
    bid_level_count ask_level_count.

Definition BBOSnapshot_default : BBOSnapshot := mkBBO 0 0 f64_zero f64_zero f64_zero f64_zero 0 0.

Definition mid_price (b : BBOSnapshot) : f64 :=
  f64_div (f64_add (bbo_best_bid_price b) (bbo_best_ask_price b)) (f64_lit 2 1).

Definition spread (b : BBOSnapshot) : f64 := f64_sub (bbo_best_ask_price b) (bbo_best_bid_price b).

Record PriceLevel := mkLevel { pl_price : f64; pl_quantity : f64 }.
Definition PriceLevel_default : PriceLevel := mkLevel f64_zero f64_zero.

Record Level2Snapshot := mkLevel2 {
  lv_timestamp : Z;
  lv_sequence : Z;
  lv_bids : list PriceLevel;
  lv_asks : list PriceLevel;
  lv_num_bids : Z;
  lv_num_asks : Z;
}.

(** [a\[i\] = x] of an array. *)
Definition set_at {A} (i : nat) (x : A) (a : list A) : option (list A) :=
  if decide (i < length a)%nat then Some (<[i := x]> a) else None.

Module Level2Snapshot.
Definition new (timestamp sequence : Z) : Level2Snapshot :=
  mkLevel2 timestamp sequence (replicate 10 PriceLevel_default) (replicate 10 PriceLevel_default) 0 0.

Definition add_bid (s : Level2Snapshot) (price quantity : f64) : option (Level2Snapshot * bool) :=
  if Z.leb 10 (lv_num_bids s) then Some (s, false)
  else
    bids ← set_at (Z.to_nat (lv_num_bids s)) (mkLevel price quantity) (lv_bids s);
    Some (mkLevel2 (lv_timestamp s) (lv_sequence s) bids (lv_asks s)
            ((lv_num_bids s + 1) mod 2 ^ 16) (lv_num_asks s), true).

Definition add_ask (s : Level2Snapshot) (price quantity : f64) : option (Level2Snapshot * bool) :=
  if Z.leb 10 (lv_num_asks s) then Some (s, false)
  else
    asks ← set_at (Z.to_nat (lv_num_asks s)) (mkLevel price quantity) (lv_asks s);
    Some (mkLevel2 (lv_timestamp s) (lv_sequence s) (lv_bids s) asks
            (lv_num_bids s) ((lv_num_asks s + 1) mod 2 ^ 16), true).

Definition clear (s : Level2Snapshot) : Level2Snapshot :=
  mkLevel2 (lv_timestamp s) (lv_sequence s)
    (replicate 10 PriceLevel_default) (replicate 10 PriceLevel_default) 0 0.

Definition best_bid (s : Level2Snapshot) : option (option PriceLevel) :=
  if Z.ltb 0 (lv_num_bids s) then l ← lv_bids s !! 0%nat; Some (Some l) else Some None.

Definition best_ask (s : Level2Snapshot) : option (option PriceLevel) :=
  if Z.ltb 0 (lv_num_asks s) then l ← lv_asks s !! 0%nat; Some (Some l) else Some None.

Definition default : Level2Snapshot := new 0 0.
End Level2Snapshot.

Record AggregateTrade := mkAggregate {
  ag_start_time : Z;
  ag_end_time : Z;
  ag_sequence : Z;
  ag_open : f64;
  ag_close : f64;
  ag_high : f64;
  ag_low : f64;
  ag_volume : f64;
  ag_quote_asset_volume : f64;
  ag_trade_count : Z;
}.

Module AggregateTrade.
Definition new (start_time end_time sequence : Z) : AggregateTrade :=
  mkAggregate start_time end_time sequence f64_zero f64_zero f64_zero f64_zero f64_zero f64_zero 0.

Definition init_with_first_trade (a : AggregateTrade) (price quantity : f64) : AggregateTrade :=
  mkAggregate (ag_start_time a) (ag_end_time a) (ag_sequence a) price price price price quantity
    (f64_mul price quantity) 1.

Definition update_with_trade (a : AggregateTrade) (price quantity : f64) : AggregateTrade :=
  mkAggregate (ag_start_time a) (ag_end_time a) (ag_sequence a) (ag_open a) price
    (f64_max (ag_high a) price) (f64_min (ag_low a) price) (f64_add (ag_volume a) quantity)
    (f64_add (ag_quote_asset_volume a) (f64_mul price quantity)) (u64_add (ag_trade_count a) 1).

Definition vwap (a : AggregateTrade) : f64 :=
  if f64_lt f64_zero (ag_volume a) then f64_div (ag_quote_asset_volume a) (ag_volume a) else f64_zero.
End AggregateTrade.

Inductive BucketType := OneSecond | FiveSeconds | OneMinute.

Definition window_nanos (b : BucketType) : Z :=
  match b with OneSecond => 1000000000 | FiveSeconds => 5000000000 | OneMinute => 60000000000 end.

Record AggregateTradeWindow := mkWindow {
  aw_bucket_type : BucketType;
  aw_start_time : Z;
  aw_end_time : Z;
  aw_open : f64;
  aw_high : f64;
  aw_low : f64;
  aw_close : f64;
  aw_volume : f64;
  aw_quote_asset_volume : f64;
  aw_trade_count : Z;
  aw_sequence : Z;
  aw_has_trades : bool;
}.

Module AggregateTradeWindow.
Definition new (bucket_type : BucketType) (start_time sequence : Z) : AggregateTradeWindow :=
  mkWindow bucket_type start_time (u64_add start_time (window_nanos bucket_type))
    f64_zero f64_zero f64_zero f64_zero f64_zero f64_zero 0 sequence false.

Definition contains_time (w : AggregateTradeWindow) (timestamp : Z) : bool :=
  Z.ltb timestamp (aw_end_time w).

Definition init_with_first_trade (w : AggregateTradeWindow) (price quantity : f64) : AggregateTradeWindow :=
  mkWindow (aw_bucket_type w) (aw_start_time w) (aw_end_time w) price price price price quantity
    (f64_mul price quantity) 1 (aw_sequence w) true.

Definition update_with_trade (w : AggregateTradeWindow) (price quantity : f64) : AggregateTradeWindow :=
  mkWindow (aw_bucket_type w) (aw_start_time w) (aw_end_time w) (aw_open w)
    (f64_max (aw_high w) price) (f64_min (aw_low w) price) price (f64_add (aw_volume w) quantity)
    (f64_add (aw_quote_asset_volume w) (f64_mul price quantity)) ((aw_trade_count w + 1) mod 2 ^ 32)
    (aw_sequence w) (aw_has_trades w).

Definition to_aggregate_trade (w : AggregateTradeWindow) : AggregateTrade :=
  mkAggregate (aw_start_time w) (aw_end_time w) (aw_sequence w) (aw_open w) (aw_close w) (aw_high w)
    (aw_low w) (aw_volume w) (aw_quote_asset_volume w) (aw_trade_count w).
End AggregateTradeWindow.

Record Statistics24h := mkStats {
  st_timestamp : Z;
  st_price_24h_high : f64;
  st_price_24h_low : f64;
  st_price_change_percent : f64;
  st_weighted_avg_price : f64;
  st_volume_24h : f64;
  st_quote_asset_volume_24h : f64;
  st_bid_price : f64;
  st_bid_qty : f64;
  st_ask_price : f64;
  st_ask_qty : f64;
  st_open_time : Z;
  st_close_time : Z;
  st_first_trade_id : Z;
  st_last_trade_id : Z;
  st_trade_count : Z;
}.

Module Statistics24h.
Definition new (timestamp : Z) : Statistics24h :=
  mkStats timestamp f64_zero f64_zero f64_zero f64_zero f64_zero f64_zero f64_zero f64_zero f64_zero
    f64_zero 0 0 0 0 0.

Definition update_price_range (s : Statistics24h) (price : f64) : Statistics24h :=
  let high := if f64_eq (st_price_24h_high s) f64_zero || f64_lt (st_price_24h_high s) price
              then price else st_price_24h_high s in
  let low := if f64_eq (st_price_24h_low s) f64_zero || f64_lt price (st_price_24h_low s)
             then price else st_price_24h_low s in
  mkStats (st_timestamp s) high low (st_price_change_percent s) (st_weighted_avg_price s)
    (st_volume_24h s) (st_quote_asset_volume_24h s) (st_bid_price s) (st_bid_qty s) (st_ask_price s)
    (st_ask_qty s) (st_open_time s) (st_close_time s) (st_first_trade_id s) (st_last_trade_id s)
    (st_trade_count s).

Definition update_price_change (s : Statistics24h) (open_price : f64) : Statistics24h :=
  if f64_lt f64_zero open_price then
    let last_price := if f64_lt f64_zero (st_quote_asset_volume_24h s)
                      then f64_div (st_quote_asset_volume_24h s) (st_volume_24h s) else f64_zero in
    let percent := f64_mul (f64_div (f64_sub last_price open_price) open_price) (f64_lit 100 1) in
    mkStats (st_timestamp s) (st_price_24h_high s) (st_price_24h_low s) percent
      (st_weighted_avg_price s) (st_volume_24h s) (st_quote_asset_volume_24h s) (st_bid_price s)
      (st_bid_qty s) (st_ask_price s) (st_ask_qty s) (st_open_time s) (st_close_time s)
      (st_first_trade_id s) (st_last_trade_id s) (st_trade_count s)
  else s.

Definition calculate_weighted_avg_price (s : Statistics24h) : f64 :=
  if f64_lt f64_zero (st_volume_24h s) then f64_div (st_quote_asset_volume_24h s) (st_volume_24h s)
  else f64_zero.
End Statistics24h.

Record PublishedSnapshot := mkPublished {
  pb_timestamp : Z;
  pb_sequence : Z;
  pb_bbo : BBOSnapshot;
  pb_level2 : Level2Snapshot;
  pb_current_agg_1s : AggregateTrade;
  pb_current_agg_5s : AggregateTrade;
  pb_current_agg_1m : AggregateTrade;
  pb_stats_24h : Statistics24h;
}.

Record MarketDataEngine := mkMarketData {
  md_bbo_snapshot : BBOSnapshot;
  md_level2_snapshot : Level2Snapshot;
  md_statistics_24h : Statistics24h;
  md_active_1s_bucket : AggregateTradeWindow;
  md_active_5s_bucket : AggregateTradeWindow;
  md_active_1m_bucket : AggregateTradeWindow;
  md_completed_1s_trades : list AggregateTrade;
  md_completed_5s_trades : list AggregateTrade;
  md_completed_1m_trades : list AggregateTrade;
  md_max_history : nat;
  md_prev_depth50_bids : list (f64 * f64);
  md_prev_depth50_asks : list (f64 * f64);
  md_prev_depth50_num_bids : Z;
  md_prev_depth50_num_asks : Z;
  md_prev_level2_bids : list (f64 * f64);
  md_prev_level2_asks : list (f64 * f64);
  md_prev_level2_num_bids : Z;
  md_prev_level2_num_asks : Z;
}.

(** The tolerance [1e-10]. *)
Definition EPS : f64 := f64_lit 1 10000000000.

(** [(a - b).abs() < 1e-10] and [(a - b).abs() > 1e-10] *)
Definition near (a b : f64) : bool := f64_lt (f64_abs (f64_sub a b)) EPS.
Definition apart (a b : f64) : bool := f64_lt EPS (f64_abs (f64_sub a b)).

Module MarketDataEngine.
Definition new : MarketDataEngine :=
  mkMarketData BBOSnapshot_default Level2Snapshot.default (Statistics24h.new 0)
    (AggregateTradeWindow.new OneSecond 0 0) (AggregateTradeWindow.new FiveSeconds 0 0)
    (AggregateTradeWindow.new OneMinute 0 0) [] [] [] 10
    (replicate 50 (f64_zero, f64_zero)) (replicate 50 (f64_zero, f64_zero)) 0 0
    (replicate 400 (f64_zero, f64_zero)) (replicate 400 (f64_zero, f64_zero)) 0 0.

(** *** Best bid and offer *)

Definition with_ask (b : BBOSnapshot) (price qty : f64) : BBOSnapshot :=
  mkBBO (bbo_timestamp b) (bbo_sequence b) (bbo_best_bid_price b) (bbo_best_bid_qty b) price qty
    (bbo_bid_level_count b) (bbo_ask_level_count b).

Definition with_bid (b : BBOSnapshot) (price qty : f64) : BBOSnapshot :=
  mkBBO (bbo_timestamp b) (bbo_sequence b) price qty (bbo_best_ask_price b) (bbo_best_ask_qty b)
    (bbo_bid_level_count b) (bbo_ask_level_count b).

(** The quantity left at the best price, not below zero. *)
Definition consume (qty traded : f64) : f64 :=
  let left := f64_sub qty traded in if f64_lt left f64_zero then f64_zero else left.

Definition update_bbo_from_trade (b : BBOSnapshot) (event : TradeEvent) : BBOSnapshot * bool :=
  let price := te_price event in
  match te_side event with
  | Buy =>
      if f64_eq (bbo_best_ask_price b) f64_zero then (with_ask b price (te_quantity event), true)
      else if f64_lt price (bbo_best_ask_price b) then (with_ask b price (te_quantity event), true)
      else if f64_eq price (bbo_best_ask_price b) then
        (with_ask b (bbo_best_ask_price b) (consume (bbo_best_ask_qty b) (te_quantity event)), true)
      else (b, false)
  | Sell =>
      if f64_eq (bbo_best_bid_price b) f64_zero then (with_bid b price (te_quantity event), true)
      else if f64_lt (bbo_best_bid_price b) price then (with_bid b price (te_quantity event), true)
      else if f64_eq price (bbo_best_bid_price b) then
        (with_bid b (bbo_best_bid_price b) (consume (bbo_best_bid_qty b) (te_quantity event)), true)
      else (b, false)
  end.

(** *** The ten-level book

    The loops over one side's array: the level at a price, the removal of level
    [i] by shifting the tail down, the place of a new level, and the shift that
    makes room for it. *)

Fixpoint find_near (levels : list PriceLevel) (price : f64) (i n : nat) : option (option nat) :=
  match n with
  | O => Some None
  | S n =>
      l ← levels !! i;
      if near (pl_price l) price then Some (Some i) else find_near levels price (S i) n
  end.

Fixpoint shift_down (levels : list PriceLevel) (j n : nat) : option (list PriceLevel) :=
  match n with
  | O => Some levels
  | S n => x ← levels !! S j; levels ← set_at j x levels; shift_down levels (S j) n
  end.

Fixpoint insert_pos (before : f64 -> f64 -> bool) (levels : list PriceLevel) (price : f64) (i n : nat)
  : option nat :=
  match n with
  | O => Some i
  | S n =>
      l ← levels !! i;
      if before price (pl_price l) then Some i else insert_pos before levels price (S i) n
  end.

Fixpoint shift_up (levels : list PriceLevel) (pos n : nat) : option (list PriceLevel) :=
  match n with
  | O => Some levels
  | S n => x ← levels !! (pos + n)%nat; levels ← set_at (S (pos + n)) x levels; shift_up levels pos n
  end.

(** One side after a trade on it: the array, the number of levels, and whether
    it changed.  [before] is the side's price order. *)
Definition trade_side (before : f64 -> f64 -> bool) (levels : list PriceLevel) (num : Z)
  (price quantity : f64) : option (list PriceLevel * Z * bool) :=
  let n := Z.to_nat num in
  found ← find_near levels price 0 n;
  match found with
  | Some i =>
      l ← levels !! i;
      let qty := f64_sub (pl_quantity l) quantity in
      levels ← set_at i (mkLevel (pl_price l) qty) levels;
      if f64_lt qty EPS then
        levels ← shift_down levels i (n - 1 - i);
        levels ← set_at (n - 1) PriceLevel_default levels;
        Some (levels, num - 1, true)
      else Some (levels, num, true)
  | None =>
      if Z.ltb num 10 then
        pos ← insert_pos before levels price 0 n;
        levels ← shift_up levels pos (n - pos);
        levels ← set_at pos (mkLevel price quantity) levels;
        Some (levels, num + 1, true)
      else Some (levels, num, false)
  end.

Definition update_level2_from_trade (s : Level2Snapshot) (event : TradeEvent)
  : option (Level2Snapshot * bool) :=
  match te_side event with
  | Buy =>
      '(asks, num, changed) ←
        trade_side f64_lt (lv_asks s) (lv_num_asks s) (te_price event) (te_quantity event);
      Some (mkLevel2 (lv_timestamp s) (lv_sequence s) (lv_bids s) asks (lv_num_bids s) num, changed)
  | Sell =>
      '(bids, num, changed) ←
        trade_side (fun a b => f64_lt b a) (lv_bids s) (lv_num_bids s) (te_price event) (te_quantity event);
      Some (mkLevel2 (lv_timestamp s) (lv_sequence s) bids (lv_asks s) num (lv_num_asks s), changed)
  end.

(** *** Bars *)

(** One bucket: extend the active window, or close it into the history and open
    the next one at the trade's time. *)
Definition update_bucket (max_history : nat) (active : AggregateTradeWindow)
  (completed : list AggregateTrade) (bucket_type : BucketType) (event : TradeEvent)
  : AggregateTradeWindow * list AggregateTrade :=
  if AggregateTradeWindow.contains_time active (te_timestamp event) then
    if negb (aw_has_trades active) then
      (AggregateTradeWindow.init_with_first_trade active (te_price event) (te_quantity event), completed)
    else
      (AggregateTradeWindow.update_with_trade active (te_price event) (te_quantity event), completed)
  else
    let completed :=
      if aw_has_trades active then
        let completed := completed ++ [AggregateTradeWindow.to_aggregate_trade active] in
        if Nat.ltb max_history (length completed) then tail completed else completed
      else completed in
    let active := AggregateTradeWindow.new bucket_type (te_timestamp event) (te_sequence event) in
    (AggregateTradeWindow.init_with_first_trade active (te_price event) (te_quantity event), completed).

Definition update_aggregate_trades_from_event (m : MarketDataEngine) (event : TradeEvent) : MarketDataEngine :=
  let '(a1, c1) := update_bucket (md_max_history m) (md_active_1s_bucket m) (md_completed_1s_trades m) OneSecond event in
  let '(a5, c5) := update_bucket (md_max_history m) (md_active_5s_bucket m) (md_completed_5s_trades m) FiveSeconds event in
  let '(am, cm) := update_bucket (md_max_history m) (md_active_1m_bucket m) (md_completed_1m_trades m) OneMinute event in
  mkMarketData (md_bbo_snapshot m) (md_level2_snapshot m) (md_statistics_24h m) a1 a5 am c1 c5 cm
    (md_max_history m) (md_prev_depth50_bids m) (md_prev_depth50_asks m) (md_prev_depth50_num_bids m)
    (md_prev_depth50_num_asks m) (md_prev_level2_bids m) (md_prev_level2_asks m)
    (md_prev_level2_num_bids m) (md_prev_level2_num_asks m).

(** The statistics of [consume_trade_event]. *)
Definition trade_statistics (s : Statistics24h) (event : TradeEvent) : Statistics24h :=
  let s := mkStats (te_timestamp event) (st_price_24h_high s) (st_price_24h_low s)
    (st_price_change_percent s) (st_weighted_avg_price s)
    (f64_add (st_volume_24h s) (te_quantity event))
    (f64_add (st_quote_asset_volume_24h s) (f64_mul (te_price event) (te_quantity event)))
    (match te_side event with Buy => st_bid_price s | Sell => te_price event end) (st_bid_qty s)
    (match te_side event with Buy => te_price event | Sell => st_ask_price s end) (st_ask_qty s)
    (st_open_time s) (st_close_time s)
    (if Z.eqb (st_trade_count s) 0 then te_order_id event else st_first_trade_id s)
    (te_order_id event) (u64_add (st_trade_count s) 1) in
  Statistics24h.update_price_range s (te_price event).

Definition stamp_bbo (b : BBOSnapshot) (timestamp sequence : Z) : BBOSnapshot :=
  mkBBO timestamp sequence (bbo_best_bid_price b) (bbo_best_bid_qty b) (bbo_best_ask_price b)
    (bbo_best_ask_qty b) (bbo_bid_level_count b) (bbo_ask_level_count b).

Definition stamp_level2 (s : Level2Snapshot) (timestamp sequence : Z) : Level2Snapshot :=
  mkLevel2 timestamp sequence (lv_bids s) (lv_asks s) (lv_num_bids s) (lv_num_asks s).

Definition with_views (m : MarketDataEngine) (bbo : BBOSnapshot) (level2 : Level2Snapshot)
  (stats : Statistics24h) : MarketDataEngine :=
  mkMarketData bbo level2 stats (md_active_1s_bucket m) (md_active_5s_bucket m) (md_active_1m_bucket m)
    (md_completed_1s_trades m) (md_completed_5s_trades m) (md_completed_1m_trades m)
    (md_max_history m) (md_prev_depth50_bids m) (md_prev_depth50_asks m) (md_prev_depth50_num_bids m)
    (md_prev_depth50_num_asks m) (md_prev_level2_bids m) (md_prev_level2_asks m)
    (md_prev_level2_num_bids m) (md_prev_level2_num_asks m).

Definition consume_trade_event (m : MarketDataEngine) (event : TradeEvent) : option (MarketDataEngine * bool) :=
  let bbo := stamp_bbo (md_bbo_snapshot m) (te_timestamp event) (te_sequence event) in
  let level2 := stamp_level2 (md_level2_snapshot m) (te_timestamp event) (te_sequence event) in
  let stats := trade_statistics (md_statistics_24h m) event in
  let bbo := fst (update_bbo_from_trade bbo event) in
  '(level2, _) ← update_level2_from_trade level2 event;
  Some (update_aggregate_trades_from_event (with_views m bbo level2 stats) event, true).

Definition reset_24h_statistics (m : MarketDataEngine) (timestamp : Z) : MarketDataEngine :=
  with_views m (md_bbo_snapshot m) (md_level2_snapshot m)
    (mkStats timestamp f64_zero f64_zero f64_zero f64_zero f64_zero f64_zero f64_zero f64_zero f64_zero
       f64_zero timestamp timestamp 0 0 0).

Definition generate_published_snapshot (m : MarketDataEngine) (timestamp sequence : Z) : PublishedSnapshot :=
  mkPublished timestamp sequence (md_bbo_snapshot m) (md_level2_snapshot m)
    (AggregateTradeWindow.to_aggregate_trade (md_active_1s_bucket m))
    (AggregateTradeWindow.to_aggregate_trade (md_active_5s_bucket m))
    (AggregateTradeWindow.to_aggregate_trade (md_active_1m_bucket m))
    (md_statistics_24h m).

(** *** Depth snapshots *)

Fixpoint add_bids (s : Level2Snapshot) (bids : list (f64 * f64)) (i n : nat) : option Level2Snapshot :=
  match n with
  | O => Some s
  | S n => l ← bids !! i; '(s, _) ← Level2Snapshot.add_bid s (fst l) (snd l); add_bids s bids (S i) n
  end.

Fixpoint add_asks (s : Level2Snapshot) (asks : list (f64 * f64)) (i n : nat) : option Level2Snapshot :=
  match n with
  | O => Some s
  | S n => l ← asks !! i; '(s, _) ← Level2Snapshot.add_ask s (fst l) (snd l); add_asks s asks (S i) n
  end.

Definition consume_depth_snapshot (m : MarketDataEngine) (event : DepthSnapshotEvent) : option MarketDataEngine :=
  let bbo := md_bbo_snapshot m in
  bbo ← (if Z.ltb 0 (ds_num_bids event) then l ← ds_bids event !! 0%nat; Some (with_bid bbo (fst l) (snd l))
         else Some bbo);
  bbo ← (if Z.ltb 0 (ds_num_asks event) then l ← ds_asks event !! 0%nat; Some (with_ask bbo (fst l) (snd l))
         else Some bbo);
  let bbo := stamp_bbo bbo (ds_timestamp event) (ds_sequence event) in
  let level2 := Level2Snapshot.clear (md_level2_snapshot m) in
  level2 ← add_bids level2 (ds_bids event) 0 (Z.to_nat (ds_num_bids event));
  level2 ← add_asks level2 (ds_asks event) 0 (Z.to_nat (ds_num_asks event));
  let level2 := stamp_level2 level2 (ds_timestamp event) (ds_sequence event) in
  Some (with_views m bbo level2 (md_statistics_24h m)).

(** The level of [levels\[..n\]] at a price. *)
Fixpoint scan_price (levels : list (f64 * f64)) (price : f64) (j n : nat) : option (option (f64 * f64)) :=
  match n with
  | O => Some None
  | S n => l ← levels !! j; if near (fst l) price then Some (Some l) else scan_price levels price (S j) n
  end.

(** [out_changes\[out_count\] = change; out_count += 1], the counter [w] bits wide. *)
Definition emit (w : Z) (out : list (f64 * f64) * Z) (change : f64 * f64) : option (list (f64 * f64) * Z) :=
  changes ← set_at (Z.to_nat (snd out)) change (fst out); Some (changes, (snd out + 1) mod 2 ^ w).

(** The first loop: levels changed or gone. *)
Fixpoint diff_prev (w : Z) (prev curr : list (f64 * f64)) (curr_count : nat) (i n : nat)
  (out : list (f64 * f64) * Z) : option (list (f64 * f64) * Z) :=
  match n with
  | O => Some out
  | S n =>
      p ← prev !! i;
      found ← scan_price curr (fst p) 0 curr_count;
      out ← match found with
            | Some c => if apart (snd c) (snd p) then emit w out (fst p, snd c) else Some out
            | None => emit w out (fst p, f64_zero)
            end;
      diff_prev w prev curr curr_count (S i) n out
  end.

(** The second loop: new levels. *)
Fixpoint diff_curr (w : Z) (prev curr : list (f64 * f64)) (prev_count : nat) (j n : nat)
  (out : list (f64 * f64) * Z) : option (list (f64 * f64) * Z) :=
  match n with
  | O => Some out
  | S n =>
      c ← curr !! j;
      found ← scan_price prev (fst c) 0 prev_count;
      out ← match found with Some _ => Some out | None => emit w out (fst c, snd c) end;
      diff_curr w prev curr prev_count (S j) n out
  end.

Definition compute_diff (w : Z) (prev : list (f64 * f64)) (prev_count : Z)
  (curr : list (f64 * f64)) (curr_count : Z) (out_changes : list (f64 * f64)) : option (list (f64 * f64) * Z) :=
  out ← diff_prev w prev curr (Z.to_nat curr_count) 0 (Z.to_nat prev_count) (out_changes, 0);
  diff_curr w prev curr (Z.to_nat prev_count) 0 (Z.to_nat curr_count) out.

(** The two copies of the routine, for 50 levels counted in [u8] and for 400
    counted in [u16]. *)
Definition compute_depth_diff := compute_diff 8.
Definition compute_level2_diff := compute_diff 16.

(** [for i in 0..n { prev\[i\] = curr\[i\] }] *)
Fixpoint copy_levels (prev curr : list (f64 * f64)) (i n : nat) : option (list (f64 * f64)) :=
  match n with
  | O => Some prev
  | S n => l ← curr !! i; prev ← set_at i l prev; copy_levels prev curr (S i) n
  end.

Definition with_depth50 (m : MarketDataEngine) (bids asks : list (f64 * f64)) (num_bids num_asks : Z) : MarketDataEngine :=
  mkMarketData (md_bbo_snapshot m) (md_level2_snapshot m) (md_statistics_24h m) (md_active_1s_bucket m)
    (md_active_5s_bucket m) (md_active_1m_bucket m) (md_completed_1s_trades m) (md_completed_5s_trades m)
    (md_completed_1m_trades m) (md_max_history m) bids asks num_bids num_asks
    (md_prev_level2_bids m) (md_prev_level2_asks m) (md_prev_level2_num_bids m) (md_prev_level2_num_asks m).

Definition with_level2 (m : MarketDataEngine) (bids asks : list (f64 * f64)) (num_bids num_asks : Z) : MarketDataEngine :=
  mkMarketData (md_bbo_snapshot m) (md_level2_snapshot m) (md_statistics_24h m) (md_active_1s_bucket m)
    (md_active_5s_bucket m) (md_active_1m_bucket m) (md_completed_1s_trades m) (md_completed_5s_trades m)
    (md_completed_1m_trades m) (md_max_history m) (md_prev_depth50_bids m) (md_prev_depth50_asks m)
    (md_prev_depth50_num_bids m) (md_prev_depth50_num_asks m) bids asks num_bids num_asks.

Definition consume_depth50_snapshot (m : MarketDataEngine) (event : Depth50SnapshotEvent)
  : option (MarketDataEngine * Depth50SnapshotEvent) :=
  let out := Depth50SnapshotEvent_new (d50_timestamp event) (d50_sequence event) in
  '(bid_out, bid_changes) ← compute_depth_diff (md_prev_depth50_bids m) (md_prev_depth50_num_bids m)
                              (d50_bids event) (d50_num_bids event) (d50_bids out);
  '(ask_out, ask_changes) ← compute_depth_diff (md_prev_depth50_asks m) (md_prev_depth50_num_asks m)
                              (d50_asks event) (d50_num_asks event) (d50_asks out);
  bids ← copy_levels (md_prev_depth50_bids m) (d50_bids event) 0 (Z.to_nat (d50_num_bids event));
  asks ← copy_levels (md_prev_depth50_asks m) (d50_asks event) 0 (Z.to_nat (d50_num_asks event));
  Some (with_depth50 m bids asks (d50_num_bids event) (d50_num_asks event),
        mkDepth50SnapshotEvent (d50_timestamp event) (d50_sequence event) bid_changes ask_changes bid_out ask_out).

Definition consume_level2_snapshot (m : MarketDataEngine) (event : Level2SnapshotEvent)
  : option (MarketDataEngine * Level2SnapshotEvent) :=
  let out := Level2SnapshotEvent_new (l2_timestamp event) (l2_sequence event) in
  '(bid_out, bid_changes) ← compute_level2_diff (md_prev_level2_bids m) (md_prev_level2_num_bids m)
                              (l2_bids event) (l2_num_bids event) (l2_bids out);
  '(ask_out, ask_changes) ← compute_level2_diff (md_prev_level2_asks m) (md_prev_level2_num_asks m)
                              (l2_asks event) (l2_num_asks event) (l2_asks out);
  bids ← copy_levels (md_prev_level2_bids m) (l2_bids event) 0 (Z.to_nat (l2_num_bids event));
  asks ← copy_levels (md_prev_level2_asks m) (l2_asks event) 0 (Z.to_nat (l2_num_asks event));
  Some (with_level2 m bids asks (l2_num_bids event) (l2_num_asks event),
        mkLevel2SnapshotEvent (l2_timestamp event) (l2_sequence event) bid_changes ask_changes bid_out ask_out).
End MarketDataEngine.

(** One turn of the timer thread: a snapshot under the engine's lock, pushed to
    the ring or dropped when it is full, and the next sequence number. *)
Definition timer_tick `{Rtrb} (m : MarketDataEngine) (now_ns sequence : Z)
  (snapshot_tx : Producer PublishedSnapshot) : Producer PublishedSnapshot * Z :=
  let snapshot := MarketDataEngine.generate_published_snapshot m now_ns sequence in
  (fst (push snapshot_tx snapshot), wrap_u64 (sequence + 1)).
