(* ===== verification/F64Grid.v ===== *)
(** The prices and quantities of the depth feed are integers cast to [f64].  On
    such values the tolerances of the market-data engine are exact: two of them
    differ by less than [1e-10] only when they are equal. *)
From Stdlib Require Import ZArith Lia SpecFloat.
From stdpp Require Import base numbers list.
From S2P Require Import Prelude Fixed Types F64 MarketData.

#[local] Open Scope Z_scope.

(** ** Digits *)

Lemma digits2_size m : digits2_pos m = Pos.size m.
Proof. induction m as [m IH|m IH|]; simpl; [by rewrite IH|by rewrite IH|done]. Qed.

Lemma digits_bounds m : 2 ^ (Zpos (digits2_pos m) - 1) <= Zpos m < 2 ^ Zpos (digits2_pos m).
Proof.
  rewrite digits2_size. pose proof (Pos.size_gt m) as Hg. pose proof (Pos.size_le m) as Hl.
  assert (Hp : Zpos (2 ^ Pos.size m) = 2 ^ Zpos (Pos.size m)) by apply Pos2Z.inj_pow.
  assert (Hs : 2 ^ Zpos (Pos.size m) = 2 * 2 ^ (Zpos (Pos.size m) - 1)).
  { rewrite <- Z.pow_succ_r by lia. f_equal. lia. }
  split; [|lia]. assert (Zpos (2 ^ Pos.size m) <= Zpos m~0) by lia. lia.
Qed.

Lemma digits_unique m d : 0 < d -> 2 ^ (d - 1) <= Zpos m < 2 ^ d -> Zpos (digits2_pos m) = d.
Proof.
  intros Hd [Hl Hu]. pose proof (digits_bounds m) as [Hl' Hu'].
  destruct (Z.lt_trichotomy (Zpos (digits2_pos m)) d) as [H|[H|H]]; [|done|]; exfalso.
  - assert (2 ^ Zpos (digits2_pos m) <= 2 ^ (d - 1)) by (apply Z.pow_le_mono_r; lia). lia.
  - assert (2 ^ d <= 2 ^ (Zpos (digits2_pos m) - 1)) by (apply Z.pow_le_mono_r; lia). lia.
Qed.

Lemma iter_xO m d : Zpos (Pos.iter xO m d) = Zpos m * 2 ^ Zpos d.
Proof.
  induction d as [|d IH] using Pos.peano_ind; [simpl; lia|].
  rewrite Pos.iter_succ, Pos2Z.inj_xO, IH, Pos2Z.inj_succ, Z.pow_succ_r by lia. lia.
Qed.

(** ** Shifting right *)

Lemma iter_pos_iter {A} (f : A -> A) n x : SpecFloat.iter_pos f n x = Pos.iter f x n.
Proof.
  revert x. induction n as [n IH|n IH|]; intros x; simpl; [|by rewrite !IH|done].
  by rewrite !IH, <- !Pos.iter_swap.
Qed.

Lemma shr_1_m r : 0 <= shr_m r -> shr_m (shr_1 r) = shr_m r / 2.
Proof.
  destruct r as [[|[m|m|]|m] r s]; simpl; intros H; try done; try lia.
  - apply Z.div_unique with 1; lia.
  - apply Z.div_unique with 0; lia.
Qed.

Lemma shr_m_iter n r : 0 <= shr_m r -> shr_m (SpecFloat.iter_pos shr_1 n r) = shr_m r / 2 ^ Zpos n.
Proof.
  intros Hr. rewrite iter_pos_iter. induction n as [|n IH] using Pos.peano_ind; [by apply shr_1_m|].
  rewrite Pos.iter_succ, shr_1_m, IH; rewrite ?IH; try (apply Z.div_pos; lia).
  rewrite Z.div_div by lia. f_equal. rewrite Pos2Z.inj_succ, Z.pow_succ_r by lia. lia.
Qed.

(** ** Rounding a positive mantissa *)

Lemma fexp_normal x : -1021 <= x -> fexp 53 1024 x = x - 53.
Proof. intros Hx. unfold fexp, emin. lia. Qed.

Lemma shr_fexp_none m e : -1021 <= Zpos (digits2_pos m) + e -> Zpos (digits2_pos m) <= 53 ->
  shr_fexp 53 1024 (Zpos m) e loc_Exact = (Build_shr_record (Zpos m) false false, e).
Proof.
  intros He Hd. unfold shr_fexp. change (Zdigits2 (Zpos m)) with (Zpos (digits2_pos m)).
  rewrite fexp_normal by lia. cbn [shr_record_of_loc]. unfold shr.
  destruct (Zpos (digits2_pos m) + e - 53 - e) eqn:E; [done|lia|done].
Qed.

Lemma round_even_cases m l : round_nearest_even m l = m \/ round_nearest_even m l = m + 1.
Proof. destruct l as [|[]]; simpl; auto. destruct (Z.even m); auto. Qed.

Lemma round_aux_spec s m e :
  1 <= Zpos (digits2_pos m) + e ->
  exists m' e', binary_round_aux 53 1024 s (Zpos m) e loc_Exact
                = (if Z.leb e' 971 then S754_finite s m' e' else S754_infinity s) /\
    (if decide (Zpos (digits2_pos m) <= 53) then m' = m /\ e' = e
     else Zpos (digits2_pos m') = 53 /\
          Zpos (digits2_pos m) + e - 53 <= e' <= Zpos (digits2_pos m) + e - 52).
Proof.
  intros He. set (d := Zpos (digits2_pos m)) in *. case_decide as Hd.
  { exists m, e. split; [|done]. unfold binary_round_aux. rewrite shr_fexp_none by (done || lia). cbn.
    by rewrite shr_fexp_none by (done || lia). }
  assert (Hn : exists n, d - 53 = Zpos n) by (exists (Z.to_pos (d - 53)); lia). destruct Hn as [n Hn].
  assert (Hs : exists r st, shr_fexp 53 1024 (Zpos m) e loc_Exact
             = (Build_shr_record (Zpos m / 2 ^ Zpos n) r st, d + e - 53)).
  { unfold shr_fexp. change (Zdigits2 (Zpos m)) with d. rewrite fexp_normal by lia.
    replace (d + e - 53 - e) with (Zpos n) by lia. cbn [shr shr_record_of_loc].
    pose proof (shr_m_iter n (Build_shr_record (Zpos m) false false)) as Hm. simpl in Hm.
    destruct (SpecFloat.iter_pos shr_1 n _) as [mm r st]. simpl in Hm. exists r, st. rewrite Hm by lia.
    f_equal. lia. }
  destruct Hs as (r & st & Hs). unfold binary_round_aux. rewrite Hs. cbn [shr_m].
  assert (Hq : 2 ^ 52 <= Zpos m / 2 ^ Zpos n < 2 ^ 53).
  { pose proof (digits_bounds m) as [Hl Hu]. fold d in Hl, Hu. split.
    - apply Z.div_le_lower_bound; [lia|]. rewrite <- Z.pow_add_r by lia.
      replace (Zpos n + 52) with (d - 1) by lia. done.
    - apply Z.div_lt_upper_bound; [lia|]. rewrite <- Z.pow_add_r by lia.
      replace (Zpos n + 53) with d by lia. done. }
  set (q := Zpos m / 2 ^ Zpos n) in *. set (l := loc_of_shr_record _).
  assert (Hr : 2 ^ 52 <= round_nearest_even q l <= 2 ^ 53) by (destruct (round_even_cases q l); lia).
  destruct (round_nearest_even q l) as [|m1|m1]; [lia| |lia]. clear Hs l.
  destruct (decide (Zpos m1 = 2 ^ 53)) as [Hm1|Hm1].
  - exists (Z.to_pos (2 ^ 52)), (d + e - 52). assert (m1 = Z.to_pos (2 ^ 53)) as -> by lia.
    split; [|split; [done|lia]]. unfold shr_fexp.
    replace (Zdigits2 (Zpos (Z.to_pos (2 ^ 53)))) with 54 by done.
    rewrite fexp_normal by lia. replace (54 + (d + e - 53) - 53 - (d + e - 53)) with 1 by lia.
    cbn [shr shr_record_of_loc]. change (1024 - 53) with 971.
    replace (d + e - 53 + 1) with (d + e - 52) by lia. done.
  - assert (Hd1 : Zpos (digits2_pos m1) = 53) by (apply digits_unique; lia).
    exists m1, (d + e - 53). split; [|split; [done|lia]].
    rewrite shr_fexp_none by lia. done.
Qed.

Lemma shl_align_spec m e e' :
  Zpos (fst (shl_align m e e')) = Zpos m * 2 ^ (Z.max 0 (e - e')) /\ snd (shl_align m e e') = Z.min e e'.
Proof.
  unfold shl_align. destruct (e' - e) as [|p|p] eqn:E; cbn [fst snd].
  - split; [|lia]. rewrite Z.max_l by lia. lia.
  - split; [|lia]. rewrite Z.max_l by lia. lia.
  - split; [|lia]. rewrite iter_xO. do 2 f_equal. lia.
Qed.

(** A result that is far from zero: an infinity, or an exponent of at least -52. *)
Definition large (f : f64) : Prop :=
  match f with
  | S754_infinity _ => True
  | S754_finite _ _ e => -52 <= e
  | _ => False
  end.

Lemma EPS_value : EPS = S754_finite false 7737125245533627 (-86).
Proof. vm_compute. reflexivity. Qed.

Lemma large_compare f : large f -> SFcompare (SFabs f) EPS = Some Gt.
Proof.
  rewrite EPS_value. destruct f as [|s| |s m e]; cbn [large SFabs SFcompare]; intros He; [done|done|done|].
  destruct (Z.compare_spec e (-86)); [lia|lia|done].
Qed.

Lemma digits_shift m m' n : 0 <= n -> Zpos m' = Zpos m * 2 ^ n ->
  Zpos (digits2_pos m') = Zpos (digits2_pos m) + n.
Proof.
  intros Hn Hm. pose proof (digits_bounds m) as [Hl Hu]. apply digits_unique; [lia|].
  replace (Zpos (digits2_pos m) + n - 1) with (Zpos (digits2_pos m) - 1 + n) by lia.
  rewrite Hm, !Z.pow_add_r by lia. split.
  - apply Z.mul_le_mono_nonneg_r; lia.
  - apply Z.mul_lt_mono_pos_r; lia.
Qed.

(** [binary_round] aligns the mantissa to 53 digits when it has fewer. *)
Lemma binary_round_spec s m e :
  -1021 <= Zpos (digits2_pos m) + e ->
  exists m' e', binary_round 53 1024 s m e = binary_round_aux 53 1024 s (Zpos m') e' loc_Exact /\
    Zpos m' = Zpos m * 2 ^ (e - e') /\ e' = Z.min e (Zpos (digits2_pos m) + e - 53).
Proof.
  intros He. unfold binary_round. rewrite fexp_normal by lia.
  pose proof (shl_align_spec m e (Zpos (digits2_pos m) + e - 53)) as [Hm Hs].
  destruct (shl_align m e _) as [m' e']. cbn [fst snd] in *. exists m', e'.
  split; [done|]. split; [|done]. rewrite Hm. do 2 f_equal. lia.
Qed.

Lemma binary_round_large s m e : 1 <= Zpos (digits2_pos m) + e -> large (binary_round 53 1024 s m e).
Proof.
  intros He. destruct (binary_round_spec s m e ltac:(lia)) as (m1 & e1 & -> & Hm & He1).
  pose proof (digits_shift m m1 (e - e1) ltac:(lia) Hm) as Hd.
  destruct (round_aux_spec s m1 e1 ltac:(lia)) as (m2 & e2 & -> & H).
  case_decide as Hc; [destruct H as [-> ->]; destruct (Z.leb_spec e1 971)
                     |destruct H as [_ H]; destruct (Z.leb_spec e2 971)]; simpl; try done; lia.
Qed.

Lemma normalize_large z e : z <> 0 -> 2 ^ Z.max 0 (- e) <= Z.abs z -> large (binary_normalize 53 1024 z e false).
Proof.
  intros Hz Hb. destruct z as [|m|m]; [done| |]; cbn [binary_normalize]; apply binary_round_large.
  all: cbn [Z.abs] in Hb; pose proof (digits_bounds m) as [Hl Hu].
  all: destruct (Z.lt_ge_cases (Zpos (digits2_pos m) + e) 1) as [Hc|]; [exfalso|done].
  all: assert (2 ^ Zpos (digits2_pos m) <= 2 ^ Z.max 0 (- e)) by (apply Z.pow_le_mono_r; lia); lia.
Qed.

(** ** Integral values *)

(** Zero, or a mantissa of 53 digits whose fractional digits are zero. *)
Definition integral (f : f64) : Prop :=
  f = S754_zero false \/
  exists s m e, f = S754_finite s m e /\ Zpos (digits2_pos m) = 53 /\
    (0 <= e \/ exists k, Zpos m = k * 2 ^ (- e)).

Lemma round_integral s m : Zpos m < 2 ^ 64 -> integral (binary_round 53 1024 s m 0).
Proof.
  intros Hz. destruct (binary_round_spec s m 0 ltac:(lia)) as (m1 & e1 & -> & Hm & He1).
  pose proof (digits_shift m m1 (0 - e1) ltac:(lia) Hm) as Hd.
  assert (Hdm : Zpos (digits2_pos m) <= 64).
  { pose proof (digits_bounds m) as [Hl _]. destruct (Z.le_gt_cases (Zpos (digits2_pos m)) 64); [done|].
    assert (2 ^ 64 <= 2 ^ (Zpos (digits2_pos m) - 1)) by (apply Z.pow_le_mono_r; lia). lia. }
  destruct (round_aux_spec s m1 e1 ltac:(lia)) as (m2 & e2 & -> & H). right.
  case_decide as Hc.
  - destruct H as [-> ->]. destruct (Z.leb_spec0 e1 971); [|lia]. exists s, m1, e1.
    split; [done|]. split; [lia|]. right. by exists (Zpos m).
  - destruct H as [Hd2 H]. destruct (Z.leb_spec0 e2 971); [|lia]. exists s, m2, e2.
    split; [done|]. split; [lia|]. left. lia.
Qed.

Lemma i64_integral z : in_i64 z -> integral (i64_as_f64 z).
Proof.
  intros Hz. unfold i64_as_f64. destruct z as [|m|m]; [by left| |]; apply round_integral; machine_unfold; lia.
Qed.

(** The difference of two integral values: zero when they are equal, large when
    they are not. *)
Lemma integral_exponent m e : Zpos (digits2_pos m) = 53 -> (0 <= e \/ exists k, Zpos m = k * 2 ^ (- e)) -> -52 <= e.
Proof.
  intros Hd [He|[k Hk]]; [lia|]. destruct (Z.le_gt_cases (-52) e) as [|Hlt]; [done|exfalso].
  pose proof (digits_bounds m) as [Hl Hu]. rewrite Hd in Hu.
  assert (2 ^ 53 <= 2 ^ (- e)) by (apply Z.pow_le_mono_r; lia).
  assert (k <= 0 \/ 1 <= k) as [Hk0|Hk1] by lia; nia.
Qed.

Lemma aligned_multiple m e ez : ez <= e -> ez <= 0 -> (0 <= e \/ exists k, Zpos m = k * 2 ^ (- e)) ->
  exists k, Zpos m * 2 ^ (e - ez) = k * 2 ^ (- ez).
Proof.
  intros Hle Hz [He|[k Hk]].
  - exists (Zpos m * 2 ^ e). rewrite <- Z.mul_assoc, <- Z.pow_add_r by lia. f_equal.
  - destruct (Z.le_gt_cases 0 e).
    + exists (Zpos m * 2 ^ e). rewrite <- Z.mul_assoc, <- Z.pow_add_r by lia. f_equal.
    + exists k. rewrite Hk, <- Z.mul_assoc, <- Z.pow_add_r by lia. do 2 f_equal. lia.
Qed.

Lemma same_value m m' e e' : Zpos (digits2_pos m) = 53 -> Zpos (digits2_pos m') = 53 ->
  Zpos m * 2 ^ (e - Z.min e e') = Zpos m' * 2 ^ (e' - Z.min e e') -> m = m' /\ e = e'.
Proof.
  intros Hd Hd' Heq. pose proof (digits_bounds m) as [Hl Hu]. pose proof (digits_bounds m') as [Hl' Hu'].
  rewrite Hd in *. rewrite Hd' in *.
  assert (Hgrow : forall n, 1 <= n -> 2 <= 2 ^ n).
  { intros n Hn. change 2 with (2 ^ 1) at 1. apply Z.pow_le_mono_r; lia. }
  destruct (Z.lt_trichotomy e e') as [H|[H|H]].
  - rewrite Z.min_l, Z.sub_diag in Heq by lia. specialize (Hgrow (e' - e) ltac:(lia)). nia.
  - subst e'. rewrite Z.min_id, Z.sub_diag in Heq. split; [lia|done].
  - rewrite Z.min_r, Z.sub_diag in Heq by lia. specialize (Hgrow (e - e') ltac:(lia)). nia.
Qed.

Lemma signed_aligned_multiple s m e ez : ez <= e -> ez <= 0 ->
  (0 <= e \/ exists k, Zpos m = k * 2 ^ (- e)) ->
  exists k, cond_Zopp s (Zpos m * 2 ^ (e - ez)) = k * 2 ^ (- ez).
Proof.
  intros Hle Hz Hi. destruct (aligned_multiple m e ez Hle Hz Hi) as [k Hk].
  destruct s; cbn [cond_Zopp]; [exists (- k)|exists k]; lia.
Qed.

Lemma finite_sub s1 m1 e1 s2 m2 e2 :
  f64_sub (S754_finite s1 m1 e1) (S754_finite s2 m2 e2) =
  binary_normalize 53 1024 (cond_Zopp s1 (Zpos m1 * 2 ^ (e1 - Z.min e1 e2))
                            - cond_Zopp s2 (Zpos m2 * 2 ^ (e2 - Z.min e1 e2))) (Z.min e1 e2) false.
Proof.
  unfold f64_sub, SFsub.
  rewrite (proj1 (shl_align_spec m1 e1 (Z.min e1 e2))), (proj1 (shl_align_spec m2 e2 (Z.min e1 e2))).
  by rewrite !Z.max_r by lia.
Qed.

Lemma integral_sub a b : integral a -> integral b -> a <> b -> large (f64_sub a b).
Proof.
  intros [->|(s1 & m1 & e1 & -> & Hd1 & Hi1)] [->|(s2 & m2 & e2 & -> & Hd2 & Hi2)] Hne; [done| | |].
  1,2: simpl; by eapply integral_exponent.
  rewrite finite_sub. set (ez := Z.min e1 e2).
  set (x := cond_Zopp s1 _). set (y := cond_Zopp s2 _).
  assert (Hxy : x - y <> 0).
  { intros Heq. apply Hne. unfold x, y in Heq.
    assert (s1 = s2) as <-.
    { assert (0 < 2 ^ (e1 - ez)) by (apply Z.pow_pos_nonneg; lia).
      assert (0 < 2 ^ (e2 - ez)) by (apply Z.pow_pos_nonneg; lia).
      destruct s1, s2; cbn [cond_Zopp] in Heq; [done|nia|nia|done]. }
    assert (m1 = m2 /\ e1 = e2) as [-> ->]; [|done].
    apply same_value; [done|done|]. fold ez. destruct s1; cbn [cond_Zopp] in Heq; lia. }
  apply normalize_large; [done|].
  destruct (Z.le_gt_cases 0 ez) as [Hz|Hz]; [rewrite Z.max_l by lia; lia|].
  rewrite Z.max_r by lia.
  destruct (signed_aligned_multiple s1 m1 e1 ez ltac:(lia) ltac:(lia) Hi1) as [k1 Hk1].
  destruct (signed_aligned_multiple s2 m2 e2 ez ltac:(lia) ltac:(lia) Hi2) as [k2 Hk2].
  fold x in Hk1. fold y in Hk2. rewrite Hk1, Hk2 in Hxy |- *.
  assert (0 < 2 ^ (- ez)) by (apply Z.pow_pos_nonneg; lia).
  assert (k1 - k2 <> 0) by (intros E; apply Hxy; rewrite <- Z.mul_sub_distr_r, E; done).
  rewrite <- Z.mul_sub_distr_r, Z.abs_mul, (Z.abs_eq (2 ^ - ez)) by lia.
  rewrite <- (Z.mul_1_l (2 ^ - ez)) at 1. apply Z.mul_le_mono_nonneg_r; lia.
Qed.

Lemma integral_sub_same a : integral a -> f64_sub a a = S754_zero false.
Proof.
  intros [->|(s & m & e & -> & _)]; [done|]. by rewrite finite_sub, Z.sub_diag.
Qed.

(** On integral values the tolerance tests decide equality. *)
Lemma integral_near a b : integral a -> integral b -> near a b = bool_decide (a = b).
Proof.
  intros Ha Hb. unfold near, f64_lt, f64_abs, SFltb. case_bool_decide as Hab.
  - subst b. rewrite integral_sub_same, EPS_value by done. done.
  - by rewrite large_compare by (by apply integral_sub).
Qed.

Lemma compare_large f : large f -> SFcompare EPS (SFabs f) = Some Lt.
Proof.
  rewrite EPS_value. destruct f as [|s| |s m e]; cbn [large SFabs SFcompare]; intros He; [done|done|done|].
  destruct (Z.compare_spec (-86) e); [lia|done|lia].
Qed.

Lemma integral_apart a b : integral a -> integral b -> apart a b = bool_decide (a <> b).
Proof.
  intros Ha Hb. unfold apart, f64_lt, f64_abs, SFltb. case_bool_decide as Hab.
  - by rewrite compare_large by (by apply integral_sub).
  - assert (a = b) as -> by (destruct (decide (a = b)); done).
    rewrite integral_sub_same, EPS_value by done. done.
Qed.

(** Below [2^53] the cast is injective, and it maps only zero to zero. *)
Lemma round_exact s m : Zpos m < 2 ^ 53 ->
  exists m' e', binary_round 53 1024 s m 0 = S754_finite s m' e' /\ Zpos m' = Zpos m * 2 ^ (- e') /\ e' <= 0.
Proof.
  intros Hz. destruct (binary_round_spec s m 0 ltac:(lia)) as (m1 & e1 & -> & Hm & He1).
  pose proof (digits_shift m m1 (0 - e1) ltac:(lia) Hm) as Hd.
  assert (Hdm : Zpos (digits2_pos m) <= 53).
  { pose proof (digits_bounds m) as [Hl _]. destruct (Z.le_gt_cases (Zpos (digits2_pos m)) 53); [done|].
    assert (2 ^ 53 <= 2 ^ (Zpos (digits2_pos m) - 1)) by (apply Z.pow_le_mono_r; lia). lia. }
  destruct (round_aux_spec s m1 e1 ltac:(lia)) as (m2 & e2 & -> & H).
  rewrite decide_True in H by lia. destruct H as [-> ->]. destruct (Z.leb_spec0 e1 971); [|lia].
  exists m1, e1. repeat split; [done|lia].
Qed.

Lemma i64_as_f64_inj a b : Z.abs a < 2 ^ 53 -> Z.abs b < 2 ^ 53 -> i64_as_f64 a = i64_as_f64 b -> a = b.
Proof.
  intros Ha Hb. unfold i64_as_f64.
  assert (Hround : forall s s' m m', Zpos m < 2 ^ 53 -> Zpos m' < 2 ^ 53 ->
            binary_round 53 1024 s m 0 = binary_round 53 1024 s' m' 0 -> s = s' /\ m = m').
  { intros s s' m m' Hm Hm'. destruct (round_exact s m Hm) as (m1 & e1 & -> & H1 & He1).
    destruct (round_exact s' m' Hm') as (m2 & e2 & -> & H2 & He2). intros [= -> -> ->].
    split; [done|]. assert (0 < 2 ^ (- e2)) by (apply Z.pow_pos_nonneg; lia).
    apply Pos2Z.inj. apply (Z.mul_reg_r _ _ (2 ^ (- e2))); lia. }
  assert (Hzero : forall s m, Zpos m < 2 ^ 53 -> binary_round 53 1024 s m 0 <> S754_zero false).
  { intros s m Hm. by destruct (round_exact s m Hm) as (m1 & e1 & -> & _). }
  destruct a as [|a|a], b as [|b|b]; cbn [binary_normalize Z.abs] in *; intros Heq; try done.
  all: try (exfalso; by eapply Hzero); try (symmetry in Heq; exfalso; by eapply Hzero).
  all: apply Hround in Heq as [Hs ->]; done.
Qed.

Lemma integral_nonzero a : integral a -> a <> f64_zero -> f64_eq a f64_zero = false.
Proof. intros [->|(s & m & e & -> & _)] Hne; [done|]. destruct s; done. Qed.
