(* ===== verification/MarketDiff.v ===== *)
(** The increments between depth snapshots.  The double loops of
    [compute_depth_diff] are shown equal to a specification on lists, and a
    subscriber that applies the increments of a stream of snapshots to an empty
    book is shown to hold the last snapshot.  A turnover of more changes than the
    array has room for is shown to panic. *)
From Stdlib Require Import ZArith Lia SpecFloat.
From stdpp Require Import base numbers list.
From S2P Require Import Prelude Fixed Types F64 MarketData F64Grid.

#[local] Open Scope Z_scope.

(** ** Specification *)

(** The quantity of a book at a price. *)
Fixpoint qty_at (l : list (f64 * f64)) (p : f64) : option f64 :=
  match l with
  | [] => None
  | (p', q) :: l => if decide (p' = p) then Some q else qty_at l p
  end.

(** What changed or went, and what is new. *)
Definition changed (curr : list (f64 * f64)) (e : f64 * f64) : option (f64 * f64) :=
  match qty_at curr (fst e) with
  | Some q => if decide (q <> snd e) then Some (fst e, q) else None
  | None => Some (fst e, f64_zero)
  end.

Definition changes (prev curr : list (f64 * f64)) : list (f64 * f64) :=
  omap (changed curr) prev ++ filter (fun e => qty_at prev (fst e) = None) curr.

(** A subscriber's book, and how it applies a change: zero deletes the level. *)
Definition apply_change (book : f64 -> option f64) (c : f64 * f64) : f64 -> option f64 :=
  fun p => if decide (p = fst c) then (if f64_eq (snd c) f64_zero then None else Some (snd c)) else book p.

Definition apply_changes (book : f64 -> option f64) (cs : list (f64 * f64)) : f64 -> option f64 :=
  foldl apply_change book cs.

(** Levels of the feed: integral, at distinct prices, with a quantity. *)
Record levels_ok (l : list (f64 * f64)) : Prop := mkLevelsOk {
  lo_integral : Forall (fun e => integral (fst e) /\ integral (snd e)) l;
  lo_distinct : NoDup (fst <$> l);
  lo_positive : Forall (fun e => f64_eq (snd e) f64_zero = false) l;
}.

(** ** The loops *)

Lemma scan_price_spec a l b p :
  Forall (fun e => integral (fst e) /\ integral (snd e)) l -> integral p ->
  MarketDataEngine.scan_price (a ++ l ++ b) p (length a) (length l) = Some ((fun q => (p, q)) <$> qty_at l p).
Proof.
  revert a. induction l as [|[p' q] l IH]; intros a Hl Hp; [done|].
  apply Forall_cons in Hl as [[Hp' _] Hl]. cbn [MarketDataEngine.scan_price length qty_at].
  change (((p', q) :: l) ++ b) with ((p', q) :: (l ++ b)).
  rewrite list_lookup_middle by done. cbn [mbind option_bind fst].
  rewrite integral_near by done. case_bool_decide as Hd; case_decide; try done; [by subst|].
  specialize (IH (a ++ [(p', q)]) Hl Hp). rewrite <- app_assoc, length_app in IH. simpl in IH.
  by replace (length a + 1)%nat with (S (length a)) in IH by lia.
Qed.

Lemma scan_price_book l b p :
  Forall (fun e => integral (fst e) /\ integral (snd e)) l -> integral p ->
  MarketDataEngine.scan_price (l ++ b) p 0 (length l) = Some ((fun q => (p, q)) <$> qty_at l p).
Proof. apply (scan_price_spec [] l b p). Qed.

Lemma qty_at_in l p q : qty_at l p = Some q -> (p, q) ∈ l.
Proof.
  induction l as [|[p' q'] l IH]; simpl; [done|]. case_decide as Hp; [intros [= ->]; subst; left|right; auto].
Qed.

Lemma qty_at_integral l p q :
  Forall (fun e => integral (fst e) /\ integral (snd e)) l -> qty_at l p = Some q -> integral q.
Proof. rewrite Forall_forall. intros Hl Hq. apply (Hl _ (qty_at_in _ _ _ Hq)). Qed.

Section loops.
Context (w : Z) (cap : nat) (Hw : 0 <= w) (Hcap : Z.of_nat cap < 2 ^ w).

(** The output array with the changes [cs] in front of what is left of it. *)
Definition outcome (cs rest : list (f64 * f64)) : list (f64 * f64) * Z := (cs ++ rest, Z.of_nat (length cs)).

Lemma emit_spec cs rest c : (length (cs ++ rest) = cap)%nat ->
  MarketDataEngine.emit w (outcome cs rest) c =
  match rest with [] => None | _ :: rest => Some (outcome (cs ++ [c]) rest) end.
Proof.
  intros Hlen. unfold MarketDataEngine.emit, outcome, set_at. cbn [fst snd].
  rewrite Nat2Z.id. rewrite length_app in *. destruct rest as [|r rest]; simpl in *.
  - rewrite decide_False by lia. done.
  - rewrite decide_True by lia. cbn [mbind option_bind]. f_equal. f_equal.
    + by rewrite insert_app_r_alt, Nat.sub_diag, <- app_assoc by lia.
    + rewrite length_app. simpl. rewrite Z.mod_small by lia. lia.
Qed.

(** Emitting a list of changes: they fit, or the array overflows. *)
Definition emit_all (out : option (list (f64 * f64) * Z)) (cs : list (f64 * f64)) : option (list (f64 * f64) * Z) :=
  foldl (fun out c => out ← out; MarketDataEngine.emit w out c) out cs.

Lemma emit_all_none cs : emit_all None cs = None.
Proof. induction cs; done. Qed.

Lemma emit_all_cons out c cs :
  emit_all (Some out) (c :: cs) = (out ← MarketDataEngine.emit w out c; emit_all (Some out) cs).
Proof.
  unfold emit_all. cbn [foldl mbind option_bind]. destruct (MarketDataEngine.emit w out c); [done|].
  apply emit_all_none.
Qed.

Lemma emit_all_spec cs rest new : (length (cs ++ rest) = cap)%nat ->
  emit_all (Some (outcome cs rest)) new =
  if decide (length new <= length rest)%nat then Some (outcome (cs ++ new) (drop (length new) rest)) else None.
Proof.
  revert cs rest. induction new as [|c new IH]; intros cs rest Hlen.
  - rewrite decide_True by (simpl; lia). by rewrite app_nil_r.
  - rewrite emit_all_cons, emit_spec by done. destruct rest as [|r rest]; cbn [mbind option_bind].
    + rewrite decide_False by (simpl; lia). done.
    + rewrite IH by (rewrite !length_app in *; simpl in *; lia). rewrite <- app_assoc. simpl.
      repeat case_decide; try done; lia.
Qed.

Lemma diff_prev_spec a prev b curr d out :
  Forall (fun e => integral (fst e) /\ integral (snd e)) prev ->
  Forall (fun e => integral (fst e) /\ integral (snd e)) curr ->
  MarketDataEngine.diff_prev w (a ++ prev ++ b) (curr ++ d) (length curr) (length a) (length prev) out =
  emit_all (Some out) (omap (changed curr) prev).
Proof.
  revert a out. induction prev as [|[p q] prev IH]; intros a out Hp Hc; [done|].
  apply Forall_cons in Hp as [[Hip Hiq] Hp]. cbn [MarketDataEngine.diff_prev length].
  change (((p, q) :: prev) ++ b) with ((p, q) :: (prev ++ b)).
  rewrite list_lookup_middle by done. cbn [mbind option_bind fst snd].
  rewrite scan_price_book by done. cbn [mbind option_bind]. 
  assert (Hnext : forall out, MarketDataEngine.diff_prev w (a ++ (p, q) :: prev ++ b) (curr ++ d) (length curr)
            (S (length a)) (length prev) out = emit_all (Some out) (omap (changed curr) prev)).
  { intros o. specialize (IH (a ++ [(p, q)]) o Hp Hc). rewrite <- app_assoc, length_app in IH. simpl in IH.
    by replace (length a + 1)%nat with (S (length a)) in IH by lia. }
  change (omap (changed curr) ((p, q) :: prev)) with
    (match changed curr (p, q) with Some y => y :: omap (changed curr) prev | None => omap (changed curr) prev end).
  unfold changed at 1. cbn [fst snd].
  destruct (qty_at curr p) as [q'|] eqn:Hq; cbn [fmap option_fmap option_map fst snd].
  - rewrite integral_apart by (try done; by eapply qty_at_integral).
    case_bool_decide; case_decide; try done.
    + rewrite emit_all_cons. by destruct (MarketDataEngine.emit w out (p, q')); cbn [mbind option_bind]; rewrite ?Hnext.
    + cbn [mbind option_bind]. by rewrite Hnext.
  - rewrite emit_all_cons. by destruct (MarketDataEngine.emit w out (p, f64_zero)); cbn [mbind option_bind]; rewrite ?Hnext.
Qed.

Lemma diff_curr_spec a curr b prev d out :
  Forall (fun e => integral (fst e) /\ integral (snd e)) prev ->
  Forall (fun e => integral (fst e) /\ integral (snd e)) curr ->
  MarketDataEngine.diff_curr w (prev ++ d) (a ++ curr ++ b) (length prev) (length a) (length curr) out =
  emit_all (Some out) (filter (fun e => qty_at prev (fst e) = None) curr).
Proof.
  revert a out. induction curr as [|[p q] curr IH]; intros a out Hp Hc; [done|].
  apply Forall_cons in Hc as [[Hip Hiq] Hc]. cbn [MarketDataEngine.diff_curr length].
  change (((p, q) :: curr) ++ b) with ((p, q) :: (curr ++ b)).
  rewrite list_lookup_middle by done. cbn [mbind option_bind fst snd].
  rewrite scan_price_book by done. cbn [mbind option_bind].
  assert (Hnext : forall out, MarketDataEngine.diff_curr w (prev ++ d) (a ++ (p, q) :: curr ++ b) (length prev)
            (S (length a)) (length curr) out
            = emit_all (Some out) (filter (fun e => qty_at prev (fst e) = None) curr)).
  { intros o. specialize (IH (a ++ [(p, q)]) o Hp Hc). rewrite <- app_assoc, length_app in IH. simpl in IH.
    by replace (length a + 1)%nat with (S (length a)) in IH by lia. }
  rewrite filter_cons. cbn [fst].
  destruct (qty_at prev p) as [q'|] eqn:Hq; cbn [fmap option_fmap option_map mbind option_bind].
  - rewrite decide_False by done. apply Hnext.
  - rewrite decide_True by done. rewrite emit_all_cons.
    by destruct (MarketDataEngine.emit w out (p, q)); cbn [mbind option_bind]; rewrite ?Hnext.
Qed.

(** The routine computes the specification's changes, and panics when they do
    not fit. *)
Lemma compute_diff_spec prev curr a b out :
  Forall (fun e => integral (fst e) /\ integral (snd e)) prev ->
  Forall (fun e => integral (fst e) /\ integral (snd e)) curr -> length out = cap ->
  MarketDataEngine.compute_diff w (prev ++ a) (Z.of_nat (length prev)) (curr ++ b) (Z.of_nat (length curr)) out =
  if decide (length (changes prev curr) <= cap)%nat
  then Some (changes prev curr ++ drop (length (changes prev curr)) out, Z.of_nat (length (changes prev curr)))
  else None.
Proof.
  intros Hp Hc Hout. unfold MarketDataEngine.compute_diff. rewrite !Nat2Z.id.
  rewrite (diff_prev_spec [] prev a curr b) by done.
  assert (Hj : forall o, MarketDataEngine.diff_curr w (prev ++ a) (curr ++ b) (length prev) 0 (length curr) o
                 = emit_all (Some o) (filter (fun e => qty_at prev (fst e) = None) curr)).
  { intros o. by apply (diff_curr_spec [] curr b prev a). }
  change (out, 0) with (outcome [] out).
  pose proof (emit_all_spec [] out (changes prev curr) Hout) as Hall. rewrite <- Hout. simpl in Hall.
  transitivity (emit_all (Some (outcome [] out)) (changes prev curr)); [|done].
  unfold changes, emit_all. rewrite foldl_app. fold emit_all.
  change (foldl _ (Some (outcome [] out)) (omap (changed curr) prev))
    with (emit_all (Some (outcome [] out)) (omap (changed curr) prev)).
  destruct (emit_all _ (omap _ _)) as [o|]; cbn [mbind option_bind]; [apply Hj|].
  symmetry. apply emit_all_none.
Qed.
End loops.

(** ** Applying the changes *)

Lemma apply_changes_other cs book p : p ∉ (fst <$> cs) -> apply_changes book cs p = book p.
Proof.
  revert book. induction cs as [|c cs IH]; intros book Hp; [done|].
  rewrite fmap_cons, not_elem_of_cons in Hp. destruct Hp as [Hne Hp].
  unfold apply_changes. cbn [foldl]. fold (apply_changes (apply_change book c) cs). rewrite IH by done.
  unfold apply_change. by rewrite decide_False.
Qed.

Lemma apply_changes_hit cs book p q : NoDup (fst <$> cs) -> (p, q) ∈ cs ->
  apply_changes book cs p = if f64_eq q f64_zero then None else Some q.
Proof.
  revert book. induction cs as [|c cs IH]; intros book Hnd Hin; [by apply elem_of_nil in Hin|].
  rewrite fmap_cons in Hnd. apply NoDup_cons in Hnd as [Hc Hnd].
  unfold apply_changes. cbn [foldl]. fold (apply_changes (apply_change book c) cs).
  apply elem_of_cons in Hin as [<-|Hin]; [|by apply IH].
  rewrite apply_changes_other by done. unfold apply_change. by rewrite decide_True.
Qed.

Lemma qty_at_None l p : qty_at l p = None <-> p ∉ (fst <$> l).
Proof.
  induction l as [|[p' q] l IH]; simpl; [split; [intros _; apply not_elem_of_nil|done]|].
  rewrite not_elem_of_cons. case_decide as Hd; [subst; naive_solver|]. rewrite IH. naive_solver.
Qed.

Lemma qty_at_Some l p q : NoDup (fst <$> l) -> (p, q) ∈ l -> qty_at l p = Some q.
Proof.
  induction l as [|[p' q'] l IH]; intros Hnd Hin; [by apply elem_of_nil in Hin|].
  rewrite fmap_cons in Hnd. apply NoDup_cons in Hnd as [Hn Hnd]. simpl.
  apply elem_of_cons in Hin as [[= -> ->]|Hin]; [by rewrite decide_True|].
  rewrite decide_False; [by apply IH|]. intros ->. apply Hn. by apply list_elem_of_fmap_2 with (f := fst) in Hin.
Qed.

Lemma changed_price curr e c : changed curr e = Some c -> fst c = fst e.
Proof. unfold changed. intros H. repeat (case_match || case_decide); by simplify_eq. Qed.

Lemma changes_prices (prev curr : list (f64 * f64)) (p : f64) : p ∈ (fst <$> omap (changed curr) prev) -> p ∈ (fst <$> prev).
Proof.
  intros Hp. apply list_elem_of_fmap in Hp as (c & -> & Hc).
  apply list_elem_of_omap in Hc as (e & He & Hce). apply list_elem_of_fmap. exists e.
  by rewrite (changed_price _ _ _ Hce).
Qed.

Lemma changes_distinct prev curr : NoDup (fst <$> prev) -> NoDup (fst <$> curr) -> NoDup (fst <$> changes prev curr).
Proof.
  intros Hp Hc. unfold changes. rewrite fmap_app. apply NoDup_app. split; [|split].
  - induction prev as [|e prev IH]; [constructor|]. rewrite fmap_cons in Hp. apply NoDup_cons in Hp as [He Hp].
    change (omap (changed curr) (e :: prev)) with
      (match changed curr e with Some y => y :: omap (changed curr) prev | None => omap (changed curr) prev end).
    destruct (changed curr e) as [c|] eqn:E; [|by apply IH]. rewrite fmap_cons. constructor; [|by apply IH].
    rewrite (changed_price _ _ _ E). intros Hin. by apply He, (changes_prices prev curr).
  - intros p Hin Hin2. apply changes_prices in Hin. apply list_elem_of_fmap in Hin2 as (c & -> & Hc2).
    apply list_elem_of_filter in Hc2 as [Hn _]. by apply qty_at_None in Hn.
  - clear Hp. induction curr as [|e curr IH]; [constructor|].
    rewrite fmap_cons in Hc. apply NoDup_cons in Hc as [He Hc]. rewrite filter_cons. case_decide; [|by apply IH].
    rewrite fmap_cons. constructor; [|by apply IH]. intros Hin. apply He.
    apply list_elem_of_fmap in Hin as (c & Hce & Hin). apply list_elem_of_filter in Hin as [_ Hin].
    rewrite Hce. by apply list_elem_of_fmap_2.
Qed.

(** A price at which the two books agree is in no change. *)
Lemma changes_absent prev curr p : NoDup (fst <$> prev) -> qty_at curr p = qty_at prev p ->
  p ∉ (fst <$> changes prev curr).
Proof.
  intros Hpd Heq Hx. apply list_elem_of_fmap in Hx as (c & -> & Hx).
  apply elem_of_app in Hx as [Hx|Hx].
  - apply list_elem_of_omap in Hx as ([p1 q1] & Hx & Hch). rewrite (changed_price _ _ _ Hch) in Heq.
    simpl in Heq. rewrite (qty_at_Some _ _ _ Hpd Hx) in Heq.
    unfold changed in Hch. simpl in Hch. rewrite Heq in Hch. by rewrite decide_False in Hch by naive_solver.
  - apply list_elem_of_filter in Hx as [Hn Hx]. rewrite Hn in Heq. apply qty_at_None in Heq. apply Heq.
    by apply list_elem_of_fmap_2.
Qed.

(** Applying the changes to the previous book gives the current one. *)
Lemma changes_merge prev curr p : levels_ok prev -> levels_ok curr ->
  apply_changes (qty_at prev) (changes prev curr) p = qty_at curr p.
Proof.
  intros [_ Hpd _] [_ Hcd Hcq]. pose proof (changes_distinct prev curr Hpd Hcd) as Hnd.
  destruct (decide (qty_at curr p = qty_at prev p)) as [Heq|Hne].
  { by rewrite apply_changes_other by (by apply changes_absent). }
  assert (exists q, (p, q) ∈ changes prev curr /\ (if f64_eq q f64_zero then None else Some q) = qty_at curr p)
    as (q & Hin & <-); [|by apply apply_changes_hit].
  assert (Hz : forall q, qty_at curr p = Some q -> f64_eq q f64_zero = false).
  { intros q Hq. rewrite Forall_forall in Hcq. apply (Hcq _ (qty_at_in _ _ _ Hq)). }
  destruct (qty_at prev p) as [q0|] eqn:Hp, (qty_at curr p) as [q|] eqn:Hc; [| | |done].
  - exists q. rewrite (Hz q eq_refl). split; [|done]. apply elem_of_app. left. apply list_elem_of_omap.
    exists (p, q0). split; [by apply qty_at_in|]. unfold changed. simpl. rewrite Hc. rewrite decide_True by naive_solver. done.
  - exists f64_zero. split; [|done]. apply elem_of_app. left. apply list_elem_of_omap.
    exists (p, q0). split; [by apply qty_at_in|]. unfold changed. simpl. by rewrite Hc.
  - exists q. rewrite (Hz q eq_refl). split; [|done]. apply elem_of_app. right.
    apply list_elem_of_filter. split; [done|by apply qty_at_in].
Qed.

(** The levels the matching engine samples - increasing or decreasing prices
    and positive quantities, below [2^53] - are levels of the feed. *)
Lemma engine_levels_ok (l : list (Z * Z)) :
  NoDup (fst <$> l) -> Forall (fun e => Z.abs (fst e) < 2 ^ 53 /\ 0 < snd e < 2 ^ 53) l ->
  levels_ok ((fun e => (i64_as_f64 (fst e), i64_as_f64 (snd e))) <$> l).
Proof.
  intros Hnd Hb. split.
  - apply Forall_fmap. eapply Forall_impl; [exact Hb|]. intros [p q] [Hp Hq]; simpl in *.
    split; apply i64_integral; machine_unfold; lia.
  - rewrite <- list_fmap_compose. induction Hb as [|[p q] l [Hp _] Hb IH]; [constructor|].
    rewrite fmap_cons in *. apply NoDup_cons in Hnd as [Hn Hnd]. constructor; [|by apply IH].
    intros Hin. apply Hn. simpl in *. apply list_elem_of_fmap in Hin as ([p' q'] & Heq & Hin).
    rewrite Forall_forall in Hb. destruct (Hb _ Hin) as [Hp' _]. simpl in *.
    apply i64_as_f64_inj in Heq as ->; [|done|done]. by apply list_elem_of_fmap_2 with (f := fst) in Hin.
  - apply Forall_fmap. eapply Forall_impl; [exact Hb|]. intros [p q] [Hp Hq]; simpl in *.
    apply integral_nonzero; [apply i64_integral; machine_unfold; lia|].
    intros Hz. change f64_zero with (i64_as_f64 0) in Hz. apply i64_as_f64_inj in Hz; lia.
Qed.

(** ** The two feeds

    The snapshots of 50 and of 400 levels go through two copies of the same
    code.  A feed is one of them: its event type, where the engine keeps the
    previous snapshot, and the operation that turns a snapshot into its
    increment. *)
Class Feed (E : Type) := {
  feed_cap : nat;
  feed_width : Z;
  feed_bids : E -> list (f64 * f64);
  feed_asks : E -> list (f64 * f64);
  feed_num_bids : E -> Z;
  feed_num_asks : E -> Z;
  feed_prev : MarketDataEngine -> E;
  feed_consume : MarketDataEngine -> E -> option (MarketDataEngine * E);
}.

Class FeedLaws (E : Type) `{Feed E} := {
  feed_fits : 0 <= feed_width /\ Z.of_nat feed_cap < 2 ^ feed_width;
  feed_new : feed_num_bids (feed_prev MarketDataEngine.new) = 0 /\ feed_num_asks (feed_prev MarketDataEngine.new) = 0 /\
    length (feed_bids (feed_prev MarketDataEngine.new)) = feed_cap /\
    length (feed_asks (feed_prev MarketDataEngine.new)) = feed_cap;
  feed_step : forall m e,
    match MarketDataEngine.compute_diff feed_width (feed_bids (feed_prev m)) (feed_num_bids (feed_prev m))
            (feed_bids e) (feed_num_bids e) (replicate feed_cap (f64_zero, f64_zero)),
          MarketDataEngine.compute_diff feed_width (feed_asks (feed_prev m)) (feed_num_asks (feed_prev m))
            (feed_asks e) (feed_num_asks e) (replicate feed_cap (f64_zero, f64_zero)),
          MarketDataEngine.copy_levels (feed_bids (feed_prev m)) (feed_bids e) 0 (Z.to_nat (feed_num_bids e)),
          MarketDataEngine.copy_levels (feed_asks (feed_prev m)) (feed_asks e) 0 (Z.to_nat (feed_num_asks e)) with
    | Some bid, Some ask, Some bids, Some asks =>
        exists m' out, feed_consume m e = Some (m', out) /\
          feed_bids (feed_prev m') = bids /\ feed_num_bids (feed_prev m') = feed_num_bids e /\
          feed_asks (feed_prev m') = asks /\ feed_num_asks (feed_prev m') = feed_num_asks e /\
          feed_bids out = fst bid /\ feed_num_bids out = snd bid /\
          feed_asks out = fst ask /\ feed_num_asks out = snd ask
    | _, _, _, _ => feed_consume m e = None
    end;
}.

#[global] Instance depth50_feed : Feed Depth50SnapshotEvent := {|
  feed_cap := 50;
  feed_width := 8;
  feed_bids := d50_bids;
  feed_asks := d50_asks;
  feed_num_bids := d50_num_bids;
  feed_num_asks := d50_num_asks;
  feed_prev m := mkDepth50SnapshotEvent 0 0 (md_prev_depth50_num_bids m) (md_prev_depth50_num_asks m)
                   (md_prev_depth50_bids m) (md_prev_depth50_asks m);
  feed_consume := MarketDataEngine.consume_depth50_snapshot;
|}.

#[global] Instance level2_feed : Feed Level2SnapshotEvent := {|
  feed_cap := 400;
  feed_width := 16;
  feed_bids := l2_bids;
  feed_asks := l2_asks;
  feed_num_bids := l2_num_bids;
  feed_num_asks := l2_num_asks;
  feed_prev m := mkLevel2SnapshotEvent 0 0 (md_prev_level2_num_bids m) (md_prev_level2_num_asks m)
                   (md_prev_level2_bids m) (md_prev_level2_asks m);
  feed_consume := MarketDataEngine.consume_level2_snapshot;
|}.

#[global] Instance depth50_laws : FeedLaws Depth50SnapshotEvent.
Proof.
  split; [done|by repeat split|].
  intros m e. cbn [feed_bids feed_asks feed_num_bids feed_num_asks feed_prev feed_cap feed_width feed_consume depth50_feed
    d50_bids d50_asks d50_num_bids d50_num_asks].
  unfold MarketDataEngine.consume_depth50_snapshot, MarketDataEngine.compute_depth_diff, Depth50SnapshotEvent_new.
  cbv zeta. cbn [d50_bids d50_asks].
  repeat (destruct (MarketDataEngine.compute_diff _ _ _ _ _ _) as [[? ?]|]; cbn [mbind option_bind]; [|done]).
  repeat (destruct (MarketDataEngine.copy_levels _ _ _ _); cbn [mbind option_bind]; [|done]).
  eexists _, _. by repeat split.
Qed.

#[global] Instance level2_laws : FeedLaws Level2SnapshotEvent.
Proof.
  split; [done|by repeat split|].
  intros m e. cbn [feed_bids feed_asks feed_num_bids feed_num_asks feed_prev feed_cap feed_width feed_consume level2_feed
    l2_bids l2_asks l2_num_bids l2_num_asks].
  unfold MarketDataEngine.consume_level2_snapshot, MarketDataEngine.compute_level2_diff, Level2SnapshotEvent_new.
  cbv zeta. cbn [l2_bids l2_asks].
  repeat (destruct (MarketDataEngine.compute_diff _ _ _ _ _ _) as [[? ?]|]; cbn [mbind option_bind]; [|done]).
  repeat (destruct (MarketDataEngine.copy_levels _ _ _ _); cbn [mbind option_bind]; [|done]).
  eexists _, _. by repeat split.
Qed.

Section stream.
Context {E : Type} `{FeedLaws E}.

(** The levels of an event: the counted prefix of each array. *)
Definition bids_of (e : E) : list (f64 * f64) := take (Z.to_nat (feed_num_bids e)) (feed_bids e).
Definition asks_of (e : E) : list (f64 * f64) := take (Z.to_nat (feed_num_asks e)) (feed_asks e).

Record event_ok (e : E) : Prop := mkEventOk {
  eo_bids : levels_ok (bids_of e);
  eo_asks : levels_ok (asks_of e);
  eo_bid_array : length (feed_bids e) = feed_cap;
  eo_ask_array : length (feed_asks e) = feed_cap;
  eo_num_bids : 0 <= feed_num_bids e <= Z.of_nat feed_cap;
  eo_num_asks : 0 <= feed_num_asks e <= Z.of_nat feed_cap;
}.

(** Each snapshot of the stream differs from the one before by at most as many
    levels a side as an increment has room for. *)
Fixpoint fits (bids asks : list (f64 * f64)) (events : list E) : Prop :=
  match events with
  | [] => True
  | e :: events =>
      (length (changes bids (bids_of e)) <= feed_cap)%nat /\
      (length (changes asks (asks_of e)) <= feed_cap)%nat /\
      fits (bids_of e) (asks_of e) events
  end.

Fixpoint run_feed (m : MarketDataEngine) (events : list E) : option (MarketDataEngine * list E) :=
  match events with
  | [] => Some (m, [])
  | e :: events =>
      '(m, out) ← feed_consume m e;
      '(m, outs) ← run_feed m events;
      Some (m, out :: outs)
  end.

(** What a subscriber holds after the increments it received. *)
Definition subscriber_bids (book : f64 -> option f64) (outs : list E) : f64 -> option f64 :=
  foldl (fun book out => apply_changes book (bids_of out)) book outs.
Definition subscriber_asks (book : f64 -> option f64) (outs : list E) : f64 -> option f64 :=
  foldl (fun book out => apply_changes book (asks_of out)) book outs.

Lemma copy_levels_spec a prev curr n : (length a + n <= length (a ++ prev))%nat -> (length a + n <= length (a ++ curr))%nat ->
  MarketDataEngine.copy_levels (a ++ prev) (a ++ curr) (length a) n = Some (a ++ take n curr ++ drop n prev).
Proof.
  revert a prev curr. induction n as [|n IH]; intros a prev curr Hp Hc; [done|].
  rewrite length_app in *. destruct prev as [|p prev], curr as [|c curr]; simpl in *; try lia.
  rewrite list_lookup_middle by done. cbn [mbind option_bind]. unfold set_at.
  rewrite decide_True by (rewrite length_app; simpl; lia). cbn [mbind option_bind].
  rewrite insert_app_r_alt, Nat.sub_diag by lia. simpl.
  specialize (IH (a ++ [c]) prev curr). rewrite <- !app_assoc, !length_app in IH. simpl in IH.
  replace (length a + 1)%nat with (S (length a)) in IH by lia. rewrite IH by lia. done.
Qed.

Lemma copy_levels_whole prev curr n : (n <= length prev)%nat -> (n <= length curr)%nat ->
  MarketDataEngine.copy_levels prev curr 0 n = Some (take n curr ++ drop n prev).
Proof. apply (copy_levels_spec [] prev curr n). Qed.

Lemma diff_of_arrays cap (prev curr : list (f64 * f64)) np nc :
  cap = feed_cap -> 0 <= np <= Z.of_nat (length prev) -> 0 <= nc <= Z.of_nat (length curr) ->
  levels_ok (take (Z.to_nat np) prev) -> levels_ok (take (Z.to_nat nc) curr) ->
  (length (changes (take (Z.to_nat np) prev) (take (Z.to_nat nc) curr)) <= cap)%nat ->
  exists rest, MarketDataEngine.compute_diff feed_width prev np curr nc (replicate cap (f64_zero, f64_zero)) =
    Some (changes (take (Z.to_nat np) prev) (take (Z.to_nat nc) curr) ++ rest,
          Z.of_nat (length (changes (take (Z.to_nat np) prev) (take (Z.to_nat nc) curr)))).
Proof.
  intros -> Hp Hc [Hip _ _] [Hic _ _] Hfit. destruct feed_fits as [Hw Hcap].
  pose proof (compute_diff_spec feed_width feed_cap Hw Hcap (take (Z.to_nat np) prev) (take (Z.to_nat nc) curr)
    (drop (Z.to_nat np) prev) (drop (Z.to_nat nc) curr) (replicate feed_cap (f64_zero, f64_zero)) Hip Hic
    (length_replicate _ _)) as Hd.
  rewrite !take_drop in Hd. rewrite !length_take, !Nat.min_l, !Z2Nat.id in Hd by lia.
  rewrite decide_True in Hd by done. by eexists.
Qed.

(** One step from a good previous snapshot. *)
Lemma feed_step_ok m e :
  event_ok (feed_prev m) -> event_ok e ->
  (length (changes (bids_of (feed_prev m)) (bids_of e)) <= feed_cap)%nat ->
  (length (changes (asks_of (feed_prev m)) (asks_of e)) <= feed_cap)%nat ->
  exists m' out, feed_consume m e = Some (m', out) /\ event_ok (feed_prev m') /\
    bids_of (feed_prev m') = bids_of e /\ asks_of (feed_prev m') = asks_of e /\
    bids_of out = changes (bids_of (feed_prev m)) (bids_of e) /\
    asks_of out = changes (asks_of (feed_prev m)) (asks_of e).
Proof.
  intros [Pb Pa Lpb Lpa Npb Npa] He Hfb Hfa. pose proof He as [Eb Ea Leb Lea Neb Nea].
  destruct (diff_of_arrays feed_cap _ _ _ _ eq_refl ltac:(rewrite Lpb; exact Npb) ltac:(rewrite Leb; exact Neb) Pb Eb Hfb) as [rb Hrb].
  destruct (diff_of_arrays feed_cap _ _ _ _ eq_refl ltac:(rewrite Lpa; exact Npa) ltac:(rewrite Lea; exact Nea) Pa Ea Hfa) as [ra Hra].
  pose proof (feed_step m e) as Hs. rewrite Hrb, Hra in Hs.
  rewrite !copy_levels_whole in Hs by lia. cbv iota in Hs.
  destruct Hs as (m' & out & Hc & Hb & Hnb & Ha & Hna & Hob & Hnob & Hoa & Hnoa).
  assert (Hbm : bids_of (feed_prev m') = bids_of e).
  { unfold bids_of. rewrite Hb, Hnb. rewrite take_app_le by (rewrite length_take; lia). by rewrite take_take, Nat.min_id. }
  assert (Ham : asks_of (feed_prev m') = asks_of e).
  { unfold asks_of. rewrite Ha, Hna. rewrite take_app_le by (rewrite length_take; lia). by rewrite take_take, Nat.min_id. }
  exists m', out. split; [done|]. split.
  { split; rewrite ?Hbm, ?Ham, ?Hb, ?Ha, ?Hnb, ?Hna; try done; rewrite length_app, length_take, length_drop; lia. }
  split; [done|]. split; [done|]. split.
  - unfold bids_of at 1. rewrite Hob, Hnob. cbn [fst snd]. rewrite Nat2Z.id. by rewrite take_app_length.
  - unfold asks_of at 1. rewrite Hoa, Hnoa. cbn [fst snd]. rewrite Nat2Z.id. by rewrite take_app_length.
Qed.

Lemma apply_changes_ext cs f g : (forall p, f p = g p) -> forall p, apply_changes f cs p = apply_changes g cs p.
Proof.
  revert f g. induction cs as [|c cs IH]; intros f g Hfg; [done|].
  unfold apply_changes. cbn [foldl]. apply IH. intros p. unfold apply_change. by rewrite Hfg.
Qed.

Lemma run_feed_ok events m fb fa :
  event_ok (feed_prev m) -> Forall event_ok events ->
  fits (bids_of (feed_prev m)) (asks_of (feed_prev m)) events ->
  (forall p, fb p = qty_at (bids_of (feed_prev m)) p) -> (forall p, fa p = qty_at (asks_of (feed_prev m)) p) ->
  exists m' outs, run_feed m events = Some (m', outs) /\
    (forall p, subscriber_bids fb outs p = qty_at (bids_of (feed_prev m')) p) /\
    (forall p, subscriber_asks fa outs p = qty_at (asks_of (feed_prev m')) p) /\
    forall e, last events = Some e -> bids_of (feed_prev m') = bids_of e /\ asks_of (feed_prev m') = asks_of e.
Proof.
  revert m fb fa. induction events as [|e events IH]; intros m fb fa Hm Hev Hfit Hfb Hfa.
  { by exists m, []. }
  apply Forall_cons in Hev as [He Hev]. destruct Hfit as (Hb & Ha & Hfit).
  destruct (feed_step_ok m e Hm He Hb Ha) as (m1 & out & Hc & Hm1 & Hb1 & Ha1 & Hob & Hoa).
  destruct (IH m1 (apply_changes fb (bids_of out)) (apply_changes fa (asks_of out)) Hm1 Hev)
    as (m2 & outs & Hr & Hsb & Hsa & Hl); [by rewrite Hb1, Ha1| | |].
  - intros p. rewrite Hob, Hb1. rewrite (apply_changes_ext _ _ _ Hfb). apply changes_merge; [apply Hm|apply He].
  - intros p. rewrite Hoa, Ha1. rewrite (apply_changes_ext _ _ _ Hfa). apply changes_merge; [apply Hm|apply He].
  - exists m2, (out :: outs). split; [simpl; rewrite Hc; cbn [mbind option_bind]; by rewrite Hr|].
    split; [done|]. split; [done|]. intros e' Hlast. destruct events as [|e2 events].
    + simpl in Hr, Hlast. by simplify_eq.
    + by apply Hl.
Qed.

Lemma initial_ok : event_ok (feed_prev MarketDataEngine.new) /\
  bids_of (feed_prev MarketDataEngine.new) = [] /\ asks_of (feed_prev MarketDataEngine.new) = [].
Proof.
  destruct feed_new as (Hb & Ha & Lb & La). unfold bids_of, asks_of.
  rewrite Hb, Ha. split; [|done]. assert (Hn : levels_ok []) by (split; constructor).
  split; unfold bids_of, asks_of; rewrite ?Hb, ?Ha; done || lia.
Qed.
End stream.

(** C31: For both feeds - 50 and 400 levels - a stream of snapshots, each changing
    no more levels a side than an increment has room for, is turned into
    increments without a panic, and a subscriber who starts with an empty book
    and applies every increment holds, level by level, exactly the last
    snapshot. *)
Theorem increments_reconstruct {E} `{FeedLaws E} (events : list E) (e : E) :
  Forall event_ok (events ++ [e]) -> fits [] [] (events ++ [e]) ->
  exists m outs, run_feed MarketDataEngine.new (events ++ [e]) = Some (m, outs) /\
    (forall p, subscriber_bids (fun _ => None) outs p = qty_at (bids_of e) p) /\
    (forall p, subscriber_asks (fun _ => None) outs p = qty_at (asks_of e) p).
Proof.
  intros Hev Hfit. destruct (initial_ok (E := E)) as (Hi & Hb & Ha).
  destruct (run_feed_ok (events ++ [e]) MarketDataEngine.new (fun _ => None) (fun _ => None) Hi Hev)
    as (m & outs & Hr & Hsb & Hsa & Hl); rewrite ?Hb, ?Ha; try done.
  destruct (Hl e (last_snoc _ _)) as [Eb Ea]. exists m, outs. rewrite Eb in Hsb. rewrite Ea in Hsa. done.
Qed.

(** ** Witness *)

Definition lv (p q : Z) : f64 * f64 := (i64_as_f64 p, i64_as_f64 q).
Definition pad50 (l : list (f64 * f64)) : list (f64 * f64) := l ++ replicate (50 - length l) (f64_zero, f64_zero).
Definition depth50 (bids asks : list (f64 * f64)) : Depth50SnapshotEvent :=
  mkDepth50SnapshotEvent 1 1 (Z.of_nat (length bids)) (Z.of_nat (length asks)) (pad50 bids) (pad50 asks).

Lemma depth50_ok (lb la : list (Z * Z)) :
  NoDup (fst <$> lb) -> NoDup (fst <$> la) ->
  Forall (fun e => Z.abs (fst e) < 2 ^ 53 /\ 0 < snd e < 2 ^ 53) lb ->
  Forall (fun e => Z.abs (fst e) < 2 ^ 53 /\ 0 < snd e < 2 ^ 53) la ->
  (length lb <= 50)%nat -> (length la <= 50)%nat ->
  event_ok (depth50 ((fun e => lv (fst e) (snd e)) <$> lb) ((fun e => lv (fst e) (snd e)) <$> la)).
Proof.
  intros Nb Na Fb Fa Lb La. split; unfold bids_of, asks_of; simpl; rewrite ?Nat2Z.id; unfold pad50.
  1,2: rewrite take_app_length; by apply engine_levels_ok.
  1,2: rewrite length_app, length_replicate, length_fmap; lia.
  all: rewrite length_fmap; lia.
Qed.

Definition first_snapshot : Depth50SnapshotEvent := depth50 [lv 100 5; lv 99 3] [lv 101 7].
Definition second_snapshot : Depth50SnapshotEvent := depth50 [lv 100 2; lv 98 4] [lv 101 7; lv 102 1].

Lemma increments_reconstruct_witness :
  exists m outs, run_feed MarketDataEngine.new ([first_snapshot] ++ [second_snapshot]) = Some (m, outs) /\
    (forall p, subscriber_bids (fun _ => None) outs p = qty_at (bids_of second_snapshot) p) /\
    (forall p, subscriber_asks (fun _ => None) outs p = qty_at (asks_of second_snapshot) p).
Proof.
  apply increments_reconstruct.
  - apply Forall_cons. split; [|apply Forall_cons; split; [|by apply Forall_nil]].
    + apply (depth50_ok [(100, 5); (99, 3)] [(101, 7)]); try (apply (bool_decide_unpack _); by vm_compute); simpl; lia.
    + apply (depth50_ok [(100, 2); (98, 4)] [(101, 7); (102, 1)]); try (apply (bool_decide_unpack _); by vm_compute); simpl; lia.
  - repeat split; apply (bool_decide_unpack _); by vm_compute.
Defined.

(** ** Overflow of the change array *)

(** When the counted levels of a side all move, 50 of them go and 50 are new:
    the second write past the array panics. *)
Lemma full_turnover_panics :
  MarketDataEngine.consume_depth50_snapshot
    (MarketDataEngine.with_depth50 MarketDataEngine.new ((fun i => lv (Z.of_nat i + 1) 1) <$> seq 0 50)
       (replicate 50 (f64_zero, f64_zero)) 50 0)
    (depth50 ((fun i => lv (Z.of_nat i + 101) 1) <$> seq 0 50) []) = None.
Proof. vm_compute. reflexivity. Qed.
