(* ===== verification/MarketBook.v ===== *)
(** The ten-level book and the bars of the market-data engine: the array loops
    are list operations, no sequence of trades and depth snapshots makes them
    panic, the levels stay ordered, and every trade is in exactly one bar of each
    length. *)
From Stdlib Require Import ZArith Lia Bool SpecFloat.
From stdpp Require Import base numbers list sorting.
From S2P Require Import Prelude Fixed Types F64 MarketData F64Grid.

#[local] Open Scope Z_scope.

(** ** The order of floats *)

(** A float's place in the order: class, exponent, mantissa. *)
Definition rank (f : f64) : Z * Z * Z :=
  match f with
  | S754_infinity true => (-2, 0, 0)
  | S754_finite true m e => (-1, - e, - Zpos m)
  | S754_zero _ => (0, 0, 0)
  | S754_finite false m e => (1, e, Zpos m)
  | S754_infinity false => (2, 0, 0)
  | S754_nan => (3, 0, 0)
  end.

Definition rank_lt (x y : Z * Z * Z) : Prop :=
  let '(a, b, c) := x in let '(a', b', c') := y in
  a < a' \/ a = a' /\ (b < b' \/ b = b' /\ c < c').

Lemma f64_lt_rank a b : a <> S754_nan -> b <> S754_nan -> f64_lt a b = true <-> rank_lt (rank a) (rank b).
Proof.
  intros Ha Hb. unfold f64_lt, SFltb.
  destruct a as [sa|[]| |[] ma ea], b as [sb|[]| |[] mb eb]; try done; cbn [SFcompare rank rank_lt];
    try (split; intros; first [done | lia]).
  all: destruct (Z.compare_spec ea eb); try (split; intros; first [done | lia]); subst.
  all: change (Pos.compare_cont Eq ma mb) with (Pos.compare ma mb).
  all: destruct (Pos.compare_spec ma mb); cbn [CompOpp]; split; intros; first [done | lia].
Qed.

Lemma f64_lt_trans a b c : f64_lt a b = true -> f64_lt b c = true -> f64_lt a c = true.
Proof.
  intros H1 H2. assert (a <> S754_nan) by (by intros ->).
  assert (b <> S754_nan) by (by intros ->). assert (c <> S754_nan) by (intros ->; by destruct b).
  apply f64_lt_rank in H1; [|done|done]. apply f64_lt_rank in H2; [|done|done]. apply f64_lt_rank; [done|done|].
  destruct (rank a) as [[? ?] ?], (rank b) as [[? ?] ?], (rank c) as [[? ?] ?]. simpl in *. lia.
Qed.

(** Finite values that are not within the tolerance are ordered. *)
Lemma near_same a b : f64_is_finite a = true -> f64_is_finite b = true -> rank a = rank b -> near a b = true.
Proof.
  intros Ha Hb Hr. unfold near.
  assert (Hz : exists s, f64_sub a b = S754_zero s).
  { destruct a as [sa| | |[] ma ea], b as [sb| | |[] mb eb]; try done; simpl in Hr; simplify_eq.
    - unfold f64_sub; simpl. destruct sa, sb; eauto.
    - assert (ea = eb) as -> by lia. exists false. by rewrite finite_sub, Z.sub_diag.
    - exists false. by rewrite finite_sub, Z.sub_diag. }
  destruct Hz as [s ->]. unfold f64_lt. by rewrite EPS_value.
Qed.

Lemma not_near_lt a b : f64_is_finite a = true -> f64_is_finite b = true ->
  near a b = false -> f64_lt b a = false -> f64_lt a b = true.
Proof.
  intros Ha Hb Hn Hlt. assert (a <> S754_nan) by (by intros ->). assert (b <> S754_nan) by (by intros ->).
  destruct (decide (rank a = rank b)) as [Hr|Hr]; [by rewrite near_same in Hn|].
  apply f64_lt_rank; [done|done|]. apply not_true_iff_false in Hlt. rewrite f64_lt_rank in Hlt by done.
  destruct (rank a) as [[x y] z], (rank b) as [[x' y'] z']. simpl in *.
  assert (~ (x = x' /\ y = y' /\ z = z')) by (intros (-> & -> & ->); done). lia.
Qed.

(** ** One side of the book as a list *)

Definition slots (l : list PriceLevel) : list PriceLevel := l ++ replicate (10 - length l) PriceLevel_default.

Fixpoint ins (before : f64 -> f64 -> bool) (x : PriceLevel) (l : list PriceLevel) : list PriceLevel :=
  match l with
  | [] => [x]
  | y :: l => if before (pl_price x) (pl_price y) then x :: y :: l else y :: ins before x l
  end.

(** What a trade does to the levels: consume the level at its price, or show a
    new one while there is room. *)
Definition side_after (before : f64 -> f64 -> bool) (l : list PriceLevel) (price quantity : f64) : list PriceLevel :=
  match list_find (fun x => near (pl_price x) price = true) l with
  | Some (i, x) =>
      let q := f64_sub (pl_quantity x) quantity in
      if f64_lt q EPS then delete i l else <[i := mkLevel (pl_price x) q]> l
  | None => if decide (length l < 10)%nat then ins before (mkLevel price quantity) l else l
  end.

Lemma find_near_spec a l r price :
  MarketDataEngine.find_near (a ++ l ++ r) price (length a) (length l) =
  Some ((fun e => (length a + fst e)%nat) <$> list_find (fun x => near (pl_price x) price = true) l).
Proof.
  revert a. induction l as [|x l IH]; intros a; [done|]. cbn [MarketDataEngine.find_near length list_find].
  change ((x :: l) ++ r) with (x :: (l ++ r)). rewrite list_lookup_middle by done. cbn [mbind option_bind].
  destruct (near (pl_price x) price) eqn:E.
  - rewrite decide_True by done. simpl. do 2 f_equal. lia.
  - rewrite decide_False by done. specialize (IH (a ++ [x])). rewrite <- app_assoc, length_app in IH. simpl in IH.
    replace (length a + 1)%nat with (S (length a)) in IH by lia. rewrite IH.
    destruct (list_find _ l) as [[i y]|]; simpl; [|done]. do 2 f_equal. lia.
Qed.

Lemma find_near_side l price :
  MarketDataEngine.find_near (slots l) price 0 (length l) =
  Some (fst <$> list_find (fun x => near (pl_price x) price = true) l).
Proof. apply (find_near_spec [] l _ price). Qed.

(** The insertion point splits the side in two. *)
Lemma insert_pos_spec before a l r x :
  exists l1 l2, l = l1 ++ l2 /\ ins before x l = l1 ++ x :: l2 /\
    MarketDataEngine.insert_pos before (a ++ l ++ r) (pl_price x) (length a) (length l) = Some (length a + length l1)%nat.
Proof.
  revert a. induction l as [|y l IH]; intros a.
  - exists [], []. repeat split. simpl. f_equal. lia.
  - cbn [MarketDataEngine.insert_pos length ins].
    change ((y :: l) ++ r) with (y :: (l ++ r)). rewrite list_lookup_middle by done. cbn [mbind option_bind].
    destruct (before (pl_price x) (pl_price y)).
    + exists [], (y :: l). repeat split. simpl. f_equal. lia.
    + destruct (IH (a ++ [y])) as (l1 & l2 & -> & Hi & Hp). exists (y :: l1), l2. split; [done|].
      split; [by rewrite Hi|]. rewrite <- app_assoc, length_app in Hp. simpl in Hp |- *.
      replace (length a + 1)%nat with (S (length a)) in Hp by lia. rewrite Hp. f_equal. lia.
Qed.

Lemma set_at_middle {A} (a : list A) x y r : set_at (length a) y (a ++ x :: r) = Some (a ++ y :: r).
Proof.
  unfold set_at. rewrite decide_True by (rewrite length_app; simpl; lia).
  by rewrite insert_app_r_alt, Nat.sub_diag by lia.
Qed.

Lemma shift_up_spec a b x r :
  exists z, MarketDataEngine.shift_up (a ++ b ++ x :: r) (length a) (length b) = Some (a ++ z :: b ++ r).
Proof.
  revert x r. induction b as [|y b IH] using rev_ind; intros x r; [by exists x|].
  rewrite length_app, Nat.add_comm. cbn [length Nat.add MarketDataEngine.shift_up].
  replace (a ++ (b ++ [y]) ++ x :: r) with ((a ++ b) ++ y :: x :: r) by (by rewrite <- !app_assoc).
  rewrite <- length_app, list_lookup_middle by done. cbn [mbind option_bind].
  replace ((a ++ b) ++ y :: x :: r) with (((a ++ b) ++ [y]) ++ x :: r) by (by rewrite <- !app_assoc).
  replace (S (length (a ++ b))) with (length ((a ++ b) ++ [y])) by (rewrite length_app; simpl; lia).
  rewrite set_at_middle. cbn [mbind option_bind]. destruct (IH y (y :: r)) as [z Hz]. exists z.
  replace (((a ++ b) ++ [y]) ++ y :: r) with (a ++ b ++ y :: y :: r) by (by rewrite <- !app_assoc).
  rewrite Hz. by rewrite <- !app_assoc.
Qed.

Lemma shift_down_spec a x b r :
  exists z, MarketDataEngine.shift_down (a ++ x :: b ++ r) (length a) (length b) = Some (a ++ b ++ z :: r).
Proof.
  revert a x. induction b as [|y b IH]; intros a x; [by exists x|].
  cbn [length MarketDataEngine.shift_down].
  replace (a ++ x :: (y :: b) ++ r) with ((a ++ [x]) ++ y :: b ++ r) by (by rewrite <- !app_assoc).
  replace (S (length a)) with (length (a ++ [x])) by (rewrite length_app; simpl; lia).
  rewrite list_lookup_middle by done. cbn [mbind option_bind]. rewrite <- app_assoc. cbn [app].
  rewrite set_at_middle. cbn [mbind option_bind]. destruct (IH (a ++ [y]) y) as [z Hz]. exists z.
  replace (length (a ++ [x])) with (length (a ++ [y])) by (by rewrite !length_app).
  replace (a ++ y :: y :: b ++ r) with ((a ++ [y]) ++ y :: b ++ r) by (by rewrite <- !app_assoc).
  rewrite Hz. by rewrite <- !app_assoc.
Qed.

Lemma slots_snoc l : (length l < 10)%nat -> slots l = l ++ PriceLevel_default :: replicate (9 - length l) PriceLevel_default.
Proof. intros Hl. unfold slots. replace (10 - length l)%nat with (S (9 - length l)) by lia. done. Qed.

Lemma slots_middle a x b : slots (a ++ x :: b)
  = a ++ x :: b ++ replicate (9 - (length a + length b)) PriceLevel_default.
Proof.
  unfold slots. rewrite length_app, <- app_assoc. cbn [length app].
  by replace (10 - (length a + S (length b)))%nat with (9 - (length a + length b))%nat by lia.
Qed.

Lemma consume_level_spec before a x b price quantity :
  (length (a ++ x :: b) <= 10)%nat ->
  list_find (fun y => near (pl_price y) price = true) (a ++ x :: b) = Some (length a, x) ->
  MarketDataEngine.trade_side before (slots (a ++ x :: b)) (Z.of_nat (length (a ++ x :: b))) price quantity =
    let q := f64_sub (pl_quantity x) quantity in
    let l := if f64_lt q EPS then a ++ b else a ++ mkLevel (pl_price x) q :: b in
    Some (slots l, Z.of_nat (length l), true).
Proof.
  intros Hl Hf. unfold MarketDataEngine.trade_side. rewrite Nat2Z.id, find_near_side, Hf.
  cbn [mbind option_bind fmap option_fmap option_map fst]. rewrite slots_middle.
  rewrite list_lookup_middle by done. cbn [mbind option_bind]. rewrite set_at_middle. cbn [mbind option_bind].
  rewrite length_app in Hl |- *. cbn [length] in Hl |- *. cbv zeta. destruct (f64_lt _ EPS).
  - replace (length a + S (length b) - 1 - length a)%nat with (length b) by lia.
    destruct (shift_down_spec a (mkLevel (pl_price x) (f64_sub (pl_quantity x) quantity)) b
      (replicate (9 - (length a + length b)) PriceLevel_default)) as [z ->]. cbn [mbind option_bind].
    replace (length a + S (length b) - 1)%nat with (length (a ++ b)) by (rewrite length_app; lia).
    rewrite app_assoc, set_at_middle. cbn [mbind option_bind]. rewrite <- length_app.
    rewrite slots_snoc by (rewrite length_app; lia). do 3 f_equal. rewrite length_app. lia.
  - rewrite slots_middle. do 3 f_equal. rewrite length_app. simpl. lia.
Qed.

Lemma show_level_spec before l price quantity :
  (length l < 10)%nat -> list_find (fun y => near (pl_price y) price = true) l = None ->
  MarketDataEngine.trade_side before (slots l) (Z.of_nat (length l)) price quantity =
    Some (slots (ins before (mkLevel price quantity) l),
          Z.of_nat (length (ins before (mkLevel price quantity) l)), true).
Proof.
  intros Hl Hf. unfold MarketDataEngine.trade_side. rewrite Nat2Z.id, find_near_side, Hf.
  cbn [mbind option_bind fmap option_fmap option_map]. destruct (Z.ltb_spec (Z.of_nat (length l)) 10); [|lia].
  destruct (insert_pos_spec before [] l (replicate (10 - length l) PriceLevel_default) (mkLevel price quantity))
    as (l1 & l2 & -> & -> & Hp). cbn [app length Nat.add pl_price] in Hp. fold (slots (l1 ++ l2)) in Hp.
  rewrite Hp. cbn [mbind option_bind]. rewrite slots_snoc, <- app_assoc by lia.
  replace (length (l1 ++ l2) - length l1)%nat with (length l2) by (rewrite length_app; lia).
  destruct (shift_up_spec l1 l2 PriceLevel_default (replicate (9 - length (l1 ++ l2)) PriceLevel_default)) as [z ->].
  cbn [mbind option_bind]. rewrite set_at_middle. cbn [mbind option_bind].
  rewrite slots_middle. rewrite !length_app. cbn [length]. do 3 f_equal. lia.
Qed.

(** The loops on the array are [side_after] on the list. *)
Lemma trade_side_spec before l price quantity :
  (length l <= 10)%nat ->
  exists changed, MarketDataEngine.trade_side before (slots l) (Z.of_nat (length l)) price quantity =
    Some (slots (side_after before l price quantity),
          Z.of_nat (length (side_after before l price quantity)), changed) /\
    (length (side_after before l price quantity) <= 10)%nat.
Proof.
  intros Hl. unfold side_after. destruct (list_find _ l) as [[i x]|] eqn:Hf.
  - pose proof Hf as (Hi & _ & _)%list_find_Some. apply list_elem_of_split_length in Hi as (a & b & -> & ->).
    exists true. rewrite consume_level_spec by done. cbv zeta. destruct (f64_lt _ EPS).
    + rewrite delete_middle. split; [done|]. rewrite length_app in *. simpl in *. lia.
    + rewrite insert_app_r_alt, Nat.sub_diag by lia. split; [done|]. rewrite length_app in *. simpl in *. lia.
  - case_decide as Hd.
    + exists true. rewrite show_level_spec by done. split; [done|].
      destruct (insert_pos_spec before [] l [] (mkLevel price quantity)) as (l1 & l2 & -> & -> & _).
      rewrite length_app in *. simpl. lia.
    + exists false. split; [|done]. unfold MarketDataEngine.trade_side. rewrite Nat2Z.id, find_near_side, Hf.
      cbn [mbind option_bind fmap option_fmap option_map]. by destruct (Z.ltb_spec (Z.of_nat (length l)) 10); [lia|].
Qed.

(** ** Order of the levels *)

(** The price order of a side: asks ascend, bids descend. *)
Class SideOrder (before : f64 -> f64 -> bool) : Prop := {
  side_trans : forall a b c, before a b = true -> before b c = true -> before a c = true;
  side_total : forall a b, f64_is_finite a = true -> f64_is_finite b = true ->
    near a b = false -> before b a = false -> before a b = true;
}.

#[global] Instance ask_order : SideOrder f64_lt.
Proof. split; [apply f64_lt_trans|apply not_near_lt]. Qed.

#[global] Instance bid_order : SideOrder (fun a b => f64_lt b a).
Proof.
  split; [intros a b c H1 H2; by apply f64_lt_trans with b|].
  intros a b Ha Hb Hn Hlt. assert (a <> S754_nan) by (by intros ->). assert (b <> S754_nan) by (by intros ->).
  destruct (decide (rank a = rank b)) as [Hr|Hr]; [by rewrite near_same in Hn|].
  apply f64_lt_rank; [done|done|]. apply not_true_iff_false in Hlt. rewrite f64_lt_rank in Hlt by done.
  destruct (rank a) as [[x y] z], (rank b) as [[x' y'] z']. simpl in *.
  assert (~ (x = x' /\ y = y' /\ z = z')) by (intros (-> & -> & ->); done). lia.
Qed.

Section ordered.
Context (before : f64 -> f64 -> bool) `{SideOrder before}.

Definition ordered (l : list PriceLevel) : Prop :=
  StronglySorted (fun x y => before (pl_price x) (pl_price y) = true) l /\
  Forall (fun x => f64_is_finite (pl_price x) = true) l.

Lemma ordered_sublist l l' : sublist l' l -> ordered l -> ordered l'.
Proof.
  intros Hs [Hso Hf]. split; [|by eapply Forall_sublist]. revert Hso. clear Hf.
  induction Hs as [|x l l' Hs IH|x l l' Hs IH]; intros Hso; [done| |].
  - apply StronglySorted_inv in Hso as [Hso Hx]. constructor; [by apply IH|]. by eapply Forall_sublist.
  - apply StronglySorted_inv in Hso as [Hso _]. by apply IH.
Qed.

Lemma ins_Forall (P : PriceLevel -> Prop) x l : P x -> Forall P l -> Forall P (ins before x l).
Proof. intros Hx. induction 1 as [|y l Hy Hl IH]; simpl; [by constructor|]. destruct (before _ _); auto. Qed.

Lemma ordered_ins x l : ordered l -> f64_is_finite (pl_price x) = true ->
  Forall (fun y => near (pl_price y) (pl_price x) = false) l -> ordered (ins before x l).
Proof.
  intros [Hs Hf] Hx Hn. induction l as [|y l IH]; simpl; [by split; repeat constructor|].
  apply StronglySorted_inv in Hs as [Hs Hy]. apply Forall_cons in Hf as [Hfy Hf], Hn as [Hny Hn].
  destruct (before (pl_price x) (pl_price y)) eqn:E.
  - split; [|by repeat constructor]. constructor; [by constructor|]. constructor; [done|].
    eapply Forall_impl; [exact Hy|]. simpl. intros z Hz. by eapply side_trans.
  - destruct (IH Hs Hf Hn) as [IHs IHf]. split; [|by constructor]. constructor; [done|].
    apply ins_Forall; [by apply side_total|done].
Qed.

Lemma ordered_requote a x b q : ordered (a ++ x :: b) -> ordered (a ++ mkLevel (pl_price x) q :: b).
Proof.
  intros [Hs Hf]. split.
  - induction a as [|y a IH]; simpl in *.
    + apply StronglySorted_inv in Hs as [Hs Hx]. by constructor.
    + apply StronglySorted_inv in Hs as [Hs Hy]. apply Forall_cons in Hf as [_ Hf]. constructor; [by apply IH|].
      apply Forall_app in Hy as [Hya Hyb]. apply Forall_cons in Hyb as [Hyx Hyb].
      apply Forall_app. split; [done|]. by constructor.
  - apply Forall_app in Hf as [Hfa Hfb]. apply Forall_cons in Hfb as [Hfx Hfb].
    apply Forall_app. split; [done|]. by constructor.
Qed.

Lemma ordered_side_after l price quantity : ordered l -> f64_is_finite price = true ->
  ordered (side_after before l price quantity).
Proof.
  intros Hl Hp. unfold side_after. destruct (list_find _ l) as [[i x]|] eqn:Hf.
  - apply list_find_Some in Hf as (Hi & _ & _). apply list_elem_of_split_length in Hi as (a & b & -> & ->).
    destruct (f64_lt _ EPS).
    + rewrite delete_middle. eapply ordered_sublist; [|exact Hl].
      apply sublist_app; [done|]. by apply sublist_cons.
    + rewrite insert_app_r_alt, Nat.sub_diag by lia. by apply ordered_requote.
  - case_decide; [|done]. apply ordered_ins; [done|done|]. apply list_find_None in Hf.
    eapply Forall_impl; [exact Hf|]. simpl. intros y Hy. by apply not_true_iff_false.
Qed.
End ordered.

(** ** Snapshots *)

Definition levels_of (l : list (f64 * f64)) : list PriceLevel := (fun e => mkLevel (fst e) (snd e)) <$> l.

(** The ten-level view as two lists. *)
Record views (s : Level2Snapshot) (bids asks : list PriceLevel) : Prop := mkViews {
  vw_bids : lv_bids s = slots bids;
  vw_asks : lv_asks s = slots asks;
  vw_num_bids : lv_num_bids s = Z.of_nat (length bids);
  vw_num_asks : lv_num_asks s = Z.of_nat (length asks);
  vw_bid_room : (length bids <= 10)%nat;
  vw_ask_room : (length asks <= 10)%nat;
}.

(** A view that shows ordered sides. *)
Definition book_view (s : Level2Snapshot) : Prop :=
  exists bids asks, views s bids asks /\ ordered (fun a b => f64_lt b a) bids /\ ordered f64_lt asks.

Lemma add_bids_spec s bids asks (a l r : list (f64 * f64)) :
  views s bids asks ->
  exists s', MarketDataEngine.add_bids s (a ++ l ++ r) (length a) (length l) = Some s' /\
    views s' (take 10 (bids ++ levels_of l)) asks /\ lv_timestamp s' = lv_timestamp s /\ lv_sequence s' = lv_sequence s.
Proof.
  revert s bids a. induction l as [|[p q] l IH]; intros s bids a Hv.
  - exists s. split; [done|]. split; [|done]. rewrite app_nil_r, take_ge by apply Hv. done.
  - cbn [MarketDataEngine.add_bids length]. change (((p, q) :: l) ++ r) with ((p, q) :: (l ++ r)).
    rewrite list_lookup_middle by done. cbn [mbind option_bind fst snd]. unfold Level2Snapshot.add_bid.
    rewrite (vw_num_bids _ _ _ Hv).
    assert (Hnext : forall s1 bids1, views s1 bids1 asks -> take 10 (bids1 ++ levels_of l) = take 10 (bids ++ levels_of ((p, q) :: l)) ->
      lv_timestamp s1 = lv_timestamp s -> lv_sequence s1 = lv_sequence s ->
      exists s', MarketDataEngine.add_bids s1 (a ++ (p, q) :: l ++ r) (S (length a)) (length l) = Some s' /\
        views s' (take 10 (bids ++ levels_of ((p, q) :: l))) asks /\ lv_timestamp s' = lv_timestamp s /\ lv_sequence s' = lv_sequence s).
    { intros s1 bids1 Hv1 Ht Hts Hsq. destruct (IH s1 bids1 (a ++ [(p, q)]) Hv1) as (s' & Ha & Hv' & Ht' & Hs').
      rewrite <- app_assoc, length_app in Ha. simpl in Ha. replace (length a + 1)%nat with (S (length a)) in Ha by lia.
      exists s'. rewrite <- Ht, Ht', Hs'. done. }
    destruct (Z.leb_spec 10 (Z.of_nat (length bids))) as [Hge|Hlt]; cbn [mbind option_bind].
    + apply (Hnext s bids Hv); [|done|done]. rewrite !take_app_le by lia. done.
    + rewrite Nat2Z.id, (vw_bids _ _ _ Hv), slots_snoc by lia. rewrite set_at_middle. cbn [mbind option_bind].
      apply (Hnext _ (bids ++ [mkLevel p q])); [|by rewrite <- app_assoc|done|done].
      destruct Hv as [Vb Va Vnb Vna Vrb Vra]. split; cbn [lv_bids lv_asks lv_num_bids lv_num_asks]; try done.
      * rewrite slots_middle. simpl. by replace (9 - (length bids + 0))%nat with (9 - length bids)%nat by lia.
      * rewrite length_app. simpl. rewrite Z.mod_small by lia. lia.
      * rewrite length_app. simpl. lia.
Qed.

(** Asks are bids seen from the other side. *)
Definition mirror (s : Level2Snapshot) : Level2Snapshot :=
  mkLevel2 (lv_timestamp s) (lv_sequence s) (lv_asks s) (lv_bids s) (lv_num_asks s) (lv_num_bids s).

Lemma add_asks_mirror s l i n :
  MarketDataEngine.add_asks s l i n = mirror <$> MarketDataEngine.add_bids (mirror s) l i n.
Proof.
  revert s i. induction n as [|n IH]; intros s i; [by destruct s|].
  cbn [MarketDataEngine.add_asks MarketDataEngine.add_bids]. destruct (l !! i) as [[p q]|]; [|done].
  cbn [mbind option_bind fst snd]. unfold Level2Snapshot.add_ask, Level2Snapshot.add_bid. cbn [mirror lv_num_bids lv_bids].
  destruct (Z.leb 10 (lv_num_asks s)); cbn [mbind option_bind]; [apply IH|].
  destruct (set_at _ _ (lv_asks s)); cbn [mbind option_bind]; [|done]. by rewrite IH.
Qed.

Lemma views_mirror s bids asks : views s bids asks -> views (mirror s) asks bids.
Proof. by intros []. Qed.

Lemma add_asks_spec s bids asks (l r : list (f64 * f64)) :
  views s bids asks ->
  exists s', MarketDataEngine.add_asks s (l ++ r) 0 (length l) = Some s' /\
    views s' bids (take 10 (asks ++ levels_of l)) /\ lv_timestamp s' = lv_timestamp s /\ lv_sequence s' = lv_sequence s.
Proof.
  intros Hv%views_mirror. rewrite add_asks_mirror.
  destruct (add_bids_spec (mirror s) asks bids [] l r Hv) as (s' & Ha & Hv' & Ht & Hs). simpl in Ha.
  rewrite Ha. exists (mirror s'). split; [done|]. split; [by apply views_mirror|done].
Qed.

(** ** Bars *)

(** A bar: where it starts, the sequence of its first trade, its trades. *)
Record Bar := mkBar { bar_start : Z; bar_sequence : Z; bar_trades : list TradeEvent }.

Definition turnover (e : TradeEvent) : f64 := f64_mul (te_price e) (te_quantity e).

(** Open, high, low, close, volume, turnover and count of a bar's trades. *)
Definition bar_window (bt : BucketType) (b : Bar) : AggregateTradeWindow :=
  match bar_trades b with
  | [] => AggregateTradeWindow.new bt (bar_start b) (bar_sequence b)
  | e :: es =>
      mkWindow bt (bar_start b) (bar_start b + window_nanos bt) (te_price e)
        (foldl f64_max (te_price e) (te_price <$> es)) (foldl f64_min (te_price e) (te_price <$> es))
        (te_price (default e (last es)))
        (foldl f64_add (te_quantity e) (te_quantity <$> es)) (foldl f64_add (turnover e) (turnover <$> es))
        (Z.of_nat (length (e :: es)) mod 2 ^ 32) (bar_sequence b) true
  end.

(** Trades cut into bars of one length: the closed bars and the current one. *)
Record cut (bt : BucketType) (trades : list TradeEvent) (closed : list Bar) (current : Bar) : Prop := mkCut {
  cut_all : concat (bar_trades <$> closed) ++ bar_trades current = trades;
  cut_closed : Forall (fun b => bar_trades b <> []) closed;
  cut_current : bar_trades current = [] -> closed = [];
  cut_within : Forall (fun b => Forall (fun e => te_timestamp e < bar_start b + window_nanos bt) (bar_trades b)) (closed ++ [current]);
  cut_apart : Sorted (fun b b' => bar_start b + window_nanos bt <= bar_start b') (closed ++ [current]);
  cut_start : Forall (fun b => bar_start b = 0 \/ te_timestamp <$> head (bar_trades b) = Some (bar_start b)) (closed ++ [current]);
  cut_range : Forall (fun b => 0 <= bar_start b < 2 ^ 63) (closed ++ [current]);
}.

(** The last [n] elements. *)
Definition latest {A} (n : nat) (l : list A) : list A := drop (length l - n) l.

Lemma tail_drop {A} k (l : list A) : tail (drop k l) = drop (S k) l.
Proof. revert l. induction k as [|k IH]; intros [|x l]; try done. apply IH. Qed.

Lemma latest_snoc {A} n (l : list A) x : (0 < n)%nat ->
  (let l' := latest n l ++ [x] in if Nat.ltb n (length l') then tail l' else l') = latest n (l ++ [x]).
Proof.
  intros Hn. cbv zeta. unfold latest. rewrite !length_app, length_drop. cbn [length].
  destruct (Nat.ltb_spec n (length l - (length l - n) + 1)) as [Hlt|Hge].
  - replace (length l + 1 - n)%nat with (S (length l - n)) by lia.
    rewrite <- (drop_app_le l [x] (length l - n)) by lia.
    apply tail_drop.
  - replace (length l + 1 - n)%nat with 0%nat by lia. replace (length l - n)%nat with 0%nat by lia. done.
Qed.

Lemma bar_window_new bt start seq e : 0 <= start < 2 ^ 63 ->
  AggregateTradeWindow.init_with_first_trade (AggregateTradeWindow.new bt start seq) (te_price e) (te_quantity e)
  = bar_window bt (mkBar start seq [e]).
Proof.
  intros Hs. unfold bar_window, AggregateTradeWindow.init_with_first_trade, AggregateTradeWindow.new. simpl.
  rewrite u64_add_id by (destruct bt; simpl; machine_unfold; lia). done.
Qed.

Lemma bar_window_snoc bt b e es x : bar_trades b = e :: es ->
  AggregateTradeWindow.update_with_trade (bar_window bt b) (te_price x) (te_quantity x)
  = bar_window bt (mkBar (bar_start b) (bar_sequence b) (bar_trades b ++ [x])).
Proof.
  intros Hb. unfold bar_window. cbn [bar_trades bar_start bar_sequence]. rewrite Hb. cbn [app].
  rewrite !fmap_app, !foldl_app, last_snoc.
  unfold AggregateTradeWindow.update_with_trade. cbn -[Z.modulo Z.of_nat Z.pow].
  f_equal. rewrite Z.add_mod_idemp_l by lia. f_equal. rewrite length_app. simpl. lia.
Qed.

Lemma bar_window_end bt b : 0 <= bar_start b < 2 ^ 63 -> aw_end_time (bar_window bt b) = bar_start b + window_nanos bt.
Proof.
  intros Hs. unfold bar_window. destruct (bar_trades b); [|done]. simpl.
  apply u64_add_id. destruct bt; simpl; machine_unfold; lia.
Qed.

Lemma bar_window_has bt b : aw_has_trades (bar_window bt b) = match bar_trades b with [] => false | _ => true end.
Proof. unfold bar_window. by destruct (bar_trades b). Qed.

Definition bucket_ok (bt : BucketType) (trades : list TradeEvent) (active : AggregateTradeWindow)
  (completed : list AggregateTrade) : Prop :=
  exists closed current, cut bt trades closed current /\ active = bar_window bt current /\
    completed = latest 10 ((fun b => AggregateTradeWindow.to_aggregate_trade (bar_window bt b)) <$> closed).

Definition trade_ok (e : TradeEvent) : Prop :=
  f64_is_finite (te_price e) = true /\ 0 <= te_timestamp e < 2 ^ 63.

(** The trade extends the current bar. *)
Lemma cut_extend bt trades closed current e :
  cut bt trades closed current -> te_timestamp e < bar_start current + window_nanos bt ->
  (bar_trades current = [] -> bar_start current = 0) ->
  cut bt (trades ++ [e]) closed (mkBar (bar_start current) (bar_sequence current) (bar_trades current ++ [e])).
Proof.
  intros [Hall Hcl Hcu Hwi Hap Hst Hra] Ht H0.
  apply Forall_app in Hwi as [Hwi Hwc], Hst as [Hst Hsc], Hra as [Hra Hrc].
  apply Forall_cons in Hwc as [Hwc _], Hsc as [Hsc _], Hrc as [Hrc _]. split; simpl.
  - by rewrite app_assoc, Hall.
  - done.
  - intros Hn. by destruct (bar_trades current).
  - apply Forall_app. split; [done|]. apply Forall_cons. split; [|by apply Forall_nil]. simpl.
    apply Forall_app. split; [done|by constructor].
  - clear -Hap. induction closed as [|b closed IH]; simpl in *; [by repeat constructor|].
    apply Sorted_inv in Hap as [Hap Hb]. constructor; [by apply IH|].
    destruct closed; simpl in *; inversion Hb; subst; by constructor.
  - apply Forall_app. split; [done|]. apply Forall_cons. split; [|by apply Forall_nil]. simpl.
    destruct (bar_trades current) as [|x xs] eqn:E; [left; by apply H0|].
    destruct Hsc as [Hsc|Hsc]; [by left|right; done].
  - apply Forall_app. split; [done|]. by apply Forall_cons.
Qed.

(** The trade opens a new bar. *)
Lemma cut_open bt trades closed current e :
  cut bt trades closed current -> bar_start current + window_nanos bt <= te_timestamp e ->
  0 <= te_timestamp e < 2 ^ 63 ->
  cut bt (trades ++ [e]) (match bar_trades current with [] => closed | _ => closed ++ [current] end)
    (mkBar (te_timestamp e) (te_sequence e) [e]).
Proof.
  intros [Hall Hcl Hcu Hwi Hap Hst Hra] Ht Hr.
  assert (Hw : 0 < window_nanos bt) by (by destruct bt).
  assert (Hnew : te_timestamp e < te_timestamp e + window_nanos bt) by lia.
  destruct (bar_trades current) as [|x xs] eqn:E.
  - rewrite (Hcu eq_refl) in *. simpl in *. subst trades. split; simpl; try done.
    + by do 2 (apply Forall_singleton; simpl).
    + by repeat constructor.
    + rewrite Forall_singleton. by right.
    + by rewrite Forall_singleton.
  - split; simpl.
    + rewrite fmap_app, concat_app. simpl. rewrite app_nil_r, E, Hall. done.
    + apply Forall_app. split; [done|]. constructor; [by rewrite E|constructor].
    + done.
    + apply Forall_app. split; [done|]. by do 2 (apply Forall_singleton; simpl).
    + clear -Hap Ht. induction closed as [|b closed IH]; simpl in *.
      * by repeat constructor.
      * apply Sorted_inv in Hap as [Hap Hb]. constructor; [by apply IH|].
        destruct closed; simpl in *; inversion Hb; subst; by constructor.
    + apply Forall_app. split; [done|]. rewrite Forall_singleton. by right.
    + apply Forall_app. split; [done|]. by rewrite Forall_singleton.
Qed.

Lemma update_bucket_ok bt trades active completed e :
  bucket_ok bt trades active completed -> 0 <= te_timestamp e < 2 ^ 63 ->
  bucket_ok bt (trades ++ [e]) (fst (MarketDataEngine.update_bucket 10 active completed bt e))
    (snd (MarketDataEngine.update_bucket 10 active completed bt e)).
Proof.
  intros (closed & current & Hcut & -> & ->) He.
  assert (Hr : 0 <= bar_start current < 2 ^ 63).
  { pose proof (cut_range _ _ _ _ Hcut) as Hr. apply Forall_app in Hr as [_ Hr]. by apply Forall_cons in Hr as [Hr _]. }
  assert (H0 : bar_trades current = [] -> bar_start current = 0).
  { intros E. pose proof (cut_start _ _ _ _ Hcut) as Hs. apply Forall_app in Hs as [_ Hs].
    apply Forall_cons in Hs as [[Hs|Hs] _]; [done|]. by rewrite E in Hs. }
  unfold MarketDataEngine.update_bucket, AggregateTradeWindow.contains_time.
  rewrite bar_window_end, bar_window_has by done.
  destruct (Z.ltb_spec (te_timestamp e) (bar_start current + window_nanos bt)) as [Hlt|Hge].
  - exists closed, (mkBar (bar_start current) (bar_sequence current) (bar_trades current ++ [e])).
    pose proof (cut_extend _ _ _ _ e Hcut Hlt H0) as Hx.
    destruct (bar_trades current) as [|x xs] eqn:E; cbn [negb fst snd];
      (split; [exact Hx|]; split; [|done]).
    + unfold bar_window at 1. rewrite E. simpl. by apply bar_window_new.
    + rewrite <- E. by eapply bar_window_snoc.
  - exists (match bar_trades current with [] => closed | _ => closed ++ [current] end),
      (mkBar (te_timestamp e) (te_sequence e) [e]). cbn [fst snd].
    split; [by apply cut_open|]. split; [by apply bar_window_new|].
    destruct (bar_trades current); [done|]. rewrite fmap_app. cbn [fmap list_fmap].
    rewrite <- (latest_snoc 10) by lia. done.
Qed.

(** ** Runs of the engine *)

Inductive md_op :=
| MdTrade (e : TradeEvent)
| MdDepth (d : DepthSnapshotEvent)
| MdReset (timestamp : Z).

(** A depth event of the engine: full arrays, and ordered sides. *)
Record depth_ok (d : DepthSnapshotEvent) : Prop := mkDepthOk {
  do_bid_array : length (ds_bids d) = 20%nat;
  do_ask_array : length (ds_asks d) = 20%nat;
  do_num_bids : 0 <= ds_num_bids d <= 20;
  do_num_asks : 0 <= ds_num_asks d <= 20;
  do_bids : ordered (fun a b => f64_lt b a) (levels_of (take (Z.to_nat (ds_num_bids d)) (ds_bids d)));
  do_asks : ordered f64_lt (levels_of (take (Z.to_nat (ds_num_asks d)) (ds_asks d)));
}.

Definition md_op_ok (op : md_op) : Prop :=
  match op with MdTrade e => trade_ok e | MdDepth d => depth_ok d | MdReset _ => True end.

Definition md_step (m : MarketDataEngine) (op : md_op) : option MarketDataEngine :=
  match op with
  | MdTrade e => fst <$> MarketDataEngine.consume_trade_event m e
  | MdDepth d => MarketDataEngine.consume_depth_snapshot m d
  | MdReset ts => Some (MarketDataEngine.reset_24h_statistics m ts)
  end.

Definition md_run (m : MarketDataEngine) (ops : list md_op) : option MarketDataEngine :=
  foldl (fun m op => m ← m; md_step m op) (Some m) ops.

Definition trades_of (ops : list md_op) : list TradeEvent :=
  omap (fun op => match op with MdTrade e => Some e | _ => None end) ops.

Record md_ok (trades : list TradeEvent) (m : MarketDataEngine) : Prop := mkMdOk {
  mo_view : book_view (md_level2_snapshot m);
  mo_history : md_max_history m = 10%nat;
  mo_1s : bucket_ok OneSecond trades (md_active_1s_bucket m) (md_completed_1s_trades m);
  mo_5s : bucket_ok FiveSeconds trades (md_active_5s_bucket m) (md_completed_5s_trades m);
  mo_1m : bucket_ok OneMinute trades (md_active_1m_bucket m) (md_completed_1m_trades m);
}.

Lemma book_view_stamp s t q : book_view s -> book_view (MarketDataEngine.stamp_level2 s t q).
Proof. intros (b & a & [] & Hb & Ha). by exists b, a. Qed.

Lemma book_view_trade s e : book_view s -> f64_is_finite (te_price e) = true ->
  exists s' changed, MarketDataEngine.update_level2_from_trade s e = Some (s', changed) /\ book_view s'.
Proof.
  intros (bids & asks & [Vb Va Vnb Vna Vrb Vra] & Hb & Ha) Hp. unfold MarketDataEngine.update_level2_from_trade.
  destruct (te_side e).
  - rewrite Va, Vna. destruct (trade_side_spec f64_lt asks (te_price e) (te_quantity e) Vra) as (c & -> & Hr).
    cbn [mbind option_bind]. eexists _, _. split; [done|]. eexists bids, _. split; [by split|].
    split; [done|]. apply ordered_side_after; [apply _|done|done].
  - rewrite Vb, Vnb.
    destruct (trade_side_spec (fun a b => f64_lt b a) bids (te_price e) (te_quantity e) Vrb) as (c & -> & Hr).
    cbn [mbind option_bind]. eexists _, _. split; [done|]. eexists _, asks. split; [by split|].
    split; [|done]. by apply (ordered_side_after (fun a b => f64_lt b a)).
Qed.

Lemma md_trade_ok trades m e : md_ok trades m -> trade_ok e ->
  exists m', MarketDataEngine.consume_trade_event m e = Some (m', true) /\ md_ok (trades ++ [e]) m'.
Proof.
  intros [Hv Hh H1 H5 Hm] [Hp Ht]. unfold MarketDataEngine.consume_trade_event.
  destruct (book_view_trade (MarketDataEngine.stamp_level2 (md_level2_snapshot m) (te_timestamp e) (te_sequence e)) e)
    as (s' & c & Hs & Hv'); [by apply book_view_stamp|done|]. rewrite Hs. cbn [mbind option_bind].
  eexists. split; [done|]. unfold MarketDataEngine.update_aggregate_trades_from_event. simpl. rewrite Hh.
  pose proof (update_bucket_ok _ _ _ _ _ H1 Ht) as K1. pose proof (update_bucket_ok _ _ _ _ _ H5 Ht) as K5.
  pose proof (update_bucket_ok _ _ _ _ _ Hm Ht) as Km.
  destruct (MarketDataEngine.update_bucket 10 (md_active_1s_bucket m) _ _ _).
  destruct (MarketDataEngine.update_bucket 10 (md_active_5s_bucket m) _ _ _).
  destruct (MarketDataEngine.update_bucket 10 (md_active_1m_bucket m) _ _ _). by split.
Qed.

Lemma ordered_take before n l : ordered before l -> ordered before (take n l).
Proof. apply ordered_sublist. rewrite <- (take_drop n l) at 2. by apply sublist_inserts_r. Qed.

Lemma md_depth_ok trades m d : md_ok trades m -> depth_ok d ->
  exists m', MarketDataEngine.consume_depth_snapshot m d = Some m' /\ md_ok trades m'.
Proof.
  intros [Hv Hh H1 H5 Hm] [Lb La Nb Na Ob Oa]. unfold MarketDataEngine.consume_depth_snapshot.
  assert (Hhead : forall (l : list (f64 * f64)), length l = 20%nat -> exists x, l !! 0%nat = Some x).
  { intros [|x l] Hl; [done|by exists x]. }
  destruct (Hhead _ Lb) as [xb ->], (Hhead _ La) as [xa ->].
  set (bbo1 := if Z.ltb 0 (ds_num_bids d) then _ else _).
  assert (exists b1, bbo1 = Some b1) as [b1 ->] by (unfold bbo1; destruct (Z.ltb _ _); cbn; eauto).
  cbn [mbind option_bind]. set (bbo2 := if Z.ltb 0 (ds_num_asks d) then _ else _).
  assert (exists b2, bbo2 = Some b2) as [b2 ->] by (unfold bbo2; destruct (Z.ltb _ _); cbn; eauto).
  cbn [mbind option_bind].
  assert (V0 : views (Level2Snapshot.clear (md_level2_snapshot m)) [] []) by (split; simpl; done || lia).
  destruct (add_bids_spec _ _ _ [] (take (Z.to_nat (ds_num_bids d)) (ds_bids d)) (drop (Z.to_nat (ds_num_bids d)) (ds_bids d)) V0)
    as (s1 & Hs1 & V1 & _). cbn [app length] in Hs1. rewrite take_drop, length_take, Nat.min_l in Hs1 by lia.
  rewrite Hs1. cbn [mbind option_bind].
  destruct (add_asks_spec _ _ _ (take (Z.to_nat (ds_num_asks d)) (ds_asks d)) (drop (Z.to_nat (ds_num_asks d)) (ds_asks d)) V1)
    as (s2 & Hs2 & V2 & _). rewrite take_drop, length_take, Nat.min_l in Hs2 by lia.
  rewrite Hs2. cbn [mbind option_bind]. eexists. split; [done|]. split; simpl; try done.
  apply book_view_stamp. eexists _, _. split; [exact V2|]. split; by apply ordered_take.
Qed.

Lemma md_new_ok : md_ok [] MarketDataEngine.new.
Proof.
  assert (Hb : forall bt, bucket_ok bt [] (AggregateTradeWindow.new bt 0 0) []).
  { intros bt. exists [], (mkBar 0 0 []). split; [|done]. split; simpl; try done; try (apply Forall_singleton; simpl).
    - done.
    - by repeat constructor.
    - by left.
    - done. }
  split; simpl; [|done|apply Hb|apply Hb|apply Hb].
  exists [], []. split; [split; simpl; done || lia|]. split; split; constructor.
Qed.

Lemma md_run_from ops trades m : md_ok trades m -> Forall md_op_ok ops ->
  exists m', md_run m ops = Some m' /\ md_ok (trades ++ trades_of ops) m'.
Proof.
  intros Hm Hops. revert trades m Hm. induction Hops as [|op ops Hop _ IH]; intros trades m Hm.
  { exists m. by rewrite app_nil_r. }
  unfold md_run. cbn [foldl mbind option_bind]. destruct op as [e|d|ts]; simpl in Hop.
  - destruct (md_trade_ok trades m e Hm Hop) as (m1 & Hs & Hm1). cbn [md_step]. rewrite Hs.
    destruct (IH _ _ Hm1) as (m2 & Hr & Hm2). exists m2. split; [exact Hr|].
    by rewrite <- app_assoc in Hm2.
  - destruct (md_depth_ok trades m d Hm Hop) as (m1 & Hs & Hm1). cbn [md_step]. rewrite Hs. by apply IH.
  - cbn [md_step]. apply IH. by destruct Hm.
Qed.

(** Any sequence of trades at finite prices, depth snapshots and resets runs
    without a panic, and the ten-level view stays a book: at most ten levels a
    side, bids strictly descending and asks strictly ascending, the slots behind
    them empty. *)
Theorem market_view_ordered ops :
  Forall md_op_ok ops -> exists m, md_run MarketDataEngine.new ops = Some m /\ book_view (md_level2_snapshot m).
Proof.
  intros Hops. destruct (md_run_from ops [] _ md_new_ok Hops) as (m & Hr & Hm). exists m. by destruct Hm.
Qed.

(** For each bar length the engine's trades are cut into bars without loss,
    duplication or reordering: a bar starts when its predecessor's window is over
    and holds only trades before its own end; the active bar and the ten latest
    closed ones report exactly the open, high, low, close, volume, turnover and
    count of their trades. *)
Theorem bars_partition_trades ops :
  Forall md_op_ok ops ->
  exists m, md_run MarketDataEngine.new ops = Some m /\
    bucket_ok OneSecond (trades_of ops) (md_active_1s_bucket m) (md_completed_1s_trades m) /\
    bucket_ok FiveSeconds (trades_of ops) (md_active_5s_bucket m) (md_completed_5s_trades m) /\
    bucket_ok OneMinute (trades_of ops) (md_active_1m_bucket m) (md_completed_1m_trades m).
Proof.
  intros Hops. destruct (md_run_from ops [] _ md_new_ok Hops) as (m & Hr & Hm). exists m. by destruct Hm.
Qed.

(** ** Witnesses *)

Definition trade_at (ts price qty : Z) (side : Side) : TradeEvent :=
  TradeEvent_new 1 2 3 ts (i64_as_f64 price) (i64_as_f64 qty) side 4 5.

Definition session : list md_op :=
  [MdTrade (trade_at 5000000000 100 3 Buy); MdTrade (trade_at 5900000000 101 1 Buy);
   MdTrade (trade_at 6100000000 99 2 Sell); MdReset 6200000000; MdTrade (trade_at 6150000000 101 1 Buy)].

Lemma session_ok : Forall md_op_ok session.
Proof.
  unfold session. repeat (apply Forall_cons; split); try (by apply Forall_nil); simpl; try done;
    (split; [by vm_compute|simpl; lia]).
Qed.

Lemma market_view_ordered_witness :
  exists m, md_run MarketDataEngine.new session = Some m /\ book_view (md_level2_snapshot m).
Proof. apply (market_view_ordered session). exact session_ok. Defined.

Lemma bars_partition_trades_witness :
  exists m, md_run MarketDataEngine.new session = Some m /\
    bucket_ok OneSecond (trades_of session) (md_active_1s_bucket m) (md_completed_1s_trades m) /\
    bucket_ok FiveSeconds (trades_of session) (md_active_5s_bucket m) (md_completed_5s_trades m) /\
    bucket_ok OneMinute (trades_of session) (md_active_1m_bucket m) (md_completed_1m_trades m).
Proof. apply (bars_partition_trades session). exact session_ok. Defined.

(** ** What the views do not follow *)

(** When a depth event shows no bids, the ten-level view is emptied but the best
    bid keeps its old price and quantity. *)
Lemma best_bid_goes_stale m d :
  ds_num_bids d = 0 -> ds_num_asks d = 0 ->
  exists m', MarketDataEngine.consume_depth_snapshot m d = Some m' /\
    lv_num_bids (md_level2_snapshot m') = 0 /\
    bbo_best_bid_price (md_bbo_snapshot m') = bbo_best_bid_price (md_bbo_snapshot m).
Proof.
  intros Hb Ha. unfold MarketDataEngine.consume_depth_snapshot. rewrite Hb, Ha. simpl. by eexists.
Qed.

(** The view keeps ten of the twenty levels a depth event carries. *)
Lemma eleventh_level_dropped s price quantity :
  lv_num_bids s = 10 -> Level2Snapshot.add_bid s price quantity = Some (s, false).
Proof. intros Hn. unfold Level2Snapshot.add_bid. by rewrite Hn. Qed.
