(* ===== verification/F64Int.v ===== *)
(** Integers below [2^53] in binary64: addition, subtraction, multiplication,
    comparison, minimum and maximum are those of the integers. *)
From Stdlib Require Import ZArith Lia SpecFloat.
From stdpp Require Import base numbers list.
From S2P Require Import Prelude Fixed Types F64 MarketData F64Grid MarketBook.

#[local] Open Scope Z_scope.

(** ** Exact rounding *)

Lemma pow_pos n : 0 <= n -> 0 < 2 ^ n.
Proof. intros Hn. apply Z.pow_pos_nonneg; lia. Qed.

(** Shifting out zero digits loses nothing. *)
Lemma shr_iter_exact n q m : Zpos m = Zpos q * 2 ^ Zpos n ->
  SpecFloat.iter_pos shr_1 n (Build_shr_record (Zpos m) false false) = Build_shr_record (Zpos q) false false.
Proof.
  rewrite iter_pos_iter. revert m. induction n as [|n IH] using Pos.peano_ind; intros m Hm.
  - simpl in Hm. assert (m = xO q) as -> by lia. done.
  - rewrite Pos2Z.inj_succ, Z.pow_succ_r in Hm by lia. rewrite Pos.iter_succ_r.
    destruct m as [m|m|]; [lia| |lia]. cbn [shr_1 orb]. apply IH. lia.
Qed.

Lemma round_aux_exact s m e q n :
  0 <= n -> Zpos m = Zpos q * 2 ^ n -> Zpos (digits2_pos q) = 53 -> -1021 <= 53 + n + e -> e + n <= 971 ->
  binary_round_aux 53 1024 s (Zpos m) e loc_Exact = S754_finite s q (e + n).
Proof.
  intros Hn Hm Hq He Hmax. pose proof (digits_shift q m n Hn Hm) as Hd.
  assert (Hs : shr_fexp 53 1024 (Zpos m) e loc_Exact = (Build_shr_record (Zpos q) false false, e + n)).
  { unfold shr_fexp. change (Zdigits2 (Zpos m)) with (Zpos (digits2_pos m)). rewrite fexp_normal by lia.
    replace (Zpos (digits2_pos m) + e - 53 - e) with n by lia. cbn [shr_record_of_loc].
    destruct n as [|n|n]; [| |lia]; unfold shr.
    - rewrite Z.add_0_r. do 2 f_equal. lia.
    - by rewrite (shr_iter_exact n q m Hm). }
  unfold binary_round_aux. rewrite Hs. cbn [shr_m loc_of_shr_record round_nearest_even].
  rewrite shr_fexp_none by lia. cbn [shr_m]. change (1024 - 53) with 971.
  by destruct (Z.leb_spec (e + n) 971); [|lia].
Qed.

(** Rounding [m * 2^e] when it is [q * 2^f] with a full mantissa [q]. *)
Lemma binary_round_exact s m e q f :
  Zpos m * 2 ^ Z.max 0 (e - f) = Zpos q * 2 ^ Z.max 0 (f - e) -> Zpos (digits2_pos q) = 53 ->
  -1021 <= 53 + f -> f <= 971 -> binary_round 53 1024 s m e = S754_finite s q f.
Proof.
  intros Heq Hq Hf Hmax.
  assert (Hd : Zpos (digits2_pos m) + e = 53 + f).
  { destruct (Z.le_ge_cases e f).
    - rewrite Z.max_l, Z.max_r in Heq by lia. pose proof (digits_shift q m (f - e)). lia.
    - rewrite Z.max_r, Z.max_l in Heq by lia. pose proof (digits_shift m q (e - f)). lia. }
  destruct (binary_round_spec s m e ltac:(lia)) as (m1 & e1 & -> & Hm1 & He1).
  replace f with (e1 + (f - e1)) by lia. apply round_aux_exact; [lia| |done|lia|lia].
  destruct (Z.le_ge_cases e f).
  - rewrite Z.max_l, Z.max_r in Heq by lia. assert (e1 = e) as -> by lia. rewrite Hm1, Z.sub_diag. lia.
  - rewrite Z.max_r, Z.max_l in Heq by lia. assert (e1 = f) as -> by lia. rewrite Hm1, Z.sub_diag. lia.
Qed.

(** ** Integers *)

(** The float of a non-zero integer: 53 digits, and an exponent that makes up
    for the digits added. *)
Lemma int_float z : z <> 0 -> Z.abs z < 2 ^ 53 ->
  exists q f, i64_as_f64 z = S754_finite (Z.ltb z 0) q f /\ Zpos q = Z.abs z * 2 ^ (- f) /\
    Zpos (digits2_pos q) = 53 /\ -52 <= f <= 0.
Proof.
  intros Hz Hb.
  assert (Hm : forall s m, Zpos m < 2 ^ 53 -> exists q f, binary_round 53 1024 s m 0 = S754_finite s q f /\
            Zpos q = Zpos m * 2 ^ (- f) /\ Zpos (digits2_pos q) = 53 /\ -52 <= f <= 0).
  { intros s m Hm. destruct (binary_round_spec s m 0 ltac:(lia)) as (m1 & e1 & -> & Hm1 & He1).
    pose proof (digits_shift m m1 (0 - e1) ltac:(lia) Hm1) as Hd.
    assert (Hdm : Zpos (digits2_pos m) <= 53).
    { pose proof (digits_bounds m) as [Hl _]. destruct (Z.le_gt_cases (Zpos (digits2_pos m)) 53); [done|].
      assert (2 ^ 53 <= 2 ^ (Zpos (digits2_pos m) - 1)) by (apply Z.pow_le_mono_r; lia). lia. }
    destruct (round_aux_spec s m1 e1 ltac:(lia)) as (m2 & e2 & -> & H).
    rewrite decide_True in H by lia. destruct H as [-> ->]. destruct (Z.leb_spec0 e1 971); [|lia].
    exists m1, e1. repeat split; try done; lia. }
  unfold i64_as_f64. destruct z as [|m|m]; [done| |]; cbn [binary_normalize Z.abs] in *; by apply Hm.
Qed.

(** Normalising an integer written with [n] extra binary zeros. *)
Lemma normalize_int z n : 0 <= n -> Z.abs z < 2 ^ 53 ->
  binary_normalize 53 1024 (z * 2 ^ n) (- n) false = i64_as_f64 z.
Proof.
  intros Hn Hb. destruct (decide (z = 0)) as [->|Hz]; [done|].
  destruct (int_float z Hz Hb) as (q & f & -> & Hq & Hd & Hf). pose proof (pow_pos n Hn) as Hp.
  assert (Hround : forall s m, Zpos m = Z.abs z * 2 ^ n -> binary_round 53 1024 s m (- n) = S754_finite s q f).
  { intros s m Hm. apply binary_round_exact; [|done|lia|lia].
    rewrite Hm, Hq, <- !Z.mul_assoc, <- !Z.pow_add_r by lia. do 2 f_equal. lia. }
  destruct (z * 2 ^ n) as [|m|m] eqn:E; [nia| |]; cbn [binary_normalize];
    rewrite Hround by nia; f_equal; symmetry; [apply Z.ltb_ge|apply Z.ltb_lt]; nia.
Qed.

Lemma signed_mantissa z q f n : Zpos q = Z.abs z * 2 ^ (- f) -> f <= 0 -> 0 <= n -> 0 <= f + n ->
  cond_Zopp (Z.ltb z 0) (Zpos q * 2 ^ (f + n)) = z * 2 ^ n.
Proof.
  intros Hq Hf Hn Hfn. rewrite Hq, <- Z.mul_assoc, <- Z.pow_add_r by lia.
  replace (- f + (f + n)) with n by lia.
  destruct (Z.ltb_spec z 0); cbn [cond_Zopp]; lia.
Qed.

Lemma finite_add s1 m1 e1 s2 m2 e2 :
  f64_add (S754_finite s1 m1 e1) (S754_finite s2 m2 e2) =
  binary_normalize 53 1024 (cond_Zopp s1 (Zpos m1 * 2 ^ (e1 - Z.min e1 e2))
                            + cond_Zopp s2 (Zpos m2 * 2 ^ (e2 - Z.min e1 e2))) (Z.min e1 e2) false.
Proof.
  unfold f64_add, SFadd.
  rewrite (proj1 (shl_align_spec m1 e1 (Z.min e1 e2))), (proj1 (shl_align_spec m2 e2 (Z.min e1 e2))).
  by rewrite !Z.max_r by lia.
Qed.

Lemma f64_add_int a b : Z.abs a < 2 ^ 53 -> Z.abs b < 2 ^ 53 -> Z.abs (a + b) < 2 ^ 53 ->
  f64_add (i64_as_f64 a) (i64_as_f64 b) = i64_as_f64 (a + b).
Proof.
  intros Ha Hb Hab. destruct (decide (a = 0)) as [->|Ha0].
  { rewrite Z.add_0_l. destruct (decide (b = 0)) as [->|Hb0]; [done|].
    by destruct (int_float b Hb0 Hb) as (q & f & -> & _). }
  destruct (int_float a Ha0 Ha) as (qa & fa & Ea & Hqa & _ & Hfa). rewrite Ea.
  destruct (decide (b = 0)) as [->|Hb0]; [by rewrite Z.add_0_r, Ea|].
  destruct (int_float b Hb0 Hb) as (qb & fb & -> & Hqb & _ & Hfb).
  rewrite finite_add. set (ez := Z.min fa fb).
  replace (fa - ez) with (fa + - ez) by lia. replace (fb - ez) with (fb + - ez) by lia.
  rewrite !signed_mantissa by (done || lia). rewrite <- Z.mul_add_distr_r.
  replace ez with (- - ez) at 2 by lia. apply normalize_int; lia.
Qed.

Lemma f64_sub_int a b : Z.abs a < 2 ^ 53 -> Z.abs b < 2 ^ 53 -> Z.abs (a - b) < 2 ^ 53 ->
  f64_sub (i64_as_f64 a) (i64_as_f64 b) = i64_as_f64 (a - b).
Proof.
  intros Ha Hb Hab. destruct (decide (a = 0)) as [->|Ha0].
  { destruct (decide (b = 0)) as [->|Hb0]; [done|]. rewrite Z.sub_0_l.
    destruct (int_float b Hb0 Hb) as (q & f & -> & Hq & Hd & Hf).
    destruct (int_float (- b) ltac:(lia) ltac:(lia)) as (q' & f' & -> & Hq' & Hd' & Hf').
    rewrite Z.abs_opp in Hq'. simpl. destruct (same_value q q' f f' Hd Hd') as [-> ->].
    - rewrite Hq, Hq', <- !Z.mul_assoc, <- !Z.pow_add_r by lia. do 2 f_equal. lia.
    - f_equal. destruct (Z.ltb_spec b 0), (Z.ltb_spec (- b) 0); simpl; try done; lia. }
  destruct (int_float a Ha0 Ha) as (qa & fa & Ea & Hqa & _ & Hfa). rewrite Ea.
  destruct (decide (b = 0)) as [->|Hb0]; [by rewrite Z.sub_0_r, Ea|].
  destruct (int_float b Hb0 Hb) as (qb & fb & -> & Hqb & _ & Hfb).
  rewrite finite_sub. set (ez := Z.min fa fb).
  replace (fa - ez) with (fa + - ez) by lia. replace (fb - ez) with (fb + - ez) by lia.
  rewrite !signed_mantissa by (done || lia). rewrite <- Z.mul_sub_distr_r.
  replace ez with (- - ez) at 2 by lia. apply normalize_int; lia.
Qed.

Lemma f64_mul_int a b : 0 <= a < 2 ^ 53 -> 0 <= b < 2 ^ 53 -> a * b < 2 ^ 53 ->
  f64_mul (i64_as_f64 a) (i64_as_f64 b) = i64_as_f64 (a * b).
Proof.
  intros Ha Hb Hab. destruct (decide (a = 0)) as [->|Ha0].
  { rewrite Z.mul_0_l. destruct (decide (b = 0)) as [->|Hb0]; [done|].
    destruct (int_float b Hb0 ltac:(lia)) as (q & f & -> & _). by destruct (Z.ltb_spec b 0); [lia|]. }
  destruct (int_float a Ha0 ltac:(lia)) as (qa & fa & -> & Hqa & Hda & Hfa).
  destruct (decide (b = 0)) as [->|Hb0].
  { rewrite Z.mul_0_r. by destruct (Z.ltb_spec a 0); [lia|]. }
  destruct (int_float b Hb0 ltac:(lia)) as (qb & fb & -> & Hqb & Hdb & Hfb).
  destruct (int_float (a * b) ltac:(nia) ltac:(nia)) as (q & f & -> & Hq & Hd & Hf).
  unfold f64_mul, SFmul. rewrite Z.abs_mul in Hq.
  assert (Hprod : Zpos (qa * qb) = Z.abs a * Z.abs b * 2 ^ (- (fa + fb))).
  { rewrite Pos2Z.inj_mul, Hqa, Hqb. replace (- (fa + fb)) with (- fa + - fb) by lia.
    rewrite Z.pow_add_r by lia. lia. }
  assert (Hfe : fa + fb <= f).
  { pose proof (digits_bounds qa) as [La _]. pose proof (digits_bounds qb) as [Lb _].
    pose proof (digits_bounds q) as [_ U]. rewrite Hda in La. rewrite Hdb in Lb. rewrite Hd in U.
    destruct (Z.le_gt_cases (fa + fb) f) as [|Hgt]; [done|exfalso].
    assert (Hq2 : Zpos q = Zpos (qa * qb) * 2 ^ (fa + fb - f)).
    { rewrite Hq, Hprod, <- (Z.mul_assoc (_ * _)), <- Z.pow_add_r by lia. do 2 f_equal. lia. }
    pose proof (pow_pos (fa + fb - f) ltac:(lia)). nia. }
  replace f with (fa + fb + (f - (fa + fb))) by lia.
  replace (xorb (Z.ltb a 0) (Z.ltb b 0)) with (Z.ltb (a * b) 0).
  - apply round_aux_exact; [lia| |done|lia|lia].
    rewrite Hprod, Hq, <- (Z.mul_assoc (_ * _)), <- Z.pow_add_r by lia. do 2 f_equal. lia.
  - destruct (Z.ltb_spec a 0), (Z.ltb_spec b 0), (Z.ltb_spec (a * b) 0); simpl; try done; nia.
Qed.

(** ** Order *)

Lemma magnitude_lt x y q q' f f' : 0 < x -> 0 < y -> f <= 0 -> f' <= 0 ->
  Zpos q = x * 2 ^ (- f) -> Zpos q' = y * 2 ^ (- f') ->
  Zpos (digits2_pos q) = 53 -> Zpos (digits2_pos q') = 53 -> f < f' -> x < y.
Proof.
  intros Hx Hy Hf Hf' Hq Hq' Hd Hd' Hlt. pose proof (digits_bounds q) as [_ U]. pose proof (digits_bounds q') as [L _].
  rewrite Hd in U. rewrite Hd' in L. rewrite Hq in U. rewrite Hq' in L.
  replace (- f) with (- f' + (f' - f - 1) + 1) in U by lia. rewrite !Z.pow_add_r in U by lia.
  pose proof (pow_pos (- f') ltac:(lia)). pose proof (pow_pos (f' - f - 1) ltac:(lia)).
  change (2 ^ 53) with (2 ^ 52 * 2) in U. change (2 ^ 1) with 2 in U.
  set (P := 2 ^ (- f')) in *. set (R := 2 ^ (f' - f - 1)) in *.
  assert (x * P * 1 <= x * P * R) by (apply Z.mul_le_mono_nonneg_l; nia).
  apply (Z.mul_lt_mono_pos_r P); [done|]. change (53 - 1) with 52 in L. lia.
Qed.

Lemma int_rank_lt a b : Z.abs a < 2 ^ 53 -> Z.abs b < 2 ^ 53 -> a < b ->
  rank_lt (rank (i64_as_f64 a)) (rank (i64_as_f64 b)).
Proof.
  intros Ha Hb Hab.
  assert (Hz : rank (i64_as_f64 0) = (0, 0, 0)) by done.
  destruct (decide (a = 0)) as [->|Ha0]; [|destruct (decide (b = 0)) as [->|Hb0]].
  - rewrite Hz. destruct (int_float b ltac:(lia) Hb) as (q & f & -> & _). destruct (Z.ltb_spec b 0); simpl; lia.
  - rewrite Hz. destruct (int_float a ltac:(lia) Ha) as (q & f & -> & _). destruct (Z.ltb_spec a 0); simpl; lia.
  - destruct (int_float a Ha0 Ha) as (q & f & -> & Hq & Hd & Hf).
    destruct (int_float b Hb0 Hb) as (q' & f' & -> & Hq' & Hd' & Hf').
    destruct (Z.ltb_spec a 0), (Z.ltb_spec b 0); simpl; try lia; right; (split; [done|]).
    + rewrite Z.abs_neq in * by lia. destruct (Z.lt_trichotomy f f') as [Hc|[->|Hc]]; [|right|left; lia].
      * pose proof (magnitude_lt (- a) (- b) q q' f f'). lia.
      * pose proof (pow_pos (- f') ltac:(lia)). split; [lia|]. nia.
    + rewrite Z.abs_eq in * by lia. destruct (Z.lt_trichotomy f f') as [Hc|[->|Hc]]; [left; lia|right|].
      * pose proof (pow_pos (- f') ltac:(lia)). split; [lia|]. nia.
      * pose proof (magnitude_lt b a q' q f' f). lia.
Qed.

Lemma int_not_nan z : Z.abs z < 2 ^ 53 -> i64_as_f64 z <> S754_nan.
Proof.
  intros Hz. destruct (decide (z = 0)) as [->|Hz0]; [done|].
  by destruct (int_float z Hz0 Hz) as (q & f & -> & _).
Qed.

Lemma f64_lt_int a b : Z.abs a < 2 ^ 53 -> Z.abs b < 2 ^ 53 -> f64_lt (i64_as_f64 a) (i64_as_f64 b) = Z.ltb a b.
Proof.
  intros Ha Hb. apply eq_iff_eq_true. rewrite Z.ltb_lt, f64_lt_rank by (by apply int_not_nan).
  split; [|by apply int_rank_lt]. intros Hr. destruct (Z.lt_ge_cases a b) as [|Hge]; [done|exfalso].
  destruct (decide (a = b)) as [->|].
  - destruct (rank (i64_as_f64 b)) as [[? ?] ?]. simpl in Hr. lia.
  - pose proof (int_rank_lt b a Hb Ha ltac:(lia)) as Hr'.
    destruct (rank (i64_as_f64 a)) as [[? ?] ?], (rank (i64_as_f64 b)) as [[? ?] ?]. simpl in *. lia.
Qed.

Lemma f64_le_int a b : Z.abs a < 2 ^ 53 -> Z.abs b < 2 ^ 53 -> f64_le (i64_as_f64 a) (i64_as_f64 b) = Z.leb a b.
Proof.
  intros Ha Hb.
  assert (Hle : forall x y, x <> S754_nan -> y <> S754_nan -> f64_le x y = negb (f64_lt y x)).
  { intros x y Hx Hy. unfold f64_le, f64_lt, SFleb, SFltb.
    destruct x as [sx|[]| |[] mx ex], y as [sy|[]| |[] my ey]; try done; cbn [SFcompare].
    all: rewrite (Z.compare_antisym ex ey); destruct (Z.compare ex ey); try done; cbn [CompOpp].
    all: change (Pos.compare_cont Eq my mx) with (Pos.compare my mx);
         change (Pos.compare_cont Eq mx my) with (Pos.compare mx my);
         rewrite (Pos.compare_antisym mx my); by destruct (Pos.compare mx my). }
  rewrite Hle by (by apply int_not_nan). rewrite f64_lt_int by done.
  destruct (Z.ltb_spec b a), (Z.leb_spec a b); simpl; try done; lia.
Qed.

Lemma f64_min_int a b : Z.abs a < 2 ^ 53 -> Z.abs b < 2 ^ 53 ->
  f64_min (i64_as_f64 a) (i64_as_f64 b) = i64_as_f64 (Z.min a b).
Proof.
  intros Ha Hb. pose proof (int_not_nan a Ha) as Na. pose proof (int_not_nan b Hb) as Nb.
  assert (f64_min (i64_as_f64 a) (i64_as_f64 b)
          = if f64_lt (i64_as_f64 b) (i64_as_f64 a) then i64_as_f64 b else i64_as_f64 a) as ->.
  { unfold f64_min. destruct (i64_as_f64 a), (i64_as_f64 b); done. }
  rewrite f64_lt_int by done. destruct (Z.ltb_spec b a); f_equal; lia.
Qed.

Lemma f64_max_int a b : Z.abs a < 2 ^ 53 -> Z.abs b < 2 ^ 53 ->
  f64_max (i64_as_f64 a) (i64_as_f64 b) = i64_as_f64 (Z.max a b).
Proof.
  intros Ha Hb. pose proof (int_not_nan a Ha) as Na. pose proof (int_not_nan b Hb) as Nb.
  assert (f64_max (i64_as_f64 a) (i64_as_f64 b)
          = if f64_lt (i64_as_f64 a) (i64_as_f64 b) then i64_as_f64 b else i64_as_f64 a) as ->.
  { unfold f64_max. destruct (i64_as_f64 a), (i64_as_f64 b); done. }
  rewrite f64_lt_int by done. destruct (Z.ltb_spec a b); f_equal; lia.
Qed.
