(* ===== verification/RateLimit.v ===== *)
(** Token buckets ([src/src/desk/rate_limit.rs]): the per-client limiter and the
    per-user limiter of the order-entry paths.  Clock readings, in seconds, are
    arguments: one for a bucket that has to be created, one for the refill. *)
From Stdlib Require Import ZArith Lia SpecFloat String.
From stdpp Require Import base numbers list gmap strings.
From S2P Require Import Prelude Fixed Types F64 F64Grid F64Int.

#[local] Open Scope Z_scope.

Record RateLimitPolicy := mkPolicy { rp_requests_per_second : Z; rp_burst_capacity : Z }.

Definition default_trading : RateLimitPolicy := mkPolicy 100 200.
Definition strict : RateLimitPolicy := mkPolicy 10 20.
Definition lenient : RateLimitPolicy := mkPolicy 1000 2000.

Record TokenBucket := mkBucket { tk_tokens : f64; tk_last_update : Z; tk_policy : RateLimitPolicy }.

Module TokenBucket.
Definition new (policy : RateLimitPolicy) (now : Z) : TokenBucket :=
  mkBucket (i64_as_f64 (rp_burst_capacity policy)) now policy.

(** The subtraction of [u64]s wraps. *)
Definition refill (b : TokenBucket) (now : Z) : TokenBucket :=
  let elapsed := i64_as_f64 (u64_sub now (tk_last_update b)) in
  let tokens_to_add := f64_mul elapsed (i64_as_f64 (rp_requests_per_second (tk_policy b))) in
  mkBucket (f64_min (f64_add (tk_tokens b) tokens_to_add) (i64_as_f64 (rp_burst_capacity (tk_policy b))))
    now (tk_policy b).

Definition try_consume (b : TokenBucket) (tokens now : Z) : TokenBucket * bool :=
  let b := refill b now in
  if f64_le (i64_as_f64 tokens) (tk_tokens b)
  then (mkBucket (f64_sub (tk_tokens b) (i64_as_f64 tokens)) (tk_last_update b) (tk_policy b), true)
  else (b, false).
End TokenBucket.

Record RateLimiter := mkLimiter {
  rl_buckets : gmap string TokenBucket;
  rl_default_policy : RateLimitPolicy;
  rl_custom_policies : gmap string RateLimitPolicy;
}.

(** The errors: the limits quoted in the message. *)
Inductive LimitError := BurstExceeded (rps burst : Z) | RateExceeded (rps : Z).

Module RateLimiter.
Definition new (default_policy : RateLimitPolicy) : RateLimiter := mkLimiter ∅ default_policy ∅.

Definition set_policy (l : RateLimiter) (client_id : string) (policy : RateLimitPolicy) : RateLimiter :=
  mkLimiter (delete client_id (rl_buckets l)) (rl_default_policy l)
    (<[client_id := policy]> (rl_custom_policies l)).

Definition policy_of (l : RateLimiter) (client_id : string) : RateLimitPolicy :=
  default (rl_default_policy l) (rl_custom_policies l !! client_id).

(** [buckets.entry(client_id).or_insert_with(..)] *)
Definition bucket_of (l : RateLimiter) (client_id : string) (created : Z) : TokenBucket :=
  default (TokenBucket.new (policy_of l client_id) created) (rl_buckets l !! client_id).

Definition with_bucket (l : RateLimiter) (client_id : string) (b : TokenBucket) : RateLimiter :=
  mkLimiter (<[client_id := b]> (rl_buckets l)) (rl_default_policy l) (rl_custom_policies l).

Definition check_limit (l : RateLimiter) (client_id : string) (created now : Z)
  : RateLimiter * result unit LimitError :=
  let b := TokenBucket.refill (bucket_of l client_id created) now in
  (with_bucket l client_id b,
   if f64_le (f64_lit 1 1) (tk_tokens b) then Ok ()
   else let policy := policy_of l client_id in
        Err (BurstExceeded (rp_requests_per_second policy) (rp_burst_capacity policy))).

Definition consume (l : RateLimiter) (client_id : string) (tokens created now : Z)
  : RateLimiter * result unit LimitError :=
  let '(b, ok) := TokenBucket.try_consume (bucket_of l client_id created) tokens now in
  (with_bucket l client_id b,
   if ok then Ok () else Err (RateExceeded (rp_requests_per_second (policy_of l client_id)))).

Definition get_tokens (l : RateLimiter) (client_id : string) (created now : Z) : RateLimiter * f64 :=
  let b := TokenBucket.refill (bucket_of l client_id created) now in
  (with_bucket l client_id b, tk_tokens b).

Definition reset (l : RateLimiter) (client_id : string) : RateLimiter :=
  mkLimiter (delete client_id (rl_buckets l)) (rl_default_policy l) (rl_custom_policies l).

Definition reset_all (l : RateLimiter) : RateLimiter :=
  mkLimiter ∅ (rl_default_policy l) (rl_custom_policies l).
End RateLimiter.

Inductive OpClass := Place | Cancel.
#[global] Instance OpClass_eq_dec : EqDecision OpClass.
Proof. solve_decision. Defined.

(** [op as u8] *)
Definition op_code (op : OpClass) : Z := match op with Place => 0 | Cancel => 1 end.

Record SharedRateLimiter := mkShared {
  sr_place : option RateLimitPolicy;
  sr_cancel : option RateLimitPolicy;
  sr_buckets : gmap (Z * Z) TokenBucket;
}.

Module SharedRateLimiter.
Definition new (place cancel : option RateLimitPolicy) : SharedRateLimiter := mkShared place cancel ∅.

(** [from_env], over the environment's variables as parsed [u32]s; the default
    burst [rps * 2] wraps. *)
Definition policy_from (rps burst : option Z) : option RateLimitPolicy :=
  rps ← rps;
  if Z.eqb rps 0 then None
  else Some (mkPolicy rps (Z.max (default ((rps * 2) mod 2 ^ 32) burst) 1)).

Definition from_env (env_u32 : string -> option Z) : SharedRateLimiter :=
  new (policy_from (env_u32 "WS_RL_PLACE_RPS"%string) (env_u32 "WS_RL_PLACE_BURST"%string))
    (policy_from (env_u32 "WS_RL_CANCEL_RPS"%string) (env_u32 "WS_RL_CANCEL_BURST"%string)).

Definition is_enabled (l : SharedRateLimiter) : bool :=
  bool_decide (is_Some (sr_place l)) || bool_decide (is_Some (sr_cancel l)).

Definition policy_of (l : SharedRateLimiter) (op : OpClass) : option RateLimitPolicy :=
  match op with Place => sr_place l | Cancel => sr_cancel l end.

Definition try_consume (l : SharedRateLimiter) (user_id : Z) (op : OpClass) (created now : Z)
  : SharedRateLimiter * result unit OpClass :=
  match policy_of l op with
  | None => (l, Ok ())
  | Some policy =>
      let key := (user_id, op_code op) in
      let b := default (TokenBucket.new policy created) (sr_buckets l !! key) in
      let '(b, ok) := TokenBucket.try_consume b 1 now in
      (mkShared (sr_place l) (sr_cancel l) (<[key := b]> (sr_buckets l)), if ok then Ok () else Err op)
  end.

(** [snapshot], at one clock reading per bucket, in the map's order. *)
Definition snapshot (l : SharedRateLimiter) (now : Z * Z -> Z)
  : SharedRateLimiter * list (Z * Z * f64 * Z) :=
  let buckets := map_imap (fun key b => Some (TokenBucket.refill b (now key))) (sr_buckets l) in
  (mkShared (sr_place l) (sr_cancel l) buckets,
   (fun '((user_id, op), b) => (user_id, op, tk_tokens b, tk_last_update b)) <$> map_to_list buckets).

(** [f64::clamp]: NaN stays NaN. *)
Definition f64_clamp (x lo hi : f64) : f64 :=
  if f64_lt x lo then lo else if f64_lt hi x then hi else x.

Definition restore_one (l : SharedRateLimiter) (entry : Z * Z * f64 * Z) : SharedRateLimiter :=
  let '(user_id, op, tokens, last_update) := entry in
  let policy := if Z.eqb op 0 then sr_place l else if Z.eqb op 1 then sr_cancel l else None in
  match policy with
  | None => l
  | Some policy =>
      let b := mkBucket (f64_clamp tokens f64_zero (i64_as_f64 (rp_burst_capacity policy))) last_update policy in
      mkShared (sr_place l) (sr_cancel l) (<[(user_id, op) := b]> (sr_buckets l))
  end.

Definition restore (l : SharedRateLimiter) (entries : list (Z * Z * f64 * Z)) : SharedRateLimiter :=
  foldl restore_one l entries.
End SharedRateLimiter.

(** ** One bucket *)

Definition policy_ok (p : RateLimitPolicy) : Prop :=
  0 < rp_requests_per_second p < 2 ^ 32 /\ 0 < rp_burst_capacity p < 2 ^ 32.

(** [n] whole tokens at [last_update]. *)
Definition holds (p : RateLimitPolicy) (b : TokenBucket) (n last_update : Z) : Prop :=
  b = mkBucket (i64_as_f64 n) last_update p /\ 0 <= n <= rp_burst_capacity p.

(** The clock stays in a range in which the refill is exact. *)
Definition clock_range (p : RateLimitPolicy) (t0 t1 : Z) : Prop :=
  0 <= t0 /\ t1 < two64 /\ (t1 - t0) * rp_requests_per_second p + rp_burst_capacity p < 2 ^ 53.

Lemma refill_spec p b n last now t0 t1 : policy_ok p -> clock_range p t0 t1 -> t0 <= last -> last <= now <= t1 ->
  holds p b n last ->
  holds p (TokenBucket.refill b now) (Z.min (n + (now - last) * rp_requests_per_second p) (rp_burst_capacity p)) now.
Proof.
  intros [Hr Hb] (H0 & H1 & Hx) Hl Hn [-> Hh]. unfold TokenBucket.refill. cbn [tk_tokens tk_last_update tk_policy].
  rewrite u64_sub_id by (machine_unfold; lia).
  assert (Hp : 0 <= (now - last) * rp_requests_per_second p <= (t1 - t0) * rp_requests_per_second p) by nia.
  assert (now - last < 2 ^ 53) by nia.
  rewrite f64_mul_int by lia. rewrite f64_add_int by lia. rewrite f64_min_int by lia.
  split; [done|lia].
Qed.

Lemma try_consume_spec p b n last now k t0 t1 : policy_ok p -> clock_range p t0 t1 -> t0 <= last -> last <= now <= t1 ->
  0 <= k < 2 ^ 32 -> holds p b n last ->
  let m := Z.min (n + (now - last) * rp_requests_per_second p) (rp_burst_capacity p) in
  let '(b', ok) := TokenBucket.try_consume b k now in
  ok = Z.leb k m /\ holds p b' (if ok then m - k else m) now.
Proof.
  intros Hp Hc Hl Hn Hk Hh. cbv zeta. unfold TokenBucket.try_consume.
  pose proof (refill_spec p b n last now t0 t1 Hp Hc Hl Hn Hh) as [-> Hm]. destruct Hp as [Hr Hb].
  cbn [tk_tokens tk_last_update tk_policy]. rewrite f64_le_int by lia.
  destruct (Z.leb_spec k (Z.min (n + (now - last) * rp_requests_per_second p) (rp_burst_capacity p))).
  - rewrite f64_sub_int by lia. split; [done|]. split; [done|lia].
  - split; [done|]. split; [done|lia].
Qed.

(** ** A run of requests *)

Record request := mkRequest { rq_user : Z; rq_op : OpClass; rq_created : Z; rq_now : Z }.

Definition rq_key (r : request) : Z * Z := (rq_user r, op_code (rq_op r)).

Definition serve_one (l : SharedRateLimiter) (r : request) : SharedRateLimiter * bool :=
  let '(l, res) := SharedRateLimiter.try_consume l (rq_user r) (rq_op r) (rq_created r) (rq_now r) in
  (l, match res with Ok _ => true | Err _ => false end).

(** The limiter after a run, and the requests that were let through. *)
Fixpoint serve (l : SharedRateLimiter) (reqs : list request) : SharedRateLimiter * list request :=
  match reqs with
  | [] => (l, [])
  | r :: reqs =>
      let '(l, ok) := serve_one l r in
      let '(l, served) := serve l reqs in
      (l, if ok then r :: served else served)
  end.

(** Requests in the order of a clock that does not run backwards. *)
Fixpoint timeline (t : Z) (reqs : list request) : Prop :=
  match reqs with
  | [] => True
  | r :: reqs => t <= rq_created r /\ rq_created r <= rq_now r /\ timeline (rq_now r) reqs
  end.

Definition finish (t : Z) (reqs : list request) : Z := default t (rq_now <$> last reqs).

(** The requests of one user in one class. *)
Definition of_key (key : Z * Z) (reqs : list request) : list request := filter (fun r => rq_key r = key) reqs.

Lemma rq_key_op r user op : rq_key r = (user, op_code op) <-> rq_user r = user /\ rq_op r = op.
Proof.
  unfold rq_key. split; [|by intros [-> ->]]. intros [= Hu Ho]. split; [done|]. by destruct (rq_op r), op.
Qed.

Lemma finish_cons t r reqs : finish t (r :: reqs) = finish (rq_now r) reqs.
Proof. unfold finish. destruct reqs as [|r' reqs]; [done|]. rewrite last_cons_cons. destruct (last (r' :: reqs)) eqn:E; [done|]. by apply last_None in E. Qed.

Lemma timeline_finish t reqs : timeline t reqs -> t <= finish t reqs.
Proof.
  revert t. induction reqs as [|r reqs IH]; intros t Ht; [done|]. rewrite finish_cons.
  destruct Ht as (H1 & H2 & Ht). apply IH in Ht. lia.
Qed.

Section one_key.
Context (p : RateLimitPolicy) (user : Z) (op : OpClass) (t0 t1 : Z).
Context (Hp : policy_ok p) (Hc : clock_range p t0 t1).

(** The key's bucket after [g] of its requests were let through, the last of
    which was handled at [last_now]. *)
Definition bucket_ok (l : SharedRateLimiter) (t g : Z) (last_now : option Z) : Prop :=
  SharedRateLimiter.policy_of l op = Some p /\
  match sr_buckets l !! (user, op_code op) with
  | None => g = 0 /\ last_now = None
  | Some b => exists n last, holds p b n last /\ t0 <= last <= t /\ last_now = Some last /\
                g + n <= rp_burst_capacity p + (last - t0) * rp_requests_per_second p
  end.

Lemma serve_one_ok l r t g last_now :
  bucket_ok l t g last_now -> t0 <= t -> t <= rq_created r -> rq_created r <= rq_now r <= t1 ->
  let '(l', ok) := serve_one l r in
  if decide (rq_key r = (user, op_code op)) then
    bucket_ok l' (rq_now r) (if ok then g + 1 else g) (Some (rq_now r)) /\
    (match last_now with None => True | Some last => last + 1 <= rq_now r end -> ok = true)
  else bucket_ok l' (rq_now r) g last_now.
Proof.
  intros [Hpol Hb] H0 Ht Hn. unfold serve_one, SharedRateLimiter.try_consume.
  case_decide as Hk.
  - apply rq_key_op in Hk as [-> ->]. rewrite Hpol.
    assert (exists n last, holds p (default (TokenBucket.new p (rq_created r)) (sr_buckets l !! (user, op_code op))) n last /\
      t0 <= last /\ last <= rq_created r /\ g + n <= rp_burst_capacity p + (last - t0) * rp_requests_per_second p /\
      (n = rp_burst_capacity p \/ last_now = Some last)) as (n & last & Hh & Hl0 & Hl & Hg & Hlast).
    { destruct (sr_buckets l !! (user, op_code op)) as [b|]; cbn [default].
      - destruct Hb as (n & last & Hh & Hl & Hln & Hg). exists n, last. repeat split; try apply Hh; try lia. by right.
      - destruct Hb as [-> ->]. exists (rp_burst_capacity p), (rq_created r). destruct Hp as [Hr Hbu].
        split; [split; [done|lia]|]. split; [lia|]. split; [lia|]. split; [nia|by left]. }
    pose proof (try_consume_spec p _ n last (rq_now r) 1 t0 t1 Hp Hc Hl0 ltac:(lia) ltac:(lia) Hh) as Hs.
    cbv zeta in Hs. destruct (TokenBucket.try_consume _ 1 (rq_now r)) as [b' ok]. destruct Hs as [-> Hh'].
    destruct Hp as [Hr Hbu]. set (m := Z.min (n + (rq_now r - last) * rp_requests_per_second p) (rp_burst_capacity p)) in *.
    assert (Hm : m <= n + (rq_now r - last) * rp_requests_per_second p) by lia. split.
    + split; [by destruct op|]. cbn [sr_buckets]. rewrite lookup_insert_eq.
      exists (if Z.leb 1 m then m - 1 else m), (rq_now r). split; [by destruct (Z.leb 1 m)|].
      split; [lia|]. split; [done|]. destruct (Z.leb 1 m); nia.
    + intros Hw. assert (Hm1 : 1 <= m).
      { unfold m. destruct Hh as [_ Hn0]. destruct Hlast as [->| ->]; [nia|nia]. }
      by destruct (Z.leb_spec 1 m); [|lia].
  - destruct (SharedRateLimiter.policy_of l (rq_op r)) as [p'|] eqn:E.
    + destruct (TokenBucket.try_consume _ 1 (rq_now r)) as [b' ok]. split; [by destruct op|].
      cbn [sr_buckets]. rewrite lookup_insert_ne by done.
      destruct (sr_buckets l !! (user, op_code op)); [|done].
      destruct Hb as (n & last & Hh & Hl & Hln & Hg). exists n, last. repeat split; try apply Hh; try done; lia.
    + split; [done|]. destruct (sr_buckets l !! (user, op_code op)); [|done].
      destruct Hb as (n & last & Hh & Hl & Hln & Hg). exists n, last. repeat split; try apply Hh; try done; lia.
Qed.

Lemma serve_ok reqs l t g last_now :
  bucket_ok l t g last_now -> t0 <= t -> timeline t reqs -> finish t reqs <= t1 ->
  let '(l', served) := serve l reqs in
  bucket_ok l' (finish t reqs) (g + Z.of_nat (length (of_key (user, op_code op) served)))
    (match rq_now <$> last (of_key (user, op_code op) reqs) with Some n => Some n | None => last_now end).
Proof.
  revert l t g last_now. induction reqs as [|r reqs IH]; intros l t g last_now Hb H0 Ht Hf.
  { simpl. by rewrite Z.add_0_r. }
  destruct Ht as (Hc1 & Hc2 & Ht). rewrite finish_cons in Hf |- *. cbn [serve].
  pose proof (timeline_finish _ _ Ht) as Hle.
  pose proof (serve_one_ok l r t g last_now Hb H0 Hc1 ltac:(lia)) as Hs.
  destruct (serve_one l r) as [l1 ok]. unfold of_key at 2. rewrite filter_cons.
  case_decide as Hk.
  - destruct Hs as [Hs _]. specialize (IH l1 (rq_now r) _ _ Hs ltac:(lia) Ht Hf).
    destruct (serve l1 reqs) as [l2 served]. fold (of_key (user, op_code op) reqs).
    replace (match rq_now <$> last (r :: of_key (user, op_code op) reqs) with Some n => Some n | None => last_now end)
      with (match rq_now <$> last (of_key (user, op_code op) reqs) with Some n => Some n | None => Some (rq_now r) end).
    + destruct ok; [|done]. unfold of_key at 1. rewrite filter_cons, decide_True by done. cbn [length].
      fold (of_key (user, op_code op) served). rewrite Nat2Z.inj_succ.
      by replace (g + Z.succ (Z.of_nat (length (of_key (user, op_code op) served))))
        with (g + 1 + Z.of_nat (length (of_key (user, op_code op) served))) by lia.
    + destruct (of_key (user, op_code op) reqs) as [|r1 rs] eqn:E; [done|]. rewrite last_cons_cons.
      destruct (last (r1 :: rs)) eqn:El; [done|]. by apply last_None in El.
  - specialize (IH l1 (rq_now r) _ _ Hs ltac:(lia) Ht Hf).
    destruct (serve l1 reqs) as [l2 served]. destruct ok; [|done].
    unfold of_key at 1. by rewrite filter_cons, decide_False.
Qed.
End one_key.

(** C32: However requests of all users and classes interleave, on any number of
    connections, a user whose class is limited to [rps] with burst [burst] gets
    at most [burst + rps * elapsed] of them through between the times [t0] and
    [t1] of a clock that does not run backwards. *)
Theorem rate_limit_bound place cancel p user op t0 t1 reqs :
  (match op with Place => place | Cancel => cancel end) = Some p -> policy_ok p -> clock_range p t0 t1 ->
  timeline t0 reqs -> finish t0 reqs <= t1 ->
  Z.of_nat (length (of_key (user, op_code op) (serve (SharedRateLimiter.new place cancel) reqs).2))
    <= rp_burst_capacity p + (t1 - t0) * rp_requests_per_second p.
Proof.
  intros Hpol Hp Hc Ht Hf.
  assert (Hb : bucket_ok p user op t0 (SharedRateLimiter.new place cancel) t0 0 None) by (split; [by destruct op|done]).
  pose proof (serve_ok p user op t0 t1 Hp Hc reqs _ t0 0 None Hb ltac:(lia) Ht Hf) as Hs.
  pose proof (timeline_finish _ _ Ht) as Hle. destruct Hp as [Hr Hbu].
  destruct (serve _ reqs) as [l served]. cbn [snd]. destruct Hs as [_ Hs]. destruct (sr_buckets l !! _) as [b|].
  - destruct Hs as (n & last & [_ Hn] & Hl & _ & Hg). nia.
  - destruct Hs as [Hs _]. nia.
Qed.

(** C33: A user is never starved: whatever the others do, a request that comes at
    least one second after the user's previous one in its class - or is the
    first - is let through. *)
Theorem idle_user_served place cancel p user op t0 t1 reqs r :
  (match op with Place => place | Cancel => cancel end) = Some p -> policy_ok p -> clock_range p t0 t1 ->
  timeline t0 (reqs ++ [r]) -> rq_now r <= t1 -> rq_key r = (user, op_code op) ->
  Forall (fun r' => rq_now r' + 1 <= rq_now r) (of_key (user, op_code op) reqs) ->
  snd (serve_one (serve (SharedRateLimiter.new place cancel) reqs).1 r) = true.
Proof.
  intros Hpol Hp Hc Ht Hf Hk Hw.
  assert (Hb : bucket_ok p user op t0 (SharedRateLimiter.new place cancel) t0 0 None) by (split; [by destruct op|done]).
  assert (Ht' : timeline t0 reqs /\ finish t0 reqs <= rq_created r /\ rq_created r <= rq_now r).
  { clear -Ht. revert t0 Ht. induction reqs as [|r' reqs IH]; intros t0 Ht; simpl in *; [unfold finish; simpl; lia|].
    destruct Ht as (H1 & H2 & Ht). apply IH in Ht as (Ht & Hf & Hr). by rewrite finish_cons. }
  destruct Ht' as (Ht' & Hf1 & Hf2).
  pose proof (serve_ok p user op t0 t1 Hp Hc reqs _ t0 0 None Hb ltac:(lia) Ht' ltac:(lia)) as Hs.
  pose proof (timeline_finish _ _ Ht') as Hle.
  destruct (serve _ reqs) as [l served]. cbn [fst].
  pose proof (serve_one_ok p user op t0 t1 Hp Hc l r _ _ _ Hs Hle Hf1 ltac:(lia)) as Hone.
  destruct (serve_one l r) as [l' ok]. rewrite decide_True in Hone by done. apply (proj2 Hone).
  destruct (last (of_key (user, op_code op) reqs)) as [r'|] eqn:E; cbn [fmap option_fmap option_map]; [|done].
  apply last_Some_elem_of in E. rewrite Forall_forall in Hw. by apply Hw.
Qed.

(** ** Witnesses *)

Definition demo_requests : list request :=
  [mkRequest 1 Place 1000 1000; mkRequest 1 Place 1000 1000; mkRequest 2 Place 1000 1000;
   mkRequest 1 Place 1000 1000; mkRequest 1 Cancel 1001 1001].

Lemma rate_limit_bound_witness :
  length (of_key (1, 0) (serve (SharedRateLimiter.new (Some (mkPolicy 1 2)) None) demo_requests).2) = 2%nat /\
  Z.of_nat (length (of_key (1, op_code Place) (serve (SharedRateLimiter.new (Some (mkPolicy 1 2)) None) demo_requests).2))
    <= 2 + (1001 - 1000) * 1.
Proof.
  split; [by vm_compute|].
  apply (rate_limit_bound (Some (mkPolicy 1 2)) None (mkPolicy 1 2) 1 Place 1000 1001 demo_requests).
  - reflexivity.
  - split; simpl; lia.
  - repeat split; simpl; unfold two64; lia.
  - simpl. lia.
  - by vm_compute.
Defined.

Lemma idle_user_served_witness :
  snd (serve_one (serve (SharedRateLimiter.new (Some (mkPolicy 1 2)) None) demo_requests).1 (mkRequest 1 Place 1001 1001)) = true.
Proof.
  apply (idle_user_served (Some (mkPolicy 1 2)) None (mkPolicy 1 2) 1 Place 1000 1001 demo_requests (mkRequest 1 Place 1001 1001)).
  - reflexivity.
  - split; simpl; lia.
  - repeat split; simpl; unfold two64; lia.
  - simpl. lia.
  - simpl. lia.
  - reflexivity.
  - apply (bool_decide_unpack _). by vm_compute.
Defined.

(** ** A clock that steps back *)

(** The elapsed time is a difference of [u64]s: one second backwards is an
    elapsed time of [2^64 - 1] seconds, and an empty bucket is full again. *)
Lemma backward_clock_refills :
  TokenBucket.refill (mkBucket f64_zero 1000 strict) 999 = mkBucket (i64_as_f64 20) 999 strict.
Proof. vm_compute. reflexivity. Qed.
