(* ===== verification/Text.v ===== *)
(** Strings as byte lists: trimming, splitting, decimal parsing and printing,
    as [str] and [format!] of the standard library do them. *)
From Stdlib Require Import ZArith Lia String Ascii.
From stdpp Require Import base numbers list.
From S2P Require Import Prelude Bytes Fixed.

#[local] Open Scope Z_scope.

(** The bytes of an ASCII literal. *)
Fixpoint str (s : string) : bytes :=
  match s with
  | EmptyString => []
  | String c s => Z.of_nat (nat_of_ascii c) :: str s
  end.

(** ** [str::trim]

    The bytes of a leading White_Space character of the UTF-8 string, or 0. *)
Definition white_space (bs : bytes) : nat :=
  match bs with
  | b1 :: bs1 =>
      if (Z.leb 9 b1 && Z.leb b1 13) || Z.eqb b1 32 then 1%nat
      else match bs1 with
      | b2 :: bs2 =>
          if Z.eqb b1 194 && (Z.eqb b2 133 || Z.eqb b2 160) then 2%nat
          else match bs2 with
          | b3 :: _ =>
              if (Z.eqb b1 225 && Z.eqb b2 154 && Z.eqb b3 128)
                 || (Z.eqb b1 226 && Z.eqb b2 128
                     && ((Z.leb 128 b3 && Z.leb b3 138) || Z.eqb b3 168 || Z.eqb b3 169 || Z.eqb b3 175))
                 || (Z.eqb b1 226 && Z.eqb b2 129 && Z.eqb b3 159)
                 || (Z.eqb b1 227 && Z.eqb b2 128 && Z.eqb b3 128)
              then 3%nat else 0%nat
          | [] => 0%nat
          end
      | [] => 0%nat
      end
  | [] => 0%nat
  end.

Fixpoint trim_start_fuel (fuel : nat) (bs : bytes) : bytes :=
  match fuel with
  | O => bs
  | S fuel => match white_space bs with O => bs | n => trim_start_fuel fuel (drop n bs) end
  end.
Definition trim_start (bs : bytes) : bytes := trim_start_fuel (length bs) bs.

(** The bytes of a trailing White_Space character: one, two or three last bytes
    that form one. *)
Definition white_space_end (bs : bytes) : nat :=
  let last n := drop (length bs - n) bs in
  if Nat.eqb (white_space (last 1%nat)) 1 then 1%nat
  else if Nat.eqb (white_space (last 2%nat)) 2 then 2%nat
  else if Nat.eqb (white_space (last 3%nat)) 3 then 3%nat
  else 0%nat.

Fixpoint trim_end_fuel (fuel : nat) (bs : bytes) : bytes :=
  match fuel with
  | O => bs
  | S fuel =>
      match white_space_end bs with O => bs | n => trim_end_fuel fuel (take (length bs - n) bs) end
  end.
Definition trim_end (bs : bytes) : bytes := trim_end_fuel (length bs) bs.

Definition trim (bs : bytes) : bytes := trim_end (trim_start bs).

(** ** [str::split] on an ASCII character: at least one part *)

Fixpoint split (sep : Z) (bs : bytes) : list bytes :=
  match bs with
  | [] => [[]]
  | b :: bs =>
      if Z.eqb b sep then [] :: split sep bs
      else match split sep bs with
           | part :: parts => (b :: part) :: parts
           | [] => [[b]]
           end
  end.

(** ** Decimal digits *)

Definition is_ascii_digit (b : Z) : bool := Z.leb 48 b && Z.leb b 57.

(** The loop [v = v * 10 + (b - b'0')], without overflow. *)
Definition digits_value_from (v : Z) (bs : bytes) : Z :=
  fold_left (fun v b => v * 10 + (b - 48)) bs v.
Definition digits_value (bs : bytes) : Z := digits_value_from 0 bs.

(** [z.to_string()] of a non-negative integer; [fuel] bounds the digits. *)
Fixpoint to_digits (fuel : nat) (z : Z) (acc : bytes) : bytes :=
  match fuel with
  | O => acc
  | S fuel =>
      let acc := 48 + z mod 10 :: acc in
      if Z.ltb z 10 then acc else to_digits fuel (z / 10) acc
  end.
Definition print_nonneg (z : Z) : bytes := to_digits (S (Z.to_nat (Z.log2 z))) z [].

(** [format!("{z:0w$}")] *)
Definition print_padded (w : nat) (z : Z) : bytes :=
  let s := print_nonneg z in replicate (w - length s) 48 ++ s.

(** [while s.ends_with('0') { s.pop(); }] *)
Fixpoint drop_zeros (bs : bytes) : bytes :=
  match bs with
  | b :: bs => if Z.eqb b 48 then drop_zeros bs else b :: bs
  | [] => []
  end.
Definition strip_zeros (bs : bytes) : bytes := reverse (drop_zeros (reverse bs)).

(** [s.parse::<i64>()]: an optional sign, at least one digit, in range. *)
Definition parse_i64 (bs : bytes) : option Z :=
  let '(negative, body) :=
    match bs with
    | b :: rest => if Z.eqb b 45 then (true, rest) else if Z.eqb b 43 then (false, rest) else (false, bs)
    | [] => (false, bs)
    end in
  match body with
  | [] => None
  | _ =>
      if forallb is_ascii_digit body then
        let v := if negative : bool then - digits_value body else digits_value body in
        if fits_i64 v then Some v else None
      else None
  end.

(** ** Lemmas *)

Definition all_digits (bs : bytes) : Prop := Forall (fun b => 48 <= b <= 57) bs.

Lemma is_ascii_digit_iff b : is_ascii_digit b = true <-> 48 <= b <= 57.
Proof. unfold is_ascii_digit. rewrite andb_true_iff, !Z.leb_le. done. Qed.

Lemma forallb_digits bs : all_digits bs -> forallb is_ascii_digit bs = true.
Proof. induction 1; simpl; [done|]. by rewrite (proj2 (is_ascii_digit_iff _)). Qed.

Lemma digits_value_app v l k :
  digits_value_from v (l ++ k) = digits_value_from (digits_value_from v l) k.
Proof. apply fold_left_app. Qed.

Lemma digits_value_shift v bs :
  digits_value_from v bs = v * 10 ^ Z.of_nat (length bs) + digits_value bs.
Proof.
  unfold digits_value. revert v. induction bs as [|b bs IH]; intros v; [simpl; lia|].
  unfold digits_value_from in *. cbn [fold_left length].
  rewrite (IH (v * 10 + _)), (IH (0 * 10 + _)), Nat2Z.inj_succ, Z.pow_succ_r by lia. ring.
Qed.

Lemma digits_value_snoc bs b : digits_value (bs ++ [b]) = digits_value bs * 10 + (b - 48).
Proof. unfold digits_value. by rewrite digits_value_app. Qed.

Lemma digits_value_bound bs : all_digits bs -> 0 <= digits_value bs < 10 ^ Z.of_nat (length bs).
Proof.
  induction bs as [|b bs IH] using rev_ind; intros Hd; [done|].
  apply Forall_app in Hd as [Hd [Hb _]%Forall_cons]. specialize (IH Hd).
  rewrite digits_value_snoc, length_app, Nat2Z.inj_add, Z.pow_add_r by lia.
  change (10 ^ Z.of_nat (length [b])) with 10. lia.
Qed.

Lemma digits_value_zeros n bs : digits_value (replicate n 48 ++ bs) = digits_value bs.
Proof.
  unfold digits_value. rewrite digits_value_app. f_equal.
  induction n as [|n IH]; [done|]. simpl. exact IH.
Qed.

(** Printing pushes the digits of [z] in front of [acc]. *)
Lemma to_digits_value fuel z acc : 0 <= z < 10 ^ Z.of_nat fuel ->
  digits_value (to_digits fuel z acc) = digits_value_from z acc.
Proof.
  revert z acc. induction fuel as [|fuel IH]; intros z acc Hz.
  { simpl in *. by replace z with 0 by lia. }
  cbn [to_digits]. rewrite Nat2Z.inj_succ, Z.pow_succ_r in Hz by lia.
  destruct (Z.ltb_spec z 10) as [Hlt|Hge].
  - unfold digits_value, digits_value_from. cbn [fold_left]. f_equal. rewrite Z.mod_small; lia.
  - rewrite IH by (Z.div_mod_to_equations; lia). unfold digits_value_from. cbn [fold_left].
    f_equal. pose proof (Z.div_mod z 10). lia.
Qed.

Lemma to_digits_digits fuel z acc : 0 <= z -> all_digits acc -> all_digits (to_digits fuel z acc).
Proof.
  revert z acc. induction fuel as [|fuel IH]; intros z acc Hz Ha; [done|].
  cbn [to_digits]. assert (all_digits (48 + z mod 10 :: acc)) as Hd.
  { constructor; [pose proof (Z.mod_pos_bound z 10); lia | done]. }
  destruct (Z.ltb z 10); [done|]. apply IH; [Z.div_mod_to_equations; lia | done].
Qed.

Lemma to_digits_length fuel z acc :
  (length acc <= length (to_digits fuel z acc))%nat.
Proof.
  revert z acc. induction fuel as [|fuel IH]; intros z acc; [done|]. cbn [to_digits].
  destruct (Z.ltb z 10); [simpl; lia|]. etransitivity; [|apply IH]. simpl. lia.
Qed.

Lemma log2_digits z : 0 <= z -> z < 10 ^ Z.of_nat (S (Z.to_nat (Z.log2 z))).
Proof.
  intros Hz. rewrite Nat2Z.inj_succ, Z2Nat.id by apply Z.log2_nonneg.
  destruct (decide (z = 0)) as [->|]; [done|].
  apply Z.lt_le_trans with (2 ^ Z.succ (Z.log2 z)); [apply Z.log2_spec; lia|].
  apply Z.pow_le_mono_l. lia.
Qed.

Lemma print_nonneg_value z : 0 <= z -> digits_value (print_nonneg z) = z.
Proof.
  intros Hz. unfold print_nonneg. pose proof (log2_digits z Hz).
  rewrite to_digits_value by done. done.
Qed.

Lemma print_nonneg_digits z : 0 <= z -> all_digits (print_nonneg z).
Proof. intros Hz. apply to_digits_digits; [done|by constructor]. Qed.

Lemma print_nonneg_nonempty z : print_nonneg z <> [].
Proof.
  unfold print_nonneg. intros He. cbn [to_digits] in He. destruct (Z.ltb z 10); [done|].
  pose proof (to_digits_length (Z.to_nat (Z.log2 z)) (z / 10) [48 + z mod 10]) as Hl.
  rewrite He in Hl. simpl in Hl. lia.
Qed.

(** [n] digits print a number below [10 ^ n]. *)
Lemma to_digits_short fuel n z acc : 0 <= z < 10 ^ Z.of_nat n -> (0 < n)%nat ->
  (length (to_digits fuel z acc) <= n + length acc)%nat.
Proof.
  revert n z acc. induction fuel as [|fuel IH]; intros n z acc Hz Hn; [simpl; lia|].
  cbn [to_digits]. destruct (Z.ltb_spec z 10) as [|Hge]; [simpl; lia|].
  destruct n as [|[|n]]; [lia | simpl in Hz; lia |].
  rewrite (Nat2Z.inj_succ (S n)), Z.pow_succ_r in Hz by lia.
  etransitivity; [apply (IH (S n)); [Z.div_mod_to_equations; lia | lia]|]. simpl. lia.
Qed.

Lemma print_padded_length w z : 0 <= z < 10 ^ Z.of_nat w -> (0 < w)%nat ->
  length (print_padded w z) = w.
Proof.
  intros Hz Hw. unfold print_padded. rewrite length_app, length_replicate.
  pose proof (to_digits_short (S (Z.to_nat (Z.log2 z))) w z [] Hz Hw) as Hl.
  fold (print_nonneg z) in Hl. simpl in Hl. lia.
Qed.

Lemma print_padded_value w z : 0 <= z -> digits_value (print_padded w z) = z.
Proof. intros Hz. unfold print_padded. rewrite digits_value_zeros. by apply print_nonneg_value. Qed.

Lemma print_padded_digits w z : 0 <= z -> all_digits (print_padded w z).
Proof.
  intros Hz. apply Forall_app. split; [|by apply print_nonneg_digits].
  apply Forall_replicate. lia.
Qed.

(** Stripping zeros: what is left, and how many went. *)
Lemma strip_zeros_app bs : exists n, bs = strip_zeros bs ++ replicate n 48.
Proof.
  unfold strip_zeros. assert (exists n, reverse bs = replicate n 48 ++ drop_zeros (reverse bs)) as [n Hn].
  { generalize (reverse bs) as l. induction l as [|b l [n IH]]; [by exists 0%nat|]. simpl.
    destruct (Z.eqb_spec b 48) as [->|]; [exists (S n); simpl; by f_equal | by exists 0%nat]. }
  exists n. rewrite <- (reverse_involutive bs) at 1. rewrite Hn at 1. rewrite reverse_app.
  f_equal. apply reverse_replicate.
Qed.

Lemma digits_value_snoc_zeros bs n :
  digits_value (bs ++ replicate n 48) = digits_value bs * 10 ^ Z.of_nat n.
Proof.
  unfold digits_value at 1. rewrite digits_value_app, digits_value_shift, length_replicate.
  fold (digits_value bs). pose proof (digits_value_zeros n []) as Hz. rewrite app_nil_r in Hz.
  rewrite Hz. unfold digits_value at 2. simpl. lia.
Qed.

Lemma split_no_sep sep bs : Forall (fun b => b <> sep) bs -> split sep bs = [bs].
Proof. induction 1 as [|b bs Hb _ IH]; simpl; [done|]. by rewrite (proj2 (Z.eqb_neq _ _) Hb), IH. Qed.

Lemma split_app_sep sep l bs : Forall (fun b => b <> sep) l ->
  split sep (l ++ sep :: bs) = l :: split sep bs.
Proof.
  induction 1 as [|b l Hb _ IH]; simpl; [by rewrite Z.eqb_refl|].
  by rewrite (proj2 (Z.eqb_neq _ _) Hb), IH.
Qed.

(** A string whose first and last bytes are not white space is not trimmed. *)
Definition solid (b : Z) : Prop := 33 <= b < 128.

Lemma white_space_solid b bs : solid b -> white_space (b :: bs) = 0%nat.
Proof.
  unfold solid. intros Hb. cbn [white_space].
  repeat match goal with |- context [Z.leb ?a ?c] => destruct (Z.leb_spec a c); try lia
    | |- context [Z.eqb ?a ?c] => destruct (Z.eqb_spec a c); try lia end; simpl;
  destruct bs as [|b2 [|b3 bs]]; simpl; try done;
  repeat match goal with |- context [Z.eqb b ?c] => destruct (Z.eqb_spec b c); try lia end; done.
Qed.

Lemma white_space_last l b : solid b -> white_space (l ++ [b]) <> length (l ++ [b]).
Proof.
  unfold solid. intros Hb. rewrite length_app.
  destruct l as [|x [|y [|z l]]]; [rewrite app_nil_l, white_space_solid by done; done | | |].
  - cbn. repeat case_match; try lia;
      rewrite ?andb_true_iff, ?orb_true_iff, ?Z.eqb_eq in *; lia.
  - cbn. repeat case_match; try lia;
      rewrite ?andb_true_iff, ?orb_true_iff, ?Z.eqb_eq, ?Z.leb_le in *; lia.
  - cbn. repeat case_match; simpl; lia.
Qed.

Lemma white_space_end_solid bs b : solid b -> white_space_end (bs ++ [b]) = 0%nat.
Proof.
  intros Hb. unfold white_space_end.
  assert (forall n, (0 < n <= 3)%nat ->
    Nat.eqb (white_space (drop (length (bs ++ [b]) - n) (bs ++ [b]))) n = false) as Hn.
  { intros n Hn. apply Nat.eqb_neq. rewrite length_app. simpl.
    rewrite drop_app_le by lia. set (l := drop _ bs). intros He.
    pose proof (white_space_last l b Hb) as Hl. rewrite length_app in Hl. simpl in Hl.
    assert (length l <= n - 1)%nat by (unfold l; rewrite length_drop; lia).
    destruct (decide (length l + 1 = n)%nat); [congruence|].
    assert (white_space (l ++ [b]) <= length (l ++ [b]))%nat.
    { clear. destruct (l ++ [b]) as [|b1 [|b2 [|b3 k]]]; cbn; repeat case_match; simpl; lia. }
    rewrite length_app in *. simpl in *. lia. }
  rewrite !Hn by lia. done.
Qed.

Lemma trim_solid a b bs rest : a :: bs = rest ++ [b] -> solid a -> solid b -> trim (a :: bs) = a :: bs.
Proof.
  intros He Ha Hb. unfold trim, trim_start. cbn [length trim_start_fuel].
  rewrite white_space_solid by done. unfold trim_end. cbn [length trim_end_fuel].
  rewrite He, white_space_end_solid by done. done.
Qed.
