(* ===== verification/Money.v ===== *)
(** Fixed-point money ([src/src/desk/money.rs]): amounts in atoms of 1e-8,
    their decimal text form, scaled products, and the balance record with its
    freeze and release operations. *)
From Stdlib Require Import ZArith Lia.
From stdpp Require Import base numbers list relations.
From S2P Require Import Prelude Bytes Fixed Types F64 Text.

#[local] Open Scope Z_scope.

Definition AMOUNT_SCALE : Z := 100000000.

(** The messages of the [anyhow!] errors. *)
Inductive MoneyError :=
| NotFinite
| OverflowsAtoms
| EmptyAmount
| MissingDigits
| MultiplePoints
| InvalidWhole
| TooManyPlaces
| InvalidFraction
| NegativeAmount.

(** ** Amounts

    [AmountAtoms] is a transparent wrapper of [i64]. *)
Module AmountAtoms.
Definition from_f64_round (value : f64) : result Z MoneyError :=
  if negb (f64_is_finite value) then Err NotFinite
  else
    let scaled := f64_round (f64_mul value (i64_as_f64 AMOUNT_SCALE)) in
    if f64_lt (i64_as_f64 i64_max) scaled || f64_lt scaled (i64_as_f64 i64_min) then Err OverflowsAtoms
    else Ok (f64_as_i64 scaled).

Definition i128_checked (z : Z) : option Z :=
  if Z.leb i128_min z && Z.ltb z two127 then Some z else None.

(** [for b in whole.bytes() { atoms = atoms.checked_mul(10).and_then(..)? }] *)
Fixpoint whole_loop (atoms : Z) (bs : bytes) : option Z :=
  match bs with
  | [] => Some atoms
  | b :: bs =>
      v ← i128_checked (atoms * 10);
      v ← i128_checked (v + (b - 48));
      whole_loop v bs
  end.

(** [for b in frac.bytes() { .. }] and [for _ in frac.len()..8 { .. }] *)
Fixpoint frac_loop (frac_atoms : Z) (bs : bytes) : Z :=
  match bs with
  | [] => frac_atoms
  | b :: bs => frac_loop (i128_add (i128_mul frac_atoms 10) (b - 48)) bs
  end.
Fixpoint scale_loop (frac_atoms : Z) (n : nat) : Z :=
  match n with
  | O => frac_atoms
  | S n => scale_loop (i128_mul frac_atoms 10) n
  end.

(** The sign and the rest of a non-empty string. *)
Definition split_sign (s : bytes) : bool * bytes :=
  match s with
  | b :: rest => if Z.eqb b 45 then (true, rest) else if Z.eqb b 43 then (false, rest) else (false, s)
  | [] => (false, s)
  end.

(** The end of [from_decimal_str]: negate and check the range. *)
Definition finish (negative : bool) (atoms : Z) : result Z MoneyError :=
  let atoms := if negative then i128_neg atoms else atoms in
  if Z.ltb i64_max atoms || Z.ltb atoms i64_min then Err OverflowsAtoms else Ok atoms.

(** From [body.split('.')] on. *)
Definition parse_body (negative : bool) (body : bytes) : result Z MoneyError :=
  let parts := split 46 body in
  let whole := default [] (parts !! 0%nat) in
  let frac := parts !! 1%nat in
  if Nat.ltb 2 (length parts) then Err MultiplePoints
  else if Nat.eqb (length whole) 0 && Nat.eqb (length (default [] frac)) 0 then Err MissingDigits
  else if negb (forallb is_ascii_digit whole) then Err InvalidWhole
  else
    match whole_loop 0 whole with
    | None => Err OverflowsAtoms
    | Some atoms =>
        match i128_checked (atoms * AMOUNT_SCALE) with
        | None => Err OverflowsAtoms
        | Some atoms =>
            match frac with
            | None => finish negative atoms
            | Some frac =>
                if Nat.ltb 8 (length frac) then Err TooManyPlaces
                else if negb (forallb is_ascii_digit frac) then Err InvalidFraction
                else
                  match i128_checked (atoms + scale_loop (frac_loop 0 frac) (8 - length frac)) with
                  | None => Err OverflowsAtoms
                  | Some atoms => finish negative atoms
                  end
            end
        end
    end.

Definition from_decimal_str (input : bytes) : result Z MoneyError :=
  let s := trim input in
  if Nat.eqb (length s) 0 then Err EmptyAmount
  else
    let '(negative, body) := split_sign s in
    if Nat.eqb (length body) 0 then Err MissingDigits else parse_body negative body.

Definition to_decimal_string (atoms : Z) : bytes :=
  let negative := Z.ltb atoms 0 in
  let abs := if negative then - atoms else atoms in
  let whole := Z.quot abs AMOUNT_SCALE in
  let frac := Z.rem abs AMOUNT_SCALE in
  let out := if Z.eqb frac 0 then print_nonneg whole
             else print_nonneg whole ++ 46 :: strip_zeros (print_padded 8 frac) in
  if negative then 45 :: out else out.

Definition to_f64 (atoms : Z) : f64 := f64_div (i64_as_f64 atoms) (i64_as_f64 AMOUNT_SCALE).

Definition checked_mul_scaled (a b : Z) : result Z MoneyError :=
  if Z.ltb a 0 || Z.ltb b 0 then Err NegativeAmount
  else
    let wide := i128_mul a b in
    let scaled := Z.quot (i128_add wide (Z.quot AMOUNT_SCALE 2)) AMOUNT_SCALE in
    if Z.ltb i64_max scaled then Err OverflowsAtoms else Ok scaled.

Definition checked_add (a b : Z) : result Z MoneyError :=
  match i64_checked_add a b with Some v => Ok v | None => Err OverflowsAtoms end.

Definition checked_sub (a b : Z) : result Z MoneyError :=
  match i64_checked_sub a b with Some v => Ok v | None => Err OverflowsAtoms end.
End AmountAtoms.

(** ** Balances *)

Record AccountBalance := mkAccountBalance { ab_balance_atoms : Z; ab_frozen_atoms : Z }.

Module AccountBalance.
Definition from_atoms (balance_atoms frozen_atoms : Z) : AccountBalance :=
  mkAccountBalance balance_atoms frozen_atoms.

Definition from_f64_round (balance frozen : f64) : result AccountBalance MoneyError :=
  match AmountAtoms.from_f64_round balance with
  | Err e => Err e
  | Ok b =>
      match AmountAtoms.from_f64_round frozen with
      | Err e => Err e
      | Ok f => Ok (mkAccountBalance b f)
      end
  end.

Definition balance (a : AccountBalance) : f64 := AmountAtoms.to_f64 (ab_balance_atoms a).
Definition frozen (a : AccountBalance) : f64 := AmountAtoms.to_f64 (ab_frozen_atoms a).

Definition available_atoms (a : AccountBalance) : Z :=
  i64_sub (ab_balance_atoms a) (ab_frozen_atoms a).

Definition available (a : AccountBalance) : f64 := AmountAtoms.to_f64 (available_atoms a).

Definition try_freeze_atoms (a : AccountBalance) (amount_atoms : Z) : AccountBalance * bool :=
  if Z.leb amount_atoms 0 then (a, true)
  else if Z.leb amount_atoms (available_atoms a) then
    (mkAccountBalance (ab_balance_atoms a) (i64_add (ab_frozen_atoms a) amount_atoms), true)
  else (a, false).

Definition release_atoms (a : AccountBalance) (amount_atoms : Z) : AccountBalance :=
  if Z.leb amount_atoms 0 then a
  else mkAccountBalance (ab_balance_atoms a) (i64_saturating_sub (ab_frozen_atoms a) amount_atoms).

Definition apply_atoms_delta (a : AccountBalance) (balance_delta_atoms frozen_release_atoms : Z)
  : AccountBalance :=
  release_atoms
    (mkAccountBalance (Z.max (i64_saturating_add (ab_balance_atoms a) balance_delta_atoms) 0)
       (ab_frozen_atoms a))
    frozen_release_atoms.
End AccountBalance.

(** ** The decimal grammar

    [denotes s a]: [s] is an optional sign, digits and optionally a point with at
    most eight digits, at least one digit in all, and its value is [a] atoms. *)
Definition amount_value (whole frac : bytes) : Z :=
  digits_value whole * AMOUNT_SCALE + digits_value frac * 10 ^ (8 - Z.of_nat (length frac)).

Inductive denotes : bytes -> Z -> Prop :=
| denotes_decimal (sign whole point : bytes) (frac : bytes) (sgn : Z) :
    (sign = [45] /\ sgn = -1 \/ (sign = [43] \/ sign = []) /\ sgn = 1) ->
    all_digits whole -> all_digits frac -> (length frac <= 8)%nat -> whole ++ frac <> [] ->
    (point = 46 :: frac \/ point = [] /\ frac = []) ->
    denotes (sign ++ whole ++ point) (sgn * amount_value whole frac).

Import AmountAtoms.

Lemma i128_checked_iff z r : i128_checked z = Some r <-> r = z /\ in_i128 z.
Proof.
  unfold i128_checked, in_i128, i128_min.
  destruct (Z.leb_spec (- two127) z); destruct (Z.ltb_spec z two127); simpl;
    split; intros; try done; naive_solver lia.
Qed.

Lemma all_digits_forallb bs : forallb is_ascii_digit bs = true <-> all_digits bs.
Proof.
  split; [|apply forallb_digits]. intros H. apply Forall_forall. intros b Hb.
  apply is_ascii_digit_iff. rewrite forallb_forall in H. apply H. by apply list_elem_of_In.
Qed.

Lemma whole_loop_spec bs v r : all_digits bs -> 0 <= v -> v < two127 ->
  whole_loop v bs = Some r <-> r = digits_value_from v bs /\ digits_value_from v bs < two127.
Proof.
  intros Hd. revert v. induction Hd as [|b bs Hb Hd IH]; intros v Hv Hlt; simpl.
  { unfold digits_value_from. simpl. naive_solver. }
  assert (v * 10 + (b - 48) <= digits_value_from (v * 10 + (b - 48)) bs) as Hmono.
  { rewrite digits_value_shift. pose proof (digits_value_bound bs Hd).
    pose proof (Z.pow_pos_nonneg 10 (Z.of_nat (length bs))). nia. }
  change (digits_value_from v (b :: bs)) with (digits_value_from (v * 10 + (b - 48)) bs).
  destruct (i128_checked (v * 10)) as [v1|] eqn:H1.
  - apply i128_checked_iff in H1 as [-> H1]. bind_step.
    destruct (i128_checked (v * 10 + (b - 48))) as [v2|] eqn:H2.
    + apply i128_checked_iff in H2 as [-> H2]. bind_step. apply IH; unfold in_i128 in *; lia.
    + bind_step. split; [done|]. intros [_ Hr]. exfalso.
      assert (i128_checked (v * 10 + (b - 48)) = Some (v * 10 + (b - 48))); [|congruence].
      apply i128_checked_iff. unfold in_i128, two127 in *. lia.
  - bind_step. split; [done|]. intros [_ Hr]. exfalso.
    assert (i128_checked (v * 10) = Some (v * 10)); [|congruence].
    apply i128_checked_iff. unfold in_i128, two127 in *. lia.
Qed.

Lemma frac_loop_spec bs v : all_digits bs -> 0 <= v -> digits_value_from v bs < two127 ->
  frac_loop v bs = digits_value_from v bs.
Proof.
  intros Hd. revert v. induction Hd as [|b bs Hb Hd IH]; intros v Hv Hlt; [done|].
  change (digits_value_from v (b :: bs)) with (digits_value_from (v * 10 + (b - 48)) bs) in *.
  rewrite digits_value_shift in Hlt. pose proof (digits_value_bound bs Hd).
  pose proof (Z.pow_pos_nonneg 10 (Z.of_nat (length bs))).
  assert (v * 10 + (b - 48) < two127) by nia.
  simpl. unfold i128_add, i128_mul. rewrite !wrap_i128_id by (unfold in_i128, two127 in *; rewrite ?wrap_i128_id; unfold in_i128, two127; lia).
  apply IH; [lia|]. rewrite digits_value_shift. lia.
Qed.

Lemma scale_loop_spec n v : 0 <= v -> v * 10 ^ Z.of_nat n < two127 ->
  scale_loop v n = v * 10 ^ Z.of_nat n.
Proof.
  revert v. induction n as [|n IH]; intros v Hv Hlt; [simpl; lia|].
  rewrite Nat2Z.inj_succ, Z.pow_succ_r in * by lia. simpl.
  pose proof (Z.pow_pos_nonneg 10 (Z.of_nat n)).
  unfold i128_mul. rewrite wrap_i128_id by (unfold in_i128, two127 in *; nia).
  rewrite IH by (unfold two127 in *; nia). ring.
Qed.

(** The fraction's contribution. *)
Lemma frac_atoms_spec frac : all_digits frac -> (length frac <= 8)%nat ->
  scale_loop (frac_loop 0 frac) (8 - length frac) =
    digits_value frac * 10 ^ (8 - Z.of_nat (length frac)) /\
  0 <= digits_value frac * 10 ^ (8 - Z.of_nat (length frac)) < AMOUNT_SCALE.
Proof.
  intros Hd Hl. pose proof (digits_value_bound frac Hd) as Hb.
  pose proof (Z.pow_pos_nonneg 10 (8 - Z.of_nat (length frac))).
  assert (10 ^ Z.of_nat (length frac) * 10 ^ (8 - Z.of_nat (length frac)) = AMOUNT_SCALE) as Hs.
  { rewrite <- Z.pow_add_r by lia. by replace (_ + _) with 8 by lia. }
  assert (10 ^ Z.of_nat (length frac) <= AMOUNT_SCALE) by (unfold AMOUNT_SCALE in *; nia).
  assert (0 <= digits_value frac * 10 ^ (8 - Z.of_nat (length frac)) < AMOUNT_SCALE) as Hr by nia.
  split; [|exact Hr]. unfold AMOUNT_SCALE in *.
  rewrite frac_loop_spec; [|done|lia|fold (digits_value frac); unfold two127; lia].
  fold (digits_value frac). rewrite scale_loop_spec; rewrite ?Nat2Z.inj_sub by lia;
    [done|lia|unfold two127; change (Z.of_nat 8) with 8; lia].
Qed.

Lemma finish_iff negative atoms a : 0 <= atoms < two127 ->
  finish negative atoms = Ok a <-> a = (if negative then -1 else 1) * atoms /\ in_i64 a.
Proof.
  intros Hr. unfold finish. assert (i128_neg atoms = - atoms) as ->.
  { unfold i128_neg. apply wrap_i128_id. unfold in_i128, two127 in *. lia. }
  set (v := if negative then - atoms else atoms).
  assert ((if negative then -1 else 1) * atoms = v) as -> by (unfold v; destruct negative; lia).
  destruct (Z.ltb_spec i64_max v); destruct (Z.ltb_spec v i64_min); simpl; unfold in_i64;
    split; intros; simplify_eq; try done; try lia; destruct_and?; try (f_equal; lia); lia.
Qed.

(** Splitting at points. *)
Lemma split_inv sep bs w parts : split sep bs = w :: parts ->
  Forall (fun b => b <> sep) w /\
  (parts = [] /\ bs = w \/ exists rest, bs = w ++ sep :: rest /\ split sep rest = parts).
Proof.
  revert w parts. induction bs as [|b bs IH]; intros w parts; simpl.
  { intros [= <- <-]. by split; [constructor|left]. }
  destruct (Z.eqb_spec b sep) as [->|Hb].
  { intros [= <- <-]. split; [constructor|]. right. by exists bs. }
  destruct (split sep bs) as [|w' parts'] eqn:Hs.
  - intros [= <- <-]. exfalso. clear -Hs. destruct bs as [|b bs]; simpl in Hs; [done|].
    destruct (Z.eqb b sep); [done|]. by destruct (split sep bs).
  - intros [= <- <-]. destruct (IH w' parts' eq_refl) as [Hw Hr]. split; [by constructor|].
    destruct Hr as [[-> ->]|(rest & -> & Hr)]; [by left|]. right. by exists rest.
Qed.

Lemma digits_no_point bs : all_digits bs -> Forall (fun b => b <> 46) bs.
Proof. intros H. eapply Forall_impl; [exact H|]. simpl. lia. Qed.

Lemma split_nonempty sep bs : split sep bs <> [].
Proof. destruct bs as [|b bs]; simpl; [done|]. destruct (Z.eqb b sep); [done|]. by destruct (split sep bs). Qed.

(** The digit loops on a whole part and a fraction. *)
Definition assemble (negative : bool) (whole frac : bytes) : result Z MoneyError :=
  match whole_loop 0 whole with
   | None => Err OverflowsAtoms
   | Some atoms =>
       match i128_checked (atoms * AMOUNT_SCALE) with
       | None => Err OverflowsAtoms
       | Some atoms =>
           match i128_checked (atoms + scale_loop (frac_loop 0 frac) (8 - length frac)) with
           | None => Err OverflowsAtoms
           | Some atoms => finish negative atoms
           end
       end
   end.

Lemma assemble_iff negative whole frac a :
  all_digits whole -> all_digits frac -> (length frac <= 8)%nat ->
  assemble negative whole frac = Ok a <->
  a = (if negative then -1 else 1) * amount_value whole frac /\ in_i64 a.
Proof.
  intros Hw Hf Hl. unfold assemble. destruct (frac_atoms_spec frac Hf Hl) as [-> Hfr].
  set (f := digits_value frac * _) in *. unfold amount_value. fold f.
  pose proof (digits_value_bound whole Hw) as Hwb.
  assert (in_i64 a -> a = (if negative then -1 else 1) * (digits_value whole * AMOUNT_SCALE + f) ->
    digits_value whole * AMOUNT_SCALE + f < two127) as Hsmall.
  { unfold in_i64, i64_max, i64_min, two127. destruct negative; lia. }
  destruct (whole_loop 0 whole) as [w|] eqn:Hwl.
  - apply whole_loop_spec in Hwl as [-> Hwl]; [|done|done|done].
    fold (digits_value whole) in *.
    destruct (i128_checked (digits_value whole * AMOUNT_SCALE)) as [x|] eqn:Hx.
    + apply i128_checked_iff in Hx as [-> Hx].
      destruct (i128_checked (digits_value whole * AMOUNT_SCALE + f)) as [y|] eqn:Hy.
      * apply i128_checked_iff in Hy as [-> Hy]. apply finish_iff.
        unfold AMOUNT_SCALE, in_i128 in *. lia.
      * split; [done|]. intros [-> Hr]. specialize (Hsmall Hr eq_refl).
        rewrite (proj2 (i128_checked_iff _ (digits_value whole * AMOUNT_SCALE + f))) in Hy; [done|].
        split; [done|]. unfold in_i128, AMOUNT_SCALE, two127 in *. lia.
    + split; [done|]. intros [-> Hr]. specialize (Hsmall Hr eq_refl).
      rewrite (proj2 (i128_checked_iff _ (digits_value whole * AMOUNT_SCALE))) in Hx; [done|].
      split; [done|]. unfold in_i128, AMOUNT_SCALE, two127 in *. lia.
  - split; [done|]. intros [-> Hr]. specialize (Hsmall Hr eq_refl).
    assert (whole_loop 0 whole = Some (digits_value whole)); [|congruence].
    apply whole_loop_spec; [done|done|done|]. split; [done|].
    fold (digits_value whole). unfold AMOUNT_SCALE, two127 in *. lia.
Qed.

Lemma no_frac_parts negative whole :
  (match whole_loop 0 whole with
   | None => Err OverflowsAtoms
   | Some atoms =>
       match i128_checked (atoms * AMOUNT_SCALE) with
       | None => Err OverflowsAtoms
       | Some atoms => finish negative atoms
       end
   end : result Z MoneyError) = assemble negative whole [].
Proof.
  unfold assemble. destruct (whole_loop 0 whole) as [w|]; [|done].
  destruct (i128_checked (w * AMOUNT_SCALE)) as [x|] eqn:Hx; [|done].
  change (scale_loop (frac_loop 0 []) (8 - length (@nil Z))) with 0. rewrite Z.add_0_r.
  apply i128_checked_iff in Hx as [-> Hx]. by rewrite (proj2 (i128_checked_iff _ (w * AMOUNT_SCALE))).
Qed.

(** What [parse_body] accepts. *)
Lemma parse_body_iff negative body a :
  parse_body negative body = Ok a <->
  exists whole frac point, body = whole ++ point /\
    all_digits whole /\ all_digits frac /\ (length frac <= 8)%nat /\ whole ++ frac <> [] /\
    (point = 46 :: frac \/ point = [] /\ frac = []) /\
    a = (if negative then -1 else 1) * amount_value whole frac /\ in_i64 a.
Proof.
  unfold parse_body. split.
  - destruct (split 46 body) as [|w [|f [|g parts]]] eqn:Hs; [by destruct (split_nonempty 46 body)| | |done];
      cbn [length lookup list_lookup default id]; try change (Nat.ltb 2 1) with false; try change (Nat.ltb 2 2) with false; cbv iota.
    + destruct (split_inv _ _ _ _ Hs) as [_ [[_ ->]|(rest & _ & Hr)]];
        [|by destruct (split_nonempty 46 rest)].
      destruct (Nat.eqb_spec (length w) 0) as [|Hw]; [done|]. cbn [andb].
      destruct (forallb is_ascii_digit w) eqn:Hd; [|done]. cbn [negb].
      rewrite no_frac_parts. apply all_digits_forallb in Hd.
      rewrite assemble_iff by (done || apply Forall_nil_2 || (simpl; lia)). intros [-> Hr].
      exists w, [], []. rewrite !app_nil_r. split; [done|]. split; [done|]. split; [by apply Forall_nil|].
      split; [simpl; lia|]. split; [by intros ->|]. by split; [right|].
    + destruct (split_inv _ _ _ _ Hs) as [_ [[? _]|(rest & -> & Hr)]]; [done|].
      destruct (split_inv _ _ _ _ Hr) as [_ [[_ ->]|(rest' & _ & Hr')]];
        [|by destruct (split_nonempty 46 rest')].
      destruct (Nat.eqb (length w) 0 && Nat.eqb (length f) 0) eqn:He; [done|].
      destruct (forallb is_ascii_digit w) eqn:Hd; [|done]. cbn [negb].
      destruct (Nat.ltb_spec 8 (length f)) as [|Hl]; [destruct (whole_loop 0 w); [destruct (i128_checked _)|]; done|].
      destruct (forallb is_ascii_digit f) eqn:Hdf; [|destruct (whole_loop 0 w); [destruct (i128_checked _)|]; done]. cbn [negb].
      apply all_digits_forallb in Hd, Hdf. intros Ha. apply (assemble_iff negative w f a Hd Hdf Hl) in Ha as [-> Hin].
      exists w, f, (46 :: f). split_and!; try done; [|by left].
      intros [-> ->]%app_eq_nil. done.
  - intros (w & f & point & -> & Hw & Hf & Hl & Hne & Hp & Ha).
    assert (forallb is_ascii_digit w = true) as Hdw by (by apply forallb_digits).
    assert (forallb is_ascii_digit f = true) as Hdf by (by apply forallb_digits).
    destruct Hp as [->|[-> ->]].
    + rewrite split_app_sep, split_no_sep by (by apply digits_no_point).
      cbn [length lookup list_lookup default id]. try change (Nat.ltb 2 1) with false; try change (Nat.ltb 2 2) with false; cbv iota.
      assert (Nat.eqb (length w) 0 && Nat.eqb (length f) 0 = false) as ->.
      { destruct w; [|done]. by destruct f. }
      rewrite Hdw, Hdf. cbn [negb]. rewrite (proj2 (Nat.ltb_ge _ _)) by done. by apply assemble_iff.
    + rewrite app_nil_r, split_no_sep by (by apply digits_no_point).
      cbn [length lookup list_lookup default id]. try change (Nat.ltb 2 1) with false; try change (Nat.ltb 2 2) with false; cbv iota.
      rewrite app_nil_r in Hne. destruct w as [|b w]; [done|].
      cbn [length Nat.eqb andb]. rewrite Hdw. cbn [negb]. rewrite no_frac_parts. by apply assemble_iff.
Qed.

(** ** Parsing is exact *)

Lemma body_head whole frac point : all_digits whole -> whole ++ frac <> [] ->
  (point = 46 :: frac \/ point = [] /\ frac = []) ->
  exists b rest, whole ++ point = b :: rest /\ 46 <= b <= 57.
Proof.
  intros Hw Hne Hp. destruct Hw as [|b w Hb _].
  - destruct Hp as [->|[-> ->]]; [|done]. exists 46, frac. simpl. split; [done|lia].
  - exists b, (w ++ point). simpl. split; [done|lia].
Qed.

Lemma from_decimal_str_iff input a :
  from_decimal_str input = Ok a <-> denotes (trim input) a /\ in_i64 a.
Proof.
  unfold from_decimal_str. set (s := trim input). split.
  - destruct s as [|b s]; [done|]. cbn [length Nat.eqb split_sign].
    assert (forall neg body, (if Nat.eqb (length body) 0 then Err MissingDigits
      else parse_body neg body) = Ok a -> parse_body neg body = Ok a) as Hne.
    { intros neg body. by destruct (Nat.eqb (length body) 0). }
    destruct (Z.eqb_spec b 45) as [->|H45]; [|destruct (Z.eqb_spec b 43) as [->|H43]];
      intros (w & f & point & Hb & Hw & Hf & Hl & Hnil & Hp & -> & Hin)%Hne%parse_body_iff;
      (split; [|exact Hin]); rewrite Hb.
    + apply (denotes_decimal [45] w point f (-1)); naive_solver.
    + apply (denotes_decimal [43] w point f 1); naive_solver.
    + apply (denotes_decimal [] w point f 1); naive_solver.
  - intros [Hd Hin]. destruct Hd as [sign w point f sgn Hs Hw Hf Hl Hne Hp].
    destruct (body_head w f point Hw Hne Hp) as (b & rest & Hb & Hr).
    assert (forall neg : bool, (if neg then -1 else 1) = sgn -> parse_body neg (w ++ point) =
      Ok (sgn * amount_value w f)) as Hparse.
    { intros neg <-. apply parse_body_iff. exists w, f, point. naive_solver. }
    destruct Hs as [[-> ->]|[[->| ->] ->]]; simpl app; cbn [length Nat.eqb split_sign].
    + rewrite Z.eqb_refl, Hb. cbn [length Nat.eqb]. rewrite <- Hb. by apply Hparse.
    + change (Z.eqb 43 45) with false. rewrite Z.eqb_refl, Hb. cbn [length Nat.eqb]. rewrite <- Hb.
      by apply Hparse.
    + rewrite Hb. cbn [length Nat.eqb split_sign].
      rewrite (proj2 (Z.eqb_neq b 45)), (proj2 (Z.eqb_neq b 43)) by lia.
      cbn [length Nat.eqb]. rewrite <- Hb. by apply Hparse.
Qed.

(** parsing a decimal amount succeeds exactly on the strings of the decimal
    grammar (optional sign, digits, at most eight decimal places, surrounding
    white space ignored) whose value is an [i64] number of atoms, and then
    returns that value exactly. *)
Theorem from_decimal_str_exact input a :
  from_decimal_str input = Ok a <-> denotes (trim input) a /\ in_i64 a.
Proof. apply from_decimal_str_iff. Qed.

(** ** Printing *)

Lemma printed_denotes a : in_i64 a -> denotes (to_decimal_string a) a.
Proof.
  intros Ha. unfold to_decimal_string. set (m := if Z.ltb a 0 then - a else a).
  assert (0 <= m) as Hm by (unfold m; destruct (Z.ltb_spec a 0); lia).
  rewrite Z.quot_div_nonneg, Z.rem_mod_nonneg by (unfold AMOUNT_SCALE; lia).
  pose proof (Z.div_mod m AMOUNT_SCALE) as Hdm. pose proof (Z.mod_pos_bound m AMOUNT_SCALE) as Hmb.
  assert (0 <= m / AMOUNT_SCALE) as Hq by (apply Z.div_pos; unfold AMOUNT_SCALE; lia).
  set (q := m / AMOUNT_SCALE) in *. set (r := m mod AMOUNT_SCALE) in *.
  assert (forall point frac, all_digits frac -> (length frac <= 8)%nat ->
      (point = 46 :: frac \/ point = [] /\ frac = []) -> amount_value (print_nonneg q) frac = m ->
      denotes (if Z.ltb a 0 then 45 :: print_nonneg q ++ point else print_nonneg q ++ point) a) as Hden.
  { intros point frac Hf Hl Hp Hv. pose proof (print_nonneg_digits q Hq) as Hd.
    assert (print_nonneg q ++ frac <> []) by (intros [He _]%app_eq_nil; by apply (print_nonneg_nonempty q)).
    destruct (Z.ltb_spec a 0).
    - replace a with (-1 * amount_value (print_nonneg q) frac) by (rewrite Hv; unfold m; lia).
      apply (denotes_decimal [45]); naive_solver.
    - replace a with (1 * amount_value (print_nonneg q) frac) by (rewrite Hv; unfold m; lia).
      apply (denotes_decimal []); naive_solver. }
  destruct (Z.eqb_spec r 0) as [Hr0|Hr0].
  - specialize (Hden [] []). rewrite app_nil_r in Hden. apply Hden; [by apply Forall_nil|simpl; lia|by right|].
    unfold amount_value. rewrite print_nonneg_value by done. change (digits_value []) with 0.
    unfold AMOUNT_SCALE in *. lia.
  - destruct (strip_zeros_app (print_padded 8 r)) as [n Hn].
    assert (0 <= r < 10 ^ Z.of_nat 8) as Hr8 by (unfold AMOUNT_SCALE in Hmb; simpl; lia).
    pose proof (print_padded_length 8 r Hr8 ltac:(lia)) as Hlen. rewrite Hn, length_app, length_replicate in Hlen.
    apply (Hden (46 :: strip_zeros (print_padded 8 r)) (strip_zeros (print_padded 8 r))).
    + pose proof (print_padded_digits 8 r) as Hd. rewrite Hn in Hd. apply Forall_app in Hd as [Hd _]; [done|lia].
    + lia.
    + by left.
    + unfold amount_value. rewrite print_nonneg_value by done.
      pose proof (print_padded_value 8 r) as Hv. rewrite Hn, digits_value_snoc_zeros in Hv.
      replace (8 - Z.of_nat (length (strip_zeros (print_padded 8 r)))) with (Z.of_nat n) by lia.
      rewrite Hv by lia. unfold AMOUNT_SCALE in *. lia.
Qed.

(** A denoting string has no white space at its ends. *)
Lemma denotes_trimmed s a : denotes s a -> trim s = s.
Proof.
  intros [sign w point f sgn Hs Hw Hf Hl Hne Hp].
  assert (Forall solid (sign ++ w ++ point)) as Hsolid.
  { assert (forall l, all_digits l -> Forall solid l) as Hdig
      by (intros l H; eapply Forall_impl; [exact H|]; unfold solid; simpl; lia).
    apply Forall_app. split; [|apply Forall_app; split; [by apply Hdig|]].
    - destruct Hs as [[-> _]|[[->| ->] _]]; repeat constructor; unfold solid; lia.
    - destruct Hp as [->|[-> _]]; [|by apply Forall_nil]. apply Forall_cons. split; [unfold solid; lia|].
      by apply Hdig. }
  destruct (body_head w f point Hw Hne Hp) as (b & rest & Hb & _).
  destruct (sign ++ w ++ point) as [|x bs] eqn:Heq; [by rewrite Hb in Heq; destruct sign|].
  destruct (exists_last (l := x :: bs)) as (l & y & Hy); [done|].
  apply (trim_solid x y bs l Hy).
  - by apply Forall_cons in Hsolid as [? _].
  - rewrite Hy in Hsolid. apply Forall_app in Hsolid as [_ Hsolid]. by apply Forall_cons in Hsolid as [? _].
Qed.

(** printing an amount and parsing the text gives the amount back, for every
    [i64] number of atoms, [i64::MIN] included. *)
Theorem amount_text_roundtrip a : in_i64 a -> from_decimal_str (to_decimal_string a) = Ok a.
Proof.
  intros Ha. pose proof (printed_denotes a Ha) as Hd. apply from_decimal_str_iff.
  by rewrite (denotes_trimmed _ _ Hd).
Qed.

Lemma amount_text_roundtrip_witness :
  to_decimal_string (-123450000) = [45; 49; 46; 50; 51; 52; 53] /\
  from_decimal_str (to_decimal_string (-123450000)) = Ok (-123450000).
Proof. split; [reflexivity|]. apply (amount_text_roundtrip (-123450000)). machine_unfold. lia. Defined.

(** ** Scaled products *)

(** The product in atoms, rounded to nearest with halves up, refused when an
    argument is negative or the result exceeds [i64::MAX]. *)
Lemma checked_mul_scaled_spec a b : in_i64 a -> in_i64 b ->
  checked_mul_scaled a b =
    if Z.ltb a 0 || Z.ltb b 0 then Err NegativeAmount
    else let r := (a * b + AMOUNT_SCALE / 2) / AMOUNT_SCALE in
         if Z.ltb i64_max r then Err OverflowsAtoms else Ok r.
Proof.
  intros Ha Hb. unfold checked_mul_scaled.
  destruct (Z.ltb_spec a 0); [done|]. destruct (Z.ltb_spec b 0); [done|]. simpl.
  unfold i128_mul, i128_add. change (Z.quot AMOUNT_SCALE 2) with (AMOUNT_SCALE / 2).
  assert (0 <= a * b < 2 ^ 126) as Hp by (machine_unfold; nia).
  assert (AMOUNT_SCALE / 2 = 50000000) as -> by reflexivity.
  rewrite !wrap_i128_id by (unfold in_i128, two127; rewrite ?wrap_i128_id; unfold in_i128, two127; lia).
  rewrite Z.quot_div_nonneg by (unfold AMOUNT_SCALE; lia). done.
Qed.

(** ** Freezing and releasing

    A history of an account: every successful freeze adds a hold, a hold is
    released at most once and in full. *)
Inductive hold_step : AccountBalance * list Z -> AccountBalance * list Z -> Prop :=
| hold_freeze a holds amount : in_i64 amount ->
    hold_step (a, holds)
      ((AccountBalance.try_freeze_atoms a amount).1,
       if (AccountBalance.try_freeze_atoms a amount).2 && Z.ltb 0 amount then amount :: holds else holds)
| hold_release a holds1 amount holds2 :
    hold_step (a, holds1 ++ amount :: holds2) (AccountBalance.release_atoms a amount, holds1 ++ holds2)
| hold_settle a holds1 amount holds2 delta : in_i64 delta -> - amount <= delta ->
    hold_step (a, holds1 ++ amount :: holds2)
      (AccountBalance.apply_atoms_delta a delta amount, holds1 ++ holds2).

Definition holds_sum (holds : list Z) : Z := foldr Z.add 0 holds.

Definition account_ok (st : AccountBalance * list Z) : Prop :=
  let '(a, holds) := st in
  Forall (fun h => 0 < h) holds /\ ab_frozen_atoms a = holds_sum holds /\
  holds_sum holds <= ab_balance_atoms a <= i64_max.

Lemma holds_sum_app l k : holds_sum (l ++ k) = holds_sum l + holds_sum k.
Proof. unfold holds_sum. induction l as [|h l IH]; simpl; lia. Qed.

Lemma holds_sum_nonneg l : Forall (fun h => 0 < h) l -> 0 <= holds_sum l.
Proof. unfold holds_sum. induction 1; simpl; lia. Qed.

(** Taking a hold off the list. *)
Lemma account_ok_unhold a l amount k : account_ok (a, l ++ amount :: k) ->
  Forall (fun h => 0 < h) (l ++ k) /\ 0 < amount /\
  ab_frozen_atoms a = amount + holds_sum (l ++ k) /\ 0 <= holds_sum (l ++ k) /\
  amount + holds_sum (l ++ k) <= ab_balance_atoms a <= i64_max.
Proof.
  intros (Hp & Hf & Hb). apply Forall_app in Hp as [Hl [Ha Hk]%Forall_cons].
  rewrite holds_sum_app in *. change (holds_sum (amount :: k)) with (amount + holds_sum k) in *.
  pose proof (holds_sum_nonneg l Hl). pose proof (holds_sum_nonneg k Hk).
  split; [by apply Forall_app|]. lia.
Qed.

(** through any sequence of freezes, releases of holds and settlements that
    spend at most the hold they release, the frozen amount is exactly the sum of
    the outstanding holds and never exceeds the balance: available funds never
    become negative. *)
Theorem holds_covered st st' : account_ok st -> rtc hold_step st st' -> account_ok st'.
Proof.
  intros Hok Hr. induction Hr as [|st1 st2 st3 Hstep _ IH]; [done|]. apply IH. clear IH.
  destruct Hstep as [a holds amount Hin|a l amount k|a l amount k delta Hd Hle].
  - destruct Hok as (Hp & Hf & Hb). pose proof (holds_sum_nonneg holds Hp) as Hn.
    unfold AccountBalance.try_freeze_atoms.
    destruct (Z.leb_spec amount 0); simpl.
    { by rewrite (proj2 (Z.ltb_ge 0 amount)) by done. }
    unfold AccountBalance.available_atoms. rewrite Hf, i64_sub_id by (machine_unfold; lia).
    destruct (Z.leb_spec amount (ab_balance_atoms a - holds_sum holds)); simpl; [|done].
    rewrite (proj2 (Z.ltb_lt 0 amount)) by lia. split; [by constructor|]. simpl.
    change (holds_sum (amount :: holds)) with (amount + holds_sum holds).
    rewrite i64_add_id by (machine_unfold; lia). lia.
  - destruct (account_ok_unhold _ _ _ _ Hok) as (Hp & Ha & Hf & Hn & Hb).
    unfold AccountBalance.release_atoms. rewrite (proj2 (Z.leb_gt amount 0)) by lia.
    split; [done|]. simpl. unfold i64_saturating_sub, i64_clamp. machine_unfold. lia.
  - destruct (account_ok_unhold _ _ _ _ Hok) as (Hp & Ha & Hf & Hn & Hb).
    unfold AccountBalance.apply_atoms_delta, AccountBalance.release_atoms.
    rewrite (proj2 (Z.leb_gt amount 0)) by lia. split; [done|]. simpl.
    unfold i64_saturating_sub, i64_saturating_add, i64_clamp. machine_unfold. lia.
Qed.

Lemma holds_covered_witness : account_ok (mkAccountBalance 1000 300, [300]).
Proof.
  apply (holds_covered (mkAccountBalance 1000 0, [])).
  - split; [by apply Forall_nil|]. simpl. machine_unfold. lia.
  - apply rtc_once. apply (hold_freeze (mkAccountBalance 1000 0) [] 300). machine_unfold. lia.
Defined.

(** Releasing more than is frozen leaves a negative frozen amount, so the
    account can then freeze more than its balance. *)
Lemma over_release_inflates :
  let a := AccountBalance.release_atoms (mkAccountBalance 1000 100) 400 in
  ab_frozen_atoms a = -300 /\ AccountBalance.available_atoms a = 1300 /\
  (AccountBalance.try_freeze_atoms a 1300).2 = true.
Proof. done. Qed.

(** [from_f64_round] compares with [i64::MAX as f64], which is 2^63: a value of
    2^63 atoms is accepted and saturates one atom below. *)
Lemma from_f64_round_saturates :
  let v := f64_of_bits 4770853034856057914 in
  f64_round (f64_mul v (i64_as_f64 AMOUNT_SCALE)) = i64_as_f64 two63 /\
  from_f64_round v = Ok i64_max.
Proof. vm_compute. done. Qed.
