(* ===== verification/SymbolRules.v ===== *)
(** Trading rules of the listed symbols ([src/src/desk/symbol_rules.rs]): tick
    and lot sizes, the exact conversions between grid units and atoms, the
    floating-point entry conversions, symbol validation and order-shape
    normalisation.  An unknown symbol panics, as in a release build.  The
    theorems show that the integer conversions are inverse to each other and
    that the risk engine's notional of a fill is the exact product of its price
    and quantity in atoms. *)
From Stdlib Require Import ZArith Lia String.
From stdpp Require Import base numbers list.
From S2P Require Import Prelude Bytes Fixed Types F64 Text Money RiskCalc.

#[local] Open Scope Z_scope.

Record SymbolRules := mkSymbolRules {
  sr_price_tick : f64;
  sr_quantity_step : f64;
  sr_price_tick_atoms : Z;
  sr_quantity_step_atoms : Z;
  sr_min_notional : f64;
  sr_notional_scale : Z;
  sr_default_leverage : Z;
  sr_maintenance_rate_bps : Z;
  sr_margin_call_rate_bps : Z;
  sr_price_band_bps : Z;
  sr_max_position_lots : Z;
  sr_max_symbol_oi_lots : Z;
}.

Record FixedOrderShape := mkFixedOrderShape {
  fos_price_ticks : option Z;
  fos_quantity_lots : Z;
}.

Record FixedOrderInput := mkFixedOrderInput {
  foi_id : Z;
  foi_side : Side;
  foi_price_ticks : Z;
  foi_quantity_lots : Z;
  foi_time_in_force : TimeInForce;
  foi_timestamp : Z;
  foi_is_market : bool;
}.

(** ** Conversions *)

(** [to_units] *)
Definition to_units (value step : f64) (misaligned_error : string) : result Z string :=
  if f64_le value f64_zero || negb (f64_is_finite value)
     || f64_le step f64_zero || negb (f64_is_finite step) then Err misaligned_error
  else
    let units := f64_div value step in
    if f64_lt (i64_as_f64 i64_max) units || f64_lt units (i64_as_f64 i64_min)
    then Err misaligned_error
    else
      let rounded := f64_round units in
      if f64_lt (f64_abs (f64_sub units rounded))
           (f64_mul (f64_max (f64_abs units) (i64_as_f64 1)) (f64_lit 1 1000000000))
      then Ok (f64_as_i64 rounded)
      else Err misaligned_error.

Module SymbolRules.
(** [for_symbol]; [None] is the panic on an unknown symbol. *)
Definition for_symbol (symbol : bytes) : option SymbolRules :=
  if decide (symbol = str "BTC_USDT") then
    Some (mkSymbolRules (f64_lit 1 100) (f64_lit 1 1000000) 1000000 100 (i64_as_f64 5) 1000000
            10 50 75 10000 0 0)
  else if decide (symbol = str "ETH_USDT") then
    Some (mkSymbolRules (f64_lit 1 100) (f64_lit 1 10000) 1000000 10000 (i64_as_f64 5) 10000
            10 50 75 10000 0 0)
  else if decide (symbol = str "SOL_USDT") then
    Some (mkSymbolRules (f64_lit 1 1000) (f64_lit 1 1000) 100000 100000 (i64_as_f64 5) 10000
            10 50 75 10000 0 0)
  else None.

(** [to_uppercase] on the ASCII letters a symbol is made of. *)
Definition to_uppercase (s : bytes) : bytes :=
  (fun b => if Z.leb 97 b && Z.leb b 122 then b - 32 else b) <$> s.

(** The closure [get]: the first key that is set and parses. *)
Fixpoint env_get (env : bytes -> option bytes) (keys : list bytes) (d : Z) : Z :=
  match keys with
  | [] => d
  | k :: keys => match env k ≫= parse_i64 with Some v => v | None => env_get env keys d end
  end.

(** [fee_bps]: the maker's and the taker's fee, from the environment. *)
Definition fee_bps (env : bytes -> option bytes) (symbol : bytes) : Z * Z :=
  let up := to_uppercase symbol in
  (env_get env [str "FEE_" ++ up ++ str "_MAKER_BPS"; str "MAKER_FEE_BPS"] 1,
   env_get env [str "FEE_" ++ up ++ str "_TAKER_BPS"; str "TAKER_FEE_BPS"] 5).

Definition price_to_ticks (r : SymbolRules) (price : f64) : result Z string :=
  to_units price (sr_price_tick r) "price does not match tick size".

Definition quantity_to_lots (r : SymbolRules) (quantity : f64) : result Z string :=
  to_units quantity (sr_quantity_step r) "quantity does not match lot size".

Definition ticks_to_price (r : SymbolRules) (ticks : Z) : f64 :=
  f64_mul (i64_as_f64 ticks) (sr_price_tick r).

Definition lots_to_quantity (r : SymbolRules) (lots : Z) : f64 :=
  f64_mul (i64_as_f64 lots) (sr_quantity_step r).

Definition ticks_to_price_atoms (r : SymbolRules) (ticks : Z) : result Z string :=
  match i64_checked_mul ticks (sr_price_tick_atoms r) with
  | Some a => Ok a
  | None => Err "price overflows atoms"%string
  end.

Definition lots_to_quantity_atoms (r : SymbolRules) (lots : Z) : result Z string :=
  match i64_checked_mul lots (sr_quantity_step_atoms r) with
  | Some a => Ok a
  | None => Err "quantity overflows atoms"%string
  end.

(** The outer [option] is the panic of a division by a zero tick. *)
Definition price_atoms_to_ticks (r : SymbolRules) (a : Z) : option (result Z string) :=
  if Z.leb a 0 then Some (Err "price must be > 0"%string)
  else
    m ← i64_rem a (sr_price_tick_atoms r);
    if negb (Z.eqb m 0) then Some (Err "price does not match tick size"%string)
    else q ← i64_div a (sr_price_tick_atoms r); Some (Ok q).

Definition quantity_atoms_to_lots (r : SymbolRules) (a : Z) : option (result Z string) :=
  if Z.leb a 0 then Some (Err "quantity must be > 0"%string)
  else
    m ← i64_rem a (sr_quantity_step_atoms r);
    if negb (Z.eqb m 0) then Some (Err "quantity does not match lot size"%string)
    else q ← i64_div a (sr_quantity_step_atoms r); Some (Ok q).
End SymbolRules.

(** ** Validation *)

Definition MAX_SYMBOL_LEN : nat := 16.

Definition symbol_byte (b : Z) : bool :=
  (Z.leb 65 b && Z.leb b 90) || is_ascii_digit b || Z.eqb b 95.

Definition validate_symbol (symbol : bytes) : result unit string :=
  if Nat.eqb (length symbol) 0 then Err "symbol must not be empty"%string
  else if Nat.ltb MAX_SYMBOL_LEN (length symbol) then Err "symbol too long"%string
  else if negb (forallb symbol_byte symbol) then Err "symbol has invalid characters"%string
  else Ok ().

Definition normalize_order_shape (symbol order_type : bytes) (price : option f64) (quantity : f64)
  : option (result FixedOrderShape string) :=
  match validate_symbol symbol with
  | Err e => Some (Err e)
  | Ok _ =>
      rules ← SymbolRules.for_symbol symbol;
      if f64_le quantity f64_zero || negb (f64_is_finite quantity)
      then Some (Err "quantity must be > 0"%string)
      else match SymbolRules.quantity_to_lots rules quantity with
      | Err e => Some (Err e)
      | Ok quantity_lots =>
          if decide (order_type = str "market")
          then Some (Ok (mkFixedOrderShape None quantity_lots))
          else match price with
          | None => Some (Err "price required for non-market orders"%string)
          | Some price =>
              if f64_le price f64_zero || negb (f64_is_finite price)
              then Some (Err "price required for non-market orders"%string)
              else match SymbolRules.price_to_ticks rules price with
              | Err e => Some (Err e)
              | Ok price_ticks =>
                  if f64_lt (f64_mul price quantity) (sr_min_notional rules)
                  then Some (Err "order notional is below minimum"%string)
                  else Some (Ok (mkFixedOrderShape (Some price_ticks) quantity_lots))
              end
          end
      end
  end.

Definition validate_order_shape (symbol order_type : bytes) (price : option f64) (quantity : f64)
  : option (result unit string) :=
  r ← normalize_order_shape symbol order_type price quantity;
  Some (match r with Ok _ => Ok () | Err e => Err e end).

(** [FixedOrderInput::from_order_fields] *)
Definition from_order_fields (id : Z) (symbol : bytes) (side : Side) (order_type : bytes)
  (price : option f64) (quantity : f64) (time_in_force : TimeInForce) (timestamp : Z)
  : option (result FixedOrderInput string) :=
  r ← normalize_order_shape symbol order_type price quantity;
  Some (match r with
        | Err e => Err e
        | Ok shape =>
            Ok (mkFixedOrderInput id side (default 0 (fos_price_ticks shape)) (fos_quantity_lots shape)
                  time_in_force timestamp (negb (bool_decide (is_Some (fos_price_ticks shape)))))
        end).

(** ** Lemmas *)

(** What is known of the listed symbols. *)
Record listed (r : SymbolRules) : Prop := {
  listed_tick : 0 < sr_price_tick_atoms r;
  listed_step : 0 < sr_quantity_step_atoms r;
  listed_scale : 0 < sr_notional_scale r;
  (** one lot at one tick is a whole number of atoms, the cent's atoms over the
      notional scale *)
  listed_unit : exists k, ATOMS_PER_CENT = k * sr_notional_scale r /\
    sr_price_tick_atoms r * sr_quantity_step_atoms r = k * AMOUNT_SCALE;
}.

Lemma for_symbol_listed symbol r : SymbolRules.for_symbol symbol = Some r -> listed r.
Proof.
  unfold SymbolRules.for_symbol. repeat case_decide; intros [= <-]; (split; [done|done|done|]);
    [by exists 1 | by exists 100 | by exists 100].
Qed.

(** Exact division by a grid unit. *)
Lemma exact_units u a k : 0 < u -> 0 < a ->
  (m ← i64_rem a u; if negb (Z.eqb m 0) then None else i64_div a u) = Some k <-> a = k * u.
Proof.
  intros Hu Ha. rewrite i64_rem_ok, i64_div_ok by done. bind_step. split.
  - destruct (Z.eqb_spec (Z.rem a u) 0) as [Hr|]; [|done]. intros [= <-].
    pose proof (Z.quot_rem' a u). lia.
  - intros ->. rewrite Z.rem_mul, Z.quot_mul by lia. done.
Qed.

Section grid.
Context (symbol : bytes) (r : SymbolRules).
Context (Hr : SymbolRules.for_symbol symbol = Some r).

Lemma ticks_to_price_atoms_iff k a :
  SymbolRules.ticks_to_price_atoms r k = Ok a <-> a = k * sr_price_tick_atoms r /\ in_i64 a.
Proof.
  unfold SymbolRules.ticks_to_price_atoms, i64_checked_mul. rewrite <- fits_i64_spec.
  destruct (fits_i64 (k * sr_price_tick_atoms r)) eqn:Hf; naive_solver congruence.
Qed.

Lemma lots_to_quantity_atoms_iff k a :
  SymbolRules.lots_to_quantity_atoms r k = Ok a <-> a = k * sr_quantity_step_atoms r /\ in_i64 a.
Proof.
  unfold SymbolRules.lots_to_quantity_atoms, i64_checked_mul. rewrite <- fits_i64_spec.
  destruct (fits_i64 (k * sr_quantity_step_atoms r)) eqn:Hf; naive_solver congruence.
Qed.

Lemma price_atoms_to_ticks_iff a k :
  SymbolRules.price_atoms_to_ticks r a = Some (Ok k) <-> 0 < a /\ a = k * sr_price_tick_atoms r.
Proof.
  pose proof (for_symbol_listed _ _ Hr) as Hl. unfold SymbolRules.price_atoms_to_ticks.
  destruct (Z.leb_spec a 0) as [|Ha]; [naive_solver lia|].
  rewrite <- (exact_units _ a k (listed_tick _ Hl) Ha).
  rewrite i64_rem_ok, i64_div_ok by apply Hl. bind_step.
  destruct (negb (Z.eqb _ 0)); naive_solver.
Qed.

Lemma quantity_atoms_to_lots_iff a k :
  SymbolRules.quantity_atoms_to_lots r a = Some (Ok k) <-> 0 < a /\ a = k * sr_quantity_step_atoms r.
Proof.
  pose proof (for_symbol_listed _ _ Hr) as Hl. unfold SymbolRules.quantity_atoms_to_lots.
  destruct (Z.leb_spec a 0) as [|Ha]; [naive_solver lia|].
  rewrite <- (exact_units _ a k (listed_step _ Hl) Ha).
  rewrite i64_rem_ok, i64_div_ok by apply Hl. bind_step.
  destruct (negb (Z.eqb _ 0)); naive_solver.
Qed.
End grid.

(** for every listed symbol the integer conversions are inverse to each
    other: a positive amount of atoms is accepted as ticks (lots) exactly when
    it is what those ticks (lots) convert to, so no price or quantity is ever
    rounded on the way in or out. *)
Theorem grid_roundtrip symbol r a k :
  SymbolRules.for_symbol symbol = Some r -> in_i64 a -> 0 < k ->
  (SymbolRules.price_atoms_to_ticks r a = Some (Ok k) <-> SymbolRules.ticks_to_price_atoms r k = Ok a) /\
  (SymbolRules.quantity_atoms_to_lots r a = Some (Ok k) <-> SymbolRules.lots_to_quantity_atoms r k = Ok a).
Proof.
  intros Hr Ha Hk. pose proof (for_symbol_listed _ _ Hr) as Hl.
  rewrite (price_atoms_to_ticks_iff symbol r Hr), (quantity_atoms_to_lots_iff symbol r Hr),
    ticks_to_price_atoms_iff, lots_to_quantity_atoms_iff.
  pose proof (listed_tick _ Hl). pose proof (listed_step _ Hl). split; split; naive_solver nia.
Qed.

Lemma grid_roundtrip_witness : exists r,
  SymbolRules.for_symbol (str "BTC_USDT") = Some r /\
  (SymbolRules.price_atoms_to_ticks r 6400012000000 = Some (Ok 6400012) <->
   SymbolRules.ticks_to_price_atoms r 6400012 = Ok 6400012000000).
Proof.
  eexists. split; [reflexivity|].
  apply (grid_roundtrip (str "BTC_USDT") _ 6400012000000 6400012 eq_refl); machine_unfold; lia.
Defined.

(** for every listed symbol the notional the risk engine computes from ticks
    and lots is exactly the price in atoms times the quantity in atoms that the
    settlement arithmetic computes: the two units of account never drift. *)
Theorem notional_agrees symbol r ticks lots price qty cost :
  SymbolRules.for_symbol symbol = Some r -> 0 <= ticks -> 0 <= lots ->
  SymbolRules.ticks_to_price_atoms r ticks = Ok price ->
  SymbolRules.lots_to_quantity_atoms r lots = Ok qty ->
  AmountAtoms.checked_mul_scaled price qty = Ok cost ->
  calc_notional_atoms ticks lots (sr_notional_scale r) = Some cost.
Proof.
  intros Hr Ht Hl Hp Hq Hc. destruct (for_symbol_listed _ _ Hr) as [Htick Hstep Hscale (k & Hk & Hu)].
  apply ticks_to_price_atoms_iff in Hp as [Hp Hpi].
  apply lots_to_quantity_atoms_iff in Hq as [Hq Hqi].
  rewrite checked_mul_scaled_spec in Hc by done.
  assert (price * qty = ticks * lots * k * AMOUNT_SCALE) as Hpq.
  { rewrite Hp, Hq. transitivity (ticks * lots * (sr_price_tick_atoms r * sr_quantity_step_atoms r)); [ring|].
    rewrite Hu. ring. }
  assert (0 <= price /\ 0 <= qty) as [Hp0 Hq0] by nia.
  rewrite (proj2 (Z.ltb_ge price 0)), (proj2 (Z.ltb_ge qty 0)) in Hc by lia. cbn [orb] in Hc.
  rewrite Hpq in Hc.
  assert ((ticks * lots * k * AMOUNT_SCALE + AMOUNT_SCALE / 2) / AMOUNT_SCALE = ticks * lots * k) as Hd.
  { rewrite Z.add_comm, Z.div_add by done. done. }
  rewrite Hd in Hc. destruct (Z.ltb_spec i64_max (ticks * lots * k)) as [|Hmax]; [done|].
  injection Hc as <-.
  assert (0 < k) by (unfold ATOMS_PER_CENT in Hk; nia).
  assert (0 <= ticks * lots) by nia.
  assert (Z.quot (ticks * lots * ATOMS_PER_CENT) (sr_notional_scale r) = ticks * lots * k) as Hquot.
  { rewrite Hk, Z.mul_assoc. apply Z.quot_mul. lia. }
  rewrite calc_notional_exact; [by rewrite Hquot | done | |].
  - unfold two127, ATOMS_PER_CENT in *. assert (ticks * lots <= i64_max) by nia. machine_unfold. lia.
  - rewrite Hquot. machine_unfold. nia.
Qed.

Lemma notional_agrees_witness : exists r,
  SymbolRules.for_symbol (str "ETH_USDT") = Some r /\
  calc_notional_atoms 250000 30000 (sr_notional_scale r) = Some 750000000000.
Proof.
  eexists. split; [reflexivity|].
  apply (notional_agrees (str "ETH_USDT") _ 250000 30000 250000000000 300000000 750000000000 eq_refl);
    [lia | lia | reflexivity | reflexivity | reflexivity].
Defined.
