(* ===== verification/Pod.v ===== *)
(** Plain-old-data memory images.

    The transport layer sends [#[repr(C, packed)]] structs as their raw bytes
    ([slice::from_raw_parts], [transmute]) and reads them back with
    [ptr::read_unaligned].  A [fmt A] describes such an image: its size, how a
    value is laid out, how it is read back, and which values the Rust type
    holds.  Formats are built from the machine integers and byte arrays with
    [⊗] (a packed struct is the concatenation of its fields) and [fiso] (a
    record is the tuple of its fields).  An [f64] is carried as its 64-bit
    pattern, a little-endian host is assumed, as the source does. *)
From Stdlib Require Import ZArith Lia.
From stdpp Require Import base numbers list.
From S2P Require Import Prelude Bytes.

#[local] Open Scope Z_scope.

Record fmt (A : Type) : Type := Fmt {
  fmt_size : nat;
  fmt_write : A -> bytes;
  fmt_read : bytes -> A;
  fmt_ok : A -> Prop;
}.
Arguments Fmt {A} _ _ _ _.
Arguments fmt_size {A} _.
Arguments fmt_write {A} _ _.
Arguments fmt_read {A} _ _.
Arguments fmt_ok {A} _ _.

Declare Scope fmt_scope.
Delimit Scope fmt_scope with fmt.
Bind Scope fmt_scope with fmt.

(** What every format promises: images have the declared size, reading inverts
    writing whatever follows in the buffer, and every byte string long enough
    is the image of exactly one value. *)
Class FmtLaws {A} (F : fmt A) : Prop := {
  fmt_write_length a : fmt_ok F a -> length (fmt_write F a) = fmt_size F;
  fmt_write_bytes a : fmt_ok F a -> Forall is_byte (fmt_write F a);
  fmt_read_write a rest : fmt_ok F a -> fmt_read F (fmt_write F a ++ rest) = a;
  fmt_read_ok bs : Forall is_byte bs -> (fmt_size F <= length bs)%nat -> fmt_ok F (fmt_read F bs);
  fmt_write_read bs : Forall is_byte bs -> (fmt_size F <= length bs)%nat ->
    fmt_write F (fmt_read F bs) = take (fmt_size F) bs;
}.

(** ** Formats of the primitive types *)

Definition unsigned (n : nat) : fmt Z :=
  Fmt n (to_le n) (fun bs => from_le (take n bs)) (fun z => 0 <= z < 256 ^ Z.of_nat n).

(** Two's complement of [8 * n] bits. *)
Definition sign_extend (n : nat) (u : Z) : Z :=
  if Z.ltb u (256 ^ Z.of_nat n / 2) then u else u - 256 ^ Z.of_nat n.

Definition signed (n : nat) : fmt Z :=
  Fmt n (to_le n) (fun bs => sign_extend n (from_le (take n bs)))
    (fun z => - (256 ^ Z.of_nat n / 2) <= z < 256 ^ Z.of_nat n / 2).

(** [[u8; N]] *)
Definition array (n : nat) : fmt bytes :=
  Fmt n id (take n) (fun bs => length bs = n /\ Forall is_byte bs).

Definition fpair {A B} (F : fmt A) (G : fmt B) : fmt (A * B) :=
  Fmt (fmt_size F + fmt_size G)
    (fun p => fmt_write F p.1 ++ fmt_write G p.2)
    (fun bs => (fmt_read F bs, fmt_read G (drop (fmt_size F) bs)))
    (fun p => fmt_ok F p.1 /\ fmt_ok G p.2).

Definition fiso {A B} (mk : A -> B) (un : B -> A) (F : fmt A) : fmt B :=
  Fmt (fmt_size F) (fun b => fmt_write F (un b)) (fun bs => mk (fmt_read F bs))
    (fun b => fmt_ok F (un b)).

Notation "F ⊗ G" := (fpair F G) (at level 45, right associativity) : fmt_scope.
Notation u8 := (unsigned 1).
Notation u16 := (unsigned 2).
Notation u64 := (unsigned 8).
Notation i32 := (signed 4).
Notation i64 := (signed 8).
(** An [f64] is its bit pattern. *)
Notation f64_bits := (unsigned 8).

(** ** The laws *)

Lemma from_le_take n bs : Forall is_byte bs -> (n <= length bs)%nat ->
  0 <= from_le (take n bs) < 256 ^ Z.of_nat n.
Proof.
  intros Hb Hn. pose proof (from_le_bound (take n bs) (Forall_take _ n _ Hb)) as Hr.
  by rewrite length_take_le in Hr.
Qed.

Lemma to_from_take n bs : Forall is_byte bs -> (n <= length bs)%nat ->
  to_le n (from_le (take n bs)) = take n bs.
Proof.
  intros Hb Hn. pose proof (to_from_le (take n bs) (Forall_take _ n _ Hb)) as Hr.
  by rewrite length_take_le in Hr.
Qed.

#[global] Instance unsigned_laws n : FmtLaws (unsigned n).
Proof.
  split; simpl; intros.
  - apply length_to_le.
  - apply to_le_bytes_ok.
  - rewrite take_app_le, take_ge, from_to_le by (rewrite length_to_le; lia). by apply Z.mod_small.
  - by apply from_le_take.
  - by apply to_from_take.
Qed.

Lemma pow256_even n : (0 < n)%nat -> 256 ^ Z.of_nat n = 2 * (256 ^ Z.of_nat n / 2).
Proof.
  intros Hn. destruct n as [|n]; [lia|].
  rewrite Nat2Z.inj_succ, Z.pow_succ_r by lia.
  replace (256 * 256 ^ Z.of_nat n) with (128 * 256 ^ Z.of_nat n * 2) by ring.
  rewrite Z.div_mul by lia. ring.
Qed.

Lemma to_le_mod n z : to_le n (z mod 256 ^ Z.of_nat n) = to_le n z.
Proof.
  rewrite <- (length_to_le n z) at 1. rewrite <- from_to_le. apply to_from_le, to_le_bytes_ok.
Qed.

Lemma sign_extend_mod n u :
  (sign_extend n u) mod 256 ^ Z.of_nat n = u mod 256 ^ Z.of_nat n.
Proof.
  unfold sign_extend. destruct (Z.ltb _ _); [done|].
  rewrite <- (Z.mod_add (u - _) 1) by (pose proof (Z.pow_pos_nonneg 256 (Z.of_nat n)); lia).
  f_equal. ring.
Qed.

Lemma signed_laws n : (0 < n)%nat -> FmtLaws (signed n).
Proof.
  intros Hn. pose proof (pow256_even n Hn) as Heven.
  set (m := 256 ^ Z.of_nat n) in *.
  assert (0 < m) by (apply Z.pow_pos_nonneg; lia).
  split; simpl; intros.
  - apply length_to_le.
  - apply to_le_bytes_ok.
  - rewrite take_app_le, take_ge, from_to_le by (rewrite length_to_le; lia). fold m in H0 |- *.
    unfold sign_extend. fold m. destruct (Z_lt_le_dec a 0) as [Hneg|Hpos].
    + rewrite <- (Z.mod_add a 1), Z.mod_small by lia. rewrite (proj2 (Z.ltb_ge _ _)); lia.
    + rewrite Z.mod_small by lia. rewrite (proj2 (Z.ltb_lt _ _)); lia.
  - assert (0 <= from_le (take n bs) < m) as Hb by (by apply from_le_take).
    unfold sign_extend. fold m. destruct (Z.ltb_spec (from_le (take n bs)) (m / 2)); lia.
  - rewrite <- to_le_mod, sign_extend_mod, to_le_mod.
    by apply to_from_take.
Qed.

#[global] Instance i32_laws : FmtLaws i32.
Proof. apply signed_laws. lia. Qed.
#[global] Instance i64_laws : FmtLaws i64.
Proof. apply signed_laws. lia. Qed.

#[global] Instance array_laws n : FmtLaws (array n).
Proof.
  split; simpl; intros.
  - by destruct H.
  - by destruct H.
  - destruct H as [<- _]. by rewrite take_app_length.
  - split; [by apply length_take_le | by apply Forall_take].
  - done.
Qed.

#[global] Instance fpair_laws {A B} (F : fmt A) (G : fmt B) :
  FmtLaws F -> FmtLaws G -> FmtLaws (fpair F G).
Proof.
  intros HF HG. split; simpl.
  - intros [a b] [Ha Hb]; simpl in *. by rewrite length_app, !fmt_write_length.
  - intros [a b] [Ha Hb]; simpl in *. apply Forall_app. split; by apply fmt_write_bytes.
  - intros [a b] rest [Ha Hb]; simpl in *. rewrite <- app_assoc. f_equal.
    + by apply fmt_read_write.
    + rewrite drop_app_length' by (symmetry; by apply fmt_write_length). by apply fmt_read_write.
  - intros bs Hbs Hlen. split; apply fmt_read_ok; auto using Forall_drop; rewrite ?length_drop; lia.
  - intros bs Hbs Hlen. rewrite !fmt_write_read by (auto using Forall_drop; rewrite ?length_drop; lia).
    by rewrite take_take_drop.
Qed.

Lemma fiso_laws {A B} (mk : A -> B) (un : B -> A) (F : fmt A) :
  (forall a, un (mk a) = a) -> (forall b, mk (un b) = b) -> FmtLaws F -> FmtLaws (fiso mk un F).
Proof.
  intros Hun Hmk HF. split; simpl; intros.
  - by apply fmt_write_length.
  - by apply fmt_write_bytes.
  - rewrite fmt_read_write by done. apply Hmk.
  - rewrite Hun. by apply fmt_read_ok.
  - rewrite Hun. by apply fmt_write_read.
Qed.

(** ** Plain-old-data types *)

Class Pod (A : Type) := {
  layout : fmt A;
  layout_laws :: FmtLaws layout;
}.

Definition size_of (A : Type) `{Pod A} : nat := fmt_size (layout (A := A)).

(** [slice::from_raw_parts(&a as *const _ as *const u8, n)]: the first [n]
    bytes of the image; reading past the value is undefined behaviour. *)
Definition raw_parts {A} `{Pod A} (a : A) (n : nat) : option bytes :=
  slice (fmt_write layout a) 0 n.

(** [ptr::read_unaligned(buf.as_ptr().add(off) as *const A)] *)
Definition read_unaligned {A} `{Pod A} (buf : bytes) (off : nat) : option A :=
  if Nat.leb (off + size_of A) (length buf) then Some (fmt_read layout (drop off buf)) else None.

(** [buf[off..off + n].copy_from_slice(src)]: panics when the range leaves the
    buffer or the lengths differ. *)
Definition copy_from_slice (buf : bytes) (off n : nat) (src : bytes) : option bytes :=
  if Nat.leb (off + n) (length buf) && Nat.eqb n (length src)
  then Some (take off buf ++ src ++ drop (off + n) buf) else None.

(** The value lies in its Rust type. *)
Definition well_typed {A} `{Pod A} (a : A) : Prop := fmt_ok layout a.

Section pod.
Context {A : Type} `{Pod A}.
Implicit Types (a : A).

Lemma raw_parts_sized a : length (fmt_write layout a) = size_of A ->
  raw_parts a (size_of A) = Some (fmt_write layout a).
Proof.
  intros Ha. unfold raw_parts, slice. rewrite <- Ha.
  rewrite Nat.leb_refl. by rewrite drop_0, firstn_all.
Qed.

Lemma raw_parts_full a : well_typed a -> raw_parts a (size_of A) = Some (fmt_write layout a).
Proof. intros Ha. by apply raw_parts_sized, fmt_write_length. Qed.

Lemma read_image a pre rest : well_typed a ->
  read_unaligned (pre ++ fmt_write layout a ++ rest) (length pre) = Some a.
Proof.
  intros Ha. unfold read_unaligned, size_of.
  rewrite (proj2 (Nat.leb_le _ _)) by (rewrite !length_app, fmt_write_length by done; lia).
  rewrite drop_app_length. by rewrite fmt_read_write.
Qed.

Lemma read_unaligned_total buf off : (off + size_of A <= length buf)%nat ->
  is_Some (read_unaligned (A := A) buf off).
Proof. intros Hl. unfold read_unaligned. rewrite (proj2 (Nat.leb_le _ _) Hl). by eexists. Qed.

Lemma read_unaligned_ok buf off a : Forall is_byte buf -> read_unaligned buf off = Some a ->
  well_typed a.
Proof.
  unfold read_unaligned. intros Hb. destruct (Nat.leb_spec (off + size_of A) (length buf)) as [Hl|]; [|done].
  intros [= <-]. apply fmt_read_ok; [by apply Forall_drop|].
  rewrite length_drop. unfold size_of in Hl. lia.
Qed.
End pod.

Lemma copy_from_slice_app (pre mid post src : bytes) off n :
  off = length pre -> n = length mid -> length src = n ->
  copy_from_slice (pre ++ mid ++ post) off n src = Some (pre ++ src ++ post).
Proof.
  intros -> -> Hs. unfold copy_from_slice.
  rewrite (proj2 (Nat.leb_le _ _)) by (rewrite !length_app; lia).
  rewrite (proj2 (Nat.eqb_eq _ _)) by done. simpl. f_equal.
  rewrite take_app_length, drop_app_add', drop_app_length by done. done.
Qed.

(** Discharge the laws of a record's format. *)
Ltac pod_laws := apply fiso_laws; [intros; repeat match goal with a : (_ * _)%type |- _ => destruct a end; reflexivity | intros []; reflexivity | apply _].

(** Prove [well_typed] of a concrete record. *)
Ltac typed_record :=
  unfold well_typed; simpl;
  split_and!; repeat (apply Forall_cons; split); try apply Forall_nil;
  unfold is_byte; try lia; try reflexivity; try (vm_compute; intuition congruence).
