(* ===== verification/Sbe.v ===== *)
(** The order-entry wire protocol ([src/src/transport/sbe.rs]) and the messages
    of [src/src/transport/mod.rs] and [src/src/transport/order_update.rs]: the
    packed structs, the SBE header, the encoders into a caller's buffer and the
    decoders.  An [f64] field holds its bit pattern.  The lemmas show that what
    an encoder writes the decoder reads back, that a short buffer is refused
    untouched and that no decoder reads outside its input. *)
From Stdlib Require Import ZArith Lia.
From stdpp Require Import base numbers list.
From S2P Require Import Prelude Bytes Pod.

#[local] Open Scope Z_scope.
#[local] Open Scope fmt_scope.

(** ** Constants *)

Definition SCHEMA_ID : Z := 1.
Definition VERSION : Z := 0.
Definition TEMPLATE_NEW_ORDER : Z := 1.
Definition TEMPLATE_CANCEL_ORDER : Z := 2.
Definition TEMPLATE_ORDER_ACCEPTED : Z := 10.
Definition TEMPLATE_ORDER_FILLED : Z := 11.
Definition TEMPLATE_ORDER_PARTIAL_FILL : Z := 12.
Definition TEMPLATE_ORDER_CANCELLED : Z := 13.
Definition TEMPLATE_ORDER_REJECTED : Z := 14.
Definition TEMPLATE_ORDER_UPDATE : Z := 15.
Definition TEMPLATE_TRADE_NOTIFICATION : Z := 20.

(** ** Messages *)

Record SbeHeader := mkSbeHeader {
  sh_block_length : Z;
  sh_template_id : Z;
  sh_schema_id : Z;
  sh_version : Z;
}.

Definition SbeHeader_fmt : fmt SbeHeader := fiso
  (fun '(x0, (x1, (x2, x3))) => mkSbeHeader x0 x1 x2 x3)
  (fun r => (sh_block_length r, (sh_template_id r, (sh_schema_id r, sh_version r))))
  (u16 ⊗ u16 ⊗ u16 ⊗ u16).
#[global] Instance SbeHeader_laws : FmtLaws SbeHeader_fmt.
Proof. pod_laws. Qed.
#[global] Instance SbeHeader_pod : Pod SbeHeader := {| layout := SbeHeader_fmt |}.

Record NewOrderRequest := mkNewOrderRequest {
  nor_client_order_id : Z;
  nor_participant_id : Z;
  nor_price_ticks : Z;
  nor_quantity_lots : Z;
  nor_side : Z;
  nor_time_in_force : Z;
  nor_response_stream_id : Z;
  nor_reduce_only : Z;
  nor_pad : bytes;
  nor_symbol : bytes;
}.

Definition NewOrderRequest_fmt : fmt NewOrderRequest := fiso
  (fun '(x0, (x1, (x2, (x3, (x4, (x5, (x6, (x7, (x8, x9))))))))) => mkNewOrderRequest x0 x1 x2 x3
     x4 x5 x6 x7 x8 x9)
  (fun r => (nor_client_order_id r, (nor_participant_id r, (nor_price_ticks r, (nor_quantity_lots
     r, (nor_side r, (nor_time_in_force r, (nor_response_stream_id r, (nor_reduce_only r, (nor_pad
     r, nor_symbol r))))))))))
  (u64 ⊗ u64 ⊗ i64 ⊗ i64 ⊗ u8 ⊗ u8 ⊗ i32 ⊗ u8 ⊗ array 9 ⊗ array 16).
#[global] Instance NewOrderRequest_laws : FmtLaws NewOrderRequest_fmt.
Proof. pod_laws. Qed.
#[global] Instance NewOrderRequest_pod : Pod NewOrderRequest := {| layout := NewOrderRequest_fmt |}.

Record CancelOrderRequest := mkCancelOrderRequest {
  cor_order_id : Z;
  cor_participant_id : Z;
  cor_response_stream_id : Z;
  cor_pad : bytes;
}.

Definition CancelOrderRequest_fmt : fmt CancelOrderRequest := fiso
  (fun '(x0, (x1, (x2, x3))) => mkCancelOrderRequest x0 x1 x2 x3)
  (fun r => (cor_order_id r, (cor_participant_id r, (cor_response_stream_id r, cor_pad r))))
  (u64 ⊗ u64 ⊗ i32 ⊗ array 4).
#[global] Instance CancelOrderRequest_laws : FmtLaws CancelOrderRequest_fmt.
Proof. pod_laws. Qed.
#[global] Instance CancelOrderRequest_pod : Pod CancelOrderRequest := {| layout := CancelOrderRequest_fmt |}.

Record OrderAccepted := mkOrderAccepted {
  oa_order_id : Z;
  oa_client_order_id : Z;
  oa_participant_id : Z;
  oa_timestamp : Z;
}.

Definition OrderAccepted_fmt : fmt OrderAccepted := fiso
  (fun '(x0, (x1, (x2, x3))) => mkOrderAccepted x0 x1 x2 x3)
  (fun r => (oa_order_id r, (oa_client_order_id r, (oa_participant_id r, oa_timestamp r))))
  (u64 ⊗ u64 ⊗ u64 ⊗ u64).
#[global] Instance OrderAccepted_laws : FmtLaws OrderAccepted_fmt.
Proof. pod_laws. Qed.
#[global] Instance OrderAccepted_pod : Pod OrderAccepted := {| layout := OrderAccepted_fmt |}.

Record OrderFilled := mkOrderFilled {
  ofl_order_id : Z;
  ofl_client_order_id : Z;
  ofl_fill_price : Z;
  ofl_fill_qty : Z;
}.

Definition OrderFilled_fmt : fmt OrderFilled := fiso
  (fun '(x0, (x1, (x2, x3))) => mkOrderFilled x0 x1 x2 x3)
  (fun r => (ofl_order_id r, (ofl_client_order_id r, (ofl_fill_price r, ofl_fill_qty r))))
  (u64 ⊗ u64 ⊗ f64_bits ⊗ f64_bits).
#[global] Instance OrderFilled_laws : FmtLaws OrderFilled_fmt.
Proof. pod_laws. Qed.
#[global] Instance OrderFilled_pod : Pod OrderFilled := {| layout := OrderFilled_fmt |}.

Record OrderPartialFill := mkOrderPartialFill {
  opf_order_id : Z;
  opf_client_order_id : Z;
  opf_fill_qty : Z;
  opf_remaining_qty : Z;
}.

Definition OrderPartialFill_fmt : fmt OrderPartialFill := fiso
  (fun '(x0, (x1, (x2, x3))) => mkOrderPartialFill x0 x1 x2 x3)
  (fun r => (opf_order_id r, (opf_client_order_id r, (opf_fill_qty r, opf_remaining_qty r))))
  (u64 ⊗ u64 ⊗ f64_bits ⊗ f64_bits).
#[global] Instance OrderPartialFill_laws : FmtLaws OrderPartialFill_fmt.
Proof. pod_laws. Qed.
#[global] Instance OrderPartialFill_pod : Pod OrderPartialFill := {| layout := OrderPartialFill_fmt |}.

Record OrderCancelled := mkOrderCancelled {
  oc_order_id : Z;
  oc_client_order_id : Z;
  oc_cancelled_qty : Z;
}.

Definition OrderCancelled_fmt : fmt OrderCancelled := fiso
  (fun '(x0, (x1, x2)) => mkOrderCancelled x0 x1 x2)
  (fun r => (oc_order_id r, (oc_client_order_id r, oc_cancelled_qty r)))
  (u64 ⊗ u64 ⊗ f64_bits).
#[global] Instance OrderCancelled_laws : FmtLaws OrderCancelled_fmt.
Proof. pod_laws. Qed.
#[global] Instance OrderCancelled_pod : Pod OrderCancelled := {| layout := OrderCancelled_fmt |}.

Record OrderRejected := mkOrderRejected {
  orj_client_order_id : Z;
  orj_reason : Z;
  orj_pad : bytes;
}.

Definition OrderRejected_fmt : fmt OrderRejected := fiso
  (fun '(x0, (x1, x2)) => mkOrderRejected x0 x1 x2)
  (fun r => (orj_client_order_id r, (orj_reason r, orj_pad r)))
  (u64 ⊗ u8 ⊗ array 7).
#[global] Instance OrderRejected_laws : FmtLaws OrderRejected_fmt.
Proof. pod_laws. Qed.
#[global] Instance OrderRejected_pod : Pod OrderRejected := {| layout := OrderRejected_fmt |}.

Record TradeNotification := mkTradeNotification {
  tn_sequence : Z;
  tn_taker_order_id : Z;
  tn_maker_order_id : Z;
  tn_price : Z;
  tn_quantity : Z;
  tn_side : Z;
  tn_pad : bytes;
  tn_symbol : bytes;
}.

Definition TradeNotification_fmt : fmt TradeNotification := fiso
  (fun '(x0, (x1, (x2, (x3, (x4, (x5, (x6, x7))))))) => mkTradeNotification x0 x1 x2 x3 x4 x5 x6
     x7)
  (fun r => (tn_sequence r, (tn_taker_order_id r, (tn_maker_order_id r, (tn_price r, (tn_quantity
     r, (tn_side r, (tn_pad r, tn_symbol r))))))))
  (u64 ⊗ u64 ⊗ u64 ⊗ f64_bits ⊗ f64_bits ⊗ u8 ⊗ array 7 ⊗ array 16).
#[global] Instance TradeNotification_laws : FmtLaws TradeNotification_fmt.
Proof. pod_laws. Qed.
#[global] Instance TradeNotification_pod : Pod TradeNotification := {| layout := TradeNotification_fmt |}.

Record OrderUpdateMsg := mkOrderUpdateMsg {
  oum_kind : Z;
  oum_reject_reason : Z;
  oum_pad1 : bytes;
  oum_sequence : Z;
  oum_order_id : Z;
  oum_client_order_id : Z;
  oum_participant_id : Z;
  oum_fill_price : Z;
  oum_fill_qty : Z;
  oum_remaining_qty : Z;
  oum_timestamp : Z;
}.

Definition OrderUpdateMsg_fmt : fmt OrderUpdateMsg := fiso
  (fun '(x0, (x1, (x2, (x3, (x4, (x5, (x6, (x7, (x8, (x9, x10)))))))))) => mkOrderUpdateMsg x0 x1
     x2 x3 x4 x5 x6 x7 x8 x9 x10)
  (fun r => (oum_kind r, (oum_reject_reason r, (oum_pad1 r, (oum_sequence r, (oum_order_id r,
     (oum_client_order_id r, (oum_participant_id r, (oum_fill_price r, (oum_fill_qty r,
     (oum_remaining_qty r, oum_timestamp r)))))))))))
  (u8 ⊗ u8 ⊗ array 6 ⊗ u64 ⊗ u64 ⊗ u64 ⊗ u64 ⊗ f64_bits ⊗ f64_bits ⊗ f64_bits ⊗ u64).
#[global] Instance OrderUpdateMsg_laws : FmtLaws OrderUpdateMsg_fmt.
Proof. pod_laws. Qed.
#[global] Instance OrderUpdateMsg_pod : Pod OrderUpdateMsg := {| layout := OrderUpdateMsg_fmt |}.

Definition SbeHeader_new (template_id block_length : Z) : SbeHeader :=
  mkSbeHeader block_length template_id SCHEMA_ID VERSION.

(** [order_update_kind] *)
Definition ACCEPTED : Z := 1.
Definition FILLED : Z := 2.
Definition PARTIAL_FILL : Z := 3.
Definition CANCELLED : Z := 4.
Definition REJECTED : Z := 5.

(** Bytes of padding; [0.0] as an [f64] is the pattern 0. *)
Definition zeros (n : nat) : bytes := replicate n 0.

Module OrderUpdateMsg.
Definition accepted (order_id client_order_id participant_id ts : Z) : OrderUpdateMsg :=
  mkOrderUpdateMsg ACCEPTED 0 (zeros 6) 0 order_id client_order_id participant_id 0 0 0 ts.

Definition filled (order_id client_order_id participant_id price qty ts : Z) : OrderUpdateMsg :=
  mkOrderUpdateMsg FILLED 0 (zeros 6) 0 order_id client_order_id participant_id price qty 0 ts.

Definition partial_fill (order_id client_order_id participant_id price filled remaining ts : Z)
  : OrderUpdateMsg :=
  mkOrderUpdateMsg PARTIAL_FILL 0 (zeros 6) 0 order_id client_order_id participant_id price filled
    remaining ts.

Definition cancelled (order_id client_order_id participant_id cancelled_qty ts : Z)
  : OrderUpdateMsg :=
  mkOrderUpdateMsg CANCELLED 0 (zeros 6) 0 order_id client_order_id participant_id 0 cancelled_qty
    0 ts.

Definition rejected (client_order_id participant_id reason ts : Z) : OrderUpdateMsg :=
  mkOrderUpdateMsg REJECTED reason (zeros 6) 0 0 client_order_id participant_id 0 0 0 ts.

Definition with_sequence (m : OrderUpdateMsg) (sequence : Z) : OrderUpdateMsg :=
  mkOrderUpdateMsg (oum_kind m) (oum_reject_reason m) (oum_pad1 m) sequence (oum_order_id m)
    (oum_client_order_id m) (oum_participant_id m) (oum_fill_price m) (oum_fill_qty m)
    (oum_remaining_qty m) (oum_timestamp m).
End OrderUpdateMsg.

(** [order_update.rs]: the event passed between the engine's threads, an
    [OrderUpdateMsg] without the sequence number. *)
Record OrderUpdateEvent := mkOrderUpdateEvent {
  oue_kind : Z;
  oue_reject_reason : Z;
  oue_pad : bytes;
  oue_order_id : Z;
  oue_client_order_id : Z;
  oue_participant_id : Z;
  oue_fill_price : Z;
  oue_fill_qty : Z;
  oue_remaining_qty : Z;
  oue_timestamp : Z;
}.

Module OrderUpdateEvent.
Definition accepted (order_id client_order_id participant_id ts : Z) : OrderUpdateEvent :=
  mkOrderUpdateEvent ACCEPTED 0 (zeros 6) order_id client_order_id participant_id 0 0 0 ts.

Definition filled (order_id client_order_id participant_id price qty ts : Z) : OrderUpdateEvent :=
  mkOrderUpdateEvent FILLED 0 (zeros 6) order_id client_order_id participant_id price qty 0 ts.

Definition partial_fill (order_id client_order_id participant_id price filled remaining ts : Z)
  : OrderUpdateEvent :=
  mkOrderUpdateEvent PARTIAL_FILL 0 (zeros 6) order_id client_order_id participant_id price filled
    remaining ts.

Definition cancelled (order_id client_order_id participant_id cancelled_qty ts : Z)
  : OrderUpdateEvent :=
  mkOrderUpdateEvent CANCELLED 0 (zeros 6) order_id client_order_id participant_id 0 cancelled_qty 0 ts.

Definition rejected (order_id client_order_id participant_id reason ts : Z) : OrderUpdateEvent :=
  mkOrderUpdateEvent REJECTED reason (zeros 6) order_id client_order_id participant_id 0 0 0 ts.
End OrderUpdateEvent.

(** ** Encoding *)

(** [encode_header]: the header transmuted to its eight bytes. *)
Definition encode_header (template_id block_length : Z) : bytes :=
  fmt_write layout (SbeHeader_new template_id block_length).

(** The body every encoder shares: refuse a buffer that cannot hold header and
    message, otherwise write the header at 0 and [n] bytes of the message at 8.
    The buffer is returned as it is left. *)
Definition encode_msg {A} `{Pod A} (template_id : Z) (n : nat) (msg : A) (buf : bytes)
  : option (bytes * result nat unit) :=
  let size := (size_of SbeHeader + size_of A)%nat in
  if Nat.ltb (length buf) size then Some (buf, Err ())
  else
    buf ← copy_from_slice buf 0 8 (encode_header template_id (Z.of_nat n));
    msg_bytes ← raw_parts msg n;
    buf ← copy_from_slice buf 8 n msg_bytes;
    Some (buf, Ok (8 + n)%nat).

Definition encode_new_order (msg : NewOrderRequest) (buf : bytes) :=
  encode_msg TEMPLATE_NEW_ORDER 64 msg buf.
Definition encode_cancel_order (msg : CancelOrderRequest) (buf : bytes) :=
  encode_msg TEMPLATE_CANCEL_ORDER 24 msg buf.
Definition encode_accepted (msg : OrderAccepted) (buf : bytes) :=
  encode_msg TEMPLATE_ORDER_ACCEPTED 32 msg buf.
Definition encode_filled (msg : OrderFilled) (buf : bytes) :=
  encode_msg TEMPLATE_ORDER_FILLED 32 msg buf.
Definition encode_partial_fill (msg : OrderPartialFill) (buf : bytes) :=
  encode_msg TEMPLATE_ORDER_PARTIAL_FILL 32 msg buf.
Definition encode_cancelled (msg : OrderCancelled) (buf : bytes) :=
  encode_msg TEMPLATE_ORDER_CANCELLED 24 msg buf.
Definition encode_rejected (msg : OrderRejected) (buf : bytes) :=
  encode_msg TEMPLATE_ORDER_REJECTED 16 msg buf.
Definition encode_trade_notification (msg : TradeNotification) (buf : bytes) :=
  encode_msg TEMPLATE_TRADE_NOTIFICATION 64 msg buf.
Definition encode_order_update (msg : OrderUpdateMsg) (buf : bytes) :=
  encode_msg TEMPLATE_ORDER_UPDATE 72 msg buf.

(** ** Decoding

    The outer [option] is an out-of-bounds read, the inner one the decoder's
    own [None]. *)

Definition decode_at {A} `{Pod A} (off n : nat) (buf : bytes) : option (option A) :=
  if Nat.ltb (length buf) (off + n) then Some None
  else msg ← read_unaligned buf off; Some (Some msg).

Definition decode_header (buf : bytes) : option (option SbeHeader) := decode_at 0 8 buf.
Definition decode_new_order (buf : bytes) : option (option NewOrderRequest) := decode_at 8 64 buf.
Definition decode_cancel_order (buf : bytes) : option (option CancelOrderRequest) :=
  decode_at 8 24 buf.
Definition decode_order_update (buf : bytes) : option (option OrderUpdateMsg) := decode_at 8 72 buf.

(** ** Strings in fixed-length fields *)

(** [str::from_utf8]: well-formed UTF-8, by the byte ranges of the Unicode
    standard.  A [&str] is the list of its bytes. *)
Definition between (lo hi b : Z) : bool := Z.leb lo b && Z.leb b hi.
Definition continuation (b : Z) : bool := between 128 191 b.

Fixpoint is_utf8 (bs : bytes) : bool :=
  match bs with
  | [] => true
  | b1 :: bs1 =>
      if between 0 127 b1 then is_utf8 bs1
      else match bs1 with
      | [] => false
      | b2 :: bs2 =>
          if between 194 223 b1 then continuation b2 && is_utf8 bs2
          else match bs2 with
          | [] => false
          | b3 :: bs3 =>
              if between 224 239 b1 then
                between (if Z.eqb b1 224 then 160 else 128) (if Z.eqb b1 237 then 159 else 191) b2
                && continuation b3 && is_utf8 bs3
              else match bs3 with
              | [] => false
              | b4 :: bs4 =>
                  between 240 244 b1
                  && between (if Z.eqb b1 240 then 144 else 128) (if Z.eqb b1 244 then 143 else 191) b2
                  && continuation b3 && continuation b4 && is_utf8 bs4
              end
          end
      end
  end.

Definition from_utf8 (bs : bytes) : option bytes := if is_utf8 bs then Some bs else None.

(** [pack_str::<N>]: the first [N] bytes, padded with NULs. *)
Definition pack_str (n : nat) (value : bytes) : bytes :=
  let k := Nat.min (length value) n in take k value ++ zeros (n - k).

Definition pack_str16 (value : bytes) : bytes := pack_str 16 value.

(** The bytes before the first NUL. *)
Fixpoint until_nul (bs : bytes) : bytes :=
  match bs with
  | [] => []
  | b :: bs => if Z.eqb b 0 then [] else b :: until_nul bs
  end.

Definition unpack_str16 (value : bytes) : option bytes := from_utf8 (until_nul value).

(** [unpack_str] of [persist_event.rs]: the empty string when it is not UTF-8. *)
Definition unpack_str (value : bytes) : bytes := default [] (from_utf8 (until_nul value)).

(** ** Lemmas *)

Lemma header_length template_id block_length :
  length (encode_header template_id block_length) = 8%nat.
Proof. reflexivity. Qed.

(** What a successful encoder leaves in the buffer. *)
Lemma encode_msg_sized {A} `{Pod A} template_id n (msg : A) buf :
  length (fmt_write layout msg) = size_of A -> size_of A = n -> (8 + n <= length buf)%nat ->
  encode_msg template_id n msg buf =
    Some (encode_header template_id (Z.of_nat n) ++ fmt_write layout msg ++ drop (8 + n) buf,
          Ok (8 + n)%nat).
Proof.
  intros Hlen <- Hl. unfold encode_msg. change (size_of SbeHeader) with 8%nat.
  rewrite (proj2 (Nat.ltb_ge _ _)) by done.
  set (mid := take (size_of A) (drop 8 buf)). set (post := drop (8 + size_of A) buf).
  assert (length (take 8 buf) = 8%nat) as H8 by (rewrite length_take; lia).
  assert (length mid = size_of A) as Hmid by (unfold mid; rewrite length_take, length_drop; lia).
  assert (buf = [] ++ take 8 buf ++ mid ++ post) as Hb.
  { unfold mid, post. rewrite app_nil_l, <- drop_drop, !take_drop. done. }
  rewrite Hb at 1. rewrite copy_from_slice_app by done. bind_step.
  rewrite raw_parts_sized by done. bind_step. rewrite app_nil_l.
  rewrite copy_from_slice_app by done. done.
Qed.

Lemma encode_msg_ok {A} `{Pod A} template_id n (msg : A) buf :
  well_typed msg -> size_of A = n -> (8 + n <= length buf)%nat ->
  encode_msg template_id n msg buf =
    Some (encode_header template_id (Z.of_nat n) ++ fmt_write layout msg ++ drop (8 + n) buf,
          Ok (8 + n)%nat).
Proof. intros Hm. apply encode_msg_sized. by apply fmt_write_length. Qed.

Lemma encode_msg_short {A} `{Pod A} template_id n (msg : A) buf :
  (length buf < 8 + size_of A)%nat -> encode_msg template_id n msg buf = Some (buf, Err ()).
Proof.
  intros Hl. unfold encode_msg. change (size_of SbeHeader) with 8%nat.
  by rewrite (proj2 (Nat.ltb_lt _ _)).
Qed.

Lemma decode_at_image {A} `{Pod A} (msg : A) pre rest n :
  well_typed msg -> size_of A = n ->
  decode_at (length pre) n (pre ++ fmt_write layout msg ++ rest) = Some (Some msg).
Proof.
  intros Hm <-. unfold decode_at. pose proof (fmt_write_length msg Hm). unfold size_of in *.
  rewrite (proj2 (Nat.ltb_ge _ _)) by (rewrite !length_app; lia).
  by rewrite read_image.
Qed.

Lemma decode_at_total {A} `{Pod A} off n buf :
  size_of A = n -> is_Some (decode_at (A := A) off n buf).
Proof.
  intros <-. unfold decode_at. destruct (Nat.ltb_spec (length buf) (off + size_of A)); [by eexists|].
  destruct (read_unaligned_total (A := A) buf off) as [a ->]; [done|]. by eexists.
Qed.

(** A header written by [encode_header] is read back, whatever follows. *)
Lemma decode_header_encode template_id n rest :
  0 <= template_id < 2 ^ 16 -> Z.of_nat n < 2 ^ 16 ->
  decode_header (encode_header template_id (Z.of_nat n) ++ rest) =
    Some (Some (SbeHeader_new template_id (Z.of_nat n))).
Proof.
  intros Ht Hn. apply (decode_at_image _ [] rest 8); [|done].
  unfold well_typed, SbeHeader_new, SCHEMA_ID, VERSION; cbn [fmt_ok layout SbeHeader_pod SbeHeader_fmt fiso fpair unsigned fst snd
    sh_block_length sh_template_id sh_schema_id sh_version]. lia.
Qed.

Lemma until_nul_app (s rest : bytes) : Forall (fun b => b <> 0) s ->
  until_nul (s ++ 0 :: rest) = s.
Proof.
  induction 1 as [|b s Hb _ IH]; simpl; [done|]. rewrite (proj2 (Z.eqb_neq _ _) Hb). by rewrite IH.
Qed.

Lemma until_nul_id (s : bytes) : Forall (fun b => b <> 0) s -> until_nul s = s.
Proof.
  induction 1 as [|b s Hb _ IH]; simpl; [done|]. rewrite (proj2 (Z.eqb_neq _ _) Hb). by rewrite IH.
Qed.

(** A string without NULs that fits is read back. *)
Lemma until_nul_pack n s : (length s <= n)%nat -> Forall (fun b => b <> 0) s ->
  until_nul (pack_str n s) = s.
Proof.
  intros Hl Hs. unfold pack_str, zeros. rewrite Nat.min_l, firstn_all by done.
  destruct (n - length s)%nat as [|k]; simpl.
  - rewrite app_nil_r. by apply until_nul_id.
  - by apply until_nul_app.
Qed.

Lemma pack_str_length n s : length (pack_str n s) = n.
Proof. unfold pack_str, zeros. rewrite length_app, length_take, length_replicate. lia. Qed.

Lemma unpack_pack_str n s : (length s <= n)%nat -> Forall (fun b => b <> 0) s -> is_utf8 s = true ->
  unpack_str (pack_str n s) = s.
Proof. intros. unfold unpack_str, from_utf8. rewrite until_nul_pack by done. by rewrite H1. Qed.
