(* ===== verification/WsSbe.v ===== *)
(** The binary WebSocket protocol ([src/src/transport/ws_sbe.rs]): the encoders of
    the server's messages, the client's commands, and the decoders.  [f64] values
    travel as their 64-bit patterns.  A decoder returns [None] when it panics and
    [Some None] when it refuses the buffer. *)
From Stdlib Require Import ZArith Lia Bool String.
From stdpp Require Import base numbers list.
From S2P Require Import Prelude Bytes Pod Sbe Text.

#[local] Open Scope Z_scope.

Definition AUTH_OK : Z := 1.
Definition AUTH_ERROR : Z := 2.
Definition ORDER_ACCEPTED : Z := 3.
Definition ORDER_REJECTED : Z := 4.
Definition ORDER_SUBMITTED : Z := 5.
Definition ORDER_UPDATE : Z := 6.
Definition CANCEL_SUBMITTED : Z := 7.
Definition BALANCE_UPDATE : Z := 8.
Definition POSITION_UPDATE : Z := 9.
Definition CANCEL_ALL_OK : Z := 10.
Definition BATCH_CANCEL_OK : Z := 11.
Definition PONG_MSG : Z := 12.
Definition ERROR_MSG : Z := 13.
Definition ORDERS_PLACED : Z := 14.
Definition ORDER_DEPTH_RESP : Z := 15.
Definition TRADE_MSG : Z := 20.
Definition DEPTH_MSG : Z := 21.
Definition TICKER_MSG : Z := 22.
Definition KLINE_MSG : Z := 23.
Definition AGG_TRADE_MSG : Z := 24.
Definition WS_STATUS_OPEN : Z := 0.
Definition WS_STATUS_PARTIAL_FILL : Z := 1.
Definition WS_STATUS_FILLED : Z := 2.
Definition WS_STATUS_CANCELED : Z := 3.
Definition WS_STATUS_REJECTED : Z := 4.
Definition CLIENT_PLACE_ORDER : Z := 50.
Definition CLIENT_CANCEL_ORDER : Z := 51.
Definition CLIENT_PING : Z := 52.

Definition pack8 (s : bytes) : bytes := pack_str 8 s.

(** [u16::MAX as usize] *)
Definition u16_max : nat := Z.to_nat 65535.

(** [\[len: u8\]\[text\]], the text cut at 255 bytes. *)
Definition text255 (s : bytes) : bytes :=
  let len := Nat.min (length s) 255 in Z.of_nat len :: take len s.

(** ** Encoders *)

Definition encode_auth_ok (user_id : Z) : bytes := AUTH_OK :: i64_to_le user_id.

Definition encode_auth_error (reason : bytes) : bytes := AUTH_ERROR :: text255 reason.

Definition encode_order_accepted (order_id client_order_id price qty side : Z) (symbol : bytes) (ts : Z) : bytes :=
  ORDER_ACCEPTED :: u64_to_le order_id ++ u64_to_le client_order_id ++ u64_to_le price ++ u64_to_le qty
    ++ [side] ++ zeros 7 ++ pack8 symbol ++ u64_to_le ts.

Definition encode_order_rejected (client_order_id : Z) (reason : bytes) : bytes :=
  ORDER_REJECTED :: u64_to_le client_order_id ++ text255 reason.

Definition encode_order_submitted (order_id client_order_id ts : Z) : bytes :=
  ORDER_SUBMITTED :: u64_to_le order_id ++ u64_to_le client_order_id ++ u64_to_le ts.

Definition encode_order_update (order_id client_order_id status filled_qty avg_price ts : Z) : bytes :=
  ORDER_UPDATE :: u64_to_le order_id ++ u64_to_le client_order_id ++ [status] ++ zeros 3
    ++ u64_to_le filled_qty ++ u64_to_le avg_price ++ u64_to_le ts.

Definition encode_cancel_submitted (order_id ts : Z) : bytes :=
  CANCEL_SUBMITTED :: u64_to_le order_id ++ u64_to_le ts.

Definition encode_balance_update (asset : bytes) (balance available frozen : Z) : bytes :=
  BALANCE_UPDATE :: pack8 asset ++ u64_to_le balance ++ u64_to_le available ++ u64_to_le frozen.

Definition encode_position_update (symbol : bytes) (qty avg_price : Z) : bytes :=
  POSITION_UPDATE :: pack8 symbol ++ u64_to_le qty ++ u64_to_le avg_price.

Definition encode_cancel_all_ok (cancelled : Z) : bytes := CANCEL_ALL_OK :: u32_to_le cancelled.
Definition encode_batch_cancel_ok (cancelled : Z) : bytes := BATCH_CANCEL_OK :: u32_to_le cancelled.
Definition encode_pong : bytes := [PONG_MSG].
Definition encode_error (message : bytes) : bytes := ERROR_MSG :: text255 message.

Definition encode_orders_placed (batch_id : bytes) (results : list (Z * Z * Z)) : bytes :=
  let count := Nat.min (length results) u16_max in
  ORDERS_PLACED :: pack_str 16 batch_id ++ u16_to_le (Z.of_nat count) ++ zeros 6
    ++ mjoin ((fun '(coid, oid, status) => u64_to_le coid ++ u64_to_le oid ++ [status] ++ zeros 7)
                <$> take count results).

Definition encode_levels (levels : list (Z * Z)) : bytes :=
  mjoin ((fun '(p, q) => u64_to_le p ++ u64_to_le q) <$> levels).

(** The depth frame under its two message types. *)
Definition depth_frame (msg_type ts : Z) (symbol : bytes) (bids asks : list (Z * Z)) : bytes :=
  let nb := Nat.min (length bids) u16_max in
  let na := Nat.min (length asks) u16_max in
  msg_type :: u64_to_le ts ++ pack8 symbol ++ u16_to_le (Z.of_nat nb) ++ u16_to_le (Z.of_nat na) ++ zeros 4
    ++ encode_levels (take nb bids) ++ encode_levels (take na asks).

Definition encode_order_depth_resp := depth_frame ORDER_DEPTH_RESP.
Definition encode_depth := depth_frame DEPTH_MSG.

Definition encode_trade (price qty side ts : Z) (symbol : bytes) : bytes :=
  TRADE_MSG :: u64_to_le price ++ u64_to_le qty ++ [side] ++ zeros 7 ++ u64_to_le ts ++ pack8 symbol.

Definition encode_ticker (symbol : bytes) (last change high low volume : Z) : bytes :=
  TICKER_MSG :: pack8 symbol ++ u64_to_le last ++ u64_to_le change ++ u64_to_le high ++ u64_to_le low
    ++ u64_to_le volume.

Definition encode_kline (symbol : bytes) (interval time open high low close volume : Z) : bytes :=
  KLINE_MSG :: pack8 symbol ++ [interval] ++ zeros 7 ++ u64_to_le time ++ u64_to_le open ++ u64_to_le high
    ++ u64_to_le low ++ u64_to_le close ++ u64_to_le volume.

Definition encode_agg_trade (symbol : bytes) (interval time open high low close volume trade_count : Z) : bytes :=
  AGG_TRADE_MSG :: pack8 symbol ++ [interval] ++ zeros 7 ++ u64_to_le time ++ u64_to_le open ++ u64_to_le high
    ++ u64_to_le low ++ u64_to_le close ++ u64_to_le volume ++ u32_to_le trade_count ++ zeros 4.

(** ** Decoders *)

(** [buf.len() < n || buf\[0\] != t]: refuse, otherwise go on. *)
Definition guard {A} (buf : bytes) (n : nat) (t : Z) (k : option (option A)) : option (option A) :=
  if Nat.ltb (length buf) n then Some None
  else b ← buf !! 0%nat; if negb (Z.eqb b t) then Some None else k.

(** [u64::from_le_bytes(buf\[i..i+8\])], also for [f64] patterns. *)
Definition get_u64 (buf : bytes) (i : nat) : option Z := from_le <$> slice buf i 8.
Definition get_i64 (buf : bytes) (i : nat) : option Z := i64_from_le <$> slice buf i 8.
Definition get_u16 (buf : bytes) (i : nat) : option nat := (fun b => Z.to_nat (from_le b)) <$> slice buf i 2.

Definition decode_msg_type (buf : bytes) : option Z := head buf.

Definition decode_order_update (buf : bytes) : option (option (Z * Z * Z * Z * Z * Z)) :=
  guard buf 45 ORDER_UPDATE (
    order_id ← get_u64 buf 1;
    client_order_id ← get_u64 buf 9;
    status ← buf !! 17%nat;
    filled_qty ← get_u64 buf 21;
    avg_price ← get_u64 buf 29;
    ts ← get_u64 buf 37;
    Some (Some (order_id, client_order_id, status, filled_qty, avg_price, ts))).

Definition decode_order_accepted (buf : bytes) : option (option (Z * Z)) :=
  guard buf 17 ORDER_ACCEPTED (
    order_id ← get_u64 buf 1;
    client_order_id ← get_u64 buf 9;
    Some (Some (order_id, client_order_id))).

(** [String::from_utf8_lossy]: every maximal ill-formed prefix of a sequence
    becomes U+FFFD. *)
Definition replacement : bytes := [239; 191; 189].

Fixpoint from_utf8_lossy (bs : bytes) : bytes :=
  match bs with
  | [] => []
  | b1 :: bs1 =>
      if between 0 127 b1 then b1 :: from_utf8_lossy bs1
      else if negb (between 194 244 b1) then replacement ++ from_utf8_lossy bs1
      else match bs1 with
      | [] => replacement
      | b2 :: bs2 =>
          let ok2 :=
            if Z.eqb b1 224 then between 160 191 b2
            else if Z.eqb b1 237 then between 128 159 b2
            else if Z.eqb b1 240 then between 144 191 b2
            else if Z.eqb b1 244 then between 128 143 b2
            else continuation b2 in
          if negb ok2 then replacement ++ from_utf8_lossy bs1
          else if between 194 223 b1 then b1 :: b2 :: from_utf8_lossy bs2
          else match bs2 with
          | [] => replacement
          | b3 :: bs3 =>
              if negb (continuation b3) then replacement ++ from_utf8_lossy bs2
              else if between 224 239 b1 then b1 :: b2 :: b3 :: from_utf8_lossy bs3
              else match bs3 with
              | [] => replacement
              | b4 :: bs4 =>
                  if negb (continuation b4) then replacement ++ from_utf8_lossy bs3
                  else b1 :: b2 :: b3 :: b4 :: from_utf8_lossy bs4
              end
          end
      end
  end.

Definition decode_order_rejected (buf : bytes) : option (option (Z * bytes)) :=
  guard buf 10 ORDER_REJECTED (
    client_order_id ← get_u64 buf 1;
    len ← buf !! 9%nat;
    let len := Z.to_nat len in
    if Nat.ltb (length buf) (10 + len) then Some None
    else
      reason ← slice buf 10 len;
      Some (Some (client_order_id, from_utf8_lossy reason))).

Definition decode_order_submitted (buf : bytes) : option (option (Z * Z * Z)) :=
  guard buf 25 ORDER_SUBMITTED (
    order_id ← get_u64 buf 1;
    client_order_id ← get_u64 buf 9;
    ts ← get_u64 buf 17;
    Some (Some (order_id, client_order_id, ts))).

(** The symbol field of a broadcast frame. *)
Definition symbol_at (buf : bytes) (n : nat) (t : Z) (i : nat) : option (option bytes) :=
  guard buf n t (s ← slice buf i 8; Some (Some s)).

Definition decode_symbol_from_depth (buf : bytes) := symbol_at buf 17 DEPTH_MSG 9.
Definition decode_symbol_from_trade (buf : bytes) := symbol_at buf 41 TRADE_MSG 33.
Definition decode_symbol_from_ticker (buf : bytes) := symbol_at buf 9 TICKER_MSG 1.
Definition decode_symbol_from_kline (buf : bytes) := symbol_at buf 9 KLINE_MSG 1.
Definition decode_symbol_from_agg_trade (buf : bytes) := symbol_at buf 9 AGG_TRADE_MSG 1.

Definition ws_status_byte_from_str (s : string) : Z :=
  if String.eqb s "OPEN" then WS_STATUS_OPEN
  else if String.eqb s "PARTIAL" || String.eqb s "PARTIAL_FILL" then WS_STATUS_PARTIAL_FILL
  else if String.eqb s "FILLED" then WS_STATUS_FILLED
  else if String.eqb s "CANCELED" then WS_STATUS_CANCELED
  else WS_STATUS_REJECTED.

Definition sym8_to_str (sym : bytes) : bytes := default [] (from_utf8 (until_nul sym)).

(** [for _ in 0..n { p, q at off; off += 16 }] *)
Fixpoint get_levels (buf : bytes) (off n : nat) : option (list (Z * Z)) :=
  match n with
  | O => Some []
  | S n =>
      p ← get_u64 buf off;
      q ← get_u64 buf (off + 8);
      rest ← get_levels buf (off + 16) n;
      Some ((p, q) :: rest)
  end.

(** The fields of the JSON object of [decode_depth_for_rest] and of
    [decode_ticker_for_rest]. *)
Record RestDepth := mkRestDepth { rd_symbol : bytes; rd_bids : list (Z * Z); rd_asks : list (Z * Z); rd_ts : Z }.

Record RestTicker := mkRestTicker {
  rt_symbol : bytes; rt_last : Z; rt_change : Z; rt_high : Z; rt_low : Z; rt_volume : Z
}.

Definition decode_depth_for_rest (buf : bytes) : option (option RestDepth) :=
  guard buf 25 DEPTH_MSG (
    ts ← get_u64 buf 1;
    symbol ← slice buf 9 8;
    nb ← get_u16 buf 17;
    na ← get_u16 buf 19;
    let expected := (25 + (nb + na) * 16)%nat in
    if Nat.ltb (length buf) expected then Some None
    else
      bids ← get_levels buf 25 nb;
      asks ← get_levels buf (25 + nb * 16) na;
      Some (Some (mkRestDepth (sym8_to_str symbol) bids asks ts))).

Definition decode_ticker_for_rest (buf : bytes) : option (option RestTicker) :=
  guard buf 49 TICKER_MSG (
    symbol ← slice buf 1 8;
    last ← get_u64 buf 9;
    change ← get_u64 buf 17;
    high ← get_u64 buf 25;
    low ← get_u64 buf 33;
    volume ← get_u64 buf 41;
    Some (Some (mkRestTicker (sym8_to_str symbol) last change high low volume))).

Definition decode_best_price (buf : bytes) (want_ask : bool) : option (option Z) :=
  guard buf 25 DEPTH_MSG (
    nb ← get_u16 buf 17;
    na ← get_u16 buf 19;
    if want_ask then
      let off := (25 + nb * 16)%nat in
      if Nat.eqb na 0 || Nat.ltb (length buf) (off + 8) then Some None
      else p ← get_u64 buf off; Some (Some p)
    else
      if Nat.eqb nb 0 || Nat.ltb (length buf) 33 then Some None
      else p ← get_u64 buf 25; Some (Some p)).

(** ** Client commands *)

(** [buf\[i..i+n\].copy_from_slice(field)] of an array. *)
Definition put (buf : bytes) (i : nat) (field : bytes) : option bytes :=
  if Nat.leb (i + length field) (length buf)
  then Some (take i buf ++ field ++ drop (i + length field) buf) else None.

Definition encode_client_place_order (coid : Z) (symbol : bytes) (side tif price_ticks quantity_lots : Z)
  : option bytes :=
  buf ← put (zeros 37) 0 [CLIENT_PLACE_ORDER];
  buf ← put buf 1 (u64_to_le coid);
  buf ← put buf 9 (pack8 symbol);
  buf ← put buf 17 [side];
  buf ← put buf 18 [tif];
  buf ← put buf 21 (i64_to_le price_ticks);
  put buf 29 (i64_to_le quantity_lots).

Definition decode_client_place_order (buf : bytes) : option (option (Z * bytes * Z * Z * Z * Z)) :=
  guard buf 37 CLIENT_PLACE_ORDER (
    coid ← get_u64 buf 1;
    sym ← slice buf 9 8;
    side ← buf !! 17%nat;
    tif ← buf !! 18%nat;
    price_ticks ← get_i64 buf 21;
    quantity_lots ← get_i64 buf 29;
    Some (Some (coid, sym, side, tif, price_ticks, quantity_lots))).

Definition encode_client_cancel_order (order_id : Z) : option bytes :=
  buf ← put (zeros 9) 0 [CLIENT_CANCEL_ORDER];
  put buf 1 (i64_to_le order_id).

Definition decode_client_cancel_order (buf : bytes) : option (option Z) :=
  guard buf 9 CLIENT_CANCEL_ORDER (
    order_id ← get_i64 buf 1; Some (Some order_id)).

(** ** Reading fields *)

Lemma u16_max_value : Z.of_nat u16_max = 65535.
Proof. by apply Z2Nat.id. Qed.
#[global] Opaque u16_max.

Lemma slice_cons x l i n : slice (x :: l) (S i) n = slice l i n.
Proof. unfold slice. cbn [length Nat.add Nat.leb drop]. done. Qed.

Lemma slice_past a l i n : (length a <= i)%nat -> slice (a ++ l) i n = slice l (i - length a) n.
Proof.
  intros Hi. unfold slice. rewrite length_app, drop_app_ge by done.
  replace (Nat.leb (i + n) (length a + length l)) with (Nat.leb (i - length a + n) (length l)); [done|].
  apply eq_iff_eq_true. rewrite !Nat.leb_le. lia.
Qed.

Lemma slice_here a l n : length a = n -> slice (a ++ l) 0 n = Some a.
Proof. intros Hn. apply (slice_app [] a l 0 n); done. Qed.

Lemma slice_whole a n : length a = n -> slice a 0 n = Some a.
Proof. intros Hn. rewrite <- (app_nil_r a) at 1. by apply slice_here. Qed.

Lemma lookup_past {A} (a l : list A) i : (length a <= i)%nat -> (a ++ l) !! i = l !! (i - length a)%nat.
Proof. intros. by apply lookup_app_r. Qed.

Lemma lookup_next {A} (x : A) l i : (x :: l) !! S i = l !! i.
Proof. done. Qed.
Lemma lookup_first {A} (x : A) l : (x :: l) !! 0%nat = Some x.
Proof. done. Qed.

Lemma length_u64 z : length (u64_to_le z) = 8%nat.
Proof. apply length_to_le. Qed.
Lemma length_i64 z : length (i64_to_le z) = 8%nat.
Proof. apply length_to_le. Qed.
Lemma length_u32 z : length (u32_to_le z) = 4%nat.
Proof. apply length_to_le. Qed.
Lemma length_u16 z : length (u16_to_le z) = 2%nat.
Proof. apply length_to_le. Qed.
Lemma length_zeros n : length (zeros n) = n.
Proof. apply length_replicate. Qed.
Lemma length_pack8 s : length (pack8 s) = 8%nat.
Proof. unfold pack8, pack_str. rewrite length_app, length_take, length_zeros. lia. Qed.

Create HintDb wire.
#[export] Hint Rewrite length_u64 length_i64 length_u32 length_u16 length_zeros length_pack8 : wire.

Ltac len := repeat progress (cbn [length]; rewrite ?length_app; autorewrite with wire); lia.

(** Step through the fields in front of the one that is read. *)
Ltac read_fields :=
  repeat (progress (
    rewrite ?slice_cons, ?lookup_next, ?lookup_first;
    repeat match goal with
    | |- context [slice (?a ++ ?l) 0 ?n] => rewrite (slice_here a l n) by len
    | |- context [slice (?a ++ ?l) ?i ?n] =>
        rewrite (slice_past a l i n) by len; autorewrite with wire; cbn [Nat.sub length]
    | |- context [(?a ++ ?l) !! ?i] =>
        rewrite (lookup_past a l i) by len; autorewrite with wire; cbn [Nat.sub length]
    | |- context [slice (u64_to_le ?z) 0 8] => rewrite (slice_whole (u64_to_le z) 8) by len
    | |- context [slice (i64_to_le ?z) 0 8] => rewrite (slice_whole (i64_to_le z) 8) by len
    | |- context [slice (pack8 ?z) 0 8] => rewrite (slice_whole (pack8 z) 8) by len
    end; cbn [fmap option_fmap option_map mbind option_bind app])).

Lemma guard_ok {A} buf n t (k : option (option A)) : (n <= length (t :: buf))%nat -> guard (t :: buf) n t k = k.
Proof.
  intros Hn. unfold guard. destruct (Nat.ltb_spec (length (t :: buf)) n); [lia|].
  simpl. by rewrite Z.eqb_refl.
Qed.

Lemma order_update_roundtrip order_id client_order_id status filled_qty avg_price ts :
  in_u64 order_id -> in_u64 client_order_id -> in_u64 filled_qty -> in_u64 avg_price -> in_u64 ts ->
  decode_order_update (encode_order_update order_id client_order_id status filled_qty avg_price ts) =
    Some (Some (order_id, client_order_id, status, filled_qty, avg_price, ts)).
Proof.
  intros. unfold decode_order_update, encode_order_update. rewrite guard_ok by len.
  unfold get_u64. read_fields. by rewrite !u64_le_roundtrip.
Qed.

Lemma order_accepted_roundtrip order_id client_order_id price qty side symbol ts :
  in_u64 order_id -> in_u64 client_order_id ->
  decode_order_accepted (encode_order_accepted order_id client_order_id price qty side symbol ts) =
    Some (Some (order_id, client_order_id)).
Proof.
  intros. unfold decode_order_accepted, encode_order_accepted. rewrite guard_ok by len.
  unfold get_u64. read_fields. by rewrite !u64_le_roundtrip.
Qed.

Lemma order_submitted_roundtrip order_id client_order_id ts :
  in_u64 order_id -> in_u64 client_order_id -> in_u64 ts ->
  decode_order_submitted (encode_order_submitted order_id client_order_id ts) =
    Some (Some (order_id, client_order_id, ts)).
Proof.
  intros. unfold decode_order_submitted, encode_order_submitted. rewrite guard_ok by len.
  unfold get_u64. read_fields. by rewrite !u64_le_roundtrip.
Qed.

(** Well-formed text is left alone. *)
Lemma between_iff lo hi b : between lo hi b = true <-> lo <= b <= hi.
Proof. unfold between. rewrite andb_true_iff, !Z.leb_le. done. Qed.

Lemma between_false lo hi b : b < lo \/ hi < b -> between lo hi b = false.
Proof. intros H. apply not_true_iff_false. rewrite between_iff. lia. Qed.

Ltac decide_bytes :=
  repeat match goal with
  | |- context [between ?lo ?hi ?b] =>
      first [rewrite (proj2 (between_iff lo hi b)) by lia | rewrite (between_false lo hi b) by lia]
  | |- context [Z.eqb ?a ?b] =>
      first [rewrite (proj2 (Z.eqb_neq a b)) by lia | rewrite (proj2 (Z.eqb_eq a b)) by lia]
  end; cbn [negb].

Lemma utf8_lossy_id bs : is_utf8 bs = true -> from_utf8_lossy bs = bs.
Proof.
  remember (length bs) as n eqn:Hn. revert bs Hn.
  induction n as [n IH] using lt_wf_ind. intros bs -> Hu.
  destruct bs as [|b1 bs1]; [done|].
  assert (IH1 : forall l, (length l <= length bs1)%nat -> is_utf8 l = true -> from_utf8_lossy l = l).
  { intros l Hl. apply (IH (length l)); [simpl; lia|done]. }
  clear IH. cbn [is_utf8] in Hu. cbn [from_utf8_lossy].
  destruct (between 0 127 b1) eqn:E1; [f_equal; apply IH1; [lia|done]|].
  destruct bs1 as [|b2 bs2]; [done|]. destruct (between 194 223 b1) eqn:E2.
  { apply between_iff in E2. apply andb_true_iff in Hu as [Hc Hu]. decide_bytes. rewrite Hc. cbn [negb].
    do 2 f_equal. apply IH1; [simpl; lia|done]. }
  destruct bs2 as [|b3 bs3]; [done|]. destruct (between 224 239 b1) eqn:E3.
  { apply between_iff in E3. apply andb_true_iff in Hu as [Hu Hu3]. apply andb_true_iff in Hu as [Hc2 Hc3].
    rewrite Hc3. unfold continuation in *. apply between_iff in Hc2.
    destruct (Z.eqb_spec b1 224), (Z.eqb_spec b1 237); try lia; decide_bytes;
      do 3 f_equal; (apply IH1; [simpl; lia|done]). }
  destruct bs3 as [|b4 bs4]; [done|].
  apply andb_true_iff in Hu as [Hu Hu4]. apply andb_true_iff in Hu as [Hu Hc4]. apply andb_true_iff in Hu as [Hu Hc3].
  apply andb_true_iff in Hu as [E4 Hc2]. apply between_iff in E4. rewrite Hc3, Hc4. unfold continuation in *.
  apply between_iff in Hc2. destruct (Z.eqb_spec b1 240), (Z.eqb_spec b1 244); try lia; decide_bytes;
    do 4 f_equal; (apply IH1; [simpl; lia|done]).
Qed.

Lemma order_rejected_roundtrip client_order_id reason :
  in_u64 client_order_id -> (length reason <= 255)%nat -> is_utf8 reason = true ->
  decode_order_rejected (encode_order_rejected client_order_id reason) = Some (Some (client_order_id, reason)).
Proof.
  intros Hc Hl Hu. unfold decode_order_rejected, encode_order_rejected, text255.
  rewrite Nat.min_l, firstn_all by lia. rewrite guard_ok by len. unfold get_u64. read_fields.
  rewrite u64_le_roundtrip, Nat2Z.id by done. cbn [mbind option_bind].
  rewrite (proj2 (Nat.ltb_ge _ _)) by len.
  read_fields. rewrite slice_whole by done. cbn [mbind option_bind]. by rewrite utf8_lossy_id.
Qed.

(** Levels of a depth frame. *)
Lemma length_encode_levels l : length (encode_levels l) = (16 * length l)%nat.
Proof.
  induction l as [|[p q] l IH]; [done|]. unfold encode_levels in *. cbn [fmap list_fmap mjoin].
  change (length ((u64_to_le p ++ u64_to_le q) ++ encode_levels l) = (16 * length ((p, q) :: l))%nat).
  rewrite !length_app, !length_u64. unfold encode_levels. cbn [length]. rewrite IH. lia.
Qed.

Lemma get_levels_spec a l c : Forall (fun e => in_u64 (fst e) /\ in_u64 (snd e)) l ->
  get_levels (a ++ encode_levels l ++ c) (length a) (length l) = Some l.
Proof.
  revert a. induction l as [|[p q] l IH]; intros a Hl; [done|]. apply Forall_cons in Hl as [[Hp Hq] Hl].
  cbn [get_levels length]. change (encode_levels ((p, q) :: l)) with ((u64_to_le p ++ u64_to_le q) ++ encode_levels l).
  rewrite <- !app_assoc. unfold get_u64.
  rewrite (slice_app a (u64_to_le p) _ (length a) 8) by (done || apply length_u64). cbn [fmap option_fmap option_map mbind option_bind].
  rewrite (slice_past a) by lia. replace (length a + 8 - length a)%nat with 8%nat by lia.
  read_fields. rewrite !u64_le_roundtrip by done.
  replace (a ++ u64_to_le p ++ u64_to_le q ++ encode_levels l ++ c)
    with ((a ++ u64_to_le p ++ u64_to_le q) ++ encode_levels l ++ c) by (by rewrite <- !app_assoc).
  replace (length a + 16)%nat with (length (a ++ u64_to_le p ++ u64_to_le q)) by (rewrite !length_app, !length_u64; lia).
  by rewrite IH.
Qed.

(** The header of a depth frame, and its levels. *)
Definition depth_header (ts : Z) (symbol : bytes) (nb na : nat) : bytes :=
  DEPTH_MSG :: u64_to_le ts ++ pack8 symbol ++ u16_to_le (Z.of_nat nb) ++ u16_to_le (Z.of_nat na) ++ zeros 4.

Lemma depth_header_length ts symbol nb na : length (depth_header ts symbol nb na) = 25%nat.
Proof. unfold depth_header. cbn [length]. rewrite !length_app. by autorewrite with wire. Qed.

Lemma encode_depth_split ts symbol bids asks : (length bids <= u16_max)%nat -> (length asks <= u16_max)%nat ->
  encode_depth ts symbol bids asks =
    depth_header ts symbol (length bids) (length asks) ++ encode_levels bids ++ encode_levels asks.
Proof.
  intros Hb Ha. unfold encode_depth, depth_frame, depth_header. rewrite !Nat.min_l, !firstn_all by assumption.
  cbn [app]. by rewrite <- !app_assoc.
Qed.

Lemma slice_front a l i n : (i + n <= length a)%nat -> slice (a ++ l) i n = slice a i n.
Proof.
  intros Hi. unfold slice. rewrite !(proj2 (Nat.leb_le _ _)) by (rewrite ?length_app; lia).
  rewrite drop_app_le by lia. by rewrite take_app_le by (rewrite length_drop; lia).
Qed.

Lemma depth_header_fields ts symbol nb na rest : in_u64 ts -> (nb <= u16_max)%nat -> (na <= u16_max)%nat ->
  let buf := depth_header ts symbol nb na ++ rest in
  get_u64 buf 1 = Some ts /\ slice buf 9 8 = Some (pack8 symbol) /\ get_u16 buf 17 = Some nb /\ get_u16 buf 19 = Some na.
Proof.
  intros Ht Hb Ha. cbv zeta. unfold get_u64, get_u16.
  rewrite !(slice_front (depth_header ts symbol nb na)) by (rewrite depth_header_length; lia).
  unfold depth_header. read_fields.
  pose proof u16_max_value as Hm.
  rewrite u64_le_roundtrip by exact Ht. rewrite !u16_le_roundtrip by lia. rewrite !Nat2Z.id.
  repeat split; reflexivity.
Qed.

Lemma depth_guard ts symbol nb na rest A (k : option (option A)) n : (n <= 25)%nat ->
  guard (depth_header ts symbol nb na ++ rest) n DEPTH_MSG k = k.
Proof.
  intros Hn. pose proof (depth_header_length ts symbol nb na) as Hl. unfold depth_header in *. cbn [app].
  apply guard_ok. cbn [length] in *. rewrite length_app. lia.
Qed.

Lemma depth_rest_roundtrip ts symbol bids asks :
  in_u64 ts -> (length bids <= u16_max)%nat -> (length asks <= u16_max)%nat ->
  Forall (fun e => in_u64 (fst e) /\ in_u64 (snd e)) bids -> Forall (fun e => in_u64 (fst e) /\ in_u64 (snd e)) asks ->
  decode_depth_for_rest (encode_depth ts symbol bids asks)
    = Some (Some (mkRestDepth (sym8_to_str (pack8 symbol)) bids asks ts)).
Proof.
  intros Ht Hb Ha Fb Fa. rewrite encode_depth_split by assumption. unfold decode_depth_for_rest. rewrite depth_guard by lia.
  destruct (depth_header_fields ts symbol (length bids) (length asks) (encode_levels bids ++ encode_levels asks) Ht Hb Ha)
    as (-> & -> & -> & ->). cbn [mbind option_bind].
  rewrite (proj2 (Nat.ltb_ge _ _)) by (rewrite !length_app, !length_encode_levels, depth_header_length; lia).
  pose proof (get_levels_spec (depth_header ts symbol (length bids) (length asks)) bids (encode_levels asks) Fb) as Gb.
  rewrite depth_header_length in Gb. rewrite Gb. cbn [mbind option_bind].
  pose proof (get_levels_spec (depth_header ts symbol (length bids) (length asks) ++ encode_levels bids) asks [] Fa) as Ga.
  rewrite app_nil_r, <- app_assoc, length_app, depth_header_length, length_encode_levels in Ga.
  replace (25 + length bids * 16)%nat with (25 + 16 * length bids)%nat by lia. by rewrite Ga.
Qed.

Lemma ticker_rest_roundtrip symbol last change high low volume :
  in_u64 last -> in_u64 change -> in_u64 high -> in_u64 low -> in_u64 volume ->
  decode_ticker_for_rest (encode_ticker symbol last change high low volume)
    = Some (Some (mkRestTicker (sym8_to_str (pack8 symbol)) last change high low volume)).
Proof.
  intros. unfold decode_ticker_for_rest, encode_ticker. rewrite guard_ok by len.
  unfold get_u64. read_fields. by rewrite !u64_le_roundtrip.
Qed.

Lemma best_price_frame ts symbol bids asks want_ask :
  in_u64 ts -> (length bids <= u16_max)%nat -> (length asks <= u16_max)%nat ->
  Forall (fun e => in_u64 (fst e) /\ in_u64 (snd e)) bids -> Forall (fun e => in_u64 (fst e) /\ in_u64 (snd e)) asks ->
  decode_best_price (encode_depth ts symbol bids asks) want_ask
    = Some (fst <$> head (if want_ask then asks else bids)).
Proof.
  intros Ht Hb Ha Fb Fa. rewrite encode_depth_split by assumption. unfold decode_best_price. rewrite depth_guard by lia.
  destruct (depth_header_fields ts symbol (length bids) (length asks) (encode_levels bids ++ encode_levels asks) Ht Hb Ha)
    as (_ & _ & -> & ->). cbn [mbind option_bind].
  assert (Hfirst : forall a p q l c, in_u64 p -> get_u64 (a ++ encode_levels ((p, q) :: l) ++ c) (length a) = Some p).
  { intros a p q l c Hp. unfold get_u64. change (encode_levels ((p, q) :: l)) with ((u64_to_le p ++ u64_to_le q) ++ encode_levels l).
    rewrite <- !app_assoc, (slice_app a (u64_to_le p) _ (length a) 8) by (done || apply length_u64).
    cbn [fmap option_fmap option_map]. by rewrite u64_le_roundtrip. }
  destruct want_ask.
  - destruct asks as [|[p q] asks]; [done|]. apply Forall_cons in Fa as [[Hp _] _]. cbn [length Nat.eqb orb].
    rewrite (proj2 (Nat.ltb_ge _ _)) by (rewrite !length_app, !length_encode_levels, depth_header_length; cbn [length]; lia).
    specialize (Hfirst (depth_header ts symbol (length bids) (S (length asks)) ++ encode_levels bids) p q asks [] Hp).
    rewrite app_nil_r, <- app_assoc, length_app, depth_header_length, length_encode_levels in Hfirst.
    replace (25 + length bids * 16)%nat with (25 + 16 * length bids)%nat by lia. by rewrite Hfirst.
  - destruct bids as [|[p q] bids]; [done|]. apply Forall_cons in Fb as [[Hp _] _]. cbn [length Nat.eqb orb].
    rewrite (proj2 (Nat.ltb_ge _ _)) by (rewrite !length_app, !length_encode_levels, depth_header_length; cbn [length]; lia).
    specialize (Hfirst (depth_header ts symbol (S (length bids)) (length asks)) p q bids (encode_levels asks) Hp).
    rewrite depth_header_length in Hfirst. by rewrite Hfirst.
Qed.

(** ** Writing fields into an array *)

Lemma put_spec buf i f : (i + length f <= length buf)%nat ->
  exists buf', put buf i f = Some buf' /\ length buf' = length buf /\
    slice buf' i (length f) = Some f /\
    (forall j n, (j + n <= i)%nat \/ (i + length f <= j)%nat -> slice buf' j n = slice buf j n).
Proof.
  intros Hi. unfold put. rewrite (proj2 (Nat.leb_le _ _) Hi). eexists. split; [done|].
  assert (Hlen : length (take i buf ++ f ++ drop (i + length f) buf) = length buf).
  { rewrite !length_app, length_take, length_drop. lia. }
  split; [done|]. split.
  - apply (slice_app (take i buf)); [rewrite length_take; lia|done].
  - intros j n Hj. unfold slice. rewrite Hlen. destruct (Nat.leb_spec (j + n) (length buf)) as [Hle|]; [|done].
    f_equal. apply list_eq. intros k.
    destruct (decide (k < n)%nat) as [Hk|]; [|rewrite !lookup_take_ge by lia; done].
    rewrite !lookup_take_lt, !lookup_drop by lia. destruct Hj.
    + rewrite lookup_app_l, lookup_take_lt by (rewrite ?length_take; lia). done.
    + rewrite lookup_app_r, lookup_app_r, lookup_drop by (rewrite ?length_take; lia). f_equal.
      rewrite length_take. lia.
Qed.

Lemma slice_byte buf i b : slice buf i 1 = Some [b] -> buf !! i = Some b.
Proof.
  unfold slice. destruct (Nat.leb_spec (i + 1) (length buf)) as [Hle|]; [|done]. intros [= Ht].
  rewrite <- (Nat.add_0_r i), <- lookup_drop, <- (lookup_take_lt _ 1 0) by lia. by rewrite Ht.
Qed.

Lemma guard_byte {A} buf n t (k : option (option A)) : (n <= length buf)%nat -> slice buf 0 1 = Some [t] -> guard buf n t k = k.
Proof.
  intros Hn Hb. unfold guard. destruct (Nat.ltb_spec (length buf) n); [lia|].
  rewrite (slice_byte _ _ _ Hb). simpl. by rewrite Z.eqb_refl.
Qed.

Lemma client_place_roundtrip coid symbol side tif price_ticks quantity_lots :
  in_u64 coid -> in_i64 price_ticks -> in_i64 quantity_lots ->
  exists buf, encode_client_place_order coid symbol side tif price_ticks quantity_lots = Some buf /\
    length buf = 37%nat /\
    decode_client_place_order buf = Some (Some (coid, pack8 symbol, side, tif, price_ticks, quantity_lots)).
Proof.
  intros Hc Hp Hq. unfold encode_client_place_order.
  destruct (put_spec (zeros 37) 0 [CLIENT_PLACE_ORDER]) as (b0 & -> & L0 & S0 & _); [len|].
  rewrite length_zeros in L0. cbn [mbind option_bind].
  destruct (put_spec b0 1 (u64_to_le coid)) as (b1 & -> & L1 & S1 & O1); [len|]. cbn [mbind option_bind].
  destruct (put_spec b1 9 (pack8 symbol)) as (b2 & -> & L2 & S2 & O2); [len|]. cbn [mbind option_bind].
  destruct (put_spec b2 17 [side]) as (b3 & -> & L3 & S3 & O3); [len|]. cbn [mbind option_bind].
  destruct (put_spec b3 18 [tif]) as (b4 & -> & L4 & S4 & O4); [len|]. cbn [mbind option_bind].
  destruct (put_spec b4 21 (i64_to_le price_ticks)) as (b5 & -> & L5 & S5 & O5); [len|]. cbn [mbind option_bind].
  destruct (put_spec b5 29 (i64_to_le quantity_lots)) as (b6 & -> & L6 & S6 & O6); [len|].
  autorewrite with wire in *. cbn [length] in *. exists b6. split; [done|]. split; [lia|].
  assert (R0 : slice b6 0 1 = Some [CLIENT_PLACE_ORDER]) by (rewrite O6, O5, O4, O3, O2, O1 by lia; done).
  assert (R1 : slice b6 1 8 = Some (u64_to_le coid)) by (rewrite O6, O5, O4, O3, O2 by lia; done).
  assert (R2 : slice b6 9 8 = Some (pack8 symbol)) by (rewrite O6, O5, O4, O3 by lia; done).
  assert (R3 : slice b6 17 1 = Some [side]) by (rewrite O6, O5, O4 by lia; done).
  assert (R4 : slice b6 18 1 = Some [tif]) by (rewrite O6, O5 by lia; done).
  assert (R5 : slice b6 21 8 = Some (i64_to_le price_ticks)) by (rewrite O6 by lia; done).
  unfold decode_client_place_order. rewrite guard_byte by (lia || done).
  unfold get_u64, get_i64. rewrite R1, R2, (slice_byte _ _ _ R3), (slice_byte _ _ _ R4), R5, S6.
  cbn [fmap option_fmap option_map mbind option_bind]. by rewrite u64_le_roundtrip, !i64_le_roundtrip.
Qed.

Lemma client_cancel_roundtrip order_id : in_i64 order_id ->
  exists buf, encode_client_cancel_order order_id = Some buf /\ length buf = 9%nat /\
    decode_client_cancel_order buf = Some (Some order_id).
Proof.
  intros Ho. unfold encode_client_cancel_order.
  destruct (put_spec (zeros 9) 0 [CLIENT_CANCEL_ORDER]) as (b0 & -> & L0 & S0 & _); [len|].
  rewrite length_zeros in L0. cbn [mbind option_bind].
  destruct (put_spec b0 1 (i64_to_le order_id)) as (b1 & -> & L1 & S1 & O1); [len|].
  autorewrite with wire in *. cbn [length] in *. exists b1. split; [done|]. split; [lia|].
  unfold decode_client_cancel_order. rewrite guard_byte by (lia || (rewrite O1 by lia; done)).
  unfold get_i64. rewrite S1. cbn [fmap option_fmap option_map mbind option_bind]. by rewrite i64_le_roundtrip.
Qed.

(** ** No decoder panics *)

Lemma guard_total {A} buf n t (k : option (option A)) :
  (0 < n)%nat -> ((n <= length buf)%nat -> is_Some k) -> is_Some (guard buf n t k).
Proof.
  intros Hn Hk. unfold guard. destruct (Nat.ltb_spec (length buf) n) as [|Hge]; [by eexists|].
  destruct (lookup_lt_is_Some_2 buf 0) as [b ->]; [lia|]. cbn [mbind option_bind].
  destruct (negb (Z.eqb b t)); [by eexists|auto].
Qed.

Lemma get_u64_total buf i : (i + 8 <= length buf)%nat -> exists z, get_u64 buf i = Some z.
Proof. intros H. unfold get_u64. destruct (slice_is_Some buf i 8 H) as [s ->]. by eexists. Qed.
Lemma get_i64_total buf i : (i + 8 <= length buf)%nat -> exists z, get_i64 buf i = Some z.
Proof. intros H. unfold get_i64. destruct (slice_is_Some buf i 8 H) as [s ->]. by eexists. Qed.
Lemma get_u16_total buf i : (i + 2 <= length buf)%nat -> exists z, get_u16 buf i = Some z.
Proof. intros H. unfold get_u16. destruct (slice_is_Some buf i 2 H) as [s ->]. by eexists. Qed.
Lemma slice_total buf i n : (i + n <= length buf)%nat -> exists s, slice buf i n = Some s.
Proof. intros H. destruct (slice_is_Some buf i n H) as [s Hs]. by exists s. Qed.
Lemma byte_total (buf : bytes) i : (i < length buf)%nat -> exists b, buf !! i = Some b.
Proof. intros H. destruct (lookup_lt_is_Some_2 buf i H) as [b Hb]. by exists b. Qed.

Lemma get_levels_total buf off n : (off + 16 * n <= length buf)%nat -> exists l, get_levels buf off n = Some l.
Proof.
  revert off. induction n as [|n IH]; intros off H; [by eexists|]. cbn [get_levels].
  destruct (get_u64_total buf off) as [p ->]; [lia|]. destruct (get_u64_total buf (off + 8)) as [q ->]; [lia|].
  destruct (IH (off + 16)%nat) as [l ->]; [lia|]. by eexists.
Qed.

Ltac total :=
  apply guard_total; [lia|]; intros;
  repeat match goal with
  | |- context [get_u64 ?b ?i] => destruct (get_u64_total b i) as [? ->]; [lia|]
  | |- context [get_i64 ?b ?i] => destruct (get_i64_total b i) as [? ->]; [lia|]
  | |- context [get_u16 ?b ?i] => destruct (get_u16_total b i) as [? ->]; [lia|]
  | |- context [slice ?b ?i ?n] => destruct (slice_total b i n) as [? ->]; [lia|]
  | |- context [?b !! ?i] => destruct (byte_total b i) as [? ->]; [lia|]
  end; cbn [mbind option_bind]; eauto.

(** Whatever bytes arrive, none of the decoders reads outside the buffer: a
    frame that is too short, of another type, or whose counts promise more than
    it holds is refused. *)
Theorem ws_decoders_total buf :
  is_Some (decode_order_update buf) /\ is_Some (decode_order_accepted buf) /\
  is_Some (decode_order_rejected buf) /\ is_Some (decode_order_submitted buf) /\
  is_Some (decode_symbol_from_depth buf) /\ is_Some (decode_symbol_from_trade buf) /\
  is_Some (decode_symbol_from_ticker buf) /\ is_Some (decode_symbol_from_kline buf) /\
  is_Some (decode_symbol_from_agg_trade buf) /\ is_Some (decode_depth_for_rest buf) /\
  is_Some (decode_ticker_for_rest buf) /\ (forall want_ask, is_Some (decode_best_price buf want_ask)) /\
  is_Some (decode_client_place_order buf) /\ is_Some (decode_client_cancel_order buf).
Proof.
  repeat match goal with |- _ /\ _ => split end; try (by total).
  - apply guard_total; [lia|]. intros Hl. destruct (get_u64_total buf 1) as [x ->]; [lia|].
    destruct (byte_total buf 9) as [n ->]; [lia|]. cbn [mbind option_bind].
    destruct (Nat.ltb_spec (length buf) (10 + Z.to_nat n)) as [|Hge]; [by eexists|].
    destruct (slice_total buf 10 (Z.to_nat n)) as [s ->]; [lia|]. by eexists.
  - apply guard_total; [lia|]. intros Hl. destruct (get_u64_total buf 1) as [x ->]; [lia|].
    destruct (slice_total buf 9 8) as [s ->]; [lia|]. destruct (get_u16_total buf 17) as [nb ->]; [lia|].
    destruct (get_u16_total buf 19) as [na ->]; [lia|]. cbn [mbind option_bind].
    destruct (Nat.ltb_spec (length buf) (25 + (nb + na) * 16)) as [|Hge]; [by eexists|].
    destruct (get_levels_total buf 25 nb) as [lb ->]; [lia|].
    destruct (get_levels_total buf (25 + nb * 16) na) as [la ->]; [lia|]. by eexists.
  - intros want_ask. apply guard_total; [lia|]. intros Hl. destruct (get_u16_total buf 17) as [nb ->]; [lia|].
    destruct (get_u16_total buf 19) as [na ->]; [lia|]. cbn [mbind option_bind]. destruct want_ask.
    + destruct (Nat.eqb na 0); [by eexists|]. cbn [orb].
      destruct (Nat.ltb_spec (length buf) (25 + nb * 16 + 8)) as [|Hge]; [by eexists|].
      destruct (get_u64_total buf (25 + nb * 16)) as [p ->]; [lia|]. by eexists.
    + destruct (Nat.eqb nb 0); [by eexists|]. cbn [orb].
      destruct (Nat.ltb_spec (length buf) 33) as [|Hge]; [by eexists|].
      destruct (get_u64_total buf 25) as [p ->]; [lia|]. by eexists.
Qed.

(** A price level of a depth frame. *)
Definition level_ok (e : Z * Z) : Prop := in_u64 (fst e) /\ in_u64 (snd e).

(** Every command and every message that has both an encoder and a decoder
    survives the wire: client orders and cancels, order acknowledgements,
    rejections with their reason, submissions, updates, depth frames level by
    level with their best prices, and tickers. *)
Theorem ws_roundtrip :
  (forall coid symbol side tif price lots, in_u64 coid -> in_i64 price -> in_i64 lots ->
     exists buf, encode_client_place_order coid symbol side tif price lots = Some buf /\ length buf = 37%nat /\
       decode_client_place_order buf = Some (Some (coid, pack8 symbol, side, tif, price, lots))) /\
  (forall order_id, in_i64 order_id ->
     exists buf, encode_client_cancel_order order_id = Some buf /\ length buf = 9%nat /\
       decode_client_cancel_order buf = Some (Some order_id)) /\
  (forall order_id coid price qty side symbol ts, in_u64 order_id -> in_u64 coid ->
     decode_order_accepted (encode_order_accepted order_id coid price qty side symbol ts) = Some (Some (order_id, coid))) /\
  (forall coid reason, in_u64 coid -> (length reason <= 255)%nat -> is_utf8 reason = true ->
     decode_order_rejected (encode_order_rejected coid reason) = Some (Some (coid, reason))) /\
  (forall order_id coid ts, in_u64 order_id -> in_u64 coid -> in_u64 ts ->
     decode_order_submitted (encode_order_submitted order_id coid ts) = Some (Some (order_id, coid, ts))) /\
  (forall order_id coid status filled avg ts, in_u64 order_id -> in_u64 coid -> in_u64 filled -> in_u64 avg -> in_u64 ts ->
     decode_order_update (encode_order_update order_id coid status filled avg ts)
       = Some (Some (order_id, coid, status, filled, avg, ts))) /\
  (forall ts symbol bids asks, in_u64 ts -> (length bids <= u16_max)%nat -> (length asks <= u16_max)%nat ->
     Forall level_ok bids -> Forall level_ok asks ->
     decode_depth_for_rest (encode_depth ts symbol bids asks)
       = Some (Some (mkRestDepth (sym8_to_str (pack8 symbol)) bids asks ts)) /\
     forall want_ask, decode_best_price (encode_depth ts symbol bids asks) want_ask
       = Some (fst <$> head (if want_ask then asks else bids))) /\
  (forall symbol last change high low volume,
     in_u64 last -> in_u64 change -> in_u64 high -> in_u64 low -> in_u64 volume ->
     decode_ticker_for_rest (encode_ticker symbol last change high low volume)
       = Some (Some (mkRestTicker (sym8_to_str (pack8 symbol)) last change high low volume))).
Proof.
  repeat match goal with |- _ /\ _ => split end.
  - apply client_place_roundtrip.
  - apply client_cancel_roundtrip.
  - apply order_accepted_roundtrip.
  - apply order_rejected_roundtrip.
  - apply order_submitted_roundtrip.
  - apply order_update_roundtrip.
  - intros. split; [by apply depth_rest_roundtrip|]. intros. by apply best_price_frame.
  - apply ticker_rest_roundtrip.
Qed.

(** The symbol of a message is read back when it fits the eight bytes. *)
Lemma sym8_roundtrip s : (length s <= 8)%nat -> Forall (fun b => b <> 0) s -> is_utf8 s = true -> sym8_to_str (pack8 s) = s.
Proof. apply unpack_pack_str. Qed.

(** The documented frame sizes of two messages are not those of the encoders. *)
Lemma kline_length symbol interval time open high low close volume :
  length (encode_kline symbol interval time open high low close volume) = 65%nat.
Proof. unfold encode_kline. cbn [length]. rewrite !length_app. by autorewrite with wire. Qed.

Lemma agg_trade_length symbol interval time open high low close volume trade_count :
  length (encode_agg_trade symbol interval time open high low close volume trade_count) = 73%nat.
Proof. unfold encode_agg_trade. cbn [length]. rewrite !length_app. by autorewrite with wire. Qed.
