(* ===== verification/Routing.v ===== *)
(** Order statuses and account routing of the desk
    ([src/src/desk/order_state.rs], [src/src/desk/counter_shard.rs]): the
    projections of an engine status or an update kind to the database and to the
    WebSocket vocabulary, and the assignment of users and symbols to desks. *)
From Stdlib Require Import ZArith Lia String.
From stdpp Require Import base numbers list.
From S2P Require Import Prelude Bytes Types Engine Text Sbe.

#[local] Open Scope Z_scope.

(** ** Statuses *)

Module DbOrderStatus.
Inductive t := Pending | Trading | Completed | Canceled | Rejected.

Definition as_str (s : t) : string :=
  match s with
  | Pending => "PENDING" | Trading => "TRADING" | Completed => "COMPLETED"
  | Canceled => "CANCELED" | Rejected => "REJECTED"
  end%string.

Definition as_u8 (s : t) : Z :=
  match s with Pending => 0 | Trading => 1 | Completed => 2 | Canceled => 3 | Rejected => 4 end.
End DbOrderStatus.

Module WsOrderStatus.
Inductive t := Open | Partial | PartialFill | Filled | Canceled | Rejected.

Definition as_str (s : t) : string :=
  match s with
  | Open => "OPEN" | Partial => "PARTIAL" | PartialFill => "PARTIAL_FILL"
  | Filled => "FILLED" | Canceled => "CANCELED" | Rejected => "REJECTED"
  end%string.
End WsOrderStatus.

Definition OPEN_DB_STATUSES : list string :=
  [DbOrderStatus.as_str DbOrderStatus.Pending; DbOrderStatus.as_str DbOrderStatus.Trading].

Definition HISTORY_DB_STATUSES : list string :=
  [DbOrderStatus.as_str DbOrderStatus.Completed; DbOrderStatus.as_str DbOrderStatus.Canceled;
   DbOrderStatus.as_str DbOrderStatus.Rejected].

Definition db_status_from_update_kind (kind : Z) : DbOrderStatus.t :=
  if Z.eqb kind ACCEPTED then DbOrderStatus.Pending
  else if Z.eqb kind PARTIAL_FILL then DbOrderStatus.Trading
  else if Z.eqb kind FILLED then DbOrderStatus.Completed
  else if Z.eqb kind CANCELLED then DbOrderStatus.Canceled
  else DbOrderStatus.Rejected.

Definition ws_status_from_update_kind (kind : Z) : WsOrderStatus.t :=
  if Z.eqb kind ACCEPTED then WsOrderStatus.Open
  else if Z.eqb kind PARTIAL_FILL then WsOrderStatus.Partial
  else if Z.eqb kind FILLED then WsOrderStatus.Filled
  else if Z.eqb kind CANCELLED then WsOrderStatus.Canceled
  else WsOrderStatus.Rejected.

Definition db_status_from_engine (status : OrderStatus) : DbOrderStatus.t :=
  match status with
  | Accepted => DbOrderStatus.Pending
  | PartiallyFilled => DbOrderStatus.Trading
  | Filled => DbOrderStatus.Completed
  | Cancelled => DbOrderStatus.Canceled
  | Rejected => DbOrderStatus.Rejected
  end.

Definition ws_status_from_engine (status : OrderStatus) (cancelled_after_fill : bool)
  : WsOrderStatus.t :=
  match status with
  | Accepted => WsOrderStatus.Open
  | PartiallyFilled => WsOrderStatus.PartialFill
  | Filled => WsOrderStatus.Filled
  | Cancelled => if cancelled_after_fill then WsOrderStatus.PartialFill else WsOrderStatus.Canceled
  | Rejected => WsOrderStatus.Rejected
  end.

Definition maker_ws_status_from_db_status (status : string) : WsOrderStatus.t :=
  if String.eqb status "COMPLETED" then WsOrderStatus.Filled
  else if String.eqb status "TRADING" then WsOrderStatus.PartialFill
  else WsOrderStatus.PartialFill.

(** The two status lists partition the database statuses, so an order is listed
    as open or as history, never as both or neither. *)
Lemma db_status_partition s :
  In (DbOrderStatus.as_str s) OPEN_DB_STATUSES <-> ~ In (DbOrderStatus.as_str s) HISTORY_DB_STATUSES.
Proof. destruct s; simpl; intuition congruence. Qed.

(** ** Desks *)

Definition COUNTER_SHARD_COUNT : Z := 4.

Definition owner_shard_for_user_id (user_id : Z) : Z :=
  if Z.leb user_id 0 then 0 else user_id mod COUNTER_SHARD_COUNT.

Definition is_user_owned_by (user_id counter_shard_id : Z) : bool :=
  Z.eqb (owner_shard_for_user_id user_id) counter_shard_id.

Definition counter_shard_for_desk_id (desk_id : Z) : Z := desk_id mod COUNTER_SHARD_COUNT.

Definition is_user_owned_by_desk (user_id desk_id : Z) : bool :=
  is_user_owned_by user_id (counter_shard_for_desk_id desk_id).

(** [hash ^= *byte] over the bytes, then its low bit. *)
Definition stable_symbol_bit (symbol : bytes) : Z := Z.land (fold_left Z.lxor symbol 0) 1.

(** [split_once('_')]: the part before the first separator, if there is one. *)
Definition base_of (symbol : bytes) : bytes := default symbol (split 95 symbol !! 0%nat).

Definition symbol_route_desk_id (symbol : bytes) : Z :=
  let base := base_of symbol in
  if decide (base = str "BTC") then 0
  else if decide (base = str "ETH") then 1
  else 2 + stable_symbol_bit base.

(** Every user is owned by exactly one of the four desks, and every symbol is
    routed to one of them. *)
Lemma owner_desk_unique user_id : exists desk, 0 <= desk < COUNTER_SHARD_COUNT /\
  forall d, 0 <= d < COUNTER_SHARD_COUNT -> is_user_owned_by_desk user_id d = true <-> d = desk.
Proof.
  exists (owner_shard_for_user_id user_id). split.
  - unfold owner_shard_for_user_id, COUNTER_SHARD_COUNT. destruct (Z.leb user_id 0); [lia|].
    apply Z.mod_pos_bound. lia.
  - intros d Hd. unfold is_user_owned_by_desk, is_user_owned_by, counter_shard_for_desk_id.
    rewrite Z.mod_small by done. rewrite Z.eqb_eq. done.
Qed.

Lemma symbol_route_range symbol : 0 <= symbol_route_desk_id symbol < COUNTER_SHARD_COUNT.
Proof.
  unfold symbol_route_desk_id, COUNTER_SHARD_COUNT, stable_symbol_bit. repeat case_decide; try lia.
  change 1 with (Z.ones 1). rewrite Z.land_ones by lia.
  pose proof (Z.mod_pos_bound (fold_left Z.lxor (base_of symbol) 0) (2 ^ 1)). lia.
Qed.
