(* ===== verification/PersistEvent.v ===== *)
(** The persistence stream ([src/src/transport/persist_event.rs]): the frames the
    desk publishes to the database writers.  A frame is a fixed 152-byte image
    with a kind byte and a 136-byte payload area that holds one of eleven packed
    structs.  The round trip of every kind through the wire is the property of
    this file, with that a frame of one kind is never read as another. *)
From Stdlib Require Import ZArith Lia.
From stdpp Require Import base numbers list.
From S2P Require Import Prelude Bytes Pod Sbe.

#[local] Open Scope Z_scope.
#[local] Open Scope fmt_scope.

(** ** Kinds *)

Module PersistKind.
Inductive t :=
| OrderUpsert
| OrderDelete
| AccountSet
| TradeInsert
| OrderFillUpdate
| MatchingEvent
| PositionUpsert
| PositionDelete
| RiskAccountSet
| InsuranceFundSet
| FundingSettled.

#[global] Instance t_eq_dec : EqDecision t.
Proof. solve_decision. Defined.

(** [kind as u8] *)
Definition to_u8 (k : t) : Z :=
  match k with
  | OrderUpsert => 1
  | OrderDelete => 2
  | AccountSet => 3
  | TradeInsert => 4
  | OrderFillUpdate => 5
  | MatchingEvent => 6
  | PositionUpsert => 7
  | PositionDelete => 8
  | RiskAccountSet => 9
  | InsuranceFundSet => 10
  | FundingSettled => 11
  end.

Definition from_u8 (v : Z) : option t :=
  if Z.eqb v 1 then Some OrderUpsert else
  if Z.eqb v 2 then Some OrderDelete else
  if Z.eqb v 3 then Some AccountSet else
  if Z.eqb v 4 then Some TradeInsert else
  if Z.eqb v 5 then Some OrderFillUpdate else
  if Z.eqb v 6 then Some MatchingEvent else
  if Z.eqb v 7 then Some PositionUpsert else
  if Z.eqb v 8 then Some PositionDelete else
  if Z.eqb v 9 then Some RiskAccountSet else
  if Z.eqb v 10 then Some InsuranceFundSet else
  if Z.eqb v 11 then Some FundingSettled else
  None.

Lemma from_to_u8 k : from_u8 (to_u8 k) = Some k.
Proof. by destruct k. Qed.

Lemma from_u8_Some v k : from_u8 v = Some k -> v = to_u8 k.
Proof. unfold from_u8. repeat case_match; intros; simplify_eq; simpl; lia. Qed.
End PersistKind.

(** ** Payloads *)

Record OrderFillUpdatePayload := mkOrderFillUpdatePayload {
  ofu_id : Z;
  ofu_filled : Z;
  ofu_status : Z;
  ofu_pad : bytes;
}.

Definition OrderFillUpdatePayload_fmt : fmt OrderFillUpdatePayload := fiso
  (fun '(x0, (x1, (x2, x3))) => mkOrderFillUpdatePayload x0 x1 x2 x3)
  (fun r => (ofu_id r, (ofu_filled r, (ofu_status r, ofu_pad r))))
  (i64 ⊗ f64_bits ⊗ u8 ⊗ array 7).
#[global] Instance OrderFillUpdatePayload_laws : FmtLaws OrderFillUpdatePayload_fmt.
Proof. pod_laws. Qed.
#[global] Instance OrderFillUpdatePayload_pod : Pod OrderFillUpdatePayload := {| layout := OrderFillUpdatePayload_fmt |}.

Record OrderUpsertPayload := mkOrderUpsertPayload {
  oup_id : Z;
  oup_user_id : Z;
  oup_symbol : bytes;
  oup_side : Z;
  oup_status : Z;
  oup_pad : bytes;
  oup_order_type : bytes;
  oup_price : Z;
  oup_qty : Z;
  oup_filled : Z;
  oup_freeze_price : Z;
  oup_client_order_id : bytes;
  oup_created_at_ms : Z;
}.

Definition OrderUpsertPayload_fmt : fmt OrderUpsertPayload := fiso
  (fun '(x0, (x1, (x2, (x3, (x4, (x5, (x6, (x7, (x8, (x9, (x10, (x11, x12)))))))))))) =>
     mkOrderUpsertPayload x0 x1 x2 x3 x4 x5 x6 x7 x8 x9 x10 x11 x12)
  (fun r => (oup_id r, (oup_user_id r, (oup_symbol r, (oup_side r, (oup_status r, (oup_pad r,
     (oup_order_type r, (oup_price r, (oup_qty r, (oup_filled r, (oup_freeze_price r,
     (oup_client_order_id r, oup_created_at_ms r)))))))))))))
  (i64 ⊗ i64 ⊗ array 16 ⊗ u8 ⊗ u8 ⊗ array 6 ⊗ array 16 ⊗ f64_bits ⊗ f64_bits ⊗ f64_bits ⊗ f64_bits
   ⊗ array 32 ⊗ i64).
#[global] Instance OrderUpsertPayload_laws : FmtLaws OrderUpsertPayload_fmt.
Proof. pod_laws. Qed.
#[global] Instance OrderUpsertPayload_pod : Pod OrderUpsertPayload := {| layout := OrderUpsertPayload_fmt |}.

Record OrderDeletePayload := mkOrderDeletePayload {
  odp_id : Z;
}.

Definition OrderDeletePayload_fmt : fmt OrderDeletePayload := fiso
  (fun 'x0 => mkOrderDeletePayload x0)
  (fun r => odp_id r)
  (i64).
#[global] Instance OrderDeletePayload_laws : FmtLaws OrderDeletePayload_fmt.
Proof. pod_laws. Qed.
#[global] Instance OrderDeletePayload_pod : Pod OrderDeletePayload := {| layout := OrderDeletePayload_fmt |}.

Record AccountSetPayload := mkAccountSetPayload {
  asp_user_id : Z;
  asp_asset : bytes;
  asp_balance : Z;
  asp_frozen : Z;
  asp_balance_atoms : Z;
  asp_frozen_atoms : Z;
}.

Definition AccountSetPayload_fmt : fmt AccountSetPayload := fiso
  (fun '(x0, (x1, (x2, (x3, (x4, x5))))) => mkAccountSetPayload x0 x1 x2 x3 x4 x5)
  (fun r => (asp_user_id r, (asp_asset r, (asp_balance r, (asp_frozen r, (asp_balance_atoms r,
     asp_frozen_atoms r))))))
  (i64 ⊗ array 16 ⊗ f64_bits ⊗ f64_bits ⊗ i64 ⊗ i64).
#[global] Instance AccountSetPayload_laws : FmtLaws AccountSetPayload_fmt.
Proof. pod_laws. Qed.
#[global] Instance AccountSetPayload_pod : Pod AccountSetPayload := {| layout := AccountSetPayload_fmt |}.

Record TradeInsertPayload := mkTradeInsertPayload {
  tip_buy_order_id : Z;
  tip_sell_order_id : Z;
  tip_symbol : bytes;
  tip_price : Z;
  tip_qty : Z;
  tip_ts_ms : Z;
}.

Definition TradeInsertPayload_fmt : fmt TradeInsertPayload := fiso
  (fun '(x0, (x1, (x2, (x3, (x4, x5))))) => mkTradeInsertPayload x0 x1 x2 x3 x4 x5)
  (fun r => (tip_buy_order_id r, (tip_sell_order_id r, (tip_symbol r, (tip_price r, (tip_qty r,
     tip_ts_ms r))))))
  (i64 ⊗ i64 ⊗ array 16 ⊗ f64_bits ⊗ f64_bits ⊗ i64).
#[global] Instance TradeInsertPayload_laws : FmtLaws TradeInsertPayload_fmt.
Proof. pod_laws. Qed.
#[global] Instance TradeInsertPayload_pod : Pod TradeInsertPayload := {| layout := TradeInsertPayload_fmt |}.

Record MatchingEventPayload := mkMatchingEventPayload {
  mep_sequence : Z;
  mep_response_stream_id : Z;
  mep_event_kind : Z;
  mep_pad : bytes;
  mep_order_id : Z;
  mep_client_order_id : Z;
  mep_participant_id : Z;
  mep_counterparty_order_id : Z;
  mep_symbol : bytes;
  mep_price_ticks : Z;
  mep_quantity_lots : Z;
  mep_remaining_lots : Z;
  mep_ts_ns : Z;
}.

Definition MatchingEventPayload_fmt : fmt MatchingEventPayload := fiso
  (fun '(x0, (x1, (x2, (x3, (x4, (x5, (x6, (x7, (x8, (x9, (x10, (x11, x12)))))))))))) =>
     mkMatchingEventPayload x0 x1 x2 x3 x4 x5 x6 x7 x8 x9 x10 x11 x12)
  (fun r => (mep_sequence r, (mep_response_stream_id r, (mep_event_kind r, (mep_pad r,
     (mep_order_id r, (mep_client_order_id r, (mep_participant_id r, (mep_counterparty_order_id r,
     (mep_symbol r, (mep_price_ticks r, (mep_quantity_lots r, (mep_remaining_lots r, mep_ts_ns
     r)))))))))))))
  (u64 ⊗ i32 ⊗ u8 ⊗ array 3 ⊗ i64 ⊗ i64 ⊗ i64 ⊗ i64 ⊗ array 16 ⊗ i64 ⊗ i64 ⊗ i64 ⊗ u64).
#[global] Instance MatchingEventPayload_laws : FmtLaws MatchingEventPayload_fmt.
Proof. pod_laws. Qed.
#[global] Instance MatchingEventPayload_pod : Pod MatchingEventPayload := {| layout := MatchingEventPayload_fmt |}.

Record PositionUpsertPayload := mkPositionUpsertPayload {
  pup_user_id : Z;
  pup_symbol : bytes;
  pup_side : Z;
  pup_leverage : Z;
  pup_pad : bytes;
  pup_qty_lots : Z;
  pup_entry_price_ticks : Z;
  pup_used_margin_atoms : Z;
  pup_cost_atoms : Z;
}.

Definition PositionUpsertPayload_fmt : fmt PositionUpsertPayload := fiso
  (fun '(x0, (x1, (x2, (x3, (x4, (x5, (x6, (x7, x8)))))))) => mkPositionUpsertPayload x0 x1 x2 x3
     x4 x5 x6 x7 x8)
  (fun r => (pup_user_id r, (pup_symbol r, (pup_side r, (pup_leverage r, (pup_pad r, (pup_qty_lots
     r, (pup_entry_price_ticks r, (pup_used_margin_atoms r, pup_cost_atoms r)))))))))
  (i64 ⊗ array 16 ⊗ u8 ⊗ u8 ⊗ array 6 ⊗ i64 ⊗ i64 ⊗ i64 ⊗ i64).
#[global] Instance PositionUpsertPayload_laws : FmtLaws PositionUpsertPayload_fmt.
Proof. pod_laws. Qed.
#[global] Instance PositionUpsertPayload_pod : Pod PositionUpsertPayload := {| layout := PositionUpsertPayload_fmt |}.

Record PositionDeletePayload := mkPositionDeletePayload {
  pdp_user_id : Z;
  pdp_symbol : bytes;
}.

Definition PositionDeletePayload_fmt : fmt PositionDeletePayload := fiso
  (fun '(x0, x1) => mkPositionDeletePayload x0 x1)
  (fun r => (pdp_user_id r, pdp_symbol r))
  (i64 ⊗ array 16).
#[global] Instance PositionDeletePayload_laws : FmtLaws PositionDeletePayload_fmt.
Proof. pod_laws. Qed.
#[global] Instance PositionDeletePayload_pod : Pod PositionDeletePayload := {| layout := PositionDeletePayload_fmt |}.

Record RiskAccountSetPayload := mkRiskAccountSetPayload {
  ras_user_id : Z;
  ras_equity_atoms : Z;
  ras_used_margin_atoms : Z;
  ras_order_margin_atoms : Z;
  ras_status : Z;
  ras_pad : bytes;
}.

Definition RiskAccountSetPayload_fmt : fmt RiskAccountSetPayload := fiso
  (fun '(x0, (x1, (x2, (x3, (x4, x5))))) => mkRiskAccountSetPayload x0 x1 x2 x3 x4 x5)
  (fun r => (ras_user_id r, (ras_equity_atoms r, (ras_used_margin_atoms r, (ras_order_margin_atoms
     r, (ras_status r, ras_pad r))))))
  (i64 ⊗ i64 ⊗ i64 ⊗ i64 ⊗ u8 ⊗ array 7).
#[global] Instance RiskAccountSetPayload_laws : FmtLaws RiskAccountSetPayload_fmt.
Proof. pod_laws. Qed.
#[global] Instance RiskAccountSetPayload_pod : Pod RiskAccountSetPayload := {| layout := RiskAccountSetPayload_fmt |}.

Record InsuranceFundSetPayload := mkInsuranceFundSetPayload {
  ifs_balance_atoms : Z;
}.

Definition InsuranceFundSetPayload_fmt : fmt InsuranceFundSetPayload := fiso
  (fun 'x0 => mkInsuranceFundSetPayload x0)
  (fun r => ifs_balance_atoms r)
  (i64).
#[global] Instance InsuranceFundSetPayload_laws : FmtLaws InsuranceFundSetPayload_fmt.
Proof. pod_laws. Qed.
#[global] Instance InsuranceFundSetPayload_pod : Pod InsuranceFundSetPayload := {| layout := InsuranceFundSetPayload_fmt |}.

Record FundingSettledPayload := mkFundingSettledPayload {
  fsp_symbol : bytes;
  fsp_rate_e9 : Z;
  fsp_mark_price_ticks : Z;
  fsp_notional_scale : Z;
  fsp_settled_at_ms : Z;
  fsp_next_settlement_at_ms : Z;
}.

Definition FundingSettledPayload_fmt : fmt FundingSettledPayload := fiso
  (fun '(x0, (x1, (x2, (x3, (x4, x5))))) => mkFundingSettledPayload x0 x1 x2 x3 x4 x5)
  (fun r => (fsp_symbol r, (fsp_rate_e9 r, (fsp_mark_price_ticks r, (fsp_notional_scale r,
     (fsp_settled_at_ms r, fsp_next_settlement_at_ms r))))))
  (array 16 ⊗ i64 ⊗ i64 ⊗ i64 ⊗ i64 ⊗ i64).
#[global] Instance FundingSettledPayload_laws : FmtLaws FundingSettledPayload_fmt.
Proof. pod_laws. Qed.
#[global] Instance FundingSettledPayload_pod : Pod FundingSettledPayload := {| layout := FundingSettledPayload_fmt |}.

Definition MAX_PAYLOAD : nat := 136.

Record PersistFrame := mkPersistFrame {
  pf_kind : Z;
  pf_pad : Z;
  pf_publisher_id : Z;
  pf_pad_2 : bytes;
  pf_seq : Z;
  pf_payload : bytes;
}.

Definition PersistFrame_fmt : fmt PersistFrame := fiso
  (fun '(x0, (x1, (x2, (x3, (x4, x5))))) => mkPersistFrame x0 x1 x2 x3 x4 x5)
  (fun r => (pf_kind r, (pf_pad r, (pf_publisher_id r, (pf_pad_2 r, (pf_seq r, pf_payload r))))))
  (u8 ⊗ u8 ⊗ u16 ⊗ array 4 ⊗ u64 ⊗ array MAX_PAYLOAD).
#[global] Instance PersistFrame_laws : FmtLaws PersistFrame_fmt.
Proof. pod_laws. Qed.
#[global] Instance PersistFrame_pod : Pod PersistFrame := {| layout := PersistFrame_fmt |}.

Definition FRAME_SIZE : nat := size_of PersistFrame.

(** ** Frames *)

Module PersistFrame.
Definition zero : PersistFrame :=
  mkPersistFrame 0 0 0 (zeros 4) 0 (zeros MAX_PAYLOAD).

(** The body every constructor shares: a zero frame with the kind byte and the
    payload's image at the start of the payload area. *)
Definition make {A} `{Pod A} (kind : PersistKind.t) (p : A) : option PersistFrame :=
  let f := zero in
  bytes ← raw_parts p (size_of A);
  payload ← copy_from_slice (pf_payload f) 0 (length bytes) bytes;
  Some (mkPersistFrame (PersistKind.to_u8 kind) (pf_pad f) (pf_publisher_id f) (pf_pad_2 f)
          (pf_seq f) payload).

Definition order_upsert (p : OrderUpsertPayload) := make PersistKind.OrderUpsert p.
Definition order_delete (p : OrderDeletePayload) := make PersistKind.OrderDelete p.
Definition account_set (p : AccountSetPayload) := make PersistKind.AccountSet p.
Definition trade_insert (p : TradeInsertPayload) := make PersistKind.TradeInsert p.
Definition order_fill_update (p : OrderFillUpdatePayload) := make PersistKind.OrderFillUpdate p.
Definition matching_event (p : MatchingEventPayload) := make PersistKind.MatchingEvent p.
Definition position_upsert (p : PositionUpsertPayload) := make PersistKind.PositionUpsert p.
Definition position_delete (p : PositionDeletePayload) := make PersistKind.PositionDelete p.
Definition risk_account_set (p : RiskAccountSetPayload) := make PersistKind.RiskAccountSet p.
Definition insurance_fund_set (p : InsuranceFundSetPayload) := make PersistKind.InsuranceFundSet p.
Definition funding_settled (p : FundingSettledPayload) := make PersistKind.FundingSettled p.

(** [as_bytes] *)
Definition as_bytes (f : PersistFrame) : option bytes := raw_parts f FRAME_SIZE.

(** [from_bytes] *)
Definition from_bytes (data : bytes) : option (option PersistFrame) := decode_at 0 FRAME_SIZE data.

Definition kind (f : PersistFrame) : option PersistKind.t := PersistKind.from_u8 (pf_kind f).

(** The body every accessor shares: [None] unless the frame is of the kind,
    otherwise the payload read from the start of the payload area. *)
Definition as_payload {A} `{Pod A} (k : PersistKind.t) (f : PersistFrame) : option (option A) :=
  if decide (kind f = Some k)
  then p ← read_unaligned (pf_payload f) 0; Some (Some p)
  else Some None.

Definition as_order_upsert (f : PersistFrame) : option (option OrderUpsertPayload) :=
  as_payload PersistKind.OrderUpsert f.
Definition as_order_delete (f : PersistFrame) : option (option OrderDeletePayload) :=
  as_payload PersistKind.OrderDelete f.
Definition as_account_set (f : PersistFrame) : option (option AccountSetPayload) :=
  as_payload PersistKind.AccountSet f.
Definition as_trade_insert (f : PersistFrame) : option (option TradeInsertPayload) :=
  as_payload PersistKind.TradeInsert f.
Definition as_order_fill_update (f : PersistFrame) : option (option OrderFillUpdatePayload) :=
  as_payload PersistKind.OrderFillUpdate f.
Definition as_matching_event (f : PersistFrame) : option (option MatchingEventPayload) :=
  as_payload PersistKind.MatchingEvent f.
Definition as_position_upsert (f : PersistFrame) : option (option PositionUpsertPayload) :=
  as_payload PersistKind.PositionUpsert f.
Definition as_position_delete (f : PersistFrame) : option (option PositionDeletePayload) :=
  as_payload PersistKind.PositionDelete f.
Definition as_risk_account_set (f : PersistFrame) : option (option RiskAccountSetPayload) :=
  as_payload PersistKind.RiskAccountSet f.
Definition as_insurance_fund_set (f : PersistFrame) : option (option InsuranceFundSetPayload) :=
  as_payload PersistKind.InsuranceFundSet f.
Definition as_funding_settled (f : PersistFrame) : option (option FundingSettledPayload) :=
  as_payload PersistKind.FundingSettled f.

(** [f.publisher_id = id; f.seq = seq]: the publisher stamps the frame. *)
Definition stamp (f : PersistFrame) (publisher_id seq : Z) : PersistFrame :=
  mkPersistFrame (pf_kind f) (pf_pad f) publisher_id (pf_pad_2 f) seq (pf_payload f).
End PersistFrame.

(** ** Events

    The abstract content of a frame: which constructor built it, from what. *)

Inductive persist_event :=
| EvOrderUpsert (p : OrderUpsertPayload)
| EvOrderDelete (p : OrderDeletePayload)
| EvAccountSet (p : AccountSetPayload)
| EvTradeInsert (p : TradeInsertPayload)
| EvOrderFillUpdate (p : OrderFillUpdatePayload)
| EvMatchingEvent (p : MatchingEventPayload)
| EvPositionUpsert (p : PositionUpsertPayload)
| EvPositionDelete (p : PositionDeletePayload)
| EvRiskAccountSet (p : RiskAccountSetPayload)
| EvInsuranceFundSet (p : InsuranceFundSetPayload)
| EvFundingSettled (p : FundingSettledPayload).

Definition event_kind (e : persist_event) : PersistKind.t :=
  match e with
  | EvOrderUpsert _ => PersistKind.OrderUpsert
  | EvOrderDelete _ => PersistKind.OrderDelete
  | EvAccountSet _ => PersistKind.AccountSet
  | EvTradeInsert _ => PersistKind.TradeInsert
  | EvOrderFillUpdate _ => PersistKind.OrderFillUpdate
  | EvMatchingEvent _ => PersistKind.MatchingEvent
  | EvPositionUpsert _ => PersistKind.PositionUpsert
  | EvPositionDelete _ => PersistKind.PositionDelete
  | EvRiskAccountSet _ => PersistKind.RiskAccountSet
  | EvInsuranceFundSet _ => PersistKind.InsuranceFundSet
  | EvFundingSettled _ => PersistKind.FundingSettled
  end.

Definition event_ok (e : persist_event) : Prop :=
  match e with
  | EvOrderUpsert p => well_typed p
  | EvOrderDelete p => well_typed p
  | EvAccountSet p => well_typed p
  | EvTradeInsert p => well_typed p
  | EvOrderFillUpdate p => well_typed p
  | EvMatchingEvent p => well_typed p
  | EvPositionUpsert p => well_typed p
  | EvPositionDelete p => well_typed p
  | EvRiskAccountSet p => well_typed p
  | EvInsuranceFundSet p => well_typed p
  | EvFundingSettled p => well_typed p
  end.

Definition frame_of (e : persist_event) : option PersistFrame :=
  match e with
  | EvOrderUpsert p => PersistFrame.order_upsert p
  | EvOrderDelete p => PersistFrame.order_delete p
  | EvAccountSet p => PersistFrame.account_set p
  | EvTradeInsert p => PersistFrame.trade_insert p
  | EvOrderFillUpdate p => PersistFrame.order_fill_update p
  | EvMatchingEvent p => PersistFrame.matching_event p
  | EvPositionUpsert p => PersistFrame.position_upsert p
  | EvPositionDelete p => PersistFrame.position_delete p
  | EvRiskAccountSet p => PersistFrame.risk_account_set p
  | EvInsuranceFundSet p => PersistFrame.insurance_fund_set p
  | EvFundingSettled p => PersistFrame.funding_settled p
  end.

(** The accessor of each kind, as one function. *)
Definition read_as (k : PersistKind.t) (f : PersistFrame) : option (option persist_event) :=
  match k with
  | PersistKind.OrderUpsert => option_map (option_map EvOrderUpsert) (PersistFrame.as_order_upsert f)
  | PersistKind.OrderDelete => option_map (option_map EvOrderDelete) (PersistFrame.as_order_delete f)
  | PersistKind.AccountSet => option_map (option_map EvAccountSet) (PersistFrame.as_account_set f)
  | PersistKind.TradeInsert => option_map (option_map EvTradeInsert) (PersistFrame.as_trade_insert f)
  | PersistKind.OrderFillUpdate => option_map (option_map EvOrderFillUpdate) (PersistFrame.as_order_fill_update f)
  | PersistKind.MatchingEvent => option_map (option_map EvMatchingEvent) (PersistFrame.as_matching_event f)
  | PersistKind.PositionUpsert => option_map (option_map EvPositionUpsert) (PersistFrame.as_position_upsert f)
  | PersistKind.PositionDelete => option_map (option_map EvPositionDelete) (PersistFrame.as_position_delete f)
  | PersistKind.RiskAccountSet => option_map (option_map EvRiskAccountSet) (PersistFrame.as_risk_account_set f)
  | PersistKind.InsuranceFundSet => option_map (option_map EvInsuranceFundSet) (PersistFrame.as_insurance_fund_set f)
  | PersistKind.FundingSettled => option_map (option_map EvFundingSettled) (PersistFrame.as_funding_settled f)
  end.

(** ** Lemmas *)

Section payload.
Context {A : Type} `{Pod A}.

Lemma make_ok k (p : A) : well_typed p -> (size_of A <= MAX_PAYLOAD)%nat ->
  PersistFrame.make k p =
    Some (mkPersistFrame (PersistKind.to_u8 k) 0 0 (zeros 4) 0
            (fmt_write layout p ++ zeros (MAX_PAYLOAD - size_of A))).
Proof.
  intros Hp Hs. unfold PersistFrame.make. rewrite raw_parts_full by done. bind_step.
  assert (pf_payload PersistFrame.zero
          = [] ++ zeros (size_of A) ++ zeros (MAX_PAYLOAD - size_of A)) as ->.
  { unfold zeros. rewrite app_nil_l, <- replicate_add. cbn [pf_payload PersistFrame.zero].
    unfold zeros. f_equal. lia. }
  pose proof (fmt_write_length p Hp) as Hl. fold (size_of A) in Hl.
  rewrite copy_from_slice_app; [done|done| |lia].
  unfold zeros. by rewrite length_replicate.
Qed.

Lemma as_payload_ok k (p : A) kd pad pub pad2 sq rest : well_typed p ->
  PersistKind.from_u8 kd = Some k ->
  PersistFrame.as_payload k (mkPersistFrame kd pad pub pad2 sq (fmt_write layout p ++ rest)) =
    Some (Some p).
Proof.
  intros Hp Hk. unfold PersistFrame.as_payload, PersistFrame.kind. cbn [pf_kind pf_payload].
  rewrite decide_True by done. pose proof (read_image p [] rest Hp) as Hr.
  rewrite app_nil_l in Hr. cbn [length] in Hr. by rewrite Hr.
Qed.

Lemma as_payload_other k (f : PersistFrame) : PersistFrame.kind f <> Some k ->
  PersistFrame.as_payload (A := A) k f = Some None.
Proof. intros Hk. unfold PersistFrame.as_payload. by rewrite decide_False. Qed.

Lemma payload_frame k (p : A) publisher_id seq :
  well_typed p -> (size_of A <= MAX_PAYLOAD)%nat -> 0 <= publisher_id < 2 ^ 16 -> in_u64 seq ->
  exists f, PersistFrame.make k p = Some f /\
    well_typed (PersistFrame.stamp f publisher_id seq) /\
    PersistFrame.kind (PersistFrame.stamp f publisher_id seq) = Some k /\
    PersistFrame.as_payload k (PersistFrame.stamp f publisher_id seq) = Some (Some p).
Proof.
  intros Hp Hs Hpub Hseq. eexists. split; [by apply make_ok|].
  unfold PersistFrame.stamp. cbn [pf_kind pf_pad pf_pad_2 pf_payload].
  split; [|split].
  - unfold well_typed. cbn [fmt_ok layout PersistFrame_pod PersistFrame_fmt fiso fpair unsigned
      array fst snd pf_kind pf_pad pf_publisher_id pf_pad_2 pf_seq pf_payload].
    pose proof (fmt_write_length p Hp) as Hl. fold (size_of A) in Hl.
    machine_unfold. split_and!; try lia; try done.
    + by destruct k.
    + by destruct k.
    + by repeat constructor.
    + unfold zeros. rewrite length_app, length_replicate, Hl. unfold MAX_PAYLOAD in *. lia.
    + apply Forall_app. split; [by apply fmt_write_bytes|]. by apply Forall_replicate.
  - unfold PersistFrame.kind. cbn [pf_kind]. apply PersistKind.from_to_u8.
  - apply as_payload_ok; [done|]. apply PersistKind.from_to_u8.
Qed.
End payload.

Lemma frame_bytes_roundtrip (f : PersistFrame) (rest : bytes) : well_typed f ->
  exists bs, PersistFrame.as_bytes f = Some bs /\ length bs = FRAME_SIZE /\
    PersistFrame.from_bytes (bs ++ rest) = Some (Some f).
Proof.
  intros Hf. exists (fmt_write layout f). split; [|split].
  - by apply raw_parts_full.
  - by apply fmt_write_length.
  - by apply (decode_at_image f [] rest).
Qed.

(** Unfold the eleven accessors. *)
Ltac accessors :=
  unfold PersistFrame.as_order_upsert, PersistFrame.as_order_delete, PersistFrame.as_account_set,
    PersistFrame.as_trade_insert, PersistFrame.as_order_fill_update,
    PersistFrame.as_matching_event, PersistFrame.as_position_upsert,
    PersistFrame.as_position_delete, PersistFrame.as_risk_account_set,
    PersistFrame.as_insurance_fund_set, PersistFrame.as_funding_settled.

(** Every kind's payload fits the frame and is read back by its own accessor. *)
Lemma event_frame e publisher_id seq : event_ok e -> 0 <= publisher_id < 2 ^ 16 -> in_u64 seq ->
  exists f, frame_of e = Some f /\
    well_typed (PersistFrame.stamp f publisher_id seq) /\
    PersistFrame.kind (PersistFrame.stamp f publisher_id seq) = Some (event_kind e) /\
    read_as (event_kind e) (PersistFrame.stamp f publisher_id seq) = Some (Some e).
Proof.
  intros Hok Hpub Hseq.
  destruct e as [p|p|p|p|p|p|p|p|p|p|p]; cbn [event_ok event_kind] in *;
    match goal with |- context [read_as ?k _] =>
      destruct (payload_frame k p publisher_id seq Hok) as (f & Hf & Hw & Hk & Hr);
        [vm_compute; lia | done | done |]
    end; exists f; (split; [exact Hf|]); (split; [exact Hw|]); (split; [exact Hk|]);
    unfold read_as; accessors; by rewrite Hr.
Qed.

Lemma read_as_other k f : PersistFrame.kind f <> Some k -> read_as k f = Some None.
Proof.
  intros Hk. destruct k; unfold read_as; accessors;
    by rewrite as_payload_other.
Qed.

(** ** Round trip *)

(** a persistence event framed by its constructor, stamped with a publisher
    and a sequence number and sent as bytes is parsed back, whatever trails it
    in the buffer, with the same publisher and sequence number, to a frame whose
    own accessor returns exactly the event and whose other ten accessors return
    [None]; building, sending and reading never panic. *)
Theorem persist_wire_roundtrip e publisher_id seq rest :
  event_ok e -> 0 <= publisher_id < 2 ^ 16 -> in_u64 seq ->
  exists f bs g, frame_of e = Some f /\
    PersistFrame.as_bytes (PersistFrame.stamp f publisher_id seq) = Some bs /\
    PersistFrame.from_bytes (bs ++ rest) = Some (Some g) /\
    pf_publisher_id g = publisher_id /\ pf_seq g = seq /\
    forall k, read_as k g = Some (if decide (k = event_kind e) then Some e else None).
Proof.
  intros Hok Hpub Hseq. destruct (event_frame e publisher_id seq Hok Hpub Hseq) as (f & Hf & Hw & Hk & Hr).
  destruct (frame_bytes_roundtrip _ rest Hw) as (bs & Hbs & _ & Hb).
  exists f, bs, (PersistFrame.stamp f publisher_id seq). split_and!; try done.
  intros k. destruct (decide (k = event_kind e)) as [->|Hne]; [done|].
  apply read_as_other. rewrite Hk. congruence.
Qed.

Lemma persist_wire_roundtrip_witness :
  let e := EvPositionUpsert (mkPositionUpsertPayload 7 (pack_str 16 [66; 84; 67]) 1 10 (zeros 6)
             250 64000 1600000 (-16000000)) in
  exists f bs g, frame_of e = Some f /\
    PersistFrame.as_bytes (PersistFrame.stamp f 3 42) = Some bs /\
    PersistFrame.from_bytes (bs ++ [1; 2; 3]) = Some (Some g) /\
    pf_publisher_id g = 3 /\ pf_seq g = 42 /\
    forall k, read_as k g = Some (if decide (k = event_kind e) then Some e else None).
Proof.
  intros e. apply (persist_wire_roundtrip e 3 42 [1; 2; 3]).
  - unfold e, event_ok, well_typed. typed_record.
  - lia.
  - machine_unfold. lia.
Defined.
