(* ===== verification/CounterForward.v ===== *)
(** Desk-to-desk forwarding messages ([src/src/transport/counter_forward.rs]):
    an order, a cancel or a WebSocket frame sent to the desk that owns the
    account, as packed structs with a leading kind byte. *)
From Stdlib Require Import ZArith Lia.
From stdpp Require Import base numbers list.
From S2P Require Import Prelude Bytes Pod Sbe.

#[local] Open Scope Z_scope.
#[local] Open Scope fmt_scope.

Definition COUNTER_FORWARD_KIND_NEW_ORDER : Z := 1.
Definition COUNTER_FORWARD_KIND_CANCEL : Z := 2.
Definition COUNTER_FORWARD_KIND_WS_FRAME : Z := 3.
Definition COUNTER_FORWARD_MAX_CLIENT_ID : nat := 32.
Definition COUNTER_FORWARD_MAX_WS_FRAME : nat := 512.

Record CounterForwardOrderMeta := mkCounterForwardOrderMeta {
  cfm_user_id : Z;
  cfm_symbol : bytes;
  cfm_side : Z;
  cfm_pad1 : bytes;
  cfm_order_type : bytes;
  cfm_price : Z;
  cfm_qty : Z;
  cfm_freeze_price : Z;
  cfm_initial_margin_atoms : Z;
  cfm_client_order_id_len : Z;
  cfm_pad2 : bytes;
  cfm_client_order_id : bytes;
}.

Definition CounterForwardOrderMeta_fmt : fmt CounterForwardOrderMeta := fiso
  (fun '(x0, (x1, (x2, (x3, (x4, (x5, (x6, (x7, (x8, (x9, (x10, x11))))))))))) =>
     mkCounterForwardOrderMeta x0 x1 x2 x3 x4 x5 x6 x7 x8 x9 x10 x11)
  (fun r => (cfm_user_id r, (cfm_symbol r, (cfm_side r, (cfm_pad1 r, (cfm_order_type r, (cfm_price
     r, (cfm_qty r, (cfm_freeze_price r, (cfm_initial_margin_atoms r, (cfm_client_order_id_len r,
     (cfm_pad2 r, cfm_client_order_id r))))))))))))
  (i64 ⊗ array 16 ⊗ u8 ⊗ array 7 ⊗ array 16 ⊗ f64_bits ⊗ f64_bits ⊗ f64_bits ⊗ i64 ⊗ u8 ⊗ array 7
   ⊗ array COUNTER_FORWARD_MAX_CLIENT_ID).
#[global] Instance CounterForwardOrderMeta_laws : FmtLaws CounterForwardOrderMeta_fmt.
Proof. pod_laws. Qed.
#[global] Instance CounterForwardOrderMeta_pod : Pod CounterForwardOrderMeta := {| layout := CounterForwardOrderMeta_fmt |}.

Record CounterForwardNewOrder := mkCounterForwardNewOrder {
  cfn_kind : Z;
  cfn_ingress_desk_id : Z;
  cfn_pad : bytes;
  cfn_req : NewOrderRequest;
  cfn_meta : CounterForwardOrderMeta;
}.

Definition CounterForwardNewOrder_fmt : fmt CounterForwardNewOrder := fiso
  (fun '(x0, (x1, (x2, (x3, x4)))) => mkCounterForwardNewOrder x0 x1 x2 x3 x4)
  (fun r => (cfn_kind r, (cfn_ingress_desk_id r, (cfn_pad r, (cfn_req r, cfn_meta r)))))
  (u8 ⊗ u16 ⊗ array 5 ⊗ layout (A := NewOrderRequest) ⊗ layout (A := CounterForwardOrderMeta)).
#[global] Instance CounterForwardNewOrder_laws : FmtLaws CounterForwardNewOrder_fmt.
Proof. pod_laws. Qed.
#[global] Instance CounterForwardNewOrder_pod : Pod CounterForwardNewOrder := {| layout := CounterForwardNewOrder_fmt |}.

Record CounterForwardCancel := mkCounterForwardCancel {
  cfc_kind : Z;
  cfc_ingress_desk_id : Z;
  cfc_pad : bytes;
  cfc_req : CancelOrderRequest;
}.

Definition CounterForwardCancel_fmt : fmt CounterForwardCancel := fiso
  (fun '(x0, (x1, (x2, x3))) => mkCounterForwardCancel x0 x1 x2 x3)
  (fun r => (cfc_kind r, (cfc_ingress_desk_id r, (cfc_pad r, cfc_req r))))
  (u8 ⊗ u16 ⊗ array 5 ⊗ layout (A := CancelOrderRequest)).
#[global] Instance CounterForwardCancel_laws : FmtLaws CounterForwardCancel_fmt.
Proof. pod_laws. Qed.
#[global] Instance CounterForwardCancel_pod : Pod CounterForwardCancel := {| layout := CounterForwardCancel_fmt |}.

Record CounterForwardWsFrame := mkCounterForwardWsFrame {
  cfw_kind : Z;
  cfw_user_id : Z;
  cfw_order_id : Z;
  cfw_len : Z;
  cfw_pad : bytes;
  cfw_payload : bytes;
}.

Definition CounterForwardWsFrame_fmt : fmt CounterForwardWsFrame := fiso
  (fun '(x0, (x1, (x2, (x3, (x4, x5))))) => mkCounterForwardWsFrame x0 x1 x2 x3 x4 x5)
  (fun r => (cfw_kind r, (cfw_user_id r, (cfw_order_id r, (cfw_len r, (cfw_pad r, cfw_payload
     r))))))
  (u8 ⊗ i64 ⊗ u64 ⊗ u16 ⊗ array 5 ⊗ array COUNTER_FORWARD_MAX_WS_FRAME).
#[global] Instance CounterForwardWsFrame_laws : FmtLaws CounterForwardWsFrame_fmt.
Proof. pod_laws. Qed.
#[global] Instance CounterForwardWsFrame_pod : Pod CounterForwardWsFrame := {| layout := CounterForwardWsFrame_fmt |}.

Inductive CounterForwardMsg :=
| NewOrder (m : CounterForwardNewOrder)
| Cancel (m : CounterForwardCancel)
| WsFrame (m : CounterForwardWsFrame).

(** [pack_client_order_id]: the length ([n as u8], [n <= 32]) and the padded
    bytes. *)
Definition pack_client_order_id (value : bytes) : Z * bytes :=
  (Z.of_nat (Nat.min (length value) COUNTER_FORWARD_MAX_CLIENT_ID),
   pack_str COUNTER_FORWARD_MAX_CLIENT_ID value).

Definition unpack_client_order_id (len : Z) (value : bytes) : bytes :=
  let n := Nat.min (Z.to_nat len) COUNTER_FORWARD_MAX_CLIENT_ID in
  default [] (from_utf8 (take n value)).

Module CounterForwardOrderMeta.
(** [price] is [None] for a market order; [0.0] is the pattern 0. *)
Definition new (user_id : Z) (symbol : bytes) (side : Z) (order_type : bytes) (price : option Z)
  (qty freeze_price initial_margin_atoms : Z) (client_order_id : bytes) : CounterForwardOrderMeta :=
  let '(client_order_id_len, client_order_id) := pack_client_order_id client_order_id in
  mkCounterForwardOrderMeta user_id symbol side (zeros 7) (pack_str16 order_type)
    (default 0 price) qty freeze_price initial_margin_atoms client_order_id_len (zeros 7)
    client_order_id.

Definition client_order_id_string (m : CounterForwardOrderMeta) : bytes :=
  unpack_client_order_id (cfm_client_order_id_len m) (cfm_client_order_id m).
End CounterForwardOrderMeta.

Module CounterForwardNewOrder.
Definition new (ingress_desk_id : Z) (req : NewOrderRequest) (meta : CounterForwardOrderMeta)
  : CounterForwardNewOrder :=
  mkCounterForwardNewOrder COUNTER_FORWARD_KIND_NEW_ORDER ingress_desk_id (zeros 5) req meta.
End CounterForwardNewOrder.

Module CounterForwardCancel.
Definition new (ingress_desk_id : Z) (req : CancelOrderRequest) : CounterForwardCancel :=
  mkCounterForwardCancel COUNTER_FORWARD_KIND_CANCEL ingress_desk_id (zeros 5) req.
End CounterForwardCancel.

Module CounterForwardWsFrame.
(** The outer [option] is a panic of [copy_from_slice]. *)
Definition new (user_id order_id : Z) (payload : bytes) : option (option CounterForwardWsFrame) :=
  if Nat.ltb COUNTER_FORWARD_MAX_WS_FRAME (length payload) then Some None
  else
    area ← copy_from_slice (zeros COUNTER_FORWARD_MAX_WS_FRAME) 0 (length payload) payload;
    Some (Some (mkCounterForwardWsFrame COUNTER_FORWARD_KIND_WS_FRAME user_id order_id
                  (Z.of_nat (length payload)) (zeros 5) area)).

Definition payload (m : CounterForwardWsFrame) : bytes :=
  let len := Nat.min (Z.to_nat (cfw_len m)) COUNTER_FORWARD_MAX_WS_FRAME in
  take len (cfw_payload m).
End CounterForwardWsFrame.

(** ** Lemmas *)

(** The forwarded WebSocket frame carries its payload, and only an oversized
    payload is refused. *)
Lemma ws_frame_payload user_id order_id payload :
  exists r, CounterForwardWsFrame.new user_id order_id payload = Some r /\
    match r with
    | Some m => (length payload <= COUNTER_FORWARD_MAX_WS_FRAME)%nat /\
        CounterForwardWsFrame.payload m = payload
    | None => (COUNTER_FORWARD_MAX_WS_FRAME < length payload)%nat
    end.
Proof.
  unfold CounterForwardWsFrame.new. destruct (Nat.ltb_spec COUNTER_FORWARD_MAX_WS_FRAME (length payload)).
  { exists None. done. }
  assert (zeros COUNTER_FORWARD_MAX_WS_FRAME = [] ++ zeros (length payload)
            ++ zeros (COUNTER_FORWARD_MAX_WS_FRAME - length payload)) as ->.
  { unfold zeros. rewrite app_nil_l, <- replicate_add. f_equal. lia. }
  rewrite copy_from_slice_app; [|done|unfold zeros; by rewrite length_replicate|done].
  bind_step. rewrite app_nil_l. eexists. split; [done|]. split; [done|].
  unfold CounterForwardWsFrame.payload. cbn [cfw_len cfw_payload].
  rewrite Nat2Z.id, Nat.min_l by done. by rewrite take_app_length.
Qed.

Lemma client_order_id_roundtrip (s : bytes) :
  (length s <= COUNTER_FORWARD_MAX_CLIENT_ID)%nat -> is_utf8 s = true ->
  let '(len, v) := pack_client_order_id s in unpack_client_order_id len v = s.
Proof.
  intros Hl Hu. unfold pack_client_order_id, unpack_client_order_id, pack_str.
  rewrite Nat2Z.id, !(Nat.min_l _ _ Hl), firstn_all, take_app_length. unfold from_utf8. by rewrite Hu.
Qed.
