(* ===== verification/AeronTransport.v ===== *)
(** The Aeron transport ([src/src/transport/aeron_transport.rs]): publishing a
    message by claiming a buffer of the term log, and the subscriber callbacks
    that parse a fragment and push it on a ring.

    The Aeron client and the [rtrb] ring are third-party code: they are the
    classes [Publication] and [Ring], whose laws state what their documentation
    promises.  A [Channel] is a publisher and a callback that agree on a wire
    format; the five channels of the source (orders, order updates, trades,
    persistence, desk forwarding) are its instances, and the delivery theorem is
    proved once, for every channel. *)
From Stdlib Require Import ZArith Lia.
From stdpp Require Import base numbers list.
From S2P Require Import Prelude Bytes Pod Sbe PersistEvent CounterForward.

#[local] Open Scope Z_scope.

(** ** The third-party components *)

(** [rtrb]: a bounded single-producer single-consumer queue. *)
Class Ring := {
  ring : Type -> Type;
  ring_push : forall {T}, ring T -> T -> option (ring T);
  ring_pop : forall {T}, ring T -> option (T * ring T);
}.

Class RingLaws `{Ring} := {
  contents : forall {T}, ring T -> list T;
  capacity : forall {T}, ring T -> nat;
  push_spec : forall T (r : ring T) x,
    match ring_push r x with
    | Some r' => (length (contents r) < capacity r)%nat /\
        contents r' = contents r ++ [x] /\ capacity r' = capacity r
    | None => (capacity r <= length (contents r))%nat
    end;
  pop_spec : forall T (r : ring T),
    match ring_pop r with
    | Some (x, r') => contents r = x :: contents r' /\ capacity r' = capacity r
    | None => contents r = []
    end;
}.

Inductive AeronError := AeronBackPressured | AeronNotConnected | AeronClosed | AeronOther.

Inductive TransportError := Disconnected | BackPressured | Closed.

(** [aeron_wrapper::Publisher]: claiming [n] bytes yields the buffer to fill;
    committing the filled buffer tells whether it was published. *)
Class Publication := {
  publisher : Type;
  try_claim : publisher -> nat -> publisher * result bytes AeronError;
  commit : publisher -> bytes -> publisher * bool;
}.

(** A claim has the length asked for, and only a successful commit adds a
    fragment to the stream. *)
Class PublicationLaws `{Publication} := {
  sent : publisher -> list bytes;
  try_claim_sent p n : sent (try_claim p n).1 = sent p;
  try_claim_length p n buf : (try_claim p n).2 = Ok buf -> length buf = n;
  commit_sent p bs : sent (commit p bs).1 = sent p ++ (if (commit p bs).2 then [bs] else []);
}.

(** ** Publishing *)

Section publishing.
Context `{Publication}.

Definition MAX_BACKPRESSURE_SPINS : nat := Z.to_nat 100000.

(** The claim loop of [publish_with_retry_claim]: [spins_left] is
    [MAX_BACKPRESSURE_SPINS - spins]. *)
Fixpoint claim_loop (spins_left : nat) (p : publisher) (n : nat)
  : publisher * result bytes TransportError :=
  match spins_left with
  | O => (p, Err BackPressured)
  | S spins_left =>
      match try_claim p n with
      | (p, Ok claim) => (p, Ok claim)
      | (p, Err AeronBackPressured) => claim_loop spins_left p n
      | (p, Err AeronNotConnected) => (p, Err Disconnected)
      | (p, Err AeronClosed) => (p, Err Closed)
      | (p, Err AeronOther) => (p, Err BackPressured)
      end
  end.

(** [writer] fills the claimed buffer; [None] is a panic inside it. *)
Definition publish_with_retry_claim (p : publisher) (n : nat) (writer : bytes -> option bytes)
  : option (publisher * result unit TransportError) :=
  match claim_loop MAX_BACKPRESSURE_SPINS p n with
  | (p, Err e) => Some (p, Err e)
  | (p, Ok claim) =>
      filled ← writer claim;
      let '(p, ok) := commit p filled in
      Some (p, if ok : bool then Ok () else Err BackPressured)
  end.

(** The writers call an encoder and ignore its [Result]. *)
Definition encoding (r : option (bytes * result nat unit)) : option bytes := fst <$> r.

Definition publish_order_update (p : publisher) (msg : OrderUpdateMsg) :=
  publish_with_retry_claim p 80 (fun buf => encoding (encode_order_update msg buf)).

Definition publish_trade (p : publisher) (msg : TradeNotification) :=
  publish_with_retry_claim p 72 (fun buf => encoding (encode_trade_notification msg buf)).

Definition publish_new_order (p : publisher) (req : NewOrderRequest) :=
  publish_with_retry_claim p 72 (fun buf => encoding (encode_new_order req buf)).

Definition publish_cancel (p : publisher) (req : CancelOrderRequest) :=
  publish_with_retry_claim p 32 (fun buf => encoding (encode_cancel_order req buf)).

(** [copy_nonoverlapping(msg, buf, len)]: [len] bytes at the start. *)
Definition publish_pod {A} `{Pod A} (p : publisher) (msg : A) :=
  let len := size_of A in
  publish_with_retry_claim p len (fun buf => raw ← raw_parts msg len; copy_from_slice buf 0 len raw).

(** [PersistPublisher::publish]: the claim must have the frame's length. *)
Definition publish_persist (p : publisher) (frame : PersistFrame)
  : option (publisher * result unit TransportError) :=
  bs ← PersistFrame.as_bytes frame;
  publish_with_retry_claim p (length bs) (fun buf => copy_from_slice buf 0 (length buf) bs).

Definition publish_counter_forward (p : publisher) (msg : CounterForwardMsg) :=
  match msg with
  | NewOrder m => publish_pod p m
  | Cancel m => publish_pod p m
  | WsFrame m => publish_pod p m
  end.
End publishing.

(** [transport::InboundMsg] *)
Inductive InboundMsg :=
| InboundNewOrder (req : NewOrderRequest)
| InboundCancelOrder (req : CancelOrderRequest).

(** ** Subscribing *)

Section subscribing.
Context `{Ring}.

(** A [PollCallback]: the producer side of a ring and the drop counter. *)
Record callback (T : Type) := mkCallback { cb_tx : ring T; cb_dropped : Z }.
#[global] Arguments mkCallback {T} _ _.
#[global] Arguments cb_tx {T} _.
#[global] Arguments cb_dropped {T} _.

(** [if let Err(Full(_)) = self.tx.push(m) { self.dropped.fetch_add(1) }] *)
Definition push_or_drop {T} (cb : callback T) (m : T) : callback T :=
  match ring_push (cb_tx cb) m with
  | Some tx => mkCallback tx (cb_dropped cb)
  | None => mkCallback (cb_tx cb) (u64_add (cb_dropped cb) 1)
  end.

(** [u16::from_le_bytes([data[2], data[3]])]; the indexing may panic. *)
Definition template_of (data : bytes) : option Z :=
  b2 ← data !! 2%nat; b3 ← data !! 3%nat; Some (from_le [b2; b3]).

(** [OrderInboundCallback::on_data] *)
Definition on_order_data (cb : callback InboundMsg) (data : bytes) : option (callback InboundMsg) :=
  if Nat.ltb (length data) 8 then Some cb
  else
    template_id ← template_of data;
    if Z.eqb template_id 1 then
      r ← decode_new_order data;
      match r with
      | Some req => Some (push_or_drop cb (InboundNewOrder req))
      | None => Some (mkCallback (cb_tx cb) (u64_add (cb_dropped cb) 1))
      end
    else if Z.eqb template_id 2 then
      r ← decode_cancel_order data;
      match r with
      | Some req => Some (push_or_drop cb (InboundCancelOrder req))
      | None => Some cb
      end
    else Some cb.

(** [OrderUpdateCallback::on_data] *)
Definition on_order_update_data (cb : callback OrderUpdateMsg) (data : bytes)
  : option (callback OrderUpdateMsg) :=
  if Nat.ltb (length data) 80 then Some cb
  else
    template_id ← template_of data;
    if Z.eqb template_id TEMPLATE_ORDER_UPDATE then
      r ← decode_order_update data;
      match r with
      | Some msg => Some (push_or_drop cb msg)
      | None => Some cb
      end
    else Some cb.

(** [TradeNotificationCallback::on_data] *)
Definition on_trade_data (cb : callback TradeNotification) (data : bytes)
  : option (callback TradeNotification) :=
  if Nat.ltb (length data) 72 then Some cb
  else
    template_id ← template_of data;
    if Z.eqb template_id TEMPLATE_TRADE_NOTIFICATION then
      msg ← read_unaligned data 8;
      Some (push_or_drop cb msg)
    else Some cb.

(** [CounterForwardCallback::on_data] *)
Definition on_forward_data (cb : callback CounterForwardMsg) (data : bytes)
  : option (callback CounterForwardMsg) :=
  match head data with
  | None => Some cb
  | Some kind =>
      msg ← (if Z.eqb kind COUNTER_FORWARD_KIND_NEW_ORDER
                && Nat.leb (size_of CounterForwardNewOrder) (length data)
             then m ← read_unaligned data 0; Some (Some (NewOrder m))
             else if Z.eqb kind COUNTER_FORWARD_KIND_CANCEL
                && Nat.leb (size_of CounterForwardCancel) (length data)
             then m ← read_unaligned data 0; Some (Some (Cancel m))
             else if Z.eqb kind COUNTER_FORWARD_KIND_WS_FRAME
                && Nat.leb (size_of CounterForwardWsFrame) (length data)
             then m ← read_unaligned data 0; Some (Some (WsFrame m))
             else Some None);
      match msg with
      | Some msg => Some (push_or_drop cb msg)
      | None => Some cb
      end
  end.

(** [PersistCallback::on_data] *)
Definition on_persist_data (cb : callback PersistFrame) (data : bytes)
  : option (callback PersistFrame) :=
  r ← PersistFrame.from_bytes data;
  match r with
  | None => Some cb
  | Some frame => Some (push_or_drop cb frame)
  end.
End subscribing.

(** [poll] of the subscribers: run the callback on the fragments the client
    delivers, then take one message off the ring. *)
Definition poll `{Ring} {T} (on_data : callback T -> bytes -> option (callback T))
  (cb : callback T) (fragments : list bytes) : option (option T * callback T) :=
  cb ← mfold on_data cb fragments;
  match ring_pop (cb_tx cb) with
  | Some (x, tx) => Some (Some x, mkCallback tx (cb_dropped cb))
  | None => Some (None, cb)
  end.

(** ** Channels *)

(** A message type with the publisher and the callback of its stream. *)
Class Channel `{Publication} `{Ring} (T : Type) := {
  ch_ok : T -> Prop;
  ch_publish : publisher -> T -> option (publisher * result unit TransportError);
  ch_on_data : callback T -> bytes -> option (callback T);
}.

(** What a channel promises: a message has one image; publishing never panics
    and adds exactly that image to the stream when it answers [Ok], nothing
    otherwise; and the callback run on the image pushes that message. *)
Class ChannelLaws `{PublicationLaws} `{Ring} (T : Type) `{!Channel T} := {
  ch_image : T -> bytes;
  ch_publish_spec m p : ch_ok m ->
    exists p' r, ch_publish p m = Some (p', r) /\
      sent p' = sent p ++ (if is_ok r then [ch_image m] else []);
  ch_on_data_spec m cb : ch_ok m -> ch_on_data cb (ch_image m) = Some (push_or_drop cb m);
}.

Section channels.
Context `{PublicationLaws} `{Ring}.

#[global] Instance orders_channel : Channel InboundMsg := {|
  ch_ok m := match m with
             | InboundNewOrder req => well_typed req
             | InboundCancelOrder req => well_typed req
             end;
  ch_publish p m := match m with
                    | InboundNewOrder req => publish_new_order p req
                    | InboundCancelOrder req => publish_cancel p req
                    end;
  ch_on_data := on_order_data;
|}.

#[global] Instance order_updates_channel : Channel OrderUpdateMsg := {|
  ch_ok := well_typed; ch_publish := publish_order_update; ch_on_data := on_order_update_data |}.

#[global] Instance trades_channel : Channel TradeNotification := {|
  ch_ok := well_typed; ch_publish := publish_trade; ch_on_data := on_trade_data |}.

#[global] Instance persist_channel : Channel PersistFrame := {|
  ch_ok := well_typed; ch_publish := publish_persist; ch_on_data := on_persist_data |}.

(** The kind byte is the one the constructors set. *)
#[global] Instance forward_channel : Channel CounterForwardMsg := {|
  ch_ok m := match m with
             | NewOrder m => well_typed m /\ cfn_kind m = COUNTER_FORWARD_KIND_NEW_ORDER
             | Cancel m => well_typed m /\ cfc_kind m = COUNTER_FORWARD_KIND_CANCEL
             | WsFrame m => well_typed m /\ cfw_kind m = COUNTER_FORWARD_KIND_WS_FRAME
             end;
  ch_publish := publish_counter_forward;
  ch_on_data := on_forward_data;
|}.

Lemma claim_loop_spec k p n :
  sent (claim_loop k p n).1 = sent p /\
  (forall buf, (claim_loop k p n).2 = Ok buf -> length buf = n).
Proof.
  revert p. induction k as [|k IH]; intros p; simpl; [done|].
  pose proof (try_claim_sent p n) as Hs. pose proof (try_claim_length p n) as Hl.
  destruct (try_claim p n) as [p' [buf|[]]]; simpl in *; try done.
  - split; [done|]. intros ? [= <-]. by apply Hl.
  - destruct (IH p') as [-> ?]. done.
Qed.

(** A writer that fills every claim of its length with [image]. *)
Lemma publish_spec p n writer image :
  (forall buf, length buf = n -> writer buf = Some image) ->
  exists p' r, publish_with_retry_claim p n writer = Some (p', r) /\
    sent p' = sent p ++ (if is_ok r then [image] else []).
Proof.
  intros Hw. unfold publish_with_retry_claim.
  destruct (claim_loop_spec MAX_BACKPRESSURE_SPINS p n) as [Hs Hl].
  destruct (claim_loop MAX_BACKPRESSURE_SPINS p n) as [p1 [buf|e]]; simpl in *.
  - rewrite (Hw buf) by (by apply Hl). bind_step.
    pose proof (commit_sent p1 image) as Hc.
    destruct (commit p1 image) as [p2 ok]; simpl in *.
    eexists _, _. split; [done|]. rewrite Hc, Hs. by destruct ok.
  - eexists _, _. split; [done|]. simpl. by rewrite app_nil_r.
Qed.

Definition sbe_image {A} `{Pod A} (template_id : Z) (msg : A) : bytes :=
  encode_header template_id (Z.of_nat (size_of A)) ++ fmt_write layout msg.

Lemma encoding_sized {A} `{Pod A} template_id n (msg : A) buf :
  length (fmt_write layout msg) = size_of A -> size_of A = n -> length buf = (8 + n)%nat ->
  encoding (encode_msg template_id n msg buf) = Some (sbe_image template_id msg).
Proof.
  intros Hm Hn Hl. rewrite encode_msg_sized by (done || lia). unfold encoding, sbe_image.
  rewrite drop_ge by lia. rewrite app_nil_r. by rewrite Hn.
Qed.

Lemma publish_sized {A} `{Pod A} template_id n (msg : A) p :
  length (fmt_write layout msg) = size_of A -> size_of A = n ->
  exists p' r, publish_with_retry_claim p (8 + n)
      (fun buf => encoding (encode_msg template_id n msg buf)) = Some (p', r) /\
    sent p' = sent p ++ (if is_ok r then [sbe_image template_id msg] else []).
Proof. intros Hm Hn. apply publish_spec. intros buf Hl. by apply encoding_sized. Qed.

Lemma publish_sbe {A} `{Pod A} template_id n (msg : A) p :
  well_typed msg -> size_of A = n ->
  exists p' r, publish_with_retry_claim p (8 + n)
      (fun buf => encoding (encode_msg template_id n msg buf)) = Some (p', r) /\
    sent p' = sent p ++ (if is_ok r then [sbe_image template_id msg] else []).
Proof. intros Hm. by apply publish_sized, fmt_write_length. Qed.

Lemma publish_pod_spec {A} `{Pod A} (msg : A) p : well_typed msg ->
  exists p' r, publish_pod p msg = Some (p', r) /\
    sent p' = sent p ++ (if is_ok r then [fmt_write layout msg] else []).
Proof.
  intros Hm. unfold publish_pod. apply publish_spec. intros buf Hl.
  rewrite raw_parts_full by done. bind_step.
  pose proof (copy_from_slice_app [] buf [] (fmt_write layout msg) 0 (size_of A)) as Hc.
  rewrite app_nil_l, !app_nil_r in Hc. rewrite Hc; [by rewrite app_nil_l|done|done|].
  by apply fmt_write_length.
Qed.

Lemma sbe_image_length {A} `{Pod A} template_id (msg : A) : well_typed msg ->
  length (sbe_image template_id msg) = (8 + size_of A)%nat.
Proof. intros Hm. unfold sbe_image. rewrite length_app, header_length. by rewrite fmt_write_length. Qed.

Lemma sbe_image_template {A} `{Pod A} template_id (msg : A) : 0 <= template_id < 2 ^ 16 ->
  template_of (sbe_image template_id msg) = Some template_id.
Proof.
  intros Ht. unfold template_of, sbe_image.
  transitivity (Some (from_le (to_le 2 template_id))); [reflexivity|].
  rewrite from_to_le. f_equal. by apply Z.mod_small.
Qed.

Lemma sbe_image_decode {A} `{Pod A} template_id n (msg : A) : well_typed msg -> size_of A = n ->
  decode_at 8 n (sbe_image template_id msg) = Some (Some msg).
Proof.
  intros Hm Hn. pose proof (decode_at_image msg (encode_header template_id (Z.of_nat (size_of A))) [] n Hm Hn) as Hd.
  by rewrite app_nil_r in Hd.
Qed.

Lemma image_decode {A} `{Pod A} n (msg : A) : well_typed msg -> size_of A = n ->
  decode_at 0 n (fmt_write layout msg) = Some (Some msg).
Proof.
  intros Hm Hn. pose proof (decode_at_image msg [] [] n Hm Hn) as Hd.
  by rewrite app_nil_r, app_nil_l in Hd.
Qed.

Lemma image_read {A} `{Pod A} (msg : A) : well_typed msg ->
  read_unaligned (fmt_write layout msg) 0 = Some msg.
Proof.
  intros Hm. pose proof (read_image msg [] [] Hm) as Hr. by rewrite app_nil_r, app_nil_l in Hr.
Qed.
End channels.

(** ** The five channels keep the promise *)

Section instances.
Context `{PublicationLaws} `{Ring}.

#[global, refine] Instance orders_channel_laws : ChannelLaws InboundMsg := {|
  ch_image m := match m with
                | InboundNewOrder req => sbe_image TEMPLATE_NEW_ORDER req
                | InboundCancelOrder req => sbe_image TEMPLATE_CANCEL_ORDER req
                end |}.
Proof.
  - intros [req|req] p Hm; simpl in *.
    + by apply (publish_sbe TEMPLATE_NEW_ORDER 64).
    + by apply (publish_sbe TEMPLATE_CANCEL_ORDER 24).
  - intros [req|req] cb Hm; simpl in *; unfold on_order_data;
      rewrite sbe_image_length, sbe_image_template by (done || (vm_compute; intuition congruence));
      cbn -[push_or_drop decode_new_order decode_cancel_order sbe_image];
      unfold decode_new_order, decode_cancel_order; by rewrite sbe_image_decode.
Qed.

#[global, refine] Instance order_updates_channel_laws : ChannelLaws OrderUpdateMsg := {|
  ch_image := sbe_image TEMPLATE_ORDER_UPDATE |}.
Proof.
  - intros msg p Hm. by apply (publish_sbe TEMPLATE_ORDER_UPDATE 72).
  - intros msg cb Hm; simpl. unfold on_order_update_data.
    rewrite sbe_image_length, sbe_image_template by (done || (vm_compute; intuition congruence)).
    cbn -[push_or_drop decode_order_update sbe_image].
    unfold decode_order_update. by rewrite sbe_image_decode.
Qed.

#[global, refine] Instance trades_channel_laws : ChannelLaws TradeNotification := {|
  ch_image := sbe_image TEMPLATE_TRADE_NOTIFICATION |}.
Proof.
  - intros msg p Hm. by apply (publish_sbe TEMPLATE_TRADE_NOTIFICATION 64).
  - intros msg cb Hm; simpl. unfold on_trade_data.
    rewrite sbe_image_length, sbe_image_template by (done || (vm_compute; intuition congruence)).
    cbn -[push_or_drop read_unaligned sbe_image].
    pose proof (read_image msg (encode_header TEMPLATE_TRADE_NOTIFICATION 64) [] Hm) as Hr.
    rewrite app_nil_r in Hr. change 8%nat with (length (encode_header TEMPLATE_TRADE_NOTIFICATION 64)).
    unfold sbe_image. change (Z.of_nat (size_of TradeNotification)) with 64. by rewrite Hr.
Qed.

#[global, refine] Instance persist_channel_laws : ChannelLaws PersistFrame := {|
  ch_image := fmt_write layout |}.
Proof.
  - intros f p Hf. simpl. unfold publish_persist, PersistFrame.as_bytes, FRAME_SIZE.
    rewrite raw_parts_full by done. bind_step. apply publish_spec. intros buf Hl.
    pose proof (copy_from_slice_app [] buf [] (fmt_write layout f) 0 (length buf)) as Hc.
    rewrite app_nil_l, !app_nil_r in Hc. by rewrite Hc.
  - intros f cb Hf. cbn [ch_on_data persist_channel].
    unfold on_persist_data, PersistFrame.from_bytes. by rewrite image_decode.
Qed.

#[global, refine] Instance forward_channel_laws : ChannelLaws CounterForwardMsg := {|
  ch_image m := match m with
                | NewOrder m => fmt_write layout m
                | Cancel m => fmt_write layout m
                | WsFrame m => fmt_write layout m
                end |}.
Proof.
  - intros [m|m|m] p [Hm _]; by apply publish_pod_spec.
  - intros [m|m|m] cb [Hm Hk]; cbn [ch_on_data forward_channel]; unfold on_forward_data.
    + assert (head (fmt_write layout m) = Some COUNTER_FORWARD_KIND_NEW_ORDER) as ->
        by (cbn; by rewrite Hk).
      rewrite (fmt_write_length m), image_read by done. done.
    + assert (head (fmt_write layout m) = Some COUNTER_FORWARD_KIND_CANCEL) as ->
        by (cbn; by rewrite Hk).
      rewrite (fmt_write_length m), image_read by done. done.
    + assert (head (fmt_write layout m) = Some COUNTER_FORWARD_KIND_WS_FRAME) as ->
        by (cbn; by rewrite Hk).
      rewrite (fmt_write_length m), image_read by done. done.
Qed.
End instances.

(** ** Delivery *)

Section delivery.
Context `{PublicationLaws} `{RingLaws} {T : Type} `{!Channel T}.
Implicit Types (p : publisher) (ms : list T).

(** Publish a list of messages in order, keeping each answer. *)
Fixpoint publish_all p ms : option (publisher * list (result unit TransportError)) :=
  match ms with
  | [] => Some (p, [])
  | m :: ms =>
      '(p, r) ← ch_publish p m;
      '(p, rs) ← publish_all p ms;
      Some (p, r :: rs)
  end.

(** The messages whose publication answered [Ok]. *)
Fixpoint acknowledged ms (rs : list (result unit TransportError)) : list T :=
  match ms, rs with
  | m :: ms, r :: rs => (if is_ok r then [m] else []) ++ acknowledged ms rs
  | _, _ => []
  end.

(** Publishing [ms] and handing the new fragments of the stream to a subscriber:
    nothing panics, the ring ends with the acknowledged messages appended in
    order as far as it has room, and the rest are counted as dropped. *)
Definition delivers : Prop := forall ms p (cb : callback T),
  in_u64 (cb_dropped cb) -> Forall ch_ok ms ->
  let room := (capacity (cb_tx cb) - length (contents (cb_tx cb)))%nat in
  exists p' rs fragments cb',
    publish_all p ms = Some (p', rs) /\ length rs = length ms /\
    sent p' = sent p ++ fragments /\
    mfold ch_on_data cb fragments = Some cb' /\
    contents (cb_tx cb') = contents (cb_tx cb) ++ take room (acknowledged ms rs) /\
    cb_dropped cb' = wrap_u64 (cb_dropped cb + Z.of_nat (length (acknowledged ms rs) - room)).

Lemma push_or_drop_spec (cb : callback T) m : in_u64 (cb_dropped cb) ->
  let room := (capacity (cb_tx cb) - length (contents (cb_tx cb)))%nat in
  capacity (cb_tx (push_or_drop cb m)) = capacity (cb_tx cb) /\
  contents (cb_tx (push_or_drop cb m)) = contents (cb_tx cb) ++ take room [m] /\
  cb_dropped (push_or_drop cb m) = wrap_u64 (cb_dropped cb + Z.of_nat (1 - room)).
Proof.
  intros Hd room. unfold push_or_drop. pose proof (push_spec _ (cb_tx cb) m) as Hp.
  destruct (ring_push (cb_tx cb) m) as [tx|]; simpl.
  - destruct Hp as (Hlt & -> & ->). assert (exists k, room = S k) as [k ->]
      by (exists (pred room); unfold room; lia).
    simpl. rewrite take_nil, Z.add_0_r. by rewrite wrap_u64_id.
  - assert (room = 0%nat) as -> by (unfold room; lia). by rewrite take_0, app_nil_r.
Qed.

Lemma channel_delivers `{!ChannelLaws T} : delivers.
Proof.
  intros ms. induction ms as [|m ms IH]; intros p cb Hcb Hok room.
  { exists p, [], [], cb. simpl. rewrite !app_nil_r, take_nil, app_nil_r, Z.add_0_r.
    by rewrite wrap_u64_id. }
  apply Forall_cons in Hok as [Hm Hok].
  destruct (ch_publish_spec m p Hm) as (p1 & r & Hpub & Hsent).
  destruct (is_ok r) eqn:Hr.
  - destruct (push_or_drop_spec cb m Hcb) as (Hcap & Hcont & Hdrop).
    destruct (IH p1 (push_or_drop cb m)) as (p2 & rs & fr & cb' & Hall & Hlen & Hs2 & Hf & Hc & Hd);
      [rewrite Hdrop; machine | done |].
    exists p2, (r :: rs), (ch_image m :: fr), cb'. simpl. rewrite Hpub. bind_step. rewrite Hall.
    rewrite Hr, ch_on_data_spec by done. bind_step. fold room in Hcont, Hdrop.
    split_and!; try done; [by rewrite Hlen | by rewrite Hs2, Hsent, <- app_assoc | |].
    + rewrite Hc, Hcap, Hcont, length_app, <- app_assoc. f_equal. fold room.
      destruct room as [|k] eqn:Hroom; simpl; [by replace (_ - _)%nat with 0%nat by (simpl; lia)|].
      rewrite take_nil. simpl. f_equal. f_equal. unfold room in Hroom. lia.
    + rewrite Hd, Hcap, Hdrop, Hcont, length_app. unfold wrap_u64.
      rewrite Zplus_mod_idemp_l. f_equal. cbn [app length]. rewrite length_take. simpl length.
      unfold room. lia.
  - destruct (IH p1 cb Hcb Hok) as (p2 & rs & fr & cb' & Hall & Hlen & Hs2 & Hf & Hc & Hd).
    exists p2, (r :: rs), fr, cb'. simpl. rewrite Hpub. bind_step. rewrite Hall, Hr. simpl.
    rewrite Hs2, Hsent, app_nil_r, Hlen. done.
Qed.
End delivery.
Arguments delivers {_ _ _ _} T {_}.

(** on each of the five streams (orders, order updates, trades, persistence
    frames, desk forwarding), publishing a list of well-typed messages and
    running the subscriber's callback on the fragments it added never panics;
    exactly the messages whose publication answered [Ok] reach the ring,
    unchanged and in order, up to its free capacity, and every further one is
    counted as dropped. *)
Theorem transport_delivers `{PublicationLaws} `{RingLaws} :
  delivers InboundMsg /\ delivers OrderUpdateMsg /\ delivers TradeNotification /\
  delivers PersistFrame /\ delivers CounterForwardMsg.
Proof. split_and!; apply channel_delivers. Qed.

(** ** Hostile input *)

Section robustness.
Context `{Publication} `{Ring}.

(** On any fragment the callback returns, and the ring is as it was or has had
    one message of the stream's type pushed. *)
Definition survives (T : Type) `{!Channel T} : Prop := forall (cb : callback T) (data : bytes),
  Forall is_byte data ->
  exists cb', ch_on_data cb data = Some cb' /\
    (cb_tx cb' = cb_tx cb \/ exists m, ch_ok m /\ cb' = push_or_drop cb m).

Lemma template_of_total data : (8 <= length data)%nat -> is_Some (template_of data).
Proof.
  intros Hl. unfold template_of.
  destruct (lookup_lt_is_Some_2 data 2) as [b2 ->]; [lia|].
  destruct (lookup_lt_is_Some_2 data 3) as [b3 ->]; [lia|]. by eexists.
Qed.

(** A decoder that answers [Some] read a well-typed value. *)
Lemma decode_at_cases (A : Type) (HA : Pod A) off n data : size_of A = n -> Forall is_byte data ->
  exists r, decode_at (A := A) off n data = Some r /\ forall m, r = Some m -> well_typed m.
Proof.
  intros Hn Hb. unfold decode_at. rewrite <- Hn.
  destruct (Nat.ltb_spec (length data) (off + size_of A)) as [|Hl]; [by exists None|].
  destruct (read_unaligned_total (A := A) data off Hl) as [m Hm]. rewrite Hm.
  exists (Some m). split; [done|]. intros ? [= <-]. by eapply read_unaligned_ok.
Qed.

Lemma survives_orders : survives InboundMsg.
Proof.
  intros cb data Hb. cbn [ch_on_data orders_channel]. unfold on_order_data.
  destruct (Nat.ltb_spec (length data) 8) as [|Hl]; [eexists; split; [done|]; by left|].
  destruct (template_of_total data Hl) as [t ->]. bind_step.
  destruct (Z.eqb t 1).
  - unfold decode_new_order.
    destruct (decode_at_cases NewOrderRequest NewOrderRequest_pod 8 64 data ltac:(reflexivity) Hb) as ([m|] & -> & Hm);
      bind_step; eexists; (split; [done|]); [right; exists (InboundNewOrder m)|by left].
    split; [by apply Hm|done].
  - destruct (Z.eqb t 2); [|eexists; split; [done|]; by left]. unfold decode_cancel_order.
    destruct (decode_at_cases CancelOrderRequest CancelOrderRequest_pod 8 24 data ltac:(reflexivity) Hb) as ([m|] & -> & Hm);
      bind_step; eexists; (split; [done|]); [right; exists (InboundCancelOrder m)|by left].
    split; [by apply Hm|done].
Qed.

Lemma survives_updates : survives OrderUpdateMsg.
Proof.
  intros cb data Hb. cbn [ch_on_data order_updates_channel]. unfold on_order_update_data.
  destruct (Nat.ltb_spec (length data) 80) as [|Hl]; [eexists; split; [done|]; by left|].
  destruct (template_of_total data) as [t ->]; [lia|]. bind_step.
  destruct (Z.eqb t _); [|eexists; split; [done|]; by left]. unfold decode_order_update.
  destruct (decode_at_cases OrderUpdateMsg OrderUpdateMsg_pod 8 72 data ltac:(reflexivity) Hb) as ([m|] & -> & Hm);
    bind_step; eexists; (split; [done|]); [right; exists m|by left].
  split; [by apply Hm|done].
Qed.

Lemma survives_trades : survives TradeNotification.
Proof.
  intros cb data Hb. cbn [ch_on_data trades_channel]. unfold on_trade_data.
  destruct (Nat.ltb_spec (length data) 72) as [|Hl]; [eexists; split; [done|]; by left|].
  destruct (template_of_total data) as [t ->]; [lia|]. bind_step.
  destruct (Z.eqb t _); [|eexists; split; [done|]; by left].
  destruct (read_unaligned_total (A := TradeNotification) data 8) as [m Hm]; [done|].
  rewrite Hm. bind_step. eexists; split; [done|]. right. exists m.
  split; [by eapply read_unaligned_ok|done].
Qed.

Lemma survives_persist : survives PersistFrame.
Proof.
  intros cb data Hb. cbn [ch_on_data persist_channel].
  unfold on_persist_data, PersistFrame.from_bytes.
  destruct (decode_at_cases PersistFrame PersistFrame_pod 0 FRAME_SIZE data ltac:(reflexivity) Hb) as ([m|] & -> & Hm);
    bind_step; eexists; (split; [done|]); [right; exists m|by left].
  split; [by apply Hm|done].
Qed.

(** The kind byte of a packed struct is the first byte it is read from. *)
Lemma kind_read (data : bytes) kind : head data = Some kind -> from_le (take 1 data) = kind.
Proof. destruct data as [|b data]; simpl; [done|]. intros [= ->]. lia. Qed.

Lemma survives_forward : survives CounterForwardMsg.
Proof.
  intros cb data Hb. cbn [ch_on_data forward_channel]. unfold on_forward_data.
  destruct (head data) as [kind|] eqn:Hkind; [|eexists; split; [done|]; by left].
  apply kind_read in Hkind as Hread.
  assert (forall A (HA : Pod A) (c : A -> CounterForwardMsg) k,
    Z.eqb kind k && Nat.leb (size_of A) (length data) = true ->
    exists m : A, read_unaligned data 0 = Some m /\ well_typed m /\ fmt_read layout data = m) as Hrd.
  { intros A HA c k [_ Hl%Nat.leb_le]%andb_true_iff.
    destruct (read_unaligned_total (A := A) data 0 Hl) as [m Hm]. exists m.
    split; [done|]. split; [by eapply read_unaligned_ok|].
    unfold read_unaligned in Hm. rewrite (proj2 (Nat.leb_le _ _)) in Hm by done.
    by injection Hm. }
  repeat match goal with |- context [if ?b then _ else _] => destruct b eqn:?Hc end;
    try (bind_step; eexists; split; [done|]; by left).
  - destruct (Hrd _ _ NewOrder _ Hc) as (m & Hm & Hw & <-). rewrite Hm. bind_step.
    eexists; split; [done|]. right. eexists; split; [|done]. split; [done|].
    apply andb_true_iff in Hc as [Hc%Z.eqb_eq _]. simpl. by rewrite Hread.
  - destruct (Hrd _ _ Cancel _ Hc0) as (m & Hm & Hw & <-). rewrite Hm. bind_step.
    eexists; split; [done|]. right. eexists; split; [|done]. split; [done|].
    apply andb_true_iff in Hc0 as [Hc0%Z.eqb_eq _]. simpl. by rewrite Hread.
  - destruct (Hrd _ _ WsFrame _ Hc1) as (m & Hm & Hw & <-). rewrite Hm. bind_step.
    eexists; split; [done|]. right. eexists; split; [|done]. split; [done|].
    apply andb_true_iff in Hc1 as [Hc1%Z.eqb_eq _]. simpl. by rewrite Hread.
Qed.

(** no subscriber callback panics or reads outside the fragment, whatever
    bytes arrive, and the only effect on its ring is at most one push of a
    well-typed message of its own stream. *)
Theorem callbacks_survive :
  survives InboundMsg /\ survives OrderUpdateMsg /\ survives TradeNotification /\
  survives PersistFrame /\ survives CounterForwardMsg.
Proof.
  split_and!; [apply survives_orders | apply survives_updates | apply survives_trades
              | apply survives_persist | apply survives_forward].
Qed.
End robustness.

(** A publication that refuses the first [k] claims, and a list as the ring. *)
#[local] Instance demo_publication : Publication := {|
  publisher := list bytes * nat;
  try_claim p n := match p.2 with
                   | O => (p, Ok (replicate n 255))
                   | S k => ((p.1, k), Err AeronBackPressured)
                   end;
  commit p bs := ((p.1 ++ [bs], p.2), true) |}.

#[local, refine] Instance demo_publication_laws : PublicationLaws := {| sent p := p.1 |}.
Proof.
  - by intros [l [|k]] n.
  - intros [l [|k]] n buf; simpl; [|done]. intros [= <-]. by rewrite length_replicate.
  - done.
Defined.

#[local] Instance demo_ring : Ring := {|
  ring T := (nat * list T)%type;
  ring_push T r x := if Nat.ltb (length r.2) r.1 then Some (r.1, r.2 ++ [x]) else None;
  ring_pop T r := match r.2 with [] => None | x :: l => Some (x, (r.1, l)) end |}.

#[local, refine] Instance demo_ring_laws : RingLaws := {|
  contents T (r : ring T) := r.2; capacity T (r : ring T) := r.1 |}.
Proof.
  - intros T [c l] x; simpl. by destruct (Nat.ltb_spec (length l) c).
  - intros T [c l]; simpl. by destruct l.
Defined.

(** A subscriber with room for one message, and two cancels. *)
Definition demo_callback : callback InboundMsg := @mkCallback demo_ring InboundMsg (1%nat, []) 0.
Definition demo_cancel (id : Z) : InboundMsg :=
  InboundCancelOrder (mkCancelOrderRequest id 7 200 (zeros 4)).

Lemma transport_delivers_witness :
  exists p' rs fragments cb',
    publish_all (T := InboundMsg) ([], 2%nat) [demo_cancel 11; demo_cancel 12] = Some (p', rs) /\
    sent p' = fragments /\
    mfold (ch_on_data (T := InboundMsg)) demo_callback fragments = Some cb' /\
    contents (cb_tx cb') = [demo_cancel 11] /\ cb_dropped cb' = 1.
Proof.
  destruct transport_delivers as [Hd _].
  destruct (Hd [demo_cancel 11; demo_cancel 12] ([], 2%nat) demo_callback)
    as (p' & rs & fr & cb' & Hp & _ & Hs & Hf & Hc & Hn).
  - machine_unfold; simpl; lia.
  - repeat (apply Forall_cons; split); [cbn; typed_record | cbn; typed_record | by apply Forall_nil].
  - exists p', rs, fr, cb'. rewrite Hc, Hn. assert (rs = [Ok (); Ok ()]) as ->.
    { revert Hp. vm_compute. congruence. }
    split_and!; done.
Defined.
