(* ===== verification/PgStore.v ===== *)
(** The write batch of the Postgres writer ([src/src/desk/pg_store.rs]): frame
    admission by sequence number, decoding of every frame kind into rows, and
    the flush that hands the batch to one transaction.

    Strings are byte lists, an [f64] column is its bit pattern.  [chrono]'s
    conversion of milliseconds to a timestamp is a parameter ([Chrono]).  The
    database is a service: a flush produces the transaction it sends, and what
    the server answers is an argument. *)
From Stdlib Require Import ZArith Lia String.
From stdpp Require Import base numbers list gmap.
From S2P Require Import Prelude Bytes Fixed Pod Types F64 Text Money Sbe PersistEvent RiskCalc.

#[local] Open Scope Z_scope.

(** [chrono]: [Utc.timestamp_millis_opt(ms).single()] *)
Class Chrono := {
  DateTime : Type;
  timestamp_millis_opt : Z -> option DateTime;
}.

(** [journal::JOURNAL_RESTART_JUMP]: [1 << 40] *)
Definition JOURNAL_RESTART_JUMP : Z := 1099511627776.

Definition STATUS_NAMES : list string :=
  ["PENDING"; "TRADING"; "COMPLETED"; "CANCELED"; "REJECTED"]%string.

Definition status_str (code : Z) : option string := STATUS_NAMES !! Z.to_nat code.

Definition side_str (code : Z) : string := if Z.eqb code 0 then "buy" else "sell".

(** Boundary conversion of an [f64] pattern. *)
Definition to_atoms (bits : Z) : option Z :=
  match AmountAtoms.from_f64_round (f64_of_bits bits) with Ok a => Some a | Err _ => None end.

(** [x == 0.0]: true of both zeros. *)
Definition is_zero (bits : Z) : bool := f64_eq (f64_of_bits bits) f64_zero.

(** ** Rows *)

Record UpsertRow `{Chrono} := mkUpsertRow {
  ur_id : Z; ur_user_id : Z; ur_symbol : bytes; ur_side : string; ur_order_type : bytes;
  ur_price : option Z; ur_quantity : Z; ur_filled : Z;
  ur_price_atoms : option Z; ur_quantity_atoms : Z; ur_filled_atoms : Z;
  ur_status : string; ur_freeze_price_atoms : Z; ur_client_order_id : option bytes;
  ur_created_at : DateTime;
}.
Arguments mkUpsertRow {_}.

Record FillRow := mkFillRow {
  fr_id : Z; fr_filled : Z; fr_filled_atoms : Z; fr_status : string;
}.

Record AccountRow := mkAccountRow {
  ar_user_id : Z; ar_asset : bytes; ar_balance_atoms : Z; ar_frozen_atoms : Z;
}.

Record TradeRow `{Chrono} := mkTradeRow {
  tr_buy_order_id : Z; tr_sell_order_id : Z; tr_symbol : bytes; tr_price : Z; tr_qty : Z;
  tr_price_atoms : Z; tr_qty_atoms : Z; tr_created_at : DateTime;
}.
Arguments mkTradeRow {_}.

Record MatchingEventRow := mkMatchingEventRow {
  mr_sequence : Z; mr_response_stream_id : Z; mr_event_kind : Z; mr_order_id : Z;
  mr_client_order_id : Z; mr_participant_id : Z; mr_counterparty_order_id : Z;
  mr_symbol : bytes; mr_price_ticks : Z; mr_quantity_lots : Z; mr_remaining_lots : Z; mr_ts_ns : Z;
}.

Record PositionRow := mkPositionRow {
  pr_side : string; pr_qty_lots : Z; pr_entry_price_ticks : Z; pr_leverage : Z;
  pr_used_margin_atoms : Z; pr_cost_atoms : Z;
}.

(** [PositionOp] *)
Inductive PositionOp :=
| PosUpsert (user_id : Z) (symbol : bytes) (row : PositionRow)
| PosDelete (user_id : Z) (symbol : bytes).

(** [PositionOp::key] *)
Definition pos_key (op : PositionOp) : Z * bytes :=
  match op with PosUpsert u s _ | PosDelete u s => (u, s) end.

Record RiskAccountRow := mkRiskAccountRow {
  rr_user_id : Z; rr_equity_atoms : Z; rr_used_margin_atoms : Z; rr_order_margin_atoms : Z;
  rr_status : string;
}.

(** ** Skip counters

    The twelve counters of [SkipCounts], by the reason they count. *)
Inductive SkipReason :=
| unknown_kind | upsert_bad_status | upsert_bad_timestamp | upsert_empty_string
| fill_bad_status | account_empty_asset | trade_empty_symbol | trade_bad_timestamp
| matching_empty_symbol | matching_bad_timestamp | payload_decode_failed | amount_atoms_invalid.

Definition all_reasons : list SkipReason :=
  [unknown_kind; upsert_bad_status; upsert_bad_timestamp; upsert_empty_string; fill_bad_status;
   account_empty_asset; trade_empty_symbol; trade_bad_timestamp; matching_empty_symbol;
   matching_bad_timestamp; payload_decode_failed; amount_atoms_invalid].

#[global] Instance SkipReason_eq_dec : EqDecision SkipReason.
Proof. solve_decision. Defined.

Definition SkipCounts : Type := SkipReason -> Z.

Definition SkipCounts_total (c : SkipCounts) : Z :=
  fold_left (fun t r => u64_add t (c r)) all_reasons 0.

Definition bump (c : SkipCounts) (r : SkipReason) : SkipCounts :=
  fun r' => if decide (r' = r) then u64_add (c r) 1 else c r'.

(** ** The batch *)

(** The rows of a batch, one queue per table. *)
Record BatchRows `{Chrono} := mkBatchRows {
  br_upserts : list UpsertRow;
  br_deletes : list Z;
  br_fills : list FillRow;
  br_accounts : list AccountRow;
  br_trades : list TradeRow;
  br_matching_events : list MatchingEventRow;
  br_position_ops : list PositionOp;
  br_risk_accounts : list RiskAccountRow;
  br_insurance_fund_atoms : option Z;
}.
Arguments mkBatchRows {_}.

Definition no_rows `{Chrono} : BatchRows := mkBatchRows [] [] [] [] [] [] [] [] None.

Record PgWriteBatch `{Chrono} := mkPgWriteBatch {
  pb_pending_funding : option FundingSettledPayload;
  pb_rows : BatchRows;
  pb_skipped : Z;
  pb_skip_counts : SkipCounts;
  pb_applied_seq : gmap Z Z;
  pb_pending_max_seq : gmap Z Z;
  pb_duplicate_seq_frames : Z;
  pb_seq_gap_frames : Z;
  pb_publisher_restarts : Z;
}.
Arguments mkPgWriteBatch {_}.

Section batch.
Context `{Chrono}.

(** Appending a row to a queue. *)
Definition add_upsert (r : BatchRows) (x : UpsertRow) : BatchRows :=
  mkBatchRows (vec_push (br_upserts r) x) (br_deletes r) (br_fills r) (br_accounts r) (br_trades r)
    (br_matching_events r) (br_position_ops r) (br_risk_accounts r) (br_insurance_fund_atoms r).
Definition add_delete (r : BatchRows) (x : Z) : BatchRows :=
  mkBatchRows (br_upserts r) (vec_push (br_deletes r) x) (br_fills r) (br_accounts r) (br_trades r)
    (br_matching_events r) (br_position_ops r) (br_risk_accounts r) (br_insurance_fund_atoms r).
Definition add_fill (r : BatchRows) (x : FillRow) : BatchRows :=
  mkBatchRows (br_upserts r) (br_deletes r) (vec_push (br_fills r) x) (br_accounts r) (br_trades r)
    (br_matching_events r) (br_position_ops r) (br_risk_accounts r) (br_insurance_fund_atoms r).
Definition add_account (r : BatchRows) (x : AccountRow) : BatchRows :=
  mkBatchRows (br_upserts r) (br_deletes r) (br_fills r) (vec_push (br_accounts r) x) (br_trades r)
    (br_matching_events r) (br_position_ops r) (br_risk_accounts r) (br_insurance_fund_atoms r).
Definition add_trade (r : BatchRows) (x : TradeRow) : BatchRows :=
  mkBatchRows (br_upserts r) (br_deletes r) (br_fills r) (br_accounts r) (vec_push (br_trades r) x)
    (br_matching_events r) (br_position_ops r) (br_risk_accounts r) (br_insurance_fund_atoms r).
Definition add_matching_event (r : BatchRows) (x : MatchingEventRow) : BatchRows :=
  mkBatchRows (br_upserts r) (br_deletes r) (br_fills r) (br_accounts r) (br_trades r)
    (vec_push (br_matching_events r) x) (br_position_ops r) (br_risk_accounts r)
    (br_insurance_fund_atoms r).
Definition add_position_op (r : BatchRows) (x : PositionOp) : BatchRows :=
  mkBatchRows (br_upserts r) (br_deletes r) (br_fills r) (br_accounts r) (br_trades r)
    (br_matching_events r) (vec_push (br_position_ops r) x) (br_risk_accounts r)
    (br_insurance_fund_atoms r).
Definition add_risk_account (r : BatchRows) (x : RiskAccountRow) : BatchRows :=
  mkBatchRows (br_upserts r) (br_deletes r) (br_fills r) (br_accounts r) (br_trades r)
    (br_matching_events r) (br_position_ops r) (vec_push (br_risk_accounts r) x)
    (br_insurance_fund_atoms r).
Definition set_insurance_fund (r : BatchRows) (x : Z) : BatchRows :=
  mkBatchRows (br_upserts r) (br_deletes r) (br_fills r) (br_accounts r) (br_trades r)
    (br_matching_events r) (br_position_ops r) (br_risk_accounts r) (Some x).

(** ** Decoding a payload into its rows

    Every [push_*] either appends to a queue or counts why it skipped the
    frame: it is a function of the rows with an error for the reason. *)

Definition decode_upsert (p : OrderUpsertPayload) : result UpsertRow SkipReason :=
  match status_str (oup_status p) with
  | None => Err upsert_bad_status
  | Some status =>
  match timestamp_millis_opt (oup_created_at_ms p) with
  | None => Err upsert_bad_timestamp
  | Some created_at =>
      let symbol := unpack_str (oup_symbol p) in
      let order_type := unpack_str (oup_order_type p) in
      let coid := unpack_str (oup_client_order_id p) in
      if Nat.eqb (length symbol) 0 || Nat.eqb (length order_type) 0 then Err upsert_empty_string
      else
        let pg_price := if is_zero (oup_price p) then None else Some (oup_price p) in
        let coid_opt := if Nat.eqb (length coid) 0 then None else Some coid in
        match to_atoms (oup_qty p), to_atoms (oup_filled p) with
        | Some quantity_atoms, Some filled_atoms =>
            match (match pg_price with
                   | None => Some None
                   | Some v => match to_atoms v with Some a => Some (Some a) | None => None end
                   end) with
            | None => Err amount_atoms_invalid
            | Some price_atoms =>
                match to_atoms (oup_freeze_price p) with
                | None => Err amount_atoms_invalid
                | Some freeze_price_atoms =>
                    Ok (mkUpsertRow (oup_id p) (oup_user_id p) symbol (side_str (oup_side p))
                          order_type pg_price (oup_qty p) (oup_filled p) price_atoms
                          quantity_atoms filled_atoms status freeze_price_atoms coid_opt created_at)
                end
            end
        | _, _ => Err amount_atoms_invalid
        end
  end end.

Definition decode_fill (p : OrderFillUpdatePayload) : result FillRow SkipReason :=
  match status_str (ofu_status p) with
  | None => Err fill_bad_status
  | Some status =>
      match to_atoms (ofu_filled p) with
      | None => Err amount_atoms_invalid
      | Some filled_atoms => Ok (mkFillRow (ofu_id p) (ofu_filled p) filled_atoms status)
      end
  end.

(** A balance whose atoms are 0 but whose legacy [f64] is not is converted. *)
Definition legacy_atoms (atoms bits : Z) : option Z :=
  if Z.eqb atoms 0 && negb (is_zero bits) then to_atoms bits else Some atoms.

Definition decode_account (p : AccountSetPayload) : result AccountRow SkipReason :=
  let asset := unpack_str (asp_asset p) in
  if Nat.eqb (length asset) 0 then Err account_empty_asset
  else match legacy_atoms (asp_balance_atoms p) (asp_balance p) with
  | None => Err payload_decode_failed
  | Some balance_atoms =>
      match legacy_atoms (asp_frozen_atoms p) (asp_frozen p) with
      | None => Err payload_decode_failed
      | Some frozen_atoms => Ok (mkAccountRow (asp_user_id p) asset balance_atoms frozen_atoms)
      end
  end.

Definition decode_trade (p : TradeInsertPayload) : result TradeRow SkipReason :=
  let symbol := unpack_str (tip_symbol p) in
  if Nat.eqb (length symbol) 0 then Err trade_empty_symbol
  else match timestamp_millis_opt (tip_ts_ms p) with
  | None => Err trade_bad_timestamp
  | Some created_at =>
      match to_atoms (tip_price p), to_atoms (tip_qty p) with
      | Some price_atoms, Some qty_atoms =>
          Ok (mkTradeRow (tip_buy_order_id p) (tip_sell_order_id p) symbol (tip_price p) (tip_qty p)
                price_atoms qty_atoms created_at)
      | _, _ => Err amount_atoms_invalid
      end
  end.

Definition decode_matching_event (p : MatchingEventPayload) : result MatchingEventRow SkipReason :=
  let symbol := unpack_str (mep_symbol p) in
  if Nat.eqb (length symbol) 0 then Err matching_empty_symbol
  else if Z.ltb i64_max (mep_sequence p) || Z.ltb i64_max (mep_ts_ns p) then Err matching_bad_timestamp
  else Ok (mkMatchingEventRow (mep_sequence p) (mep_response_stream_id p) (mep_event_kind p)
             (mep_order_id p) (mep_client_order_id p) (mep_participant_id p)
             (mep_counterparty_order_id p) symbol (mep_price_ticks p) (mep_quantity_lots p)
             (mep_remaining_lots p) (mep_ts_ns p)).

Definition decode_position_upsert (p : PositionUpsertPayload) : result PositionOp SkipReason :=
  match PositionSide.from_u8 (pup_side p) with
  | None => Err payload_decode_failed
  | Some s =>
      Ok (PosUpsert (pup_user_id p) (unpack_str (pup_symbol p))
            (mkPositionRow (PositionSide.as_db_str s) (pup_qty_lots p) (pup_entry_price_ticks p)
               (pup_leverage p) (pup_used_margin_atoms p) (pup_cost_atoms p)))
  end.

Definition decode_risk_account (p : RiskAccountSetPayload) : result RiskAccountRow SkipReason :=
  match RiskStatus.from_u8 (ras_status p) with
  | None => Err payload_decode_failed
  | Some s => Ok (mkRiskAccountRow (ras_user_id p) (ras_equity_atoms p) (ras_used_margin_atoms p)
                    (ras_order_margin_atoms p) (RiskStatus.as_db_str s))
  end.

(** ** Updating the batch *)

Definition with_rows (b : PgWriteBatch) (r : BatchRows) : PgWriteBatch :=
  mkPgWriteBatch (pb_pending_funding b) r (pb_skipped b) (pb_skip_counts b) (pb_applied_seq b)
    (pb_pending_max_seq b) (pb_duplicate_seq_frames b) (pb_seq_gap_frames b)
    (pb_publisher_restarts b).

Definition with_funding (b : PgWriteBatch) (f : option FundingSettledPayload) : PgWriteBatch :=
  mkPgWriteBatch f (pb_rows b) (pb_skipped b) (pb_skip_counts b) (pb_applied_seq b)
    (pb_pending_max_seq b) (pb_duplicate_seq_frames b) (pb_seq_gap_frames b)
    (pb_publisher_restarts b).

(** [self.skipped += 1; self.skip_counts.r += 1; false] *)
Definition skip (b : PgWriteBatch) (r : SkipReason) : PgWriteBatch * bool :=
  (mkPgWriteBatch (pb_pending_funding b) (pb_rows b) (u64_add (pb_skipped b) 1)
     (bump (pb_skip_counts b) r) (pb_applied_seq b) (pb_pending_max_seq b)
     (pb_duplicate_seq_frames b) (pb_seq_gap_frames b) (pb_publisher_restarts b), false).

(** What a frame does to the batch: append to a queue, set the settlement, or be
    skipped for a reason. *)
Inductive decoded :=
| Queue (add : BatchRows -> BatchRows)
| Settle (p : FundingSettledPayload)
| Skip (r : SkipReason).

Definition queued {A} (add : BatchRows -> A -> BatchRows) (r : result A SkipReason) : decoded :=
  match r with Ok x => Queue (fun rows => add rows x) | Err e => Skip e end.

Definition accept (b : PgWriteBatch) (d : decoded) : PgWriteBatch * bool :=
  match d with
  | Queue add => (with_rows b (add (pb_rows b)), true)
  | Settle p => (with_funding b (Some p), true)
  | Skip r => skip b r
  end.

(** [PgWriteBatch::new] *)
Definition new : PgWriteBatch :=
  mkPgWriteBatch None no_rows 0 (fun _ => 0) ∅ ∅ 0 0 0.

Definition set_applied_floors (b : PgWriteBatch) (floors : gmap Z Z) : PgWriteBatch :=
  mkPgWriteBatch (pb_pending_funding b) (pb_rows b) (pb_skipped b) (pb_skip_counts b) floors
    (pb_pending_max_seq b) (pb_duplicate_seq_frames b) (pb_seq_gap_frames b)
    (pb_publisher_restarts b).

(** The highest sequence number admitted so far from a publisher. *)
Definition admitted (b : PgWriteBatch) (publisher_id : Z) : Z :=
  default (default 0 (pb_applied_seq b !! publisher_id)) (pb_pending_max_seq b !! publisher_id).

Definition admit_seq (b : PgWriteBatch) (publisher_id seq : Z) : PgWriteBatch * bool :=
  if Z.eqb seq 0 then (b, true)
  else
    let pending := admitted b publisher_id in
    if Z.leb seq pending then
      (mkPgWriteBatch (pb_pending_funding b) (pb_rows b) (pb_skipped b) (pb_skip_counts b)
         (pb_applied_seq b) (pb_pending_max_seq b) (u64_add (pb_duplicate_seq_frames b) 1)
         (pb_seq_gap_frames b) (pb_publisher_restarts b), false)
    else
      let jump := seq - pending in
      let '(gaps, restarts) :=
        if Z.ltb 0 pending && Z.ltb 1 jump then
          if Z.ltb JOURNAL_RESTART_JUMP jump
          then (pb_seq_gap_frames b, u64_add (pb_publisher_restarts b) 1)
          else (u64_add (pb_seq_gap_frames b) (jump - 1), pb_publisher_restarts b)
        else (pb_seq_gap_frames b, pb_publisher_restarts b) in
      (mkPgWriteBatch (pb_pending_funding b) (pb_rows b) (pb_skipped b) (pb_skip_counts b)
         (pb_applied_seq b) (<[publisher_id := seq]> (pb_pending_max_seq b))
         (pb_duplicate_seq_frames b) gaps restarts, true).

Definition rows_len (r : BatchRows) : nat :=
  length (br_upserts r) + length (br_deletes r) + length (br_fills r) + length (br_accounts r)
  + length (br_trades r) + length (br_matching_events r) + length (br_position_ops r)
  + length (br_risk_accounts r) + (if br_insurance_fund_atoms r then 1 else 0).

Definition len (b : PgWriteBatch) : nat :=
  rows_len (pb_rows b) + (if pb_pending_funding b then 1 else 0).

Definition is_empty (b : PgWriteBatch) : bool := Nat.eqb (len b) 0.

Definition has_pending_funding (b : PgWriteBatch) : bool :=
  match pb_pending_funding b with Some _ => true | None => false end.

(** [clear_payloads]: the position, risk-account, insurance and funding fields
    are not cleared. *)
Definition clear_payloads (b : PgWriteBatch) : PgWriteBatch :=
  let r := pb_rows b in
  mkPgWriteBatch (pb_pending_funding b)
    (mkBatchRows [] [] [] [] [] [] (br_position_ops r) (br_risk_accounts r)
       (br_insurance_fund_atoms r))
    (pb_skipped b) (pb_skip_counts b) (pb_applied_seq b) ∅ (pb_duplicate_seq_frames b)
    (pb_seq_gap_frames b) (pb_publisher_restarts b).

(** [match frame.as_*() { Some(p) => .., None => skip }]; the outer [option] is
    an out-of-bounds read. *)
Definition with_payload {A} (p : option (option A)) (k : A -> decoded) : option decoded :=
  r ← p;
  Some (match r with Some p => k p | None => Skip payload_decode_failed end).

Definition decode_frame (frame : PersistFrame) : option decoded :=
  match PersistFrame.kind frame with
  | Some PersistKind.OrderUpsert =>
      with_payload (PersistFrame.as_order_upsert frame) (fun p => queued add_upsert (decode_upsert p))
  | Some PersistKind.OrderDelete =>
      with_payload (PersistFrame.as_order_delete frame) (fun p => queued add_delete (Ok (odp_id p)))
  | Some PersistKind.OrderFillUpdate =>
      with_payload (PersistFrame.as_order_fill_update frame) (fun p => queued add_fill (decode_fill p))
  | Some PersistKind.AccountSet =>
      with_payload (PersistFrame.as_account_set frame)
        (fun p => queued add_account (decode_account p))
  | Some PersistKind.TradeInsert =>
      with_payload (PersistFrame.as_trade_insert frame) (fun p => queued add_trade (decode_trade p))
  | Some PersistKind.MatchingEvent =>
      with_payload (PersistFrame.as_matching_event frame)
        (fun p => queued add_matching_event (decode_matching_event p))
  | Some PersistKind.PositionUpsert =>
      with_payload (PersistFrame.as_position_upsert frame)
        (fun p => queued add_position_op (decode_position_upsert p))
  | Some PersistKind.PositionDelete =>
      with_payload (PersistFrame.as_position_delete frame)
        (fun p => queued add_position_op (Ok (PosDelete (pdp_user_id p) (unpack_str (pdp_symbol p)))))
  | Some PersistKind.RiskAccountSet =>
      with_payload (PersistFrame.as_risk_account_set frame)
        (fun p => queued add_risk_account (decode_risk_account p))
  | Some PersistKind.FundingSettled =>
      with_payload (PersistFrame.as_funding_settled frame) Settle
  | Some PersistKind.InsuranceFundSet =>
      with_payload (PersistFrame.as_insurance_fund_set frame)
        (fun p => queued set_insurance_fund (Ok (ifs_balance_atoms p)))
  | None => Some (Skip unknown_kind)
  end.

(** The [match frame.kind()] of [push]. *)
Definition push_payload (b : PgWriteBatch) (frame : PersistFrame) : option (PgWriteBatch * bool) :=
  d ← decode_frame frame; Some (accept b d).

(** [PgWriteBatch::push] *)
Definition push (b : PgWriteBatch) (frame : PersistFrame) : option (PgWriteBatch * bool) :=
  match admit_seq b (pf_publisher_id frame) (pf_seq frame) with
  | (b, false) => Some (b, false)
  | (b, true) => push_payload b frame
  end.

(** [push_upsert_row]: the backfill's entry, without a frame. *)
Definition push_upsert_row (b : PgWriteBatch) (id user_id : Z) (symbol : bytes) (side : string)
  (order_type : bytes) (price : option Z) (quantity filled : Z) (status : string)
  (freeze_price : Z) (client_order_id : option bytes) (created_at : DateTime)
  : PgWriteBatch * bool :=
  match to_atoms quantity with
  | None => (b, false)
  | Some quantity_atoms =>
  match to_atoms filled with
  | None => (b, false)
  | Some filled_atoms =>
  match to_atoms freeze_price with
  | None => (b, false)
  | Some freeze_price_atoms =>
      (with_rows b (add_upsert (pb_rows b)
         (mkUpsertRow id user_id symbol side order_type price quantity filled (price ≫= to_atoms)
            quantity_atoms filled_atoms status freeze_price_atoms client_order_id created_at)), true)
  end end end.

(** ** Flushing *)

(** What one transaction carries. *)
Record Transaction := mkTransaction {
  tx_rows : BatchRows;
  tx_funding : option FundingSettledPayload;
  tx_checkpoints : gmap Z Z;
}.

(** The server's answer: a failure before the funding settlement is applied
    (including [begin]), a failure of the settlement, of the checkpoints or of
    the commit, success with the number of rows affected, or a commit the server
    performed but the reply to which was lost. *)
Inductive answer := FailsEarly | FailsLate | Commits (rows : nat) | CommitsUnheard.

(** [for (publisher_id, seq) in self.pending_max_seq.drain()]: raise the floors. *)
Definition promote (floors pending : gmap Z Z) : gmap Z Z :=
  merge (fun f p => match p with Some p => Some (Z.max p (default 0 f)) | None => f end) floors pending.

(** [flush]: the batch after it, the result, and the transaction if it was
    committed.  [pending_funding.take()] empties the field before the
    settlement is attempted. *)
Definition flush (b : PgWriteBatch) (a : answer)
  : PgWriteBatch * result nat unit * option Transaction :=
  match a with
  | FailsEarly => (b, Err (), None)
  | FailsLate => (with_funding b None, Err (), None)
  | Commits n =>
      (mkPgWriteBatch None no_rows (pb_skipped b) (pb_skip_counts b)
         (promote (pb_applied_seq b) (pb_pending_max_seq b)) ∅ (pb_duplicate_seq_frames b)
         (pb_seq_gap_frames b) (pb_publisher_restarts b),
       Ok n, Some (mkTransaction (pb_rows b) (pb_pending_funding b) (pb_pending_max_seq b)))
  | CommitsUnheard =>
      (with_funding b None, Err (), Some (mkTransaction (pb_rows b) (pb_pending_funding b) (pb_pending_max_seq b)))
  end.
End batch.
