(* ===== verification/PgWriter.v ===== *)
(** The Postgres writer ([src/src/bin/pg_writer.rs], [flush_checkpoints] and
    [load_checkpoints] of [src/src/desk/pg_store.rs]): the loop that drains
    frames into a batch, isolates funding settlements, flushes by size and by
    time, and restarts from the committed checkpoints.

    The database is the list of its committed transactions; Postgres promises
    that a transaction is atomic.  The main theorem is exactly-once delivery:
    however flushes fail and the process restarts, as long as every start reads
    the checkpoints, the archive redelivers each publisher's frames from the
    checkpoint on without a gap and no reply to a commit is lost, the committed
    rows are those of every journalled frame up to the checkpoint, each exactly
    once and in order. *)
From Stdlib Require Import ZArith Lia String.
From stdpp Require Import base numbers list gmap relations sorting.
From S2P Require Import Prelude Bytes Fixed Pod Types F64 Text Money Sbe PersistEvent RiskCalc PgStore.

#[local] Open Scope Z_scope.

Section writer.
Context `{Chrono}.

(** ** Checkpoints *)

(** [flush_checkpoints]: [INSERT .. ON CONFLICT DO UPDATE SET last_seq =
    GREATEST(old, new)], the sequence number stored as an [i64]. *)
Definition store_checkpoints (table pending : gmap Z Z) : gmap Z Z :=
  merge (fun old new => match new with
                        | Some seq => Some (match old with
                                            | Some o => Z.max o (wrap_i64 seq)
                                            | None => wrap_i64 seq
                                            end)
                        | None => old
                        end) table pending.

(** [load_checkpoints]: [seq.max(0) as u64] *)
Definition load_checkpoints (table : gmap Z Z) : gmap Z Z := Z.max 0 <$> table.

(** The checkpoint table after the committed transactions. *)
Definition checkpoints (db : list Transaction) : gmap Z Z :=
  fold_left (fun t tx => store_checkpoints t (tx_checkpoints tx)) db ∅.

(** ** The loop *)

Record writer := mkWriter { w_batch : PgWriteBatch; w_db : list Transaction }.

(** [flush_now] *)
Definition flush_now (w : writer) (a : answer) : writer :=
  if is_empty (w_batch w) then w
  else
    let '(b, _, tx) := flush (w_batch w) a in
    mkWriter b (w_db w ++ match tx with Some tx => [tx] | None => [] end).

Definition is_funding (frame : PersistFrame) : bool :=
  bool_decide (PersistFrame.kind frame = Some PersistKind.FundingSettled).

(** One frame popped off the bridge queue; [a1], [a2], [a3] are the server's
    answers to the three flushes it may cause. *)
Definition on_frame (max_batch : nat) (w : writer) (frame : PersistFrame) (a1 a2 a3 : answer)
  : option writer :=
  let funding := is_funding frame in
  let w := if funding && Nat.ltb 0 (len (w_batch w)) then flush_now w a1 else w in
  '(b, _) ← push (w_batch w) frame;
  let w := mkWriter b (w_db w) in
  let w := if funding then flush_now w a2 else w in
  Some (if Nat.leb max_batch (len (w_batch w)) then flush_now w a3 else w).

(** The time-based flush; [due] is [last_flush.elapsed() >= flush_ms]. *)
Definition on_timer (w : writer) (due : bool) (a : answer) : writer :=
  if negb (is_empty (w_batch w)) && due then flush_now w a else w.

(** A new process: an empty batch whose floors are the committed checkpoints, or
    zero when loading them failed. *)
Definition restart (w : writer) (loaded : bool) : writer :=
  mkWriter (if loaded then set_applied_floors new (load_checkpoints (checkpoints (w_db w))) else new)
    (w_db w).

(** ** The rows a list of frames stands for *)

(** What one frame adds to the rows, and the settlement it carries. *)
Definition frame_rows (r : BatchRows) (f : PersistFrame) : BatchRows :=
  match decode_frame f with Some (Queue add) => add r | _ => r end.

Definition rows_of (fs : list PersistFrame) : BatchRows := fold_left frame_rows fs no_rows.

Definition frame_funding (f : PersistFrame) : option FundingSettledPayload :=
  match decode_frame f with Some (Settle p) => Some p | _ => None end.

(** ** The journal *)

Definition from (p : Z) (f : PersistFrame) : Prop := pf_publisher_id f = p.
#[global] Instance from_dec p f : Decision (from p f) := decide (pf_publisher_id f = p).

(** The frames the publishers recorded: well-typed, numbered from 1 up to
    [i64::MAX], strictly increasing per publisher. *)
Record journal (J : list PersistFrame) : Prop := {
  j_typed : Forall well_typed J;
  j_seq : Forall (fun f => 1 <= pf_seq f <= i64_max) J;
  j_sorted p : StronglySorted (fun f g => pf_seq f < pf_seq g) (filter (from p) J);
}.

(** The archive delivers, in each life of the writer, every frame of a publisher
    after the floor before any later one; duplicates may occur anywhere. *)
Definition delivered (J : list PersistFrame) (w : writer) (f : PersistFrame) : Prop :=
  f ∈ J /\ forall g, g ∈ J -> from (pf_publisher_id f) g -> pf_seq g < pf_seq f ->
    pf_seq g <= admitted (w_batch w) (pf_publisher_id f).

(** The reply to a commit arrives. *)
Definition heard (a : answer) : Prop := a <> CommitsUnheard.

(** What can happen to a writer; [allowed] restricts the server's answers.  Every
    start reads the checkpoints. *)
Inductive writer_step (allowed : answer -> Prop) (J : list PersistFrame) : writer -> writer -> Prop :=
| step_frame max_batch w f a1 a2 a3 w' :
    allowed a1 -> allowed a2 -> allowed a3 ->
    delivered J w f -> on_frame max_batch w f a1 a2 a3 = Some w' ->
    writer_step allowed J w w'
| step_timer w due a : allowed a -> writer_step allowed J w (on_timer w due a)
| step_restart w : writer_step allowed J w (restart w true).

Definition initial : writer := mkWriter new [].

(** ** Lemmas on the batch *)

Lemma admit_seq_spec b p seq : seq <> 0 ->
  let '(b', ok) := admit_seq b p seq in
  pb_rows b' = pb_rows b /\ pb_pending_funding b' = pb_pending_funding b /\
  pb_applied_seq b' = pb_applied_seq b /\ ok = bool_decide (admitted b p < seq) /\
  pb_pending_max_seq b' = (if ok then <[p := seq]> (pb_pending_max_seq b) else pb_pending_max_seq b).
Proof.
  intros Hs. unfold admit_seq. rewrite (proj2 (Z.eqb_neq _ _) Hs).
  destruct (Z.leb_spec seq (admitted b p)).
  - simpl. by rewrite bool_decide_eq_false_2 by lia.
  - destruct (Z.ltb 0 (admitted b p) && Z.ltb 1 (seq - admitted b p));
      [destruct (Z.ltb JOURNAL_RESTART_JUMP (seq - admitted b p))|]; simpl;
      by rewrite bool_decide_eq_true_2 by lia.
Qed.

Lemma accessor_total {A} `{Pod A} k (f : PersistFrame) : well_typed f ->
  (size_of A <= MAX_PAYLOAD)%nat -> is_Some (PersistFrame.as_payload (A := A) k f).
Proof.
  intros Hf Hs. unfold PersistFrame.as_payload. destruct (decide _); [|by eexists].
  destruct (read_unaligned_total (A := A) (pf_payload f) 0) as [x ->]; [|by eexists].
  destruct Hf as (_ & _ & _ & _ & _ & Hl & _). simpl in *. rewrite Hl. done.
Qed.

Lemma decode_frame_total f : well_typed f -> is_Some (decode_frame f).
Proof.
  intros Hf. unfold decode_frame. destruct (PersistFrame.kind f) as [[]|]; [..|by eexists]; accessors;
    match goal with |- is_Some (with_payload ?o _) =>
      assert (is_Some o) as [r ->] by (apply accessor_total; [done | vm_compute; lia])
    end; by eexists.
Qed.

(** Only a funding frame carries a settlement. *)
Lemma frame_funding_kind f p : frame_funding f = Some p -> is_funding f = true.
Proof.
  unfold frame_funding, decode_frame, is_funding.
  destruct (PersistFrame.kind f) as [[]|]; try done; unfold with_payload;
    match goal with |- context [mbind _ ?o] => destruct o as [[x|]|]; bind_step; try done end;
    unfold queued; repeat match goal with |- context [match ?r with Ok _ => _ | Err _ => _ end] => destruct r end; done.
Qed.

Lemma push_payload_spec b f : well_typed f ->
  exists b' ok, push_payload b f = Some (b', ok) /\
    pb_rows b' = frame_rows (pb_rows b) f /\
    pb_pending_funding b' =
      match frame_funding f with Some p => Some p | None => pb_pending_funding b end /\
    pb_applied_seq b' = pb_applied_seq b /\ pb_pending_max_seq b' = pb_pending_max_seq b.
Proof.
  intros Hf. unfold push_payload, frame_rows, frame_funding.
  destruct (decode_frame_total f Hf) as [d ->]. bind_step.
  destruct d as [add|p|r]; eexists _, _; (split; [done|]); done.
Qed.

(** ** The delivery invariant *)

Definition floor (b : PgWriteBatch) (p : Z) : Z := default 0 (pb_applied_seq b !! p).

(** The frames of [p] in the journal up to a sequence number. *)
Definition upto (J : list PersistFrame) (p s : Z) : list PersistFrame :=
  filter (fun f => from p f /\ pf_seq f <= s) J.

(** [chunks] are the frames of each committed transaction, [pend] those of the
    current batch. *)
Record delivery (J : list PersistFrame) (w : writer) (chunks : list (list PersistFrame))
    (pend : list PersistFrame) : Prop := {
  dl_rows : tx_rows <$> w_db w = rows_of <$> chunks;
  dl_pend : pb_rows (w_batch w) = rows_of pend;
  dl_committed p : filter (from p) (concat chunks) = upto J p (floor (w_batch w) p);
  dl_admitted p : filter (from p) (concat chunks ++ pend) = upto J p (admitted (w_batch w) p);
  dl_table p : default 0 (load_checkpoints (checkpoints (w_db w)) !! p) = floor (w_batch w) p;
  dl_pending p s : pb_pending_max_seq (w_batch w) !! p = Some s -> floor (w_batch w) p < s <= i64_max;
}.

Lemma upto_filter J p s : upto J p s = filter (fun f => pf_seq f <= s) (filter (from p) J).
Proof.
  unfold upto. rewrite list_filter_filter. apply list_filter_iff. intros f. tauto.
Qed.

(** The next frame of a publisher ends the extended prefix. *)
Lemma upto_next J p s f : journal J -> f ∈ J -> from p f -> s < pf_seq f ->
  (forall g, g ∈ J -> from p g -> pf_seq g < pf_seq f -> pf_seq g <= s) ->
  upto J p (pf_seq f) = upto J p s ++ [f].
Proof.
  intros HJ Hf Hp Hs Hgap. rewrite !upto_filter. pose proof (j_sorted _ HJ p) as Hsort.
  assert (f ∈ filter (from p) J) as Hin by (by apply list_elem_of_filter).
  assert (forall g, g ∈ filter (from p) J -> pf_seq g < pf_seq f -> pf_seq g <= s) as Hg.
  { intros g [Hpg Hg]%list_elem_of_filter. by apply Hgap. }
  clear Hf Hgap. induction Hsort as [|x K Hsort IH Hx]; [by apply elem_of_nil in Hin|].
  rewrite Forall_forall in Hx. apply elem_of_cons in Hin as [<-|Hin].
  - rewrite !filter_cons. rewrite decide_True, decide_False by lia.
    assert (forall t, t <= pf_seq f -> filter (fun g => pf_seq g <= t) K = []) as Hnil.
    { intros t Ht. apply filter_none, Forall_forall. intros g Hgk. specialize (Hx g Hgk). lia. }
    rewrite !Hnil by lia. done.
  - specialize (Hx f Hin). rewrite !filter_cons.
    assert (pf_seq x <= s) by (apply Hg; [by left|lia]).
    rewrite !decide_True by lia. simpl. f_equal. apply IH; [done|]. intros g Hgk. apply Hg. by right.
Qed.

Lemma upto_zero J p : journal J -> upto J p 0 = [].
Proof.
  intros HJ. apply filter_none, Forall_forall. intros f Hf [_ Hs].
  pose proof (j_seq _ HJ) as Hj. rewrite Forall_forall in Hj. specialize (Hj f Hf). lia.
Qed.

Lemma delivery_initial J : journal J -> delivery J initial [] [].
Proof.
  intros HJ. split; try done.
  - intros p. simpl. symmetry. by apply upto_zero.
  - intros p. simpl. symmetry. by apply upto_zero.
Qed.

(** *** Flushing *)

Lemma floor_promote fl pm p :
  default 0 (promote fl pm !! p) =
    match pm !! p with Some s => Z.max s (default 0 (fl !! p)) | None => default 0 (fl !! p) end.
Proof.
  unfold promote. rewrite lookup_merge. unfold diag_None.
  destruct (fl !! p), (pm !! p); done.
Qed.

Lemma checkpoints_snoc db tx :
  checkpoints (db ++ [tx]) = store_checkpoints (checkpoints db) (tx_checkpoints tx).
Proof. unfold checkpoints. by rewrite fold_left_app. Qed.

Lemma load_store t pm p s : pm !! p = Some s -> in_i64 s -> 0 <= s ->
  default 0 (load_checkpoints (store_checkpoints t pm) !! p) =
    Z.max s (default 0 (load_checkpoints t !! p)).
Proof.
  intros Hp Hs H0. unfold load_checkpoints, store_checkpoints.
  rewrite !lookup_fmap, lookup_merge, Hp. unfold diag_None. rewrite wrap_i64_id by done.
  destruct (t !! p) as [o|]; simpl; lia.
Qed.

Lemma load_store_none t pm p : pm !! p = None ->
  load_checkpoints (store_checkpoints t pm) !! p = load_checkpoints t !! p.
Proof.
  intros Hp. unfold load_checkpoints, store_checkpoints.
  rewrite !lookup_fmap, lookup_merge, Hp. unfold diag_None. by destruct (t !! p).
Qed.

Lemma floor_nonneg J w chunks pend p : delivery J w chunks pend -> 0 <= floor (w_batch w) p.
Proof.
  intros Hd. rewrite <- (dl_table _ _ _ _ Hd p). unfold load_checkpoints. rewrite lookup_fmap.
  destruct (_ !! p); simpl; lia.
Qed.

Lemma flush_now_delivery J w chunks pend a : heard a -> delivery J w chunks pend ->
  (forall p, admitted (w_batch (flush_now w a)) p = admitted (w_batch w) p) /\
  exists chunks' pend', delivery J (flush_now w a) chunks' pend' /\
    (chunks' = chunks /\ pend' = pend \/ chunks' = chunks ++ [pend] /\ pend' = []).
Proof.
  intros Hh Hd. unfold flush_now. destruct (is_empty (w_batch w)); [by split; [|exists chunks, pend; auto]|].
  destruct a as [| |n|]; simpl; [..|done].
  - rewrite app_nil_r. destruct w. split; [done|]. exists chunks, pend. auto.
  - rewrite app_nil_r. split; [done|]. exists chunks, pend. split; [|auto]. by destruct Hd; split.
  - assert (forall p, default 0 (promote (pb_applied_seq (w_batch w)) (pb_pending_max_seq (w_batch w)) !! p)
      = admitted (w_batch w) p) as Hfl.
    { intros p. rewrite floor_promote. unfold admitted.
      destruct (pb_pending_max_seq (w_batch w) !! p) as [s|] eqn:Hp; [|done].
      pose proof (dl_pending _ _ _ _ Hd p s Hp) as Hs. unfold floor in Hs. simpl. lia. }
    split. { intros p. unfold admitted at 1. simpl. rewrite lookup_empty. apply Hfl. }
    exists (chunks ++ [pend]), []. split; [|auto]. split; simpl.
    + rewrite !fmap_app, (dl_rows _ _ _ _ Hd). simpl. by rewrite (dl_pend _ _ _ _ Hd).
    + done.
    + intros p. rewrite concat_app. simpl. rewrite app_nil_r, (dl_admitted _ _ _ _ Hd p).
      unfold floor; simpl. by rewrite Hfl.
    + intros p. rewrite concat_app. simpl. rewrite !app_nil_r, (dl_admitted _ _ _ _ Hd p).
      unfold admitted at 2; simpl. rewrite lookup_empty. simpl. by rewrite Hfl.
    + intros p. rewrite checkpoints_snoc. unfold floor; simpl. rewrite Hfl. unfold admitted.
      destruct (pb_pending_max_seq (w_batch w) !! p) as [s|] eqn:Hp.
      * pose proof (dl_pending _ _ _ _ Hd p s Hp) as Hs. pose proof (floor_nonneg _ _ _ _ p Hd).
        rewrite (load_store _ _ _ s) by (done || (machine_unfold; lia)).
        rewrite (dl_table _ _ _ _ Hd p). simpl. lia.
      * rewrite load_store_none by done. apply (dl_table _ _ _ _ Hd p).
    + intros p s. by rewrite lookup_empty.
Qed.

(** *** Pushing *)

Lemma push_delivery J w chunks pend f : journal J -> delivery J w chunks pend -> delivered J w f ->
  exists b ok pend', push (w_batch w) f = Some (b, ok) /\
    delivery J (mkWriter b (w_db w)) chunks pend' /\
    (pf_seq f <= admitted (w_batch w) (pf_publisher_id f) /\ pend' = pend /\
       pb_pending_funding b = pb_pending_funding (w_batch w) \/
     admitted (w_batch w) (pf_publisher_id f) < pf_seq f /\ pend' = pend ++ [f] /\
       pb_pending_funding b = match frame_funding f with
                              | Some p => Some p | None => pb_pending_funding (w_batch w) end).
Proof.
  intros HJ Hd [HfJ Hgap]. set (q := pf_publisher_id f) in *.
  assert (well_typed f) as Hty by (pose proof (j_typed _ HJ) as Ht; rewrite Forall_forall in Ht; auto).
  assert (1 <= pf_seq f <= i64_max) as Hseq
    by (pose proof (j_seq _ HJ) as Ht; rewrite Forall_forall in Ht; auto).
  unfold push. fold q. pose proof (admit_seq_spec (w_batch w) q (pf_seq f) ltac:(lia)) as Had.
  destruct (admit_seq (w_batch w) q (pf_seq f)) as [b1 ok1]. destruct Had as (Hr & Hf & Ha & Hok & Hm).
  destruct (bool_decide_reflect (admitted (w_batch w) q < pf_seq f)) as [Hnew|Hold]; subst ok1.
  - destruct (push_payload_spec b1 f Hty) as (b2 & ok2 & Hp & Hr2 & Hf2 & Ha2 & Hm2).
    exists b2, ok2, (pend ++ [f]). split; [done|]. split; [|right; by rewrite Hf2, Hf].
    assert (forall p, admitted b2 p = if decide (p = q) then pf_seq f else admitted (w_batch w) p) as Hadm.
    { intros p. unfold admitted. rewrite Ha2, Hm2, Ha, Hm.
      destruct (decide (p = q)) as [->|]; [by rewrite lookup_insert_eq | by rewrite lookup_insert_ne]. }
    assert (forall p, floor b2 p = floor (w_batch w) p) as Hfloor by (intros p; unfold floor; by rewrite Ha2, Ha).
    split; simpl.
    + apply Hd.
    + unfold rows_of. rewrite fold_left_app. simpl. fold (rows_of pend).
      rewrite <- (dl_pend _ _ _ _ Hd), <- Hr. done.
    + intros p. rewrite Hfloor. apply Hd.
    + intros p. rewrite Hadm, app_assoc, filter_app, (dl_admitted _ _ _ _ Hd p).
      destruct (decide (p = q)) as [->|Hne].
      * rewrite filter_cons, decide_True by done. symmetry. by apply upto_next.
      * rewrite filter_cons, decide_False by (unfold from; fold q; congruence). by rewrite app_nil_r.
    + intros p. rewrite Hfloor. apply Hd.
    + intros p s. rewrite Hm2, Hm, Hfloor. destruct (decide (p = q)) as [->|Hne].
      * rewrite lookup_insert_eq. intros [= <-]. split; [|lia].
        assert (floor (w_batch w) q <= admitted (w_batch w) q); [|lia].
        unfold admitted. fold (floor (w_batch w) q).
        destruct (pb_pending_max_seq (w_batch w) !! q) as [s|] eqn:Hq; [|simpl; lia].
        pose proof (dl_pending _ _ _ _ Hd q s Hq). simpl. lia.
      * rewrite lookup_insert_ne by done. apply Hd.
  - exists b1, false, pend. split; [done|]. split; [|left; split; [lia|done]].
    destruct Hd as [H1 H2 H3 H4 H5 H6].
    split; unfold floor, admitted in *; simpl; rewrite ?Hr, ?Ha, ?Hm; done.
Qed.

(** ** Every step keeps the invariant *)

Lemma delivered_admitted J w w' f : (forall p, admitted (w_batch w') p = admitted (w_batch w) p) ->
  delivered J w f -> delivered J w' f.
Proof. intros Ha [Hf Hg]. split; [done|]. intros g. rewrite Ha. apply Hg. Qed.

Lemma maybe_flush (c : bool) J w chunks pend a : heard a -> delivery J w chunks pend ->
  (forall p, admitted (w_batch (if c then flush_now w a else w)) p = admitted (w_batch w) p) /\
  exists chunks' pend', delivery J (if c then flush_now w a else w) chunks' pend'.
Proof.
  intros Hh Hd. destruct c; [|by split; [|exists chunks, pend]].
  destruct (flush_now_delivery J w chunks pend a Hh Hd) as [Ha (c' & p' & Hd' & _)].
  split; [done|]. by exists c', p'.
Qed.

Lemma on_frame_delivery J max_batch w chunks pend f a1 a2 a3 :
  heard a1 -> heard a2 -> heard a3 -> journal J -> delivery J w chunks pend -> delivered J w f ->
  exists w' chunks' pend', on_frame max_batch w f a1 a2 a3 = Some w' /\ delivery J w' chunks' pend'.
Proof.
  intros H1 H2 H3 HJ Hd Hf. unfold on_frame.
  destruct (maybe_flush (is_funding f && Nat.ltb 0 (len (w_batch w))) J w chunks pend a1 H1 Hd)
    as [Ha (c1 & p1 & Hd1)].
  set (w1 := if is_funding f && _ then _ else _) in *. clearbody w1.
  apply (delivered_admitted J w w1) in Hf; [|done].
  destruct (push_delivery J w1 c1 p1 f HJ Hd1 Hf) as (b & ok & p2 & Hp & Hd2 & _). rewrite Hp. bind_step.
  destruct (maybe_flush (is_funding f) J _ _ _ a2 H2 Hd2) as [_ (c3 & p3 & Hd3)].
  set (w3 := if is_funding f then _ else _) in *. clearbody w3.
  destruct (maybe_flush (Nat.leb max_batch (len (w_batch w3))) J _ _ _ a3 H3 Hd3) as [_ (c4 & p4 & Hd4)].
  eexists _, c4, p4. split; [done|]. exact Hd4.
Qed.

Lemma restart_delivery J w chunks pend : delivery J w chunks pend -> delivery J (restart w true) chunks [].
Proof.
  intros [H1 H2 H3 H4 H5 H6]. split; unfold floor, admitted in *; simpl; try done.
  - intros p. rewrite H5. apply H3.
  - intros p. rewrite lookup_empty, app_nil_r. simpl. rewrite H5. apply H3.
Qed.

Lemma reachable_delivery J w : journal J -> rtc (writer_step heard J) initial w ->
  exists chunks pend, delivery J w chunks pend.
Proof.
  intros HJ Hr. revert w Hr. apply rtc_ind_r; [exists [], []; by apply delivery_initial|].
  intros w1 w2 _ Hstep (chunks & pend & Hd).
  destruct Hstep as [max_batch w f a1 a2 a3 w' H1 H2 H3 Hf Hon|w due a Ha|w].
  - destruct (on_frame_delivery J max_batch w chunks pend f a1 a2 a3 H1 H2 H3 HJ Hd Hf) as (w'' & c & p & Hw & Hd').
    rewrite Hw in Hon. injection Hon as <-. by exists c, p.
  - unfold on_timer. destruct (maybe_flush (negb (is_empty (w_batch w)) && due) J w chunks pend a Ha Hd)
      as [_ Hd']. exact Hd'.
  - exists chunks, []. by eapply restart_delivery.
Qed.

(** C10: exactly-once persistence.  Whatever flushes the server fails (but for a
    commit whose reply is lost), whenever the writer restarts from the stored
    checkpoints, and however often the archive, which delivers every frame after
    the checkpoint without a gap, redelivers frames it has sent before: no step
    panics, every committed transaction holds the rows of a
    chunk of frames, and for every publisher the committed frames are exactly
    the journalled ones up to its stored checkpoint, each once and in order. *)
Theorem writer_exactly_once J w :
  journal J -> rtc (writer_step heard J) initial w ->
  (forall max_batch f a1 a2 a3, heard a1 -> heard a2 -> heard a3 -> delivered J w f -> is_Some (on_frame max_batch w f a1 a2 a3)) /\
  exists chunks, tx_rows <$> w_db w = rows_of <$> chunks /\
    forall p, filter (from p) (concat chunks) =
      upto J p (default 0 (load_checkpoints (checkpoints (w_db w)) !! p)).
Proof.
  intros HJ Hr. destruct (reachable_delivery J w HJ Hr) as (chunks & pend & Hd). split.
  - intros max_batch f a1 a2 a3 H1 H2 H3 Hf.
    destruct (on_frame_delivery J max_batch w chunks pend f a1 a2 a3 H1 H2 H3 HJ Hd Hf) as (w' & _ & _ & -> & _).
    by eexists.
  - exists chunks. split; [apply Hd|]. intros p. rewrite (dl_table _ _ _ _ Hd p). apply Hd.
Qed.

(** ** Funding settlements *)

Definition commits (a : answer) : Prop := exists n, a = Commits n.

(** The settlements of each transaction and of the batch are those of its frames,
    and a settlement is alone. *)
Record settled (w : writer) (chunks : list (list PersistFrame)) (pend : list PersistFrame) : Prop := {
  st_pend : omap frame_funding pend = option_list (pb_pending_funding (w_batch w));
  st_alone : pb_pending_funding (w_batch w) <> None -> pb_rows (w_batch w) = no_rows;
  st_txs : Forall2 (fun tx chunk => omap frame_funding chunk = option_list (tx_funding tx) /\
      (tx_funding tx <> None -> tx_rows tx = no_rows)) (w_db w) chunks;
}.

Lemma rows_len_zero r : rows_len r = 0%nat -> r = no_rows.
Proof.
  destruct r as [a b c d e f g h i]. unfold rows_len, no_rows. simpl. intros Hl.
  destruct a, b, c, d, e, f, g, h; simpl in Hl; try lia. destruct i; [lia|done].
Qed.

Lemma flush_now_commits J w chunks pend n : delivery J w chunks pend -> settled w chunks pend ->
  let w' := flush_now w (Commits n) in
  exists chunks' pend', delivery J w' chunks' pend' /\ settled w' chunks' pend' /\
    pb_pending_funding (w_batch w') = None /\ pb_rows (w_batch w') = no_rows.
Proof.
  intros Hd Hs. unfold flush_now. destruct (is_empty (w_batch w)) eqn:He.
  - exists chunks, pend. apply Nat.eqb_eq in He. unfold len in He. split_and!; try done.
    + by destruct (pb_pending_funding (w_batch w)); [lia|].
    + apply rows_len_zero. lia.
  - destruct (flush_now_delivery J w chunks pend (Commits n) ltac:(done) Hd) as (_ & c & p & Hd' & Hc).
    unfold flush_now in Hd'. rewrite He in Hd'. simpl in Hd'.
    exists (chunks ++ [pend]), []. split_and!; try done.
    + destruct Hc as [[-> ->]|[-> ->]]; [|done]. exfalso.
      pose proof (dl_rows _ _ _ _ Hd') as H1. pose proof (dl_rows _ _ _ _ Hd) as H2. simpl in H1.
      rewrite fmap_app, H2 in H1. apply (f_equal length) in H1. rewrite length_app in H1. simpl in H1. lia.
    + destruct Hs as [H1 H2 H3]. split; simpl; [done|done|]. apply Forall2_app; [done|].
      constructor; [|constructor]. done.
Qed.

Lemma frame_funding_some f : well_typed f -> is_funding f = true -> exists p, frame_funding f = Some p /\
  forall r, frame_rows r f = r.
Proof.
  unfold is_funding. intros Hf Hk%bool_decide_eq_true. unfold frame_funding, frame_rows, decode_frame.
  rewrite Hk. destruct (accessor_total (A := FundingSettledPayload) PersistKind.FundingSettled f Hf) as [r Hr];
    [vm_compute; lia|]. unfold PersistFrame.as_funding_settled. rewrite Hr. unfold with_payload. bind_step.
  unfold PersistFrame.as_payload in Hr. rewrite decide_True in Hr by done.
  destruct (read_unaligned (pf_payload f) 0) as [p|]; [|done]. injection Hr as <-. by exists p.
Qed.

Lemma frame_funding_none f : is_funding f = false -> frame_funding f = None.
Proof.
  intros Hf. destruct (frame_funding f) as [p|] eqn:Hp; [|done].
  apply frame_funding_kind in Hp. congruence.
Qed.

(** Pushing a frame on a batch without a settlement; a settlement only on an
    empty one. *)
Lemma push_settled J w chunks pend f : journal J -> delivery J w chunks pend -> delivered J w f ->
  settled w chunks pend -> pb_pending_funding (w_batch w) = None ->
  (is_funding f = true -> pb_rows (w_batch w) = no_rows) ->
  exists b ok pend', push (w_batch w) f = Some (b, ok) /\
    delivery J (mkWriter b (w_db w)) chunks pend' /\ settled (mkWriter b (w_db w)) chunks pend' /\
    (is_funding f = false -> pb_pending_funding b = None).
Proof.
  intros HJ Hd Hf Hs Hnone Hempty.
  destruct (push_delivery J w chunks pend f HJ Hd Hf) as (b & ok & pend' & Hp & Hd' & Hc).
  exists b, ok, pend'. split; [done|]. split; [done|]. pose proof (st_pend _ _ _ Hs) as Hpend.
  rewrite Hnone in *. destruct Hc as [(_ & -> & Hb)|(_ & -> & Hb)].
  - split; [|done]. split; simpl; rewrite ?Hb; [done|done|apply Hs].
  - destruct (is_funding f) eqn:Hfund.
    + destruct Hf as [HfJ _]. pose proof (j_typed _ HJ) as Ht. rewrite Forall_forall in Ht.
      destruct (frame_funding_some f (Ht f HfJ) Hfund) as (p & Hfp & Hrows). rewrite Hfp in Hb.
      split; [|done]. split; simpl; rewrite ?Hb.
      * rewrite omap_app, Hpend. simpl. by rewrite Hfp.
      * intros _. pose proof (dl_pend _ _ _ _ Hd') as Hr. simpl in Hr. unfold rows_of in Hr.
        rewrite fold_left_app in Hr. simpl in Hr. rewrite Hrows in Hr. fold (rows_of pend) in Hr.
        rewrite <- (dl_pend _ _ _ _ Hd), Hempty in Hr; done.
      * apply Hs.
    + rewrite (frame_funding_none f Hfund) in Hb. split; [|done]. split; simpl; rewrite ?Hb; [|done|apply Hs].
      rewrite omap_app, Hpend. simpl. by rewrite (frame_funding_none f Hfund).
Qed.

(** The state between steps when every flush commits. *)
Definition orderly (J : list PersistFrame) (w : writer) : Prop :=
  pb_pending_funding (w_batch w) = None /\
  exists chunks pend, delivery J w chunks pend /\ settled w chunks pend.

Lemma flush_now_orderly J w n : orderly J w -> orderly J (flush_now w (Commits n)).
Proof.
  intros (Hn & chunks & pend & Hd & Hs).
  destruct (flush_now_commits J w chunks pend n Hd Hs) as (c & p & Hd' & Hs' & Hn' & _).
  split; [done|]. by exists c, p.
Qed.

Lemma on_frame_orderly J max_batch w f n1 n2 n3 w' : journal J -> orderly J w -> delivered J w f ->
  on_frame max_batch w f (Commits n1) (Commits n2) (Commits n3) = Some w' -> orderly J w'.
Proof.
  intros HJ (Hn & chunks & pend & Hd & Hs) Hf. unfold on_frame.
  set (w1 := if is_funding f && _ then _ else _).
  assert (exists c1 p1, delivery J w1 c1 p1 /\ settled w1 c1 p1 /\
    pb_pending_funding (w_batch w1) = None /\ (is_funding f = true -> pb_rows (w_batch w1) = no_rows) /\
    delivered J w1 f) as (c1 & p1 & Hd1 & Hs1 & Hn1 & Hr1 & Hf1).
  { unfold w1. destruct (is_funding f); simpl; [destruct (Nat.ltb_spec 0 (len (w_batch w))) as [|Hl]|].
    - destruct (flush_now_commits J w chunks pend n1 Hd Hs) as (c & p & Hd' & Hs' & Hn' & Hr').
      exists c, p. split_and!; try done.
      eapply delivered_admitted; [|exact Hf]. apply (flush_now_delivery J w chunks pend); done.
    - exists chunks, pend. split_and!; try done. intros _. apply rows_len_zero. unfold len in Hl. lia.
    - by exists chunks, pend. }
  clearbody w1. destruct (push_settled J w1 c1 p1 f HJ Hd1 Hf1 Hs1 Hn1 Hr1) as (b & ok & p2 & Hp & Hd2 & Hs2 & Hb).
  rewrite Hp. bind_step. intros [= <-].
  assert (orderly J (if is_funding f then flush_now (mkWriter b (w_db w1)) (Commits n2)
                     else mkWriter b (w_db w1))) as Ho.
  { destruct (is_funding f).
    - destruct (flush_now_commits J _ _ _ n2 Hd2 Hs2) as (c & p & Hd' & Hs' & Hn' & _).
      split; [done|]. by exists c, p.
    - split; [by apply Hb|]. by exists c1, p2. }
  destruct (Nat.leb max_batch _); [by apply flush_now_orderly|done].
Qed.

(** C11: when the server commits every flush and its reply arrives, every start
    reads the checkpoints and the archive delivers what follows them without a
    gap, every funding settlement reaches the database in a transaction that carries no other rows
    (so it sees exactly the positions of the frames before it), and for every
    publisher the settlements of the committed chunks are those of its frames up
    to the checkpoint, each exactly once and in order. *)
Theorem funding_isolated J w :
  journal J -> rtc (writer_step commits J) initial w ->
  exists chunks,
    Forall2 (fun tx chunk => tx_rows tx = rows_of chunk /\
      omap frame_funding chunk = option_list (tx_funding tx) /\
      (tx_funding tx <> None -> tx_rows tx = no_rows)) (w_db w) chunks /\
    forall p, filter (from p) (concat chunks) =
      upto J p (default 0 (load_checkpoints (checkpoints (w_db w)) !! p)).
Proof.
  intros HJ Hr. assert (orderly J w) as (_ & chunks & pend & Hd & Hs).
  { revert w Hr. apply rtc_ind_r.
    - split; [done|]. exists [], []. split; [by apply delivery_initial|]. by split.
    - intros w1 w2 _ Hstep Ho.
      destruct Hstep as [max_batch w f a1 a2 a3 w' [n1 ->] [n2 ->] [n3 ->] Hf Hon|w due a [n ->]|w].
      + by eapply on_frame_orderly.
      + unfold on_timer. destruct (_ && due); [by apply flush_now_orderly|done].
      + destruct Ho as (_ & chunks & pend & Hd & Hs). split; [done|]. exists chunks, [].
        split; [by eapply restart_delivery|]. split; [done|done|apply Hs]. }
  exists chunks. split.
  - pose proof (dl_rows _ _ _ _ Hd) as Hrows. pose proof (st_txs _ _ _ Hs) as Htx. clear -Hrows Htx.
    induction Htx as [|tx chunk db chunks Ht _ IH]; [constructor|]. simpl in Hrows. injection Hrows as H1 H2.
    constructor; [by split|by apply IH].
  - intros p. rewrite (dl_table _ _ _ _ Hd p). apply Hd.
Qed.
End writer.

(** ** Concrete runs *)

(** A clock library that accepts non-negative milliseconds. *)
#[local] Instance demo_chrono : Chrono := {|
  DateTime := Z; timestamp_millis_opt ms := if Z.leb 0 ms then Some ms else None |}.

(** Frames of publisher 3: deletions of orders and a funding settlement. *)
Definition demo_delete (id seq : Z) : PersistFrame :=
  PersistFrame.stamp (default PersistFrame.zero (PersistFrame.order_delete (mkOrderDeletePayload id))) 3 seq.
Definition demo_payload : FundingSettledPayload :=
  mkFundingSettledPayload (pack_str 16 (str "BTC_USDT")) 100000 6400000 1000000 1000 2000.
Definition demo_funding (seq : Z) : PersistFrame :=
  PersistFrame.stamp (default PersistFrame.zero (PersistFrame.funding_settled demo_payload)) 3 seq.

Definition demo_step (w : writer) (f : PersistFrame) (a : answer) : writer :=
  default initial (on_frame 1 w f a a a).

(** A decidable form of the journal's conditions for one publisher. *)
Lemma demo_journal : journal [demo_funding 1; demo_delete 11 2].
Proof.
  split.
  - repeat (apply Forall_cons; split); [typed_record | typed_record | by apply Forall_nil].
  - repeat (apply Forall_cons; split); [vm_compute; intuition congruence.. | by apply Forall_nil].
  - intros p. rewrite !filter_cons, filter_nil. unfold from.
    repeat (destruct (decide _) as [?|?]; [|try (exfalso; simpl in *; congruence)]);
      repeat constructor.
Qed.

Lemma delivered_check J w f : f ∈ J ->
  forallb (fun g => negb (Z.eqb (pf_publisher_id g) (pf_publisher_id f) && Z.ltb (pf_seq g) (pf_seq f))
                    || Z.leb (pf_seq g) (admitted (w_batch w) (pf_publisher_id f))) J = true ->
  delivered J w f.
Proof.
  intros Hf Hall. split; [done|]. intros g Hg Hp Hs. rewrite forallb_forall in Hall.
  specialize (Hall g ltac:(by apply list_elem_of_In)).
  rewrite (proj2 (Z.eqb_eq _ _) Hp), (proj2 (Z.ltb_lt _ _) Hs) in Hall. simpl in Hall. lia.
Qed.

(** The settlement's flush fails, the process restarts, both frames are
    redelivered and committed. *)
Definition demo_w1 : writer := demo_step initial (demo_funding 1) FailsEarly.
Definition demo_w2 : writer := demo_step (restart demo_w1 true) (demo_funding 1) (Commits 1).
Definition demo_w3 : writer := demo_step demo_w2 (demo_delete 11 2) (Commits 1).

Lemma demo_step_ok (allowed : answer -> Prop) J w f a : allowed a -> delivered J w f ->
  is_Some (on_frame 1 w f a a a) -> writer_step allowed J w (demo_step w f a).
Proof.
  intros Ha Hd [w' Hw]. unfold demo_step. rewrite Hw. simpl. eapply step_frame; eauto.
Qed.

Lemma demo_run : rtc (writer_step heard [demo_funding 1; demo_delete 11 2]) initial demo_w3.
Proof.
  apply (rtc_l _ _ demo_w1).
  { apply demo_step_ok; [done | apply delivered_check; [by left|reflexivity] | by vm_compute; eexists]. }
  apply (rtc_l _ _ (restart demo_w1 true)); [constructor|].
  apply (rtc_l _ _ demo_w2).
  { apply demo_step_ok; [done | apply delivered_check; [by left|reflexivity] | by vm_compute; eexists]. }
  apply rtc_once. apply demo_step_ok;
    [done | apply delivered_check; [right; by left|reflexivity] | by vm_compute; eexists].
Qed.

Lemma writer_exactly_once_witness : exists chunks,
  tx_rows <$> w_db demo_w3 = rows_of <$> chunks /\
  filter (from 3) (concat chunks) = [demo_funding 1; demo_delete 11 2].
Proof.
  destruct (writer_exactly_once _ demo_w3 demo_journal demo_run) as (_ & chunks & Hrows & Hp).
  exists chunks. split; [exact Hrows|]. rewrite Hp. reflexivity.
Defined.

Lemma funding_isolated_witness : exists chunks,
  Forall2 (fun tx chunk => tx_rows tx = rows_of chunk /\
    omap frame_funding chunk = option_list (tx_funding tx) /\
    (tx_funding tx <> None -> tx_rows tx = no_rows))
    (w_db (demo_step initial (demo_funding 1) (Commits 1))) chunks /\
  filter (from 3) (concat chunks) = [demo_funding 1].
Proof.
  destruct (funding_isolated [demo_funding 1; demo_delete 11 2]
              (demo_step initial (demo_funding 1) (Commits 1)) demo_journal) as (chunks & Htx & Hp).
  - apply rtc_once. apply demo_step_ok; [by eexists | apply delivered_check; [by left|reflexivity]
      | by vm_compute; eexists].
  - exists chunks. split; [exact Htx|]. rewrite Hp. reflexivity.
Defined.

(** A settlement whose transaction fails at the settlement or at the commit is
    dropped from the batch while its sequence number stays pending: the next
    commit moves the checkpoint past it and it is never applied. *)
Lemma failed_settlement_lost :
  let w := demo_step (demo_step initial (demo_funding 1) FailsLate) (demo_delete 11 2) (Commits 1) in
  default 0 (load_checkpoints (checkpoints (w_db w)) !! 3) = 2 /\
  tx_funding <$> w_db w = [None] /\
  (on_frame 1 w (demo_funding 1) (Commits 1) (Commits 1) (Commits 1)) ≫= (fun w' => Some (tx_funding <$> w_db w'))
    = Some [None].
Proof. vm_compute. done. Qed.

(** A second settlement pushed while the first is still pending replaces it. *)
Lemma pending_settlement_overwritten :
  let w := demo_step (demo_step initial (demo_funding 1) FailsEarly) (demo_funding 2) FailsEarly in
  let w := on_timer w true (Commits 1) in
  default 0 (load_checkpoints (checkpoints (w_db w)) !! 3) = 2 /\
  tx_funding <$> w_db w = [Some demo_payload].
Proof. vm_compute. done. Qed.

(** A start that could not read the checkpoints begins at zero and applies a
    settlement a second time. *)
Lemma restart_without_checkpoints_settles_twice :
  let w := demo_step (restart (demo_step initial (demo_funding 1) (Commits 1)) false)
             (demo_funding 1) (Commits 1) in
  tx_funding <$> w_db w = [Some demo_payload; Some demo_payload].
Proof. vm_compute. done. Qed.

(** A commit whose reply is lost: the rows stay in the batch and are committed
    again, here as one of the two of the second transaction; a settlement, which
    has left the batch, is not. *)
Lemma unheard_commit_repeats :
  let w := demo_step initial (demo_delete 11 1) CommitsUnheard in
  let w := demo_step w (demo_delete 12 2) (Commits 2) in
  (length ∘ br_deletes ∘ tx_rows) <$> w_db w = [1; 2]%nat /\
  tx_funding <$> w_db (on_timer (demo_step initial (demo_funding 1) CommitsUnheard) true (Commits 1)) = [Some demo_payload].
Proof. vm_compute. done. Qed.
