(* ===== verification/Snowflake.v ===== *)
(** The lock-free id generator ([src/src/desk/snowflake.rs]).

    One iteration of [next_id] reads the clock, loads the state word, computes
    the next one and tries to install it with a compare-and-swap.  Threads
    interleave at each of these accesses: they are the steps of a transition
    system whose log is the list of ids returned.  The theorem is that in every
    interleaving the ids are strictly increasing and carry the desk's number, as
    long as the clock never lags behind the state while the sequence is
    exhausted; two lemmas show what happens otherwise. *)
From Stdlib Require Import ZArith Lia.
From stdpp Require Import base numbers list gmap relations sorting.
From S2P Require Import Prelude.

#[local] Open Scope Z_scope.

Definition DESK_ID_BITS : Z := 15.
Definition TIMESTAMP_BITS : Z := 26.
Definition SEQUENCE_BITS : Z := 22.
Definition DESK_ID_SHIFT : Z := TIMESTAMP_BITS + SEQUENCE_BITS.
Definition TIMESTAMP_SHIFT : Z := SEQUENCE_BITS.
Definition SEQUENCE_MASK : Z := Z.shiftl 1 SEQUENCE_BITS - 1.
Definition TIMESTAMP_MASK : Z := Z.shiftl 1 TIMESTAMP_BITS - 1.
Definition DESK_ID_MASK : Z := Z.shiftl 1 DESK_ID_BITS - 1.

Record SnowflakeIdGenerator := mkSnowflake { sf_desk_id : Z; sf_state : Z }.

Module SnowflakeIdGenerator.
(** [new] at the clock reading [clock_ms]; [None] is the assertion's panic. *)
Definition new (desk_id clock_ms : Z) : option SnowflakeIdGenerator :=
  if Z.ltb desk_id (Z.shiftl 1 DESK_ID_BITS) then
    let initial_timestamp := Z.land clock_ms TIMESTAMP_MASK in
    Some (mkSnowflake desk_id (Z.lor (wrap_u64 (Z.shiftl initial_timestamp TIMESTAMP_SHIFT)) 0))
  else None.

(** The body of the loop up to the compare-and-swap: the timestamp and sequence
    to install, or [None] to spin. *)
Definition advance (clock_ms old_state : Z) : option (Z * Z) :=
  let now_ms := Z.land clock_ms TIMESTAMP_MASK in
  let old_timestamp := Z.shiftr old_state TIMESTAMP_SHIFT in
  let old_sequence := Z.land old_state SEQUENCE_MASK in
  if Z.ltb old_timestamp now_ms then Some (now_ms, 0)
  else if Z.eqb now_ms old_timestamp then
    if Z.leb SEQUENCE_MASK old_sequence then None
    else Some (old_timestamp, u64_add old_sequence 1)
  else Some (old_timestamp, u64_add old_sequence 1).

Definition new_state (timestamp sequence : Z) : Z :=
  Z.lor (wrap_u64 (Z.shiftl timestamp TIMESTAMP_SHIFT)) sequence.

Definition make_id (desk_id timestamp sequence : Z) : Z :=
  Z.lor (Z.lor (wrap_u64 (Z.shiftl desk_id DESK_ID_SHIFT))
               (wrap_u64 (Z.shiftl timestamp TIMESTAMP_SHIFT))) sequence.

(** [next_id] of a thread that runs alone, one clock reading per iteration;
    [None] when the readings run out. *)
Fixpoint next_id (g : SnowflakeIdGenerator) (clocks : list Z)
  : option (Z * SnowflakeIdGenerator * list Z) :=
  match clocks with
  | [] => None
  | c :: clocks =>
      match advance c (sf_state g) with
      | None => next_id g clocks
      | Some (ts, seq) =>
          Some (make_id (sf_desk_id g) ts seq, mkSnowflake (sf_desk_id g) (new_state ts seq), clocks)
      end
  end.

Fixpoint next_ids (g : SnowflakeIdGenerator) (clocks : list Z) (count : nat)
  : option (list Z * SnowflakeIdGenerator * list Z) :=
  match count with
  | O => Some ([], g, clocks)
  | S count =>
      '(id, g, clocks) ← next_id g clocks;
      '(ids, g, clocks) ← next_ids g clocks count;
      Some (id :: ids, g, clocks)
  end.

Definition parse (id : Z) : Z * Z * Z :=
  (Z.land (Z.shiftr id DESK_ID_SHIFT) DESK_ID_MASK,
   Z.land (Z.shiftr id TIMESTAMP_SHIFT) TIMESTAMP_MASK,
   Z.land id SEQUENCE_MASK).
End SnowflakeIdGenerator.

Import SnowflakeIdGenerator.

(** ** Threads *)

(** Where a thread is in its loop: between iterations, after the clock reading,
    or after the load of the state. *)
Inductive local := Idle | Read (clock_ms : Z) | Loaded (clock_ms old_state : Z).

Record system := mkSystem {
  sy_state : Z;
  sy_threads : gmap Z local;
  sy_log : list Z;
}.

Section threads.
Context (desk_id : Z).

Definition set_thread (s : system) (t : Z) (l : local) : system :=
  mkSystem (sy_state s) (<[t := l]> (sy_threads s)) (sy_log s).

Definition local_of (s : system) (t : Z) : local := default Idle (sy_threads s !! t).

(** The two lines of the compare-and-swap: install and return the id, or retry. *)
Inductive step : system -> system -> Prop :=
| step_read s t clock_ms : 0 <= clock_ms -> local_of s t = Idle -> step s (set_thread s t (Read clock_ms))
| step_load s t c : local_of s t = Read c -> step s (set_thread s t (Loaded c (sy_state s)))
| step_spin s t c old : local_of s t = Loaded c old -> advance c old = None ->
    step s (set_thread s t Idle)
| step_swap s t c old ts seq : local_of s t = Loaded c old -> advance c old = Some (ts, seq) ->
    sy_state s = old ->
    step s (mkSystem (new_state ts seq) (<[t := Idle]> (sy_threads s)) (sy_log s ++ [make_id desk_id ts seq]))
| step_retry s t c old ts seq : local_of s t = Loaded c old -> advance c old = Some (ts, seq) ->
    sy_state s <> old -> step s (set_thread s t Idle).

(** The clock is not behind the state while the sequence is exhausted. *)
Definition clock_sound (s : system) : Prop :=
  forall t c old, local_of s t = Loaded c old -> old = sy_state s ->
    Z.land c TIMESTAMP_MASK < Z.shiftr old TIMESTAMP_SHIFT -> Z.land old SEQUENCE_MASK < SEQUENCE_MASK.

Definition sound_step (s s' : system) : Prop := clock_sound s /\ step s s'.
End threads.

(** ** Bit fields *)

Lemma lor_shift a b n : 0 <= n -> 0 <= b < 2 ^ n -> Z.lor (Z.shiftl a n) b = a * 2 ^ n + b.
Proof.
  intros Hn Hb. rewrite <- Z.shiftl_mul_pow2 by done.
  assert (Hl : Z.land (Z.shiftl a n) b = 0).
  { apply Z.bits_inj'. intros i Hi. rewrite Z.land_spec, Z.bits_0.
    destruct (Z.lt_ge_cases i n); [by rewrite Z.shiftl_spec_low|].
    rewrite <- (Z.mod_small b (2 ^ n)), Z.mod_pow2_bits_high by lia. apply andb_false_r. }
  by rewrite <- Z.lxor_lor, Z.add_nocarry_lxor.
Qed.

Lemma mask_mod z n : 0 <= n -> Z.land z (Z.shiftl 1 n - 1) = z mod 2 ^ n.
Proof.
  intros Hn. rewrite Z.shiftl_mul_pow2, Z.mul_1_l by done. rewrite <- Z.land_ones by done.
  by rewrite Z.ones_equiv, <- Z.sub_1_r.
Qed.

Definition state_of (ts seq : Z) : Z := ts * 2 ^ 22 + seq.

Definition fields_ok (ts seq : Z) : Prop := 0 <= ts < 2 ^ 26 /\ 0 <= seq < 2 ^ 22.

Lemma shiftr_state ts seq : fields_ok ts seq -> Z.shiftr (state_of ts seq) TIMESTAMP_SHIFT = ts.
Proof.
  intros [Ht Hs]. unfold state_of. rewrite Z.shiftr_div_pow2 by done. change TIMESTAMP_SHIFT with 22.
  rewrite Z.div_add_l by lia. rewrite Z.div_small by lia. lia.
Qed.

Lemma sequence_of_state ts seq : fields_ok ts seq -> Z.land (state_of ts seq) SEQUENCE_MASK = seq.
Proof.
  intros [Ht Hs]. unfold SEQUENCE_MASK. rewrite mask_mod by done. unfold state_of.
  rewrite Z.add_comm, Z.mod_add by done. apply Z.mod_small. exact Hs.
Qed.

Lemma new_state_fields ts seq : fields_ok ts seq -> new_state ts seq = state_of ts seq.
Proof.
  intros [Ht Hs]. unfold new_state. rewrite wrap_u64_id.
  - apply lor_shift; done.
  - rewrite Z.shiftl_mul_pow2 by done. change TIMESTAMP_SHIFT with 22. unfold in_u64. machine.
Qed.

Lemma make_id_fields desk ts seq :
  0 <= desk < 2 ^ 15 -> fields_ok ts seq -> make_id desk ts seq = desk * 2 ^ 48 + state_of ts seq.
Proof.
  intros Hd Hf. unfold make_id. rewrite <- Z.lor_assoc.
  fold (new_state ts seq). rewrite new_state_fields by done. destruct Hf as [Ht Hs].
  rewrite wrap_u64_id.
  - apply lor_shift; [done|]. change DESK_ID_SHIFT with 48. unfold state_of. lia.
  - rewrite Z.shiftl_mul_pow2 by done. change DESK_ID_SHIFT with 48. machine.
Qed.

Lemma parse_make_id desk ts seq :
  0 <= desk < 2 ^ 15 -> fields_ok ts seq -> parse (make_id desk ts seq) = (desk, ts, seq).
Proof.
  intros Hd Hf. rewrite make_id_fields by done. destruct Hf as [Ht Hs].
  unfold parse, DESK_ID_MASK, TIMESTAMP_MASK, SEQUENCE_MASK.
  rewrite !mask_mod, !Z.shiftr_div_pow2 by done. unfold state_of.
  change DESK_ID_SHIFT with 48. change TIMESTAMP_SHIFT with 22.
  change DESK_ID_BITS with 15. change TIMESTAMP_BITS with 26. change SEQUENCE_BITS with 22.
  f_equal; [f_equal|]; Z.div_mod_to_equations; lia.
Qed.

(** Every state word splits into its fields. *)
Lemma state_split st : 0 <= st < 2 ^ 48 -> exists ts seq, fields_ok ts seq /\ st = state_of ts seq.
Proof.
  intros H. exists (st / 2 ^ 22), (st mod 2 ^ 22). unfold fields_ok, state_of.
  repeat split; Z.div_mod_to_equations; lia.
Qed.

Lemma clock_range c : 0 <= Z.land c TIMESTAMP_MASK < 2 ^ 26.
Proof. unfold TIMESTAMP_MASK. rewrite mask_mod by done. apply Z.mod_pos_bound. done. Qed.

(** What one iteration computes, on every branch. *)
Lemma advance_fields c ts seq :
  fields_ok ts seq ->
  advance c (state_of ts seq) =
    let now := Z.land c TIMESTAMP_MASK in
    if decide (ts < now) then Some (now, 0)
    else if decide (now = ts /\ seq = SEQUENCE_MASK) then None
    else Some (ts, seq + 1).
Proof.
  intros Hf. unfold advance. rewrite shiftr_state, sequence_of_state by done.
  cbv zeta. destruct (Z.ltb_spec ts (Z.land c TIMESTAMP_MASK)) as [Hlt|Hge].
  { by rewrite decide_True. }
  rewrite (decide_False (P := ts < _)) by lia. destruct Hf as [Ht Hs].
  assert (Hm : SEQUENCE_MASK = 2 ^ 22 - 1) by done.
  rewrite u64_add_id by machine.
  destruct (Z.eqb_spec (Z.land c TIMESTAMP_MASK) ts), (Z.leb_spec SEQUENCE_MASK seq).
  - rewrite decide_True by lia. done.
  - rewrite decide_False by lia. done.
  - rewrite decide_False by lia. done.
  - rewrite decide_False by lia. done.
Qed.

(** A successful iteration from a state whose sequence is not exhausted under a
    lagging clock moves the state forward. *)
Lemma advance_increases c st ts' seq' :
  0 <= st < 2 ^ 48 -> advance c st = Some (ts', seq') ->
  (Z.land c TIMESTAMP_MASK < Z.shiftr st TIMESTAMP_SHIFT -> Z.land st SEQUENCE_MASK < SEQUENCE_MASK) ->
  fields_ok ts' seq' /\ st < state_of ts' seq'.
Proof.
  intros Hst Ha Hg. destruct (state_split st Hst) as (ts & seq & Hf & ->).
  rewrite shiftr_state, sequence_of_state in Hg by done.
  rewrite advance_fields in Ha by done. cbv zeta in Ha.
  pose proof (clock_range c) as Hc. destruct Hf as [Ht Hs].
  assert (Hm : SEQUENCE_MASK = 2 ^ 22 - 1) by done. unfold fields_ok, state_of.
  repeat case_decide; simplify_eq; lia.
Qed.

Section uniqueness.
Context (desk_id : Z) (Hdesk : 0 <= desk_id < 2 ^ 15).

(** Every id issued so far is at most the id of the current state, and they are
    in increasing order. *)
Record issued (s : system) : Prop := mkIssued {
  is_state : 0 <= sy_state s < 2 ^ 48;
  is_sorted : StronglySorted Z.lt (sy_log s);
  is_below : Forall (fun id => desk_id * 2 ^ 48 < id <= desk_id * 2 ^ 48 + sy_state s) (sy_log s);
}.

Lemma issued_step s s' : issued s -> sound_step desk_id s s' -> issued s'.
Proof.
  intros [Hst Hso Hbe] [Hg Hs]. destruct Hs as [| | |s t c old ts seq Hl Ha Ho|]; try by constructor.
  subst old. destruct (advance_increases _ _ _ _ Hst Ha (Hg _ _ _ Hl eq_refl)) as [Hf Hlt].
  split; cbn [sy_state sy_log].
  - rewrite new_state_fields by done. destruct Hf as [Ht Hs]. unfold state_of in *. lia.
  - apply sorted_snoc; [done|]. rewrite make_id_fields by done.
    eapply Forall_impl; [exact Hbe|]. cbv beta. lia.
  - rewrite new_state_fields, make_id_fields by done. apply Forall_app. split.
    + eapply Forall_impl; [exact Hbe|]. cbv beta. lia.
    + constructor; [|constructor]. lia.
Qed.

Lemma issued_reachable s s' : issued s -> rtc (sound_step desk_id) s s' -> issued s'.
Proof. intros Hi. induction 1; [done|eauto using issued_step]. Qed.
End uniqueness.

(** A fresh generator, with no call in progress. *)
Definition start (g : SnowflakeIdGenerator) : system := mkSystem (sf_state g) ∅ [].

Lemma new_state_range desk clock g : new desk clock = Some g -> 0 <= sf_state g < 2 ^ 48 /\ sf_desk_id g = desk /\ desk < 2 ^ 15.
Proof.
  unfold new. destruct (Z.ltb_spec desk (Z.shiftl 1 DESK_ID_BITS)) as [Hd|]; [|done].
  intros [= <-]. cbn. pose proof (clock_range clock) as Hc.
  change (Z.lor (wrap_u64 (Z.shiftl (Z.land clock TIMESTAMP_MASK) TIMESTAMP_SHIFT)) 0)
    with (new_state (Z.land clock TIMESTAMP_MASK) 0).
  rewrite new_state_fields by (split; lia). unfold state_of. split; [lia|]. split; [done|].
  exact Hd.
Qed.

Lemma issued_desk desk id st : 0 <= desk < 2 ^ 15 -> 0 <= st < 2 ^ 48 ->
  desk * 2 ^ 48 < id <= desk * 2 ^ 48 + st -> (parse id).1.1 = desk /\ in_u64 id.
Proof.
  intros Hd Hst Hid. unfold parse, DESK_ID_MASK. cbn [fst]. rewrite mask_mod, Z.shiftr_div_pow2 by done.
  change DESK_ID_SHIFT with 48. change DESK_ID_BITS with 15. split; [|machine].
  Z.div_mod_to_equations; lia.
Qed.

(** C29: In every interleaving of threads calling [next_id] on one generator,
    where no thread swaps an exhausted sequence under a lagging clock, the ids
    returned are strictly increasing - no id is ever returned twice - and each
    of them carries the desk's number, so that two desks never issue the same
    id. *)
Theorem snowflake_unique desk clock g s :
  0 <= desk -> new desk clock = Some g -> rtc (sound_step desk) (start g) s ->
  StronglySorted Z.lt (sy_log s) /\ Forall (fun id => (parse id).1.1 = desk /\ in_u64 id) (sy_log s).
Proof.
  intros Hd Hn Hr. destruct (new_state_range _ _ _ Hn) as (Hst & _ & Hlt).
  assert (Hi : issued desk s).
  { eapply issued_reachable; [lia| |exact Hr]. split; [done|constructor|constructor]. }
  destruct Hi as [Hs Hso Hbe]. split; [done|]. eapply Forall_impl; [exact Hbe|]. cbv beta.
  intros id Hid. by eapply issued_desk.
Qed.

Lemma low_sequence_sound s : Z.land (sy_state s) SEQUENCE_MASK < SEQUENCE_MASK -> clock_sound s.
Proof. intros H t c old _ -> _. exact H. Qed.

(** Two threads race for the state of a generator made at 999 ms: both read the
    clock and load the state, the first swaps, the second retries. *)
Lemma snowflake_unique_witness :
  exists g s, new 7 999 = Some g /\ rtc (sound_step 7) (start g) s /\
    sy_log s = [make_id 7 1000 0; make_id 7 1000 1] /\
    StronglySorted Z.lt (sy_log s) /\ Forall (fun id => (parse id).1.1 = 7 /\ in_u64 id) (sy_log s).
Proof.
  eexists. eexists. split; [reflexivity|].
  assert (Hlow : forall a b, step 7 a b -> Z.land (sy_state a) SEQUENCE_MASK < SEQUENCE_MASK -> sound_step 7 a b).
  { intros a b Hs Hb. split; [by apply low_sequence_sound|done]. }
  match goal with |- ?A /\ ?B /\ _ => assert (H : A /\ B) end.
  { split.
    - eapply rtc_l; [apply Hlow; [apply (step_read 7 _ 1 1000); [lia|reflexivity]|reflexivity]|].
      eapply rtc_l; [apply Hlow; [apply (step_read 7 _ 2 1000); [lia|reflexivity]|reflexivity]|].
      eapply rtc_l; [apply Hlow; [apply (step_load 7 _ 1 1000); reflexivity|reflexivity]|].
      eapply rtc_l; [apply Hlow; [apply (step_load 7 _ 2 1000); reflexivity|reflexivity]|].
      eapply rtc_l; [apply Hlow; [eapply (step_swap 7 _ 1); reflexivity|reflexivity]|].
      eapply rtc_l; [apply Hlow; [eapply (step_retry 7 _ 2); [reflexivity|reflexivity|by vm_compute]|reflexivity]|].
      eapply rtc_l; [apply Hlow; [apply (step_read 7 _ 2 1000); [lia|reflexivity]|reflexivity]|].
      eapply rtc_l; [apply Hlow; [apply (step_load 7 _ 2 1000); reflexivity|reflexivity]|].
      eapply rtc_l; [apply Hlow; [eapply (step_swap 7 _ 2); reflexivity|reflexivity]|].
      apply rtc_refl.
    - vm_compute. reflexivity. }
  destruct H as [Hr Hl]. split; [exact Hr|]. split; [exact Hl|].
  apply (snowflake_unique 7 999 _ _ ltac:(lia) eq_refl Hr).
Defined.

(** A generator called alone returns as soon as the clock leaves a millisecond
    whose sequence is exhausted, and returns at once otherwise. *)
Lemma next_id_total g c clocks ts seq :
  fields_ok ts seq -> sf_state g = state_of ts seq ->
  Z.land c TIMESTAMP_MASK <> ts \/ seq < SEQUENCE_MASK -> is_Some (next_id g (c :: clocks)).
Proof.
  intros Hf Hg Hc. cbn [next_id]. rewrite Hg, advance_fields by done. cbv zeta.
  repeat case_decide; [by eauto| |by eauto]. lia.
Qed.

(** The branch for a clock that went backwards has no overflow check: with the
    sequence exhausted and an odd timestamp the carry is lost in the [|], and
    the id [(ts, 0)] is issued again. *)
Lemma regression_repeats_id desk ts clock :
  0 <= desk < 2 ^ 15 -> 0 <= ts < 2 ^ 26 -> Z.odd ts = true -> Z.land clock TIMESTAMP_MASK < ts ->
  exists seq, advance clock (state_of ts SEQUENCE_MASK) = Some (ts, seq) /\
    new_state ts seq = state_of ts 0 /\ make_id desk ts seq = make_id desk ts 0.
Proof.
  intros Hd Ht Hodd Hc. assert (Hf : fields_ok ts SEQUENCE_MASK) by (split; done).
  rewrite advance_fields by done. cbv zeta.
  rewrite (decide_False (P := ts < _)), decide_False by lia.
  exists (SEQUENCE_MASK + 1). split; [done|].
  assert (Habs : Z.lor (wrap_u64 (Z.shiftl ts TIMESTAMP_SHIFT)) (SEQUENCE_MASK + 1)
                 = wrap_u64 (Z.shiftl ts TIMESTAMP_SHIFT)).
  { change (SEQUENCE_MASK + 1) with (Z.shiftl 1 TIMESTAMP_SHIFT).
    rewrite wrap_u64_id by (rewrite Z.shiftl_mul_pow2 by done; change TIMESTAMP_SHIFT with 22; machine).
    rewrite <- Z.shiftl_lor. f_equal.
    rewrite (Z.div_mod ts 2) by done. rewrite Zmod_odd, Hodd.
    replace (2 * (ts / 2) + 1) with (Z.lor (Z.shiftl (ts / 2) 1) 1) by (rewrite lor_shift by done; lia).
    by rewrite <- Z.lor_assoc. }
  split.
  - rewrite <- new_state_fields by (split; lia). unfold new_state. by rewrite Habs, Z.lor_0_r.
  - unfold make_id. by rewrite <- !Z.lor_assoc, Habs, Z.lor_0_r.
Qed.

(** The 26 timestamp bits count milliseconds and come round after less than 19
    hours: from then on every call takes the branch above. *)
Lemma timestamp_wraps clock : Z.land (clock + 2 ^ 26) TIMESTAMP_MASK = Z.land clock TIMESTAMP_MASK.
Proof.
  unfold TIMESTAMP_MASK. rewrite !mask_mod by done. change TIMESTAMP_BITS with 26.
  rewrite <- (Z.mul_1_l (2 ^ 26)) at 1. by apply Z.mod_add.
Qed.
