(* ===== verification/Leader.v ===== *)
(** Leader election with fencing tokens ([src/src/desk/leader.rs], the lease task
    and [LeadershipHandle] of [src/src/bin/exchange_engine.rs], the fencing check
    of the receive loop of [src/src/bin/desk_server.rs]).

    The lease is one row of a PostgreSQL table; the engine processes that renew
    it, the messages they publish and the desk that receives them form a step
    relation.  Times of the database clock are integers (microseconds). *)
From Stdlib Require Import ZArith Lia String.
From stdpp Require Import base numbers list gmap relations sorting.
From S2P Require Import Prelude Bytes Fixed Text.

#[local] Open Scope Z_scope.

(** ** The lease table *)

Definition LEADER_ROLE_ENGINE : bytes := str "engine".
#[global] Arguments LEADER_ROLE_ENGINE : simpl never.

(** A row of [leader_lease] without its key, the role. *)
Record LeaseRow := mkLeaseRow { lr_holder : bytes; lr_epoch : Z; lr_expires_at : Z }.

Abbreviation leases := (gmap bytes LeaseRow).

Record Leadership := mkLeadership { l_epoch : Z }.

(** The statement of [try_acquire] at database time [now]: an upsert that takes a
    free, expired or own lease, keeps the epoch of a renewal and increments it
    otherwise.  [Err] is a failed statement ([BIGINT] out of range), which changes
    nothing; an unreachable database is [lease_tick]'s [Err]. *)
Definition try_acquire (now : Z) (t : leases) (role holder : bytes) (ttl : Z)
  : leases * result (option Leadership) unit :=
  match t !! role with
  | None => (<[role := mkLeaseRow holder 1 (now + ttl)]> t, Ok (Some (mkLeadership 1)))
  | Some r =>
      if bool_decide (lr_holder r = holder) || Z.ltb (lr_expires_at r) now then
        let epoch := if bool_decide (lr_holder r = holder) then lr_epoch r else lr_epoch r + 1 in
        if Z.leb epoch i64_max
        then (<[role := mkLeaseRow holder epoch (now + ttl)]> t, Ok (Some (mkLeadership epoch)))
        else (t, Err ())
      else (t, Ok None)
  end.

Definition release (now : Z) (t : leases) (role holder : bytes) : leases :=
  match t !! role with
  | Some r =>
      if bool_decide (lr_holder r = holder)
      then <[role := mkLeaseRow (lr_holder r) (lr_epoch r) now]> t else t
  | None => t
  end.

(** ** Stamps *)

Definition EPOCH_SHIFT : Z := 48.
Definition SEQ_MASK : Z := Z.shiftl 1 EPOCH_SHIFT - 1.

Definition stamp_epoch (epoch seq : Z) : Z :=
  Z.lor (Z.shiftl (Z.land (wrap_u64 epoch) 65535) EPOCH_SHIFT) (Z.land seq SEQ_MASK).

Definition split_epoch (stamped : Z) : Z * Z :=
  (Z.shiftr stamped EPOCH_SHIFT mod 65536, Z.land stamped SEQ_MASK).

(** ** The lease task of an engine process *)

(** [LeaseGuard]: instants are readings of the monotonic clock. *)
Record LeaseGuard := mkLeaseGuard { lg_last_renew_success : Z; lg_ttl : Z }.

Definition LeaseGuard_new (now ttl : Z) : LeaseGuard := mkLeaseGuard now ttl.
Definition record_renewal (now : Z) (g : LeaseGuard) : LeaseGuard := mkLeaseGuard now (lg_ttl g).
Definition is_lease_valid (now : Z) (g : LeaseGuard) : bool :=
  Z.ltb (Z.max 0 (now - lg_last_renew_success g)) (lg_ttl g).

(** The variables of the task: [was_leader] and the atomic of the
    [LeadershipHandle]; [running] is false once the process has exited. *)
Record Node := mkNode { n_running : bool; n_was_leader : bool; n_epoch : Z }.

Definition Node_new : Node := mkNode true false (-1).

(** [LeadershipHandle::current_epoch] *)
Definition current_epoch (n : Node) : option Z :=
  if Z.leb 0 (n_epoch n) then Some (n_epoch n) else None.

(** One iteration of the task, on the answer of [try_acquire]. *)
Definition lease_tick (n : Node) (answer : result (option Leadership) unit) : Node :=
  match answer with
  | Ok (Some l) => mkNode (n_running n) true (l_epoch l)
  | Ok None =>
      if n_was_leader n then mkNode false true (n_epoch n)
      else mkNode (n_running n) (n_was_leader n) (-1)
  | Err _ => if n_was_leader n then mkNode false true (n_epoch n) else n
  end.

(** ** The receiving desk *)

(** [last_order_update_epoch], [last_order_update_seq] and the two counters. *)
Record Fence := mkFence {
  f_last_epoch : Z; f_last_seq : Z; f_fenced_drops : Z; f_gaps : Z
}.

Definition Fence_new : Fence := mkFence 0 0 0 0.

(** The head of the receive loop: the new state and whether the message is
    processed further ([false] is the [continue] of a fenced message). *)
Definition fence (f : Fence) (sequence : Z) : Fence * bool :=
  if Z.eqb sequence 0 then (f, true)
  else
    let '(epoch, seq) := split_epoch sequence in
    if Z.ltb epoch (f_last_epoch f) then
      (mkFence (f_last_epoch f) (f_last_seq f) (u64_add (f_fenced_drops f) 1) (f_gaps f), false)
    else
      let f := if Z.ltb (f_last_epoch f) epoch
               then mkFence epoch 0 (f_fenced_drops f) (f_gaps f) else f in
      let expected := u64_saturating_add (f_last_seq f) 1 in
      let gaps := if negb (Z.eqb seq expected) then u64_add (f_gaps f) 1 else f_gaps f in
      (mkFence (f_last_epoch f) seq (f_fenced_drops f) gaps, true).

(** ** Runs *)

(** Engine processes by holder name, messages in flight with their publisher,
    the fence of one desk and the messages that passed it. *)
Record World := mkWorld {
  w_now : Z; w_leases : leases; w_nodes : gmap bytes Node;
  w_wire : list (bytes * Z); w_fence : Fence; w_accepted : list (bytes * Z)
}.

Definition World_init (now : Z) : World := mkWorld now ∅ ∅ [] Fence_new [].

(** Messages may be delayed, reordered, lost or delivered again.  A process is
    known by its holder name, [engine-<process id>-<HOSTNAME>] in
    [src/src/bin/exchange_engine.rs]; no two processes have the same one (see
    [shared_name_shares_epoch]). *)
Inductive step (w : World) : World -> Prop :=
| Start h : w_nodes w !! h = None ->
    step w (mkWorld (w_now w) (w_leases w) (<[h := Node_new]> (w_nodes w)) (w_wire w) (w_fence w)
              (w_accepted w))
| Pass d : 0 <= d ->
    step w (mkWorld (w_now w + d) (w_leases w) (w_nodes w) (w_wire w) (w_fence w) (w_accepted w))
| Renew h n ttl t answer : w_nodes w !! h = Some n -> n_running n = true ->
    try_acquire (w_now w) (w_leases w) LEADER_ROLE_ENGINE h ttl = (t, answer) ->
    step w (mkWorld (w_now w) t (<[h := lease_tick n answer]> (w_nodes w)) (w_wire w) (w_fence w)
              (w_accepted w))
| Unreachable h n : w_nodes w !! h = Some n -> n_running n = true ->
    step w (mkWorld (w_now w) (w_leases w) (<[h := lease_tick n (Err ())]> (w_nodes w)) (w_wire w)
              (w_fence w) (w_accepted w))
| Release h :
    step w (mkWorld (w_now w) (release (w_now w) (w_leases w) LEADER_ROLE_ENGINE h) (w_nodes w)
              (w_wire w) (w_fence w) (w_accepted w))
| Publish h n e seq : w_nodes w !! h = Some n -> n_running n = true -> current_epoch n = Some e ->
    1 <= seq < 2 ^ 48 ->
    step w (mkWorld (w_now w) (w_leases w) (w_nodes w) (w_wire w ++ [(h, stamp_epoch e seq)])
              (w_fence w) (w_accepted w))
| Deliver h s f passed : (h, s) ∈ w_wire w -> fence (w_fence w) s = (f, passed) ->
    step w (mkWorld (w_now w) (w_leases w) (w_nodes w) (w_wire w) f
              (if passed then w_accepted w ++ [(h, s)] else w_accepted w)).

Definition reachable (w : World) : Prop := exists now, rtc step (World_init now) w.

(** The epoch a message carries. *)
Definition epoch_of (m : bytes * Z) : Z := (split_epoch m.2).1.
#[global] Arguments epoch_of : simpl never.

(** ** Stamps compare like pairs *)

Lemma stamp_value e seq : 0 <= e <= 65535 -> 0 <= seq < 2 ^ 48 ->
  stamp_epoch e seq = e * 2 ^ 48 + seq.
Proof.
  intros He Hs. unfold stamp_epoch, SEQ_MASK, EPOCH_SHIFT. rewrite wrap_u64_id by (machine_unfold; lia).
  change 65535 with (Z.ones 16). change (Z.shiftl 1 48 - 1) with (Z.ones 48).
  rewrite !Z.land_ones by lia. rewrite !Z.mod_small by lia. rewrite Z.shiftl_mul_pow2 by lia.
  rewrite <- Z.lxor_lor, <- Z.add_nocarry_lxor; [done| |];
    (apply Z.bits_inj_0; intros i; rewrite Z.land_spec;
     destruct (Z.ltb_spec i 48) as [Hi|Hi];
     [rewrite Z.mul_pow2_bits_low by lia; done|
      rewrite (Z.bits_above_log2 seq i); [apply andb_false_r|lia|];
      destruct (Z.eq_dec seq 0) as [->|]; [simpl; lia|apply Z.log2_lt_pow2; [lia|]];
      apply Z.lt_le_trans with (2 ^ 48); [lia|apply Z.pow_le_mono_r; lia]]).
Qed.

Lemma split_stamp e seq : 0 <= e <= 65535 -> 0 <= seq < 2 ^ 48 ->
  split_epoch (stamp_epoch e seq) = (e, seq).
Proof.
  intros He Hs. rewrite stamp_value by done. unfold split_epoch, SEQ_MASK, EPOCH_SHIFT.
  change (Z.shiftl 1 48 - 1) with (Z.ones 48). rewrite Z.land_ones, Z.shiftr_div_pow2 by lia.
  rewrite Z.div_add_l, (Z.div_small seq) by lia. rewrite Z.add_0_r, Z.mod_small by lia.
  rewrite Z.add_comm, Z.mod_add, Z.mod_small by lia. done.
Qed.

(** Every message of an epoch compares above every message of an earlier one. *)
Lemma stamp_lt e1 s1 e2 s2 : 0 <= e1 <= 65535 -> 0 <= e2 <= 65535 ->
  0 <= s1 < 2 ^ 48 -> 0 <= s2 < 2 ^ 48 ->
  stamp_epoch e1 s1 < stamp_epoch e2 s2 <-> e1 < e2 \/ (e1 = e2 /\ s1 < s2).
Proof. intros. rewrite !stamp_value by done. lia. Qed.

(** After 65535 changes of ownership the stamp starts over at epoch 0, below all
    that the consumers have seen. *)
Lemma stamp_wraps seq : 0 <= seq < 2 ^ 48 -> stamp_epoch 65536 seq = stamp_epoch 0 seq.
Proof. intros. reflexivity. Qed.

(** ** The invariant *)

(** [owner e] is the process that held epoch [e]. *)
Record inv (owner : gmap Z bytes) (w : World) : Prop := {
  inv_row : match w_leases w !! LEADER_ROLE_ENGINE with
            | None => owner = ∅
            | Some r => owner !! lr_epoch r = Some (lr_holder r) /\
                forall e h, owner !! e = Some h -> 1 <= e <= lr_epoch r
            end;
  inv_nodes h n e : w_nodes w !! h = Some n -> current_epoch n = Some e -> owner !! e = Some h;
  inv_wire h s : (h, s) ∈ w_wire w ->
    exists e seq, owner !! e = Some h /\ 1 <= seq < 2 ^ 48 /\ s = stamp_epoch e seq;
  inv_accepted m : m ∈ w_accepted w -> m ∈ w_wire w /\ epoch_of m <= f_last_epoch (w_fence w);
  inv_sorted : StronglySorted Z.le (epoch_of <$> w_accepted w)
}.

Lemma inv_init now : inv ∅ (World_init now).
Proof. split; cbn; try done; try (intros; set_solver). constructor. Qed.

(** The answers of [try_acquire]: the table is left alone, the epoch is kept by
    its owner, or a fresh epoch is taken. *)
Lemma try_acquire_inv now t h ttl t' a :
  try_acquire now t LEADER_ROLE_ENGINE h ttl = (t', a) ->
  (t' = t /\ match a with Ok (Some _) => False | _ => True end) \/
  exists r' e, t' = <[LEADER_ROLE_ENGINE := r']> t /\ a = Ok (Some (mkLeadership e)) /\
    lr_holder r' = h /\ lr_epoch r' = e /\
    match t !! LEADER_ROLE_ENGINE with
    | None => e = 1
    | Some r => (lr_holder r = h /\ e = lr_epoch r) \/ e = lr_epoch r + 1
    end.
Proof.
  unfold try_acquire. destruct (t !! LEADER_ROLE_ENGINE) as [r|] eqn:Hr.
  2:{ intros [= <- <-]. right. eexists _, 1. split_and!; done. }
  destruct (_ || _) eqn:Hc; [|intros [= <- <-]; by left].
  destruct (Z.leb _ _); intros [= <- <-]; [|by left].
  right. eexists _, _. split_and!; [done..|]. case_bool_decide; auto.
Qed.

Lemma fence_spec f m f' b : fence f m.2 = (f', b) -> m.2 <> 0 ->
  f_last_epoch f <= f_last_epoch f' /\
  if b then f_last_epoch f' = epoch_of m else f_last_epoch f' = f_last_epoch f.
Proof.
  unfold fence, epoch_of. intros H Hm. destruct (Z.eqb_spec m.2 0); [done|].
  destruct (split_epoch m.2) as [e s]. cbn [fst].
  destruct (Z.ltb_spec e (f_last_epoch f)); [injection H as <- <-; cbn; lia|].
  destruct (Z.ltb_spec (f_last_epoch f) e); injection H as <- <-; cbn; lia.
Qed.

Lemma stamp_nonzero e seq : 1 <= seq < 2 ^ 48 -> stamp_epoch e seq <> 0.
Proof.
  unfold stamp_epoch, SEQ_MASK, EPOCH_SHIFT. intros Hs [_ H]%Z.lor_eq_0_iff. revert H.
  change (Z.shiftl 1 48 - 1) with (Z.ones 48). rewrite Z.land_ones, Z.mod_small by lia. lia.
Qed.

(** A node that takes part in an election: its new epoch, if any, is its own. *)
Lemma lease_tick_epoch n a e : current_epoch (lease_tick n a) = Some e ->
  current_epoch n = Some e \/ exists l, a = Ok (Some l) /\ l_epoch l = e.
Proof.
  destruct a as [[l|]|[]]; simpl.
  - unfold current_epoch. cbn. destruct (Z.leb _ _); [|done]. intros [= <-]. eauto.
  - destruct (n_was_leader n); [by left|done].
  - destruct (n_was_leader n); by left.
Qed.

(** Changing the lease and one node, with the owners extended. *)
Lemma inv_change owner owner' w t h n : inv owner w -> owner ⊆ owner' ->
  match t !! LEADER_ROLE_ENGINE with
  | None => owner' = ∅
  | Some r => owner' !! lr_epoch r = Some (lr_holder r) /\
      forall e h, owner' !! e = Some h -> 1 <= e <= lr_epoch r
  end ->
  (forall e, current_epoch n = Some e -> owner' !! e = Some h) ->
  inv owner' (mkWorld (w_now w) t (<[h := n]> (w_nodes w)) (w_wire w) (w_fence w) (w_accepted w)).
Proof.
  intros I Hsub Hrow Hn. split; cbn.
  - done.
  - intros h' n' e. rewrite lookup_insert_Some. intros [[<- <-]|[_ Hh]] He; [by apply Hn|].
    eapply lookup_weaken; [by eapply (inv_nodes _ _ I)|done].
  - intros h' s (e & seq & Ho & ?)%(inv_wire _ _ I). exists e, seq.
    split; [by eapply lookup_weaken|done].
  - apply I.
  - apply I.
Qed.

Lemma inv_renew owner w h n ttl t a : inv owner w -> w_nodes w !! h = Some n ->
  try_acquire (w_now w) (w_leases w) LEADER_ROLE_ENGINE h ttl = (t, a) ->
  exists owner', inv owner' (mkWorld (w_now w) t (<[h := lease_tick n a]> (w_nodes w)) (w_wire w)
    (w_fence w) (w_accepted w)).
Proof.
  intros I Hn [[-> Ha]|(r' & e & -> & -> & Hh & He & Hcase)]%try_acquire_inv.
  - exists owner. eapply inv_change; [done|done|apply I|]. intros e [He|(l & -> & _)]%lease_tick_epoch; [|done].
    by eapply (inv_nodes _ _ I).
  - pose proof (inv_row _ _ I) as Hrow. exists (<[e := h]> owner).
    assert (owner !! e = None \/ owner !! e = Some h) as Ho.
    { destruct (w_leases w !! LEADER_ROLE_ENGINE) as [r|]; [|subst owner; left; apply lookup_empty].
      destruct Hrow as [Hr Hall]. destruct Hcase as [[<- ->]| ->]; [by right|]. left.
      destruct (owner !! (lr_epoch r + 1)) eqn:E; [|done]. apply Hall in E. lia. }
    assert (owner ⊆ <[e := h]> owner) as Hsub.
    { destruct Ho as [Ho|Ho]; [by apply insert_subseteq|by rewrite insert_id]. }
    eapply inv_change; [done|done| |].
    + rewrite lookup_insert_eq, He, Hh, lookup_insert_eq. split; [done|]. intros e' h'.
      rewrite lookup_insert_Some. destruct (w_leases w !! LEADER_ROLE_ENGINE) as [r|].
      * destruct Hrow as [Hr Hall]. pose proof (Hall _ _ Hr). intros [[<- _]|[_ H']]; [lia|].
        apply Hall in H'. lia.
      * subst owner. rewrite lookup_empty. intros [[<- _]|[_ H']]; [lia|done].
    + intros e' [He'|(l & [= <-] & He')]%lease_tick_epoch.
      * eapply lookup_weaken; [by eapply (inv_nodes _ _ I)|done].
      * cbn in He'. subst e'. apply lookup_insert_eq.
Qed.

Lemma inv_release owner w h : inv owner w ->
  inv owner (mkWorld (w_now w) (release (w_now w) (w_leases w) LEADER_ROLE_ENGINE h) (w_nodes w)
    (w_wire w) (w_fence w) (w_accepted w)).
Proof.
  intros I. pose proof (inv_row _ _ I) as Hrow. split; cbn; try apply I. unfold release.
  destruct (w_leases w !! LEADER_ROLE_ENGINE) as [r|] eqn:Hr; rewrite ?Hr; [|done].
  destruct (bool_decide _); [by rewrite lookup_insert_eq|by rewrite Hr].
Qed.

Lemma inv_deliver owner w h s f b : inv owner w -> (h, s) ∈ w_wire w ->
  fence (w_fence w) s = (f, b) ->
  inv owner (mkWorld (w_now w) (w_leases w) (w_nodes w) (w_wire w) f
    (if b then w_accepted w ++ [(h, s)] else w_accepted w)).
Proof.
  intros I Hin Hf. destruct (inv_wire _ _ I _ _ Hin) as (e & seq & _ & Hseq & Hs).
  destruct (fence_spec (w_fence w) (h, s) f b Hf) as [Hmono Hlast]; [subst s; by apply stamp_nonzero|].
  pose proof (inv_accepted _ _ I) as Hacc. split; cbn; try apply I.
  - intros m. destruct b; cbn in Hlast;
      [rewrite elem_of_app, list_elem_of_singleton; intros [Hm| ->]|intros Hm];
      [|split; [done|lia]|]; apply Hacc in Hm as [? ?]; split; try done; lia.
  - destruct b; [|apply I]. cbn in Hlast. rewrite fmap_app. apply sorted_snoc; [apply I|]. apply Forall_forall.
    intros x (m & -> & Hm)%list_elem_of_fmap. apply Hacc in Hm as [_ Hm]. cbn in *. lia.
Qed.

Lemma inv_step owner w w' : inv owner w -> step w w' -> exists owner', inv owner' w'.
Proof.
  intros I H. destruct H as [h Hn|d Hd|h n ttl t a Hn _ Ha|h n Hn _|h|h n e seq Hn _ He Hs|h s f b Hin Hf].
  - exists owner. eapply inv_change; [done|done|apply I|done].
  - exists owner. destruct I. by split.
  - by eapply inv_renew.
  - exists owner. eapply inv_change; [done|done|apply I|].
    intros e [He|(l & ? & _)]%lease_tick_epoch; [|done]. by eapply (inv_nodes _ _ I).
  - exists owner. by apply inv_release.
  - exists owner. pose proof (inv_nodes _ _ I _ _ _ Hn He). split; cbn; try apply I.
    + intros h' s'. rewrite elem_of_app, list_elem_of_singleton.
      intros [Hw|[= -> ->]]; [by apply (inv_wire _ _ I)|eauto].
    + intros m Hm. apply (inv_accepted _ _ I) in Hm as [? ?]. rewrite elem_of_app. auto.
  - exists owner. by eapply inv_deliver.
Qed.

Lemma inv_reachable w : reachable w -> exists owner, inv owner w.
Proof.
  intros [now Hr]. assert (exists owner, inv owner (World_init now)) as HI by eauto using inv_init.
  induction Hr as [w|w1 w2 w3 Hs _ IH]; [done|]. destruct HI as [owner I].
  apply IH. by eapply inv_step.
Qed.

(** C34: Fencing.  However renewals, takeovers, failures, publications and
    deliveries interleave, and whatever is delayed or delivered twice, while the
    lease has changed hands fewer than 65536 times and processes have different
    holder names: no two engine processes ever hold the same epoch; the epochs of the messages the desk lets through never go
    back; and all messages of one epoch come from a single process. *)
Theorem leader_fencing w : reachable w ->
  (forall r, w_leases w !! LEADER_ROLE_ENGINE = Some r -> lr_epoch r <= 65535) ->
  (forall h1 n1 h2 n2 e, w_nodes w !! h1 = Some n1 -> w_nodes w !! h2 = Some n2 ->
     current_epoch n1 = Some e -> current_epoch n2 = Some e -> h1 = h2) /\
  StronglySorted Z.le (epoch_of <$> w_accepted w) /\
  (forall m1 m2, m1 ∈ w_accepted w -> m2 ∈ w_accepted w -> epoch_of m1 = epoch_of m2 -> m1.1 = m2.1).
Proof.
  intros [owner I]%inv_reachable Hb. split_and!.
  - intros h1 n1 h2 n2 e H1 H2 He1 He2.
    pose proof (inv_nodes _ _ I _ _ _ H1 He1). pose proof (inv_nodes _ _ I _ _ _ H2 He2). congruence.
  - apply I.
  - assert (forall m, m ∈ w_accepted w -> owner !! epoch_of m = Some m.1) as Hown.
    { intros [h s] [Hm _]%(inv_accepted _ _ I). destruct (inv_wire _ _ I _ _ Hm) as (e & seq & Ho & Hs & ->).
      unfold epoch_of. cbn [fst snd]. pose proof (inv_row _ _ I) as Hrow.
      destruct (w_leases w !! LEADER_ROLE_ENGINE) as [r|]; [|subst owner; by rewrite lookup_empty in Ho].
      destruct Hrow as [_ Hall]. apply Hall in Ho as Hr. specialize (Hb _ eq_refl).
      by rewrite split_stamp by lia. }
    intros m1 m2 H1 H2 He. apply Hown in H1, H2. rewrite He in H1. congruence.
Qed.

(** A failover: the second process takes the expired lease of the first, and a
    late message of the first is dropped. *)
Definition demo_a : bytes := str "engine-1-a".
Definition demo_b : bytes := str "engine-1-b".
Definition demo_failover : World :=
  mkWorld 20 {[LEADER_ROLE_ENGINE := mkLeaseRow demo_b 2 30]}
    (<[demo_b := mkNode true true 2]> {[demo_a := mkNode true true 1]})
    [(demo_a, stamp_epoch 1 1); (demo_b, stamp_epoch 2 1)] (mkFence 2 1 1 0)
    [(demo_a, stamp_epoch 1 1); (demo_b, stamp_epoch 2 1)].

Ltac world := cbn [w_now w_leases w_nodes w_wire w_fence w_accepted].

Lemma demo_failover_reachable : reachable demo_failover.
Proof.
  exists 0. unfold World_init.
  eapply rtc_l; [apply (Start _ demo_a); vm_compute; reflexivity|]; world.
  eapply rtc_l; [apply (Start _ demo_b); vm_compute; reflexivity|]; world.
  eapply rtc_l; [apply (Renew _ demo_a Node_new 10 {[LEADER_ROLE_ENGINE := mkLeaseRow demo_a 1 10]}
    (Ok (Some (mkLeadership 1)))); vm_compute; reflexivity|]; world.
  eapply rtc_l; [apply (Publish _ demo_a (mkNode true true 1) 1 1); [vm_compute; reflexivity..|lia]|]; world.
  eapply rtc_l; [apply (Deliver _ demo_a (stamp_epoch 1 1) (mkFence 1 1 0 0) true);
    [left|vm_compute; reflexivity]|]; world.
  eapply rtc_l; [apply (Pass _ 20); lia|]; world.
  eapply rtc_l; [apply (Renew _ demo_b Node_new 10 {[LEADER_ROLE_ENGINE := mkLeaseRow demo_b 2 30]}
    (Ok (Some (mkLeadership 2)))); vm_compute; reflexivity|]; world.
  eapply rtc_l; [apply (Publish _ demo_b (mkNode true true 2) 2 1); [vm_compute; reflexivity..|lia]|]; world.
  eapply rtc_l; [apply (Deliver _ demo_b (stamp_epoch 2 1) (mkFence 2 1 0 0) true);
    [right; left|vm_compute; reflexivity]|]; world.
  eapply rtc_l; [apply (Deliver _ demo_a (stamp_epoch 1 1) (mkFence 2 1 1 0) false);
    [left|vm_compute; reflexivity]|]; world.
  match goal with |- rtc _ ?x ?y => replace x with y by (vm_compute; reflexivity) end. apply rtc_refl.
Qed.

Lemma leader_fencing_witness : w_accepted demo_failover <> [] /\
  StronglySorted Z.le (epoch_of <$> w_accepted demo_failover).
Proof.
  split; [discriminate|]. destruct (leader_fencing demo_failover demo_failover_reachable) as (_ & H & _); [|exact H].
  intros r Hr. vm_compute in Hr. injection Hr as <-. vm_compute. discriminate.
Defined.

(** Every symbol thread numbers the updates of a stream on its own, while the
    desk follows one number per stream: the first messages of two symbols are
    counted as a gap although none is missing. *)
Lemma two_symbols_false_gap :
  f_gaps (fence (fence Fence_new (stamp_epoch 0 1)).1 (stamp_epoch 0 1)).1 = 1.
Proof. reflexivity. Qed.

(** Two containers whose engine has the same process id and which do not set
    [HOSTNAME] go by one holder name: the second takes the renewal branch while
    the first holds the lease, and both publish under one epoch. *)
Lemma shared_name_shares_epoch :
  let name := str "engine-1-" in
  let first := try_acquire 0 ∅ LEADER_ROLE_ENGINE name 10 in
  let second := try_acquire 1 first.1 LEADER_ROLE_ENGINE name 10 in
  first.2 = Ok (Some (mkLeadership 1)) /\ second.2 = Ok (Some (mkLeadership 1)).
Proof. vm_compute. done. Qed.
