(* ===== verification/SymbolThread.v ===== *)
(** The matching thread of a symbol ([src/src/bin/exchange_engine.rs]): the
    admission checks of an order (price band, circuit breaker, size limits, open
    orders per participant), the handlers of the two inbound messages, which
    drive the matching engine and publish trades and order updates, the routing
    table from orders to participants, the depth snapshot, and the configuration
    read from the environment.

    The readings of the wall clock are arguments; the Aeron publishers are those
    of AeronTransport. *)
From Stdlib Require Import ZArith Lia String.
From stdpp Require Import base numbers list gmap.
From S2P Require Import Prelude ListPool SkipList OrderBook Types Pools Engine Bytes Fixed F64 Text.
From S2P Require Import SymbolRules Pod Sbe Routing AeronTransport Leader.

#[local] Open Scope Z_scope.

(** ** The circuit breaker *)

Record CircuitBreaker := mkCircuitBreaker {
  cb_threshold_bps : Z; cb_window_ns : Z; cb_cooldown_ns : Z;
  cb_window_start_ns : Z; cb_window_open_ticks : Z; cb_halted_until_ns : Z
}.

Module CircuitBreaker.
Definition new (threshold_bps window_ns cooldown_ns : Z) : CircuitBreaker :=
  mkCircuitBreaker threshold_bps window_ns cooldown_ns 0 0 0.

Definition is_halted (b : CircuitBreaker) (now_ns : Z) : bool := Z.ltb now_ns (cb_halted_until_ns b).

(** A new window that opens at a trade. *)
Definition reanchor (b : CircuitBreaker) (now_ns price_ticks halted_until : Z) : CircuitBreaker :=
  mkCircuitBreaker (cb_threshold_bps b) (cb_window_ns b) (cb_cooldown_ns b) now_ns price_ticks
    halted_until.

(** Record a trade; [true] when it trips the breaker. *)
Definition on_trade (b : CircuitBreaker) (now_ns price_ticks : Z) : CircuitBreaker * bool :=
  if Z.eqb (cb_threshold_bps b) 0 || Z.leb price_ticks 0 then (b, false)
  else if Z.leb (cb_window_open_ticks b) 0
          || Z.ltb (cb_window_ns b) (Z.max 0 (now_ns - cb_window_start_ns b))
  then (reanchor b now_ns price_ticks (cb_halted_until_ns b), false)
  else
    let open := cb_window_open_ticks b in
    let dev := i128_mul (Z.abs (i128_sub price_ticks open)) 10000 in
    if Z.ltb (i128_mul open (cb_threshold_bps b)) dev
    then (reanchor b now_ns price_ticks (u64_add now_ns (cb_cooldown_ns b)), true)
    else (b, false).
End CircuitBreaker.

(** ** The price band *)

(** The mid of a sane book, otherwise the last trade; an [i128] division by two
    does not panic. *)
Definition reference_ticks (best_bid best_ask : option Z) (last_trade_ticks : Z) : option Z :=
  let fallback := if Z.ltb 0 last_trade_ticks then Some last_trade_ticks else None in
  match best_bid, best_ask with
  | Some bid, Some ask =>
      if Z.ltb 0 bid && Z.ltb 0 ask && Z.leb bid ask
      then Some (Z.quot (i128_add bid ask) 2) else fallback
  | _, _ => fallback
  end.

Definition beyond_band (side : Side) (price_ticks reference band_bps : Z) : bool :=
  let band := Z.quot (i128_mul reference band_bps) 10000 in
  match side with
  | Buy => Z.ltb (i128_add reference band) price_ticks
  | Sell => Z.ltb price_ticks (i128_sub reference band)
  end.

(** ** Size limits *)

Definition exceeds_order_limits (price_ticks quantity_lots max_lots max_notional : Z) : bool :=
  if Z.ltb 0 max_lots && Z.ltb max_lots quantity_lots then true
  else if Z.ltb 0 max_notional && Z.ltb 0 price_ticks
  then Z.ltb max_notional (i128_mul price_ticks quantity_lots)
  else false.

(** ** Open orders per participant *)

Definition open_count_inc (counts : gmap Z Z) (participant_id : Z) : gmap Z Z :=
  if negb (Z.eqb participant_id 0)
  then <[participant_id := (default 0 (counts !! participant_id) + 1) mod 2 ^ 32]> counts
  else counts.

Definition open_count_dec (counts : gmap Z Z) (participant_id : Z) : gmap Z Z :=
  if Z.eqb participant_id 0 then counts
  else match counts !! participant_id with
       | Some c =>
           let c := Z.max 0 (c - 1) in
           if Z.eqb c 0 then delete participant_id counts else <[participant_id := c]> counts
       | None => counts
       end.

(** [uid_map], from an order to its participant and response stream, and
    [open_counts]. *)
Record Routes := mkRoutes { uid_map : gmap Z (Z * Z); open_counts : gmap Z Z }.

(** [if uid_map.insert(id, (pid, stream)).is_none() { open_count_inc(..) }] *)
Definition track (r : Routes) (order_id participant_id stream_id : Z) : Routes :=
  mkRoutes (<[order_id := (participant_id, stream_id)]> (uid_map r))
    (match uid_map r !! order_id with
     | None => open_count_inc (open_counts r) participant_id
     | Some _ => open_counts r
     end).

(** [if let Some((pid, _)) = uid_map.remove(&id) { open_count_dec(..) }] *)
Definition untrack (r : Routes) (order_id : Z) : Routes :=
  mkRoutes (delete order_id (uid_map r))
    (match uid_map r !! order_id with
     | Some (pid, _) => open_count_dec (open_counts r) pid
     | None => open_counts r
     end).

(** ** Symbols and streams *)

Definition symbol_bytes (symbol : bytes) : bytes := pack_str16 symbol.

Definition symbol_from_bytes (b : bytes) : bytes := default [] (from_utf8 (until_nul b)).

Definition ORDER_UPDATE_STREAM_BASE : Z := 200.
Definition order_update_stream_for_desk (desk_id : Z) : Z := ORDER_UPDATE_STREAM_BASE + desk_id.

Definition response_stream_index (stream_id : Z) (publishers_len : nat) : nat :=
  if Z.leb ORDER_UPDATE_STREAM_BASE stream_id
  then let idx := Z.to_nat (stream_id - ORDER_UPDATE_STREAM_BASE) in
       if Nat.ltb idx publishers_len then idx else O
  else O.

(** ** Configuration *)

(** [s.parse()] of an unsigned and of a signed integer type: an optional sign, at
    least one digit, in range. *)
Definition parse_unsigned (max : Z) (bs : bytes) : option Z :=
  let body := match bs with b :: rest => if Z.eqb b 43 then rest else bs | [] => bs end in
  match body with
  | [] => None
  | _ => if forallb is_ascii_digit body && Z.leb (digits_value body) max
         then Some (digits_value body) else None
  end.

Definition parse_signed (min max : Z) (bs : bytes) : option Z :=
  match bs with
  | b :: (_ :: _ as rest) =>
      if Z.eqb b 45
      then if forallb is_ascii_digit rest && Z.leb min (- digits_value rest)
           then Some (- digits_value rest) else None
      else parse_unsigned max bs
  | _ => parse_unsigned max bs
  end.

Abbreviation environment := (bytes -> option bytes).

(** What the thread reads at its start. *)
Record Config := mkConfig {
  c_symbol : bytes; c_rules : SymbolRules; c_price_band_bps : Z;
  c_max_order_lots : Z; c_max_order_notional : Z; c_max_open_orders : Z
}.

Definition env_unsigned (env : environment) (name : string) (max dflt : Z) : Z :=
  default dflt (env (str name) ≫= parse_unsigned max).

Definition env_signed (env : environment) (name : string) (min max dflt : Z) : Z :=
  default dflt (env (str name) ≫= parse_signed min max).

(** [None] is the panic on an unknown symbol. *)
Definition Config_from_env (env : environment) (symbol : bytes) : option Config :=
  rules ← SymbolRules.for_symbol symbol;
  Some (mkConfig symbol rules
    (env_unsigned env "ENGINE_PRICE_BAND_BPS" (2 ^ 32 - 1) (sr_price_band_bps rules))
    (env_signed env "ENGINE_MAX_ORDER_LOTS" i64_min i64_max 0)
    (env_signed env "ENGINE_MAX_ORDER_NOTIONAL" i128_min (two127 - 1) 0)
    (env_unsigned env "ENGINE_MAX_OPEN_ORDERS_PER_USER" (2 ^ 32 - 1) 0)).

Definition breaker_from_env (env : environment) : CircuitBreaker :=
  CircuitBreaker.new (env_unsigned env "ENGINE_CB_BPS" (2 ^ 32 - 1) 0)
    (wrap_u64 (env_unsigned env "ENGINE_CB_WINDOW_MS" u64_max 10000 * 1000000))
    (wrap_u64 (env_unsigned env "ENGINE_CB_COOLDOWN_MS" u64_max 60000 * 1000000)).

(** [response_stream_count] *)
Definition response_stream_count (env : environment) : Z :=
  match env (str "ORDER_UPDATE_STREAM_COUNT") ≫= parse_unsigned 65535 with
  | Some v => if Z.ltb 0 v then v else COUNTER_SHARD_COUNT
  | None => COUNTER_SHARD_COUNT
  end.

(** ** The thread *)

Module SymbolThread.
Section thread.
Context {B : Type} {OB : OrderBook B} {RB : Rtrb} {PUB : Publication}.

Record SymbolThread := mkSymbolThread {
  t_engine : MatchingEngine B;
  t_routes : Routes;
  t_breaker : CircuitBreaker;
  t_last_trade_ticks : Z;
  t_trade_seq : Z;
  t_ou_pubs : list publisher;
  t_ou_seqs : list Z;
  t_trade_pub : publisher;
  t_m_orders : Z;
  t_m_trades : Z;
  t_m_cb_trips : Z
}.

Implicit Types (t : SymbolThread) (c : Config).

(** Whether output leaves the process, and the epoch it is stamped with. *)
Record Mode := mkMode { live : bool; epoch : Z }.

(** [live] and [leader_epoch] at the head of the loop: the replay has finished and
    this process leads, or no election is configured. *)
Definition mode_of (replaying pending : bool) (leadership : option Node) : Mode :=
  let leader_epoch := match leadership with None => Some 0 | Some h => current_epoch h end in
  mkMode (negb replaying && negb pending && bool_decide (is_Some leader_epoch))
    (default 0 leader_epoch).

(** *** Updates of the fields *)

Definition set_routes t (r : Routes) : SymbolThread :=
  mkSymbolThread (t_engine t) r (t_breaker t) (t_last_trade_ticks t) (t_trade_seq t) (t_ou_pubs t)
    (t_ou_seqs t) (t_trade_pub t) (t_m_orders t) (t_m_trades t) (t_m_cb_trips t).

Definition set_engine t (e : MatchingEngine B) : SymbolThread :=
  mkSymbolThread e (t_routes t) (t_breaker t) (t_last_trade_ticks t) (t_trade_seq t) (t_ou_pubs t)
    (t_ou_seqs t) (t_trade_pub t) (t_m_orders t) (t_m_trades t) (t_m_cb_trips t).

Definition set_output t (pubs : list publisher) (seqs : list Z) : SymbolThread :=
  mkSymbolThread (t_engine t) (t_routes t) (t_breaker t) (t_last_trade_ticks t) (t_trade_seq t)
    pubs seqs (t_trade_pub t) (t_m_orders t) (t_m_trades t) (t_m_cb_trips t).

Definition count_order t : SymbolThread :=
  mkSymbolThread (t_engine t) (t_routes t) (t_breaker t) (t_last_trade_ticks t) (t_trade_seq t)
    (t_ou_pubs t) (t_ou_seqs t) (t_trade_pub t) (u64_add (t_m_orders t) 1) (t_m_trades t)
    (t_m_cb_trips t).

(** *** Publishing an update *)

(** Nothing is sent and no number is used unless [live].  [None] is the panic of
    [publishers[idx]] or of the encoder. *)
Definition publish_order_update (publishers : list publisher) (sequences : list Z) (stream_id : Z)
  (msg : OrderUpdateMsg) (mode : Mode) : option (list publisher * list Z) :=
  if negb (live mode) then Some (publishers, sequences)
  else
    let idx := response_stream_index stream_id (length publishers) in
    let '(sequences, sequenced) :=
      match sequences !! idx with
      | Some seq =>
          let seq := u64_add seq 1 in
          (<[idx := seq]> sequences,
           OrderUpdateMsg.with_sequence msg (stamp_epoch (epoch mode) seq))
      | None => (sequences, msg)
      end in
    p ← publishers !! idx;
    '(p, _) ← AeronTransport.publish_order_update p sequenced;
    Some (<[idx := p]> publishers, sequences).

Definition reply t (stream_id : Z) (msg : OrderUpdateMsg) (mode : Mode) : option SymbolThread :=
  '(pubs, seqs) ← publish_order_update (t_ou_pubs t) (t_ou_seqs t) stream_id msg mode;
  Some (set_output t pubs seqs).

(** *** Admission of an order *)

(** The reference price of the band; [None] is a panic of the book. *)
Definition band_reference_ticks (e : MatchingEngine B) (last_trade_ticks : Z) : option (option Z) :=
  best_bid ← Engine.best_price_ticks e true;
  best_ask ← Engine.best_price_ticks e false;
  Some (reference_ticks best_bid best_ask last_trade_ticks).

Definition outside_price_band (e : MatchingEngine B) (side : Side)
  (price_ticks band_bps last_trade_ticks : Z) : option bool :=
  if Z.leb price_ticks 0 || Z.eqb band_bps 0 then Some false
  else
    reference ← band_reference_ticks e last_trade_ticks;
    Some (match reference with
          | None => false
          | Some reference => beyond_band side price_ticks reference band_bps
          end).

Definition side_of (req : NewOrderRequest) : Side := if Z.eqb (nor_side req) 0 then Buy else Sell.

Definition tif_of (req : NewOrderRequest) : TimeInForce :=
  match nor_time_in_force req with 0 => GTC | 1 => IOC | 2 => FOK | 3 => PostOnly | _ => GTC end.

(** The checks of an order before it reaches the engine, in their order: the reason
    of the first that fails. *)
Definition admission c t (req : NewOrderRequest) (ts : Z) : option (option Z) :=
  if negb (bool_decide (symbol_from_bytes (nor_symbol req) = c_symbol c)) then Some (Some 4)
  else if Z.leb (nor_quantity_lots req) 0 then Some (Some 2)
  else if CircuitBreaker.is_halted (t_breaker t) ts then Some (Some 10)
  else
    outside ← outside_price_band (t_engine t) (side_of req) (nor_price_ticks req)
                (c_price_band_bps c) (t_last_trade_ticks t);
    if outside : bool then Some (Some 7)
    else if exceeds_order_limits (nor_price_ticks req) (nor_quantity_lots req) (c_max_order_lots c)
              (c_max_order_notional c) then Some (Some 8)
    else if Z.ltb 0 (c_max_open_orders c) && negb (Z.eqb (nor_participant_id req) 0)
            && match open_counts (t_routes t) !! nor_participant_id req with
               | Some n => Z.leb (c_max_open_orders c) n
               | None => false
               end then Some (Some 9)
    else Some None.

Definition order_of (req : NewOrderRequest) (ts : Z) : Order :=
  if Z.eqb (nor_price_ticks req) 0
  then Order.new_market (nor_client_order_id req) (side_of req) (nor_quantity_lots req) ts
  else Order.new (nor_client_order_id req) (side_of req) (nor_price_ticks req)
         (nor_quantity_lots req) (tif_of req) ts.

(** *** A placed order *)

(** The update sent to the taker. *)
Definition update_of c (req : NewOrderRequest) (r : PlaceOrderResult) (ts : Z) : OrderUpdateMsg :=
  let rules := c_rules c in
  let last_price := match last (r_fills r) with
                    | Some f => SymbolRules.ticks_to_price rules f.1.2
                    | None => SymbolRules.ticks_to_price rules (nor_price_ticks req)
                    end in
  let filled_qty := SymbolRules.lots_to_quantity rules (r_filled_lots r) in
  let total_qty := SymbolRules.lots_to_quantity rules (nor_quantity_lots req) in
  let coid := nor_client_order_id req in
  let pid := nor_participant_id req in
  match r_status r with
  | Accepted => OrderUpdateMsg.accepted (r_order_id r) coid pid ts
  | Filled => OrderUpdateMsg.filled (r_order_id r) coid pid (f64_to_bits last_price)
                (f64_to_bits filled_qty) ts
  | PartiallyFilled =>
      OrderUpdateMsg.partial_fill (r_order_id r) coid pid (f64_to_bits last_price)
        (f64_to_bits filled_qty) (f64_to_bits (f64_sub total_qty filled_qty)) ts
  | Cancelled => OrderUpdateMsg.cancelled (r_order_id r) coid pid
                   (f64_to_bits (f64_sub total_qty filled_qty)) ts
  | Rejected => OrderUpdateMsg.rejected coid pid 3 ts
  end.

(** The routing entry of the taker, by the status of its order. *)
Definition route_taker (r : Routes) (req : NewOrderRequest) (res : PlaceOrderResult) : Routes :=
  match r_status res with
  | Accepted | PartiallyFilled =>
      track r (r_order_id res) (nor_participant_id req) (nor_response_stream_id req)
  | Filled | Cancelled => untrack r (r_order_id res)
  | Rejected => r
  end.

(** One fill: the trade is numbered, recorded by the breaker and published, and the
    routing entry of a maker that left the book is dropped. *)
Definition on_fill c (req : NewOrderRequest) (ts : Z) (mode : Mode) t (f : Z * Z * Z)
  : option SymbolThread :=
  let '(maker_order_id, fill_price_ticks, fill_qty_lots) := f in
  let trade_seq := u64_add (t_trade_seq t) 1 in
  let '(breaker, tripped) := CircuitBreaker.on_trade (t_breaker t) ts fill_price_ticks in
  let trade := mkTradeNotification trade_seq (nor_client_order_id req) maker_order_id
    (f64_to_bits (SymbolRules.ticks_to_price (c_rules c) fill_price_ticks))
    (f64_to_bits (SymbolRules.lots_to_quantity (c_rules c) fill_qty_lots))
    (nor_side req) (zeros 7) (symbol_bytes (c_symbol c)) in
  trade_pub ← (if live mode then fst <$> AeronTransport.publish_trade (t_trade_pub t) trade
               else Some (t_trade_pub t));
  Some (mkSymbolThread (t_engine t)
    (if negb (Engine.contains_order (t_engine t) maker_order_id)
     then untrack (t_routes t) maker_order_id else t_routes t)
    breaker fill_price_ticks trade_seq (t_ou_pubs t) (t_ou_seqs t) trade_pub (t_m_orders t)
    (if live mode then u64_add (t_m_trades t) 1 else t_m_trades t)
    (if tripped && live mode then u64_add (t_m_cb_trips t) 1 else t_m_cb_trips t)).

Fixpoint on_fills c (req : NewOrderRequest) (ts : Z) (mode : Mode) t (fs : list (Z * Z * Z))
  : option SymbolThread :=
  match fs with
  | [] => Some t
  | f :: fs => t ← on_fill c req ts mode t f; on_fills c req ts mode t fs
  end.

(** [InboundMsg::NewOrder]; [ts] and [sample_ns] are the clock readings of the
    handler and of the engine's depth sampling. *)
Definition on_new_order c (mode : Mode) (ts sample_ns : Z) t (req : NewOrderRequest)
  : option SymbolThread :=
  let t := if live mode then count_order t else t in
  let stream := nor_response_stream_id req in
  let rejected reason :=
    OrderUpdateMsg.rejected (nor_client_order_id req) (nor_participant_id req) reason ts in
  verdict ← admission c t req ts;
  match verdict with
  | Some reason => reply t stream (rejected reason) mode
  | None =>
      '(e, res) ← Engine.place_order sample_ns (order_of req ts) (t_engine t);
      let t := set_engine t e in
      match res with
      | Err _ => reply t stream (rejected 2) mode
      | Ok r =>
          let t := set_routes t (route_taker (t_routes t) req r) in
          t ← on_fills c req ts mode t (r_fills r);
          reply t stream (update_of c req r ts) mode
      end
  end.

(** [InboundMsg::CancelOrder] *)
Definition on_cancel_order c (mode : Mode) (ts sample_ns : Z) t (req : CancelOrderRequest)
  : option SymbolThread :=
  let oid := cor_order_id req in
  '(e, res) ← Engine.cancel_order sample_ns oid (t_engine t);
  let t := set_engine t e in
  match res with
  | Ok r =>
      let removed := uid_map (t_routes t) !! oid in
      let t := set_routes t (untrack (t_routes t) oid) in
      let '(pid, stream) := default (cor_participant_id req, cor_response_stream_id req) removed in
      reply t stream (OrderUpdateMsg.cancelled oid 0 pid
        (f64_to_bits (SymbolRules.lots_to_quantity (c_rules c) (c_cancelled_quantity r))) ts) mode
  | Err _ =>
      if negb (Z.eqb (cor_participant_id req) 0)
      then reply t (cor_response_stream_id req)
             (OrderUpdateMsg.cancelled oid 0 (cor_participant_id req) 0 ts) mode
      else Some t
  end.

Definition on_message c (mode : Mode) (ts sample_ns : Z) t (msg : InboundMsg) : option SymbolThread :=
  match msg with
  | InboundNewOrder req => on_new_order c mode ts sample_ns t req
  | InboundCancelOrder req => on_cancel_order c mode ts sample_ns t req
  end.

(** The polling loop over a sequence of messages, each with its mode and its clock
    readings. *)
Record Arrival := mkArrival { a_msg : InboundMsg; a_mode : Mode; a_ts : Z; a_sample_ns : Z }.

Fixpoint on_messages c t (ms : list Arrival) : option SymbolThread :=
  match ms with
  | [] => Some t
  | m :: ms => t ← on_message c (a_mode m) (a_ts m) (a_sample_ns m) t (a_msg m); on_messages c t ms
  end.

(** *** The depth snapshot *)

Definition price_levels (rules : SymbolRules) (levels : list (Z * Z)) : list (f64 * f64) :=
  (fun '(p, q) => (SymbolRules.ticks_to_price rules p, SymbolRules.lots_to_quantity rules q)) <$> levels.

(** The event published every 10 ms: [Some None] when a side is empty. *)
Definition depth_event c t (now_ns depth_seq : Z) : option (option DepthSnapshotEvent) :=
  '(bids, num_bids) ← Engine.fill_top_levels (t_engine t) true (replicate 20 (0, 0));
  '(asks, num_asks) ← Engine.fill_top_levels (t_engine t) false (replicate 20 (0, 0));
  let pad l := l ++ replicate (20 - length l) (f64_zero, f64_zero) in
  let ev := mkDepthSnapshotEvent now_ns depth_seq (Z.of_nat num_bids mod 256)
    (Z.of_nat num_asks mod 256) (symbol_bytes (c_symbol c))
    (pad (price_levels (c_rules c) (take num_bids bids)))
    (pad (price_levels (c_rules c) (take num_asks asks))) in
  Some (if Nat.ltb 0 num_bids && Nat.ltb 0 num_asks then Some ev else None).

(** The state at the start of the thread: the routing table is given, the counts
    start empty. *)
Definition start (env : environment) (e : MatchingEngine B) (uids : gmap Z (Z * Z))
  (pubs : list publisher) (trade_pub : publisher) : SymbolThread :=
  mkSymbolThread e (mkRoutes uids ∅) (breaker_from_env env) 0 0 pubs
    (replicate (length pubs) 0) trade_pub 0 0 0.
End thread.
End SymbolThread.
