(* ===== verification/SymbolThreadInv.v ===== *)
(** The matching thread refines a specification on markets: what an inbound
    message does to the market, the routing table, the breaker and the last
    price, with the engine's data structures and the publishers abstracted
    away. *)
From Stdlib Require Import ZArith Lia String.
From stdpp Require Import base numbers list gmap sorting.
From S2P Require Import Prelude ListPool SkipList SkipListInv BookSpec OrderBook Types Pools Engine.
From S2P Require Import MatchSpec EngineInv EngineMatch EngineOps EnginePlace EngineRun EngineFacts.
From S2P Require Import Bytes Fixed F64 Text SymbolRules Pod Sbe Routing AeronTransport Leader SymbolThread.

#[local] Open Scope Z_scope.
Import SymbolThread.

(** ** The specification *)

Record View := mkView {
  v_market : market; v_routes : Routes; v_breaker : CircuitBreaker; v_last : Z
}.

Definition best (L : market) (s : Side) : option Z := fst <$> head (L s).

Definition spec_outside (L : market) (side : Side) (price_ticks band_bps last_trade_ticks : Z) : bool :=
  negb (Z.leb price_ticks 0 || Z.eqb band_bps 0) &&
  match reference_ticks (best L Buy) (best L Sell) last_trade_ticks with
  | None => false
  | Some reference => beyond_band side price_ticks reference band_bps
  end.

Definition at_cap (c : Config) (r : Routes) (participant_id : Z) : bool :=
  Z.ltb 0 (c_max_open_orders c) && negb (Z.eqb participant_id 0)
  && match open_counts r !! participant_id with
     | Some n => Z.leb (c_max_open_orders c) n
     | None => false
     end.

(** Why an order is refused, if it is. *)
Definition refusal (c : Config) (v : View) (ts : Z) (req : NewOrderRequest) : option Z :=
  if negb (bool_decide (symbol_from_bytes (nor_symbol req) = c_symbol c)) then Some 4
  else if Z.leb (nor_quantity_lots req) 0 then Some 2
  else if CircuitBreaker.is_halted (v_breaker v) ts then Some 10
  else if spec_outside (v_market v) (side_of req) (nor_price_ticks req) (c_price_band_bps c) (v_last v)
  then Some 7
  else if exceeds_order_limits (nor_price_ticks req) (nor_quantity_lots req) (c_max_order_lots c)
            (c_max_order_notional c) then Some 8
  else if at_cap c (v_routes v) (nor_participant_id req) then Some 9
  else None.

(** Drop the entries of the makers that left the book. *)
Definition collect (gone : Z -> bool) (r : Routes) (makers : list Z) : Routes :=
  foldl (fun r id => if gone id then untrack r id else r) r makers.

Definition record_trades (ts : Z) (b : CircuitBreaker) (fs : list fill) : CircuitBreaker :=
  foldl (fun b f => (CircuitBreaker.on_trade b ts f.1.2).1) b fs.

Definition gone_from (L : market) (id : Z) : bool := negb (bool_decide (id ∈ o_id <$> resting L)).

Definition spec_new_order (c : Config) (n : nat) (v : View) (ts : Z) (req : NewOrderRequest) : View :=
  match refusal c v ts req with
  | Some _ => v
  | None =>
      let '(L, res) := spec_place_checked n (v_market v) (order_of req ts) in
      match res with
      | Err _ => mkView L (v_routes v) (v_breaker v) (v_last v)
      | Ok r =>
          mkView L (collect (gone_from L) (route_taker (v_routes v) req r) (makers (r_fills r)))
            (record_trades ts (v_breaker v) (r_fills r))
            (match last (r_fills r) with Some f => f.1.2 | None => v_last v end)
      end
  end.

Definition spec_cancel_order (v : View) (req : CancelOrderRequest) : View :=
  let '(L, res) := spec_cancel (v_market v) (cor_order_id req) in
  match res with
  | Ok _ => mkView L (untrack (v_routes v) (cor_order_id req)) (v_breaker v) (v_last v)
  | Err _ => mkView L (v_routes v) (v_breaker v) (v_last v)
  end.

Definition spec_message (c : Config) (n : nat) (v : View) (ts : Z) (msg : InboundMsg) : View :=
  match msg with
  | InboundNewOrder req => spec_new_order c n v ts req
  | InboundCancelOrder req => spec_cancel_order v req
  end.

Definition spec_messages (c : Config) (n : nat) (v : View) (ms : list Arrival) : View :=
  foldl (fun v m => spec_message c n v (a_ts m) (a_msg m)) v ms.

(** Lots that a message may add to the book. *)
Definition message_lots (msg : InboundMsg) : Z :=
  match msg with
  | InboundNewOrder req => Z.max 0 (nor_quantity_lots req)
  | InboundCancelOrder _ => 0
  end.
Definition arrival_lots (ms : list Arrival) : Z := foldr (fun m v => message_lots (a_msg m) + v) 0 ms.

(** ** The publishers *)

Section publish.
Context {PUB : Publication} {PL : PublicationLaws}.

(** Every message the thread builds has its padding. *)
Lemma publish_update_total p (msg : OrderUpdateMsg) : length (oum_pad1 msg) = 6%nat ->
  exists p' r, AeronTransport.publish_order_update p msg = Some (p', r).
Proof.
  intros Hl. destruct (publish_sized TEMPLATE_ORDER_UPDATE 72 msg p) as (p' & r & Hp & _);
    [|reflexivity|by exists p', r].
  cbn -[to_le]. rewrite !length_app, !length_to_le. unfold id. lia.
Qed.

Lemma publish_trade_total p (msg : TradeNotification) : length (tn_pad msg) = 7%nat ->
  length (tn_symbol msg) = 16%nat ->
  exists p' r, AeronTransport.publish_trade p msg = Some (p', r).
Proof.
  intros Hl Hs. destruct (publish_sized TEMPLATE_TRADE_NOTIFICATION 64 msg p) as (p' & r & Hp & _);
    [|reflexivity|by exists p', r].
  cbn -[to_le]. rewrite !length_app, !length_to_le. unfold id. lia.
Qed.

Lemma length_symbol_bytes s : length (symbol_bytes s) = 16%nat.
Proof.
  unfold symbol_bytes, pack_str16, pack_str, zeros. rewrite length_app, length_take, length_replicate. lia.
Qed.

Lemma response_stream_index_lt stream n : (0 < n)%nat -> (response_stream_index stream n < n)%nat.
Proof.
  intros Hn. unfold response_stream_index. destruct (Z.leb _ _); [|done].
  destruct (Nat.ltb_spec (Z.to_nat (stream - ORDER_UPDATE_STREAM_BASE)) n); done.
Qed.

Lemma publish_order_update_total pubs seqs stream msg mode : pubs <> [] ->
  length (oum_pad1 msg) = 6%nat ->
  exists pubs' seqs', publish_order_update pubs seqs stream msg mode = Some (pubs', seqs') /\
    length pubs' = length pubs.
Proof.
  intros Hne Hl. unfold publish_order_update. destruct (live mode); simpl; [|by eexists _, _].
  assert (response_stream_index stream (length pubs) < length pubs)%nat as Hlt.
  { apply response_stream_index_lt. destruct pubs; [done|simpl; lia]. }
  apply lookup_lt_is_Some_2 in Hlt as [p Hp].
  destruct (seqs !! _) as [seq|]; rewrite Hp; simpl.
  - destruct (publish_update_total p (OrderUpdateMsg.with_sequence msg
      (stamp_epoch (epoch mode) (u64_add seq 1)))) as (p' & r & ->); [done|]. simpl.
    eexists _, _. split; [done|]. by rewrite length_insert.
  - destruct (publish_update_total p msg) as (p' & r & ->); [done|]. simpl.
    eexists _, _. split; [done|]. by rewrite length_insert.
Qed.
End publish.

(** ** The simulation *)

Section sim.
Context {B : Type} {OB : OrderBook B} {LAWS : OrderBookLaws B} {RB : Rtrb}.
Context {PUB : Publication} {PL : PublicationLaws}.
Abbreviation thread := (SymbolThread (B := B)).
Implicit Types (t : thread) (v : View).

(** The part of the thread that replies leave alone. *)
Definition core t := (t_engine t, t_routes t, t_breaker t, t_last_trade_ticks t).

Record sim (n m : nat) t v : Prop := {
  sim_good : good n m (t_engine t) (v_market v);
  sim_routes : t_routes t = v_routes v;
  sim_breaker : t_breaker t = v_breaker v;
  sim_last : t_last_trade_ticks t = v_last v;
  sim_pubs : t_ou_pubs t <> []
}.

Lemma sim_core n m t t' v : sim n m t v -> core t' = core t -> t_ou_pubs t' <> [] -> sim n m t' v.
Proof. intros [] [= He Hr Hb Hl] Hp. split; congruence. Qed.

Lemma nonempty_length {A} (l l' : list A) : length l' = length l -> l <> [] -> l' <> [].
Proof. by destruct l, l'. Qed.

Lemma reply_ok t stream msg mode : t_ou_pubs t <> [] -> length (oum_pad1 msg) = 6%nat ->
  exists t', reply t stream msg mode = Some t' /\ core t' = core t /\ t_ou_pubs t' <> [].
Proof.
  intros Hp Hm. unfold reply.
  destruct (publish_order_update_total (t_ou_pubs t) (t_ou_seqs t) stream msg mode Hp Hm)
    as (pubs & seqs & -> & Hl). simpl.
  eexists. split_and!; [done|done|by eapply nonempty_length].
Qed.

Lemma reply_sim n m t v stream msg mode : sim n m t v -> length (oum_pad1 msg) = 6%nat ->
  exists t', reply t stream msg mode = Some t' /\ sim n m t' v.
Proof.
  intros S Hm. destruct (reply_ok t stream msg mode (sim_pubs _ _ _ _ S) Hm) as (t' & -> & Hc & Hp).
  exists t'. split; [done|]. by eapply sim_core.
Qed.

Lemma outside_ok n m t v side price bps : sim n m t v ->
  outside_price_band (t_engine t) side price bps (t_last_trade_ticks t) =
    Some (spec_outside (v_market v) side price bps (v_last v)).
Proof.
  intros S. unfold outside_price_band, spec_outside. destruct (_ || _); [done|].
  unfold band_reference_ticks. pose proof (gd_wf _ _ _ _ (sim_good _ _ _ _ S)) as W.
  rewrite (best_price_head _ _ _ Buy W : Engine.best_price_ticks _ true = _).
  rewrite (best_price_head _ _ _ Sell W : Engine.best_price_ticks _ false = _).
  by rewrite (sim_last _ _ _ _ S).
Qed.

Lemma admission_ok n m c t v ts req : sim n m t v ->
  admission c t req ts = Some (refusal c v ts req).
Proof.
  intros S. unfold admission, refusal, at_cap. rewrite (outside_ok _ _ _ _ _ _ _ S).
  rewrite (sim_breaker _ _ _ _ S), (sim_routes _ _ _ _ S).
  repeat (case_match; try done).
Qed.

Lemma contains_gone n m t v id : sim n m t v ->
  negb (Engine.contains_order (t_engine t) id) = gone_from (v_market v) id.
Proof. intros S. unfold gone_from. by rewrite (wf_contains _ _ _ _ (gd_wf _ _ _ _ (sim_good _ _ _ _ S))). Qed.

Lemma on_fill_ok c req ts mode t f : exists t', on_fill c req ts mode t f = Some t' /\
  core t' = (t_engine t,
    (if negb (Engine.contains_order (t_engine t) f.1.1) then untrack (t_routes t) f.1.1 else t_routes t),
    (CircuitBreaker.on_trade (t_breaker t) ts f.1.2).1, f.1.2) /\
  t_ou_pubs t' = t_ou_pubs t.
Proof.
  destruct f as [[maker price] qty]. unfold on_fill. cbn [fst snd].
  destruct (CircuitBreaker.on_trade _ _ _) as [b tripped]. destruct (live mode); [|by eexists].
  edestruct publish_trade_total as (p' & r & ->); [| |by eexists]; [done|apply length_symbol_bytes].
Qed.

Lemma on_fills_ok c req ts mode fs : forall t, exists t', on_fills c req ts mode t fs = Some t' /\
  core t' = (t_engine t,
    collect (fun id => negb (Engine.contains_order (t_engine t) id)) (t_routes t) (makers fs),
    record_trades ts (t_breaker t) fs,
    match last fs with Some f => f.1.2 | None => t_last_trade_ticks t end) /\
  t_ou_pubs t' = t_ou_pubs t.
Proof.
  induction fs as [|f fs IH]; intros t; [by exists t|]. cbn [on_fills].
  destruct (on_fill_ok c req ts mode t f) as (t1 & -> & [= He Hr Hb Hl] & Hp). simpl.
  destruct (IH t1) as (t' & -> & Hc & Hp'). exists t'. split; [done|]. split; [|congruence].
  rewrite Hc, He, Hr, Hb, Hl. rewrite last_cons. by destruct (last fs).
Qed.

Lemma order_of_facts req ts : o_filled_lots (order_of req ts) = 0 /\
  o_quantity_lots (order_of req ts) = nor_quantity_lots req /\
  o_id (order_of req ts) = nor_client_order_id req.
Proof. unfold order_of. by destruct (Z.eqb _ 0). Qed.

Lemma update_padded c req r ts : length (oum_pad1 (update_of c req r ts)) = 6%nat.
Proof. unfold update_of. by destruct (r_status r). Qed.

Lemma collect_ext g g' r ids : (forall id, g id = g' id) -> collect g r ids = collect g' r ids.
Proof. intros H. unfold collect. revert r. induction ids as [|id ids IH]; intros r; simpl; [done|]. by rewrite H, IH. Qed.

Lemma on_new_order_sim n m c mode ts sn t v req : sim n m t v -> (n <= m)%nat ->
  volume (resting (v_market v)) + Z.max 0 (nor_quantity_lots req) <= i64_max ->
  exists t', on_new_order c mode ts sn t req = Some t' /\ sim n m t' (spec_new_order c n v ts req) /\
    volume (resting (v_market (spec_new_order c n v ts req))) <=
      volume (resting (v_market v)) + Z.max 0 (nor_quantity_lots req).
Proof.
  intros S Hnm Hv. unfold on_new_order, spec_new_order. set (t0 := if live mode then _ else t).
  assert (sim n m t0 v) as S0.
  { unfold t0. destruct (live mode); [|done]. by eapply sim_core; [exact S|done|apply S]. }
  clearbody t0. rewrite (admission_ok n m c t0 v ts req S0). cbn [mbind option_bind].
  destruct (refusal c v ts req) as [reason|].
  { destruct (reply_sim n m t0 v (nor_response_stream_id req)
      (OrderUpdateMsg.rejected (nor_client_order_id req) (nor_participant_id req) reason ts) mode S0)
      as (t' & -> & S'); [done|]. exists t'. split_and!; [done|done|lia]. }
  destruct (order_of_facts req ts) as (Hf & Hq & _).
  destruct (place_checked_ok n m sn (t_engine t0) (v_market v) (order_of req ts) (sim_good _ _ _ _ S0) Hnm Hf)
    as (e & He & G & Hvol); [by rewrite Hq|]. rewrite Hq in Hvol. rewrite He. cbn [mbind option_bind].
  destruct (spec_place_checked n (v_market v) (order_of req ts)) as [L res]. cbn [fst snd] in *.
  destruct res as [r|x].
  - set (t1 := set_routes (set_engine t0 e) _).
    destruct (on_fills_ok c req ts mode (r_fills r) t1) as (t2 & -> & [= He2 Hr2 Hb2 Hl2] & Hp2). simpl.
    destruct (reply_ok t2 (nor_response_stream_id req) (update_of c req r ts) mode) as (t' & -> & Hc & Hp);
      [rewrite Hp2; apply S0|apply update_padded|]. exists t'. split_and!; [done| |done].
    apply sim_core with t2; [|done|done]. split; cbn.
    + by rewrite He2.
    + rewrite Hr2. cbn. rewrite (sim_routes _ _ _ _ S0). apply collect_ext. intros id.
      unfold gone_from. by rewrite (wf_contains _ _ _ _ (gd_wf _ _ _ _ G)).
    + rewrite Hb2. cbn. by rewrite (sim_breaker _ _ _ _ S0).
    + rewrite Hl2. cbn. by rewrite (sim_last _ _ _ _ S0).
    + rewrite Hp2. apply S0.
  - assert (sim n m (set_engine t0 e) (mkView L (v_routes v) (v_breaker v) (v_last v))) as S1.
    { destruct S0. by split. }
    destruct (reply_sim n m _ _ (nor_response_stream_id req)
      (OrderUpdateMsg.rejected (nor_client_order_id req) (nor_participant_id req) 2 ts) mode S1)
      as (t' & -> & S'); [done|]. by exists t'.
Qed.

Lemma on_cancel_sim n m c mode ts sn t v req : sim n m t v ->
  exists t', on_cancel_order c mode ts sn t req = Some t' /\ sim n m t' (spec_cancel_order v req) /\
    volume (resting (v_market (spec_cancel_order v req))) <= volume (resting (v_market v)).
Proof.
  intros S. unfold on_cancel_order, spec_cancel_order.
  destruct (cancel_checked_ok n m sn (t_engine t) (v_market v) (cor_order_id req) (sim_good _ _ _ _ S))
    as (e & -> & G & Hvol). cbn [mbind option_bind].
  destruct (spec_cancel (v_market v) (cor_order_id req)) as [L [r|x]]; cbn [fst snd] in *.
  - destruct (default _ _) as [pid stream].
    edestruct (reply_sim n m (set_routes (set_engine t e) (untrack (t_routes t) (cor_order_id req)))
      (mkView L (untrack (v_routes v) (cor_order_id req)) (v_breaker v) (v_last v))) as (t' & -> & S').
    + destruct S. split; try done. cbn. congruence.
    + done.
    + by exists t'.
  - assert (sim n m (set_engine t e) (mkView L (v_routes v) (v_breaker v) (v_last v))) as S1.
    { destruct S. by split. }
    destruct (negb _); [|by eexists].
    edestruct reply_sim as (t' & -> & S'); [exact S1|done|]. by exists t'.
Qed.

Lemma on_message_sim n m c mode ts sn t v msg : sim n m t v -> (n <= m)%nat ->
  volume (resting (v_market v)) + message_lots msg <= i64_max ->
  exists t', on_message c mode ts sn t msg = Some t' /\ sim n m t' (spec_message c n v ts msg) /\
    volume (resting (v_market (spec_message c n v ts msg))) <=
      volume (resting (v_market v)) + message_lots msg.
Proof.
  intros S Hnm Hv. destruct msg as [req|req]; simpl in *; [by apply on_new_order_sim|].
  destruct (on_cancel_sim n m c mode ts sn t v req S) as (t' & He & S' & Hvol).
  exists t'. split_and!; [done|done|lia].
Qed.

Lemma arrival_lots_nonneg ms : 0 <= arrival_lots ms.
Proof.
  induction ms as [|m ms IH]; simpl; [done|]. destruct (a_msg m); simpl; lia.
Qed.

Lemma on_messages_sim n m c ms : forall t v, sim n m t v -> (n <= m)%nat ->
  volume (resting (v_market v)) + arrival_lots ms <= i64_max ->
  exists t', on_messages c t ms = Some t' /\ sim n m t' (spec_messages c n v ms).
Proof.
  induction ms as [|a ms IH]; intros t v S Hnm Hv; [by exists t|]. cbn [on_messages arrival_lots foldr] in *.
  pose proof (arrival_lots_nonneg ms). fold (arrival_lots ms) in Hv.
  destruct (on_message_sim n m c (a_mode a) (a_ts a) (a_sample_ns a) t v (a_msg a) S Hnm) as (t1 & -> & S1 & Hv1); [lia|].
  cbn [mbind option_bind]. apply (IH t1); [done|done|]. lia.
Qed.

Lemma start_sim n m env pubs trade_pub : Z.of_nat n <= u64_max -> Z.of_nat m <= u64_max -> pubs <> [] ->
  sim n m (start env (Engine.new (mkPoolConfig n m) : MatchingEngine B) ∅ pubs trade_pub)
    (mkView (fun _ => []) (mkRoutes ∅ ∅) (breaker_from_env env) 0).
Proof. intros. split; try done. by apply good_new. Qed.
End sim.
