(* ===== verification/SymbolThreadProps.v ===== *)
(** Guarantees of the matching thread: the routing table and the open-order
    counts follow the book, the breaker stops trading, and replaying the input
    rebuilds the same market. *)
From Stdlib Require Import ZArith Lia String.
From stdpp Require Import base numbers list gmap sorting.
From S2P Require Import Prelude ListPool SkipList SkipListInv BookSpec OrderBook SkipListBook Types.
From S2P Require Import Pools Engine MatchSpec EngineInv EngineMatch EngineOps EnginePlace EngineRun.
From S2P Require Import EngineFacts EngineProps Bytes Fixed F64 Text SymbolRules Pod Sbe Routing.
From S2P Require Import AeronTransport Leader SymbolThread SymbolThreadInv.

#[local] Open Scope Z_scope.
Import SymbolThread.

(** ** Which orders a placement leaves in the book *)

Abbreviation ids L := (o_id <$> resting L).

Lemma served_ids q fs q' : served q fs q' ->
  (forall id, id ∈ o_id <$> q'.*2 -> id ∈ o_id <$> q.*2) /\
  (forall id, id ∈ o_id <$> q.*2 -> id ∈ o_id <$> q'.*2 \/ id ∈ makers fs) /\
  (forall id, id ∈ makers fs -> id ∈ o_id <$> q.*2).
Proof.
  unfold makers. induction 1 as [q|p o q fs q' _ (H1 & H2 & H3)|p o q lots _]; rewrite ?fmap_cons.
  - split_and!; set_solver.
  - cbn [fst snd] in *. split_and!; intros id; rewrite ?elem_of_cons; [set_solver|intros [->|Hid]|set_solver].
    + by right; left.
    + destruct (H2 _ Hid); auto.
  - cbn. split_and!; set_solver.
Qed.

Lemma match_ids L order : all_live L ->
  (forall id, id ∈ ids (spec_match L order).1 -> id ∈ ids L) /\
  (forall id, id ∈ ids L -> id ∈ ids (spec_match L order).1 \/ id ∈ makers (spec_match L order).2) /\
  (forall id, id ∈ makers (spec_match L order).2 -> id ∈ ids L).
Proof.
  intros Hl. pose proof (spec_match_served L order Hl) as (H1 & H2 & H3)%served_ids.
  rewrite !priced_orders in *. set (s := opposite (o_side order)) in *.
  assert ((spec_match L order).1 (opposite s) = L (opposite s)) as Ho.
  { unfold spec_match. destruct (sweep _ _ _) as [[fs l] rem]. simpl. apply upd_other. by destruct (o_side order). }
  assert (forall L' id, id ∈ ids L' <-> id ∈ o_id <$> orders_of (L' s) \/ id ∈ o_id <$> orders_of (L' (opposite s)))
    as Hids by (intros L' id; rewrite (resting_side L' s), fmap_app, elem_of_app; done).
  split_and!; intros id; rewrite !Hids, ?Ho; naive_solver.
Qed.

Lemma rest_ids L o : ids (spec_rest L o) ≡ₚ o_id o :: ids L.
Proof. unfold spec_rest. rewrite resting_upd, orders_of_add, (resting_side L (o_side o)). done. Qed.

Lemma place_ids L order : all_live L -> o_id order ∉ ids L ->
  (forall id, id ∈ ids (spec_place L order).1 -> id = o_id order \/ id ∈ ids L) /\
  (forall id, id ∈ ids L -> id ∈ ids (spec_place L order).1 \/ id ∈ makers (r_fills (spec_place L order).2)) /\
  (forall id, id ∈ makers (r_fills (spec_place L order).2) -> id ∈ ids L) /\
  (o_id order ∈ ids (spec_place L order).1 <-> spec_rests L order = true).
Proof.
  intros Hl Hid. destruct (match_ids L order Hl) as (H1 & H2 & H3).
  assert (o_id order ∉ ids (spec_match L order).1) as Hid' by auto.
  rewrite spec_place_split. unfold spec_rests. cbv zeta.
  destruct (o_is_market order); cbn [fst snd negb andb taker_result r_fills].
  { split_and!; [by auto..|]. split; [done|discriminate]. }
  destruct (o_time_in_force order); cbn [fst snd taker_result r_fills].
  - destruct (Z.ltb _ _); [|split_and!; [by auto..|split; [done|discriminate]]].
    split_and!; intros *; rewrite ?rest_ids; cbn [o_id Order.set_filled]; rewrite ?elem_of_cons; naive_solver.
  - split_and!; [by auto..|]. split; [done|discriminate].
  - destruct (Z.leb _ _); cbn [fst snd r_fills]; (split_and!; [by auto|by auto|set_solver|split; [done|discriminate]]).
  - destruct (crosses L order); cbn [fst snd r_fills negb].
    + split_and!; [by auto|by auto|set_solver|split; [done|discriminate]].
    + split_and!; intros *; rewrite ?rest_ids, ?elem_of_cons; set_solver.
Qed.

Lemma place_order_id L order : r_order_id (spec_place L order).2 = o_id order.
Proof.
  rewrite spec_place_split. cbv zeta. destruct (o_is_market order); [done|].
  destruct (o_time_in_force order); try done; [by destruct (Z.leb _ _)|by destruct (crosses L order)].
Qed.

Definition open_status (s : OrderStatus) : bool :=
  match s with Accepted | PartiallyFilled => true | _ => false end.

Lemma taker_open order fs none : open_status (r_status (taker_result order fs none)) =
  if Z.leb (o_quantity_lots order) (fill_sum fs) then false
  else if Z.ltb 0 (fill_sum fs) then true else open_status none.
Proof. unfold taker_result. cbn. destruct (Z.leb _ _); [done|]. by destruct (Z.ltb _ _). Qed.

(** An order that rests has an open status. *)
Lemma rests_open L order : spec_rests L order = true ->
  open_status (r_status (spec_place L order).2) = true.
Proof.
  rewrite spec_place_split. unfold spec_rests. cbv zeta. destruct (o_is_market order); [done|].
  destruct (o_time_in_force order); cbn [fst snd negb andb]; try done.
  - intros Hlt. rewrite taker_open, Z.leb_antisym, Hlt. simpl. by destruct (Z.ltb 0 _).
  - by destruct (crosses L order).
Qed.

(** For the kinds of order that may rest, an open status means that it does. *)
Lemma open_rests L order : o_is_market order = false ->
  o_time_in_force order = GTC \/ o_time_in_force order = PostOnly ->
  spec_rests L order = open_status (r_status (spec_place L order).2).
Proof.
  rewrite spec_place_split. unfold spec_rests. cbv zeta. intros -> [-> | ->]; cbn [fst snd negb andb].
  - rewrite taker_open, Z.leb_antisym. destruct (Z.ltb _ (o_quantity_lots order)); simpl; [by destruct (Z.ltb 0 _)|done].
  - by destruct (crosses L order).
Qed.

(** ** The routing table and its counts *)

(** The entries of a participant. *)
Definition entries (r : Routes) (p : Z) : nat :=
  size (filter (fun kv : Z * (Z * Z) => kv.2.1 = p) (uid_map r)).

(** [open_counts] holds, for every participant but 0, the number of its entries. *)
Definition counts_ok (r : Routes) : Prop := forall p,
  open_counts r !! p =
    if decide (p = 0 \/ entries r p = 0%nat) then None else Some (Z.of_nat (entries r p)).

Lemma entries_insert r id p s p' : uid_map r !! id = None ->
  entries (track r id p s) p' = (entries r p' + if decide (p = p') then 1 else 0)%nat.
Proof.
  intros Hn. unfold entries, track. cbn [uid_map]. destruct (decide (p = p')) as [<-|Hne].
  - rewrite map_filter_insert_True by done. rewrite map_size_insert_None; [lia|].
    apply map_lookup_filter_None. by left.
  - rewrite map_filter_insert_False by done. rewrite delete_id by done. lia.
Qed.

Lemma entries_delete r id p' :
  entries (untrack r id) p' =
    (entries r p' - match uid_map r !! id with Some (p, _) => if decide (p = p') then 1 else 0 | None => 0 end)%nat.
Proof.
  unfold entries, untrack. cbn [uid_map]. rewrite map_filter_delete.
  destruct (uid_map r !! id) as [[p s]|] eqn:Hid.
  - destruct (decide (p = p')) as [<-|Hne].
    + rewrite map_size_delete_Some; [lia|]. exists (p, s). by apply map_lookup_filter_Some.
    + rewrite delete_id; [lia|]. apply map_lookup_filter_None. right. intros x [= <-]%(eq_trans (eq_sym Hid)). done.
  - rewrite delete_id; [lia|]. apply map_lookup_filter_None. by left.
Qed.

Lemma entries_pos r id p s : uid_map r !! id = Some (p, s) -> (0 < entries r p)%nat.
Proof.
  intros Hid. unfold entries.
  assert (filter (fun kv : Z * (Z * Z) => kv.2.1 = p) (uid_map r) !! id = Some (p, s)) as Hf
    by by apply map_lookup_filter_Some.
  destruct (size _) eqn:Hs; [|lia]. apply map_size_empty_inv in Hs. by rewrite Hs, lookup_empty in Hf.
Qed.

Lemma entries_empty counts p : entries (mkRoutes ∅ counts) p = 0%nat.
Proof. unfold entries. cbn [uid_map]. by rewrite map_filter_empty, map_size_empty. Qed.

Lemma entries_le r p : (entries r p <= size (uid_map r))%nat.
Proof. apply map_subseteq_size, map_filter_subseteq. Qed.

Lemma counts_track r id p s : counts_ok r -> uid_map r !! id = None ->
  Z.of_nat (size (uid_map r)) + 1 < 2 ^ 32 -> counts_ok (track r id p s).
Proof.
  intros H Hn Hb p'. pose proof (entries_le r p). rewrite entries_insert by done. unfold track at 1. rewrite Hn.
  cbn [open_counts]. unfold open_count_inc. destruct (Z.eqb_spec p 0) as [->|Hp]; simpl.
  { rewrite H. destruct (decide (0 = p')) as [<-|]; [|by rewrite Nat.add_0_r].
    rewrite !decide_True by auto. done. }
  rewrite lookup_insert. destruct (decide (p = p')) as [<-|]; [|by rewrite H, Nat.add_0_r].
  rewrite decide_False by lia. rewrite H. f_equal.
  destruct (decide _) as [[?|Hz]|]; [done|rewrite Hz; done|].
  cbv [from_option Datatypes.id]. rewrite Z.mod_small; lia.
Qed.

Lemma counts_untrack r id : counts_ok r -> counts_ok (untrack r id).
Proof.
  intros H p'. rewrite entries_delete. unfold untrack at 1. cbn [open_counts].
  destruct (uid_map r !! id) as [[p s]|] eqn:Hid; [|by rewrite H, Nat.sub_0_r].
  pose proof (entries_pos r id p s Hid) as Hpos. unfold open_count_dec.
  destruct (Z.eqb_spec p 0) as [->|Hp].
  { rewrite H. destruct (decide (0 = p')) as [<-|]; [|by rewrite Nat.sub_0_r].
    rewrite !decide_True by auto. done. }
  rewrite (H p), decide_False by lia. destruct (decide (p = p')) as [<-|Hne].
  - destruct (Z.eqb_spec (Z.max 0 (Z.of_nat (entries r p) - 1)) 0) as [Hz|Hz].
    + rewrite lookup_delete_eq, decide_True by lia. done.
    + rewrite lookup_insert_eq, decide_False by lia. f_equal. lia.
  - rewrite Nat.sub_0_r, <- H. destruct (Z.eqb _ 0); [by rewrite lookup_delete_ne|by rewrite lookup_insert_ne].
Qed.

Lemma collect_lookup g ms : forall r id,
  uid_map (collect g r ms) !! id = if decide (id ∈ ms /\ g id = true) then None else uid_map r !! id.
Proof.
  induction ms as [|m ms IH]; intros r id; [by rewrite decide_False by set_solver|].
  cbn [collect foldl]. fold (collect g (if g m then untrack r m else r) ms). rewrite IH.
  destruct (decide (id ∈ ms /\ g id = true)) as [[? ?]|Hn].
  { rewrite decide_True by set_solver. done. }
  destruct (decide (id = m)) as [->|Hne].
  - destruct (g m) eqn:Hg.
    + rewrite decide_True by set_solver. cbn. apply lookup_delete_eq.
    + rewrite decide_False by naive_solver. done.
  - rewrite decide_False by set_solver. destruct (g m); [|done]. cbn. by apply lookup_delete_ne.
Qed.

Lemma collect_counts g ms : forall r, counts_ok r -> counts_ok (collect g r ms).
Proof.
  induction ms as [|m ms IH]; intros r H; [done|]. cbn [collect foldl].
  apply IH. destruct (g m); [by apply counts_untrack|done].
Qed.

(** ** Invariants of the specification *)

(** Every resting order has an entry, which satisfies [F]. *)
Definition covered (F : Z -> Z * Z -> Prop) (L : market) (r : Routes) : Prop :=
  forall id, id ∈ ids L -> exists x, uid_map r !! id = Some x /\ F id x.

Record exact (L : market) (r : Routes) : Prop := {
  ex_dom id : is_Some (uid_map r !! id) <-> id ∈ ids L;
  ex_counts : counts_ok r
}.

Definition capped (c : Config) (r : Routes) : Prop :=
  0 < c_max_open_orders c -> forall p, p <> 0 -> Z.of_nat (entries r p) <= c_max_open_orders c.

(** A limit order of a kind that may rest, or a cancellation. *)
Definition restable (msg : InboundMsg) : Prop :=
  match msg with
  | InboundNewOrder req => nor_price_ticks req <> 0 /\ (tif_of req = GTC \/ tif_of req = PostOnly)
  | InboundCancelOrder _ => True
  end.

Lemma restable_order req ts : restable (InboundNewOrder req) ->
  o_is_market (order_of req ts) = false /\
  (o_time_in_force (order_of req ts) = GTC \/ o_time_in_force (order_of req ts) = PostOnly).
Proof. intros [Hp Ht]. unfold order_of. by rewrite (proj2 (Z.eqb_neq _ _) Hp). Qed.

Lemma route_taker_ne r req res id : id <> r_order_id res ->
  uid_map (route_taker r req res) !! id = uid_map r !! id.
Proof.
  intros Hne. unfold route_taker. destruct (r_status res); cbn;
    rewrite ?lookup_insert_ne, ?lookup_delete_ne by done; done.
Qed.

Lemma route_taker_eq r req res : uid_map (route_taker r req res) !! r_order_id res =
  if open_status (r_status res) then Some (nor_participant_id req, nor_response_stream_id req)
  else match r_status res with Rejected => uid_map r !! r_order_id res | _ => None end.
Proof.
  unfold route_taker. destruct (r_status res); cbn; rewrite ?lookup_insert_eq, ?lookup_delete_eq; done.
Qed.

Lemma gone_from_true L id : gone_from L id = true <-> id ∉ ids L.
Proof. unfold gone_from. rewrite negb_true_iff, bool_decide_eq_false. done. Qed.

Section placed.
Context (L : market) (order : Order) (req : NewOrderRequest) (r : Routes).
Context (Hlive : all_live L) (Hid : o_id order ∉ ids L).
Abbreviation L' := (spec_place L order).1.
Abbreviation res := (spec_place L order).2.
Abbreviation r' := (collect (gone_from L') (route_taker r req res) (makers (r_fills res))).

(** A resting order keeps its entry; the taker's is new. *)
Lemma placed_lookup id : id ∈ ids L' ->
  uid_map r' !! id =
    if decide (id = o_id order) then Some (nor_participant_id req, nor_response_stream_id req)
    else uid_map r !! id.
Proof.
  intros Hin. destruct (place_ids L order Hlive Hid) as (_ & _ & _ & Hrest).
  rewrite collect_lookup, decide_False by (rewrite gone_from_true; tauto).
  destruct (decide (id = o_id order)) as [->|Hne].
  - rewrite <- (place_order_id L order), route_taker_eq. by rewrite rests_open by by apply Hrest.
  - apply route_taker_ne. by rewrite place_order_id.
Qed.

Lemma placed_covered F : F (o_id order) (nor_participant_id req, nor_response_stream_id req) ->
  covered F L r -> covered F L' r'.
Proof.
  intros HF Hc id Hin. rewrite (placed_lookup _ Hin). destruct (decide _) as [->|Hne]; [eauto|].
  destruct (place_ids L order Hlive Hid) as (Hsub & _). apply Hc. by destruct (Hsub _ Hin).
Qed.

Lemma placed_exact : exact L r -> spec_rests L order = open_status (r_status res) ->
  Z.of_nat (size (uid_map r)) + 1 < 2 ^ 32 -> exact L' r'.
Proof.
  intros [Hdom Hcnt] Hopen Hsz. destruct (place_ids L order Hlive Hid) as (Hsub & Hkeep & _ & Hrest).
  assert (uid_map r !! o_id order = None) as Hfresh.
  { apply eq_None_not_Some. by rewrite Hdom. }
  split.
  - intros id. split.
    + rewrite collect_lookup. destruct (decide _) as [|Hn]; [by intros []|]. rewrite gone_from_true in Hn.
      destruct (decide (id = o_id order)) as [->|Hne].
      * rewrite <- (place_order_id L order), route_taker_eq, place_order_id, Hfresh, <- Hopen.
        destruct (spec_rests L order); [|by destruct (r_status res); intros []]. intros _. by apply Hrest.
      * rewrite route_taker_ne by by rewrite place_order_id. rewrite Hdom. intros Hin.
        destruct (Hkeep _ Hin) as [|Hm]; [done|]. destruct (decide (id ∈ ids L')); tauto.
    + intros Hin. rewrite (placed_lookup _ Hin). destruct (decide _); [done|].
      rewrite Hdom. by destruct (Hsub _ Hin).
  - apply collect_counts. unfold route_taker. rewrite place_order_id.
    destruct (r_status res); try done; by apply counts_track || by apply counts_untrack.
Qed.
End placed.

Lemma entries_untrack_le r id p : (entries (untrack r id) p <= entries r p)%nat.
Proof. rewrite entries_delete. lia. Qed.

Lemma entries_collect_le g ms p : forall r, (entries (collect g r ms) p <= entries r p)%nat.
Proof.
  induction ms as [|m ms IH]; intros r; [done|]. cbn [collect foldl].
  etrans; [apply IH|]. destruct (g m); [apply entries_untrack_le|done].
Qed.

(** An order that is not refused for the cap leaves room for one more entry. *)
Lemma at_cap_false c r p : counts_ok r -> at_cap c r p = false -> 0 < c_max_open_orders c -> p <> 0 ->
  Z.of_nat (entries r p) < c_max_open_orders c.
Proof.
  unfold at_cap. intros Hok Hc Hk Hp. rewrite (proj2 (Z.ltb_lt _ _) Hk), (proj2 (Z.eqb_neq _ _) Hp) in Hc.
  simpl in Hc. rewrite Hok in Hc. destruct (decide _) as [[?|Hz]|]; [done|lia|]. by apply Z.leb_gt in Hc.
Qed.

Lemma capped_taker c r req res : capped c r -> counts_ok r -> uid_map r !! r_order_id res = None ->
  at_cap c r (nor_participant_id req) = false -> capped c (route_taker r req res).
Proof.
  intros Hcap Hok Hn Hroom Hk p Hp. specialize (Hcap Hk p Hp).
  assert (Z.of_nat (entries (track r (r_order_id res) (nor_participant_id req) (nor_response_stream_id req)) p)
    <= c_max_open_orders c) as Ht.
  { rewrite entries_insert by done. destruct (decide _) as [<-|]; [|lia].
    pose proof (at_cap_false c r _ Hok Hroom Hk Hp). lia. }
  unfold route_taker. pose proof (entries_untrack_le r (r_order_id res) p).
  destruct (r_status res); done || lia.
Qed.

Lemma refusal_none_cap c v ts req : refusal c v ts req = None ->
  at_cap c (v_routes v) (nor_participant_id req) = false.
Proof. unfold refusal. repeat (case_match; try done). Qed.

Section runs.
Context {B : Type} {OB : OrderBook B} {LAWS : OrderBookLaws B} {RB : Rtrb}.
Context {PUB : Publication} {PL : PublicationLaws}.
Abbreviation thread := (SymbolThread (B := B)).
Implicit Types (t : thread) (v : View).

Lemma priced_ids L id : id ∈ ids L <-> exists s po, po ∈ priced (L s) /\ o_id po.2 = id.
Proof.
  unfold resting. rewrite <- !priced_orders, fmap_app, elem_of_app, !list_elem_of_fmap. split.
  - intros [(o & -> & (po & -> & Hpo)%list_elem_of_fmap)|(o & -> & (po & -> & Hpo)%list_elem_of_fmap)]; eauto.
  - intros (s & po & Hpo & <-). destruct s; [left|right]; exists po.2; (split; [done|]);
      by apply list_elem_of_fmap_2.
Qed.

Lemma cancel_ids (e : MatchingEngine B) L T o id : wf e L T -> o ∈ resting L ->
  id ∈ ids (upd L (o_side o) (remove_order (o_id o) (L (o_side o)))) <-> id ∈ ids L /\ id <> o_id o.
Proof.
  intros W Ho. rewrite !priced_ids. pose proof (fun s => cancel_priced e L T o s W Ho) as Hp. split.
  - intros (s & po & Hpo & <-). rewrite Hp in Hpo. apply list_elem_of_filter in Hpo as [? ?]. eauto.
  - intros [(s & po & Hpo & <-) Hne]. exists s, po. rewrite Hp, list_elem_of_filter. done.
Qed.

Lemma cancel_routes n m (e : MatchingEngine B) v req F : good n m e (v_market v) ->
  (covered F (v_market v) (v_routes v) ->
   covered F (v_market (spec_cancel_order v req)) (v_routes (spec_cancel_order v req))) /\
  (exact (v_market v) (v_routes v) ->
   exact (v_market (spec_cancel_order v req)) (v_routes (spec_cancel_order v req))).
Proof.
  intros G. unfold spec_cancel_order, spec_cancel.
  destruct (find_order (cor_order_id req) (v_market v)) as [o|] eqn:Hf; [|done]. cbn.
  destruct (find_order_inv _ _ _ Hf) as [Ho <-].
  pose proof (fun id => cancel_ids e (v_market v) [] o id (gd_wf _ _ _ _ G) Ho) as Hids. split.
  - intros Hc id [Hin Hne]%Hids. cbn. rewrite lookup_delete_ne by done. by apply Hc.
  - intros [Hdom Hcnt]. split; [|by apply counts_untrack]. intros id. rewrite Hids. cbn.
    destruct (decide (id = o_id o)) as [->|Hne]; [rewrite lookup_delete_eq; naive_solver|].
    rewrite lookup_delete_ne by done. rewrite Hdom. naive_solver.
Qed.

(** The two outcomes of a new order: nothing changes, or it is placed. *)
Lemma new_order_cases n c v ts req :
  (v_market (spec_new_order c n v ts req) = v_market v /\
   v_routes (spec_new_order c n v ts req) = v_routes v) \/
  (refusal c v ts req = None /\ o_id (order_of req ts) ∉ ids (v_market v) /\
   (length (resting (v_market v)) < n)%nat /\
   spec_new_order c n v ts req =
     let '(L, r) := spec_place (v_market v) (order_of req ts) in
     mkView L (collect (gone_from L) (route_taker (v_routes v) req r) (makers (r_fills r)))
       (record_trades ts (v_breaker v) (r_fills r))
       (match last (r_fills r) with Some f => f.1.2 | None => v_last v end)).
Proof.
  unfold spec_new_order. destruct (refusal c v ts req) as [x|]; [by left|]. unfold spec_place_checked.
  destruct (Engine.validate_order _); [|by left]. destruct (decide _); [by left|].
  destruct (Nat.leb_spec n (length (resting (v_market v)))); [by left|]. right.
  split_and!; [done..|]. by destruct (spec_place _ _).
Qed.

Lemma exact_size L r : NoDup (ids L) -> exact L r -> size (uid_map r) = length (resting L).
Proof.
  intros Hnd [Hdom _]. rewrite <- size_dom, <- (length_fmap o_id), <- (size_list_to_set (C := gset Z)) by done.
  f_equal. apply set_eq. intros id. by rewrite elem_of_dom, elem_of_list_to_set, Hdom.
Qed.

Lemma step_covered n m t v c ts msg F : sim n m t v ->
  (forall req, msg = InboundNewOrder req ->
     F (nor_client_order_id req) (nor_participant_id req, nor_response_stream_id req)) ->
  covered F (v_market v) (v_routes v) ->
  covered F (v_market (spec_message c n v ts msg)) (v_routes (spec_message c n v ts msg)).
Proof.
  intros S HF Hc. pose proof (sim_good _ _ _ _ S) as G. destruct msg as [req|req]; cbn [spec_message].
  - destruct (new_order_cases n c v ts req) as [[-> ->]|(_ & Hid & _ & ->)]; [done|].
    pose proof (placed_covered (v_market v) (order_of req ts) req (v_routes v) (gd_live _ _ _ _ G) Hid F) as H.
    destruct (order_of_facts req ts) as (_ & _ & Ho). rewrite Ho in H. specialize (H (HF _ eq_refl) Hc).
    by destruct (spec_place _ _).
  - by apply (cancel_routes n m _ v req F G).
Qed.

Lemma step_exact n m t v c ts msg : sim n m t v -> Z.of_nat n < 2 ^ 32 -> restable msg ->
  exact (v_market v) (v_routes v) -> capped c (v_routes v) ->
  exact (v_market (spec_message c n v ts msg)) (v_routes (spec_message c n v ts msg)) /\
  capped c (v_routes (spec_message c n v ts msg)).
Proof.
  intros S Hn Hrest He Hcap. pose proof (sim_good _ _ _ _ S) as G. destruct msg as [req|req]; cbn [spec_message].
  - destruct (new_order_cases n c v ts req) as [[-> ->]|(Href & Hid & Hlen & ->)]; [done|].
    destruct (restable_order req ts Hrest) as [Hm Ht].
    pose proof (exact_size _ _ (w_ids _ _ _ (gd_wf _ _ _ _ G)) He) as Hsz.
    pose proof (placed_exact (v_market v) (order_of req ts) req (v_routes v) (gd_live _ _ _ _ G) Hid He
      (open_rests _ _ Hm Ht)) as H.
    assert (capped c (route_taker (v_routes v) req (spec_place (v_market v) (order_of req ts)).2)) as Hc.
    { apply capped_taker; [done|apply He| |by eapply refusal_none_cap]. rewrite place_order_id.
      apply eq_None_not_Some. by rewrite (ex_dom _ _ He). }
    destruct (spec_place _ _) as [L r]. cbn [fst snd v_market v_routes] in *. split; [apply H; lia|].
    intros Hk p Hp. specialize (Hc Hk p Hp). pose proof (entries_collect_le (gone_from L) (makers (r_fills r)) p
      (route_taker (v_routes v) req r)). lia.
  - split; [by apply (cancel_routes n m _ v req (fun _ _ => True) G)|]. unfold spec_cancel_order.
    destruct (spec_cancel _ _) as [L [x|x]]; [|done]. intros Hk p Hp. specialize (Hcap Hk p Hp).
    pose proof (entries_untrack_le (v_routes v) (cor_order_id req) p). cbn. lia.
Qed.

(** An invariant of the specification holds along the run of a thread, which does
    not panic. *)
Lemma run_invariant n m c (P : View -> Prop) (Q : InboundMsg -> Prop) :
  (forall t v ts msg, sim n m t v -> Q msg -> P v -> P (spec_message c n v ts msg)) ->
  forall ms t v, sim n m t v -> (n <= m)%nat ->
  volume (resting (v_market v)) + arrival_lots ms <= i64_max ->
  Forall (fun a => Q (a_msg a)) ms -> P v ->
  exists t', on_messages c t ms = Some t' /\ sim n m t' (spec_messages c n v ms) /\
    P (spec_messages c n v ms).
Proof.
  intros Hstep. induction ms as [|a ms IH]; intros t v S Hnm Hv HQ HP; [by exists t|].
  apply Forall_cons in HQ as [Ha HQ]. cbn [on_messages arrival_lots foldr] in *.
  pose proof (arrival_lots_nonneg ms). fold (arrival_lots ms) in Hv.
  destruct (on_message_sim n m c (a_mode a) (a_ts a) (a_sample_ns a) t v (a_msg a) S Hnm)
    as (t1 & -> & S1 & Hv1); [lia|].
  cbn [mbind option_bind]. apply (IH t1); [done|done|lia|done|by eapply Hstep].
Qed.

(** The thread of a symbol at its start on an empty book, and its view. *)
Definition fresh (n m : nat) (env : environment) (pubs : list publisher) (trade_pub : publisher) : thread :=
  start env (Engine.new (mkPoolConfig n m)) ∅ pubs trade_pub.
Definition fresh_view (env : environment) : View :=
  mkView (fun _ => []) (mkRoutes ∅ ∅) (breaker_from_env env) 0.

(** Pools of a size the engine can address and that fit each other, an update
    publisher, and an input whose lots fit in 64 bits. *)
Record feasible (n m : nat) (pubs : list publisher) (ms : list Arrival) : Prop := {
  fs_pools : (n <= m)%nat;
  fs_width : Z.of_nat m <= u64_max;
  fs_pubs : pubs <> [];
  fs_lots : arrival_lots ms <= i64_max
}.

Lemma fresh_run n m env c pubs trade_pub ms (P : View -> Prop) (Q : InboundMsg -> Prop) :
  feasible n m pubs ms -> Forall (fun a => Q (a_msg a)) ms -> P (fresh_view env) ->
  (forall t v ts msg, sim n m t v -> Q msg -> P v -> P (spec_message c n v ts msg)) ->
  exists t, on_messages c (fresh n m env pubs trade_pub) ms = Some t /\
    sim n m t (spec_messages c n (fresh_view env) ms) /\ P (spec_messages c n (fresh_view env) ms).
Proof.
  intros [Hnm Hm Hp Hl] HQ HP Hstep. apply (run_invariant n m c P Q Hstep); try done.
  by apply start_sim; [lia|..].
Qed.

(** C38: The matching thread refines its specification.  From an empty book, any
    sequence of orders and cancellations, accepted or not, live or replayed, is
    handled without a panic, and the book, the routing table, the open-order
    counts, the breaker and the last price are those of the specification. *)
Theorem thread_refines n m env c pubs trade_pub ms : feasible n m pubs ms ->
  exists t, on_messages c (fresh n m env pubs trade_pub) ms = Some t /\
    let v := spec_messages c n (fresh_view env) ms in
    good n m (t_engine t) (v_market v) /\ t_routes t = v_routes v /\ t_breaker t = v_breaker v /\
    t_last_trade_ticks t = v_last v.
Proof.
  intros Hf. destruct (fresh_run n m env c pubs trade_pub ms (fun _ => True) (fun _ => True) Hf)
    as (t & He & S & _); [by apply Forall_forall|done|done|].
  exists t. split; [done|]. by destruct S.
Qed.

(** Every resting order can be routed.  Whatever messages arrive, each order in
    the book has an entry in the routing table, with the participant and the
    response stream of a request that carried its id. *)
Theorem orders_stay_routable n m env c pubs trade_pub ms : feasible n m pubs ms ->
  exists t, on_messages c (fresh n m env pubs trade_pub) ms = Some t /\
    forall id, Engine.contains_order (t_engine t) id = true ->
    exists req, InboundNewOrder req ∈ a_msg <$> ms /\ nor_client_order_id req = id /\
      uid_map (t_routes t) !! id = Some (nor_participant_id req, nor_response_stream_id req).
Proof.
  intros Hf. set (F := fun id (x : Z * Z) => exists req, InboundNewOrder req ∈ a_msg <$> ms /\
    nor_client_order_id req = id /\ x = (nor_participant_id req, nor_response_stream_id req)).
  destruct (fresh_run n m env c pubs trade_pub ms (fun v => covered F (v_market v) (v_routes v))
    (fun msg => msg ∈ a_msg <$> ms) Hf) as (t & He & S & Hc).
  - apply Forall_forall. intros a Ha. by apply list_elem_of_fmap_2.
  - intros id Hid. by apply elem_of_nil in Hid.
  - intros t v ts msg S Hmsg. eapply step_covered; [done|]. intros req ->. by exists req.
  - exists t. split; [done|]. intros id Hid.
    rewrite (wf_contains _ _ _ _ (gd_wf _ _ _ _ (sim_good _ _ _ _ S))) in Hid.
    apply bool_decide_eq_true in Hid. apply Hc in Hid as (x & Hx & req & Hin & Hr & ->).
    rewrite (sim_routes _ _ _ _ S). eauto.
Qed.

(** Open orders are counted exactly.  On limit orders that may rest (GTC and
    post-only) and cancellations, the routing table lists exactly the orders in the
    book, the count of each participant is the number of its entries, and with a
    cap no participant ever has more open orders than the cap allows. *)
Theorem open_orders_exact n m env c pubs trade_pub ms : feasible n m pubs ms ->
  Z.of_nat n < 2 ^ 32 -> Forall (fun a => restable (a_msg a)) ms ->
  exists t, on_messages c (fresh n m env pubs trade_pub) ms = Some t /\
    (forall id, is_Some (uid_map (t_routes t) !! id) <-> Engine.contains_order (t_engine t) id = true) /\
    (forall p, p <> 0 -> default 0 (open_counts (t_routes t) !! p) = Z.of_nat (entries (t_routes t) p)) /\
    (0 < c_max_open_orders c -> forall p, p <> 0 ->
       Z.of_nat (entries (t_routes t) p) <= c_max_open_orders c).
Proof.
  intros Hf Hn Hr. destruct (fresh_run n m env c pubs trade_pub ms
    (fun v => exact (v_market v) (v_routes v) /\ capped c (v_routes v)) restable Hf Hr)
    as (t & He & S & Hx & Hc).
  - split; [|intros Hk p _; cbn [fresh_view v_routes]; rewrite entries_empty; lia]. split.
    + intros id. cbn. rewrite lookup_empty. split; [by intros []|]. intros Hid. by apply elem_of_nil in Hid.
    + intros p. cbn [fresh_view v_routes open_counts]. by rewrite entries_empty, decide_True by auto.
  - intros t v ts msg S Hmsg [Hx Hc]. by eapply step_exact.
  - exists t. rewrite (sim_routes _ _ _ _ S). split_and!; [done| |intros p Hp|exact Hc].
    + intros id. rewrite (wf_contains _ _ _ _ (gd_wf _ _ _ _ (sim_good _ _ _ _ S))).
      rewrite bool_decide_eq_true. apply Hx.
    + rewrite (ex_counts _ _ Hx). destruct (decide _) as [[?|Hz]|]; [done|by rewrite Hz|done].
Qed.

(** A partially filled taker keeps its slot.  A market or IOC order that is
    filled in part is not in the book, but its entry stays in the routing table and
    counts against the participant; cancelling the order does not remove it. *)
Theorem partial_taker_leaks n m c mode ts sn t v req L r creq mode' ts' sn' :
  sim n m t v -> (n <= m)%nat ->
  volume (resting (v_market v)) + Z.max 0 (nor_quantity_lots req) <= i64_max ->
  refusal c v ts req = None ->
  spec_place_checked n (v_market v) (order_of req ts) = (L, Ok r) -> r_status r = PartiallyFilled ->
  nor_price_ticks req = 0 \/ tif_of req = IOC -> cor_order_id creq = nor_client_order_id req ->
  exists t1 t2, on_new_order c mode ts sn t req = Some t1 /\
    on_cancel_order c mode' ts' sn' t1 creq = Some t2 /\
    Engine.contains_order (t_engine t1) (nor_client_order_id req) = false /\
    uid_map (t_routes t2) !! nor_client_order_id req =
      Some (nor_participant_id req, nor_response_stream_id req) /\
    t_routes t2 = t_routes t1.
Proof.
  intros S Hnm Hv Href Hpl Hst Hkind Hcid. pose proof (sim_good _ _ _ _ S) as G.
  destruct (on_new_order_sim n m c mode ts sn t v req S Hnm Hv) as (t1 & H1 & S1 & _).
  destruct (on_cancel_sim n m c mode' ts' sn' t1 _ creq S1) as (t2 & H2 & S2 & _).
  exists t1, t2. destruct (order_of_facts req ts) as (_ & _ & Hid).
  assert (v_market (spec_new_order c n v ts req) = L /\ nor_client_order_id req ∉ ids L /\
    uid_map (v_routes (spec_new_order c n v ts req)) !! nor_client_order_id req =
      Some (nor_participant_id req, nor_response_stream_id req)) as (HL & Hnot & Hmap).
  { unfold spec_new_order. rewrite Href, Hpl. cbn. revert Hpl. unfold spec_place_checked.
    destruct (Engine.validate_order _); [|done]. destruct (decide _) as [|Hfresh]; [done|].
    destruct (Nat.leb _ _); [done|]. destruct (spec_place _ _) as [L' r'] eqn:Hsp. intros [= -> ->].
    destruct (place_ids (v_market v) (order_of req ts) (gd_live _ _ _ _ G) Hfresh) as (_ & _ & Hmk & Hrest).
    pose proof (place_order_id (v_market v) (order_of req ts)) as Hoid.
    rewrite Hsp in *. cbn [fst snd] in *. rewrite Hid in *.
    assert (nor_client_order_id req ∉ ids L) as Hnot.
    { rewrite Hrest. unfold spec_rests, order_of. destruct (Z.eqb_spec (nor_price_ticks req) 0) as [|Hp]; [done|].
      cbn. destruct Hkind as [| ->]; done. }
    split_and!; [done..|]. rewrite collect_lookup, decide_False by (intros [Hm _]; auto).
    rewrite <- Hoid, route_taker_eq, Hst. done. }
  assert (spec_cancel_order (spec_new_order c n v ts req) creq =
    mkView L (v_routes (spec_new_order c n v ts req)) (v_breaker (spec_new_order c n v ts req))
      (v_last (spec_new_order c n v ts req))) as Hcv.
  { unfold spec_cancel_order, spec_cancel. by rewrite HL, Hcid, find_order_None. }
  rewrite Hcv in S2. pose proof (sim_routes _ _ _ _ S1) as R1. pose proof (sim_routes _ _ _ _ S2) as R2.
  cbn in R2. split_and!; [done|done| |congruence|congruence].
  rewrite (wf_contains _ _ _ _ (gd_wf _ _ _ _ (sim_good _ _ _ _ S1))). rewrite HL. by rewrite bool_decide_false.
Qed.
End runs.

(** ** A concrete thread, for the witnesses *)

#[local] Existing Instance demo_publication.
#[local] Existing Instance demo_publication_laws.

(** At most two open orders per participant. *)
Definition demo_env : environment :=
  fun k => if decide (k = str "ENGINE_MAX_OPEN_ORDERS_PER_USER") then Some (str "2") else None.
Definition demo_rules : SymbolRules :=
  mkSymbolRules (f64_lit 1 100) (f64_lit 1 1000000) 1000000 100 (i64_as_f64 5) 1000000 10 50 75 10000 0 0.
Definition demo_config : Config := mkConfig (str "BTC_USDT") demo_rules 10000 0 0 2.

Lemma demo_config_from_env : Config_from_env demo_env (str "BTC_USDT") = Some demo_config.
Proof. vm_compute. reflexivity. Qed.

Definition demo_order (id participant price lots side tif : Z) : InboundMsg :=
  InboundNewOrder (mkNewOrderRequest id participant price lots side tif 201 0 (zeros 9)
    (symbol_bytes (str "BTC_USDT"))).
Definition live_at (ts : Z) (msg : InboundMsg) : Arrival := mkArrival msg (mkMode true 1) ts ts.

Definition demo_pubs : list publisher := [([], O); ([], O)].

(** Participant 7 sells five lots at 100; 8 buys three of them; 7 sells at 101. *)
Definition demo_input : list Arrival :=
  [live_at 1 (demo_order 11 7 100 5 1 0); live_at 2 (demo_order 12 8 100 3 0 0);
   live_at 3 (demo_order 13 7 101 4 1 3); live_at 4 (demo_order 14 7 102 4 1 0)].

Lemma demo_feasible : feasible 8 8 demo_pubs demo_input.
Proof. by split. Qed.

Definition demo_run (ms : list Arrival) : option (SymbolThread (B := SkipList)) :=
  on_messages demo_config (fresh 8 8 demo_env demo_pubs ([], O)) ms.

Lemma thread_refines_witness : exists t, demo_run demo_input = Some t /\
  good 8 8 (t_engine t) (v_market (spec_messages demo_config 8 (fresh_view demo_env) demo_input)) /\
  v_last (spec_messages demo_config 8 (fresh_view demo_env) demo_input) = 100.
Proof.
  destruct (thread_refines (B := SkipList) 8 8 demo_env demo_config demo_pubs ([], O) demo_input demo_feasible)
    as (t & He & G & _). exists t. split; [exact He|]. split; [exact G|]. vm_compute. reflexivity.
Defined.

Lemma orders_stay_routable_witness : exists t, demo_run demo_input = Some t /\
  (Engine.contains_order (t_engine t) 13 = true -> is_Some (uid_map (t_routes t) !! 13)).
Proof.
  destruct (orders_stay_routable (B := SkipList) 8 8 demo_env demo_config demo_pubs ([], O) demo_input demo_feasible)
    as (t & He & H). exists t. split; [exact He|]. intros Hc.
  destruct (H 13 Hc) as (req & _ & _ & Hu). eexists. exact Hu.
Defined.

(** The third order of participant 7 is refused: it already has two in the book. *)
Lemma open_orders_exact_witness : exists t, demo_run demo_input = Some t /\
  Z.of_nat (entries (t_routes t) 7) <= 2 /\ Engine.contains_order (t_engine t) 14 = false.
Proof.
  destruct (open_orders_exact (B := SkipList) 8 8 demo_env demo_config demo_pubs ([], O) demo_input demo_feasible)
    as (t & He & _ & _ & Hcap); [lia| |].
  { repeat (apply Forall_cons; split); try (split; [discriminate|vm_compute; auto]). by apply Forall_nil. }
  exists t. split; [exact He|]. split; [apply Hcap; [reflexivity|discriminate]|].
  assert ((fun t => Engine.contains_order (t_engine t) 14) <$> demo_run demo_input = Some false) as Hc
    by (vm_compute; reflexivity).
  unfold demo_run in Hc. rewrite He in Hc. injection Hc. auto.
Defined.

(** After participant 7's sell order, an IOC order of participant 8 for more lots
    than the book has. *)
Definition demo_before : list Arrival := [live_at 1 (demo_order 11 7 100 5 1 0)].
Definition demo_ioc : NewOrderRequest :=
  mkNewOrderRequest 12 8 100 9 0 1 201 0 (zeros 9) (symbol_bytes (str "BTC_USDT")).
Definition demo_thread : SymbolThread (B := SkipList) :=
  default (fresh 8 8 demo_env demo_pubs ([], O)) (demo_run demo_before).
Definition demo_view : View := spec_messages demo_config 8 (fresh_view demo_env) demo_before.

Lemma demo_thread_sim : sim 8 8 demo_thread demo_view.
Proof.
  destruct (fresh_run (B := SkipList) 8 8 demo_env demo_config demo_pubs ([], O) demo_before
    (fun _ => True) (fun _ => True)) as (t & He & S & _); [by split|by repeat constructor|done|done|].
  unfold demo_thread, demo_run. rewrite He. exact S.
Qed.

Lemma partial_taker_leaks_witness : exists t1 t2,
  on_new_order demo_config (mkMode true 1) 2 2 demo_thread demo_ioc = Some t1 /\
  on_cancel_order demo_config (mkMode true 1) 3 3 t1 (mkCancelOrderRequest 12 8 201 (zeros 4)) = Some t2 /\
  Engine.contains_order (t_engine t1) 12 = false /\ uid_map (t_routes t2) !! 12 = Some (8, 201).
Proof.
  destruct (partial_taker_leaks (B := SkipList) 8 8 demo_config (mkMode true 1) 2 2 demo_thread demo_view demo_ioc
    (spec_place_checked 8 (v_market demo_view) (order_of demo_ioc 2)).1
    (mkPlaceOrderResult 12 5 PartiallyFilled [(11, 100, 5)]) (mkCancelOrderRequest 12 8 201 (zeros 4))
    (mkMode true 1) 3 3) as (t1 & t2 & H1 & H2 & Hc & Hu & _).
  - exact demo_thread_sim.
  - lia.
  - vm_compute. discriminate.
  - vm_compute. reflexivity.
  - apply injective_projections; [reflexivity|vm_compute; reflexivity].
  - reflexivity.
  - right. reflexivity.
  - reflexivity.
  - exists t1, t2. split; [exact H1|]. split; [exact H2|]. split; [exact Hc|exact Hu].
Defined.

(** Two such orders use up a cap of two: participant 8 has nothing in the book, and
    its next order is refused. *)
Lemma leak_locks_out :
  let v := spec_messages demo_config 8 (fresh_view demo_env)
    [live_at 1 (demo_order 11 7 100 5 1 0); live_at 2 (demo_order 12 8 100 9 0 1);
     live_at 3 (demo_order 13 7 100 5 1 0); live_at 4 (demo_order 14 8 100 9 0 1)] in
  resting (v_market v) = [] /\
  refusal demo_config v 5 (mkNewOrderRequest 15 8 100 1 0 0 201 0 (zeros 9) (symbol_bytes (str "BTC_USDT"))) =
    Some 9.
Proof. vm_compute. done. Qed.

(** With orders restored from the database the counts start at zero all the same:
    participant 7 has two restored orders and no count, so it may open two more. *)
Lemma restored_orders_uncounted (e : MatchingEngine SkipList) :
  let t := start demo_env e {[1 := (7, 200); 2 := (7, 200)]} demo_pubs ([], O) in
  entries (t_routes t) 7 = 2%nat /\ open_counts (t_routes t) !! 7 = None /\
  at_cap demo_config (t_routes t) 7 = false.
Proof. vm_compute. done. Qed.
