(* ===== verification/SymbolThreadReplay.v ===== *)
(** Replaying the input of a matching thread.  A restarted or standing-by engine
    applies the recorded messages again, at other times and without publishing;
    with the circuit breaker off the market it rebuilds is the same but for the
    timestamps of the orders, and with the breaker on it need not be. *)
From Stdlib Require Import ZArith Lia String FunctionalExtensionality.
From stdpp Require Import base numbers list gmap sorting.
From S2P Require Import Prelude ListPool SkipList SkipListInv BookSpec OrderBook SkipListBook Types.
From S2P Require Import Pools Engine MatchSpec EngineInv EngineMatch EngineOps EnginePlace EngineRun.
From S2P Require Import EngineFacts EngineProps Bytes Fixed F64 Text SymbolRules Pod Sbe Routing.
From S2P Require Import AeronTransport Leader SymbolThread SymbolThreadInv SymbolThreadProps.

#[local] Open Scope Z_scope.
Import SymbolThread.

(** ** Forgetting the timestamps *)

Definition untimed (o : Order) : Order :=
  mkOrder (o_id o) (o_side o) (o_price_ticks o) (o_quantity_lots o) (o_filled_lots o)
    (o_time_in_force o) 0 (o_is_market o).

Definition erase_level (l : Z * list Order) : Z * list Order := (l.1, untimed <$> l.2).
Definition erase (l : levels) : levels := erase_level <$> l.
Definition erase_market (L : market) : market := fun s => erase (L s).

Lemma erase_cons p os l : erase ((p, os) :: l) = (p, untimed <$> os) :: erase l.
Proof. done. Qed.

Lemma erase_orders l : orders_of (erase l) = untimed <$> orders_of l.
Proof.
  induction l as [|[p os] l IH]; [done|]. rewrite erase_cons, !orders_of_cons, IH. by rewrite fmap_app.
Qed.

Lemma erase_resting L : resting (erase_market L) = untimed <$> resting L.
Proof. unfold resting, erase_market. by rewrite !erase_orders, fmap_app. Qed.

Lemma erase_ids L : ids (erase_market L) = ids L.
Proof. rewrite erase_resting, <- list_fmap_compose. by apply list_fmap_ext. Qed.

Lemma erase_upd L s l : erase_market (upd L s l) = upd (erase_market L) s (erase l).
Proof. apply functional_extensionality. intros s'. unfold erase_market, upd. by destruct (decide _). Qed.

Lemma erase_volume (os : list Order) : volume (untimed <$> os) = volume os.
Proof. induction os as [|o os IH]; [done|]. rewrite fmap_cons. simpl. by rewrite IH. Qed.

Lemma erase_eat p rem os : eat p rem (untimed <$> os) =
  let '(fs, rest, rem') := eat p rem os in (fs, untimed <$> rest, rem').
Proof.
  revert rem. induction os as [|o os IH]; intros rem; [done|]. rewrite fmap_cons. cbn [eat].
  destruct (Z.leb rem 0); [done|]. change (remaining (untimed o)) with (remaining o).
  destruct (Z.ltb rem (remaining o)); [done|]. rewrite IH. by destruct (eat _ _ _) as [[? ?] ?].
Qed.

Lemma erase_sweep ok rem l : sweep ok rem (erase l) =
  let '(fs, l', rem') := sweep ok rem l in (fs, erase l', rem').
Proof.
  revert rem. induction l as [|[p os] l IH]; intros rem; [done|]. rewrite erase_cons. cbn [sweep].
  destruct (_ || _); [done|]. rewrite erase_eat. destruct (eat p rem os) as [[fs rest] rem1].
  destruct rest as [|x rest]; [|done]. cbn. rewrite IH. by destruct (sweep _ _ _) as [[? ?] ?].
Qed.

Lemma erase_available ok l : available ok (erase l) = available ok l.
Proof.
  induction l as [|[p os] l IH]; [done|]. rewrite erase_cons. cbn [available].
  by rewrite erase_volume, IH.
Qed.

Lemma erase_add so o l : add_order so (untimed o) (erase l) = erase (add_order so o l).
Proof.
  induction l as [|[p os] l IH]; [done|]. rewrite erase_cons. cbn [add_order].
  change (o_price_ticks (untimed o)) with (o_price_ticks o).
  destruct (Z.eqb p _); [by rewrite erase_cons, fmap_app|]. destruct (decide _); [done|].
  by rewrite erase_cons, IH.
Qed.

Lemma erase_filter id (os : list Order) : filter (fun o => o_id o <> id) (untimed <$> os) =
  untimed <$> filter (fun o => o_id o <> id) os.
Proof.
  induction os as [|o os IH]; [done|]. rewrite fmap_cons. destruct (decide (o_id o <> id)).
  - rewrite !filter_cons_True by done. by rewrite fmap_cons, IH.
  - by rewrite !filter_cons_False by done.
Qed.

Lemma erase_os_ids (os : list Order) : o_id <$> (untimed <$> os) = o_id <$> os.
Proof. rewrite <- list_fmap_compose. by apply list_fmap_ext. Qed.

Lemma erase_put p os l : put_level p (untimed <$> os) (erase l) = erase (put_level p os l).
Proof. by destruct os. Qed.

Lemma erase_remove id l : remove_order id (erase l) = erase (remove_order id l).
Proof.
  induction l as [|[p os] l IH]; [done|]. rewrite erase_cons. cbn [remove_order].
  destruct (decide (id ∈ o_id <$> os)) as [Hin|Hn].
  - rewrite decide_True by by rewrite erase_os_ids. by rewrite erase_filter, erase_put.
  - rewrite decide_False by by rewrite erase_os_ids. by rewrite IH, erase_cons.
Qed.

(** ** The specification does not read them *)

Lemma erase_match L order : spec_match (erase_market L) (untimed order) =
  (erase_market (spec_match L order).1, (spec_match L order).2).
Proof.
  unfold spec_match. change (erase_market L (opposite (o_side (untimed order)))) with
    (erase (L (opposite (o_side order)))). rewrite erase_sweep.
  change (accepts (untimed order)) with (accepts order).
  destruct (sweep _ _ _) as [[fs l] rem]. cbn. by rewrite erase_upd.
Qed.

Lemma erase_rest L o : spec_rest (erase_market L) (untimed o) = erase_market (spec_rest L o).
Proof. unfold spec_rest. rewrite erase_upd. cbn. unfold erase_market at 2. by rewrite erase_add. Qed.

Lemma erase_crosses L order : crosses (erase_market L) (untimed order) = crosses L order.
Proof.
  unfold crosses, erase_market. cbn [untimed o_side o_price_ticks].
  by destruct (L (opposite (o_side order))) as [|[p os] l].
Qed.

Lemma erase_place L order : spec_place (erase_market L) (untimed order) =
  (erase_market (spec_place L order).1, (spec_place L order).2).
Proof.
  rewrite !spec_place_split, erase_match. cbv zeta. cbn [fst snd].
  change (erase_market L (opposite (o_side (untimed order)))) with (erase (L (opposite (o_side order)))).
  rewrite erase_available, erase_crosses. cbn [untimed o_is_market o_time_in_force o_quantity_lots o_id].
  change (accepts (untimed order)) with (accepts order).
  destruct (o_is_market order); [done|]. destruct (o_time_in_force order).
  - destruct (Z.ltb _ _); [|done]. cbn [fst snd]. by rewrite <- erase_rest.
  - done.
  - by destruct (Z.leb _ _).
  - destruct (crosses L order); [done|]. cbn [fst snd]. by rewrite <- erase_rest.
Qed.

Lemma erase_place_checked n L order : spec_place_checked n (erase_market L) (untimed order) =
  (erase_market (spec_place_checked n L order).1, (spec_place_checked n L order).2).
Proof.
  unfold spec_place_checked. change (Engine.validate_order (untimed order)) with (Engine.validate_order order).
  destruct (Engine.validate_order order); [|done]. rewrite erase_ids. change (o_id (untimed order)) with (o_id order).
  destruct (decide _); [done|]. rewrite erase_resting, length_fmap. destruct (Nat.leb _ _); [done|].
  rewrite erase_place. by destruct (spec_place L order).
Qed.

Lemma erase_find id L : find_order id (erase_market L) = untimed <$> find_order id L.
Proof.
  unfold find_order. rewrite erase_resting. induction (resting L) as [|o os IH]; [done|].
  rewrite fmap_cons. simpl. by destruct (Z.eqb _ _).
Qed.

Lemma erase_cancel L id : spec_cancel (erase_market L) id =
  (erase_market (spec_cancel L id).1, (spec_cancel L id).2).
Proof.
  unfold spec_cancel. rewrite erase_find. destruct (find_order id L) as [o|]; [|done]. cbn.
  rewrite erase_upd. unfold erase_market at 2. by rewrite erase_remove.
Qed.

Definition erase_view (v : View) : View :=
  mkView (erase_market (v_market v)) (v_routes v) (v_breaker v) (v_last v).

(** A breaker that is configured off and has never halted. *)
Definition breaker_off (b : CircuitBreaker) : Prop := cb_threshold_bps b = 0 /\ cb_halted_until_ns b = 0.

Lemma breaker_off_trades ts b fs : breaker_off b -> record_trades ts b fs = b.
Proof.
  intros [Ht Hh]. unfold record_trades. induction fs as [|f fs IH]; [done|]. cbn [foldl].
  unfold CircuitBreaker.on_trade at 2. rewrite Ht. exact IH.
Qed.

Lemma erase_refusal c v ts req : breaker_off (v_breaker v) -> 0 <= ts ->
  refusal c (erase_view v) 0 req = refusal c v ts req.
Proof.
  intros [_ Hh] Hts. unfold refusal, CircuitBreaker.is_halted. cbn [erase_view v_breaker v_market v_routes v_last].
  rewrite Hh. rewrite (proj2 (Z.ltb_ge ts 0)) by done. rewrite (proj2 (Z.ltb_ge 0 0)) by done.
  assert (forall s, best (erase_market (v_market v)) s = best (v_market v) s) as Hb.
  { intros s. unfold best, erase_market. by destruct (v_market v s) as [|[p os] l]. }
  unfold spec_outside. by rewrite !Hb.
Qed.

Lemma untimed_order req ts : untimed (order_of req ts) = order_of req 0.
Proof. unfold order_of. by destruct (Z.eqb _ 0). Qed.

Lemma erase_message c n v ts msg : breaker_off (v_breaker v) -> 0 <= ts ->
  spec_message c n (erase_view v) 0 msg = erase_view (spec_message c n v ts msg) /\
  v_breaker (spec_message c n v ts msg) = v_breaker v.
Proof.
  intros Hoff Hts. destruct msg as [req|req]; cbn [spec_message].
  - unfold spec_new_order. rewrite (erase_refusal c v ts req Hoff Hts). destruct (refusal c v ts req); [done|].
    rewrite <- (untimed_order req ts). cbn [erase_view v_market]. rewrite erase_place_checked.
    destruct (spec_place_checked n (v_market v) (order_of req ts)) as [L [r|x]]; [|done]. cbn [fst snd].
    rewrite !breaker_off_trades by done. split; [|done]. unfold erase_view. cbn. f_equal.
    apply collect_ext. intros id. unfold gone_from. by rewrite erase_ids.
  - unfold spec_cancel_order. cbn [erase_view v_market]. rewrite erase_cancel.
    by destruct (spec_cancel (v_market v) (cor_order_id req)) as [L [r|x]].
Qed.

Lemma erase_messages c n ms : forall v, breaker_off (v_breaker v) -> Forall (fun a => 0 <= a_ts a) ms ->
  erase_view (spec_messages c n v ms) =
    foldl (fun v msg => spec_message c n v 0 msg) (erase_view v) (a_msg <$> ms).
Proof.
  induction ms as [|a ms IH]; intros v Hoff Hts; [done|]. apply Forall_cons in Hts as [Ha Hts].
  destruct (erase_message c n v (a_ts a) (a_msg a) Hoff Ha) as [He Hb].
  rewrite fmap_cons. cbn [foldl]. rewrite He. unfold spec_messages. cbn [foldl].
  apply IH; [by rewrite Hb|done].
Qed.

Section replay.
Context {B : Type} {OB : OrderBook B} {LAWS : OrderBookLaws B} {RB : Rtrb}.
Context {PUB : Publication} {PL : PublicationLaws}.

(** C39: Replay rebuilds the market.  Two threads of a symbol that start empty and
    process the same messages, at any times, live or silent, with any publishers,
    end with the same orders in the same priority (but for their timestamps), the
    same routing table and counts and the same last price, provided that the
    circuit breaker is off. *)
Theorem replay_deterministic n m env c pubs1 pubs2 tp1 tp2 ms1 ms2 :
  feasible n m pubs1 ms1 -> feasible n m pubs2 ms2 -> cb_threshold_bps (breaker_from_env env) = 0 ->
  a_msg <$> ms1 = a_msg <$> ms2 -> Forall (fun a => 0 <= a_ts a) ms1 -> Forall (fun a => 0 <= a_ts a) ms2 ->
  exists t1 t2 L1 L2,
    on_messages c (fresh (B := B) n m env pubs1 tp1) ms1 = Some t1 /\ good n m (t_engine t1) L1 /\
    on_messages c (fresh (B := B) n m env pubs2 tp2) ms2 = Some t2 /\ good n m (t_engine t2) L2 /\
    (forall s, erase (L1 s) = erase (L2 s)) /\
    t_routes t1 = t_routes t2 /\ t_last_trade_ticks t1 = t_last_trade_ticks t2.
Proof.
  intros F1 F2 Hoff Hms Ht1 Ht2.
  destruct (fresh_run (B := B) n m env c pubs1 tp1 ms1 (fun _ => True) (fun _ => True) F1) as (t1 & E1 & S1 & _);
    [by apply Forall_forall|done|done|].
  destruct (fresh_run (B := B) n m env c pubs2 tp2 ms2 (fun _ => True) (fun _ => True) F2) as (t2 & E2 & S2 & _);
    [by apply Forall_forall|done|done|].
  assert (breaker_off (v_breaker (fresh_view env))) as Hb by done.
  pose proof (erase_messages c n ms1 _ Hb Ht1) as V1. pose proof (erase_messages c n ms2 _ Hb Ht2) as V2.
  rewrite Hms, <- V2 in V1. injection V1 as Hm Hr _ Hl.
  exists t1, t2, (v_market (spec_messages c n (fresh_view env) ms1)),
    (v_market (spec_messages c n (fresh_view env) ms2)).
  destruct S1 as [G1 R1 _ T1 _], S2 as [G2 R2 _ T2 _]. split_and!; [done..| |congruence|congruence].
  intros s. exact (equal_f Hm s).
Qed.
End replay.

(** ** Witnesses *)

#[local] Existing Instance demo_publication.
#[local] Existing Instance demo_publication_laws.

(** A message replayed at [ts]: nothing is published. *)
Definition replay_at (ts : Z) (msg : InboundMsg) : Arrival := mkArrival msg (mkMode false 0) ts ts.

Definition demo_replayed : list Arrival := replay_at 9 <$> (a_msg <$> demo_input).

Lemma replay_deterministic_witness : exists t1 t2,
  demo_run demo_input = Some t1 /\ demo_run demo_replayed = Some t2 /\ t_routes t1 = t_routes t2.
Proof.
  destruct (replay_deterministic (B := SkipList) 8 8 demo_env demo_config demo_pubs demo_pubs ([], O) ([], O)
    demo_input demo_replayed) as (t1 & t2 & L1 & L2 & H1 & _ & H2 & _ & _ & Hr & _).
  - exact demo_feasible.
  - by split.
  - reflexivity.
  - reflexivity.
  - repeat (apply Forall_cons; split); [cbn; lia..|by apply Forall_nil].
  - repeat (apply Forall_cons; split); [cbn; lia..|by apply Forall_nil].
  - exists t1, t2. split; [exact H1|]. split; [exact H2|exact Hr].
Defined.

(** A breaker of 10% over ten seconds.  Live, two trades 20% apart are a minute
    apart, each opens its own window, and the last order is accepted. *)
Definition breaker_env : environment :=
  fun k => if decide (k = str "ENGINE_CB_BPS") then Some (str "1000") else None.
Definition second : Z := 1000000000.
Definition breaker_input (at_ : Z -> InboundMsg -> Arrival) (gap : Z) : list Arrival :=
  [at_ gap (demo_order 11 7 100 5 1 0); at_ gap (demo_order 12 8 100 5 0 0);
   at_ (2 * gap) (demo_order 13 7 120 5 1 0); at_ (2 * gap) (demo_order 14 8 120 5 0 0);
   at_ (3 * gap) (demo_order 15 8 110 5 0 0)].

(** Replayed within a second the same input trips the breaker, and the last order
    is refused: the rebuilt book lacks an order that the live book has. *)
Lemma replay_trips_breaker :
  let book at_ gap := ids (v_market (spec_messages demo_config 8 (fresh_view breaker_env)
                                       (breaker_input at_ gap))) in
  book live_at (60 * second) = [15] /\ book replay_at (1000 * 1000) = [].
Proof. vm_compute. done. Qed.
