(* ===== verification/Journal.v ===== *)
(** The input journal ([src/src/transport/journal.rs]), the choice of what a
    restarting matching thread replays of it ([src/src/bin/exchange_engine.rs]),
    and the journal audit ([src/src/bin/journal_audit.rs]).

    The archive is third-party code: its answers (the recordings, the recorded
    positions) are arguments.  A replay is the range of positions asked of it. *)
From Stdlib Require Import ZArith Lia String.
From stdpp Require Import base numbers list gmap sorting.
From S2P Require Import Prelude Bytes Fixed Text Pod Sbe PersistEvent PgStore SymbolThread.

#[local] Open Scope Z_scope.

(** ** The journal *)

Definition PERSIST_REPLAY_STREAM : Z := 31.
Definition ORDERS_REPLAY_STREAM_OFFSET : Z := 1000.
Definition ARCHIVE_CONTROL_ENV : bytes := str "EXCHANGE_ARCHIVE_CONTROL".

(** The control channel, if journaling is on. *)
Definition archive_config_from_env (env : environment) : option bytes :=
  control ← env ARCHIVE_CONTROL_ENV;
  match control with [] => None | _ => Some control end.

Definition retention_hours_from_env (env : environment) : option Z :=
  v ← env (str "EXCHANGE_JOURNAL_RETENTION_HOURS");
  h ← parse_unsigned u64_max v;
  if Z.ltb 0 h then Some h else None.

(** What the code reads of an archive's [RecordingSummary]. *)
Record RecordingSummary := mkRecordingSummary {
  rec_id : Z; rec_session_id : Z; rec_start_position : Z; rec_stopped_at_ms : option Z
}.

Record JournalReplay := mkJournalReplay { jr_recording_id : Z; jr_position : Z; jr_bounded_to : Z }.

(** [replay_from]; [max] is the archive's answer on the recorded position. *)
Definition replay_from (max : result Z string) (r : RecordingSummary) (from_position : Z)
  : result (option JournalReplay) string :=
  max ←? max;
  if Z.ltb from_position (rec_start_position r) then Err "replay gap"%string
  else if Z.leb max from_position then Ok None
  else Ok (Some (mkJournalReplay (rec_id r) from_position max)).

Definition replay_bounded_to (max : result Z string) (r : RecordingSummary) (upper : option Z)
  : result (option JournalReplay) string :=
  max ←? max;
  let bounded_to := match upper with Some u => Z.min max u | None => max end in
  if Z.leb bounded_to (rec_start_position r) then Ok None
  else Ok (Some (mkJournalReplay (rec_id r) (rec_start_position r) bounded_to)).

Definition replay_bounded (max : result Z string) (r : RecordingSummary) := replay_bounded_to max r None.

(** [purge_stopped_before]: the recordings it purges, with the archive's answer per
    recording, and the numbers it returns. *)
Definition purge_stopped_before (purge : Z -> result Z string) (cutoff_epoch_ms : Z)
  (recordings : list RecordingSummary) : Z * Z :=
  foldl (fun acc r =>
    match rec_stopped_at_ms r with
    | None => acc
    | Some stopped_at =>
        if Z.leb cutoff_epoch_ms stopped_at then acc
        else match purge (rec_id r) with
             | Ok n => (acc.1 + 1, i64_add acc.2 n)
             | Err _ => acc
             end
    end) (0, 0) recordings.

(** ** Recovery of a matching thread *)

(** What the thread replays of one prior recording.  [join] is the position at which
    the live subscription joined the recording's session, when the session is still
    active and joined in time; [snap_bound] is the recording and the position that
    the restored snapshot was tagged with.  [Err] is a panic. *)
Definition plan_replay (snap_bound : option (Z * Z)) (join : option Z) (max : result Z string)
  (r : RecordingSummary) : result (option JournalReplay) string :=
  let full :=
    let upper := match rec_stopped_at_ms r with None => join | Some _ => None end in
    replay_bounded_to max r upper in
  match snap_bound with
  | Some (snap_rec, snap_pos) =>
      if Z.ltb (rec_id r) snap_rec then Ok None
      else if Z.eqb (rec_id r) snap_rec then replay_from max r snap_pos
      else full
  | None => full
  end.

(** The tag of a snapshot: the last recording and its recorded position. *)
Definition snapshot_tag (recordings : list RecordingSummary) (max : Z -> result Z string)
  : option (Z * Z) :=
  r ← last recordings;
  match max (rec_id r) with Ok pos => Some (rec_id r, pos) | Err _ => None end.

(** ** The audit *)

Record PubStats := mkPubStats {
  ps_frames : Z; ps_trades : Z; ps_min_seq : Z; ps_max_seq : Z; ps_gaps : Z; ps_last_seq : Z
}.
Definition PubStats_default : PubStats := mkPubStats 0 0 0 0 0 0.

(** One frame of a publisher. *)
Definition audit_frame (e : PubStats) (frame : PersistFrame) : PubStats :=
  let seq := pf_seq frame in
  let frames := u64_add (ps_frames e) 1 in
  let trades := if decide (PersistFrame.kind frame = Some PersistKind.TradeInsert)
                then u64_add (ps_trades e) 1 else ps_trades e in
  if negb (Z.eqb seq 0) then
    mkPubStats frames trades
      (if Z.eqb (ps_min_seq e) 0 || Z.ltb seq (ps_min_seq e) then seq else ps_min_seq e)
      (if Z.ltb (ps_max_seq e) seq then seq else ps_max_seq e)
      (if negb (Z.eqb (ps_last_seq e) 0) && Z.ltb (u64_add (ps_last_seq e) 1) seq then
         let jump := u64_sub seq (ps_last_seq e) in
         if Z.ltb jump JOURNAL_RESTART_JUMP then u64_add (ps_gaps e) (u64_sub jump 1) else ps_gaps e
       else ps_gaps e)
      seq
  else mkPubStats frames trades (ps_min_seq e) (ps_max_seq e) (ps_gaps e) (ps_last_seq e).

(** The loop over the replayed frames. *)
Definition audit (frames : list PersistFrame) : gmap Z PubStats :=
  foldl (fun stats f =>
    <[pf_publisher_id f := audit_frame (default PubStats_default (stats !! pf_publisher_id f)) f]> stats)
    ∅ frames.

(** The verdict on one publisher, from its checkpoint. *)
Definition publisher_inconsistent (floor : option Z) (s : PubStats) : bool :=
  match floor with
  | Some floor => Z.ltb (ps_max_seq s) floor
  | None => true
  end || Z.ltb 0 (ps_gaps s).

(** The exit code: whether anything is inconsistent. *)
Definition audit_inconsistent (floors : gmap Z Z) (stats : gmap Z PubStats) (trades_in_pg : Z) : bool :=
  existsb (fun '(p, s) => publisher_inconsistent (floors !! p) s) (map_to_list stats)
  || Z.ltb (wrap_u64 trades_in_pg)
       (foldr (fun '(_, s) n => u64_add (ps_trades s) n) 0 (map_to_list stats)).

(** ** What recovery delivers *)

Section recovery.
Context {A : Type}.
(** The frames of a session, by position: those recorded and those still to come. *)
Implicit Types (frames : list (Z * A)).

Definition from_pos (lo : Z) frames : list (Z * A) := filter (fun f => lo <= f.1) frames.
Definition up_to (hi : Z) frames : list (Z * A) := filter (fun f => f.1 < hi) frames.

(** A replay delivers the frames of its range. *)
Definition replayed (p : option JournalReplay) frames : list (Z * A) :=
  match p with
  | Some jr => up_to (jr_bounded_to jr) (from_pos (jr_position jr) frames)
  | None => []
  end.

(** The live subscription delivers an active session from its join position on. *)
Definition live_frames (r : RecordingSummary) (join : option Z) frames : list (Z * A) :=
  match rec_stopped_at_ms r, join with None, Some j => from_pos j frames | _, _ => [] end.

(** What the archive and the client promise: positions increase from the recording's
    start; a stopped or unjoined session is recorded completely; a joined one is
    recorded up to its join position. *)
Record archive_ok (r : RecordingSummary) (join : option Z) (max : Z) frames : Prop := {
  ao_sorted : StronglySorted Z.lt frames.*1;
  ao_start : Forall (fun f => rec_start_position r <= f.1) frames;
  ao_recorded : match rec_stopped_at_ms r, join with
                | None, Some j => rec_start_position r <= j <= max
                | _, _ => Forall (fun f => f.1 < max) frames
                end
}.

Lemma split_at j frames : StronglySorted Z.lt frames.*1 -> up_to j frames ++ from_pos j frames = frames.
Proof.
  unfold up_to, from_pos. induction frames as [|f frames IH]; [done|]. rewrite fmap_cons.
  intros [Hf Hs]%StronglySorted_cons. destruct (decide (f.1 < j)) as [Hlt|Hge].
  - rewrite filter_cons_True, filter_cons_False by lia. rewrite <- app_comm_cons. by rewrite IH.
  - rewrite filter_cons_False, filter_cons_True by lia.
    rewrite filter_none, filter_all; [done| |];
      apply Forall_forall; intros g Hg; rewrite Forall_forall in Hf;
      specialize (Hf g.1 (list_elem_of_fmap_2 _ _ _ Hg)); lia.
Qed.

Lemma up_to_all hi frames : Forall (fun f => f.1 < hi) frames -> up_to hi frames = frames.
Proof. apply filter_all. Qed.

Lemma from_pos_all lo frames : Forall (fun f => lo <= f.1) frames -> from_pos lo frames = frames.
Proof. apply filter_all. Qed.

Lemma up_to_none hi frames : Forall (fun f => hi <= f.1) frames -> up_to hi frames = [].
Proof. intros H. apply filter_none. eapply Forall_impl; [done|]. intros f. cbn. lia. Qed.

Lemma from_pos_none lo frames : Forall (fun f => f.1 < lo) frames -> from_pos lo frames = [].
Proof. intros H. apply filter_none. eapply Forall_impl; [done|]. intros f. cbn. lia. Qed.

(** The range of a bounded replay. *)
Lemma bounded_to_spec r max upper frames p : Forall (fun f => rec_start_position r <= f.1) frames ->
  replay_bounded_to (Ok max) r upper = Ok p ->
  replayed p frames = up_to (match upper with Some u => Z.min max u | None => max end) frames.
Proof.
  intros Hs. unfold replay_bounded_to. cbn [result_bind]. set (b := match upper with Some u => _ | None => _ end).
  destruct (Z.leb_spec b (rec_start_position r)) as [Hle|Hlt]; intros [= <-].
  - cbn. symmetry. apply up_to_none. eapply Forall_impl; [done|]. cbn. lia.
  - cbn. by rewrite from_pos_all.
Qed.

(** C40: Recovery applies every input frame exactly once.  For a recording newer than
    the snapshot, for every recording when there is no snapshot, and for the
    snapshot's own recording once its session has ended, what the thread replays
    followed by what its live subscription delivers is exactly the session's frames
    from the recovery position on, in order. *)
Theorem recovery_exactly_once snap join max r frames : archive_ok r join max frames ->
  match snap with
  | None => True
  | Some (snap_rec, snap_pos) => snap_rec < rec_id r \/
      (snap_rec = rec_id r /\ is_Some (rec_stopped_at_ms r) /\ rec_start_position r <= snap_pos)
  end ->
  exists p, plan_replay snap join (Ok max) r = Ok p /\
    replayed p frames ++ live_frames r join frames =
      from_pos (match snap with
                | Some (snap_rec, snap_pos) => if Z.eqb (rec_id r) snap_rec then snap_pos else rec_start_position r
                | None => rec_start_position r
                end) frames.
Proof.
  intros [Hs Hst Hrec] Hsnap.
  assert (exists p, replay_bounded_to (Ok max) r (match rec_stopped_at_ms r with None => join | Some _ => None end)
      = Ok p /\ replayed p frames ++ live_frames r join frames = from_pos (rec_start_position r) frames) as Hfull.
  { destruct (replay_bounded_to _ _ _) as [p|x] eqn:Hb.
    2:{ unfold replay_bounded_to in Hb. cbn [result_bind] in Hb. by destruct (Z.leb _ _). }
    exists p. split; [done|]. rewrite (bounded_to_spec _ _ _ _ _ Hst Hb), (from_pos_all (rec_start_position r)) by done.
    unfold live_frames. destruct (rec_stopped_at_ms r), join as [j|]; rewrite ?app_nil_r;
      try by apply up_to_all. rewrite Z.min_r by lia. by apply split_at. }
  unfold plan_replay. destruct snap as [[sr sp]|]; [|done].
  destruct Hsnap as [Hlt|(-> & [ms Hms] & Hsp)].
  { rewrite (proj2 (Z.ltb_ge _ _)), (proj2 (Z.eqb_neq _ _)) by lia. done. }
  rewrite Z.ltb_irrefl, Z.eqb_refl. unfold replay_from. cbn [result_bind].
  rewrite (proj2 (Z.ltb_ge _ _)) by lia. unfold live_frames. rewrite Hms in *.
  assert (Forall (fun f => f.1 < max) frames) as Hall by done.
  destruct (Z.leb_spec max sp) as [Hle|Hgt]; eexists; (split; [done|]); cbn [replayed jr_bounded_to jr_position].
  - symmetry. apply from_pos_none. eapply Forall_impl; [done|]. cbn. lia.
  - rewrite app_nil_r. apply up_to_all. apply Forall_forall. intros f [_ Hf]%list_elem_of_filter.
    by eapply Forall_forall in Hall.
Qed.
End recovery.

(** ** Where the guarantee stops *)

(** The snapshot's own recording with its session still active: the frame at 200 is
    replayed and delivered live, so it is applied twice. *)
Lemma active_snapshot_overlap :
  let r := mkRecordingSummary 2 7 0 None in
  let frames := [(0, tt); (100, tt); (200, tt)] in
  exists p, plan_replay (Some (2, 100)) (Some 200) (Ok 300) r = Ok p /\
    replayed p frames ++ live_frames r (Some 200) frames = [(100, tt); (200, tt); (200, tt)].
Proof. eexists. split; reflexivity. Qed.

(** An older recording whose session is still active is skipped as a whole: the
    frame at 100, recorded after the snapshot, is applied by neither. *)
Lemma older_session_skipped :
  let r := mkRecordingSummary 1 6 0 None in
  let frames := [(0, tt); (100, tt); (200, tt)] in
  exists p, plan_replay (Some (2, 100)) (Some 200) (Ok 200) r = Ok p /\
    replayed p frames ++ live_frames r (Some 200) frames = [(200, tt)].
Proof. eexists. split; reflexivity. Qed.

(** The tag of a snapshot is what is recorded, not what was consumed: of the frames
    at 0 and 100 only the first was applied before the snapshot, and the second is
    not replayed. *)
Lemma unconsumed_frame_lost :
  let r := mkRecordingSummary 2 7 0 (Some 1) in
  let frames := [(0, tt); (100, tt)] in
  snapshot_tag [r] (fun _ => Ok 200) = Some (2, 200) /\
  exists p, plan_replay (Some (2, 200)) None (Ok 200) r = Ok p /\
    replayed p frames ++ live_frames r None frames = [].
Proof. split; [done|]. eexists. split; reflexivity. Qed.

Lemma recovery_exactly_once_witness :
  let r := mkRecordingSummary 3 7 0 None in
  let frames := [(0, tt); (100, tt); (200, tt)] in
  exists p, plan_replay (Some (2, 50)) (Some 100) (Ok 150) r = Ok p /\
    replayed p frames ++ live_frames r (Some 100) frames = frames.
Proof.
  apply (recovery_exactly_once (Some (2, 50)) (Some 100) 150 (mkRecordingSummary 3 7 0 None)
    [(0, tt); (100, tt); (200, tt)]).
  - split.
    + repeat constructor.
    + repeat (apply Forall_cons; split); [cbn; lia..|by apply Forall_nil].
    + cbn. lia.
  - left. cbn. lia.
Defined.

(** ** The audit counts what is missing *)

Definition of_publisher (p : Z) (frames : list PersistFrame) : list PersistFrame :=
  filter (fun f => pf_publisher_id f = p) frames.

Lemma audit_snoc frames f : audit (frames ++ [f]) =
  <[pf_publisher_id f := audit_frame (default PubStats_default (audit frames !! pf_publisher_id f)) f]>
    (audit frames).
Proof. unfold audit. by rewrite foldl_app. Qed.

Lemma audit_lookup p frames : default PubStats_default (audit frames !! p) =
  foldl audit_frame PubStats_default (of_publisher p frames).
Proof.
  induction frames as [|f frames IH] using rev_ind; [done|]. rewrite audit_snoc. unfold of_publisher.
  rewrite filter_app, foldl_app. fold (of_publisher p frames). rewrite <- IH.
  destruct (decide (pf_publisher_id f = p)) as [<-|Hne].
  - rewrite lookup_insert_eq, filter_cons_True by done. done.
  - rewrite lookup_insert_ne by done. by rewrite filter_cons_False.
Qed.

(** Numbers that increase by less than a restart's jump. *)
Inductive rising : Z -> list Z -> Prop :=
| rising_nil last : rising last []
| rising_cons last s ss : last < s < last + JOURNAL_RESTART_JUMP -> s <= i64_max -> rising s ss ->
    rising last (s :: ss).

(** The statistics after frames of numbers [lo .. hi]. *)
Lemma audit_run fs : forall e, 1 <= ps_min_seq e <= ps_last_seq e -> ps_last_seq e <= i64_max ->
  ps_max_seq e = ps_last_seq e -> 0 <= ps_gaps e <= ps_last_seq e -> 
  rising (ps_last_seq e) (pf_seq <$> fs) ->
  let e' := foldl audit_frame e fs in
  ps_min_seq e' = ps_min_seq e /\ ps_last_seq e <= ps_max_seq e' <= i64_max /\
  ps_gaps e' - ps_gaps e = ps_max_seq e' - ps_last_seq e - Z.of_nat (length fs).
Proof.
  induction fs as [|f fs IH]; intros e Hmin Hlast Hmax Hgaps Hr; cbn [foldl].
  { cbn. rewrite Hmax. lia. }
  rewrite fmap_cons in Hr. inversion Hr as [|? ? ? Hs Hle Hr']; subst.
  assert (0 < JOURNAL_RESTART_JUMP) by (unfold JOURNAL_RESTART_JUMP; lia).
  set (e1 := audit_frame e f).
  assert (ps_min_seq e1 = ps_min_seq e /\ ps_max_seq e1 = pf_seq f /\ ps_last_seq e1 = pf_seq f /\
    ps_gaps e1 = ps_gaps e + (pf_seq f - ps_last_seq e - 1)) as (H1 & H2 & H3 & H4).
  { unfold e1, audit_frame. rewrite (proj2 (Z.eqb_neq (pf_seq f) 0)) by lia.
    cbn [negb ps_min_seq ps_max_seq ps_last_seq ps_gaps].
    rewrite (proj2 (Z.eqb_neq (ps_min_seq e) 0)), (proj2 (Z.ltb_ge (pf_seq f) (ps_min_seq e))) by lia.
    rewrite (proj2 (Z.ltb_lt (ps_max_seq e) (pf_seq f))), (proj2 (Z.eqb_neq (ps_last_seq e) 0)) by lia.
    cbn [negb andb orb]. rewrite u64_add_id, u64_sub_id by (machine_unfold; lia).
    split_and!; try done. destruct (Z.ltb_spec (ps_last_seq e + 1) (pf_seq f)); [|lia].
    rewrite (proj2 (Z.ltb_lt (pf_seq f - ps_last_seq e) JOURNAL_RESTART_JUMP)) by lia.
    rewrite u64_sub_id by (machine_unfold; lia). rewrite u64_add_id; [lia|]. machine_unfold. lia. }
  destruct (IH e1) as (I1 & I2 & I3); [lia..| |].
  { by rewrite H3. }
  cbn zeta. rewrite I1, H1. rewrite H3 in I2, I3. rewrite H4 in I3. cbn [length]. lia.
Qed.

(** The audit finds every hole.  For a publisher whose recorded numbers increase
    without a restart, the reported gaps are exactly the numbers missing between the
    first and the last, so the publisher passes only if none is missing and its
    checkpoint is not beyond the journal. *)
Theorem audit_gaps_exact frames p f fs : of_publisher p frames = f :: fs ->
  1 <= pf_seq f <= i64_max -> rising (pf_seq f) (pf_seq <$> fs) ->
  let s := default PubStats_default (audit frames !! p) in
  ps_min_seq s = pf_seq f /\
  ps_gaps s = ps_max_seq s - ps_min_seq s + 1 - Z.of_nat (length (f :: fs)) /\
  forall floor, publisher_inconsistent (Some floor) s = false <->
    floor <= ps_max_seq s /\ ps_max_seq s - ps_min_seq s + 1 <= Z.of_nat (length (f :: fs)).
Proof.
  intros Hp Hf Hr s. unfold s. rewrite audit_lookup, Hp. cbn [foldl].
  set (e := audit_frame PubStats_default f).
  assert (ps_min_seq e = pf_seq f /\ ps_max_seq e = pf_seq f /\ ps_last_seq e = pf_seq f /\ ps_gaps e = 0)
    as (H1 & H2 & H3 & H4).
  { unfold e, audit_frame. rewrite (proj2 (Z.eqb_neq (pf_seq f) 0)) by lia. cbn.
    rewrite (proj2 (Z.ltb_lt 0 (pf_seq f))) by lia. done. }
  destruct (audit_run fs e) as (I1 & I2 & I3); [lia..|by rewrite H3|].
  rewrite H1 in I1. rewrite H3 in I2, I3. rewrite H4 in I3. cbn [length].
  split_and!; [done|lia|]. intros floor. unfold publisher_inconsistent.
  rewrite orb_false_iff, !Z.ltb_ge. lia.
Qed.

Definition demo_frame (p seq : Z) : PersistFrame := mkPersistFrame 4 0 p (zeros 4) seq (zeros 136).

(** Number 12 of publisher 3 is missing. *)
Lemma audit_gaps_exact_witness :
  ps_gaps (default PubStats_default
    (audit [demo_frame 3 10; demo_frame 5 90; demo_frame 3 11; demo_frame 3 13] !! 3)) = 1.
Proof.
  destruct (audit_gaps_exact [demo_frame 3 10; demo_frame 5 90; demo_frame 3 11; demo_frame 3 13] 3
    (demo_frame 3 10) [demo_frame 3 11; demo_frame 3 13]) as (_ & H & _).
  - reflexivity.
  - vm_compute. split; discriminate.
  - repeat (constructor; [vm_compute; split; reflexivity|vm_compute; discriminate|]). constructor.
  - rewrite H. vm_compute. reflexivity.
Defined.
