(* ===== verification/PgTables.v ===== *)
(** The tables pg-writer keeps and the statements of one flush
    ([flush_*] and [apply_funding_settlement] of [src/src/desk/pg_store.rs]).  A
    table is a finite map from its key to a row; a statement that violates a
    constraint of the schema ([src/migrations]) is [None], which rolls the
    transaction back.  The theorems show that a batch, which groups the rows of
    many frames by table and keeps the last row of every key, leaves the tables
    as if every frame had been applied on its own, and that a funding settlement
    moves money without creating any. *)
From Stdlib Require Import ZArith Lia String.
From stdpp Require Import base numbers list gmap sorting.
From S2P Require Import Prelude Bytes Fixed Types F64 Text Money RiskCalc RiskEngine Funding RiskLedger Pod Sbe PersistEvent PgStore PgWriter.

#[local] Open Scope Z_scope.

(** ** Last row per key

    [HashMap] from the key to the index of its last row; the indices sorted. *)
Section keep_last.
Context {A K : Type} `{Countable K} (key : A -> K).

Definition keep_map (rows : list A) : gmap K nat :=
  foldl (fun m ir => <[key ir.2 := ir.1]> m) ∅ (imap (fun i r => (i, r)) rows).

Definition keep_last (rows : list A) : list A :=
  omap (fun i => rows !! i) (merge_sort Nat.le (map_to_list (keep_map rows)).*2).

(** The specification: the last row with a key. *)
Definition latest (k : K) (rows : list A) : option A := last (filter (fun r => key r = k) rows).
End keep_last.

(** ** Tables *)

(** A row of [funding_history]; [settled_at] in milliseconds. *)
Record FundingRow := mkFundingRow {
  fh_symbol : bytes; fh_rate_e9 : Z; fh_mark_price_ticks : Z; fh_settled_at_ms : Z;
  fh_long_paid_atoms : Z; fh_short_received_atoms : Z; fh_fund_residue_atoms : Z;
}.

Section tables.
Context `{Chrono}.

Record Tables := mkTables {
  tb_users : gset Z;
  tb_orders : gmap Z UpsertRow;
  tb_accounts : gmap (Z * bytes) AccountRow;
  tb_trades : gmap (Z * Z) TradeRow;
  tb_matching_events : gmap (Z * Z) MatchingEventRow;
  tb_positions : gmap (Z * bytes) PositionRow;
  tb_risk_accounts : gmap Z RiskAccountRow;
  tb_insurance_fund : Z;
  tb_funding_history : list FundingRow;
  tb_funding_state : gmap bytes (Z * Z);
}.

Definition set_orders (t : Tables) (x : gmap Z UpsertRow) : Tables :=
  mkTables (tb_users t) x (tb_accounts t) (tb_trades t) (tb_matching_events t) (tb_positions t)
    (tb_risk_accounts t) (tb_insurance_fund t) (tb_funding_history t) (tb_funding_state t).
Definition set_accounts (t : Tables) (x : gmap (Z * bytes) AccountRow) : Tables :=
  mkTables (tb_users t) (tb_orders t) x (tb_trades t) (tb_matching_events t) (tb_positions t)
    (tb_risk_accounts t) (tb_insurance_fund t) (tb_funding_history t) (tb_funding_state t).
Definition set_trades (t : Tables) (x : gmap (Z * Z) TradeRow) : Tables :=
  mkTables (tb_users t) (tb_orders t) (tb_accounts t) x (tb_matching_events t) (tb_positions t)
    (tb_risk_accounts t) (tb_insurance_fund t) (tb_funding_history t) (tb_funding_state t).
Definition set_matching_events (t : Tables) (x : gmap (Z * Z) MatchingEventRow) : Tables :=
  mkTables (tb_users t) (tb_orders t) (tb_accounts t) (tb_trades t) x (tb_positions t)
    (tb_risk_accounts t) (tb_insurance_fund t) (tb_funding_history t) (tb_funding_state t).
Definition set_positions (t : Tables) (x : gmap (Z * bytes) PositionRow) : Tables :=
  mkTables (tb_users t) (tb_orders t) (tb_accounts t) (tb_trades t) (tb_matching_events t) x
    (tb_risk_accounts t) (tb_insurance_fund t) (tb_funding_history t) (tb_funding_state t).
Definition set_risk_accounts (t : Tables) (x : gmap Z RiskAccountRow) : Tables :=
  mkTables (tb_users t) (tb_orders t) (tb_accounts t) (tb_trades t) (tb_matching_events t)
    (tb_positions t) x (tb_insurance_fund t) (tb_funding_history t) (tb_funding_state t).
Definition set_insurance (t : Tables) (x : Z) : Tables :=
  mkTables (tb_users t) (tb_orders t) (tb_accounts t) (tb_trades t) (tb_matching_events t)
    (tb_positions t) (tb_risk_accounts t) x (tb_funding_history t) (tb_funding_state t).
Definition set_funding (t : Tables) (h : list FundingRow) (s : gmap bytes (Z * Z)) : Tables :=
  mkTables (tb_users t) (tb_orders t) (tb_accounts t) (tb_trades t) (tb_matching_events t)
    (tb_positions t) (tb_risk_accounts t) (tb_insurance_fund t) h s.

(** ** Statements *)

(** [INSERT .. ON CONFLICT (key) DO UPDATE] of many rows: refused when two of
    them have the same key, or one violates a constraint. *)
Definition upsert_all {K R V} `{Countable K} (key : R -> K) (ok : R -> bool)
  (merge : option V -> R -> V) (rows : list R) (m : gmap K V) : option (gmap K V) :=
  if decide (NoDup (key <$> rows)) then
    if forallb ok rows then Some (foldl (fun m r => <[key r := merge (m !! key r) r]> m) m rows) else None
  else None.

(** [INSERT .. ON CONFLICT (key) DO NOTHING] *)
Definition insert_new {K R} `{Countable K} (key : R -> K) (rows : list R) (m : gmap K R) : gmap K R :=
  foldl (fun m r => match m !! key r with Some _ => m | None => <[key r := r]> m end) m rows.

Definition known (t : Tables) (user_id : Z) : bool := bool_decide (user_id ∈ tb_users t).

(** *** Orders *)

(** [status = EXCLUDED.status, filled_atoms = EXCLUDED.filled_atoms] *)
Definition set_progress (r : UpsertRow) (status : string) (filled filled_atoms : Z) : UpsertRow :=
  mkUpsertRow (ur_id r) (ur_user_id r) (ur_symbol r) (ur_side r) (ur_order_type r) (ur_price r)
    (ur_quantity r) filled (ur_price_atoms r) (ur_quantity_atoms r) filled_atoms status
    (ur_freeze_price_atoms r) (ur_client_order_id r) (ur_created_at r).

(** The row [ON CONFLICT (id) DO UPDATE] leaves. *)
Definition merge_order (old : option UpsertRow) (r : UpsertRow) : UpsertRow :=
  match old with
  | Some o => set_progress o (ur_status r) (ur_filled r) (ur_filled_atoms r)
  | None => r
  end.

(** [orders_quantity_atoms_nonnegative], [orders_filled_atoms_range] *)
Definition order_ok (r : UpsertRow) : bool :=
  Z.leb 0 (ur_quantity_atoms r) && Z.leb 0 (ur_filled_atoms r)
  && Z.leb (ur_filled_atoms r) (ur_quantity_atoms r).

(** The rows a statement wrote satisfy the table's checks. *)
Definition written_ok {K V} `{Countable K} (ok : V -> bool) (m : gmap K V) (keys : list K) : bool :=
  forallb (fun k => match m !! k with Some v => ok v | None => true end) keys.

(** [idx_orders_user_client_order_id] *)
Definition client_ids_unique (m : gmap Z UpsertRow) : bool :=
  bool_decide (NoDup (omap (fun r => c ← ur_client_order_id r; Some (ur_user_id r, c)) (map_to_list m).*2)).

Definition flush_upserts (t : Tables) (rows : list UpsertRow) : option Tables :=
  m ← upsert_all ur_id (fun r => known t (ur_user_id r) && order_ok r)
        merge_order (keep_last ur_id rows) (tb_orders t);
  if written_ok order_ok m (ur_id <$> rows) && client_ids_unique m then Some (set_orders t m) else None.

Definition flush_deletes (t : Tables) (ids : list Z) : option Tables :=
  Some (set_orders t (foldl (fun m id => delete id m) (tb_orders t) ids)).

(** The row a fill leaves. *)
Definition fill_row (f : FillRow) (r : UpsertRow) : UpsertRow :=
  set_progress r (fr_status f) (fr_filled f) (fr_filled_atoms f).

Definition flush_fills (t : Tables) (rows : list FillRow) : option Tables :=
  let m := foldl (fun m f => alter (fill_row f) (fr_id f) m) (tb_orders t) (keep_last fr_id rows) in
  if written_ok order_ok m (fr_id <$> rows) then Some (set_orders t m) else None.

(** *** Balances, trades and the event log *)

(** [accounts_*_atoms_*] *)
Definition account_row_ok (t : Tables) (r : AccountRow) : bool :=
  known t (ar_user_id r) && Z.leb 0 (ar_balance_atoms r) && Z.leb 0 (ar_frozen_atoms r)
  && Z.leb (ar_frozen_atoms r) (ar_balance_atoms r).

Definition account_key (r : AccountRow) : Z * bytes := (ar_user_id r, ar_asset r).

Definition flush_accounts (t : Tables) (rows : list AccountRow) : option Tables :=
  m ← upsert_all account_key (account_row_ok t) (fun _ r => r) (keep_last account_key rows) (tb_accounts t);
  Some (set_accounts t m).

Definition trade_key (r : TradeRow) : Z * Z := (tr_buy_order_id r, tr_sell_order_id r).

(** [trades_atoms_nonnegative] *)
Definition trade_ok (r : TradeRow) : bool := Z.leb 0 (tr_price_atoms r) && Z.leb 0 (tr_qty_atoms r).

Definition flush_trades (t : Tables) (rows : list TradeRow) : option Tables :=
  if forallb trade_ok rows then Some (set_trades t (insert_new trade_key rows (tb_trades t))) else None.

Definition event_key (r : MatchingEventRow) : Z * Z := (mr_response_stream_id r, mr_sequence r).

Definition flush_matching_events (t : Tables) (rows : list MatchingEventRow) : option Tables :=
  Some (set_matching_events t (insert_new event_key rows (tb_matching_events t))).

(** *** Margin state *)

(** The checks of table [positions]. *)
Definition position_ok (t : Tables) (user_id : Z) (r : PositionRow) : bool :=
  known t user_id && (String.eqb (pr_side r) "long" || String.eqb (pr_side r) "short")
  && Z.ltb 0 (pr_qty_lots r) && Z.ltb 0 (pr_entry_price_ticks r)
  && Z.leb 1 (pr_leverage r) && Z.leb (pr_leverage r) 125
  && Z.leb 0 (pr_used_margin_atoms r) && Z.leb 0 (pr_cost_atoms r).

Definition upserts_of (ops : list PositionOp) : list (Z * bytes * PositionRow) :=
  omap (fun op => match op with PosUpsert u s r => Some (u, s, r) | PosDelete _ _ => None end) ops.
Definition deletes_of (ops : list PositionOp) : list (Z * bytes) :=
  omap (fun op => match op with PosUpsert _ _ _ => None | PosDelete u s => Some (u, s) end) ops.

Definition flush_positions (t : Tables) (ops : list PositionOp) : option Tables :=
  let kept := keep_last pos_key ops in
  m ← upsert_all fst (fun x => position_ok t x.1.1 x.2) (fun _ x => x.2) (upserts_of kept) (tb_positions t);
  Some (set_positions t (foldl (fun m k => delete k m) m (deletes_of kept))).

(** The checks of table [risk_accounts]. *)
Definition risk_account_ok (t : Tables) (r : RiskAccountRow) : bool :=
  known t (rr_user_id r) && Z.leb 0 (rr_used_margin_atoms r) && Z.leb 0 (rr_order_margin_atoms r)
  && match RiskStatus.from_db_str (rr_status r) with Some _ => true | None => false end.

Definition flush_risk_accounts (t : Tables) (rows : list RiskAccountRow) : option Tables :=
  m ← upsert_all rr_user_id (risk_account_ok t) (fun _ r => r) (keep_last rr_user_id rows) (tb_risk_accounts t);
  Some (set_risk_accounts t m).

Definition set_insurance_fund (t : Tables) (balance : option Z) : Tables :=
  match balance with Some b => set_insurance t b | None => t end.

(** *** Funding *)

(** [SELECT user_id, side, qty_lots FROM positions WHERE symbol = $1]; a side
    that is neither text is passed over. *)
Definition symbol_positions (t : Tables) (symbol : bytes) : list (Z * PositionSide * Z) :=
  omap (fun x : (Z * bytes) * PositionRow =>
      if decide (x.1.2 = symbol) then
        if String.eqb (pr_side x.2) "long" then Some (x.1.1, Long, pr_qty_lots x.2)
        else if String.eqb (pr_side x.2) "short" then Some (x.1.1, Short, pr_qty_lots x.2)
        else None
      else None)
    (map_to_list (tb_positions t)).

Definition add_equity (r : RiskAccountRow) (delta : Z) : RiskAccountRow :=
  mkRiskAccountRow (rr_user_id r) (rr_equity_atoms r + delta) (rr_used_margin_atoms r)
    (rr_order_margin_atoms r) (rr_status r).

(** [UPDATE risk_accounts SET equity_atoms = equity_atoms + delta .. FROM UNNEST];
    a [bigint] out of range fails. *)
Definition credit_rows (m : gmap Z RiskAccountRow) (deltas : list (Z * Z)) : option (gmap Z RiskAccountRow) :=
  let m := foldl (fun m d => alter (fun r => add_equity r d.2) d.1 m) m deltas in
  if written_ok (fun r => Z.leb i64_min (rr_equity_atoms r) && Z.leb (rr_equity_atoms r) i64_max) m deltas.*1
  then Some m else None.

(** [UPDATE insurance_fund SET balance_atoms = balance_atoms + residue], not
    issued for a zero residue. *)
Definition add_to_fund (t : Tables) (residue : Z) : option Tables :=
  if Z.eqb residue 0 then Some t
  else
    let fund := tb_insurance_fund t + residue in
    if Z.leb i64_min fund && Z.leb fund i64_max then Some (set_insurance t fund) else None.

Definition apply_funding_settlement (t : Tables) (f : FundingSettledPayload) : option Tables :=
  let symbol := unpack_str (fsp_symbol f) in
  settlement ← compute_settlement (symbol_positions t symbol) (fsp_mark_price_ticks f)
                 (fsp_notional_scale f) (fsp_rate_e9 f);
  let orphans := filter (fun d => tb_risk_accounts t !! d.1 = None) (fs_deltas settlement) in
  let residue := foldl i64_add (fs_residue_atoms settlement) orphans.*2 in
  accounts ← credit_rows (tb_risk_accounts t) (fs_deltas settlement);
  let t := set_risk_accounts t accounts in
  t ← add_to_fund t residue;
  if Z.leb (fsp_mark_price_ticks f) 0 then None
  else
    Some (set_funding t
      (tb_funding_history t ++ [mkFundingRow symbol (fsp_rate_e9 f) (fsp_mark_price_ticks f)
         (fsp_settled_at_ms f) (fs_long_paid_atoms settlement) (fs_short_received_atoms settlement) residue])
      (<[symbol := (fsp_next_settlement_at_ms f, fsp_rate_e9 f)]> (tb_funding_state t))).

(** *** The transaction of [flush]

    A statement is issued only for a table that has rows. *)

Definition unless_empty {R} (stmt : Tables -> list R -> option Tables) (t : Tables) (rows : list R)
  : option Tables :=
  match rows with [] => Some t | _ => stmt t rows end.

Definition apply_rows (t : Tables) (r : BatchRows) : option Tables :=
  t ← unless_empty flush_upserts t (br_upserts r);
  t ← unless_empty flush_deletes t (br_deletes r);
  t ← unless_empty flush_fills t (br_fills r);
  t ← unless_empty flush_accounts t (br_accounts r);
  t ← unless_empty flush_trades t (br_trades r);
  t ← unless_empty flush_matching_events t (br_matching_events r);
  t ← unless_empty flush_positions t (br_position_ops r);
  t ← unless_empty flush_risk_accounts t (br_risk_accounts r);
  Some (set_insurance_fund t (br_insurance_fund_atoms r)).

Definition apply_transaction (t : Tables) (tx : Transaction) : option Tables :=
  t ← apply_rows t (tx_rows tx);
  match tx_funding tx with None => Some t | Some f => apply_funding_settlement t f end.
End tables.

(** ** Keeping the last row *)

Lemma forallb_forall_true {A} (f : A -> bool) (l : list A) : forallb f l = true <-> Forall (fun x => f x = true) l.
Proof. rewrite forallb_forall, Forall_forall. by setoid_rewrite list_elem_of_In. Qed.

Section keep_last_facts.
Context {A K : Type} `{Countable K} (key : A -> K).
Implicit Types rows l : list A.

Lemma latest_row_snoc k rows r :
  latest key k (rows ++ [r]) = if decide (key r = k) then Some r else latest key k rows.
Proof.
  unfold latest. rewrite filter_app, filter_cons, filter_nil.
  destruct (decide (key r = k)); [apply last_snoc|by rewrite app_nil_r].
Qed.

Lemma latest_Some k rows r : latest key k rows = Some r -> r ∈ rows /\ key r = k.
Proof.
  intros Hl. assert (r ∈ filter (fun r => key r = k) rows) as Hin.
  { unfold latest in Hl. apply last_Some in Hl as [l ->]. set_solver. }
  apply list_elem_of_filter in Hin. tauto.
Qed.

Lemma latest_None k rows r : latest key k rows = None -> r ∈ rows -> key r <> k.
Proof.
  intros Hl Hin Hk. unfold latest in Hl. apply last_None in Hl.
  assert (r ∈ filter (fun r => key r = k) rows) as Hr by (by apply list_elem_of_filter).
  rewrite Hl in Hr. set_solver.
Qed.

(** With distinct keys the last row is the only one. *)
Lemma latest_unique k l r : NoDup (key <$> l) -> r ∈ l -> key r = k -> latest key k l = Some r.
Proof.
  intros Hnd Hin Hk. destruct (latest key k l) as [r'|] eqn:Hl.
  - apply latest_Some in Hl as [Hin' Hk']. f_equal.
    apply list_elem_of_lookup in Hin as [i Hi], Hin' as [j Hj].
    assert (i = j) as ->; [|congruence].
    apply (NoDup_lookup (key <$> l) i j k); [done|..]; rewrite list_lookup_fmap.
    + rewrite Hi. simpl. congruence.
    + rewrite Hj. simpl. congruence.
  - by eapply latest_None in Hl.
Qed.

Lemma latest_ext k l l' : NoDup (key <$> l) -> NoDup (key <$> l') -> (forall r, r ∈ l <-> r ∈ l') ->
  latest key k l = latest key k l'.
Proof.
  intros Hl Hl' Hin. destruct (latest key k l') as [r|] eqn:Hr.
  - apply latest_Some in Hr as [? ?]. apply latest_unique; [done|by apply Hin|done].
  - destruct (latest key k l) as [r|] eqn:Hr'; [|done].
    apply latest_Some in Hr' as [? ?]. exfalso. eapply (latest_None k l' r); [done|by apply Hin|done].
Qed.

Lemma keep_map_snoc rows r : keep_map key (rows ++ [r]) = <[key r := length rows]> (keep_map key rows).
Proof. unfold keep_map. rewrite imap_app, foldl_app. simpl. by rewrite Nat.add_0_r. Qed.

Lemma keep_map_lt rows k i : keep_map key rows !! k = Some i -> (i < length rows)%nat.
Proof.
  revert k i. induction rows as [|r rows IH] using rev_ind; [done|]. intros k i.
  rewrite keep_map_snoc, length_app. simpl. rewrite lookup_insert_Some.
  intros [[_ <-]|[_ ?%IH]]; lia.
Qed.

Lemma keep_map_latest rows k : keep_map key rows !! k ≫= (fun i => rows !! i) = latest key k rows.
Proof.
  induction rows as [|r rows IH] using rev_ind; [done|].
  rewrite keep_map_snoc, latest_row_snoc. destruct (decide (key r = k)) as [<-|Hk].
  - rewrite lookup_insert_eq. simpl. by rewrite lookup_app_r, Nat.sub_diag.
  - rewrite lookup_insert_ne, <- IH by done. destruct (keep_map key rows !! k) as [i|] eqn:Hi; [|done].
    simpl in *. destruct (rows !! i) as [x|] eqn:Hx; [by erewrite lookup_app_l_Some|].
    apply keep_map_lt, lookup_lt_is_Some in Hi as [y Hy]. congruence.
Qed.

Lemma keep_last_perm rows : keep_last key rows ≡ₚ omap (fun i => rows !! i) (map_to_list (keep_map key rows)).*2.
Proof. unfold keep_last. by rewrite (merge_sort_Permutation _). Qed.

Lemma keep_last_keys rows : NoDup (key <$> keep_last key rows).
Proof.
  rewrite keep_last_perm.
  assert (forall ki, ki ⊆ map_to_list (keep_map key rows) ->
    key <$> omap (fun i => rows !! i) ki.*2 = ki.*1) as Hkeys.
  { induction ki as [|[k i] ki IH]; [done|]. intros Hl. simpl.
    assert (keep_map key rows !! k = Some i) as Hk by (apply elem_of_map_to_list, Hl; left).
    pose proof (keep_map_latest rows k) as Hr. rewrite Hk in Hr. simpl in Hr.
    assert (is_Some (latest key k rows)) as [r Hlt].
    { rewrite <- Hr. by eapply lookup_lt_is_Some, keep_map_lt. }
    rewrite Hr, Hlt. simpl. apply latest_Some in Hlt as [_ ->]. f_equal. apply IH. set_solver. }
  rewrite Hkeys by done. apply NoDup_fst_map_to_list.
Qed.

Lemma keep_last_latest k rows : latest key k (keep_last key rows) = latest key k rows.
Proof.
  destruct (latest key k rows) as [r|] eqn:Hr.
  - pose proof Hr as Hr'. apply latest_Some in Hr' as [_ Hk]. apply latest_unique; [apply keep_last_keys| |done].
    rewrite keep_last_perm. rewrite <- keep_map_latest in Hr.
    destruct (keep_map key rows !! k) as [i|] eqn:Hi; [|done]. apply list_elem_of_omap.
    exists i. split; [|done]. apply list_elem_of_fmap. exists (k, i). split; [done|]. by apply elem_of_map_to_list.
  - destruct (latest key k (keep_last key rows)) as [r|] eqn:Hl; [|done].
    apply latest_Some in Hl as [Hin Hk]. exfalso. eapply (latest_None k rows r); [done| |done].
    rewrite keep_last_perm in Hin. apply list_elem_of_omap in Hin as (i & _ & Hi).
    by eapply list_elem_of_lookup_2.
Qed.

Lemma keep_last_Forall (P : A -> Prop) rows : Forall P rows -> Forall P (keep_last key rows).
Proof.
  rewrite !Forall_forall. intros HP r Hr. apply HP. rewrite keep_last_perm in Hr.
  apply list_elem_of_omap in Hr as (i & _ & Hi). by eapply list_elem_of_lookup_2.
Qed.

Lemma keep_last_singleton r : keep_last key [r] = [r].
Proof. unfold keep_last, keep_map. simpl. by rewrite insert_empty, map_to_list_singleton. Qed.

(** With distinct keys every row meets the old value of its key. *)
Lemma foldl_merge_nodup {V} (merge : option V -> A -> V) (m : gmap K V) l k : NoDup (key <$> l) ->
  foldl (fun m r => <[key r := merge (m !! key r) r]> m) m l !! k =
    match latest key k l with Some r => Some (merge (m !! k) r) | None => m !! k end.
Proof.
  induction l as [|r l IH] using rev_ind; [done|]. rewrite fmap_app, NoDup_app. intros (Hl & Hn & _).
  rewrite foldl_app, latest_row_snoc. simpl. specialize (IH Hl). destruct (decide (key r = k)) as [<-|Hk].
  - rewrite lookup_insert_eq, IH. destruct (latest key (key r) l) as [r'|] eqn:Hr; [|done].
    apply latest_Some in Hr as [Hin Hk]. exfalso. apply (Hn (key r)); [|set_solver].
    apply list_elem_of_fmap. by exists r'.
  - by rewrite lookup_insert_ne.
Qed.

(** Rows that overwrite: only the last one of a key counts. *)
Lemma foldl_put_latest {V} (val : A -> V) (m : gmap K V) rows k :
  foldl (fun m r => <[key r := val r]> m) m rows !! k =
    match latest key k rows with Some r => Some (val r) | None => m !! k end.
Proof.
  induction rows as [|r rows IH] using rev_ind; [done|]. rewrite foldl_app, latest_row_snoc. simpl.
  destruct (decide (key r = k)) as [<-|]; [by rewrite lookup_insert_eq|by rewrite lookup_insert_ne].
Qed.

Lemma upsert_all_sequential {V} (ok : A -> bool) (val : A -> V) rows (m : gmap K V) :
  Forall (fun r => ok r = true) rows ->
  upsert_all key ok (fun _ r => val r) (keep_last key rows) m =
    Some (foldl (fun m r => <[key r := val r]> m) m rows).
Proof.
  intros Hok. unfold upsert_all. rewrite decide_True by apply keep_last_keys.
  rewrite (proj2 (forallb_forall_true ok _)) by (by apply keep_last_Forall).
  f_equal. apply map_eq. intros k. by rewrite !foldl_put_latest, keep_last_latest.
Qed.
End keep_last_facts.

(** ** A batch is its frames, one by one *)

(** What one position frame does to the table. *)
Definition apply_op (m : gmap (Z * bytes) PositionRow) (op : PositionOp) : gmap (Z * bytes) PositionRow :=
  match op with PosUpsert u s r => <[(u, s) := r]> m | PosDelete u s => delete (u, s) m end.

Definition op_row (op : PositionOp) : option PositionRow :=
  match op with PosUpsert _ _ r => Some r | PosDelete _ _ => None end.

Lemma foldl_op_latest m ops k :
  foldl apply_op m ops !! k = match latest pos_key k ops with Some op => op_row op | None => m !! k end.
Proof.
  induction ops as [|op ops IH] using rev_ind; [done|]. rewrite foldl_app, latest_row_snoc. simpl.
  destruct op as [u s r|u s]; simpl; destruct (decide ((u, s) = k)) as [<-|].
  - by rewrite lookup_insert_eq.
  - by rewrite lookup_insert_ne.
  - by rewrite lookup_delete_eq.
  - by rewrite lookup_delete_ne.
Qed.

Lemma deletes_lookup {V} (m : gmap (Z * bytes) V) ks k :
  foldl (fun m k => delete k m) m ks !! k = if decide (k ∈ ks) then None else m !! k.
Proof.
  induction ks as [|k' ks IH] using rev_ind; [by rewrite decide_False by set_solver|].
  rewrite foldl_app. simpl. destruct (decide (k = k')) as [->|Hk].
  - rewrite lookup_delete_eq, decide_True by set_solver. done.
  - rewrite lookup_delete_ne, IH by done. by destruct (decide (k ∈ ks)), (decide (k ∈ ks ++ [k'])); set_solver.
Qed.

Lemma upserts_keys ops : fst <$> upserts_of ops `sublist_of` pos_key <$> ops.
Proof.
  induction ops as [|[u s r|u s] ops IH]; [done|..]; simpl; [by apply sublist_skip|by apply sublist_cons].
Qed.

Lemma elem_of_upserts ops u s r : (u, s, r) ∈ upserts_of ops <-> PosUpsert u s r ∈ ops.
Proof.
  unfold upserts_of. rewrite list_elem_of_omap. split.
  - intros ([u' s' r'|u' s'] & Hin & Heq); simpl in Heq; by simplify_eq.
  - intros Hin. by exists (PosUpsert u s r).
Qed.

Lemma elem_of_deletes ops u s : (u, s) ∈ deletes_of ops <-> PosDelete u s ∈ ops.
Proof.
  unfold deletes_of. rewrite list_elem_of_omap. split.
  - intros ([u' s' r'|u' s'] & Hin & Heq); simpl in Heq; by simplify_eq.
  - intros Hin. by exists (PosDelete u s).
Qed.

(** The position of a key after the two statements of [flush_positions]. *)
Lemma two_statements (m : gmap (Z * bytes) PositionRow) ops k : NoDup (pos_key <$> ops) ->
  foldl (fun m k => delete k m)
    (foldl (fun m x => <[fst x := snd x]> m) m (upserts_of ops)) (deletes_of ops) !! k =
  match latest pos_key k ops with Some op => op_row op | None => m !! k end.
Proof.
  intros Hnd. rewrite deletes_lookup. destruct (latest pos_key k ops) as [op|] eqn:Hl.
  - apply latest_Some in Hl as [Hin <-]. destruct op as [u s r|u s]; simpl.
    + rewrite decide_False.
      * rewrite (foldl_put_latest fst snd). erewrite (latest_unique fst _ _ (u, s, r)); [done|..|done].
        -- eapply sublist_NoDup; [exact Hnd|apply upserts_keys].
        -- by apply elem_of_upserts.
      * intros Hd%elem_of_deletes.
        assert (PosDelete u s = PosUpsert u s r); [|done].
        pose proof (latest_unique pos_key (u, s) ops _ Hnd Hin eq_refl).
        pose proof (latest_unique pos_key (u, s) ops _ Hnd Hd eq_refl). congruence.
    + by rewrite decide_True by (by apply elem_of_deletes).
  - destruct k as [u s]. rewrite decide_False.
    + rewrite (foldl_put_latest fst snd).
      destruct (latest fst (u, s) (upserts_of ops)) as [[[u' s'] r]|] eqn:Hu; [|done].
      apply latest_Some in Hu as [Hin ?]. simplify_eq/=. apply elem_of_upserts in Hin.
      by destruct (latest_None pos_key _ _ _ Hl Hin).
    + intros Hd%elem_of_deletes. by destruct (latest_None pos_key _ _ _ Hl Hd).
Qed.

Section sequential.
Context `{Chrono}.

Definition op_ok (t : Tables) (op : PositionOp) : bool :=
  match op with PosUpsert u _ r => position_ok t u r | PosDelete _ _ => true end.

Lemma flush_positions_sequential t ops : Forall (fun op => op_ok t op = true) ops ->
  flush_positions t ops = Some (set_positions t (foldl apply_op (tb_positions t) ops)).
Proof.
  intros Hok. unfold flush_positions, upsert_all.
  pose proof (keep_last_keys pos_key ops) as Hnd.
  rewrite decide_True by (eapply sublist_NoDup; [exact Hnd|apply upserts_keys]).
  rewrite (proj2 (forallb_forall_true _ _)).
  - cbn [mbind option_bind]. do 2 f_equal. apply map_eq. intros k.
    by rewrite two_statements, keep_last_latest, foldl_op_latest.
  - apply Forall_forall. intros [[u s] r] Hin%elem_of_upserts.
    apply (keep_last_Forall pos_key) in Hok. rewrite Forall_forall in Hok. by apply (Hok _ Hin).
Qed.

Lemma flush_risk_accounts_sequential t rows : Forall (fun r => risk_account_ok t r = true) rows ->
  flush_risk_accounts t rows =
    Some (set_risk_accounts t (foldl (fun m r => <[rr_user_id r := r]> m) (tb_risk_accounts t) rows)).
Proof. intros Hok. unfold flush_risk_accounts. by rewrite (upsert_all_sequential _ _ (fun r => r)). Qed.

Lemma flush_accounts_sequential t rows : Forall (fun r => account_row_ok t r = true) rows ->
  flush_accounts t rows =
    Some (set_accounts t (foldl (fun m r => <[account_key r := r]> m) (tb_accounts t) rows)).
Proof. intros Hok. unfold flush_accounts. by rewrite (upsert_all_sequential _ _ (fun r => r)). Qed.
End sequential.

(** *** Orders

    A batch writes its upserts, then its deletes, then its fills, whatever the
    order of the frames.  That is the order of the frames for one order when its
    upsert comes first. *)
Section orders.
Context `{Chrono}.

Inductive order_op :=
| OUpsert (r : UpsertRow)
| ODelete (id : Z)
| OFill (f : FillRow).

Definition op_id (op : order_op) : Z :=
  match op with OUpsert r => ur_id r | ODelete id => id | OFill f => fr_id f end.

Definition order_step (m : gmap Z UpsertRow) (op : order_op) : gmap Z UpsertRow :=
  match op with
  | OUpsert r => <[ur_id r := merge_order (m !! ur_id r) r]> m
  | ODelete id => delete id m
  | OFill f => alter (fill_row f) (fr_id f) m
  end.

Definition ups (ops : list order_op) : list UpsertRow :=
  omap (fun op => match op with OUpsert r => Some r | _ => None end) ops.
Definition dels (ops : list order_op) : list Z :=
  omap (fun op => match op with ODelete id => Some id | _ => None end) ops.
Definition fills (ops : list order_op) : list FillRow :=
  omap (fun op => match op with OFill f => Some f | _ => None end) ops.

(** The row of an order after the upserts of the batch, and after all of it. *)
Definition upserted (id : Z) (o : option UpsertRow) (ops : list order_op) : option UpsertRow :=
  match latest ur_id id (ups ops) with Some r => Some (merge_order o r) | None => o end.
Definition batch_row (id : Z) (o : option UpsertRow) (ops : list order_op) : option UpsertRow :=
  let o := if decide (id ∈ dels ops) then None else upserted id o ops in
  match latest fr_id id (fills ops) with Some f => fill_row f <$> o | None => o end.

(** An upsert is the first thing the batch says about its order. *)
Fixpoint upserts_first (seen : gset Z) (ops : list order_op) : bool :=
  match ops with
  | [] => true
  | op :: ops =>
      match op with OUpsert r => negb (bool_decide (ur_id r ∈ seen)) | _ => true end
      && upserts_first ({[op_id op]} ∪ seen) ops
  end.

Lemma upserts_first_app seen ops op : upserts_first seen (ops ++ [op]) = true ->
  upserts_first seen ops = true /\
  match op with OUpsert r => ur_id r ∉ (op_id <$> ops) | _ => True end.
Proof.
  revert seen. induction ops as [|op' ops IH]; intros seen; simpl.
  - intros _. split; [done|]. destruct op; set_solver.
  - rewrite !andb_true_iff. intros [Hop Hrest]. pose proof (IH _ Hrest) as [Hf Hn]. split; [done|].
    destruct op as [r| |]; [|done..]. rewrite not_elem_of_cons. split; [|done].
    clear IH Hf Hop. assert (forall s, upserts_first s (ops ++ [OUpsert r]) = true -> ur_id r ∉ s) as Hs.
    { clear. induction ops as [|op ops IH]; intros s; simpl; rewrite andb_true_iff.
      - intros [?%negb_true_iff%bool_decide_eq_false _]. done.
      - intros [_ ?%IH]. set_solver. }
    apply Hs in Hrest. set_solver.
Qed.

Lemma ups_snoc ops op : ups (ops ++ [op]) = ups ops ++ match op with OUpsert r => [r] | _ => [] end.
Proof. unfold ups. rewrite omap_app. by destruct op. Qed.
Lemma dels_snoc ops op : dels (ops ++ [op]) = dels ops ++ match op with ODelete id => [id] | _ => [] end.
Proof. unfold dels. rewrite omap_app. by destruct op. Qed.
Lemma fills_snoc ops op : fills (ops ++ [op]) = fills ops ++ match op with OFill f => [f] | _ => [] end.
Proof. unfold fills. rewrite omap_app. by destruct op. Qed.

Lemma op_ids_elem ops id : id ∉ (op_id <$> ops) ->
  latest ur_id id (ups ops) = None /\ id ∉ dels ops /\ latest fr_id id (fills ops) = None.
Proof.
  intros Hn. split; [|split].
  - destruct (latest _ _ _) as [r|] eqn:Hl; [|done]. apply latest_Some in Hl as [Hin <-].
    apply list_elem_of_omap in Hin as ([r'| |] & Hin & ?); simplify_eq.
    destruct Hn. apply list_elem_of_fmap. by exists (OUpsert r).
  - intros Hin. apply list_elem_of_omap in Hin as ([|id'|] & Hin & ?); simplify_eq.
    destruct Hn. apply list_elem_of_fmap. by exists (ODelete id).
  - destruct (latest _ _ _) as [f|] eqn:Hl; [|done]. apply latest_Some in Hl as [Hin <-].
    apply list_elem_of_omap in Hin as ([| |f'] & Hin & ?); simplify_eq.
    destruct Hn. apply list_elem_of_fmap. by exists (OFill f).
Qed.

Lemma fill_absorbs f f' r : fill_row f (fill_row f' r) = fill_row f r.
Proof. done. Qed.

Lemma order_step_ne m op id : op_id op <> id -> order_step m op !! id = m !! id.
Proof.
  destruct op; simpl; intros ?; [by rewrite lookup_insert_ne|by rewrite lookup_delete_ne|by rewrite lookup_alter_ne].
Qed.

Lemma batch_row_ne id o ops op : op_id op <> id -> batch_row id o (ops ++ [op]) = batch_row id o ops.
Proof.
  intros Hne. unfold batch_row, upserted. rewrite ups_snoc, dels_snoc, fills_snoc.
  destruct op as [r|id'|f]; simpl in Hne; rewrite !app_nil_r, ?latest_row_snoc.
  - by rewrite (decide_False (P:=ur_id r = id)).
  - destruct (decide (id ∈ dels ops)) as [Hd|Hd]; [rewrite decide_True by set_solver|rewrite decide_False by set_solver]; done.
  - by rewrite (decide_False (P:=fr_id f = id)).
Qed.

Lemma batch_row_seq m ops id : upserts_first ∅ ops = true ->
  foldl order_step m ops !! id = batch_row id (m !! id) ops.
Proof.
  induction ops as [|op ops IH] using rev_ind; [done|]. intros [Hf Hn]%upserts_first_app.
  specialize (IH Hf). rewrite foldl_app. simpl. destruct (decide (op_id op = id)) as [<-|Hne].
  2: by rewrite order_step_ne, batch_row_ne.
  unfold batch_row, upserted in *. rewrite ups_snoc, dels_snoc, fills_snoc.
  destruct op as [r|id|f]; simpl in *; rewrite !app_nil_r, ?latest_row_snoc.
  - destruct (op_ids_elem _ _ Hn) as (Hu & Hd & Hl). rewrite Hu, Hl, decide_False in IH by done.
    rewrite lookup_insert_eq, Hl. simpl. by rewrite (decide_False (P:=ur_id r ∈ dels ops)), (decide_True (P:=ur_id r = ur_id r)), IH.
  - rewrite lookup_delete_eq, decide_True by set_solver. by destruct (latest _ _ _).
  - rewrite lookup_alter_eq, IH, (decide_True (P:=fr_id f = fr_id f)) by done.
    destruct (latest _ _ (fills ops)); [|done]. by destruct (if decide (fr_id f ∈ dels ops) then None else _).
Qed.

(** *** The checks *)

(** What holds of a batch whose operations pass one by one. *)
Record checked (t : Tables) (ops : list order_op) : Prop := {
  ck_ups : Forall (fun r => known t (ur_user_id r) && order_ok r = true) (ups ops);
  ck_merged id row : latest ur_id id (ups ops) <> None -> upserted id (tb_orders t !! id) ops = Some row ->
    order_ok row = true;
  ck_filled id row : latest fr_id id (fills ops) <> None -> batch_row id (tb_orders t !! id) ops = Some row ->
    order_ok row = true;
}.

Definition order_stmt (t : Tables) (op : order_op) : option Tables :=
  match op with
  | OUpsert r => flush_upserts t [r]
  | ODelete id => flush_deletes t [id]
  | OFill f => flush_fills t [f]
  end.

Lemma order_stmt_inv t op t' : order_stmt t op = Some t' ->
  t' = set_orders t (order_step (tb_orders t) op) /\
  match op with
  | OUpsert r => known t (ur_user_id r) && order_ok r = true /\
      order_ok (merge_order (tb_orders t !! ur_id r) r) = true
  | OFill f => forall row, tb_orders t !! fr_id f = Some row -> order_ok (fill_row f row) = true
  | ODelete _ => True
  end.
Proof.
  destruct op as [r|id|f]; simpl.
  - unfold flush_upserts, upsert_all. rewrite keep_last_singleton, decide_True by apply NoDup_singleton. cbn [forallb foldl].
    rewrite andb_true_r. destruct (known t (ur_user_id r) && order_ok r) eqn:Hok; [|done]. cbn [andb mbind option_bind].
    unfold written_ok. simpl. rewrite lookup_insert_eq, andb_true_r.
    destruct (order_ok (merge_order _ _)) eqn:Hm; [|done]. simpl. case_match; [|done]. by intros [= <-].
  - by intros [= <-].
  - unfold flush_fills. rewrite keep_last_singleton. simpl. unfold written_ok. simpl.
    rewrite lookup_alter_eq, andb_true_r. destruct (tb_orders t !! fr_id f) as [row|] eqn:Hr; simpl.
    + destruct (order_ok (fill_row f row)) eqn:Hok; [|done]. intros [= <-]. split; [done|]. intros row' [= <-]. done.
    + intros [= <-]. split; [done|]. by intros ? [=].
Qed.

Lemma set_orders_known t m u : known (set_orders t m) u = known t u.
Proof. done. Qed.

Lemma upserted_ne id o ops op : op_id op <> id -> upserted id o (ops ++ [op]) = upserted id o ops.
Proof.
  intros Hne. unfold upserted. rewrite ups_snoc. destruct op; rewrite ?app_nil_r; [|done..].
  simpl in Hne. by rewrite latest_row_snoc, decide_False.
Qed.

Lemma checked_upsert t ops r : checked t ops -> ur_id r ∉ (op_id <$> ops) ->
  known t (ur_user_id r) && order_ok r = true -> order_ok (merge_order (tb_orders t !! ur_id r) r) = true ->
  checked t (ops ++ [OUpsert r]).
Proof.
  intros [Hu Hm Hfl] Hn Hok Hmo. destruct (op_ids_elem _ _ Hn) as (Hu0 & Hd0 & Hl0). split.
  - rewrite ups_snoc. apply Forall_app. by split; [|apply Forall_singleton].
  - intros id row. destruct (decide (ur_id r = id)) as [<-|Hne].
    + intros _. unfold upserted. rewrite ups_snoc, latest_row_snoc, decide_True by done. by intros [= <-].
    + rewrite upserted_ne, ups_snoc, latest_row_snoc, decide_False by done. apply Hm.
  - intros id row. rewrite fills_snoc, app_nil_r.
    destruct (decide (ur_id r = id)) as [<-|Hne]; [by rewrite Hl0|]. rewrite batch_row_ne by done. apply Hfl.
Qed.

Lemma checked_delete t ops id0 : checked t ops -> checked t (ops ++ [ODelete id0]).
Proof.
  intros [Hu Hm Hfl]. split.
  - by rewrite ups_snoc, app_nil_r.
  - intros id row. unfold upserted. rewrite ups_snoc, app_nil_r. apply Hm.
  - intros id row. rewrite fills_snoc, app_nil_r. destruct (decide (id0 = id)) as [<-|Hne].
    + intros _. unfold batch_row. rewrite dels_snoc, decide_True by set_solver. by destruct (latest _ _ _).
    + rewrite batch_row_ne by done. apply Hfl.
Qed.

Lemma checked_fill t ops f : checked t ops ->
  (forall row, batch_row (fr_id f) (tb_orders t !! fr_id f) ops = Some row -> order_ok (fill_row f row) = true) ->
  checked t (ops ++ [OFill f]).
Proof.
  intros [Hu Hm Hfl] Hop. split.
  - by rewrite ups_snoc, app_nil_r.
  - intros id row. unfold upserted. rewrite ups_snoc, app_nil_r. apply Hm.
  - intros id row. destruct (decide (fr_id f = id)) as [<-|Hne].
    + intros _. unfold batch_row, upserted in *.
      rewrite ups_snoc, dels_snoc, fills_snoc, !app_nil_r, latest_row_snoc, (decide_True (P:=fr_id f = fr_id f)) by done.
      destruct (if decide (fr_id f ∈ dels ops) then None else _) as [row'|]; [|done]. intros [= <-].
      destruct (latest fr_id (fr_id f) (fills ops)) as [f'|]; [|by apply Hop].
      rewrite <- (fill_absorbs f f'). by apply Hop.
    + rewrite batch_row_ne, fills_snoc, latest_row_snoc, decide_False by done. apply Hfl.
Qed.

Lemma checked_run t ops t' : upserts_first ∅ ops = true -> mfold order_stmt t ops = Some t' ->
  t' = set_orders t (foldl order_step (tb_orders t) ops) /\ checked t ops.
Proof.
  revert t'. induction ops as [|op ops IH] using rev_ind; intros t'.
  - intros _ [= <-]. split; [by destruct t|]. split; [done|by intros ? ? []..].
  - intros [Hf Hn]%upserts_first_app. rewrite mfold_app.
    destruct (mfold order_stmt t ops) as [t1|] eqn:H1; [|done]. cbn [mbind option_bind mfold].
    destruct (order_stmt t1 op) as [t2|] eqn:H2; [|done]. intros [= <-].
    destruct (IH t1 Hf eq_refl) as [-> Hck]. apply order_stmt_inv in H2 as [-> Hop].
    rewrite foldl_app. split; [done|]. cbn [set_orders tb_orders] in Hop. destruct op as [r|id0|f].
    + destruct Hop as [Hok Hmo]. rewrite batch_row_seq in Hmo by done.
      destruct (op_ids_elem _ _ Hn) as (Hu0 & Hd0 & Hl0). unfold batch_row, upserted in Hmo.
      rewrite Hu0, Hl0, decide_False in Hmo by done. by apply checked_upsert.
    + by apply checked_delete.
    + rewrite batch_row_seq in Hop by done. by apply checked_fill.
Qed.
End orders.

(** *** Changes

    What a frame asks of the tables, and the rows a list of them queues. *)
Section changes.
Context `{Chrono}.

Inductive change :=
| ChOrder (op : order_op)
| ChAccount (r : AccountRow)
| ChTrade (r : TradeRow)
| ChEvent (r : MatchingEventRow)
| ChPosition (op : PositionOp)
| ChRisk (r : RiskAccountRow)
| ChFund (balance : Z).

Definition add_change (r : BatchRows) (c : change) : BatchRows :=
  match c with
  | ChOrder (OUpsert x) => add_upsert r x
  | ChOrder (ODelete x) => add_delete r x
  | ChOrder (OFill x) => add_fill r x
  | ChAccount x => add_account r x
  | ChTrade x => add_trade r x
  | ChEvent x => add_matching_event r x
  | ChPosition x => add_position_op r x
  | ChRisk x => add_risk_account r x
  | ChFund x => PgStore.set_insurance_fund r x
  end.

Definition accepted {A} (mk : A -> change) (r : result A SkipReason) : option change :=
  match r with Ok x => Some (mk x) | Err _ => None end.

(** The change of a frame; [None] for a skipped frame and for a settlement. *)
Definition frame_change (f : PersistFrame) : option change :=
  match PersistFrame.kind f with
  | Some PersistKind.OrderUpsert => p ← mjoin (PersistFrame.as_order_upsert f); accepted (fun r => ChOrder (OUpsert r)) (decode_upsert p)
  | Some PersistKind.OrderDelete => p ← mjoin (PersistFrame.as_order_delete f); Some (ChOrder (ODelete (odp_id p)))
  | Some PersistKind.OrderFillUpdate => p ← mjoin (PersistFrame.as_order_fill_update f); accepted (fun r => ChOrder (OFill r)) (decode_fill p)
  | Some PersistKind.AccountSet => p ← mjoin (PersistFrame.as_account_set f); accepted ChAccount (decode_account p)
  | Some PersistKind.TradeInsert => p ← mjoin (PersistFrame.as_trade_insert f); accepted ChTrade (decode_trade p)
  | Some PersistKind.MatchingEvent => p ← mjoin (PersistFrame.as_matching_event f); accepted ChEvent (decode_matching_event p)
  | Some PersistKind.PositionUpsert => p ← mjoin (PersistFrame.as_position_upsert f); accepted ChPosition (decode_position_upsert p)
  | Some PersistKind.PositionDelete => p ← mjoin (PersistFrame.as_position_delete f); Some (ChPosition (PosDelete (pdp_user_id p) (unpack_str (pdp_symbol p))))
  | Some PersistKind.RiskAccountSet => p ← mjoin (PersistFrame.as_risk_account_set f); accepted ChRisk (decode_risk_account p)
  | Some PersistKind.InsuranceFundSet => p ← mjoin (PersistFrame.as_insurance_fund_set f); Some (ChFund (ifs_balance_atoms p))
  | _ => None
  end.

Lemma frame_rows_change r f : frame_rows r f = match frame_change f with Some c => add_change r c | None => r end.
Proof.
  unfold frame_rows, frame_change, decode_frame, with_payload.
  destruct (PersistFrame.kind f) as [[]|]; [..|done].
  all: repeat match goal with
    | |- context [@mjoin _ _ _ ?x] => destruct x as [[?|]|]; [|done..]; cbn [mjoin option_join mbind option_bind]
    | |- context [queued _ ?x] => destruct x; [|done]; cbn [queued accepted]
    | |- _ => done
    end.
  all: by destruct (PersistFrame.as_funding_settled f) as [[?|]|].
Qed.

Lemma rows_of_changes fs : rows_of fs = foldl add_change no_rows (omap frame_change fs).
Proof.
  induction fs as [|f fs IH] using rev_ind; [done|]. unfold rows_of in *.
  rewrite fold_left_app, omap_app, foldl_app. simpl. rewrite IH, frame_rows_change.
  by destruct (frame_change f).
Qed.

Definition orders_of (cs : list change) : list order_op := omap (fun c => match c with ChOrder x => Some x | _ => None end) cs.
Definition accounts_of (cs : list change) : list AccountRow := omap (fun c => match c with ChAccount x => Some x | _ => None end) cs.
Definition trades_of (cs : list change) : list TradeRow := omap (fun c => match c with ChTrade x => Some x | _ => None end) cs.
Definition events_of (cs : list change) : list MatchingEventRow := omap (fun c => match c with ChEvent x => Some x | _ => None end) cs.
Definition positions_of (cs : list change) : list PositionOp := omap (fun c => match c with ChPosition x => Some x | _ => None end) cs.
Definition risks_of (cs : list change) : list RiskAccountRow := omap (fun c => match c with ChRisk x => Some x | _ => None end) cs.
Definition funds_of (cs : list change) : list Z := omap (fun c => match c with ChFund x => Some x | _ => None end) cs.

Lemma rows_changes cs : foldl add_change no_rows cs =
  mkBatchRows (ups (orders_of cs)) (dels (orders_of cs)) (fills (orders_of cs)) (accounts_of cs)
    (trades_of cs) (events_of cs) (positions_of cs) (risks_of cs) (last (funds_of cs)).
Proof.
  induction cs as [|c cs IH] using rev_ind; [done|]. rewrite foldl_app, IH. simpl.
  unfold orders_of, accounts_of, trades_of, events_of, positions_of, risks_of, funds_of. rewrite !omap_app.
  destruct c as [[]| | | | | |]; simpl; rewrite ?app_nil_r, ?ups_snoc, ?dels_snoc, ?fills_snoc, ?app_nil_r, ?last_snoc; done.
Qed.

(** One change on its own: a flush after every frame. *)
Definition apply_change (t : Tables) (c : change) : option Tables := apply_rows t (add_change no_rows c).

(** The tables once every change has passed on its own. *)
Record one_by_one (t : Tables) (cs : list change) (t' : Tables) : Prop := {
  ob_users : tb_users t' = tb_users t;
  ob_orders : mfold order_stmt t (orders_of cs) = Some (set_orders t (tb_orders t'));
  ob_accounts_ok : Forall (fun r => account_row_ok t r = true) (accounts_of cs);
  ob_accounts : tb_accounts t' = foldl (fun m r => <[account_key r := r]> m) (tb_accounts t) (accounts_of cs);
  ob_trades_ok : Forall (fun r => trade_ok r = true) (trades_of cs);
  ob_trades : tb_trades t' = insert_new trade_key (trades_of cs) (tb_trades t);
  ob_events : tb_matching_events t' = insert_new event_key (events_of cs) (tb_matching_events t);
  ob_positions_ok : Forall (fun op => op_ok t op = true) (positions_of cs);
  ob_positions : tb_positions t' = foldl apply_op (tb_positions t) (positions_of cs);
  ob_risk_ok : Forall (fun r => risk_account_ok t r = true) (risks_of cs);
  ob_risk : tb_risk_accounts t' = foldl (fun m r => <[rr_user_id r := r]> m) (tb_risk_accounts t) (risks_of cs);
  ob_fund : tb_insurance_fund t' = default (tb_insurance_fund t) (last (funds_of cs));
  ob_funding : tb_funding_history t' = tb_funding_history t /\ tb_funding_state t' = tb_funding_state t;
}.

Lemma order_stmt_frame t t1 op t2 : tb_users t1 = tb_users t -> order_stmt t1 op = Some t2 ->
  order_stmt (set_orders t (tb_orders t1)) op = Some (set_orders t (tb_orders t2)).
Proof.
  intros Hu. destruct op as [r|id|f]; simpl.
  - unfold flush_upserts, known. cbn [set_orders tb_users tb_orders]. rewrite Hu.
    destruct (upsert_all _ _ _ _ _) as [m|]; [|done]. cbn [mbind option_bind].
    destruct (written_ok _ _ _ && _); [|done]. by intros [= <-].
  - by intros [= <-].
  - unfold flush_fills. cbn [set_orders tb_orders]. destruct (written_ok _ _ _); [|done]. by intros [= <-].
Qed.

Lemma row_ok_users t t1 : tb_users t1 = tb_users t ->
  (forall r, account_row_ok t1 r = account_row_ok t r) /\ (forall op, op_ok t1 op = op_ok t op) /\
  (forall r, risk_account_ok t1 r = risk_account_ok t r).
Proof.
  intros Hu. unfold account_row_ok, op_ok, position_ok, risk_account_ok, known. by rewrite Hu.
Qed.

Lemma position_row_ok t u s r t' : flush_positions t [PosUpsert u s r] = Some t' -> position_ok t u r = true.
Proof.
  unfold flush_positions. rewrite keep_last_singleton. simpl.
  unfold upsert_all. rewrite decide_True by apply NoDup_singleton. simpl. by destruct (position_ok t u r).
Qed.

Lemma single_row_ok {R K V} `{Countable K} (key : R -> K) (ok : R -> bool) (f : option V -> R -> V) r m m' :
  upsert_all key ok f (keep_last key [r]) m = Some m' -> ok r = true.
Proof.
  rewrite keep_last_singleton. unfold upsert_all. rewrite decide_True by apply NoDup_singleton. simpl.
  by destruct (ok r).
Qed.

Lemma apply_change_inv t c t' : apply_change t c = Some t' -> one_by_one t [c] t'.
Proof.
  unfold apply_change, apply_rows.
  destruct c as [op|r|r|r|op|r|b]; simpl; unfold vec_push; simpl.
  - assert (forall x, x = Some t' -> x = order_stmt t op -> one_by_one t [ChOrder op] t') as Hgo.
    { intros x -> Hx. symmetry in Hx. pose proof Hx as Hx'. apply order_stmt_inv in Hx' as [Ht _].
      subst t'. split; simpl; rewrite ?Hx; done. }
    destruct op as [r|id|f]; simpl; unfold vec_push; simpl; intros Ha.
    + destruct (flush_upserts t [r]) as [t1|] eqn:H1; [|done]. simpl in Ha. apply (Hgo (Some t1)); [by simplify_eq|by rewrite <- H1].
    + apply (Hgo _ Ha). done.
    + destruct (flush_fills t [f]) as [t1|] eqn:H1; [|done]. simpl in Ha. apply (Hgo (Some t1)); [by simplify_eq|by rewrite <- H1].
  - destruct (flush_accounts t [r]) as [t1|] eqn:H1; [|done]. simpl. intros [= <-].
    assert (account_row_ok t r = true) as Hok.
    { unfold flush_accounts in H1. destruct (upsert_all _ _ _ _ _) eqn:Hu; [|done]. by eapply single_row_ok. }
    rewrite flush_accounts_sequential in H1 by (by apply Forall_singleton). injection H1 as <-.
    split; simpl; try done; [by destruct t|by apply Forall_singleton].
  - unfold flush_trades. simpl. rewrite andb_true_r. destruct (trade_ok r) eqn:Hok; [|done]. simpl. intros [= <-].
    split; simpl; try done; [by destruct t|by apply Forall_singleton].
  - intros [= <-]. split; simpl; try done. by destruct t.
  - destruct (flush_positions t [op]) as [t1|] eqn:H1; [|done]. simpl. intros [= <-].
    assert (op_ok t op = true) as Hok by (destruct op; [by eapply position_row_ok|done]).
    rewrite flush_positions_sequential in H1 by (by apply Forall_singleton). injection H1 as <-.
    split; simpl; try done; [by destruct t|by apply Forall_singleton].
  - destruct (flush_risk_accounts t [r]) as [t1|] eqn:H1; [|done]. simpl. intros [= <-].
    assert (risk_account_ok t r = true) as Hok.
    { unfold flush_risk_accounts in H1. destruct (upsert_all _ _ _ _ _) eqn:Hu; [|done]. by eapply single_row_ok. }
    rewrite flush_risk_accounts_sequential in H1 by (by apply Forall_singleton). injection H1 as <-.
    split; simpl; try done; [by destruct t|by apply Forall_singleton].
  - intros [= <-]. split; simpl; try done. by destruct t.
Qed.

Lemma one_by_one_snoc t cs t1 c t' : one_by_one t cs t1 -> one_by_one t1 [c] t' -> one_by_one t (cs ++ [c]) t'.
Proof.
  intros [Hu Ho Hao Ha Hto Htr He Hpo Hp Hro Hr Hf Hh] [Hu' Ho' Hao' Ha' Hto' Htr' He' Hpo' Hp' Hro' Hr' Hf' Hh'].
  destruct (row_ok_users _ _ Hu) as (Hra & Hrp & Hrr).
  assert (forall {B} (g : change -> option B), omap g (cs ++ [c]) = omap g cs ++ omap g [c]) as Happ
    by (intros; apply omap_app).
  split.
  - by rewrite Hu', Hu.
  - unfold orders_of. rewrite Happ, mfold_app. fold (orders_of cs) (orders_of [c]). rewrite Ho. cbn [mbind option_bind].
    apply (f_equal (fmap tb_orders)) in Ho'.
    destruct c as [op| | | | | |]; simpl in Ho' |- *; [|congruence..].
    destruct (order_stmt t1 op) as [t2|] eqn:H2; [|done]. simpl in Ho'.
    rewrite (order_stmt_frame t t1 op t2 Hu H2). simpl. congruence.
  - unfold accounts_of. rewrite Happ. apply Forall_app. split; [done|]. eapply Forall_impl; [exact Hao'|]. intros r; cbv beta. by rewrite Hra.
  - unfold accounts_of. by rewrite Happ, foldl_app, Ha', Ha.
  - unfold trades_of. rewrite Happ. by apply Forall_app.
  - unfold trades_of, insert_new. by rewrite Happ, foldl_app, Htr', Htr.
  - unfold events_of, insert_new. by rewrite Happ, foldl_app, He', He.
  - unfold positions_of. rewrite Happ. apply Forall_app. split; [done|]. eapply Forall_impl; [exact Hpo'|]. intros r; cbv beta. by rewrite Hrp.
  - unfold positions_of. by rewrite Happ, foldl_app, Hp', Hp.
  - unfold risks_of. rewrite Happ. apply Forall_app. split; [done|]. eapply Forall_impl; [exact Hro'|]. intros r; cbv beta. by rewrite Hrr.
  - unfold risks_of. by rewrite Happ, foldl_app, Hr', Hr.
  - unfold funds_of. rewrite Happ, Hf', Hf. fold (funds_of cs) (funds_of [c]).
    destruct c; simpl; rewrite ?app_nil_r, ?last_snoc; done.
  - destruct Hh' as [-> ->]. done.
Qed.

Lemma changes_one_by_one t cs t' : mfold apply_change t cs = Some t' -> one_by_one t cs t'.
Proof.
  revert t'. induction cs as [|c cs IH] using rev_ind; intros t'.
  - intros [= <-]. split; simpl; try done. by destruct t.
  - rewrite mfold_app. destruct (mfold apply_change t cs) as [t1|]; [|done]. cbn [mbind option_bind mfold].
    destruct (apply_change t1 c) as [t2|] eqn:H2; [|done]. intros [= <-].
    eapply one_by_one_snoc; [by apply IH|by apply apply_change_inv].
Qed.

(** Flushing after every frame applies the changes of the frames. *)
Lemma frames_changes fs : forall t t', mfold (fun t f => apply_rows t (rows_of [f])) t fs = Some t' ->
  mfold apply_change t (omap frame_change fs) = Some t'.
Proof.
  induction fs as [|f fs IH]; intros t t'; simpl; [done|].
  rewrite rows_of_changes. simpl. destruct (frame_change f) as [c|]; simpl.
  - fold (apply_change t c). destruct (apply_change t c); [|done]. apply IH.
  - destruct (apply_rows t no_rows) as [t1|] eqn:H1; [|done]. simpl. injection H1 as <-. apply IH.
Qed.

Lemma unless_empty_ok {R} (stmt : Tables -> list R -> option Tables) t rows t' :
  (rows = [] -> t' = t) -> stmt t rows = Some t' -> unless_empty stmt t rows = Some t'.
Proof. destruct rows; [intros ->|]; done. Qed.

(** The table of orders after the upserts of a batch, when it is checked for
    repeated client order ids. *)
Definition with_upserts (t : Tables) (rows : list UpsertRow) : gmap Z UpsertRow :=
  foldl (fun m r => <[ur_id r := merge_order (m !! ur_id r) r]> m) (tb_orders t) (keep_last ur_id rows).

Lemma with_upserts_lookup t ops id : with_upserts t (ups ops) !! id = upserted id (tb_orders t !! id) ops.
Proof. unfold with_upserts, upserted. by rewrite foldl_merge_nodup, keep_last_latest by apply keep_last_keys. Qed.

Lemma flush_upserts_batch t ops : checked t ops -> client_ids_unique (with_upserts t (ups ops)) = true ->
  unless_empty flush_upserts t (ups ops) = Some (set_orders t (with_upserts t (ups ops))).
Proof.
  intros [Hu Hm _] Hc. apply unless_empty_ok.
  - intros ->. by destruct t.
  - unfold flush_upserts, upsert_all. rewrite decide_True by apply keep_last_keys.
    rewrite (proj2 (forallb_forall_true _ _)) by (by apply keep_last_Forall). cbn [mbind option_bind].
    fold (with_upserts t (ups ops)). rewrite Hc, andb_true_r. unfold written_ok.
    rewrite (proj2 (forallb_forall_true _ _)); [done|]. apply Forall_fmap, Forall_forall. intros r Hr. simpl.
    rewrite with_upserts_lookup. destruct (upserted _ _ _) as [row|] eqn:Hrow; [|done].
    apply (Hm (ur_id r)); [|done]. intros Hl. by destruct (latest_None ur_id _ _ _ Hl Hr).
Qed.

Lemma flush_fills_batch t ops (m : gmap Z UpsertRow) : checked t ops ->
  (forall id, m !! id = if decide (id ∈ dels ops) then None else upserted id (tb_orders t !! id) ops) ->
  upserts_first ∅ ops = true ->
  unless_empty flush_fills (set_orders t m) (fills ops) = Some (set_orders t (foldl order_step (tb_orders t) ops)).
Proof.
  intros [_ _ Hf] Hm Hfirst.
  set (m' := foldl (fun m f => alter (fill_row f) (fr_id f) m) m (keep_last fr_id (fills ops))).
  assert (m' = foldl order_step (tb_orders t) ops) as Hm'.
  { apply map_eq. intros id. rewrite batch_row_seq by done. unfold batch_row. rewrite <- Hm.
    rewrite <- keep_last_latest. unfold m'. pose proof (keep_last_keys fr_id (fills ops)) as Hnd.
    clear -Hnd. induction (keep_last fr_id (fills ops)) as [|f l IH] using rev_ind; [done|].
    rewrite fmap_app, NoDup_app in Hnd. destruct Hnd as (Hnd & Hn & _). specialize (IH Hnd).
    rewrite foldl_app, latest_row_snoc. simpl. destruct (decide (fr_id f = id)) as [<-|]; [|by rewrite lookup_alter_ne].
    rewrite lookup_alter_eq, IH. destruct (latest fr_id (fr_id f) l) as [f'|] eqn:Hl; [|done].
    apply latest_Some in Hl as [Hin Heq]. exfalso. apply (Hn (fr_id f)); [|set_solver].
    apply list_elem_of_fmap. by exists f'. }
  apply unless_empty_ok.
  - intros Hnil. f_equal. rewrite <- Hm'. unfold m'. by rewrite Hnil.
  - unfold flush_fills. cbn [set_orders tb_orders]. fold m'. rewrite Hm'.
    replace (written_ok order_ok _ _) with true; [done|]. symmetry. unfold written_ok.
    apply forallb_forall_true, Forall_fmap, Forall_forall. intros f Hin. simpl.
    rewrite batch_row_seq by done. destruct (batch_row _ _ _) as [row|] eqn:Hrow; [|done].
    apply (Hf (fr_id f)); [|done]. intros Hl. by destruct (latest_None fr_id _ _ _ Hl Hin).
Qed.

Lemma deletes_Z (m : gmap Z UpsertRow) ids id :
  foldl (fun m k => delete k m) m ids !! id = if decide (id ∈ ids) then None else m !! id.
Proof.
  induction ids as [|k ids IH] using rev_ind; [by rewrite decide_False by set_solver|].
  rewrite foldl_app. simpl. destruct (decide (id = k)) as [->|Hk].
  - rewrite lookup_delete_eq, decide_True by set_solver. done.
  - rewrite lookup_delete_ne, IH by done. by destruct (decide (id ∈ ids)), (decide (id ∈ ids ++ [k])); set_solver.
Qed.

Lemma batch_orders t ops t' : upserts_first ∅ ops = true -> client_ids_unique (with_upserts t (ups ops)) = true ->
  mfold order_stmt t ops = Some t' ->
  (t ← unless_empty flush_upserts t (ups ops); t ← unless_empty flush_deletes t (dels ops);
   unless_empty flush_fills t (fills ops)) = Some t'.
Proof.
  intros Hfirst Hc Hrun. apply checked_run in Hrun as [-> Hck]; [|done].
  rewrite flush_upserts_batch by done. cbn [mbind option_bind].
  rewrite (unless_empty_ok flush_deletes _ _
    (set_orders t (foldl (fun m k => delete k m) (with_upserts t (ups ops)) (dels ops)))); [|by intros ->|done].
  cbn [mbind option_bind]. apply flush_fills_batch; [done| |done]. intros id.
  by rewrite deletes_Z, with_upserts_lookup.
Qed.
End changes.

Section theorem.
Context `{Chrono}.

(** C12: A batch of the database writer stores what its frames store one by one.
    If every frame, flushed on its own in the order of the stream, passes the
    constraints of the schema and leads from tables [t] to [t'], then the single
    transaction of the batch, which groups the rows by table and keeps the last
    row of every key, passes too and leads to the same tables, provided an
    order's upsert is the first frame of the batch about that order and no
    client order id is used twice among the orders before the batch's deletes
    are applied. *)
Theorem batch_is_sequential t fs t' :
  mfold (fun t f => apply_rows t (rows_of [f])) t fs = Some t' ->
  upserts_first ∅ (orders_of (omap frame_change fs)) = true ->
  client_ids_unique (with_upserts t (ups (orders_of (omap frame_change fs)))) = true ->
  apply_rows t (rows_of fs) = Some t'.
Proof.
  intros Hrun%frames_changes Hfirst Hc. rename Hrun into Hcs.
  apply changes_one_by_one in Hcs. rewrite rows_of_changes, rows_changes. set (cs := omap frame_change fs) in *.
  destruct Hcs as [Hu Ho Hao Ha Hto Htr He Hpo Hp Hro Hr Hf [Hh Hs]]. unfold apply_rows. cbn [br_upserts br_deletes
    br_fills br_accounts br_trades br_matching_events br_position_ops br_risk_accounts br_insurance_fund_atoms].
  apply batch_orders in Ho; [|done..].
  destruct (unless_empty flush_upserts t _) as [t1|]; [|done]. cbn [mbind option_bind] in Ho |- *.
  destruct (unless_empty flush_deletes t1 _) as [t2|]; [|done]. cbn [mbind option_bind] in Ho |- *.
  rewrite Ho. cbn [mbind option_bind].
  erewrite (unless_empty_ok flush_accounts); [|shelve|by apply flush_accounts_sequential]. cbn [mbind option_bind].
  erewrite (unless_empty_ok flush_trades); [|shelve|unfold flush_trades; by rewrite (proj2 (forallb_forall_true _ _))].
  cbn [mbind option_bind].
  erewrite (unless_empty_ok flush_matching_events); [|shelve|done]. cbn [mbind option_bind].
  erewrite (unless_empty_ok flush_positions); [|shelve|by apply flush_positions_sequential]. cbn [mbind option_bind].
  erewrite (unless_empty_ok flush_risk_accounts); [|shelve|by apply flush_risk_accounts_sequential]. cbn [mbind option_bind].
  f_equal. destruct t', t. simpl in *. subst. by destruct (last (funds_of cs)).
  Unshelve. all: by intros ->.
Qed.
End theorem.

(** ** Funding *)

Section funding.
Context `{Chrono}.

(** The money of the margin tables. *)
Definition margin_total (t : Tables) : Z :=
  msum (fun _ r => rr_equity_atoms r) (tb_risk_accounts t) + tb_insurance_fund t.

Definition delta_sum (ds : list (Z * Z)) : Z := foldr (fun d acc => d.2 + acc) 0 ds.

(** The deltas of users that have an account, and of those that have none. *)
Definition paid (m : gmap Z RiskAccountRow) (ds : list (Z * Z)) : list (Z * Z) :=
  filter (fun d => m !! d.1 <> None) ds.

Lemma delta_sum_fst ds : delta_sum ds = foldr Z.add 0 ds.*2.
Proof. induction ds as [|d ds IH]; simpl; [done|]. by rewrite IH. Qed.

Lemma delta_sum_split m ds :
  delta_sum ds = delta_sum (paid m ds) + delta_sum (filter (fun d => m !! d.1 = None) ds).
Proof.
  induction ds as [|d ds IH]; [done|]. unfold paid in *. rewrite !filter_cons. simpl.
  destruct (decide (m !! d.1 <> None)) as [Hd|Hd], (decide (m !! d.1 = None)) as [Hd'|Hd']; simpl; rewrite ?IH.
  - done.
  - lia.
  - lia.
  - by destruct (m !! d.1).
Qed.

Lemma alter_none_iff (m : gmap Z RiskAccountRow) f k k' : alter f k m !! k' = None <-> m !! k' = None.
Proof. destruct (decide (k = k')) as [->|]; [rewrite lookup_alter_eq|by rewrite lookup_alter_ne]. by destruct (m !! k'). Qed.

Lemma credit_total ds : forall m,
  msum (fun _ r => rr_equity_atoms r) (foldl (fun m d => alter (fun r => add_equity r d.2) d.1 m) m ds) =
    msum (fun _ r => rr_equity_atoms r) m + delta_sum (paid m ds).
Proof.
  induction ds as [|d ds IH]; intros m; simpl; [unfold paid; cbn; lia|].
  rewrite IH. assert (paid (alter (fun r => add_equity r d.2) d.1 m) ds = paid m ds) as ->.
  { apply list_filter_iff. intros x. by rewrite alter_none_iff. }
  unfold paid. rewrite filter_cons. destruct (m !! d.1) as [r|] eqn:Hr.
  - rewrite decide_True by done. replace (alter _ d.1 m) with (<[d.1 := add_equity r d.2]> m).
    + rewrite msum_upsert, Hr. simpl. lia.
    + apply map_eq. intros k. destruct (decide (k = d.1)) as [->|].
      * by rewrite lookup_insert_eq, lookup_alter_eq, Hr.
      * by rewrite lookup_insert_ne, lookup_alter_ne.
  - rewrite decide_False by (intros Hn; by apply Hn). f_equal. f_equal. apply map_eq. intros k.
    destruct (decide (k = d.1)) as [->|]; [by rewrite lookup_alter_eq, Hr|by rewrite lookup_alter_ne].
Qed.

Lemma foldl_add_range l : forall z, in_i64 z -> in_i64 (foldl i64_add z l).
Proof. induction l as [|x l IH]; intros z Hz; simpl; [done|]. apply IH, i64_add_range. Qed.

(** The residue that is booked: what the settled accounts paid in total. *)
Lemma residue_exact ps mark scale rate s m : compute_settlement ps mark scale rate = Some s ->
  in_i64 (- delta_sum (paid m (fs_deltas s))) ->
  foldl i64_add (fs_residue_atoms s) (filter (fun d => m !! d.1 = None) (fs_deltas s)).*2 =
    - delta_sum (paid m (fs_deltas s)).
Proof.
  intros Hs Hr. apply eq64_range; [|apply foldl_add_range|done].
  - pose proof (settlement_sum _ _ _ _ _ Hs) as H0. fold (delta_sum (fs_deltas s)) in H0.
    rewrite sum_eq64, <- delta_sum_fst. rewrite (delta_sum_split m) in H0.
    transitivity (delta_sum (paid m (fs_deltas s)) + delta_sum (filter (fun d => m !! d.1 = None) (fs_deltas s))
      + fs_residue_atoms s - delta_sum (paid m (fs_deltas s))); [apply eq64_refl_by; lia|].
    rewrite H0. apply eq64_refl_by. lia.
  - unfold compute_settlement in Hs. destruct (Z.eqb rate 0); [injection Hs as <-; by unfold in_i64|].
    apply bind_Some in Hs as (out & _ & Hs). injection Hs as <-. simpl. apply wrap_i64_range.
Qed.

(** C13: A funding settlement in the database moves money and creates none: the
    sum of all margin accounts' equity and the insurance fund is the same before
    and after it, also when some holders of the symbol have no account and are
    passed over, as long as what the settled accounts pay in total is
    representable. *)
Theorem funding_settlement_conserves t f s t' :
  compute_settlement (symbol_positions t (unpack_str (fsp_symbol f))) (fsp_mark_price_ticks f)
    (fsp_notional_scale f) (fsp_rate_e9 f) = Some s ->
  in_i64 (- delta_sum (paid (tb_risk_accounts t) (fs_deltas s))) ->
  apply_funding_settlement t f = Some t' ->
  margin_total t' = margin_total t.
Proof.
  intros Hs Hr. unfold apply_funding_settlement. rewrite Hs. cbn [mbind option_bind].
  rewrite (residue_exact _ _ _ _ _ _ Hs Hr). unfold credit_rows.
  destruct (written_ok _ _ _); [|done]. cbn [mbind option_bind]. unfold add_to_fund.
  set (d := delta_sum _). destruct (Z.eqb_spec (- d) 0) as [H0|H0]; cbn [mbind option_bind].
  - destruct (Z.leb _ 0); [done|]. intros [= <-]. unfold margin_total. simpl. rewrite credit_total. fold d. lia.
  - cbn [set_risk_accounts tb_insurance_fund]. destruct (_ && _); [|done]. cbn [mbind option_bind].
    destruct (Z.leb _ 0); [done|]. intros [= <-]. unfold margin_total. simpl. rewrite credit_total. fold d. lia.
Qed.
End funding.

(** ** Concrete batches *)

(** A clock library that accepts non-negative milliseconds. *)
#[local] Instance demo_clock : Chrono := {|
  DateTime := Z; timestamp_millis_opt ms := if Z.leb 0 ms then Some ms else None |}.

(** The bit pattern of 1.0. *)
Definition one_bits : Z := 4607182418800017408.

Definition demo_frame (o : option PersistFrame) : PersistFrame := default PersistFrame.zero o.
Definition demo_upsert (id : Z) (coid : bytes) : PersistFrame :=
  demo_frame (PersistFrame.order_upsert (mkOrderUpsertPayload id 1 (pack_str 16 (str "BTC_USDT")) 0 0 (zeros 6)
    (pack_str 16 (str "limit")) one_bits one_bits 0 0 (pack_str 32 coid) 1000)).
Definition demo_fill (id : Z) : PersistFrame :=
  demo_frame (PersistFrame.order_fill_update (mkOrderFillUpdatePayload id one_bits 1 (zeros 7))).
Definition demo_removal (id : Z) : PersistFrame :=
  demo_frame (PersistFrame.order_delete (mkOrderDeletePayload id)).
Definition demo_position (user qty margin : Z) : PersistFrame :=
  demo_frame (PersistFrame.position_upsert (mkPositionUpsertPayload user (pack_str 16 (str "BTC_USDT")) 0 10 (zeros 6)
    qty 6400000 margin (64000000000 * qty))).
Definition demo_margin (user equity used : Z) : PersistFrame :=
  demo_frame (PersistFrame.risk_account_set (mkRiskAccountSetPayload user equity used 0 0 (zeros 7))).

Definition demo_tables : Tables :=
  mkTables {[1; 2]} ∅ ∅ ∅ ∅
    {[(1, str "BTC_USDT") := mkPositionRow "long" 5 6400000 10 3200 0;
      (2, str "BTC_USDT") := mkPositionRow "short" 5 6400000 10 3200 0]}
    {[1 := mkRiskAccountRow 1 900000 3200 0 "normal"; 2 := mkRiskAccountRow 2 800000 3200 0 "normal"]}
    77 [] ∅.

Definition run_frames (t : Tables) (fs : list PersistFrame) : option Tables :=
  mfold (fun t f => apply_rows t (rows_of [f])) t fs.

Definition demo_batch : list PersistFrame :=
  [demo_upsert 5 (str "a"); demo_position 1 7 4480; demo_margin 1 900100 4480; demo_fill 5;
   demo_position 1 8 5120; demo_margin 1 900200 5120; demo_removal 4].

Lemma batch_is_sequential_witness :
  apply_rows demo_tables (rows_of demo_batch) = Some (default demo_tables (run_frames demo_tables demo_batch)).
Proof.
  apply batch_is_sequential; [|vm_compute; reflexivity..].
  unfold run_frames. vm_compute. reflexivity.
Defined.

Lemma funding_settlement_conserves_witness :
  margin_total (default demo_tables (apply_funding_settlement demo_tables demo_payload)) = margin_total demo_tables.
Proof.
  apply (funding_settlement_conserves demo_tables demo_payload
    (default (mkFundingSettlement [] 0 0 0)
       (compute_settlement (symbol_positions demo_tables (str "BTC_USDT")) 6400000 1000000 100000))).
  - vm_compute. reflexivity.
  - vm_compute. split; intros [=].
  - vm_compute. reflexivity.
Defined.

(** A client that reuses an order id of its own as soon as the first order is
    gone: frame by frame the rows are accepted, but a batch that holds both
    frames inserts before it deletes, violates the unique index and fails, and
    fails again at every retry. *)
Lemma reused_client_id_wedges :
  is_Some (run_frames demo_tables [demo_upsert 5 (str "a"); demo_removal 5; demo_upsert 6 (str "a")]) /\
  apply_rows demo_tables (rows_of [demo_upsert 5 (str "a"); demo_removal 5; demo_upsert 6 (str "a")]) = None.
Proof. split; [vm_compute; eexists; reflexivity|vm_compute; reflexivity]. Qed.

(** A fill flushed before the upsert of its order is lost: the row ends with
    nothing filled. *)
Lemma early_fill_lost :
  (fun t => ur_filled_atoms <$> tb_orders t !! 5) <$> run_frames demo_tables [demo_fill 5; demo_upsert 5 (str "a")] =
    Some (Some 0).
Proof. vm_compute. reflexivity. Qed.
