(* ===== verification/RiskTyped.v ===== *)
(** The machine types of the risk engine's state.  Every amount is an [i64],
    every leverage a [u8], every symbol sixteen bytes, and every account and
    position is stored under the user and symbol it names.  The operations of
    the engine, given arguments of their Rust types, keep it so; what the engine
    hands to the persistence stream is then always representable. *)
From Stdlib Require Import ZArith Lia String.
From stdpp Require Import base numbers list gmap sorting.
From S2P Require Import Prelude Bytes Fixed RiskCalc RiskEngine Funding.

#[local] Open Scope Z_scope.

(** ** Calls

    The operations of the engine as data, with the arguments of their callers. *)

Inductive risk_call :=
| CallInitialize (user_id usdt_balance_atoms : Z)
| CallReserve (user_id initial_margin_atoms : Z)
| CallRelease (user_id initial_margin_atoms : Z)
| CallFill (user_id : Z) (symbol : Symbol) (order_side fill_price_ticks fill_qty_lots fill_margin_atoms
    notional_scale leverage maintenance_rate_bps liq_price_ticks : Z)
| CallFee (user_id fee : Z)
| CallMark (symbol : Symbol) (new_price_ticks notional_scale : Z)
| CallTick
| CallStatus (user_id : Z) (status : RiskStatus)
| CallStatusIf (user_id : Z) (expected status : RiskStatus)
| CallFunding (settlement : FundingSettlement)
| CallAdl (symbol : Symbol) (notional_scale leverage maintenance_rate_bps : Z).

Definition exec `{HashIter} (e : RiskEngine) (c : risk_call) : option RiskEngine :=
  match c with
  | CallInitialize uid b => Some (RiskEngine.initialize_account e uid b)
  | CallReserve uid m => Some (RiskEngine.check_and_reserve_margin e uid m).1
  | CallRelease uid m => Some (RiskEngine.release_order_margin e uid m)
  | CallFill uid sym side price qty margin scale lev rate liq =>
      RiskEngine.on_fill e uid sym side price qty margin scale lev rate liq
  | CallFee uid fee => Some (RiskEngine.charge_fee e uid fee)
  | CallMark sym price scale => RiskEngine.update_mark_price e sym price scale
  | CallTick => Some (RiskEngine.run_risk_tick e).1
  | CallStatus uid s => Some (RiskEngine.set_account_status e uid s).1
  | CallStatusIf uid x s => Some (RiskEngine.set_account_status_if e uid x s).1
  | CallFunding s => Some (apply_in_memory e s)
  | CallAdl sym scale lev rate => fst <$> RiskEngine.run_adl e sym scale lev rate
  end.

(** ** Types *)

Definition in_u8 (z : Z) : Prop := 0 <= z < 256.
Definition symbol_typed (s : Symbol) : Prop := length s = 16%nat /\ Forall is_byte s.

(** The arguments a caller of the right types passes. *)
Definition call_typed (c : risk_call) : Prop :=
  match c with
  | CallInitialize uid b => in_i64 uid /\ in_i64 b
  | CallFill uid sym _ price qty margin _ lev _ liq =>
      in_i64 uid /\ symbol_typed sym /\ in_i64 price /\ in_i64 qty /\ in_i64 margin /\ in_u8 lev /\ in_i64 liq
  | CallAdl sym _ lev _ => symbol_typed sym /\ in_u8 lev
  | _ => True
  end.

Definition account_typed (uid : Z) (a : AccountRiskState) : Prop :=
  in_i64 uid /\ ac_user_id a = uid /\
  Forall in_i64 [ac_equity a; ac_available_margin a; ac_order_margin a; ac_used_margin a;
    ac_maintenance_margin a; ac_unrealized_pnl a].

Definition position_typed (k : Z * Symbol) (p : PositionRiskState) : Prop :=
  in_i64 k.1 /\ symbol_typed k.2 /\ ps_user_id p = k.1 /\ ps_symbol p = k.2 /\ in_u8 (ps_leverage p) /\
  Forall in_i64 [ps_qty_lots p; ps_cost_atoms p; ps_entry_price_ticks p; ps_mark_price_ticks p;
    ps_unrealized_pnl p; ps_initial_margin p; ps_maintenance_margin p; ps_liquidation_price_ticks p;
    ps_bankruptcy_price_ticks p].

Record engine_typed (e : RiskEngine) : Prop := {
  et_accounts : map_Forall account_typed (re_accounts e);
  et_positions : map_Forall position_typed (re_positions e);
  et_marks : map_Forall (fun _ => in_i64) (re_mark_prices e);
  et_oi : map_Forall (fun _ => in_i64) (re_symbol_oi_lots e);
  et_fund : in_i64 (re_insurance_fund_atoms e);
}.

(** ** Arithmetic stays in range *)

Create HintDb typed discriminated.
#[export] Hint Resolve wrap_i64_range i64_add_range i64_sub_range i64_mul_range : typed.

Lemma in_i64_0 : in_i64 0.
Proof. by unfold in_i64. Qed.
Lemma in_i64_max0 z : in_i64 z -> in_i64 (Z.max z 0).
Proof. machine_unfold. lia. Qed.
Lemma in_i64_min a b : in_i64 a -> in_i64 b -> in_i64 (Z.min a b).
Proof. machine_unfold. lia. Qed.
Lemma ewma_range old price : in_i64 (RiskEngine.ewma old price).
Proof.
  unfold RiskEngine.ewma. pose proof (i64_add_range price (i64_mul 9 old)) as H. revert H.
  generalize (i64_add price (i64_mul 9 old)). intros z. machine_unfold. intros H.
  pose proof (Z.quot_rem' z 10). pose proof (Z.rem_bound_abs z 10). lia.
Qed.
#[export] Hint Resolve in_i64_0 in_i64_max0 in_i64_min ewma_range : typed.

Lemma quot_range a b : in_i64 a -> div_panics i64_min a b = false -> in_i64 (Z.quot a b).
Proof.
  unfold div_panics. rewrite orb_false_iff, andb_false_iff, !Z.eqb_neq. intros Ha [Hb Hm].
  rewrite Z.quot_div by done. pose proof (Z.div_pos (Z.abs a) (Z.abs b)) as Hp.
  pose proof (Z.mul_div_le (Z.abs a) (Z.abs b)) as Hl.
  set (q := Z.abs a / Z.abs b) in *. machine_unfold.
  assert (q <= Z.abs a) by nia. assert (q = Z.abs a -> Z.abs b = 1 \/ a = 0) by nia.
  destruct (Z.sgn_spec a) as [[? ->]|[[? ->]|[? ->]]], (Z.sgn_spec b) as [[? ->]|[[? ->]|[? ->]]]; lia.
Qed.

Lemma i64_div_range a b q : i64_div a b = Some q -> in_i64 a -> in_i64 q.
Proof. unfold i64_div. destruct (div_panics _ _ _) eqn:Hd; [done|]. intros [= <-] Ha. by apply quot_range. Qed.

Lemma notional_range p q s v : calc_notional_atoms p q s = Some v -> in_i64 v.
Proof. unfold calc_notional_atoms. intros (? & _ & [= <-])%bind_Some. apply wrap_i64_range. Qed.
Lemma maintenance_range n r v : calc_maintenance_margin_atoms n r = Some v -> in_i64 v.
Proof. unfold calc_maintenance_margin_atoms. intros (? & _ & [= <-])%bind_Some. apply wrap_i64_range. Qed.
Lemma liquidation_range en l r s v : calc_liquidation_price_ticks en l r s = Some v -> in_i64 v.
Proof.
  unfold calc_liquidation_price_ticks. destruct (Z.eqb l 0); [intros [= <-]; apply in_i64_0|].
  destruct s; intros (? & _ & [= <-])%bind_Some; apply wrap_i64_range.
Qed.
Lemma bankruptcy_range en l s v : calc_bankruptcy_price_ticks en l s = Some v -> in_i64 v.
Proof.
  unfold calc_bankruptcy_price_ticks. destruct s; intros (? & _ & [= <-])%bind_Some; apply wrap_i64_range.
Qed.
Lemma upnl_range s q en m sc v : calc_unrealized_pnl_atoms s q en m sc = Some v -> in_i64 v.
Proof. unfold calc_unrealized_pnl_atoms. intros (? & _ & [= <-])%bind_Some. apply wrap_i64_range. Qed.
#[export] Hint Resolve i64_div_range notional_range maintenance_range liquidation_range bankruptcy_range
  upnl_range : typed.

(** Split a list of ranges and close each. *)
Ltac typed_fields :=
  repeat match goal with
  | H : Forall in_i64 (_ :: _) |- _ => apply Forall_cons in H as [? H]
  | |- Forall in_i64 (_ :: _) => apply Forall_cons; split
  | |- Forall in_i64 [] => constructor
  end; eauto with typed.

(** ** Positions *)

Lemma open_typed uid sym side price qty margin scale lev rate p :
  in_i64 uid -> symbol_typed sym -> in_i64 price -> in_i64 qty -> in_i64 margin -> in_u8 lev ->
  RiskEngine.open_position uid sym side price qty margin scale lev rate = Some p -> position_typed (uid, sym) p.
Proof.
  intros Hu Hs Hp Hq Hm Hl. unfold RiskEngine.open_position.
  intros (n & Hn & (m & Hmm & (l & Hlq & (b & Hb & [= <-])%bind_Some)%bind_Some)%bind_Some)%bind_Some.
  unfold position_typed. simpl. split_and!; try done. typed_fields.
Qed.

Lemma refreshed_typed k pos scale rate u1 u : position_typed k pos ->
  RiskEngine.refresh_risk_fields pos scale rate = Some u1 ->
  RiskEngine.refresh_unrealized_pnl u1 scale = Some u -> position_typed k u.
Proof.
  intros (H1 & H2 & H3 & H4 & H5 & HF). unfold RiskEngine.refresh_risk_fields.
  intros (n & Hn & (m & Hmm & (l & Hlq & (b & Hb & [= <-])%bind_Some)%bind_Some)%bind_Some)%bind_Some.
  unfold RiskEngine.refresh_unrealized_pnl. intros (x & Hx & [= <-])%bind_Some.
  unfold position_typed. simpl. split_and!; try done. typed_fields.
Qed.

Lemma resize_typed k pos qty cost entry mark margin : position_typed k pos ->
  Forall in_i64 [qty; cost; entry; mark; margin] ->
  position_typed k (RiskEngine.ps_resize pos qty cost entry mark margin).
Proof.
  intros (H1 & H2 & H3 & H4 & H5 & HF) HR. unfold position_typed. simpl. split_and!; try done. typed_fields.
Qed.

Lemma update_typed existing uid sym fs price qty margin scale lev rate np rel pnl :
  (forall p, existing = Some p -> position_typed (uid, sym) p) ->
  in_i64 uid -> symbol_typed sym -> in_i64 price -> in_i64 qty -> in_i64 margin -> in_u8 lev ->
  RiskEngine.compute_position_update existing uid sym fs price qty margin scale lev rate = Some (np, rel, pnl) ->
  forall p, np = Some p -> position_typed (uid, sym) p.
Proof.
  intros He Hu Hs Hp Hq Hm Hl. unfold RiskEngine.compute_position_update. destruct existing as [pos|]; intros H.
  2:{ apply bind_Some in H as (p & Ho & H). injection H as <- <- <-. intros ? [= <-]. eapply open_typed; [..|exact Ho]; done. }
  specialize (He _ eq_refl). pose proof He as (_ & _ & _ & _ & _ & HF). case_bool_decide.
  { apply bind_Some in H as (en & _ & H). apply bind_Some in H as (v & Hv & H). cbv zeta in H.
    apply bind_Some in H as (u1 & H1 & H). apply bind_Some in H as (u & H2 & H). injection H as <- <- <-.
    intros ? [= <-]. eapply refreshed_typed; [|done..]. apply resize_typed; [done|]. typed_fields. }
  cbv zeta in H. destruct (Z.leb _ _).
  - apply bind_Some in H as (x & Hx & H). destruct (Z.eqb _ 0); [by injection H as <- <- <-|].
    apply bind_Some in H as (fm & Hfm & H). apply bind_Some in H as (p & Ho & H). injection H as <- <- <-.
    intros ? [= <-]. eapply open_typed; [..|exact Ho]; eauto with typed.
  - apply bind_Some in H as (rc & _ & H). apply bind_Some in H as (x & Hx & H).
    apply bind_Some in H as (rm & Hrm & H). apply bind_Some in H as (u1 & H1 & H).
    apply bind_Some in H as (u & H2 & H). injection H as <- <- <-. intros ? [= <-].
    eapply refreshed_typed; [|done..]. apply resize_typed; [done|]. typed_fields.
Qed.

(** ** Updates of one component *)

Section updates.
Context (e : RiskEngine) (He : engine_typed e).

Lemma typed_set_accounts m : map_Forall account_typed m -> engine_typed (RiskEngine.set_accounts e m).
Proof. intros Hm. by destruct He. Qed.

Lemma typed_put_account uid a : account_typed uid a ->
  engine_typed (RiskEngine.set_accounts e (<[uid := a]> (re_accounts e))).
Proof. intros Ha. apply typed_set_accounts, map_Forall_insert_2; [done|apply He]. Qed.

Lemma typed_put_position k p : position_typed k p ->
  engine_typed (RiskEngine.set_positions e (<[k := p]> (re_positions e))).
Proof. intros Hp. destruct He. split; try done. by apply map_Forall_insert_2. Qed.

Lemma typed_drop_position k : engine_typed (RiskEngine.set_positions e (delete k (re_positions e))).
Proof. destruct He. split; try done. by apply map_Forall_delete. Qed.

Lemma typed_put_oi s v : in_i64 v -> engine_typed (RiskEngine.set_oi e (<[s := v]> (re_symbol_oi_lots e))).
Proof. intros Hv. destruct He. split; try done. by apply map_Forall_insert_2. Qed.

Lemma typed_put_mark s v : in_i64 v -> engine_typed (RiskEngine.set_mark_prices e (<[s := v]> (re_mark_prices e))).
Proof. intros Hv. destruct He. split; try done. by apply map_Forall_insert_2. Qed.

Lemma typed_fund_add d : engine_typed (RiskEngine.fund_add e d).
Proof. destruct He. split; try done. apply i64_add_range. Qed.

Lemma typed_reindex uid sym : engine_typed (RiskEngine.reindex e uid sym).
Proof. unfold RiskEngine.reindex. destruct He. by repeat case_match. Qed.
End updates.

#[export] Hint Resolve typed_put_account typed_put_position typed_drop_position typed_put_oi typed_put_mark
  typed_fund_add typed_reindex : typed.

(** ** Accounts *)

Lemma status_typed uid a s : account_typed uid a -> account_typed uid (RiskEngine.ac_set_status a s).
Proof. done. Qed.

Lemma cash_typed uid a eq av : account_typed uid a -> in_i64 eq -> in_i64 av ->
  account_typed uid (RiskEngine.ac_set_cash a eq av).
Proof. intros (? & ? & HF) ? ?. unfold account_typed. simpl. split_and!; try done. typed_fields. Qed.

Lemma margins_typed uid a av od : account_typed uid a -> in_i64 av -> in_i64 od ->
  account_typed uid (RiskEngine.ac_set_margins a av od).
Proof. intros (? & ? & HF) ? ?. unfold account_typed. simpl. split_and!; try done. typed_fields. Qed.

Lemma fill_account_typed uid a fm liq rel pnl fp fd ud md : account_typed uid a ->
  account_typed uid (RiskEngine.fill_account a fm liq rel pnl fp fd ud md).
Proof.
  intros (? & ? & HF). unfold account_typed, RiskEngine.fill_account.
  destruct (Z.eqb liq 0), (Z.ltb 0 rel); simpl; (split_and!; [done..|]); typed_fields.
Qed.
#[export] Hint Resolve status_typed cash_typed margins_typed fill_account_typed : typed.

(** ** Operations *)

Lemma on_fill_typed e uid sym side price qty margin scale lev rate liq e' : engine_typed e ->
  call_typed (CallFill uid sym side price qty margin scale lev rate liq) ->
  RiskEngine.on_fill e uid sym side price qty margin scale lev rate liq = Some e' -> engine_typed e'.
Proof.
  intros He (Hu & Hs & Hp & Hq & Hm & Hl & Hq') H. unfold RiskEngine.on_fill in H.
  destruct (Z.leb qty 0); [by injection H as <-|]. cbv zeta in H.
  apply bind_Some in H as ([[np rel] pnl] & HU & H).
  assert (forall p, np = Some p -> position_typed (uid, sym) p) as Hnp.
  { eapply update_typed; [..|exact HU]; try done; [|by destruct (Z.eqb liq 0)]. intros p. by apply He. }
  set (e1 := RiskEngine.set_positions e _) in H.
  assert (engine_typed e1) as H1 by (unfold e1; destruct np; eauto with typed).
  set (e2 := if Z.eqb (i64_sub _ _) 0 then e1 else _) in H.
  assert (engine_typed e2) as H2 by (unfold e2; destruct (Z.eqb (i64_sub _ _) 0); eauto with typed).
  apply bind_Some in H as (ins & _ & H). set (e3 := if Z.eqb ins 0 then e2 else _) in H.
  assert (engine_typed e3) as H3 by (unfold e3; destruct (Z.eqb ins 0); eauto with typed).
  apply bind_Some in H as ([fm fd] & _ & H).
  set (e4 := match re_accounts e3 !! uid with Some a => _ | None => e3 end) in H.
  assert (engine_typed e4) as H4.
  { unfold e4. destruct (re_accounts e3 !! uid) as [a|] eqn:Ha; [|done]. apply (et_accounts _ H3) in Ha. eauto with typed. }
  injection H as <-. apply typed_reindex. destruct (re_mark_prices e4 !! sym); eauto with typed.
Qed.

Lemma remark_typed sym mark scale e uid e' : engine_typed e -> in_i64 mark ->
  RiskEngine.remark sym mark scale e uid = Some e' -> engine_typed e'.
Proof.
  intros He Hm H. unfold RiskEngine.remark in H. destruct (re_positions e !! (uid, sym)) as [p|] eqn:Hp.
  2: by injection H as <-.
  apply bind_Some in H as (x & Hx & H). cbv zeta in H. injection H as <-.
  apply (et_positions _ He) in Hp as (P1 & P2 & P3 & P4 & P5 & PF).
  set (e1 := RiskEngine.set_positions e _). assert (engine_typed e1) as H1.
  { apply typed_put_position; [done|]. unfold position_typed. simpl. split_and!; try done. typed_fields. }
  destruct (re_accounts e !! uid) as [a|] eqn:Ha; [|done].
  apply (et_accounts _ He) in Ha as (A1 & A2 & AF). apply (typed_put_account e1); [done|].
  unfold account_typed. simpl. split_and!; try done. typed_fields.
Qed.

Lemma apply_status_typed e u : engine_typed e -> engine_typed (RiskEngine.apply_status e u).
Proof.
  intros He. unfold RiskEngine.apply_status. destruct (re_accounts e !! u.1.1) as [a|] eqn:Ha; [|done].
  apply (et_accounts _ He) in Ha. case_bool_decide; eauto with typed.
Qed.

Lemma credit_typed e d : engine_typed e -> engine_typed (credit e d).
Proof.
  intros He. unfold credit. destruct (re_accounts e !! d.1) as [a|] eqn:Ha; [|done].
  apply (et_accounts _ He) in Ha. eauto with typed.
Qed.

Lemma foldl_typed {A} (f : RiskEngine -> A -> RiskEngine) l : (forall e x, engine_typed e -> engine_typed (f e x)) ->
  forall e, engine_typed e -> engine_typed (foldl f e l).
Proof. intros Hf. induction l as [|x l IH]; intros e He; simpl; eauto. Qed.

Lemma socialize_typed e uid : engine_typed e -> engine_typed (RiskEngine.socialize e uid).
Proof.
  intros He. unfold RiskEngine.socialize. destruct (re_accounts e !! uid) as [a|] eqn:Ha; [|done].
  apply (et_accounts _ He) in Ha. destruct (Z.ltb (ac_equity a) 0).
  - apply typed_put_account; [by apply typed_fund_add|]. destruct (Z.eqb _ 0); eauto 6 with typed.
  - apply typed_put_account; [done|]. destruct (Z.eqb _ 0); eauto with typed.
Qed.

Section adl.
Context `{HashIter}.

Lemma adl_pair_typed sym scale lev rate uid side price : symbol_typed sym -> in_u8 lev -> in_i64 uid -> in_i64 price ->
  forall cands e left e' evs, engine_typed e -> in_i64 left ->
  Forall (fun c => in_i64 c.1.1 /\ in_i64 c.1.2) cands ->
  RiskEngine.adl_pair e sym scale lev rate uid side price left cands = Some (e', evs) -> engine_typed e'.
Proof.
  intros Hs Hl Hu Hp. induction cands as [|[[cu cq] sc] cands IH]; intros e left e' evs He Hleft HC; simpl.
  { by intros [= <- <-]. }
  apply Forall_cons in HC as [[Hcu Hcq] HC]. simpl in Hcu, Hcq. destruct (Z.leb left 0); [by intros [= <- <-]|].
  intros (e1 & H1 & (e2 & H2 & ([e3 evs3] & H3 & [= <- <-])%bind_Some)%bind_Some)%bind_Some.
  apply on_fill_typed in H1; [|done|simpl; split_and!; eauto with typed].
  apply on_fill_typed in H2; [|done|simpl; split_and!; eauto with typed].
  eapply IH; [exact H2| |exact HC|exact H3]. apply i64_sub_range.
Qed.

Lemma candidates_typed e sym hs uid side : engine_typed e ->
  Forall (fun c => in_i64 c.1.1 /\ in_i64 c.1.2) (RiskEngine.adl_candidates e sym hs uid side).
Proof.
  intros He. unfold RiskEngine.adl_candidates. rewrite (merge_sort_Permutation _). apply Forall_forall.
  intros c (u & _ & Hc)%list_elem_of_omap. apply bind_Some in Hc as (p & Hp & Hc).
  case_bool_decide; [done|]. injection Hc as <-. apply (et_positions _ He) in Hp as (? & _ & _ & _ & _ & HF).
  simpl. apply Forall_cons in HF as [? _]. done.
Qed.

Lemma adl_all_typed sym scale lev rate hs : symbol_typed sym -> in_u8 lev ->
  forall bs e e' evs, engine_typed e -> Forall (fun b => in_i64 b.1.1.1 /\ in_i64 b.1.2 /\ in_i64 b.2) bs ->
  RiskEngine.adl_all e sym scale lev rate hs bs = Some (e', evs) -> engine_typed e'.
Proof.
  intros Hs Hl. induction bs as [|[[[u side] left] price] bs IH]; intros e e' evs He HB; simpl.
  { by intros [= <- <-]. }
  apply Forall_cons in HB as [(Hu & Hleft & Hp) HB].
  intros ([e1 evs1] & H1 & ([e2 evs2] & H2 & [= <- <-])%bind_Some)%bind_Some.
  eapply IH; [|exact HB|exact H2]. apply socialize_typed.
  eapply adl_pair_typed; [..|exact H1]; try done. by apply candidates_typed.
Qed.

Lemma run_adl_typed e sym scale lev rate e' evs : engine_typed e -> symbol_typed sym -> in_u8 lev ->
  RiskEngine.run_adl e sym scale lev rate = Some (e', evs) -> engine_typed e'.
Proof.
  intros He Hs Hl. apply adl_all_typed; [done..|]. unfold RiskEngine.adl_bankrupts. apply Forall_forall.
  intros b (u & _ & Hb)%list_elem_of_omap. apply bind_Some in Hb as (p & Hp & [= <-]).
  apply (et_positions _ He) in Hp as (? & _ & _ & _ & _ & HF). simpl. simpl in *. typed_fields.
Qed.

Lemma exec_typed e c e' : engine_typed e -> call_typed c -> exec e c = Some e' -> engine_typed e'.
Proof.
  intros He Hc. destruct c; simpl; intros Hx.
  - injection Hx as <-. destruct Hc. apply typed_put_account; [done|]. unfold account_typed. simpl.
    split_and!; try done. typed_fields.
  - injection Hx as <-. unfold RiskEngine.check_and_reserve_margin.
    destruct (re_accounts e !! _) as [a|] eqn:Ha; [|done]. apply (et_accounts _ He) in Ha.
    repeat case_match; simpl; eauto with typed.
  - injection Hx as <-. unfold RiskEngine.release_order_margin.
    destruct (re_accounts e !! _) as [a|] eqn:Ha; [|done]. apply (et_accounts _ He) in Ha. eauto with typed.
  - by eapply on_fill_typed.
  - injection Hx as <-. unfold RiskEngine.charge_fee. destruct (Z.eqb fee 0); [done|]. apply typed_fund_add.
    destruct (re_accounts e !! _) as [a|] eqn:Ha; [|done]. apply (et_accounts _ He) in Ha. eauto with typed.
  - unfold RiskEngine.update_mark_price in Hx. destruct (Z.leb _ 0); [by injection Hx as <-|]. cbv zeta in Hx.
    set (e0 := RiskEngine.set_mark_prices e _) in Hx. assert (engine_typed e0) as H0 by (unfold e0; eauto with typed).
    revert Hx. generalize (RiskEngine.holders e0 symbol). intros l. clearbody e0. revert e0 H0.
    induction l as [|u l IH]; intros e0 H0; simpl; [by intros [= <-]|].
    intros (e1 & H1 & H2)%bind_Some. apply (IH e1); [|done]. eapply remark_typed; [exact H0| |exact H1]. apply ewma_range.
  - injection Hx as <-. apply foldl_typed; [|done]. intros. by apply apply_status_typed.
  - injection Hx as <-. unfold RiskEngine.set_account_status.
    destruct (re_accounts e !! _) as [a|] eqn:Ha; [|done]. apply (et_accounts _ He) in Ha. simpl. eauto with typed.
  - injection Hx as <-. unfold RiskEngine.set_account_status_if.
    destruct (re_accounts e !! _) as [a|] eqn:Ha; [|done]. apply (et_accounts _ He) in Ha.
    case_match; simpl; eauto with typed.
  - injection Hx as <-. unfold apply_in_memory.
    assert (engine_typed (foldl credit e (fs_deltas settlement))) as H1.
    { apply foldl_typed; [|done]. intros. by apply credit_typed. }
    destruct (Z.eqb _ 0); [done|]. by apply typed_fund_add.
  - apply fmap_Some in Hx as ([e1 evs] & H1 & ->). destruct Hc. by eapply run_adl_typed.
Qed.

End adl.

Lemma new_typed : engine_typed RiskEngine.new.
Proof. split; try apply map_Forall_empty. apply in_i64_0. Qed.
