(* ===== verification/RiskPersist.v ===== *)
(** Durability of the margin state ([src/src/desk/risk_persist.rs]): the frames
    published after a fill and the rebuild of the engine from the tables at
    startup.  The theorems show that the tables follow the positions through any
    run of fills and that a restart restores every position, the open interest, the holder
    index and the insurance fund.  The available margin of a restored account
    contains the unrealized PnL of the moment its row was written, which the
    first mark price then adds a second time. *)
From Stdlib Require Import ZArith Lia String.
From stdpp Require Import base numbers list gmap sorting.
From S2P Require Import Prelude Bytes Fixed Types F64 Text Money RiskCalc RiskEngine Funding RiskInv RiskLedger SymbolRules Pod Sbe PersistEvent PgStore PgWriter PgTables RiskTyped.

#[local] Open Scope Z_scope.

(** ** Frames *)

(** The events [margin_state_frames] frames, in order. *)
Definition margin_state_events (e : RiskEngine) (user_id : Z) (symbol : Symbol) : list persist_event :=
  [match re_positions e !! (user_id, symbol) with
   | Some pos =>
       EvPositionUpsert (mkPositionUpsertPayload user_id symbol (PositionSide.to_u8 (ps_side pos))
         (ps_leverage pos) (zeros 6) (ps_qty_lots pos) (ps_entry_price_ticks pos) (ps_initial_margin pos)
         (ps_cost_atoms pos))
   | None => EvPositionDelete (mkPositionDeletePayload user_id symbol)
   end]
  ++ match re_accounts e !! user_id with
     | Some acct =>
         [EvRiskAccountSet (mkRiskAccountSetPayload user_id (ac_equity acct) (ac_used_margin acct)
            (ac_order_margin acct) (RiskStatus.to_u8 (ac_status acct)) (zeros 7))]
     | None => []
     end
  ++ [EvInsuranceFundSet (mkInsuranceFundSetPayload (RiskEngine.insurance_fund e))].

Definition margin_state_frames (e : RiskEngine) (user_id : Z) (symbol : Symbol) : option (list PersistFrame) :=
  mapM frame_of (margin_state_events e user_id symbol).

(** ** Waiting for the writer *)

(** The loop of [wait_for_writer_quiesce]: [prev] is the read before, [reads]
    the reads until the deadline; [None] is a failed query. *)
Fixpoint quiesce_loop {A} `{EqDecision A} (prev : option A) (reads : list (option A)) : bool :=
  match reads with
  | [] => false
  | cur :: reads =>
      if bool_decide (is_Some cur) && bool_decide (cur = prev) then true else quiesce_loop cur reads
  end.

Definition wait_for_writer_quiesce {A} `{EqDecision A} (first : option A) (reads : list (option A)) : bool :=
  quiesce_loop first reads.

(** ** Hydration *)

Inductive HydrateError :=
| UnknownStatus (user_id : Z) (status : string)
| UnknownSide (user_id : Z) (side : string).

Record HydrateStats := mkHydrateStats {
  hs_accounts : nat;
  hs_positions : nat;
  hs_insurance_fund_atoms : Z;
}.

(** A loop that stops at the first error; [None] is a panic of its body. *)
Fixpoint try_fold {S A E} (f : S -> A -> option (result S E)) (s : S) (l : list A) : option (result S E) :=
  match l with
  | [] => Some (Ok s)
  | x :: l => r ← f s x; match r with Ok s => try_fold f s l | Err err => Some (Err err) end
  end.

Definition hydrated_account (row : RiskAccountRow) (status : RiskStatus) : AccountRiskState :=
  let equity := rr_equity_atoms row in
  let used := rr_used_margin_atoms row in
  let order := rr_order_margin_atoms row in
  mkAccount (rr_user_id row) equity (i64_sub (i64_sub equity used) order) order used 0 0 status false.

Definition hydrate_account (e : RiskEngine) (row : RiskAccountRow) : result RiskEngine HydrateError :=
  match RiskStatus.from_db_str (rr_status row) with
  | None => Err (UnknownStatus (rr_user_id row) (rr_status row))
  | Some status =>
      Ok (RiskEngine.set_accounts e (<[rr_user_id row := hydrated_account row status]> (re_accounts e)))
  end.

Definition side_of_str (s : string) : option PositionSide :=
  if String.eqb s "long" then Some Long else if String.eqb s "short" then Some Short else None.

(** The position of a row; [leverage as u8] drops the high byte. *)
Definition hydrated_position (user_id : Z) (symbol_s : bytes) (side : PositionSide) (row : PositionRow)
  : option PositionRiskState :=
  let entry := pr_entry_price_ticks row in
  let qty_lots := pr_qty_lots row in
  let leverage := pr_leverage row mod 256 in
  rules ← SymbolRules.for_symbol symbol_s;
  notional ← calc_notional_atoms entry qty_lots (sr_notional_scale rules);
  maint ← calc_maintenance_margin_atoms notional (sr_maintenance_rate_bps rules);
  liq ← calc_liquidation_price_ticks entry leverage (sr_maintenance_rate_bps rules) side;
  bkrpt ← calc_bankruptcy_price_ticks entry leverage side;
  Some (mkPosition user_id (pack_str 16 symbol_s) side qty_lots (pr_cost_atoms row) entry entry 0
          (pr_used_margin_atoms row) maint liq bkrpt leverage).

(** The position, its indexes and its share of the maintenance margin. *)
Definition put_hydrated (st : RiskEngine * gmap Z Z) (p : PositionRiskState) : RiskEngine * gmap Z Z :=
  let '(e, maint_by_user) := st in
  let user_id := ps_user_id p in
  let symbol := ps_symbol p in
  let e := RiskEngine.set_positions e (<[(user_id, symbol) := p]> (re_positions e)) in
  let e := RiskEngine.set_index e
    (<[symbol := {[user_id]} ∪ default ∅ (re_symbol_position_index e !! symbol)]> (re_symbol_position_index e)) in
  let e := RiskEngine.set_oi e
    (<[symbol := i64_add (default 0 (re_symbol_oi_lots e !! symbol)) (ps_qty_lots p)]> (re_symbol_oi_lots e)) in
  (e, <[user_id := i64_add (default 0 (maint_by_user !! user_id)) (ps_maintenance_margin p)]> maint_by_user).

Definition hydrate_position (st : RiskEngine * gmap Z Z) (x : (Z * bytes) * PositionRow)
  : option (result (RiskEngine * gmap Z Z) HydrateError) :=
  match side_of_str (pr_side x.2) with
  | None => Some (Err (UnknownSide x.1.1 (pr_side x.2)))
  | Some side => p ← hydrated_position x.1.1 x.1.2 side x.2; Some (Ok (put_hydrated st p))
  end.

Definition set_maintenance (e : RiskEngine) (x : Z * Z) : RiskEngine :=
  RiskEngine.set_accounts e (alter (fun a =>
    mkAccount (ac_user_id a) (ac_equity a) (ac_available_margin a) (ac_order_margin a) (ac_used_margin a)
      x.2 (ac_unrealized_pnl a) (ac_status a) (ac_mark_price_ever_updated a)) x.1 (re_accounts e)).

Definition set_fund (e : RiskEngine) (fund : Z) : RiskEngine :=
  mkRiskEngine (re_accounts e) (re_positions e) (re_mark_prices e) (re_symbol_position_index e)
    (re_symbol_oi_lots e) fund.

(** [hydrate_from_pg]: [accounts] and [positions] are the rows of the two
    selects, in the order the database returns them, [fund] the balance. *)
Definition hydrate_from_pg `{HashIter} (e : RiskEngine) (accounts : list RiskAccountRow)
  (positions : list ((Z * bytes) * PositionRow)) (fund : Z)
  : option (result (RiskEngine * HydrateStats) HydrateError) :=
  r ← try_fold (fun e row => Some (hydrate_account e row)) e accounts;
  match r with
  | Err err => Some (Err err)
  | Ok e =>
      r ← try_fold hydrate_position (e, ∅) positions;
      match r with
      | Err err => Some (Err err)
      | Ok (e, maint_by_user) =>
          let e := foldl set_maintenance e (iter_map maint_by_user) in
          Some (Ok (set_fund e fund, mkHydrateStats (length accounts) (length positions) fund))
      end
  end.

(** ** Rows *)

Definition position_row (p : PositionRiskState) : PositionRow :=
  mkPositionRow (PositionSide.as_db_str (ps_side p)) (ps_qty_lots p) (ps_entry_price_ticks p)
    (ps_leverage p) (ps_initial_margin p) (ps_cost_atoms p).

Definition risk_account_row (uid : Z) (a : AccountRiskState) : RiskAccountRow :=
  mkRiskAccountRow uid (ac_equity a) (ac_used_margin a) (ac_order_margin a)
    (RiskStatus.as_db_str (ac_status a)).

(** The change of the tables an event asks for, where it is about margin. *)
Definition margin_change `{Chrono} (ev : persist_event) : option change :=
  match ev with
  | EvPositionUpsert p => accepted ChPosition (decode_position_upsert p)
  | EvPositionDelete p => Some (ChPosition (PosDelete (pdp_user_id p) (unpack_str (pdp_symbol p))))
  | EvRiskAccountSet p => accepted ChRisk (decode_risk_account p)
  | EvInsuranceFundSet p => Some (ChFund (ifs_balance_atoms p))
  | _ => None
  end.

Lemma frame_margin_change `{Chrono} ev f : event_ok ev -> frame_of ev = Some f ->
  match ev with
  | EvPositionUpsert _ | EvPositionDelete _ | EvRiskAccountSet _ | EvInsuranceFundSet _ =>
      frame_change f = margin_change ev
  | _ => True
  end.
Proof.
  intros Hok Hf. destruct (event_frame ev 0 0 Hok) as (f' & Hf' & _ & Hk & Hr); [lia|machine_unfold; lia|].
  assert (f' = f) as -> by congruence.
  assert (PersistFrame.kind (PersistFrame.stamp f 0 0) = PersistFrame.kind f) as Hks by done.
  rewrite Hks in Hk. unfold frame_change. rewrite Hk. clear Hks.
  destruct ev; try done; cbn [event_kind] in *; unfold read_as in Hr.
  - change (PersistFrame.as_position_upsert (PersistFrame.stamp f 0 0)) with (PersistFrame.as_position_upsert f) in Hr.
    by destruct (PersistFrame.as_position_upsert f) as [[]|]; simplify_eq/=.
  - change (PersistFrame.as_position_delete (PersistFrame.stamp f 0 0)) with (PersistFrame.as_position_delete f) in Hr.
    by destruct (PersistFrame.as_position_delete f) as [[]|]; simplify_eq/=.
  - change (PersistFrame.as_risk_account_set (PersistFrame.stamp f 0 0)) with (PersistFrame.as_risk_account_set f) in Hr.
    by destruct (PersistFrame.as_risk_account_set f) as [[]|]; simplify_eq/=.
  - change (PersistFrame.as_insurance_fund_set (PersistFrame.stamp f 0 0)) with (PersistFrame.as_insurance_fund_set f) in Hr.
    by destruct (PersistFrame.as_insurance_fund_set f) as [[]|]; simplify_eq/=.
Qed.

(** ** Types of the frames *)

(** The bounds of the integer formats, as literals. *)
Ltac widths :=
  machine_unfold; change (256 ^ Z.of_nat 8 `div` 2) with 9223372036854775808 in *;
  change (256 ^ Z.of_nat 1) with 256 in *.

Lemma zeros_bytes n : Forall is_byte (zeros n).
Proof. by apply Forall_replicate. Qed.

Lemma margin_events_ok e uid sym : engine_typed e -> in_i64 uid -> symbol_typed sym ->
  Forall event_ok (margin_state_events e uid sym).
Proof.
  intros He Hu [Hl Hb]. unfold margin_state_events. rewrite !Forall_app. split_and!.
  - apply Forall_singleton. destruct (re_positions e !! (uid, sym)) as [p|] eqn:Hp; simpl.
    + apply (et_positions _ He) in Hp as (_ & _ & _ & _ & HL & HF). unfold in_u8 in HL.
      repeat (apply Forall_cons in HF as [? HF]). unfold well_typed. simpl. widths.
      split_and!; try done; try lia; try (destruct (ps_side p); simpl; lia). apply zeros_bytes.
    + unfold well_typed. simpl. widths. split_and!; try done; lia.
  - destruct (re_accounts e !! uid) as [a|] eqn:Ha; [|constructor]. apply Forall_singleton.
    apply (et_accounts _ He) in Ha as (_ & _ & HF). repeat (apply Forall_cons in HF as [? HF]).
    unfold event_ok, well_typed. simpl. widths.
    split_and!; try done; try lia; try (destruct (ac_status a); simpl; lia). apply zeros_bytes.
  - apply Forall_singleton. pose proof (et_fund _ He). unfold event_ok, well_typed, RiskEngine.insurance_fund. simpl. widths. lia.
Qed.

(** ** Positions up to their mark *)

(** A position without its mark price and unrealized PnL, the two fields that
    are not persisted; and as a restart leaves it. *)
Definition strip (p : PositionRiskState) : PositionRiskState := RiskEngine.ps_set_pnl p 0 0.
Definition at_entry (p : PositionRiskState) : PositionRiskState :=
  RiskEngine.ps_set_pnl p (ps_entry_price_ticks p) 0.

Definition essentials (e : RiskEngine) := strip <$> re_positions e.

(** The name of a listed symbol and its sixteen bytes determine each other. *)
Definition canonical (s : Symbol) : Prop := pack_str 16 (unpack_str s) = s.

(** The derived fields are those of the symbol's rules. *)
Definition derived (r : SymbolRules) (p : PositionRiskState) : Prop :=
  RiskEngine.refresh_risk_fields p (sr_notional_scale r) (sr_maintenance_rate_bps r) = Some p.

Definition listed_position (k : Z * Symbol) (p : PositionRiskState) : Prop :=
  canonical k.2 /\ exists r, SymbolRules.for_symbol (unpack_str k.2) = Some r /\ derived r p.

Lemma refresh_set_pnl p m x scale rate :
  RiskEngine.refresh_risk_fields (RiskEngine.ps_set_pnl p m x) scale rate =
    (fun u => RiskEngine.ps_set_pnl u m x) <$> RiskEngine.refresh_risk_fields p scale rate.
Proof.
  unfold RiskEngine.refresh_risk_fields. simpl. destruct (calc_notional_atoms _ _ _); [simpl|done].
  destruct (calc_maintenance_margin_atoms _ _); [simpl|done].
  destruct (calc_liquidation_price_ticks _ _ _ _); [simpl|done]. by destruct (calc_bankruptcy_price_ticks _ _ _).
Qed.

Lemma refresh_idem p scale rate u : RiskEngine.refresh_risk_fields p scale rate = Some u ->
  RiskEngine.refresh_risk_fields u scale rate = Some u.
Proof.
  unfold RiskEngine.refresh_risk_fields.
  intros (n & Hn & (m & Hm & (l & Hl & (b & Hb & [= <-])%bind_Some)%bind_Some)%bind_Some)%bind_Some.
  simpl. rewrite Hn. simpl. rewrite Hm. simpl. rewrite Hl. simpl. rewrite Hb. done.
Qed.

Lemma derived_set_pnl r p m x : derived r p -> derived r (RiskEngine.ps_set_pnl p m x).
Proof. unfold derived. intros H. by rewrite refresh_set_pnl, H. Qed.

Lemma refreshed_derived r p scale rate u1 u : scale = sr_notional_scale r -> rate = sr_maintenance_rate_bps r ->
  RiskEngine.refresh_risk_fields p scale rate = Some u1 ->
  RiskEngine.refresh_unrealized_pnl u1 scale = Some u -> derived r u.
Proof.
  intros -> -> H1. unfold RiskEngine.refresh_unrealized_pnl. intros (x & _ & [= <-])%bind_Some.
  apply derived_set_pnl. by eapply refresh_idem.
Qed.

Lemma open_derived r uid sym side price qty margin lev p :
  RiskEngine.open_position uid sym side price qty margin (sr_notional_scale r) lev
    (sr_maintenance_rate_bps r) = Some p -> derived r p.
Proof.
  unfold RiskEngine.open_position, derived, RiskEngine.refresh_risk_fields.
  intros (n & Hn & (m & Hm & (l & Hl & (b & Hb & [= <-])%bind_Some)%bind_Some)%bind_Some)%bind_Some.
  simpl. rewrite Hn. simpl. rewrite Hm. simpl. rewrite Hl. simpl. rewrite Hb. done.
Qed.

Lemma update_derived r existing uid sym fs price qty margin lev np rel pnl :
  RiskEngine.compute_position_update existing uid sym fs price qty margin (sr_notional_scale r) lev
    (sr_maintenance_rate_bps r) = Some (np, rel, pnl) ->
  forall p, np = Some p -> derived r p.
Proof.
  unfold RiskEngine.compute_position_update. destruct existing as [pos|]; intros H.
  2:{ apply bind_Some in H as (p & Ho & H). injection H as <- <- <-. intros ? [= <-]. by eapply open_derived. }
  case_bool_decide.
  { apply bind_Some in H as (en & _ & H). apply bind_Some in H as (v & Hv & H). cbv zeta in H.
    apply bind_Some in H as (u1 & H1 & H). apply bind_Some in H as (u & H2 & H). injection H as <- <- <-.
    intros ? [= <-]. by eapply refreshed_derived. }
  cbv zeta in H. destruct (Z.leb _ _).
  - apply bind_Some in H as (x & Hx & H). destruct (Z.eqb _ 0); [by injection H as <- <- <-|].
    apply bind_Some in H as (fm & Hfm & H). apply bind_Some in H as (p & Ho & H). injection H as <- <- <-.
    intros ? [= <-]. by eapply open_derived.
  - apply bind_Some in H as (rc & _ & H). apply bind_Some in H as (x & Hx & H).
    apply bind_Some in H as (rm & Hrm & H). apply bind_Some in H as (u1 & H1 & H).
    apply bind_Some in H as (u & H2 & H). injection H as <- <- <-. intros ? [= <-]. by eapply refreshed_derived.
Qed.

Lemma position_row_strip p : position_row (strip p) = position_row p.
Proof. done. Qed.

(** ** What a fill publishes *)

Section durable.
Context `{HashIter, Chrono}.

(** The tables after frames flushed one by one. *)
Definition store_frames (t : Tables) (fs : list PersistFrame) : option Tables :=
  mfold (fun t f => apply_rows t (rows_of [f])) t fs.

Definition position_op (e : RiskEngine) (uid : Z) (sym : Symbol) : PositionOp :=
  match re_positions e !! (uid, sym) with
  | Some p => PosUpsert uid (unpack_str sym) (position_row p)
  | None => PosDelete uid (unpack_str sym)
  end.

Lemma margin_changes e uid sym : omap margin_change (margin_state_events e uid sym) =
  [ChPosition (position_op e uid sym)]
  ++ match re_accounts e !! uid with Some a => [ChRisk (risk_account_row uid a)] | None => [] end
  ++ [ChFund (re_insurance_fund_atoms e)].
Proof.
  unfold margin_state_events, position_op, position_row, risk_account_row.
  destruct (re_positions e !! (uid, sym)) as [p|], (re_accounts e !! uid) as [a|];
    simpl; try (destruct (ps_side p)); try (destruct (ac_status a)); done.
Qed.

Lemma frames_margin_changes evs fs : Forall event_ok evs -> mapM frame_of evs = Some fs ->
  Forall (fun ev => match ev with EvPositionUpsert _ | EvPositionDelete _ | EvRiskAccountSet _
    | EvInsuranceFundSet _ => True | _ => False end) evs ->
  omap frame_change fs = omap margin_change evs.
Proof.
  intros Hok Hm HF. apply mapM_Some_1 in Hm. induction Hm as [|ev f evs fs Hf Hm IH]; [done|].
  apply Forall_cons in Hok as [Hev Hok], HF as [Hk HF].
  change (f :: fs) with ([f] ++ fs). change (ev :: evs) with ([ev] ++ evs). rewrite !omap_app, (IH Hok HF). f_equal.
  pose proof (frame_margin_change ev f Hev Hf) as Hc. by destruct ev; try done; simpl in *; rewrite Hc.
Qed.

(** The three tables after the frames of a user and symbol. *)
Lemma store_margin e uid sym fs t t' : engine_typed e -> in_i64 uid -> symbol_typed sym ->
  margin_state_frames e uid sym = Some fs -> store_frames t fs = Some t' ->
  tb_positions t' = apply_op (tb_positions t) (position_op e uid sym) /\
  tb_risk_accounts t' = match re_accounts e !! uid with
    | Some a => <[uid := risk_account_row uid a]> (tb_risk_accounts t) | None => tb_risk_accounts t end /\
  tb_insurance_fund t' = re_insurance_fund_atoms e.
Proof.
  intros He Hu Hs Hf Hst. apply frames_changes in Hst.
  rewrite (frames_margin_changes (margin_state_events e uid sym) fs) in Hst.
  - rewrite margin_changes in Hst. apply changes_one_by_one in Hst as [_ _ _ _ _ _ _ _ Hp _ Hr Hfu _].
    by destruct (re_accounts e !! uid).
  - by apply margin_events_ok.
  - done.
  - unfold margin_state_events. by destruct (re_positions e !! (uid, sym)), (re_accounts e !! uid); repeat constructor.
Qed.

(** ** Steps of the desk on the margin state *)

(** The margin leg of one fill, as the maker loop of [BatchSettleTrade] and the
    taker's order update run it: the fill, the fee, the frames. *)
Definition settle_leg (e : RiskEngine) (t : Tables) (r : SymbolRules) (uid : Z) (sym : Symbol)
  (side price qty margin liq fee : Z) : option (RiskEngine * Tables) :=
  e ← RiskEngine.on_fill e uid sym side price qty margin (sr_notional_scale r) (sr_default_leverage r)
        (sr_maintenance_rate_bps r) liq;
  let e := RiskEngine.charge_fee e uid fee in
  fs ← margin_state_frames e uid sym;
  t ← store_frames t fs;
  Some (e, t).

(** Operations that publish nothing. *)
Definition silent (e : RiskEngine) (c : risk_call) : Prop :=
  match c with
  | CallInitialize uid _ => forall s, re_positions e !! (uid, s) = None
  | CallReserve _ _ | CallRelease _ _ | CallMark _ _ _ | CallTick | CallStatus _ _ | CallStatusIf _ _ _ => True
  | _ => False
  end.

Inductive margin_step : RiskEngine * Tables -> RiskEngine * Tables -> Prop :=
| ms_fill e t r uid sym side price qty margin liq fee st :
    SymbolRules.for_symbol (unpack_str sym) = Some r -> canonical sym ->
    call_typed (CallFill uid sym side price qty margin (sr_notional_scale r) (sr_default_leverage r)
      (sr_maintenance_rate_bps r) liq) -> 0 < qty ->
    (forall p, re_positions e !! (uid, sym) = Some p -> ps_qty_lots p + qty <= i64_max) ->
    settle_leg e t r uid sym side price qty margin liq fee = Some st ->
    margin_step (e, t) st
| ms_silent e t c e' : silent e c -> call_typed c -> exec e c = Some e' -> margin_step (e, t) (e', t).

(** The tables hold the state that is to survive. *)
Record durable (e : RiskEngine) (t : Tables) : Prop := {
  du_typed : engine_typed e;
  du_booked : booked e;
  du_listed : map_Forall listed_position (essentials e);
  du_positions uid (s : Symbol) : canonical s ->
    tb_positions t !! (uid, unpack_str s) = position_row <$> essentials e !! (uid, s);
  du_rows uid n row : tb_positions t !! (uid, n) = Some row -> exists s : Symbol, n = unpack_str s /\ canonical s;
  du_accounts uid row : tb_risk_accounts t !! uid = Some row -> exists a, row = risk_account_row uid a;
  du_fund : tb_insurance_fund t = re_insurance_fund_atoms e;
}.

(** ** Silent operations leave what is durable alone *)

Lemma essentials_remark sym mark scale e uid e' : RiskEngine.remark sym mark scale e uid = Some e' ->
  essentials e' = essentials e /\ re_insurance_fund_atoms e' = re_insurance_fund_atoms e.
Proof.
  intros Hr. destruct (re_positions e !! (uid, sym)) as [p|] eqn:Hp.
  2:{ unfold RiskEngine.remark in Hr. rewrite Hp in Hr. by injection Hr as <-. }
  destruct (remark_inv _ _ _ _ _ _ _ Hp Hr) as (x & _ & HP & _ & _ & _ & HF). split; [|done].
  unfold essentials. rewrite HP. simpl. rewrite fmap_insert. apply insert_id. by rewrite lookup_fmap, Hp.
Qed.

Lemma silent_keeps e c e' : silent e c -> exec e c = Some e' ->
  essentials e' = essentials e /\ re_insurance_fund_atoms e' = re_insurance_fund_atoms e.
Proof.
  destruct c; simpl; try done; intros _ Hx.
  - by injection Hx as <-.
  - injection Hx as <-. unfold RiskEngine.check_and_reserve_margin. by repeat case_match.
  - injection Hx as <-. unfold RiskEngine.release_order_margin. by repeat case_match.
  - unfold RiskEngine.update_mark_price in Hx. destruct (Z.leb _ 0); [by injection Hx as <-|]. cbv zeta in Hx.
    set (e0 := RiskEngine.set_mark_prices e _) in Hx.
    change (essentials e) with (essentials e0). change (re_insurance_fund_atoms e) with (re_insurance_fund_atoms e0).
    revert Hx. generalize (RiskEngine.holders e0 symbol). intros l. clearbody e0. revert e0.
    induction l as [|u l IH]; intros e0; simpl; [by intros [= <-]|].
    intros (e1 & [<- <-]%essentials_remark & Hrest)%bind_Some. by apply IH.
  - injection Hx as <-. unfold RiskEngine.run_risk_tick. simpl. generalize (RiskEngine.risk_updates e). intros l. revert e.
    induction l as [|u l IH]; intros e; simpl; [done|]. destruct (IH (RiskEngine.apply_status e u)) as [-> ->].
    unfold RiskEngine.apply_status. by repeat case_match.
  - injection Hx as <-. unfold RiskEngine.set_account_status. by repeat case_match.
  - injection Hx as <-. unfold RiskEngine.set_account_status_if. by repeat case_match.
Qed.

Lemma silent_booked e c e' : silent e c -> exec e c = Some e' -> booked e -> booked e'.
Proof.
  intros Hs Hx Hb. destruct c; simpl in Hs, Hx; try done; [..|by eapply booked_mark| | |]; injection Hx as <-;
    eauto using booked_initialize, booked_reserve, booked_release, booked_status, booked_status_if.
  by apply booked_tick.
Qed.

Lemma silent_durable e t c e' : silent e c -> call_typed c -> exec e c = Some e' -> durable e t -> durable e' t.
Proof.
  intros Hs Hc Hx [D1 D2 D3 D4 D5 D6 D7]. destruct (silent_keeps _ _ _ Hs Hx) as [He Hf].
  split; rewrite ?He, ?Hf; try done.
  - by eapply exec_typed.
  - by eapply silent_booked.
Qed.

(** ** A fill keeps the tables in step *)

Lemma charge_fee_positions e uid fee : re_positions (RiskEngine.charge_fee e uid fee) = re_positions e.
Proof. unfold RiskEngine.charge_fee. by repeat case_match. Qed.

Lemma put_essentials m k np : strip <$> put_pos m k np = put_pos (strip <$> m) k (strip <$> np).
Proof. destruct np; simpl; [apply fmap_insert|apply fmap_delete]. Qed.

Lemma fill_durable e t r uid sym side price qty margin liq fee e' t' :
  SymbolRules.for_symbol (unpack_str sym) = Some r -> canonical sym ->
  call_typed (CallFill uid sym side price qty margin (sr_notional_scale r) (sr_default_leverage r)
    (sr_maintenance_rate_bps r) liq) -> 0 < qty ->
  (forall p, re_positions e !! (uid, sym) = Some p -> ps_qty_lots p + qty <= i64_max) ->
  settle_leg e t r uid sym side price qty margin liq fee = Some (e', t') -> durable e t -> durable e' t'.
Proof.
  intros Hr Hc Ht Hq Hov Hx [D1 D2 D3 D4 D5 D6 D7]. unfold settle_leg in Hx.
  apply bind_Some in Hx as (e1 & Hf & Hx). apply bind_Some in Hx as (fs & Hfs & Hx).
  apply bind_Some in Hx as (t1 & Hst & [= <- <-]). pose proof Ht as (Tu & Ts & _ & Tq & _).
  assert (engine_typed e1) as T1 by (by eapply on_fill_typed).
  assert (engine_typed (RiskEngine.charge_fee e1 uid fee)) as T2 by (by apply (exec_typed e1 (CallFee uid fee))).
  destruct (store_margin _ _ _ _ _ _ T2 Tu Ts Hfs Hst) as (SP & SR & SF).
  destruct (on_fill_inv _ _ _ _ _ _ _ _ _ _ _ _ Hq Hf) as (np & rel & pnl & fm & fd & ins & HF).
  pose proof (fl_positions _ _ _ _ _ _ _ _ _ _ _ _ _ _ _ _ _ _ HF) as HP.
  assert (essentials (RiskEngine.charge_fee e1 uid fee) = put_pos (essentials e) (uid, sym) (strip <$> np)) as HE.
  { unfold essentials. by rewrite charge_fee_positions, HP, put_essentials. }
  assert (position_op (RiskEngine.charge_fee e1 uid fee) uid sym = match np with
    | Some p => PosUpsert uid (unpack_str sym) (position_row p) | None => PosDelete uid (unpack_str sym) end) as HO.
  { unfold position_op. rewrite charge_fee_positions, HP, put_pos_lookup, decide_True by done. by destruct np. }
  rewrite HO in SP. split.
  - done.
  - apply booked_fee. eapply on_fill_booked; [..|exact Hf]; try done. destruct Tq. done.
  - rewrite HE. intros k p. rewrite put_pos_lookup. destruct (decide (k = (uid, sym))) as [->|]; [|apply D3].
    intros (p0 & Hp0 & ->)%fmap_Some. split; [done|]. exists r. split; [done|].
    apply derived_set_pnl. eapply update_derived; [exact (fl_update _ _ _ _ _ _ _ _ _ _ _ _ _ _ _ _ _ _ HF)|done].
  - intros u s Hs. rewrite HE, put_pos_lookup, SP. destruct (decide ((u, s) = (uid, sym))) as [[= -> ->]|Hne].
    + by destruct np; simpl; rewrite ?lookup_insert_eq, ?lookup_delete_eq.
    + rewrite <- D4 by done.
      assert ((uid, unpack_str sym) <> (u, unpack_str s)) by (intros [= -> Hn]; apply Hne; f_equal; by rewrite <- Hs, <- Hc, Hn).
      destruct np; simpl; [by rewrite lookup_insert_ne|by rewrite lookup_delete_ne].
  - intros u n row. rewrite SP. destruct np; simpl.
    + rewrite lookup_insert_Some. intros [[[= <- <-] _]|[_ Hrow]]; [by exists sym|by eapply D5].
    + rewrite lookup_delete_Some. intros [_ Hrow]. by eapply D5.
  - intros u row. rewrite SR. destruct (re_accounts _ !! uid) as [a|]; [|apply D6].
    rewrite lookup_insert_Some. intros [[<- <-]|[_ Hrow]]; [by exists a|by apply D6].
  - done.
Qed.

Lemma step_durable st st' : margin_step st st' -> durable st.1 st.2 -> durable st'.1 st'.2.
Proof.
  destruct 1 as [e t r uid sym side price qty margin liq fee [e' t']|e t c e']; simpl.
  - by eapply fill_durable.
  - by eapply silent_durable.
Qed.

(** ** The rebuild *)

Definition pos_id (p : PositionRiskState) : Z * Symbol := (ps_user_id p, ps_symbol p).

Lemma hydrated_position_row k p : listed_position k p -> position_typed k p ->
  hydrated_position k.1 (unpack_str k.2) (ps_side p) (position_row p) = Some (at_entry p).
Proof.
  intros (Hc & r & Hr & Hd) (_ & _ & Hu & Hs & Hl & _). unfold hydrated_position. rewrite Hr. cbn [mbind option_bind].
  simpl. rewrite Z.mod_small by apply Hl. unfold derived, RiskEngine.refresh_risk_fields in Hd.
  apply bind_Some in Hd as (n & -> & Hd). cbn [mbind option_bind]. apply bind_Some in Hd as (m & -> & Hd). cbn [mbind option_bind].
  apply bind_Some in Hd as (l & -> & Hd). cbn [mbind option_bind]. apply bind_Some in Hd as (b & -> & Hd). cbn [mbind option_bind].
  injection Hd as Hp. unfold at_entry, RiskEngine.ps_set_pnl. rewrite <- Hp at 1. rewrite Hc, <- Hu, <- Hs. simpl.
  by rewrite <- Hp.
Qed.

Lemma side_of_db s : side_of_str (PositionSide.as_db_str s) = Some s.
Proof. by destruct s. Qed.
Lemma status_of_db s : RiskStatus.from_db_str (RiskStatus.as_db_str s) = Some s.
Proof. by destruct s. Qed.

Definition hydrates (x : (Z * bytes) * PositionRow) (p : PositionRiskState) : Prop :=
  exists side, side_of_str (pr_side x.2) = Some side /\ hydrated_position x.1.1 x.1.2 side x.2 = Some p.

Lemma hydrate_positions_ok l ps : Forall2 hydrates l ps ->
  forall st, try_fold hydrate_position st l = Some (Ok (foldl put_hydrated st ps)).
Proof.
  induction 1 as [|x p l ps (side & Hs & Hp) _ IH]; intros st; simpl; [done|].
  assert (hydrate_position st x = Some (Ok (put_hydrated st p))) as -> by (unfold hydrate_position; by rewrite Hs, Hp).
  apply IH.
Qed.

Lemma hydrate_accounts_ok l : Forall (fun row => is_Some (RiskStatus.from_db_str (rr_status row))) l ->
  forall e, exists m, try_fold (fun e row => Some (hydrate_account e row)) e l = Some (Ok (RiskEngine.set_accounts e m)) /\
    forall u, m !! u = match latest rr_user_id u l with
      | Some row => hydrated_account row <$> RiskStatus.from_db_str (rr_status row)
      | None => re_accounts e !! u
      end.
Proof.
  induction l as [|row l IH] using rev_ind; intros HF e.
  { exists (re_accounts e). by destruct e. }
  apply Forall_app in HF as [HF [s Hs]%Forall_singleton]. destruct (IH HF e) as (m & Hm & Hl).
  exists (<[rr_user_id row := hydrated_account row s]> m). split.
  - assert (forall e, try_fold (fun e row => Some (hydrate_account e row)) e (l ++ [row]) =
      r ← try_fold (fun e row => Some (hydrate_account e row)) e l;
      match r with Ok e => Some (hydrate_account e row) | Err err => Some (Err err) end) as Happ.
    { clear. induction l as [|x l IH]; intros e; simpl.
      - by destruct (hydrate_account e row).
      - destruct (hydrate_account e x); [|done]. apply IH. }
    rewrite Happ, Hm. simpl. unfold hydrate_account. by rewrite Hs.
  - intros u. rewrite latest_row_snoc. destruct (decide (rr_user_id row = u)) as [<-|].
    + by rewrite lookup_insert_eq, Hs.
    + by rewrite lookup_insert_ne.
Qed.

(** The indexes of the engine being rebuilt agree with its positions. *)
Record rebuilt (e : RiskEngine) (mm : gmap Z Z) : Prop := {
  rb_oi s : eq64 (default 0 (re_symbol_oi_lots e !! s)) (msum (of_symbol ps_qty_lots s) (re_positions e));
  rb_index s u : u ∈ default ∅ (re_symbol_position_index e !! s) <-> is_Some (re_positions e !! (u, s));
  rb_maint u : eq64 (default 0 (mm !! u)) (msum (of_user ps_maintenance_margin u) (re_positions e));
}.

Lemma put_hydrated_rebuilt e mm p : rebuilt e mm -> re_positions e !! pos_id p = None ->
  rebuilt (put_hydrated (e, mm) p).1 (put_hydrated (e, mm) p).2.
Proof.
  intros [Ho Hi Hm] Hn. unfold pos_id in Hn. split; simpl.
  - intros s. rewrite msum_insert by done. unfold of_symbol at 1. cbn [fst snd].
    destruct (decide (ps_symbol p = s)) as [<-|Hne].
    + rewrite lookup_insert_eq. simpl. rewrite i64_add_eq64, Ho. apply eq64_refl_by. lia.
    + by rewrite lookup_insert_ne, Ho.
  - intros s u. destruct (decide (s = ps_symbol p)) as [->|Hne].
    + rewrite lookup_insert_eq. simpl. rewrite elem_of_union, elem_of_singleton, Hi, lookup_insert_is_Some.
      destruct (decide ((ps_user_id p, ps_symbol p) = (u, ps_symbol p))) as [[= ->]|Hk]; [naive_solver|].
      split; [intros [->|?]; [done|by right]|intros [?|[_ ?]]; [by simplify_eq|by right]].
    + rewrite !lookup_insert_ne by congruence. apply Hi.
  - intros u. rewrite msum_insert by done. unfold of_user at 1. cbn [fst snd].
    destruct (decide (ps_user_id p = u)) as [<-|Hne].
    + rewrite lookup_insert_eq. simpl. rewrite i64_add_eq64, Hm. apply eq64_refl_by. lia.
    + by rewrite lookup_insert_ne, Hm.
Qed.

Lemma put_all ps : forall e mm, rebuilt e mm -> NoDup (pos_id <$> ps) ->
  (forall p, p ∈ ps -> re_positions e !! pos_id p = None) ->
  exists e' mm', foldl put_hydrated (e, mm) ps = (e', mm') /\ rebuilt e' mm' /\
    re_positions e' = foldl (fun m p => <[pos_id p := p]> m) (re_positions e) ps /\
    re_accounts e' = re_accounts e.
Proof.
  induction ps as [|p ps IH]; intros e mm Hb Hnd Hfr; simpl in *; [by exists e, mm|].
  apply NoDup_cons in Hnd as [Hn Hnd].
  destruct (IH (put_hydrated (e, mm) p).1 (put_hydrated (e, mm) p).2) as (e' & mm' & Hf & Hr & Hp & Ha).
  - apply put_hydrated_rebuilt; [done|]. apply Hfr. left.
  - done.
  - intros q Hq. simpl. rewrite lookup_insert_ne; [apply Hfr; by right|].
    intros Heq. apply Hn. apply list_elem_of_fmap. exists q. by rewrite <- Heq.
  - exists e', mm'. by rewrite <- Hf.
Qed.

Definition with_maintenance (a : AccountRiskState) (v : Z) : AccountRiskState :=
  mkAccount (ac_user_id a) (ac_equity a) (ac_available_margin a) (ac_order_margin a) (ac_used_margin a)
    v (ac_unrealized_pnl a) (ac_status a) (ac_mark_price_ever_updated a).

Lemma set_maintenances e l :
  exists m, foldl set_maintenance e l = RiskEngine.set_accounts e m /\
    forall u, m !! u = (fun a => match latest fst u l with Some x => with_maintenance a x.2 | None => a end)
                         <$> re_accounts e !! u.
Proof.
  induction l as [|x l (m & Hm & Hl)] using rev_ind.
  { exists (re_accounts e). split; [by destruct e|]. intros u. simpl. by destruct (re_accounts e !! u). }
  exists (alter (fun a => with_maintenance a x.2) x.1 m). rewrite foldl_app, Hm. split; [done|].
  intros u. rewrite latest_row_snoc. destruct (decide (x.1 = u)) as [<-|Hne].
  - rewrite lookup_alter_eq, Hl, <- option_fmap_compose. destruct (re_accounts e !! x.1); [|done]. simpl.
    by destruct (latest fst x.1 l).
  - by rewrite lookup_alter_ne, Hl.
Qed.

Lemma latest_iter `{HashIter} (mm : gmap Z Z) u : snd <$> latest fst u (iter_map mm) = mm !! u.
Proof.
  assert (NoDup (fst <$> iter_map mm)) as Hnd by (rewrite iter_map_perm; apply NoDup_fst_map_to_list).
  destruct (mm !! u) as [v|] eqn:Hu.
  - rewrite (latest_unique fst u _ (u, v)); [done|done| |done]. rewrite iter_map_perm. by apply elem_of_map_to_list.
  - destruct (latest fst u (iter_map mm)) as [[u' v]|] eqn:Hl; [|done].
    apply latest_Some in Hl as [Hin Heq]. simpl in Heq. subst u'. rewrite iter_map_perm in Hin.
    apply elem_of_map_to_list in Hin. congruence.
Qed.

Lemma strip_typed k p : position_typed k p -> position_typed k (strip p).
Proof.
  intros (H1 & H2 & H3 & H4 & H5 & HF). unfold position_typed. simpl. split_and!; try done. typed_fields.
Qed.

Lemma row_hydrates e t u n row : durable e t -> tb_positions t !! (u, n) = Some row ->
  exists p, hydrates ((u, n), row) p /\ pos_id p = (u, pack_str 16 n) /\ unpack_str (pack_str 16 n) = n /\
    (at_entry <$> re_positions e) !! pos_id p = Some p.
Proof.
  intros D Hrow. destruct (du_rows _ _ D _ _ _ Hrow) as (s & -> & Hs).
  rewrite (du_positions _ _ D u s Hs) in Hrow. unfold essentials in Hrow. rewrite lookup_fmap in Hrow.
  destruct (re_positions e !! (u, s)) as [p|] eqn:Hp; [|done]. injection Hrow as <-.
  pose proof (et_positions _ (du_typed _ _ D) _ _ Hp) as Ht. pose proof Ht as (_ & _ & Hu & Hsy & _).
  assert (listed_position (u, s) (strip p)) as Hl.
  { apply (du_listed _ _ D). unfold essentials. by rewrite lookup_fmap, Hp. }
  exists (at_entry p). unfold pos_id, at_entry. simpl in *. rewrite Hu, Hsy, Hs. split_and!; try done.
  - exists (ps_side p). split; [apply side_of_db|].
    exact (hydrated_position_row (u, s) (strip p) Hl (strip_typed _ _ Ht)).
  - by rewrite lookup_fmap, Hp.
Qed.

Lemma rows_hydrate e t poss : durable e t -> poss ≡ₚ map_to_list (tb_positions t) ->
  exists ps, Forall2 hydrates poss ps /\ NoDup (pos_id <$> ps) /\
    foldl (fun m p => <[pos_id p := p]> m) ∅ ps = at_entry <$> re_positions e.
Proof.
  intros D Hperm.
  assert (exists ps, Forall2 (fun x p => hydrates x p /\ pos_id p = (x.1.1, pack_str 16 x.1.2) /\
    unpack_str (pack_str 16 x.1.2) = x.1.2 /\ (at_entry <$> re_positions e) !! pos_id p = Some p) poss ps) as [ps Hps].
  { assert (forall x, x ∈ poss -> tb_positions t !! x.1 = Some x.2) as Hin.
    { intros [k row] Hx. rewrite Hperm in Hx. by apply elem_of_map_to_list. }
    clear Hperm. induction poss as [|[[u n] row] poss IH]; [by exists []|].
    destruct IH as [ps Hps]; [intros x Hx; apply Hin; by right|].
    destruct (row_hydrates e t u n row D (Hin _ (list_elem_of_here _ _))) as (p & ? & ? & ? & ?).
    exists (p :: ps). by constructor. }
  exists ps. split_and!.
  - eapply Forall2_impl; [exact Hps|]. tauto.
  - assert (NoDup (poss.*1)) as Hnd by (rewrite Hperm; apply NoDup_fst_map_to_list). clear Hperm.
    induction Hps as [|[[u n] row] p poss ps (_ & Hid & Hpk & _) Hps IH]; [constructor|].
    simpl in *. apply NoDup_cons in Hnd as [Hn Hnd]. constructor; [|by apply IH].
    intros (q & Hq & Hin)%list_elem_of_fmap. apply Hn. rewrite Hid in Hq.
    apply list_elem_of_lookup in Hin as [i Hi]. destruct (Forall2_lookup_r _ _ _ _ _ Hps Hi) as ([[u' n'] row'] & Hx & _ & Hid' & Hpk' & _).
    simpl in *. rewrite Hid' in Hq. injection Hq as -> Hq. rewrite Hq in Hpk. rewrite Hpk' in Hpk. subst n'.
    apply list_elem_of_fmap. exists ((u', n), row'). split; [done|]. by eapply list_elem_of_lookup_2.
  - apply map_eq. intros k. rewrite (foldl_put_latest pos_id (fun p => p)).
    destruct (latest pos_id k ps) as [p|] eqn:Hl.
    + apply latest_Some in Hl as [Hin <-]. apply list_elem_of_lookup in Hin as [i Hi].
      destruct (Forall2_lookup_r _ _ _ _ _ Hps Hi) as (x & _ & _ & _ & _ & Hx). by rewrite Hx.
    + rewrite lookup_empty, lookup_fmap. destruct (re_positions e !! k) as [p|] eqn:Hp; [|done]. exfalso.
      assert (listed_position k (strip p)) as [Hc _] by (apply (du_listed _ _ D); unfold essentials; by rewrite lookup_fmap, Hp).
      pose proof (du_positions _ _ D k.1 k.2 Hc) as Hrow. unfold essentials in Hrow.
      rewrite lookup_fmap, <- surjective_pairing, Hp in Hrow. simpl in Hrow.
      assert ((k.1, unpack_str k.2, position_row (strip p)) ∈ poss) as Hin by (rewrite Hperm; by apply elem_of_map_to_list).
      apply list_elem_of_lookup in Hin as [i Hi]. destruct (Forall2_lookup_l _ _ _ _ _ Hps Hi) as (q & Hq & _ & Hid & _).
      simpl in Hid. rewrite Hc, <- surjective_pairing in Hid.
      by destruct (latest_None pos_id _ _ _ Hl (list_elem_of_lookup_2 _ _ _ Hq)).
Qed.

Lemma account_rows_latest e t accs u : durable e t -> accs ≡ₚ (map_to_list (tb_risk_accounts t)).*2 ->
  latest rr_user_id u accs = tb_risk_accounts t !! u.
Proof.
  intros D Hperm. assert (forall row, row ∈ accs <-> tb_risk_accounts t !! rr_user_id row = Some row) as Hin.
  { intros row. rewrite Hperm, list_elem_of_fmap. split.
    - intros ([v row'] & -> & Hx%elem_of_map_to_list). simpl. by destruct (du_accounts _ _ D _ _ Hx) as [a ->].
    - intros Hx. exists (rr_user_id row, row). split; [done|]. by apply elem_of_map_to_list. }
  assert (NoDup (rr_user_id <$> accs)) as Hnd.
  { rewrite Hperm, <- list_fmap_compose. rewrite (list_fmap_ext _ fst); [apply NoDup_fst_map_to_list|].
    intros i [v row] Hx. simpl. apply list_elem_of_lookup_2, elem_of_map_to_list in Hx.
    by destruct (du_accounts _ _ D _ _ Hx) as [a ->]. }
  destruct (tb_risk_accounts t !! u) as [row|] eqn:Hu.
  - destruct (du_accounts _ _ D _ _ Hu) as [a ->]. apply latest_unique; [done| |done]. by apply Hin.
  - destruct (latest rr_user_id u accs) as [row|] eqn:Hl; [|done]. apply latest_Some in Hl as [Hx <-].
    apply Hin in Hx. congruence.
Qed.

(** The account a row comes back as. *)
Definition restored_account (row : RiskAccountRow) (s : RiskStatus) (maint : Z) : AccountRiskState :=
  with_maintenance (hydrated_account row s) maint.

Lemma hydrate_durable e t e0 accs poss : durable e t ->
  accs ≡ₚ (map_to_list (tb_risk_accounts t)).*2 -> poss ≡ₚ map_to_list (tb_positions t) ->
  booked e0 -> re_positions e0 = ∅ ->
  exists e' mm, hydrate_from_pg e0 accs poss (tb_insurance_fund t) =
      Some (Ok (e', mkHydrateStats (length accs) (length poss) (tb_insurance_fund t))) /\
    rebuilt e' mm /\ re_positions e' = at_entry <$> re_positions e /\
    re_insurance_fund_atoms e' = re_insurance_fund_atoms e /\
    forall u, re_accounts e' !! u = match tb_risk_accounts t !! u with
      | Some row => (fun s => restored_account row s (default 0 (mm !! u))) <$> RiskStatus.from_db_str (rr_status row)
      | None => (fun a => match mm !! u with Some v => with_maintenance a v | None => a end) <$> re_accounts e0 !! u
      end.
Proof.
  intros D Ha Hp B0 HP0. destruct (rows_hydrate e t poss D Hp) as (ps & Hh & Hnd & Hmap).
  destruct (hydrate_accounts_ok accs) with (e := e0) as (m & Hacc & Hm).
  { apply Forall_forall. intros row. rewrite Ha. intros ([v row'] & -> & Hx%elem_of_map_to_list)%list_elem_of_fmap.
    simpl. destruct (du_accounts _ _ D _ _ Hx) as [a ->]. simpl. rewrite status_of_db. by eexists. }
  destruct (put_all ps (RiskEngine.set_accounts e0 m) ∅) as (e1 & mm & Hput & Hr & HP & HA).
  - split; simpl; rewrite ?HP0.
    + intros s. rewrite (bk_oi _ B0 s), HP0. done.
    + intros s u. rewrite (bk_index _ B0 s u), HP0. done.
    + intros u. by rewrite lookup_empty.
  - done.
  - intros p _. simpl. by rewrite HP0.
  - destruct (set_maintenances e1 (iter_map mm)) as (m2 & Hset & Hm2).
    exists (set_fund (RiskEngine.set_accounts e1 m2) (tb_insurance_fund t)), mm.
    unfold hydrate_from_pg. rewrite Hacc. cbn [mbind option_bind]. rewrite (hydrate_positions_ok _ _ Hh).
    cbn [mbind option_bind]. rewrite Hput, Hset. split_and!; [done| | |apply D|].
    + by destruct Hr.
    + simpl. rewrite HP. simpl. by rewrite HP0, Hmap.
    + intros u. simpl. rewrite Hm2, HA. simpl. rewrite Hm, (account_rows_latest e t) by done.
      rewrite <- (latest_iter mm u). destruct (tb_risk_accounts t !! u) as [row|].
      * destruct (RiskStatus.from_db_str (rr_status row)); [|done]. simpl. by destruct (latest fst u (iter_map mm)).
      * destruct (re_accounts e0 !! u); [|done]. simpl. by destruct (latest fst u (iter_map mm)).
Qed.

Lemma durable_start t : tb_positions t = ∅ -> tb_risk_accounts t = ∅ -> tb_insurance_fund t = 0 ->
  durable RiskEngine.new t.
Proof.
  intros Hp Ha Hf. split.
  - apply new_typed.
  - apply booked_new.
  - intros k p Hk. unfold essentials in Hk. by rewrite lookup_fmap in Hk.
  - intros u s _. by rewrite Hp.
  - intros u n row. by rewrite Hp.
  - intros u row. by rewrite Ha.
  - done.
Qed.

Lemma run_durable st st' : rtc margin_step st st' -> durable st.1 st.2 -> durable st'.1 st'.2.
Proof. induction 1 as [|st st1 st' Hs _ IH]; [done|]. intros D. by eapply IH, step_durable. Qed.

Lemma msum_fmap_field {K A} `{Countable K} (g : K -> A -> Z) (h : A -> A) (m : gmap K A) : (forall k p, g k (h p) = g k p) -> msum g (h <$> m) = msum g m.
Proof.
  intros Hg. induction m as [|k p m Hk IH] using map_ind; [by rewrite fmap_empty|].
  rewrite fmap_insert, !msum_insert, IH, Hg; [done|done|]. by rewrite lookup_fmap, Hk.
Qed.

Lemma rebuilt_booked e mm e0 t : booked e0 -> rebuilt e mm -> re_positions e0 = ∅ ->
  (forall k p, re_positions e !! k = Some p -> 0 < ps_qty_lots p <= i64_max /\ ps_unrealized_pnl p = 0) ->
  (forall u, re_accounts e !! u = match tb_risk_accounts t !! u with
      | Some row => (fun s => restored_account row s (default 0 (mm !! u))) <$> RiskStatus.from_db_str (rr_status row)
      | None => (fun a => match mm !! u with Some v => with_maintenance a v | None => a end) <$> re_accounts e0 !! u
      end) ->
  booked e.
Proof.
  intros B0 [Ho Hi Hm] HP0 Hq Ha.
  assert (forall u, msum (of_user ps_unrealized_pnl u) (re_positions e) = 0) as Hu0.
  { intros u. apply msum_zero. intros k p Hk. unfold of_user. destruct (decide _); [|done]. by apply Hq in Hk as [_ ?]. }
  assert (forall u a, re_accounts e0 !! u = Some a -> eq64 (ac_unrealized_pnl a) 0) as Hz.
  { intros u a Hu. rewrite (bk_upnl _ B0 _ _ Hu), HP0. done. }
  split; try done.
  - intros u a. rewrite Ha. destruct (tb_risk_accounts t !! u) as [row|].
    + intros (s & _ & ->)%fmap_Some. unfold balances. simpl. rewrite !i64_sub_eq64. apply eq64_refl_by. lia.
    + intros (a0 & Ha0 & ->)%fmap_Some. pose proof (bk_equity _ B0 _ _ Ha0) as Hb. unfold balances in *. by destruct (mm !! u).
  - intros u a. rewrite Hu0, Ha. destruct (tb_risk_accounts t !! u) as [row|].
    + by intros (s & _ & ->)%fmap_Some.
    + intros (a0 & Ha0 & ->)%fmap_Some. apply Hz in Ha0. by destruct (mm !! u).
  - intros k p Hk. by apply Hq in Hk as [? _].
Qed.

(** C20: A restart restores the margin state.  Start the desk on empty margin
    tables and let it run: account seeds, reservations, releases, mark prices,
    risk ticks and status changes in any order, and fills, each followed by its
    fee and by its frames, which the database accepts.  At any later point
    rebuilding an engine from the rows of the two tables, in whatever order they
    are returned, succeeds; it has exactly the positions of the running engine,
    each marked at its entry price, the same insurance fund and the same open
    interest; its books agree; and every account whose row is current comes
    back with the same equity, order margin, used margin and status, with its
    available margin holding the unrealized PnL and its maintenance margin the
    sum over its positions. *)
Theorem restart_restores t0 e t e0 accs poss :
  tb_positions t0 = ∅ -> tb_risk_accounts t0 = ∅ -> tb_insurance_fund t0 = 0 ->
  rtc margin_step (RiskEngine.new, t0) (e, t) ->
  accs ≡ₚ (map_to_list (tb_risk_accounts t)).*2 -> poss ≡ₚ map_to_list (tb_positions t) ->
  booked e0 -> re_positions e0 = ∅ ->
  exists e', hydrate_from_pg e0 accs poss (tb_insurance_fund t) =
      Some (Ok (e', mkHydrateStats (length accs) (length poss) (tb_insurance_fund t))) /\
    re_positions e' = at_entry <$> re_positions e /\
    re_insurance_fund_atoms e' = re_insurance_fund_atoms e /\
    (forall s, eq64 (default 0 (re_symbol_oi_lots e' !! s)) (default 0 (re_symbol_oi_lots e !! s))) /\
    booked e' /\
    forall u a, re_accounts e !! u = Some a -> tb_risk_accounts t !! u = Some (risk_account_row u a) ->
      exists a', re_accounts e' !! u = Some a' /\ ac_equity a' = ac_equity a /\
        ac_order_margin a' = ac_order_margin a /\ ac_used_margin a' = ac_used_margin a /\
        ac_status a' = ac_status a /\ ac_unrealized_pnl a' = 0 /\
        eq64 (ac_available_margin a') (ac_available_margin a + ac_unrealized_pnl a) /\
        eq64 (ac_maintenance_margin a') (msum (of_user ps_maintenance_margin u) (re_positions e)).
Proof.
  intros Hp Ha Hf Hrun Hac Hpo B0 HP0.
  assert (durable e t) as D by (eapply (run_durable _ _ Hrun), durable_start; done).
  destruct (hydrate_durable e t e0 accs poss D Hac Hpo B0 HP0) as (e' & mm & Hh & Hr & HP & HF & HA).
  exists e'. split_and!; [done..| | |].
  - intros s. rewrite (rb_oi _ _ Hr s), HP, (bk_oi _ (du_booked _ _ D) s). rewrite msum_fmap_field; [done|].
    intros k p. unfold of_symbol. by destruct (decide _).
  - apply (rebuilt_booked e' mm e0 t); try done. intros k p. rewrite HP, lookup_fmap.
    intros (p0 & Hp0 & ->)%fmap_Some. split; [|done]. exact (bk_qty _ (du_booked _ _ D) _ _ Hp0).
  - intros u a Hu Hrow. eexists. split; [rewrite HA, Hrow; simpl; by rewrite status_of_db|]. simpl. split_and!; try done.
    + rewrite !i64_sub_eq64. pose proof (bk_equity _ (du_booked _ _ D) _ _ Hu) as Hb. unfold balances in Hb.
      rewrite Hb. apply eq64_refl_by. lia.
    + rewrite (rb_maint _ _ Hr u), HP. rewrite msum_fmap_field; [done|].
      intros k p. unfold of_user. by destruct (decide _).
Qed.
End durable.

(** ** Concrete runs *)

#[local] Instance demo_millis : Chrono := {|
  DateTime := Z; timestamp_millis_opt ms := if Z.leb 0 ms then Some ms else None |}.

Definition demo_btc : Symbol := pack_str 16 (str "BTC_USDT").
Definition demo_rules : SymbolRules := default (mkSymbolRules f64_zero f64_zero 1 1 f64_zero 1 1 1 1 1 1 1)
  (SymbolRules.for_symbol (str "BTC_USDT")).
Definition demo_empty : Tables := mkTables {[1; 2]} ∅ ∅ ∅ ∅ ∅ ∅ 0 [] ∅.
Definition demo_call (e : RiskEngine) (c : risk_call) : RiskEngine := default e (exec e c).

(** One user buys a thousand lots at 64,000.00, then the price moves up. *)
Definition demo_seeded : RiskEngine := demo_call RiskEngine.new (CallInitialize 1 50000000000).
Definition demo_reserved : RiskEngine := demo_call demo_seeded (CallReserve 1 640000000).
Definition demo_leg : RiskEngine * Tables :=
  default (demo_reserved, demo_empty)
    (settle_leg demo_reserved demo_empty demo_rules 1 demo_btc 0 6400000 1000 640000000 0 5000).
Definition demo_marked : RiskEngine := demo_call demo_leg.1 (CallMark demo_btc 6500000 1000000).

Lemma restart_restores_witness :
  exists e', hydrate_from_pg demo_seeded (map_to_list (tb_risk_accounts demo_leg.2)).*2
      (map_to_list (tb_positions demo_leg.2)) (tb_insurance_fund demo_leg.2) =
      Some (Ok (e', mkHydrateStats 1 1 (tb_insurance_fund demo_leg.2))) /\
    re_positions e' = at_entry <$> re_positions demo_marked /\ booked e'.
Proof.
  destruct (restart_restores demo_empty demo_marked demo_leg.2 demo_seeded
    (map_to_list (tb_risk_accounts demo_leg.2)).*2 (map_to_list (tb_positions demo_leg.2)))
    as (e' & Hh & HP & _ & _ & HB & _).
  - done.
  - done.
  - done.
  - eapply rtc_l; [eapply (ms_silent _ _ (CallInitialize 1 50000000000) demo_seeded);
      [done|cbn [call_typed]; split; machine_unfold; lia|vm_compute; reflexivity]|].
    eapply rtc_l; [eapply (ms_silent _ _ (CallReserve 1 640000000) demo_reserved); [done|done|vm_compute; reflexivity]|].
    eapply rtc_l; [eapply (ms_fill _ _ demo_rules 1 demo_btc 0 6400000 1000 640000000 0 5000)|].
    + vm_compute. reflexivity.
    + vm_compute. reflexivity.
    + cbn [call_typed]. split_and!; [machine_unfold; lia| |machine_unfold; lia..| |machine_unfold; lia].
      * split; [done|]. vm_compute. repeat constructor; done.
      * vm_compute. done.
    + lia.
    + intros p Hp. vm_compute in Hp. done.
    + transitivity (Some demo_leg); [vm_compute; reflexivity|done].
    + eapply rtc_l; [|apply rtc_refl]. rewrite (surjective_pairing demo_leg) at 1.
      eapply (ms_silent _ _ (CallMark demo_btc 6500000 1000000)); [done|done|vm_compute; reflexivity].
  - done.
  - done.
  - apply booked_initialize; [apply booked_new|done].
  - done.
  - exists e'. split_and!; [|done|done]. rewrite Hh. vm_compute. reflexivity.
Defined.

(** ** What a restart does not restore *)

(** The same user buys again after the price moved: the frames of this fill
    carry an equity that contains the unrealized PnL. *)
Definition demo_second : RiskEngine * Tables :=
  default (demo_marked, demo_leg.2)
    (settle_leg (demo_call demo_marked (CallReserve 1 641000)) demo_leg.2 demo_rules 1 demo_btc 0 6410000 1 641000 0 5).
Definition demo_restarted : RiskEngine :=
  match hydrate_from_pg demo_seeded (map_to_list (tb_risk_accounts demo_second.2)).*2
          (map_to_list (tb_positions demo_second.2)) (tb_insurance_fund demo_second.2) with
  | Some (Ok (e, _)) => e
  | _ => RiskEngine.new
  end.
Definition equity_at (e : RiskEngine) (price : Z) : option (Z * Z) :=
  (fun a => (ac_equity a, ac_unrealized_pnl a)) <$>
    re_accounts (demo_call (RiskEngine.set_mark_prices e ∅) (CallMark demo_btc price 1000000)) !! 1.

(** At one and the same mark price the restarted account is richer than the
    running one by the unrealized PnL its row was written with: the row's equity
    contains it, the rebuilt available margin keeps it, and the mark price adds
    it again. *)
Lemma restart_counts_upnl_twice :
  equity_at demo_second.1 6410000 = Some (50009995986, 10000991) /\
  equity_at demo_restarted 6410000 = Some (50019996977, 10000991).
Proof. split; vm_compute; reflexivity. Qed.

(** Frames are absolute, but reading the state and publishing it are two steps:
    when the thread of an earlier fill of the same position publishes after the
    thread of a later one, the tables keep the earlier position. *)
Lemma late_frames_win :
  (fun t => pr_qty_lots <$> tb_positions t !! (1, str "BTC_USDT")) <$>
    (fs ← margin_state_frames demo_leg.1 1 demo_btc; store_frames demo_second.2 fs) = Some (Some 1000) /\
  ps_qty_lots <$> re_positions demo_second.1 !! (1, demo_btc) = Some 1001.
Proof. split; vm_compute; reflexivity. Qed.

(** The wait ends only on two equal successful reads in a row. *)
Lemma quiesce_exact {A} `{EqDecision A} (first : option A) reads :
  wait_for_writer_quiesce first reads = true <->
  exists l1 l2 x, first :: reads = l1 ++ Some x :: Some x :: l2.
Proof.
  unfold wait_for_writer_quiesce. revert first. induction reads as [|cur reads IH]; intros prev; simpl.
  - split; [done|]. intros ([|? [|? ?]] & l2 & x & Heq); simplify_eq/=.
  - destruct (bool_decide (is_Some cur) && bool_decide (cur = prev)) eqn:Hq.
    + apply andb_true_iff in Hq as [[x ->]%bool_decide_eq_true <-%bool_decide_eq_true].
      split; [|done]. intros _. by exists [], reads, x.
    + rewrite IH. split.
      * intros (l1 & l2 & x & Heq). exists (prev :: l1), l2, x. by rewrite Heq.
      * intros ([|y l1] & l2 & x & Heq); simplify_eq/=; [|by exists l1, l2, x].
        by rewrite bool_decide_eq_true_2 in Hq.
Qed.
