(* ===== verification/IndexPrice.v ===== *)
(** Index prices and the mark price ([src/src/desk/index_price.rs] and the depth
    branch of the public receive thread in [src/src/bin/desk_server.rs]).  The
    clock is an argument; an index out of bounds and a clamp with crossed bounds
    are panics.  The theorem shows that while a strict majority of the fresh
    sources quotes inside a band, no order book, whatever it contains, moves the
    mark price outside that band widened by the clamp. *)
From Stdlib Require Import ZArith Lia String SpecFloat.
From stdpp Require Import base numbers list gmap sorting.
From S2P Require Import Prelude Bytes Fixed Types RiskCalc RiskEngine Funding F64 Text Money SymbolRules Pod Sbe.

#[local] Open Scope Z_scope.

(** ** Sources *)

(** Symbol to (price in ticks, time of the update in ms). *)
Record SharedSource := mkSharedSource { ss_name : bytes; ss_prices : gmap Symbol (Z * Z) }.

Module SharedSource.
Definition new (name : bytes) : SharedSource := mkSharedSource name ∅.

Definition store (s : SharedSource) (symbol : Symbol) (price_ticks now_ms : Z) : SharedSource :=
  if Z.ltb 0 price_ticks then mkSharedSource (ss_name s) (<[symbol := (price_ticks, now_ms)]> (ss_prices s))
  else s.

Definition fresh (s : SharedSource) (symbol : Symbol) (now_ms staleness_ms : Z) : option Z :=
  '(price, ts) ← ss_prices s !! symbol;
  if Z.leb (i64_sub now_ms ts) staleness_ms then Some price else None.
End SharedSource.

(** ** Aggregation *)

Record IndexHealth := mkIndexHealth { ih_ok : Z; ih_frozen : Z; ih_outliers_dropped : Z }.

Record IndexAggregator := mkIndexAggregator {
  ia_sources : list SharedSource;
  ia_staleness_ms : Z;
  ia_outlier_bps : Z;
  ia_min_sources : Z;
  ia_health : IndexHealth;
}.

Definition set_health (a : IndexAggregator) (h : IndexHealth) : IndexAggregator :=
  mkIndexAggregator (ia_sources a) (ia_staleness_ms a) (ia_outlier_bps a) (ia_min_sources a) h.
Definition count_frozen (a : IndexAggregator) : IndexAggregator :=
  let h := ia_health a in set_health a (mkIndexHealth (ih_ok h) (u64_add (ih_frozen h) 1) (ih_outliers_dropped h)).
Definition count_ok (a : IndexAggregator) : IndexAggregator :=
  let h := ia_health a in set_health a (mkIndexHealth (u64_add (ih_ok h) 1) (ih_frozen h) (ih_outliers_dropped h)).
Definition count_outliers (a : IndexAggregator) (n : Z) : IndexAggregator :=
  let h := ia_health a in set_health a (mkIndexHealth (ih_ok h) (ih_frozen h) (u64_add (ih_outliers_dropped h) n)).

(** [dev_bps <= outlier_bps] *)
Definition within (median outlier_bps p : Z) : bool :=
  Z.leb (Z.quot (i128_mul (wrap_i64 (Z.abs (i64_sub p median))) 10000) (Z.max median 1)) outlier_bps.

Module IndexAggregator.
Definition new (env : bytes -> option bytes) (sources : list SharedSource) : IndexAggregator :=
  let get k d := SymbolRules.env_get env [k] d in
  mkIndexAggregator sources (get (str "INDEX_STALENESS_MS") 30000) (get (str "INDEX_OUTLIER_BPS") 200)
    (wrap_u64 (get (str "INDEX_MIN_SOURCES") 2)) (mkIndexHealth 0 0 0).

(** The prices of the fresh sources. *)
Definition quotes (a : IndexAggregator) (symbol : Symbol) (now_ms : Z) : list Z :=
  omap (fun s => SharedSource.fresh s symbol now_ms (ia_staleness_ms a)) (ia_sources a).

(** [index_at], with the counters it bumps. *)
Definition index_at (a : IndexAggregator) (symbol : Symbol) (now_ms : Z)
  : option (IndexAggregator * option Z) :=
  let prices := quotes a symbol now_ms in
  if Z.ltb (Z.of_nat (length prices)) (ia_min_sources a) then Some (count_frozen a, None)
  else
    let prices := merge_sort Z.le prices in
    median ← prices !! Nat.div (length prices) 2;
    let survivors := filter (fun p => within median (ia_outlier_bps a) p = true) prices in
    let a := count_outliers a (Z.of_nat (length prices - length survivors)) in
    if Z.ltb (Z.of_nat (length survivors)) (ia_min_sources a) then Some (count_frozen a, None)
    else
      index ← survivors !! Nat.div (length survivors) 2;
      Some (count_ok a, Some index).
End IndexAggregator.

(** ** The mark price *)

(** [i64::clamp] panics on crossed bounds. *)
Definition i64_clamp_to (v lo hi : Z) : option Z :=
  if Z.ltb hi lo then None else Some (Z.max lo (Z.min v hi)).

Definition clamped_mark (mid_ticks index_ticks clamp_bps : Z) : option Z :=
  let lo := wrap_i64 (Z.quot (i128_mul index_ticks (i64_sub 10000 clamp_bps)) 10000) in
  let hi := wrap_i64 (Z.quot (i128_mul index_ticks (i64_add 10000 clamp_bps)) 10000) in
  i64_clamp_to mid_ticks lo hi.

(** The middle of the book; [None] where the code skips the event. *)
Definition book_mid (bids asks : list (f64 * f64)) : option f64 :=
  match bids, asks with
  | [], _ | _, [] => None
  | _, _ =>
      let best_bid := foldl f64_max (S754_infinity true) bids.*1 in
      let best_ask := foldl f64_min (S754_infinity false) asks.*1 in
      if f64_lt f64_zero best_bid && f64_lt best_ask (S754_infinity false)
      then Some (f64_div (f64_add best_bid best_ask) (i64_as_f64 2)) else None
  end.

(** What the receive thread keeps for the mark price. *)
Record MarkState := mkMarkState {
  mk_index_agg : option IndexAggregator;
  mk_mark_frozen : Z;
  mk_last_mark_update : gmap Symbol Z;
}.

Section mark.
Context `{HashIter}.

(** One value of the mid price: clamped into the index, or the raw mid without
    an aggregator, or nothing when the index is frozen. *)
Definition feed_mark (m : MarkState) (e : RiskEngine) (symbol : Symbol) (mid_ticks clamp_bps notional_scale
  now_ms now : Z) : option (MarkState * RiskEngine) :=
  match mk_index_agg m with
  | None =>
      e ← RiskEngine.update_mark_price e symbol mid_ticks notional_scale;
      Some (mkMarkState None (mk_mark_frozen m) (<[symbol := now]> (mk_last_mark_update m)), e)
  | Some a =>
      '(a, index) ← IndexAggregator.index_at a symbol now_ms;
      match index with
      | Some index_ticks =>
          mark ← clamped_mark mid_ticks index_ticks clamp_bps;
          e ← RiskEngine.update_mark_price e symbol mark notional_scale;
          Some (mkMarkState (Some a) (mk_mark_frozen m) (<[symbol := now]> (mk_last_mark_update m)), e)
      | None => Some (mkMarkState (Some a) (u64_add (mk_mark_frozen m) 1) (mk_last_mark_update m), e)
      end
  end.

(** The depth branch up to the fan-out. *)
Definition on_depth_mark (m : MarkState) (e : RiskEngine) (symbol : Symbol) (bids asks : list (f64 * f64))
  (clamp_bps now_ms now : Z) : option (MarkState * RiskEngine) :=
  match book_mid bids asks with
  | None => Some (m, e)
  | Some mid =>
      rules ← SymbolRules.for_symbol (unpack_str symbol);
      let mid_ticks := f64_as_i64 (f64_round (f64_div mid (sr_price_tick rules))) in
      feed_mark m e symbol mid_ticks clamp_bps (sr_notional_scale rules) now_ms now
  end.
End mark.

(** ** The median of a majority *)

Definition inside (lo hi p : Z) : Prop := lo <= p <= hi.
#[global] Instance inside_dec lo hi p : Decision (inside lo hi p).
Proof. unfold inside. apply _. Defined.

Definition honest (lo hi : Z) (l : list Z) : nat := length (filter (inside lo hi) l).

Lemma honest_app lo hi l k : honest lo hi (l ++ k) = (honest lo hi l + honest lo hi k)%nat.
Proof. unfold honest. by rewrite filter_app, length_app. Qed.

Lemma honest_le lo hi l : (honest lo hi l <= length l)%nat.
Proof. apply length_filter. Qed.

Lemma honest_none lo hi l : (forall p, p ∈ l -> ~ inside lo hi p) -> honest lo hi l = 0%nat.
Proof.
  intros Hn. unfold honest. destruct (filter (inside lo hi) l) as [|p k] eqn:Hf; [done|].
  assert (p ∈ filter (inside lo hi) l) as [Hp Hin]%list_elem_of_filter by (rewrite Hf; left). by destruct (Hn p).
Qed.

Lemma sorted_split l i x : StronglySorted Z.le l -> l !! i = Some x ->
  (forall p, p ∈ take (S i) l -> p <= x) /\ (forall p, p ∈ drop i l -> x <= p).
Proof.
  intros Hs Hi. rewrite <- (take_drop_middle l i x Hi) in Hs.
  rewrite (take_S_r _ _ _ Hi), (drop_S _ _ _ Hi). split; intros p Hp.
  - apply elem_of_app in Hp as [Hp|Hp%list_elem_of_singleton]; [|by subst].
    eapply (StronglySorted_app_1_elem_of Z.le); [exact Hs|done|left].
  - apply elem_of_cons in Hp as [->|Hp]; [done|]. apply StronglySorted_app_1_r in Hs.
    inversion_clear Hs as [|? ? _ HF]. rewrite Forall_forall in HF. by apply HF.
Qed.

(** The element in the middle of a sorted list lies where most of them do. *)
Lemma median_inside lo hi l x : StronglySorted Z.le l -> (length l < 2 * honest lo hi l)%nat ->
  l !! Nat.div (length l) 2 = Some x -> inside lo hi x.
Proof.
  intros Hs Hh Hx. set (i := Nat.div (length l) 2) in *.
  pose proof (lookup_lt_Some _ _ _ Hx) as Hlt. destruct (sorted_split _ _ _ Hs Hx) as [Hlow Hhigh].
  assert (2 * i <= length l < 2 * i + 2)%nat as Hi.
  { unfold i. pose proof (Nat.div_mod_eq (length l) 2). pose proof (Nat.mod_upper_bound (length l) 2). lia. }
  unfold inside. split.
  - apply Z.nlt_ge. intros Hx1. rewrite <- (take_drop (S i) l), honest_app in Hh.
    rewrite (honest_none lo hi (take (S i) l)) in Hh.
    + pose proof (honest_le lo hi (drop (S i) l)). rewrite length_drop in *. rewrite take_drop in Hh. lia.
    + intros p Hp. apply Hlow in Hp. unfold inside. lia.
  - apply Z.nlt_ge. intros Hx1. rewrite <- (take_drop i l), honest_app in Hh.
    rewrite (honest_none lo hi (drop i l)) in Hh.
    + pose proof (honest_le lo hi (take i l)). rewrite length_take in *. rewrite take_drop in Hh. lia.
    + intros p Hp. apply Hhigh in Hp. unfold inside. lia.
Qed.

Lemma median_exists {A} (l : list A) : l <> [] -> is_Some (l !! Nat.div (length l) 2).
Proof.
  intros Hl. apply lookup_lt_is_Some. destruct l; [done|]. apply Nat.div_lt; simpl; lia.
Qed.

Lemma honest_perm lo hi l k : l ≡ₚ k -> honest lo hi l = honest lo hi k.
Proof. intros Hp. unfold honest. by rewrite Hp. Qed.

(** Dropping prices outside keeps the honest ones. *)
Lemma honest_filter lo hi (P : Z -> Prop) `{forall p, Decision (P p)} l :
  (forall p, p ∈ l -> inside lo hi p -> P p) -> honest lo hi (filter P l) = honest lo hi l.
Proof.
  induction l as [|p l IH]; intros HP; [done|]. unfold honest in *. rewrite !filter_cons.
  assert (length (filter (inside lo hi) (filter P l)) = length (filter (inside lo hi) l)) as IH'
    by (apply IH; intros q Hq; apply HP; by right).
  destruct (decide (inside lo hi p)) as [Hi|Hi].
  - rewrite decide_True by (apply HP; [left|done]). rewrite filter_cons, decide_True by done. simpl. by rewrite IH'.
  - destruct (decide (P p)); [|done]. by rewrite filter_cons, decide_False.
Qed.

(** ** The index stays inside *)

(** A strict majority of the fresh sources quotes inside the band, the band is
    narrower than the outlier bound, and the majority makes a quorum. *)
Record trusted (a : IndexAggregator) (symbol : Symbol) (now_ms lo hi : Z) : Prop := {
  tr_band : 0 < lo <= hi;
  tr_max : hi <= i64_max;
  tr_width : Z.quot ((hi - lo) * 10000) lo <= ia_outlier_bps a;
  tr_majority : (length (IndexAggregator.quotes a symbol now_ms)
                 < 2 * honest lo hi (IndexAggregator.quotes a symbol now_ms))%nat;
  tr_quorum : ia_min_sources a <= Z.of_nat (honest lo hi (IndexAggregator.quotes a symbol now_ms));
}.

Lemma within_band lo hi bps m p : 0 < lo <= hi -> hi <= i64_max -> Z.quot ((hi - lo) * 10000) lo <= bps ->
  inside lo hi m -> inside lo hi p -> within m bps p = true.
Proof.
  intros Hb Hm Hw [Hm1 Hm2] [Hp1 Hp2]. unfold within. apply Z.leb_le.
  rewrite i64_sub_id by in_range. rewrite wrap_i64_id by in_range.
  unfold i128_mul. rewrite wrap_i128_id by in_range. rewrite Z.max_l by lia.
  rewrite Z.quot_div_nonneg in * by lia. etransitivity; [|exact Hw].
  transitivity (((hi - lo) * 10000) `div` m); [apply Z.div_le_mono; lia|apply Z.div_le_compat_l; lia].
Qed.

Lemma index_inside a symbol now_ms lo hi : trusted a symbol now_ms lo hi ->
  exists a' x, IndexAggregator.index_at a symbol now_ms = Some (a', Some x) /\ inside lo hi x.
Proof.
  intros [Hb Hm Hw Hmaj Hq]. unfold IndexAggregator.index_at.
  set (qs := IndexAggregator.quotes a symbol now_ms) in *.
  pose proof (honest_le lo hi qs). rewrite (proj2 (Z.ltb_ge _ _)) by lia. cbv zeta.
  assert (merge_sort Z.le qs ≡ₚ qs) as Hperm by apply merge_sort_Permutation.
  assert (StronglySorted Z.le (merge_sort Z.le qs)) as Hsort by (apply StronglySorted_merge_sort; apply _).
  assert (honest lo hi (merge_sort Z.le qs) = honest lo hi qs) as Hh by (by apply honest_perm).
  assert (length (merge_sort Z.le qs) = length qs) as Hlen by (by rewrite Hperm).
  set (ps := merge_sort Z.le qs) in *.
  destruct (median_exists ps) as [m Hmed]; [intros He; rewrite He in *; simpl in *; lia|].
  rewrite Hmed. cbn [mbind option_bind].
  assert (inside lo hi m) as Hmi by (eapply (median_inside lo hi ps); [done|lia|done]).
  set (sv := filter _ ps).
  assert (honest lo hi sv = honest lo hi ps) as Hhs.
  { apply honest_filter. intros p _ Hp. by eapply within_band. }
  assert (length sv <= length ps)%nat by apply length_filter. pose proof (honest_le lo hi sv).
  cbn [ia_min_sources count_outliers set_health]. rewrite (proj2 (Z.ltb_ge _ _)) by lia.
  destruct (median_exists sv) as [x Hx]; [intros He; rewrite He in *; simpl in *; lia|].
  rewrite Hx. cbn [mbind option_bind]. eexists _, x. split; [done|].
  eapply (median_inside lo hi sv); [|lia|done]. unfold sv. clear -Hsort.
  induction Hsort as [|p l Hs IH HF]; [constructor|]. rewrite filter_cons. destruct (decide _); [|done].
  constructor; [done|]. rewrite Forall_forall in *. intros q Hq%list_elem_of_filter. apply HF, Hq.
Qed.

(** ** The mark stays inside the widened band *)

Definition band_lo (lo bps : Z) : Z := Z.quot (lo * (10000 - bps)) 10000.
Definition band_hi (hi bps : Z) : Z := Z.quot (hi * (10000 + bps)) 10000.

Lemma clamped_inside lo hi bps x mid : 0 < lo <= hi -> 0 <= bps <= 10000 -> band_hi hi bps <= i64_max ->
  hi <= i64_max -> inside lo hi x ->
  exists k, clamped_mark mid x bps = Some k /\ inside (band_lo lo bps) (band_hi hi bps) k.
Proof.
  intros Hb Hbps Hmax Hm [Hx1 Hx2]. unfold clamped_mark, band_lo, band_hi in *.
  rewrite i64_sub_id, i64_add_id by in_range. unfold i128_mul. rewrite !wrap_i128_id by in_range.
  rewrite !Z.quot_div_nonneg in * by nia.
  assert (lo * (10000 - bps) / 10000 <= x * (10000 - bps) / 10000) by (apply Z.div_le_mono; nia).
  assert (x * (10000 + bps) / 10000 <= hi * (10000 + bps) / 10000) by (apply Z.div_le_mono; nia).
  assert (x * (10000 - bps) / 10000 <= x * (10000 + bps) / 10000) by (apply Z.div_le_mono; nia).
  assert (0 <= lo * (10000 - bps) / 10000) by (apply Z.div_pos; nia).
  rewrite !wrap_i64_id by in_range. unfold i64_clamp_to. rewrite (proj2 (Z.ltb_ge _ _)) by lia.
  eexists. split; [done|]. unfold inside. lia.
Qed.

Lemma ewma_inside lo hi old new : 0 <= lo -> 10 * hi <= i64_max -> inside lo hi old -> inside lo hi new ->
  inside lo hi (RiskEngine.ewma old new).
Proof.
  unfold inside, RiskEngine.ewma. intros Hl Hm Ho Hn.
  rewrite i64_mul_id by in_range. rewrite i64_add_id by in_range. rewrite Z.quot_div_nonneg by lia.
  split; [apply Z.div_le_lower_bound|apply Z.div_le_upper_bound]; lia.
Qed.

Section manipulation.
Context `{HashIter}.

Lemma remark_total sym mark scale e uid : 0 < scale ->
  exists e', RiskEngine.remark sym mark scale e uid = Some e' /\ re_mark_prices e' = re_mark_prices e.
Proof.
  intros Hs. unfold RiskEngine.remark. destruct (re_positions e !! (uid, sym)) as [p|]; [|by eexists].
  unfold calc_unrealized_pnl_atoms, i128_div, div_panics.
  rewrite (proj2 (Z.eqb_neq scale 0)), (proj2 (Z.eqb_neq scale (-1))), andb_false_r by lia. cbn [mbind option_bind orb].
  eexists. split; [done|]. by destruct (re_accounts _ !! uid).
Qed.

Lemma update_mark_total e sym price scale : 0 < scale ->
  exists e', RiskEngine.update_mark_price e sym price scale = Some e' /\
    re_mark_prices e' = if Z.leb price 0 then re_mark_prices e
      else <[sym := RiskEngine.ewma (default price (re_mark_prices e !! sym)) price]> (re_mark_prices e).
Proof.
  intros Hs. unfold RiskEngine.update_mark_price. destruct (Z.leb price 0); [by eexists|]. cbv zeta.
  set (e0 := RiskEngine.set_mark_prices e _). change (<[sym := _]> (re_mark_prices e)) with (re_mark_prices e0).
  generalize (RiskEngine.holders e0 sym). intros l. clearbody e0. revert e0.
  induction l as [|u l IH]; intros e0; simpl; [by eexists|].
  destruct (remark_total sym (RiskEngine.ewma (default price (re_mark_prices e !! sym)) price) scale e0 u Hs) as (e1 & -> & <-).
  apply IH.
Qed.

(** A depth event, its two arrays of twenty levels and how many of each are in
    use, with what the sources hold when it arrives. *)
Record DepthArrival := mkDepthArrival {
  da_sources : list SharedSource;
  da_num_bids : Z;
  da_num_asks : Z;
  da_bids : list (f64 * f64);
  da_asks : list (f64 * f64);
  da_now_ms : Z;
  da_now : Z;
}.

Definition with_sources (a : IndexAggregator) (sources : list SharedSource) : IndexAggregator :=
  mkIndexAggregator sources (ia_staleness_ms a) (ia_outlier_bps a) (ia_min_sources a) (ia_health a).

(** [raw[..n].copy_from_slice(&levels[..n])] of two arrays of twenty; [None] is
    the panic of the slice. *)
Definition raw_levels (n : Z) (levels : list (f64 * f64)) : option (list (f64 * f64)) :=
  if Z.leb n 20 then Some (take (Z.to_nat n) levels) else None.

Definition on_arrival (symbol : Symbol) (clamp_bps : Z) (st : MarkState * RiskEngine) (d : DepthArrival)
  : option (MarkState * RiskEngine) :=
  let '(m, e) := st in
  let m := mkMarkState ((fun a => with_sources a (da_sources d)) <$> mk_index_agg m) (mk_mark_frozen m)
             (mk_last_mark_update m) in
  bids ← raw_levels (da_num_bids d) (da_bids d);
  asks ← raw_levels (da_num_asks d) (da_asks d);
  on_depth_mark m e symbol bids asks clamp_bps (da_now_ms d) (da_now d).

(** The counts an engine puts into its events. *)
Definition counted (d : DepthArrival) : Prop := da_num_bids d <= 20 /\ da_num_asks d <= 20.

(** The aggregator's settings do not change. *)
Definition same_settings (a b : IndexAggregator) : Prop :=
  ia_staleness_ms a = ia_staleness_ms b /\ ia_outlier_bps a = ia_outlier_bps b /\ ia_min_sources a = ia_min_sources b.

Lemma index_at_settings a symbol now a' x : IndexAggregator.index_at a symbol now = Some (a', x) -> same_settings a' a.
Proof.
  unfold IndexAggregator.index_at. destruct (Z.ltb _ _); [by intros [= <- <-]|]. cbv zeta.
  intros (m & _ & Hx)%bind_Some. destruct (Z.ltb _ _); [by injection Hx as <- <-|].
  apply bind_Some in Hx as (i & _ & [= <- <-]). done.
Qed.

Definition mark_inside (e : RiskEngine) (symbol : Symbol) (lo hi : Z) : Prop :=
  forall mark, re_mark_prices e !! symbol = Some mark -> inside lo hi mark.

Lemma trusted_settings a b symbol now lo hi : same_settings a b -> ia_sources a = ia_sources b ->
  trusted b symbol now lo hi -> trusted a symbol now lo hi.
Proof.
  intros (Hs & Ho & Hm) Hsrc [H1 H2 H3 H4 H5].
  assert (IndexAggregator.quotes a symbol now = IndexAggregator.quotes b symbol now) as Hq
    by (unfold IndexAggregator.quotes; by rewrite Hs, Hsrc).
  split; rewrite ?Hq, ?Ho, ?Hm; done.
Qed.

Lemma arrival_inside (symbol : Symbol) rules bps lo hi a m e d :
  SymbolRules.for_symbol (unpack_str symbol) = Some rules -> 0 <= bps <= 10000 -> 10 * band_hi hi bps <= i64_max ->
  mk_index_agg m = Some a -> mark_inside e symbol (band_lo lo bps) (band_hi hi bps) ->
  counted d -> trusted (with_sources a (da_sources d)) symbol (da_now_ms d) lo hi ->
  exists m' e' a', on_arrival symbol bps (m, e) d = Some (m', e') /\ mk_index_agg m' = Some a' /\
    mk_mark_frozen m' = mk_mark_frozen m /\ same_settings a' a /\ mark_inside e' symbol (band_lo lo bps) (band_hi hi bps).
Proof.
  intros Hr Hbps Hmax Ha Hin [Hnb Hna] Ht. unfold on_arrival, raw_levels.
  rewrite (proj2 (Z.leb_le _ _) Hnb), (proj2 (Z.leb_le _ _) Hna). cbn [mbind option_bind]. unfold on_depth_mark. rewrite Ha. simpl.
  destruct (book_mid _ _) as [mid|]; [|by eexists _, _, _]. rewrite Hr. cbn [mbind option_bind].
  pose proof (for_symbol_listed _ _ Hr) as Hl. destruct (index_inside _ _ _ _ _ Ht) as (a' & x & Hix & Hx).
  unfold feed_mark. cbn [mk_index_agg]. rewrite Hix. cbn [mbind option_bind].
  pose proof (tr_band _ _ _ _ _ Ht) as Hb. pose proof (tr_max _ _ _ _ _ Ht) as Hm.
  destruct (clamped_inside lo hi bps x (f64_as_i64 (f64_round (f64_div mid (sr_price_tick rules)))))
    as (k & -> & Hk); [done|done|lia|done|done|]. cbn [mbind option_bind].
  destruct (update_mark_total e symbol k (sr_notional_scale rules)) as (e' & -> & Hmk); [by destruct Hl|].
  cbn [mbind option_bind]. eexists _, e', a'. split; [done|]. split; [done|]. split; [done|].
  split; [by apply index_at_settings in Hix|]. intros mark. rewrite Hmk. destruct (Z.leb k 0); [apply Hin|].
  rewrite lookup_insert_eq. intros [= <-]. apply ewma_inside; [|done| |done].
  - unfold band_lo. apply Z.quot_pos; nia.
  - destruct (re_mark_prices e !! symbol) as [old|] eqn:Hold; simpl; [by apply Hin|done].
Qed.

(** C25: The mark price cannot be manipulated through the book.  Take any
    sequence of depth events, with arbitrary bids and asks, at most twenty of
    each, and whatever the sources hold when each arrives.  If at every event a strict majority of the
    fresh sources quotes a price between [lo] and [hi], a band narrower than the
    outlier bound, and that majority is a quorum, then every event is processed
    without a panic and without a frozen index, and the mark price stays
    between [lo] and [hi] widened by the clamp, given that it starts there or
    does not exist. *)
Theorem mark_manipulation_bounded (symbol : Symbol) rules bps lo hi a m e ds :
  SymbolRules.for_symbol (unpack_str symbol) = Some rules -> 0 <= bps <= 10000 -> 10 * band_hi hi bps <= i64_max ->
  mk_index_agg m = Some a -> mark_inside e symbol (band_lo lo bps) (band_hi hi bps) ->
  Forall (fun d => counted d /\ trusted (with_sources a (da_sources d)) symbol (da_now_ms d) lo hi) ds ->
  exists m' e', mfold (on_arrival symbol bps) (m, e) ds = Some (m', e') /\
    mk_mark_frozen m' = mk_mark_frozen m /\ mark_inside e' symbol (band_lo lo bps) (band_hi hi bps).
Proof.
  intros Hr Hbps Hmax Ha Hin Hds. remember a as b eqn:Hab in Hds.
  assert (same_settings a b) as Hs by (by subst). clear Hab. revert m e a Ha Hs Hin.
  induction Hds as [|d ds [Hc Ht] _ IH]; intros m e a Ha Hs Hin; cbn [mfold]; [by eexists _, _|].
  destruct (arrival_inside symbol rules bps lo hi a m e d) as (m1 & e1 & a1 & -> & Ha1 & Hf & Hs1 & Hin1); try done.
  { by eapply (trusted_settings _ (with_sources b (da_sources d))). }
  cbn [mbind option_bind]. destruct (IH m1 e1 a1) as (m' & e' & Hrun & Hf' & Hin'); [done| |done|].
  - destruct Hs as (? & ? & ?), Hs1 as (? & ? & ?). unfold same_settings. split_and!; congruence.
  - exists m', e'. by rewrite Hf'.
Qed.
End manipulation.

(** ** Concrete quotes *)

Definition quote_btc : Symbol := pack_str 16 (str "BTC_USDT").
Definition quoting (price : Z) : SharedSource := SharedSource.store (SharedSource.new (str "s")) quote_btc price 1000.
Definition demo_aggregator : IndexAggregator := IndexAggregator.new (fun _ => None) [].

(** Two honest sources, one that shouts, and a book whose best prices are off by
    half: the mark stays within two percent. *)
Lemma mark_manipulation_bounded_witness :
  let m := mkMarkState (Some demo_aggregator) 0 ∅ in
  let ds := [mkDepthArrival [quoting 5000000; quoting 5001000; quoting 6500000] 1 1
               [(i64_as_f64 99999, i64_as_f64 1)] [(i64_as_f64 100001, i64_as_f64 1)] 2000 0] in
  exists m' e', mfold (on_arrival quote_btc 200) (m, RiskEngine.new) ds = Some (m', e') /\
    mk_mark_frozen m' = mk_mark_frozen m /\
    mark_inside e' quote_btc (band_lo 5000000 200) (band_hi 5001000 200).
Proof.
  intros m ds.
  apply (mark_manipulation_bounded quote_btc
    (default (mkSymbolRules f64_zero f64_zero 1 1 f64_zero 1 1 1 1 1 1 1) (SymbolRules.for_symbol (str "BTC_USDT")))
    200 5000000 5001000 demo_aggregator m RiskEngine.new ds).
  - vm_compute. reflexivity.
  - lia.
  - vm_compute. done.
  - done.
  - intros mark Hm. done.
  - apply Forall_singleton. split; [by vm_compute|]. split; vm_compute; try done; try (split; done); try lia.
Defined.

(** With two fresh sources the index is the larger of the two: one source alone
    raises it by up to the outlier bound. *)
Lemma one_of_two_sets_index :
  snd <$> IndexAggregator.index_at (with_sources demo_aggregator [quoting 5000000; quoting 5099000]) quote_btc 2000 =
    Some (Some 5099000) /\
  snd <$> IndexAggregator.index_at (with_sources demo_aggregator [quoting 5000000; quoting 5000000]) quote_btc 2000 =
    Some (Some 5000000).
Proof. split; vm_compute; reflexivity. Qed.

(** A count beyond the arrays ends the receive thread. *)
Lemma depth_count_panics :
  on_arrival quote_btc 200 (mkMarkState (Some demo_aggregator) 0 ∅, RiskEngine.new)
    (mkDepthArrival [] 21 0 (replicate 20 (f64_zero, f64_zero)) (replicate 20 (f64_zero, f64_zero)) 2000 0) = None.
Proof. vm_compute. reflexivity. Qed.

(** A quorum of zero and no fresh source: the median of nothing is a panic. *)
Lemma empty_quorum_panics :
  IndexAggregator.index_at (mkIndexAggregator [] 30000 200 0 (mkIndexHealth 0 0 0)) quote_btc 2000 = None.
Proof. vm_compute. reflexivity. Qed.
