(* ===== verification/Desk.v ===== *)
(** The desk server's shared state and its command processor
    ([src/src/bin/desk_server.rs], [src/src/desk/exchange_config.rs]).

    The spin threads of the server share an account cache, the risk engine, the
    tables of live orders and a bounded queue of frames for the persistence
    thread.  [Desk] is that state; a handler of one message or command is a
    function on it that returns [None] when the code panics.  Amounts the code
    keeps as [f64] are bit patterns; arithmetic goes through [f64_of_bits].

    A send into a session's channel or onto an Aeron publication is recorded in
    [dk_sent] when it is attempted; whether the channel has room is not the
    desk's decision, and where the code acts on the answer it is an argument.

    The theorems are about settlement: the balances after a batch of fills are
    the old ones plus the net of the fills for every user and asset, whatever
    the order in which the hash map of deltas is visited, and no asset is
    created or destroyed. *)
From Stdlib Require Import ZArith Lia String.
From stdpp Require Import base numbers list gmap sorting.
From S2P Require Import Prelude Bytes Fixed Types F64 Text Money RiskCalc RiskEngine SymbolRules Pod Sbe WsSbe Routing PersistEvent CounterForward PgStore PgWriter PgTables RiskTyped RiskPersist.

#[local] Open Scope Z_scope.

(** ** Runtime controls of the symbols *)

Record SymbolControl := mkSymbolControl {
  sc_trading_halted : bool;
  sc_maker_fee_bps : option Z;
  sc_taker_fee_bps : option Z;
}.

Definition SymbolControl_default : SymbolControl := mkSymbolControl false None None.

Abbreviation ExchangeConfig := (gmap bytes SymbolControl).

Module ExchangeConfig.
Definition new : ExchangeConfig := ∅.

Definition is_halted (cfg : ExchangeConfig) (symbol : bytes) : bool :=
  match cfg !! symbol with Some c => sc_trading_halted c | None => false end.

(** The override of the symbol if there is one, else the default. *)
Definition fee_bps (env : bytes -> option bytes) (cfg : ExchangeConfig) (symbol : bytes) : Z * Z :=
  let '(d_maker, d_taker) := SymbolRules.fee_bps env symbol in
  match cfg !! symbol with
  | Some c => (default d_maker (sc_maker_fee_bps c), default d_taker (sc_taker_fee_bps c))
  | None => (d_maker, d_taker)
  end.

Definition set (cfg : ExchangeConfig) (symbol : bytes) (control : SymbolControl) : ExchangeConfig :=
  <[symbol := control]> cfg.

Definition get (cfg : ExchangeConfig) (symbol : bytes) : SymbolControl :=
  default SymbolControl_default (cfg !! symbol).

Definition all `{HashIter} (cfg : ExchangeConfig) : list (bytes * SymbolControl) := iter_map cfg.

(** [rows]: what the select of the table returned. *)
Definition hydrate (cfg : ExchangeConfig) (rows : list (bytes * SymbolControl)) : ExchangeConfig * nat :=
  (foldl (fun cfg row => <[row.1 := row.2]> cfg) cfg rows, length rows).
End ExchangeConfig.

(** ** Symbols *)

(** [str::split_once] on an ASCII character *)
Fixpoint split_once (sep : Z) (s : bytes) : option (bytes * bytes) :=
  match s with
  | [] => None
  | b :: s =>
      if Z.eqb b sep then Some ([], s)
      else match split_once sep s with Some (l, r) => Some (b :: l, r) | None => None end
  end.

(** The first and the last part of [splitn(2, '_')]. *)
Definition base_quote (sym : bytes) : bytes * bytes := default (sym, sym) (split_once 95 sym).

(** A symbol field read as a string: up to the first NUL. *)
Definition sym_or (d : bytes) (symbol : bytes) : bytes := default d (from_utf8 (until_nul symbol)).

(** ** State *)

Abbreviation AccountCache := (gmap Z (gmap bytes AccountBalance)).

Record VwapStats := mkVwapStats { vw_weighted_sum : f64; vw_qty_sum : f64 }.

(** [OrderMeta] of [transport/mod.rs] *)
Record OrderMeta := mkOrderMeta {
  om_user_id : Z;
  om_symbol : bytes;
  om_side : Z;
  om_order_type : bytes;
  om_price : option Z;
  om_qty : Z;
  om_client_order_id : bytes;
  om_freeze_price : Z;
  om_initial_margin_atoms : Z;
  om_liq_price_ticks : Z;
}.

Record OrderRuntimeMeta := mkOrderRuntimeMeta {
  rm_user_id : Z;
  rm_freeze_price : Z;
  rm_quantity : Z;
  rm_filled : Z;
  rm_side : Z;
  rm_symbol : bytes;
  rm_liq_price_ticks : Z;
  rm_initial_margin_atoms : Z;
}.

(** What the handlers read and never write: the environment, the symbol
    controls, the connected users, the symbols with an engine, the desks with a
    publication, the leverage tiers and the capacity of the queue. *)
Record Wiring := mkWiring {
  w_env : bytes -> option bytes;
  w_config : ExchangeConfig;
  w_sessions : gset Z;
  w_engines : gset bytes;
  w_peers : gset Z;
  w_tiers : list (Z * Z);
  w_queue_capacity : nat;
  w_response_stream_id : Z;
}.

(** The tables of live orders, shared by the send and the receive thread. *)
Record OrderTables := mkOrderTables {
  ot_meta : gmap Z OrderRuntimeMeta;
  ot_pending_meta : gmap Z OrderMeta;
  ot_pending : gset Z;
  ot_origin : gmap Z Z;
  ot_to_engine : gmap Z Z;
  ot_to_public : gmap Z Z;
}.

Inductive output :=
| ToUser (user_id : Z) (payload : bytes) (tag : Z)
| ToIngress (desk_id : Z) (frame : CounterForwardWsFrame)
| ToOwner (desk_id : Z) (msg : CounterForwardMsg)
| ToEngine (symbol : bytes) (req : NewOrderRequest)
| CancelAt (symbol : bytes) (req : CancelOrderRequest)
| Reply (order_id : Z) (msg : OrderUpdateMsg).

Record Desk := mkDesk {
  dk_wiring : Wiring;
  dk_accounts : AccountCache;
  dk_risk : RiskEngine;
  dk_vwap : gmap (Z * bytes) VwapStats;
  dk_orders : OrderTables;
  dk_queue : list persist_event;
  dk_dropped : nat;
  dk_sent : list output;
}.

Module Desk.
Definition set_accounts (d : Desk) (x : AccountCache) : Desk :=
  mkDesk (dk_wiring d) x (dk_risk d) (dk_vwap d) (dk_orders d) (dk_queue d) (dk_dropped d) (dk_sent d).
Definition set_risk (d : Desk) (x : RiskEngine) : Desk :=
  mkDesk (dk_wiring d) (dk_accounts d) x (dk_vwap d) (dk_orders d) (dk_queue d) (dk_dropped d) (dk_sent d).
Definition set_vwap (d : Desk) (x : gmap (Z * bytes) VwapStats) : Desk :=
  mkDesk (dk_wiring d) (dk_accounts d) (dk_risk d) x (dk_orders d) (dk_queue d) (dk_dropped d) (dk_sent d).
Definition set_orders (d : Desk) (x : OrderTables) : Desk :=
  mkDesk (dk_wiring d) (dk_accounts d) (dk_risk d) (dk_vwap d) x (dk_queue d) (dk_dropped d) (dk_sent d).
Definition set_queue (d : Desk) (x : list persist_event) (dropped : nat) : Desk :=
  mkDesk (dk_wiring d) (dk_accounts d) (dk_risk d) (dk_vwap d) (dk_orders d) x dropped (dk_sent d).
Definition set_sent (d : Desk) (x : list output) : Desk :=
  mkDesk (dk_wiring d) (dk_accounts d) (dk_risk d) (dk_vwap d) (dk_orders d) (dk_queue d) (dk_dropped d) x.

(** An attempted send. *)
Definition send (d : Desk) (o : output) : Desk := set_sent d (vec_push (dk_sent d) o).
End Desk.

Module OrderTables.
Definition set_meta (t : OrderTables) (x : gmap Z OrderRuntimeMeta) : OrderTables :=
  mkOrderTables x (ot_pending_meta t) (ot_pending t) (ot_origin t) (ot_to_engine t) (ot_to_public t).
Definition set_pending_meta (t : OrderTables) (x : gmap Z OrderMeta) : OrderTables :=
  mkOrderTables (ot_meta t) x (ot_pending t) (ot_origin t) (ot_to_engine t) (ot_to_public t).
Definition set_pending (t : OrderTables) (x : gset Z) : OrderTables :=
  mkOrderTables (ot_meta t) (ot_pending_meta t) x (ot_origin t) (ot_to_engine t) (ot_to_public t).
Definition set_origin (t : OrderTables) (x : gmap Z Z) : OrderTables :=
  mkOrderTables (ot_meta t) (ot_pending_meta t) (ot_pending t) x (ot_to_engine t) (ot_to_public t).
Definition set_routes (t : OrderTables) (to_engine to_public : gmap Z Z) : OrderTables :=
  mkOrderTables (ot_meta t) (ot_pending_meta t) (ot_pending t) (ot_origin t) to_engine to_public.
End OrderTables.

(** ** Runtime metadata of the orders *)

Definition remember_runtime_order (cache : gmap Z OrderRuntimeMeta) (order_id user_id freeze_price quantity
  side : Z) (symbol : bytes) (initial_margin_atoms : Z) : gmap Z OrderRuntimeMeta :=
  <[order_id := mkOrderRuntimeMeta user_id freeze_price quantity 0 side symbol 0 initial_margin_atoms]> cache.

Definition remap_runtime_order_id (cache : gmap Z OrderRuntimeMeta) (from to : Z) : gmap Z OrderRuntimeMeta :=
  if negb (Z.eqb from to) then
    match cache !! from with
    | Some meta => <[to := meta]> (delete from cache)
    | None => cache
    end
  else cache.

Definition runtime_user_id (cache : gmap Z OrderRuntimeMeta) (order_id : Z) : Z :=
  match cache !! order_id with Some m => rm_user_id m | None => 0 end.

Definition runtime_meta (cache : gmap Z OrderRuntimeMeta) (order_id : Z) : option OrderRuntimeMeta :=
  cache !! order_id.

Definition runtime_bump_filled (cache : gmap Z OrderRuntimeMeta) (order_id filled_qty : Z)
  : gmap Z OrderRuntimeMeta :=
  alter (fun m => mkOrderRuntimeMeta (rm_user_id m) (rm_freeze_price m) (rm_quantity m) filled_qty
    (rm_side m) (rm_symbol m) (rm_liq_price_ticks m) (rm_initial_margin_atoms m)) order_id cache.

Definition remove_runtime_order (cache : gmap Z OrderRuntimeMeta) (order_id client_id : Z)
  : gmap Z OrderRuntimeMeta :=
  let cache := delete order_id cache in
  if negb (Z.eqb order_id client_id) then delete client_id cache else cache.

(** [m.liq_price_ticks = liq] of the entry, if it is there. *)
Definition set_liq_price (cache : gmap Z OrderRuntimeMeta) (order_id liq : Z) : gmap Z OrderRuntimeMeta :=
  alter (fun m => mkOrderRuntimeMeta (rm_user_id m) (rm_freeze_price m) (rm_quantity m) (rm_filled m)
    (rm_side m) (rm_symbol m) liq (rm_initial_margin_atoms m)) order_id cache.

Definition order_meta_from_forward (m : CounterForwardOrderMeta) : OrderMeta :=
  let price := cfm_price m in
  mkOrderMeta (cfm_user_id m) (cfm_symbol m) (cfm_side m) (cfm_order_type m)
    (if f64_lt f64_zero (f64_of_bits price) then Some price else None) (cfm_qty m)
    (CounterForwardOrderMeta.client_order_id_string m) (cfm_freeze_price m) (cfm_initial_margin_atoms m) 0.

(** ** The account cache *)

Definition account_of (cache : AccountCache) (user_id : Z) (asset : bytes) : option AccountBalance :=
  entry ← cache !! user_id; entry !! asset.

(** The write through the nested entry; it is there. *)
Definition put_account (cache : AccountCache) (user_id : Z) (asset : bytes) (kv : AccountBalance) : AccountCache :=
  <[user_id := <[asset := kv]> (default ∅ (cache !! user_id))]> cache.

Definition try_freeze_cache (cache : AccountCache) (user_id : Z) (asset : bytes) (amount : f64)
  : AccountCache * bool :=
  if f64_le amount f64_zero then (cache, true)
  else
    match account_of cache user_id asset with
    | None => (cache, false)
    | Some kv =>
        match AmountAtoms.from_f64_round amount with
        | Err _ => (cache, false)
        | Ok atoms =>
            let '(kv, ok) := AccountBalance.try_freeze_atoms kv atoms in
            (put_account cache user_id asset kv, ok)
        end
    end.

(** The release through the cache: the account after it, if there is one and
    the amount converts. *)
Definition release_entry (cache : AccountCache) (user_id : Z) (asset : bytes) (amount : f64)
  : option (AccountCache * AccountBalance) :=
  kv ← account_of cache user_id asset;
  match AmountAtoms.from_f64_round amount with
  | Err _ => None
  | Ok atoms =>
      let kv := AccountBalance.release_atoms kv atoms in
      Some (put_account cache user_id asset kv, kv)
  end.

Definition release_cache_frozen (cache : AccountCache) (user_id : Z) (asset : bytes) (amount : f64) : AccountCache :=
  if f64_le amount f64_zero then cache
  else match release_entry cache user_id asset amount with Some (cache, _) => cache | None => cache end.

(** ** Publishing *)

(** [publish_frame]: a full queue drops the frame. *)
Definition publish_frame (d : Desk) (ev : persist_event) : Desk :=
  if Nat.ltb (length (dk_queue d)) (w_queue_capacity (dk_wiring d))
  then Desk.set_queue d (vec_push (dk_queue d) ev) (dk_dropped d)
  else Desk.set_queue d (dk_queue d) (S (dk_dropped d)).

Definition publish_frames (d : Desk) (evs : list persist_event) : Desk := foldl publish_frame d evs.

(** [UserTxRegistry::get]: the registry has [1 << 20] slots. *)
Definition USER_TX_CAPACITY : Z := 1048576.

Definition user_tx (d : Desk) (user_id : Z) : bool :=
  Z.ltb 0 user_id && Z.ltb user_id USER_TX_CAPACITY && bool_decide (user_id ∈ w_sessions (dk_wiring d)).

(** [if let Some(tx) = user_tx.get(uid) { let _ = tx.try_send((payload, tag)); }] *)
Definition notify (d : Desk) (user_id : Z) (payload : bytes) (tag : Z) : Desk :=
  if user_tx d user_id then Desk.send d (ToUser user_id payload tag) else d.

Definition account_set_payload (user_id : Z) (asset : bytes) (balance frozen : f64)
  : result AccountSetPayload MoneyError :=
  balance_atoms ←? AmountAtoms.from_f64_round balance;
  frozen_atoms ←? AmountAtoms.from_f64_round frozen;
  Ok (mkAccountSetPayload user_id (pack_str 16 asset) (f64_to_bits balance) (f64_to_bits frozen)
        balance_atoms frozen_atoms).

(** The [AccountSet] frame of a balance; one that does not convert is skipped. *)
Definition publish_account (d : Desk) (user_id : Z) (asset : bytes) (bal frz : f64) : Desk :=
  match account_set_payload user_id asset bal frz with
  | Ok payload => publish_frame d (EvAccountSet payload)
  | Err _ => d
  end.

Definition notify_balance (d : Desk) (user_id : Z) (asset : bytes) (bal frz : f64) : Desk :=
  notify d user_id (encode_balance_update asset (f64_to_bits bal) (f64_to_bits (f64_sub bal frz)) (f64_to_bits frz)) 0.

Definition MATCHING_EVENT_ACCEPTED : Z := 1.
Definition MATCHING_EVENT_FILLED : Z := 2.
Definition MATCHING_EVENT_PARTIAL_FILL : Z := 3.
Definition MATCHING_EVENT_CANCELLED : Z := 4.
Definition MATCHING_EVENT_REJECTED : Z := 5.

Definition matching_event_kind_of (kind : Z) : option Z :=
  if Z.eqb kind ACCEPTED then Some MATCHING_EVENT_ACCEPTED
  else if Z.eqb kind FILLED then Some MATCHING_EVENT_FILLED
  else if Z.eqb kind PARTIAL_FILL then Some MATCHING_EVENT_PARTIAL_FILL
  else if Z.eqb kind CANCELLED then Some MATCHING_EVENT_CANCELLED
  else if Z.eqb kind REJECTED then Some MATCHING_EVENT_REJECTED
  else None.

(** [unwrap_or_else(|_| (value / step).round() as i64)] *)
Definition units_or_round (r : result Z string) (value step : f64) : Z :=
  match r with Ok v => v | Err _ => f64_as_i64 (f64_round (f64_div value step)) end.

(** [publish_matching_order_event]; [None] is the panic on an unknown symbol. *)
Definition publish_matching_order_event (d : Desk) (sequence response_stream_id kind order_id client_order_id
  participant_id fill_price fill_qty remaining_qty timestamp_ns : Z) (meta : OrderRuntimeMeta) : option Desk :=
  let symbol := default (str "BTC_USDT") (unpack_str16 (rm_symbol meta)) in
  rules ← SymbolRules.for_symbol symbol;
  match matching_event_kind_of kind with
  | None => Some d
  | Some event_kind =>
      let pos bits := f64_lt f64_zero (f64_of_bits bits) in
      let event_order_id := if Z.eqb order_id 0 then client_order_id else order_id in
      let price := f64_of_bits (if pos fill_price then fill_price else rm_freeze_price meta) in
      let qty := f64_of_bits (if pos fill_qty then fill_qty else rm_quantity meta) in
      let remaining := f64_of_bits
        (if pos remaining_qty then remaining_qty
         else if Z.eqb event_kind MATCHING_EVENT_ACCEPTED then rm_quantity meta else 0) in
      let price_ticks := if f64_lt f64_zero price
        then units_or_round (SymbolRules.price_to_ticks rules price) price (sr_price_tick rules) else 0 in
      let quantity_lots := units_or_round (SymbolRules.quantity_to_lots rules qty) qty (sr_quantity_step rules) in
      let remaining_lots :=
        units_or_round (SymbolRules.quantity_to_lots rules remaining) remaining (sr_quantity_step rules) in
      Some (publish_frame d (EvMatchingEvent (mkMatchingEventPayload sequence response_stream_id event_kind (zeros 3)
        (wrap_i64 event_order_id) (wrap_i64 client_order_id) (wrap_i64 participant_id) 0 (pack_str 16 symbol)
        price_ticks quantity_lots remaining_lots timestamp_ns)))
  end.

(** ** Commands *)

Record SettleTradeEntry := mkSettleTradeEntry {
  st_taker_id : Z;
  st_maker_id : Z;
  st_taker_uid : Z;
  st_maker_uid : Z;
  st_price : Z;
  st_qty : Z;
  st_side : Z;
  st_symbol : bytes;
}.

Record CancelReleaseEntry := mkCancelReleaseEntry {
  cr_id : Z;
  cr_user_id : Z;
  cr_asset : bytes;
  cr_release_amount : Z;
}.

Record OrderInsertEntry := mkOrderInsertEntry {
  oi_id : Z;
  oi_user_id : Z;
  oi_symbol : bytes;
  oi_side : Z;
  oi_order_type : bytes;
  oi_price : Z;
  oi_qty : Z;
  oi_filled : Z;
  oi_status : Z;
  oi_freeze_price : Z;
  oi_do_freeze : bool;
  oi_client_order_id : bytes;
}.

(** A fixed array and the count of its used cells is the list of the used
    cells.  [UpsertOrder] carries the fields of one row. *)
Inductive DbCmd :=
| UpsertOrder (row : OrderInsertEntry)
| BatchUpsertOrder (entries : list OrderInsertEntry)
| UpdateStatus (id status filled : Z)
| BatchCancelConfirmed (entries : list CancelReleaseEntry)
| ReleaseReservation (user_id : Z) (symbol : bytes) (side qty freeze_price : Z)
| BatchSettleTrade (entries : list SettleTradeEntry)
| BatchDeleteOrder (ids : list Z).

Definition order_fill_update (id filled status : Z) : persist_event :=
  EvOrderFillUpdate (mkOrderFillUpdatePayload id filled status (zeros 7)).

Definition order_delete (id : Z) : persist_event := EvOrderDelete (mkOrderDeletePayload id).

(** The asset an accepted order froze. *)
Definition frozen_asset (e : OrderInsertEntry) : bytes :=
  let '(base, quote) := base_quote (sym_or (str "BTC_USDT") (oi_symbol e)) in
  if Z.eqb (oi_side e) 0 then quote else base.

Definition order_upsert_of (now_ms : Z) (e : OrderInsertEntry) : persist_event :=
  EvOrderUpsert (mkOrderUpsertPayload (oi_id e) (oi_user_id e) (oi_symbol e) (oi_side e) (oi_status e) (zeros 6)
    (oi_order_type e) (oi_price e) (oi_qty e) (oi_filled e) (oi_freeze_price e) (oi_client_order_id e) now_ms).

(** [BatchUpsertOrder]: an [AccountSet] for each account the orders froze, then
    the rows. *)
Definition batch_upsert_order `{HashIter} (d : Desk) (now_ms : Z) (entries : list OrderInsertEntry) : Desk :=
  let accounts_to_emit : gset (Z * bytes) :=
    foldl (fun s e => if oi_do_freeze e then {[(oi_user_id e, frozen_asset e)]} ∪ s else s) ∅ entries in
  let d := foldl (fun d k =>
    match account_of (dk_accounts d) k.1 k.2 with
    | Some snapshot => publish_account d k.1 k.2 (AccountBalance.balance snapshot) (AccountBalance.frozen snapshot)
    | None => d
    end) d (iter_set accounts_to_emit) in
  publish_frames d (order_upsert_of now_ms <$> entries).

(** A release with its frame and its notification. *)
Definition release_and_publish (d : Desk) (user_id : Z) (asset : bytes) (amount : f64) : Desk :=
  match release_entry (dk_accounts d) user_id asset amount with
  | None => d
  | Some (cache, snapshot) =>
      let d := Desk.set_accounts d cache in
      let bal := AccountBalance.balance snapshot in
      let frz := AccountBalance.frozen snapshot in
      notify_balance (publish_account d user_id asset bal frz) user_id asset bal frz
  end.

(** The releases of a batch, summed by account; entries without an amount, a
    user or an asset are skipped. *)
Definition add_release (m : gmap (Z * bytes) f64) (e : CancelReleaseEntry) : gmap (Z * bytes) f64 :=
  if f64_le (f64_of_bits (cr_release_amount e)) f64_zero || Z.eqb (cr_user_id e) 0 then m
  else
    match from_utf8 (until_nul (cr_asset e)) with
    | Some (b :: asset') =>
        let k := (cr_user_id e, b :: asset') in
        <[k := f64_add (default f64_zero (m !! k)) (f64_of_bits (cr_release_amount e))]> m
    | _ => m
    end.

Definition batch_cancel_confirmed `{HashIter} (d : Desk) (entries : list CancelReleaseEntry) : Desk :=
  let releases := foldl add_release ∅ entries in
  let d := foldl (fun d x => release_and_publish d x.1.1 x.1.2 x.2) d (iter_map releases) in
  publish_frames d ((fun e => order_delete (cr_id e)) <$> entries).

Definition release_reservation (d : Desk) (user_id : Z) (symbol : bytes) (side qty freeze_price : Z) : Desk :=
  let '(base, quote) := base_quote (sym_or (str "BTC_USDT") symbol) in
  let '(asset, amount) :=
    if Z.eqb side 0 then (quote, f64_mul (f64_of_bits freeze_price) (f64_of_bits qty))
    else (base, f64_of_bits qty) in
  if f64_le amount f64_zero then d else release_and_publish d user_id asset amount.

(** *** Settlement *)

(** The margin update of the maker of one fill. *)
Definition settle_maker (d : Desk) (e : SettleTradeEntry) : option Desk :=
  if Z.eqb (st_maker_uid e) 0 then Some d
  else
    let sym_str := sym_or (str "BTC_USDT") (st_symbol e) in
    rules ← SymbolRules.for_symbol sym_str;
    let fp_ticks := f64_as_i64 (f64_round (f64_div (f64_of_bits (st_price e)) (sr_price_tick rules))) in
    let fq_lots := match SymbolRules.quantity_to_lots rules (f64_of_bits (st_qty e)) with Ok v => v | Err _ => 0 end in
    if Z.leb fq_lots 0 then Some d
    else
      let maker_side := (1 - st_side e) mod 256 in
      notional ← calc_notional_atoms fp_ticks fq_lots (sr_notional_scale rules);
      fill_margin ← calc_initial_margin_atoms notional (sr_default_leverage rules);
      risk ← RiskEngine.on_fill (dk_risk d) (st_maker_uid e) (st_symbol e) maker_side fp_ticks fq_lots fill_margin
               (sr_notional_scale rules) (sr_default_leverage rules) (sr_maintenance_rate_bps rules) 0;
      let '(maker_bps, _) := ExchangeConfig.fee_bps (w_env (dk_wiring d)) (w_config (dk_wiring d)) sym_str in
      fee ← fee_atoms notional maker_bps;
      let risk := RiskEngine.charge_fee risk (st_maker_uid e) fee in
      Some (publish_frames (Desk.set_risk d risk) (margin_state_events risk (st_maker_uid e) (st_symbol e))).

(** The row of the trade history; it needs the two order ids only. *)
Definition trade_event (ts_ms : Z) (e : SettleTradeEntry) : option persist_event :=
  if Z.eqb (st_taker_id e) 0 || Z.eqb (st_maker_id e) 0 then None
  else
    Some (EvTradeInsert (mkTradeInsertPayload
      (if Z.eqb (st_side e) 0 then st_taker_id e else st_maker_id e)
      (if Z.eqb (st_side e) 0 then st_maker_id e else st_taker_id e)
      (pack_str 16 (sym_or (str "BTC_USDT") (st_symbol e))) (st_price e) (st_qty e) ts_ms)).

Record Delta := mkDelta { dl_balance_atoms : Z; dl_frozen_release_atoms : Z }.

Definition Delta_default : Delta := mkDelta 0 0.

Abbreviation Deltas := (gmap (Z * bytes) Delta).

(** [deltas.entry(k).or_default()], then the two additions. *)
Definition add_delta (ds : Deltas) (k : Z * bytes) (balance frozen : Z) : Deltas :=
  let e := default Delta_default (ds !! k) in
  <[k := mkDelta (i64_add (dl_balance_atoms e) balance) (i64_add (dl_frozen_release_atoms e) frozen)]> ds.

(** What one fill moves: the assets, the parties and the two amounts; [None]
    when the loop body skips the fill. *)
Record Movement := mkMovement {
  mv_base : bytes; mv_quote : bytes; mv_buyer : Z; mv_seller : Z; mv_cost_atoms : Z; mv_qty_atoms : Z;
}.

Definition movement (r : SettleTradeEntry) : option Movement :=
  '(base, quote) ← split_once 95 (sym_or (str "BTC_USDT") (st_symbol r));
  let cost := f64_mul (f64_of_bits (st_price r)) (f64_of_bits (st_qty r)) in
  match AmountAtoms.from_f64_round cost, AmountAtoms.from_f64_round (f64_of_bits (st_qty r)) with
  | Ok cost_atoms, Ok qty_atoms =>
      let '(buyer_uid, seller_uid) :=
        if Z.eqb (st_side r) 0 then (st_taker_uid r, st_maker_uid r) else (st_maker_uid r, st_taker_uid r) in
      Some (mkMovement base quote buyer_uid seller_uid cost_atoms qty_atoms)
  | _, _ => None
  end.

(** The buyer pays the cost out of what was frozen and gets the quantity, the
    seller the reverse. *)
Definition add_movement (ds : Deltas) (m : Movement) : Deltas :=
  let ds := add_delta ds (mv_buyer m, mv_quote m) (- mv_cost_atoms m) (mv_cost_atoms m) in
  let ds := add_delta ds (mv_buyer m, mv_base m) (mv_qty_atoms m) 0 in
  let ds := add_delta ds (mv_seller m, mv_base m) (- mv_qty_atoms m) (mv_qty_atoms m) in
  add_delta ds (mv_seller m, mv_quote m) (mv_cost_atoms m) 0.

(** The running sums of the buyer's fills. *)
Definition add_vwap (vwap : gmap (Z * bytes) VwapStats) (r : SettleTradeEntry) (m : Movement)
  : gmap (Z * bytes) VwapStats :=
  let k := (mv_buyer m, mv_base m) in
  let vw := default (mkVwapStats f64_zero f64_zero) (vwap !! k) in
  let price := f64_of_bits (st_price r) in
  let qty := f64_of_bits (st_qty r) in
  <[k := mkVwapStats (f64_add (vw_weighted_sum vw) (f64_mul price qty)) (f64_add (vw_qty_sum vw) qty)]> vwap.

Definition accumulate (s : Deltas * gmap (Z * bytes) VwapStats) (r : SettleTradeEntry)
  : Deltas * gmap (Z * bytes) VwapStats :=
  match movement r with
  | None => s
  | Some m => (add_movement s.1 m, add_vwap s.2 r m)
  end.

(** One delta on the cache; an account or an asset that is not there is made. *)
Definition apply_delta (cache : AccountCache) (x : (Z * bytes) * Delta) : AccountCache * AccountBalance :=
  let '((uid, asset), d) := x in
  let kv := default (mkAccountBalance 0 0) (account_of cache uid asset) in
  let kv := AccountBalance.apply_atoms_delta kv (dl_balance_atoms d) (dl_frozen_release_atoms d) in
  (put_account cache uid asset kv, kv).

(** The loop over the deltas, and the rows [updated_accounts]. *)
Definition apply_deltas (cache : AccountCache) (ds : list ((Z * bytes) * Delta))
  : AccountCache * list ((Z * bytes) * AccountBalance) :=
  foldl (fun s x =>
    let '(cache, kv) := apply_delta s.1 x in (cache, vec_push s.2 (x.1, kv))) (cache, []) ds.

(** The maker of a fill hears of it here. *)
Definition publish_maker (ts : Z) (d : Desk) (r : SettleTradeEntry) : Desk :=
  let d := notify d (st_maker_uid r) (encode_order_update (wrap_u64 (st_maker_id r)) 0 WS_STATUS_PARTIAL_FILL
    (st_qty r) (st_price r) ts) 0 in
  publish_frame d (order_fill_update (st_maker_id r) (st_qty r) (DbOrderStatus.as_u8 DbOrderStatus.Trading)).

Definition publish_updated (d : Desk) (x : (Z * bytes) * AccountBalance) : Desk :=
  let bal := AccountBalance.balance x.2 in
  let frz := AccountBalance.frozen x.2 in
  notify_balance (publish_account d x.1.1 x.1.2 bal frz) x.1.1 x.1.2 bal frz.

Definition is_resolved (e : SettleTradeEntry) : bool := negb (Z.eqb (st_taker_uid e) 0) && negb (Z.eqb (st_maker_uid e) 0).

(** [BatchSettleTrade]: [ts_ms] and [ts] are the two readings of the clock. *)
Definition batch_settle_trade `{HashIter} (d : Desk) (ts_ms ts : Z) (entries : list SettleTradeEntry) : option Desk :=
  d ← mfold settle_maker d entries;
  let resolved := List.filter is_resolved entries in
  let d := publish_frames d (omap (trade_event ts_ms) entries) in
  match resolved with
  | [] => Some d
  | _ =>
      let '(deltas, vwap) := foldl accumulate (∅, dk_vwap d) resolved in
      let d := Desk.set_vwap d vwap in
      let '(cache, updated_accounts) := apply_deltas (dk_accounts d) (iter_map deltas) in
      let d := Desk.set_accounts d cache in
      let d := foldl (publish_maker ts) d resolved in
      Some (foldl publish_updated d updated_accounts)
  end.

(** [process_db_cmd]: [now_ms] and [ts_us] are the clock readings. *)
Definition process_db_cmd `{HashIter} (now_ms ts_us : Z) (d : Desk) (cmd : DbCmd) : option Desk :=
  match cmd with
  | UpsertOrder row => Some (publish_frame d (order_fill_update (oi_id row) (oi_filled row) (oi_status row)))
  | BatchUpsertOrder entries => Some (batch_upsert_order d now_ms entries)
  | UpdateStatus id status filled => Some (publish_frame d (order_fill_update id filled status))
  | BatchCancelConfirmed entries => Some (batch_cancel_confirmed d entries)
  | ReleaseReservation user_id symbol side qty freeze_price =>
      Some (release_reservation d user_id symbol side qty freeze_price)
  | BatchSettleTrade entries => batch_settle_trade d now_ms ts_us entries
  | BatchDeleteOrder ids => Some (publish_frames d (order_delete <$> ids))
  end.

(** ** Specification of settlement

    [net ms k]: the exact change of account [k] by the movements [ms];
    [total c a]: the sum of the balances in asset [a]. *)

Definition at_key (k k' : Z * bytes) (v : Z) : Z := if decide (k = k') then v else 0.

Definition movement_net (m : Movement) (k : Z * bytes) : Z :=
  at_key k (mv_buyer m, mv_quote m) (- mv_cost_atoms m) + at_key k (mv_buyer m, mv_base m) (mv_qty_atoms m)
  + at_key k (mv_seller m, mv_base m) (- mv_qty_atoms m) + at_key k (mv_seller m, mv_quote m) (mv_cost_atoms m).

Definition movement_release (m : Movement) (k : Z * bytes) : Z :=
  at_key k (mv_buyer m, mv_quote m) (mv_cost_atoms m) + at_key k (mv_seller m, mv_base m) (mv_qty_atoms m).

Definition zsum {A} (f : A -> Z) (l : list A) : Z := foldr (fun x acc => f x + acc) 0 l.

Definition net (ms : list Movement) (k : Z * bytes) : Z := zsum (fun m => movement_net m k) ms.

Definition account_at (c : AccountCache) (k : Z * bytes) : AccountBalance :=
  default (mkAccountBalance 0 0) (account_of c k.1 k.2).
Definition balance_at (c : AccountCache) (k : Z * bytes) : Z := ab_balance_atoms (account_at c k).

Definition asset_balance (asset : bytes) (accounts : gmap bytes AccountBalance) : Z :=
  match accounts !! asset with Some kv => ab_balance_atoms kv | None => 0 end.

Definition total (c : AccountCache) (asset : bytes) : Z := msum (fun _ accounts => asset_balance asset accounts) c.

(** *** Sums *)

Lemma zsum_app {A} (f : A -> Z) l1 l2 : zsum f (l1 ++ l2) = zsum f l1 + zsum f l2.
Proof. induction l1 as [|x l1 IH]; simpl; [done|]. rewrite IH. lia. Qed.

Lemma zsum_add {A} (f g : A -> Z) l : zsum (fun x => f x + g x) l = zsum f l + zsum g l.
Proof. induction l as [|x l IH]; simpl; [done|]. rewrite IH. lia. Qed.

Lemma zsum_ext {A} (f g : A -> Z) l : (forall x, x ∈ l -> f x = g x) -> zsum f l = zsum g l.
Proof.
  induction l as [|x l IH]; intros H; simpl; [done|].
  rewrite (H x), IH; [done| |set_solver]. intros y Hy. apply H. set_solver.
Qed.

Lemma zsum_zero {A} (f : A -> Z) l : (forall x, x ∈ l -> f x = 0) -> zsum f l = 0.
Proof. intros H. rewrite (zsum_ext f (fun _ => 0)) by done. induction l; simpl; [done|]. apply IHl. set_solver. Qed.

(** The sum of a function that is zero but at one key. *)
Lemma zsum_at_key k0 v (ks : list (Z * bytes)) : NoDup ks ->
  zsum (fun k => at_key k k0 v) ks = if decide (k0 ∈ ks) then v else 0.
Proof.
  induction 1 as [|k ks Hk _ IH]; cbn [zsum foldr]; [by destruct (decide _) as [?%not_elem_of_nil|]|].
  fold (zsum (fun k => at_key k k0 v) ks). rewrite IH. unfold at_key. destruct (decide (k = k0)) as [->|Hne].
  - rewrite !(decide_True (P := k0 ∈ k0 :: ks)) by set_solver. rewrite decide_False by done. lia.
  - destruct (decide (k0 ∈ ks)); [rewrite decide_True by set_solver|rewrite decide_False by set_solver]; lia.
Qed.

(** *** The map of deltas *)

Definition delta_at (ds : Deltas) (k : Z * bytes) : Delta := default Delta_default (ds !! k).

Lemma delta_at_add ds k b f k' :
  delta_at (add_delta ds k b f) k' =
    if decide (k' = k)
    then mkDelta (i64_add (dl_balance_atoms (delta_at ds k)) b) (i64_add (dl_frozen_release_atoms (delta_at ds k)) f)
    else delta_at ds k'.
Proof.
  unfold delta_at at 1, add_delta. destruct (decide (k' = k)) as [->|Hne].
  - by rewrite lookup_insert_eq.
  - by rewrite lookup_insert_ne.
Qed.

(** Balances accumulate the exact net, reduced to the machine width. *)
Lemma add_delta_balance ds k b f k' : eq64 (dl_balance_atoms (delta_at (add_delta ds k b f) k'))
  (dl_balance_atoms (delta_at ds k') + at_key k' k b).
Proof.
  rewrite delta_at_add. unfold at_key. destruct (decide (k' = k)) as [->|]; simpl.
  - unfold i64_add. by rewrite wrap_i64_eq64.
  - by rewrite Z.add_0_r.
Qed.

Lemma add_movement_balance ds m k : eq64 (dl_balance_atoms (delta_at (add_movement ds m) k))
  (dl_balance_atoms (delta_at ds k) + movement_net m k).
Proof. unfold add_movement. rewrite !add_delta_balance. apply eq64_refl_by. unfold movement_net. lia. Qed.

Lemma deltas_net ms ds k : eq64 (dl_balance_atoms (delta_at (foldl add_movement ds ms) k))
  (dl_balance_atoms (delta_at ds k) + net ms k).
Proof.
  revert ds. induction ms as [|m ms IH]; intros ds; cbn [foldl].
  - by rewrite Z.add_0_r.
  - rewrite IH, add_movement_balance. apply eq64_refl_by. unfold net. simpl. lia.
Qed.

Lemma add_delta_range ds k b f : (forall k, in_i64 (dl_balance_atoms (delta_at ds k))) ->
  forall k', in_i64 (dl_balance_atoms (delta_at (add_delta ds k b f) k')).
Proof.
  intros H k'. rewrite delta_at_add. destruct (decide (k' = k)); simpl; [apply wrap_i64_range|apply H].
Qed.

Lemma deltas_range ms ds : (forall k, in_i64 (dl_balance_atoms (delta_at ds k))) ->
  forall k, in_i64 (dl_balance_atoms (delta_at (foldl add_movement ds ms) k)).
Proof.
  revert ds. induction ms as [|m ms IH]; intros ds H; cbn [foldl]; [done|]. apply IH.
  unfold add_movement. by repeat apply add_delta_range.
Qed.

(** The deltas of a batch are exact when the nets fit. *)
Lemma deltas_exact ms k : in_i64 (net ms k) ->
  dl_balance_atoms (delta_at (foldl add_movement ∅ ms) k) = net ms k.
Proof.
  intros H. apply eq64_range; [|apply deltas_range|done].
  - rewrite deltas_net. by apply eq64_refl_by.
  - intros j. unfold delta_at. rewrite lookup_empty. unfold in_i64, i64_min, i64_max. simpl. lia.
Qed.

Definition movement_keys (m : Movement) : gset (Z * bytes) :=
  {[(mv_buyer m, mv_quote m); (mv_buyer m, mv_base m); (mv_seller m, mv_base m); (mv_seller m, mv_quote m)]}.

Lemma deltas_dom ms ds : dom (foldl add_movement ds ms) = dom ds ∪ ⋃ (movement_keys <$> ms).
Proof.
  revert ds. induction ms as [|m ms IH]; intros ds; cbn [foldl]; [set_solver|].
  rewrite IH. unfold add_movement, add_delta. rewrite !dom_insert_L. simpl. set_solver.
Qed.

(** A movement moves an asset between two accounts. *)
Lemma movement_balanced m asset (ks : list (Z * bytes)) : NoDup ks ->
  (forall k, k ∈ movement_keys m -> k.2 = asset -> k ∈ ks) -> (forall k, k ∈ ks -> k.2 = asset) ->
  zsum (movement_net m) ks = 0.
Proof.
  intros Hnd Hin Has. unfold movement_net.
  rewrite !zsum_add, !zsum_at_key by done.
  assert (Hk : forall k v, k ∈ movement_keys m ->
            (if decide (k ∈ ks) then v else 0) = if decide (k.2 = asset) then v else 0).
  { intros k v Hm. apply decide_ext. split; eauto. }
  rewrite !Hk by (unfold movement_keys; set_solver). cbn [snd].
  destruct (decide (mv_quote m = asset)); destruct (decide (mv_base m = asset)); lia.
Qed.

Lemma net_balanced ms asset (ks : list (Z * bytes)) : NoDup ks ->
  (forall k m, m ∈ ms -> k ∈ movement_keys m -> k.2 = asset -> k ∈ ks) -> (forall k, k ∈ ks -> k.2 = asset) ->
  zsum (net ms) ks = 0.
Proof.
  intros Hnd Hin Has. induction ms as [|m ms IH]; [by apply zsum_zero|].
  rewrite (zsum_ext _ (fun k => movement_net m k + net ms k)) by done. rewrite zsum_add, IH by set_solver.
  rewrite (movement_balanced m asset) by set_solver. done.
Qed.

(** *** Applying the deltas *)

Lemma put_same c uid asset kv : account_of c uid asset = Some kv -> put_account c uid asset kv = c.
Proof.
  unfold account_of, put_account. destruct (c !! uid) as [m|] eqn:Hm; [|done]. cbn. intros Hk.
  rewrite (insert_id m) by done. by apply insert_id.
Qed.

Lemma account_at_put c u a kv k : account_at (put_account c u a kv) k = if decide (k = (u, a)) then kv else account_at c k.
Proof.
  destruct k as [u' a']. unfold account_at, account_of, put_account. cbn [fst snd].
  destruct (decide (u' = u)) as [->|Hu].
  - rewrite lookup_insert_eq. cbn [mbind option_bind]. destruct (decide (a' = a)) as [->|Ha].
    + rewrite lookup_insert_eq, decide_True by done. done.
    + rewrite lookup_insert_ne, decide_False by congruence. by destruct (c !! u).
  - rewrite lookup_insert_ne, decide_False by congruence. done.
Qed.

Lemma total_put c u a kv asset :
  total (put_account c u a kv) asset = total c asset + at_key (u, asset) (u, a) (ab_balance_atoms kv - balance_at c (u, a)).
Proof.
  unfold total, put_account. rewrite msum_upsert. cbv beta.
  assert (Ho : from_option (fun accounts => asset_balance asset accounts) 0 (c !! u) = balance_at c (u, asset)).
  { unfold balance_at, account_at, account_of, asset_balance. cbn [fst snd].
    destruct (c !! u) as [m|]; [cbn; by destruct (m !! asset)|done]. }
  rewrite Ho. unfold at_key, asset_balance. destruct (decide ((u, asset) = (u, a))) as [[= ->]|Hne].
  - rewrite lookup_insert_eq. lia.
  - rewrite lookup_insert_ne by congruence. fold (asset_balance asset (default ∅ (c !! u))).
    rewrite <- Ho. destruct (c !! u); simpl; unfold asset_balance; rewrite ?lookup_empty; lia.
Qed.

(** The accounts after a list of deltas with distinct keys. *)
Lemma apply_deltas_fst c ds r : (foldl (fun s x =>
    let '(cache, kv) := apply_delta s.1 x in (cache, vec_push s.2 (x.1, kv))) (c, r) ds).1
  = foldl (fun c x => (apply_delta c x).1) c ds.
Proof. revert c r. induction ds as [|x ds IH]; intros c r; simpl; [done|]. destruct (apply_delta c x). apply IH. Qed.

Definition applied (a : AccountBalance) (d : Delta) : AccountBalance :=
  AccountBalance.apply_atoms_delta a (dl_balance_atoms d) (dl_frozen_release_atoms d).

Lemma apply_delta_fst c k d : (apply_delta c (k, d)).1 = put_account c k.1 k.2 (applied (account_at c k) d).
Proof. by destruct k. Qed.

Lemma apply_deltas_at c (ds : list ((Z * bytes) * Delta)) k : NoDup ds.*1 ->
  account_at (foldl (fun c x => (apply_delta c x).1) c ds) k =
    match list_to_map (M := Deltas) ds !! k with Some d => applied (account_at c k) d | None => account_at c k end.
Proof.
  revert c. induction ds as [|[k0 d0] ds IH]; intros c Hnd; [done|].
  apply NoDup_cons in Hnd as [Hk Hnd]. cbn [foldl list_to_map foldr]. rewrite IH, apply_delta_fst, account_at_put by done.
  rewrite <- surjective_pairing. cbn [fst snd]. destruct (decide (k = k0)) as [->|Hne].
  - rewrite lookup_insert_eq. by rewrite not_elem_of_list_to_map_1.
  - by rewrite lookup_insert_ne.
Qed.

Lemma total_deltas c (ds : list ((Z * bytes) * Delta)) asset : NoDup ds.*1 ->
  total (foldl (fun c x => (apply_delta c x).1) c ds) asset =
    total c asset + zsum (fun x => ab_balance_atoms (applied (account_at c x.1) x.2) - balance_at c x.1)
                      (filter (fun x => x.1.2 = asset) ds).
Proof.
  revert c. induction ds as [|[[u a] d0] ds IH]; intros c Hnd; [simpl; lia|].
  apply NoDup_cons in Hnd as [Hk Hnd]. cbn [foldl]. rewrite IH, apply_delta_fst, total_put by done. cbn [fst snd].
  rewrite (zsum_ext _ (fun x => ab_balance_atoms (applied (account_at c x.1) x.2) - balance_at c x.1)).
  2:{ intros [k d] [_ Hin]%list_elem_of_filter. unfold balance_at. rewrite !account_at_put. cbn [fst snd].
      rewrite decide_False; [done|]. intros ->. apply Hk. apply list_elem_of_fmap. by exists ((u, a), d). }
  rewrite filter_cons. unfold at_key. cbn [fst snd]. destruct (decide (a = asset)) as [->|Hne].
  - rewrite decide_True by done. cbn [zsum foldr fst snd]. unfold zsum. lia.
  - rewrite decide_False by congruence. lia.
Qed.

(** *** What publishing leaves alone *)

Lemma foldl_keep {A B C} (f : A -> B -> A) (g : A -> C) a l : (forall a b, g (f a b) = g a) -> g (foldl f a l) = g a.
Proof. intros H. revert a. induction l as [|b l IH]; intros a; simpl; [done|]. by rewrite IH. Qed.

Lemma publish_frame_accounts d ev : dk_accounts (publish_frame d ev) = dk_accounts d.
Proof. unfold publish_frame. by case_match. Qed.

Lemma publish_frames_accounts d evs : dk_accounts (publish_frames d evs) = dk_accounts d.
Proof. apply foldl_keep, publish_frame_accounts. Qed.

Lemma notify_accounts d u p t : dk_accounts (notify d u p t) = dk_accounts d.
Proof. unfold notify. by case_match. Qed.

Lemma publish_account_accounts d u a b f : dk_accounts (publish_account d u a b f) = dk_accounts d.
Proof. unfold publish_account. case_match; [apply publish_frame_accounts|done]. Qed.

Create HintDb desk.
#[export] Hint Rewrite publish_frame_accounts publish_frames_accounts notify_accounts publish_account_accounts : desk.

Lemma publish_maker_accounts ts d r : dk_accounts (publish_maker ts d r) = dk_accounts d.
Proof. unfold publish_maker. by autorewrite with desk. Qed.

Lemma publish_updated_accounts d x : dk_accounts (publish_updated d x) = dk_accounts d.
Proof. unfold publish_updated, notify_balance. by autorewrite with desk. Qed.

Lemma settle_maker_accounts d e d' : settle_maker d e = Some d' -> dk_accounts d' = dk_accounts d.
Proof.
  unfold settle_maker. intros H.
  repeat (case_match || (apply bind_Some in H as (? & ? & H))); simplify_eq; autorewrite with desk; done.
Qed.

Lemma settle_makers_accounts d es d' : mfold settle_maker d es = Some d' -> dk_accounts d' = dk_accounts d.
Proof.
  revert d. induction es as [|e es IH]; intros d; simpl; [by intros [= ->]|].
  intros (d1 & H1 & H2)%bind_Some. apply settle_maker_accounts in H1. apply IH in H2. congruence.
Qed.

Lemma accumulate_deltas s rs : (foldl accumulate s rs).1 = foldl add_movement s.1 (omap movement rs).
Proof.
  revert s. induction rs as [|r rs IH]; intros s; [done|]. cbn [foldl]. rewrite IH. unfold accumulate.
  cbn [omap list_omap]. by destruct (movement r).
Qed.

(** The cache after a batch: its deltas, in the order of the hash map. *)
Lemma batch_settle_accounts `{HashIter} d ts_ms ts entries d' :
  batch_settle_trade d ts_ms ts entries = Some d' ->
  dk_accounts d' = foldl (fun c x => (apply_delta c x).1) (dk_accounts d)
    (iter_map (foldl add_movement ∅ (omap movement (List.filter is_resolved entries)))).
Proof.
  unfold batch_settle_trade. intros (d1 & H1%settle_makers_accounts & H2)%bind_Some.
  destruct (List.filter is_resolved entries) as [|r rs] eqn:Hr.
  - simplify_eq. autorewrite with desk. rewrite H1. cbn [omap list_omap foldl].
    pose proof (iter_map_perm (∅ : Deltas)) as Hp. rewrite map_to_list_empty in Hp.
    apply Permutation_nil_r in Hp. by rewrite Hp.
  - destruct (foldl accumulate _ (r :: rs)) as [deltas vwap] eqn:Ha.
    destruct (apply_deltas _ _) as [cache updated] eqn:Hu. simplify_eq.
    rewrite (foldl_keep publish_updated) by apply publish_updated_accounts.
    rewrite (foldl_keep (publish_maker ts)) by apply publish_maker_accounts.
    cbn [Desk.set_accounts Desk.set_vwap dk_accounts] in *.
    pose proof (apply_deltas_fst (dk_accounts d) (iter_map deltas) []) as Hf.
    autorewrite with desk in Hu. unfold apply_deltas in Hu. rewrite H1 in Hu. rewrite Hu in Hf. cbn [fst] in Hf.
    rewrite Hf. pose proof (accumulate_deltas (∅, dk_vwap (publish_frames d1 (omap (trade_event ts_ms) entries))) (r :: rs)) as Hd.
    rewrite Ha in Hd. cbn [fst] in Hd. by rewrite Hd.
Qed.

Lemma iter_map_keys `{HashIter} (ds : Deltas) : NoDup (iter_map ds).*1.
Proof. rewrite iter_map_perm. apply NoDup_fst_map_to_list. Qed.

Lemma iter_map_list_to_map `{HashIter} (ds : Deltas) : list_to_map (iter_map ds) = ds.
Proof.
  etransitivity; [|apply list_to_map_to_list]. apply list_to_map_proper; [apply iter_map_keys|apply iter_map_perm].
Qed.

Lemma filter_keys_NoDup {A B} (P : A * B -> Prop) `{!forall x, Decision (P x)} (l : list (A * B)) :
  NoDup l.*1 -> NoDup (filter P l).*1.
Proof.
  induction l as [|x l IH]; [done|]. intros [Hx Hl]%NoDup_cons. rewrite filter_cons.
  destruct (decide (P x)); [|auto]. apply NoDup_cons. split; [|auto].
  intros Hf. apply Hx. apply list_elem_of_fmap in Hf as (y & -> & [_ Hy]%list_elem_of_filter).
  apply list_elem_of_fmap. eauto.
Qed.

(** A delta that keeps the balance in range is added exactly. *)
Lemma applied_balance a d : 0 <= ab_balance_atoms a + dl_balance_atoms d <= i64_max ->
  ab_balance_atoms (applied a d) = ab_balance_atoms a + dl_balance_atoms d.
Proof.
  intros Hb. unfold applied, AccountBalance.apply_atoms_delta, AccountBalance.release_atoms.
  assert (Hs : Z.max (i64_saturating_add (ab_balance_atoms a) (dl_balance_atoms d)) 0
               = ab_balance_atoms a + dl_balance_atoms d).
  { unfold i64_saturating_add, i64_clamp. unfold i64_min, i64_max in *. lia. }
  case_match; simpl; exact Hs.
Qed.

Section settlement.
Context `{HashIter} (c : AccountCache) (ms : list Movement).
Hypothesis in_range : forall k, in_i64 (net ms k) /\ 0 <= balance_at c k + net ms k <= i64_max.

Let deltas : Deltas := foldl add_movement ∅ ms.
Let after : AccountCache := foldl (fun c x => (apply_delta c x).1) c (iter_map deltas).

Lemma delta_net k d : deltas !! k = Some d -> dl_balance_atoms d = net ms k.
Proof.
  intros Hd. rewrite <- deltas_exact by apply in_range. unfold delta_at. fold deltas. by rewrite Hd.
Qed.

Lemma settled_balance k : balance_at after k = balance_at c k + net ms k.
Proof.
  unfold balance_at, after. rewrite apply_deltas_at by apply iter_map_keys. rewrite iter_map_list_to_map.
  destruct (deltas !! k) as [d|] eqn:Hd.
  - rewrite applied_balance; [by rewrite (delta_net k)|]. rewrite (delta_net k) by done. apply in_range.
  - rewrite <- deltas_exact by apply in_range. unfold delta_at. fold deltas. rewrite Hd. simpl. lia.
Qed.

Lemma settled_total asset : total after asset = total c asset.
Proof.
  unfold after. rewrite total_deltas by apply iter_map_keys.
  set (l := filter _ _). enough (zsum (net ms) l.*1 = 0) as Hz.
  { rewrite <- (Z.add_0_r (total c asset)) at 2. f_equal. rewrite <- Hz. clear Hz.
    assert (Hl : forall x, x ∈ l -> x ∈ iter_map deltas) by (intros x [_ Hx]%list_elem_of_filter; exact Hx).
    clearbody l. induction l as [|[k d] l IH]; [done|]. cbn [zsum foldr fmap list_fmap fst snd]. f_equal.
    - assert (deltas !! k = Some d) as Hd.
      { apply elem_of_map_to_list. rewrite <- iter_map_perm. apply Hl. by left. }
      rewrite applied_balance; rewrite (delta_net k d) by done; [unfold balance_at; lia|apply in_range].
    - apply IH. intros x Hx. apply Hl. by right. }
  apply (net_balanced ms asset).
  - subst l. apply filter_keys_NoDup, iter_map_keys.
  - intros k m Hm Hk Ha. assert (k ∈ dom deltas) as Hd.
    { unfold deltas. rewrite deltas_dom. apply elem_of_union_r, elem_of_union_list.
      exists (movement_keys m). split; [|done]. apply list_elem_of_fmap. eauto. }
    apply elem_of_dom in Hd as [d Hd]. apply list_elem_of_fmap. exists (k, d). split; [done|]. subst l.
    apply list_elem_of_filter. split; [done|]. rewrite iter_map_perm. by apply elem_of_map_to_list.
  - intros k Hk. subst l. apply list_elem_of_fmap in Hk as ([k' d] & -> & Hx). by apply list_elem_of_filter in Hx as [? _].
Qed.
End settlement.

(** C3: settling a batch of fills adds to every account exactly the net of the
    fills, in whatever order the hash map of the deltas is visited, and keeps
    the total of every asset, provided that no balance leaves [0 .. i64::MAX]
    and no net overflows. *)
Theorem settlement_conserves `{HashIter} d ts_ms ts entries d' :
  batch_settle_trade d ts_ms ts entries = Some d' ->
  let ms := omap movement (List.filter is_resolved entries) in
  (forall k, in_i64 (net ms k) /\ 0 <= balance_at (dk_accounts d) k + net ms k <= i64_max) ->
  (forall k, balance_at (dk_accounts d') k = balance_at (dk_accounts d) k + net ms k) /\
  (forall asset, total (dk_accounts d') asset = total (dk_accounts d) asset).
Proof.
  intros Hs ms Hr. rewrite (batch_settle_accounts _ _ _ _ _ Hs).
  split; intros x; [by apply settled_balance|by apply settled_total].
Qed.

(** *** The range condition, decided *)

Definition balances_ok (c : AccountCache) : Prop :=
  map_Forall (fun _ m => map_Forall (fun _ kv => 0 <= ab_balance_atoms kv <= i64_max) m) c.

Definition batch_in_range (c : AccountCache) (ms : list Movement) : Prop :=
  balances_ok c /\
  Forall (fun k => i64_min <= net ms k <= i64_max /\ 0 <= balance_at c k + net ms k <= i64_max)
    (elements (⋃ (movement_keys <$> ms))).

#[global] Instance batch_in_range_dec c ms : Decision (batch_in_range c ms).
Proof. unfold batch_in_range, balances_ok. apply _. Defined.

Lemma net_outside ms k : k ∉ ⋃ (movement_keys <$> ms) -> net ms k = 0.
Proof.
  intros Hk. apply zsum_zero. intros m Hm. unfold movement_net, at_key.
  assert (Hkm : k ∉ movement_keys m).
  { intros Hin. apply Hk, elem_of_union_list. exists (movement_keys m). split; [|done]. apply list_elem_of_fmap. eauto. }
  unfold movement_keys in Hkm. by repeat rewrite decide_False by set_solver.
Qed.

Lemma batch_in_range_sound c ms : batch_in_range c ms ->
  forall k, in_i64 (net ms k) /\ 0 <= balance_at c k + net ms k <= i64_max.
Proof.
  intros [Hb Hf] k. destruct (decide (k ∈ ⋃ (movement_keys <$> ms))) as [Hin|Hout].
  - rewrite Forall_forall in Hf. apply Hf. by apply elem_of_elements.
  - rewrite net_outside by done. unfold in_i64, balance_at, account_at, account_of.
    destruct (c !! k.1) as [m|] eqn:Hm; cbn; [|unfold i64_min, i64_max; lia].
    destruct (m !! k.2) as [kv|] eqn:Hkv; cbn; [|unfold i64_min, i64_max; lia].
    specialize (Hb _ _ Hm _ _ Hkv). cbv beta in Hb. unfold i64_min, i64_max in *. lia.
Qed.

(** A desk with two users; user 1 has quote asset, user 2 has base asset. *)
Definition demo_wiring : Wiring :=
  mkWiring (fun _ => None) ∅ {[1; 2]} {[str "BTC_USDT"]} {[0; 1; 2; 3]} [] 100 7.
Definition demo_accounts : AccountCache :=
  {[1 := {[str "USDT" := mkAccountBalance 100000000000 5000000000]};
    2 := {[str "BTC" := mkAccountBalance 100000000 50000000]}]}.
Definition demo_desk (accounts : AccountCache) : Desk :=
  mkDesk demo_wiring accounts RiskEngine.new ∅ (mkOrderTables ∅ ∅ ∅ ∅ ∅ ∅) [] 0 [].
(** User 1 takes 0.5 BTC at 100 from user 2. *)
Definition demo_fill : SettleTradeEntry :=
  mkSettleTradeEntry 11 12 1 2 (f64_to_bits (i64_as_f64 100)) (f64_to_bits (f64_lit 1 2)) 0 (pack_str 16 (str "BTC_USDT")).

Lemma settlement_conserves_witness :
  exists d', batch_settle_trade (demo_desk demo_accounts) 5 6 [demo_fill] = Some d' /\
    balance_at (dk_accounts d') (1, str "USDT") = 95000000000 /\
    balance_at (dk_accounts d') (2, str "USDT") = 5000000000 /\
    total (dk_accounts d') (str "BTC") = total demo_accounts (str "BTC").
Proof.
  destruct (batch_settle_trade (demo_desk demo_accounts) 5 6 [demo_fill]) as [d'|] eqn:E.
  - exists d'. destruct (settlement_conserves _ _ _ _ _ E) as [Hb Ht].
    { apply batch_in_range_sound, (bool_decide_unpack (batch_in_range _ _)). vm_compute. exact I. }
    split; [done|]. rewrite !Hb, Ht. split; [vm_compute; reflexivity|]. split; vm_compute; reflexivity.
  - vm_compute in E. discriminate E.
Defined.

(** The margin of an order is a tenth of its notional, but settlement takes the
    whole cost from the buyer's balance and clamps it at zero: a fill larger
    than the balance creates quote asset, and leaves the buyer's frozen amount
    negative.  User 1 has 10 USDT, 5 of them frozen for the margin. *)
Lemma leveraged_fill_mints :
  let accounts : AccountCache :=
    {[1 := {[str "USDT" := mkAccountBalance 1000000000 500000000]};
      2 := {[str "USDT" := mkAccountBalance 1000000000 500000000]}]} in
  option_map (fun d => (balance_at (dk_accounts d) (1, str "USDT"),
                        ab_frozen_atoms (account_at (dk_accounts d) (1, str "USDT")),
                        total (dk_accounts d) (str "USDT"), total (dk_accounts d) (str "BTC")))
    (batch_settle_trade (demo_desk accounts) 5 6 [demo_fill])
  = Some (0, -4500000000, 6000000000, 50000000) /\
  total accounts (str "USDT") = 2000000000 /\ total accounts (str "BTC") = 0.
Proof. split; [|split]; vm_compute; reflexivity. Qed.
