(* ===== verification/DeskSend.v ===== *)
(** The desk's send thread ([src/src/bin/desk_server.rs], the loop of the
    "send" spin thread): liquidation orders, orders and cancels forwarded by
    other desks, messages this desk forwards to the owner of a user, and the
    commands of its own sessions.

    Whether a publication accepts a message is an argument.  The main theorem
    says that a forwarded order is all or nothing: either it is handed to the
    engine with its margin reserved and its funds frozen, or the books and the
    tables are exactly what they were. *)
From Stdlib Require Import ZArith Lia String.
From stdpp Require Import base numbers list gmap.
From S2P Require Import Prelude Bytes Fixed Types F64 Text Money RiskCalc RiskEngine RiskTyped SymbolRules Pod Sbe WsSbe Routing PersistEvent CounterForward Desk.

#[local] Open Scope Z_scope.

(** ** Symbols of requests *)

(** [trim_end_matches('\0')] *)
Fixpoint drop_nuls (bs : bytes) : bytes :=
  match bs with
  | b :: bs' => if Z.eqb b 0 then drop_nuls bs' else bs
  | [] => []
  end.
Definition trim_nuls (bs : bytes) : bytes := reverse (drop_nuls (reverse bs)).

Definition request_symbol (symbol : bytes) : bytes := trim_nuls (default [] (from_utf8 symbol)).

Definition map_meta (d : Desk) (f : gmap Z OrderRuntimeMeta -> gmap Z OrderRuntimeMeta) : Desk :=
  Desk.set_orders d (OrderTables.set_meta (dk_orders d) (f (ot_meta (dk_orders d)))).

Definition map_pending_meta (d : Desk) (f : gmap Z OrderMeta -> gmap Z OrderMeta) : Desk :=
  Desk.set_orders d (OrderTables.set_pending_meta (dk_orders d) (f (ot_pending_meta (dk_orders d)))).

Definition map_origin (d : Desk) (f : gmap Z Z -> gmap Z Z) : Desk :=
  Desk.set_orders d (OrderTables.set_origin (dk_orders d) (f (ot_origin (dk_orders d)))).

(** [order_pubs.get_mut(sym)] *)
Definition has_engine (d : Desk) (sym : bytes) : bool := bool_decide (sym ∈ w_engines (dk_wiring d)).

(** ** Liquidation orders *)

Definition send_liquidation (d : Desk) (req : NewOrderRequest) : option Desk :=
  let order_id := nor_client_order_id req in
  let symbol := nor_symbol req in
  let sym := request_symbol symbol in
  sym_rules ← SymbolRules.for_symbol sym;
  let liq_ticks := match ot_pending_meta (dk_orders d) !! order_id with Some m => om_liq_price_ticks m | None => 0 end in
  let d := map_meta d (fun cache =>
    remember_runtime_order cache order_id (wrap_i64 (nor_participant_id req)) (f64_to_bits f64_zero)
      (f64_to_bits (SymbolRules.lots_to_quantity sym_rules (nor_quantity_lots req))) (nor_side req) symbol 0) in
  let d := if negb (Z.eqb liq_ticks 0) then map_meta d (fun cache => set_liq_price cache order_id liq_ticks) else d in
  Some (if has_engine d sym then Desk.send d (ToEngine sym req) else d).

(** ** Orders forwarded by another desk *)

(** The closure [reject]: the refusal goes back to the desk of the session. *)
Definition reject_forwarded (d : Desk) (ingress_desk_id user_id order_id : Z) (reason : bytes) : option Desk :=
  frame ← CounterForwardWsFrame.new user_id order_id (encode_order_rejected 0 reason);
  Some match frame with
       | Some frame =>
           if bool_decide (ingress_desk_id ∈ w_peers (dk_wiring d)) then Desk.send d (ToIngress ingress_desk_id frame) else d
       | None => d
       end.

(** The checks before the reservation, in order; [Err] is the reason of the
    refusal. *)
Definition forwarded_checks (d : Desk) (rules : SymbolRules) (sym : bytes) (user_id : Z) (req : NewOrderRequest)
  : option (result unit string) :=
  let symbol := nor_symbol req in
  let qty := nor_quantity_lots req in
  match RiskEngine.check_position_limit (dk_risk d) user_id symbol qty (sr_max_position_lots rules) with
  | Err e => Some (Err e)
  | Ok _ =>
  match RiskEngine.check_symbol_oi_limit (dk_risk d) symbol qty (sr_max_symbol_oi_lots rules) with
  | Err e => Some (Err e)
  | Ok _ =>
  if Z.eqb (nor_reduce_only req) 0 && ExchangeConfig.is_halted (w_config (dk_wiring d)) sym
  then Some (Err "trading halted for this symbol"%string)
  else
  match (if negb (Z.eqb (nor_reduce_only req) 0)
         then RiskEngine.check_reduce_only (dk_risk d) user_id symbol (nor_side req) qty else Ok 0) with
  | Err e => Some (Err e)
  | Ok _ =>
      order_notional ← calc_notional_atoms (nor_price_ticks req) qty (sr_notional_scale rules);
      RiskEngine.check_leverage_tier (dk_risk d) user_id symbol order_notional (sr_notional_scale rules)
        (w_tiers (dk_wiring d)) (sr_default_leverage rules)
  end
  end
  end.

(** The order in the tables. *)
Definition enter_forwarded (d : Desk) (order_id user_id ingress_desk_id side : Z) (symbol : bytes)
  (meta : CounterForwardOrderMeta) : Desk :=
  let d := map_meta d (fun cache => remember_runtime_order cache order_id user_id (cfm_freeze_price meta)
             (cfm_qty meta) side symbol (cfm_initial_margin_atoms meta)) in
  let d := map_pending_meta d (<[order_id := order_meta_from_forward meta]>) in
  map_origin d (<[order_id := ingress_desk_id]>).

(** Everything an order left in the tables and the books. *)
Definition undo_forwarded (d : Desk) (order_id user_id initial_margin_atoms : Z) (quote_asset : bytes)
  (margin_usdt : f64) : Desk :=
  let d := map_pending_meta d (delete order_id) in
  let d := map_origin d (delete order_id) in
  let d := map_meta d (fun cache => remove_runtime_order cache order_id order_id) in
  let d := Desk.set_risk d (RiskEngine.release_order_margin (dk_risk d) user_id initial_margin_atoms) in
  Desk.set_accounts d (release_cache_frozen (dk_accounts d) user_id quote_asset margin_usdt).

(** [published]: the engine's publication took the order. *)
Definition send_forwarded (d : Desk) (published : bool) (fwd : CounterForwardNewOrder) : option Desk :=
  let ingress_desk_id := cfn_ingress_desk_id fwd in
  let req := cfn_req fwd in
  let meta := cfn_meta fwd in
  let order_id := nor_client_order_id req in
  let user_id := wrap_i64 (nor_participant_id req) in
  let symbol := nor_symbol req in
  let sym := request_symbol symbol in
  let quote_asset := match split_once 95 sym with Some (_, q) => q | None => str "USDT" end in
  let initial_margin_atoms := cfm_initial_margin_atoms meta in
  let margin_usdt := f64_div (i64_as_f64 initial_margin_atoms) (i64_as_f64 100000000) in
  let reject d reason := reject_forwarded d ingress_desk_id user_id order_id reason in
  fwd_rules ← SymbolRules.for_symbol sym;
  checked ← forwarded_checks d fwd_rules sym user_id req;
  match checked with
  | Err reason => reject d (str reason)
  | Ok _ =>
      match RiskEngine.check_and_reserve_margin (dk_risk d) user_id initial_margin_atoms with
      | (_, Err reason) => reject d (str reason)
      | (risk, Ok _) =>
          let d := Desk.set_risk d risk in
          match try_freeze_cache (dk_accounts d) user_id quote_asset margin_usdt with
          | (cache, false) =>
              let d := Desk.set_accounts d cache in
              let d := Desk.set_risk d (RiskEngine.release_order_margin (dk_risk d) user_id initial_margin_atoms) in
              reject d (str "Insufficient balance")
          | (cache, true) =>
              let d := Desk.set_accounts d cache in
              let d := enter_forwarded d order_id user_id ingress_desk_id (nor_side req) symbol meta in
              if has_engine d sym then
                if published then Some (Desk.send d (ToEngine sym req))
                else reject (undo_forwarded d order_id user_id initial_margin_atoms quote_asset margin_usdt) (str "system busy")
              else
                reject (undo_forwarded d order_id user_id initial_margin_atoms quote_asset margin_usdt)
                  (str "No engine for symbol: " ++ sym)
          end
      end
  end.

(** ** Cancels *)

(** A cancel goes to the engine of the order's symbol; one whose order or
    engine is not known goes to every engine. *)
Definition route_cancel `{HashIter} (d : Desk) (req : CancelOrderRequest) : Desk :=
  let target :=
    m ← runtime_meta (ot_meta (dk_orders d)) (cor_order_id req);
    let sym := sym_or [] (rm_symbol m) in
    if has_engine d sym then Some sym else None in
  match target with
  | Some sym => Desk.send d (CancelAt sym req)
  | None => foldl (fun d sym => Desk.send d (CancelAt sym req)) d (iter_set (w_engines (dk_wiring d)))
  end.

(** A forwarded cancel names the public id of the order. *)
Definition send_forwarded_cancel `{HashIter} (d : Desk) (fwd : CounterForwardCancel) : Desk :=
  let req := cfc_req fwd in
  let req :=
    match ot_to_engine (dk_orders d) !! cor_order_id req with
    | Some engine_order_id =>
        mkCancelOrderRequest engine_order_id (cor_participant_id req) (cor_response_stream_id req) (cor_pad req)
    | None => req
    end in
  route_cancel d req.

Definition on_forward_cmd `{HashIter} (d : Desk) (published : bool) (msg : CounterForwardMsg) : option Desk :=
  match msg with
  | NewOrder fwd => send_forwarded d published fwd
  | Cancel fwd => Some (send_forwarded_cancel d fwd)
  | WsFrame _ => Some d
  end.

(** ** Forwarding to the owner of a user *)

Definition forward_to_owner (d : Desk) (published : bool) (msg : CounterForwardMsg) : Desk :=
  match msg with
  | NewOrder fwd =>
      let req := cfn_req fwd in
      let user_id := wrap_i64 (nor_participant_id req) in
      let owner := owner_shard_for_user_id user_id in
      if bool_decide (owner ∈ w_peers (dk_wiring d)) then
        if published then Desk.send d (ToOwner owner msg)
        else notify d user_id (encode_order_rejected (nor_client_order_id req) (str "system busy")) (nor_client_order_id req)
      else d
  | Cancel fwd =>
      let req := cfc_req fwd in
      let user_id := wrap_i64 (cor_participant_id req) in
      let owner := owner_shard_for_user_id user_id in
      if bool_decide (owner ∈ w_peers (dk_wiring d)) then
        if published then Desk.send d (ToOwner owner msg)
        else notify d user_id (encode_error (str "system busy")) (cor_order_id req)
      else d
  | WsFrame _ => d
  end.

(** ** Commands of the desk's own sessions *)

Inductive AeronCmd :=
| CmdNewOrder (req : NewOrderRequest)
| CmdCancel (req : CancelOrderRequest)
| CmdBatchCancel (reqs : list CancelOrderRequest)
| CmdBatchNewOrder (reqs : list NewOrderRequest).

(** The preliminary metadata; the margin comes with the acceptance. *)
Definition remember_request (d : Desk) (rules : SymbolRules) (req : NewOrderRequest) : Desk :=
  let prelim_freeze :=
    if Z.eqb (nor_side req) 0 then SymbolRules.ticks_to_price rules (nor_price_ticks req) else f64_zero in
  map_meta d (fun cache =>
    remember_runtime_order cache (nor_client_order_id req) (wrap_i64 (nor_participant_id req)) (f64_to_bits prelim_freeze)
      (f64_to_bits (SymbolRules.lots_to_quantity rules (nor_quantity_lots req))) (nor_side req) (nor_symbol req) 0).

Definition send_new_order (d : Desk) (req : NewOrderRequest) : option Desk :=
  let sym := request_symbol (nor_symbol req) in
  rules ← SymbolRules.for_symbol sym;
  let d := remember_request d rules req in
  Some (if has_engine d sym then Desk.send d (ToEngine sym req)
        else
          let coid := nor_client_order_id req in
          let d := map_pending_meta d (delete coid) in
          let d := map_meta d (fun cache => remove_runtime_order cache coid coid) in
          notify d (wrap_i64 (nor_participant_id req)) (encode_order_rejected 0 (str "No engine for symbol: " ++ sym)) 0).

(** In a batch an order without an engine is dropped silently. *)
Definition send_batch_order (d : Desk) (req : NewOrderRequest) : option Desk :=
  let sym := request_symbol (nor_symbol req) in
  rules ← SymbolRules.for_symbol sym;
  let d := remember_request d rules req in
  Some (if has_engine d sym then Desk.send d (ToEngine sym req) else d).

Definition on_aeron_cmd `{HashIter} (d : Desk) (cmd : AeronCmd) : option Desk :=
  match cmd with
  | CmdNewOrder req => send_new_order d req
  | CmdCancel req => Some (route_cancel d req)
  | CmdBatchCancel reqs => Some (foldl route_cancel d reqs)
  | CmdBatchNewOrder reqs => mfold send_batch_order d reqs
  end.

(** ** Reservations are undone exactly *)

Lemma wrap_sub_add x m : in_i64 x -> i64_add (i64_sub x m) m = x.
Proof.
  intros Hx. apply eq64_range; [|apply wrap_i64_range|done].
  rewrite i64_add_eq64, i64_sub_eq64. apply eq64_refl_by. lia.
Qed.

Lemma wrap_add_sub x m : in_i64 x -> i64_sub (i64_add x m) m = x.
Proof.
  intros Hx. apply eq64_range; [|apply wrap_i64_range|done].
  rewrite i64_sub_eq64, i64_add_eq64. apply eq64_refl_by. lia.
Qed.

Lemma reserve_spec e uid m e' r : RiskEngine.check_and_reserve_margin e uid m = (e', Ok r) ->
  exists a, re_accounts e !! uid = Some a /\ AccountRiskState.can_place_order a = true /\ m <= ac_available_margin a /\
    e' = RiskEngine.set_accounts e (<[uid := RiskEngine.ac_set_margins a (i64_sub (ac_available_margin a) m)
                                       (i64_add (ac_order_margin a) m)]> (re_accounts e)).
Proof.
  unfold RiskEngine.check_and_reserve_margin. destruct (re_accounts e !! uid) as [a|] eqn:Ha; [|done].
  destruct (AccountRiskState.can_place_order a) eqn:Hc; [|done]. cbn [negb].
  destruct (Z.ltb_spec (ac_available_margin a) m); [done|]. intros [= <- <-]. exists a. done.
Qed.

Lemma reserve_refused e uid m e' r : RiskEngine.check_and_reserve_margin e uid m = (e', Err r) -> e' = e.
Proof. unfold RiskEngine.check_and_reserve_margin. repeat case_match; intros; simplify_eq; done. Qed.

Lemma release_reserved e uid a m : engine_typed e -> re_accounts e !! uid = Some a ->
  RiskEngine.release_order_margin (RiskEngine.set_accounts e
    (<[uid := RiskEngine.ac_set_margins a (i64_sub (ac_available_margin a) m) (i64_add (ac_order_margin a) m)]>
       (re_accounts e))) uid m = e.
Proof.
  intros He Ha. destruct (et_accounts _ He _ _ Ha) as (_ & _ & Hf).
  rewrite !Forall_cons in Hf. destruct Hf as (_ & Hav & Hor & _).
  unfold RiskEngine.release_order_margin. cbn [RiskEngine.set_accounts re_accounts]. rewrite lookup_insert_eq.
  destruct e as [accounts positions marks index oi fund]. unfold RiskEngine.set_accounts. cbn in *. f_equal.
  rewrite insert_insert_eq. apply insert_id. rewrite Ha. f_equal.
  destruct a; unfold RiskEngine.ac_set_margins; cbn in *. f_equal; symmetry.
  - by apply wrap_sub_add.
  - by apply wrap_add_sub.
Qed.

Lemma reserve_release e uid m e' r : engine_typed e -> RiskEngine.check_and_reserve_margin e uid m = (e', Ok r) ->
  RiskEngine.release_order_margin e' uid m = e.
Proof. intros He (a & Ha & _ & _ & ->)%reserve_spec. by apply release_reserved. Qed.

(** The funds of an account are typed and cover what is frozen. *)
Definition account_ok (kv : AccountBalance) : Prop :=
  0 <= ab_frozen_atoms kv <= ab_balance_atoms kv /\ ab_balance_atoms kv <= i64_max.

Definition cache_ok (c : AccountCache) : Prop := map_Forall (fun _ m => map_Forall (fun _ => account_ok) m) c.

Lemma put_put c uid asset kv kv' : put_account (put_account c uid asset kv) uid asset kv' = put_account c uid asset kv'.
Proof. unfold put_account. by rewrite lookup_insert_eq, insert_insert_eq; cbn; rewrite insert_insert_eq. Qed.

Lemma account_of_put c uid asset kv : account_of (put_account c uid asset kv) uid asset = Some kv.
Proof. unfold account_of, put_account. rewrite lookup_insert_eq. cbn. apply lookup_insert_eq. Qed.

Lemma account_of_ok c uid asset kv : cache_ok c -> account_of c uid asset = Some kv -> account_ok kv.
Proof.
  intros Hc. unfold account_of. destruct (c !! uid) as [m|] eqn:Hm; [|done]. cbn. intros Hk.
  exact (Hc _ _ Hm _ _ Hk).
Qed.

Lemma freeze_refused c uid asset amount c' : try_freeze_cache c uid asset amount = (c', false) -> c' = c.
Proof.
  unfold try_freeze_cache. destruct (f64_le amount f64_zero); [done|].
  destruct (account_of c uid asset) as [kv|] eqn:Hk; [|by intros [= <-]].
  destruct (AmountAtoms.from_f64_round amount) as [atoms|]; [|by intros [= <-]].
  unfold AccountBalance.try_freeze_atoms. repeat case_match; intros; simplify_eq. by apply put_same.
Qed.

Lemma freeze_atoms_release kv atoms kv' : account_ok kv -> AccountBalance.try_freeze_atoms kv atoms = (kv', true) ->
  AccountBalance.release_atoms kv' atoms = kv.
Proof.
  intros [Hf Hb]. unfold AccountBalance.try_freeze_atoms, AccountBalance.release_atoms.
  destruct (Z.leb_spec atoms 0); [by intros [= <-]|].
  assert (Hav : AccountBalance.available_atoms kv = ab_balance_atoms kv - ab_frozen_atoms kv).
  { unfold AccountBalance.available_atoms. apply i64_sub_id. unfold in_i64, i64_min, i64_max in *. lia. }
  rewrite Hav. destruct (Z.leb_spec atoms (ab_balance_atoms kv - ab_frozen_atoms kv)); intros [= <-]. cbn.
  rewrite i64_add_id by (unfold in_i64, i64_min, i64_max in *; lia).
  unfold i64_saturating_sub, i64_clamp. destruct kv as [b f]; cbn in *. f_equal. unfold i64_min, i64_max in *. lia.
Qed.

Lemma freeze_release c uid asset amount c' : cache_ok c -> try_freeze_cache c uid asset amount = (c', true) ->
  release_cache_frozen c' uid asset amount = c.
Proof.
  intros Hc. unfold try_freeze_cache, release_cache_frozen, release_entry.
  destruct (f64_le amount f64_zero); [by intros [= <-]|].
  destruct (account_of c uid asset) as [kv|] eqn:Hk; [|done].
  destruct (AmountAtoms.from_f64_round amount) as [atoms|] eqn:Ha; [|done].
  destruct (AccountBalance.try_freeze_atoms kv atoms) as [kv' ok] eqn:Ht. intros [= <- ->].
  rewrite account_of_put. cbn [mbind option_bind].
  rewrite (freeze_atoms_release kv atoms kv') by eauto using account_of_ok.
  rewrite put_put. by apply put_same.
Qed.

(** ** A forwarded order is all or nothing *)

(** Everything but the messages sent. *)
Definition books (d : Desk) := (dk_wiring d, dk_accounts d, dk_risk d, dk_vwap d, dk_orders d, dk_queue d, dk_dropped d).

(** No live order has this id. *)
Definition fresh_id (t : OrderTables) (order_id : Z) : Prop :=
  ot_meta t !! order_id = None /\ ot_pending_meta t !! order_id = None /\ ot_origin t !! order_id = None.

Lemma reject_books d ingress uid oid reason d' : reject_forwarded d ingress uid oid reason = Some d' ->
  books d' = books d /\ (dk_sent d' = dk_sent d \/ exists frame, dk_sent d' = vec_push (dk_sent d) (ToIngress ingress frame)).
Proof.
  unfold reject_forwarded. intros (frame & _ & H)%bind_Some.
  destruct frame as [frame|]; [|by simplify_eq; auto]. case_match; simplify_eq; [|by auto].
  split; [done|]. right. by exists frame.
Qed.

Lemma undo_enter d oid uid ingress side symbol meta m asset amount : fresh_id (dk_orders d) oid ->
  books (undo_forwarded (enter_forwarded d oid uid ingress side symbol meta) oid uid m asset amount) =
  (dk_wiring d, release_cache_frozen (dk_accounts d) uid asset amount, RiskEngine.release_order_margin (dk_risk d) uid m,
   dk_vwap d, dk_orders d, dk_queue d, dk_dropped d).
Proof.
  intros (Hm & Hp & Ho). unfold books. cbn. f_equal. f_equal. f_equal.
  unfold remove_runtime_order, remember_runtime_order. rewrite Z.eqb_refl. cbn.
  rewrite !delete_insert_id by done. by destruct (dk_orders d).
Qed.

(** What a request asks for. *)
Definition forward_user (fwd : CounterForwardNewOrder) : Z := wrap_i64 (nor_participant_id (cfn_req fwd)).
Definition forward_margin (fwd : CounterForwardNewOrder) : Z := cfm_initial_margin_atoms (cfn_meta fwd).
Definition forward_symbol (fwd : CounterForwardNewOrder) : bytes := request_symbol (nor_symbol (cfn_req fwd)).

(** The tables with the order in them. *)
Definition entered (t : OrderTables) (order_id user_id ingress side : Z) (symbol : bytes) (meta : CounterForwardOrderMeta)
  : OrderTables :=
  mkOrderTables
    (<[order_id := mkOrderRuntimeMeta user_id (cfm_freeze_price meta) (cfm_qty meta) 0 side symbol 0
         (cfm_initial_margin_atoms meta)]> (ot_meta t))
    (<[order_id := order_meta_from_forward meta]> (ot_pending_meta t)) (ot_pending t)
    (<[order_id := ingress]> (ot_origin t)) (ot_to_engine t) (ot_to_public t).

(** The order was handed to the engine: the reservation, the message and the
    tables. *)
Record handed_over (d : Desk) (fwd : CounterForwardNewOrder) (d' : Desk) : Prop := {
  ho_reserved : exists a, re_accounts (dk_risk d) !! forward_user fwd = Some a /\
    AccountRiskState.can_place_order a = true /\ forward_margin fwd <= ac_available_margin a /\
    dk_risk d' = RiskEngine.set_accounts (dk_risk d) (<[forward_user fwd := RiskEngine.ac_set_margins a
      (i64_sub (ac_available_margin a) (forward_margin fwd)) (i64_add (ac_order_margin a) (forward_margin fwd))]>
      (re_accounts (dk_risk d)));
  ho_sent : dk_sent d' = vec_push (dk_sent d) (ToEngine (forward_symbol fwd) (cfn_req fwd));
  ho_engine : forward_symbol fwd ∈ w_engines (dk_wiring d);
  ho_halt : nor_reduce_only (cfn_req fwd) = 0 -> ExchangeConfig.is_halted (w_config (dk_wiring d)) (forward_symbol fwd) = false;
  ho_tables : dk_orders d' = entered (dk_orders d) (nor_client_order_id (cfn_req fwd)) (forward_user fwd)
    (cfn_ingress_desk_id fwd) (nor_side (cfn_req fwd)) (nor_symbol (cfn_req fwd)) (cfn_meta fwd);
  ho_wiring : dk_wiring d' = dk_wiring d;
}.

Lemma checks_halt d rules sym uid req u : forwarded_checks d rules sym uid req = Some (Ok u) ->
  nor_reduce_only req = 0 -> ExchangeConfig.is_halted (w_config (dk_wiring d)) sym = false.
Proof.
  unfold forwarded_checks. intros H Hr. rewrite Hr in H. cbn [Z.eqb andb negb] in H.
  repeat case_match; simplify_eq; done.
Qed.

(** The two outcomes. *)
Definition refused (d : Desk) (ingress : Z) (d' : Desk) : Prop :=
  books d' = books d /\
  (dk_sent d' = dk_sent d \/ exists frame, dk_sent d' = vec_push (dk_sent d) (ToIngress ingress frame)).

Lemma refused_after d d1 ingress uid oid reason d' : books d1 = books d -> dk_sent d1 = dk_sent d ->
  reject_forwarded d1 ingress uid oid reason = Some d' -> refused d ingress d'.
Proof. intros Hb Hs [Hb' Hs']%reject_books. unfold refused. rewrite Hb', Hb, <- Hs. auto. Qed.

(** C16: an order forwarded by another desk is all or nothing.  Either it is
    handed to the engine of its symbol, with its margin moved from available to
    order margin and its metadata and origin in the tables, and never while the
    symbol is halted unless it only reduces; or a check, the reservation, the
    freeze or the publication failed and the account cache, the risk engine,
    the order tables and the persistence queue are exactly as before, the only
    effect being at most one refusal to the forwarding desk. *)
Theorem forwarded_all_or_nothing d published fwd d' :
  engine_typed (dk_risk d) -> cache_ok (dk_accounts d) ->
  fresh_id (dk_orders d) (nor_client_order_id (cfn_req fwd)) ->
  send_forwarded d published fwd = Some d' ->
  handed_over d fwd d' \/ refused d (cfn_ingress_desk_id fwd) d'.
Proof.
  intros He Hc Hf. unfold send_forwarded.
  set (amount := f64_div _ _). set (quote := match split_once _ _ with Some _ => _ | None => _ end).
  intros (rules & Hr & (checked & Hk & H)%bind_Some)%bind_Some.
  destruct checked as [u|reason]; [|right; by eapply refused_after].
  destruct (RiskEngine.check_and_reserve_margin _ _ _) as [risk [m|reason]] eqn:Hm; [|right; by eapply refused_after].
  destruct (try_freeze_cache _ _ _ _) as [cache [|]] eqn:Ht; cbn [Desk.set_risk dk_accounts] in Ht.
  2:{ right. eapply refused_after; [| |exact H]; [|done]. apply freeze_refused in Ht as ->. unfold books. cbn.
      by rewrite (reserve_release _ _ _ _ _ He Hm). }
  assert (Hundo : forall reason, reject_forwarded (undo_forwarded (enter_forwarded (Desk.set_accounts (Desk.set_risk d risk) cache)
      (nor_client_order_id (cfn_req fwd)) (wrap_i64 (nor_participant_id (cfn_req fwd))) (cfn_ingress_desk_id fwd)
      (nor_side (cfn_req fwd)) (nor_symbol (cfn_req fwd)) (cfn_meta fwd)) (nor_client_order_id (cfn_req fwd))
      (wrap_i64 (nor_participant_id (cfn_req fwd))) (cfm_initial_margin_atoms (cfn_meta fwd)) quote amount)
      (cfn_ingress_desk_id fwd) (wrap_i64 (nor_participant_id (cfn_req fwd))) (nor_client_order_id (cfn_req fwd)) reason = Some d' ->
      refused d (cfn_ingress_desk_id fwd) d').
  { intros reason Hrej. eapply refused_after; [| |exact Hrej]; [|done]. rewrite undo_enter by done. cbn.
    by rewrite (reserve_release _ _ _ _ _ He Hm), (freeze_release _ _ _ _ _ Hc Ht). }
  case_match eqn:Hen; [|right; by eapply Hundo].
  destruct published; [|right; by eapply Hundo]. left. simplify_eq.
  apply bool_decide_eq_true in Hen. apply reserve_spec in Hm as (a & Ha & Hp & Hle & ->).
  split; cbn; [by exists a|done|done| |done|done]. intros Hz. by eapply checks_halt.
Qed.

(** A forwarded limit order of user 6 for 0.5 BTC at 100, margin 5 USDT. *)
Definition demo_request : NewOrderRequest :=
  mkNewOrderRequest 41 6 10000 500000 0 0 7 0 (zeros 9) (pack_str 16 (str "BTC_USDT")).
Definition demo_forward : CounterForwardNewOrder :=
  CounterForwardNewOrder.new 1 demo_request
    (CounterForwardOrderMeta.new 6 (pack_str 16 (str "BTC_USDT")) 0 (str "limit") (Some (f64_to_bits (i64_as_f64 100)))
       (f64_to_bits (f64_lit 1 2)) (f64_to_bits (i64_as_f64 100)) 500000000 (str "c1")).
Definition demo_funded : Desk :=
  Desk.set_risk (demo_desk {[6 := {[str "USDT" := mkAccountBalance 1000000000 0]}]})
    (RiskEngine.initialize_account RiskEngine.new 6 1000000000).

Lemma demo_funded_typed : engine_typed (dk_risk demo_funded).
Proof.
  apply (exec_typed RiskEngine.new (CallInitialize 6 1000000000)); [apply new_typed| |done].
  cbn [call_typed]. unfold in_i64, i64_min, i64_max. lia.
Qed.

Lemma demo_funded_cache : cache_ok (dk_accounts demo_funded).
Proof. apply map_Forall_singleton, map_Forall_singleton. unfold account_ok, i64_max. cbn. lia. Qed.

Lemma forwarded_all_or_nothing_witness :
  (exists d', send_forwarded demo_funded true demo_forward = Some d' /\
     (handed_over demo_funded demo_forward d' \/ refused demo_funded 1 d') /\ length (dk_sent d') = 1%nat) /\
  (exists d', send_forwarded demo_funded false demo_forward = Some d' /\
     (handed_over demo_funded demo_forward d' \/ refused demo_funded 1 d') /\ dk_orders d' = dk_orders demo_funded).
Proof.
  assert (Hf : fresh_id (dk_orders demo_funded) 41) by done.
  split.
  - eexists. split; [vm_compute; reflexivity|]. split; [|done].
    apply (forwarded_all_or_nothing demo_funded true demo_forward); [apply demo_funded_typed|apply demo_funded_cache|exact Hf|].
    vm_compute. reflexivity.
  - eexists. split; [vm_compute; reflexivity|]. split; [|vm_compute; reflexivity].
    apply (forwarded_all_or_nothing demo_funded false demo_forward); [apply demo_funded_typed|apply demo_funded_cache|exact Hf|].
    vm_compute. reflexivity.
Defined.
