(* ===== verification/DeskRecv.v ===== *)
(** The desk's private receive thread ([src/src/bin/desk_server.rs], the loop of
    the order-update thread): what one update of an engine does to the order
    tables, the risk engine, the account cache, the sessions and the
    persistence stream, and the flush of the batches at the end of a burst.

    The theorems are about the life of an order: the maps between public and
    engine ids stay inverse, a terminal update forgets the order, and an order
    that is accepted and cancelled without a fill returns exactly the margin it
    reserved.  Examples show where the funds of other lives go astray. *)
From Stdlib Require Import ZArith Lia String.
From stdpp Require Import base numbers list gmap.
From S2P Require Import Prelude Bytes Fixed Types F64 Text Money RiskCalc RiskEngine RiskTyped SymbolRules Pod Sbe WsSbe Routing PersistEvent CounterForward RiskPersist Leader Desk DeskSend.

#[local] Open Scope Z_scope.

(** ** State of the thread *)

(** The batches are arrays of 64 cells with a count. *)
Definition BATCH : nat := 64.

Record Recv := mkRecv {
  rv_desk : Desk;
  rv_fence : Fence;
  rv_accepted : list OrderInsertEntry;
  rv_cancel : list CancelReleaseEntry;
  rv_delete : list Z;
}.

Definition set_desk (rv : Recv) (d : Desk) : Recv :=
  mkRecv d (rv_fence rv) (rv_accepted rv) (rv_cancel rv) (rv_delete rv).

(** ** One update *)

Section update.
Context `{HashIter}.
Variables now_ms ts_us : Z.
Variable msg : OrderUpdateMsg.

Let kind : Z := oum_kind msg.
Let order_id : Z := oum_order_id msg.
Let client_order_id : Z := oum_client_order_id msg.
Let participant : Z := wrap_i64 (oum_participant_id msg).

(** A rejected order has no engine id. *)
Definition lookup_id : Z := if Z.eqb kind REJECTED then client_order_id else order_id.

(** The owner filter. *)
Definition owned (d : Desk) : bool :=
  let t := dk_orders d in
  user_tx d participant
  || bool_decide (lookup_id ∈ ot_pending t)
  || bool_decide (is_Some (ot_pending_meta t !! lookup_id))
  || bool_decide (is_Some (ot_pending_meta t !! client_order_id))
  || bool_decide (is_Some (ot_origin t !! lookup_id))
  || bool_decide (is_Some (ot_origin t !! client_order_id)).

(** A waiting REST request gets the update. *)
Definition reply_pending (d : Desk) : Desk :=
  let t := dk_orders d in
  if bool_decide (lookup_id ∈ ot_pending t)
  then Desk.send (Desk.set_orders d (OrderTables.set_pending t (ot_pending t ∖ {[lookup_id]}))) (Reply lookup_id msg)
  else d.

(** On acceptance the order goes by its engine id. *)
Definition rename_accepted (d : Desk) : Desk :=
  if Z.eqb kind ACCEPTED then
    let d := map_meta d (fun cache => remap_runtime_order_id cache client_order_id order_id) in
    let t := dk_orders d in
    match ot_origin t !! client_order_id with
    | Some ingress =>
        let t := OrderTables.set_origin t (<[order_id := ingress]> (delete client_order_id (ot_origin t))) in
        Desk.set_orders d (OrderTables.set_routes t
          (<[client_order_id := order_id]> (ot_to_engine t)) (<[order_id := client_order_id]> (ot_to_public t)))
    | None => d
    end
  else d.

(** The metadata the session left for the first update. *)
Definition take_ws_meta (d : Desk) : Desk * option OrderMeta :=
  let pm := ot_pending_meta (dk_orders d) in
  match pm !! lookup_id with
  | Some m => (map_pending_meta d (delete lookup_id), Some m)
  | None =>
      if Z.eqb lookup_id client_order_id then (d, None)
      else match pm !! client_order_id with
           | Some m => (map_pending_meta d (delete client_order_id), Some m)
           | None => (d, None)
           end
  end.

(** The metadata with the authoritative freeze price. *)
Definition remember_ws (d : Desk) (ws_meta : option OrderMeta) : Desk :=
  match ws_meta with
  | None => d
  | Some m =>
      if negb (Z.eqb kind REJECTED) then
        let d := map_meta d (fun cache => remember_runtime_order cache order_id (om_user_id m) (om_freeze_price m)
                   (om_qty m) (om_side m) (om_symbol m) (om_initial_margin_atoms m)) in
        if negb (Z.eqb (om_liq_price_ticks m) 0)
        then map_meta d (fun cache => set_liq_price cache order_id (om_liq_price_ticks m)) else d
      else d
  end.

Definition event_meta (d : Desk) (ws_meta : option OrderMeta) : option OrderRuntimeMeta :=
  match ws_meta with
  | Some m => Some (mkOrderRuntimeMeta (om_user_id m) (om_freeze_price m) (om_qty m) 0 (om_side m) (om_symbol m)
                      (om_liq_price_ticks m) (om_initial_margin_atoms m))
  | None => runtime_meta (ot_meta (dk_orders d)) order_id
  end.

Definition publish_event (d : Desk) (ws_meta : option OrderMeta) : option Desk :=
  match event_meta d ws_meta with
  | Some meta =>
      publish_matching_order_event d (oum_sequence msg) (w_response_stream_id (dk_wiring d)) kind order_id client_order_id
        (oum_participant_id msg) (oum_fill_price msg) (oum_fill_qty msg) (oum_remaining_qty msg) (oum_timestamp msg) meta
  | None => Some d
  end.

(** The desk whose session placed the order. *)
Definition ingress_of (d : Desk) : option Z :=
  match ot_origin (dk_orders d) !! order_id with
  | Some i => Some i
  | None => ot_origin (dk_orders d) !! client_order_id
  end.

Definition update_frame (public_order_id status : Z) : bytes :=
  encode_order_update public_order_id 0 status (oum_fill_qty msg) (oum_fill_price msg) (oum_timestamp msg).

Definition send_ingress (d : Desk) (ingress public_order_id : Z) (upd : bytes) : option Desk :=
  frame ← CounterForwardWsFrame.new participant public_order_id upd;
  Some match frame with
       | Some frame =>
           if bool_decide (ingress ∈ w_peers (dk_wiring d)) then Desk.send d (ToIngress ingress frame) else d
       | None => d
       end.

(** The acceptance goes out before the bookkeeping. *)
Definition push_accepted (d : Desk) : option Desk :=
  let public_order_id := default order_id (ot_to_public (dk_orders d) !! order_id) in
  let upd := update_frame public_order_id WS_STATUS_OPEN in
  d ← match ingress_of d with Some ingress => send_ingress d ingress public_order_id upd | None => Some d end;
  Some (notify d participant upd client_order_id).

(** *** First update of an order of a session *)

Definition insert_entry (m : OrderMeta) : OrderInsertEntry :=
  mkOrderInsertEntry (wrap_i64 order_id) (om_user_id m) (om_symbol m) (om_side m) (om_order_type m)
    (default 0 (om_price m)) (om_qty m) 0 (DbOrderStatus.as_u8 DbOrderStatus.Pending) (om_freeze_price m) true
    (pack_str 32 (om_client_order_id m)).

Definition add_accepted (rv : Recv) (e : OrderInsertEntry) : Recv :=
  if Nat.leb BATCH (length (rv_accepted rv)) then
    mkRecv (batch_upsert_order (rv_desk rv) now_ms (rv_accepted rv)) (rv_fence rv) [e] (rv_cancel rv) (rv_delete rv)
  else mkRecv (rv_desk rv) (rv_fence rv) (vec_push (rv_accepted rv) e) (rv_cancel rv) (rv_delete rv).

(** A liquidation order that did not fill re-arms the account. *)
Definition rearm (d : Desk) (m : OrderMeta) : Desk :=
  if negb (Z.eqb (om_liq_price_ticks m) 0)
  then Desk.set_risk d (RiskEngine.set_account_status_if (dk_risk d) (om_user_id m) Liquidating LiquidationPending).1
  else d.

Definition release_margin (d : Desk) (user_id initial_margin_atoms : Z) : Desk :=
  if Z.ltb 0 initial_margin_atoms
  then Desk.set_risk d (RiskEngine.release_order_margin (dk_risk d) user_id initial_margin_atoms) else d.

(** A rejected order: the margin and the frozen funds go back. *)
Definition on_rejected (d : Desk) (m : OrderMeta) : Desk :=
  let symbol := default (str "BTC_USDT") (unpack_str16 (om_symbol m)) in
  let '(base, quote) := default (str "BTC", str "USDT") (split_once 95 symbol) in
  let has_margin := Z.ltb 0 (om_initial_margin_atoms m) in
  let rel_amount :=
    if has_margin then f64_div (i64_as_f64 (om_initial_margin_atoms m)) (i64_as_f64 100)
    else if Z.eqb (om_side m) 0 then f64_mul (f64_of_bits (om_freeze_price m)) (f64_of_bits (om_qty m))
    else f64_of_bits (om_qty m) in
  let asset := if Z.eqb (om_side m) 0 || has_margin then quote else base in
  let d := release_margin d (om_user_id m) (om_initial_margin_atoms m) in
  let d := rearm d m in
  match release_entry (dk_accounts d) (om_user_id m) asset rel_amount with
  | Some (cache, snapshot) =>
      notify_balance (Desk.set_accounts d cache) (om_user_id m) asset (AccountBalance.balance snapshot)
        (AccountBalance.frozen snapshot)
  | None => d
  end.

Definition on_ws_cancelled (d : Desk) (m : OrderMeta) : Desk :=
  let d := release_margin d (om_user_id m) (om_initial_margin_atoms m) in
  let d := rearm d m in
  release_reservation d (om_user_id m) (om_symbol m) (om_side m) (om_qty m) (om_freeze_price m).

Definition on_ws_update (rv : Recv) (m : OrderMeta) : Recv :=
  if Z.eqb kind ACCEPTED then add_accepted rv (insert_entry m)
  else if Z.eqb kind PARTIAL_FILL then
    set_desk rv (publish_frame (rv_desk rv) (order_fill_update (wrap_i64 order_id) (oum_fill_qty msg)
      (DbOrderStatus.as_u8 DbOrderStatus.Trading)))
  else if Z.eqb kind REJECTED then set_desk rv (on_rejected (rv_desk rv) m)
  else if Z.eqb kind CANCELLED then set_desk rv (on_ws_cancelled (rv_desk rv) m)
  else rv.

(** *** Later updates *)

(** What a cancelled order releases from the cache. *)
Definition cancel_entry (d : Desk) : CancelReleaseEntry :=
  let none := mkCancelReleaseEntry (wrap_i64 order_id) 0 (zeros 16) 0 in
  match runtime_meta (ot_meta (dk_orders d)) order_id with
  | None => none
  | Some m =>
      let release_qty := f64_max (f64_sub (f64_of_bits (rm_quantity m)) (f64_of_bits (rm_filled m))) f64_zero in
      if f64_le release_qty f64_zero then mkCancelReleaseEntry (wrap_i64 order_id) (rm_user_id m) (zeros 16) 0
      else
        match from_utf8 (until_nul (rm_symbol m)) ≫= split_once 95 with
        | None => none
        | Some (base, quote) =>
            let '(asset, amount) :=
              if Z.eqb (rm_side m) 1 then (base, release_qty)
              else (quote, f64_mul (f64_of_bits (rm_freeze_price m)) release_qty) in
            mkCancelReleaseEntry (wrap_i64 order_id) (rm_user_id m) (pack_str 16 asset) (f64_to_bits amount)
        end
  end.

Definition add_cancel (rv : Recv) (e : CancelReleaseEntry) : Recv :=
  if Nat.leb BATCH (length (rv_cancel rv)) then
    mkRecv (batch_cancel_confirmed (rv_desk rv) (rv_cancel rv)) (rv_fence rv) (rv_accepted rv) [e] (rv_delete rv)
  else mkRecv (rv_desk rv) (rv_fence rv) (rv_accepted rv) (vec_push (rv_cancel rv) e) (rv_delete rv).

Definition add_delete (rv : Recv) (id : Z) : Recv :=
  if Nat.leb BATCH (length (rv_delete rv)) then
    mkRecv (publish_frames (rv_desk rv) (order_delete <$> rv_delete rv)) (rv_fence rv) (rv_accepted rv) (rv_cancel rv) [id]
  else mkRecv (rv_desk rv) (rv_fence rv) (rv_accepted rv) (rv_cancel rv) (vec_push (rv_delete rv) id).

Definition on_later_update (rv : Recv) : Recv :=
  let d := rv_desk rv in
  if Z.eqb kind CANCELLED then
    let d := match runtime_meta (ot_meta (dk_orders d)) order_id with
             | Some m => release_margin d (rm_user_id m) (rm_initial_margin_atoms m)
             | None => d
             end in
    add_cancel (set_desk rv d) (cancel_entry d)
  else if Z.eqb kind FILLED || Z.eqb kind REJECTED then add_delete rv (wrap_i64 order_id)
  else set_desk rv (publish_frame d (order_fill_update (wrap_i64 order_id) (oum_fill_qty msg)
         (DbOrderStatus.as_u8 (db_status_from_update_kind kind)))).

(** *** The session and the forwarding desk *)

Definition push_update (d : Desk) : option Desk :=
  let status := ws_status_byte_from_str (WsOrderStatus.as_str (ws_status_from_update_kind kind)) in
  let public_order_id := default client_order_id (ot_to_public (dk_orders d) !! order_id) in
  d' ← match ingress_of d with
       | Some ingress => send_ingress d ingress public_order_id (update_frame public_order_id status)
       | None => Some d
       end;
  Some (notify d' participant (update_frame order_id status) 0).

(** *** Fills *)

Definition apply_fill (d : Desk) : option Desk :=
  match runtime_meta (ot_meta (dk_orders d)) order_id with
  | None => Some d
  | Some meta =>
      let sym_str := sym_or (str "BTC_USDT") (rm_symbol meta) in
      rules ← SymbolRules.for_symbol sym_str;
      let fp_ticks := f64_as_i64 (f64_round (f64_div (f64_of_bits (oum_fill_price msg)) (sr_price_tick rules))) in
      let fq_lots := match SymbolRules.quantity_to_lots rules (f64_of_bits (oum_fill_qty msg)) with Ok v => v | Err _ => 0 end in
      if Z.leb fq_lots 0 then Some d
      else
        notional ← calc_notional_atoms fp_ticks fq_lots (sr_notional_scale rules);
        let liquidation := negb (Z.eqb (rm_liq_price_ticks meta) 0) in
        fill_margin ← if liquidation then Some 0 else calc_initial_margin_atoms notional (sr_default_leverage rules);
        risk ← RiskEngine.on_fill (dk_risk d) (rm_user_id meta) (rm_symbol meta) (rm_side meta) fp_ticks fq_lots fill_margin
                 (sr_notional_scale rules) (sr_default_leverage rules) (sr_maintenance_rate_bps rules) (rm_liq_price_ticks meta);
        risk ← if liquidation then Some risk
               else
                 let '(_, taker_bps) := ExchangeConfig.fee_bps (w_env (dk_wiring d)) (w_config (dk_wiring d)) sym_str in
                 fee ← fee_atoms notional taker_bps;
                 Some (RiskEngine.charge_fee risk (rm_user_id meta) fee);
        Some (publish_frames (Desk.set_risk d risk) (margin_state_events risk (rm_user_id meta) (rm_symbol meta)))
  end.

(** *** The end of an order *)

Definition is_terminal : bool := Z.eqb kind FILLED || Z.eqb kind CANCELLED || Z.eqb kind REJECTED.

Definition forget (d : Desk) : Desk :=
  let d := map_origin d (fun o => delete client_order_id (delete order_id o)) in
  let t := dk_orders d in
  let t := match ot_to_public t !! order_id with
           | Some public => OrderTables.set_routes t (delete public (ot_to_engine t)) (delete order_id (ot_to_public t))
           | None => t
           end in
  let t := match ot_to_engine t !! client_order_id with
           | Some engine => OrderTables.set_routes t (delete client_order_id (ot_to_engine t)) (delete engine (ot_to_public t))
           | None => t
           end in
  map_meta (Desk.set_orders d t) (fun cache => remove_runtime_order cache order_id client_order_id).

(** The body of the loop for one update that passed the fence. *)
Definition handle_update (rv : Recv) : option Recv :=
  let d := rv_desk rv in
  if negb (owned d) then Some rv
  else
    let d := rename_accepted (reply_pending d) in
    let '(d, ws_meta) := take_ws_meta d in
    let d := remember_ws d ws_meta in
    d ← publish_event d ws_meta;
    d ← if Z.eqb kind ACCEPTED then push_accepted d else Some d;
    let rv := set_desk rv d in
    let rv := match ws_meta with Some m => on_ws_update rv m | None => on_later_update rv end in
    let d := rv_desk rv in
    d ← if Z.eqb kind ACCEPTED then Some d else push_update d;
    d ← if Z.eqb kind FILLED || Z.eqb kind PARTIAL_FILL then apply_fill d else Some d;
    Some (set_desk rv (if is_terminal then forget d else d)).

(** With the fencing check in front. *)
Definition on_order_update (rv : Recv) : option Recv :=
  let '(f, passed) := fence (rv_fence rv) (oum_sequence msg) in
  let rv := mkRecv (rv_desk rv) f (rv_accepted rv) (rv_cancel rv) (rv_delete rv) in
  if passed then handle_update rv else Some rv.
End update.

(** The flush after a burst. *)
Definition flush_burst `{HashIter} (now_ms : Z) (rv : Recv) : Recv :=
  let d := rv_desk rv in
  let d := if Nat.ltb 0 (length (rv_accepted rv)) then batch_upsert_order d now_ms (rv_accepted rv) else d in
  let d := if Nat.ltb 0 (length (rv_delete rv)) then publish_frames d (order_delete <$> rv_delete rv) else d in
  let d := if Nat.ltb 0 (length (rv_cancel rv)) then batch_cancel_confirmed d (rv_cancel rv) else d in
  mkRecv d (rv_fence rv) [] [] [].

(** A burst: the updates the poll returned, then the flush. *)
Definition on_burst `{HashIter} (now_ms : Z) (rv : Recv) (msgs : list OrderUpdateMsg) : option Recv :=
  rv ← mfold (fun rv msg => on_order_update now_ms msg rv) rv msgs;
  Some (flush_burst now_ms rv).

(** A frame from the owner of the user goes to the session. *)
Definition on_forward_response (d : Desk) (m : CounterForwardMsg) : Desk :=
  match m with
  | WsFrame frame => notify d (cfw_user_id frame) (CounterForwardWsFrame.payload frame) (cfw_order_id frame)
  | _ => d
  end.

(** ** What bookkeeping leaves alone *)

(** The part of the desk that neither a message nor a frame touches. *)
Definition core (d : Desk) := (dk_wiring d, dk_risk d, dk_vwap d, dk_orders d).

Lemma core_publish d ev : core (publish_frame d ev) = core d.
Proof. unfold publish_frame. by case_match. Qed.
Lemma core_frames d evs : core (publish_frames d evs) = core d.
Proof. apply foldl_keep, core_publish. Qed.
Lemma core_send d o : core (Desk.send d o) = core d.
Proof. done. Qed.
Lemma core_accounts d c : core (Desk.set_accounts d c) = core d.
Proof. done. Qed.
Lemma core_notify d u p t : core (notify d u p t) = core d.
Proof. unfold notify. by case_match. Qed.
Lemma core_account d u a b f : core (publish_account d u a b f) = core d.
Proof. unfold publish_account. case_match; [apply core_publish|done]. Qed.

#[export] Hint Rewrite core_publish core_frames core_send core_accounts core_notify core_account : desk.

Lemma core_balance d u a b f : core (notify_balance d u a b f) = core d.
Proof. unfold notify_balance. by autorewrite with desk. Qed.
#[export] Hint Rewrite core_balance : desk.

Lemma core_release d u a x : core (release_and_publish d u a x) = core d.
Proof. unfold release_and_publish. destruct (release_entry _ _ _ _) as [[c kv]|]; [|done]. by autorewrite with desk. Qed.
#[export] Hint Rewrite core_release : desk.

Section core.
Context `{HashIter}.

Lemma core_upserts d now es : core (batch_upsert_order d now es) = core d.
Proof.
  unfold batch_upsert_order. autorewrite with desk. apply foldl_keep. intros d' k.
  case_match; by autorewrite with desk.
Qed.

Lemma core_cancels d es : core (batch_cancel_confirmed d es) = core d.
Proof. unfold batch_cancel_confirmed. autorewrite with desk. apply foldl_keep. intros. by autorewrite with desk. Qed.

Lemma core_event d seq strm kind oid coid pid fp fq rq ts meta d' :
  publish_matching_order_event d seq strm kind oid coid pid fp fq rq ts meta = Some d' -> core d' = core d.
Proof.
  unfold publish_matching_order_event. intros (rules & _ & Hk)%bind_Some. case_match; simplify_eq; by autorewrite with desk.
Qed.

Variable msg : OrderUpdateMsg.

Lemma core_publish_event d ws d' : publish_event msg d ws = Some d' -> core d' = core d.
Proof. unfold publish_event. case_match; [apply core_event|by intros [= ->]]. Qed.

Lemma core_ingress d i p u d' : send_ingress msg d i p u = Some d' -> core d' = core d.
Proof. unfold send_ingress. intros (frame & _ & Hk)%bind_Some. repeat case_match; simplify_eq; done. Qed.

Lemma core_push_accepted d d' : push_accepted msg d = Some d' -> core d' = core d.
Proof.
  unfold push_accepted. intros (d1 & H1 & H2)%bind_Some. simplify_eq. autorewrite with desk.
  destruct (ingress_of msg d); [by apply core_ingress in H1|by simplify_eq].
Qed.

Lemma core_push_update d d' : push_update msg d = Some d' -> core d' = core d.
Proof.
  unfold push_update. intros (d1 & H1 & H2)%bind_Some. simplify_eq. autorewrite with desk.
  destruct (ingress_of msg d); [by apply core_ingress in H1|by simplify_eq].
Qed.
End core.

Lemma core_eq d d' : core d' = core d -> dk_wiring d' = dk_wiring d /\ dk_risk d' = dk_risk d /\ dk_orders d' = dk_orders d.
Proof. unfold core. by intros [= -> -> _ ->]. Qed.

(** ** The routes between public and engine ids *)

Definition routes_inverse (t : OrderTables) : Prop :=
  forall p e, ot_to_engine t !! p = Some e <-> ot_to_public t !! e = Some p.

(** No table knows the order under either id. *)
Definition forgotten (t : OrderTables) (order_id client_order_id : Z) : Prop :=
  ot_meta t !! order_id = None /\ ot_meta t !! client_order_id = None /\
  ot_origin t !! order_id = None /\ ot_origin t !! client_order_id = None /\
  ot_to_public t !! order_id = None /\ ot_to_engine t !! client_order_id = None.

Definition same_routes (t t' : OrderTables) : Prop := ot_to_engine t' = ot_to_engine t /\ ot_to_public t' = ot_to_public t.

Lemma routes_same t t' : same_routes t t' -> routes_inverse t -> routes_inverse t'.
Proof. intros [He Hp] Hi p e. rewrite He, Hp. apply Hi. Qed.

Section routes.
Context `{HashIter} (now_ms : Z) (msg : OrderUpdateMsg).

Lemma reply_routes d : same_routes (dk_orders d) (dk_orders (reply_pending msg d)).
Proof. unfold reply_pending. by case_match. Qed.

Lemma take_routes d d' ws : take_ws_meta msg d = (d', ws) -> same_routes (dk_orders d) (dk_orders d').
Proof. unfold take_ws_meta. repeat case_match; intros; by simplify_eq. Qed.

Lemma remember_routes d ws : same_routes (dk_orders d) (dk_orders (remember_ws msg d ws)).
Proof. unfold remember_ws. by repeat case_match. Qed.

Lemma rename_routes d : routes_inverse (dk_orders d) ->
  (oum_kind msg = ACCEPTED -> ot_to_engine (dk_orders d) !! oum_client_order_id msg = None /\
                              ot_to_public (dk_orders d) !! oum_order_id msg = None) ->
  routes_inverse (dk_orders (rename_accepted msg d)).
Proof.
  intros Hi Hf. unfold rename_accepted. destruct (Z.eqb_spec (oum_kind msg) ACCEPTED) as [Hk|]; [|done].
  destruct (Hf Hk) as [Hc Ho]. cbn. case_match; [|done]. intros p e. cbn.
  rewrite !lookup_insert. specialize (Hi p e).
  repeat case_decide; subst; split; intros Heq; simplify_eq; try done; try naive_solver.
Qed.

Lemma orders_release_margin d u m : dk_orders (release_margin d u m) = dk_orders d.
Proof. unfold release_margin. by case_match. Qed.

Lemma orders_rearm d m : dk_orders (rearm d m) = dk_orders d.
Proof. unfold rearm. by case_match. Qed.

Lemma orders_of_core d d' : core d' = core d -> dk_orders d' = dk_orders d.
Proof. intros Hc. by apply core_eq in Hc as (_ & _ & ?). Qed.

Lemma orders_rejected d m : dk_orders (on_rejected d m) = dk_orders d.
Proof.
  unfold on_rejected. destruct (default _ _) as [base quote].
  repeat case_match; rewrite ?(orders_of_core _ _ (core_balance _ _ _ _ _)); cbn [Desk.set_accounts dk_orders];
    by rewrite orders_rearm, orders_release_margin.
Qed.

Lemma orders_ws_cancelled d m : dk_orders (on_ws_cancelled d m) = dk_orders d.
Proof.
  unfold on_ws_cancelled, release_reservation. repeat case_match; rewrite ?(orders_of_core _ _ (core_release _ _ _ _));
    by rewrite orders_rearm, orders_release_margin.
Qed.

Lemma orders_ws rv m : dk_orders (rv_desk (on_ws_update now_ms msg rv m)) = dk_orders (rv_desk rv).
Proof.
  unfold on_ws_update, add_accepted. repeat case_match; cbn [set_desk rv_desk].
  - apply orders_of_core, core_upserts.
  - done.
  - apply orders_of_core, core_publish.
  - apply orders_rejected.
  - apply orders_ws_cancelled.
  - done.
Qed.

Lemma orders_later rv : dk_orders (rv_desk (on_later_update msg rv)) = dk_orders (rv_desk rv).
Proof.
  unfold on_later_update, add_cancel, add_delete. repeat case_match; cbn [set_desk rv_desk];
    rewrite ?(orders_of_core _ _ (core_cancels _ _)), ?(orders_of_core _ _ (core_frames _ _)),
      ?(orders_of_core _ _ (core_publish _ _)), ?orders_release_margin; done.
Qed.

Lemma orders_fill d d' : apply_fill msg d = Some d' -> dk_orders d' = dk_orders d.
Proof.
  unfold apply_fill. intros Hf. repeat (case_match || (apply bind_Some in Hf as (? & ? & Hf))); simplify_eq; try done;
    by rewrite (orders_of_core _ _ (core_frames _ _)).
Qed.

(** Deleting a pair on both sides. *)
Lemma inverse_delete (p e : Z) (TE TP : gmap Z Z) : TE !! p = Some e -> (forall p e, TE !! p = Some e <-> TP !! e = Some p) ->
  forall p' e', delete p TE !! p' = Some e' <-> delete e TP !! e' = Some p'.
Proof.
  intros He Hi p' e'. apply Hi in He as Hp. rewrite !lookup_delete_Some.
  split; intros [Hne Hl]; (split; [|by apply Hi]); intros <-.
  - apply Hi in Hl. congruence.
  - apply Hi in Hl. congruence.
Qed.

Lemma remove_runtime_None M o c : remove_runtime_order M o c !! o = None /\ remove_runtime_order M o c !! c = None.
Proof.
  unfold remove_runtime_order. destruct (Z.eqb_spec o c) as [<-|Hne]; cbn; rewrite ?lookup_delete_eq; [done|].
  by rewrite lookup_delete_ne, lookup_delete_eq.
Qed.

Lemma forget_routes d : routes_inverse (dk_orders d) -> routes_inverse (dk_orders (forget msg d)) /\
  forgotten (dk_orders (forget msg d)) (oum_order_id msg) (oum_client_order_id msg).
Proof.
  intros Hi. unfold forget, forgotten. set (o := oum_order_id msg). set (c := oum_client_order_id msg). cbn.
  match goal with |- context [OrderTables.set_meta ?t _] => set (t2 := t) end.
  assert (Ht2 : routes_inverse t2 /\ ot_to_public t2 !! o = None /\ ot_to_engine t2 !! c = None /\
                ot_origin t2 = delete c (delete o (ot_origin (dk_orders d)))).
  { unfold t2. clear t2. unfold routes_inverse in *.
    destruct (ot_to_public (dk_orders d) !! o) as [p|] eqn:Hp; cbn.
    - apply Hi in Hp as Hpe. assert (Hi1 := inverse_delete p o _ _ Hpe Hi).
      destruct (delete p (ot_to_engine (dk_orders d)) !! c) as [e|] eqn:He; cbn; [|by rewrite lookup_delete_eq].
      split; [exact (inverse_delete c e _ _ He Hi1)|]. rewrite lookup_delete_eq, lookup_delete_None, lookup_delete_eq. auto.
    - destruct (ot_to_engine (dk_orders d) !! c) as [e|] eqn:He; cbn; [|done].
      split; [exact (inverse_delete c e _ _ He Hi)|]. rewrite lookup_delete_eq, lookup_delete_None. auto. }
  destruct Ht2 as (Hr & Hpub & Heng & Hor). split; [exact Hr|]. cbn. rewrite Hor.
  destruct (remove_runtime_None (ot_meta t2) o c) as [Hm1 Hm2].
  split; [done|]. split; [done|]. rewrite !lookup_delete_None. auto 8.
Qed.

(** the map from public to engine ids and its reverse stay inverse to each
    other through every update, as long as the engine accepts no order under an
    id that is in use; and an update that ends an order this desk owns leaves
    no trace of it, under either id, in any of the tables that route updates
    and cancels. *)
Theorem update_routes rv rv' : routes_inverse (dk_orders (rv_desk rv)) ->
  (oum_kind msg = ACCEPTED -> ot_to_engine (dk_orders (rv_desk rv)) !! oum_client_order_id msg = None /\
                              ot_to_public (dk_orders (rv_desk rv)) !! oum_order_id msg = None) ->
  handle_update now_ms msg rv = Some rv' ->
  routes_inverse (dk_orders (rv_desk rv')) /\
  (owned msg (rv_desk rv) = true -> is_terminal msg = true ->
   forgotten (dk_orders (rv_desk rv')) (oum_order_id msg) (oum_client_order_id msg)).
Proof.
  intros Hi Hf. unfold handle_update. destruct (owned msg (rv_desk rv)); cbn [negb]; [|by intros [= <-]].
  destruct (take_ws_meta _ _) as [d1 ws] eqn:Ht.
  assert (Hi1 : routes_inverse (dk_orders (remember_ws msg d1 ws))).
  { eapply routes_same; [apply remember_routes|]. eapply routes_same; [by eapply take_routes|].
    apply rename_routes; [by eapply routes_same; [apply reply_routes|]|].
    destruct (reply_routes (rv_desk rv)) as [-> ->]. exact Hf. }
  intros (d2 & H2%core_publish_event%orders_of_core & (d3 & H3 & H4)%bind_Some)%bind_Some.
  assert (Hi3 : dk_orders d3 = dk_orders (remember_ws msg d1 ws)).
  { rewrite <- H2. destruct (Z.eqb (oum_kind msg) ACCEPTED); [by apply core_push_accepted, orders_of_core in H3|by simplify_eq]. }
  set (rv2 := match ws with Some _ => _ | None => _ end) in H4.
  assert (Hi4 : dk_orders (rv_desk rv2) = dk_orders d3).
  { unfold rv2. destruct ws; [apply orders_ws|apply orders_later]. }
  apply bind_Some in H4 as (d4 & H4 & (d5 & H5 & [= <-])%bind_Some). cbn [set_desk rv_desk].
  assert (Hi5 : dk_orders d5 = dk_orders (remember_ws msg d1 ws)).
  { rewrite <- Hi3, <- Hi4. trans (dk_orders d4).
    - destruct (_ || _); [by apply orders_fill in H5|by simplify_eq].
    - destruct (Z.eqb (oum_kind msg) ACCEPTED); [by simplify_eq|by apply core_push_update, orders_of_core in H4]. }
  rewrite <- Hi5 in Hi1. destruct (is_terminal msg); [|done].
  split; [by apply forget_routes|]. intros _ _. by apply forget_routes.
Qed.
End routes.

(** ** The life of a forwarded order *)

Section life.
Context `{HashIter} (now_ms : Z).
Variables (t : OrderTables) (fwd : CounterForwardNewOrder) (e : Z).

Let p : Z := nor_client_order_id (cfn_req fwd).
Let meta : CounterForwardOrderMeta := cfn_meta fwd.

Definition runtime_of (m : CounterForwardOrderMeta) : OrderRuntimeMeta :=
  mkOrderRuntimeMeta (cfm_user_id m) (cfm_freeze_price m) (cfm_qty m) 0 (cfm_side m) (cfm_symbol m) 0 (cfm_initial_margin_atoms m).

(** The tables while the order rests under its engine id [e]. *)
Definition resting : OrderTables :=
  mkOrderTables (<[e := runtime_of meta]> (ot_meta t)) (ot_pending_meta t) (ot_pending t)
    (<[e := cfn_ingress_desk_id fwd]> (ot_origin t)) (<[p := e]> (ot_to_engine t)) (<[e := p]> (ot_to_public t)).

(** Neither the public nor the engine id is in use. *)
Record ids_fresh : Prop := {
  if_public : fresh_id t p;
  if_engine : fresh_id t e;
  if_pending : e ∉ ot_pending t;
  if_to_engine : ot_to_engine t !! p = None;
  if_to_public : ot_to_public t !! e = None;
}.

Hypothesis Hfresh : ids_fresh.

Definition is_update (msg : OrderUpdateMsg) (kind : Z) : Prop :=
  oum_kind msg = kind /\ oum_order_id msg = e /\ oum_client_order_id msg = p.

Section first.
Variables (msg : OrderUpdateMsg) (d : Desk) (uid side : Z) (symbol : bytes).
Hypothesis Hmsg : is_update msg ACCEPTED.
Hypothesis Hd : dk_orders d = entered t p uid (cfn_ingress_desk_id fwd) side symbol meta.

Lemma accepted_lookup : lookup_id msg = e.
Proof. destruct Hmsg as (Hk & Ho & _). unfold lookup_id. by rewrite Hk. Qed.

Lemma accepted_owned : owned msg d = true.
Proof.
  destruct Hmsg as (_ & _ & Hc). unfold owned. rewrite Hc, Hd. cbn. rewrite lookup_insert_eq.
  rewrite (bool_decide_true (is_Some (Some _))) by eauto. by rewrite !orb_true_r.
Qed.

Lemma accepted_reply : reply_pending msg d = d.
Proof.
  unfold reply_pending. rewrite accepted_lookup, Hd. cbn. rewrite bool_decide_false; [done|]. apply Hfresh.
Qed.

Lemma accepted_renamed : dk_orders (rename_accepted msg d) =
  mkOrderTables (<[e := mkOrderRuntimeMeta uid (cfm_freeze_price meta) (cfm_qty meta) 0 side symbol 0
                     (cfm_initial_margin_atoms meta)]> (ot_meta t))
    (<[p := order_meta_from_forward meta]> (ot_pending_meta t)) (ot_pending t)
    (<[e := cfn_ingress_desk_id fwd]> (ot_origin t)) (<[p := e]> (ot_to_engine t)) (<[e := p]> (ot_to_public t)).
Proof.
  destruct Hmsg as (Hk & Ho & Hc). destruct (if_public Hfresh) as (Hm & Hp & Hor).
  unfold rename_accepted. rewrite Hk, Ho, Hc. cbn [Z.eqb ACCEPTED]. unfold map_meta. rewrite Hd. cbn.
  rewrite lookup_insert_eq. cbn. rewrite delete_insert_id by done. f_equal.
  unfold remap_runtime_order_id. destruct (Z.eqb_spec p e) as [->|Hne]; cbn [negb]; [done|].
  rewrite lookup_insert_eq. by rewrite delete_insert_id.
Qed.

(** The first update takes the metadata of the session and the order rests. *)
Lemma accepted_taken d1 ws : take_ws_meta msg (rename_accepted msg d) = (d1, ws) ->
  ws = Some (order_meta_from_forward meta) /\ dk_orders (remember_ws msg d1 ws) = resting.
Proof.
  pose proof accepted_renamed as Hr. destruct Hmsg as (Hk & Ho & Hc).
  destruct (if_engine Hfresh) as (_ & Hpe & _). destruct (if_public Hfresh) as (_ & Hpp & _).
  unfold take_ws_meta. rewrite accepted_lookup, Hc, Hr. cbn [ot_pending_meta].
  assert (Hres : forall d1, dk_orders d1 = OrderTables.set_pending_meta (dk_orders (rename_accepted msg d)) (ot_pending_meta t) ->
            dk_orders (remember_ws msg d1 (Some (order_meta_from_forward meta))) = resting).
  { intros d2 Hd2. unfold remember_ws. rewrite Hk, Ho. cbn. rewrite Hd2, Hr. cbn. unfold resting. f_equal.
    unfold remember_runtime_order. by rewrite insert_insert_eq. }
  destruct (decide (p = e)) as [Heq|Hne].
  - rewrite <- Heq, lookup_insert_eq. intros [= <- <-]. split; [done|]. apply Hres.
    unfold map_pending_meta. cbn. rewrite Hr. cbn. by rewrite delete_insert_id.
  - rewrite lookup_insert_ne by congruence. rewrite Hpe. destruct (Z.eqb_spec e p); [congruence|].
    rewrite lookup_insert_eq. intros [= <- <-]. split; [done|]. apply Hres.
    unfold map_pending_meta. cbn. rewrite Hr. cbn. by rewrite delete_insert_id.
Qed.

Lemma accepted_rests rv rv' : rv_desk rv = d -> handle_update now_ms msg rv = Some rv' ->
  core (rv_desk rv') = (dk_wiring d, dk_risk d, dk_vwap d, resting).
Proof.
  intros Hrv. unfold handle_update. rewrite Hrv, accepted_owned, accepted_reply. cbn [negb].
  destruct (take_ws_meta msg (rename_accepted msg d)) as [d1 ws] eqn:Ht.
  assert (Hr1 : dk_wiring d1 = dk_wiring d /\ dk_risk d1 = dk_risk d /\ dk_vwap d1 = dk_vwap d).
  { revert Ht. unfold take_ws_meta, rename_accepted. repeat case_match; intros; by simplify_eq. }
  destruct (accepted_taken d1 ws Ht) as [Hws Hrest]. subst ws.
  set (d2 := remember_ws msg d1 _) in *.
  assert (Hc2 : core d2 = (dk_wiring d, dk_risk d, dk_vwap d, resting)).
  { unfold core. rewrite Hrest. destruct Hr1 as (<- & <- & <-). unfold d2, remember_ws. by repeat case_match. }
  destruct Hmsg as (Hk & _ & _). rewrite Hk. cbn [Z.eqb ACCEPTED].
  intros (d3 & H3%core_publish_event & (d4 & H4%core_push_accepted & H5)%bind_Some)%bind_Some.
  unfold on_ws_update in H5. rewrite Hk in H5. cbn [Z.eqb ACCEPTED Pos.eqb FILLED PARTIAL_FILL orb mbind option_bind] in H5.
  unfold is_terminal in H5. rewrite Hk in H5. cbn in H5. injection H5 as <-. cbn [set_desk rv_desk].
  trans (core d4); [|by rewrite H4, H3]. unfold add_accepted. case_match; cbn [rv_desk set_desk]; [apply core_upserts|done].
Qed.
End first.

Section second.
Variables (msg : OrderUpdateMsg) (d : Desk).
Hypothesis Hmsg : is_update msg CANCELLED.
Hypothesis Hd : dk_orders d = resting.

Lemma cancelled_owned : owned msg d = true.
Proof.
  destruct Hmsg as (Hk & Ho & Hc). unfold owned, lookup_id. rewrite Hk, Ho, Hd. cbn. rewrite lookup_insert_eq.
  rewrite (bool_decide_true (is_Some (Some _))) by eauto. by rewrite !orb_true_r.
Qed.

Lemma cancelled_taken : take_ws_meta msg (rename_accepted msg (reply_pending msg d)) = (d, None).
Proof.
  destruct Hmsg as (Hk & Ho & Hc). destruct (if_engine Hfresh) as (_ & Hpe & _). destruct (if_public Hfresh) as (_ & Hpp & _).
  assert (Hl : lookup_id msg = e) by (unfold lookup_id; by rewrite Hk).
  unfold reply_pending. rewrite Hl, Hd. cbn. rewrite bool_decide_false by apply Hfresh.
  unfold rename_accepted. rewrite Hk. cbn. unfold take_ws_meta. rewrite Hl, Hd, Hc. cbn.
  rewrite Hpe. fold p. rewrite Hpp. by case_match.
Qed.

Lemma cancelled_forgets d' : dk_orders d' = resting -> dk_orders (forget msg d') = t.
Proof.
  destruct Hmsg as (_ & Ho & Hc). destruct (if_engine Hfresh) as (Hme & _ & Hoe). destruct (if_public Hfresh) as (Hmp & _ & Hop).
  intros Hd'. unfold forget. rewrite Ho, Hc. unfold map_origin. rewrite Hd'. cbn.
  rewrite lookup_insert_eq. cbn. rewrite !delete_insert_id by apply Hfresh. fold p. rewrite (if_to_engine Hfresh). cbn.
  rewrite delete_id by done. unfold remove_runtime_order. rewrite delete_insert_id by done.
  assert ((if negb (Z.eqb e p) then delete p (ot_meta t) else ot_meta t) = ot_meta t) as ->.
  { case_match; [by apply delete_id|done]. }
  unfold OrderTables.set_meta, resting. cbn. by destruct t.
Qed.

(** The cancel gives back the margin of the order and the tables as they were. *)
Lemma cancelled_releases rv rv' : rv_desk rv = d -> 0 < cfm_initial_margin_atoms meta ->
  handle_update now_ms msg rv = Some rv' ->
  core (rv_desk rv') =
    (dk_wiring d, RiskEngine.release_order_margin (dk_risk d) (cfm_user_id meta) (cfm_initial_margin_atoms meta), dk_vwap d, t).
Proof.
  intros Hrv Hpos. unfold handle_update. rewrite Hrv, cancelled_owned, cancelled_taken. cbn [negb remember_ws].
  pose proof Hmsg as (Hk & Ho & _). rewrite Hk. cbn [Z.eqb ACCEPTED CANCELLED Pos.eqb FILLED PARTIAL_FILL orb].
  intros (d1 & H1%core_publish_event & H2)%bind_Some. cbn [mbind option_bind] in H2.
  unfold on_later_update in H2. rewrite Hk in H2. cbn [Z.eqb CANCELLED Pos.eqb set_desk rv_desk] in H2.
  apply core_eq in H1 as Heq. destruct Heq as (_ & _ & Ho1). rewrite Ho1, Hd, Ho in H2. cbn [resting ot_meta runtime_meta] in H2.
  unfold runtime_meta in H2. rewrite lookup_insert_eq in H2. unfold release_margin in H2. cbn [rm_initial_margin_atoms runtime_of rm_user_id] in H2.
  destruct (Z.ltb_spec 0 (cfm_initial_margin_atoms meta)) as [_|]; [|lia].
  apply bind_Some in H2 as (d2 & H2%core_push_update & H3). cbn [mbind option_bind] in H3. unfold is_terminal in H3. rewrite Hk in H3.
  cbn [Z.eqb CANCELLED Pos.eqb FILLED REJECTED orb] in H3. injection H3 as <-. cbn [set_desk rv_desk].
  assert (Hadd : forall rv x, core (rv_desk (add_cancel rv x)) = core (rv_desk rv)).
  { intros rv0 x. unfold add_cancel. case_match; cbn [rv_desk]; [apply core_cancels|done]. }
  rewrite Hadd in H2. cbn [set_desk rv_desk] in H2.
  assert (Hc : core d2 = (dk_wiring d, RiskEngine.release_order_margin (dk_risk d) (cfm_user_id meta)
                 (cfm_initial_margin_atoms meta), dk_vwap d, resting)).
  { rewrite H2. unfold core in H1 |- *. injection H1 as Hw Hrk Hv Hor. cbn. by rewrite Hw, Hrk, Hv, Hor, Hd. }
  unfold core in Hc |- *. injection Hc as Hw Hrk Hv Hor.
  rewrite (cancelled_forgets d2 Hor). unfold forget. cbn. by rewrite Hw, Hrk, Hv.
Qed.

(** While the order rests, a cancel of its public id goes to its engine, under
    the engine's id. *)
Lemma resting_cancel fc : cor_order_id (cfc_req fc) = p -> sym_or [] (cfm_symbol meta) ∈ w_engines (dk_wiring d) ->
  dk_sent (send_forwarded_cancel d fc) =
    vec_push (dk_sent d) (CancelAt (sym_or [] (cfm_symbol meta))
      (mkCancelOrderRequest e (cor_participant_id (cfc_req fc)) (cor_response_stream_id (cfc_req fc)) (cor_pad (cfc_req fc)))).
Proof.
  intros Hp Hen. unfold send_forwarded_cancel. rewrite Hp, Hd. cbn. rewrite lookup_insert_eq.
  unfold route_cancel. rewrite Hd. cbn. unfold runtime_meta. rewrite lookup_insert_eq. cbn.
  unfold has_engine. by rewrite bool_decide_true.
Qed.
End second.
End life.

(** A forwarding desk builds the request and the metadata from one order. *)
Record forward_ok (fwd : CounterForwardNewOrder) : Prop := {
  fo_user : cfm_user_id (cfn_meta fwd) = forward_user fwd;
  fo_symbol : sym_or [] (cfm_symbol (cfn_meta fwd)) = forward_symbol fwd;
  fo_margin : 0 < forward_margin fwd;
}.

(** C5: the life of a forwarded order through both threads, for an order that is
    cancelled before any fill and with no other event between its acceptance,
    the cancel request and the confirmation.  Once the engine has accepted it, a
    cancel of the id its owner knows goes to the engine of its
    symbol, and to no other, under the id the engine gave it; and when the
    engine confirms the cancel, the risk engine is exactly what it was before
    the order came, every atom of the reserved margin given back once, and no
    table remembers the order. *)
Theorem forwarded_order_life `{HashIter} now_ms d fwd d1 e accepted rv1 rv2 fc cancelled rv3 :
  engine_typed (dk_risk d) -> forward_ok fwd -> ids_fresh (dk_orders d) fwd e -> handed_over d fwd d1 ->
  rv_desk rv1 = d1 -> is_update fwd e accepted ACCEPTED -> handle_update now_ms accepted rv1 = Some rv2 ->
  cor_order_id (cfc_req fc) = nor_client_order_id (cfn_req fwd) -> is_update fwd e cancelled CANCELLED ->
  let after_cancel := send_forwarded_cancel (rv_desk rv2) fc in
  handle_update now_ms cancelled (set_desk rv2 after_cancel) = Some rv3 ->
  dk_sent after_cancel = vec_push (dk_sent (rv_desk rv2)) (CancelAt (forward_symbol fwd)
    (mkCancelOrderRequest e (cor_participant_id (cfc_req fc)) (cor_response_stream_id (cfc_req fc)) (cor_pad (cfc_req fc)))) /\
  dk_risk (rv_desk rv3) = dk_risk d /\ dk_orders (rv_desk rv3) = dk_orders d.
Proof.
  intros He Hok Hfr Hho Hd1 Hacc H2 Hfc Hcan after H3.
  destruct (ho_reserved _ _ _ Hho) as (a & Ha & _ & _ & Hrisk).
  assert (Hc2 : core (rv_desk rv2) = (dk_wiring d1, dk_risk d1, dk_vwap d1, resting (dk_orders d) fwd e)).
  { eapply accepted_rests; [exact Hfr|exact Hacc|exact (ho_tables _ _ _ Hho)|exact Hd1|exact H2]. }
  unfold core in Hc2. injection Hc2 as Hw2 Hr2 Hv2 Ho2.
  assert (Hsent : dk_sent after = vec_push (dk_sent (rv_desk rv2)) (CancelAt (forward_symbol fwd)
    (mkCancelOrderRequest e (cor_participant_id (cfc_req fc)) (cor_response_stream_id (cfc_req fc)) (cor_pad (cfc_req fc))))).
  { rewrite <- (fo_symbol _ Hok). eapply resting_cancel; [exact Ho2|exact Hfc|].
    rewrite (fo_symbol _ Hok), Hw2, (ho_wiring _ _ _ Hho). apply Hho. }
  assert (Hafter : dk_risk after = dk_risk d1 /\ dk_orders after = resting (dk_orders d) fwd e).
  { unfold after, send_forwarded_cancel, route_cancel. case_match; [by cbn; rewrite Hr2, Ho2|].
    rewrite (foldl_keep _ dk_risk), (foldl_keep _ dk_orders) by done. by rewrite Hr2, Ho2. }
  destruct Hafter as [Hra Hoa].
  eapply cancelled_releases in H3; [|exact Hfr|exact Hcan|exact Hoa|done|apply Hok].
  unfold core in H3. injection H3 as _ Hr3 _ Ho3. split; [done|]. split; [|done].
  rewrite Hr3, Hra, Hrisk, (fo_user _ Hok). by apply release_reserved.
Qed.

(** *** Examples *)

(** The desk after the forwarded order of the send thread's example. *)
Definition demo_sent : Desk := default demo_funded (send_forwarded demo_funded true demo_forward).
Definition demo_rv (d : Desk) : Recv := mkRecv d Fence_new [] [] [].
Definition demo_accepted : OrderUpdateMsg := OrderUpdateMsg.accepted 900 41 6 1.
Definition demo_cancelled : OrderUpdateMsg := OrderUpdateMsg.cancelled 900 41 6 (f64_to_bits (f64_lit 1 2)) 2.
Definition demo_cancel : CounterForwardCancel :=
  CounterForwardCancel.new 1 (mkCancelOrderRequest 41 6 7 (zeros 4)).
Definition demo_burst (d : Desk) (msgs : list OrderUpdateMsg) : option Desk := rv_desk <$> on_burst 5 (demo_rv d) msgs.

Lemma demo_handed : handed_over demo_funded demo_forward demo_sent.
Proof.
  split; [|vm_compute; reflexivity| | |vm_compute; reflexivity|done].
  - eexists. split; [vm_compute; reflexivity|]. split; [done|]. split; [done|]. vm_compute. reflexivity.
  - apply (bool_decide_unpack _). vm_compute. exact I.
  - done.
Qed.

Lemma demo_forward_ok : forward_ok demo_forward.
Proof. split; [vm_compute; reflexivity|vm_compute; reflexivity|]. vm_compute. reflexivity. Qed.

Lemma demo_fresh : ids_fresh (dk_orders demo_funded) demo_forward 900.
Proof. split; [split; [|split]; reflexivity|split; [|split]; reflexivity| |reflexivity|reflexivity]. apply not_elem_of_empty. Qed.

Lemma forwarded_order_life_witness :
  exists rv2 rv3, handle_update 5 demo_accepted (demo_rv demo_sent) = Some rv2 /\
    handle_update 5 demo_cancelled (set_desk rv2 (send_forwarded_cancel (rv_desk rv2) demo_cancel)) = Some rv3 /\
    dk_risk (rv_desk rv3) = dk_risk demo_funded /\ dk_orders (rv_desk rv3) = dk_orders demo_funded.
Proof.
  destruct (handle_update 5 demo_accepted (demo_rv demo_sent)) as [rv2|] eqn:E2; [|vm_compute in E2; discriminate E2].
  destruct (handle_update 5 demo_cancelled (set_desk rv2 (send_forwarded_cancel (rv_desk rv2) demo_cancel))) as [rv3|] eqn:E3.
  2:{ vm_compute in E2. injection E2 as <-. vm_compute in E3. discriminate E3. }
  exists rv2, rv3. split; [reflexivity|]. split; [exact E3|].
  destruct (forwarded_order_life 5 demo_funded demo_forward demo_sent 900 demo_accepted (demo_rv demo_sent) rv2 demo_cancel
              demo_cancelled rv3 demo_funded_typed demo_forward_ok demo_fresh demo_handed eq_refl
              (conj eq_refl (conj eq_refl eq_refl)) E2 eq_refl (conj eq_refl (conj eq_refl eq_refl)) E3) as (_ & Hr & Ho).
  split; [exact Hr|exact Ho].
Defined.

(** The account of user 6 after a run: the frozen funds in the cache and the
    order margin in the risk engine. *)
Definition funds (d : Desk) : Z * option Z :=
  (ab_frozen_atoms (account_at (dk_accounts d) (6, str "USDT")), ac_order_margin <$> re_accounts (dk_risk d) !! 6).

(** The forwarded order froze 5 USDT of margin; the confirmed cancel releases
    freeze price times quantity, 50 USDT, from the cache. *)
Lemma cancel_releases_notional :
  funds demo_sent = (500000000, Some 500000000) /\
  option_map funds (demo_burst demo_sent [demo_accepted; demo_cancelled]) = Some (-4500000000, Some 0).
Proof. split; vm_compute; reflexivity. Qed.

(** A rejection releases a hundredth of the atoms as whole units: 5,000,000 USDT
    for a margin of 5 USDT. *)
Lemma reject_releases_millionfold :
  option_map funds (demo_burst demo_sent [OrderUpdateMsg.rejected 41 6 1 1]) = Some (-499999500000000, Some 0).
Proof. vm_compute. reflexivity. Qed.

(** An order filled at 90 with a limit of 100 has used 4.5 of the 5 USDT it
    reserved; the rest stays reserved although no order is left. *)
Lemma improvement_stays_reserved :
  let filled := OrderUpdateMsg.filled 900 41 6 (f64_to_bits (i64_as_f64 90)) (f64_to_bits (f64_lit 1 2)) 2 in
  option_map (fun d => ((funds d).2, dk_orders d)) (demo_burst demo_sent [demo_accepted; filled])
  = Some (Some 50000000, dk_orders demo_funded).
Proof. vm_compute. reflexivity. Qed.

(** A cancel after a partial fill releases the whole reservation again: the
    order margin is negative by what the fill had used. *)
Lemma partial_cancel_releases_twice :
  let partial := OrderUpdateMsg.partial_fill 900 41 6 (f64_to_bits (i64_as_f64 100)) (f64_to_bits (f64_lit 1 4))
                   (f64_to_bits (f64_lit 1 4)) 2 in
  option_map (fun d => (funds d).2) (demo_burst demo_sent [demo_accepted; partial; demo_cancelled]) = Some (Some (-250000000)).
Proof. vm_compute. reflexivity. Qed.

Lemma update_routes_witness :
  let d := Desk.set_orders demo_funded (mkOrderTables ∅ ∅ ∅ {[900 := 1]} {[41 := 900]} {[900 := 41]}) in
  exists rv', handle_update 5 demo_cancelled (demo_rv d) = Some rv' /\
    routes_inverse (dk_orders (rv_desk rv')) /\ forgotten (dk_orders (rv_desk rv')) 900 41.
Proof.
  intros d. destruct (handle_update 5 demo_cancelled (demo_rv d)) as [rv'|] eqn:E; [|vm_compute in E; discriminate E].
  exists rv'. split; [reflexivity|]. destruct (update_routes 5 demo_cancelled (demo_rv d) rv') as [Hi Hf].
  - intros p e. cbn. rewrite !lookup_singleton_Some. naive_solver.
  - intros Hk. discriminate Hk.
  - exact E.
  - split; [exact Hi|]. apply Hf; vm_compute; reflexivity.
Defined.
