(* ===== verification/DeskTick.v ===== *)
(** The desk's periodic tasks ([src/src/bin/desk_server.rs]): the risk tick with
    auto-deleveraging and liquidation, and the trigger task with the injection
    of fired orders, its startup hydration and its recovery.

    The clock enters as the age of the last mark of a symbol; what the database
    answers to the statements of an injection is an argument.  The theorems say
    when a liquidation order is emitted and what it is, that rounds of
    liquidation end, and that an injection that fails leaves the margin books
    as they were. *)
From Stdlib Require Import ZArith Lia String.
From stdpp Require Import base numbers list gmap relations.
From S2P Require Import Prelude Bytes Fixed Types F64 Text Money RiskCalc RiskEngine RiskInv RiskTyped Trigger SymbolRules Pod Sbe WsSbe Routing PersistEvent CounterForward RiskPersist Leader Desk DeskSend DeskRecv.

#[local] Open Scope Z_scope.

(** The desk, the counter of order ids and the ring of liquidation orders,
    which the send thread drains first. *)
Record Tick := mkTick {
  tk_desk : Desk;
  tk_next_order_id : Z;
  tk_ring : option (list NewOrderRequest);
}.

Definition LIQ_RING_CAPACITY : nat := 1024.

Definition set_tick_desk (t : Tick) (d : Desk) : Tick := mkTick d (tk_next_order_id t) (tk_ring t).

(** [cmd_tx.push(AeronCmd::NewOrder(req))]; [None] when it is full. *)
Definition ring_push (ring : list NewOrderRequest) (req : NewOrderRequest) : option (list NewOrderRequest) :=
  if Nat.ltb (length ring) LIQ_RING_CAPACITY then Some (vec_push ring req) else None.

(** ** The risk tick *)

Section tick.
Context `{HashIter}.

(** The deleveraging of one symbol, with the frames of both sides. *)
Definition adl_symbol (d : Desk) (sym : bytes) : option Desk :=
  let sym16 := pack_str 16 sym in
  rules ← SymbolRules.for_symbol sym;
  '(risk, adl) ← RiskEngine.run_adl (dk_risk d) sym16 (sr_notional_scale rules) (sr_default_leverage rules)
                   (sr_maintenance_rate_bps rules);
  let d := Desk.set_risk d risk in
  Some (foldl (fun d ev =>
    foldl (fun d uid => publish_frames d (margin_state_events (dk_risk d) uid sym16)) d
      [ad_bankrupt_user_id ev; ad_counterparty_user_id ev]) d adl).

(** What the task knows besides the engine: whether a price index is
    configured, the age of the last mark of a symbol and the age at which a
    mark is stale, and the share of a position to close at a time. *)
Record TickConfig := mkTickConfig {
  tc_index_sources_empty : bool;
  tc_mark_age : Symbol -> option Z;
  tc_mark_freeze_threshold : Z;
  tc_tranche_bps : Z;
}.

Definition mark_stale (cfg : TickConfig) (symbol : Symbol) : bool :=
  match tc_mark_age cfg symbol with
  | Some elapsed => Z.ltb (tc_mark_freeze_threshold cfg) elapsed
  | None => true
  end.

Definition set_liquidating (e : RiskEngine) (user_id : Z) : RiskEngine :=
  RiskEngine.set_accounts e (alter (fun a => RiskEngine.ac_set_status a Liquidating) user_id (re_accounts e)).

Definition liquidation_request (evt : LiquidationEvent) (order_id tranche_lots response_stream_id : Z) : NewOrderRequest :=
  mkNewOrderRequest order_id (wrap_u64 (lq_user_id evt)) (lq_liq_price_ticks evt) tranche_lots
    (match lq_side evt with Long => 1 | Short => 0 end) 1 response_stream_id 0 (zeros 9) (lq_symbol evt).

Definition liquidation_meta (rules : SymbolRules) (evt : LiquidationEvent) (order_id tranche_lots margin_atoms : Z) : OrderMeta :=
  let liq_side := match lq_side evt with Long => 1 | Short => 0 end in
  mkOrderMeta (lq_user_id evt) (lq_symbol evt) liq_side
    (pack_str16 (if Z.eqb liq_side 0 then str "liq-buy" else str "liq-sell")) None
    (f64_to_bits (SymbolRules.lots_to_quantity rules tranche_lots)) (str "liq-" ++ print_nonneg order_id)
    (f64_to_bits f64_zero) margin_atoms (lq_liq_price_ticks evt).

(** One event of the tick. *)
Definition liquidate (cfg : TickConfig) (t : Tick) (evt : LiquidationEvent) : option Tick :=
  if Z.eqb (lq_liq_price_ticks evt) 0 then Some t
  else if tc_index_sources_empty cfg then Some t
  else if mark_stale cfg (lq_symbol evt) then Some t
  else
    let d := Desk.set_risk (tk_desk t) (set_liquidating (dk_risk (tk_desk t)) (lq_user_id evt)) in
    match tk_ring t with
    | None => Some (set_tick_desk t d)
    | Some ring =>
        rules ← SymbolRules.for_symbol (sym_or (str "BTC_USDT") (lq_symbol evt));
        let order_id := tk_next_order_id t in
        tranche_lots ← liquidation_tranche_lots (lq_qty_lots evt) (tc_tranche_bps cfg);
        let mark_ticks := default 0 (RiskEngine.mark_price_ticks (dk_risk d) (lq_symbol evt)) in
        notional ← if Z.ltb 0 mark_ticks then calc_notional_atoms mark_ticks tranche_lots (sr_notional_scale rules) else Some 0;
        margin_atoms ← calc_initial_margin_atoms notional (sr_default_leverage rules);
        let meta := liquidation_meta rules evt order_id tranche_lots margin_atoms in
        let req := liquidation_request evt order_id tranche_lots (w_response_stream_id (dk_wiring d)) in
        let entered := map_pending_meta d (<[order_id := meta]>) in
        Some match ring_push ring req with
             | Some ring => mkTick entered (u64_add order_id 1) (Some ring)
             | None => mkTick (map_pending_meta entered (delete order_id)) (u64_add order_id 1) (Some ring)
             end
    end.

(** The body of the loop: the sweep, the tick and the liquidations. *)
Definition risk_tick (cfg : TickConfig) (symbols : list bytes) (t : Tick) : option Tick :=
  d ← mfold adl_symbol (tk_desk t) symbols;
  let '(risk, to_liquidate) := RiskEngine.run_risk_tick (dk_risk d) in
  mfold (liquidate cfg) (set_tick_desk t (Desk.set_risk d risk)) to_liquidate.

(** ** Triggers *)

(** What the database answers to the statements of one injection. *)
Record TriggerAnswers := mkTriggerAnswers {
  ta_usdt : option Z;
  ta_flipped : bool;
  ta_inserted : bool;
}.

Inductive TriggerOutcome :=
| TrigCancelled (reason : string)
| TrigNoPrice
| TrigLostRace
| TrigInsertFailed
| TrigStranded
| TrigQueued.

(** The arguments of an injection that come from the trigger row. *)
Record TriggerFiring := mkTriggerFiring {
  tf_trigger_id : Z;
  tf_order_id : Z;
  tf_user_id : Z;
  tf_symbol : bytes;
  tf_side : Z;
  tf_is_market : bool;
  tf_price_ticks : option Z;
  tf_qty_lots : Z;
  tf_already_marked : bool;
}.

(** The limit of the order; a market order goes five percent through the mark.
    [None] when there is no mark to convert with. *)
Definition exec_ticks (f : TriggerFiring) (mark : Z) : option Z :=
  match tf_is_market f, tf_price_ticks f with
  | false, Some p => Some p
  | _, _ =>
      if Z.leb mark 0 then None
      else Some (if Z.eqb (tf_side f) 0 then i64_add mark (Z.quot mark 20) else i64_sub mark (Z.quot mark 20))
  end.

(** The account, initialized from the ledger when the engine has none. *)
Definition lazy_account (e : RiskEngine) (user_id : Z) (usdt : option Z) : RiskEngine :=
  match re_accounts e !! user_id with
  | Some _ => e
  | None => RiskEngine.initialize_account e user_id (default 0 usdt)
  end.

Definition trigger_meta (rules : SymbolRules) (f : TriggerFiring) (ticks margin : Z) : OrderMeta :=
  mkOrderMeta (tf_user_id f) (pack_str 16 (tf_symbol f)) (tf_side f)
    (pack_str16 (if tf_is_market f then str "trigger-market" else str "trigger-limit"))
    (Some (f64_to_bits (f64_mul (i64_as_f64 ticks) (sr_price_tick rules))))
    (f64_to_bits (SymbolRules.lots_to_quantity rules (tf_qty_lots f))) (str "trig-" ++ print_nonneg (tf_trigger_id f))
    (f64_to_bits f64_zero) margin 0.

Definition trigger_request (f : TriggerFiring) (ticks response_stream_id : Z) : NewOrderRequest :=
  mkNewOrderRequest (wrap_u64 (tf_order_id f)) (wrap_u64 (tf_user_id f)) ticks (tf_qty_lots f) (tf_side f)
    (if tf_is_market f then 1 else 0) response_stream_id 0 (zeros 9) (pack_str 16 (tf_symbol f)).

Definition inject_trigger_order (t : Tick) (f : TriggerFiring) (a : TriggerAnswers) : option (Tick * TriggerOutcome) :=
  let d := tk_desk t in
  rules ← SymbolRules.for_symbol (tf_symbol f);
  let sym16 := pack_str 16 (tf_symbol f) in
  let mark := default 0 (RiskEngine.mark_price_ticks (dk_risk d) sym16) in
  match exec_ticks f mark with
  | None => Some (t, TrigCancelled "no mark")
  | Some ticks =>
      if Z.leb ticks 0 then Some (t, TrigNoPrice)
      else
        margin ← firing_margin_atoms ticks (tf_qty_lots f) (sr_notional_scale rules) (sr_default_leverage rules);
        let d := Desk.set_risk d (lazy_account (dk_risk d) (tf_user_id f) (ta_usdt a)) in
        match RiskEngine.check_and_reserve_margin (dk_risk d) (tf_user_id f) margin with
        | (_, Err _) => Some (set_tick_desk t d, TrigCancelled "insufficient margin")
        | (risk, Ok _) =>
            let d := Desk.set_risk d risk in
            let release d := Desk.set_risk d (RiskEngine.release_order_margin (dk_risk d) (tf_user_id f) margin) in
            if negb (tf_already_marked f) && negb (ta_flipped a) then Some (set_tick_desk t (release d), TrigLostRace)
            else if negb (ta_inserted a) then Some (set_tick_desk t (release d), TrigInsertFailed)
            else
              let order_id := wrap_u64 (tf_order_id f) in
              let d := map_pending_meta d (<[order_id := trigger_meta rules f ticks margin]>) in
              let d := map_meta d (fun cache => remember_runtime_order cache order_id (tf_user_id f) (f64_to_bits f64_zero)
                         (f64_to_bits (SymbolRules.lots_to_quantity rules (tf_qty_lots f))) (tf_side f) sym16 margin) in
              Some match tk_ring t with
                   | None => (set_tick_desk t d, TrigStranded)
                   | Some ring =>
                       match ring_push ring (trigger_request f ticks (w_response_stream_id (dk_wiring d))) with
                       | Some ring => (mkTick d (tk_next_order_id t) (Some ring), TrigQueued)
                       | None => (set_tick_desk t d, TrigStranded)
                       end
                   end
        end
  end.

(** A pending row of the table; rows with an unknown direction are skipped. *)
Definition trigger_row : Type := Z * Z * bytes * bytes * bytes * Z * string * option Z * Z.

Definition hydrate_trigger (books : gmap bytes TriggerBook) (row : trigger_row) : gmap bytes TriggerBook :=
  let '(id, user_id, symbol, side, order_type, trig, when_s, price, qty) := row in
  match from_db_str when_s with
  | None => books
  | Some when =>
      let book := default TriggerBook.empty (books !! symbol) in
      <[symbol := TriggerBook.insert book when (mkTrigger id user_id (if decide (side = str "buy") then 0 else 1)
          (bool_decide (order_type = str "market")) trig price qty)]> books
  end.

(** A row that was flipped but whose order left no footprint. *)
Definition orphan_row : Type := Z * Z * Z * bytes * bytes * option Z * Z * bytes.

Definition orphan_firing (row : orphan_row) : TriggerFiring :=
  let '(tid, oid, user_id, symbol, side, price, qty, ot) := row in
  mkTriggerFiring tid oid user_id symbol (if decide (side = str "buy") then 0 else 1) (bool_decide (ot = str "market"))
    price qty true.

(** The selection of the recovery query among the triggered rows: [true] when
    the order's id is in neither table. *)
Definition is_orphan (orders events : gset Z) (row : orphan_row) : bool :=
  let '(tid, oid, user_id, symbol, side, price, qty, ot) := row in
  bool_decide (oid ∉ orders) && bool_decide (oid ∉ events).

Definition recover_triggers (t : Tick) (orphans : list orphan_row) (answers : Z -> TriggerAnswers) : option Tick :=
  mfold (fun t row => let f := orphan_firing row in
    fst <$> inject_trigger_order t f (answers (tf_trigger_id f))) t orphans.

(** One firing of the loop, with the next order id. *)
Definition fire (answers : Z -> TriggerAnswers) (symbol : bytes) (t : Tick) (tr : PendingTrigger) : option Tick :=
  let oid := tk_next_order_id t in
  let t := mkTick (tk_desk t) (u64_add oid 1) (tk_ring t) in
  fst <$> inject_trigger_order t (mkTriggerFiring (tg_id tr) (wrap_i64 oid) (tg_user_id tr) symbol (tg_side tr) (tg_is_market tr)
                                    (tg_price_ticks tr) (tg_qty_lots tr) false) (answers (tg_id tr)).

(** The books of all symbols against their marks. *)
Definition fire_book (answers : Z -> TriggerAnswers) (s : gmap bytes TriggerBook * Tick) (x : bytes * TriggerBook)
  : option (gmap bytes TriggerBook * Tick) :=
  let '(books, t) := s in
  let '(symbol, book) := x in
  match RiskEngine.mark_price_ticks (dk_risk (tk_desk t)) (pack_str 16 symbol) with
  | None => Some s
  | Some mark =>
      if TriggerBook.is_empty book then Some s
      else
        '(book, fired) ← TriggerBook.due book mark;
        t ← mfold (fire answers symbol) t fired;
        Some (<[symbol := book]> books, t)
  end.

Definition trigger_tick (answers : Z -> TriggerAnswers) (books : gmap bytes TriggerBook) (t : Tick)
  : option (gmap bytes TriggerBook * Tick) :=
  mfold (fire_book answers) (books, t) (iter_map books).
End tick.

(** ** Rounds of liquidation *)

(** A tranche is at least one lot and at most the position. *)
Lemma tranche_bounds lots bps t : 0 < lots <= i64_max -> 0 <= bps ->
  liquidation_tranche_lots lots bps = Some t -> 1 <= t <= lots.
Proof.
  intros Hl Hb. unfold liquidation_tranche_lots. destruct (Z.leb_spec 10000 bps); cbn [orb]; [intros [= <-]; lia|].
  destruct (Z.leb_spec lots 0); [lia|]. intros (q & Hq & Ht)%bind_Some.
  unfold i128_div, div_panics in Hq. cbn [Z.eqb orb andb] in Hq. rewrite andb_false_r in Hq. injection Hq as <-.
  unfold i128_mul in Ht. rewrite wrap_i128_id in Ht by (unfold in_i128, two127, i64_max in *; nia).
  set (q := Z.quot (lots * bps) 10000) in Ht.
  assert (Hq : 0 <= q <= lots).
  { unfold q. rewrite Z.quot_div_nonneg by nia. split; [apply Z.div_pos; nia|].
    apply Z.div_le_upper_bound; nia. }
  rewrite wrap_i64_id in Ht by (unfold in_i64, i64_min, i64_max in *; lia).
  case_match; injection Ht as <-; lia.
Qed.

Lemma tranche_total lots bps : liquidation_tranche_lots lots bps <> None.
Proof.
  unfold liquidation_tranche_lots. destruct (_ || _); [done|]. unfold i128_div, div_panics. cbn [Z.eqb orb].
  rewrite andb_false_r. cbn [mbind option_bind]. by case_match.
Qed.

(** The side of the order that closes a position. *)
Definition closing_side (s : PositionSide) : Z := match s with Long => 1 | Short => 0 end.

(** The lots of a position that is open, [0] when there is none. *)
Definition open_lots (e : RiskEngine) (uid : Z) (sym : Symbol) : Z := pos_field ps_qty_lots (re_positions e !! (uid, sym)).

(** A fill of a liquidation order: its price, its lots, the maintenance rate and
    the liquidation price it is settled with. *)
Record LiqFill := mkLiqFill { lf_price : Z; lf_lots : Z; lf_rate_bps : Z; lf_liq_price : Z }.

Definition lots_filled (fs : list LiqFill) : Z := foldr (fun f n => lf_lots f + n) 0 fs.

Section rounds.
Context (bps : Z) (uid : Z) (sym : Symbol) (scale : Z).

(** The order of a round: the tranche of the position that is open. *)
Definition round_lots (e : RiskEngine) : option Z :=
  p ← re_positions e !! (uid, sym); liquidation_tranche_lots (ps_qty_lots p) bps.

Definition round_fill (side : Z) (e : RiskEngine) (f : LiqFill) : option RiskEngine :=
  RiskEngine.on_fill e uid sym side (lf_price f) (lf_lots f) 0 scale 0 (lf_rate_bps f) (lf_liq_price f).

(** A round: the immediate-or-cancel order of one tranche is filled by [fs],
    possibly not at all; without a position there is no order. *)
Definition liquidation_round (e : RiskEngine) (fs : list LiqFill) : option RiskEngine :=
  match re_positions e !! (uid, sym) with
  | None => Some e
  | Some p => mfold (round_fill (closing_side (ps_side p))) e fs
  end.

(** What the matching engine can answer to an order of that size. *)
Definition answers (e : RiskEngine) (fs : list LiqFill) : Prop :=
  Forall (fun f => 1 <= lf_lots f) fs /\ forall n, round_lots e = Some n -> lots_filled fs <= n.

(** Each round is answered in the state the rounds before it leave. *)
Fixpoint answered (e : RiskEngine) (rounds : list (list LiqFill)) : Prop :=
  match rounds with
  | [] => True
  | fs :: rounds => answers e fs /\ forall e', liquidation_round e fs = Some e' -> answered e' rounds
  end.

(** How many of the orders were filled completely. *)
Fixpoint complete_rounds (e : RiskEngine) (rounds : list (list LiqFill)) : nat :=
  match rounds with
  | [] => 0
  | fs :: rounds =>
      (if bool_decide (round_lots e = Some (lots_filled fs)) then 1 else 0) +
      match liquidation_round e fs with Some e' => complete_rounds e' rounds | None => 0 end
  end.

(** A position as the engine keeps it. *)
Definition liquidatable (p : PositionRiskState) : Prop := 0 < ps_qty_lots p <= i64_max /\ 0 < ps_leverage p < 2 ^ 32.

(** A fill on the closing side for no more than is open does not panic and takes
    exactly its lots off the position. *)
Lemma closing_update p side price q rate : 0 < scale -> liquidatable p -> side <> ps_side p -> 0 < q <= ps_qty_lots p ->
  exists np rel pnl, RiskEngine.compute_position_update (Some p) uid sym side price q 0 scale 0 rate = Some (np, rel, pnl) /\
    match np with
    | None => q = ps_qty_lots p
    | Some p' => liquidatable p' /\ ps_qty_lots p' = ps_qty_lots p - q /\ ps_side p' = ps_side p
    end.
Proof.
  intros Hs [Hl Hv] Hside Hq. unfold RiskEngine.compute_position_update. rewrite bool_decide_eq_false_2 by congruence.
  assert (Hdiv : forall a b, 0 < b -> i128_div a b = Some (Z.quot a b)).
  { intros a b Hb. unfold i128_div, div_panics. rewrite (proj2 (Z.eqb_neq b 0)), (proj2 (Z.eqb_neq b (-1))), andb_false_r by lia. done. }
  assert (Hdiv64 : forall a b, 0 < b -> i64_div a b = Some (Z.quot a b)).
  { intros a b Hb. unfold i64_div, div_panics. rewrite (proj2 (Z.eqb_neq b 0)), (proj2 (Z.eqb_neq b (-1))), andb_false_r by lia. done. }
  destruct (Z.leb_spec (ps_qty_lots p) q).
  - unfold calc_notional_atoms. rewrite Hdiv by lia. cbn [mbind option_bind].
    assert (q = ps_qty_lots p) as -> by lia.
    rewrite i64_sub_id by (unfold in_i64, i64_min, i64_max in *; lia). rewrite Z.sub_diag. cbn [Z.eqb].
    eexists _, _, _. split; [done|]. done.
  - rewrite Hdiv by lia. cbn [mbind option_bind]. unfold calc_notional_atoms at 1. rewrite Hdiv by lia. cbn [mbind option_bind].
    rewrite Hdiv64 by lia. cbn [mbind option_bind]. unfold RiskEngine.refresh_risk_fields, calc_notional_atoms.
    rewrite Hdiv by lia. cbn [mbind option_bind]. unfold calc_maintenance_margin_atoms. rewrite Hdiv by lia. cbn [mbind option_bind].
    unfold RiskEngine.ps_resize. cbn [ps_leverage ps_side ps_entry_price_ticks].
    unfold calc_liquidation_price_ticks, calc_bankruptcy_price_ticks.
    rewrite (proj2 (Z.eqb_neq (ps_leverage p) 0)) by lia.
    assert (0 < i128_mul (ps_leverage p) 10000) by (unfold i128_mul; rewrite wrap_i128_id; unfold in_i128, two127 in *; lia).
    unfold RiskEngine.refresh_unrealized_pnl, calc_unrealized_pnl_atoms.
    destruct (ps_side p) eqn:Hsd; repeat (rewrite Hdiv by lia; cbn [mbind option_bind ps_side]);
      eexists _, _, _; (split; [done|]); cbn; unfold liquidatable; cbn; rewrite i64_sub_id by (unfold in_i64, i64_min, i64_max in *; lia);
      repeat split; try lia; done.
Qed.

Lemma closing_fill e p f : 0 < scale -> re_positions e !! (uid, sym) = Some p -> liquidatable p -> 1 <= lf_lots f <= ps_qty_lots p ->
  exists e', round_fill (closing_side (ps_side p)) e f = Some e' /\
    match re_positions e' !! (uid, sym) with
    | None => lf_lots f = ps_qty_lots p
    | Some p' => liquidatable p' /\ ps_qty_lots p' = ps_qty_lots p - lf_lots f /\ ps_side p' = ps_side p
    end.
Proof.
  intros Hs Hp Hl Hq. set (side := closing_side (ps_side p)).
  assert (Hside : fill_side_of side <> ps_side p) by (unfold side; by destruct (ps_side p)).
  destruct (closing_update p (fill_side_of side) (settle_price (lf_price f) (lf_liq_price f)) (lf_lots f) (lf_rate_bps f))
    as (np & rel & pnl & Hu & Hnp); [done..|lia|].
  assert (is_Some (round_fill side e f)) as [e' He].
  { unfold round_fill, RiskEngine.on_fill. rewrite (proj2 (Z.leb_gt _ _)) by lia. cbv zeta.
    fold (fill_side_of side). fold (settle_price (lf_price f) (lf_liq_price f)). rewrite Hp, Hu. cbn [mbind option_bind].
    assert (Hn : forall a b, is_Some (calc_notional_atoms a b scale)).
    { intros a b. unfold calc_notional_atoms, i128_div, div_panics.
      rewrite (proj2 (Z.eqb_neq scale 0)), (proj2 (Z.eqb_neq scale (-1))), andb_false_r by lia. by eexists. }
    match goal with |- context [RiskEngine.insurance_delta ?a ?b ?c ?d ?x ?g ?h ?i ?j] =>
      assert (is_Some (RiskEngine.insurance_delta a b c d x g h i j)) as [ins ->] end.
    { unfold RiskEngine.insurance_delta. destruct (Z.ltb _ _); [|by eexists]. destruct (negb _); [|by eexists].
      destruct (Hn (lf_price f) (lf_lots f)) as [v ->]. destruct (Hn (lf_liq_price f) (lf_lots f)) as [v' ->]. by eexists. }
    cbn [mbind option_bind]. destruct np as [p'|]; [|by eexists].
    destruct Hnp as (_ & _ & Hsd). rewrite bool_decide_eq_false_2 by congruence. by eexists. }
  exists e'. split; [done|]. apply on_fill_inv in He as (np' & rel' & pnl' & fm & fd & ins & Hf); [|lia].
  pose proof (fl_update _ _ _ _ _ _ _ _ _ _ _ _ _ _ _ _ _ _ Hf) as Hu'. rewrite Hp, Hu in Hu'. simplify_eq.
  rewrite (fl_positions _ _ _ _ _ _ _ _ _ _ _ _ _ _ _ _ _ _ Hf), put_pos_lookup, decide_True by done. exact Hnp.
Qed.

Lemma lots_filled_nonneg fs : Forall (fun f => 1 <= lf_lots f) fs -> 0 <= lots_filled fs /\ (lots_filled fs = 0 -> fs = []).
Proof. unfold lots_filled. induction 1 as [|f fs Hf _ [IH _]]; cbn in *; [done|]. split; [lia|]. intros. lia. Qed.

(** The fills of one order. *)
Lemma order_fills fs : 0 < scale -> Forall (fun f => 1 <= lf_lots f) fs -> forall e p,
  re_positions e !! (uid, sym) = Some p -> liquidatable p -> lots_filled fs <= ps_qty_lots p ->
  exists e', mfold (round_fill (closing_side (ps_side p))) e fs = Some e' /\
    match re_positions e' !! (uid, sym) with
    | None => lots_filled fs = ps_qty_lots p
    | Some p' => liquidatable p' /\ ps_qty_lots p' = ps_qty_lots p - lots_filled fs /\ ps_side p' = ps_side p
    end.
Proof.
  intros Hs. induction 1 as [|f fs Hf Hfs IH]; intros e p Hp Hl Hle; cbn [mfold lots_filled foldr] in *.
  - exists e. split; [done|]. rewrite Hp. split; [done|]. split; [lia|done].
  - fold (lots_filled fs) in *. destruct (lots_filled_nonneg fs Hfs) as [Hn Hz].
    destruct (closing_fill e p f Hs Hp Hl) as (e1 & -> & H1); [lia|]. cbn [mbind option_bind].
    destruct (re_positions e1 !! (uid, sym)) as [p1|] eqn:Hp1.
    + destruct H1 as (Hl1 & Hq1 & Hs1). rewrite <- Hs1. destruct (IH e1 p1 Hp1 Hl1) as (e2 & -> & H2); [lia|].
      exists e2. split; [done|]. destruct (re_positions e2 !! (uid, sym)); [|lia]. destruct H2 as (? & ? & ?). split; [done|]. split; [lia|congruence].
    + assert (fs = []) as -> by (apply Hz; lia). exists e1. split; [done|]. rewrite Hp1. cbn. lia.
Qed.

(** A round takes the lots that were filled off the position; an order that was
    filled completely takes at least one. *)
Lemma round_closes e fs : 0 <= bps -> 0 < scale -> answers e fs ->
  (forall p, re_positions e !! (uid, sym) = Some p -> liquidatable p) ->
  exists e', liquidation_round e fs = Some e' /\
    (forall p', re_positions e' !! (uid, sym) = Some p' -> liquidatable p' /\
       exists p, re_positions e !! (uid, sym) = Some p /\ ps_side p' = ps_side p) /\
    0 <= open_lots e' uid sym <= open_lots e uid sym /\
    (round_lots e = Some (lots_filled fs) -> open_lots e' uid sym < open_lots e uid sym).
Proof.
  intros Hb Hs [Hfs Hle] Hpos. unfold liquidation_round, round_lots, open_lots in *.
  destruct (re_positions e !! (uid, sym)) as [p|] eqn:Hp; cbn [mbind option_bind] in *.
  2:{ exists e. rewrite Hp. split; [done|]. split; [done|]. by split; [cbn; lia|]. }
  specialize (Hpos p eq_refl). destruct (lots_filled_nonneg fs Hfs) as [Hn _].
  assert (exists n, liquidation_tranche_lots (ps_qty_lots p) bps = Some n /\ 1 <= n <= ps_qty_lots p) as (n & Ht & Hnb).
  { destruct (liquidation_tranche_lots (ps_qty_lots p) bps) as [n|] eqn:Ht; [|by apply tranche_total in Ht].
    exists n. split; [done|]. destruct Hpos as [Hl _]. by apply (tranche_bounds _ bps). }
  specialize (Hle n Ht). destruct (order_fills fs Hs Hfs e p Hp Hpos) as (e' & He & H'); [lia|].
  exists e'. split; [done|]. rewrite Ht. destruct (re_positions e' !! (uid, sym)) as [p'|]; cbn [pos_field].
  - destruct H' as (Hl' & Hq & Hsd). split; [intros ? [= <-]; by split; [|exists p]|]. destruct Hl' as [Hl' _].
    split; [lia|]. intros [= Heq]. lia.
  - split; [done|]. split; [lia|]. intros [= Heq]. lia.
Qed.

(** C22: liquidation makes progress and ends.  Take any sequence of liquidation
    rounds on a position: each sends an order of one tranche of what is open, and
    the engine fills it in any number of pieces, in part, in full or not at all,
    at any prices.  No round panics; the position never grows and never changes
    sides, also when the tranche is configured so small that it rounds to
    nothing; and every order that is filled completely closes at least one lot,
    so that a position of [n] lots is gone after at most [n] such orders,
    however many unfilled or partly filled ones come between. *)
Theorem liquidation_terminates e rounds : 0 <= bps -> 0 < scale ->
  (forall p, re_positions e !! (uid, sym) = Some p -> liquidatable p) -> answered e rounds ->
  exists e', mfold liquidation_round e rounds = Some e' /\
    (forall p', re_positions e' !! (uid, sym) = Some p' ->
       exists p, re_positions e !! (uid, sym) = Some p /\ ps_side p' = ps_side p /\ ps_qty_lots p' <= ps_qty_lots p) /\
    0 <= open_lots e' uid sym <= open_lots e uid sym - Z.of_nat (complete_rounds e rounds) /\
    (open_lots e uid sym <= Z.of_nat (complete_rounds e rounds) -> re_positions e' !! (uid, sym) = None).
Proof.
  intros Hb Hs. revert e. induction rounds as [|fs rounds IH]; intros e Hpos; cbn [answered complete_rounds mfold].
  - intros _. exists e. split; [done|]. split; [intros p' Hp'; by exists p'|]. unfold open_lots.
    destruct (re_positions e !! (uid, sym)) as [p|] eqn:Hp; [|split; [cbn; lia|done]].
    destruct (Hpos p eq_refl) as [Hl _]. cbn. split; [lia|]. intros. lia.
  - intros [Ha Hr]. destruct (round_closes e fs Hb Hs Ha Hpos) as (e1 & He & Hp1 & Hle & Hlt). rewrite He. cbn [mbind option_bind].
    destruct (IH e1) as (e' & He' & Hp' & Hb' & Hg'); [by intros p1 H1; apply (Hp1 p1 H1)|by apply Hr|].
    exists e'. split; [done|].
    assert (Hc : Z.of_nat ((if bool_decide (round_lots e = Some (lots_filled fs)) then 1 else 0) + complete_rounds e1 rounds) <=
      open_lots e uid sym - open_lots e1 uid sym + Z.of_nat (complete_rounds e1 rounds)).
    { destruct (bool_decide _) eqn:Hbd; [|lia]. apply bool_decide_eq_true, Hlt in Hbd. lia. }
    split; [|split; [lia|intros; apply Hg'; lia]].
    intros p' H'. destruct (Hp' p' H') as (p1 & H1 & Hs1 & Hq1). destruct (Hp1 p1 H1) as (_ & p & Hp & Hsp).
    exists p. split; [done|]. split; [congruence|]. unfold open_lots in Hle. rewrite H1, Hp in Hle. cbn in Hle. lia.
Qed.
End rounds.

(** A long position of ten lots. *)
Definition demo_long : RiskEngine :=
  default RiskEngine.new (RiskEngine.on_fill RiskEngine.new 1 demo_btc 0 6400000 10 0 1000000 10 50 0).

(** Half of it is ordered and not filled, then ordered and filled in two pieces,
    then half of the rest and so on: one lot at a time at the end. *)
Definition demo_rounds : list (list LiqFill) :=
  let fill n := mkLiqFill 6200000 n 50 6300000 in
  [[]; [fill 2; fill 3]; [fill 2]; [fill 1]; [fill 1]; [fill 1]].

Lemma liquidation_terminates_witness :
  open_lots demo_long 1 demo_btc = 10 /\ complete_rounds 5000 1 demo_btc 1000000 demo_long demo_rounds = 5%nat /\
  exists e', mfold (liquidation_round 1 demo_btc 1000000) demo_long demo_rounds = Some e' /\
    0 <= open_lots e' 1 demo_btc <= 5.
Proof.
  split; [vm_compute; reflexivity|]. split; [vm_compute; reflexivity|].
  destruct (liquidation_terminates 5000 1 demo_btc 1000000 demo_long demo_rounds) as (e' & He & _ & Hb & _); [lia|lia| | |].
  - intros p Hp. vm_compute in Hp. injection Hp as <-. vm_compute. intuition congruence.
  - cbn [answered demo_rounds].
    repeat (split; [split; [repeat constructor; cbn; lia|intros n Hn; vm_compute in Hn; injection Hn as <-; cbn; lia]
                   |intros e1 He1; vm_compute in He1; injection He1 as <-]).
    exact I.
  - exists e'. split; [exact He|]. replace (open_lots demo_long 1 demo_btc) with 10 in Hb by (vm_compute; reflexivity).
    replace (complete_rounds _ _ _ _ _ _) with 5%nat in Hb by (vm_compute; reflexivity). lia.
Defined.


(** ** What a liquidation order is *)

(** C24: the risk tick emits a liquidation order only for a position with a
    liquidation price, with a price index configured and a fresh mark; the
    order is an immediate-or-cancel limit at that price, on the side that
    closes the position, for at least one lot and no more than the position;
    its account is marked as being liquidated before it is queued, and an event
    that is skipped changes nothing. *)
Theorem liquidation_guarded cfg t evt t' :
  0 < lq_qty_lots evt <= i64_max -> 0 <= tc_tranche_bps cfg -> liquidate cfg t evt = Some t' ->
  t' = t \/
  (lq_liq_price_ticks evt <> 0 /\ tc_index_sources_empty cfg = false /\ mark_stale cfg (lq_symbol evt) = false /\
   dk_risk (tk_desk t') = set_liquidating (dk_risk (tk_desk t)) (lq_user_id evt) /\
   (tk_ring t' = tk_ring t \/
    exists ring req, tk_ring t = Some ring /\ tk_ring t' = Some (vec_push ring req) /\
      nor_client_order_id req = tk_next_order_id t /\ nor_time_in_force req = 1 /\
      nor_price_ticks req = lq_liq_price_ticks evt /\ nor_symbol req = lq_symbol evt /\
      fill_side_of (nor_side req) <> lq_side evt /\ 1 <= nor_quantity_lots req <= lq_qty_lots evt)).
Proof.
  intros Hl Hb. unfold liquidate. destruct (Z.eqb_spec (lq_liq_price_ticks evt) 0) as [|Hz]; [intros [= <-]; by left|].
  destruct (tc_index_sources_empty cfg) eqn:Hi; [intros [= <-]; by left|].
  destruct (mark_stale cfg (lq_symbol evt)) eqn:Hm; [intros [= <-]; by left|]. intros H. right.
  do 3 (split; [done|]). destruct (tk_ring t) as [ring|] eqn:Hr; [|simplify_eq; split; [done|by left]].
  repeat (apply bind_Some in H as (? & ? & H)). injection H as <-.
  destruct (ring_push ring _) as [ring'|] eqn:Hp; [|split; [done|by left]]. split; [done|]. right.
  unfold ring_push in Hp. case_match; [|done]. injection Hp as <-.
  exists ring. eexists. split; [done|]. split; [done|]. do 4 (split; [done|]).
  split; [by cbn; destruct (lq_side evt)|]. cbn. by eapply tranche_bounds.
Qed.

Definition demo_tick_config : TickConfig := mkTickConfig false (fun _ => Some 5) 10 5000.
Definition demo_event : LiquidationEvent := mkLiquidationEvent 1 demo_btc Long 10 6300000.
Definition demo_tick : Tick := mkTick (Desk.set_risk (demo_desk ∅) demo_long) 77 (Some []).

Lemma liquidation_guarded_witness :
  exists t' req, liquidate demo_tick_config demo_tick demo_event = Some t' /\ tk_ring t' = Some [req] /\
    nor_price_ticks req = 6300000 /\ 1 <= nor_quantity_lots req <= 10.
Proof.
  destruct (liquidate demo_tick_config demo_tick demo_event) as [t'|] eqn:E; [|vm_compute in E; discriminate E].
  destruct (liquidation_guarded demo_tick_config demo_tick demo_event t') as [Ht|(_ & _ & _ & _ & [Ht|Ht])].
  - cbn. unfold i64_max. lia.
  - cbn. lia.
  - exact E.
  - exfalso. subst t'. vm_compute in E. discriminate E.
  - exfalso. apply (f_equal (option_map tk_ring)) in E. change (option_map tk_ring (Some t')) with (Some (tk_ring t')) in E.
    rewrite Ht in E. vm_compute in E. discriminate E.
  - destruct Ht as (ring & req & Hr & Hr' & _ & _ & Hp & _ & _ & Hq). injection Hr as <-.
    exists t', req. split; [reflexivity|]. split; [exact Hr'|]. split; [exact Hp|exact Hq].
Defined.

(** ** Injections *)

(** The desk with only its margin engine changed. *)
Definition with_risk (t : Tick) (e : RiskEngine) : Tick := set_tick_desk t (Desk.set_risk (tk_desk t) e).

Lemma lazy_typed e uid usdt : engine_typed e -> in_i64 uid -> in_i64 (default 0 usdt) -> engine_typed (lazy_account e uid usdt).
Proof.
  intros He Hu Hd. unfold lazy_account. case_match; [done|].
  by apply (exec_typed e (CallInitialize uid (default 0 usdt))).
Qed.

(** C23: the injection of a fired trigger.  When it ends before the order is
    offered to the engine's queue, the margin books are exactly what they were,
    but for the account the injection may have created from the ledger, and no
    table knows the order: the reservation is made before the status of the
    trigger is flipped and given back when the flip loses to a cancel or the row
    cannot be written.  From there on the margin of the order has been moved from
    the available to the order margin exactly once and its metadata is stored:
    also when the queue is full or missing, where both stay behind although the
    order does not reach the engine. *)
Theorem injection_books t f a t' out :
  engine_typed (dk_risk (tk_desk t)) -> in_i64 (tf_user_id f) -> in_i64 (default 0 (ta_usdt a)) ->
  inject_trigger_order t f a = Some (t', out) ->
  let e := lazy_account (dk_risk (tk_desk t)) (tf_user_id f) (ta_usdt a) in
  match out with
  | TrigQueued | TrigStranded =>
      exists acct margin, re_accounts e !! tf_user_id f = Some acct /\ margin <= ac_available_margin acct /\
        (tf_already_marked f = false -> ta_flipped a = true) /\
        dk_risk (tk_desk t') = RiskEngine.set_accounts e (<[tf_user_id f := RiskEngine.ac_set_margins acct
          (i64_sub (ac_available_margin acct) margin) (i64_add (ac_order_margin acct) margin)]> (re_accounts e)) /\
        om_initial_margin_atoms <$> ot_pending_meta (dk_orders (tk_desk t')) !! wrap_u64 (tf_order_id f) = Some margin /\
        (out = TrigQueued -> exists ring req, tk_ring t = Some ring /\ tk_ring t' = Some (vec_push ring req) /\
           nor_client_order_id req = wrap_u64 (tf_order_id f) /\ nor_quantity_lots req = tf_qty_lots f)
  | _ => t' = t \/ t' = with_risk t e
  end.
Proof.
  intros He Hu Hd. unfold inject_trigger_order. intros (rules & _ & H)%bind_Some.
  destruct (exec_ticks f _) as [ticks|]; [|simplify_eq; by left].
  destruct (Z.leb ticks 0); [simplify_eq; by left|]. apply bind_Some in H as (margin & _ & H).
  cbn [Desk.set_risk dk_risk] in H. set (e := lazy_account _ _ _) in *.
  assert (Hte : engine_typed e) by (by apply lazy_typed).
  destruct (RiskEngine.check_and_reserve_margin e _ _) as [risk [m|reason]] eqn:Hm; [|simplify_eq; by right].
  pose proof (reserve_release _ _ _ _ _ Hte Hm) as Hrel.
  destruct (negb (tf_already_marked f) && negb (ta_flipped a)) eqn:Hflip.
  { simplify_eq. right. unfold with_risk. by rewrite <- Hrel. }
  destruct (negb (ta_inserted a)).
  { simplify_eq. right. unfold with_risk. by rewrite <- Hrel. }
  apply reserve_spec in Hm as (acct & Ha & _ & Hle & ->).
  assert (Hmark : tf_already_marked f = false -> ta_flipped a = true).
  { intros Hmk. rewrite Hmk in Hflip. by destruct (ta_flipped a). }
  injection H as H. destruct (tk_ring t) as [ring|] eqn:Hr.
  - unfold ring_push in H. case_match; simplify_eq; exists acct, margin; do 4 (split; [done|]);
      cbn; rewrite lookup_insert_eq; (split; [done|]); intros Hout; [|done].
    case_match; [|done]. simplify_eq. exists ring. eexists. split; [reflexivity|]. split; [reflexivity|]. done.
  - simplify_eq. exists acct, margin. do 4 (split; [done|]). cbn. rewrite lookup_insert_eq. by split.
Qed.

Definition demo_market : TriggerFiring := mkTriggerFiring 3 500 6 (str "BTC_USDT") 1 false (Some 10000) 500000 false.
Definition demo_trigger_tick : Tick := mkTick demo_funded 77 (Some []).

Lemma injection_books_witness :
  exists t', inject_trigger_order demo_trigger_tick demo_market (mkTriggerAnswers None false true) = Some (t', TrigLostRace) /\
    (t' = demo_trigger_tick \/ t' = with_risk demo_trigger_tick (lazy_account (dk_risk demo_funded) 6 None)).
Proof.
  eexists. split; [vm_compute; reflexivity|].
  apply (injection_books demo_trigger_tick demo_market (mkTriggerAnswers None false true) _ TrigLostRace).
  - apply demo_funded_typed.
  - cbn. unfold in_i64, i64_min, i64_max. lia.
  - cbn. unfold in_i64, i64_min, i64_max. lia.
  - vm_compute. reflexivity.
Defined.

(** *** Where the tasks lose track of margin *)

(** A liquidation order reserves no margin, but its metadata carries one.  When
    the order is cancelled for want of liquidity, the release credits the
    account with it: the available margin grows and the order margin is
    negative. *)
Definition demo_debtor : Tick :=
  with_risk (mkTick demo_funded 77 (Some []))
    (default RiskEngine.new (RiskEngine.on_fill (dk_risk demo_funded) 6 demo_btc 0 6400000 1000 0 1000000 10 50 0)).

Definition demo_liq_cancelled : OrderUpdateMsg := OrderUpdateMsg.cancelled 901 77 6 (f64_to_bits (f64_lit 1 1000)) 2.

Definition margins (d : Desk) : option (Z * Z) :=
  (fun a => (ac_available_margin a, ac_order_margin a)) <$> re_accounts (dk_risk d) !! 6.

Lemma liquidation_cancel_credits :
  margins (tk_desk demo_debtor) = Some (1000000000, 0) /\
  option_map margins (t ← liquidate demo_tick_config demo_debtor (mkLiquidationEvent 6 demo_btc Long 1000 5800000);
                      req ← tk_ring t ≫= head; d ← send_liquidation (tk_desk t) req; demo_burst d [demo_liq_cancelled])
  = Some (Some (1320000000, -320000000)).
Proof. split; vm_compute; reflexivity. Qed.

(** A trigger whose order found the engine's queue full keeps its margin, and
    the recovery query passes it over, because its row in [orders] was written
    before the push. *)
Lemma stranded_not_recovered :
  let full := mkTick demo_funded 77 (Some (replicate LIQ_RING_CAPACITY demo_request)) in
  option_map (fun r => (r.2, margins (tk_desk r.1))) (inject_trigger_order full demo_market (mkTriggerAnswers None true true))
  = Some (TrigStranded, Some (500000000, 500000000)) /\
  is_orphan {[500]} ∅ (3, 500, 6, str "BTC_USDT", str "sell", Some 10000, 500000, str "limit") = false.
Proof. split; vm_compute; reflexivity. Qed.
