(* ===== verification/Custody.v ===== *)
(** The ledger of spot balances in the database
    ([src/src/desk/account_repository.rs]) and the handlers that bring money in
    and out of the exchange ([src/src/desk/api.rs]: deposit credit, withdrawal
    request, withdrawal status).

    A method of the repository is one transaction: it returns the new ledger, or
    an error and leaves the ledger as it is, also when a constraint of the
    schema ([src/migrations]) fails.  The theorems say that the balances of the
    users never exceed what was deposited less what was withdrawn, that the
    append-only audit replays to every balance, and that a withdrawal the chain
    has executed can always be confirmed, is debited once and stays terminal. *)
From Stdlib Require Import ZArith Lia String.
From stdpp Require Import base numbers list gmap.
From S2P Require Import Prelude Bytes Fixed Types F64 Text Money Routing Sbe PersistEvent PgStore PgTables Desk.

#[local] Open Scope Z_scope.

(** ** Tables *)

(** [CHECK (status IN (...))] of table [withdrawals]. *)
Inductive WdStatus :=
  WdPending | WdApproved | WdBroadcast | WdConfirmed | WdFailed | WdCancelled.

#[export] Instance WdStatus_eq_dec : EqDecision WdStatus.
Proof. solve_decision. Defined.

Record Withdrawal := mkWithdrawal {
  wd_user_id : Z;
  wd_asset : bytes;
  wd_chain : bytes;
  wd_to_address : bytes;
  wd_amount_atoms : Z;
  wd_fee_atoms : Z;
  wd_status : WdStatus;
  wd_tx_hash : option bytes;
  wd_fail_reason : option bytes;
}.

Record ChainDeposit := mkChainDeposit {
  cd_user_id : Z;
  cd_asset : bytes;
  cd_amount_atoms : Z;
  cd_from_address : option bytes;
  cd_to_address : option bytes;
}.

(** The kinds of table [fund_audit]. *)
Inductive AuditKind :=
  AkDeposit | AkFreeze | AkRelease | AkSettleDebit | AkSettleCredit | AkWdFreeze | AkWdRelease | AkWdDebit.

#[export] Instance AuditKind_eq_dec : EqDecision AuditKind.
Proof. solve_decision. Defined.

Record FundAudit := mkFundAudit {
  fa_user_id : Z;
  fa_asset : bytes;
  fa_kind : AuditKind;
  fa_amount_atoms : Z;
  fa_ref_id : Z;
}.

(** [lg_next_id] is the sequence of [withdrawals.id]; [lg_trades] the pairs of
    table [trades] with price and quantity. *)
Record Ledger := mkLedger {
  lg_users : gset Z;
  lg_accounts : gmap (Z * bytes) AccountBalance;
  lg_deposits : gmap (bytes * bytes * Z) ChainDeposit;
  lg_withdrawals : gmap Z Withdrawal;
  lg_next_id : Z;
  lg_trades : gmap (Z * Z) (bytes * Z * Z);
  lg_audit : list FundAudit;
}.

Module Ledger.
Definition new (users : gset Z) : Ledger := mkLedger users ∅ ∅ ∅ 1 ∅ [].
Definition set_accounts (l : Ledger) (x : gmap (Z * bytes) AccountBalance) : Ledger :=
  mkLedger (lg_users l) x (lg_deposits l) (lg_withdrawals l) (lg_next_id l) (lg_trades l) (lg_audit l).
Definition set_deposits (l : Ledger) (x : gmap (bytes * bytes * Z) ChainDeposit) : Ledger :=
  mkLedger (lg_users l) (lg_accounts l) x (lg_withdrawals l) (lg_next_id l) (lg_trades l) (lg_audit l).
Definition set_withdrawals (l : Ledger) (x : gmap Z Withdrawal) (next : Z) : Ledger :=
  mkLedger (lg_users l) (lg_accounts l) (lg_deposits l) x next (lg_trades l) (lg_audit l).
Definition set_trades (l : Ledger) (x : gmap (Z * Z) (bytes * Z * Z)) : Ledger :=
  mkLedger (lg_users l) (lg_accounts l) (lg_deposits l) (lg_withdrawals l) (lg_next_id l) x (lg_audit l).
Definition set_audit (l : Ledger) (x : list FundAudit) : Ledger :=
  mkLedger (lg_users l) (lg_accounts l) (lg_deposits l) (lg_withdrawals l) (lg_next_id l) (lg_trades l) x.
End Ledger.

Inductive RepoError :=
  | BadAmount
  | TotalOverflow
  | Insufficient
  | NotFound
  | NotConfirmable (status : WdStatus)
  | AlreadyConfirmed
  | SellFeeExceedsCost
  | Money (e : MoneyError)
  | DbError.

(** ** Statements *)

(** The length a [VARCHAR] column counts: characters of UTF-8 text. *)
Definition char_count (bs : bytes) : nat :=
  length (List.filter (fun b => negb (Z.eqb (Z.land b 192) 128)) bs).

(** The constraints on a row of [accounts]. *)
Definition account_ok (l : Ledger) (user_id : Z) (b : AccountBalance) : bool :=
  bool_decide (user_id ∈ lg_users l) && Z.leb 0 (ab_frozen_atoms b)
  && Z.leb (ab_frozen_atoms b) (ab_balance_atoms b) && Z.leb (ab_balance_atoms b) i64_max.

Definition write_account (l : Ledger) (k : Z * bytes) (b : AccountBalance) : result Ledger RepoError :=
  if account_ok l k.1 b then Ok (Ledger.set_accounts l (<[k := b]> (lg_accounts l))) else Err DbError.

(** [UPDATE accounts SET .. WHERE user_id = .. AND asset = ..]; no row, no change. *)
Definition update_account (l : Ledger) (k : Z * bytes) (f : AccountBalance -> AccountBalance)
  : result Ledger RepoError :=
  match lg_accounts l !! k with
  | None => Ok l
  | Some b => write_account l k (f b)
  end.

(** [INSERT INTO accounts .. ON CONFLICT DO UPDATE SET balance_atoms = .. + amount]. *)
Definition credit_account (l : Ledger) (k : Z * bytes) (amount : Z) : result Ledger RepoError :=
  match lg_accounts l !! k with
  | None => if Nat.leb (char_count k.2) 20 then write_account l k (mkAccountBalance amount 0) else Err DbError
  | Some b => write_account l k (mkAccountBalance (ab_balance_atoms b + amount) (ab_frozen_atoms b))
  end.

Definition debit (total : Z) (b : AccountBalance) : AccountBalance :=
  mkAccountBalance (ab_balance_atoms b - total) (ab_frozen_atoms b - total).

(** [fund_audit]; the column holds sixteen characters. *)
Definition fund_audit (l : Ledger) (user_id : Z) (asset : bytes) (kind : AuditKind) (amount_atoms ref_id : Z)
  : result Ledger RepoError :=
  if Nat.leb (char_count asset) 16
  then Ok (Ledger.set_audit l (lg_audit l ++ [mkFundAudit user_id asset kind amount_atoms ref_id]))
  else Err DbError.

(** ** Deposits *)

Definition credit_chain_deposit (l : Ledger) (chain tx_hash : bytes) (log_index user_id : Z) (asset : bytes)
  (amount_atoms : Z) (from_address to_address : option bytes) : result ((bool * Z) * Ledger) RepoError :=
  if Z.leb amount_atoms 0 then Err BadAmount
  else
    match lg_deposits l !! (chain, tx_hash, log_index) with
    | Some _ => Ok ((false, from_option ab_balance_atoms 0 (lg_accounts l !! (user_id, asset))), l)
    | None =>
        let l := Ledger.set_deposits l (<[(chain, tx_hash, log_index) :=
                   mkChainDeposit user_id asset amount_atoms from_address to_address]> (lg_deposits l)) in
        l ←? credit_account l (user_id, asset) amount_atoms;
        let new_balance := from_option ab_balance_atoms 0 (lg_accounts l !! (user_id, asset)) in
        l ←? fund_audit l user_id asset AkDeposit amount_atoms 0;
        Ok ((true, new_balance), l)
    end.

(** ** Withdrawals *)

(** [UPDATE accounts SET frozen_atoms = frozen_atoms + total .. WHERE .. AND
    (balance_atoms - frozen_atoms) >= total RETURNING ..]. *)
Definition freeze_row (l : Ledger) (k : Z * bytes) (total : Z) : result (AccountBalance * Ledger) RepoError :=
  match lg_accounts l !! k with
  | None => Err Insufficient
  | Some b =>
      if Z.leb total (ab_balance_atoms b - ab_frozen_atoms b) then
        let b := mkAccountBalance (ab_balance_atoms b) (ab_frozen_atoms b + total) in
        l ←? write_account l k b; Ok (b, l)
      else Err Insufficient
  end.

Definition request_withdrawal (l : Ledger) (user_id : Z) (asset chain to_address : bytes)
  (amount_atoms fee_atoms : Z) : result ((Z * AccountBalance) * Ledger) RepoError :=
  if Z.leb amount_atoms 0 || Z.ltb fee_atoms 0 then Err BadAmount
  else
    match i64_checked_add amount_atoms fee_atoms with
    | None => Err TotalOverflow
    | Some total =>
        frozen ←? freeze_row l (user_id, asset) total;
        let '(balance, l) := frozen in
        let id := lg_next_id l in
        let l := Ledger.set_withdrawals l (<[id := mkWithdrawal user_id asset chain to_address amount_atoms
                   fee_atoms WdPending None None]> (lg_withdrawals l)) (id + 1) in
        l ←? fund_audit l user_id asset AkWdFreeze total id;
        Ok ((id, balance), l)
    end.

Definition with_status (w : Withdrawal) (status : WdStatus) (tx_hash fail_reason : option bytes) : Withdrawal :=
  mkWithdrawal (wd_user_id w) (wd_asset w) (wd_chain w) (wd_to_address w) (wd_amount_atoms w) (wd_fee_atoms w)
    status tx_hash fail_reason.

(** [COALESCE($4, tx_hash)] *)
Definition set_withdrawal_status (l : Ledger) (id : Z) (from to : WdStatus) (tx_hash : option bytes)
  : bool * Ledger :=
  match lg_withdrawals l !! id with
  | None => (false, l)
  | Some w =>
      if decide (wd_status w = from) then
        (true, Ledger.set_withdrawals l (<[id := with_status w to
                 (match tx_hash with Some h => Some h | None => wd_tx_hash w end) (wd_fail_reason w)]>
                 (lg_withdrawals l)) (lg_next_id l))
      else (false, l)
  end.

Definition confirm_withdrawal (l : Ledger) (id : Z) (tx_hash : bytes) : result (bool * Ledger) RepoError :=
  match lg_withdrawals l !! id with
  | None => Err NotFound
  | Some w =>
      match wd_status w with
      | WdConfirmed => Ok (false, l)
      | WdApproved | WdBroadcast =>
          match i64_checked_add (wd_amount_atoms w) (wd_fee_atoms w) with
          | None => Err TotalOverflow
          | Some total =>
              l ←? update_account l (wd_user_id w, wd_asset w) (debit total);
              let l := Ledger.set_withdrawals l (<[id := with_status w WdConfirmed (Some tx_hash) (wd_fail_reason w)]>
                         (lg_withdrawals l)) (lg_next_id l) in
              l ←? fund_audit l (wd_user_id w) (wd_asset w) AkWdDebit total id;
              Ok (true, l)
          end
      | status => Err (NotConfirmable status)
      end
  end.

Definition fail_withdrawal (l : Ledger) (id : Z) (reason : bytes) : result (bool * Ledger) RepoError :=
  match lg_withdrawals l !! id with
  | None => Err NotFound
  | Some w =>
      match wd_status w with
      | WdFailed | WdCancelled => Ok (false, l)
      | WdConfirmed => Err AlreadyConfirmed
      | _ =>
          match i64_checked_add (wd_amount_atoms w) (wd_fee_atoms w) with
          | None => Err TotalOverflow
          | Some total =>
              l ←? update_account l (wd_user_id w, wd_asset w)
                (fun b => mkAccountBalance (ab_balance_atoms b) (ab_frozen_atoms b - total));
              let l := Ledger.set_withdrawals l (<[id := with_status w WdFailed (wd_tx_hash w) (Some reason)]>
                         (lg_withdrawals l)) (lg_next_id l) in
              l ←? fund_audit l (wd_user_id w) (wd_asset w) AkWdRelease total id;
              Ok (true, l)
          end
      end
  end.

(** ** Holds of orders and settlement *)

Definition ensure_account (l : Ledger) (user_id : Z) (asset : bytes) : result Ledger RepoError :=
  match lg_accounts l !! (user_id, asset) with
  | Some _ => Ok l
  | None => credit_account l (user_id, asset) 0
  end.

Definition freeze_atoms (l : Ledger) (user_id : Z) (asset : bytes) (amount : Z)
  : result (AccountBalance * Ledger) RepoError :=
  if Z.ltb amount 0 then Err BadAmount
  else
    frozen ←? freeze_row l (user_id, asset) amount;
    let '(balance, l) := frozen in
    l ←? fund_audit l user_id asset AkFreeze amount 0;
    Ok (balance, l).

Definition money {A} (r : result A MoneyError) : result A RepoError :=
  match r with Ok x => Ok x | Err e => Err (Money e) end.

(** [freeze_for_buy] and [freeze_for_sell]. *)
Definition freeze_f64 (l : Ledger) (user_id : Z) (asset : bytes) (amount : f64)
  : result (AccountBalance * Ledger) RepoError :=
  atoms ←? money (AmountAtoms.from_f64_round amount); freeze_atoms l user_id asset atoms.

(** [GREATEST(frozen_atoms - amount, 0)] *)
Definition release_frozen_atoms (l : Ledger) (user_id : Z) (asset : bytes) (amount : Z)
  : result (AccountBalance * Ledger) RepoError :=
  if Z.ltb amount 0 then Err BadAmount
  else
    match lg_accounts l !! (user_id, asset) with
    | None => Ok (mkAccountBalance 0 0, l)
    | Some b =>
        let b := mkAccountBalance (ab_balance_atoms b) (Z.max (ab_frozen_atoms b - amount) 0) in
        l ←? write_account l (user_id, asset) b;
        l ←? fund_audit l user_id asset AkRelease amount 0;
        Ok (b, l)
    end.

Definition release_frozen (l : Ledger) (user_id : Z) (asset : bytes) (amount : f64)
  : result (AccountBalance * Ledger) RepoError :=
  atoms ←? money (AmountAtoms.from_f64_round amount); release_frozen_atoms l user_id asset atoms.

Record SettleTradeRecord := mkSettleTradeRecord {
  sr_symbol : bytes;
  sr_buy_order_id : Z;
  sr_sell_order_id : Z;
}.

(** The four legs with their audit rows. *)
Definition settle_legs (l : Ledger) (buyer_id seller_id : Z) (base_asset quote_asset : bytes)
  (quantity buyer_debit seller_credit trade_ref : Z) : result Ledger RepoError :=
  l ←? update_account l (buyer_id, quote_asset) (debit buyer_debit);
  l ←? credit_account l (buyer_id, base_asset) quantity;
  l ←? update_account l (seller_id, base_asset) (debit quantity);
  l ←? credit_account l (seller_id, quote_asset) seller_credit;
  l ←? fund_audit l buyer_id quote_asset AkSettleDebit buyer_debit trade_ref;
  l ←? fund_audit l buyer_id base_asset AkSettleCredit quantity trade_ref;
  l ←? fund_audit l seller_id base_asset AkSettleDebit quantity trade_ref;
  fund_audit l seller_id quote_asset AkSettleCredit seller_credit trade_ref.

(** What the [trades] table checks of a row before it looks for a conflict. *)
Definition trade_ok (t : SettleTradeRecord) (price quantity : Z) : bool :=
  Nat.leb (char_count (sr_symbol t)) 20 && Z.leb 0 price && Z.leb 0 quantity.

Definition settle_trade_atoms (l : Ledger) (buyer_id seller_id : Z) (base_asset quote_asset : bytes)
  (price quantity buy_fee sell_fee : Z) (trade : option SettleTradeRecord) : result Ledger RepoError :=
  cost ←? money (AmountAtoms.checked_mul_scaled price quantity);
  buyer_debit ←? money (AmountAtoms.checked_add cost buy_fee);
  seller_credit ←? money (AmountAtoms.checked_sub cost sell_fee);
  if Z.ltb seller_credit 0 then Err SellFeeExceedsCost
  else
    match trade with
    | None => settle_legs l buyer_id seller_id base_asset quote_asset quantity buyer_debit seller_credit 0
    | Some t =>
        if negb (trade_ok t price quantity) then Err DbError
        else match lg_trades l !! (sr_buy_order_id t, sr_sell_order_id t) with
        | Some _ => Ok l
        | None =>
            let l := Ledger.set_trades l (<[(sr_buy_order_id t, sr_sell_order_id t) :=
                       (sr_symbol t, price, quantity)]> (lg_trades l)) in
            settle_legs l buyer_id seller_id base_asset quote_asset quantity buyer_debit seller_credit
              (sr_buy_order_id t)
        end
    end.

Definition settle_trade (l : Ledger) (buyer_id seller_id : Z) (base_asset quote_asset : bytes)
  (price quantity buy_fee sell_fee : f64) : result Ledger RepoError :=
  price ←? money (AmountAtoms.from_f64_round price);
  quantity ←? money (AmountAtoms.from_f64_round quantity);
  buy_fee ←? money (AmountAtoms.from_f64_round buy_fee);
  sell_fee ←? money (AmountAtoms.from_f64_round sell_fee);
  settle_trade_atoms l buyer_id seller_id base_asset quote_asset price quantity buy_fee sell_fee None.

(** ** Handlers *)

(** [deposit_service_authorized]; [admin_authorized] is the same function of
    another variable.  [expected] is the environment's token, [header] the value
    of the Authorization header. *)
Definition bearer_authorized (expected header : option bytes) : bool :=
  match expected with
  | None => false
  | Some token =>
      if Nat.ltb (length token) 32 then false
      else
        match header with
        | Some h => bool_decide (take 7 h = str "Bearer ") && bool_decide (drop 7 h = token)
        | None => false
        end
  end.

Inductive HttpStatus := HttpOk | BadRequest | Forbidden | Unauthorized | Misdirected | InternalError.

(** What the three handlers work on: the ledger and the desk. *)
Record Custody := mkCustody { cu_ledger : Ledger; cu_desk : Desk }.

(** [let _ = pp.push(frame)]: a full queue refuses the frame. *)
Definition push_frame (d : Desk) (ev : persist_event) : Desk :=
  if Nat.ltb (length (dk_queue d)) (w_queue_capacity (dk_wiring d))
  then Desk.set_queue d (vec_push (dk_queue d) ev) (dk_dropped d) else d.

(** The frame of a row of [accounts]; skipped when an amount does not convert. *)
Definition publish_row (d : Desk) (user_id : Z) (asset : bytes) (b : AccountBalance) : Desk :=
  match account_set_payload user_id asset (AccountBalance.balance b) (AccountBalance.frozen b) with
  | Err _ => d
  | Ok p => push_frame d (EvAccountSet (mkAccountSetPayload (asp_user_id p) (asp_asset p) (asp_balance p)
              (asp_frozen p) (ab_balance_atoms b) (ab_frozen_atoms b)))
  end.

(** The payload is built with a frozen amount of zero and corrected from the row. *)
Definition publish_deposit (d : Desk) (l : Ledger) (user_id : Z) (asset : bytes) (new_balance : Z) : Desk :=
  match account_set_payload user_id asset (AmountAtoms.to_f64 new_balance) f64_zero with
  | Err _ => d
  | Ok p =>
      let frz := from_option ab_frozen_atoms 0 (lg_accounts l !! (user_id, asset)) in
      push_frame d (EvAccountSet (mkAccountSetPayload (asp_user_id p) (asp_asset p) (asp_balance p)
        (f64_to_bits (AmountAtoms.to_f64 frz)) new_balance frz))
  end.

Definition forget_cache (d : Desk) (user_id : Z) : Desk := Desk.set_accounts d (delete user_id (dk_accounts d)).

Section handlers.
Context (desk_id : Z) (env : bytes -> option bytes).

Definition handle_deposit_credit (c : Custody) (header : option bytes) (chain tx_hash : bytes)
  (log_index user_id : Z) (asset : bytes) (amount_atoms : Z) (from_address to_address : option bytes)
  : Custody * (HttpStatus * option bool) :=
  if negb (bearer_authorized (env (str "EXCHANGE_DEPOSIT_TOKEN")) header) then (c, (Forbidden, None))
  else if Z.leb amount_atoms 0 then (c, (BadRequest, None))
  else if negb (is_user_owned_by_desk user_id desk_id) then (c, (Misdirected, None))
  else
    match credit_chain_deposit (cu_ledger c) chain tx_hash log_index user_id asset amount_atoms
            from_address to_address with
    | Err _ => (c, (InternalError, None))
    | Ok ((credited, new_balance), l) =>
        let d := if credited
                 then publish_deposit (forget_cache (cu_desk c) user_id) l user_id asset new_balance
                 else cu_desk c in
        (mkCustody l d, (HttpOk, Some credited))
    end.

(** [user]: who the token of the request belongs to. *)
Definition handle_request_withdrawal (c : Custody) (user : option Z) (asset chain to_address : bytes)
  (amount_atoms : Z) : Custody * (HttpStatus * option Z) :=
  match user with
  | None => (c, (Unauthorized, None))
  | Some user_id =>
      if negb (is_user_owned_by_desk user_id desk_id) then (c, (Misdirected, None))
      else if Z.leb amount_atoms 0 then (c, (BadRequest, None))
      else
        let fee_atoms := default 100000000 (env (str "WITHDRAW_FEE_ATOMS") ≫= parse_i64) in
        match request_withdrawal (cu_ledger c) user_id asset chain to_address amount_atoms fee_atoms with
        | Err _ => (c, (BadRequest, None))
        | Ok ((id, bal), l) =>
            (mkCustody l (publish_row (forget_cache (cu_desk c) user_id) user_id asset bal), (HttpOk, Some id))
        end
  end.

Definition advance_withdrawal (l : Ledger) (id : Z) (status : bytes) (tx_hash reason : option bytes)
  : option (result (bool * Ledger) RepoError) :=
  if decide (status = str "approved") then Some (Ok (set_withdrawal_status l id WdPending WdApproved None))
  else if decide (status = str "broadcast") then Some (Ok (set_withdrawal_status l id WdApproved WdBroadcast tx_hash))
  else if decide (status = str "confirmed") then Some (confirm_withdrawal l id (default [] tx_hash))
  else if decide (status = str "failed") then
    Some (fail_withdrawal l id (default (str "chain send failed") reason))
  else None.

Definition handle_withdrawal_status (c : Custody) (header : option bytes) (id : Z) (status : bytes)
  (tx_hash reason : option bytes) : Custody * (HttpStatus * option bool) :=
  if negb (bearer_authorized (env (str "EXCHANGE_DEPOSIT_TOKEN")) header) then (c, (Forbidden, None))
  else
    match advance_withdrawal (cu_ledger c) id status tx_hash reason with
    | None | Some (Err _) => (c, (BadRequest, None))
    | Some (Ok (changed, l)) =>
        let terminal := bool_decide (status = str "confirmed") || bool_decide (status = str "failed") in
        let d := match lg_withdrawals (cu_ledger c) !! id with
                 | Some w =>
                     if changed && terminal then
                       let d := forget_cache (cu_desk c) (wd_user_id w) in
                       match lg_accounts l !! (wd_user_id w, wd_asset w) with
                       | Some b => publish_row d (wd_user_id w) (wd_asset w) b
                       | None => d
                       end
                     else cu_desk c
                 | None => cu_desk c
                 end in
        (mkCustody l d, (HttpOk, Some changed))
    end.
End handlers.

(** ** Runs

    A call of the repository as its callers make it.  An error leaves the
    ledger as it was. *)
Inductive call :=
  | Deposit (chain tx_hash : bytes) (log_index user_id : Z) (asset : bytes) (amount_atoms : Z)
  | Request (user_id : Z) (asset chain to_address : bytes) (amount_atoms fee_atoms : Z)
  | Advance (id : Z) (status : bytes) (tx_hash reason : option bytes)
  | Ensure (user_id : Z) (asset : bytes)
  | Freeze (user_id : Z) (asset : bytes) (amount : Z)
  | Release (user_id : Z) (asset : bytes) (amount : Z)
  | Settle (buyer_id seller_id : Z) (base_asset quote_asset : bytes) (price quantity buy_fee sell_fee : Z)
           (trade : option SettleTradeRecord).

Definition after {A} (l : Ledger) (r : result (A * Ledger) RepoError) : Ledger :=
  match r with Ok (_, l) => l | Err _ => l end.

Definition exec (l : Ledger) (c : call) : Ledger :=
  match c with
  | Deposit chain tx log u a n => after l (credit_chain_deposit l chain tx log u a n None None)
  | Request u a chain to n fee => after l (request_withdrawal l u a chain to n fee)
  | Advance id status tx reason => match advance_withdrawal l id status tx reason with Some r => after l r | None => l end
  | Ensure u a => match ensure_account l u a with Ok l => l | Err _ => l end
  | Freeze u a n => after l (freeze_atoms l u a n)
  | Release u a n => after l (release_frozen_atoms l u a n)
  | Settle b s base quote p q bf sf t =>
      match settle_trade_atoms l b s base quote p q bf sf t with Ok l => l | Err _ => l end
  end.

(** What came in, what went out and what is left.  [P] selects accounts. *)
Definition held (f : AccountBalance -> Z) (l : Ledger) (P : Z * bytes -> bool) : Z :=
  msum (fun k b => if P k then f b else 0) (lg_accounts l).
Definition in_asset (a : bytes) (k : Z * bytes) : bool := bool_decide (k.2 = a).
Definition at_account (k0 k : Z * bytes) : bool := bool_decide (k = k0).
Definition total_balance (l : Ledger) (a : bytes) : Z := held ab_balance_atoms l (in_asset a).
Definition deposited (l : Ledger) (a : bytes) : Z :=
  msum (fun _ d => if in_asset a (cd_user_id d, cd_asset d) then cd_amount_atoms d else 0) (lg_deposits l).
Definition wd_key (w : Withdrawal) : Z * bytes := (wd_user_id w, wd_asset w).
Definition wd_total (w : Withdrawal) : Z := wd_amount_atoms w + wd_fee_atoms w.
Definition sent (s : WdStatus) : bool := match s with WdConfirmed => true | _ => false end.
Definition open (s : WdStatus) : bool := match s with WdPending | WdApproved | WdBroadcast => true | _ => false end.
Definition in_flight (st : WdStatus -> bool) (l : Ledger) (P : Z * bytes -> bool) : Z :=
  msum (fun _ w => if P (wd_key w) && st (wd_status w) then wd_total w else 0) (lg_withdrawals l).
Definition withdrawn (l : Ledger) (a : bytes) : Z := in_flight sent l (in_asset a).
Definition balance_of (l : Ledger) (k : Z * bytes) : Z := from_option ab_balance_atoms 0 (lg_accounts l !! k).
Definition frozen_of (l : Ledger) (k : Z * bytes) : Z := from_option ab_frozen_atoms 0 (lg_accounts l !! k).

(** What the audit says: [w] weighs the kinds. *)
Definition fa_key (r : FundAudit) : Z * bytes := (fa_user_id r, fa_asset r).
Definition audited (w : AuditKind -> Z) (l : Ledger) (P : Z * bytes -> bool) : Z :=
  zsum (fun r => if P (fa_key r) then w (fa_kind r) * fa_amount_atoms r else 0) (lg_audit l).
Definition to_deposits (k : AuditKind) : Z := match k with AkDeposit => 1 | _ => 0 end.
Definition to_sent (k : AuditKind) : Z := match k with AkWdDebit => 1 | _ => 0 end.
Definition to_balance (k : AuditKind) : Z :=
  match k with AkDeposit | AkSettleCredit => 1 | AkSettleDebit | AkWdDebit => -1 | _ => 0 end.
Definition to_fees (k : AuditKind) : Z :=
  match k with AkSettleDebit => 1 | AkSettleCredit => -1 | _ => 0 end.
Definition to_orders (k : AuditKind) : Z :=
  match k with AkFreeze => 1 | AkRelease | AkSettleDebit => -1 | _ => 0 end.
Definition to_withdrawals (k : AuditKind) : Z :=
  match k with AkWdFreeze => 1 | AkWdRelease | AkWdDebit => -1 | _ => 0 end.

(** A settlement finds the accounts it debits, and fees are not negative. *)
Definition settles_present (l : Ledger) (c : call) : Prop :=
  match c with
  | Settle b s base quote _ _ bf sf _ =>
      is_Some (lg_accounts l !! (b, quote)) /\ is_Some (lg_accounts l !! (s, base)) /\ 0 <= bf /\ 0 <= sf
  | _ => True
  end.

(** The trade is on record: the settlement is a repetition. *)
Definition settled (l : Ledger) (t : option SettleTradeRecord) : Prop :=
  exists r, t = Some r /\ is_Some (lg_trades l !! (sr_buy_order_id r, sr_sell_order_id r)).

(** Orders give back and spend no more than they hold. *)
Definition holds (l : Ledger) (k : Z * bytes) : Z := audited to_orders l (at_account k).
Definition within_holds (l : Ledger) (c : call) : Prop :=
  match c with
  | Release u a n => n <= holds l (u, a)
  | Settle b s base quote p q bf sf t =>
      settled l t \/
      (base <> quote /\ q <= holds l (s, base) /\
       (p * q + AMOUNT_SCALE / 2) / AMOUNT_SCALE + bf <= holds l (b, quote) /\ in_i64 p /\ in_i64 q)
  | _ => True
  end.

Fixpoint along (P : Ledger -> call -> Prop) (l : Ledger) (cs : list call) : Prop :=
  match cs with
  | [] => True
  | c :: cs => P l c /\ along P (exec l c) cs
  end.

(** ** Effects *)

Lemma result_bind_ok {A B E} (r : result A E) (k : A -> result B E) y :
  result_bind r k = Ok y -> exists x, r = Ok x /\ k x = Ok y.
Proof. destruct r; [by exists a|done]. Qed.

Ltac unbind :=
  repeat match goal with
  | H : result_bind _ _ = Ok _ |- _ => apply result_bind_ok in H as (? & ? & H)
  | H : Ok _ = Ok _ |- _ => injection H as ?; subst
  | H : Err _ = Ok _ |- _ => discriminate H
  end.

Lemma write_account_ok l k b l' : write_account l k b = Ok l' ->
  account_ok l k.1 b = true /\ l' = Ledger.set_accounts l (<[k := b]> (lg_accounts l)).
Proof. unfold write_account. destruct (account_ok _ _ _) eqn:E; intros [= <-]. done. Qed.

Lemma fund_audit_ok l u a kind n ref l' : fund_audit l u a kind n ref = Ok l' ->
  (char_count a <= 16)%nat /\ l' = Ledger.set_audit l (lg_audit l ++ [mkFundAudit u a kind n ref]).
Proof. unfold fund_audit. destruct (Nat.leb_spec (char_count a) 16); intros [= <-]. done. Qed.

Definition rows_ok (l : Ledger) : Prop :=
  forall k b, lg_accounts l !! k = Some b -> account_ok l k.1 b = true.

Definition weight (P : Z * bytes -> bool) (f : (Z * Z) -> Z) (adj : list ((Z * bytes) * (Z * Z))) : Z :=
  zsum (fun x => if P x.1 then f x.2 else 0) adj.

(** What a piece of a transaction does: the balance and the frozen amount of
    some accounts move by [adj], [rows] are appended to the audit, no account
    disappears and none breaks a constraint. *)
Record effect (l l' : Ledger) (adj : list ((Z * bytes) * (Z * Z))) (rows : list FundAudit) : Prop := mkEffect {
  ef_balance : forall P, held ab_balance_atoms l' P = held ab_balance_atoms l P + weight P fst adj;
  ef_frozen : forall P, held ab_frozen_atoms l' P = held ab_frozen_atoms l P + weight P snd adj;
  ef_audit : lg_audit l' = lg_audit l ++ rows;
  ef_users : lg_users l' = lg_users l;
  ef_present : forall k, is_Some (lg_accounts l !! k) -> is_Some (lg_accounts l' !! k);
  ef_rows : rows_ok l -> rows_ok l';
}.

Lemma effect_same l l' : lg_accounts l' = lg_accounts l -> lg_audit l' = lg_audit l -> lg_users l' = lg_users l ->
  effect l l' [] [].
Proof.
  intros Ha Hu Hs. split; unfold held, rows_ok, account_ok; rewrite ?Ha, ?Hs, ?app_nil_r; try done; intros P; simpl; lia.
Qed.

Lemma effect_trans l1 l2 l3 a b r s : effect l1 l2 a r -> effect l2 l3 b s -> effect l1 l3 (a ++ b) (r ++ s).
Proof.
  intros [B1 F1 A1 U1 P1 R1] [B2 F2 A2 U2 P2 R2]. split.
  - intros P. rewrite B2, B1. unfold weight. rewrite zsum_app. lia.
  - intros P. rewrite F2, F1. unfold weight. rewrite zsum_app. lia.
  - by rewrite A2, A1, app_assoc.
  - congruence.
  - auto.
  - auto.
Qed.

Lemma held_write f l k b P :
  held f (Ledger.set_accounts l (<[k := b]> (lg_accounts l))) P =
    held f l P + (if P k then f b - from_option f 0 (lg_accounts l !! k) else 0).
Proof.
  unfold held. cbn [lg_accounts Ledger.set_accounts]. rewrite msum_upsert.
  destruct (lg_accounts l !! k); simpl; destruct (P k); lia.
Qed.

Lemma write_effect l k b l' : write_account l k b = Ok l' ->
  effect l l' [(k, (ab_balance_atoms b - balance_of l k, ab_frozen_atoms b - frozen_of l k))] [].
Proof.
  intros [Hok ->]%write_account_ok. split; try done.
  - intros P. rewrite held_write. simpl. unfold balance_of. destruct (P k); lia.
  - intros P. rewrite held_write. simpl. unfold frozen_of. destruct (P k); lia.
  - by rewrite app_nil_r.
  - intros k' Hk'. cbn. destruct (decide (k = k')) as [<-|]; [rewrite lookup_insert_eq|rewrite lookup_insert_ne]; done.
  - intros Hr k' b'. cbn. destruct (decide (k = k')) as [<-|Hne].
    + rewrite lookup_insert_eq. intros [= <-]. done.
    + rewrite lookup_insert_ne by done. apply Hr.
Qed.

Lemma audit_effect l u a kind n ref l' : fund_audit l u a kind n ref = Ok l' ->
  effect l l' [] [mkFundAudit u a kind n ref].
Proof. intros [_ ->]%fund_audit_ok. split; try done; intros P; simpl; unfold held; cbn; lia. Qed.

Lemma credit_effect l k n l' : credit_account l k n = Ok l' -> effect l l' [(k, (n, 0))] [].
Proof.
  unfold credit_account. destruct (lg_accounts l !! k) as [b|] eqn:Hk.
  - intros H%write_effect. unfold balance_of, frozen_of in H. rewrite Hk in H. cbn in H.
    by replace (ab_balance_atoms b + n - ab_balance_atoms b) with n in H by lia; rewrite Z.sub_diag in H.
  - destruct (Nat.leb _ _); [|done]. intros H%write_effect. unfold balance_of, frozen_of in H. rewrite Hk in H.
    cbn in H. by rewrite Z.sub_0_r in H.
Qed.

Lemma update_effect l k f l' b : lg_accounts l !! k = Some b -> update_account l k f = Ok l' ->
  effect l l' [(k, (ab_balance_atoms (f b) - ab_balance_atoms b, ab_frozen_atoms (f b) - ab_frozen_atoms b))] [].
Proof.
  intros Hk. unfold update_account. rewrite Hk. intros H%write_effect. unfold balance_of, frozen_of in H.
  by rewrite Hk in H.
Qed.

Lemma debit_effect l k t l' : is_Some (lg_accounts l !! k) -> update_account l k (debit t) = Ok l' ->
  effect l l' [(k, (- t, - t))] [].
Proof.
  intros [b Hk] H. apply (update_effect _ _ _ _ b) in H; [|done]. unfold debit in H. cbn in H.
  by replace (ab_balance_atoms b - t - ab_balance_atoms b) with (- t) in H by lia;
     replace (ab_frozen_atoms b - t - ab_frozen_atoms b) with (- t) in H by lia.
Qed.

Lemma freeze_effect l k t b l' : freeze_row l k t = Ok (b, l') ->
  t <= balance_of l k - frozen_of l k /\ is_Some (lg_accounts l !! k) /\ effect l l' [(k, (0, t))] [].
Proof.
  unfold freeze_row, balance_of, frozen_of. destruct (lg_accounts l !! k) as [b0|] eqn:Hk; [|done].
  destruct (Z.leb_spec t (ab_balance_atoms b0 - ab_frozen_atoms b0)) as [Ht|]; [|done]. intros H.
  apply result_bind_ok in H as (l1 & H & [= <- <-]). split; [done|]. split; [done|].
  apply write_effect in H. unfold balance_of, frozen_of in H. rewrite Hk in H. cbn in H.
  by rewrite Z.sub_diag in H; replace (ab_frozen_atoms b0 + t - ab_frozen_atoms b0) with t in H by lia.
Qed.

Definition tables (l : Ledger) : gmap (bytes * bytes * Z) ChainDeposit * gmap Z Withdrawal * Z :=
  (lg_deposits l, lg_withdrawals l, lg_next_id l).

Lemma freeze_tables l k t b l' : freeze_row l k t = Ok (b, l') -> tables l' = tables l.
Proof.
  unfold freeze_row. destruct (lg_accounts l !! k) as [b0|]; [|done]. destruct (Z.leb _ _); [|done]. intros H.
  apply result_bind_ok in H as (l1 & [_ ->]%write_account_ok & [= <- <-]). done.
Qed.

Lemma credit_tables l k n l' : credit_account l k n = Ok l' -> tables l' = tables l.
Proof. unfold credit_account. intros Hc. repeat case_match; try done; by apply write_account_ok in Hc as [_ ->]. Qed.

Lemma update_tables l k f l' : update_account l k f = Ok l' -> tables l' = tables l.
Proof. unfold update_account. intros Hc. case_match; [by apply write_account_ok in Hc as [_ ->]|by injection Hc as <-]. Qed.

Lemma audit_tables l u a kind n ref l' : fund_audit l u a kind n ref = Ok l' -> tables l' = tables l.
Proof. by intros [_ ->]%fund_audit_ok. Qed.

(** The row of a withdrawal and its audit, after the account's update. *)
Lemma record_withdrawal l x next u a kind n ref l' :
  fund_audit (Ledger.set_withdrawals l x next) u a kind n ref = Ok l' ->
  effect l l' [] [mkFundAudit u a kind n ref] /\ tables l' = (lg_deposits l, x, next).
Proof.
  intros Ha. split; [|by rewrite (audit_tables _ _ _ _ _ _ _ Ha)].
  apply audit_effect in Ha. apply (effect_trans l _ l' [] _ [] _) in Ha; [exact Ha|]. by apply effect_same.
Qed.

Lemma deposit_effect l chain tx log u a n from to c bal l' :
  credit_chain_deposit l chain tx log u a n from to = Ok ((c, bal), l') ->
  l' = l \/
  (0 < n /\ lg_deposits l !! (chain, tx, log) = None /\
   effect l l' [((u, a), (n, 0))] [mkFundAudit u a AkDeposit n 0] /\
   tables l' = (<[(chain, tx, log) := mkChainDeposit u a n from to]> (lg_deposits l), lg_withdrawals l, lg_next_id l)).
Proof.
  unfold credit_chain_deposit. destruct (Z.leb_spec n 0); [done|].
  destruct (lg_deposits l !! _) eqn:Hd; [intros [= <- <- <-]; by left|]. intros Hk. right.
  apply result_bind_ok in Hk as (l1 & Hc & Hk). apply result_bind_ok in Hk as (l2 & Ha & [= <- <- <-]).
  split; [done|]. split; [done|]. split.
  - pose proof (effect_trans _ _ _ _ _ _ _ (credit_effect _ _ _ _ Hc) (audit_effect _ _ _ _ _ _ _ Ha)) as He.
    apply (effect_trans l _ l2 [] _ [] _) in He; [exact He|]. by apply effect_same.
  - rewrite (audit_tables _ _ _ _ _ _ _ Ha). by rewrite (credit_tables _ _ _ _ Hc).
Qed.

Lemma request_effect l u a chain to n fee id b l' :
  request_withdrawal l u a chain to n fee = Ok ((id, b), l') ->
  0 < n /\ 0 <= fee /\ n + fee <= i64_max /\ (char_count a <= 16)%nat /\ is_Some (lg_accounts l !! (u, a)) /\
  effect l l' [((u, a), (0, n + fee))] [mkFundAudit u a AkWdFreeze (n + fee) (lg_next_id l)] /\
  tables l' = (lg_deposits l, <[lg_next_id l := mkWithdrawal u a chain to n fee WdPending None None]> (lg_withdrawals l),
               lg_next_id l + 1).
Proof.
  unfold request_withdrawal. destruct (Z.leb_spec n 0); [done|]. destruct (Z.ltb_spec fee 0); [done|].
  cbn [orb]. unfold i64_checked_add. destruct (fits_i64 (n + fee)) eqn:Hf; [|done]. intros Hk.
  apply fits_i64_spec in Hf. apply result_bind_ok in Hk as ([b1 l1] & Hfr & Hk).
  apply result_bind_ok in Hk as (l2 & Ha & [= <- <- <-]). pose proof (freeze_tables _ _ _ _ _ Hfr) as Ht.
  injection Ht as Hd Hw Hn.
  apply freeze_effect in Hfr as (_ & Hs & He). pose proof (fund_audit_ok _ _ _ _ _ _ _ Ha) as [Hc _].
  repeat (split; [done || (destruct Hf; lia)|]). rewrite Hn in Ha. apply record_withdrawal in Ha as [Ha Ht].
  split; [exact (effect_trans _ _ _ [_] [] [] _ He Ha)|]. by rewrite Ht, Hd, Hw.
Qed.

(** What every withdrawal of a ledger satisfies. *)
Definition withdrawals_ok (l : Ledger) : Prop :=
  forall id w, lg_withdrawals l !! id = Some w ->
    id < lg_next_id l /\ 0 < wd_amount_atoms w /\ 0 <= wd_fee_atoms w /\ wd_total w <= i64_max /\
    is_Some (lg_accounts l !! wd_key w) /\ (char_count (wd_asset w) <= 16)%nat.

Lemma wd_total_fits w : 0 < wd_amount_atoms w -> 0 <= wd_fee_atoms w -> wd_total w <= i64_max ->
  i64_checked_add (wd_amount_atoms w) (wd_fee_atoms w) = Some (wd_total w).
Proof.
  intros. unfold i64_checked_add. rewrite (proj2 (fits_i64_spec _)); [done|].
  unfold in_i64, wd_total in *. machine_unfold. lia.
Qed.

(** What a change of status does to the account and to the audit. *)
Definition moved_adj (w : Withdrawal) (s : WdStatus) : list ((Z * bytes) * (Z * Z)) :=
  match s with
  | WdConfirmed => [(wd_key w, (- wd_total w, - wd_total w))]
  | WdFailed => [(wd_key w, (0, - wd_total w))]
  | _ => []
  end.
Definition moved_rows (w : Withdrawal) (id : Z) (s : WdStatus) : list FundAudit :=
  match s with
  | WdConfirmed => [mkFundAudit (wd_user_id w) (wd_asset w) AkWdDebit (wd_total w) id]
  | WdFailed => [mkFundAudit (wd_user_id w) (wd_asset w) AkWdRelease (wd_total w) id]
  | _ => []
  end.

Definition moved (l l' : Ledger) (id : Z) : Prop :=
  exists w s tx reason, lg_withdrawals l !! id = Some w /\ open (wd_status w) = true /\
    s <> WdPending /\ s <> WdCancelled /\
    (s = WdConfirmed -> wd_status w <> WdPending) /\
    effect l l' (moved_adj w s) (moved_rows w id s) /\
    tables l' = (lg_deposits l, <[id := with_status w s tx reason]> (lg_withdrawals l), lg_next_id l).

Lemma status_effect l id from to tx : open from = true -> to <> WdPending -> to <> WdCancelled -> open to = true ->
  (set_withdrawal_status l id from to tx).2 = l \/ moved l (set_withdrawal_status l id from to tx).2 id.
Proof.
  intros Hf Hp Hc Ho. unfold set_withdrawal_status. destruct (lg_withdrawals l !! id) as [w|] eqn:Hw; [|by left].
  case_decide as Hs; [|by left]. right. exists w, to. do 2 eexists. split; [done|]. split; [by rewrite Hs|].
  do 2 (split; [done|]). split; [intros ->; done|]. split; [|done].
  destruct to; try done; by apply effect_same.
Qed.

Lemma confirm_effect l id tx b l' : withdrawals_ok l -> confirm_withdrawal l id tx = Ok (b, l') ->
  l' = l /\ b = false \/ moved l l' id /\ b = true.
Proof.
  intros Hok. unfold confirm_withdrawal. destruct (lg_withdrawals l !! id) as [w|] eqn:Hw; [|done].
  destruct (Hok _ _ Hw) as (_ & Hn & Hfee & Ht & Hp & _). rewrite (wd_total_fits _ Hn Hfee Ht).
  destruct (wd_status w) eqn:Hs; try done; [| |by intros [= <- <-]; left];
    intros Hk; right; apply result_bind_ok in Hk as (l1 & Hu & Hk); apply result_bind_ok in Hk as (l2 & Ha & [= <- <-]);
    pose proof (update_tables _ _ _ _ Hu) as Hd; injection Hd as Hd Hx Hi; apply record_withdrawal in Ha as [Ha Hta];
    apply (debit_effect _ _ _ _ Hp) in Hu; (split; [|done]); exists w, WdConfirmed; do 2 eexists; rewrite Hs;
    repeat (split; [done|]); (split; [exact (effect_trans _ _ _ [_] [] [] _ Hu Ha)|]); by rewrite Hta, Hd, Hx, Hi.
Qed.

Lemma fail_effect l id reason b l' : withdrawals_ok l -> fail_withdrawal l id reason = Ok (b, l') -> l' = l \/ moved l l' id.
Proof.
  intros Hok. unfold fail_withdrawal. destruct (lg_withdrawals l !! id) as [w|] eqn:Hw; [|done].
  destruct (Hok _ _ Hw) as (_ & Hn & Hfee & Ht & [b0 Hp] & _). rewrite (wd_total_fits _ Hn Hfee Ht).
  destruct (wd_status w) eqn:Hs; try done; try (by intros [= <- <-]; left);
    intros Hk; right; apply result_bind_ok in Hk as (l1 & Hu & Hk); apply result_bind_ok in Hk as (l2 & Ha & [= <- <-]);
    pose proof (update_tables _ _ _ _ Hu) as Hd; injection Hd as Hd Hx Hi; apply record_withdrawal in Ha as [Ha Hta];
    pose proof (update_effect _ _ _ _ _ Hp Hu) as He; cbn in He; rewrite Z.sub_diag in He;
    replace (ab_frozen_atoms b0 - wd_total w - ab_frozen_atoms b0) with (- wd_total w) in He by lia;
    exists w, WdFailed; do 2 eexists; rewrite Hs; repeat (split; [done|]);
    (split; [exact (effect_trans _ _ _ [_] [] [] _ He Ha)|]); by rewrite Hta, Hd, Hx, Hi.
Qed.

Lemma advance_effect l id status tx reason b l' : withdrawals_ok l ->
  advance_withdrawal l id status tx reason = Some (Ok (b, l')) -> l' = l \/ moved l l' id.
Proof.
  intros Hok. unfold advance_withdrawal. repeat case_decide; try done; intros [= Hk].
  - replace l' with (set_withdrawal_status l id WdPending WdApproved None).2 by by rewrite Hk.
    by apply status_effect.
  - replace l' with (set_withdrawal_status l id WdApproved WdBroadcast tx).2 by by rewrite Hk.
    by apply status_effect.
  - apply confirm_effect in Hk as [[? _]|[? _]]; auto.
  - by apply fail_effect in Hk.
Qed.

Lemma ensure_effect l u a l' : ensure_account l u a = Ok l' -> exists adj, effect l l' adj [] /\ tables l' = tables l /\
  (forall P, weight P fst adj = 0 /\ weight P snd adj = 0).
Proof.
  unfold ensure_account. destruct (lg_accounts l !! (u, a)).
  - intros [= <-]. exists []. split; [by apply effect_same|done].
  - intros Hc. exists [((u, a), (0, 0))]. split; [by apply credit_effect|]. split; [by apply credit_tables in Hc|].
    intros P. unfold weight. simpl. destruct (P _); done.
Qed.

Lemma hold_effect l u a n b l' : freeze_atoms l u a n = Ok (b, l') ->
  0 <= n /\ effect l l' [((u, a), (0, n))] [mkFundAudit u a AkFreeze n 0] /\ tables l' = tables l.
Proof.
  unfold freeze_atoms. destruct (Z.ltb_spec n 0); [done|]. intros Hk.
  apply result_bind_ok in Hk as ([b1 l1] & Hf & Hk). apply result_bind_ok in Hk as (l2 & Ha & [= <- <-]).
  split; [done|]. split; [|by rewrite (audit_tables _ _ _ _ _ _ _ Ha), (freeze_tables _ _ _ _ _ Hf)].
  apply freeze_effect in Hf as (_ & _ & Hf). exact (effect_trans _ _ _ [_] [] [] _ Hf (audit_effect _ _ _ _ _ _ _ Ha)).
Qed.

(** A release takes off what is frozen at most. *)
Lemma release_effect l u a n b l' : rows_ok l -> release_frozen_atoms l u a n = Ok (b, l') ->
  l' = l \/
  (0 <= n /\ effect l l' [((u, a), (0, - Z.min n (frozen_of l (u, a))))] [mkFundAudit u a AkRelease n 0] /\
   tables l' = tables l).
Proof.
  intros Hr. unfold release_frozen_atoms. destruct (Z.ltb_spec n 0); [done|].
  destruct (lg_accounts l !! (u, a)) as [b0|] eqn:Hk; [|by intros [= <- <-]; left]. intros H0. right.
  apply result_bind_ok in H0 as (l1 & Hw & H0). apply result_bind_ok in H0 as (l2 & Ha & [= <- <-]).
  split; [done|]. split.
  - apply write_effect in Hw. unfold balance_of, frozen_of in *. rewrite Hk in *. cbn in Hw |- *.
    rewrite Z.sub_diag in Hw. pose proof (Hr _ _ Hk) as Hb. unfold account_ok in Hb. rewrite !andb_true_iff, !Z.leb_le in Hb.
    replace (Z.max (ab_frozen_atoms b0 - n) 0 - ab_frozen_atoms b0) with (- Z.min n (ab_frozen_atoms b0)) in Hw by lia.
    exact (effect_trans _ _ _ [_] [] [] _ Hw (audit_effect _ _ _ _ _ _ _ Ha)).
  - rewrite (audit_tables _ _ _ _ _ _ _ Ha). by apply write_account_ok in Hw as [_ ->].
Qed.

(** The legs of a settlement. *)
Definition legs_adj (b s : Z) (base quote : bytes) (q bd sc : Z) : list ((Z * bytes) * (Z * Z)) :=
  [((b, quote), (- bd, - bd)); ((b, base), (q, 0)); ((s, base), (- q, - q)); ((s, quote), (sc, 0))].
Definition legs_rows (b s : Z) (base quote : bytes) (q bd sc ref : Z) : list FundAudit :=
  [mkFundAudit b quote AkSettleDebit bd ref; mkFundAudit b base AkSettleCredit q ref;
   mkFundAudit s base AkSettleDebit q ref; mkFundAudit s quote AkSettleCredit sc ref].

Lemma legs_effect l b s base quote q bd sc ref l' :
  is_Some (lg_accounts l !! (b, quote)) -> is_Some (lg_accounts l !! (s, base)) ->
  settle_legs l b s base quote q bd sc ref = Ok l' ->
  effect l l' (legs_adj b s base quote q bd sc) (legs_rows b s base quote q bd sc ref) /\ tables l' = tables l.
Proof.
  intros Hb Hs Hk. unfold settle_legs in Hk.
  apply result_bind_ok in Hk as (l1 & H1 & Hk). apply result_bind_ok in Hk as (l2 & H2 & Hk).
  apply result_bind_ok in Hk as (l3 & H3 & Hk). apply result_bind_ok in Hk as (l4 & H4 & Hk).
  apply result_bind_ok in Hk as (l5 & A1 & Hk). apply result_bind_ok in Hk as (l6 & A2 & Hk).
  apply result_bind_ok in Hk as (l7 & A3 & A4).
  split.
  - pose proof (debit_effect _ _ _ _ Hb H1) as E1. pose proof (credit_effect _ _ _ _ H2) as E2.
    pose proof (debit_effect _ _ _ _ (ef_present _ _ _ _ E2 _ (ef_present _ _ _ _ E1 _ Hs)) H3) as E3.
    pose proof (credit_effect _ _ _ _ H4) as E4.
    apply audit_effect in A1, A2, A3, A4.
    exact (effect_trans _ _ _ [_] _ [] _ E1 (effect_trans _ _ _ [_] _ [] _ E2 (effect_trans _ _ _ [_] _ [] _ E3
      (effect_trans _ _ _ [_] _ [] _ E4 (effect_trans _ _ _ [] _ [_] _ A1 (effect_trans _ _ _ [] _ [_] _ A2
      (effect_trans _ _ _ [] _ [_] _ A3 A4))))))).
  - rewrite (audit_tables _ _ _ _ _ _ _ A4), (audit_tables _ _ _ _ _ _ _ A3), (audit_tables _ _ _ _ _ _ _ A2),
      (audit_tables _ _ _ _ _ _ _ A1), (credit_tables _ _ _ _ H4), (update_tables _ _ _ _ H3),
      (credit_tables _ _ _ _ H2). by apply update_tables in H1.
Qed.

Lemma money_ok {A} (r : result A MoneyError) x : money r = Ok x -> r = Ok x.
Proof. by destruct r; intros [= <-]. Qed.

Lemma settle_effect l b s base quote p q bf sf t l' :
  is_Some (lg_accounts l !! (b, quote)) -> is_Some (lg_accounts l !! (s, base)) ->
  settle_trade_atoms l b s base quote p q bf sf t = Ok l' ->
  l' = l \/ exists cost ref, AmountAtoms.checked_mul_scaled p q = Ok cost /\ 0 <= cost - sf /\
    effect l l' (legs_adj b s base quote q (cost + bf) (cost - sf)) (legs_rows b s base quote q (cost + bf) (cost - sf) ref) /\
    tables l' = tables l.
Proof.
  intros Hb Hs Hk. unfold settle_trade_atoms in Hk.
  apply result_bind_ok in Hk as (cost & Hc%money_ok & Hk). apply result_bind_ok in Hk as (bd & Hbd%money_ok & Hk).
  apply result_bind_ok in Hk as (sc & Hsc%money_ok & Hk).
  unfold AmountAtoms.checked_add, i64_checked_add in Hbd. unfold AmountAtoms.checked_sub, i64_checked_sub in Hsc.
  destruct (fits_i64 (cost + bf)); [injection Hbd as <-|done].
  destruct (fits_i64 (cost - sf)); [injection Hsc as <-|done].
  destruct (Z.ltb_spec (cost - sf) 0); [done|].
  destruct t as [t|]; [destruct (negb _); [done|]; destruct (lg_trades l !! _); [left; by injection Hk as <-|]|]; right; exists cost; eexists;
    (split; [done|]); (split; [done|]).
  - apply (legs_effect (Ledger.set_trades l _)) in Hk as [He Ht]; [|done..]. split; [|exact Ht].
    apply (effect_trans l _ l' [] _ [] _) in He; [exact He|]. by apply effect_same.
  - by apply legs_effect.
Qed.

(** ** The invariant of the books *)

Definition rsum (w : AuditKind -> Z) (P : Z * bytes -> bool) (rows : list FundAudit) : Z :=
  zsum (fun r => if P (fa_key r) then w (fa_kind r) * fa_amount_atoms r else 0) rows.

Lemma audited_effect w l l' adj rows P : effect l l' adj rows -> audited w l' P = audited w l P + rsum w P rows.
Proof. intros E. unfold audited. rewrite (ef_audit _ _ _ _ E). apply zsum_app. Qed.

Record books (l : Ledger) : Prop := mkBooks {
  bk_rows : rows_ok l;
  bk_withdrawals : withdrawals_ok l;
  bk_balance : forall P, held ab_balance_atoms l P = audited to_balance l P;
  bk_deposits : forall a, audited to_deposits l (in_asset a) = deposited l a;
  bk_withdrawn : forall a, audited to_sent l (in_asset a) = withdrawn l a;
  bk_fees : forall a, 0 <= audited to_fees l (in_asset a);
}.

Lemma books_new users : books (Ledger.new users).
Proof. split; try done; unfold rows_ok, withdrawals_ok; cbn; intros k b; by rewrite lookup_empty. Qed.

Lemma books_effect l l' adj rows : books l -> effect l l' adj rows ->
  (forall P, weight P fst adj = rsum to_balance P rows) ->
  (forall a, deposited l' a = deposited l a + rsum to_deposits (in_asset a) rows) ->
  (forall a, withdrawn l' a = withdrawn l a + rsum to_sent (in_asset a) rows) ->
  (forall a, 0 <= rsum to_fees (in_asset a) rows) -> withdrawals_ok l' -> books l'.
Proof.
  intros [R W B D X F] E Hb Hd Hw Hf Ho. split; [by apply (ef_rows _ _ _ _ E)|done|..].
  - intros P. rewrite (ef_balance _ _ _ _ E), (audited_effect _ _ _ _ _ _ E), B, Hb. done.
  - intros a. rewrite (audited_effect _ _ _ _ _ _ E), D, Hd. done.
  - intros a. rewrite (audited_effect _ _ _ _ _ _ E), X, Hw. done.
  - intros a. rewrite (audited_effect _ _ _ _ _ _ E). specialize (F a). specialize (Hf a). lia.
Qed.

Lemma withdrawals_ok_keep l l' adj rows : effect l l' adj rows -> tables l' = tables l ->
  withdrawals_ok l -> withdrawals_ok l'.
Proof.
  intros E Ht Ho id w Hw. injection Ht as _ Hx Hn. rewrite Hx in Hw. rewrite Hn.
  destruct (Ho _ _ Hw) as (? & ? & ? & ? & Hp & ?). repeat (split; [done|]). split; [|done].
  by apply (ef_present _ _ _ _ E).
Qed.

(** A call that touches neither deposits nor withdrawals. *)
Lemma books_keep l l' adj rows : books l -> effect l l' adj rows -> tables l' = tables l ->
  (forall P, weight P fst adj = rsum to_balance P rows) ->
  (forall P, rsum to_deposits P rows = 0) -> (forall P, rsum to_sent P rows = 0) ->
  (forall a, 0 <= rsum to_fees (in_asset a) rows) -> books l'.
Proof.
  intros B E Ht Hb Hd Hw Hf. apply (books_effect l l' adj rows); try done.
  - intros a. rewrite Hd. unfold deposited. injection Ht as -> _ _. lia.
  - intros a. rewrite Hw. unfold withdrawn, in_flight. injection Ht as _ -> _. lia.
  - by apply (withdrawals_ok_keep l l' adj rows), B.
Qed.

Lemma in_flight_insert st l l' id w P : lg_withdrawals l' = <[id := w]> (lg_withdrawals l) ->
  in_flight st l' P = in_flight st l P
    - from_option (fun w0 => if P (wd_key w0) && st (wd_status w0) then wd_total w0 else 0) 0 (lg_withdrawals l !! id)
    + (if P (wd_key w) && st (wd_status w) then wd_total w else 0).
Proof.
  intros Hw. unfold in_flight. rewrite Hw, msum_upsert. done.
Qed.

Lemma withdrawals_ok_insert l l' adj rows id w next : effect l l' adj rows ->
  tables l' = (lg_deposits l, <[id := w]> (lg_withdrawals l), next) -> lg_next_id l <= next -> id < next ->
  0 < wd_amount_atoms w -> 0 <= wd_fee_atoms w -> wd_total w <= i64_max ->
  is_Some (lg_accounts l !! wd_key w) -> (char_count (wd_asset w) <= 16)%nat ->
  withdrawals_ok l -> withdrawals_ok l'.
Proof.
  intros E Ht Hle Hid Hn Hfee Htot Hp Hc Ho i v. injection Ht as _ -> ->. destruct (decide (id = i)) as [<-|Hne].
  - rewrite lookup_insert_eq. intros [= <-]. repeat (split; [done|]). split; [by apply (ef_present _ _ _ _ E)|done].
  - rewrite lookup_insert_ne by done. intros Hv. destruct (Ho _ _ Hv) as (? & ? & ? & ? & Hp' & ?).
    split; [lia|]. repeat (split; [done|]). split; [by apply (ef_present _ _ _ _ E)|done].
Qed.

Lemma books_deposit l l' chain tx log u a n : books l -> 0 < n -> lg_deposits l !! (chain, tx, log) = None ->
  effect l l' [((u, a), (n, 0))] [mkFundAudit u a AkDeposit n 0] ->
  tables l' = (<[(chain, tx, log) := mkChainDeposit u a n None None]> (lg_deposits l), lg_withdrawals l, lg_next_id l) ->
  books l'.
Proof.
  intros B Hn Hd E Ht. pose proof B as [_ Ho _ _ _ _]. injection Ht as Htd Htw Htn.
  apply (books_effect _ _ _ _ B E).
  - intros P. unfold weight, rsum, fa_key. simpl. destruct (P (u, a)); lia.
  - intros x. unfold deposited. rewrite Htd, msum_insert by done. unfold rsum, fa_key. simpl. destruct (in_asset x (u, a)); lia.
  - intros x. unfold withdrawn, in_flight. rewrite Htw. unfold rsum. simpl. destruct (in_asset _ _); lia.
  - intros x. unfold rsum. simpl. destruct (in_asset _ _); lia.
  - intros i v. rewrite Htw, Htn. intros Hv. destruct (Ho _ _ Hv) as (? & ? & ? & ? & Hp' & ?).
    repeat (split; [done|]). split; [by apply (ef_present _ _ _ _ E)|done].
Qed.

Lemma books_request l l' u a chain to n fee : books l -> 0 < n -> 0 <= fee -> n + fee <= i64_max ->
  (char_count a <= 16)%nat -> is_Some (lg_accounts l !! (u, a)) ->
  effect l l' [((u, a), (0, n + fee))] [mkFundAudit u a AkWdFreeze (n + fee) (lg_next_id l)] ->
  tables l' = (lg_deposits l, <[lg_next_id l := mkWithdrawal u a chain to n fee WdPending None None]> (lg_withdrawals l),
               lg_next_id l + 1) -> books l'.
Proof.
  intros B Hn Hfee Hmax Hc Hp E Ht. apply (books_effect _ _ _ _ B E).
  - intros P. unfold weight, rsum. simpl. repeat case_match; lia.
  - intros x. unfold deposited. injection Ht as -> _ _. unfold rsum. simpl. repeat case_match; lia.
  - intros x. unfold withdrawn. injection Ht as _ Hw _. rewrite (in_flight_insert _ _ _ _ _ _ Hw).
    destruct (lg_withdrawals l !! lg_next_id l) as [w0|] eqn:E0.
    { destruct (bk_withdrawals _ B _ _ E0); lia. }
    unfold rsum, sent. simpl. rewrite !andb_false_r. repeat case_match; lia.
  - intros x. unfold rsum. simpl. repeat case_match; lia.
  - apply (withdrawals_ok_insert _ _ _ _ _ _ _ E Ht); try done; [lia..|by apply B].
Qed.

Lemma books_moved l l' id : books l -> moved l l' id -> books l'.
Proof.
  intros B (w & s & tx & reason & Hw & Ho & Hs1 & Hs2 & _ & E & Ht). pose proof (bk_withdrawals _ B _ _ Hw) as (Hid & Hok).
  destruct Hok as (Hn & Hfee & Hmax & Hp & Hc).
  assert (Hsent : sent (wd_status w) = false) by (by destruct (wd_status w)).
  apply (books_effect _ _ _ _ B E).
  - intros P. unfold weight, rsum, fa_key, wd_key. destruct s; simpl; try done; destruct (P _); lia.
  - intros x. unfold deposited. injection Ht as -> _ _. unfold rsum. destruct s; simpl; try lia; destruct (in_asset _ _); lia.
  - intros x. unfold withdrawn. injection Ht as _ Hi _. rewrite (in_flight_insert _ _ _ _ _ _ Hi), Hw. cbn [from_option].
    rewrite Hsent, andb_false_r. unfold rsum, fa_key. change (wd_key (with_status w s tx reason)) with (wd_key w).
    change (wd_total (with_status w s tx reason)) with (wd_total w). unfold wd_key.
    destruct s; cbn; rewrite ?andb_false_r, ?andb_true_r; try done; try lia; destruct (in_asset _ _); lia.
  - intros x. unfold rsum. destruct s; simpl; try lia; destruct (in_asset _ _); lia.
  - apply (withdrawals_ok_insert _ _ _ _ _ _ _ E Ht); try done; by apply B.
Qed.

Lemma legs_fees b s base quote q cost bf sf ref x : 0 <= bf -> 0 <= sf ->
  0 <= rsum to_fees (in_asset x) (legs_rows b s base quote q (cost + bf) (cost - sf) ref).
Proof.
  intros Hb Hs. unfold rsum, fa_key, in_asset. simpl.
  destruct (bool_decide (quote = x)), (bool_decide (base = x)); lia.
Qed.

Lemma books_exec l c : books l -> settles_present l c -> books (exec l c).
Proof.
  intros B Hc. destruct c as [chain tx log u a n|u a chain to n fee|id status tx reason|u a|u a n|u a n|b s base quote p q bf sf t];
    cbn [exec].
  - destruct (credit_chain_deposit _ _ _ _ _ _ _ _ _) as [[[c bal] l']|] eqn:Ed; [|done]. cbn [after].
    apply deposit_effect in Ed as [->|(Hn & Hd & He & Ht)]; [done|]. by eapply books_deposit.
  - destruct (request_withdrawal _ _ _ _ _ _ _) as [[[id bal] l']|] eqn:Er; [|done]. cbn [after].
    apply request_effect in Er as (Hn & Hf & Hm & Hch & Hp & He & Ht). by eapply books_request.
  - destruct (advance_withdrawal _ _ _ _ _) as [[[r l']|]|] eqn:Ea; [|done..]. cbn [after].
    apply advance_effect in Ea as [->|Hm]; [done|by eapply books_moved|apply B].
  - destruct (ensure_account l u a) as [l'|] eqn:Ee; [|done]. apply ensure_effect in Ee as (adj & He & Ht & Hz).
    apply (books_keep _ _ _ _ B He Ht); intros P; [apply Hz|done..].
  - destruct (freeze_atoms _ _ _ _) as [[r l']|] eqn:Ef; [|done]. cbn [after]. apply hold_effect in Ef as (Hn & He & Ht).
    apply (books_keep _ _ _ _ B He Ht); intros P; unfold weight, rsum; simpl; repeat case_match; lia.
  - destruct (release_frozen_atoms _ _ _ _) as [[r l']|] eqn:Er; [|done]. cbn [after].
    apply release_effect in Er as [->|(Hn & He & Ht)]; [done| |apply B].
    apply (books_keep _ _ _ _ B He Ht); intros P; unfold weight, rsum; simpl; repeat case_match; lia.
  - destruct Hc as (Hb & Hs & Hbf & Hsf). destruct (settle_trade_atoms _ _ _ _ _ _ _ _ _ _) as [l'|] eqn:Es; [|done].
    apply settle_effect in Es as [->|(cost & ref & Hcost & Hsc & He & Ht)]; [done| |done..].
    apply (books_keep _ _ _ _ B He Ht); intros P; [..|by apply legs_fees]; unfold weight, rsum, fa_key; simpl;
      repeat case_match; lia.
Qed.

Lemma along_inv (I : Ledger -> Prop) (Q : Ledger -> call -> Prop) l cs :
  (forall l c, I l -> Q l c -> I (exec l c)) -> I l -> along Q l cs -> I (foldl exec l cs).
Proof. intros Hstep. revert l. induction cs as [|c cs IH]; intros l Hl H; [done|]. destruct H. apply IH; eauto. Qed.

Lemma books_run l cs : books l -> along settles_present l cs -> books (foldl exec l cs).
Proof. apply along_inv. apply books_exec. Qed.

Lemma held_at f l k : held f l (at_account k) = from_option f 0 (lg_accounts l !! k).
Proof.
  unfold held, at_account. destruct (lg_accounts l !! k) as [b|] eqn:Hk; cbn [from_option].
  - rewrite <- (insert_delete_id (lg_accounts l) k b) by done. rewrite msum_insert by apply lookup_delete_eq.
    rewrite bool_decide_eq_true_2 by done. rewrite msum_zero; [lia|]. intros k' b' Hk'.
    rewrite bool_decide_eq_false_2; [done|]. intros ->. by rewrite lookup_delete_eq in Hk'.
  - apply msum_zero. intros k' b' Hk'. rewrite bool_decide_eq_false_2; [done|]. intros ->. congruence.
Qed.

Lemma audited_sum w1 w2 w3 w l P : (forall k, w k = w1 k - w2 k - w3 k) ->
  audited w l P = audited w1 l P - audited w2 l P - audited w3 l P.
Proof.
  intros Hw. unfold audited. induction (lg_audit l) as [|r rows IH]; [done|]. simpl. rewrite IH, Hw. case_match; lia.
Qed.

(** C6: the exchange is solvent.  Over any sequence of deposits (delivered any
    number of times), withdrawal requests and status changes in any order,
    freezes, releases and settlements, successful or refused, the users'
    balances of an asset are exactly what was deposited less what was withdrawn
    and less the fees of the settlements, which are never negative; and every
    single balance is what the append-only audit replays to.  The settlements
    are assumed to find the accounts they debit. *)
Theorem custody_solvent users calls : along settles_present (Ledger.new users) calls ->
  let l := foldl exec (Ledger.new users) calls in
  forall a,
  total_balance l a = deposited l a - withdrawn l a - audited to_fees l (in_asset a) /\
  0 <= audited to_fees l (in_asset a) /\
  forall u, balance_of l (u, a) = audited to_balance l (at_account (u, a)).
Proof.
  intros H l a. pose proof (books_run _ _ (books_new users) H) as B. fold l in B. split; [|split].
  - unfold total_balance. rewrite (bk_balance _ B), <- (bk_deposits _ B), <- (bk_withdrawn _ B).
    apply audited_sum. by intros [].
  - apply (bk_fees _ B).
  - intros u. rewrite <- (bk_balance _ B), held_at. done.
Qed.

(** ** Withdrawals *)

(** Everything frozen is held by an order or by an open withdrawal. *)
Record backed (l : Ledger) : Prop := mkBacked {
  bd_frozen : forall P, held ab_frozen_atoms l P = audited to_orders l P + in_flight open l P;
  bd_orders : forall k, 0 <= holds l k;
}.

Lemma msum_nonneg {K A} `{Countable K} (f : K -> A -> Z) (m : gmap K A) :
  (forall k x, m !! k = Some x -> 0 <= f k x) -> 0 <= msum f m.
Proof.
  induction m as [|k x m Hk IH] using map_ind; intros Hf; [by rewrite msum_empty|].
  rewrite msum_insert by done. pose proof (Hf k x (lookup_insert_eq _ _ _)).
  assert (0 <= msum f m); [|lia]. apply IH. intros k' x' Hk'. apply Hf. rewrite lookup_insert_ne; [done|congruence].
Qed.

Lemma in_flight_nonneg st l P : withdrawals_ok l -> 0 <= in_flight st l P.
Proof.
  intros Ho. apply msum_nonneg. intros id w Hw. destruct (Ho _ _ Hw) as (_ & ? & ? & _). unfold wd_total.
  case_match; lia.
Qed.

Lemma in_flight_member st l P id w : withdrawals_ok l -> lg_withdrawals l !! id = Some w ->
  P (wd_key w) = true -> st (wd_status w) = true -> wd_total w <= in_flight st l P.
Proof.
  intros Ho Hw HP Hst. unfold in_flight. rewrite <- (insert_delete_id (lg_withdrawals l) id w) by done.
  rewrite msum_insert by apply lookup_delete_eq. rewrite HP, Hst. cbn [andb].
  match goal with |- _ <= _ + ?m => cut (0 <= m); [lia|] end. apply msum_nonneg. intros i v [_ Hv]%lookup_delete_Some. destruct (Ho _ _ Hv) as (_ & ? & ? & _).
  unfold wd_total. case_match; lia.
Qed.

Lemma backed_effect l l' adj rows : backed l -> effect l l' adj rows ->
  (forall P, in_flight open l' P = in_flight open l P + weight P snd adj - rsum to_orders P rows) ->
  (forall k, 0 <= holds l k + rsum to_orders (at_account k) rows) -> backed l'.
Proof.
  intros [F O] E Hf Ho. split.
  - intros P. rewrite (ef_frozen _ _ _ _ E), F, Hf, (audited_effect _ _ _ _ _ _ E). lia.
  - intros k. unfold holds. rewrite (audited_effect _ _ _ _ _ _ E). apply Ho.
Qed.

(** Without a change of the withdrawals. *)
Lemma backed_keep l l' adj rows : backed l -> effect l l' adj rows -> lg_withdrawals l' = lg_withdrawals l ->
  (forall P, weight P snd adj = rsum to_orders P rows) ->
  (forall k, 0 <= holds l k + rsum to_orders (at_account k) rows) -> backed l'.
Proof.
  intros B E Hw Hs Ho. apply (backed_effect _ _ _ _ B E); [|done]. intros P. rewrite Hs. unfold in_flight. rewrite Hw. lia.
Qed.

Lemma backed_moved l l' id : books l -> backed l -> moved l l' id -> backed l'.
Proof.
  intros K B (w & s & tx & reason & Hw & Ho & Hs1 & Hs2 & _ & E & Ht).
  apply (backed_effect _ _ _ _ B E).
  - intros P. injection Ht as _ Hi _. rewrite (in_flight_insert _ _ _ _ _ _ Hi), Hw. cbn [from_option].
    rewrite Ho. unfold rsum, fa_key. change (wd_key (with_status w s tx reason)) with (wd_key w).
    change (wd_total (with_status w s tx reason)) with (wd_total w). unfold weight.
    destruct s; cbn; rewrite ?andb_false_r, ?andb_true_r; try done; destruct (P (wd_key w)) eqn:EP;
      unfold wd_key in EP; rewrite ?EP; lia.
  - intros k. pose proof (bd_orders _ B k). unfold rsum. destruct s; simpl; try lia; case_match; lia.
Qed.

Lemma holds_legs b s base quote q cost bf sf ref k l : base <> quote -> (forall k, 0 <= holds l k) ->
  q <= holds l (s, base) -> cost + bf <= holds l (b, quote) ->
  0 <= holds l k + rsum to_orders (at_account k) (legs_rows b s base quote q (cost + bf) (cost - sf) ref).
Proof.
  intros Hne Hk Hq Hb. specialize (Hk k). unfold rsum, fa_key, at_account. simpl.
  destruct (bool_decide_reflect ((b, quote) = k)) as [H1|], (bool_decide_reflect ((s, base) = k)) as [H2|];
    [congruence|subst k..|]; repeat case_match; lia.
Qed.

Definition disciplined (l : Ledger) (c : call) : Prop := settles_present l c /\ within_holds l c.

Lemma backed_release l u a n : books l -> backed l -> n <= holds l (u, a) -> backed (exec l (Release u a n)).
Proof.
  intros K B Hh. cbn [exec]. destruct (release_frozen_atoms _ _ _ _) as [[r l']|] eqn:Er; [|done]. cbn [after].
  apply release_effect in Er as [->|(Hn & He & Ht)]; [done| |apply K]. injection Ht as _ Hw _.
  assert (Hfr : n <= frozen_of l (u, a)).
  { unfold frozen_of. rewrite <- held_at, (bd_frozen _ B). unfold holds in Hh.
    pose proof (in_flight_nonneg open l (at_account (u, a)) (bk_withdrawals _ K)). lia. }
  rewrite Z.min_l in He by done. apply (backed_keep _ _ _ _ B He Hw); intros P.
  - unfold weight, rsum, fa_key. simpl. repeat case_match; lia.
  - pose proof (bd_orders _ B P). unfold rsum, fa_key, at_account. simpl.
    destruct (bool_decide_reflect ((u, a) = P)) as [<-|]; lia.
Qed.

Lemma backed_settle l b s base quote p q bf sf t : backed l -> disciplined l (Settle b s base quote p q bf sf t) ->
  backed (exec l (Settle b s base quote p q bf sf t)).
Proof.
  intros B [(Hb & Hs & Hbf & Hsf) Hh]. cbn [exec].
  destruct (settle_trade_atoms _ _ _ _ _ _ _ _ _ _) as [l'|] eqn:Es; [|done].
  destruct Hh as [(r & -> & [x Hr])|(Hne & Hq & Hcost & Hip & Hiq)].
  { unfold settle_trade_atoms in Es. do 3 apply result_bind_ok in Es as (? & _ & Es). rewrite Hr in Es.
    case_match; [done|]. destruct (negb _); [done|]. by injection Es as <-. }
  apply settle_effect in Es as [->|(cost & ref & Hmul & Hsc & He & Ht)]; [done| |done..].
  rewrite checked_mul_scaled_spec in Hmul by done. destruct (_ || _); [done|]. cbv zeta in Hmul.
  destruct (Z.ltb _ _); [done|]. injection Hmul as Hmul. rewrite Hmul in Hcost. injection Ht as _ Hw _.
  apply (backed_keep _ _ _ _ B He Hw); [|intros k; apply holds_legs; [done|apply B|done..]].
  intros P. unfold weight, rsum, fa_key. simpl. repeat case_match; lia.
Qed.

Lemma backed_exec l c : books l -> backed l -> disciplined l c -> backed (exec l c).
Proof.
  intros K B Hc. destruct c as [chain tx log u a n|u a chain to n fee|id status tx reason|u a|u a n|u a n|b s base quote p q bf sf t];
    cbn [exec].
  - destruct (credit_chain_deposit _ _ _ _ _ _ _ _ _) as [[[c bal] l']|] eqn:Ed; [|done]. cbn [after].
    apply deposit_effect in Ed as [->|(Hn & Hd & He & Ht)]; [done|]. injection Ht as _ Hw _.
    apply (backed_keep _ _ _ _ B He Hw); intros P; [|pose proof (bd_orders _ B P)]; unfold weight, rsum; simpl;
      repeat case_match; lia.
  - destruct (request_withdrawal _ _ _ _ _ _ _) as [[[id bal] l']|] eqn:Er; [|done]. cbn [after].
    apply request_effect in Er as (Hn & Hf & Hm & Hch & Hp & He & Ht). injection Ht as _ Hw _.
    apply (backed_effect _ _ _ _ B He); intros P.
    + rewrite (in_flight_insert _ _ _ _ _ _ Hw). destruct (lg_withdrawals l !! lg_next_id l) as [w0|] eqn:E0.
      { destruct (bk_withdrawals _ K _ _ E0); lia. }
      unfold weight, rsum, fa_key, wd_key, wd_total. cbn. rewrite andb_true_r. destruct (P (u, a)); lia.
    + pose proof (bd_orders _ B P). unfold rsum. simpl. repeat case_match; lia.
  - destruct (advance_withdrawal _ _ _ _ _) as [[[r l']|]|] eqn:Ea; [|done..]. cbn [after].
    apply advance_effect in Ea as [->|Hm]; [done|by eapply backed_moved|apply K].
  - destruct (ensure_account l u a) as [l'|] eqn:Ee; [|done]. apply ensure_effect in Ee as (adj & He & Ht & Hz).
    injection Ht as _ Hw _. apply (backed_keep _ _ _ _ B He Hw); intros P; [apply Hz|].
    pose proof (bd_orders _ B P). simpl. lia.
  - destruct (freeze_atoms _ _ _ _) as [[r l']|] eqn:Ef; [|done]. cbn [after]. apply hold_effect in Ef as (Hn & He & Ht).
    injection Ht as _ Hw _. apply (backed_keep _ _ _ _ B He Hw); intros P; [|pose proof (bd_orders _ B P)];
      unfold weight, rsum, fa_key; simpl; repeat case_match; lia.
  - destruct Hc. by apply backed_release.
  - by apply backed_settle.
Qed.

Definition sound (l : Ledger) : Prop := books l /\ backed l.

Lemma sound_run users cs : along disciplined (Ledger.new users) cs -> sound (foldl exec (Ledger.new users) cs).
Proof.
  apply along_inv.
  - intros l c [K B] H. split; [apply books_exec; [done|apply H]|by apply backed_exec].
  - split; [apply books_new|]. split; [done|]. by intros k.
Qed.

(** A confirmed withdrawal never changes again. *)
Lemma confirmed_stays l c id w : withdrawals_ok l -> lg_withdrawals l !! id = Some w -> wd_status w = WdConfirmed ->
  disciplined l c -> lg_withdrawals (exec l c) !! id = Some w.
Proof.
  intros Ho Hw Hs [Hc _].
  destruct c as [chain tx log u a n|u a chain to n fee|id' status tx reason|u a|u a n|u a n|b s base quote p q bf sf t];
    cbn [exec].
  - destruct (credit_chain_deposit _ _ _ _ _ _ _ _ _) as [[[c bal] l']|] eqn:Ed; [|done]. cbn [after].
    apply deposit_effect in Ed as [->|(_ & _ & _ & Ht)]; [done|]. by injection Ht as _ -> _.
  - destruct (request_withdrawal _ _ _ _ _ _ _) as [[[i bal] l']|] eqn:Er; [|done]. cbn [after].
    apply request_effect in Er as (_ & _ & _ & _ & _ & _ & Ht). injection Ht as _ -> _.
    rewrite lookup_insert_ne; [done|]. destruct (Ho _ _ Hw). lia.
  - destruct (advance_withdrawal _ _ _ _ _) as [[[r l']|]|] eqn:Ea; [|done..]. cbn [after].
    apply advance_effect in Ea as [->|(w0 & s & ? & ? & Hw0 & Hopen & _ & _ & _ & _ & Ht)]; [done| |done].
    injection Ht as _ -> _. rewrite lookup_insert_ne; [done|]. intros ->. rewrite Hw in Hw0. injection Hw0 as <-.
    by rewrite Hs in Hopen.
  - destruct (ensure_account l u a) as [l'|] eqn:Ee; [|done]. apply ensure_effect in Ee as (_ & _ & Ht & _).
    by injection Ht as _ -> _.
  - destruct (freeze_atoms _ _ _ _) as [[r l']|] eqn:Ef; [|done]. cbn [after]. apply hold_effect in Ef as (_ & _ & Ht).
    by injection Ht as _ -> _.
  - unfold release_frozen_atoms. case_match; [done|]. case_match; [|done].
    destruct (result_bind _ _) as [[r l']|] eqn:Er; [|done]. cbn [after].
    apply result_bind_ok in Er as (l1 & [_ ->]%write_account_ok & Er).
    apply result_bind_ok in Er as (l2 & [_ ->]%fund_audit_ok & [= <- <-]). done.
  - destruct Hc as (Hb & Hq & _). destruct (settle_trade_atoms _ _ _ _ _ _ _ _ _ _) as [l'|] eqn:Es; [|done].
    apply settle_effect in Es as [->|(? & ? & _ & _ & _ & Ht)]; [done| |done..]. by injection Ht as _ -> _.
Qed.

Lemma confirm_succeeds l id w tx : sound l -> lg_withdrawals l !! id = Some w ->
  wd_status w = WdApproved \/ wd_status w = WdBroadcast ->
  exists b, lg_accounts l !! wd_key w = Some b /\
    confirm_withdrawal l id tx = Ok (true, Ledger.set_audit (Ledger.set_withdrawals
      (Ledger.set_accounts l (<[wd_key w := debit (wd_total w) b]> (lg_accounts l)))
      (<[id := with_status w WdConfirmed (Some tx) (wd_fail_reason w)]> (lg_withdrawals l)) (lg_next_id l))
      (lg_audit l ++ [mkFundAudit (wd_user_id w) (wd_asset w) AkWdDebit (wd_total w) id])).
Proof.
  intros [K B] Hw Hs. destruct (bk_withdrawals _ K _ _ Hw) as (_ & Hn & Hfee & Hmax & [b Hb] & Hc).
  exists b. split; [done|]. unfold confirm_withdrawal. rewrite Hw, (wd_total_fits _ Hn Hfee Hmax).
  pose proof (bk_rows _ K _ _ Hb) as Hok. unfold account_ok in Hok. rewrite !andb_true_iff, !Z.leb_le in Hok.
  assert (Hfr : wd_total w <= ab_frozen_atoms b).
  { pose proof (held_at ab_frozen_atoms l (wd_key w)) as Hh. rewrite Hb, (bd_frozen _ B) in Hh. cbn in Hh.
    pose proof (bd_orders _ B (wd_key w)) as Hord. unfold holds in Hord.
    enough (wd_total w <= in_flight open l (at_account (wd_key w))) by lia.
    apply (in_flight_member _ _ _ id); [apply K|done|by apply bool_decide_eq_true_2|by destruct Hs as [->| ->]]. }
  assert (Hwr : update_account l (wd_user_id w, wd_asset w) (debit (wd_total w)) =
    Ok (Ledger.set_accounts l (<[wd_key w := debit (wd_total w) b]> (lg_accounts l)))).
  { unfold update_account. fold (wd_key w). rewrite Hb. unfold write_account, account_ok, debit.
    cbn [ab_balance_atoms ab_frozen_atoms]. destruct Hok as [[[-> ?] ?] ?].
    assert (0 < wd_total w) by (unfold wd_total; lia). by rewrite !(proj2 (Z.leb_le _ _)) by lia. }
  destruct Hs as [-> | ->]; rewrite Hwr; cbn; unfold fund_audit; cbn; by rewrite (proj2 (Nat.leb_le _ _) Hc).
Qed.

(** C7: a withdrawal the chain has executed is always settled, once and for
    good.  After any history in which orders give back and spend no more than
    they hold, confirming an approved or broadcast withdrawal succeeds and takes
    exactly its amount and fee out of the balance and out of the frozen funds of
    its owner, and of nobody else; and whatever happens afterwards, confirming
    it again changes nothing and declaring it failed is refused. *)
Theorem withdrawal_settles users history id w tx later :
  along disciplined (Ledger.new users) history ->
  let l := foldl exec (Ledger.new users) history in
  lg_withdrawals l !! id = Some w -> wd_status w = WdApproved \/ wd_status w = WdBroadcast ->
  exists l1, confirm_withdrawal l id tx = Ok (true, l1) /\
    (forall k, balance_of l1 k = balance_of l k - (if decide (k = wd_key w) then wd_total w else 0) /\
               frozen_of l1 k = frozen_of l k - (if decide (k = wd_key w) then wd_total w else 0)) /\
    (along disciplined l1 later ->
     let l2 := foldl exec l1 later in
     forall tx' reason, confirm_withdrawal l2 id tx' = Ok (false, l2) /\ fail_withdrawal l2 id reason = Err AlreadyConfirmed).
Proof.
  intros Hrun l Hw Hs. pose proof (sound_run _ _ Hrun) as HS. fold l in HS.
  destruct (confirm_succeeds l id w tx HS Hw Hs) as (b & Hb & Hconf). eexists. split; [exact Hconf|]. split.
  - intros k. unfold balance_of, frozen_of. cbn. case_decide as Hk.
    + subst k. rewrite lookup_insert_eq, Hb. done.
    + rewrite lookup_insert_ne by done. lia.
  - set (l1 := Ledger.set_audit _ _). set (w1 := with_status w WdConfirmed (Some tx) (wd_fail_reason w)). intros Hlater l2.
    assert (H1 : books l1 /\ lg_withdrawals l1 !! id = Some w1).
    { split; [|apply lookup_insert_eq]. apply (books_moved l l1 id); [apply HS|].
      by destruct (confirm_effect _ _ _ _ _ (bk_withdrawals _ (proj1 HS)) Hconf) as [[_ ?]|[? _]]. }
    assert (H2 : books l2 /\ lg_withdrawals l2 !! id = Some w1).
    { apply (along_inv (fun l => books l /\ lg_withdrawals l !! id = Some w1) disciplined); [|done..].
      intros l0 c [K Hl0] Hc. split; [apply books_exec; [done|apply Hc]|]. apply confirmed_stays; try done. apply K. }
    intros tx' reason. unfold confirm_withdrawal, fail_withdrawal. rewrite (proj2 H2). done.
Qed.

(** ** Runs *)

Definition demo_users : gset Z := {[1; 2]}.
Definition demo_calls : list call :=
  [Deposit (str "TRON") (str "t1") 0 1 (str "USDT") 1000000000;
   Deposit (str "TRON") (str "t1") 0 1 (str "USDT") 1000000000;
   Deposit (str "BTC") (str "t2") 0 2 (str "BTC") 100000000;
   Freeze 1 (str "USDT") 200000000; Freeze 2 (str "BTC") 100000000;
   Settle 1 2 (str "BTC") (str "USDT") 200000000 100000000 0 1000000 (Some (mkSettleTradeRecord (str "BTC_USDT") 7 8));
   Settle 1 2 (str "BTC") (str "USDT") 200000000 100000000 0 1000000 (Some (mkSettleTradeRecord (str "BTC_USDT") 7 8));
   Request 1 (str "USDT") (str "TRON") (str "addr") 300000000 1000000;
   Advance 1 (str "approved") None None; Freeze 1 (str "USDT") 50000000; Release 1 (str "USDT") 50000000].

Definition demo_ledger : Ledger := foldl exec (Ledger.new demo_users) demo_calls.

Ltac run_disciplined :=
  vm_compute; repeat split; try discriminate; try (eexists; reflexivity);
  first [left; eexists; split; [reflexivity|eexists; reflexivity]|right; repeat split; discriminate].

Lemma custody_solvent_witness :
  along settles_present (Ledger.new demo_users) demo_calls /\
  total_balance demo_ledger (str "USDT") = 999000000 /\
  total_balance demo_ledger (str "USDT") = deposited demo_ledger (str "USDT") - withdrawn demo_ledger (str "USDT")
    - audited to_fees demo_ledger (in_asset (str "USDT")).
Proof.
  assert (H : along settles_present (Ledger.new demo_users) demo_calls) by run_disciplined.
  split; [done|]. split; [vm_compute; reflexivity|]. exact (proj1 (custody_solvent demo_users demo_calls H (str "USDT"))).
Defined.

Lemma withdrawal_settles_witness :
  along disciplined (Ledger.new demo_users) demo_calls /\
  exists w l1, lg_withdrawals demo_ledger !! 1 = Some w /\ wd_total w = 301000000 /\
    confirm_withdrawal demo_ledger 1 (str "h") = Ok (true, l1) /\
    balance_of demo_ledger (1, str "USDT") = 800000000 /\ balance_of l1 (1, str "USDT") = 499000000.
Proof.
  assert (H : along disciplined (Ledger.new demo_users) demo_calls) by run_disciplined.
  split; [done|].
  destruct (withdrawal_settles demo_users demo_calls 1
              (mkWithdrawal 1 (str "USDT") (str "TRON") (str "addr") 300000000 1000000 WdApproved None None)
              (str "h") [] H ltac:(vm_compute; reflexivity) ltac:(by left)) as (l1 & Hc & Hk & _).
  do 2 eexists. split; [vm_compute; reflexivity|]. split; [reflexivity|]. split; [exact Hc|].
  split; [vm_compute; reflexivity|]. destruct (Hk (1, str "USDT")) as [-> _]. vm_compute. reflexivity.
Defined.

(** A release that exceeds what orders hold eats into the funds of an executed
    withdrawal, whose confirmation then violates a constraint for ever. *)
Lemma over_release_strands_withdrawal :
  let l := exec demo_ledger (Release 1 (str "USDT") 1) in
  confirm_withdrawal l 1 (str "h") = Err DbError.
Proof. vm_compute. reflexivity. Qed.

(** A settlement whose buyer has no quote account debits nobody and credits the
    seller, and writes an audit row of the debit. *)
Lemma settle_without_account_mints :
  let calls := [Deposit (str "BTC") (str "t2") 0 2 (str "BTC") 100000000; Freeze 2 (str "BTC") 100000000;
                Settle 1 2 (str "BTC") (str "USDT") 200000000 100000000 0 0 None] in
  let l := foldl exec (Ledger.new demo_users) calls in
  deposited l (str "USDT") = 0 /\ total_balance l (str "USDT") = 200000000 /\
  audited to_balance l (at_account (1, str "USDT")) = -200000000.
Proof. vm_compute. done. Qed.

(** A release is audited with the amount asked for, not with the amount the
    clamp let go: the audit no longer adds up to what is frozen. *)
Lemma clamped_release_audited_whole :
  let l := foldl exec (Ledger.new demo_users)
             [Deposit (str "TRON") (str "t1") 0 1 (str "USDT") 100; Freeze 1 (str "USDT") 10; Release 1 (str "USDT") 50] in
  frozen_of l (1, str "USDT") = 0 /\ holds l (1, str "USDT") = -40.
Proof. vm_compute. done. Qed.

(** The writer stores the frames of the desk's cache as absolute rows: one that
    was published before a deposit and is flushed after it takes the deposit
    back, although it stays on record as credited. *)
Lemma late_frame_erases_deposit `{Chrono} :
  let before := exec (Ledger.new demo_users) (Deposit (str "TRON") (str "t1") 0 1 (str "USDT") 100) in
  let row l := mkAccountRow 1 (str "USDT") (balance_of l (1, str "USDT")) (frozen_of l (1, str "USDT")) in
  let l := exec before (Deposit (str "TRON") (str "t2") 0 1 (str "USDT") 400) in
  let t := mkTables demo_users ∅ {[(1, str "USDT") := row l]} ∅ ∅ ∅ ∅ 0 [] ∅ in
  deposited l (str "USDT") = 500 /\
  (fun t => ar_balance_atoms <$> tb_accounts t !! (1, str "USDT")) <$> flush_accounts t [row before] = Some (Some 100).
Proof. vm_compute. done. Qed.

(** Who may credit: nobody without the token of the environment, which has at
    least 32 bytes. *)
Lemma bearer_authorized_spec expected header : bearer_authorized expected header = true <->
  exists token, expected = Some token /\ (32 <= length token)%nat /\ header = Some (str "Bearer " ++ token).
Proof.
  unfold bearer_authorized. destruct expected as [token|]; [|by split; [|intros (? & ? & _)]].
  destruct (Nat.ltb_spec (length token) 32); [split; [done|]; intros (? & [= <-] & ? & _); lia|].
  destruct header as [h|]; [|by split; [|intros (? & _ & _ & ?)]]. rewrite andb_true_iff, !bool_decide_eq_true. split.
  - intros [Ht <-]. exists (drop 7 h). by rewrite <- Ht, take_drop.
  - by intros (? & [= <-] & _ & [= ->]).
Qed.

Lemma credit_needs_token desk_id env c header chain tx log u a n from to :
  (handle_deposit_credit desk_id env c header chain tx log u a n from to).1 <> c ->
  exists token, env (str "EXCHANGE_DEPOSIT_TOKEN") = Some token /\ (32 <= length token)%nat /\
    header = Some (str "Bearer " ++ token).
Proof.
  intros H. apply bearer_authorized_spec. unfold handle_deposit_credit in H.
  by destruct (bearer_authorized _ header).
Qed.
