(* ===== verification/F64Err.v ===== *)
(** Rounding errors of binary64.  The desk keeps money in integers of atoms and
    grid units of ticks and lots, but hands them through [f64] at its borders:
    to the sessions, to the frames of the persistence stream, to the common
    path of order entry.  A product or a quotient of normal floats is off by at
    most one part in [2^52]; it follows that amounts and grid units below [2^50]
    come back from [f64] exactly as they went in. *)
From Stdlib Require Import ZArith Lia SpecFloat String.
From stdpp Require Import base numbers list sets.
From S2P Require Import Prelude Bytes Fixed Types F64 MarketData F64Grid F64Int Text Money SymbolRules PersistEvent Desk.

#[local] Open Scope Z_scope.

(** ** One rounding *)

(** A mantissa [m] of at least 53 digits, with what was cut off behind it, is
    rounded to its first 53 digits or to the next larger number with 53. *)
Lemma round_aux_near s m e l : let d := Zpos (digits2_pos m) in
  53 <= d -> -1021 <= d + e -> d + e <= 1000 ->
  exists m' e', binary_round_aux 53 1024 s (Zpos m) e l = S754_finite s m' e' /\
    Zpos (digits2_pos m') = 53 /\ d + e - 53 <= e' <= d + e - 52 /\
    (let q := Zpos m / 2 ^ (d - 53) in
     Zpos m' * 2 ^ (e' - e) = q * 2 ^ (d - 53) \/ Zpos m' * 2 ^ (e' - e) = (q + 1) * 2 ^ (d - 53)).
Proof.
  intros d Hd Hlo Hhi.
  assert (Hs : exists r st, shr_fexp 53 1024 (Zpos m) e l = (Build_shr_record (Zpos m / 2 ^ (d - 53)) r st, d + e - 53)).
  { unfold shr_fexp. change (Zdigits2 (Zpos m)) with d. rewrite fexp_normal by lia.
    replace (d + e - 53 - e) with (d - 53) by lia. unfold shr. destruct (d - 53) as [|n|n] eqn:En; [|..|lia].
    - rewrite Z.pow_0_r, Z.div_1_r. replace (d + e - 53) with e by lia.
      destruct l as [|[]]; cbn; by do 2 eexists.
    - pose proof (shr_m_iter n (shr_record_of_loc (Zpos m) l)) as Hm.
      assert (Hl : shr_m (shr_record_of_loc (Zpos m) l) = Zpos m) by (by destruct l as [|[]]). rewrite Hl in Hm.
      destruct (SpecFloat.iter_pos shr_1 n _) as [mm r st]. cbn in Hm. exists r, st. rewrite Hm by lia. f_equal. lia. }
  destruct Hs as (r & st & Hs). unfold binary_round_aux. rewrite Hs. cbn [shr_m]. set (q := Zpos m / 2 ^ (d - 53)) in *.
  assert (Hq : 2 ^ 52 <= q < 2 ^ 53).
  { pose proof (digits_bounds m) as [Hl Hu]. fold d in Hl, Hu. split.
    - apply Z.div_le_lower_bound; [lia|]. rewrite <- Z.pow_add_r by lia. by replace (d - 53 + 52) with (d - 1) by lia.
    - apply Z.div_lt_upper_bound; [lia|]. rewrite <- Z.pow_add_r by lia. by replace (d - 53 + 53) with d by lia. }
  destruct (round_even_cases q (loc_of_shr_record (Build_shr_record q r st))) as [Hr|Hr]; rewrite Hr; clear Hr Hs.
  - destruct q as [|q|q]; [lia| |lia]. assert (Hdq : Zpos (digits2_pos q) = 53) by (apply digits_unique; lia).
    rewrite shr_fexp_none by lia. cbn [shr_m]. change (1024 - 53) with 971. exists q, (d + e - 53).
    destruct (Z.leb_spec (d + e - 53) 971); [|lia]. split; [done|]. split; [done|]. split; [lia|].
    left. do 2 f_equal. lia.
  - destruct (decide (q = 2 ^ 53 - 1)) as [Hq1|Hq1].
    + rewrite Hq1. unfold shr_fexp. replace (Zdigits2 (2 ^ 53 - 1 + 1)) with 54 by done. rewrite fexp_normal by lia.
      replace (54 + (d + e - 53) - 53 - (d + e - 53)) with 1 by lia. cbn [shr shr_record_of_loc].
      exists (Z.to_pos (2 ^ 52)), (d + e - 52). change (1024 - 53) with 971.
      replace (d + e - 53 + 1) with (d + e - 52) by lia. destruct (Z.leb_spec (d + e - 52) 971) as [|]; [|lia].
      split; [done|]. split; [done|]. split; [lia|]. right.
      replace (d + e - 52 - e) with (1 + (d - 53)) by lia. rewrite Z.pow_add_r by lia. lia.
    + destruct (q + 1) as [|q1|q1] eqn:Eq1; [lia| |lia]. assert (Hdq : Zpos (digits2_pos q1) = 53) by (apply digits_unique; lia).
      rewrite shr_fexp_none by lia. cbn [shr_m]. change (1024 - 53) with 971. exists q1, (d + e - 53).
      destruct (Z.leb_spec (d + e - 53) 971); [|lia]. split; [done|]. split; [done|]. split; [lia|].
      right. do 2 f_equal. lia.
Qed.

(** In other words: if the exact value is [a / b], within the last digit of
    [m], the rounded one is off by at most one part in [2^52]. *)
Lemma round_aux_rel s m e l a b : let d := Zpos (digits2_pos m) in
  53 <= d -> -1021 <= d + e -> d + e <= 1000 -> 0 < b -> Zpos m * b <= a < (Zpos m + 1) * b ->
  exists m' e', binary_round_aux 53 1024 s (Zpos m) e l = S754_finite s m' e' /\
    Zpos (digits2_pos m') = 53 /\ d + e - 53 <= e' <= d + e - 52 /\
    Z.abs (Zpos m' * 2 ^ (e' - e) * b - a) * 2 ^ 52 <= a.
Proof.
  intros d Hd Hlo Hhi Hb Ha. destruct (round_aux_near s m e l Hd Hlo Hhi) as (m' & e' & Hr & Hd' & He' & Hv).
  exists m', e'. split; [done|]. split; [done|]. split; [done|]. fold d in Hv. cbv zeta in Hv.
  set (p := 2 ^ (d - 53)) in *. assert (Hp : 0 < p) by (apply pow_pos; lia).
  pose proof (Z.div_mod (Zpos m) p ltac:(lia)) as Hdm. pose proof (Z.mod_pos_bound (Zpos m) p Hp) as Hmp.
  set (q := Zpos m / p) in *. set (R := Zpos m' * 2 ^ (e' - e)) in *.
  assert (Hm52 : 2 ^ 52 * p <= Zpos m).
  { unfold p. rewrite <- Z.pow_add_r by lia. replace (52 + (d - 53)) with (d - 1) by lia. apply digits_bounds. }
  assert (Herr : Z.abs (R * b - a) <= p * b) by (destruct Hv as [-> | ->]; nia).
  nia.
Qed.

(** ** Products and quotients

    [normal x s m e]: [x] is a float of 53 digits far from the ends of the
    range.  [mag] is its magnitude in units of [2^-1000]. *)
Definition normal (x : f64) (s : bool) (m : positive) (e : Z) : Prop :=
  x = S754_finite s m e /\ Zpos (digits2_pos m) = 53 /\ -400 <= e <= 400.

Definition mag (m : positive) (e : Z) : Z := Zpos m * 2 ^ (e + 1000).

Lemma mag_pos m e : -1000 <= e -> 0 < mag m e.
Proof. intros He. unfold mag. pose proof (pow_pos (e + 1000)). lia. Qed.

Lemma mantissa_bounds m : Zpos (digits2_pos m) = 53 -> 2 ^ 52 <= Zpos m < 2 ^ 53.
Proof. intros Hd. pose proof (digits_bounds m) as H. by rewrite Hd in H. Qed.

Lemma mul_rel x y s1 m1 e1 s2 m2 e2 : normal x s1 m1 e1 -> normal y s2 m2 e2 ->
  exists m e, f64_mul x y = S754_finite (xorb s1 s2) m e /\ Zpos (digits2_pos m) = 53 /\
    e1 + e2 + 52 <= e <= e1 + e2 + 54 /\
    Z.abs (mag m e * 2 ^ 1000 - mag m1 e1 * mag m2 e2) * 2 ^ 52 <= mag m1 e1 * mag m2 e2.
Proof.
  intros (-> & Hd1 & He1) (-> & Hd2 & He2). unfold f64_mul, SFmul.
  pose proof (mantissa_bounds _ Hd1) as H1. pose proof (mantissa_bounds _ Hd2) as H2.
  assert (Hd : 105 <= Zpos (digits2_pos (m1 * m2)) <= 106).
  { pose proof (digits_bounds (m1 * m2)) as [Hl Hu]. rewrite Pos2Z.inj_mul in Hl, Hu. split.
    - destruct (Z.le_gt_cases 105 (Zpos (digits2_pos (m1 * m2)))); [done|].
      assert (2 ^ Zpos (digits2_pos (m1 * m2)) <= 2 ^ 104) by (apply Z.pow_le_mono_r; lia). nia.
    - destruct (Z.le_gt_cases (Zpos (digits2_pos (m1 * m2))) 106); [done|].
      assert (2 ^ 106 <= 2 ^ (Zpos (digits2_pos (m1 * m2)) - 1)) by (apply Z.pow_le_mono_r; lia). nia. }
  destruct (round_aux_rel (xorb s1 s2) (m1 * m2) (e1 + e2) loc_Exact (Zpos (m1 * m2)) 1
              ltac:(lia) ltac:(lia) ltac:(lia) ltac:(lia) ltac:(lia)) as (m & e & Hr & Hdm & He & Herr).
  exists m, e. split; [exact Hr|]. split; [done|]. split; [lia|]. rewrite Z.mul_1_r, Pos2Z.inj_mul in Herr.
  unfold mag. set (P := 2 ^ (e1 + e2 + 2000)).
  assert (HP : 0 < P) by (apply pow_pos; lia).
  replace (Zpos m1 * 2 ^ (e1 + 1000) * (Zpos m2 * 2 ^ (e2 + 1000))) with (Zpos m1 * Zpos m2 * P)
    by (unfold P; replace (e1 + e2 + 2000) with (e1 + 1000 + (e2 + 1000)) by lia; rewrite (Z.pow_add_r _ (e1 + 1000)) by lia; ring).
  replace (Zpos m * 2 ^ (e + 1000) * 2 ^ 1000) with (Zpos m * 2 ^ (e - (e1 + e2)) * P).
  { rewrite <- Z.mul_sub_distr_r, Z.abs_mul, (Z.abs_eq P) by lia. nia. }
  unfold P. rewrite <- !Z.mul_assoc, <- !Z.pow_add_r by lia. do 2 f_equal. lia.
Qed.

Lemma div_rel x y s1 m1 e1 s2 m2 e2 : normal x s1 m1 e1 -> normal y s2 m2 e2 ->
  exists m e, f64_div x y = S754_finite (xorb s1 s2) m e /\ Zpos (digits2_pos m) = 53 /\
    e1 - e2 - 53 <= e <= e1 - e2 - 51 /\
    Z.abs (mag m e * mag m2 e2 - mag m1 e1 * 2 ^ 1000) * 2 ^ 52 <= mag m1 e1 * 2 ^ 1000.
Proof.
  intros (-> & Hd1 & He1) (-> & Hd2 & He2). unfold f64_div, SFdiv, SFdiv_core_binary.
  change (Zdigits2 (Zpos m1)) with (Zpos (digits2_pos m1)). change (Zdigits2 (Zpos m2)) with (Zpos (digits2_pos m2)).
  rewrite Hd1, Hd2, fexp_normal by lia. rewrite Z.min_l by lia.
  replace (e1 - e2 - (53 + e1 - (53 + e2) - 53)) with 53 by lia.
  pose proof (mantissa_bounds _ Hd1) as H1. pose proof (mantissa_bounds _ Hd2) as H2.
  rewrite Z.shiftl_mul_pow2 by lia. pose proof (Z_div_mod (Zpos m1 * 2 ^ 53) (Zpos m2) ltac:(lia)) as Hq.
  destruct (Z.div_eucl _ _) as [q r]. destruct Hq as [Hq Hr].
  assert (Hq52 : 2 ^ 52 <= q < 2 ^ 54) by nia. destruct q as [|q|q]; [lia| |lia].
  assert (Hd : 53 <= Zpos (digits2_pos q) <= 54).
  { pose proof (digits_bounds q) as [Hl Hu]. split.
    - destruct (Z.le_gt_cases 53 (Zpos (digits2_pos q))); [done|].
      assert (2 ^ Zpos (digits2_pos q) <= 2 ^ 52) by (apply Z.pow_le_mono_r; lia). lia.
    - destruct (Z.le_gt_cases (Zpos (digits2_pos q)) 54); [done|].
      assert (2 ^ 54 <= 2 ^ (Zpos (digits2_pos q) - 1)) by (apply Z.pow_le_mono_r; lia). lia. }
  set (e0 := 53 + e1 - (53 + e2) - 53).
  destruct (round_aux_rel (xorb s1 s2) q e0 (new_location (Zpos m2) r) (Zpos m1 * 2 ^ 53) (Zpos m2)
              ltac:(lia) ltac:(lia) ltac:(lia) ltac:(lia) ltac:(nia)) as (m & e & Hres & Hdm & He & Herr).
  exists m, e. split; [exact Hres|]. split; [done|]. split; [lia|].
  unfold mag. set (P := 2 ^ (e1 + 1947)). assert (HP : 0 < P) by (apply pow_pos; lia).
  replace (Zpos m1 * 2 ^ (e1 + 1000) * 2 ^ 1000) with (Zpos m1 * 2 ^ 53 * P).
  2:{ unfold P. rewrite <- !Z.mul_assoc, <- !Z.pow_add_r by lia. do 2 f_equal. lia. }
  replace (Zpos m * 2 ^ (e + 1000) * (Zpos m2 * 2 ^ (e2 + 1000))) with (Zpos m * 2 ^ (e - e0) * Zpos m2 * P).
  { rewrite <- Z.mul_sub_distr_r, Z.abs_mul, (Z.abs_eq P) by lia. nia. }
  unfold P. replace (Zpos m * 2 ^ (e - e0) * Zpos m2 * 2 ^ (e1 + 1947)) with (Zpos m * Zpos m2 * (2 ^ (e - e0) * 2 ^ (e1 + 1947))) by ring.
  replace (Zpos m * 2 ^ (e + 1000) * (Zpos m2 * 2 ^ (e2 + 1000))) with (Zpos m * Zpos m2 * (2 ^ (e + 1000) * 2 ^ (e2 + 1000))) by ring.
  rewrite <- !Z.pow_add_r by lia. do 2 f_equal. lia.
Qed.

(** ** Back to the integer *)

Lemma int_normal z : z <> 0 -> Z.abs z < 2 ^ 53 ->
  exists q f, normal (i64_as_f64 z) (Z.ltb z 0) q f /\ mag q f = Z.abs z * 2 ^ 1000 /\ -52 <= f <= 0.
Proof.
  intros Hz Hb. destruct (int_float z Hz Hb) as (q & f & Hi & Hq & Hd & Hf). exists q, f.
  split; [|split; [|done]]; [split; [done|]; split; [done|lia]|].
  unfold mag. rewrite Hq, <- Z.mul_assoc, <- Z.pow_add_r by lia. do 2 f_equal. lia.
Qed.

(** [near a m e]: [m * 2^e] is [|a|] up to two roundings. *)
Definition near_int (a : Z) (m : positive) (e : Z) : Prop :=
  Z.abs (mag m e - Z.abs a * 2 ^ 1000) * 2 ^ 104 <= (2 ^ 53 + 1) * (Z.abs a * 2 ^ 1000).

(** Below [2^50] two roundings move an integer by less than a half. *)
Lemma near_half a m e : Z.abs a < 2 ^ 50 -> near_int a m e -> Z.abs (mag m e - Z.abs a * 2 ^ 1000) < 2 ^ 999.
Proof. unfold near_int. intros Ha Hn. change (2 ^ 1000) with (2 * 2 ^ 999) in *. nia. Qed.

Lemma near_exponent a m e : Z.abs a < 2 ^ 50 -> Zpos (digits2_pos m) = 53 -> near_int a m e -> e < 0.
Proof.
  intros Ha Hd Hn. destruct (Z.lt_ge_cases e 0) as [|He]; [done|exfalso].
  pose proof (near_half a m e Ha Hn) as Hh. pose proof (mantissa_bounds m Hd) as Hm. unfold mag in Hh.
  assert (2 ^ 1000 <= 2 ^ (e + 1000)) by (apply Z.pow_le_mono_r; lia).
  change (2 ^ 1000) with (2 * 2 ^ 999) in *. assert (0 < 2 ^ 999) by (by apply pow_pos). nia.
Qed.

Lemma near_magnitude a m e : Z.abs a < 2 ^ 50 -> Zpos (digits2_pos m) = 53 -> -900 <= e ->
  near_int a m e -> round_magnitude m e = Z.abs a.
Proof.
  intros Ha Hd He Hn. pose proof (near_exponent a m e Ha Hd Hn) as Hneg. pose proof (near_half a m e Ha Hn) as Hh.
  unfold round_magnitude. destruct (Z.leb_spec 0 e); [lia|]. unfold mag in Hh.
  set (k := 2 ^ (e + 1000)) in *. assert (Hk : 0 < k) by (apply pow_pos; lia).
  assert (H1 : 2 ^ 1000 = 2 * 2 ^ (- e - 1) * k).
  { unfold k. change 2 with (2 ^ 1) at 2. rewrite <- !Z.pow_add_r by lia. f_equal. lia. }
  assert (H2 : 2 ^ 999 = 2 ^ (- e - 1) * k) by (unfold k; rewrite <- !Z.pow_add_r by lia; f_equal; lia).
  rewrite H1, H2 in Hh. replace (- e) with (1 + (- e - 1)) at 2 by lia.
  rewrite Z.pow_add_r, Z.pow_1_r by lia. set (h := 2 ^ (- e - 1)) in *.
  assert (Hp : 0 < h) by (apply pow_pos; lia). symmetry. apply (Z.div_unique _ _ _ (Zpos m + h - 2 * h * Z.abs a)); [|lia].
  left. nia.
Qed.

Lemma near_round a m e : a <> 0 -> Z.abs a < 2 ^ 50 -> Zpos (digits2_pos m) = 53 -> -900 <= e ->
  near_int a m e -> f64_round (S754_finite (Z.ltb a 0) m e) = i64_as_f64 a.
Proof.
  intros Ha0 Ha Hd He Hn. unfold f64_round. rewrite (near_magnitude a) by done. unfold i64_as_f64.
  destruct a as [|p|p]; [done| |]; done.
Qed.

Lemma i64_as_f64_round_trip a : Z.abs a < 2 ^ 53 -> f64_as_i64 (i64_as_f64 a) = a.
Proof.
  intros Hb. destruct (decide (a = 0)) as [->|Ha]; [done|].
  destruct (int_float a Ha Hb) as (q & f & -> & Hq & Hd & Hf). unfold f64_as_i64.
  assert (Hv : (if Z.leb 0 f then Zpos q * 2 ^ f else Zpos q / 2 ^ (- f)) = Z.abs a).
  { destruct (Z.leb_spec 0 f).
    - assert (f = 0) as -> by lia. rewrite Hq. simpl. lia.
    - rewrite Hq, Z.div_mul; [done|]. pose proof (pow_pos (- f)). lia. }
  rewrite Hv. unfold i64_clamp. machine_unfold. destruct (Z.ltb_spec a 0); cbn [cond_Zopp]; lia.
Qed.

(** A float of a negative exponent lies between the bounds of an [i64]. *)
Lemma in_i64_bounds s m e : Zpos (digits2_pos m) = 53 -> e < 11 ->
  f64_lt (i64_as_f64 i64_max) (S754_finite s m e) = false /\ f64_lt (S754_finite s m e) (i64_as_f64 i64_min) = false.
Proof.
  intros Hd He.
  assert (Hmax : i64_as_f64 i64_max = S754_finite false 4503599627370496 11) by (vm_compute; reflexivity).
  assert (Hmin : i64_as_f64 i64_min = S754_finite true 4503599627370496 11) by (vm_compute; reflexivity).
  rewrite Hmax, Hmin. unfold f64_lt, SFltb. destruct s; cbn [SFcompare]; (split; [|]); try done.
  - destruct (Z.compare_spec e 11); [lia|done|lia].
  - destruct (Z.compare_spec 11 e); [lia|lia|done].
Qed.

(** Two relative errors in a row, in either order of operations: [x] stands
    for the first result times the scale, [c > 0] for the scale itself. *)
Lemma two_roundings A x y c : 0 < c -> 0 <= A ->
  Z.abs (x - A * c) * 2 ^ 52 <= A * c -> Z.abs (y * c - x) * 2 ^ 52 <= x ->
  Z.abs (y - A) * 2 ^ 104 <= (2 ^ 53 + 1) * A.
Proof.
  intros Hc HA Hx Hy. assert (Hyx : Z.abs (y - A) * c * 2 ^ 104 <= (2 ^ 53 + 1) * (A * c)); [|nia].
  rewrite <- (Z.abs_eq c) at 1 by lia. rewrite <- Z.abs_mul, Z.mul_sub_distr_r.
  assert (Ht : Z.abs (y * c - A * c) <= Z.abs (y * c - x) + Z.abs (x - A * c)) by lia.
  assert (0 <= A * c) by nia. generalize dependent (y * c). generalize dependent (A * c). intros. lia.
Qed.

(** ** Amounts *)

(** An amount of fewer than [2^50] atoms survives the trip through [f64]. *)
Lemma amount_round_trip a : Z.abs a < 2 ^ 50 -> AmountAtoms.from_f64_round (AmountAtoms.to_f64 a) = Ok a.
Proof.
  intros Hb. destruct (decide (a = 0)) as [->|Ha]; [by vm_compute|].
  destruct (int_normal a Ha ltac:(lia)) as (q & f & Hx & Hmx & Hf).
  destruct (int_normal AMOUNT_SCALE ltac:(done) ltac:(done)) as (qs & fs & Hs & Hms & Hfs).
  unfold AmountAtoms.to_f64. destruct (div_rel _ _ _ _ _ _ _ _ Hx Hs) as (mx & ex & Hdiv & Hdx & Hex & Herr1).
  assert (Hn : normal (f64_div (i64_as_f64 a) (i64_as_f64 AMOUNT_SCALE)) (xorb (Z.ltb a 0) (Z.ltb AMOUNT_SCALE 0)) mx ex)
    by (split; [done|]; split; [done|lia]).
  destruct (mul_rel _ _ _ _ _ _ _ _ Hn Hs) as (my & ey & Hmul & Hdy & Hey & Herr2).
  assert (Hnear : near_int a my ey).
  { rewrite Hmx in Herr1. unfold near_int.
    apply (two_roundings _ (mag mx ex * mag qs fs) _ (2 ^ 1000)); [by apply pow_pos|lia|done|done]. }
  unfold AmountAtoms.from_f64_round. rewrite Hmul, Hdiv. cbn [f64_is_finite negb].
  change (Z.ltb AMOUNT_SCALE 0) with false. rewrite !xorb_false_r.
  rewrite near_round by (done || lia). destruct (int_float a Ha ltac:(lia)) as (qa & fa & Hi & _ & Hda & Hfa).
  destruct (in_i64_bounds (Z.ltb a 0) qa fa Hda ltac:(lia)) as [H1 H2]. rewrite Hi, H1, H2, <- Hi. cbn [orb].
  by rewrite i64_as_f64_round_trip by lia.
Qed.

(** ** The grid *)

Lemma finite_lt_mag m e m' e' : Zpos (digits2_pos m) = 53 -> Zpos (digits2_pos m') = 53 -> -1000 <= e -> -1000 <= e' ->
  f64_lt (S754_finite false m e) (S754_finite false m' e') = Z.ltb (mag m e) (mag m' e').
Proof.
  intros Hd Hd' He He'. pose proof (mantissa_bounds m Hd). pose proof (mantissa_bounds m' Hd').
  assert (Hgrow : forall i j, 0 <= i < j -> 2 * 2 ^ i <= 2 ^ j).
  { intros i j Hij. rewrite <- Z.pow_succ_r by lia. apply Z.pow_le_mono_r; lia. }
  unfold f64_lt, SFltb, mag. cbn [SFcompare]. destruct (Z.compare_spec e e') as [->|Hlt|Hgt].
  - assert (0 < 2 ^ (e' + 1000)) by (apply pow_pos; lia). change (Pos.compare_cont Eq m m') with (Pos.compare m m').
    destruct (Pos.compare_spec m m'); symmetry; (apply Z.ltb_lt || apply Z.ltb_ge); try nia.
  - symmetry. apply Z.ltb_lt. pose proof (Hgrow (e + 1000) (e' + 1000) ltac:(lia)). pose proof (pow_pos (e + 1000)). nia.
  - symmetry. apply Z.ltb_ge. pose proof (Hgrow (e' + 1000) (e + 1000) ltac:(lia)). pose proof (pow_pos (e' + 1000)). nia.
Qed.

(** A difference of at most 53 digits is exact. *)
Lemma normalize_small z e : z <> 0 -> Z.abs z < 2 ^ 53 -> -900 <= e <= 900 ->
  exists m f, SFabs (binary_normalize 53 1024 z e false) = S754_finite false m f /\
    Zpos (digits2_pos m) = 53 /\ mag m f = Z.abs z * 2 ^ (e + 1000) /\ -1000 <= f.
Proof.
  intros Hz Hb He.
  assert (Hp : forall s p, Zpos p < 2 ^ 53 -> exists m f, SFabs (binary_round 53 1024 s p e) = S754_finite false m f /\
    Zpos (digits2_pos m) = 53 /\ mag m f = Zpos p * 2 ^ (e + 1000) /\ -1000 <= f).
  { intros s p Hp. pose proof (digits_bounds p) as [Hl Hu]. set (d := Zpos (digits2_pos p)) in *.
    assert (Hd : d <= 53).
    { destruct (Z.le_gt_cases d 53); [done|]. assert (2 ^ 53 <= 2 ^ (d - 1)) by (apply Z.pow_le_mono_r; lia). lia. }
    set (q := Z.to_pos (Zpos p * 2 ^ (53 - d))).
    assert (Hq : Zpos q = Zpos p * 2 ^ (53 - d)) by (pose proof (pow_pos (53 - d)); unfold q; rewrite Z2Pos.id by nia; done).
    assert (Hdq : Zpos (digits2_pos q) = 53) by (rewrite (digits_shift p q (53 - d)) by (done || lia); lia).
    exists q, (e - (53 - d)). rewrite (binary_round_exact s p e q (e - (53 - d))); [|rewrite Hq|done|lia|lia].
    - split; [done|]. split; [done|]. split; [|lia].
      unfold mag. rewrite Hq, <- Z.mul_assoc, <- Z.pow_add_r by lia. do 2 f_equal. lia.
    - rewrite Z.max_r, Z.max_l by lia. replace (e - (e - (53 - d))) with (53 - d) by lia. by rewrite Z.pow_0_r, Z.mul_1_r. }
  destruct z as [|p|p]; [done| |]; cbn [binary_normalize Z.abs] in *; by apply Hp.
Qed.

(** The distance of a near value from its integer, as the code computes it. *)
Lemma near_distance t m e qt ft : 0 < t < 2 ^ 50 -> Zpos (digits2_pos m) = 53 -> -900 <= e ->
  near_int t m e -> i64_as_f64 t = S754_finite false qt ft ->
  let d := f64_abs (f64_sub (S754_finite false m e) (i64_as_f64 t)) in
  d = S754_zero false \/
  exists md fd, d = S754_finite false md fd /\ Zpos (digits2_pos md) = 53 /\ -1000 <= fd /\
    mag md fd * 2 ^ 104 <= (2 ^ 53 + 1) * (t * 2 ^ 1000).
Proof.
  intros Ht Hd He Hn Hi. pose proof (near_exponent t m e ltac:(lia) Hd Hn) as Hneg. unfold near_int in Hn.
  destruct (int_normal t ltac:(lia) ltac:(lia)) as (q & f & (Hi' & Hdq & _) & Hmq & Hf).
  rewrite Hi in *. injection Hi' as _ <- <-. rewrite (Z.abs_eq t) in * by lia. cbv zeta. rewrite finite_sub. unfold f64_abs.
  set (ez := Z.min e ft) in *. cbn [cond_Zopp]. set (D := Zpos m * 2 ^ (e - ez) - Zpos qt * 2 ^ (ft - ez)).
  assert (HP : 0 < 2 ^ (ez + 1000)) by (apply pow_pos; lia).
  assert (HD : D * 2 ^ (ez + 1000) = mag m e - mag qt ft).
  { unfold D, mag. rewrite Z.mul_sub_distr_r, <- !Z.mul_assoc, <- !Z.pow_add_r by lia. do 3 f_equal; lia. }
  assert (HDabs : Z.abs D * 2 ^ (ez + 1000) = Z.abs (mag m e - t * 2 ^ 1000)).
  { rewrite <- Hmq, <- HD, Z.abs_mul. f_equal. lia. }
  pose proof (mantissa_bounds m Hd) as Hm53. pose proof (mantissa_bounds qt Hdq) as Hq53.
  assert (Hsmall : t * 2 ^ 1000 < 2 ^ 55 * 2 ^ (ez + 1000)).
  { unfold ez. destruct (Z.min_spec e ft) as [[_ ->]|[_ ->]]; [unfold mag in Hn, Hmq|rewrite <- Hmq; unfold mag];
      [assert (0 < 2 ^ (e + 1000)) by (apply pow_pos; lia)|assert (0 < 2 ^ (ft + 1000)) by (apply pow_pos; lia)];
      [generalize dependent (2 ^ (e + 1000)); generalize dependent (t * 2 ^ 1000)|]; intros; nia. }
  destruct (decide (D = 0)) as [HD0|HD0]; [left; by rewrite HD0|right].
  destruct (normalize_small D ez HD0) as (md & fd & Habs & Hdm & Hmd & Hfd); [|unfold ez; lia|].
  - generalize dependent (2 ^ (ez + 1000)). generalize dependent (t * 2 ^ 1000). intros. nia.
  - exists md, fd. rewrite Hmd, HDabs. by repeat split.
Qed.

(** The tolerance is a billionth of the value, and at least of 1. *)
Lemma near_tolerance t m e : 0 < t < 2 ^ 50 -> Zpos (digits2_pos m) = 53 -> -300 <= e -> near_int t m e ->
  exists mr er, f64_mul (f64_max (f64_abs (S754_finite false m e)) (i64_as_f64 1)) (f64_lit 1 1000000000)
                = S754_finite false mr er /\ Zpos (digits2_pos mr) = 53 /\ -1000 <= er /\
    t * 2 ^ 1000 <= mag mr er * 2 ^ 33.
Proof.
  intros Ht Hd He Hn. pose proof (near_exponent t m e ltac:(lia) Hd Hn) as Hneg. unfold near_int in Hn.
  rewrite (Z.abs_eq t) in Hn by lia.
  assert (H1 : i64_as_f64 1 = S754_finite false 4503599627370496 (-52)) by (vm_compute; reflexivity).
  assert (Hl : f64_lit 1 1000000000 = S754_finite false 4835703278458517 (-82)) by (vm_compute; reflexivity).
  rewrite H1, Hl. cbn [f64_abs SFabs f64_max].
  assert (Hm1 : mag 4503599627370496 (-52) = 2 ^ 1000) by (vm_compute; reflexivity).
  assert (Hml : 2 ^ 1000 <= mag 4835703278458517 (-82) * 2 ^ 30) by (apply Z.leb_le; vm_compute; reflexivity).
  assert (HM : exists mm em, normal (if f64_lt (S754_finite false m e) (S754_finite false 4503599627370496 (-52))
                                     then S754_finite false 4503599627370496 (-52) else S754_finite false m e) false mm em /\
                             t * 2 ^ 1000 <= mag mm em * 2).
  { rewrite finite_lt_mag, Hm1 by (done || lia). destruct (Z.ltb_spec (mag m e) (2 ^ 1000)).
    - exists 4503599627370496%positive, (-52). rewrite Hm1. split; [by repeat split|].
      generalize dependent (2 ^ 1000). intros. lia.
    - exists m, e. split; [split; [done|]; split; [done|lia]|]. generalize dependent (t * 2 ^ 1000). intros. lia. }
  destruct HM as (mm & em & HM & Hle).
  assert (Hc : normal (S754_finite false 4835703278458517 (-82)) false 4835703278458517 (-82)) by (by repeat split).
  destruct (mul_rel _ _ _ _ _ _ _ _ HM Hc) as (mr & er & Hmul & Hdr & Her & Herr).
  exists mr, er. split; [exact Hmul|]. split; [done|]. split; [destruct HM as (_ & _ & HM); lia|].
  set (c := mag 4835703278458517 (-82)) in *. set (M := mag mm em) in *. set (R := mag mr er) in *.
  assert (0 < 2 ^ 1000) by (by apply pow_pos). generalize dependent (2 ^ 1000). intros K **.
  assert (HMK : M * K <= M * c * 2 ^ 30) by nia. assert (HRK : M * c <= R * K * 2) by nia. nia.
Qed.

(** Reading back a multiple of the step gives the multiple. *)
Lemma to_units_round_trip t step ms es err : 0 < t < 2 ^ 50 -> normal step false ms es -> -100 <= es <= 0 ->
  to_units (f64_mul (i64_as_f64 t) step) step err = Ok t.
Proof.
  intros Ht Hs Hes. destruct (int_normal t ltac:(lia) ltac:(lia)) as (q & f & Hx & Hmx & Hf).
  assert (Hsign : Z.ltb t 0 = false) by (apply Z.ltb_ge; lia). rewrite Hsign in Hx.
  destruct (mul_rel _ _ _ _ _ _ _ _ Hx Hs) as (mx & ex & Hmul & Hdx & Hex & Herr1). cbn [xorb] in Hmul.
  assert (Hn : normal (f64_mul (i64_as_f64 t) step) false mx ex) by (split; [done|]; split; [done|lia]).
  destruct (div_rel _ _ _ _ _ _ _ _ Hn Hs) as (mu & eu & Hdiv & Hdu & Heu & Herr2). cbn [xorb] in Hdiv.
  assert (Hnear : near_int t mu eu).
  { rewrite Hmx in Herr1. unfold near_int.
    apply (two_roundings _ (mag mx ex * 2 ^ 1000) _ (mag ms es)); [apply mag_pos; lia|lia|done|done]. }
  pose proof (near_exponent t mu eu ltac:(lia) Hdu Hnear) as Hneg. pose proof (proj1 Hs) as Hse. pose proof (proj1 Hx) as Hxe.
  unfold to_units. rewrite Hdiv. destruct (in_i64_bounds false mu eu Hdu ltac:(lia)) as [-> ->].
  pose proof (near_round t mu eu ltac:(lia) ltac:(lia) Hdu ltac:(lia) Hnear) as Hround. rewrite Hsign in Hround. rewrite Hround.
  replace (f64_lt (f64_abs _) _) with true; [rewrite i64_as_f64_round_trip by lia; by rewrite Hmul, Hse|].
  symmetry. destruct (near_tolerance t mu eu Ht Hdu ltac:(lia) Hnear) as (mr & er & -> & Hdr & Her & Hr).
  destruct (near_distance t mu eu q f Ht Hdu ltac:(lia) Hnear Hxe) as [->|(md & fd & -> & Hdd & Hfd & Hd)]; [done|].
  rewrite finite_lt_mag by (done || lia). apply Z.ltb_lt. pose proof (mag_pos md fd Hfd).
  generalize dependent (t * 2 ^ 1000). intros. lia.
Qed.

(** The steps of the listed symbols are floats of 53 digits below 1. *)
Lemma listed_steps symbol r : SymbolRules.for_symbol symbol = Some r ->
  Forall (fun step => exists m e, normal step false m e /\ -100 <= e <= 0) [sr_price_tick r; sr_quantity_step r].
Proof.
  unfold SymbolRules.for_symbol. intros H.
  assert (Hs : forall q, q ∈ [100; 1000; 10000; 1000000] -> exists m e, normal (f64_lit 1 q) false m e /\ -100 <= e <= 0).
  { intros q Hq. do 4 (apply elem_of_cons in Hq as [->|Hq];
      [eexists _, _; split; [split; [vm_compute; reflexivity|]|]; [split; [vm_compute; reflexivity|]|]; lia|]).
    by apply not_elem_of_nil in Hq. }
  repeat case_decide; simplify_eq; repeat constructor; cbn [sr_price_tick sr_quantity_step]; apply Hs; set_solver.
Qed.

(** C26: on every listed symbol a price of whole ticks and a quantity of whole
    lots, turned into floating point and back, are the ticks and the lots they
    were, for every count below [2^50]: the check against the grid accepts
    them and the rounding errors of the product and of the quotient never
    reach the next unit. *)
Theorem grid_round_trip symbol r : SymbolRules.for_symbol symbol = Some r ->
  forall t, 0 < t < 2 ^ 50 ->
    SymbolRules.price_to_ticks r (SymbolRules.ticks_to_price r t) = Ok t /\
    SymbolRules.quantity_to_lots r (SymbolRules.lots_to_quantity r t) = Ok t.
Proof.
  intros Hr t Ht. apply listed_steps in Hr as Hs. apply Forall_cons in Hs as [(m & e & Hp & He) Hs].
  apply Forall_cons in Hs as [(m' & e' & Hq & He') _].
  split; [exact (to_units_round_trip t _ m e _ Ht Hp He)|exact (to_units_round_trip t _ m' e' _ Ht Hq He')].
Qed.

Lemma grid_round_trip_witness : exists r, SymbolRules.for_symbol (str "BTC_USDT") = Some r /\
  SymbolRules.price_to_ticks r (SymbolRules.ticks_to_price r 6543210) = Ok 6543210 /\
  SymbolRules.quantity_to_lots r (SymbolRules.lots_to_quantity r 6543210) = Ok 6543210.
Proof.
  destruct (SymbolRules.for_symbol (str "BTC_USDT")) as [r|] eqn:E; [|vm_compute in E; discriminate E].
  exists r. split; [reflexivity|]. exact (grid_round_trip (str "BTC_USDT") r E 6543210 ltac:(lia)).
Defined.

(** Past [2^53] an amount does not survive: one atom is lost. *)
Lemma amount_loses_an_atom :
  AmountAtoms.from_f64_round (AmountAtoms.to_f64 (2 ^ 53 + 1)) = Ok (2 ^ 53).
Proof. vm_compute. reflexivity. Qed.
