(* ===== verification/AccountMirror.v ===== *)
(** The accounts table as a mirror of the desk's account cache.  The command
    processor publishes an [AccountSet] frame for every account it changes; the
    amounts pass through [f64] on the way and are decoded by the writer.  The
    table the writer makes of the frames agrees with the cache on every account
    the cache holds, as long as no frame is dropped and the amounts stay below
    [2^50] atoms. *)
From Stdlib Require Import ZArith Lia SpecFloat String.
From stdpp Require Import base numbers list gmap sets strings.
From S2P Require Import Prelude Bytes Fixed Types F64 Text Money SymbolRules RiskCalc RiskEngine Routing Sbe WsSbe PersistEvent.
From S2P Require Import PgStore PgTables RiskPersist Desk F64Err.

#[local] Open Scope Z_scope.

(** ** Specification *)

Definition row_of (x : (Z * bytes) * AccountBalance) : AccountRow :=
  mkAccountRow x.1.1 x.1.2 (ab_balance_atoms x.2) (ab_frozen_atoms x.2).

(** The account row of an event, as the writer decodes it. *)
Definition account_row (ev : persist_event) : option AccountRow :=
  match ev with
  | EvAccountSet p => match decode_account p with Ok r => Some r | Err _ => None end
  | _ => None
  end.

Definition account_rows (evs : list persist_event) : list AccountRow := omap account_row evs.

(** The cache is loaded account by account: the table may hold more. *)
Definition mirrors (c : AccountCache) (t : gmap (Z * bytes) AccountRow) : Prop :=
  forall k kv, account_of c k.1 k.2 = Some kv -> t !! k = Some (row_of (k, kv)).

Definition asset_ok (asset : bytes) : Prop :=
  (1 <= length asset <= 16)%nat /\ Forall (fun b => b <> 0) asset /\ is_utf8 asset = true.

(** A command with the two clock readings of its processing. *)
Abbreviation TimedCmd := (Z * Z * DbCmd)%type.

Section mirror.
Context `{Chrono}.

Definition account_fits (t : Tables) (x : (Z * bytes) * AccountBalance) : Prop :=
  known t x.1.1 = true /\ asset_ok x.1.2 /\ 0 <= ab_frozen_atoms x.2 <= ab_balance_atoms x.2 /\ ab_balance_atoms x.2 < 2 ^ 50.

(** Every account of the cache satisfies the table's constraints. *)
Definition cache_fits (t : Tables) (c : AccountCache) : Prop :=
  forall k kv, account_of c k.1 k.2 = Some kv -> account_fits t (k, kv).

Definition cache_checked (t : Tables) (c : AccountCache) : Prop :=
  map_Forall (fun u m => map_Forall (fun a kv => account_fits t ((u, a), kv)) m) c.

Definition put_all (c : AccountCache) (rows : list ((Z * bytes) * AccountBalance)) : AccountCache :=
  foldl (fun c x => put_account c x.1.1 x.1.2 x.2) c rows.

(** ** One frame *)

Lemma amount_legacy a : 0 <= a < 2 ^ 50 -> legacy_atoms a (f64_to_bits (AmountAtoms.to_f64 a)) = Some a.
Proof.
  intros Ha. unfold legacy_atoms. destruct (Z.eqb_spec a 0) as [->|]; [|done]. vm_compute. reflexivity.
Qed.

Lemma account_frame_exact t x : account_fits t x ->
  exists p, account_set_payload x.1.1 x.1.2 (AccountBalance.balance x.2) (AccountBalance.frozen x.2) = Ok p /\
    decode_account p = Ok (row_of x).
Proof.
  intros (_ & (Hl & Hn & Hu) & Hf & Hb). unfold account_set_payload, AccountBalance.balance, AccountBalance.frozen.
  rewrite !amount_round_trip by lia. eexists. split; [reflexivity|]. unfold decode_account. cbn.
  rewrite unpack_pack_str by (done || lia). rewrite !amount_legacy by lia.
  by destruct (Nat.eqb_spec (length x.1.2) 0); [lia|].
Qed.

(** ** Emitted frames

    [emits d d' evs]: unless a frame was dropped, the queue grew by [evs]. *)
Definition emits (d d' : Desk) (evs : list persist_event) : Prop :=
  (dk_dropped d <= dk_dropped d')%nat /\ (dk_dropped d' = dk_dropped d -> dk_queue d' = dk_queue d ++ evs).

Lemma emits_trans d1 d2 d3 evs1 evs2 : emits d1 d2 evs1 -> emits d2 d3 evs2 -> emits d1 d3 (evs1 ++ evs2).
Proof.
  intros [H1 Q1] [H2 Q2]. split; [lia|]. intros Hd. rewrite Q2, Q1 by lia. by rewrite app_assoc.
Qed.

(** Changes that leave the queue alone. *)
Lemma emits_nothing d d' : dk_queue d' = dk_queue d -> dk_dropped d' = dk_dropped d -> emits d d' [].
Proof. intros Hq Hd. split; [lia|]. intros _. by rewrite app_nil_r. Qed.

Lemma publish_emits d ev : emits d (publish_frame d ev) [ev].
Proof. unfold publish_frame, emits. case_match; simpl; [done|lia]. Qed.

Lemma publish_all_emits d evs : emits d (publish_frames d evs) evs.
Proof.
  unfold publish_frames. revert d. induction evs as [|ev evs IH]; intros d; simpl; [by apply emits_nothing|].
  exact (emits_trans _ _ _ [ev] _ (publish_emits d ev) (IH _)).
Qed.

Lemma notify_emits d u p t : emits d (notify d u p t) [].
Proof. unfold notify. case_match; by apply emits_nothing. Qed.

(** [logs t d d' rows]: the frames from [d] to [d'] carry exactly the rows
    [rows] of accounts that fit. *)
Definition logs (t : Tables) (d d' : Desk) (rows : list ((Z * bytes) * AccountBalance)) : Prop :=
  exists evs, emits d d' evs /\ (Forall (account_fits t) rows -> account_rows evs = row_of <$> rows).

Lemma logs_trans t d1 d2 d3 r1 r2 : logs t d1 d2 r1 -> logs t d2 d3 r2 -> logs t d1 d3 (r1 ++ r2).
Proof.
  intros (evs1 & E1 & H1) (evs2 & E2 & H2). exists (evs1 ++ evs2). split; [by eapply emits_trans|].
  intros [Hr1 Hr2]%Forall_app. unfold account_rows in *. rewrite omap_app, fmap_app, H1, H2 by done. done.
Qed.

Lemma logs_none t d d' evs : emits d d' evs -> account_rows evs = [] -> logs t d d' [].
Proof. intros He Hr. by exists evs. Qed.

Lemma logs_nothing t d d' : dk_queue d' = dk_queue d -> dk_dropped d' = dk_dropped d -> logs t d d' [].
Proof. intros Hq Hd. apply (logs_none _ _ _ []); [by apply emits_nothing|done]. Qed.

Lemma publish_account_logs t d k kv :
  logs t d (publish_account d k.1 k.2 (AccountBalance.balance kv) (AccountBalance.frozen kv)) [(k, kv)].
Proof.
  unfold publish_account. destruct (account_set_payload _ _ _ _) as [p|] eqn:Hp.
  - exists [EvAccountSet p]. split; [apply publish_emits|]. intros [Hfit _]%Forall_cons.
    destruct (account_frame_exact t (k, kv) Hfit) as (p' & Hp' & Hd). cbn in Hp'. rewrite Hp in Hp'. simplify_eq.
    cbn. by rewrite Hd.
  - exists []. split; [by apply emits_nothing|]. intros [Hfit _]%Forall_cons.
    destruct (account_frame_exact t (k, kv) Hfit) as (p' & Hp' & _). cbn in Hp'. congruence.
Qed.

Lemma logs_then_quiet t d d1 d2 rows evs : logs t d d1 rows -> emits d1 d2 evs -> account_rows evs = [] -> logs t d d2 rows.
Proof.
  intros Hl He Hr. rewrite <- (app_nil_r rows). eapply logs_trans; [exact Hl|]. by eapply logs_none.
Qed.

(** ** Folds *)

(** A loop whose every step changes nothing but what it publishes. *)
Lemma fold_logs {A} t (f : Desk -> A -> Desk) (rows : A -> list ((Z * bytes) * AccountBalance)) d l :
  (forall d x, x ∈ l -> logs t d (f d x) (rows x)) -> logs t d (foldl f d l) (l ≫= rows).
Proof.
  revert d. induction l as [|x l IH]; intros d Hf; simpl; [by apply logs_nothing|].
  eapply logs_trans; [apply Hf; by left|]. apply IH. intros d' y Hy. apply Hf. by right.
Qed.

Lemma put_all_app c r1 r2 : put_all c (r1 ++ r2) = put_all (put_all c r1) r2.
Proof. apply foldl_app. Qed.

Lemma account_of_put_at c u a kv u' a' :
  account_of (put_account c u a kv) u' a' = if decide ((u', a') = (u, a)) then Some kv else account_of c u' a'.
Proof.
  unfold account_of, put_account. destruct (decide ((u', a') = (u, a))) as [[= -> ->]|Hne].
  - rewrite lookup_insert_eq. simpl. apply lookup_insert_eq.
  - destruct (decide (u' = u)) as [->|Hu]; [|by rewrite lookup_insert_ne].
    rewrite lookup_insert_eq. simpl. rewrite lookup_insert_ne by congruence. by destruct (c !! u).
Qed.

(** With distinct keys every row is in the final cache. *)
Lemma put_all_final c rows x : NoDup rows.*1 -> x ∈ rows -> account_of (put_all c rows) x.1.1 x.1.2 = Some x.2.
Proof.
  induction rows as [|y rows IH] using rev_ind; intros Hnd Hx; [by apply not_elem_of_nil in Hx|].
  rewrite fmap_app in Hnd. apply NoDup_app in Hnd as (Hnd & Hy & _). rewrite put_all_app. simpl. rewrite account_of_put_at.
  apply elem_of_app in Hx as [Hx|Hx].
  - rewrite decide_False; [by apply IH|]. rewrite <- !surjective_pairing. intros Heq.
    apply (Hy x.1); [by apply list_elem_of_fmap_2|]. rewrite Heq. by left.
  - apply list_elem_of_singleton in Hx as ->. by rewrite decide_True.
Qed.

(** A published row keeps the mirror. *)
Lemma mirrors_put_all c t rows : mirrors c t ->
  mirrors (put_all c rows) (foldl (fun m r => <[account_key r := r]> m) t (row_of <$> rows)).
Proof.
  revert c t. induction rows as [|x rows IH]; intros c t Hm; [done|]. simpl. apply IH. intros k kv.
  rewrite account_of_put_at, <- !surjective_pairing. change (account_key (row_of x)) with (x.1.1, x.1.2).
  rewrite <- surjective_pairing. case_decide as Hk.
  - intros [= <-]. subst k. rewrite lookup_insert_eq. by destruct x as [[] ].
  - intros Hkv. rewrite lookup_insert_ne by done. by apply Hm.
Qed.

(** [mirrored t d d' rows]: the command logged [rows], distinct accounts, and
    wrote exactly them. *)
Record mirrored (t : Tables) (d d' : Desk) (rows : list ((Z * bytes) * AccountBalance)) : Prop := mkMirrored {
  mi_logs : logs t d d' rows;
  mi_keys : NoDup rows.*1;
  mi_cache : dk_accounts d' = put_all (dk_accounts d) rows;
}.

Lemma mirrored_quiet t d d' evs : emits d d' evs -> account_rows evs = [] -> dk_accounts d' = dk_accounts d ->
  mirrored t d d' [].
Proof. intros He Hr Ha. split; [by eapply logs_none|constructor|done]. Qed.

Definition write_rows (m : gmap (Z * bytes) AccountRow) (rows : list AccountRow) : gmap (Z * bytes) AccountRow :=
  foldl (fun m r => <[account_key r := r]> m) m rows.

(** [carried t d d' evs]: the events make every mirror of [d]'s cache one of
    [d']'s, and satisfy the table's constraints. *)
Definition carried (t : Tables) (d d' : Desk) (evs : list persist_event) : Prop :=
  dk_queue d' = dk_queue d ++ evs /\ Forall (fun r => account_row_ok t r = true) (account_rows evs) /\
  forall m, mirrors (dk_accounts d) m -> mirrors (dk_accounts d') (write_rows m (account_rows evs)).

Lemma mirrored_carried t d d' rows : mirrored t d d' rows -> dk_dropped d' = dk_dropped d ->
  cache_fits t (dk_accounts d') -> exists evs, carried t d d' evs.
Proof.
  intros [(evs & [_ Hq] & Hrows) Hnd Hc] Hd Hfits.
  assert (Hfit : Forall (account_fits t) rows).
  { apply Forall_forall. intros [k kv] Hx. apply Hfits. rewrite Hc. by apply (put_all_final _ rows (k, kv)). }
  exists evs. split; [by apply Hq|]. rewrite Hrows by done. split.
  - apply Forall_fmap. eapply Forall_impl; [exact Hfit|].
    intros x (Hk & _ & Hf & _). unfold account_row_ok. cbn. rewrite Hk. rewrite !(proj2 (Z.leb_le _ _)) by lia. done.
  - intros m Hm. rewrite Hc. by apply mirrors_put_all.
Qed.

Lemma carried_trans t d1 d2 d3 evs1 evs2 : carried t d1 d2 evs1 -> carried t d2 d3 evs2 -> carried t d1 d3 (evs1 ++ evs2).
Proof.
  intros (Q1 & O1 & M1) (Q2 & O2 & M2). unfold carried, account_rows, write_rows in *.
  rewrite Q2, Q1, app_assoc, omap_app. split; [done|]. split; [by apply Forall_app|].
  intros m Hm. rewrite foldl_app. by apply M2, M1.
Qed.

Lemma mirrored_trans t d1 d2 d3 r1 r2 : mirrored t d1 d2 r1 -> mirrored t d2 d3 r2 ->
  (forall k, k ∈ r1.*1 -> k ∉ r2.*1) -> mirrored t d1 d3 (r1 ++ r2).
Proof.
  intros [L1 N1 C1] [L2 N2 C2] Hdis. split; [by eapply logs_trans| |by rewrite put_all_app, <- C1].
  rewrite fmap_app. by apply NoDup_app.
Qed.

(** A loop over distinct accounts, each step writing at most its own. *)
Lemma fold_mirrored {A} t (f : Desk -> A -> Desk) (key : A -> Z * bytes) d l : NoDup (key <$> l) ->
  (forall d x, exists rows, mirrored t d (f d x) rows /\ rows.*1 ⊆ [key x]) ->
  exists rows, mirrored t d (foldl f d l) rows /\ rows.*1 ⊆ key <$> l.
Proof.
  revert d. induction l as [|x l IH]; intros d Hnd Hf; simpl.
  - exists []. split; [|set_solver]. apply (mirrored_quiet _ _ _ []); [by apply emits_nothing|done..].
  - apply NoDup_cons in Hnd as [Hx Hnd]. destruct (Hf d x) as (r1 & H1 & K1). destruct (IH (f d x) Hnd Hf) as (r2 & H2 & K2).
    exists (r1 ++ r2). split; [|rewrite fmap_app; set_solver].
    apply (mirrored_trans _ _ _ _ _ _ H1 H2). intros k Hk Hk2. apply K1, list_elem_of_singleton in Hk as ->.
    by apply Hx, K2.
Qed.

Lemma mirrored_then_quiet t d d1 d2 rows evs : mirrored t d d1 rows -> emits d1 d2 evs -> account_rows evs = [] ->
  dk_accounts d2 = dk_accounts d1 -> mirrored t d d2 rows.
Proof. intros [L N C] He Hr Ha. split; [by eapply logs_then_quiet|done|by rewrite Ha]. Qed.

(** ** The commands *)

Lemma rows_of_quiet {A} (f : A -> persist_event) l : (forall x, account_row (f x) = None) -> account_rows (f <$> l) = [].
Proof. intros Hf. unfold account_rows. induction l as [|x l IH]; simpl; [done|]. by rewrite Hf. Qed.

Lemma upsert_mirrored `{HashIter} t d now entries :
  exists rows, mirrored t d (batch_upsert_order d now entries) rows.
Proof.
  unfold batch_upsert_order. set (s := foldl _ ∅ entries).
  set (f := fun d k => match account_of (dk_accounts d) k.1 k.2 with Some snapshot => _ | None => _ end).
  edestruct (fold_mirrored t f id d (iter_set s)) as (rows & Hr & _).
  - rewrite list_fmap_id, iter_set_perm. apply NoDup_elements.
  - intros d0 k. unfold f.
    destruct (account_of (dk_accounts d0) k.1 k.2) as [kv|] eqn:Hk.
    + exists [(k, kv)]. split; [|done]. split; [apply publish_account_logs|apply NoDup_singleton|].
      rewrite publish_account_accounts. simpl. by rewrite put_same.
    + exists []. split; [|set_solver]. apply (mirrored_quiet _ _ _ []); [by apply emits_nothing|done..].
  - exists rows. eapply mirrored_then_quiet; [exact Hr|apply publish_all_emits|by apply rows_of_quiet|].
    apply publish_frames_accounts.
Qed.

Lemma release_mirrored t d u a amount :
  exists rows, mirrored t d (release_and_publish d u a amount) rows /\ rows.*1 ⊆ [(u, a)].
Proof.
  unfold release_and_publish, release_entry. destruct (account_of (dk_accounts d) u a) as [kv|] eqn:Hk; simpl.
  2:{ exists []. split; [|set_solver]. apply (mirrored_quiet _ _ _ []); [by apply emits_nothing|done..]. }
  destruct (AmountAtoms.from_f64_round amount) as [atoms|].
  2:{ exists []. split; [|set_solver]. apply (mirrored_quiet _ _ _ []); [by apply emits_nothing|done..]. }
  set (kv' := AccountBalance.release_atoms kv atoms). exists [((u, a), kv')]. split; [|set_solver].
  split; [|apply NoDup_singleton|unfold notify_balance; by autorewrite with desk].
  apply (logs_then_quiet _ _ (publish_account (Desk.set_accounts d (put_account (dk_accounts d) u a kv')) u a
           (AccountBalance.balance kv') (AccountBalance.frozen kv')) _ _ []); [|apply notify_emits|done].
  apply (logs_trans _ _ (Desk.set_accounts d (put_account (dk_accounts d) u a kv')) _ []); [by apply logs_nothing|].
  exact (publish_account_logs t _ (u, a) kv').
Qed.

Lemma cancel_mirrored `{HashIter} t d entries : exists rows, mirrored t d (batch_cancel_confirmed d entries) rows.
Proof.
  unfold batch_cancel_confirmed. set (m := foldl add_release ∅ entries).
  edestruct (fold_mirrored t (fun d x => release_and_publish d x.1.1 x.1.2 x.2) fst d (iter_map m)) as (rows & Hr & _).
  - rewrite iter_map_perm. apply NoDup_fst_map_to_list.
  - intros d0 [[u a] v]. apply release_mirrored.
  - exists rows. eapply mirrored_then_quiet; [exact Hr|apply publish_all_emits|by apply rows_of_quiet|].
    apply publish_frames_accounts.
Qed.

Lemma settle_maker_quiet t d e d' : settle_maker d e = Some d' -> mirrored t d d' [].
Proof.
  intros Hs. assert (Ha : dk_accounts d' = dk_accounts d) by (by eapply (settle_makers_accounts d [e]); cbn; rewrite Hs).
  revert Hs. unfold settle_maker. case_match; [intros [= <-]; by apply (mirrored_quiet _ _ _ []), Ha; [apply emits_nothing|]|].
  cbv zeta. intros (rules & _ & Hs)%bind_Some. revert Hs.
  case_match; [intros [= <-]; by apply (mirrored_quiet _ _ _ []), Ha; [apply emits_nothing|]|].
  intros (n & _ & Hs)%bind_Some. apply bind_Some in Hs as (fm & _ & Hs). apply bind_Some in Hs as (risk & _ & Hs).
  destruct (ExchangeConfig.fee_bps _ _ _) as [mb tb]. apply bind_Some in Hs as (fee & _ & Hs). simplify_eq.
  set (risk' := RiskEngine.charge_fee _ _ _).
  eapply (mirrored_quiet _ _ _ (margin_state_events risk' (st_maker_uid e) (st_symbol e))); [|by unfold margin_state_events, account_rows; repeat case_match|done].
  exact (emits_trans d (Desk.set_risk d risk') _ [] _ (emits_nothing _ _ eq_refl eq_refl) (publish_all_emits _ _)).
Qed.

Lemma settle_makers_quiet t d entries d' : mfold settle_maker d entries = Some d' -> mirrored t d d' [].
Proof.
  revert d. induction entries as [|e es IH]; intros d; cbn.
  - intros [= <-]. apply (mirrored_quiet _ _ _ []); [by apply emits_nothing|done..].
  - intros (d1 & H1%(settle_maker_quiet t) & H2%IH)%bind_Some. apply (mirrored_trans _ _ _ _ [] [] H1 H2). set_solver.
Qed.

Lemma apply_deltas_rows c r ds : let s := foldl (fun s x =>
    let '(cache, kv) := apply_delta s.1 x in (cache, vec_push s.2 (x.1, kv))) (c, r) ds in
  exists rows, s.2 = r ++ rows /\ s.1 = put_all c rows /\ rows.*1 = ds.*1.
Proof.
  revert c r. induction ds as [|[[u a] dl] ds IH]; intros c r; cbn [foldl fst snd].
  - exists []. by rewrite app_nil_r.
  - unfold apply_delta. cbv zeta. set (kv := AccountBalance.apply_atoms_delta _ _ _).
    destruct (IH (put_account c u a kv) (vec_push r ((u, a), kv))) as (rows & H2 & H1 & Hk).
    exists (((u, a), kv) :: rows). split; [|split].
    + etransitivity; [exact H2|]. unfold vec_push. by rewrite <- app_assoc.
    + exact H1.
    + cbn. by rewrite Hk.
Qed.

Lemma publish_updated_logs t d x : logs t d (publish_updated d x) [x].
Proof.
  unfold publish_updated, notify_balance. destruct x as [k kv]. cbn [fst snd].
  eapply logs_then_quiet; [apply publish_account_logs|apply notify_emits|done].
Qed.

Lemma publish_maker_quiet t ts d r : logs t d (publish_maker ts d r) [].
Proof.
  unfold publish_maker. eapply (logs_trans _ _ _ _ [] []); [eapply logs_none; [apply notify_emits|done]|].
  eapply logs_none; [apply publish_emits|done].
Qed.

Lemma settle_mirrored `{HashIter} t d ts_ms ts entries d' : batch_settle_trade d ts_ms ts entries = Some d' ->
  exists rows, mirrored t d d' rows.
Proof.
  unfold batch_settle_trade. intros (d1 & H1%(settle_makers_quiet t) & H2)%bind_Some. revert H2. cbv zeta.
  set (d2 := publish_frames d1 (omap (trade_event ts_ms) entries)).
  assert (Htr : mirrored t d d2 []).
  { eapply mirrored_then_quiet; [exact H1|apply publish_all_emits| |apply publish_frames_accounts].
    unfold account_rows. clear. induction entries as [|e es IH]; [done|]. simpl.
    destruct (trade_event ts_ms e) as [ev|] eqn:Hev; [|done]. unfold trade_event in Hev. case_match; by simplify_eq. }
  destruct (List.filter is_resolved entries) as [|r rs]; [intros [= <-]; by exists []|].
  destruct (foldl accumulate _ _) as [deltas vwap]. unfold apply_deltas.
  destruct (apply_deltas_rows (dk_accounts (Desk.set_vwap d2 vwap)) [] (iter_map deltas)) as (rows & Hs & Hc & Hk).
  destruct (foldl _ (dk_accounts _, []) _) as [cache updated]. cbn [fst snd app] in Hs, Hc. subst updated. intros [= <-].
  exists rows. assert (Hacc : dk_accounts d2 = dk_accounts d) by apply Htr. split.
  - eapply (logs_trans _ _ d2 _ []); [apply Htr|].
    eapply (logs_trans _ _ (Desk.set_accounts (Desk.set_vwap d2 vwap) cache) _ []); [by apply logs_nothing|].
    eapply (logs_trans _ _ _ _ []).
    + pose proof (fold_logs t (publish_maker ts) (fun _ => []) (Desk.set_accounts (Desk.set_vwap d2 vwap) cache) (r :: rs)) as HL.
      assert (Hnil : (r :: rs) ≫= (fun _ => []) = ([] : list ((Z * bytes) * AccountBalance))) by (clear; induction (r :: rs); done).
      rewrite Hnil in HL. apply HL. intros. apply publish_maker_quiet.
    + assert (Hid : rows ≫= (fun x => [x]) = rows) by (clear; induction rows; cbn; f_equal; done).
      rewrite <- Hid at 2. apply fold_logs. intros. apply publish_updated_logs.
  - rewrite Hk. apply iter_map_keys.
  - rewrite foldl_keep by apply publish_updated_accounts. rewrite foldl_keep by apply publish_maker_accounts.
    rewrite publish_maker_accounts, <- Hacc. exact Hc.
Qed.

Lemma command_mirrored `{HashIter} t now ts d cmd d' : process_db_cmd now ts d cmd = Some d' ->
  exists rows, mirrored t d d' rows.
Proof.
  destruct cmd; cbn; intros Hc; simplify_eq; try (by apply upsert_mirrored); try (by apply cancel_mirrored);
    try (by eapply settle_mirrored); try (exists []; eapply mirrored_quiet; [apply publish_emits|done|apply publish_frame_accounts]).
  - unfold release_reservation. destruct (base_quote _) as [base quote]. destruct (if Z.eqb _ _ then _ else _) as [asset amount].
    case_match.
    + exists []. apply (mirrored_quiet _ _ _ []); [by apply emits_nothing|done..].
    + destruct (release_mirrored t d user_id asset amount) as (rows & Hr & _). by exists rows.
  - exists []. eapply mirrored_quiet; [apply publish_all_emits|by apply rows_of_quiet|apply publish_frames_accounts].
Qed.

(** ** Runs of the command processor *)

Definition run_cmd `{HashIter} (d : Desk) (x : TimedCmd) : option Desk := process_db_cmd x.1.1 x.1.2 d x.2.

(** Every cache of a run satisfies the table's constraints. *)
Fixpoint fits_along `{HashIter} (t : Tables) (d : Desk) (cmds : list TimedCmd) : Prop :=
  match cmds with
  | [] => True
  | x :: cmds =>
      match run_cmd d x with
      | Some d => cache_fits t (dk_accounts d) /\ fits_along t d cmds
      | None => True
      end
  end.

Lemma cmd_dropped `{HashIter} (t : Tables) d x d' : run_cmd d x = Some d' -> (dk_dropped d <= dk_dropped d')%nat.
Proof. intros Hx. by destruct (command_mirrored t _ _ _ _ _ Hx) as (rows & [(evs & [Hd _] & _) _ _]). Qed.

Lemma run_dropped `{HashIter} (t : Tables) d cmds d' : mfold run_cmd d cmds = Some d' -> (dk_dropped d <= dk_dropped d')%nat.
Proof.
  revert d. induction cmds as [|x cmds IH]; intros d; cbn; [by intros [= <-]|].
  intros (d1 & H1%(cmd_dropped t) & H2%IH)%bind_Some. lia.
Qed.

Lemma run_carried `{HashIter} t d cmds d' : mfold run_cmd d cmds = Some d' -> dk_dropped d' = dk_dropped d ->
  fits_along t d cmds -> exists evs, carried t d d' evs.
Proof.
  revert d. induction cmds as [|x cmds IH]; intros d; cbn.
  - intros [= <-] _ _. exists []. split; [by rewrite app_nil_r|]. by split.
  - intros (d1 & H1 & H2)%bind_Some Hd Hf. rewrite H1 in Hf. destruct Hf as [Hfit Hf].
    pose proof (cmd_dropped t _ _ _ H1). pose proof (run_dropped t _ _ _ H2).
    destruct (command_mirrored t _ _ _ _ _ H1) as (rows & Hr).
    destruct (mirrored_carried _ _ _ _ Hr ltac:(lia) Hfit) as (evs1 & E1).
    destruct (IH d1 H2 ltac:(lia) Hf) as (evs2 & E2). exists (evs1 ++ evs2). by eapply carried_trans.
Qed.

(** C8: the accounts table follows the desk's cache.  Let the table agree with
    the cache on every account the cache holds.  After any run of the command
    processor (settlements, releases, order rows, cancels, in whatever order its
    hash maps are visited) that dropped no frame, the events it published,
    decoded by the writer and flushed in one batch, are accepted by the table
    and make it agree with the cache again, to the atom, although every amount
    went through [f64].  This is for known users and assets the table takes, and
    as long as every account on the way holds amounts below [2^50] with
    [0 <= frozen <= balance], the constraint of the table: a cancel that releases
    more than was frozen (lemma [cancel_releases_notional] of [DeskRecv]) leaves it. *)
Theorem cache_mirrored `{HashIter} t d cmds d' : mfold run_cmd d cmds = Some d' -> dk_dropped d' = dk_dropped d ->
  fits_along t d cmds -> mirrors (dk_accounts d) (tb_accounts t) ->
  exists evs t', dk_queue d' = dk_queue d ++ evs /\ flush_accounts t (account_rows evs) = Some t' /\
    mirrors (dk_accounts d') (tb_accounts t').
Proof.
  intros Hrun Hd Hf Hm. destruct (run_carried t d cmds d' Hrun Hd Hf) as (evs & Hq & Hok & Hmir).
  exists evs. eexists. split; [done|]. split; [by apply flush_accounts_sequential|]. by apply Hmir.
Qed.
End mirror.

(** ** A run *)

#[local] Instance mirror_clock : Chrono := {|
  DateTime := Z; timestamp_millis_opt ms := if Z.leb 0 ms then Some ms else None |}.

#[local] Instance cache_checked_dec t c : Decision (cache_checked t c).
Proof. unfold cache_checked, account_fits, asset_ok. apply _. Defined.

Lemma cache_checked_sound t c : cache_checked t c -> cache_fits t c.
Proof.
  intros Hc [u a] kv. cbn. unfold account_of. intros (m & Hm & Ha)%bind_Some. exact (Hc u m Hm a kv Ha).
Qed.

(** User 1 takes 0.5 BTC at 100 from user 2 and then cancels an order that held
    45 USDT, in a table that also knows an account the cache has not loaded. *)
Definition mirror_cmds : list TimedCmd :=
  [(5, 6, BatchSettleTrade [demo_fill]); (7, 8, ReleaseReservation 1 (pack_str 16 (str "BTC_USDT")) 0
    (f64_to_bits (i64_as_f64 1)) (f64_to_bits (i64_as_f64 45)))].

Definition mirror_accounts : AccountCache :=
  {[1 := {[str "USDT" := mkAccountBalance 100000000000 9500000000]};
    2 := {[str "BTC" := mkAccountBalance 100000000 50000000]}]}.

Definition mirror_table : Tables :=
  mkTables {[1; 2]} ∅ {[(1, str "USDT") := mkAccountRow 1 (str "USDT") 100000000000 9500000000;
                        (2, str "BTC") := mkAccountRow 2 (str "BTC") 100000000 50000000;
                        (1, str "ETH") := mkAccountRow 1 (str "ETH") 7 0]} ∅ ∅ ∅ ∅ 0 [] ∅.

Lemma mirror_start : mirrors mirror_accounts (tb_accounts mirror_table).
Proof.
  intros [u a] kv. cbn [fst snd]. unfold account_of, mirror_accounts. intros (m & Hm & Ha)%bind_Some.
  apply lookup_insert_Some in Hm as [[<- <-]|[_ [<- <-]%lookup_singleton_Some]];
    apply lookup_singleton_Some in Ha as [<- <-]; vm_compute; reflexivity.
Qed.

Lemma cache_mirrored_witness : exists d' evs t', mfold run_cmd (demo_desk mirror_accounts) mirror_cmds = Some d' /\
  dk_queue d' = evs /\ flush_accounts mirror_table (account_rows evs) = Some t' /\
  mirrors (dk_accounts d') (tb_accounts t') /\
  account_of (dk_accounts d') 1 (str "USDT") = Some (mkAccountBalance 95000000000 0).
Proof.
  destruct (mfold run_cmd (demo_desk mirror_accounts) mirror_cmds) as [d'|] eqn:E; [|vm_compute in E; discriminate E].
  destruct (cache_mirrored mirror_table _ _ _ E) as (evs & t' & Hq & Hf & Hm).
  - vm_compute in E. injection E as <-. reflexivity.
  - cbn [fits_along mirror_cmds].
    destruct (run_cmd _ _) as [d1|] eqn:E1; [|exact I]. split.
    { apply cache_checked_sound, (bool_decide_unpack (cache_checked _ _)). vm_compute in E1. injection E1 as <-. vm_compute. exact I. }
    destruct (run_cmd d1 _) as [d2|] eqn:E2; [|exact I]. split; [|exact I].
    apply cache_checked_sound, (bool_decide_unpack (cache_checked _ _)). vm_compute in E1. injection E1 as <-.
    vm_compute in E2. injection E2 as <-. vm_compute. exact I.
  - exact mirror_start.
  - exists d', evs, t'. split; [reflexivity|]. split; [exact Hq|]. split; [exact Hf|]. split; [exact Hm|].
    vm_compute in E. injection E as <-. vm_compute. reflexivity.
Defined.
