(* ===== verification/RedisStore.v ===== *)
(** The Redis L1 store ([src/src/desk/redis_store.rs]): the keys, the commands
    each persistence frame turns into, the cold load, the orphan sweep, the
    purge and the readers of the REST layer.

    A Redis command acts on one key.  The keys of this store fall into seven
    families that [render] keeps apart, so that a database is a record with one
    component per family.  Redis has no empty set or hash (removing the last
    member removes the key), so that a family of sets is a set of pairs and the
    family [user_coid] of hashes a map of pairs.  A pipeline is a list of
    commands: it may fail after any prefix of it was executed. *)
From Stdlib Require Import ZArith Lia String.
From stdpp Require Import base numbers list gmap strings sorting.
From S2P Require Import Prelude Bytes Fixed Pod Types F64 Text Money Sbe PersistEvent RiskEngine PgStore.

#[local] Open Scope Z_scope.

(** ** Keys *)

(** [z.to_string()] of an [i64] *)
Definition print_i64 (z : Z) : bytes := if Z.ltb z 0 then 45 :: print_nonneg (- z) else print_nonneg z.

Definition KEY_ACTIVE_ORDERS : bytes := str "active_orders".
Definition KEY_PERSIST_FLOORS : bytes := str "persist:floors".

Definition key_order (id : Z) : bytes := str "order:" ++ print_i64 id.
Definition key_user_orders (user_id : Z) : bytes := str "user_orders:" ++ print_i64 user_id.
Definition key_account (user_id : Z) (asset : bytes) : bytes :=
  str "acct:" ++ print_i64 user_id ++ str ":" ++ asset.
Definition key_user_assets (user_id : Z) : bytes := str "user_assets:" ++ print_i64 user_id.
Definition key_user_coid (user_id : Z) : bytes := str "user_coid:" ++ print_i64 user_id.

(** The keys this store uses. *)
Inductive key :=
| KActive
| KFloors
| KOrder (id : Z)
| KUserOrders (user_id : Z)
| KAccount (user_id : Z) (asset : bytes)
| KUserAssets (user_id : Z)
| KUserCoid (user_id : Z).

Definition render (k : key) : bytes :=
  match k with
  | KActive => KEY_ACTIVE_ORDERS
  | KFloors => KEY_PERSIST_FLOORS
  | KOrder id => key_order id
  | KUserOrders u => key_user_orders u
  | KAccount u a => key_account u a
  | KUserAssets u => key_user_assets u
  | KUserCoid u => key_user_coid u
  end.

(** ** The database *)

(** A field of a hash: Redis stores text, and the code writes integers and
    floats with [to_string] and reads them back with [parse]. *)
Inductive value :=
| VInt (n : Z)
| VFloat (x : f64)
| VText (s : bytes).

(** [s.parse::<i64>().ok()] *)
Definition value_i64 (v : value) : option Z :=
  match v with VInt n => Some n | VText s => parse_i64 s | VFloat _ => None end.
(** [s.parse::<f64>().ok()] of a field written as a float *)
Definition value_f64 (v : value) : option f64 :=
  match v with VFloat x => Some x | _ => None end.
(** The text itself *)
Definition value_text (v : value) : option bytes :=
  match v with VText s => Some s | _ => None end.

Abbreviation hash := (gmap string value).

Record Redis := mkRedis {
  rd_orders : gmap Z hash;
  rd_active : gset Z;
  rd_user_orders : gset (Z * Z);
  rd_accounts : gmap (Z * bytes) hash;
  rd_user_assets : gset (Z * bytes);
  rd_user_coid : gmap (Z * bytes) Z;
  rd_floors : gmap Z Z;
}.

Module Redis.
Definition empty : Redis := mkRedis ∅ ∅ ∅ ∅ ∅ ∅ ∅.
Definition set_orders (r : Redis) x := mkRedis x (rd_active r) (rd_user_orders r) (rd_accounts r) (rd_user_assets r) (rd_user_coid r) (rd_floors r).
Definition set_active (r : Redis) x := mkRedis (rd_orders r) x (rd_user_orders r) (rd_accounts r) (rd_user_assets r) (rd_user_coid r) (rd_floors r).
Definition set_user_orders (r : Redis) x := mkRedis (rd_orders r) (rd_active r) x (rd_accounts r) (rd_user_assets r) (rd_user_coid r) (rd_floors r).
Definition set_accounts (r : Redis) x := mkRedis (rd_orders r) (rd_active r) (rd_user_orders r) x (rd_user_assets r) (rd_user_coid r) (rd_floors r).
Definition set_user_assets (r : Redis) x := mkRedis (rd_orders r) (rd_active r) (rd_user_orders r) (rd_accounts r) x (rd_user_coid r) (rd_floors r).
Definition set_user_coid (r : Redis) x := mkRedis (rd_orders r) (rd_active r) (rd_user_orders r) (rd_accounts r) (rd_user_assets r) x (rd_floors r).
Definition set_floors (r : Redis) x := mkRedis (rd_orders r) (rd_active r) (rd_user_orders r) (rd_accounts r) (rd_user_assets r) (rd_user_coid r) x.
End Redis.

(** [HSET key f1 v1 f2 v2 ..] *)
Definition hset_multiple (h : hash) (fields : list (string * value)) : hash :=
  foldl (fun h kv => <[kv.1 := kv.2]> h) h fields.

Inductive cmd :=
| HSetOrder (id : Z) (fields : list (string * value))
| HSetAccount (user_id : Z) (asset : bytes) (fields : list (string * value))
| HSetCoid (user_id : Z) (coid : bytes) (id : Z)
| HDelCoid (user_id : Z) (coid : bytes)
| SAddActive (id : Z)
| SRemActive (id : Z)
| SAddUserOrder (user_id id : Z)
| SRemUserOrder (user_id id : Z)
| SAddUserAsset (user_id : Z) (asset : bytes)
| DelOrder (id : Z)
| DelAccount (user_id : Z) (asset : bytes)
| DelActive
| DelUserOrders (user_id : Z)
| DelUserCoid (user_id : Z)
| DelUserAssets (user_id : Z).

Definition exec (r : Redis) (c : cmd) : Redis :=
  match c with
  | HSetOrder id fs => Redis.set_orders r (<[id := hset_multiple (default ∅ (rd_orders r !! id)) fs]> (rd_orders r))
  | HSetAccount u a fs =>
      Redis.set_accounts r (<[(u, a) := hset_multiple (default ∅ (rd_accounts r !! (u, a))) fs]> (rd_accounts r))
  | HSetCoid u c id => Redis.set_user_coid r (<[(u, c) := id]> (rd_user_coid r))
  | HDelCoid u c => Redis.set_user_coid r (delete (u, c) (rd_user_coid r))
  | SAddActive id => Redis.set_active r ({[id]} ∪ rd_active r)
  | SRemActive id => Redis.set_active r (rd_active r ∖ {[id]})
  | SAddUserOrder u id => Redis.set_user_orders r ({[(u, id)]} ∪ rd_user_orders r)
  | SRemUserOrder u id => Redis.set_user_orders r (rd_user_orders r ∖ {[(u, id)]})
  | SAddUserAsset u a => Redis.set_user_assets r ({[(u, a)]} ∪ rd_user_assets r)
  | DelOrder id => Redis.set_orders r (delete id (rd_orders r))
  | DelAccount u a => Redis.set_accounts r (delete (u, a) (rd_accounts r))
  | DelActive => Redis.set_active r ∅
  | DelUserOrders u => Redis.set_user_orders r (filter (fun x => x.1 <> u) (rd_user_orders r))
  | DelUserCoid u => Redis.set_user_coid r (filter (fun x => x.1.1 <> u) (rd_user_coid r))
  | DelUserAssets u => Redis.set_user_assets r (filter (fun x => x.1 <> u) (rd_user_assets r))
  end.

(** [pipe.query_async(conn)]: every command ([None]), or an error after the
    first [n] of them. *)
Definition query_pipe (fails : option nat) (r : Redis) (pipe : list cmd) : Redis * bool :=
  match fails with
  | None => (foldl exec r pipe, true)
  | Some n => (foldl exec r (take n pipe), false)
  end.

(** ** Floors *)

(** Its error is the caller's to handle. *)
Definition load_persist_floors (replies : bool) (r : Redis) : option (gmap Z Z) :=
  if replies then Some (rd_floors r) else None.

Definition store_persist_floors (replies : bool) (r : Redis) (floors : gmap Z Z) : Redis * bool :=
  if decide (floors = ∅) then (r, true)
  else if replies then (Redis.set_floors r (floors ∪ rd_floors r), true) else (r, false).

Definition is_hydrated (replies : bool) (r : Redis) : option bool :=
  if replies then Some (Nat.ltb 0 (size (rd_active r))) else None.

(** ** Frames *)

(** How the server and the clock answer one [apply_frame]. *)
Record Io := mkIo {
  io_read : bool;          (** the reply of the read before the pipeline arrives *)
  io_fails : option nat;   (** see [query_pipe] *)
  io_now : option Z;       (** [None]: the clock is before the epoch *)
}.

(** A connection that works, at the time [now]. *)
Definition io_ok (now : Z) : Io := mkIo true None (Some now).

Definition order_fields (p : OrderUpsertPayload) (status : string) : list (string * value) :=
  [("user_id", VInt (oup_user_id p));
   ("symbol", VText (unpack_str (oup_symbol p)));
   ("side", VText (str (side_str (oup_side p))));
   ("order_type", VText (unpack_str (oup_order_type p)));
   ("price", VFloat (f64_of_bits (oup_price p)));
   ("qty", VFloat (f64_of_bits (oup_qty p)));
   ("filled", VFloat (f64_of_bits (oup_filled p)));
   ("status", VText (str status));
   ("freeze_price", VFloat (f64_of_bits (oup_freeze_price p)));
   ("client_order_id", VText (unpack_str (oup_client_order_id p)));
   ("created_at_ms", VInt (oup_created_at_ms p));
   ("updated_at_ms", VInt (oup_created_at_ms p))]%string.

Definition apply_order_upsert (io : Io) (r : Redis) (p : OrderUpsertPayload) : Redis * bool :=
  let id := oup_id p in
  let user_id := oup_user_id p in
  let coid := unpack_str (oup_client_order_id p) in
  match status_str (oup_status p) with
  | None => (r, true)
  | Some status =>
      query_pipe (io_fails io) r
        ([HSetOrder id (order_fields p status); SAddActive id; SAddUserOrder user_id id] ++
         (if Nat.eqb (length coid) 0 then [] else [HSetCoid user_id coid id]))
  end.

Definition apply_order_delete (io : Io) (r : Redis) (p : OrderDeletePayload) : Redis * bool :=
  let id := odp_id p in
  let h := default ∅ (rd_orders r !! id) in
  let pre : option value * option value :=
    if io_read io then (h !! "user_id", h !! "client_order_id")%string else (None, None) in
  let user_id := pre.1 ≫= value_i64 in
  let coid := match pre.2 ≫= value_text with
              | Some s => if Nat.eqb (length s) 0 then None else Some s
              | None => None
              end in
  query_pipe (io_fails io) r
    ([DelOrder id; SRemActive id] ++
     match user_id with
     | Some uid => SRemUserOrder uid id :: match coid with Some c => [HDelCoid uid c] | None => [] end
     | None => []
     end).

Definition fill_fields (p : OrderFillUpdatePayload) (status : string) (now_ms : Z) : list (string * value) :=
  [("filled", VFloat (f64_of_bits (ofu_filled p)));
   ("status", VText (str status));
   ("updated_at_ms", VInt now_ms)]%string.

Definition apply_order_fill_update (io : Io) (r : Redis) (p : OrderFillUpdatePayload) : Redis * bool :=
  let id := ofu_id p in
  match status_str (ofu_status p) with
  | None => (r, true)
  | Some status =>
      let exists_ := io_read io && bool_decide (is_Some (rd_orders r !! id)) in
      if negb exists_ then (r, true)
      else match io_now io with
           | None => (r, false)
           | Some now_ms => query_pipe (io_fails io) r [HSetOrder id (fill_fields p status now_ms)]
           end
  end.

(** Display fields are projections of the atoms. *)
Definition account_fields (balance_atoms frozen_atoms : Z) : list (string * value) :=
  [("balance", VFloat (AmountAtoms.to_f64 balance_atoms));
   ("frozen", VFloat (AmountAtoms.to_f64 frozen_atoms));
   ("balance_atoms", VInt balance_atoms);
   ("frozen_atoms", VInt frozen_atoms)]%string.

Definition apply_account_set (io : Io) (r : Redis) (p : AccountSetPayload) : Redis * bool :=
  match legacy_atoms (asp_balance_atoms p) (asp_balance p) with
  | None => (r, false)
  | Some balance_atoms =>
      match legacy_atoms (asp_frozen_atoms p) (asp_frozen p) with
      | None => (r, false)
      | Some frozen_atoms =>
          let asset := unpack_str (asp_asset p) in
          if Nat.eqb (length asset) 0 then (r, true)
          else query_pipe (io_fails io) r
                 [HSetAccount (asp_user_id p) asset (account_fields balance_atoms frozen_atoms);
                  SAddUserAsset (asp_user_id p) asset]
      end
  end.

(** [if let Some(p) = frame.as_*() { apply(conn, &p).await? }]; the outer
    [option] is an out-of-bounds read. *)
Definition if_payload {A} (r : Redis) (p : option (option A)) (k : A -> Redis * bool) : option (Redis * bool) :=
  x ← p; Some (match x with Some p => k p | None => (r, true) end).

Definition apply_frame (io : Io) (r : Redis) (frame : PersistFrame) : option (Redis * bool) :=
  match PersistFrame.kind frame with
  | Some PersistKind.OrderUpsert => if_payload r (PersistFrame.as_order_upsert frame) (apply_order_upsert io r)
  | Some PersistKind.OrderDelete => if_payload r (PersistFrame.as_order_delete frame) (apply_order_delete io r)
  | Some PersistKind.AccountSet => if_payload r (PersistFrame.as_account_set frame) (apply_account_set io r)
  | Some PersistKind.OrderFillUpdate =>
      if_payload r (PersistFrame.as_order_fill_update frame) (apply_order_fill_update io r)
  | Some PersistKind.TradeInsert
  | Some PersistKind.MatchingEvent
  | Some PersistKind.PositionUpsert
  | Some PersistKind.PositionDelete
  | Some PersistKind.RiskAccountSet
  | Some PersistKind.InsuranceFundSet
  | Some PersistKind.FundingSettled => Some (r, true)
  | None => Some (r, true)
  end.

(** ** The cold load *)

(** A row of the query on [orders]; times as [timestamp_millis]. *)
Record HydrateOrder := mkHydrateOrder {
  ho_id : Z;
  ho_user_id : Z;
  ho_symbol : bytes;
  ho_side : bytes;
  ho_order_type : bytes;
  ho_price : option f64;
  ho_quantity : f64;
  ho_filled : f64;
  ho_status : bytes;
  ho_freeze_price : option f64;
  ho_client_order_id : option bytes;
  ho_created_at_ms : Z;
  ho_updated_at_ms : Z;
}.

Record HydrateStats := mkHydrateStats { hs_orders : Z; hs_accounts : Z; hs_user_coids : Z }.

Definition hydrate_fields (o : HydrateOrder) : list (string * value) :=
  [("user_id", VInt (ho_user_id o));
   ("symbol", VText (ho_symbol o));
   ("side", VText (ho_side o));
   ("order_type", VText (ho_order_type o));
   ("price", VFloat (default f64_zero (ho_price o)));
   ("qty", VFloat (ho_quantity o));
   ("filled", VFloat (ho_filled o));
   ("status", VText (ho_status o));
   ("freeze_price", VFloat (default f64_zero (ho_freeze_price o)));
   ("client_order_id", VText (default [] (ho_client_order_id o)));
   ("created_at_ms", VInt (ho_created_at_ms o));
   ("updated_at_ms", VInt (ho_updated_at_ms o))]%string.

(** The mapping of the client's order id, when it has one. *)
Definition coid_cmds (o : HydrateOrder) : list cmd :=
  match ho_client_order_id o with
  | Some c => if Nat.eqb (length c) 0 then [] else [HSetCoid (ho_user_id o) c (ho_id o)]
  | None => []
  end.

Definition hydrate_order_cmds (o : HydrateOrder) : list cmd :=
  [HSetOrder (ho_id o) (hydrate_fields o); SAddActive (ho_id o); SAddUserOrder (ho_user_id o) (ho_id o)]
  ++ coid_cmds o.

Definition hydrate_account_cmds (row : Z * bytes * Z * Z) : list cmd :=
  let '(user_id, asset, balance_atoms, frozen_atoms) := row in
  [HSetAccount user_id asset (account_fields balance_atoms frozen_atoms); SAddUserAsset user_id asset].

(** [orders] and [accounts] are the answers of the two queries, [None] when the
    server refuses them; [f1] and [f2] how the two pipelines end. *)
Definition hydrate_from_pg (orders : option (list HydrateOrder)) (accounts : option (list (Z * bytes * Z * Z)))
    (f1 f2 : option nat) (r : Redis) : Redis * option HydrateStats :=
  match orders with
  | None => (r, None)
  | Some rows =>
      let '(r, ok) := match rows with [] => (r, true) | _ => query_pipe f1 r (rows ≫= hydrate_order_cmds) end in
      if negb ok then (r, None) else
      match accounts with
      | None => (r, None)
      | Some acct_rows =>
          let '(r, ok) :=
            match acct_rows with [] => (r, true) | _ => query_pipe f2 r (acct_rows ≫= hydrate_account_cmds) end in
          if negb ok then (r, None)
          else (r, Some (mkHydrateStats (Z.of_nat (length rows)) (Z.of_nat (length acct_rows))
                           (Z.of_nat (length (rows ≫= coid_cmds)))))
      end
  end.

(** ** The orphan sweep *)

Section sweep.
Context `{HashIter}.

Record ReconcileStats := mkReconcileStats {
  rs_redis_orders_scanned : Z;
  rs_orders_removed : Z;
  rs_accounts_scanned : Z;
  rs_accounts_removed : Z;
  rs_user_sets_scanned : Z;
}.

(** [SMEMBERS] of a user's orders and of its assets *)
Definition user_order_ids (r : Redis) (u : Z) : gset Z := set_map snd (filter (fun x => x.1 = u) (rd_user_orders r)).
Definition user_asset_names (r : Redis) (u : Z) : gset bytes := set_map snd (filter (fun x => x.1 = u) (rd_user_assets r)).
(** The users of [SCAN user_orders:*] and of [SCAN user_assets:*] *)
Definition order_users (r : Redis) : gset Z := set_map fst (rd_user_orders r).
Definition asset_users (r : Redis) : gset Z := set_map fst (rd_user_assets r).

(** [HGET order:{id} user_id] *)
Definition hget_user (r : Redis) (id : Z) : option Z :=
  (rd_orders r !! id) ≫= fun h => (h !! "user_id"%string) ≫= value_i64.

(** How the server answers the sweep: one entry per question, in the order the
    code asks them. *)
Record SweepIo := mkSweepIo {
  si_members : bool;                 (** [SMEMBERS active_orders] *)
  si_existing : option (gset Z);     (** the ids in Postgres, when the query succeeds *)
  si_users : bool;                   (** the [HGET] of the owners *)
  si_fails : option nat;             (** the pipeline that removes *)
  si_scan : bool;                    (** [SCAN user_orders:*] *)
  si_set : Z -> bool * option (gset Z) * option nat;  (** per user: [SMEMBERS], the query, the pipeline *)
  si_scan_accounts : bool;           (** [SCAN acct:*] *)
}.

(** The first walk: the ids of [active_orders] that Postgres does not know. *)
Definition sweep_active (io : SweepIo) (r : Redis) : Redis * option (Z * Z) :=
  let order_ids := if si_members io then iter_set (rd_active r) else [] in
  let scanned := Z.of_nat (length order_ids) in
  match order_ids with
  | [] => (r, Some (scanned, 0))
  | _ =>
      match si_existing io with
      | None => (r, None)
      | Some existing =>
          let orphan_ids := filter (fun id => id ∉ existing) order_ids in
          match orphan_ids with
          | [] => (r, Some (scanned, 0))
          | _ =>
              let uids := if si_users io then hget_user r <$> orphan_ids else [] in
              let pipe := zip orphan_ids uids ≫= fun x =>
                [DelOrder x.1; SRemActive x.1] ++ match x.2 with Some uid => [SRemUserOrder uid x.1] | None => [] end in
              let '(r, ok) := query_pipe (si_fails io) r pipe in
              (r, if ok : bool then Some (scanned, Z.of_nat (length orphan_ids)) else None)
          end
      end
  end.

(** One per-user set. *)
Definition sweep_user (io : SweepIo) (s : Redis * option Z) (uid : Z) : Redis * option Z :=
  match s with
  | (r, None) => (r, None)
  | (r, Some removed) =>
      let '(replies, pg, fails) := si_set io uid in
      let ids := if replies : bool then iter_set (user_order_ids r uid) else [] in
      match ids with
      | [] => (r, Some removed)
      | _ =>
          match pg with
          | None => (r, None)
          | Some existing =>
              let orphans := filter (fun id => id ∉ existing) ids in
              match orphans with
              | [] => (r, Some removed)
              | _ =>
                  let pipe := orphans ≫= fun id => [SRemUserOrder uid id; SRemActive id; DelOrder id] in
                  let '(r, ok) := query_pipe fails r pipe in
                  (r, if ok : bool then Some (removed + Z.of_nat (length orphans)) else None)
              end
          end
      end
  end.

Definition reconcile_orphans (io : SweepIo) (r : Redis) : Redis * option ReconcileStats :=
  match sweep_active io r with
  | (r, None) => (r, None)
  | (r, Some (scanned, removed)) =>
      if negb (si_scan io) then (r, None) else
      let user_sets := iter_set (order_users r) in
      match foldl (sweep_user io) (r, Some removed) user_sets with
      | (r, None) => (r, None)
      | (r, Some removed) =>
          if negb (si_scan_accounts io) then (r, None)
          else (r, Some (mkReconcileStats scanned removed (Z.of_nat (size (rd_accounts r))) 0
                           (Z.of_nat (length user_sets))))
      end
  end.

(** ** The purge *)

Record PurgeIo := mkPurgeIo {
  pi_members : bool;   (** [SMEMBERS active_orders] *)
  pi_scan : bool;      (** [SCAN user_assets:*] *)
  pi_users : bool;     (** the owners of the orders *)
  pi_assets : bool;    (** the assets of the users *)
  pi_fails : option nat;
}.

Definition purge_all (io : PurgeIo) (r : Redis) : Redis * bool :=
  let order_ids := if pi_members io then iter_set (rd_active r) else [] in
  if negb (pi_scan io) then (r, false) else
  let user_ids := asset_users r in
  let order_user_ids := if pi_users io then hget_user r <$> order_ids else [] in
  let assets_per_user :=
    if pi_assets io then (fun uid => iter_set (user_asset_names r uid)) <$> iter_set user_ids else [] in
  let user_ids := list_to_set (omap id order_user_ids) ∪ user_ids in
  let user_id_list := iter_set user_ids in
  query_pipe (pi_fails io) r
    ((DelOrder <$> order_ids) ++ [DelActive] ++
     (zip user_id_list assets_per_user ≫= fun x => DelAccount x.1 <$> x.2) ++
     (user_id_list ≫= fun uid => [DelUserOrders uid; DelUserCoid uid; DelUserAssets uid])).

(** ** Readers *)

Context `{Chrono}.

(** [DbOrder]; the two times in milliseconds. *)
Record DbOrder := mkDbOrder {
  do_id : Z;
  do_user_id : Z;
  do_symbol : bytes;
  do_side : bytes;
  do_order_type : bytes;
  do_price : option f64;
  do_quantity : f64;
  do_filled : f64;
  do_status : bytes;
  do_freeze_price : f64;
  do_client_order_id : option bytes;
  do_created_at : Z;
  do_updated_at : Z;
}.

Definition get_i64 (h : hash) (f : string) : option Z := (h !! f) ≫= value_i64.
Definition get_f64 (h : hash) (f : string) : option f64 := (h !! f) ≫= value_f64.
Definition get_text (h : hash) (f : string) : option bytes := (h !! f) ≫= value_text.

Definition decode_hash (id : Z) (h : hash) : option DbOrder :=
  user_id ← get_i64 h "user_id";
  symbol ← get_text h "symbol";
  side ← get_text h "side";
  order_type ← get_text h "order_type";
  status ← get_text h "status";
  quantity ← get_f64 h "qty";
  filled ← get_f64 h "filled";
  freeze_price ← get_f64 h "freeze_price";
  price_raw ← get_f64 h "price";
  let price := if f64_eq price_raw f64_zero then None else Some price_raw in
  let client_order_id :=
    match get_text h "client_order_id" with
    | Some s => if Nat.eqb (length s) 0 then None else Some s
    | None => None
    end in
  created_at_ms ← get_i64 h "created_at_ms";
  let updated_at_ms := default created_at_ms (get_i64 h "updated_at_ms") in
  _ ← timestamp_millis_opt created_at_ms;
  _ ← timestamp_millis_opt updated_at_ms;
  Some (mkDbOrder id user_id symbol side order_type price quantity filled status freeze_price client_order_id
          created_at_ms updated_at_ms).

(** [None]: the server does not reply. *)
Definition get_order (replies : bool) (r : Redis) (id user_id : Z) : option (option DbOrder) :=
  if negb replies then None else
  Some (match rd_orders r !! id with
        | None => None
        | Some h => match decode_hash id h with
                    | None => None
                    | Some o => if Z.eqb (do_user_id o) user_id then Some o else None
                    end
        end).

(** Newest first. *)
Definition newer (a b : DbOrder) : Prop := do_created_at b <= do_created_at a.
#[global] Instance newer_dec a b : Decision (newer a b) := decide (do_created_at b <= do_created_at a).

Definition list_user_open_orders (replies : bool) (r : Redis) (user_id : Z) (symbol_filter : option bytes)
    (limit : nat) : option (list DbOrder) :=
  if negb replies then None else
  let ids := iter_set (user_order_ids r user_id) in
  let out := omap (fun id =>
    h ← rd_orders r !! id;
    o ← decode_hash id h;
    match symbol_filter with
    | Some sym => if decide (do_symbol o = sym) then Some o else None
    | None => Some o
    end) ids in
  Some (take limit (merge_sort newer out)).

Definition list_user_accounts (replies : bool) (r : Redis) (user_id now : Z) : option (list (bytes * f64 * f64 * Z)) :=
  if negb replies then None else
  Some (omap (fun asset =>
    let h := default ∅ (rd_accounts r !! (user_id, asset)) in
    balance ← get_f64 h "balance";
    frozen ← get_f64 h "frozen";
    Some (asset, balance, frozen, now)) (iter_set (user_asset_names r user_id))).
End sweep.
