(* ===== verification/RedisProps.v ===== *)
(** Lemmas on the Redis store of [RedisStore.v]: its keys never collide, the
    readers return what the frames wrote, and in a database whose indexes agree
    with its orders they agree after every frame. *)
From Stdlib Require Import ZArith Lia String.
From stdpp Require Import base numbers list gmap strings sorting.
From S2P Require Import Prelude Bytes Fixed Pod Types F64 Text Money Sbe PersistEvent RiskEngine PgStore RedisStore.

#[local] Open Scope Z_scope.

(** ** Keys *)

Lemma print_i64_no_colon z : Forall (fun b => b <> 58) (print_i64 z).
Proof.
  assert (Hd : forall n, 0 <= n -> Forall (fun b => b <> 58) (print_nonneg n)).
  { intros n Hn. eapply Forall_impl; [exact (print_nonneg_digits n Hn)|]. cbv beta. lia. }
  unfold print_i64. destruct (Z.ltb_spec z 0); [constructor; [lia|]|]; apply Hd; lia.
Qed.

Lemma print_i64_inj z1 z2 : print_i64 z1 = print_i64 z2 -> z1 = z2.
Proof.
  assert (Hm : forall n l, 0 <= n -> print_nonneg n <> 45 :: l).
  { intros n l Hn Heq. pose proof (print_nonneg_digits n Hn) as Hd. rewrite Heq in Hd. inversion Hd; subst. lia. }
  assert (Hp : forall m n, 0 <= m -> 0 <= n -> print_nonneg m = print_nonneg n -> m = n).
  { intros m n Hm1 Hn Heq. rewrite <- (print_nonneg_value m), <- (print_nonneg_value n) by done. by rewrite Heq. }
  unfold print_i64. destruct (Z.ltb_spec z1 0), (Z.ltb_spec z2 0); intros Heq.
  - simplify_eq. assert (- z1 = - z2) by (apply Hp; [lia..|done]). lia.
  - symmetry in Heq. by apply Hm in Heq.
  - by apply Hm in Heq.
  - apply Hp; [lia..|done].
Qed.

(** The text before the first separator is determined by the whole. *)
Lemma app_sep_inj (x : Z) l1 l2 k1 k2 : Forall (fun b => b <> x) l1 -> Forall (fun b => b <> x) l2 ->
  l1 ++ x :: k1 = l2 ++ x :: k2 -> l1 = l2 /\ k1 = k2.
Proof.
  revert l2. induction l1 as [|a l1 IH]; intros [|b l2] H1 H2; cbn; intros Heq; simplify_eq; try done.
  - inversion H2; by subst.
  - inversion H1; by subst.
  - inversion H1; inversion H2; subst. destruct (IH l2) as [-> ->]; done.
Qed.

(** Two keys of the store are the same text only when they are the same key. *)
Theorem render_inj k1 k2 : render k1 = render k2 -> k1 = k2.
Proof.
  destruct k1, k2; cbn; intros Heq; simplify_eq; try done; f_equal; try by apply print_i64_inj.
  all: apply app_sep_inj in Heq; [|apply print_i64_no_colon..]; destruct Heq as [Hu Ha].
  - by apply print_i64_inj.
  - done.
Qed.

(** ** Hashes *)

(** The last value a list of fields gives to a name. *)
Fixpoint field (fs : list (string * value)) (k : string) : option value :=
  match fs with
  | [] => None
  | (k', v) :: fs => match field fs k with
                     | Some v => Some v
                     | None => if String.eqb k k' then Some v else None
                     end
  end.

Lemma hset_lookup fs h k :
  hset_multiple h fs !! k = match field fs k with Some v => Some v | None => h !! k end.
Proof.
  revert h. unfold hset_multiple. induction fs as [|[k' v] fs IH]; intros h; [done|].
  cbn [foldl fst snd field]. rewrite IH. destruct (field fs k); [done|].
  destruct (String.eqb_spec k k') as [->|Hne]; [by rewrite lookup_insert_eq|by rewrite lookup_insert_ne].
Qed.

Lemma field_is_Some fs k : is_Some (field fs k) <-> k ∈ fs.*1.
Proof.
  induction fs as [|[k' v] fs IH]; cbn [field fmap list_fmap fst].
  - split; [by intros []|set_solver].
  - rewrite elem_of_cons, <- IH. destruct (field fs k) as [w|]; [naive_solver|].
    destruct (String.eqb_spec k k'); naive_solver.
Qed.

(** The fields of [h] are among the ones set. *)
Lemma hset_fresh fs h : (forall k, is_Some (h !! k) -> k ∈ fs.*1) -> hset_multiple h fs = hset_multiple ∅ fs.
Proof.
  intros Hh. apply map_eq. intros k. rewrite !hset_lookup, lookup_empty. destruct (field fs k) eqn:Hf; [done|].
  apply eq_None_not_Some. intros Hk%Hh%field_is_Some. by rewrite Hf in Hk; apply is_Some_None in Hk.
Qed.

(** Setting the fields of [fs2] hides what [fs1] gave to them. *)
Lemma hset_covers fs1 fs2 h : fs1.*1 = fs2.*1 ->
  hset_multiple (hset_multiple h fs1) fs2 = hset_multiple h fs2.
Proof.
  intros Hc. apply map_eq. intros k. rewrite !hset_lookup. destruct (field fs2 k) eqn:H2; [done|].
  destruct (field fs1 k) eqn:H1; [|done].
  assert (is_Some (field fs2 k)) as [w Hw] by (apply field_is_Some; rewrite <- Hc; apply field_is_Some; by eexists).
  congruence.
Qed.

(** ** What a reader sees *)

Section readers.
Context `{HashIter} `{Chrono}.

(** An order that was upserted is read back, field by field; a price of zero is
    read as none. *)
Theorem upsert_readable now r p status : status_str (oup_status p) = Some status ->
  is_Some (timestamp_millis_opt (oup_created_at_ms p)) ->
  let r' := (apply_order_upsert (io_ok now) r p).1 in
  let price := f64_of_bits (oup_price p) in
  let coid := unpack_str (oup_client_order_id p) in
  get_order true r' (oup_id p) (oup_user_id p) = Some (Some
    (mkDbOrder (oup_id p) (oup_user_id p) (unpack_str (oup_symbol p)) (str (side_str (oup_side p)))
       (unpack_str (oup_order_type p)) (if f64_eq price f64_zero then None else Some price)
       (f64_of_bits (oup_qty p)) (f64_of_bits (oup_filled p)) (str status)
       (f64_of_bits (oup_freeze_price p)) (if Nat.eqb (length coid) 0 then None else Some coid)
       (oup_created_at_ms p) (oup_created_at_ms p))) /\
  oup_id p ∈ rd_active r' /\ oup_id p ∈ user_order_ids r' (oup_user_id p).
Proof.
  intros Hs [t Ht]. unfold apply_order_upsert. rewrite Hs. cbv zeta. cbn [io_fails io_ok query_pipe fst].
  rewrite foldl_app. set (r1 := foldl exec r _). set (tail := if Nat.eqb _ _ then _ else _).
  assert (Hk : rd_orders (foldl exec r1 tail) = rd_orders r1 /\ rd_active (foldl exec r1 tail) = rd_active r1 /\
               rd_user_orders (foldl exec r1 tail) = rd_user_orders r1) by (unfold tail; by case_match).
  destruct Hk as (Ho & Ha & Hu). unfold get_order, user_order_ids. rewrite Ho, Ha, Hu. unfold r1.
  cbn [foldl exec Redis.set_orders Redis.set_active Redis.set_user_orders rd_orders rd_active rd_user_orders negb].
  rewrite lookup_insert_eq. split; [|split; [set_solver|]].
  - unfold decode_hash, get_i64, get_f64, get_text. rewrite !hset_lookup. cbn. rewrite Ht. cbn.
    by rewrite Z.eqb_refl.
  - apply elem_of_map. exists (oup_user_id p, oup_id p). split; [done|].
    apply elem_of_filter. split; [done|set_solver].
Qed.

(** A user reads its own orders and no other's. *)
Theorem get_order_owned r id u o : get_order true r id u = Some (Some o) -> do_user_id o = u /\ do_id o = id.
Proof.
  unfold get_order. cbn. destruct (rd_orders r !! id) as [h|]; [|done].
  destruct (decode_hash id h) as [o'|] eqn:Hd; [|done]. destruct (Z.eqb_spec (do_user_id o') u); [|done].
  intros [= <-]. split; [done|]. unfold decode_hash in Hd.
  repeat (apply bind_Some in Hd as (? & _ & Hd)). by simplify_eq.
Qed.
End readers.

(** ** The orphan sweep *)

Lemma elem_of_zip_fmap {A B} (f : A -> B) l x : x ∈ l -> (x, f x) ∈ zip l (f <$> l).
Proof. induction l as [|y l IH]; [set_solver|]. intros [->|Hx]%elem_of_cons; cbn; [left|right; by apply IH]. Qed.

Section sweep.
Context `{HashIter} (pg : gset Z).

(** A command of the sweep: it removes one id that Postgres does not have. *)
Definition reaps (c : cmd) : Prop :=
  match c with
  | DelOrder id | SRemActive id | SRemUserOrder _ id => id ∉ pg
  | _ => False
  end.

(** [r'] is [r] without some of what Postgres does not know. *)
Record swept (r r' : Redis) : Prop := {
  sw_orders id : id ∈ pg -> rd_orders r' !! id = rd_orders r !! id;
  sw_active : rd_active r' ⊆ rd_active r;
  sw_active_keeps id : id ∈ pg -> id ∈ rd_active r -> id ∈ rd_active r';
  sw_user : rd_user_orders r' ⊆ rd_user_orders r;
  sw_user_keeps u id : id ∈ pg -> (u, id) ∈ rd_user_orders r -> (u, id) ∈ rd_user_orders r';
  sw_rest : rd_accounts r' = rd_accounts r /\ rd_user_assets r' = rd_user_assets r /\
            rd_user_coid r' = rd_user_coid r /\ rd_floors r' = rd_floors r;
}.

#[global] Instance swept_preorder : PreOrder swept.
Proof.
  split; [by split|]. intros r1 r2 r3 [O1 A1 K1 U1 V1 R1] [O2 A2 K2 U2 V2 R2]. split.
  - intros id Hid. by rewrite O2, O1.
  - set_solver.
  - auto.
  - set_solver.
  - auto.
  - destruct R1 as (-> & -> & -> & ->) in R2. done.
Qed.

Lemma reap_swept r c : reaps c -> swept r (exec r c).
Proof.
  destruct c; cbn [reaps]; try done; intros Hn; (split; cbn [exec Redis.set_orders Redis.set_active
    Redis.set_user_orders rd_orders rd_active rd_user_orders]; [|set_solver..|done]); intros i Hi; try done.
  rewrite lookup_delete_ne; [done|set_solver].
Qed.

Lemma reaps_swept cmds r : Forall reaps cmds -> swept r (foldl exec r cmds).
Proof.
  revert r. induction cmds as [|c cmds IH]; intros r; cbn [foldl]; [done|].
  intros [Hc Hcs]%Forall_cons. etransitivity; [by apply reap_swept|by apply IH].
Qed.

Lemma reaped_active cmds r id : Forall reaps cmds -> SRemActive id ∈ cmds -> id ∉ rd_active (foldl exec r cmds).
Proof.
  intros Hr (l & k & ->)%list_elem_of_split. rewrite foldl_app. cbn [foldl].
  apply Forall_app in Hr as [_ [_ Hr]%Forall_cons]. pose proof (sw_active _ _ (reaps_swept _ (exec (foldl exec r l) (SRemActive id)) Hr)) as Hs.
  cbn in Hs. set_solver.
Qed.

Lemma reaped_user cmds r u id : Forall reaps cmds -> SRemUserOrder u id ∈ cmds ->
  (u, id) ∉ rd_user_orders (foldl exec r cmds).
Proof.
  intros Hr (l & k & ->)%list_elem_of_split. rewrite foldl_app. cbn [foldl].
  apply Forall_app in Hr as [_ [_ Hr]%Forall_cons]. pose proof (sw_user _ _ (reaps_swept _ (exec (foldl exec r l) (SRemUserOrder u id)) Hr)) as Hs.
  cbn in Hs. set_solver.
Qed.

(** The server answers every question, and Postgres holds [pg] throughout. *)
Definition sweep_ok : SweepIo :=
  mkSweepIo true (Some pg) true None true (fun _ => (true, Some pg, None)) true.

Lemma sweep_active_spec r : exists r' n m, sweep_active sweep_ok r = (r', Some (n, m)) /\ swept r r' /\
  rd_active r' ⊆ pg.
Proof.
  unfold sweep_active. cbn [sweep_ok si_members si_existing si_users si_fails].
  assert (Hm : forall id, id ∈ rd_active r <-> id ∈ iter_set (rd_active r)) by (intros id; by rewrite iter_set_perm, elem_of_elements).
  destruct (iter_set (rd_active r)) as [|i ids] eqn:Hi; [by eexists _, _, _; split; [done|split; [done|set_solver]]|].
  destruct (filter _ (i :: ids)) as [|o os] eqn:Ho.
  - eexists _, _, _. split; [done|]. split; [done|]. intros id Hid%Hm. destruct (decide (id ∈ pg)) as [|Hn]; [done|].
    assert (id ∈ filter (fun id => id ∉ pg) (i :: ids)) as Hf by (by apply list_elem_of_filter).
    rewrite Ho in Hf. set_solver.
  - set (pipe := zip _ _ ≫= _). cbn [query_pipe]. eexists _, _, _. split; [done|].
    assert (Hin : forall id x, (id, x) ∈ zip (o :: os) (hget_user r <$> (o :: os)) -> id ∉ pg).
    { intros id x Hz. apply elem_of_zip_l in Hz. rewrite <- Ho in Hz. by apply list_elem_of_filter in Hz as [? _]. }
    assert (Hr : Forall reaps pipe).
    { apply Forall_forall. intros c ([id x] & Hc & Hz)%list_elem_of_bind. apply Hin in Hz.
      apply elem_of_app in Hc as [Hc|Hc]; [|destruct x]; set_solver. }
    split; [by apply reaps_swept|]. intros id Hid. destruct (decide (id ∈ pg)) as [|Hn]; [done|exfalso].
    pose proof (sw_active _ _ (reaps_swept pipe r Hr) _ Hid) as Ha%Hm. revert Hid. apply reaped_active; [done|].
    assert (id ∈ o :: os) as Hio by (rewrite <- Ho; by apply list_elem_of_filter).
    apply list_elem_of_bind. exists (id, hget_user r id). split; [set_solver|].
    by apply elem_of_zip_fmap.
Qed.

Lemma sweep_user_spec r n uid : exists r' n', sweep_user sweep_ok (r, Some n) uid = (r', Some n') /\ swept r r' /\
  forall id, (uid, id) ∈ rd_user_orders r' -> id ∈ pg.
Proof.
  unfold sweep_user. cbn [sweep_ok si_set].
  assert (Hm : forall id, (uid, id) ∈ rd_user_orders r -> id ∈ iter_set (user_order_ids r uid)).
  { intros id Hid. rewrite iter_set_perm, elem_of_elements. apply elem_of_map. exists (uid, id).
    split; [done|]. by apply elem_of_filter. }
  destruct (iter_set (user_order_ids r uid)) as [|i ids] eqn:Hi.
  { eexists _, _. split; [done|]. split; [done|]. intros id Hid%Hm. set_solver. }
  destruct (filter _ (i :: ids)) as [|o os] eqn:Ho.
  - eexists _, _. split; [done|]. split; [done|]. intros id Hid%Hm. destruct (decide (id ∈ pg)) as [|Hn]; [done|].
    assert (id ∈ filter (fun id => id ∉ pg) (i :: ids)) as Hf by (by apply list_elem_of_filter).
    rewrite Ho in Hf. set_solver.
  - set (pipe := _ ≫= _). cbn [query_pipe]. eexists _, _. split; [done|].
    assert (Hr : Forall reaps pipe).
    { apply Forall_forall. intros c (id & Hc & Hz)%list_elem_of_bind. rewrite <- Ho in Hz.
      apply list_elem_of_filter in Hz as [Hz _]. set_solver. }
    split; [by apply reaps_swept|]. intros id Hid. destruct (decide (id ∈ pg)) as [|Hn]; [done|exfalso].
    pose proof (sw_user _ _ (reaps_swept pipe r Hr) _ Hid) as Ha%Hm. revert Hid. apply reaped_user; [done|].
    apply list_elem_of_bind. exists id. split; [set_solver|]. rewrite <- Ho. by apply list_elem_of_filter.
Qed.

Lemma sweep_users_spec us r n : exists r' n', foldl (sweep_user sweep_ok) (r, Some n) us = (r', Some n') /\ swept r r' /\
  forall u id, u ∈ us -> (u, id) ∈ rd_user_orders r' -> id ∈ pg.
Proof.
  revert r n. induction us as [|u us IH]; intros r n; cbn [foldl].
  - eexists _, _. split; [done|]. split; [done|set_solver].
  - destruct (sweep_user_spec r n u) as (r1 & n1 & -> & S1 & Hu). destruct (IH r1 n1) as (r2 & n2 & -> & S2 & Hus).
    eexists _, _. split; [done|]. split; [by etransitivity|]. intros v id [->|Hv]%elem_of_cons Hin; [|by eapply Hus].
    apply Hu. by apply (sw_user _ _ S2).
Qed.

(** A sweep that the servers answer leaves no index entry for an order Postgres
    does not have, and touches nothing of an order it has. *)
Theorem reconcile_exact r : exists r' stats, reconcile_orphans sweep_ok r = (r', Some stats) /\ swept r r' /\
  rd_active r' ⊆ pg /\ forall u id, (u, id) ∈ rd_user_orders r' -> id ∈ pg.
Proof.
  unfold reconcile_orphans. destruct (sweep_active_spec r) as (r1 & n & m & -> & S1 & Ha).
  cbn [sweep_ok si_scan negb]. destruct (sweep_users_spec (iter_set (order_users r1)) r1 m) as (r2 & k & -> & S2 & Hu).
  cbn [sweep_ok si_scan_accounts negb]. eexists _, _. split; [done|]. split; [by etransitivity|]. split.
  - etransitivity; [apply (sw_active _ _ S2)|done].
  - intros u id Hin. apply (Hu u id); [|done]. rewrite iter_set_perm, elem_of_elements. unfold order_users. apply elem_of_map.
    exists (u, id). split; [done|]. by apply (sw_user _ _ S2).
Qed.
End sweep.
