(* ===== verification/RedisWriter.v ===== *)
(** The Redis writer ([src/src/bin/redis_writer.rs]): the start-up sequence, the
    journal catch-up and the live loop that applies frames to the Redis store
    and checkpoints a floor per publisher.

    Floors are stored about once a second, so that a restart re-applies frames,
    and a crash in the middle of such a replay leaves the database behind what
    it held before.  The main theorem is that the database converges all the
    same: whenever the writer has caught up with the journal, the store holds
    what one pass over the journal would have put there, however often it
    restarted on the way. *)
From Stdlib Require Import ZArith Lia String.
From stdpp Require Import base numbers list gmap strings relations sorting.
From S2P Require Import Prelude Bytes Fixed Pod Types F64 Text Money Sbe PersistEvent RiskEngine PgStore PgWriter RedisStore RedisProps.

#[local] Open Scope Z_scope.

(** ** The loops *)

Inductive outcome := Duplicate | Applied | Failed.

(** The body of both loops: a numbered frame at or below its publisher's floor
    was applied before; the floor moves when a frame is applied. *)
Definition take_frame (io : Io) (r : Redis) (floors : gmap Z Z) (frame : PersistFrame)
    : option (Redis * gmap Z Z * outcome) :=
  let publisher_id := pf_publisher_id frame in
  let seq := pf_seq frame in
  if negb (Z.eqb seq 0) && Z.leb seq (default 0 (floors !! publisher_id)) then Some (r, floors, Duplicate)
  else
    '(r, ok) ← apply_frame io r frame;
    Some (if ok : bool then (r, if Z.eqb seq 0 then floors else <[publisher_id := seq]> floors, Applied)
          else (r, floors, Failed)).

Record redis_writer := mkRedisWriter {
  rw_redis : Redis;
  rw_floors : gmap Z Z;
  rw_applied : Z;
  rw_duplicates : Z;
  rw_floors_dirty : bool;
}.

(** A frame of the live stream. *)
Definition on_frame (io : Io) (w : redis_writer) (frame : PersistFrame) : option redis_writer :=
  '(r, floors, out) ← take_frame io (rw_redis w) (rw_floors w) frame;
  Some (match out with
        | Duplicate => mkRedisWriter r floors (rw_applied w) (rw_duplicates w + 1) (rw_floors_dirty w)
        | Applied => mkRedisWriter r floors (rw_applied w + 1) (rw_duplicates w)
                       (if Z.eqb (pf_seq frame) 0 then rw_floors_dirty w else true)
        | Failed => mkRedisWriter r floors (rw_applied w) (rw_duplicates w) (rw_floors_dirty w)
        end).

(** The periodic checkpoint; [due] is [last_ckpt.elapsed() >= 1s]. *)
Definition checkpoint (due replies : bool) (w : redis_writer) : redis_writer :=
  if rw_floors_dirty w && due then
    let '(r, ok) := store_persist_floors replies (rw_redis w) (rw_floors w) in
    mkRedisWriter r (rw_floors w) (rw_applied w) (rw_duplicates w) (negb ok)
  else w.

(** The replay of one recording's frames, each with the answers it gets. *)
Definition catch_up (frames : list (Io * PersistFrame)) (s : Redis * gmap Z Z) : option (Redis * gmap Z Z) :=
  mfold (fun s x => '(r, floors, _) ← take_frame x.1 s.1 s.2 x.2; Some (r, floors)) s frames.

(** [load_persist_floors(..).unwrap_or_default()] *)
Definition loaded_floors (replies : bool) (r : Redis) : gmap Z Z := default ∅ (load_persist_floors replies r).

(** The live phase begins with the floors Redis holds. *)
Definition start_live (replies : bool) (r : Redis) : redis_writer :=
  mkRedisWriter r (loaded_floors replies r) 0 0 false.

(** The catch-up with its recordings, when an archive is configured, and the
    switch to the live stream: the floors are stored and loaded again. *)
Definition go_live (archive : option (list (list (Io * PersistFrame)))) (load1 store load2 : bool) (r : Redis)
    : option redis_writer :=
  match archive with
  | None => Some (start_live load2 r)
  | Some recordings =>
      '(r, floors) ← mfold (fun s frames => catch_up frames s) (r, loaded_floors load1 r) recordings;
      Some (start_live load2 (store_persist_floors store r floors).1)
  end.

Section startup.
Context `{HashIter}.

(** The environment of the process and the answers of the two servers. *)
Record Boot := mkBoot {
  bt_force : bool;         (** [FORCE_REHYDRATE] *)
  bt_oneshot : bool;       (** [ONESHOT_HYDRATE] *)
  bt_reconcile : bool;     (** [RECONCILE_ON_START] *)
  bt_purge : PurgeIo;
  bt_card : bool;          (** the reply of [SCARD active_orders] *)
  bt_orders : option (list HydrateOrder);
  bt_accounts : option (list (Z * bytes * Z * Z));
  bt_fails : option nat * option nat;
  bt_sweep : SweepIo;
}.

(** The phase before the subscription: [None] when the process exits, with an
    error or after a one-shot load. *)
Definition boot (b : Boot) (r : Redis) : Redis * option () :=
  let '(r, ok) := if bt_force b then purge_all (bt_purge b) r else (r, true) in
  if negb ok then (r, None) else
  match is_hydrated (bt_card b) r with
  | None => (r, None)
  | Some hydrated =>
      let '(r, ok) :=
        if negb hydrated || bt_force b then
          let '(r, stats) := hydrate_from_pg (bt_orders b) (bt_accounts b) (bt_fails b).1 (bt_fails b).2 r in
          (r, bool_decide (is_Some stats))
        else (r, true) in
      if negb ok then (r, None) else
      let '(r, ok) :=
        if bt_reconcile b then
          let '(r, stats) := reconcile_orphans (bt_sweep b) r in (r, bool_decide (is_Some stats))
        else (r, true) in
      if negb ok then (r, None)
      else if bt_oneshot b then (r, None)
      else (r, Some ())
  end.
End startup.

(** ** Frames as events *)

(** What a frame carries. *)
Definition frame_event (f : PersistFrame) : option persist_event :=
  k ← PersistFrame.kind f; e ← read_as k f; e.

Definition apply_event (io : Io) (r : Redis) (e : option persist_event) : Redis * bool :=
  match e with
  | Some (EvOrderUpsert p) => apply_order_upsert io r p
  | Some (EvOrderDelete p) => apply_order_delete io r p
  | Some (EvAccountSet p) => apply_account_set io r p
  | Some (EvOrderFillUpdate p) => apply_order_fill_update io r p
  | _ => (r, true)
  end.

Lemma apply_frame_event io r f : well_typed f -> apply_frame io r f = Some (apply_event io r (frame_event f)).
Proof.
  intros Hf. unfold apply_frame, frame_event.
  destruct (PersistFrame.kind f) as [k|] eqn:Hk; [|done]. cbn [mbind option_bind].
  assert (Hr : forall A (HA : Pod A), (size_of A <= MAX_PAYLOAD)%nat ->
    is_Some (PersistFrame.as_payload (A := A) k f)) by (intros; by apply accessor_total).
  destruct k; cbn [read_as];
    unfold PersistFrame.as_order_upsert, PersistFrame.as_order_delete, PersistFrame.as_account_set,
      PersistFrame.as_trade_insert, PersistFrame.as_order_fill_update, PersistFrame.as_matching_event,
      PersistFrame.as_position_upsert, PersistFrame.as_position_delete, PersistFrame.as_risk_account_set,
      PersistFrame.as_insurance_fund_set, PersistFrame.as_funding_settled, if_payload;
    match goal with |- context [PersistFrame.as_payload (A := ?A) (H := ?i) ?k f] =>
      destruct (Hr A i) as [[x|] ->]; [vm_compute; lia|..] end; done.
Qed.

(** ** One key at a time *)

Definition FILL_FIELDS : list string := ["filled"; "status"; "updated_at_ms"]%string.

(** What an event does to the hash of the order [id]. *)
Definition order_step (now id : Z) (h : option hash) (e : option persist_event) : option hash :=
  match e with
  | Some (EvOrderUpsert p) =>
      match status_str (oup_status p) with
      | Some st => if decide (oup_id p = id) then Some (hset_multiple (default ∅ h) (order_fields p st)) else h
      | None => h
      end
  | Some (EvOrderDelete p) => if decide (odp_id p = id) then None else h
  | Some (EvOrderFillUpdate p) =>
      match status_str (ofu_status p) with
      | Some st => if decide (ofu_id p = id) then (fun h => hset_multiple h (fill_fields p st now)) <$> h else h
      | None => h
      end
  | _ => h
  end.

(** An account frame that says something: its key and its two amounts. *)
Definition account_effect (e : option persist_event) : option (Z * bytes * (Z * Z)) :=
  match e with
  | Some (EvAccountSet p) =>
      b ← legacy_atoms (asp_balance_atoms p) (asp_balance p);
      f ← legacy_atoms (asp_frozen_atoms p) (asp_frozen p);
      let asset := unpack_str (asp_asset p) in
      if Nat.eqb (length asset) 0 then None else Some (asp_user_id p, asset, (b, f))
  | _ => None
  end.

Lemma apply_event_orders now r e id :
  rd_orders (apply_event (io_ok now) r e).1 !! id = order_step now id (rd_orders r !! id) e.
Proof.
  destruct e as [[p|p|p|p|p|p|p|p|p|p|p]|]; cbn [apply_event order_step fst]; try done.
  - unfold apply_order_upsert. destruct (status_str _) as [st|]; [|done]. cbn [io_ok io_fails query_pipe fst].
    rewrite foldl_app. cbn [foldl exec]. destruct (Nat.eqb _ 0); cbn;
      (destruct (decide (oup_id p = id)) as [->|]; [by rewrite lookup_insert_eq|by rewrite lookup_insert_ne]).
  - unfold apply_order_delete. cbn [io_ok io_fails io_read query_pipe fst]. rewrite foldl_app. cbn [foldl exec].
    set (r1 := Redis.set_active _ _). set (tl := match _ with Some _ => _ | None => _ end).
    assert (rd_orders (foldl exec r1 tl) = rd_orders r1) as -> by (unfold tl; by repeat case_match).
    cbn. destruct (decide (odp_id p = id)) as [->|]; [by rewrite lookup_delete_eq|by rewrite lookup_delete_ne].
  - unfold apply_account_set. by repeat case_match.
  - unfold apply_order_fill_update. destruct (status_str _) as [st|]; [|done]. cbn [io_ok io_read io_now io_fails].
    rewrite andb_true_l. destruct (decide (ofu_id p = id)) as [<-|Hne].
    + destruct (rd_orders r !! ofu_id p) as [h|] eqn:Ho; cbn; [|by rewrite Ho].
      by rewrite Ho, lookup_insert_eq.
    + case_match; cbn; [done|]. by rewrite lookup_insert_ne.
Qed.

Lemma apply_event_accounts now r e k :
  rd_accounts (apply_event (io_ok now) r e).1 !! k =
    match account_effect e with
    | Some (k', (b, f)) =>
        if decide (k' = k) then Some (hset_multiple (default ∅ (rd_accounts r !! k)) (account_fields b f))
        else rd_accounts r !! k
    | None => rd_accounts r !! k
    end.
Proof.
  destruct e as [[p|p|p|p|p|p|p|p|p|p|p]|]; cbn [apply_event account_effect fst]; try done.
  - unfold apply_order_upsert. by repeat case_match.
  - unfold apply_order_delete. cbn [io_ok io_fails io_read query_pipe fst]. rewrite foldl_app.
    by repeat case_match.
  - unfold apply_account_set. destruct (legacy_atoms (asp_balance_atoms p) _) as [b|]; [|done]. cbn [mbind option_bind].
    destruct (legacy_atoms (asp_frozen_atoms p) _) as [f|]; [|done]. cbn [mbind option_bind].
    destruct (Nat.eqb _ 0); [done|]. cbn.
    destruct (decide (_ = k)) as [<-|]; [by rewrite lookup_insert_eq|by rewrite lookup_insert_ne].
  - unfold apply_order_fill_update. by repeat case_match.
Qed.

Lemma apply_event_assets now r e k :
  k ∈ rd_user_assets (apply_event (io_ok now) r e).1 <->
    k ∈ rd_user_assets r \/ fst <$> account_effect e = Some k.
Proof.
  destruct e as [[p|p|p|p|p|p|p|p|p|p|p]|]; cbn [apply_event account_effect fst fmap option_fmap option_map];
    try (naive_solver done).
  - unfold apply_order_upsert. repeat case_match; cbn; naive_solver.
  - unfold apply_order_delete. cbn [io_ok io_fails io_read query_pipe fst]. rewrite foldl_app.
    repeat case_match; cbn; naive_solver.
  - unfold apply_account_set. destruct (legacy_atoms (asp_balance_atoms p) _) as [b|]; [|naive_solver]. cbn [mbind option_bind].
    destruct (legacy_atoms (asp_frozen_atoms p) _) as [f|]; [|naive_solver]. cbn [mbind option_bind].
    destruct (Nat.eqb _ 0); [naive_solver|]. cbn. set_solver.
  - unfold apply_order_fill_update. repeat case_match; cbn; naive_solver.
Qed.

(** The floors are no part of what a frame reads or writes. *)
Lemma exec_floors cmds r x :
  foldl exec (Redis.set_floors r x) cmds = Redis.set_floors (foldl exec r cmds) x /\
  rd_floors (foldl exec r cmds) = rd_floors r.
Proof.
  revert r. induction cmds as [|c cmds IH]; intros r; [done|]. cbn [foldl].
  assert (exec (Redis.set_floors r x) c = Redis.set_floors (exec r c) x) as -> by (by destruct c).
  destruct (IH (exec r c)) as [-> ->]. split; [done|by destruct c].
Qed.

Lemma query_floors n r x cmds :
  query_pipe n (Redis.set_floors r x) cmds = (Redis.set_floors (query_pipe n r cmds).1 x, (query_pipe n r cmds).2) /\
  rd_floors (query_pipe n r cmds).1 = rd_floors r.
Proof. destruct n as [n|]; cbn [query_pipe fst snd]; [destruct (exec_floors (take n cmds) r x)|destruct (exec_floors cmds r x)]; by split; [f_equal|]. Qed.

Lemma apply_event_floors io r e x :
  apply_event io (Redis.set_floors r x) e =
    (Redis.set_floors (apply_event io r e).1 x, (apply_event io r e).2) /\
  rd_floors (apply_event io r e).1 = rd_floors r.
Proof.
  destruct e as [[p|p|p|p|p|p|p|p|p|p|p]|]; cbn [apply_event]; try done;
    unfold apply_order_upsert, apply_order_delete, apply_account_set, apply_order_fill_update;
    cbv zeta; cbn [Redis.set_floors rd_orders];
    repeat case_match; try done; apply query_floors.
Qed.

(** ** The indexes agree with the orders *)

Definition ORDER_FIELDS : list string :=
  ["user_id"; "symbol"; "side"; "order_type"; "price"; "qty"; "filled"; "status"; "freeze_price";
   "client_order_id"; "created_at_ms"; "updated_at_ms"]%string.
Definition ACCOUNT_FIELDS : list string := ["balance"; "frozen"; "balance_atoms"; "frozen_atoms"]%string.

Section consistency.
(** The user and the client's id of each order ([[]]: none). *)
Context (own : Z -> Z * bytes).

(** A client does not use an id for two orders. *)
Definition client_ids_unique : Prop := forall i j, own i = own j -> (own i).2 <> [] -> i = j.

Definition own_hash (id : Z) (h : hash) : Prop :=
  h !! "user_id"%string = Some (VInt (own id).1) /\
  h !! "client_order_id"%string = Some (VText (own id).2) /\
  forall k, is_Some (h !! k) -> k ∈ ORDER_FIELDS.

Record consistent (r : Redis) : Prop := {
  co_hash id h : rd_orders r !! id = Some h -> own_hash id h;
  co_active id : id ∈ rd_active r <-> is_Some (rd_orders r !! id);
  co_user u id : (u, id) ∈ rd_user_orders r <-> is_Some (rd_orders r !! id) /\ (own id).1 = u;
  co_coid u c id : rd_user_coid r !! (u, c) = Some id <-> is_Some (rd_orders r !! id) /\ own id = (u, c) /\ c <> [];
  co_account k h f : rd_accounts r !! k = Some h -> is_Some (h !! f) -> f ∈ ACCOUNT_FIELDS;
}.

(** The frame names the owner of the order. *)
Definition owned (e : option persist_event) : Prop :=
  match e with
  | Some (EvOrderUpsert p) => own (oup_id p) = (oup_user_id p, unpack_str (oup_client_order_id p))
  | _ => True
  end.

(** The fields of an order's whole row, of the owner [own] names. *)
Definition own_fields (id : Z) (fields : list (string * value)) : Prop :=
  fields.*1 = ORDER_FIELDS /\ field fields "user_id" = Some (VInt (own id).1) /\
  field fields "client_order_id" = Some (VText (own id).2).

Lemma put_own id fields h : own_fields id fields -> (forall k, is_Some (h !! k) -> k ∈ ORDER_FIELDS) ->
  own_hash id (hset_multiple h fields).
Proof.
  intros (Hn & Hu & Hc) Hh. unfold own_hash. rewrite !hset_lookup, Hu, Hc. split; [done|]. split; [done|].
  intros k [v Hv]. rewrite hset_lookup in Hv. destruct (field fields k) eqn:Hf.
  - rewrite <- Hn. apply field_is_Some. by eexists.
  - apply Hh. by eexists.
Qed.

Lemma upsert_fields p st : owned (Some (EvOrderUpsert p)) -> own_fields (oup_id p) (order_fields p st).
Proof. cbn. intros Ho. unfold own_fields. by rewrite Ho. Qed.

Lemma fill_own p st now h id : own_hash id h -> own_hash id (hset_multiple h (fill_fields p st now)).
Proof.
  intros (Hu & Hc & Hk). unfold own_hash. split; [by rewrite hset_lookup|]. split; [by rewrite hset_lookup|].
  intros k [v Hv]. rewrite hset_lookup in Hv. destruct (field (fill_fields p st now) k) eqn:Hf; [|by apply Hk; eexists].
  assert (k ∈ (fill_fields p st now).*1) as Hin by (apply field_is_Some; by eexists). cbn in Hin. set_solver.
Qed.

Lemma order_step_own now r e id h : consistent r -> owned e ->
  order_step now id (rd_orders r !! id) e = Some h -> own_hash id h.
Proof.
  intros C He. pose proof (co_hash _ C id) as Hc.
  destruct e as [[p|p|p|p|p|p|p|p|p|p|p]|]; cbn [order_step owned] in *; try apply Hc.
  - destruct (status_str _) as [st|]; [|apply Hc]. destruct (decide _) as [<-|]; [|apply Hc]. intros Hv.
    apply (inj Some) in Hv as <-. apply put_own; [by apply upsert_fields|]. intros k Hk. destruct (rd_orders r !! oup_id p) as [h0|].
    + by apply (Hc h0).
    + cbn in Hk. rewrite lookup_empty in Hk. by apply is_Some_None in Hk.
  - destruct (decide _); [done|apply Hc].
  - destruct (status_str _) as [st|]; [|apply Hc]. destruct (decide _) as [Heq|]; [|apply Hc].
    destruct (rd_orders r !! id) as [h0|]; [|done]. intros [= <-]. by apply fill_own, Hc.
Qed.

(** The commands that write a whole order, as a frame and the cold load send them. *)
Definition put_cmds (id u : Z) (c : bytes) (fields : list (string * value)) : list cmd :=
  [HSetOrder id fields; SAddActive id; SAddUserOrder u id] ++ (if Nat.eqb (length c) 0 then [] else [HSetCoid u c id]).

Lemma put_index r id u c fields : let r' := foldl exec r (put_cmds id u c fields) in
  rd_orders r' = <[id := hset_multiple (default ∅ (rd_orders r !! id)) fields]> (rd_orders r) /\
  rd_active r' = {[id]} ∪ rd_active r /\ rd_user_orders r' = {[(u, id)]} ∪ rd_user_orders r /\
  rd_user_coid r' = (if Nat.eqb (length c) 0 then rd_user_coid r else <[(u, c) := id]> (rd_user_coid r)) /\
  rd_accounts r' = rd_accounts r /\ rd_user_assets r' = rd_user_assets r /\ rd_floors r' = rd_floors r.
Proof. cbv zeta. unfold put_cmds. rewrite foldl_app. by destruct (Nat.eqb _ 0). Qed.

Lemma delete_index now r p : consistent r ->
  let r' := (apply_order_delete (io_ok now) r p).1 in
  let k := own (odp_id p) in
  rd_active r' = rd_active r ∖ {[odp_id p]} /\
  (is_Some (rd_orders r !! odp_id p) ->
     rd_user_orders r' = rd_user_orders r ∖ {[(k.1, odp_id p)]} /\
     rd_user_coid r' = (if Nat.eqb (length k.2) 0 then rd_user_coid r else delete k (rd_user_coid r))) /\
  (rd_orders r !! odp_id p = None -> rd_user_orders r' = rd_user_orders r /\ rd_user_coid r' = rd_user_coid r).
Proof.
  intros C. unfold apply_order_delete. cbn [io_ok io_fails io_read query_pipe fst]. rewrite foldl_app.
  destruct (rd_orders r !! odp_id p) as [h|] eqn:Hid; cbn [from_option id].
  - destruct (co_hash _ C _ _ Hid) as (-> & -> & _). cbn [mbind option_bind fst snd value_i64 value_text].
    destruct (Nat.eqb (length _) 0); (split; [done|]); split; try done; intros _; split; try done.
    cbn. by rewrite <- surjective_pairing.
  - rewrite !lookup_empty. cbn. split; [done|]. split; [by intros []|done].
Qed.

Lemma indexed r r' : consistent r ->
  (forall id h, rd_orders r' !! id = Some h -> own_hash id h) ->
  (forall k, rd_accounts r' !! k = rd_accounts r !! k) ->
  (forall id, id ∈ rd_active r' <-> is_Some (rd_orders r' !! id)) ->
  (forall u id, (u, id) ∈ rd_user_orders r' <-> is_Some (rd_orders r' !! id) /\ (own id).1 = u) ->
  (forall u c id, rd_user_coid r' !! (u, c) = Some id <-> is_Some (rd_orders r' !! id) /\ own id = (u, c) /\ c <> []) ->
  consistent r'.
Proof. intros C Hh Ha. split; try done. intros k h f. rewrite Ha. by apply co_account. Qed.

Lemma put_consistent r id fields : client_ids_unique -> consistent r -> own_fields id fields ->
  consistent (foldl exec r (put_cmds id (own id).1 (own id).2 fields)).
Proof.
  intros Hun C Hf. destruct (put_index r id (own id).1 (own id).2 fields) as (Hor & Ha & Hu & Hc & Hac & _).
  set (r' := foldl exec r _) in *.
  assert (Hs : forall i, is_Some (rd_orders r' !! i) <-> id = i \/ is_Some (rd_orders r !! i)).
  { intros i. rewrite Hor. apply lookup_insert_is_Some'. }
  apply (indexed r); [done|..].
  - intros i h Hi. rewrite Hor in Hi. destruct (decide (id = i)) as [<-|Hne].
    + rewrite lookup_insert_eq in Hi. apply (inj Some) in Hi as <-. apply put_own; [done|]. intros k Hk.
      destruct (rd_orders r !! id) as [h0|] eqn:Hid; [by apply (co_hash _ C id h0 Hid)|].
      cbn in Hk. rewrite lookup_empty in Hk. by apply is_Some_None in Hk.
    + rewrite lookup_insert_ne in Hi by done. by apply (co_hash _ C i h).
  - intros k. by rewrite Hac.
  - intros i. rewrite Hs, Ha, elem_of_union, elem_of_singleton, (co_active _ C). split; intros [?|?]; auto.
  - intros u i. rewrite Hs, Hu, elem_of_union, elem_of_singleton, (co_user _ C). split.
    + intros [[= -> ->]|[? ?]]; by auto.
    + intros [[<-|Hi] <-]; by auto.
  - intros u c i. rewrite Hs, Hc. destruct (Nat.eqb_spec (length (own id).2) 0) as [Hb|Hb].
    + apply length_zero_iff_nil in Hb. rewrite (co_coid _ C). split; [tauto|].
      intros ([<-|?] & Hi & Hn); [|done]. rewrite Hi in Hb. by destruct Hn.
    + rewrite <- surjective_pairing. destruct (decide (own id = (u, c))) as [Heq|Hne].
      * rewrite Heq, lookup_insert_eq. rewrite Heq in Hb. assert (c <> []) by (by intros ->).
        split; [intros [= <-]; by auto|]. intros (_ & Hi & Hn). f_equal. apply Hun; rewrite Heq; done.
      * rewrite lookup_insert_ne by done. rewrite (co_coid _ C). split; [tauto|].
        intros ([<-|?] & Hi & ?); [|done]. congruence.
Qed.

Lemma upsert_consistent now r p : client_ids_unique -> consistent r -> owned (Some (EvOrderUpsert p)) ->
  consistent (apply_order_upsert (io_ok now) r p).1.
Proof.
  intros Hun C Ho. unfold apply_order_upsert. destruct (status_str _) as [st|]; [|done]. cbn [io_ok io_fails query_pipe fst].
  pose proof (put_consistent r (oup_id p) _ Hun C (upsert_fields p st Ho)) as Hp. cbn [owned] in Ho. by rewrite Ho in Hp.
Qed.

Lemma delete_consistent now r p : client_ids_unique -> consistent r ->
  consistent (apply_order_delete (io_ok now) r p).1.
Proof.
  intros Hun C. destruct (delete_index now r p C) as (Ha & Hsome & Hnone).
  assert (Hs : forall id, is_Some (rd_orders (apply_order_delete (io_ok now) r p).1 !! id) <->
    odp_id p <> id /\ is_Some (rd_orders r !! id)).
  { intros id. pose proof (apply_event_orders now r (Some (EvOrderDelete p)) id) as Hor.
    cbn [apply_event order_step] in Hor. rewrite Hor. destruct (decide _); [rewrite <- not_eq_None_Some|]; tauto. }
  assert (Hgone : rd_orders r !! odp_id p = None -> forall id, is_Some (rd_orders r !! id) -> odp_id p <> id).
  { intros Hn id Hid <-. rewrite Hn in Hid. by apply is_Some_None in Hid. }
  apply (indexed r); [done|..].
  - intros id h Hid. apply (order_step_own now r (Some (EvOrderDelete p)) id h C I). by rewrite <- apply_event_orders.
  - intros k. exact (apply_event_accounts now r (Some (EvOrderDelete p)) k).
  - intros id. rewrite Hs, Ha, elem_of_difference, elem_of_singleton, (co_active _ C). split; intros [? ?]; auto.
  - intros u id. rewrite Hs. destruct (rd_orders r !! odp_id p) as [h|] eqn:Hid.
    + rewrite (proj1 (Hsome ltac:(eauto))), elem_of_difference, elem_of_singleton, (co_user _ C). split.
      * intros [[Hi <-] Hne]. split; [|done]. split; [|done]. intros Heq. by apply Hne; rewrite Heq.
      * intros [[Hne Hi] <-]. split; [done|]. intros [= _ ->]. by apply Hne.
    + rewrite (proj1 (Hnone eq_refl)), (co_user _ C). pose proof (Hgone eq_refl id). tauto.
  - intros u c id. rewrite Hs. destruct (rd_orders r !! odp_id p) as [h|] eqn:Hid.
    + rewrite (proj2 (Hsome ltac:(eauto))). destruct (Nat.eqb_spec (length (own (odp_id p)).2) 0) as [Hz|Hz].
      * rewrite (co_coid _ C). apply length_zero_iff_nil in Hz. split; [|tauto]. intros (Hi & Ho & Hc).
        split; [|done]. split; [|done]. intros Heq. rewrite Heq, Ho in Hz. by apply Hc.
      * destruct (decide (own (odp_id p) = (u, c))) as [Heq|Hne].
        -- rewrite Heq, lookup_delete_eq. split; [done|]. intros ([Hne Hi] & Ho & Hc). exfalso. apply Hne.
           apply Hun; [congruence|by rewrite Heq].
        -- rewrite lookup_delete_ne by done. rewrite (co_coid _ C). split; [|tauto]. intros (Hi & Ho & Hc).
           split; [|done]. split; [|done]. intros Heq. apply Hne. by rewrite Heq.
    + rewrite (proj2 (Hnone eq_refl)), (co_coid _ C). pose proof (Hgone eq_refl id). tauto.
Qed.

Lemma fill_consistent now r p : consistent r -> consistent (apply_order_fill_update (io_ok now) r p).1.
Proof.
  intros C.
  assert (Hs : forall id, is_Some (rd_orders (apply_order_fill_update (io_ok now) r p).1 !! id) <-> is_Some (rd_orders r !! id)).
  { intros id. pose proof (apply_event_orders now r (Some (EvOrderFillUpdate p)) id) as Hor.
    cbn [apply_event order_step] in Hor. rewrite Hor. destruct (status_str _); [|done].
    destruct (decide _); [by rewrite fmap_is_Some|done]. }
  assert (Hi : let r' := (apply_order_fill_update (io_ok now) r p).1 in rd_active r' = rd_active r /\
    rd_user_orders r' = rd_user_orders r /\ rd_user_coid r' = rd_user_coid r).
  { unfold apply_order_fill_update. by repeat case_match. }
  destruct Hi as (Ha & Hu & Hc). apply (indexed r); [done|..].
  - intros id h Hid. apply (order_step_own now r (Some (EvOrderFillUpdate p)) id h C I). by rewrite <- apply_event_orders.
  - intros k. exact (apply_event_accounts now r (Some (EvOrderFillUpdate p)) k).
  - intros id. rewrite Hs, Ha. apply co_active, C.
  - intros u id. rewrite Hs, Hu. apply co_user, C.
  - intros u c id. rewrite Hs, Hc. apply co_coid, C.
Qed.

Lemma account_consistent now r p : consistent r -> consistent (apply_account_set (io_ok now) r p).1.
Proof.
  intros C. pose proof (apply_event_accounts now r (Some (EvAccountSet p))) as Hac. cbn [apply_event] in Hac.
  assert (Hi : let r' := (apply_account_set (io_ok now) r p).1 in rd_orders r' = rd_orders r /\ rd_active r' = rd_active r /\
    rd_user_orders r' = rd_user_orders r /\ rd_user_coid r' = rd_user_coid r).
  { unfold apply_account_set. by repeat case_match. }
  destruct Hi as (Ho & Ha & Hu & Hc). destruct C as [C1 C2 C3 C4 C5].
  split; rewrite ?Ho, ?Ha, ?Hu, ?Hc; try done. intros k h f. rewrite Hac.
  destruct (account_effect _) as [[k' [b z]]|]; [|apply C5]. destruct (decide (k' = k)); [|apply C5].
  intros Hh [v Hv]. apply (inj Some) in Hh as <-. rewrite hset_lookup in Hv. destruct (field (account_fields b z) f) eqn:Hf.
  - change (f ∈ (account_fields b z).*1). apply field_is_Some. by eexists.
  - destruct (rd_accounts r !! k) as [h0|] eqn:Hk; cbn in Hv; [|by rewrite lookup_empty in Hv].
    apply (C5 k h0); [done|by eexists].
Qed.

Lemma event_consistent now r e : client_ids_unique -> consistent r -> owned e ->
  consistent (apply_event (io_ok now) r e).1.
Proof.
  intros Hun C Ho. destruct e as [[p|p|p|p|p|p|p|p|p|p|p]|]; cbn [apply_event]; try done.
  - by apply upsert_consistent.
  - by apply delete_consistent.
  - by apply account_consistent.
  - by apply fill_consistent.
Qed.
End consistency.

(** ** What a run leaves behind *)

(** The frames of [q] on a connection that works, each at its own time. *)
Definition apply_all (r : Redis) (q : list (Z * PersistFrame)) : Redis :=
  foldl (fun r x => (apply_event (io_ok x.1) r (frame_event x.2)).1) r q.

(** A hash without the time of its last change, which is the writer's own. *)
Definition forget (h : hash) : hash := delete "updated_at_ms"%string h.

Definition order_written (id : Z) (f : PersistFrame) : option (option hash) :=
  match frame_event f with
  | Some (EvOrderUpsert p) =>
      st ← status_str (oup_status p);
      if decide (oup_id p = id) then Some (Some (hset_multiple ∅ (order_fields p st))) else None
  | Some (EvOrderDelete p) => if decide (odp_id p = id) then Some None else None
  | _ => None
  end.

Definition order_filled (id : Z) (f : PersistFrame) : option (list (string * value)) :=
  match frame_event f with
  | Some (EvOrderFillUpdate p) =>
      st ← status_str (ofu_status p);
      if decide (ofu_id p = id) then Some (fill_fields p st 0) else None
  | _ => None
  end.

Definition writes (id : Z) (f : PersistFrame) : bool := bool_decide (is_Some (order_written id f)).
Definition touches (id : Z) (f : PersistFrame) : bool := writes id f || bool_decide (is_Some (order_filled id f)).
Definition sets_account (k : Z * bytes) (f : PersistFrame) : bool :=
  bool_decide (fst <$> account_effect (frame_event f) = Some k).

(** The last frame of a list that a test selects. *)
Definition latest_of (P : PersistFrame -> bool) (fs : list PersistFrame) : option PersistFrame :=
  last (filter (fun f => P f = true) fs).

Lemma latest_of_snoc P fs f : latest_of P (fs ++ [f]) = if P f then Some f else latest_of P fs.
Proof.
  unfold latest_of. rewrite filter_app, filter_cons, filter_nil. destruct (P f) eqn:Hp.
  - rewrite decide_True by done. by rewrite last_snoc.
  - rewrite decide_False by done. by rewrite app_nil_r.
Qed.

Lemma latest_of_iff P Q fs : (forall f, f ∈ fs -> P f = true <-> Q f = true) -> latest_of P fs = latest_of Q fs.
Proof.
  induction fs as [|f fs IH] using rev_ind; [done|]. intros Hpq. rewrite !latest_of_snoc, IH by set_solver.
  specialize (Hpq f). destruct (P f), (Q f); try done; exfalso; set_solver.
Qed.

Lemma latest_of_split P l f k : P f = true -> (forall g, g ∈ k -> P g = false) -> latest_of P (l ++ f :: k) = Some f.
Proof.
  intros Hf. induction k as [|g k IH] using rev_ind; intros Hk; [by rewrite latest_of_snoc, Hf|].
  rewrite app_comm_cons, app_assoc, latest_of_snoc, Hk by set_solver. apply IH. set_solver.
Qed.

(** An order after a run: the last frame that wrote or dropped it, overlaid with
    the last fill when that came later. *)
Definition order_after (id : Z) (h : option hash) (fs : list PersistFrame) : option hash :=
  let base := match latest_of (writes id) fs ≫= order_written id with Some v => v | None => h end in
  match latest_of (touches id) fs ≫= order_filled id with
  | Some fields => (fun h => hset_multiple h fields) <$> base
  | None => base
  end.

Lemma forget_hset h fs : forget (hset_multiple (forget h) fs) = forget (hset_multiple h fs).
Proof.
  apply map_eq. intros k. unfold forget. destruct (decide ("updated_at_ms"%string = k)) as [<-|Hne]; [by rewrite !lookup_delete_eq|].
  rewrite !lookup_delete_ne by done. rewrite !hset_lookup. destruct (field fs k); [done|]. by rewrite lookup_delete_ne.
Qed.

Lemma forget_fill h p st n m : forget (hset_multiple h (fill_fields p st n)) = forget (hset_multiple h (fill_fields p st m)).
Proof.
  apply map_eq. intros k. unfold forget. destruct (decide ("updated_at_ms"%string = k)) as [<-|Hne]; [by rewrite !lookup_delete_eq|].
  rewrite !lookup_delete_ne by done. rewrite !hset_lookup. cbn.
  destruct (String.eqb_spec k "updated_at_ms"); [by subst|done].
Qed.

Lemma forget_congr fs h1 h2 : forget h1 = forget h2 -> forget (hset_multiple h1 fs) = forget (hset_multiple h2 fs).
Proof. intros Hf. rewrite <- (forget_hset h1), <- (forget_hset h2). by rewrite Hf. Qed.

(** A frame either writes an order, or fills it, or leaves it. *)
Lemma order_step_written now id h f v : order_written id f = Some v ->
  (forall h0 k, h = Some h0 -> is_Some (h0 !! k) -> k ∈ ORDER_FIELDS) ->
  order_step now id h (frame_event f) = v /\ order_filled id f = None.
Proof.
  unfold order_written, order_filled. intros Hw Hh. destruct (frame_event f) as [[p|p|p|p|p|p|p|p|p|p|p]|]; try done; cbn [order_step].
  - destruct (status_str _) as [st|]; [|done]. cbn [mbind option_bind] in Hw. destruct (decide _); [|done]. simplify_eq.
    split; [|done]. f_equal. apply hset_fresh. intros k Hk. change (k ∈ ORDER_FIELDS).
    destruct h as [h0|]; [by apply (Hh h0)|]. cbn in Hk. rewrite lookup_empty in Hk. by apply is_Some_None in Hk.
  - destruct (decide _); by simplify_eq.
Qed.

Lemma order_step_filled now id h f fl : order_filled id f = Some fl -> order_written id f = None /\
  fl.*1 = FILL_FIELDS /\
  forget <$> order_step now id h (frame_event f) = forget <$> ((fun h => hset_multiple h fl) <$> h).
Proof.
  unfold order_written, order_filled. intros Hw. destruct (frame_event f) as [[p|p|p|p|p|p|p|p|p|p|p]|]; try done; cbn [order_step].
  destruct (status_str _) as [st|]; [|done]. cbn [mbind option_bind] in Hw. destruct (decide _); [|done]. simplify_eq.
  split; [done|]. split; [done|]. destruct h as [h|]; [|done]. cbn. f_equal. apply forget_fill.
Qed.

Lemma order_step_other now id h f : order_written id f = None -> order_filled id f = None ->
  order_step now id h (frame_event f) = h.
Proof.
  unfold order_written, order_filled. destruct (frame_event f) as [[p|p|p|p|p|p|p|p|p|p|p]|]; try done; cbn [order_step].
  - destruct (status_str _) as [st|]; [|done]. cbn [mbind option_bind]. by destruct (decide _).
  - by destruct (decide _).
  - destruct (status_str _) as [st|]; [|done]. cbn [mbind option_bind]. by destruct (decide _).
Qed.

Lemma order_after_snoc now id h0 h fs f : forget <$> h = forget <$> order_after id h0 fs ->
  (forall h1 k, h = Some h1 -> is_Some (h1 !! k) -> k ∈ ORDER_FIELDS) ->
  forget <$> order_step now id h (frame_event f) = forget <$> order_after id h0 (fs ++ [f]).
Proof.
  intros IH Hh. unfold order_after in *. rewrite !latest_of_snoc. unfold touches, writes in *.
  destruct (order_written id f) as [v|] eqn:Hw.
  - destruct (order_step_written now id h f v Hw Hh) as [-> Hf]. cbn. by rewrite Hw, Hf.
  - rewrite (bool_decide_eq_false_2 (is_Some None)) by apply is_Some_None. rewrite orb_false_l.
    destruct (order_filled id f) as [fl|] eqn:Hf.
    + destruct (order_step_filled now id h f fl Hf) as (_ & Hn & ->). rewrite bool_decide_eq_true_2 by eauto.
      cbn [mbind option_bind]. rewrite Hf. set (base := match _ ≫= _ with Some v => v | None => h0 end) in *.
      destruct (latest_of _ fs ≫= order_filled id) as [fl'|] eqn:Hl.
      * assert (fl'.*1 = FILL_FIELDS) as Hn'.
        { apply bind_Some in Hl as (g & _ & Hl). by destruct (order_step_filled 0 id None g fl' Hl) as (_ & ? & _). }
        destruct h as [h|], base as [b|]; cbn [fmap option_fmap option_map] in *; simplify_eq; [|done]. f_equal.
        rewrite (forget_congr fl _ _ IH). f_equal. apply hset_covers. congruence.
      * destruct h as [h|], base as [b|]; cbn [fmap option_fmap option_map] in *; simplify_eq; [|done]. f_equal. by apply forget_congr.
    + rewrite bool_decide_eq_false_2 by apply is_Some_None. by rewrite order_step_other.
Qed.

Section run.
Context (own : Z -> Z * bytes).
Hypothesis Hun : client_ids_unique own.

Lemma apply_all_consistent r q : consistent own r -> Forall (fun f => owned own (frame_event f)) q.*2 ->
  consistent own (apply_all r q).
Proof.
  revert r. induction q as [|[now f] q IH]; intros r C; [done|]. intros [Ho Hq]%Forall_cons.
  apply IH; [|done]. by apply event_consistent.
Qed.

Lemma apply_all_snoc r q x : apply_all r (q ++ [x]) = (apply_event (io_ok x.1) (apply_all r q) (frame_event x.2)).1.
Proof. unfold apply_all. by rewrite foldl_app. Qed.

Lemma apply_all_order r q id : consistent own r -> Forall (fun f => owned own (frame_event f)) q.*2 ->
  forget <$> rd_orders (apply_all r q) !! id = forget <$> order_after id (rd_orders r !! id) q.*2.
Proof.
  intros C. induction q as [|[now f] q IH] using rev_ind; [done|]. rewrite fmap_app. intros [Hq Hf]%Forall_app.
  rewrite apply_all_snoc, apply_event_orders. cbn [fst snd fmap list_fmap]. apply order_after_snoc; [by apply IH|].
  intros h k Hh Hk. by apply (co_hash _ _ (apply_all_consistent r q C Hq) id h Hh).
Qed.

(** An account after a run: what the last frame on it says. *)
Lemma apply_all_account r q k : consistent own r -> Forall (fun f => owned own (frame_event f)) q.*2 ->
  rd_accounts (apply_all r q) !! k =
    match latest_of (sets_account k) q.*2 ≫= (fun f => account_effect (frame_event f)) with
    | Some (_, (b, f)) => Some (hset_multiple ∅ (account_fields b f))
    | None => rd_accounts r !! k
    end.
Proof.
  intros C. induction q as [|[now f] q IH] using rev_ind; [done|]. rewrite fmap_app. intros [Hq Hf]%Forall_app.
  rewrite apply_all_snoc, apply_event_accounts. cbn [fst snd fmap list_fmap]. rewrite latest_of_snoc. unfold sets_account at 1.
  destruct (account_effect (frame_event f)) as [[k' [b z]]|] eqn:He; [|by apply IH]. cbn [fmap option_fmap option_map fst].
  destruct (decide (k' = k)) as [->|Hne].
  - rewrite bool_decide_eq_true_2 by done. cbn [mbind option_bind]. rewrite He. f_equal. apply hset_fresh.
    intros n Hn. change (n ∈ ACCOUNT_FIELDS). destruct (rd_accounts (apply_all r q) !! k) as [h|] eqn:Hk.
    + by apply (co_account _ _ (apply_all_consistent r q C Hq) k h).
    + cbn in Hn. rewrite lookup_empty in Hn. by apply is_Some_None in Hn.
  - rewrite bool_decide_eq_false_2 by congruence. by apply IH.
Qed.

Lemma apply_all_assets r q k : k ∈ rd_user_assets (apply_all r q) <->
  k ∈ rd_user_assets r \/ is_Some (latest_of (sets_account k) q.*2).
Proof.
  induction q as [|[now f] q IH] using rev_ind; [split; [by left|by intros [?|[]]]|]. rewrite fmap_app.
  rewrite apply_all_snoc, apply_event_assets. cbn [fst snd fmap list_fmap]. rewrite latest_of_snoc, IH. unfold sets_account at 2.
  destruct (bool_decide _) eqn:Hb; [apply bool_decide_eq_true in Hb|apply bool_decide_eq_false in Hb].
  - split; [by eauto|]. by right.
  - tauto.
Qed.
End run.

(** ** Runs that end alike *)

(** What the store holds, but for the floors and the times of change. *)
Definition content (r : Redis) :=
  (forget <$> rd_orders r, rd_active r, rd_user_orders r, rd_accounts r, rd_user_assets r, rd_user_coid r).

Lemma consistent_indexes own r1 r2 : consistent own r1 -> consistent own r2 ->
  (forall id, is_Some (rd_orders r1 !! id) <-> is_Some (rd_orders r2 !! id)) ->
  rd_active r1 = rd_active r2 /\ rd_user_orders r1 = rd_user_orders r2 /\ rd_user_coid r1 = rd_user_coid r2.
Proof.
  intros C1 C2 Ho. split; [|split].
  - apply set_eq. intros id. rewrite (co_active _ _ C1), (co_active _ _ C2). apply Ho.
  - apply set_eq. intros [u id]. rewrite (co_user _ _ C1), (co_user _ _ C2). by rewrite Ho.
  - apply map_eq. intros [u c]. apply option_eq. intros id. rewrite (co_coid _ _ C1), (co_coid _ _ C2). by rewrite Ho.
Qed.

Lemma same_latest own r q1 q2 : client_ids_unique own -> consistent own r ->
  Forall (fun f => owned own (frame_event f)) q1.*2 -> Forall (fun f => owned own (frame_event f)) q2.*2 ->
  (forall id, latest_of (writes id) q1.*2 = latest_of (writes id) q2.*2) ->
  (forall id, latest_of (touches id) q1.*2 = latest_of (touches id) q2.*2) ->
  (forall k, latest_of (sets_account k) q1.*2 = latest_of (sets_account k) q2.*2) ->
  content (apply_all r q1) = content (apply_all r q2).
Proof.
  intros Hun C O1 O2 Hw Ht Ha.
  assert (Ho : forall id, forget <$> rd_orders (apply_all r q1) !! id = forget <$> rd_orders (apply_all r q2) !! id).
  { intros id. rewrite !(apply_all_order own) by done. unfold order_after. by rewrite Hw, Ht. }
  destruct (consistent_indexes own (apply_all r q1) (apply_all r q2)) as (E1 & E2 & E3);
    [by apply apply_all_consistent..| |].
  { intros id. rewrite <- (fmap_is_Some forget), Ho, fmap_is_Some. done. }
  assert (E4 : forget <$> rd_orders (apply_all r q1) = forget <$> rd_orders (apply_all r q2)).
  { apply map_eq. intros id. by rewrite !lookup_fmap. }
  assert (E5 : rd_accounts (apply_all r q1) = rd_accounts (apply_all r q2)).
  { apply map_eq. intros k. rewrite !(apply_all_account own) by done. by rewrite Ha. }
  assert (E6 : rd_user_assets (apply_all r q1) = rd_user_assets (apply_all r q2)).
  { apply set_eq. intros k. by rewrite !apply_all_assets, Ha. }
  unfold content. by rewrite E1, E2, E3, E4, E5, E6.
Qed.

(** ** The writer over a journal *)

Section journal.
Context (J : list PersistFrame) (HJ : journal J).

Definition floor_of (floors : gmap Z Z) (p : Z) : Z := default 0 (floors !! p).

(** The archive and the live stream together deliver every frame of a publisher
    after the floor before any later one; duplicates may occur anywhere. *)
Definition deliverable (floors : gmap Z Z) (f : PersistFrame) : Prop :=
  f ∈ J /\ forall g, g ∈ J -> pf_publisher_id g = pf_publisher_id f -> pf_seq g < pf_seq f ->
    pf_seq g <= floor_of floors (pf_publisher_id f).

(** A catch-up on a connection that works. *)
Fixpoint fed (s : Redis * gmap Z Z) (frames : list (Io * PersistFrame)) : Prop :=
  match frames with
  | [] => True
  | (io, f) :: frames =>
      (exists now, io = io_ok now) /\ deliverable s.2 f /\
      forall r floors out, take_frame io s.1 s.2 f = Some (r, floors, out) -> fed (r, floors) frames
  end.

(** What can happen to a writer whose Redis answers: a frame, the timer, a
    restart with its catch-up, and a crash in the middle of one. *)
Inductive rw_step : redis_writer -> redis_writer -> Prop :=
| rw_frame now w f w' : deliverable (rw_floors w) f -> on_frame (io_ok now) w f = Some w' -> rw_step w w'
| rw_timer due replies w : rw_step w (checkpoint due replies w)
| rw_restart archive w w' :
    fed (rw_redis w, loaded_floors true (rw_redis w)) (concat (default [] archive)) ->
    go_live archive true true true (rw_redis w) = Some w' -> rw_step w w'
| rw_crash frames w s :
    fed (rw_redis w, loaded_floors true (rw_redis w)) frames ->
    catch_up frames (rw_redis w, loaded_floors true (rw_redis w)) = Some s ->
    rw_step w (start_live true s.1).

(** The frames of a publisher up to a sequence number that a test selects. *)
Definition upto_floor (p : Z) (P : PersistFrame -> bool) (s : Z) (f : PersistFrame) : bool :=
  bool_decide (pf_publisher_id f = p) && P f && Z.leb (pf_seq f) s.

(** The invariant: the store is the image of the frames [q], and up to the floor
    of each publisher the last frame of any kind in [q] is the journal's. *)
Record replayed (r0 r : Redis) (floors : gmap Z Z) : Prop := mkReplayed {
  rp_frames : exists q, Forall (fun f => f ∈ J) q.*2 /\
    Redis.set_floors r ∅ = Redis.set_floors (apply_all r0 q) ∅ /\
    forall p P, latest_of (upto_floor p P (floor_of floors p)) q.*2 = latest_of (upto_floor p P (floor_of floors p)) J;
  rp_stored p : floor_of (rd_floors r) p <= floor_of floors p;
}.

Lemma upto_iff p P s f : upto_floor p P s f = true <-> pf_publisher_id f = p /\ P f = true /\ pf_seq f <= s.
Proof. unfold upto_floor. rewrite !andb_true_iff, bool_decide_eq_true, Z.leb_le. tauto. Qed.

(** A lower floor asks less. *)
Lemma replays_lower q floors floors' : (forall p, floor_of floors' p <= floor_of floors p) ->
  (forall p P, latest_of (upto_floor p P (floor_of floors p)) q = latest_of (upto_floor p P (floor_of floors p)) J) ->
  forall p P, latest_of (upto_floor p P (floor_of floors' p)) q = latest_of (upto_floor p P (floor_of floors' p)) J.
Proof.
  intros Hle Hq p P. specialize (Hq p (fun f => P f && Z.leb (pf_seq f) (floor_of floors' p))).
  rewrite !(latest_of_iff (upto_floor p P _) (upto_floor p (fun f => P f && Z.leb (pf_seq f) (floor_of floors' p)) (floor_of floors p)));
    [done|..]; intros f _; rewrite !upto_iff, andb_true_iff, Z.leb_le; specialize (Hle p); naive_solver lia.
Qed.

(** Two frames of a publisher with one number are one frame, and the later in the
    journal has the higher number. *)
Lemma journal_later l f k g : J = l ++ f :: k -> g ∈ k -> pf_publisher_id g = pf_publisher_id f -> pf_seq f < pf_seq g.
Proof.
  intros Hl Hg Hp. pose proof (j_sorted _ HJ (pf_publisher_id f)) as Hs. rewrite Hl, filter_app in Hs.
  apply StronglySorted_app_1_r in Hs. rewrite filter_cons, decide_True in Hs by done.
  apply StronglySorted_inv in Hs as [_ Hs]. rewrite Forall_forall in Hs. apply Hs. by apply list_elem_of_filter.
Qed.

Lemma journal_unique f g : f ∈ J -> g ∈ J -> pf_publisher_id g = pf_publisher_id f -> pf_seq g = pf_seq f -> g = f.
Proof.
  intros (l & k & Hl)%list_elem_of_split Hg Hp Hs. rewrite Hl in Hg. apply elem_of_app in Hg as [Hg|Hg].
  - apply list_elem_of_split in Hg as (l1 & l2 & ->). rewrite <- app_assoc in Hl. cbn in Hl.
    assert (pf_seq g < pf_seq f); [|lia]. eapply journal_later; [exact Hl|set_solver|done].
  - apply elem_of_cons in Hg as [->|Hg]; [done|]. pose proof (journal_later l f k g Hl Hg Hp). lia.
Qed.

(** In the journal a frame is the last of its publisher up to its own number. *)
Lemma journal_last f P : f ∈ J -> P f = true ->
  latest_of (upto_floor (pf_publisher_id f) P (pf_seq f)) J = Some f.
Proof.
  intros (l & k & Hl)%list_elem_of_split HP. rewrite Hl. apply latest_of_split; [by apply upto_iff|].
  intros g Hg. apply not_true_is_false. intros (Hp & _ & Hs)%upto_iff.
  pose proof (journal_later l f k g Hl Hg Hp). lia.
Qed.

(** Applying the next frame keeps the invariant at its number. *)
Lemma replays_next q floors f : Forall (fun f => f ∈ J) q -> deliverable floors f -> 
  floor_of floors (pf_publisher_id f) < pf_seq f ->
  (forall p P, latest_of (upto_floor p P (floor_of floors p)) q = latest_of (upto_floor p P (floor_of floors p)) J) ->
  let floors' := <[pf_publisher_id f := pf_seq f]> floors in
  forall p P, latest_of (upto_floor p P (floor_of floors' p)) (q ++ [f]) = latest_of (upto_floor p P (floor_of floors' p)) J.
Proof.
  intros Hq [Hf Hd] Hlt Hinv floors' p P. rewrite latest_of_snoc. unfold floors', floor_of.
  destruct (decide (pf_publisher_id f = p)) as [<-|Hne].
  - rewrite lookup_insert_eq. cbn [from_option id]. destruct (P f) eqn:HP.
    + rewrite (proj2 (upto_iff _ _ _ _)) by done. by rewrite journal_last.
    + rewrite (not_true_is_false (upto_floor _ _ _ f)) by (intros (_ & ? & _)%upto_iff; congruence).
      assert (Hsame : forall g, g ∈ J -> upto_floor (pf_publisher_id f) P (pf_seq f) g = true <->
        upto_floor (pf_publisher_id f) P (floor_of floors (pf_publisher_id f)) g = true).
      { intros g Hg. rewrite !upto_iff. split; intros (Hp & HPg & Hs); (split; [done|split; [done|]]); [|lia].
        destruct (decide (pf_seq g = pf_seq f)) as [Heq|]; [|apply Hd; [done..|lia]].
        apply (journal_unique f g Hf Hg Hp) in Heq. congruence. }
      rewrite (latest_of_iff _ _ J Hsame), <- Hinv. apply latest_of_iff. intros g Hg. apply Hsame. by apply (proj1 (Forall_forall _ q) Hq).
  - rewrite lookup_insert_ne by done. rewrite (not_true_is_false (upto_floor _ _ _ f)) by (intros (? & _)%upto_iff; congruence).
    apply Hinv.
Qed.

(** ** The writer's steps keep the invariant *)

Definition convertible (e : option persist_event) : Prop :=
  match e with
  | Some (EvAccountSet p) => is_Some (legacy_atoms (asp_balance_atoms p) (asp_balance p)) /\
                             is_Some (legacy_atoms (asp_frozen_atoms p) (asp_frozen p))
  | _ => True
  end.

Lemma apply_event_ok now r e : convertible e -> (apply_event (io_ok now) r e).2 = true.
Proof.
  destruct e as [[p|p|p|p|p|p|p|p|p|p|p]|]; cbn [apply_event convertible]; try done.
  - unfold apply_order_upsert. by case_match.
  - intros [[b Hb] [f Hf]]. unfold apply_account_set. rewrite Hb, Hf. by case_match.
  - unfold apply_order_fill_update. by repeat case_match.
Qed.

Context (Hconv : Forall (fun f => convertible (frame_event f)) J) (r0 : Redis).

Lemma set_floors_eq r1 r2 e now : Redis.set_floors r1 ∅ = Redis.set_floors r2 ∅ ->
  Redis.set_floors (apply_event (io_ok now) r1 e).1 ∅ = Redis.set_floors (apply_event (io_ok now) r2 e).1 ∅.
Proof.
  intros Heq. destruct (apply_event_floors (io_ok now) r1 e ∅) as [H1 _], (apply_event_floors (io_ok now) r2 e ∅) as [H2 _].
  rewrite Heq, H2 in H1. exact (eq_sym (f_equal fst H1)).
Qed.

Lemma take_replayed now r floors f r' floors' out : replayed r0 r floors -> deliverable floors f ->
  take_frame (io_ok now) r floors f = Some (r', floors', out) -> replayed r0 r' floors'.
Proof.
  intros [(q & Hq & Hr & Hl) Hst] Hd. pose proof (proj1 Hd) as Hf. unfold take_frame.
  assert (Hs : 1 <= pf_seq f) by (pose proof (proj1 (Forall_forall _ J) (j_seq _ HJ) f Hf); cbn in *; lia).
  assert (Ht : well_typed f) by (by apply (proj1 (Forall_forall _ J) (j_typed _ HJ) f Hf)).
  rewrite (proj2 (Z.eqb_neq (pf_seq f) 0)) by lia. cbn [negb andb].
  destruct (Z.leb_spec (pf_seq f) (default 0 (floors !! pf_publisher_id f))) as [Hle|Hgt].
  { intros [= <- <- <-]. split; [by exists q|done]. }
  rewrite (apply_frame_event _ _ _ Ht). cbn [mbind option_bind].
  pose proof (apply_event_ok now r (frame_event f) (proj1 (Forall_forall _ J) Hconv f Hf)) as Hok.
  pose proof (proj2 (apply_event_floors (io_ok now) r (frame_event f) ∅)) as Hfl.
  pose proof (set_floors_eq _ _ (frame_event f) now Hr) as Hr'.
  destruct (apply_event (io_ok now) r (frame_event f)) as [r1 ok]. cbn [fst snd] in *. subst ok. intros [= <- <- <-].
  split.
  - exists (q ++ [(now, f)]). rewrite fmap_app. split; [by apply Forall_app_2; [|by constructor]|]. split.
    + by rewrite apply_all_snoc.
    + by apply (replays_next q.*2).
  - intros p. rewrite Hfl. etransitivity; [apply Hst|]. unfold floor_of. destruct (decide (pf_publisher_id f = p)) as [<-|].
    + rewrite lookup_insert_eq. cbn [from_option id]. lia.
    + by rewrite lookup_insert_ne.
Qed.

Lemma catch_up_replayed frames s s' : replayed r0 s.1 s.2 -> fed s frames -> catch_up frames s = Some s' ->
  replayed r0 s'.1 s'.2.
Proof.
  revert s. induction frames as [|[io f] frames IH]; intros s Hr; cbn.
  - by intros _ [= <-].
  - intros ([now ->] & Hd & Hfed) ([r floors] & Ht & Hc)%bind_Some.
    apply bind_Some in Ht as ([[r1 floors1] out] & Ht & [= <- <-]).
    apply (IH (r1, floors1)); [by eapply take_replayed|by eapply Hfed|done].
Qed.

Lemma reload_replayed r floors : replayed r0 r floors -> replayed r0 r (rd_floors r).
Proof.
  intros [(q & Hq & Hr & Hl) Hst]. split; [|done]. exists q. split; [done|]. split; [done|]. by eapply replays_lower.
Qed.

Lemma store_replayed ok r floors : replayed r0 r floors -> replayed r0 (store_persist_floors ok r floors).1 floors.
Proof.
  intros [(q & Hq & Hr & Hl) Hst]. unfold store_persist_floors. destruct (decide _); [by split; [exists q|]|].
  destruct ok; [|by split; [exists q|]]. cbn [fst]. split; [by exists q|].
  intros p. specialize (Hst p). unfold floor_of in *. cbn. rewrite lookup_union.
  destruct (floors !! p), (rd_floors r !! p); cbn in *; lia.
Qed.

Lemma catch_up_concat recordings s :
  mfold (fun s frames => catch_up frames s) s recordings = catch_up (concat recordings) s.
Proof.
  revert s. induction recordings as [|frames rs IH]; intros s; cbn; [done|]. unfold catch_up at 2. rewrite mfold_app.
  fold (catch_up frames s). destruct (catch_up frames s) as [s1|]; [|done]. cbn. apply IH.
Qed.

Lemma rw_step_replayed w w' : rw_step w w' -> replayed r0 (rw_redis w) (rw_floors w) ->
  replayed r0 (rw_redis w') (rw_floors w').
Proof.
  intros Hs Hr. destruct Hs as [now w f w' Hd Hf|due replies w|archive w w' Hfed Hg|frames w s Hfed Hc].
  - apply bind_Some in Hf as ([[r1 floors1] out] & Ht & [= <-]). apply (take_replayed _ _ _ _ _ _ _ Hr Hd) in Ht.
    by destruct out.
  - unfold checkpoint. destruct (_ && _); [|done]. pose proof (store_replayed replies _ _ Hr) as Hs.
    by destruct (store_persist_floors _ _ _) as [r ok].
  - unfold go_live in Hg. destruct archive as [recordings|]; [|injection Hg as <-; by eapply reload_replayed].
    apply bind_Some in Hg as ([r floors] & Hc & [= <-]). rewrite catch_up_concat in Hc.
    apply (catch_up_replayed _ _ _) in Hc; [|by eapply reload_replayed|done].
    eapply reload_replayed. by apply store_replayed.
  - apply catch_up_replayed in Hc; [|by eapply reload_replayed|done]. by eapply reload_replayed.
Qed.
End journal.

(** ** Convergence *)

Definition caught_up (J : list PersistFrame) (w : redis_writer) : Prop :=
  forall f, f ∈ J -> pf_seq f <= floor_of (rw_floors w) (pf_publisher_id f).

(** The frames on one order, and those on one account, come from one publisher. *)
Definition one_publisher (J : list PersistFrame) : Prop :=
  (forall f g id, f ∈ J -> g ∈ J -> touches id f = true -> touches id g = true -> pf_publisher_id f = pf_publisher_id g) /\
  (forall f g k, f ∈ J -> g ∈ J -> sets_account k f = true -> sets_account k g = true -> pf_publisher_id f = pf_publisher_id g).

(** One pass over the journal on a connection that works. *)
Definition one_pass (now : Z) (r : Redis) (J : list PersistFrame) : option Redis :=
  mfold (fun r f => '(r, _) ← apply_frame (io_ok now) r f; Some r) r J.

Lemma one_pass_all now r J : Forall well_typed J -> one_pass now r J = Some (apply_all r ((fun f => (now, f)) <$> J)).
Proof.
  unfold one_pass. revert r. induction J as [|f J IH]; intros r; [done|]. intros [Hf HJ]%Forall_cons. cbn [mfold].
  rewrite apply_frame_event by done. cbn [mbind option_bind]. rewrite (surjective_pairing (apply_event _ _ _)).
  cbn [mbind option_bind]. by rewrite IH.
Qed.

(** When one publisher sends every frame a test selects, the writer that caught
    up last applied the one the journal has last. *)
Lemma latest_caught_up J q floors (P : PersistFrame -> bool) : Forall (fun f => f ∈ J) q ->
  (forall f, f ∈ J -> pf_seq f <= floor_of floors (pf_publisher_id f)) ->
  (forall p P, latest_of (upto_floor p P (floor_of floors p)) q = latest_of (upto_floor p P (floor_of floors p)) J) ->
  (forall f g, f ∈ J -> g ∈ J -> P f = true -> P g = true -> pf_publisher_id f = pf_publisher_id g) ->
  latest_of P q = latest_of P J.
Proof.
  intros Hq Hc Hl Hone. assert (Hq' : forall f, f ∈ q -> f ∈ J) by (by apply Forall_forall).
  destruct (decide (Exists (fun f => P f = true) J)) as [(f & Hf & HP)%Exists_exists|Hno].
  - assert (Hs : forall g, g ∈ J -> P g = true <-> upto_floor (pf_publisher_id f) P (floor_of floors (pf_publisher_id f)) g = true).
    { intros g Hg. rewrite upto_iff. split; [|tauto]. intros HPg. rewrite (Hone f g) by done. auto. }
    rewrite (latest_of_iff P _ J Hs), (latest_of_iff P _ q (fun g Hg => Hs g (Hq' g Hg))). apply Hl.
  - assert (Hs : forall g, g ∈ J -> P g = true <-> false = true).
    { intros g Hg. split; [|done]. intros HP. destruct Hno. apply Exists_exists. by exists g. }
    rewrite (latest_of_iff P (fun _ => false) J Hs), (latest_of_iff P (fun _ => false) q (fun g Hg => Hs g (Hq' g Hg))).
    assert (Hn : forall l, latest_of (fun _ => false) l = None).
    { intros l. induction l as [|x l IH] using rev_ind; [done|]. by rewrite latest_of_snoc. }
    by rewrite !Hn.
Qed.

Lemma start_replayed J r0 : journal J -> rd_floors r0 = ∅ -> replayed J r0 r0 (rd_floors r0).
Proof.
  intros HJ H0. split; [|done]. rewrite H0. exists []. split; [constructor|]. split; [done|]. intros p P.
  assert (Hn : forall l, Forall (fun f => 1 <= pf_seq f <= i64_max) l -> latest_of (upto_floor p P (floor_of ∅ p)) l = None).
  { intros l. induction l as [|x l IH] using rev_ind; [done|]. intros [Hl Hx]%Forall_app. rewrite latest_of_snoc, IH by done.
    rewrite (not_true_is_false (upto_floor _ _ _ x)); [done|]. intros (_ & _ & Hs)%upto_iff. unfold floor_of in Hs. rewrite lookup_empty in Hs.
    cbn in Hs. inversion Hx; subst. lia. }
  by rewrite (Hn J (j_seq _ HJ)).
Qed.

Section converge.
Context (J : list PersistFrame) (own : Z -> Z * bytes) (r0 : Redis).

(** What the publishers promise: a journal in order, each order and each account
    from one of them, an order always under its owner, a client's id never
    twice, and amounts that convert. *)
Record sound_journal : Prop := {
  sj_journal : journal J;
  sj_unique : client_ids_unique own;
  sj_owned : Forall (fun f => owned own (frame_event f)) J;
  sj_convertible : Forall (fun f => convertible (frame_event f)) J;
  sj_publisher : one_publisher J;
}.

Lemma reachable_replayed w : sound_journal -> rd_floors r0 = ∅ ->
  rtc (rw_step J) (start_live true r0) w -> replayed J r0 (rw_redis w) (rw_floors w).
Proof.
  intros S H0 Hr. assert (Hi : replayed J r0 (rw_redis (start_live true r0)) (rw_floors (start_live true r0))).
  { apply start_replayed; [apply S|done]. }
  revert Hi. induction Hr as [w|w1 w2 w3 Hs _ IH]; [done|]. intros Hi. apply IH.
  eapply rw_step_replayed; [apply S|apply S|exact Hs|exact Hi].
Qed.

End converge.

(** ** Concrete runs *)

Definition demo_stamp (f : option PersistFrame) (seq : Z) : PersistFrame :=
  PersistFrame.stamp (default PersistFrame.zero f) 3 seq.
(** An order of user 1 under the client's id ["a"]. *)
Definition demo_upsert (id seq : Z) : PersistFrame :=
  demo_stamp (PersistFrame.order_upsert (mkOrderUpsertPayload id 1 (pack_str 16 (str "BTC_USDT")) 0 0 (zeros 6)
    (pack_str 16 (str "limit")) 0 0 0 0 (pack_str 32 (str "a")) 1000)) seq.
Definition demo_fill (id seq : Z) : PersistFrame :=
  demo_stamp (PersistFrame.order_fill_update (mkOrderFillUpdatePayload id 0 1 (zeros 7))) seq.
Definition demo_account (seq : Z) : PersistFrame :=
  demo_stamp (PersistFrame.account_set (mkAccountSetPayload 1 (pack_str 16 (str "USDT")) 0 0 500 20)) seq.
Definition demo_drop (id seq : Z) : PersistFrame :=
  demo_stamp (PersistFrame.order_delete (mkOrderDeletePayload id)) seq.

Definition demo_frames : list PersistFrame := [demo_upsert 7 1; demo_fill 7 2; demo_account 3; demo_drop 7 4].
Definition demo_own (id : Z) : Z * bytes := if Z.eqb id 7 then (1, str "a") else (0, []).

Lemma demo_sound : sound_journal demo_frames demo_own.
Proof.
  assert (Hp : forall f, f ∈ demo_frames -> pf_publisher_id f = 3).
  { intros f Hf%list_elem_of_In. cbn [demo_frames In] in Hf. by destruct Hf as [<-|[<-|[<-|[<-|[]]]]]. }
  let fs := eval vm_compute in demo_frames in assert (E : demo_frames = fs) by (vm_compute; reflexivity).
  split.
  - split.
    + rewrite E. do 4 (apply Forall_cons_2; [typed_record|]). by apply Forall_nil.
    + rewrite E. do 4 (apply Forall_cons_2; [vm_compute; intuition congruence|]). by apply Forall_nil.
    + intros p. rewrite E, !filter_cons, filter_nil. unfold from. cbn [pf_publisher_id].
      destruct (decide (3 = p)); repeat constructor.
  - intros i j. unfold demo_own. destruct (Z.eqb_spec i 7), (Z.eqb_spec j 7); cbn; intros; simplify_eq; done.
  - rewrite E. do 4 (apply Forall_cons_2; [by vm_compute|]). by apply Forall_nil.
  - rewrite E. do 4 (apply Forall_cons_2; [vm_compute; eauto|]). by apply Forall_nil.
  - split; intros f g x Hf Hg _ _; by rewrite (Hp f), (Hp g).
Qed.

Lemma demo_consistent own : consistent own Redis.empty.
Proof.
  assert (Hn : forall A, ~ is_Some (None : option A)) by (intros A; apply is_Some_None).
  split; intros *; cbn; rewrite ?lookup_empty; try done; (split; [set_solver|]); intros Hx; exfalso; eapply Hn; apply Hx.
Qed.

Lemma deliverable_check J floors f : f ∈ J ->
  forallb (fun g => negb (Z.eqb (pf_publisher_id g) (pf_publisher_id f) && Z.ltb (pf_seq g) (pf_seq f))
                    || Z.leb (pf_seq g) (floor_of floors (pf_publisher_id f))) J = true -> deliverable J floors f.
Proof.
  intros Hf Hall. split; [done|]. intros g Hg Hp Hs. rewrite forallb_forall in Hall.
  specialize (Hall g ltac:(by apply list_elem_of_In)).
  rewrite (proj2 (Z.eqb_eq _ _) Hp), (proj2 (Z.ltb_lt _ _) Hs) in Hall. cbn in Hall. lia.
Qed.

Definition demo_step (w : redis_writer) (f : PersistFrame) : redis_writer := default w (on_frame (io_ok 5) w f).

Lemma demo_frame_ok w f : f ∈ demo_frames ->
  forallb (fun g => negb (Z.eqb (pf_publisher_id g) (pf_publisher_id f) && Z.ltb (pf_seq g) (pf_seq f))
                    || Z.leb (pf_seq g) (floor_of (rw_floors w) (pf_publisher_id f))) demo_frames = true ->
  bool_decide (is_Some (on_frame (io_ok 5) w f)) = true -> rw_step demo_frames w (demo_step w f).
Proof.
  intros Hf Hd [w' Hw]%bool_decide_eq_true. unfold demo_step. rewrite Hw. apply (rw_frame _ 5 w f w'); [|done].
  by apply deliverable_check.
Qed.

(** The four frames, with a checkpoint after two; a crash, the first two frames
    of the replay; another crash, and the whole journal. *)
Definition demo_w1 : redis_writer :=
  checkpoint true true (foldl demo_step (start_live true Redis.empty) [demo_upsert 7 1; demo_fill 7 2]).
Definition demo_w2 : redis_writer := foldl demo_step demo_w1 [demo_account 3; demo_drop 7 4].
Definition demo_w3 : redis_writer := demo_step (start_live true (rw_redis demo_w2)) (demo_account 3).
Definition demo_w4 : redis_writer := foldl demo_step (start_live true (rw_redis demo_w3)) demo_frames.

Ltac demo_frame := eapply rtc_r; [|apply demo_frame_ok; [apply list_elem_of_In; cbn; tauto|vm_compute; reflexivity..]].
Ltac demo_restart := eapply rtc_r; [|by apply (rw_restart _ None)].

Lemma demo_life : rtc (rw_step demo_frames) (start_live true Redis.empty) demo_w4.
Proof.
  unfold demo_w4, demo_w3, demo_w2, demo_w1, demo_frames at 2. cbn [foldl].
  do 4 demo_frame. demo_restart. demo_frame. demo_restart. do 2 demo_frame.
  eapply rtc_r; [|apply rw_timer]. do 2 demo_frame. apply rtc_refl.
Qed.


(** ** Where it does not converge *)

Definition bad_io (read : bool) (fails : option nat) : Io := mkIo read fails (Some 5).
Definition demo_step_io (io : Io) (w : redis_writer) (f : PersistFrame) : redis_writer := default w (on_frame io w f).

(** A frame whose pipeline fails is logged and left; the next one moves the floor
    past it, and its redelivery is a duplicate. *)
Lemma failed_frame_lost :
  let w := demo_step_io (bad_io true (Some 0%nat)) (start_live true Redis.empty) (demo_upsert 7 1) in
  let w := checkpoint true true (demo_step w (demo_account 2)) in
  let w := demo_step (start_live true (rw_redis w)) (demo_upsert 7 1) in
  (rw_duplicates w, elements (rd_active (rw_redis w)), floor_of (rd_floors (rw_redis w)) 3) = (1, [], 2).
Proof. vm_compute. reflexivity. Qed.

(** A start that could not read the floors begins at zero; when it crashes before
    its first checkpoint, the old floor hides that the replay was not finished:
    a deleted order is back and stays. *)
Lemma failed_load_resurrects :
  let w := foldl demo_step (start_live true Redis.empty) [demo_upsert 7 1; demo_drop 7 2] in
  let r := rw_redis (checkpoint true true w) in
  let r := rw_redis (demo_step (start_live false r) (demo_upsert 7 1)) in
  let w := foldl demo_step (start_live true r) [demo_upsert 7 1; demo_drop 7 2] in
  (rw_duplicates w, elements (rd_active (rw_redis w))) = (2, [7]).
Proof. vm_compute. reflexivity. Qed.

(** A delete whose first read fails reports success and leaves the user's index;
    so does one that fails after its first command.  Once the hash is gone no
    redelivery can find the owner. *)
Lemma blind_delete_leaks :
  let w := demo_step (start_live true Redis.empty) (demo_upsert 7 1) in
  let blind := demo_step_io (bad_io false None) w (demo_drop 7 2) in
  let cut := demo_step_io (bad_io true (Some 1%nat)) w (demo_drop 7 2) in
  (rw_applied blind, elements (rd_user_orders (rw_redis (demo_step blind (demo_drop 7 3))))) = (2, [(1, 7)]) /\
  (rw_applied cut, elements (rd_user_orders (rw_redis (demo_step cut (demo_drop 7 2))))) = (1, [(1, 7)]).
Proof. vm_compute. done. Qed.

(** The delete of an order removes the client's id also when it names a newer
    order by now. *)
Lemma delete_unmaps_reused_id :
  let w := foldl demo_step (start_live true Redis.empty) [demo_upsert 7 1; demo_upsert 8 2; demo_drop 7 3] in
  (elements (rd_active (rw_redis w)), rd_user_coid (rw_redis w) !! (1, str "a")) = ([8], None).
Proof. vm_compute. reflexivity. Qed.

(** The purge pairs the assets it read with a list of users that it extended and
    iterated anew: an account survives, because its asset was paired with
    another user. *)
Lemma purge_keeps_account :
  let order u := hset_multiple ∅ [("user_id"%string, VInt u)] in
  let r := mkRedis {[7 := order 2]} {[7]} {[(2, 7)]} {[(1, str "USDT") := hset_multiple ∅ (account_fields 500 0)]}
             {[(1, str "USDT")]} ∅ ∅ in
  let '(r', ok) := purge_all (mkPurgeIo true true true true None) r in
  (ok, elements (rd_active r'), fst <$> map_to_list (rd_accounts r')) = (true, [], [(1, str "USDT")]).
Proof. vm_compute. reflexivity. Qed.
