(* ===== verification/Reconcile.v ===== *)
(** The reconciliation sweeps ([src/src/desk/reconcile.rs]) over the tables of
    [PgTables.v] and the store of [RedisStore.v].  Postgres and Redis are
    written by two processes from one stream of frames, each with its own
    batching, floors and restarts; the main theorem is that the comparison of
    their accounts is clean once both have caught up. *)
From Stdlib Require Import ZArith Lia String.
From stdpp Require Import base numbers list gmap strings relations sorting.
From S2P Require Import Prelude Bytes Fixed Pod Types F64 Text Money Sbe PersistEvent RiskEngine PgStore PgWriter PgTables RedisStore RedisProps RedisWriter.

#[local] Open Scope Z_scope.

(** ** Postgres against Redis *)

Record CrossStoreMismatch := mkCrossStoreMismatch {
  cm_user_id : Z;
  cm_asset : bytes;
  cm_pg_balance_atoms : Z;
  cm_pg_frozen_atoms : Z;
  cm_redis_balance_atoms : option Z;
  cm_redis_frozen_atoms : option Z;
}.

Record CrossStoreReport := mkCrossStoreReport {
  cr_compared : Z;
  cr_missing_in_redis : Z;
  cr_mismatched_total : Z;
  cr_mismatched : list CrossStoreMismatch;
}.

Module CrossStoreReport.
Definition default : CrossStoreReport := mkCrossStoreReport 0 0 0 [].
Definition is_clean (x : CrossStoreReport) : bool :=
  Z.eqb (cr_missing_in_redis x) 0 && Z.eqb (cr_mismatched_total x) 0.
End CrossStoreReport.

(** One row of the sweep; [replies] is whether the [HGET] is answered. *)
Definition compare_account (replies : Z * bytes -> bool) (r : Redis) (report : CrossStoreReport)
    (row : Z * bytes * Z * Z) : CrossStoreReport :=
  let '(user_id, asset, pg_balance_atoms, pg_frozen_atoms) := row in
  let compared := cr_compared report + 1 in
  let h := if replies (user_id, asset) then default ∅ (rd_accounts r !! (user_id, asset)) else ∅ in
  let redis_balance := get_i64 h "balance_atoms" in
  let redis_frozen := get_i64 h "frozen_atoms" in
  match redis_balance, redis_frozen with
  | None, None =>
      let missing := if negb (Z.eqb pg_balance_atoms 0) || negb (Z.eqb pg_frozen_atoms 0) then 1 else 0 in
      mkCrossStoreReport compared (cr_missing_in_redis report + missing) (cr_mismatched_total report) (cr_mismatched report)
  | _, _ =>
      let rb := default 0 redis_balance in
      let rf := default 0 redis_frozen in
      if negb (Z.eqb rb pg_balance_atoms) || negb (Z.eqb rf pg_frozen_atoms) then
        mkCrossStoreReport compared (cr_missing_in_redis report) (cr_mismatched_total report + 1)
          (if Nat.ltb (length (cr_mismatched report)) 100
           then cr_mismatched report ++ [mkCrossStoreMismatch user_id asset pg_balance_atoms pg_frozen_atoms redis_balance redis_frozen]
           else cr_mismatched report)
      else mkCrossStoreReport compared (cr_missing_in_redis report) (cr_mismatched_total report) (cr_mismatched report)
  end.

(** [rows] is the answer of the query: rows of the table [accounts] that were
    not updated lately, [None] when the server refuses it. *)
Definition check_pg_redis_accounts (rows : option (list (Z * bytes * Z * Z))) (replies : Z * bytes -> bool)
    (r : Redis) : option CrossStoreReport :=
  rows ← rows; Some (foldl (compare_account replies r) CrossStoreReport.default rows).

(** ** Postgres against itself *)

Section tables.
Context `{Chrono}.

Record PositionReport := mkPositionReport {
  pr_net_violations : list (bytes * Z);
  pr_margin_mismatches : list (Z * Z * Z);
}.

Definition position_is_clean (x : PositionReport) : bool :=
  match pr_net_violations x, pr_margin_mismatches x with [], [] => true | _, _ => false end.

(** [SUM(CASE side WHEN 'long' THEN qty_lots ELSE -qty_lots END)] of a symbol *)
Definition net_lots (t : Tables) (symbol : bytes) : Z :=
  foldr Z.add 0 (omap (fun x : (Z * bytes) * PositionRow =>
    if decide (x.1.2 = symbol) then Some (if String.eqb (pr_side x.2) "long" then pr_qty_lots x.2 else - pr_qty_lots x.2)
    else None) (map_to_list (tb_positions t))).

(** [COALESCE(SUM(used_margin_atoms), 0)] of a user's positions *)
Definition margin_sum (t : Tables) (user_id : Z) : Z :=
  foldr Z.add 0 (omap (fun x : (Z * bytes) * PositionRow =>
    if decide (x.1.1 = user_id) then Some (pr_used_margin_atoms x.2) else None) (map_to_list (tb_positions t))).

(** The symbols with a position. *)
Definition position_symbols (t : Tables) : gset bytes := set_map snd (dom (tb_positions t)).

Definition check_position_invariants (t : Tables) : PositionReport :=
  mkPositionReport
    (omap (fun s => if Z.eqb (net_lots t s) 0 then None else Some (s, net_lots t s)) (elements (position_symbols t)))
    (omap (fun x : Z * RiskAccountRow =>
       if Z.eqb (rr_used_margin_atoms x.2) (margin_sum t x.1) then None
       else Some (x.1, rr_used_margin_atoms x.2, margin_sum t x.1)) (map_to_list (tb_risk_accounts t))).

(** [status IN ('PENDING', 'TRADING')] *)
Definition row_open (r : UpsertRow) : bool := String.eqb (ur_status r) "PENDING" || String.eqb (ur_status r) "TRADING".

(** Check 1: frozen funds of a user without an open order. *)
Definition hanging_frozen (t : Tables) : list ((Z * bytes) * AccountRow) :=
  filter (fun x => Z.ltb 0 (ar_frozen_atoms x.2) = true /\
    forallb (fun o : Z * UpsertRow => negb (Z.eqb (ur_user_id o.2) x.1.1 && row_open o.2)) (map_to_list (tb_orders t)) = true)
    (map_to_list (tb_accounts t)).

(** Orders filled beyond their quantity. *)
Definition orders_overfill (t : Tables) : list Z :=
  (filter (fun x => Z.ltb (ur_quantity_atoms x.2) (ur_filled_atoms x.2) = true) (map_to_list (tb_orders t))).*1.

(** ** The accounts both writers leave *)

(** The table after a transaction: the last row of each key. *)
Lemma stmt_accounts {R} (stmt : Tables -> list R -> option Tables) t rows t' :
  (forall t rows t', stmt t rows = Some t' -> tb_accounts t' = tb_accounts t) ->
  unless_empty stmt t rows = Some t' -> tb_accounts t' = tb_accounts t.
Proof. intros Hs. unfold unless_empty. destruct rows; [by intros [= <-]|apply Hs]. Qed.

Lemma flush_accounts_latest t rows t' k : unless_empty flush_accounts t rows = Some t' ->
  tb_accounts t' !! k = match latest account_key k rows with Some r => Some r | None => tb_accounts t !! k end.
Proof.
  unfold unless_empty. destruct rows as [|x rows]; [by intros [= <-]|]. unfold flush_accounts, upsert_all.
  destruct (decide _); [|done]. destruct (forallb _ _); [|done]. intros H1. apply (inj Some) in H1 as <-. cbn [set_accounts tb_accounts].
  by rewrite (foldl_put_latest account_key (fun r => r)), keep_last_latest.
Qed.

Lemma funding_accounts t f t' : apply_funding_settlement t f = Some t' -> tb_accounts t' = tb_accounts t.
Proof.
  unfold apply_funding_settlement. intros (s & _ & H1)%bind_Some. apply bind_Some in H1 as (m & _ & H1).
  apply bind_Some in H1 as (t1 & H2 & H1). destruct (Z.leb _ _); [done|]. apply (inj Some) in H1 as <-. cbn.
  unfold add_to_fund in H2. repeat case_match; simplify_eq; done.
Qed.

Lemma transaction_accounts t tx t' k : apply_transaction t tx = Some t' ->
  tb_accounts t' !! k = match latest account_key k (br_accounts (tx_rows tx)) with Some r => Some r | None => tb_accounts t !! k end.
Proof.
  unfold apply_transaction, apply_rows. intros (t9 & H1 & Hf)%bind_Some.
  assert (tb_accounts t' = tb_accounts t9) as -> by (destruct (tx_funding tx); [by eapply funding_accounts|by simplify_eq]).
  apply bind_Some in H1 as (t1 & H1 & H2). apply bind_Some in H2 as (t2 & H2 & H3). apply bind_Some in H3 as (t3 & H3 & H4).
  apply bind_Some in H4 as (t4 & H4 & H5). apply bind_Some in H5 as (t5 & H5 & H6). apply bind_Some in H6 as (t6 & H6 & H7).
  apply bind_Some in H7 as (t7 & H7 & H8). apply bind_Some in H8 as (t8 & H8 & H9). apply (inj Some) in H9 as <-.
  apply (flush_accounts_latest _ _ _ k) in H4.
  apply stmt_accounts in H1, H2, H3, H5, H6, H7, H8;
    [|clear; intros t rows t'; unfold flush_upserts, flush_deletes, flush_fills, flush_trades, flush_matching_events,
        flush_positions, flush_risk_accounts, mbind, option_bind; intros; repeat case_match; simplify_eq; done..].
  assert (forall x, tb_accounts (set_insurance_fund t8 x) = tb_accounts t8) as -> by (by intros []).
  by rewrite H8, H7, H6, H5, H4, H3, H2, H1.
Qed.

Lemma latest_app {A K} `{Countable K} (key : A -> K) k l1 l2 :
  latest key k (l1 ++ l2) = match latest key k l2 with Some r => Some r | None => latest key k l1 end.
Proof.
  unfold latest. rewrite filter_app, last_app. by destruct (last (filter _ l2)).
Qed.

Lemma transactions_accounts db t t' k : mfold apply_transaction t db = Some t' ->
  tb_accounts t' !! k =
    match latest account_key k (concat ((fun tx => br_accounts (tx_rows tx)) <$> db)) with Some r => Some r | None => tb_accounts t !! k end.
Proof.
  revert t. induction db as [|tx db IH]; intros t; cbn [mfold]; [by intros [= <-]|].
  intros (t1 & H1 & H2)%bind_Some. rewrite (IH _ H2), (transaction_accounts _ _ _ k H1). cbn [fmap list_fmap concat].
  rewrite latest_app. by destruct (latest _ _ (concat _)).
Qed.

(** The row and the fields that a frame stands for are the same amounts. *)
Definition effect_row (x : Z * bytes * (Z * Z)) : AccountRow := mkAccountRow x.1.1 x.1.2 x.2.1 x.2.2.

Lemma frame_account f : accounts_of (option_list (frame_change f)) = option_list (effect_row <$> account_effect (frame_event f)).
Proof.
  unfold frame_change, frame_event. destruct (PersistFrame.kind f) as [k|]; [|done]. cbn [mbind option_bind].
  destruct k; cbn [read_as];
    match goal with
    | |- context [PersistFrame.as_account_set f] => idtac
    | |- context [option_map _ ?x] => destruct x as [[?|]|]; try done;
        cbn [mjoin option_join mbind option_bind option_map account_effect fmap option_fmap option_list]; unfold accepted; by repeat case_match
    end.
  destruct (PersistFrame.as_account_set f) as [[p|]|]; [|done..]. cbn [mjoin option_join mbind option_bind option_map account_effect].
  unfold accepted, decode_account. destruct (Nat.eqb _ _), (legacy_atoms (asp_balance_atoms p) _), (legacy_atoms (asp_frozen_atoms p) _); done.
Qed.

Lemma latest_account k q :
  latest account_key k (accounts_of (omap frame_change q)) =
    effect_row <$> (latest_of (sets_account k) q ≫= fun f => account_effect (frame_event f)).
Proof.
  induction q as [|f q IH] using rev_ind; [done|]. rewrite omap_app, latest_of_snoc.
  replace (omap frame_change [f]) with (option_list (frame_change f)) by (cbn; by destruct (frame_change f)).
  unfold accounts_of at 1. rewrite omap_app. fold (accounts_of (omap frame_change q)) (accounts_of (option_list (frame_change f))).
  rewrite frame_account. unfold sets_account at 1. destruct (account_effect (frame_event f)) as [[k' v]|] eqn:He; cbn [fmap option_fmap option_map from_option fst].
  - change (option_list (Some (effect_row (k', v)))) with [effect_row (k', v)]. rewrite latest_row_snoc. change (account_key (effect_row (k', v))) with (k'.1, k'.2). rewrite <- surjective_pairing.
    destruct (decide (k' = k)) as [->|Hk].
    + rewrite bool_decide_eq_true_2 by done. cbn [mbind option_bind]. by rewrite He.
    + rewrite bool_decide_eq_false_2 by congruence. apply IH.
  - change (option_list None) with (@nil AccountRow). rewrite app_nil_r. apply IH.
Qed.

(** Frames a test selects that all come from one publisher: the committed chunks
    end with the journal's. *)
Lemma latest_filter P p q : (forall f, f ∈ q -> P f = true -> pf_publisher_id f = p) ->
  latest_of P q = latest_of P (filter (from p) q).
Proof.
  intros Hp. unfold latest_of. f_equal. rewrite list_filter_filter. induction q as [|f q IH]; [done|].
  rewrite !filter_cons, IH by (intros; apply Hp; [by right|done]).
  destruct (decide (P f = true)) as [HP|HP], (decide (P f = true /\ from p f)) as [Hb|Hb]; try done; try tauto.
  destruct Hb. split; [done|]. apply Hp; [by left|done].
Qed.

Lemma latest_committed J q P : (forall p, filter (from p) q = filter (from p) J) ->
  (forall f g, f ∈ J -> g ∈ J -> P f = true -> P g = true -> pf_publisher_id f = pf_publisher_id g) ->
  latest_of P q = latest_of P J.
Proof.
  intros Hq Hone.
  assert (Hin : forall f, f ∈ q -> f ∈ J).
  { intros f Hf. assert (f ∈ filter (from (pf_publisher_id f)) q) as Hx by (by apply list_elem_of_filter).
    rewrite Hq in Hx. by apply list_elem_of_filter in Hx as [_ Hx]. }
  destruct (decide (Exists (fun f => P f = true) J)) as [(f & Hf & HP)%Exists_exists|Hno].
  - rewrite (latest_filter P (pf_publisher_id f) q), (latest_filter P (pf_publisher_id f) J); [by rewrite Hq| |];
      intros g Hg HPg; apply (Hone g f); auto.
  - assert (Hn : forall l, (forall f, f ∈ l -> f ∈ J) -> latest_of P l = None).
    { intros l Hl. unfold latest_of. apply last_None. destruct (filter _ l) as [|g l'] eqn:Hg; [done|].
      assert (g ∈ filter (fun f => P f = true) l) as [HPg Hgl]%list_elem_of_filter by (rewrite Hg; left).
      destruct Hno. apply Exists_exists. exists g. auto. }
    by rewrite !Hn.
Qed.

(** Postgres has committed every frame of the journal. *)
Definition pg_caught_up (J : list PersistFrame) (pw : writer) : Prop :=
  forall f, f ∈ J -> pf_seq f <= default 0 (load_checkpoints (checkpoints (w_db pw)) !! pf_publisher_id f).

Lemma pg_account J pw t0 t k : journal J -> one_publisher J -> rtc (writer_step heard J) initial pw -> pg_caught_up J pw ->
  mfold apply_transaction t0 (w_db pw) = Some t ->
  tb_accounts t !! k =
    match latest_of (sets_account k) J ≫= (fun f => account_effect (frame_event f)) with
    | Some x => Some (effect_row x)
    | None => tb_accounts t0 !! k
    end.
Proof.
  intros HJ [_ Hone] Hr Hc Ht. destruct (reachable_delivery J pw HJ Hr) as (chunks & pend & Hd).
  rewrite (transactions_accounts _ _ _ k Ht).
  assert ((fun tx => br_accounts (tx_rows tx)) <$> w_db pw = (fun c => accounts_of (omap frame_change c)) <$> chunks) as ->.
  { pose proof (f_equal (fmap br_accounts) (dl_rows _ _ _ _ Hd)) as He. rewrite <- !list_fmap_compose in He.
    etransitivity; [exact He|]. apply list_fmap_ext. intros i c _. cbn. by rewrite rows_of_changes, rows_changes. }
  assert (concat ((fun c => accounts_of (omap frame_change c)) <$> chunks) = accounts_of (omap frame_change (concat chunks))) as ->.
  { clear. induction chunks as [|c cs IH]; [done|]. cbn [fmap list_fmap concat]. rewrite IH. unfold accounts_of. by rewrite !omap_app. }
  rewrite latest_account, (latest_committed J); [| |intros f g; apply Hone].
  - by destruct (latest_of _ J ≫= _).
  - intros p. rewrite (dl_committed _ _ _ _ Hd p), upto_filter, <- (dl_table _ _ _ _ Hd p).
    induction J as [|f J' IH] in Hc |- *; [done|]. rewrite filter_cons. destruct (decide (from p f)) as [Hp|Hp].
    + rewrite filter_cons, decide_True.
      * f_equal. apply IH. intros g Hg. apply Hc. by right.
      * unfold from in Hp. rewrite <- Hp. apply Hc. by left.
    + apply IH. intros g Hg. apply Hc. by right.
Qed.
End tables.

Lemma redis_account J own r0 w k : sound_journal J own -> consistent own r0 -> rd_floors r0 = ∅ ->
  rtc (rw_step J) (start_live true r0) w -> caught_up J w ->
  rd_accounts (rw_redis w) !! k =
    match latest_of (sets_account k) J ≫= (fun f => account_effect (frame_event f)) with
    | Some (_, (b, f)) => Some (hset_multiple ∅ (account_fields b f))
    | None => rd_accounts r0 !! k
    end.
Proof.
  intros S C H0 Hr Hc. destruct (reachable_replayed J own r0 w S H0 Hr) as [(q & Hq & Heq & Hl) _].
  assert (rd_accounts (rw_redis w) = rd_accounts (apply_all r0 q)) as -> by (unfold Redis.set_floors in Heq; by injection Heq).
  rewrite (apply_all_account own (sj_unique _ _ S) r0 q k C).
  - by rewrite (latest_caught_up J q.*2 (rw_floors w)); [|done..|intros f g; apply (sj_publisher _ _ S)].
  - eapply Forall_impl; [exact Hq|]. intros f Hf. by apply (proj1 (Forall_forall _ J) (sj_owned _ _ S)).
Qed.

(** ** The comparison *)

(** Redis holds the amounts of a row. *)
Definition row_matches (r : Redis) (row : Z * bytes * Z * Z) : Prop :=
  let '(u, a, b, z) := row in
  get_i64 (default ∅ (rd_accounts r !! (u, a))) "balance_atoms" = Some b /\
  get_i64 (default ∅ (rd_accounts r !! (u, a))) "frozen_atoms" = Some z.

Lemma compare_all r replies rows report : (forall k, replies k = true) -> Forall (row_matches r) rows ->
  foldl (compare_account replies r) report rows =
    mkCrossStoreReport (cr_compared report + Z.of_nat (length rows)) (cr_missing_in_redis report) (cr_mismatched_total report)
      (cr_mismatched report).
Proof.
  intros Hr Hrows. revert report. induction Hrows as [|[[[u a] b] z] rows [Hb Hz] _ IH]; intros report.
  - cbn. rewrite Z.add_0_r. by destruct report.
  - cbn [foldl]. rewrite IH. unfold compare_account. rewrite Hr, Hb, Hz. cbn [default from_option].
    rewrite !Z.eqb_refl. cbn [negb orb cr_compared cr_missing_in_redis cr_mismatched_total cr_mismatched length]. f_equal. lia.
Qed.

(** The two stores agree: Postgres and Redis are fed from one journal by two
    writers that batch, fail, crash and restart independently of each other.
    If Redis held the amounts of every account row of Postgres at the start,
    then once both have caught up with the journal the comparison of any rows
    of the table finds each of them in Redis with the same atoms. *)
Theorem stores_agree `{Chrono} J own t0 t r0 pw w rows replies :
  sound_journal J own -> consistent own r0 -> rd_floors r0 = ∅ ->
  (forall k row, tb_accounts t0 !! k = Some row -> row_matches r0 (k, ar_balance_atoms row, ar_frozen_atoms row)) ->
  rtc (writer_step heard J) initial pw -> pg_caught_up J pw -> mfold apply_transaction t0 (w_db pw) = Some t ->
  rtc (rw_step J) (start_live true r0) w -> caught_up J w ->
  Forall (fun x : Z * bytes * Z * Z => exists row, tb_accounts t !! x.1.1 = Some row /\
            x.1.2 = ar_balance_atoms row /\ x.2 = ar_frozen_atoms row) rows ->
  (forall k, replies k = true) ->
  exists report, check_pg_redis_accounts (Some rows) replies (rw_redis w) = Some report /\
    CrossStoreReport.is_clean report = true /\ cr_compared report = Z.of_nat (length rows).
Proof.
  intros S C H0 Hag Hpw Hpc Ht Hw Hwc Hrows Hr. eexists. split; [reflexivity|].
  rewrite compare_all; [done|done|]. eapply Forall_impl; [exact Hrows|].
  intros [[[u a] b] z] (row & Hk & Hb & Hz). cbn [fst snd] in *. subst b z.
  rewrite (pg_account J pw t0 t (u, a) (sj_journal _ _ S) (sj_publisher _ _ S) Hpw Hpc Ht) in Hk.
  pose proof (redis_account J own r0 w (u, a) S C H0 Hw Hwc) as Hred. unfold row_matches.
  destruct (latest_of _ J ≫= _) as [[k [b z]]|]; rewrite Hred.
  - apply (inj Some) in Hk as <-. by vm_compute.
  - apply (Hag (u, a) row Hk).
Qed.

Section positions.
Context `{Chrono}.

(** ** Lemmas *)

Lemma foldr_add_all (l : list Z) : Forall (fun x => x = 0) l -> foldr Z.add 0 l = 0.
Proof. induction 1 as [|x l -> _ IH]; cbn; [done|]. by rewrite IH. Qed.

(** A clean position report says that every symbol's longs and shorts cancel and
    that every account's used margin is that of its positions. *)
Theorem clean_positions t : position_is_clean (check_position_invariants t) = true <->
  (forall s, net_lots t s = 0) /\
  (forall u a, tb_risk_accounts t !! u = Some a -> rr_used_margin_atoms a = margin_sum t u).
Proof.
  assert (Hempty : forall s, s ∉ position_symbols t -> net_lots t s = 0).
  { intros s Hs. apply foldr_add_all, Forall_forall. intros z ([[u s'] p] & Hin & Hz)%list_elem_of_omap. cbn in Hz.
    destruct (decide (s' = s)) as [->|]; [|done]. destruct Hs. unfold position_symbols. apply elem_of_map. exists (u, s). split; [done|].
    apply elem_of_dom. exists p. by apply elem_of_map_to_list. }
  unfold position_is_clean, check_position_invariants. cbn [pr_net_violations pr_margin_mismatches].
  set (l1 := omap _ (elements _)). set (l2 := omap _ (map_to_list (tb_risk_accounts t))).
  assert (H1 : l1 = [] <-> forall s, net_lots t s = 0).
  { split.
    - intros Hl s. destruct (decide (s ∈ position_symbols t)) as [Hs|]; [|by apply Hempty].
      destruct (Z.eqb_spec (net_lots t s) 0) as [|Hn]; [done|].
      assert ((s, net_lots t s) ∈ l1) as Hin; [|rewrite Hl in Hin; set_solver].
      apply list_elem_of_omap. exists s. split; [set_solver|]. by rewrite (proj2 (Z.eqb_neq _ _) Hn).
    - intros Hall. destruct l1 as [|x l] eqn:Hl; [done|]. assert (x ∈ l1) as Hin by (rewrite Hl; left).
      apply list_elem_of_omap in Hin as (s & _ & Hs). by rewrite Hall in Hs. }
  assert (H2 : l2 = [] <-> forall u a, tb_risk_accounts t !! u = Some a -> rr_used_margin_atoms a = margin_sum t u).
  { split.
    - intros Hl u a Hu. destruct (Z.eqb_spec (rr_used_margin_atoms a) (margin_sum t u)) as [|Hn]; [done|].
      assert ((u, rr_used_margin_atoms a, margin_sum t u) ∈ l2) as Hin; [|rewrite Hl in Hin; set_solver].
      apply list_elem_of_omap. exists (u, a). split; [by apply elem_of_map_to_list|]. cbn. by rewrite (proj2 (Z.eqb_neq _ _) Hn).
    - intros Hall. destruct l2 as [|x l] eqn:Hl; [done|]. assert (x ∈ l2) as Hin by (rewrite Hl; left).
      apply list_elem_of_omap in Hin as ([u a] & Hu%elem_of_map_to_list & Hs). cbn in Hs.
      by rewrite (Hall u a Hu), Z.eqb_refl in Hs. }
  rewrite <- H1, <- H2. destruct l1, l2; naive_solver.
Qed.
End positions.

(** ** A concrete run *)

#[local] Existing Instance PgWriter.demo_chrono.

(** The journal of [RedisWriter], through both writers. *)
Definition demo_pg : writer := foldl (fun w f => PgWriter.demo_step w f (Commits 1)) initial demo_frames.
Definition demo_before : Tables := mkTables {[1]} ∅ ∅ ∅ ∅ ∅ ∅ 0 [] ∅.

Lemma demo_pg_run : rtc (writer_step heard demo_frames) initial demo_pg.
Proof.
  unfold demo_pg, demo_frames at 2. cbn [foldl].
  do 4 (eapply rtc_r; [|apply PgWriter.demo_step_ok; [done|apply delivered_check; [apply list_elem_of_In; cbn; tauto|vm_compute; reflexivity]
    |by vm_compute; eexists]]).
  apply rtc_refl.
Qed.

(** The account of the journal is in both stores with 500 atoms, 20 of them
    frozen. *)
Lemma stores_agree_run : exists t report, mfold apply_transaction demo_before (w_db demo_pg) = Some t /\
  check_pg_redis_accounts (Some [(1, str "USDT", 500, 20)]) (fun _ => true) (rw_redis demo_w4) = Some report /\
  CrossStoreReport.is_clean report = true /\ cr_compared report = 1.
Proof.
  assert (Hacc : (fun t => tb_accounts t !! (1, str "USDT")) <$> mfold apply_transaction demo_before (w_db demo_pg) =
                 Some (Some (mkAccountRow 1 (str "USDT") 500 20))) by (vm_compute; reflexivity).
  apply fmap_Some in Hacc as (t & Ht & Hacc). exists t.
  destruct (stores_agree demo_frames demo_own demo_before t Redis.empty demo_pg demo_w4 [(1, str "USDT", 500, 20)] (fun _ => true))
    as (report & Hr).
  - apply demo_sound.
  - apply demo_consistent.
  - reflexivity.
  - intros k row Hk. cbn [demo_before tb_accounts] in Hk. by rewrite lookup_empty in Hk.
  - apply demo_pg_run.
  - intros f Hf%list_elem_of_In. cbn [demo_frames In] in Hf. destruct Hf as [<-|[<-|[<-|[<-|[]]]]]; vm_compute; congruence.
  - exact Ht.
  - apply demo_life.
  - intros f Hf%list_elem_of_In. cbn [demo_frames In] in Hf. destruct Hf as [<-|[<-|[<-|[<-|[]]]]]; vm_compute; congruence.
  - apply Forall_singleton. exists (mkAccountRow 1 (str "USDT") 500 20). split; [exact (eq_sym Hacc)|by split].
  - done.
  - exists report. exact (conj Ht Hr).
Qed.
