(* ===== verification/Auth.v ===== *)
(** Who a request acts for ([src/src/desk/user_service.rs] and the
    authentication helpers of [src/src/desk/api.rs]): registration, login and
    tokens, revocation shared by the desks through Redis, API keys with and
    without a signing secret, and the bearer check of the REST edge.

    Signing, hashing and the calendar are libraries: class [Crypto] holds what
    the desk relies on.  The tables are a record, as in [Custody]; a failing
    connection to Redis is an argument. *)
From Stdlib Require Import ZArith Lia String.
From stdpp Require Import base numbers list gmap sets strings.
From S2P Require Import Prelude Bytes Fixed Types Text Money Routing Custody.

#[local] Open Scope Z_scope.

(** ** Libraries *)

Record Claims := mkClaims { cl_sub : Z; cl_email : bytes; cl_exp : Z }.

(** [jsonwebtoken] with [Validation::default()]: a token of the same key is
    accepted until a minute after its expiry; [hmac] with SHA-256; [bcrypt]
    with its salt as an argument; [chrono] sums within the calendar. *)
Class Crypto := {
  jwt_encode : bytes -> Claims -> option bytes;
  jwt_decode : bytes -> Z -> bytes -> option Claims;
  hmac : bytes -> bytes -> bytes;
  bcrypt_hash : bytes -> bytes -> option bytes;
  bcrypt_verify : bytes -> bytes -> option bool;
  utc_add : Z -> Z -> option Z;
  jwt_decode_encode key now c t : jwt_encode key c = Some t ->
    jwt_decode key now t = if Z.leb now (cl_exp c + 60) then Some c else None;
  hmac_bytes key msg : Forall (fun b => 0 <= b < 256) (hmac key msg);
  bcrypt_same salt pw h : bcrypt_hash salt pw = Some h -> bcrypt_verify pw h = Some true;
  utc_add_calendar now s : 0 <= now -> 0 <= s -> now + s <= 253402300799 -> utc_add now s = Some (now + s);
}.

(** ** The signing key *)

Inductive AuthError :=
  | SecretTooShort
  | SecretRequired
  | HashError
  | RegisterFailed
  | InvalidCredentials
  | InvalidToken
  | TokenEncode
  | InvalidKey
  | KeyRequiresSignature
  | KeyHasNoSecret
  | InvalidTimestamp
  | OutsideWindow
  | SignatureEncoding
  | SignatureMismatch
  | RedisError.

Definition DEV_JWT_SECRET : bytes := str "exchange_jwt_secret_change_in_prod".
Definition MIN_JWT_SECRET_LEN : nat := 32.

Definition resolve_jwt_secret (env_secret env_profile : option bytes) : result bytes AuthError :=
  let is_production := bool_decide (env_profile = Some (str "production")) in
  match env_secret with
  | Some s => if Nat.leb MIN_JWT_SECRET_LEN (length s) then Ok s else Err SecretTooShort
  | None => if is_production then Err SecretRequired else Ok DEV_JWT_SECRET
  end.

(** [trim_end_matches(['\n', '\r'])] *)
Fixpoint drop_newlines (bs : bytes) : bytes :=
  match bs with
  | b :: bs' => if Z.eqb b 10 || Z.eqb b 13 then drop_newlines bs' else bs
  | [] => []
  end.
Definition trim_newlines (bs : bytes) : bytes := reverse (drop_newlines (reverse bs)).

(** [read]: the file system; [None] is the panic on an unreadable file. *)
Definition secret_from_env_or_file (env read : bytes -> option bytes) (var : bytes) : option (option bytes) :=
  match env (var ++ str "_FILE") with
  | Some path => s ← read path; Some (Some (trim_newlines s))
  | None => Some (env var)
  end.

(** [access_ttl_secs] *)
Definition access_ttl_secs (env : bytes -> option bytes) : Z :=
  match env (str "EXCHANGE_JWT_ACCESS_TTL_SECS") ≫= parse_i64 with
  | Some t => if Z.ltb 0 t then t else 7 * 24 * 3600
  | None => 7 * 24 * 3600
  end.

(** ** Hexadecimal *)

Definition hex_digit (v : Z) : Z := if Z.ltb v 10 then 48 + v else 87 + v.
Definition to_hex (bs : bytes) : bytes := bs ≫= (fun b => [hex_digit (b / 16); hex_digit (b mod 16)]).

Definition hex_value (b : Z) : option Z :=
  if Z.leb 48 b && Z.leb b 57 then Some (b - 48)
  else if Z.leb 97 b && Z.leb b 102 then Some (b - 87)
  else if Z.leb 65 b && Z.leb b 70 then Some (b - 55)
  else None.

(** [u8::from_str_radix(.., 16)] of two characters: a sign may come first. *)
Definition from_hex_pair (a b : Z) : option Z :=
  if Z.eqb a 43 then hex_value b
  else x ← hex_value a; y ← hex_value b; Some (x * 16 + y).

Fixpoint decode_hex (s : bytes) : option bytes :=
  match s with
  | [] => Some []
  | [_] => None
  | a :: b :: s => v ← from_hex_pair a b; rest ← decode_hex s; Some (v :: rest)
  end.

(** ** Tables *)

Record User := mkUser { us_email : bytes; us_password_hash : bytes; us_full_name : option bytes; us_ip : option bytes }.

(** [db_next_id] is the sequence of [users.id]; [db_keys] is [api_keys]. *)
Record UserDb := mkUserDb {
  db_users : gmap Z User;
  db_next_id : Z;
  db_keys : gmap bytes (Z * option bytes);
  db_ledger : Ledger;
}.

Definition user_by_email (db : UserDb) (email : bytes) : option (Z * User) :=
  head (List.filter (fun x => bool_decide (us_email x.2 = email)) (map_to_list (db_users db))).

Definition fits_varchar (n : nat) (s : bytes) : bool := Nat.leb (char_count s) n.

(** [INSERT INTO users .. RETURNING *]: the unique e-mail and the columns'
    widths; the sequence advances in any case. *)
Definition insert_user (db : UserDb) (u : User) : UserDb * option Z :=
  let id := db_next_id db in
  let db := mkUserDb (db_users db) (id + 1) (db_keys db) (db_ledger db) in
  let ok := fits_varchar 255 (us_email u) && fits_varchar 255 (us_password_hash u)
            && from_option (fits_varchar 255) true (us_full_name u) && from_option (fits_varchar 45) true (us_ip u)
            && bool_decide (user_by_email db (us_email u) = None) in
  if ok then
    let l := db_ledger db in
    let l := mkLedger ({[id]} ∪ lg_users l) (lg_accounts l) (lg_deposits l) (lg_withdrawals l) (lg_next_id l)
               (lg_trades l) (lg_audit l) in
    (mkUserDb (<[id := u]> (db_users db)) (db_next_id db) (db_keys db) l, Some id)
  else (db, None).

(** [INSERT INTO accounts .. ON CONFLICT DO NOTHING] *)
Definition seed_account (l : Ledger) (k : Z * bytes) (balance : Z) : Ledger :=
  match lg_accounts l !! k with
  | Some _ => l
  | None => Ledger.set_accounts l (<[k := mkAccountBalance balance 0]> (lg_accounts l))
  end.

Section service.
Context `{Crypto} (key : bytes) (ttl : Z).

(** ** Tokens *)

(** [make_token]; the outer [None] is the panic of the calendar. *)
Definition make_token (now user_id : Z) (email : bytes) : option (result bytes AuthError) :=
  exp ← utc_add now ttl;
  Some match jwt_encode key (mkClaims user_id email exp) with Some t => Ok t | None => Err TokenEncode end.

Definition verify_token (now : Z) (token : bytes) : result Claims AuthError :=
  match jwt_decode key now token with Some c => Ok c | None => Err InvalidToken end.

Definition refresh_token (now : Z) (c : Claims) : option (result bytes AuthError) := make_token now (cl_sub c) (cl_email c).

Record AuthResponse := mkAuthResponse { ar_token : bytes; ar_user : Z; ar_counter_shard_id : Z }.

Definition respond (now user_id : Z) (email : bytes) : option (result AuthResponse AuthError) :=
  r ← make_token now user_id email;
  Some (token ←? r; Ok (mkAuthResponse token user_id (owner_shard_for_user_id user_id))).

(** ** Registration and login *)

Definition register (db : UserDb) (now : Z) (salt email password : bytes) (full_name ip : option bytes)
  : option (UserDb * result AuthResponse AuthError) :=
  match bcrypt_hash salt password with
  | None => Some (db, Err HashError)
  | Some hash =>
      match insert_user db (mkUser email hash full_name ip) with
      | (db, None) => Some (db, Err RegisterFailed)
      | (db, Some id) =>
          let l := seed_account (db_ledger db) (id, str "USDT") 1000000000000 in
          let l := seed_account l (id, str "BTC") 100000000 in
          let db := mkUserDb (db_users db) (db_next_id db) (db_keys db) l in
          r ← respond now id email;
          Some (db, r)
      end
  end.

Definition login (db : UserDb) (now : Z) (email password : bytes) : option (result AuthResponse AuthError) :=
  match user_by_email db email with
  | None => Some (Err InvalidCredentials)
  | Some (id, user) =>
      match bcrypt_verify password (us_password_hash user) with
      | Some true => respond now id (us_email user)
      | _ => Some (Err InvalidCredentials)
      end
  end.

(** ** API keys *)

Definition verify_api_key (db : UserDb) (api_key : bytes) : result Z AuthError :=
  match db_keys db !! api_key with
  | None => Err InvalidKey
  | Some (_, Some _) => Err KeyRequiresSignature
  | Some (user_id, None) => Ok user_id
  end.

Definition API_SIGNATURE_WINDOW_SECS : Z := 30.

Definition compute_api_signature (secret timestamp : bytes) : bytes := to_hex (hmac secret timestamp).

(** [(now_unix - ts).abs() > WINDOW] in wrapping arithmetic. *)
Definition outside_window (now_unix ts : Z) : bool :=
  Z.ltb API_SIGNATURE_WINDOW_SECS (wrap_i64 (Z.abs (wrap_i64 (now_unix - ts)))).

Definition check_api_signature (secret timestamp signature_hex : bytes) (now_unix : Z) : result unit AuthError :=
  match parse_i64 timestamp with
  | None => Err InvalidTimestamp
  | Some ts =>
      if outside_window now_unix ts then Err OutsideWindow
      else
        match decode_hex signature_hex with
        | None => Err SignatureEncoding
        | Some sig => if bool_decide (sig = hmac secret timestamp) then Ok () else Err SignatureMismatch
        end
  end.

Definition verify_api_key_signed (db : UserDb) (api_key timestamp signature_hex : bytes) (now_unix : Z)
  : result Z AuthError :=
  match db_keys db !! api_key with
  | None => Err InvalidKey
  | Some (_, None) => Err KeyHasNoSecret
  | Some (user_id, Some secret) =>
      _ ←? check_api_signature secret timestamp signature_hex now_unix;
      Ok user_id
  end.

(** [ON CONFLICT (api_key) DO NOTHING] *)
Definition ensure_robot_api_key (db : UserDb) (now : Z) (salt email password api_key : bytes)
  : option (UserDb * result Z AuthError) :=
  '(db, r) ← match user_by_email db email with
             | Some (id, _) => Some (db, Ok id)
             | None => '(db, r) ← register db now salt email password None None;
                       Some (db, match r with Ok resp => Ok (ar_user resp) | Err e => Err e end)
             end;
  match r with
  | Err e => Some (db, Err e)
  | Ok user_id =>
      let keys := match db_keys db !! api_key with
                  | Some _ => db_keys db
                  | None => <[api_key := (user_id, None)]> (db_keys db)
                  end in
      Some (mkUserDb (db_users db) (db_next_id db) keys (db_ledger db), Ok user_id)
  end.

(** ** The REST edge

    [revoked] is the desk's set of revoked users. *)

(** [strip_prefix("Bearer ")] *)
Definition bearer (header : option bytes) : option bytes :=
  h ← header; if bool_decide (take 7 h = str "Bearer ") then Some (drop 7 h) else None.

Definition auth_claims (revoked : gset Z) (now : Z) (header : option bytes) : option Claims :=
  token ← bearer header;
  match verify_token now token with
  | Err _ => None
  | Ok claims => if bool_decide (cl_sub claims ∈ revoked) then None else Some claims
  end.

Definition auth_user (revoked : gset Z) (now : Z) (header : option bytes) : option Z :=
  cl_sub <$> auth_claims revoked now header.

(** [handle_refresh]: a new token for the holder of a valid one. *)
Definition handle_refresh (revoked : gset Z) (now : Z) (header : option bytes) : option (HttpStatus * option bytes) :=
  match auth_claims revoked now header with
  | None => Some (Unauthorized, None)
  | Some claims =>
      r ← refresh_token now claims;
      Some match r with Ok token => (HttpOk, Some token) | Err _ => (InternalError, None) end
  end.
End service.

(** ** Revocation

    One Redis set and the in-memory set of every desk.  Requests of several
    users and the refresh of the set run concurrently: between two awaits or two
    operations on the shared set another task may run, so that each operation is
    a sequence of steps and a refresh under way is part of the state. *)

(** Where the refresh of a desk is: it has the reply of [SMEMBERS]; it has
    cleared the set and still has these ids to insert. *)
Inductive refresh_phase :=
| Fetched (ids : list Z)
| Filling (ids : list Z).

Record Cluster := mkCluster {
  cs_redis : gset Z;
  cs_desks : gmap Z (gset Z);
  cs_refresh : gmap Z refresh_phase;
}.

Definition revoked_at (c : Cluster) (desk : Z) : gset Z := default ∅ (cs_desks c !! desk).
Definition is_revoked (c : Cluster) (desk user_id : Z) : bool := bool_decide (user_id ∈ revoked_at c desk).

Definition set_memory (c : Cluster) (desk : Z) (s : gset Z) : Cluster :=
  mkCluster (cs_redis c) (<[desk := s]> (cs_desks c)) (cs_refresh c).
Definition set_redis (c : Cluster) (s : gset Z) : Cluster := mkCluster s (cs_desks c) (cs_refresh c).
Definition set_phase (c : Cluster) (desk : Z) (p : option refresh_phase) : Cluster :=
  mkCluster (cs_redis c) (cs_desks c) (match p with Some p => <[desk := p]> (cs_refresh c) | None => delete desk (cs_refresh c) end).

(** [revoke_user]: the insert, then [SADD]. *)
Definition revoke_memory (c : Cluster) (desk user_id : Z) : Cluster := set_memory c desk ({[user_id]} ∪ revoked_at c desk).
Definition revoke_redis (c : Cluster) (user_id : Z) : Cluster := set_redis c ({[user_id]} ∪ cs_redis c).

(** [redis]: whether the command reaches Redis, [None] for a desk without it. *)
Definition revoke_user (c : Cluster) (desk : Z) (redis : option bool) (user_id : Z) : Cluster * result unit AuthError :=
  let c := revoke_memory c desk user_id in
  match redis with
  | None => (c, Ok ())
  | Some true => (revoke_redis c user_id, Ok ())
  | Some false => (c, Err RedisError)
  end.

(** [unrevoke_user]: the removal, then [SREM]. *)
Definition unrevoke_memory (c : Cluster) (desk user_id : Z) : Cluster := set_memory c desk (revoked_at c desk ∖ {[user_id]}).
Definition unrevoke_redis (c : Cluster) (user_id : Z) : Cluster := set_redis c (cs_redis c ∖ {[user_id]}).

Definition unrevoke_user (c : Cluster) (desk : Z) (redis : option bool) (user_id : Z) : Cluster * result unit AuthError :=
  let c := unrevoke_memory c desk user_id in
  match redis with
  | None => (c, Ok ())
  | Some true => (unrevoke_redis c user_id, Ok ())
  | Some false => (c, Err RedisError)
  end.

(** [refresh_revocations], step by step: [SMEMBERS], [clear], one insert after
    the other and the return.  A desk refreshes in one task. *)
Definition refresh_read (c : Cluster) (desk : Z) : Cluster :=
  match cs_refresh c !! desk with
  | None => set_phase c desk (Some (Fetched (elements (cs_redis c))))
  | Some _ => c
  end.
Definition refresh_clear (c : Cluster) (desk : Z) : Cluster :=
  match cs_refresh c !! desk with
  | Some (Fetched ids) => set_phase (set_memory c desk ∅) desk (Some (Filling ids))
  | _ => c
  end.
Definition refresh_insert (c : Cluster) (desk : Z) : Cluster :=
  match cs_refresh c !! desk with
  | Some (Filling (id :: ids)) => set_phase (set_memory c desk ({[id]} ∪ revoked_at c desk)) desk (Some (Filling ids))
  | Some (Filling []) => set_phase c desk None
  | _ => c
  end.

(** A whole refresh that nothing interrupts; [ok]: Redis replies. *)
Definition refresh_revocations (c : Cluster) (desk : Z) (ok : bool) : Cluster :=
  if ok then Nat.iter (S (size (cs_redis c))) (fun c => refresh_insert c desk) (refresh_clear (refresh_read c desk) desk)
  else c.

(** A process starts with an empty set. *)
Definition restart (c : Cluster) (desk : Z) : Cluster := set_phase (set_memory c desk ∅) desk None.

(** The admin handlers: [token] is the configured admin token. *)
Definition handle_admin_revoke (token header : option bytes) (c : Cluster) (desk : Z) (redis : option bool) (user_id : Z)
  : Cluster * HttpStatus :=
  if negb (bearer_authorized token header) then (c, Unauthorized)
  else match revoke_user c desk redis user_id with
       | (c, Ok _) => (c, HttpOk)
       | (c, Err _) => (c, InternalError)
       end.

Definition handle_admin_unrevoke (token header : option bytes) (c : Cluster) (desk : Z) (redis : option bool) (user_id : Z)
  : Cluster * HttpStatus :=
  if negb (bearer_authorized token header) then (c, Unauthorized)
  else match unrevoke_user c desk redis user_id with
       | (c, Ok _) => (c, HttpOk)
       | (c, Err _) => (c, InternalError)
       end.

(** The steps of all the desks, in any order.  A command that fails is a step
    that does not happen. *)
Inductive revocation :=
| RevokeMemory (desk user_id : Z)
| RevokeRedis (user_id : Z)
| UnrevokeMemory (desk user_id : Z)
| UnrevokeRedis (user_id : Z)
| RefreshRead (desk : Z)
| RefreshClear (desk : Z)
| RefreshInsert (desk : Z)
| Restart (desk : Z).

Definition exec_revocation (c : Cluster) (r : revocation) : Cluster :=
  match r with
  | RevokeMemory desk user_id => revoke_memory c desk user_id
  | RevokeRedis user_id => revoke_redis c user_id
  | UnrevokeMemory desk user_id => unrevoke_memory c desk user_id
  | UnrevokeRedis user_id => unrevoke_redis c user_id
  | RefreshRead desk => refresh_read c desk
  | RefreshClear desk => refresh_clear c desk
  | RefreshInsert desk => refresh_insert c desk
  | Restart desk => restart c desk
  end.

(** ** Lemmas *)

(** An observer of one desk and one user whose revocation has reached Redis.
    [told]: the desk put the user into its set itself, or completed a refresh
    that asked Redis after the revocation, and has since neither restarted nor
    begun to refill the set.  [asked]: a refresh is under way that asked Redis
    after the revocation. *)
Record watching := mkWatching { wt_cluster : Cluster; wt_told : bool; wt_asked : bool }.

Definition told_asked (desk user_id : Z) (w : watching) (r : revocation) : bool * bool :=
  match r with
  | RevokeMemory d u => (wt_told w || (bool_decide (d = desk) && bool_decide (u = user_id)), wt_asked w)
  | RefreshRead d =>
      (wt_told w, wt_asked w || (bool_decide (d = desk) && bool_decide (cs_refresh (wt_cluster w) !! desk = None)))
  | RefreshClear d =>
      if bool_decide (d = desk) then
        match cs_refresh (wt_cluster w) !! desk with Some (Fetched _) => (false, wt_asked w) | _ => (wt_told w, wt_asked w) end
      else (wt_told w, wt_asked w)
  | RefreshInsert d =>
      if bool_decide (d = desk) then
        match cs_refresh (wt_cluster w) !! desk with
        | Some (Filling []) => (wt_told w || wt_asked w, false)
        | _ => (wt_told w, wt_asked w)
        end
      else (wt_told w, wt_asked w)
  | Restart d => if bool_decide (d = desk) then (false, false) else (wt_told w, wt_asked w)
  | _ => (wt_told w, wt_asked w)
  end.

Definition watch (desk user_id : Z) (w : watching) (r : revocation) : watching :=
  mkWatching (exec_revocation (wt_cluster w) r) (told_asked desk user_id w r).1 (told_asked desk user_id w r).2.

(** What the desk knows when the revocation reaches Redis. *)
Definition start_watching (c : Cluster) (desk user_id : Z) : watching := mkWatching c (is_revoked c desk user_id) false.

Definition lifts (user_id : Z) (r : revocation) : bool :=
  match r with UnrevokeMemory _ u | UnrevokeRedis u => bool_decide (u = user_id) | _ => false end.
Definition imposes (user_id : Z) (r : revocation) : bool :=
  match r with RevokeMemory _ u | RevokeRedis u => bool_decide (u = user_id) | _ => false end.

(** The ids a refresh under way will insert. *)
Definition coming (c : Cluster) (desk : Z) : list Z :=
  match cs_refresh c !! desk with Some (Fetched ids) | Some (Filling ids) => ids | None => [] end.

Definition step_desk (r : revocation) : option Z :=
  match r with
  | RevokeMemory d _ | UnrevokeMemory d _ | RefreshRead d | RefreshClear d | RefreshInsert d | Restart d => Some d
  | RevokeRedis _ | UnrevokeRedis _ => None
  end.

Lemma revoked_at_set c desk s desk' : revoked_at (set_memory c desk s) desk' = if decide (desk' = desk) then s else revoked_at c desk'.
Proof.
  unfold revoked_at, set_memory. cbn. case_decide as Hd; [subst; by rewrite lookup_insert_eq|by rewrite lookup_insert_ne].
Qed.

Lemma revoked_at_phase c desk p desk' : revoked_at (set_phase c desk p) desk' = revoked_at c desk'.
Proof. done. Qed.

Lemma phase_at c desk p desk' : cs_refresh (set_phase c desk p) !! desk' = if decide (desk' = desk) then p else cs_refresh c !! desk'.
Proof.
  unfold set_phase. cbn. destruct p; case_decide as Hd; subst;
    [by rewrite lookup_insert_eq|by rewrite lookup_insert_ne|by rewrite lookup_delete_eq|by rewrite lookup_delete_ne].
Qed.

(** Steps of other desks do not concern a desk. *)
Lemma exec_other c r desk : step_desk r <> Some desk ->
  revoked_at (exec_revocation c r) desk = revoked_at c desk /\ cs_refresh (exec_revocation c r) !! desk = cs_refresh c !! desk.
Proof.
  intros Hr. destruct r; cbn [exec_revocation step_desk] in *; try done;
    unfold revoke_memory, unrevoke_memory, refresh_read, refresh_clear, refresh_insert, restart;
    repeat case_match; try done; rewrite ?revoked_at_phase, ?revoked_at_set, ?phase_at; repeat case_decide; try done; congruence.
Qed.

(** What a desk that was told, or is being told, has: the user in its set, or
    among the ids that are coming. *)
Definition informed (desk user_id : Z) (w : watching) : Prop :=
  user_id ∈ cs_redis (wt_cluster w) /\
  (wt_told w = true -> user_id ∈ revoked_at (wt_cluster w) desk) /\
  (wt_asked w = true ->
     match cs_refresh (wt_cluster w) !! desk with
     | Some (Fetched ids) => user_id ∈ ids
     | Some (Filling ids) => user_id ∈ ids \/ user_id ∈ revoked_at (wt_cluster w) desk
     | None => False
     end).

Lemma redis_kept user_id c r : lifts user_id r = false -> user_id ∈ cs_redis c -> user_id ∈ cs_redis (exec_revocation c r).
Proof.
  intros Hl Hin. destruct r; cbn in *; try done;
    unfold refresh_read, refresh_clear, refresh_insert; repeat case_match; cbn; try done; try set_solver.
  apply bool_decide_eq_false in Hl. set_solver.
Qed.

Lemma watch_elsewhere desk user_id w r : step_desk r <> Some desk -> told_asked desk user_id w r = (wt_told w, wt_asked w).
Proof.
  intros Hr. destruct r; cbn in Hr |- *; rewrite ?(bool_decide_false (_ = desk)) by congruence; cbn; rewrite ?orb_false_r; done.
Qed.

Lemma watch_informed desk user_id w r : lifts user_id r = false -> informed desk user_id w -> informed desk user_id (watch desk user_id w r).
Proof.
  intros Hl (Hr & Ht & Ha). split; [by apply redis_kept|].
  destruct (decide (step_desk r = Some desk)) as [Hd|Hd].
  2:{ cbn. rewrite watch_elsewhere by done. destruct (exec_other (wt_cluster w) r desk Hd) as [-> ->]. done. }
  destruct r; cbn in Hd; try done; apply (inj Some) in Hd as ->; cbn in Hl |- *; rewrite ?bool_decide_true by done; cbn.
  - unfold revoke_memory. rewrite revoked_at_set, decide_True by done. cbn.
    split; [intros [?|?%bool_decide_eq_true]%orb_true_iff; set_solver|]. intros Hw. specialize (Ha Hw). repeat case_match; set_solver.
  - unfold unrevoke_memory. rewrite revoked_at_set, decide_True by done. cbn. apply bool_decide_eq_false in Hl.
    split; [set_solver|]. intros Hw. specialize (Ha Hw). repeat case_match; set_solver.
  - unfold refresh_read. destruct (cs_refresh _ !! desk) as [p|] eqn:Hp; cbn.
    + rewrite orb_false_r, Hp. done.
    + split; [done|]. rewrite lookup_insert_eq. intros _. by apply elem_of_elements.
  - unfold refresh_clear. destruct (cs_refresh _ !! desk) as [[ids|ids]|] eqn:Hp; cbn; rewrite ?Hp; try done.
    rewrite lookup_insert_eq. split; [done|]. intros Hw. left. by apply Ha.
  - unfold refresh_insert. destruct (cs_refresh _ !! desk) as [[ids|[|id ids]]|] eqn:Hp; cbn; rewrite ?Hp; try done.
    + rewrite revoked_at_phase. split; [|done]. intros [?|?]%orb_true_iff; [by apply Ht|].
      destruct Ha as [?|?]; [done|set_solver|done].
    + rewrite revoked_at_phase, revoked_at_set, lookup_insert_eq, decide_True by done. split; [set_solver|].
      intros Hw. destruct (Ha Hw) as [[->|?]%elem_of_cons|?]; set_solver.
  - done.
Qed.

Lemma watch_run desk user_id rs w : Forall (fun r => lifts user_id r = false) rs -> informed desk user_id w ->
  informed desk user_id (foldl (watch desk user_id) w rs) /\
  wt_cluster (foldl (watch desk user_id) w rs) = foldl exec_revocation (wt_cluster w) rs.
Proof.
  intros Hl. revert w. induction Hl as [|r rs Hr _ IH]; intros w Hw; [done|]. cbn [foldl].
  apply (IH (watch desk user_id w r)). by apply watch_informed.
Qed.

(** A user who is in no set and on no way into one. *)
Definition unheard (user_id : Z) (c : Cluster) : Prop :=
  user_id ∉ cs_redis c /\ forall desk, user_id ∉ revoked_at c desk /\ user_id ∉ coming c desk.

Lemma unheard_step user_id c r : imposes user_id r = false -> unheard user_id c -> unheard user_id (exec_revocation c r).
Proof.
  intros Hi [Hr Hd]. split.
  - destruct r; cbn in *; try done;
      unfold refresh_read, refresh_clear, refresh_insert; repeat case_match; cbn; try done; try set_solver.
    apply bool_decide_eq_false in Hi. set_solver.
  - intros desk. destruct (Hd desk) as [Hm Hc]. unfold coming in *. destruct (decide (step_desk r = Some desk)) as [He|He].
    2:{ by destruct (exec_other c r desk He) as [-> ->]. }
    destruct r; cbn in He; try done; apply (inj Some) in He as ->; cbn [exec_revocation] in *.
    + cbn in Hi. apply bool_decide_eq_false in Hi. unfold revoke_memory. rewrite revoked_at_set, decide_True by done. set_solver.
    + unfold unrevoke_memory. rewrite revoked_at_set, decide_True by done. set_solver.
    + unfold refresh_read. destruct (cs_refresh c !! desk) eqn:Hp; [by rewrite Hp|]. rewrite revoked_at_phase, phase_at, decide_True by done.
      split; [done|]. by rewrite elem_of_elements.
    + unfold refresh_clear. destruct (cs_refresh c !! desk) as [[ids|ids]|] eqn:Hp; rewrite ?Hp; try done.
      rewrite revoked_at_phase, revoked_at_set, phase_at, !decide_True by done. set_solver.
    + unfold refresh_insert. destruct (cs_refresh c !! desk) as [[ids|[|id ids]]|] eqn:Hp; rewrite ?Hp; try done.
      * rewrite revoked_at_phase, phase_at, !decide_True by done. set_solver.
      * rewrite revoked_at_phase, revoked_at_set, phase_at, !decide_True by done. set_solver.
    + unfold restart. rewrite revoked_at_phase, revoked_at_set, phase_at, !decide_True by done. set_solver.
Qed.

Lemma unheard_run user_id rs c : Forall (fun r => imposes user_id r = false) rs -> unheard user_id c ->
  unheard user_id (foldl exec_revocation c rs).
Proof. intros Hi. revert c. induction Hi as [|r rs Hr _ IH]; intros c Hc; [done|]. apply IH. by apply unheard_step. Qed.

(** Filling to the end gives what was there and the ids. *)
Lemma fill_all desk ids c : cs_refresh c !! desk = Some (Filling ids) ->
  let c' := Nat.iter (S (length ids)) (fun c => refresh_insert c desk) c in
  cs_refresh c' !! desk = None /\ revoked_at c' desk = list_to_set ids ∪ revoked_at c desk /\ cs_redis c' = cs_redis c.
Proof.
  revert c. induction ids as [|id ids IH]; intros c Hp.
  - cbn. unfold refresh_insert. rewrite Hp, phase_at, revoked_at_phase, decide_True by done. split; [done|]. split; [set_solver|done].
  - cbn [length]. rewrite Nat.iter_succ_r. unfold refresh_insert at 2 4 6. rewrite Hp.
    edestruct (IH (set_phase (set_memory c desk ({[id]} ∪ revoked_at c desk)) desk (Some (Filling ids)))) as (H1 & H2 & H3);
      [by rewrite phase_at, decide_True|].
    split; [exact H1|]. split; [|exact H3]. rewrite H2, revoked_at_phase, revoked_at_set, decide_True by done. cbn. set_solver.
Qed.

(** A refresh that nothing interrupts replaces the set by Redis's. *)
Lemma refresh_alone c desk : cs_refresh c !! desk = None -> 
  cs_refresh (refresh_revocations c desk true) !! desk = None /\
  revoked_at (refresh_revocations c desk true) desk = cs_redis c /\ cs_redis (refresh_revocations c desk true) = cs_redis c.
Proof.
  intros Hp. unfold refresh_revocations, refresh_read. rewrite Hp. unfold refresh_clear. rewrite phase_at, decide_True by done.
  set (c1 := set_phase (set_memory _ _ _) _ _).
  destruct (fill_all desk (elements (cs_redis c)) c1) as (H1 & H2 & H3); [unfold c1; by rewrite phase_at, decide_True|].
  replace (length (elements (cs_redis c))) with (size (cs_redis c)) in * by done.
  split; [exact H1|]. split; [|exact H3]. rewrite H2. unfold c1. rewrite revoked_at_phase, revoked_at_set, decide_True by done.
  rewrite list_to_set_elements_L. set_solver.
Qed.

Lemma auth_claims_spec `{Crypto} key revoked now token : 
  auth_claims key revoked now (Some (str "Bearer " ++ token)) =
    match verify_token key now token with
    | Ok claims => if bool_decide (cl_sub claims ∈ revoked) then None else Some claims
    | Err _ => None
    end.
Proof. done. Qed.

Lemma from_hex_digits b : 0 <= b < 256 -> from_hex_pair (hex_digit (b / 16)) (hex_digit (b mod 16)) = Some b.
Proof.
  intros Hb. assert (Hv : forall v, 0 <= v < 16 -> hex_value (hex_digit v) = Some v /\ hex_digit v <> 43).
  { intros v Hv. unfold hex_digit, hex_value. destruct (Z.ltb_spec v 10).
    - destruct (Z.leb_spec 48 (48 + v)), (Z.leb_spec (48 + v) 57); cbn; try lia. split; [f_equal|]; lia.
    - destruct (Z.leb_spec 48 (87 + v)), (Z.leb_spec (87 + v) 57); cbn; try lia.
      destruct (Z.leb_spec 97 (87 + v)), (Z.leb_spec (87 + v) 102); cbn; try lia. split; [f_equal|]; lia. }
  destruct (Hv (b / 16)) as [H1 N1]; [split; [apply Z.div_pos|apply Z.div_lt_upper_bound]; lia|].
  destruct (Hv (b mod 16)) as [H2 _]; [apply Z.mod_pos_bound; lia|].
  unfold from_hex_pair. rewrite (proj2 (Z.eqb_neq _ _) N1), H1, H2. cbn. f_equal. pose proof (Z.div_mod b 16). lia.
Qed.

Lemma decode_to_hex bs : Forall (fun b => 0 <= b < 256) bs -> decode_hex (to_hex bs) = Some bs.
Proof.
  induction 1 as [|b bs Hb _ IH]; [done|]. unfold to_hex in *. cbn [mbind list_bind app decode_hex].
  rewrite from_hex_digits by done. cbn. by rewrite IH.
Qed.

Lemma parse_i64_range s v : parse_i64 s = Some v -> in_i64 v.
Proof.
  unfold parse_i64. destruct (match s with [] => _ | _ => _ end) as [neg body]. destruct body; [done|].
  destruct (forallb _ _); [|done]. destruct (fits_i64 _) eqn:Hf; [|done]. intros [= <-]. by apply fits_i64_spec in Hf.
Qed.

(** The window, and the one timestamp whose distance wraps. *)
Lemma window_exact now ts : 0 <= now < 2 ^ 62 -> in_i64 ts ->
  outside_window now ts = false <-> Z.abs (now - ts) <= API_SIGNATURE_WINDOW_SECS \/ ts = now - 2 ^ 63.
Proof.
  intros Hn Ht. unfold outside_window, API_SIGNATURE_WINDOW_SECS, wrap_i64. rewrite Z.ltb_ge. machine_unfold. split.
  - intros Hw. destruct (decide (now - ts < 2 ^ 63)); Z.div_mod_to_equations; lia.
  - intros [Hw| ->]; Z.div_mod_to_equations; lia.
Qed.

Lemma user_by_email_insert db email hash name ip id :
  user_by_email db email = None ->
  user_by_email (mkUserDb (<[id := mkUser email hash name ip]> (db_users db)) (db_next_id db) (db_keys db) (db_ledger db)) email
  = Some (id, mkUser email hash name ip).
Proof.
  unfold user_by_email. cbn. intros Hnone. set (u := mkUser email hash name ip).
  assert (Hother : forall i v, db_users db !! i = Some v -> us_email v <> email).
  { intros i v Hv He. destruct (List.filter _ _) as [|x l] eqn:Hf; [|done].
    assert (Hin : In (i, v) (List.filter (fun x => bool_decide (us_email x.2 = email)) (map_to_list (db_users db)))).
    { apply filter_In. split; [by apply list_elem_of_In, elem_of_map_to_list|by apply bool_decide_eq_true]. }
    by rewrite Hf in Hin. }
  set (l := List.filter _ _). assert (Hin : In (id, u) l).
  { apply filter_In. split; [apply list_elem_of_In, elem_of_map_to_list, lookup_insert_eq|by apply bool_decide_eq_true]. }
  assert (Hall : forall x, In x l -> x = (id, u)).
  { intros [i v] [Hx%list_elem_of_In He%bool_decide_eq_true]%filter_In. apply elem_of_map_to_list in Hx. cbn in He.
    apply lookup_insert_Some in Hx as [[-> ->]|[_ Hv]]; [done|]. by destruct (Hother _ _ Hv). }
  destruct l as [|x l]; [done|]. cbn. f_equal. apply Hall. by left.
Qed.

Lemma verify_made `{Crypto} key ttl now later u email token : 0 <= now -> 0 <= ttl -> now + ttl <= 253402300799 ->
  make_token key ttl now u email = Some (Ok token) ->
  verify_token key later token = if Z.leb later (now + ttl + 60) then Ok (mkClaims u email (now + ttl)) else Err InvalidToken.
Proof.
  intros Hn Ht Hc. unfold make_token, verify_token. rewrite utc_add_calendar by done. cbn.
  destruct (jwt_encode key _) as [t|] eqn:He; [|done]. intros [= <-]. rewrite (jwt_decode_encode _ _ _ _ He). cbn [cl_exp]. by destruct (Z.leb _ _).
Qed.

Lemma register_login `{Crypto} key ttl db now salt email pw name ip db' resp now2 :
  register key ttl db now salt email pw name ip = Some (db', Ok resp) ->
  login key ttl db' now2 email pw = respond key ttl now2 (ar_user resp) email.
Proof.
  unfold register. destruct (bcrypt_hash salt pw) as [hash|] eqn:Hh; [|done]. unfold insert_user.
  destruct (_ && bool_decide _) eqn:Hok; [|done]. apply andb_true_iff in Hok as [_ Hnone%bool_decide_eq_true]. cbn.
  unfold respond at 1. destruct (make_token key ttl now (db_next_id db) email) as [[tok|]|]; cbn; intros ?; simplify_eq.
  unfold login. pose proof (user_by_email_insert _ email hash name ip (db_next_id db) Hnone) as Hu.
  unfold user_by_email in *. cbn in *. rewrite Hu. cbn. by rewrite (bcrypt_same _ _ _ Hh).
Qed.

(** What a token made at [t0] for [user_id] is good for at [later]: it acts for
    exactly that user until a minute after its lifetime, unless the user is
    revoked; exchanged in that time it gives a token with a new lifetime, as
    [again] shows, unless signing fails. *)
Definition token_of `{Crypto} (key : bytes) (ttl : Z) (revoked : gset Z) (user_id t0 later again : Z) (token : bytes) : Prop :=
  let header token := Some (str "Bearer " ++ token) in
  let allowed t0 t := Z.leb t (t0 + ttl + 60) && negb (bool_decide (user_id ∈ revoked)) in
  auth_user key revoked later (header token) = (if allowed t0 later then Some user_id else None) /\
  exists s, handle_refresh key ttl revoked later (header token) = Some s /\
    if allowed t0 later then
      match s with
      | (HttpOk, Some token) => auth_user key revoked again (header token) = if allowed later again then Some user_id else None
      | s => s = (InternalError, None)
      end
    else s = (Unauthorized, None).

Lemma auth_made `{Crypto} key ttl revoked t t' u email token : 0 <= t -> 0 <= ttl -> t + ttl <= 253402300799 ->
  make_token key ttl t u email = Some (Ok token) ->
  auth_claims key revoked t' (Some (str "Bearer " ++ token)) =
    if Z.leb t' (t + ttl + 60) && negb (bool_decide (u ∈ revoked)) then Some (mkClaims u email (t + ttl)) else None.
Proof.
  intros Hn Ht Hc Hm. rewrite auth_claims_spec, (verify_made key ttl t t' _ _ _ Hn Ht Hc Hm).
  destruct (Z.leb t' _); cbn; [|done]. by destruct (bool_decide _).
Qed.

Lemma make_total `{Crypto} key ttl t u email : 0 <= t -> 0 <= ttl -> t + ttl <= 253402300799 ->
  exists r, make_token key ttl t u email = Some r /\ forall e, r = Err e -> e = TokenEncode.
Proof.
  intros Hn Ht Hc. unfold make_token. rewrite utc_add_calendar by done. cbn. eexists. split; [done|].
  intros e. destruct (jwt_encode _ _); [done|]. by intros [= <-].
Qed.

Lemma made_token `{Crypto} key ttl revoked u email t0 later again token :
  0 <= t0 -> t0 <= later -> 0 <= ttl -> later + ttl <= 253402300799 ->
  make_token key ttl t0 u email = Some (Ok token) -> token_of key ttl revoked u t0 later again token.
Proof.
  intros Hn Hle Ht Hc Hm. unfold token_of, auth_user, handle_refresh. cbv zeta beta.
  rewrite !(auth_made key ttl revoked t0 later u email token) by (done || lia).
  split; [by case_match|]. destruct (_ && _); [|by eexists].
  unfold refresh_token. cbn [cl_sub cl_email]. destruct (make_total key ttl later u email) as ([tok|e] & Hm2 & _); [lia..| |];
    rewrite Hm2; cbn [mbind option_bind]; eexists; (split; [reflexivity|]); [|done].
  cbv iota. rewrite (auth_made key ttl revoked later again u email tok) by (done || lia). by case_match.
Qed.

Lemma registered_token `{Crypto} key ttl db now salt email pw name ip db' resp :
  register key ttl db now salt email pw name ip = Some (db', Ok resp) ->
  make_token key ttl now (ar_user resp) email = Some (Ok (ar_token resp)) /\
  ar_counter_shard_id resp = owner_shard_for_user_id (ar_user resp).
Proof.
  unfold register. destruct (bcrypt_hash salt pw) as [hash|]; [|done]. destruct (insert_user db _) as [db1 [id|]]; [|done].
  unfold respond. destruct (make_token key ttl now id email) as [[tok|]|] eqn:Hm; cbn; intros ?; simplify_eq. cbn. done.
Qed.

(** C36: sessions end to end.  The token of a registration acts for exactly the
    registered user, and so does the one of a later login, which the same
    password and e-mail always give: at every desk that has not revoked the user,
    until a minute after the token's lifetime and not a second longer.  In that
    time either can be exchanged for a token of the same user with a new
    lifetime; after it, or once the user is revoked, the exchange is refused.
    Login and exchange fail only if signing the token does. *)
Theorem session_round_trip `{Crypto} key ttl db now salt email pw name ip db' resp now2 later again revoked :
  register key ttl db now salt email pw name ip = Some (db', Ok resp) ->
  0 <= now -> now <= now2 -> now2 <= later -> 0 <= ttl -> later + ttl <= 253402300799 ->
  ar_counter_shard_id resp = owner_shard_for_user_id (ar_user resp) /\
  token_of key ttl revoked (ar_user resp) now later again (ar_token resp) /\
  exists r, login key ttl db' now2 email pw = Some r /\
    match r with
    | Ok session =>
        ar_user session = ar_user resp /\ ar_counter_shard_id session = owner_shard_for_user_id (ar_user resp) /\
        token_of key ttl revoked (ar_user resp) now2 later again (ar_token session)
    | Err e => e = TokenEncode
    end.
Proof.
  intros Hreg Hn Hn2 Hle Ht Hcal. destruct (registered_token _ _ _ _ _ _ _ _ _ _ _ Hreg) as [Hm Hs].
  split; [exact Hs|]. split; [apply (made_token _ _ _ _ email); (done || lia)|].
  rewrite (register_login _ _ _ _ _ _ _ _ _ _ _ _ Hreg). unfold respond.
  destruct (make_total key ttl now2 (ar_user resp) email) as ([tok|e] & Hm2 & Hf); [lia..| |]; rewrite Hm2; cbn;
    eexists; (split; [reflexivity|]); cbn; [|by apply Hf].
  split; [done|]. split; [done|]. apply (made_token _ _ _ _ email); (done || lia).
Qed.

Lemma revoked_refused `{Crypto} key revoked user_id now header : user_id ∈ revoked ->
  auth_user key revoked now header <> Some user_id /\
  (forall ttl claims, bearer header ≫= (fun token => match verify_token key now token with Ok c => Some c | Err _ => None end) = Some claims ->
     cl_sub claims = user_id -> handle_refresh key ttl revoked now header = Some (Unauthorized, None)).
Proof.
  intros Hin. split.
  - unfold auth_user, auth_claims. intros (claims & Hc & Heq)%fmap_Some.
    apply bind_Some in Hc as (token & _ & Hc). destruct (verify_token key now token) as [claims'|]; [|done].
    case_bool_decide; [done|]. congruence.
  - intros ttl claims Hv Hs. unfold handle_refresh, auth_claims. destruct (bearer header) as [token|]; [|done]. cbn in *.
    destruct (verify_token key now token) as [claims'|]; [|done]. simplify_eq. by rewrite bool_decide_true.
Qed.

(** C35: revocation.  Once a user's revocation has reached Redis and until it is
    lifted, a desk that was told of it lets no token of the user through, for
    requests or for an exchange, however the steps of revocations, liftings,
    refreshes and restarts at all the desks interleave: told is a desk that
    recorded the revocation itself or completed a refresh that asked Redis after
    the revocation, and that since then has neither restarted nor cleared its
    set in a further refresh.  A desk that refreshes undisturbed has been told
    at the end of it.  A user nobody revoked is not refused anywhere. *)
Theorem revocation_effective `{Crypto} key c user_id :
  (forall desk rs now header, Forall (fun r => lifts user_id r = false) rs ->
     let c0 := revoke_redis c user_id in
     let w := foldl (watch desk user_id) (start_watching c0 desk user_id) rs in
     let c' := foldl exec_revocation c0 rs in
     wt_told w = true ->
     auth_user key (revoked_at c' desk) now header <> Some user_id /\
     (forall ttl claims, bearer header ≫= (fun token => match verify_token key now token with Ok c => Some c | Err _ => None end) = Some claims ->
        cl_sub claims = user_id -> handle_refresh key ttl (revoked_at c' desk) now header = Some (Unauthorized, None))) /\
  (forall desk, cs_refresh c !! desk = None ->
     revoked_at (refresh_revocations c desk true) desk = cs_redis c /\ refresh_revocations c desk false = c) /\
  (forall rs desk, Forall (fun r => imposes user_id r = false) rs -> unheard user_id c ->
     is_revoked (foldl exec_revocation c rs) desk user_id = false).
Proof.
  split; [|split].
  - intros desk rs now header Hl c0 w c' Ht.
    destruct (watch_run desk user_id rs (start_watching c0 desk user_id) Hl) as [(_ & Hin & _) Hc].
    { split; [cbn; set_solver|]. split; [by intros ?%bool_decide_eq_true|done]. }
    apply revoked_refused. specialize (Hin Ht). unfold w in Hin. rewrite Hc in Hin. exact Hin.
  - intros desk Hp. split; [by apply refresh_alone|done].
  - intros rs desk Hi Hu. apply bool_decide_eq_false. by apply (unheard_run user_id rs c).
Qed.

(** signed keys.  Signing a timestamp within half a minute of the server's
    clock, as [compute_api_signature] does, authenticates the owner of the key;
    and whatever authenticates is a timestamp in that window (or the one whose
    distance to the clock is [2^63], which wraps) with the signature's bytes. *)
Theorem signature_exact `{Crypto} db api_key user_id secret timestamp ts now :
  db_keys db !! api_key = Some (user_id, Some secret) -> parse_i64 timestamp = Some ts -> 0 <= now < 2 ^ 62 ->
  (Z.abs (now - ts) <= API_SIGNATURE_WINDOW_SECS ->
     verify_api_key_signed db api_key timestamp (compute_api_signature secret timestamp) now = Ok user_id) /\
  (forall sig u, verify_api_key_signed db api_key timestamp sig now = Ok u ->
     u = user_id /\ decode_hex sig = Some (hmac secret timestamp) /\
     (Z.abs (now - ts) <= API_SIGNATURE_WINDOW_SECS \/ ts = now - 2 ^ 63)).
Proof.
  intros Hk Hp Hn. pose proof (parse_i64_range _ _ Hp) as Ht.
  unfold verify_api_key_signed, check_api_signature. rewrite Hk, Hp. split.
  - intros Hw. rewrite (proj2 (window_exact now ts Hn Ht)) by auto. unfold compute_api_signature.
    rewrite decode_to_hex by apply hmac_bytes. by rewrite bool_decide_true.
  - intros sig u. destruct (outside_window now ts) eqn:Hw; [done|]. apply window_exact in Hw; [|done..].
    destruct (decode_hex sig) as [bs|]; [|done]. case_bool_decide as Hs; [|done]. cbn. intros [= <-]. by subst bs.
Qed.

(** ** Concrete runs *)

(** Tokens that carry the key and the claims in clear: the interface asks for
    no secrecy. *)
Definition plain_encode (key : bytes) (c : Claims) : option bytes :=
  Some (cl_sub c :: cl_exp c :: Z.of_nat (length key) :: key ++ cl_email c).

Definition plain_decode (key : bytes) (now : Z) (t : bytes) : option Claims :=
  match t with
  | sub :: exp :: n :: rest =>
      if bool_decide (take (Z.to_nat n) rest = key) && Z.leb now (exp + 60)
      then Some (mkClaims sub (drop (Z.to_nat n) rest) exp) else None
  | _ => None
  end.

Lemma plain_decode_encode key now c t : plain_encode key c = Some t ->
  plain_decode key now t = if Z.leb now (cl_exp c + 60) then Some c else None.
Proof.
  intros [= <-]. unfold plain_decode. rewrite Nat2Z.id, take_app_length, drop_app_length, bool_decide_true by done.
  by destruct c.
Qed.

#[local] Instance plain_crypto : Crypto.
Proof.
  refine {| jwt_encode := plain_encode; jwt_decode := plain_decode;
            hmac := fun key msg => [Z.of_nat (length key + length msg) mod 256];
            bcrypt_hash := fun _ pw => Some pw; bcrypt_verify := fun pw h => Some (bool_decide (pw = h));
            utc_add := fun now s => Some (now + s) |}.
  - exact plain_decode_encode.
  - intros key msg. apply Forall_singleton, Z.mod_pos_bound. lia.
  - intros salt pw h [= <-]. by rewrite bool_decide_true.
  - done.
Defined.

Definition demo_db : UserDb := mkUserDb ∅ 1 {[str "k" := (7, Some (str "s")); str "old" := (8, None)]} (Ledger.new ∅).

Lemma session_round_trip_witness : exists db resp session,
  register (str "key") 900 demo_db 100 [] (str "a@x") (str "pw") None None = Some (db, Ok resp) /\
  auth_user (str "key") ∅ 300 (Some (str "Bearer " ++ ar_token resp)) = Some 1 /\
  login (str "key") 900 db 200 (str "a@x") (str "pw") = Some (Ok session) /\
  auth_user (str "key") ∅ 300 (Some (str "Bearer " ++ ar_token session)) = Some 1.
Proof.
  destruct (register (str "key") 900 demo_db 100 [] (str "a@x") (str "pw") None None) as [[db [resp|]]|] eqn:E;
    [|vm_compute in E; discriminate E..].
  destruct (session_round_trip _ _ _ _ _ _ _ _ _ _ _ 200 300 400 ∅ E ltac:(lia) ltac:(lia) ltac:(lia) ltac:(lia) ltac:(lia))
    as (_ & [Hr _] & [session|e] & Hl & Hs).
  - exists db, resp, session. split; [reflexivity|]. rewrite Hr. destruct Hs as (_ & _ & Ha & _). rewrite Ha, Hl.
    vm_compute in E. injection E as <- <-. vm_compute. auto.
  - exfalso. clear Hs Hr. vm_compute in E. injection E as <- <-. vm_compute in Hl. discriminate Hl.
Defined.

(** Desk 2 begins to refresh before desk 1 has revoked user 7, and asks again
    after. *)
Definition demo_revocation : list revocation :=
  [RefreshClear 2; RefreshInsert 2; RevokeMemory 2 8; RefreshRead 2; Restart 1; RefreshClear 2; UnrevokeRedis 8;
   RefreshInsert 2; RefreshInsert 2].

Lemma revocation_effective_witness :
  let c := exec_revocation (exec_revocation (mkCluster ∅ ∅ ∅) (RefreshRead 2)) (RevokeMemory 1 7) in
  let c' := foldl exec_revocation (revoke_redis c 7) demo_revocation in
  auth_user (str "key") (revoked_at c' 2) 50 (Some (str "Bearer " ++ (7 :: 100 :: 3 :: str "keya@x"))) <> Some 7 /\
  is_revoked c' 2 9 = false.
Proof.
  set (c := exec_revocation (exec_revocation (mkCluster ∅ ∅ ∅) (RefreshRead 2)) (RevokeMemory 1 7)).
  destruct (revocation_effective (str "key") c 7) as [H7 _].
  destruct (revocation_effective (str "key") (mkCluster ∅ ∅ ∅) 9) as [_ [_ H9]]. split.
  - apply (H7 2 demo_revocation 50 (Some (str "Bearer " ++ (7 :: 100 :: 3 :: str "keya@x")))); [|vm_compute; reflexivity].
    repeat constructor.
  - apply (H9 ([RefreshRead 2; RevokeMemory 1 7; RevokeRedis 7] ++ demo_revocation)); [repeat constructor|].
    split; [set_solver|]. intros desk. split; [change (9 ∉ (∅ : gset Z)); set_solver|apply not_elem_of_nil].
Defined.

Lemma signature_exact_witness :
  verify_api_key_signed demo_db (str "k") (str "1750000000") (compute_api_signature (str "s") (str "1750000000")) 1750000030 = Ok 7.
Proof.
  exact (proj1 (signature_exact demo_db (str "k") 7 (str "s") (str "1750000000") 1750000000 1750000030
    eq_refl ltac:(vm_compute; reflexivity) ltac:(lia)) ltac:(vm_compute; discriminate)).
Defined.

(** The distance to the timestamp [2^63] seconds ago wraps to the least
    integer, which is its own absolute value and inside the window. *)
Lemma window_wraps :
  check_api_signature (str "s") (str "-9223372035104775808") (compute_api_signature (str "s") (str "-9223372035104775808"))
    1750000000 = Ok ().
Proof. vm_compute. reflexivity. Qed.

(** The parser of a byte takes a sign: two texts for one signature. *)
Lemma signature_text_not_unique : decode_hex (str "+7") = decode_hex (str "07").
Proof. vm_compute. reflexivity. Qed.

(** A key authenticates whether or not its user is revoked. *)
Lemma revoked_key_authenticates : verify_api_key demo_db (str "old") = Ok 8.
Proof. vm_compute. reflexivity. Qed.

(** Registration credits funds nobody deposited, without an audit row. *)
Lemma registration_unbacked :
  option_map (fun x => (total_balance (db_ledger x.1) (str "USDT"), deposited (db_ledger x.1) (str "USDT"),
                        length (lg_audit (db_ledger x.1))))
    (register (str "key") 900 demo_db 100 [] (str "a@x") (str "pw") None None)
  = Some (1000000000000, 0, 0%nat).
Proof. vm_compute. reflexivity. Qed.

(** A refresh that asked Redis before a revocation and clears the set after it
    loses the revocation until the next refresh. *)
Lemma refresh_race_drops_revocation :
  let c := foldl exec_revocation (mkCluster ∅ ∅ ∅)
             [RefreshRead 1; RevokeMemory 1 7; RevokeRedis 7; RefreshClear 1; RefreshInsert 1] in
  cs_refresh c !! 1 = None /\ 7 ∈ cs_redis c /\ is_revoked c 1 7 = false.
Proof. vm_compute. done. Qed.

(** Between the clearing and the inserts a user revoked long ago passes. *)
Lemma refresh_gap_admits :
  let c := refresh_revocations (mkCluster {[7]} ∅ ∅) 1 true in
  is_revoked c 1 7 = true /\ is_revoked (refresh_clear (refresh_read c 1) 1) 1 7 = false.
Proof. vm_compute. done. Qed.
