(* ===== verification/WsParse.v ===== *)
(** The messages of a WebSocket session ([ClientMsg] of
    [src/src/desk/ws_handler.rs]): the scanner that reads the fields of the
    frequent messages straight from the text, the general path over the JSON
    parser, and the binary frames.

    [serde_json] is a library: its parser is an argument, and a value is what
    its accessors tell of it.  Reading a number is the standard library's,
    modelled as correct rounding of the decimal. *)
From Stdlib Require Import ZArith Lia String SpecFloat.
From stdpp Require Import base numbers list strings.
From S2P Require Import Prelude Bytes Fixed Types F64 Text SymbolRules Sbe WsSbe.

#[local] Open Scope Z_scope.

(** ** Decimal numbers

    [str::parse::<f64>] on the characters the scanner lets through: a sign,
    digits with at most one point and at least one digit, an exponent. *)

Fixpoint take_digits (bs : bytes) : bytes * bytes :=
  match bs with
  | b :: bs' => if is_ascii_digit b then let '(ds, rest) := take_digits bs' in (b :: ds, rest) else ([], bs)
  | [] => ([], [])
  end.

Definition take_sign (bs : bytes) : bool * bytes :=
  match bs with
  | b :: bs' => if Z.eqb b 45 then (true, bs') else if Z.eqb b 43 then (false, bs') else (false, bs)
  | [] => (false, [])
  end.

(** The exponent: nothing, or [e] and a signed number up to the end. *)
Definition parse_exponent (bs : bytes) : option Z :=
  match bs with
  | [] => Some 0
  | b :: bs =>
      if Z.eqb b 101 || Z.eqb b 69 then
        let '(neg, bs) := take_sign bs in
        match take_digits bs with
        | ([], _) => None
        | (ds, []) => Some (if neg then - digits_value ds else digits_value ds)
        | _ => None
        end
      else None
  end.

(** The decimal [m * 10^e], rounded to nearest: past [10^400] it is infinite,
    below [10^-400] zero. *)
Definition decimal_to_f64 (neg : bool) (m e : Z) : f64 :=
  match m with
  | Zpos p =>
      let d := Z.log2 m / 3 + e in
      if Z.ltb 400 e then S754_infinity neg
      else if Z.ltb d (-400) then S754_zero neg
      else if Z.leb 0 e then binary_normalize 53 1024 (cond_Zopp neg (m * 10 ^ e)) 0 neg
      else
        match 10 ^ (- e) with
        | Zpos q => SFdiv 53 1024 (S754_finite neg p 0) (S754_finite false q 0)
        | _ => S754_nan
        end
  | _ => S754_zero neg
  end.

Definition parse_f64 (bs : bytes) : option f64 :=
  let '(neg, bs) := take_sign bs in
  let '(whole, bs) := take_digits bs in
  let '(frac, bs) :=
    match bs with
    | b :: bs' => if Z.eqb b 46 then take_digits bs' else ([], bs)
    | [] => ([], [])
    end in
  if Nat.eqb (length whole + length frac) 0 then None
  else e ← parse_exponent bs;
       Some (decimal_to_f64 neg (digits_value (whole ++ frac)) (e - Z.of_nat (length frac))).

(** ** The scanner *)

(** [starts_with]; the rest. *)
Fixpoint strip_prefix (p s : bytes) : option bytes :=
  match p, s with
  | [], _ => Some s
  | a :: p, b :: s => if Z.eqb a b then strip_prefix p s else None
  | _ :: _, [] => None
  end.

(** [find_json_key]: the text after the first occurrence of the quoted key. *)
Fixpoint find_json_key (key text : bytes) : option bytes :=
  match text with
  | [] => None
  | b :: text =>
      if Z.eqb b 34 then
        match strip_prefix (key ++ [34]) text with
        | Some rest => Some rest
        | None => find_json_key key text
        end
      else find_json_key key text
  end.

(** Up to the next quote, which must be there. *)
Fixpoint until_quote (text : bytes) : option bytes :=
  match text with
  | [] => None
  | b :: text => if Z.eqb b 34 then Some [] else s ← until_quote text; Some (b :: s)
  end.

Fixpoint take_while (p : Z -> bool) (text : bytes) : bytes :=
  match text with
  | b :: text => if p b then b :: take_while p text else []
  | [] => []
  end.

(** After the key: a colon, with white space around it. *)
Definition field_value (text key : bytes) : option bytes :=
  rest ← find_json_key key text;
  rest ← strip_prefix [58] (trim_start rest);
  Some (trim_start rest).

Definition json_str_field (text key : bytes) : option bytes :=
  rest ← field_value text key;
  rest ← strip_prefix [34] rest;
  until_quote rest.

Definition number_char (b : Z) : bool :=
  is_ascii_digit b || Z.eqb b 46 || Z.eqb b 45 || Z.eqb b 43 || Z.eqb b 101 || Z.eqb b 69.

Definition json_f64_field (text key : bytes) : option f64 :=
  rest ← field_value text key;
  match take_while number_char rest with [] => None | s => parse_f64 s end.

Definition json_i64_field (text key : bytes) : option Z :=
  rest ← field_value text key;
  match take_while (fun b => is_ascii_digit b || Z.eqb b 45) rest with [] => None | s => parse_i64 s end.

(** ** Values of the JSON library *)

(** A number is read as a float or, if it is one, as an [i64]. *)
Inductive json :=
| JNull
| JBool (b : bool)
| JNumber (as_f64 : f64) (as_i64 : option Z)
| JString (s : bytes)
| JArray (xs : list json)
| JObject (fields : list (bytes * json)).

Definition get (v : json) (key : bytes) : option json :=
  match v with
  | JObject fields => snd <$> head (List.filter (fun f => bool_decide (f.1 = key)) fields)
  | _ => None
  end.
Definition as_str (v : json) : option bytes := match v with JString s => Some s | _ => None end.
Definition as_f64 (v : json) : option f64 := match v with JNumber f _ => Some f | _ => None end.
Definition as_i64 (v : json) : option Z := match v with JNumber _ i => i | _ => None end.
Definition as_array (v : json) : option (list json) := match v with JArray xs => Some xs | _ => None end.

Definition get_str (v : json) (key : string) : option bytes := get v (str key) ≫= as_str.

(** [to_ascii_lowercase] *)
Definition to_lowercase (s : bytes) : bytes := (fun b => if Z.leb 65 b && Z.leb b 90 then b + 32 else b) <$> s.

(** ** Messages *)

Record PlaceOrderMsg := mkPlaceOrderMsg {
  po_client_order_id : bytes;
  po_symbol : bytes;
  po_side : bytes;
  po_order_type : bytes;
  po_time_in_force : option bytes;
  po_price : option f64;
  po_qty : f64;
}.

Inductive ClientMsg :=
| MsgAuth (token : bytes)
| MsgApiKeyAuth (api_key : bytes) (timestamp signature : option bytes)
| MsgSubscribe (channels : list bytes)
| MsgUnsubscribe (channels : list bytes)
| MsgPlaceOrder (o : PlaceOrderMsg)
| MsgPlaceOrders (batch_id : bytes) (orders : list json)
| MsgCancelOrder (order_id : Z)
| MsgBatchCancel (order_ids : list Z)
| MsgCancelSymbol (symbol : bytes)
| MsgCancelAll
| MsgPing.

Definition parse_place_order_fast (text : bytes) : option ClientMsg :=
  client_order_id ← json_str_field text (str "client_order_id");
  symbol ← json_str_field text (str "symbol");
  side ← json_str_field text (str "side");
  let order_type := default (str "limit") (json_str_field text (str "order_type")) in
  let time_in_force := to_lowercase <$> json_str_field text (str "time_in_force") in
  let price := json_f64_field text (str "price") in
  qty ← match json_f64_field text (str "qty") with Some q => Some q | None => json_f64_field text (str "quantity") end;
  Some (MsgPlaceOrder (mkPlaceOrderMsg client_order_id symbol side order_type time_in_force price qty)).

Section parse.
(** [serde_json::from_str] *)
Variable from_str : bytes -> option json.

Definition strings_of (xs : list json) : list bytes := omap as_str xs.

Definition parse_general (text : bytes) : option ClientMsg :=
  v ← from_str text;
  t ← get_str v "type";
  if decide (t = str "auth") then token ← get_str v "token"; Some (MsgAuth token)
  else if decide (t = str "auth_key") then
    api_key ← get_str v "api_key"; Some (MsgApiKeyAuth api_key (get_str v "timestamp") (get_str v "signature"))
  else if decide (t = str "subscribe") then
    xs ← get v (str "channels") ≫= as_array; Some (MsgSubscribe (strings_of xs))
  else if decide (t = str "unsubscribe") then
    xs ← get v (str "channels") ≫= as_array; Some (MsgUnsubscribe (strings_of xs))
  else if decide (t = str "place_order") then
    client_order_id ← get_str v "client_order_id";
    symbol ← get_str v "symbol";
    side ← get_str v "side";
    q ← match get v (str "qty") with Some q => Some q | None => get v (str "quantity") end;
    qty ← as_f64 q;
    Some (MsgPlaceOrder (mkPlaceOrderMsg client_order_id symbol side (default (str "limit") (get_str v "order_type"))
      (to_lowercase <$> get_str v "time_in_force") (get v (str "price") ≫= as_f64) qty))
  else if decide (t = str "place_orders") then
    Some (MsgPlaceOrders (default [] (get_str v "batch_id")) (default [] (get v (str "orders") ≫= as_array)))
  else if decide (t = str "cancel_order") then id ← get v (str "order_id") ≫= as_i64; Some (MsgCancelOrder id)
  else if decide (t = str "batch_cancel") then
    xs ← get v (str "order_ids") ≫= as_array; Some (MsgBatchCancel (omap as_i64 xs))
  else if decide (t = str "cancel_symbol") then symbol ← get_str v "symbol"; Some (MsgCancelSymbol symbol)
  else if decide (t = str "cancel_all") then Some MsgCancelAll
  else if decide (t = str "ping") then Some MsgPing
  else None.

Definition parse (text : bytes) : option ClientMsg :=
  let ty := json_str_field text (str "type") in
  match (if decide (ty = Some (str "place_order")) then parse_place_order_fast text else None) with
  | Some msg => Some msg
  | None =>
      match (if decide (ty = Some (str "cancel_order")) then json_i64_field text (str "order_id") else None) with
      | Some order_id => Some (MsgCancelOrder order_id)
      | None => parse_general text
      end
  end.
End parse.

(** ** Binary frames

    The outer [None] is the panic on an unknown symbol. *)
Definition parse_place_order_binary (coid : Z) (sym : bytes) (side_byte tif_byte price_ticks quantity_lots : Z)
  : option (option ClientMsg) :=
  let symbol := sym8_to_str sym in
  let side := if Z.eqb side_byte 0 then Some (str "buy") else if Z.eqb side_byte 1 then Some (str "sell") else None in
  let order_type :=
    if Z.eqb tif_byte 0 then Some (str "limit") else if Z.eqb tif_byte 1 then Some (str "ioc")
    else if Z.eqb tif_byte 2 then Some (str "fok") else if Z.eqb tif_byte 3 then Some (str "post_only") else None in
  match side, order_type with
  | Some side, Some order_type =>
      rules ← SymbolRules.for_symbol symbol;
      let price := if Z.eqb price_ticks 0 then None else Some (SymbolRules.ticks_to_price rules price_ticks) in
      Some (Some (MsgPlaceOrder (mkPlaceOrderMsg (print_nonneg coid) symbol side order_type None price
        (SymbolRules.lots_to_quantity rules quantity_lots))))
  | _, _ => Some None
  end.

Definition parse_binary (frame : bytes) : option (option ClientMsg) :=
  match frame with
  | [] => Some None
  | msg_type :: _ =>
      if Z.eqb msg_type CLIENT_PLACE_ORDER then
        r ← decode_client_place_order frame;
        match r with
        | None => Some None
        | Some (coid, sym, side_byte, tif_byte, price_ticks, quantity_lots) =>
            parse_place_order_binary coid sym side_byte tif_byte price_ticks quantity_lots
        end
      else if Z.eqb msg_type CLIENT_CANCEL_ORDER then
        r ← decode_client_cancel_order frame;
        Some match r with Some order_id => Some (MsgCancelOrder order_id) | None => None end
      else if Z.eqb msg_type CLIENT_PING then Some (Some MsgPing)
      else Some None
  end.

(** ** What the scanner finds *)

(** A decimal of the standard parser is the nearest float. *)
Example parse_f64_examples :
  parse_f64 (str "64000.01") = Some (f64_div (i64_as_f64 6400001) (i64_as_f64 100)) /\
  parse_f64 (str "1e3") = Some (i64_as_f64 1000) /\ parse_f64 (str ".5") = Some (f64_lit 1 2) /\
  parse_f64 (str "1e999") = Some (S754_infinity false) /\ parse_f64 (str "-0") = Some (S754_zero true) /\
  parse_f64 (str "1.2.3") = None /\ parse_f64 (str "e5") = None.
Proof. vm_compute. done. Qed.

(** *** Texts cut at their quotes *)

Fixpoint join_quotes (segs : list bytes) : bytes :=
  match segs with
  | [] => []
  | [s] => s
  | s :: segs => s ++ 34 :: join_quotes segs
  end.

Definition unquoted (s : bytes) : Prop := Forall (fun b => b <> 34) s.

(** The first piece between two quotes that is the key; what follows it. *)
Fixpoint find_segment (key : bytes) (segs : list bytes) : option bytes :=
  match segs with
  | s :: ((_ :: _) as rest) => if decide (s = key) then Some (join_quotes rest) else find_segment key rest
  | _ => None
  end.

Lemma strip_prefix_spec p s rest : strip_prefix p s = Some rest <-> s = p ++ rest.
Proof.
  revert s. induction p as [|a p IH]; intros s; cbn; [split; [by intros [= ->]|by intros ->]|].
  destruct s as [|b s]; [done|]. destruct (Z.eqb_spec a b) as [->|Hne]; [rewrite IH; naive_solver|].
  split; [done|]. by intros [= ->].
Qed.

Lemma unquoted_split s s' t t' : unquoted s -> unquoted s' -> s ++ 34 :: t = s' ++ 34 :: t' -> s = s' /\ t = t'.
Proof.
  unfold unquoted. revert s'. induction s as [|b s IH]; intros s' Hs Hs' Heq; destruct s' as [|b' s']; cbn in Heq.
  - by simplify_eq.
  - injection Heq as <- _. by apply Forall_cons in Hs' as [? _].
  - injection Heq as -> _. by apply Forall_cons in Hs as [? _].
  - injection Heq as -> Heq. apply Forall_cons in Hs as [_ Hs], Hs' as [_ Hs']. by destruct (IH s' Hs Hs' Heq) as [-> ->].
Qed.

Lemma find_skip key s t : unquoted s -> find_json_key key (s ++ t) = find_json_key key t.
Proof.
  unfold unquoted. induction 1 as [|b s Hb _ IH]; [done|]. cbn. by rewrite (proj2 (Z.eqb_neq b 34) Hb).
Qed.

Lemma find_json_key_segments key s segs : unquoted key -> unquoted s -> Forall unquoted segs ->
  find_json_key key (join_quotes (s :: segs)) = find_segment key segs.
Proof.
  intros Hk. revert s. induction segs as [|s1 segs IH]; intros s Hs Hsegs.
  - cbn. rewrite <- (app_nil_r s), find_skip by done. done.
  - apply Forall_cons in Hsegs as [Hs1 Hsegs]. change (join_quotes (s :: s1 :: segs)) with (s ++ 34 :: join_quotes (s1 :: segs)).
    rewrite find_skip by done. cbn [find_json_key Z.eqb Pos.eqb]. specialize (IH s1 Hs1 Hsegs). rewrite IH.
    destruct segs as [|s2 segs].
    + destruct (strip_prefix _ _) as [rest|] eqn:Hp; [|done]. apply strip_prefix_spec in Hp. cbn in Hp. rewrite Hp in Hs1.
      unfold unquoted in Hs1. rewrite !Forall_app, Forall_singleton in Hs1. tauto.
    + change (join_quotes (s1 :: s2 :: segs)) with (s1 ++ 34 :: join_quotes (s2 :: segs)).
      change (find_segment key (s1 :: s2 :: segs)) with
        (if decide (s1 = key) then Some (join_quotes (s2 :: segs)) else find_segment key (s2 :: segs)).
      destruct (decide (s1 = key)) as [->|Hd].
      * destruct (strip_prefix _ _) as [rest|] eqn:Hp.
        -- apply strip_prefix_spec in Hp. rewrite <- app_assoc in Hp. apply app_inv_head in Hp. simplify_eq/=. congruence.
        -- exfalso. rewrite (proj2 (strip_prefix_spec _ _ (join_quotes (s2 :: segs)))) in Hp; [done|by rewrite <- app_assoc].
      * destruct (strip_prefix _ _) as [rest|] eqn:Hp; [|done]. apply strip_prefix_spec in Hp. rewrite <- app_assoc in Hp.
        by destruct (unquoted_split _ _ _ _ Hs1 Hk Hp).
Qed.

(** *** Flat objects *)

(** A field's value: a string, or the characters of a number. *)
Inductive field := FStr (s : bytes) | FNum (s : bytes).

Definition render_value (v : field) : bytes := match v with FStr s => 34 :: s ++ [34] | FNum s => s end.
Definition separator (fs : list (bytes * field)) : bytes := match fs with [] => [] | _ => [44] end.

Fixpoint render_fields (fs : list (bytes * field)) : bytes :=
  match fs with
  | [] => [125]
  | (k, v) :: fs => 34 :: k ++ 34 :: 58 :: render_value v ++ separator fs ++ render_fields fs
  end.

(** The text of the object, as a client's serializer prints it. *)
Definition render (fs : list (bytes * field)) : bytes := 123 :: render_fields fs.

(** Keys are identifiers; strings have no quote in them; numbers are made of the
    characters of numbers. *)
Definition key_ok (k : bytes) : Prop := k <> [] /\ Forall (fun b => b <> 34 /\ b <> 44 /\ b <> 58) k.
Definition value_ok (v : field) : Prop :=
  match v with FStr s => unquoted s | FNum s => s <> [] /\ Forall (fun b => number_char b = true) s end.
Definition fields_ok (fs : list (bytes * field)) : Prop := Forall (fun f => key_ok f.1 /\ value_ok f.2) fs.

Definition field_of (fs : list (bytes * field)) (key : bytes) : option field :=
  snd <$> head (List.filter (fun f => bool_decide (f.1 = key)) fs).
Definition string_of (fs : list (bytes * field)) (key : bytes) : option bytes :=
  match field_of fs key with Some (FStr s) => Some s | _ => None end.
Definition number_of (fs : list (bytes * field)) (key : bytes) : option f64 :=
  match field_of fs key with Some (FNum s) => parse_f64 s | _ => None end.

(** No string is the name of the field looked for. *)
Definition no_clash (fs : list (bytes * field)) (key : bytes) : Prop :=
  Forall (fun f => match f.2 with FStr s => s <> key | FNum _ => True end) fs.

(** The pieces of an object's text, the first one preceded by [p]. *)
Fixpoint segments (p : bytes) (fs : list (bytes * field)) : list bytes :=
  match fs with
  | [] => [p ++ [125]]
  | (k, FStr s) :: fs => p :: k :: [58] :: s :: segments (separator fs) fs
  | (k, FNum s) :: fs => p :: k :: segments (58 :: s ++ separator fs) fs
  end.

Lemma segments_cons p fs : exists q qs, segments p fs = q :: qs.
Proof. destruct fs as [|[k [s|s]] fs]; cbn; eauto. Qed.

Lemma join_cons s segs : segs <> [] -> join_quotes (s :: segs) = s ++ 34 :: join_quotes segs.
Proof. by destruct segs. Qed.

Lemma join_segments p fs : join_quotes (segments p fs) = p ++ render_fields fs.
Proof.
  revert p. induction fs as [|[k [s|s]] fs IH]; intros p; cbn [segments render_fields render_value]; [done| |].
  - rewrite !join_cons by (done || by destruct (segments_cons (separator fs) fs) as (? & ? & ->)).
    rewrite IH. cbn. do 4 f_equal. rewrite <- !app_assoc. done.
  - destruct (segments_cons (58 :: s ++ separator fs) fs) as (q & qs & Hq).
    rewrite !join_cons by (done || by rewrite Hq). rewrite IH. cbn. by rewrite <- !app_assoc.
Qed.

Lemma number_chars_unquoted s : Forall (fun b => number_char b = true) s -> unquoted s.
Proof. intros Hs. eapply Forall_impl; [exact Hs|]. intros b Hb ->. vm_compute in Hb. discriminate Hb. Qed.

Lemma separator_unquoted fs : unquoted (separator fs).
Proof. destruct fs; [constructor|]. by apply Forall_singleton. Qed.

Lemma segments_unquoted p fs : unquoted p -> fields_ok fs -> Forall unquoted (segments p fs).
Proof.
  intros Hp Hfs. revert p Hp. induction Hfs as [|[k v] fs [[_ Hk] Hv] _ IH]; intros p Hp.
  - apply Forall_singleton, Forall_app. split; [done|]. by apply Forall_singleton.
  - assert (Huk : unquoted k) by (eapply Forall_impl; [exact Hk|]; naive_solver).
    destruct v as [s|s]; cbn in Hv |- *.
    + repeat (apply Forall_cons; split; [done || (by apply Forall_singleton)|]). apply IH, separator_unquoted.
    + do 2 (apply Forall_cons; split; [done|]). apply IH. apply Forall_cons. split; [done|]. apply Forall_app.
      split; [apply number_chars_unquoted, Hv|apply separator_unquoted].
Qed.

(** The scanner finds the first field of that name. *)
Fixpoint find_field (key : bytes) (fs : list (bytes * field)) : option (field * bytes) :=
  match fs with
  | [] => None
  | (k, v) :: fs => if decide (k = key) then Some (v, separator fs ++ render_fields fs) else find_field key fs
  end.

Lemma find_segment_skip key q fs : q <> key -> find_segment key (segments q fs) = find_segment key (tail (segments q fs)).
Proof. intros Hq. destruct fs as [|[k [s|s]] fs]; [done|..]; cbn [segments find_segment tail]; rewrite (decide_False (P := q = key)) by done; [done|]. by destruct (segments_cons (58 :: s ++ separator fs) fs) as (? & ? & ->). Qed.

Lemma find_segments key p fs : key_ok key -> no_clash fs key ->
  find_segment key (tail (segments p fs)) = (fun x => 58 :: render_value x.1 ++ x.2) <$> find_field key fs.
Proof.
  intros [Hk0 Hk] Hcl.
  assert (Hsep : forall b s, b = 44 \/ b = 58 -> b :: s <> key).
  { intros b s Hb <-. apply Forall_cons in Hk as [Hk _]. lia. }
  assert (Hsep' : forall fs : list (bytes * field), separator fs <> key) by (intros [|f l]; cbn; [congruence|apply Hsep; lia]).
  revert p. induction Hcl as [|[k v] fs Hc _ IH]; intros p; [done|]. cbn [find_field]. destruct v as [s|s]; cbn [segments tail].
  - cbn [find_segment]. destruct (decide (k = key)) as [->|Hne].
    + rewrite !join_cons by (done || by destruct (segments_cons (separator fs) fs) as (? & ? & ->)).
      rewrite join_segments. cbn. by rewrite <- app_assoc.
    + rewrite (decide_False (P := [58] = key)) by (apply Hsep; lia).
      destruct (segments_cons (separator fs) fs) as (q & qs & Hq). rewrite Hq. rewrite <- Hq.
      rewrite (decide_False (P := s = key)) by exact Hc. rewrite find_segment_skip by apply Hsep'. apply IH.
  - destruct (segments_cons (58 :: s ++ separator fs) fs) as (q & qs & Hq).
    assert (Hstep : find_segment key (k :: segments (58 :: s ++ separator fs) fs) =
      if decide (k = key) then Some (join_quotes (segments (58 :: s ++ separator fs) fs))
      else find_segment key (segments (58 :: s ++ separator fs) fs)) by (by rewrite Hq).
    rewrite Hstep. destruct (decide (k = key)) as [->|Hne].
    + rewrite join_segments. cbn. by rewrite <- app_assoc.
    + rewrite find_segment_skip by (apply Hsep; lia). apply IH.
Qed.

Lemma find_field_of key fs : field_of fs key = fst <$> find_field key fs.
Proof.
  unfold field_of. induction fs as [|[k v] fs IH]; [done|]. cbn. destruct (decide (k = key)) as [->|Hne].
  - by rewrite bool_decide_true.
  - by rewrite bool_decide_false.
Qed.

Lemma trim_start_solid b bs : solid b -> trim_start (b :: bs) = b :: bs.
Proof. intros Hb. unfold trim_start. cbn [length trim_start_fuel]. by rewrite white_space_solid. Qed.

Lemma number_char_solid b : number_char b = true -> solid b.
Proof.
  unfold number_char, is_ascii_digit, solid. rewrite !orb_true_iff, andb_true_iff, !Z.eqb_eq, !Z.leb_le. lia.
Qed.

Lemma field_value_render fs key : key_ok key -> fields_ok fs -> no_clash fs key ->
  field_value (render fs) key = (fun x => render_value x.1 ++ x.2) <$> find_field key fs.
Proof.
  intros Hk Hok Hcl. unfold field_value, render.
  assert (Hj : 123 :: render_fields fs = join_quotes (segments [123] fs)) by (by rewrite join_segments).
  rewrite Hj. destruct (segments_cons [123] fs) as (q & qs & Hq).
  assert (Hun : Forall unquoted (segments [123] fs)) by (apply segments_unquoted; [by apply Forall_singleton|done]).
  rewrite Hq in Hun |- *. apply Forall_cons in Hun as [Hun1 Hun].
  assert (Hkq : unquoted key) by (destruct Hk as [_ Hk]; eapply Forall_impl; [exact Hk|]; naive_solver).
  rewrite find_json_key_segments by done. change qs with (tail (q :: qs)). rewrite <- Hq, find_segments by done.
  destruct (find_field key fs) as [[v rest]|] eqn:Hf; [|done]. cbn [fmap option_fmap option_map mbind option_bind fst snd].
  rewrite trim_start_solid by (unfold solid; lia). cbn [strip_prefix Z.eqb Pos.eqb mbind option_bind]. f_equal.
  assert (Hv : value_ok v).
  { revert Hf Hok. clear. induction fs as [|[k w] fs IH]; [done|]. cbn. intros Hf [[_ Hw] Hok]%Forall_cons.
    case_decide; [by simplify_eq|by apply IH]. }
  destruct v as [s|[|b s]]; cbn [render_value value_ok app] in *; [by apply trim_start_solid| |]; destruct Hv as [Hv0 Hv]; [done|].
  apply trim_start_solid, number_char_solid. by apply Forall_cons in Hv as [? _].
Qed.

Lemma until_quote_app s rest : unquoted s -> until_quote (s ++ 34 :: rest) = Some s.
Proof.
  unfold unquoted. induction 1 as [|b s Hb _ IH]; [done|]. cbn. by rewrite (proj2 (Z.eqb_neq b 34) Hb), IH.
Qed.

Lemma take_while_app p s rest : Forall (fun b => p b = true) s -> (forall b, head rest = Some b -> p b = false) ->
  take_while p (s ++ rest) = s.
Proof.
  intros Hs Hr. induction Hs as [|b s Hb _ IH]; cbn; [|by rewrite Hb, IH].
  destruct rest as [|b rest]; [done|]. cbn. by rewrite (Hr b).
Qed.

Lemma found_ok fs key v rest : fields_ok fs -> find_field key fs = Some (v, rest) ->
  value_ok v /\ exists fs', rest = separator fs' ++ render_fields fs'.
Proof.
  induction 1 as [|[k w] fs [_ Hw] _ IH]; [done|]. cbn. case_decide; [|exact IH]. intros [= <- <-]. split; [done|by exists fs].
Qed.

Lemma json_str_field_render fs key : key_ok key -> fields_ok fs -> no_clash fs key ->
  json_str_field (render fs) key = string_of fs key.
Proof.
  intros Hk Hok Hcl. unfold json_str_field, string_of. rewrite field_value_render, find_field_of by done.
  destruct (find_field key fs) as [[v rest]|] eqn:Hf; [|done]. destruct (found_ok _ _ _ _ Hok Hf) as [Hv _].
  cbn [fmap option_fmap option_map mbind option_bind fst snd]. destruct v as [s|[|b s]]; cbn [render_value app] in *.
  - cbn. rewrite <- app_assoc. by apply until_quote_app.
  - by destruct Hv.
  - destruct Hv as [_ [Hb _]%Forall_cons]. unfold strip_prefix. rewrite (proj2 (Z.eqb_neq 34 b)); [done|].
    intros <-. vm_compute in Hb. discriminate Hb.
Qed.

Lemma json_f64_field_render fs key : key_ok key -> fields_ok fs -> no_clash fs key ->
  json_f64_field (render fs) key = number_of fs key.
Proof.
  intros Hk Hok Hcl. unfold json_f64_field, number_of. rewrite field_value_render, find_field_of by done.
  destruct (find_field key fs) as [[v rest]|] eqn:Hf; [|done]. destruct (found_ok _ _ _ _ Hok Hf) as [Hv [fs' ->]].
  destruct v as [s|s]; cbn [fmap option_fmap option_map mbind option_bind fst snd render_value]; [done|].
  destruct Hv as [Hs0 Hs]. rewrite take_while_app; [by destruct s|done|].
  intros b. destruct fs' as [|[k w] fs']; cbn; by intros [= <-].
Qed.

(** ** The claim *)

(** The names the fast path looks for. *)
Definition scanned_keys : list bytes :=
  [str "type"; str "client_order_id"; str "symbol"; str "side"; str "order_type"; str "time_in_force"; str "price"; str "qty"; str "quantity"].

#[local] Instance value_ok_dec v : Decision (value_ok v).
Proof. destruct v; cbn; unfold unquoted; apply _. Defined.
#[local] Instance key_ok_dec k : Decision (key_ok k).
Proof. unfold key_ok. apply _. Defined.
#[local] Instance fields_ok_dec fs : Decision (fields_ok fs).
Proof. unfold fields_ok. apply _. Defined.
#[local] Instance no_clash_dec fs key : Decision (no_clash fs key).
Proof. unfold no_clash. apply @Forall_dec. intros [k [s|s]]; cbn; apply _. Defined.

Lemma scanned_ok : Forall key_ok scanned_keys.
Proof. apply (bool_decide_unpack (Forall key_ok scanned_keys)). vm_compute. exact I. Qed.

(** C37: the fast path reads what was sent.  Take any flat JSON object as a
    serializer prints it (fields in any order, further fields among them, every
    string without an escape and none equal to a field name the scanner looks
    for) of type [place_order] with an id, a symbol, a side and a quantity.  The
    scanner makes of it the order whose every field is the value of the field of
    that name, with the documented defaults; no other text of the object is
    mistaken for a field.  The JSON library is not consulted. *)
Theorem place_order_text_exact from_str fs coid symbol side qty :
  fields_ok fs -> Forall (no_clash fs) scanned_keys ->
  string_of fs (str "type") = Some (str "place_order") ->
  string_of fs (str "client_order_id") = Some coid -> string_of fs (str "symbol") = Some symbol ->
  string_of fs (str "side") = Some side ->
  match number_of fs (str "qty") with Some q => Some q | None => number_of fs (str "quantity") end = Some qty ->
  parse from_str (render fs) = Some (MsgPlaceOrder (mkPlaceOrderMsg coid symbol side
    (default (str "limit") (string_of fs (str "order_type")))
    (to_lowercase <$> string_of fs (str "time_in_force")) (number_of fs (str "price")) qty)).
Proof.
  intros Hok Hcl Ht Hc Hsy Hsi Hq. pose proof scanned_ok as Hk. rewrite Forall_forall in Hcl, Hk.
  assert (Hs : forall k, k ∈ scanned_keys -> json_str_field (render fs) k = string_of fs k)
    by (intros k Hin; apply json_str_field_render; auto).
  assert (Hn : forall k, k ∈ scanned_keys -> json_f64_field (render fs) k = number_of fs k)
    by (intros k Hin; apply json_f64_field_render; auto).
  unfold parse, parse_place_order_fast. rewrite !Hs, !Hn by (unfold scanned_keys; repeat (left + right); done).
  rewrite Ht, Hc, Hsy, Hsi. cbn [mbind option_bind]. rewrite Hq, decide_True by done. done.
Qed.

Definition demo_fields : list (bytes * field) :=
  [(str "type", FStr (str "place_order")); (str "side", FStr (str "buy")); (str "client_order_id", FStr (str "c-1"));
   (str "symbol", FStr (str "BTC_USDT")); (str "leverage", FNum (str "10")); (str "price", FNum (str "64000.5"));
   (str "time_in_force", FStr (str "IOC")); (str "quantity", FNum (str "0.25"))].

Lemma place_order_text_exact_witness : parse (fun _ => None) (render demo_fields) =
  Some (MsgPlaceOrder (mkPlaceOrderMsg (str "c-1") (str "BTC_USDT") (str "buy") (str "limit") (Some (str "ioc"))
    (Some (f64_lit 128001 2)) (f64_lit 1 4))).
Proof.
  rewrite (place_order_text_exact (fun _ => None) demo_fields (str "c-1") (str "BTC_USDT") (str "buy") (f64_lit 1 4));
    try (vm_compute; reflexivity).
  - apply (bool_decide_unpack (fields_ok _)). vm_compute. exact I.
  - apply (bool_decide_unpack (Forall (no_clash demo_fields) _)). vm_compute. exact I.
Defined.

(** A string that is the name of a later field hides that field: with
    "time_in_force" for an id, an immediate-or-cancel order becomes one that
    rests. *)
Lemma id_hides_time_in_force :
  parse (fun _ => None) (render
    [(str "type", FStr (str "place_order")); (str "client_order_id", FStr (str "time_in_force")); (str "symbol", FStr (str "BTC_USDT"));
     (str "side", FStr (str "buy")); (str "price", FNum (str "64000.5")); (str "qty", FNum (str "0.25"));
     (str "time_in_force", FStr (str "IOC"))])
  = Some (MsgPlaceOrder (mkPlaceOrderMsg (str "time_in_force") (str "BTC_USDT") (str "buy") (str "limit") None
      (Some (f64_lit 128001 2)) (f64_lit 1 4))).
Proof. vm_compute. reflexivity. Qed.
