(* ===== verification/WsEntry.v ===== *)
(** Order entry of the WebSocket gateway ([src/src/desk/ws_handler.rs]): the
    session of a connection, the handlers of its messages when the engines are
    reached over Aeron, and the loop that reads its frames.

    The handlers share the desk's account cache, risk engine and order tables
    with its threads (Desk, DeskSend), and put their commands on two bounded
    queues: one to this desk's send thread, one to the desk that owns the user.
    What other parties decide is an argument: the clock, the rows of a query,
    the desk's set of revoked users.  The mode with matching engines inside the
    desk is not modelled.  WsProps has the theorems. *)
From Stdlib Require Import ZArith Lia String.
From stdpp Require Import base numbers list gmap sets.
From S2P Require Import SymbolThread.
From S2P Require Import Prelude Bytes Fixed Types F64 Text Money RiskCalc RiskEngine RiskTyped SymbolRules Pod Sbe WsSbe Routing.
From S2P Require Import RateLimit PersistEvent CounterForward Desk DeskSend Auth WsParse.

#[local] Open Scope Z_scope.

(** ** State *)

(** The switches read from the environment once, and the capacities of the two
    queues; without a forwarding queue the desk serves its own users only. *)
Record GatewayConfig := mkGatewayConfig {
  gc_desk_id : Z;
  gc_valid_symbols : gset bytes;
  gc_cmd_capacity : nat;
  gc_latency_cap : option nat;
  gc_forward_capacity : option nat;
  gc_push_bal : bool;
  gc_inline_submitted : bool;
  gc_public_market_data : bool;
}.

(** The shared state the handlers use.  [gw_slots] says which connection
    receives what is addressed to a user; [gw_spawned] are background tasks that
    have not run. *)
Record Gateway := mkGateway {
  gw_desk : Desk;
  gw_limiter : SharedRateLimiter;
  gw_next_order_id : Z;
  gw_cmds : list AeronCmd;
  gw_forward : list CounterForwardMsg;
  gw_slots : gmap Z Z;
  gw_spawned : list (Z * bytes);
  gw_last_depth : gmap bytes bytes;
  gw_last_ticker : gmap bytes bytes;
}.

Module Gateway.
Definition set_desk (g : Gateway) (x : Desk) : Gateway :=
  mkGateway x (gw_limiter g) (gw_next_order_id g) (gw_cmds g) (gw_forward g) (gw_slots g) (gw_spawned g)
    (gw_last_depth g) (gw_last_ticker g).
Definition set_limiter (g : Gateway) (x : SharedRateLimiter) : Gateway :=
  mkGateway (gw_desk g) x (gw_next_order_id g) (gw_cmds g) (gw_forward g) (gw_slots g) (gw_spawned g)
    (gw_last_depth g) (gw_last_ticker g).
Definition set_next_order_id (g : Gateway) (x : Z) : Gateway :=
  mkGateway (gw_desk g) (gw_limiter g) x (gw_cmds g) (gw_forward g) (gw_slots g) (gw_spawned g)
    (gw_last_depth g) (gw_last_ticker g).
Definition set_cmds (g : Gateway) (x : list AeronCmd) : Gateway :=
  mkGateway (gw_desk g) (gw_limiter g) (gw_next_order_id g) x (gw_forward g) (gw_slots g) (gw_spawned g)
    (gw_last_depth g) (gw_last_ticker g).
Definition set_forward (g : Gateway) (x : list CounterForwardMsg) : Gateway :=
  mkGateway (gw_desk g) (gw_limiter g) (gw_next_order_id g) (gw_cmds g) x (gw_slots g) (gw_spawned g)
    (gw_last_depth g) (gw_last_ticker g).
Definition set_slots (g : Gateway) (x : gmap Z Z) : Gateway :=
  mkGateway (gw_desk g) (gw_limiter g) (gw_next_order_id g) (gw_cmds g) (gw_forward g) x (gw_spawned g)
    (gw_last_depth g) (gw_last_ticker g).
Definition set_spawned (g : Gateway) (x : list (Z * bytes)) : Gateway :=
  mkGateway (gw_desk g) (gw_limiter g) (gw_next_order_id g) (gw_cmds g) (gw_forward g) (gw_slots g) x
    (gw_last_depth g) (gw_last_ticker g).
End Gateway.

Record WsSession := mkWsSession { ws_user_id : option Z; ws_subscribed : gset bytes }.
Definition WsSession_new : WsSession := mkWsSession None ∅.

(** [ArrayQueue::push] *)
Definition push_cmd (cfg : GatewayConfig) (g : Gateway) (cmd : AeronCmd) : option Gateway :=
  if Nat.ltb (length (gw_cmds g)) (gc_cmd_capacity cfg) then Some (Gateway.set_cmds g (vec_push (gw_cmds g) cmd)) else None.

Definition push_forward (capacity : nat) (g : Gateway) (msg : CounterForwardMsg) : option Gateway :=
  if Nat.ltb (length (gw_forward g)) capacity then Some (Gateway.set_forward g (vec_push (gw_forward g) msg)) else None.

(** *** The registry of connections *)

(** [UserTxRegistry::idx] *)
Definition slot_of (user_id : Z) : option Z :=
  if Z.ltb 0 user_id && Z.ltb user_id USER_TX_CAPACITY then Some user_id else None.

(** The desk's threads see which users have a slot that is set. *)
Definition with_slots (g : Gateway) (slots : gmap Z Z) : Gateway :=
  let d := gw_desk g in
  let w := dk_wiring d in
  let w := mkWiring (w_env w) (w_config w) (dom slots) (w_engines w) (w_peers w) (w_tiers w) (w_queue_capacity w)
             (w_response_stream_id w) in
  Gateway.set_slots (Gateway.set_desk g (mkDesk w (dk_accounts d) (dk_risk d) (dk_vwap d) (dk_orders d) (dk_queue d)
                                           (dk_dropped d) (dk_sent d))) slots.

Definition register_conn (g : Gateway) (user_id conn : Z) : Gateway :=
  match slot_of user_id with Some i => with_slots g (<[i := conn]> (gw_slots g)) | None => g end.

Definition unregister_conn (g : Gateway) (user_id : Z) : Gateway :=
  match slot_of user_id with Some i => with_slots g (delete i (gw_slots g)) | None => g end.

(** ** Texts *)

Definition print_i64 (z : Z) : bytes := if Z.ltb z 0 then 45 :: print_nonneg (- z) else print_nonneg z.

Definition wrong_counter_shard_message (user_id desk_id : Z) : bytes :=
  str "wrong counter shard: user_id=" ++ print_i64 user_id ++ str " owner_shard_id="
  ++ print_i64 (owner_shard_for_user_id user_id) ++ str " desk_id=" ++ print_i64 desk_id.

Definition limit_reason (op : OpClass) : bytes :=
  match op with RateLimit.Place => str "rate limit exceeded (place)" | RateLimit.Cancel => str "rate limit exceeded (cancel)" end.

(** ** Reading an order *)

Definition parse_side (side : bytes) : option Side :=
  if decide (side = str "buy") then Some Buy else if decide (side = str "sell") then Some Sell else None.

(** A separate [time_in_force] counts for the generic order types. *)
Definition parse_tif (order_type : bytes) (time_in_force : option bytes) : option TimeInForce :=
  if decide (order_type = str "ioc") then Some IOC
  else if decide (order_type = str "fok") then Some FOK
  else if decide (order_type = str "post_only") then Some PostOnly
  else if decide (order_type = str "market") then Some IOC
  else if decide (order_type = str "limit" \/ order_type = str "gtc") then
    Some (if decide (time_in_force = Some (str "ioc")) then IOC
          else if decide (time_in_force = Some (str "fok")) then FOK
          else if decide (time_in_force = Some (str "post_only")) then PostOnly
          else GTC)
  else None.

Definition side_byte (s : Side) : Z := match s with Buy => 0 | Sell => 1 end.
Definition tif_byte (t : TimeInForce) : Z := match t with GTC => 0 | IOC => 1 | FOK => 2 | PostOnly => 3 end.

(** The best price on the other side of the last depth frame; the outer
    [option] is a panic of the decoder. *)
Definition best_opposing_from_depth (g : Gateway) (symbol side : bytes) : option (option f64) :=
  match gw_last_depth g !! symbol with
  | None => Some None
  | Some buf =>
      p ← decode_best_price buf (bool_decide (side = str "buy"));
      Some (option_map f64_of_bits p)
  end.

(** The price that backs the reservation of a buy; 0 for a sell. *)
Definition freeze_price_of (side : bytes) (price best_opposing : option f64) : f64 :=
  if decide (side = str "buy") then
    match price with Some p => p | None => default f64_zero best_opposing end
  else f64_zero.

Definition reservation_ticks (rules : SymbolRules) (shape : FixedOrderShape) (freeze_price : f64) : result Z bytes :=
  let ticks := default 0 (fos_price_ticks shape) in
  if Z.ltb 0 ticks then Ok ticks
  else if f64_le freeze_price f64_zero then Err (str "Unable to determine buy reservation price")
  else Ok (f64_as_i64 (f64_round (f64_div freeze_price (sr_price_tick rules)))).

Definition required_margin (rules : SymbolRules) (ticks lots : Z) : option Z :=
  if Z.ltb 0 ticks then
    notional ← calc_notional_atoms ticks lots (sr_notional_scale rules);
    calc_initial_margin_atoms notional (sr_default_leverage rules)
  else Some 0.

Definition quote_of (symbol : bytes) : bytes := match split_once 95 symbol with Some (_, q) => q | None => str "USDT" end.

(** What the checks of an order determine. *)
Record Ticket := mkTicket {
  tc_shape : FixedOrderShape;
  tc_rules : SymbolRules;
  tc_side : Side;
  tc_tif : TimeInForce;
  tc_freeze_price : f64;
  tc_margin : Z;
}.

(** The reservation of a checked order, from its limit or its freeze price. *)
Definition price_ticket (rules : SymbolRules) (shape : FixedOrderShape) (side : Side) (tif : TimeInForce) (freeze_price : f64)
  : option (result Ticket bytes) :=
  match reservation_ticks rules shape freeze_price with
  | Err reason => Some (Err reason)
  | Ok ticks =>
      margin ← required_margin rules ticks (fos_quantity_lots shape);
      Some (if Z.leb margin 0 then Err (str "Unable to determine margin requirement")
            else Ok (mkTicket shape rules side tif freeze_price margin))
  end.

Definition known_symbol (cfg : GatewayConfig) (symbol : bytes) : bool :=
  bool_decide (gc_valid_symbols cfg = ∅) || bool_decide (symbol ∈ gc_valid_symbols cfg).

(** The checks of [PlaceOrder], in order; [Err] is the reason of the refusal. *)
Definition check_order (cfg : GatewayConfig) (g : Gateway) (o : PlaceOrderMsg) : option (result Ticket bytes) :=
  shape ← normalize_order_shape (po_symbol o) (po_order_type o) (po_price o) (po_qty o);
  match shape with
  | Err e => Some (Err (str e))
  | Ok shape =>
      match parse_side (po_side o) with
      | None => Some (Err (str "Invalid side"))
      | Some side =>
          match parse_tif (po_order_type o) (po_time_in_force o) with
          | None => Some (Err (str "Unknown order type"))
          | Some tif =>
              rules ← SymbolRules.for_symbol (po_symbol o);
              opposing ← (if bool_decide (po_side o = str "buy") && bool_decide (po_price o = None)
                          then best_opposing_from_depth g (po_symbol o) (po_side o) else Some None);
              let freeze_price := freeze_price_of (po_side o) (po_price o) opposing in
              if known_symbol cfg (po_symbol o) then price_ticket rules shape side tif freeze_price
              else Some (Err (str "No engine for symbol: " ++ po_symbol o))
          end
      end
  end.

(** ** Placing an order *)

Definition take_order_id (g : Gateway) : Gateway * Z :=
  (Gateway.set_next_order_id g (wrap_u64 (gw_next_order_id g + 1)), gw_next_order_id g).

Definition order_request (order_id user_id stream : Z) (symbol : bytes) (t : Ticket) : NewOrderRequest :=
  mkNewOrderRequest order_id (wrap_u64 user_id) (default 0 (fos_price_ticks (tc_shape t))) (fos_quantity_lots (tc_shape t))
    (side_byte (tc_side t)) (tif_byte (tc_tif t)) stream 0 (zeros 9) (pack_str 16 symbol).

Definition order_meta (user_id : Z) (o : PlaceOrderMsg) (t : Ticket) : OrderMeta :=
  mkOrderMeta user_id (pack_str 16 (po_symbol o)) (side_byte (tc_side t)) (pack_str16 (po_order_type o))
    (f64_to_bits <$> po_price o) (f64_to_bits (po_qty o)) (po_client_order_id o) (f64_to_bits (tc_freeze_price t))
    (tc_margin t) 0.

Definition rejection (reason : bytes) : option bytes := Some (encode_order_rejected 0 reason).

Definition submitted (cfg : GatewayConfig) (order_id ts : Z) : option bytes :=
  if gc_inline_submitted cfg then Some (encode_order_submitted order_id order_id ts) else None.

(** To the desk that owns the user. *)
Definition forward_order (cfg : GatewayConfig) (g : Gateway) (user_id : Z) (o : PlaceOrderMsg) (t : Ticket) (ts : Z)
  : Gateway * option bytes :=
  match gc_forward_capacity cfg with
  | None => (g, rejection (wrong_counter_shard_message user_id (gc_desk_id cfg)))
  | Some capacity =>
      let owner := owner_shard_for_user_id user_id in
      let '(g, order_id) := take_order_id g in
      let req := order_request order_id user_id (order_update_stream_for_desk owner) (po_symbol o) t in
      let meta := CounterForwardOrderMeta.new user_id (pack_str 16 (po_symbol o)) (side_byte (tc_side t)) (po_order_type o)
                    (f64_to_bits <$> po_price o) (f64_to_bits (po_qty o)) (f64_to_bits (tc_freeze_price t)) (tc_margin t)
                    (po_client_order_id o) in
      match push_forward capacity g (NewOrder (CounterForwardNewOrder.new (gc_desk_id cfg) req meta)) with
      | Some g => (g, submitted cfg order_id ts)
      | None => (g, rejection (str "system busy"))
      end
  end.

(** The margin as the handler freezes it. *)
Definition margin_usdt (margin : Z) : f64 := f64_div (i64_as_f64 margin) (i64_as_f64 100).

(** The balance of an account to its owner. *)
Definition push_balance (d : Desk) (user_id : Z) (asset : bytes) : Desk :=
  match account_of (dk_accounts d) user_id asset with
  | Some kv => notify_balance d user_id asset (AccountBalance.balance kv) (AccountBalance.frozen kv)
  | None => d
  end.

Definition queue_too_deep (cfg : GatewayConfig) (g : Gateway) : bool :=
  match gc_latency_cap cfg with Some cap => Nat.leb cap (length (gw_cmds g)) | None => false end.

(** Full queue: the reservation is taken back. *)
Definition undo_order (d : Desk) (order_id user_id margin : Z) (asset : bytes) : Desk :=
  let d := map_pending_meta d (delete order_id) in
  let d := Desk.set_risk d (RiskEngine.release_order_margin (dk_risk d) user_id margin) in
  Desk.set_accounts d (release_cache_frozen (dk_accounts d) user_id asset (margin_usdt margin)).

(** The order with its funds reserved goes on the queue. *)
Definition enqueue_order (cfg : GatewayConfig) (g : Gateway) (user_id : Z) (o : PlaceOrderMsg) (t : Ticket) (ts : Z)
  : Gateway * option bytes :=
  let quote := quote_of (po_symbol o) in
  let g := if gc_push_bal cfg then Gateway.set_desk g (push_balance (gw_desk g) user_id quote) else g in
  let '(g, order_id) := take_order_id g in
  let req := order_request order_id user_id (w_response_stream_id (dk_wiring (gw_desk g))) (po_symbol o) t in
  let g := Gateway.set_desk g (map_pending_meta (gw_desk g) (<[order_id := order_meta user_id o t]>)) in
  match (if queue_too_deep cfg g then None else push_cmd cfg g (CmdNewOrder req)) with
  | Some g => (g, submitted cfg order_id ts)
  | None => (Gateway.set_desk g (undo_order (gw_desk g) order_id user_id (tc_margin t) quote), rejection (str "system busy"))
  end.

Definition submit_local (cfg : GatewayConfig) (g : Gateway) (user_id : Z) (o : PlaceOrderMsg) (t : Ticket) (ts : Z)
  : Gateway * option bytes :=
  let d := gw_desk g in
  let sym16 := pack_str16 (po_symbol o) in
  let lots := fos_quantity_lots (tc_shape t) in
  match RiskEngine.check_position_limit (dk_risk d) user_id sym16 lots (sr_max_position_lots (tc_rules t)) with
  | Err e => (g, rejection (str e))
  | Ok _ =>
  match RiskEngine.check_symbol_oi_limit (dk_risk d) sym16 lots (sr_max_symbol_oi_lots (tc_rules t)) with
  | Err e => (g, rejection (str e))
  | Ok _ =>
  match RiskEngine.check_and_reserve_margin (dk_risk d) user_id (tc_margin t) with
  | (risk, Err e) => (Gateway.set_desk g (Desk.set_risk d risk), rejection (str e))
  | (risk, Ok _) =>
      let d := Desk.set_risk d risk in
      match try_freeze_cache (dk_accounts d) user_id (quote_of (po_symbol o)) (margin_usdt (tc_margin t)) with
      | (cache, false) =>
          let d := Desk.set_accounts d cache in
          let d := Desk.set_risk d (RiskEngine.release_order_margin (dk_risk d) user_id (tc_margin t)) in
          (Gateway.set_desk g d, rejection (str "Insufficient balance"))
      | (cache, true) => enqueue_order cfg (Gateway.set_desk g (Desk.set_accounts d cache)) user_id o t ts
      end
  end
  end
  end.

(** [created] and [now] are the limiter's readings of the clock, [ts] that of the
    reply. *)
Definition place_order (cfg : GatewayConfig) (g : Gateway) (s : WsSession) (o : PlaceOrderMsg) (created now ts : Z)
  : option (Gateway * option bytes) :=
  match ws_user_id s with
  | None => Some (g, rejection (str "Not authenticated"))
  | Some user_id =>
      match SharedRateLimiter.try_consume (gw_limiter g) user_id RateLimit.Place created now with
      | (l, Err op) => Some (Gateway.set_limiter g l, rejection (limit_reason op))
      | (l, Ok _) =>
          let g := Gateway.set_limiter g l in
          checked ← check_order cfg g o;
          Some match checked with
               | Err reason => (g, rejection reason)
               | Ok t =>
                   if is_user_owned_by_desk user_id (gc_desk_id cfg) then submit_local cfg g user_id o t ts
                   else forward_order cfg g user_id o t ts
               end
      end
  end.

(** ** Cancelling *)

Definition cancel_request (order_id user_id stream : Z) : CancelOrderRequest :=
  mkCancelOrderRequest (wrap_u64 order_id) (wrap_u64 user_id) stream (zeros 4).

Definition own_stream (g : Gateway) : Z := w_response_stream_id (dk_wiring (gw_desk g)).

Definition cancel_order (cfg : GatewayConfig) (g : Gateway) (s : WsSession) (order_id created now ts : Z)
  : Gateway * option bytes :=
  match ws_user_id s with
  | None => (g, Some (encode_error (str "Not authenticated")))
  | Some user_id =>
      match SharedRateLimiter.try_consume (gw_limiter g) user_id RateLimit.Cancel created now with
      | (l, Err op) => (Gateway.set_limiter g l, Some (encode_error (limit_reason op)))
      | (l, Ok _) =>
          let g := Gateway.set_limiter g l in
          if is_user_owned_by_desk user_id (gc_desk_id cfg) then
            match push_cmd cfg g (CmdCancel (cancel_request order_id user_id (own_stream g))) with
            | Some g => (g, Some (encode_cancel_submitted (wrap_u64 order_id) ts))
            | None => (g, Some (encode_error (str "system busy")))
            end
          else
            match gc_forward_capacity cfg with
            | None => (g, Some (encode_error (wrong_counter_shard_message user_id (gc_desk_id cfg))))
            | Some capacity =>
                let stream := order_update_stream_for_desk (owner_shard_for_user_id user_id) in
                match push_forward capacity g
                        (Cancel (CounterForwardCancel.new (gc_desk_id cfg) (cancel_request order_id user_id stream))) with
                | Some g => (g, Some (encode_cancel_submitted (wrap_u64 order_id) ts))
                | None => (g, Some (encode_error (str "system busy")))
                end
            end
      end
  end.

(** One command for all the orders; the number of orders it names. *)
Definition batch_cancel_by_ids (cfg : GatewayConfig) (g : Gateway) (user_id : Z) (order_ids : list Z) : Gateway * nat :=
  match order_ids with
  | [] => (g, 0%nat)
  | _ =>
      match push_cmd cfg g (CmdBatchCancel ((fun id => cancel_request id user_id (own_stream g)) <$> order_ids)) with
      | Some g => (g, length order_ids)
      | None => (g, 0%nat)
      end
  end.

(** [rows]: the ids the query found, none when it failed. *)
Definition bulk_cancel (cfg : GatewayConfig) (g : Gateway) (user_id : Z) (rows : list Z) : Gateway * nat :=
  match rows with
  | [] => (g, 0%nat)
  | _ =>
      match push_cmd cfg g (CmdBatchCancel ((fun id => cancel_request id user_id (own_stream g)) <$> rows)) with
      | Some g => (g, length rows)
      | None => (g, 0%nat)
      end
  end.

(** The cancels of more than one order serve the desk's own users. *)
Definition for_own_user (cfg : GatewayConfig) (g : Gateway) (s : WsSession) (k : Z -> Gateway * option bytes)
  : Gateway * option bytes :=
  match ws_user_id s with
  | None => (g, Some (encode_error (str "Not authenticated")))
  | Some user_id =>
      if is_user_owned_by_desk user_id (gc_desk_id cfg) then k user_id
      else (g, Some (encode_error (wrong_counter_shard_message user_id (gc_desk_id cfg))))
  end.

Definition batch_cancel (cfg : GatewayConfig) (g : Gateway) (s : WsSession) (order_ids : list Z) : Gateway * option bytes :=
  for_own_user cfg g s (fun user_id =>
    let '(g, n) := batch_cancel_by_ids cfg g user_id order_ids in
    (g, Some (encode_batch_cancel_ok (Z.of_nat n mod 2 ^ 32)))).

(** The query runs in the background. *)
Definition cancel_symbol (cfg : GatewayConfig) (g : Gateway) (s : WsSession) (symbol : bytes) : Gateway * option bytes :=
  for_own_user cfg g s (fun user_id =>
    (Gateway.set_spawned g (vec_push (gw_spawned g) (user_id, symbol)), Some (encode_cancel_all_ok 0))).

Definition cancel_all (cfg : GatewayConfig) (g : Gateway) (s : WsSession) (rows : list Z) : Gateway * option bytes :=
  for_own_user cfg g s (fun user_id =>
    let '(g, n) := bulk_cancel cfg g user_id rows in
    (g, Some (encode_cancel_all_ok (Z.of_nat n mod 2 ^ 32)))).

(** A background task runs. *)
Definition run_spawned (cfg : GatewayConfig) (g : Gateway) (rows : list Z) : Gateway :=
  match gw_spawned g with
  | [] => g
  | (user_id, _) :: rest => (bulk_cancel cfg (Gateway.set_spawned g rest) user_id rows).1
  end.

(** ** Batches of orders *)

(** An order of a batch that passed the checks. *)
Record BatchOrder := mkBatchOrder {
  bo_order_id : Z;
  bo_freeze_asset : bytes;
  bo_freeze_amount : f64;
  bo_initial_margin_atoms : Z;
  bo_sbe_req : NewOrderRequest;
  bo_meta : OrderMeta;
}.

(** The fields of one order; [None] is a refusal. *)
Definition batch_fields (v : json) : option PlaceOrderMsg :=
  symbol ← get_str v "symbol";
  side ← get_str v "side";
  let order_type := default (str "limit") (get_str v "order_type") in
  let time_in_force := to_lowercase <$> get_str v "time_in_force" in
  let price := get v (str "price") ≫= as_f64 in
  qty ← match get v (str "qty") with Some q => Some q | None => get v (str "quantity") end ≫= as_f64;
  Some (mkPlaceOrderMsg (default [] (get_str v "client_order_id")) symbol side order_type time_in_force price qty).

(** The checks of an order of a batch; the reasons are not reported. *)
Definition check_batch_order (cfg : GatewayConfig) (g : Gateway) (o : PlaceOrderMsg) : option (option Ticket) :=
  match parse_side (po_side o), parse_tif (po_order_type o) (po_time_in_force o) with
  | Some side, Some tif =>
      if known_symbol cfg (po_symbol o) then
        rules ← SymbolRules.for_symbol (po_symbol o);
        opposing ← best_opposing_from_depth g (po_symbol o) (po_side o);
        let freeze_price := freeze_price_of (po_side o) (po_price o) opposing in
        shape ← normalize_order_shape (po_symbol o) (po_order_type o) (po_price o) (po_qty o);
        match shape with
        | Err _ => Some None
        | Ok shape =>
            t ← price_ticket rules shape side tif freeze_price;
            Some match t with Ok t => Some t | Err _ => None end
        end
      else Some None
  | _, _ => Some None
  end.

(** (client order id, order id, status) *)
Abbreviation PlacedResult := (Z * Z * Z)%type.
Definition refused_result : PlacedResult := (0, 0, WS_STATUS_REJECTED).

(** Phase 1, one order. *)
Definition validate_batch_order (cfg : GatewayConfig) (user_id : Z) (s : Gateway * list PlacedResult * list BatchOrder) (v : json)
  : option (Gateway * list PlacedResult * list BatchOrder) :=
  let '(g, results, validated) := s in
  match batch_fields v with
  | None => Some (g, vec_push results refused_result, validated)
  | Some o =>
      checked ← check_batch_order cfg g o;
      Some match checked with
           | None => (g, vec_push results refused_result, validated)
           | Some t =>
               let '(g, order_id) := take_order_id g in
               (g, results, vec_push validated
                 (mkBatchOrder order_id (quote_of (po_symbol o)) (margin_usdt (tc_margin t)) (tc_margin t)
                    (order_request order_id user_id (own_stream g) (po_symbol o) t) (order_meta user_id o t)))
           end
  end.

(** Phases 2 and 3, one order. *)
Definition reserve_batch_order (user_id : Z) (s : Gateway * list PlacedResult * list NewOrderRequest) (v : BatchOrder)
  : Gateway * list PlacedResult * list NewOrderRequest :=
  let '(g, results, batch) := s in
  let d := gw_desk g in
  let margin := bo_initial_margin_atoms v in
  match RiskEngine.check_and_reserve_margin (dk_risk d) user_id margin with
  | (risk, Err _) => (Gateway.set_desk g (Desk.set_risk d risk), vec_push results refused_result, batch)
  | (risk, Ok _) =>
      let d := Desk.set_risk d risk in
      match try_freeze_cache (dk_accounts d) user_id (bo_freeze_asset v) (bo_freeze_amount v) with
      | (cache, true) =>
          let d := push_balance (Desk.set_accounts d cache) user_id (bo_freeze_asset v) in
          let d := map_pending_meta d (<[bo_order_id v := bo_meta v]>) in
          (Gateway.set_desk g d, vec_push results (bo_order_id v, bo_order_id v, WS_STATUS_OPEN), vec_push batch (bo_sbe_req v))
      | (cache, false) =>
          let d := Desk.set_accounts d cache in
          let d := Desk.set_risk d (RiskEngine.release_order_margin (dk_risk d) user_id margin) in
          (Gateway.set_desk g d, vec_push results refused_result, batch)
      end
  end.

(** One token for every order; [clock i] are the readings of the [i]th. *)
Fixpoint consume_all (l : SharedRateLimiter) (user_id : Z) (clock : nat -> Z * Z) (i n : nat)
  : SharedRateLimiter * result unit OpClass :=
  match n with
  | O => (l, Ok ())
  | S n =>
      match SharedRateLimiter.try_consume l user_id RateLimit.Place (clock i).1 (clock i).2 with
      | (l, Err op) => (l, Err op)
      | (l, Ok _) => consume_all l user_id clock (S i) n
      end
  end.

Definition place_orders (cfg : GatewayConfig) (g : Gateway) (s : WsSession) (batch_id : bytes) (orders : list json)
  (clock : nat -> Z * Z) : option (Gateway * option bytes) :=
  match ws_user_id s with
  | None => Some (g, Some (encode_error (str "Not authenticated")))
  | Some user_id =>
      match consume_all (gw_limiter g) user_id clock 0 (length orders) with
      | (l, Err op) => Some (Gateway.set_limiter g l, Some (encode_error (limit_reason op)))
      | (l, Ok _) =>
          let g := Gateway.set_limiter g l in
          if is_user_owned_by_desk user_id (gc_desk_id cfg) then
            '(g, results, validated) ← mfold (validate_batch_order cfg user_id) (g, [], []) (take 40 orders);
            let '(g, results, batch) := foldl (reserve_batch_order user_id) (g, results, []) validated in
            Some match batch with
                 | [] => (g, Some (encode_orders_placed batch_id results))
                 | _ =>
                     match push_cmd cfg g (CmdBatchNewOrder batch) with
                     | Some g => (g, Some (encode_orders_placed batch_id results))
                     | None => (g, Some (encode_error (str "system busy — aeron command queue full")))
                     end
                 end
          else Some (g, Some (encode_error (wrong_counter_shard_message user_id (gc_desk_id cfg))))
      end
  end.

(** ** Messages *)

(** What a message meets: the database and the revoked users, the readings of
    the clock (in seconds for credentials, in microseconds for replies, two for
    every token of the limiter) and the answer to a query. *)
Record Inputs := mkInputs {
  in_db : UserDb;
  in_revoked : gset Z;
  in_now : Z;
  in_ts : Z;
  in_clock : nat -> Z * Z;
  in_rows : list Z;
}.

Section gateway.
Context `{Crypto} (key : bytes).
(** The text of an error of the user service. *)
Context (describe : AuthError -> bytes).
(** [serde_json::from_str] *)
Context (from_str : bytes -> option json).

(** Whom the credentials of a message identify; [Err] is the refusal. *)
Definition token_user (i : Inputs) (token : bytes) : result Z bytes :=
  match verify_token key (in_now i) token with
  | Err e => Err (describe e)
  | Ok claims => if bool_decide (cl_sub claims ∈ in_revoked i) then Err (str "token revoked") else Ok (cl_sub claims)
  end.

Definition api_key_user (i : Inputs) (api_key : bytes) (timestamp signature : option bytes) : result Z bytes :=
  match (match timestamp, signature with
         | Some ts, Some sig => verify_api_key_signed (in_db i) api_key ts sig (in_now i)
         | _, _ => verify_api_key (in_db i) api_key
         end) with
  | Ok user_id => Ok user_id
  | Err e => Err (describe e)
  end.

Definition authenticate (g : Gateway) (s : WsSession) (conn : Z) (who : result Z bytes) : Gateway * WsSession * option bytes :=
  match who with
  | Ok user_id =>
      (register_conn g user_id conn, mkWsSession (Some user_id) (ws_subscribed s), Some (encode_auth_ok user_id))
  | Err reason => (g, s, Some (encode_auth_error reason))
  end.

(** The snapshots a subscription is answered with. *)
Definition snapshots (prefix : bytes) (frames : gmap bytes bytes) (channels : list bytes) : list bytes :=
  omap (fun ch => sym ← strip_prefix prefix ch; frames !! sym) channels.

(** The new state and session, the frames pushed to the connection, the reply. *)
Definition handle_client_message (cfg : GatewayConfig) (g : Gateway) (s : WsSession) (conn : Z) (i : Inputs) (msg : ClientMsg)
  : option (Gateway * WsSession * list bytes * option bytes) :=
  match msg with
  | MsgAuth token => let '(g, s, reply) := authenticate g s conn (token_user i token) in Some (g, s, [], reply)
  | MsgApiKeyAuth api_key timestamp signature =>
      let '(g, s, reply) := authenticate g s conn (api_key_user i api_key timestamp signature) in Some (g, s, [], reply)
  | MsgSubscribe channels =>
      if gc_public_market_data cfg then
        Some (g, mkWsSession (ws_user_id s) (ws_subscribed s ∪ list_to_set channels),
              snapshots (str "depth.") (gw_last_depth g) channels ++ snapshots (str "ticker.") (gw_last_ticker g) channels, None)
      else Some (g, s, [], Some (encode_error (str "Public market data is served by market-data-gateway")))
  | MsgUnsubscribe channels => Some (g, mkWsSession (ws_user_id s) (ws_subscribed s ∖ list_to_set channels), [], None)
  | MsgPing => Some (g, s, [], Some encode_pong)
  | MsgPlaceOrder o =>
      '(g, reply) ← place_order cfg g s o (in_clock i 0%nat).1 (in_clock i 0%nat).2 (in_ts i); Some (g, s, [], reply)
  | MsgPlaceOrders batch_id orders =>
      '(g, reply) ← place_orders cfg g s batch_id orders (in_clock i); Some (g, s, [], reply)
  | MsgCancelOrder order_id =>
      let '(g, reply) := cancel_order cfg g s order_id (in_clock i 0%nat).1 (in_clock i 0%nat).2 (in_ts i) in Some (g, s, [], reply)
  | MsgBatchCancel order_ids => let '(g, reply) := batch_cancel cfg g s order_ids in Some (g, s, [], reply)
  | MsgCancelSymbol symbol => let '(g, reply) := cancel_symbol cfg g s symbol in Some (g, s, [], reply)
  | MsgCancelAll => let '(g, reply) := cancel_all cfg g s (in_rows i) in Some (g, s, [], reply)
  end.

(** ** Connections *)

Record Conn := mkConn {
  cn_session : WsSession;
  cn_subscriptions : gset bytes;
  cn_market_registered : bool;
  cn_waiting_pong : bool;
}.
Definition Conn_new : Conn := mkConn WsSession_new ∅ false false.

(** What is put on the channels of a connection. *)
Inductive conn_out := Personal (frame : bytes) | CtrlPong (payload : bytes) | CtrlPing.

(** The gateway with its open connections, the subscriber count of the market
    fan-out (the read actor's own count moves with it) and what was sent. *)
Record Front := mkFront {
  fr_gateway : Gateway;
  fr_conns : gmap Z Conn;
  fr_subscribers : Z;
  fr_out : list (Z * conn_out);
}.

Definition personal (conn : Z) (frames : list bytes) : list (Z * conn_out) := (fun fr => (conn, Personal fr)) <$> frames.
Definition option_list (o : option bytes) : list bytes := match o with Some b => [b] | None => [] end.

Definition put_conn (f : Front) (conn : Z) (c : Conn) : Front :=
  mkFront (fr_gateway f) (<[conn := c]> (fr_conns f)) (fr_subscribers f) (fr_out f).
Definition emit (f : Front) (out : list (Z * conn_out)) : Front :=
  mkFront (fr_gateway f) (fr_conns f) (fr_subscribers f) (fr_out f ++ out).

(** The subscriptions after a text message, and the counter. *)
Definition update_subscriptions (f : Front) (conn : Z) (c : Conn) (was : bool) (s : WsSession) : Front :=
  let now := negb (bool_decide (ws_subscribed s = ∅)) in
  let count := fr_subscribers f in
  let '(count, registered) :=
    if negb was && now then (wrap_u64 (count + 1), true)
    else if was && negb now then (wrap_u64 (count - 1), false)
    else (count, cn_market_registered c) in
  mkFront (fr_gateway f) (<[conn := mkConn s (ws_subscribed s) registered (cn_waiting_pong c)]> (fr_conns f)) count (fr_out f).

Definition on_text (cfg : GatewayConfig) (f : Front) (conn : Z) (c : Conn) (i : Inputs) (payload : bytes) : option Front :=
  if negb (is_utf8 payload) then Some f
  else
    match parse from_str payload with
    | None => Some (emit f (personal conn [encode_error (str "Invalid message format")]))
    | Some msg =>
        let was := negb (bool_decide (ws_subscribed (cn_session c) = ∅)) in
        '(g, s, pushed, reply) ← handle_client_message cfg (fr_gateway f) (cn_session c) conn i msg;
        let f := mkFront g (fr_conns f) (fr_subscribers f) (fr_out f ++ personal conn (pushed ++ option_list reply)) in
        Some (update_subscriptions f conn c was s)
    end.

Definition on_binary (cfg : GatewayConfig) (f : Front) (conn : Z) (c : Conn) (i : Inputs) (payload : bytes) : option Front :=
  msg ← parse_binary payload;
  match msg with
  | None => Some f
  | Some msg =>
      '(g, s, pushed, reply) ← handle_client_message cfg (fr_gateway f) (cn_session c) conn i msg;
      let f := mkFront g (fr_conns f) (fr_subscribers f) (fr_out f ++ personal conn (pushed ++ option_list reply)) in
      Some (put_conn f conn (mkConn s (cn_subscriptions c) (cn_market_registered c) (cn_waiting_pong c)))
  end.

(** The end of the loop. *)
Definition close_conn (f : Front) (conn : Z) (c : Conn) : Front :=
  let count := if cn_market_registered c then wrap_u64 (fr_subscribers f - 1) else fr_subscribers f in
  let g := match ws_user_id (cn_session c) with
           | Some user_id => unregister_conn (fr_gateway f) user_id
           | None => fr_gateway f
           end in
  mkFront g (delete conn (fr_conns f)) count (fr_out f).

(** A tick of the heartbeat: an unanswered ping ends the connection. *)
Definition on_heartbeat (f : Front) (conn : Z) (c : Conn) : Front :=
  if cn_waiting_pong c then close_conn f conn c
  else emit (put_conn f conn (mkConn (cn_session c) (cn_subscriptions c) (cn_market_registered c) true)) [(conn, CtrlPing)].

Inductive event :=
| Opened (conn : Z)
| Text (conn : Z) (i : Inputs) (payload : bytes)
| Binary (conn : Z) (i : Inputs) (payload : bytes)
| PingFrame (conn : Z) (payload : bytes)
| PongFrame (conn : Z)
| CloseFrame (conn : Z)
| Heartbeat (conn : Z)
| Spawned (rows : list Z).

(** One turn of the loop of a connection, or a background task. *)
Definition front_step (cfg : GatewayConfig) (f : Front) (ev : event) : option Front :=
  let on conn (k : Conn -> option Front) := match fr_conns f !! conn with Some c => k c | None => Some f end in
  match ev with
  | Opened conn => Some match fr_conns f !! conn with Some _ => f | None => put_conn f conn Conn_new end
  | Text conn i payload => on conn (fun c => on_text cfg f conn c i payload)
  | Binary conn i payload => on conn (fun c => on_binary cfg f conn c i payload)
  | PingFrame conn payload => on conn (fun _ => Some (emit f [(conn, CtrlPong payload)]))
  | PongFrame conn => on conn (fun c =>
      Some (put_conn f conn (mkConn (cn_session c) (cn_subscriptions c) (cn_market_registered c) false)))
  | CloseFrame conn => on conn (fun c => Some (close_conn f conn c))
  | Heartbeat conn => on conn (fun c => Some (on_heartbeat f conn c))
  | Spawned rows => Some (mkFront (run_spawned cfg (fr_gateway f) rows) (fr_conns f) (fr_subscribers f) (fr_out f))
  end.
End gateway.
