(* ===== verification/WsProps.v ===== *)
(** What the order entry of the WebSocket gateway (WsEntry) promises.

    A command only ever acts for a user whose credentials its connection
    presented, and touches no one else's funds; an order is queued with its
    margin reserved and its funds frozen, or nothing but the rate limiter and the
    order counter has changed; the ticks and lots of a binary order reach the
    request unchanged; and the number of subscribers is that of the connections
    with a subscription. *)
From Stdlib Require Import ZArith Lia String.
From stdpp Require Import base numbers list gmap sets.
From S2P Require Import SymbolThread Custody.
From S2P Require Import Prelude Bytes Fixed Types F64 Text Money RiskCalc RiskEngine RiskTyped SymbolRules Pod Sbe WsSbe Routing.
From S2P Require Import RateLimit PersistEvent CounterForward Desk DeskSend F64Err Auth WsParse WsEntry.

#[local] Open Scope Z_scope.

(** ** An order is queued with its reservation or not at all *)

Lemma notify_books d u p t : books (notify d u p t) = books d.
Proof. unfold notify. by case_match. Qed.

Lemma push_balance_books d u a : books (push_balance d u a) = books d.
Proof. unfold push_balance. case_match; [apply notify_books|done]. Qed.

(** Everything but the limiter, the order counter and notices to users. *)
Definition entry_state (g : Gateway) :=
  (books (gw_desk g), gw_cmds g, gw_forward g, gw_slots g, gw_spawned g, gw_last_depth g, gw_last_ticker g).

(** The order is on the queue of the send thread. *)
Record queued (cfg : GatewayConfig) (g : Gateway) (user_id : Z) (o : PlaceOrderMsg) (t : Ticket) (g' : Gateway) : Prop := mkQueued {
  qd_cmd : gw_cmds g' = gw_cmds g ++ [CmdNewOrder (order_request (gw_next_order_id g) user_id (own_stream g) (po_symbol o) t)];
  qd_room : (length (gw_cmds g') <= gc_cmd_capacity cfg)%nat /\
            forall cap, gc_latency_cap cfg = Some cap -> (length (gw_cmds g') <= cap)%nat;
  qd_reserved : exists a, re_accounts (dk_risk (gw_desk g)) !! user_id = Some a /\
    AccountRiskState.can_place_order a = true /\ tc_margin t <= ac_available_margin a /\
    dk_risk (gw_desk g') = RiskEngine.set_accounts (dk_risk (gw_desk g)) (<[user_id := RiskEngine.ac_set_margins a
      (i64_sub (ac_available_margin a) (tc_margin t)) (i64_add (ac_order_margin a) (tc_margin t))]>
      (re_accounts (dk_risk (gw_desk g))));
  qd_frozen : try_freeze_cache (dk_accounts (gw_desk g)) user_id (quote_of (po_symbol o)) (margin_usdt (tc_margin t))
              = (dk_accounts (gw_desk g'), true);
  qd_meta : dk_orders (gw_desk g') = OrderTables.set_pending_meta (dk_orders (gw_desk g))
              (<[gw_next_order_id g := order_meta user_id o t]> (ot_pending_meta (dk_orders (gw_desk g))));
  qd_rest : gw_forward g' = gw_forward g /\ gw_slots g' = gw_slots g /\ dk_queue (gw_desk g') = dk_queue (gw_desk g) /\
            dk_wiring (gw_desk g') = dk_wiring (gw_desk g);
}.

(** The order is on its way to the desk of its owner, with what that desk needs
    to reserve it; nothing is reserved here. *)
Definition forwarded (cfg : GatewayConfig) (g : Gateway) (user_id : Z) (o : PlaceOrderMsg) (t : Ticket) (g' : Gateway) : Prop :=
  exists capacity fwd, gc_forward_capacity cfg = Some capacity /\ (length (gw_forward g') <= capacity)%nat /\
    gw_forward g' = gw_forward g ++ [NewOrder fwd] /\ books (gw_desk g') = books (gw_desk g) /\ gw_cmds g' = gw_cmds g /\
    cfn_req fwd = order_request (gw_next_order_id g) user_id (order_update_stream_for_desk (owner_shard_for_user_id user_id))
                    (po_symbol o) t /\
    cfm_initial_margin_atoms (cfn_meta fwd) = tc_margin t /\ cfm_user_id (cfn_meta fwd) = user_id.

(** Nothing but the limiter, the counter and notices has changed, and the client
    is told why. *)
Definition turned_down (g : Gateway) (r : Gateway * option bytes) : Prop :=
  entry_state r.1 = entry_state g /\ exists reason, r.2 = rejection reason.

Lemma turned_down_after g g1 r : entry_state g1 = entry_state g -> turned_down g1 r -> turned_down g r.
Proof. unfold turned_down. by intros ->. Qed.

Lemma push_cmd_spec cfg g cmd g' : push_cmd cfg g cmd = Some g' ->
  (length (gw_cmds g) < gc_cmd_capacity cfg)%nat /\ g' = Gateway.set_cmds g (gw_cmds g ++ [cmd]).
Proof. unfold push_cmd. destruct (Nat.ltb_spec (length (gw_cmds g)) (gc_cmd_capacity cfg)); [|done]. by intros [= <-]. Qed.

Lemma push_forward_spec capacity g msg g' : push_forward capacity g msg = Some g' ->
  (length (gw_forward g) < capacity)%nat /\ g' = Gateway.set_forward g (gw_forward g ++ [msg]).
Proof. unfold push_forward. destruct (Nat.ltb_spec (length (gw_forward g)) capacity); [|done]. by intros [= <-]. Qed.

Lemma forward_outcome cfg g user_id o t ts : let r := forward_order cfg g user_id o t ts in
  forwarded cfg g user_id o t r.1 /\ r.2 = submitted cfg (gw_next_order_id g) ts \/ turned_down g r.
Proof.
  unfold forward_order, take_order_id. destruct (gc_forward_capacity cfg) as [capacity|] eqn:Hc; [|right; split; [done|by eexists]].
  destruct (push_forward _ _ _) as [g'|] eqn:Hp; [left|right; split; [done|by eexists]].
  apply push_forward_spec in Hp as [Hl ->]. split; [|done]. exists capacity. eexists. cbn [fst Gateway.set_forward gw_forward gw_desk gw_cmds].
  split; [done|]. split; [rewrite length_app; cbn in *; lia|]. split; [reflexivity|]. split; [done|]. split; [done|].
  split; [done|]. unfold CounterForwardOrderMeta.new. by destruct (pack_client_order_id _).
Qed.

Lemma undo_order_books d order_id user_id margin asset m :
  ot_pending_meta (dk_orders d) !! order_id = None ->
  books (undo_order (map_pending_meta d (<[order_id := m]>)) order_id user_id margin asset) =
  (dk_wiring d, release_cache_frozen (dk_accounts d) user_id asset (margin_usdt margin),
   RiskEngine.release_order_margin (dk_risk d) user_id margin, dk_vwap d, dk_orders d, dk_queue d, dk_dropped d).
Proof.
  intros Hf. unfold books. cbn. f_equal. f_equal. f_equal. rewrite delete_insert_id by done. by destruct (dk_orders d).
Qed.

(** The queue after the notice of the balance, if there is one. *)
Lemma enqueue_outcome cfg g user_id o t ts : ot_pending_meta (dk_orders (gw_desk g)) !! gw_next_order_id g = None ->
  let r := enqueue_order cfg g user_id o t ts in
  (gw_cmds r.1 = gw_cmds g ++ [CmdNewOrder (order_request (gw_next_order_id g) user_id (own_stream g) (po_symbol o) t)] /\
   (length (gw_cmds r.1) <= gc_cmd_capacity cfg)%nat /\
   (forall cap, gc_latency_cap cfg = Some cap -> (length (gw_cmds r.1) <= cap)%nat) /\
   books (gw_desk r.1) = books (map_pending_meta (gw_desk g) (<[gw_next_order_id g := order_meta user_id o t]>)) /\
   gw_forward r.1 = gw_forward g /\ gw_slots r.1 = gw_slots g /\ r.2 = submitted cfg (gw_next_order_id g) ts) \/
  (entry_state r.1 = entry_state (Gateway.set_desk g (Desk.set_accounts (Desk.set_risk (gw_desk g)
     (RiskEngine.release_order_margin (dk_risk (gw_desk g)) user_id (tc_margin t)))
     (release_cache_frozen (dk_accounts (gw_desk g)) user_id (quote_of (po_symbol o)) (margin_usdt (tc_margin t))))) /\
   exists reason, r.2 = rejection reason).
Proof.
  intros Hf. unfold enqueue_order.
  set (g1 := if gc_push_bal cfg then _ else g).
  assert (Hg1 : exists d1, g1 = Gateway.set_desk g d1 /\ books d1 = books (gw_desk g)).
  { unfold g1. destruct (gc_push_bal cfg); [exists (push_balance (gw_desk g) user_id (quote_of (po_symbol o)))|exists (gw_desk g)];
      (split; [by destruct g|]); [apply push_balance_books|done]. }
  clearbody g1. destruct Hg1 as (d1 & -> & Hb). injection Hb as Hw Ha Hr Hv Ho Hq Hdr.
  cbn [take_order_id Gateway.set_next_order_id Gateway.set_desk gw_desk gw_next_order_id].
  set (req := order_request _ _ _ _ _).
  assert (Hreq : req = order_request (gw_next_order_id g) user_id (own_stream g) (po_symbol o) t)
    by (unfold req, own_stream; cbn; by rewrite Hw).
  clearbody req. subst req.
  destruct (queue_too_deep cfg _) eqn:Hdeep; [right|destruct (push_cmd cfg _ _) as [g'|] eqn:Hp; [left|right]].
  1,3: split; [|by eexists]; unfold entry_state; cbn [fst Gateway.set_desk gw_desk gw_cmds gw_forward gw_slots gw_spawned
         gw_last_depth gw_last_ticker]; rewrite undo_order_books by (by rewrite Ho); unfold books; cbn; congruence.
  apply push_cmd_spec in Hp as [Hl ->]. cbn [Gateway.set_desk gw_cmds] in Hl. cbn [fst Gateway.set_cmds Gateway.set_desk gw_cmds gw_desk gw_forward gw_slots].
  rewrite length_app. cbn [length]. split; [done|]. split; [cbn in *; lia|]. split; [|].
  - intros cap Hcap. unfold queue_too_deep in Hdeep. rewrite Hcap in Hdeep. apply Nat.leb_gt in Hdeep. cbn in *. lia.
  - split; [|done]. unfold books, map_pending_meta. cbn. congruence.
Qed.

Lemma submit_outcome cfg g user_id o t ts : engine_typed (dk_risk (gw_desk g)) -> cache_ok (dk_accounts (gw_desk g)) ->
  ot_pending_meta (dk_orders (gw_desk g)) !! gw_next_order_id g = None ->
  let r := submit_local cfg g user_id o t ts in queued cfg g user_id o t r.1 /\ r.2 = submitted cfg (gw_next_order_id g) ts \/ turned_down g r.
Proof.
  intros He Hc Hf. unfold submit_local.
  destruct (RiskEngine.check_position_limit _ _ _ _ _) as [[]|e]; [|right; split; [done|by eexists]].
  destruct (RiskEngine.check_symbol_oi_limit _ _ _ _) as [[]|e]; [|right; split; [done|by eexists]].
  destruct (RiskEngine.check_and_reserve_margin _ _ _) as [risk [m|e]] eqn:Hm.
  2:{ right. apply reserve_refused in Hm as ->. split; [|by eexists]. by destruct g as [[]]. }
  destruct (try_freeze_cache _ _ _ _) as [cache [|]] eqn:Ht; cbn [Desk.set_risk dk_accounts] in Ht.
  - pose proof (enqueue_outcome cfg (Gateway.set_desk g (Desk.set_accounts (Desk.set_risk (gw_desk g) risk) cache)) user_id o t ts Hf) as Hq.
    destruct Hq as [(Hcmd & Hroom & Hlat & Hb & Hfw & Hs & Hrep)|[Hst Hrej]].
    + left. split; [|exact Hrep]. injection Hb as Hw Ha Hr Hv Ho Hqu Hdr. apply reserve_spec in Hm as (a & Hra & Hcan & Hle & ->).
      split; [exact Hcmd|done|exists a; by rewrite Hr|by rewrite Ha, Ht|done|done].
    + right. split; [|done]. rewrite Hst. unfold entry_state, books. cbn.
      by rewrite (reserve_release _ _ _ _ _ He Hm), (freeze_release _ _ _ _ _ Hc Ht).
  - right. apply freeze_refused in Ht as ->. split; [|by eexists]. unfold entry_state, books. cbn.
    by rewrite (reserve_release _ _ _ _ _ He Hm).
Qed.

(** C17: an order of a session is all or nothing.  Either the session's user
    passed the limiter and the checks of the order, and the order is on the
    queue of the send thread of the user's own desk, within its capacity and its
    latency cap, with exactly the margin the checks determined moved from
    available to order margin, the funds frozen in the cache and the metadata
    stored under a fresh id; or, for a user of another desk, it is on the queue to
    that desk with the margin that desk has to reserve, and nothing is reserved
    here; or the client is told the reason and the books, the queues, the tables
    and the registry are exactly what they were. *)
Theorem ws_order_all_or_nothing cfg g s o created now ts g' reply :
  engine_typed (dk_risk (gw_desk g)) -> cache_ok (dk_accounts (gw_desk g)) ->
  ot_pending_meta (dk_orders (gw_desk g)) !! gw_next_order_id g = None ->
  place_order cfg g s o created now ts = Some (g', reply) ->
  (exists user_id t, ws_user_id s = Some user_id /\ check_order cfg g o = Some (Ok t) /\
     reply = submitted cfg (gw_next_order_id g) ts /\
     if is_user_owned_by_desk user_id (gc_desk_id cfg) then queued cfg g user_id o t g' else forwarded cfg g user_id o t g') \/
  turned_down g (g', reply).
Proof.
  intros He Hc Hf. unfold place_order. destruct (ws_user_id s) as [user_id|]; [|intros [= <- <-]; right; split; [done|by eexists]].
  destruct (SharedRateLimiter.try_consume _ _ _ _ _) as [l [[]|op]]; [|intros [= <- <-]; right; split; [done|by eexists]].
  change (check_order cfg (Gateway.set_limiter g l) o) with (check_order cfg g o).
  intros (checked & Hk & H)%bind_Some. injection H as H.
  destruct checked as [t|reason]; [|injection H as <- <-; right; split; [done|by eexists]].
  assert (Hr : let r := (g', reply) in
    (if is_user_owned_by_desk user_id (gc_desk_id cfg) then queued cfg (Gateway.set_limiter g l) user_id o t r.1
     else forwarded cfg (Gateway.set_limiter g l) user_id o t r.1) /\ r.2 = submitted cfg (gw_next_order_id g) ts
    \/ turned_down (Gateway.set_limiter g l) r).
  { rewrite <- H. destruct (is_user_owned_by_desk _ _); [exact (submit_outcome cfg (Gateway.set_limiter g l) user_id o t ts He Hc Hf)|exact (forward_outcome cfg (Gateway.set_limiter g l) user_id o t ts)]. }
  destruct Hr as [[Hq Hrep]|Hd]; [left|right; exact Hd]. exists user_id, t. split; [done|]. split; [done|].
  split; [exact Hrep|]. destruct (is_user_owned_by_desk _ _); [destruct Hq; by split|exact Hq].
Qed.

(** ** Scenes *)

Definition demo_config : GatewayConfig := mkGatewayConfig 2 ∅ 4 None (Some 4%nat) true true true.

(** User 6 (of desk 2) with a balance and the margin of the risk engine. *)
Definition demo_gateway (balance margin : Z) : Gateway :=
  mkGateway (Desk.set_risk (demo_desk {[6 := {[str "USDT" := mkAccountBalance balance 0]}]})
               (RiskEngine.initialize_account RiskEngine.new 6 margin))
    (mkShared None None ∅) 41 [] [] ∅ [] ∅ ∅.

(** 0.5 BTC at 100: a margin of 5 USDT. *)
Definition demo_order (side : bytes) : PlaceOrderMsg :=
  mkPlaceOrderMsg (str "c1") (str "BTC_USDT") side (str "limit") (Some (str "ioc")) (Some (i64_as_f64 100)) (f64_lit 1 2).

Definition demo_session (u : Z) : WsSession := mkWsSession (Some u) ∅.

Lemma demo_gateway_typed balance margin : in_i64 margin -> engine_typed (dk_risk (gw_desk (demo_gateway balance margin))).
Proof. intros Hm. by apply (exec_typed RiskEngine.new (CallInitialize 6 margin)); [apply new_typed| |]. Qed.

Lemma demo_gateway_cache balance margin : 0 <= balance <= i64_max -> cache_ok (dk_accounts (gw_desk (demo_gateway balance margin))).
Proof. intros Hb. apply map_Forall_singleton, map_Forall_singleton. unfold account_ok. cbn. lia. Qed.

(** A balance of six million is enough, one of a thousand is not; a user of
    another desk is forwarded. *)
Lemma ws_order_all_or_nothing_witness :
  (exists g' reply, place_order demo_config (demo_gateway 600000000000000 1000000000) (demo_session 6) (demo_order (str "buy")) 0 0 7
     = Some (g', reply) /\ length (gw_cmds g') = 1%nat /\
   (exists u t, ws_user_id (demo_session 6) = Some u /\ queued demo_config (demo_gateway 600000000000000 1000000000) u (demo_order (str "buy")) t g')) /\
  (exists g' reply, place_order demo_config (demo_gateway 100000000000 1000000000) (demo_session 6) (demo_order (str "buy")) 0 0 7
     = Some (g', reply) /\ turned_down (demo_gateway 100000000000 1000000000) (g', reply)).
Proof.
  split.
  - eexists. eexists. split; [vm_compute; reflexivity|]. split; [vm_compute; reflexivity|].
    edestruct (ws_order_all_or_nothing demo_config (demo_gateway 600000000000000 1000000000) (demo_session 6) (demo_order (str "buy")) 0 0 7)
      as [(u & t & Hu & _ & _ & Hq)|[Hst _]]; [apply demo_gateway_typed; unfold in_i64, i64_min, i64_max; lia
      |apply demo_gateway_cache; unfold i64_max; lia|reflexivity|vm_compute; reflexivity|..].
    + exists u, t. split; [exact Hu|]. injection Hu as <-.
      assert (Hown : is_user_owned_by_desk 6 (gc_desk_id demo_config) = true) by (vm_compute; reflexivity).
      rewrite Hown in Hq. exact Hq.
    + exfalso. apply (f_equal (fun x => length x.1.1.1.1.1.2)) in Hst. vm_compute in Hst. discriminate Hst.
  - eexists. eexists. split; [vm_compute; reflexivity|].
    edestruct (ws_order_all_or_nothing demo_config (demo_gateway 100000000000 1000000000) (demo_session 6) (demo_order (str "buy")) 0 0 7)
      as [(u & t & Hu & _ & _ & Hq)|Hd]; [apply demo_gateway_typed; unfold in_i64, i64_min, i64_max; lia
      |apply demo_gateway_cache; unfold i64_max; lia|reflexivity|vm_compute; reflexivity|..].
    + exfalso. injection Hu as <-. destruct Hq as [Hq _ _ _ _ _]. vm_compute in Hq. discriminate Hq.
    + exact Hd.
Defined.

(** *** Where the handlers fall short *)

(** The margin, in atoms, is divided by a hundred as if it were in cents: for a
    margin of 5 USDT the handler freezes five million, and a user with a
    thousand is refused.  The send thread freezes 5 for the same order. *)
Lemma margin_frozen_millionfold :
  AmountAtoms.from_f64_round (margin_usdt 500000000) = Ok (1000000 * 500000000) /\
  AmountAtoms.from_f64_round (f64_div (i64_as_f64 500000000) (i64_as_f64 100000000)) = Ok 500000000 /\
  (exists t, check_order demo_config (demo_gateway 100000000000 100000000000) (demo_order (str "buy")) = Some (Ok t) /\ tc_margin t = 500000000) /\
  exists g', place_order demo_config (demo_gateway 100000000000 100000000000) (demo_session 6) (demo_order (str "buy")) 0 0 7
    = Some (g', rejection (str "Insufficient balance")).
Proof.
  split; [vm_compute; reflexivity|]. split; [vm_compute; reflexivity|].
  split; eexists; [split; vm_compute; reflexivity|vm_compute; reflexivity].
Qed.

(** A sell has no reservation price, so that a market order to sell is always
    refused, for want of a price to buy. *)
Lemma market_sell_refused cfg g s created now ts user_id l : ws_user_id s = Some user_id ->
  SharedRateLimiter.try_consume (gw_limiter g) user_id RateLimit.Place created now = (l, Ok ()) ->
  gc_valid_symbols cfg = ∅ ->
  place_order cfg g s (mkPlaceOrderMsg (str "c1") (str "BTC_USDT") (str "sell") (str "market") None None (f64_lit 1 2)) created now ts
  = Some (Gateway.set_limiter g l, rejection (str "Unable to determine buy reservation price")).
Proof.
  intros Hu Hl Hv. unfold place_order. rewrite Hu, Hl. unfold check_order, known_symbol. rewrite Hv. vm_compute. reflexivity.
Qed.

(** A binary order without a price is documented as a market order; it is a limit
    order without a price, and refused. *)
Lemma binary_market_refused :
  (frame ← encode_client_place_order 9 (str "BTC_USDT") 0 1 0 500000; msg ← parse_binary frame;
   match msg with Some (MsgPlaceOrder o) => check_order demo_config (demo_gateway 0 0) o | _ => None end)
  = Some (Err (str "price required for non-market orders")).
Proof. vm_compute. reflexivity. Qed.

Definition demo_json (symbol : bytes) : json :=
  JObject [(str "symbol", JString symbol); (str "side", JString (str "buy")); (str "price", JNumber (i64_as_f64 100) (Some 100));
           (str "qty", JNumber (f64_lit 1 2) None)].

(** The results of a batch are not in the order of its orders: those refused by
    the checks come first. *)
Lemma batch_results_out_of_order :
  exists g', place_orders demo_config (demo_gateway 600000000000000 100000000000) (demo_session 6) (str "b") [demo_json (str "BTC_USDT"); JNull] (fun _ => (0, 0))
  = Some (g', Some (encode_orders_placed (str "b") [refused_result; (41, 41, WS_STATUS_OPEN)])).
Proof. eexists. vm_compute. reflexivity. Qed.

(** With the queue full a batch is answered with an error, but the margin, the
    frozen funds and the metadata of its orders stay. *)
Lemma full_queue_keeps_reservations :
  exists g', place_orders (mkGatewayConfig 2 ∅ 0 None None false false true) (demo_gateway 600000000000000 100000000000) (demo_session 6) (str "b")
      [demo_json (str "BTC_USDT")] (fun _ => (0, 0))
    = Some (g', Some (encode_error (str "system busy — aeron command queue full"))) /\ gw_cmds g' = [] /\
    (ac_order_margin <$> re_accounts (dk_risk (gw_desk g')) !! 6) = Some 500000000 /\
    (ab_frozen_atoms <$> account_of (dk_accounts (gw_desk g')) 6 (str "USDT")) = Some 500000000000000 /\
    dom (ot_pending_meta (dk_orders (gw_desk g'))) = {[41]}.
Proof.
  eexists. split; [vm_compute; reflexivity|]. split; [reflexivity|]. split; [vm_compute; reflexivity|].
  split; [vm_compute; reflexivity|]. apply (bool_decide_unpack (_ = _)). vm_compute. exact I.
Qed.

(** Two connections of one user: when either closes, the other is no longer
    reached. *)
Lemma second_connection_silenced : exists c g,
  let f := mkFront (register_conn (register_conn (demo_gateway 0 0) 6 1) 6 2)
             {[1 := mkConn (demo_session 6) ∅ false false; 2 := mkConn (demo_session 6) ∅ false false]} 0 [] in
  fr_conns f !! 1 = Some c /\ fr_gateway (close_conn f 1 c) = g /\ fr_conns (close_conn f 1 c) !! 2 <> None /\
  gw_slots g = ∅ /\ user_tx (gw_desk g) 6 = false.
Proof.
  eexists. eexists. cbv zeta. split; [reflexivity|]. split; [reflexivity|].
  split; [vm_compute; discriminate|]. split; vm_compute; reflexivity.
Qed.

(** ** Binary orders keep their ticks and lots *)

Lemma grid_amount t step m e : 0 < t < 2 ^ 50 -> normal step false m e -> -100 <= e <= 0 ->
  f64_le (f64_mul (i64_as_f64 t) step) f64_zero = false /\ f64_is_finite (f64_mul (i64_as_f64 t) step) = true.
Proof.
  intros Ht Hs He. destruct (int_normal t ltac:(lia) ltac:(lia)) as (q & f & Hx & _ & Hf).
  assert (Hsign : Z.ltb t 0 = false) by (apply Z.ltb_ge; lia). rewrite Hsign in Hx.
  destruct (mul_rel _ _ _ _ _ _ _ _ Hx Hs) as (mx & ex & -> & _). done.
Qed.

Lemma listed_symbol symbol r : SymbolRules.for_symbol symbol = Some r ->
  validate_symbol symbol = Ok () /\ sym8_to_str (pack8 symbol) = symbol.
Proof.
  unfold SymbolRules.for_symbol. intros Hr. repeat case_decide; subst; try done; split; vm_compute; reflexivity.
Qed.

(** The shape of an order on the grid is its ticks and lots, unless it is too
    small. *)
Lemma grid_shape symbol r order_type ticks lots : SymbolRules.for_symbol symbol = Some r -> order_type <> str "market" ->
  0 < ticks < 2 ^ 50 -> 0 < lots < 2 ^ 50 ->
  let shape := normalize_order_shape symbol order_type (Some (SymbolRules.ticks_to_price r ticks)) (SymbolRules.lots_to_quantity r lots) in
  shape = Some (Ok (mkFixedOrderShape (Some ticks) lots)) \/ shape = Some (Err "order notional is below minimum"%string).
Proof.
  intros Hr Hm Ht Hl. apply listed_steps in Hr as Hs. apply Forall_cons in Hs as [(m & e & Hp & He) Hs].
  apply Forall_cons in Hs as [(m' & e' & Hq & He') _]. apply listed_symbol in Hr as Hsym.
  unfold normalize_order_shape. rewrite (proj1 Hsym), Hr. cbn [mbind option_bind].
  unfold SymbolRules.ticks_to_price, SymbolRules.lots_to_quantity.
  destruct (grid_amount ticks _ m e Ht Hp He) as [Hpz Hpf]. destruct (grid_amount lots _ m' e' Hl Hq He') as [Hqz Hqf].
  unfold SymbolRules.quantity_to_lots, SymbolRules.price_to_ticks.
  rewrite Hqz, Hqf. cbn [orb negb]. rewrite (to_units_round_trip lots _ m' e') by done. rewrite decide_False by done.
  rewrite Hpz, Hpf. cbn [orb negb]. rewrite (to_units_round_trip ticks _ m e) by done.
  destruct (f64_lt _ _); [by right|by left].
Qed.

Definition binary_side (b : Z) : bytes := if Z.eqb b 0 then str "buy" else str "sell".
Definition binary_type (b : Z) : bytes :=
  if Z.eqb b 0 then str "limit" else if Z.eqb b 1 then str "ioc" else if Z.eqb b 2 then str "fok" else str "post_only".

Lemma binary_side_ok b : 0 <= b <= 1 -> exists s, parse_side (binary_side b) = Some s /\ side_byte s = b.
Proof. intros Hb. assert (Hc : b = 0 \/ b = 1) by lia. destruct Hc as [-> | ->]; eexists; split; vm_compute; reflexivity. Qed.

Lemma binary_type_ok b : 0 <= b <= 3 -> binary_type b <> str "market" /\
  exists t, parse_tif (binary_type b) None = Some t /\ tif_byte t = b.
Proof.
  intros Hb. assert (Hc : b = 0 \/ b = 1 \/ b = 2 \/ b = 3) by lia.
  destruct Hc as [->|[->|[-> | ->]]]; (split; [vm_compute; discriminate|eexists; split; vm_compute; reflexivity]).
Qed.

Lemma binary_order_parsed symbol r coid side tif ticks lots : SymbolRules.for_symbol symbol = Some r ->
  in_u64 coid -> 0 <= side <= 1 -> 0 <= tif <= 3 -> 0 < ticks < 2 ^ 50 -> 0 < lots < 2 ^ 50 ->
  exists frame, encode_client_place_order coid symbol side tif ticks lots = Some frame /\
    parse_binary frame = Some (Some (MsgPlaceOrder (mkPlaceOrderMsg (print_nonneg coid) symbol (binary_side side) (binary_type tif) None
      (Some (SymbolRules.ticks_to_price r ticks)) (SymbolRules.lots_to_quantity r lots)))).
Proof.
  intros Hr Hc Hs Ht Hp Hl.
  destruct (client_place_roundtrip coid symbol side tif ticks lots Hc) as (frame & He & Hlen & Hd);
    [unfold in_i64, i64_min, i64_max; lia..|].
  exists frame. split; [exact He|]. unfold parse_binary. pose proof Hd as Hd'.
  destruct frame as [|b frame]; [done|]. unfold decode_client_place_order, guard in Hd'.
  destruct (Z.eqb_spec b CLIENT_PLACE_ORDER) as [->|Hb]; [|exfalso; cbn [lookup list_lookup mbind option_bind] in Hd'; rewrite (proj2 (Z.eqb_neq b _) Hb) in Hd'; by destruct (Nat.ltb _ _)].
  rewrite Hd. cbn [mbind option_bind]. unfold parse_place_order_binary.
  rewrite (proj2 (listed_symbol symbol r Hr)), Hr. cbn [mbind option_bind].
  rewrite (proj2 (Z.eqb_neq ticks 0)) by lia.
  assert (Hcs : side = 0 \/ side = 1) by lia. assert (Hct : tif = 0 \/ tif = 1 \/ tif = 2 \/ tif = 3) by lia.
  destruct Hcs as [-> | ->], Hct as [->|[->|[-> | ->]]]; reflexivity.
Qed.

Lemma listed_margin symbol r ticks lots : SymbolRules.for_symbol symbol = Some r -> is_Some (required_margin r ticks lots).
Proof.
  intros Hr. unfold required_margin. destruct (Z.ltb 0 ticks); [|by eexists]. pose proof (for_symbol_listed _ _ Hr) as [_ _ Hsc _].
  assert (Hlev : sr_default_leverage r = 10) by (revert Hr; unfold SymbolRules.for_symbol; repeat case_decide; naive_solver).
  unfold calc_notional_atoms, calc_initial_margin_atoms. unfold i128_div, div_panics.
  rewrite (proj2 (Z.eqb_neq (sr_notional_scale r) 0)), (proj2 (Z.eqb_neq (sr_notional_scale r) (-1))), andb_false_r by lia.
  cbn [orb mbind option_bind]. rewrite Hlev, (proj2 (Z.eqb_neq 10 0)) by done. rewrite i64_div_ok by done. by eexists.
Qed.

(** C18: a binary order reaches the request as it was sent.  For every listed
    symbol, side, time in force and ticks and lots below [2^50] there is a frame,
    it is parsed as an order, and the checks of the order do not panic: they
    either produce the request with exactly the client's side, time in force,
    ticks, lots and symbol, although the parser turns ticks and lots into floats
    and the checks turn them back, with a positive margin; or they refuse it as
    too small, as without an engine or as without a margin. *)
Theorem binary_order_exact symbol r coid side tif ticks lots : SymbolRules.for_symbol symbol = Some r ->
  in_u64 coid -> 0 <= side <= 1 -> 0 <= tif <= 3 -> 0 < ticks < 2 ^ 50 -> 0 < lots < 2 ^ 50 ->
  exists frame o, encode_client_place_order coid symbol side tif ticks lots = Some frame /\
    parse_binary frame = Some (Some (MsgPlaceOrder o)) /\ po_symbol o = symbol /\
    forall cfg g, exists checked, check_order cfg g o = Some checked /\
      match checked with
      | Ok t => 0 < tc_margin t /\ known_symbol cfg symbol = true /\ forall order_id user_id stream,
          order_request order_id user_id stream symbol t =
          mkNewOrderRequest order_id (wrap_u64 user_id) ticks lots side tif stream 0 (zeros 9) (pack_str 16 symbol)
      | Err reason => reason ∈ [str "order notional is below minimum"; str "No engine for symbol: " ++ symbol;
                                str "Unable to determine margin requirement"]
      end.
Proof.
  intros Hr Hc Hs Ht Hp Hl. destruct (binary_order_parsed symbol r coid side tif ticks lots) as (frame & He & Hparse); try done.
  eexists. eexists. split; [exact He|]. split; [exact Hparse|]. split; [done|]. intros cfg g. unfold check_order.
  cbn [po_symbol po_order_type po_price po_qty po_side po_time_in_force].
  destruct (binary_side_ok side Hs) as (s & Hside & Hsb). destruct (binary_type_ok tif Ht) as (Hm & t & Htif & Htb).
  destruct (grid_shape symbol r (binary_type tif) ticks lots Hr Hm Hp Hl) as [-> | ->]; cbn [mbind option_bind];
    [|eexists; split; [done|]; by left].
  rewrite Hside, Htif, Hr. rewrite (bool_decide_false (Some _ = None)) by done. rewrite andb_false_r. cbn [mbind option_bind].
  destruct (known_symbol cfg symbol) eqn:Hk; [|eexists; split; [done|]; right; by left].
  unfold price_ticket, reservation_ticks. cbn [fos_price_ticks fos_quantity_lots from_option id].
  rewrite (proj2 (Z.ltb_lt 0 ticks)) by lia.
  destruct (listed_margin symbol r ticks lots Hr) as [x ->]. cbn [mbind option_bind]. eexists. split; [reflexivity|].
  destruct (Z.leb_spec x 0) as [Hx|Hx]; [do 2 right; by left|]. cbn [tc_margin]. split; [done|]. split; [done|].
  intros order_id user_id stream. unfold order_request. cbn. by rewrite Hsb, Htb.
Qed.

Lemma binary_order_exact_witness : exists frame o t,
  encode_client_place_order 9 (str "BTC_USDT") 1 3 6543210 250000 = Some frame /\ parse_binary frame = Some (Some (MsgPlaceOrder o)) /\
  check_order demo_config (demo_gateway 0 0) o = Some (Ok t) /\
  order_request 41 6 7 (str "BTC_USDT") t = mkNewOrderRequest 41 6 6543210 250000 1 3 7 0 (zeros 9) (pack_str 16 (str "BTC_USDT")).
Proof.
  destruct (SymbolRules.for_symbol (str "BTC_USDT")) as [r|] eqn:E; [|vm_compute in E; discriminate E].
  destruct (binary_order_exact (str "BTC_USDT") r 9 1 3 6543210 250000 E) as (frame & o & He & Hp & Hs & Hk);
    [unfold in_u64, u64_max; lia|lia..|].
  destruct (Hk demo_config (demo_gateway 0 0)) as ([t|e] & Hc & Hreq).
  - exists frame, o, t. split; [exact He|]. split; [exact Hp|]. split; [exact Hc|]. destruct Hreq as (_ & _ & ->). vm_compute. reflexivity.
  - exfalso. vm_compute in He. injection He as <-. vm_compute in Hp. injection Hp as <-. vm_compute in Hc. discriminate Hc.
Defined.

(** ** A connection acts for the user it identified *)

Definition cmd_users (c : AeronCmd) : list Z :=
  match c with
  | CmdNewOrder req => [nor_participant_id req]
  | CmdCancel req => [cor_participant_id req]
  | CmdBatchCancel reqs => cor_participant_id <$> reqs
  | CmdBatchNewOrder reqs => nor_participant_id <$> reqs
  end.

Definition forward_users (msg : CounterForwardMsg) : list Z :=
  match msg with
  | NewOrder fwd => [nor_participant_id (cfn_req fwd); wrap_u64 (cfm_user_id (cfn_meta fwd))]
  | Cancel fwd => [cor_participant_id (cfc_req fwd)]
  | WsFrame _ => []
  end.

(** [next_order_id.fetch_add(1)] *)
Definition next_id (x : Z) : Z := wrap_u64 (x + 1).

(** The [n] order ids the counter hands out next. *)
Fixpoint ids_from (next : Z) (n : nat) : list Z :=
  match n with O => [] | S n => next :: ids_from (next_id next) n end.

(** Only what belongs to user [u] differs, and of the order metadata only the
    entries under [ids]. *)
Record desk_acts (u : Z) (ids : list Z) (d d' : Desk) : Prop := mkDeskActs {
  da_accounts : forall u', u' <> u -> dk_accounts d' !! u' = dk_accounts d !! u';
  da_margins : forall u', u' <> u -> re_accounts (dk_risk d') !! u' = re_accounts (dk_risk d) !! u';
  da_positions : re_positions (dk_risk d') = re_positions (dk_risk d);
  da_meta : forall id, id ∉ ids -> ot_pending_meta (dk_orders d') !! id = ot_pending_meta (dk_orders d) !! id;
  da_own : forall id m, ot_pending_meta (dk_orders d') !! id = Some m ->
             ot_pending_meta (dk_orders d) !! id = Some m \/ om_user_id m = u;
  da_queue : dk_queue d' = dk_queue d;
}.

(** Every new command, forwarded message and background task is for [u]. *)
Record acts_for (u : Z) (ids : list Z) (g g' : Gateway) : Prop := mkActsFor {
  af_cmds : exists cmds, gw_cmds g' = gw_cmds g ++ cmds /\ Forall (fun c => Forall (fun p => p = wrap_u64 u) (cmd_users c)) cmds;
  af_forward : exists msgs, gw_forward g' = gw_forward g ++ msgs /\
                 Forall (fun m => Forall (fun p => p = wrap_u64 u) (forward_users m)) msgs;
  af_spawned : exists tasks, gw_spawned g' = gw_spawned g ++ tasks /\ Forall (fun x => x.1 = u) tasks;
  af_desk : desk_acts u ids (gw_desk g) (gw_desk g');
}.

(** An event acts for [u]: it takes the next ids of the counter, and the only
    metadata it touches is that of the orders it gives these ids. *)
Definition acts (u : Z) (g g' : Gateway) : Prop :=
  exists n, gw_next_order_id g' = Nat.iter n next_id (gw_next_order_id g) /\
    acts_for u (ids_from (gw_next_order_id g) n) g g'.

(** What an event without authority leaves alone. *)
Definition core (g : Gateway) :=
  (gw_cmds g, gw_forward g, gw_spawned g, dk_accounts (gw_desk g), dk_risk (gw_desk g), dk_orders (gw_desk g), dk_queue (gw_desk g)).

#[local] Instance desk_acts_refl u ids : Reflexive (desk_acts u ids).
Proof. intros d. split; auto. Qed.
#[local] Instance desk_acts_trans u ids : Transitive (desk_acts u ids).
Proof.
  intros d1 d2 d3 [A1 M1 P1 T1 O1 Q1] [A2 M2 P2 T2 O2 Q2]. split; [| |congruence| | |congruence].
  - intros u' Hu. by rewrite A2, A1.
  - intros u' Hu. by rewrite M2, M1.
  - intros id Hid. by rewrite T2, T1.
  - intros id m Hm. destruct (O2 id m Hm) as [Hm'|]; auto.
Qed.

Lemma appended_trans {A} (P : A -> Prop) (l1 l2 l3 : list A) :
  (exists k, l2 = l1 ++ k /\ Forall P k) -> (exists k, l3 = l2 ++ k /\ Forall P k) -> exists k, l3 = l1 ++ k /\ Forall P k.
Proof. intros (k1 & -> & H1) (k2 & -> & H2). exists (k1 ++ k2). rewrite app_assoc. split; [done|]. by apply Forall_app. Qed.

Lemma appended_none {A} (P : A -> Prop) (l : list A) : exists k, l = l ++ k /\ Forall P k.
Proof. exists []. by rewrite app_nil_r. Qed.

#[local] Instance acts_for_trans u ids : Transitive (acts_for u ids).
Proof.
  intros g1 g2 g3 [C1 F1 S1 D1] [C2 F2 S2 D2]. split; [by eapply appended_trans..|by etransitivity].
Qed.

Lemma core_acts u ids g g' : core g' = core g -> acts_for u ids g g'.
Proof.
  intros Hc. injection Hc as Hcm Hf Hs Ha Hr Ho Hq. split; [rewrite Hcm; apply appended_none|rewrite Hf; apply appended_none
    |rewrite Hs; apply appended_none|]. split; [by rewrite Ha|by rewrite Hr|by rewrite Hr|by rewrite Ho|rewrite Ho; auto|done].
Qed.

Lemma desk_acts_gateway u ids g d : desk_acts u ids (gw_desk g) d -> acts_for u ids g (Gateway.set_desk g d).
Proof. intros Hd. split; [apply appended_none..|exact Hd]. Qed.

Lemma books_acts u ids d d' : books d' = books d -> desk_acts u ids d d'.
Proof. intros Hb. injection Hb as Hw Ha Hr Hv Ho Hq Hd. split; [by rewrite Ha|by rewrite Hr|by rewrite Hr|by rewrite Ho|rewrite Ho; auto|done]. Qed.

Lemma push_cmd_acts u ids cfg g cmd g' : push_cmd cfg g cmd = Some g' -> Forall (fun p => p = wrap_u64 u) (cmd_users cmd) -> acts_for u ids g g'.
Proof.
  intros [_ ->]%push_cmd_spec Hu. split; [|apply appended_none..|reflexivity]. exists [cmd]. split; [done|]. by apply Forall_singleton.
Qed.

Lemma push_forward_acts u ids capacity g msg g' : push_forward capacity g msg = Some g' ->
  Forall (fun p => p = wrap_u64 u) (forward_users msg) -> acts_for u ids g g'.
Proof.
  intros [_ ->]%push_forward_spec Hu. split; [apply appended_none| |apply appended_none|reflexivity].
  exists [msg]. split; [done|]. by apply Forall_singleton.
Qed.

(** *** The books *)

Lemma risk_acts u ids d e : (forall u', u' <> u -> re_accounts e !! u' = re_accounts (dk_risk d) !! u') ->
  re_positions e = re_positions (dk_risk d) -> desk_acts u ids d (Desk.set_risk d e).
Proof. intros Ha Hp. split; auto. Qed.

Lemma reserve_acts u ids d m e r : RiskEngine.check_and_reserve_margin (dk_risk d) u m = (e, r) -> desk_acts u ids d (Desk.set_risk d e).
Proof.
  intros Hm. destruct r as [r|r]; [|apply reserve_refused in Hm as ->; by apply risk_acts].
  apply reserve_spec in Hm as (a & _ & _ & _ & ->). apply risk_acts; [|done]. intros u' Hu. cbn. by rewrite lookup_insert_ne.
Qed.

Lemma release_acts u ids d m : desk_acts u ids d (Desk.set_risk d (RiskEngine.release_order_margin (dk_risk d) u m)).
Proof.
  unfold RiskEngine.release_order_margin. destruct (re_accounts (dk_risk d) !! u); [|by apply risk_acts].
  apply risk_acts; [|done]. intros u' Hu. cbn. by rewrite lookup_insert_ne.
Qed.

Lemma put_acts u ids d asset kv : desk_acts u ids d (Desk.set_accounts d (put_account (dk_accounts d) u asset kv)).
Proof. split; auto. intros u' Hu. cbn. unfold put_account. by rewrite lookup_insert_ne. Qed.

Lemma freeze_acts u ids d asset amount cache ok : try_freeze_cache (dk_accounts d) u asset amount = (cache, ok) ->
  desk_acts u ids d (Desk.set_accounts d cache).
Proof.
  unfold try_freeze_cache. intros Hf. repeat case_match; simplify_eq; try apply put_acts; by apply books_acts; destruct d.
Qed.

Lemma unfreeze_acts u ids d asset amount : desk_acts u ids d (Desk.set_accounts d (release_cache_frozen (dk_accounts d) u asset amount)).
Proof.
  unfold release_cache_frozen. destruct (f64_le _ _); [by apply books_acts; destruct d|].
  destruct (release_entry _ _ _ _) as [[cache kv]|] eqn:Hr; [|by apply books_acts; destruct d].
  apply bind_Some in Hr as (kv' & _ & Hr). case_match; cbv zeta in Hr; simplify_eq. apply put_acts.
Qed.

Lemma meta_acts u ids d id m : id ∈ ids -> om_user_id m = u -> desk_acts u ids d (map_pending_meta d (<[id := m]>)).
Proof.
  intros Hid Hm. split; auto; cbn.
  - intros id' Hid'. rewrite lookup_insert_ne; [done|set_solver].
  - intros id' m' [[_ <-]|[_ Hl]]%lookup_insert_Some; auto.
Qed.

Lemma unmeta_acts u ids d id : id ∈ ids -> desk_acts u ids d (map_pending_meta d (delete id)).
Proof.
  intros Hid. split; auto; cbn.
  - intros id' Hid'. rewrite lookup_delete_ne; [done|set_solver].
  - intros id' m' [_ Hl]%lookup_delete_Some. auto.
Qed.

(** *** Order ids *)

Lemma ids_from_S x n : ids_from x (S n) = ids_from x n ++ [Nat.iter n next_id x].
Proof.
  revert x. induction n as [|n IH]; intros x; [done|]. change (ids_from x (S (S n))) with (x :: ids_from (next_id x) (S n)).
  rewrite IH, <- Nat.iter_succ_r. done.
Qed.

Lemma acts_quiet u g g' : gw_next_order_id g' = gw_next_order_id g -> acts_for u [] g g' -> acts u g g'.
Proof. intros Hn Ha. exists 0%nat. cbn. by rewrite Hn. Qed.

Lemma acts_core u g g' : gw_next_order_id g' = gw_next_order_id g -> core g' = core g -> acts u g g'.
Proof. intros Hn Hc. apply acts_quiet; [done|]. by apply core_acts. Qed.

Lemma acts_for_mono u ids ids' g g' : ids ⊆ ids' -> acts_for u ids g g' -> acts_for u ids' g g'.
Proof.
  intros Hsub [C F S [A M P T O Q]]. split; try done. split; try done. intros id Hid. apply T. set_solver.
Qed.

(** What comes before the ids are drawn. *)
Lemma acts_after u g g1 g' : gw_next_order_id g1 = gw_next_order_id g -> acts_for u [] g g1 -> acts u g1 g' -> acts u g g'.
Proof.
  intros Hn H1 (n & Hi & H2). rewrite Hn in *. exists n. split; [done|].
  etransitivity; [|exact H2]. eapply acts_for_mono; [|exact H1]. set_solver.
Qed.

(** *** The handlers *)

Lemma order_request_user id u stream symbol t : nor_participant_id (order_request id u stream symbol t) = wrap_u64 u.
Proof. done. Qed.

Lemma undo_acts u ids d id margin asset : id ∈ ids -> desk_acts u ids d (undo_order d id u margin asset).
Proof.
  intros Hid. unfold undo_order. etransitivity; [by apply (unmeta_acts u ids d id)|]. set (d1 := map_pending_meta d (delete id)).
  etransitivity; [apply (release_acts u ids d1 margin)|]. apply unfreeze_acts.
Qed.

Lemma enqueue_acts cfg g u o t ts : acts u g (enqueue_order cfg g u o t ts).1.
Proof.
  unfold enqueue_order. set (g1 := if gc_push_bal cfg then _ else g).
  assert (H1 : acts_for u [] g g1).
  { unfold g1. destruct (gc_push_bal cfg); [|by apply core_acts]. apply desk_acts_gateway, books_acts, push_balance_books. }
  assert (Hn : gw_next_order_id g1 = gw_next_order_id g) by (unfold g1; by destruct (gc_push_bal cfg)).
  apply (acts_after u g g1 _ Hn H1). clearbody g1. clear H1 Hn g. cbn [take_order_id].
  set (id := gw_next_order_id g1). assert (Hid : id ∈ ids_from id 1) by (cbn; set_solver).
  set (g2 := Gateway.set_next_order_id g1 _). set (g3 := Gateway.set_desk g2 _).
  assert (H3 : acts_for u (ids_from id 1) g1 g3).
  { etransitivity; [by apply (core_acts u _ g1 g2)|]. by apply desk_acts_gateway, meta_acts. }
  assert (Hn3 : gw_next_order_id g3 = next_id id) by done. clearbody g3. exists 1%nat.
  destruct (if queue_too_deep cfg g3 then None else _) as [g4|] eqn:Hp; cbn [fst].
  - destruct (queue_too_deep cfg g3); [done|]. pose proof (push_cmd_spec _ _ _ _ Hp) as [_ Hg4].
    split; [rewrite Hg4; exact Hn3|]. etransitivity; [exact H3|]. eapply push_cmd_acts; [exact Hp|]. by apply Forall_singleton.
  - split; [exact Hn3|]. etransitivity; [exact H3|]. by apply desk_acts_gateway, undo_acts.
Qed.

Lemma submit_acts cfg g u o t ts : acts u g (submit_local cfg g u o t ts).1.
Proof.
  unfold submit_local.
  destruct (RiskEngine.check_position_limit _ _ _ _ _); [|by apply acts_core].
  destruct (RiskEngine.check_symbol_oi_limit _ _ _ _); [|by apply acts_core].
  destruct (RiskEngine.check_and_reserve_margin _ _ _) as [risk [m|e]] eqn:Hm.
  2:{ apply acts_quiet; [done|]. apply desk_acts_gateway. by eapply reserve_acts. }
  destruct (try_freeze_cache _ _ _ _) as [cache ok] eqn:Ht.
  assert (H1 : desk_acts u [] (gw_desk g) (Desk.set_accounts (Desk.set_risk (gw_desk g) risk) cache)).
  { etransitivity; [by eapply reserve_acts|]. by eapply freeze_acts. }
  destruct ok.
  - eapply acts_after; [| |apply enqueue_acts]; [done|apply desk_acts_gateway, H1].
  - apply acts_quiet; [done|]. apply desk_acts_gateway. etransitivity; [exact H1|]. apply release_acts.
Qed.

Lemma forward_acts cfg g u o t ts : acts u g (forward_order cfg g u o t ts).1.
Proof.
  unfold forward_order. destruct (gc_forward_capacity cfg) as [capacity|]; [|by apply acts_core]. cbn [take_order_id].
  exists 1%nat. destruct (push_forward _ _ _) as [g'|] eqn:Hp; cbn [fst]; [|by split; [|apply core_acts]].
  pose proof (push_forward_spec _ _ _ _ Hp) as [_ Hg']. split; [by rewrite Hg'|].
  etransitivity; [|eapply push_forward_acts; [exact Hp|]]; [by apply core_acts|].
  cbn [forward_users CounterForwardNewOrder.new cfn_req cfn_meta]. unfold CounterForwardOrderMeta.new.
  destruct (pack_client_order_id _). cbn. repeat constructor.
Qed.

Lemma place_acts cfg g s o created now ts g' reply : place_order cfg g s o created now ts = Some (g', reply) ->
  match ws_user_id s with Some u => acts u g g' | None => core g' = core g end.
Proof.
  unfold place_order. destruct (ws_user_id s) as [u|]; [|by intros [= <- <-]].
  destruct (SharedRateLimiter.try_consume _ _ _ _ _) as [l [[]|op]]; [|intros [= <- <-]; by apply acts_core].
  intros (checked & _ & H)%bind_Some. injection H as H.
  apply (acts_after u g (Gateway.set_limiter g l)); [done|by apply core_acts|].
  destruct checked as [t|reason]; [|injection H as <- <-; by apply acts_core].
  destruct (is_user_owned_by_desk _ _).
  - change g' with (g', reply).1. rewrite <- H. apply submit_acts.
  - change g' with (g', reply).1. rewrite <- H. apply forward_acts.
Qed.

Lemma pushed_acts u cfg g cmd g' : push_cmd cfg g cmd = Some g' -> Forall (fun p => p = wrap_u64 u) (cmd_users cmd) -> acts u g g'.
Proof.
  intros Hp Hu. pose proof (push_cmd_spec _ _ _ _ Hp) as [_ Hg]. apply acts_quiet; [by rewrite Hg|]. by eapply push_cmd_acts.
Qed.

Lemma cancel_acts cfg g s id created now ts g' reply : cancel_order cfg g s id created now ts = (g', reply) ->
  match ws_user_id s with Some u => acts u g g' | None => core g' = core g end.
Proof.
  unfold cancel_order. destruct (ws_user_id s) as [u|]; [|by intros [= <- <-]].
  destruct (SharedRateLimiter.try_consume _ _ _ _ _) as [l [[]|op]]; [|intros [= <- <-]; by apply acts_core].
  intros H. apply (acts_after u g (Gateway.set_limiter g l)); [done|by apply core_acts|].
  destruct (is_user_owned_by_desk _ _).
  - destruct (push_cmd _ _ _) as [g1|] eqn:Hp; simplify_eq; [|by apply acts_core].
    eapply pushed_acts; [exact Hp|]. by apply Forall_singleton.
  - destruct (gc_forward_capacity cfg) as [capacity|]; [|simplify_eq; by apply acts_core].
    destruct (push_forward _ _ _) as [g1|] eqn:Hp; simplify_eq; [|by apply acts_core].
    pose proof (push_forward_spec _ _ _ _ Hp) as [_ Hg]. apply acts_quiet; [by rewrite Hg|].
    eapply push_forward_acts; [exact Hp|]. by apply Forall_singleton.
Qed.

Lemma cancel_requests_acts u cfg g ids g' :
  push_cmd cfg g (CmdBatchCancel ((fun id => cancel_request id u (own_stream g)) <$> ids)) = Some g' -> acts u g g'.
Proof. intros Hp. eapply pushed_acts; [exact Hp|]. cbn. apply Forall_fmap, Forall_fmap, Forall_true. done. Qed.

Lemma bulk_acts u cfg g ids : acts u g (bulk_cancel cfg g u ids).1.
Proof.
  unfold bulk_cancel. destruct ids as [|id ids]; [by apply acts_core|].
  destruct (push_cmd _ _ _) as [g1|] eqn:Hp; [by eapply cancel_requests_acts|by apply acts_core].
Qed.

Lemma own_user_acts cfg g s k g' reply : for_own_user cfg g s k = (g', reply) -> (forall u, acts u g (k u).1) ->
  match ws_user_id s with Some u => acts u g g' | None => core g' = core g end.
Proof.
  unfold for_own_user. intros H Hk. destruct (ws_user_id s) as [u|]; [|by simplify_eq].
  destruct (is_user_owned_by_desk _ _); [|simplify_eq; by apply acts_core]. specialize (Hk u). by rewrite H in Hk.
Qed.

(** A batch: the checks only draw order ids, and what they let through is for
    the user, under the ids drawn. *)
Definition batch_for (u : Z) (ids : list Z) (v : BatchOrder) : Prop :=
  nor_participant_id (bo_sbe_req v) = wrap_u64 u /\ om_user_id (bo_meta v) = u /\ bo_order_id v ∈ ids.

(** The state after [n] ids were drawn from [next]. *)
Record drawn (u next : Z) (g : Gateway) (n : nat) (g' : Gateway) (validated : list BatchOrder) : Prop := mkDrawn {
  dr_core : core g' = core g;
  dr_next : gw_next_order_id g' = Nat.iter n next_id next;
  dr_batch : Forall (batch_for u (ids_from next n)) validated;
}.

Lemma validate_acts cfg u next g0 n g results validated v g' results' validated' : drawn u next g0 n g validated ->
  validate_batch_order cfg u (g, results, validated) v = Some (g', results', validated') ->
  exists n', drawn u next g0 n' g' validated'.
Proof.
  intros Hd. unfold validate_batch_order. intros H. destruct (batch_fields v) as [o|]; [|simplify_eq; by exists n].
  apply bind_Some in H as (checked & _ & H). injection H as H. destruct checked as [t|]; [|simplify_eq; by exists n].
  cbn [take_order_id] in H. simplify_eq. destruct Hd as [Hc Hn Hv]. exists (S n). split; [exact Hc|cbn; by rewrite Hn|].
  rewrite ids_from_S. apply Forall_app. split; [|apply Forall_singleton].
  - eapply Forall_impl; [exact Hv|]. intros b (H1 & H2 & H3). split; [done|]. split; [done|]. set_solver.
  - split; [done|]. split; [done|]. cbn. rewrite Hn. set_solver.
Qed.

Lemma validate_all_acts cfg u next g0 orders : forall n g results validated g' results' validated',
  drawn u next g0 n g validated ->
  mfold (validate_batch_order cfg u) (g, results, validated) orders = Some (g', results', validated') ->
  exists n', drawn u next g0 n' g' validated'.
Proof.
  induction orders as [|v orders IH]; intros n g results validated g' results' validated' Hd H; cbn [mfold] in H; [simplify_eq; by exists n|].
  apply bind_Some in H as ([[g1 results1] validated1] & H1 & H). destruct (validate_acts _ _ _ _ _ _ _ _ _ _ _ _ Hd H1) as (n1 & Hd1).
  by eapply IH.
Qed.

Lemma reserve_batch_acts u ids g results batch v : batch_for u ids v -> Forall (fun r => nor_participant_id r = wrap_u64 u) batch ->
  let s := reserve_batch_order u (g, results, batch) v in
  acts_for u ids g s.1.1 /\ gw_next_order_id s.1.1 = gw_next_order_id g /\ Forall (fun r => nor_participant_id r = wrap_u64 u) s.2.
Proof.
  intros (Hr & Hm & Hid) Hb. unfold reserve_batch_order.
  destruct (RiskEngine.check_and_reserve_margin _ _ _) as [risk [m|e]] eqn:Hrm.
  2:{ split; [|done]. apply desk_acts_gateway. by eapply reserve_acts. }
  destruct (try_freeze_cache _ _ _ _) as [cache ok] eqn:Ht.
  assert (H1 : desk_acts u ids (gw_desk g) (Desk.set_accounts (Desk.set_risk (gw_desk g) risk) cache)).
  { etransitivity; [by eapply reserve_acts|]. by eapply freeze_acts. }
  destruct ok; (split; [apply desk_acts_gateway; etransitivity; [exact H1|]|]).
  - etransitivity; [apply books_acts, push_balance_books|]. by apply meta_acts.
  - split; [done|]. apply Forall_app. split; [done|]. by apply Forall_singleton.
  - apply release_acts.
  - done.
Qed.

Lemma reserve_all_acts u ids vs : forall g results batch, Forall (batch_for u ids) vs -> Forall (fun r => nor_participant_id r = wrap_u64 u) batch ->
  let s := foldl (reserve_batch_order u) (g, results, batch) vs in
  acts_for u ids g s.1.1 /\ gw_next_order_id s.1.1 = gw_next_order_id g /\ Forall (fun r => nor_participant_id r = wrap_u64 u) s.2.
Proof.
  induction vs as [|v vs IH]; intros g results batch Hvs Hb; cbn [foldl]; [split; [by apply core_acts|done]|].
  apply Forall_cons in Hvs as [Hv Hvs]. destruct (reserve_batch_acts u ids g results batch v Hv Hb) as (Ha & Hn & Hb1).
  destruct (reserve_batch_order u (g, results, batch) v) as [[g1 results1] batch1]. cbn [fst snd] in Ha, Hn, Hb1.
  destruct (IH g1 results1 batch1 Hvs Hb1) as (Ha' & Hn' & Hb'). split; [by etransitivity|]. split; [congruence|done].
Qed.

Lemma place_batch_acts cfg g s batch_id orders clock g' reply : place_orders cfg g s batch_id orders clock = Some (g', reply) ->
  match ws_user_id s with Some u => acts u g g' | None => core g' = core g end.
Proof.
  unfold place_orders. destruct (ws_user_id s) as [u|]; [|by intros [= <- <-]].
  destruct (consume_all _ _ _ _ _) as [l [[]|op]]; [|intros [= <- <-]; by apply acts_core].
  destruct (is_user_owned_by_desk _ _); [|intros [= <- <-]; by apply acts_core].
  intros ([[g1 results] validated] & Hv & H)%bind_Some.
  assert (H0 : drawn u (gw_next_order_id g) g 0 (Gateway.set_limiter g l) []) by done.
  destruct (validate_all_acts _ _ _ _ _ _ _ _ _ _ _ _ H0 Hv) as (n & [Hc Hn Hvs]).
  exists n. set (ids := ids_from _ n) in *.
  assert (H1 : acts_for u ids g g1) by (by apply core_acts).
  pose proof (reserve_all_acts u ids validated g1 results [] Hvs (Forall_nil_2 _)) as (Ha & Hn2 & Hb).
  destruct (foldl _ _ validated) as [[g2 results2] batch]. cbn [fst snd] in Ha, Hn2, Hb. rewrite Hn in Hn2.
  assert (H2 : acts_for u ids g g2) by (by etransitivity). clear H1 Ha.
  destruct batch as [|req batch]; [by simplify_eq|].
  destruct (push_cmd _ _ _) as [g3|] eqn:Hp; simplify_eq; [|done].
  pose proof (push_cmd_spec _ _ _ _ Hp) as [_ Hg]. split; [rewrite Hg; exact Hn2|]. etransitivity; [exact H2|].
  eapply push_cmd_acts; [exact Hp|]. by apply Forall_fmap.
Qed.

Section authority.
Context `{Crypto} (key : bytes) (describe : AuthError -> bytes) (from_str : bytes -> option json) (cfg : GatewayConfig).

(** The user whose credentials a message holds. *)
Definition identifies (i : Inputs) (msg : ClientMsg) : option Z :=
  match msg with
  | MsgAuth token => match token_user key describe i token with Ok u => Some u | Err _ => None end
  | MsgApiKeyAuth api_key timestamp signature =>
      match api_key_user describe i api_key timestamp signature with Ok u => Some u | Err _ => None end
  | _ => None
  end.

Lemma register_core g u conn : core (register_conn g u conn) = core g.
Proof. unfold register_conn. by destruct (slot_of u). Qed.

Lemma unregister_core g u : core (unregister_conn g u) = core g.
Proof. unfold unregister_conn. by destruct (slot_of u). Qed.

Lemma authenticate_acts g s conn who g' s' reply : authenticate g s conn who = (g', s', reply) ->
  (core g' = core g /\ gw_next_order_id g' = gw_next_order_id g) /\ ws_user_id s' = match who with Ok u => Some u | Err _ => ws_user_id s end.
Proof.
  unfold authenticate. destruct who; intros; simplify_eq; [|done]. split; [|done]. split; [apply register_core|].
  unfold register_conn. by destruct (slot_of _).
Qed.

Lemma core_stays g g' (who : option Z) : core g' = core g -> gw_next_order_id g' = gw_next_order_id g ->
  match who with Some u => acts u g g' | None => core g' = core g end.
Proof. intros Hc Hn. destruct who; [by apply acts_core|done]. Qed.

Lemma handle_acts g s conn i msg g' s' pushed reply :
  handle_client_message key describe cfg g s conn i msg = Some (g', s', pushed, reply) ->
  ws_user_id s' = match identifies i msg with Some u => Some u | None => ws_user_id s end /\
  match ws_user_id s with Some u => acts u g g' | None => core g' = core g end.
Proof.
  unfold handle_client_message, identifies. intros Hm. destruct msg.
  - destruct (authenticate _ _ _ _) as [[g1 s1] r] eqn:Ha. simplify_eq. apply authenticate_acts in Ha as [[Hc Hn] Hs].
    split; [by destruct (token_user _ _ _ _)|by apply core_stays].
  - destruct (authenticate _ _ _ _) as [[g1 s1] r] eqn:Ha. simplify_eq. apply authenticate_acts in Ha as [[Hc Hn] Hs].
    split; [by destruct (api_key_user _ _ _ _ _)|by apply core_stays].
  - destruct (gc_public_market_data cfg); simplify_eq; (split; [done|by apply core_stays]).
  - simplify_eq. split; [done|by apply core_stays].
  - apply bind_Some in Hm as ([g1 r] & Hp & Hm). simplify_eq. split; [done|by eapply place_acts].
  - apply bind_Some in Hm as ([g1 r] & Hp & Hm). simplify_eq. split; [done|by eapply place_batch_acts].
  - destruct (cancel_order _ _ _ _ _ _ _) as [g1 r] eqn:Hp. simplify_eq. split; [done|by eapply cancel_acts].
  - destruct (batch_cancel _ _ _ _) as [g1 r] eqn:Hp. simplify_eq. split; [done|]. eapply own_user_acts; [exact Hp|].
    intros u. unfold batch_cancel_by_ids. destruct order_ids as [|id ids]; [by apply acts_core|].
    destruct (push_cmd _ _ _) eqn:Hq; [by eapply cancel_requests_acts|by apply acts_core].
  - destruct (cancel_symbol _ _ _ _) as [g1 r] eqn:Hp. simplify_eq. split; [done|]. eapply own_user_acts; [exact Hp|].
    intros u. apply acts_quiet; [done|]. split; [apply appended_none..| |reflexivity]. exists [(u, symbol)]. split; [done|by apply Forall_singleton].
  - destruct (cancel_all _ _ _ _) as [g1 r] eqn:Hp. simplify_eq. split; [done|]. eapply own_user_acts; [exact Hp|].
    intros u. pose proof (bulk_acts u cfg g (in_rows i)) as Hb. cbv beta. by destruct (bulk_cancel cfg g u (in_rows i)).
  - simplify_eq. split; [done|by apply core_stays].
Qed.

Abbreviation step := (front_step key describe from_str cfg).

(** The user a frame of connection [conn] identifies. *)
Definition frame_identifies (conn : Z) (ev : event) : option Z :=
  match ev with
  | Text c i payload =>
      if decide (c = conn) then
        if is_utf8 payload then msg ← parse from_str payload; identifies i msg else None
      else None
  | _ => None
  end.

(** The last credentials presented on [conn] are those of [u]. *)
Definition identified (evs : list event) (conn u : Z) : Prop :=
  exists pre ev post, evs = pre ++ ev :: post /\ frame_identifies conn ev = Some u /\
    Forall (fun ev => frame_identifies conn ev = None) post.

Definition session_user (f : Front) (conn : Z) : option Z := c ← fr_conns f !! conn; ws_user_id (cn_session c).

(** The connection an event comes from. *)
Definition sender (ev : event) : option Z :=
  match ev with
  | Opened c | Text c _ _ | Binary c _ _ | PingFrame c _ | PongFrame c | CloseFrame c | Heartbeat c => Some c
  | Spawned _ => None
  end.

Lemma identified_snoc evs ev conn u :
  (frame_identifies conn ev = None /\ identified evs conn u) \/ frame_identifies conn ev = Some u -> identified (evs ++ [ev]) conn u.
Proof.
  intros [[Hn (pre & e & post & -> & He & Hp)]|Hs].
  - exists pre, e, (post ++ [ev]). split; [by rewrite <- app_assoc|]. split; [done|]. apply Forall_app. split; [done|by apply Forall_singleton].
  - exists evs, ev, []. done.
Qed.

(** What an event does to the sessions. *)
Lemma update_conns f conn c was s : fr_conns (update_subscriptions f conn c was s) !! conn ≫= (fun c => ws_user_id (cn_session c)) = ws_user_id s /\
  (forall conn', conn' <> conn -> fr_conns (update_subscriptions f conn c was s) !! conn' = fr_conns f !! conn') /\
  fr_gateway (update_subscriptions f conn c was s) = fr_gateway f.
Proof.
  unfold update_subscriptions. destruct (if negb was && _ then _ else _) as [count reg]. cbn. rewrite lookup_insert_eq.
  split; [done|]. split; [|done]. intros conn' Hne. by rewrite lookup_insert_ne.
Qed.

(** A frame is handled for the user of its session, and only credentials change
    who that is. *)
Record handled (f : Front) (conn : Z) (ev : event) (f' : Front) : Prop := mkHandled {
  hd_session : session_user f' conn = match frame_identifies conn ev with Some u => Some u | None => session_user f conn end;
  hd_others : forall conn', conn' <> conn -> session_user f' conn' = session_user f conn';
  hd_acts : match session_user f conn with
            | Some u => acts u (fr_gateway f) (fr_gateway f')
            | None => core (fr_gateway f') = core (fr_gateway f)
            end;
}.

Lemma handled_none f conn ev : frame_identifies conn ev = None -> handled f conn ev f.
Proof. intros Hn. split; [by rewrite Hn|done|by apply core_stays]. Qed.

Lemma session_of f conn c : fr_conns f !! conn = Some c -> session_user f conn = ws_user_id (cn_session c).
Proof. unfold session_user. by intros ->. Qed.

Lemma text_handled f conn c i payload f' : fr_conns f !! conn = Some c ->
  on_text key describe from_str cfg f conn c i payload = Some f' -> handled f conn (Text conn i payload) f'.
Proof.
  intros Hc. unfold on_text. cbn [frame_identifies]. destruct (is_utf8 payload) eqn:Hu; cbn [negb].
  2:{ intros [= <-]. apply handled_none. cbn. by rewrite decide_True, Hu. }
  destruct (parse from_str payload) as [msg|] eqn:Hp.
  2:{ intros [= <-]. split; [|done|by apply core_stays]. cbn. by rewrite decide_True, Hu, Hp. }
  intros ([[[g s] pushed] reply] & Hm & Hf)%bind_Some. injection Hf as <-. apply handle_acts in Hm as [Hs Ha].
  set (f1 := mkFront g _ _ _).
  destruct (update_conns f1 conn c (negb (bool_decide (ws_subscribed (cn_session c) = ∅))) s) as (Hu1 & Hu2 & Hu3).
  split.
  - unfold session_user at 1. rewrite Hu1. cbn. rewrite decide_True, Hu, Hp by done. cbn. by rewrite Hs, (session_of f conn c).
  - intros conn' Hne. unfold session_user. by rewrite Hu2.
  - rewrite Hu3, (session_of f conn c) by done. exact Ha.
Qed.

Lemma binary_handled f conn c i payload f' : fr_conns f !! conn = Some c ->
  on_binary key describe cfg f conn c i payload = Some f' -> handled f conn (Binary conn i payload) f'.
Proof.
  intros Hc. unfold on_binary. intros (msg & Hp & Hf)%bind_Some. destruct msg as [msg|]; [|simplify_eq; by apply handled_none].
  apply bind_Some in Hf as ([[[g s] pushed] reply] & Hm & Hf). injection Hf as <-. apply handle_acts in Hm as [Hs Ha].
  assert (Hno : identifies i msg = None).
  { revert Hp. unfold parse_binary, parse_place_order_binary. intros Hp. repeat (case_match || (apply bind_Some in Hp as (? & _ & Hp))); by simplify_eq. }
  rewrite Hno in Hs. split.
  - unfold session_user at 1. cbn. by rewrite lookup_insert_eq, (session_of f conn c).
  - intros conn' Hne. unfold session_user. cbn. by rewrite lookup_insert_ne.
  - rewrite (session_of f conn c) by done. exact Ha.
Qed.

(** A connection that is not open, or no longer. *)
Definition closed (f : Front) (conn : Z) (f' : Front) : Prop :=
  session_user f' conn = None /\ (forall conn', conn' <> conn -> session_user f' conn' = session_user f conn') /\
  core (fr_gateway f') = core (fr_gateway f).

Lemma put_conn_handled f conn c b ev : fr_conns f !! conn = Some c -> frame_identifies conn ev = None ->
  forall out, handled f conn ev (emit (put_conn f conn (mkConn (cn_session c) (cn_subscriptions c) (cn_market_registered c) b)) out).
Proof.
  intros Hc Hn out. split.
  - rewrite Hn. unfold session_user at 1. cbn. by rewrite lookup_insert_eq, (session_of f conn c).
  - intros conn' Hne. unfold session_user. cbn. by rewrite lookup_insert_ne.
  - by apply core_stays.
Qed.

Lemma close_closed f conn c : closed f conn (close_conn f conn c).
Proof.
  split; [unfold session_user; cbn; by rewrite lookup_delete_eq|]. split.
  - intros conn' Hne. unfold session_user. cbn. by rewrite lookup_delete_ne.
  - cbn. destruct (ws_user_id _); [apply unregister_core|done].
Qed.

Lemma step_handled f ev f' conn : step f ev = Some f' -> sender ev = Some conn -> handled f conn ev f' \/ closed f conn f'.
Proof.
  intros Hst Hs.
  assert (Hshut : fr_conns f !! conn = None -> f' = f -> closed f conn f')
    by (intros Hn ->; split; [unfold session_user; by rewrite Hn|done]).
  destruct ev; cbn in Hs; simplify_eq; cbn [front_step] in Hst; destruct (fr_conns f !! conn) as [c|] eqn:Hc; simplify_eq; auto.
  - left. by apply handled_none.
  - right. split; [unfold session_user; cbn; by rewrite lookup_insert_eq|]. split; [|done].
    intros conn' Hne. unfold session_user. cbn. by rewrite lookup_insert_ne.
  - left. by eapply text_handled.
  - left. by eapply binary_handled.
  - left. split; [done|done|by apply core_stays].
  - left. pose proof (put_conn_handled f conn c false (PongFrame conn) Hc eq_refl []) as Hh. unfold emit in Hh.
    rewrite app_nil_r in Hh. exact Hh.
  - right. apply close_closed.
  - unfold on_heartbeat. destruct (cn_waiting_pong c); [right; apply close_closed|left; by apply put_conn_handled].
Qed.

(** Sessions and background tasks belong to users who were identified. *)
Record traced (evs : list event) (f : Front) : Prop := mkTraced {
  tr_sessions : forall conn u, session_user f conn = Some u -> identified evs conn u;
  tr_spawned : Forall (fun x => exists conn pre post, evs = pre ++ post /\ identified pre conn x.1) (gw_spawned (fr_gateway f));
}.

Lemma core_spawned g g' : core g' = core g -> gw_spawned g' = gw_spawned g.
Proof. by intros [= _ _ Hs _ _ _ _]. Qed.

Lemma identified_later evs evs' (x : Z * bytes) : (exists conn pre post, evs = pre ++ post /\ identified pre conn x.1) ->
  exists conn pre post, evs ++ evs' = pre ++ post /\ identified pre conn x.1.
Proof. intros (conn & pre & post & -> & Hi). exists conn, pre, (post ++ evs'). by rewrite app_assoc. Qed.

Lemma other_silent conn conn' ev : sender ev = Some conn -> conn' <> conn -> frame_identifies conn' ev = None.
Proof. intros Hs Hne. destruct ev; cbn in *; simplify_eq; try done. by rewrite decide_False. Qed.

Lemma spawned_traced evs ev f f' conn : traced evs f -> handled f conn ev f' \/ closed f conn f' ->
  Forall (fun x => exists conn pre post, evs ++ [ev] = pre ++ post /\ identified pre conn x.1) (gw_spawned (fr_gateway f')).
Proof.
  intros [Hs Hsp] Hcase.
  assert (Hold : Forall (fun x => exists conn pre post, evs ++ [ev] = pre ++ post /\ identified pre conn x.1) (gw_spawned (fr_gateway f)))
    by (eapply Forall_impl; [exact Hsp|]; intros x; apply identified_later).
  destruct Hcase as [[_ _ Ha]|(_ & _ & Hc)]; [|by rewrite (core_spawned _ _ Hc)].
  destruct (session_user f conn) as [u|] eqn:Hu; [|by rewrite (core_spawned _ _ Ha)].
  destruct Ha as (n & _ & [_ _ (tasks & -> & Ht) _]). apply Forall_app. split; [done|]. eapply Forall_impl; [exact Ht|].
  intros x ->. exists conn, evs, [ev]. split; [done|]. by apply Hs.
Qed.

Lemma step_traced evs f ev f' : traced evs f -> step f ev = Some f' -> traced (evs ++ [ev]) f'.
Proof.
  intros Ht Hst. destruct (sender ev) as [conn|] eqn:Hse.
  - pose proof (step_handled f ev f' conn Hst Hse) as Hcase. split; [|by eapply spawned_traced]. destruct Ht as [Hs _].
    intros conn' u Hu. apply identified_snoc. destruct (decide (conn' = conn)) as [->|Hne].
    + destruct Hcase as [[Hsess _ _]|[Hno _]]; [|congruence]. rewrite Hsess in Hu.
      destruct (frame_identifies conn ev); [by right; simplify_eq|left; auto].
    + left. split; [by eapply other_silent|]. apply Hs.
      destruct Hcase as [[_ Ho _]|(_ & Ho & _)]; by rewrite <- (Ho conn').
  - destruct ev; try done. cbn in Hst. simplify_eq. destruct Ht as [Hs Hsp]. split.
    + intros conn u Hu. apply identified_snoc. left. split; [done|]. by apply Hs.
    + cbn. unfold run_spawned. destruct (gw_spawned (fr_gateway f)) as [|[u sym] rest] eqn:Hg.
      { rewrite Hg. constructor. }
      apply Forall_cons in Hsp as [Hu Hrest]. destruct (bulk_acts u cfg (Gateway.set_spawned (fr_gateway f) rest) rows) as (n & _ & [_ _ (tasks & -> & Htk) _]).
      apply Forall_app. split; (eapply Forall_impl; [eassumption|]); intros x.
      * apply identified_later.
      * intros ->. by apply (identified_later evs _ (u, sym)).
Qed.

Lemma run_traced f evs f' : fr_conns f = ∅ -> gw_spawned (fr_gateway f) = [] -> mfold step f evs = Some f' -> traced evs f'.
Proof.
  intros Hc Hs. revert f'. induction evs as [|ev evs IH] using rev_ind; intros f' Hrun.
  - cbn in Hrun. simplify_eq. split; [|by rewrite Hs]. intros conn u. unfold session_user. by rewrite Hc, lookup_empty.
  - rewrite mfold_app in Hrun. apply bind_Some in Hrun as (f1 & H1 & H2). cbn in H2. apply bind_Some in H2 as (f2 & H2 & H3).
    simplify_eq. by eapply step_traced; [apply IH|].
Qed.

(** C4: no connection acts for anyone but the user it identified.  Take any
    history of a desk's connections: opened and closed, text and binary frames of
    any content, pings, missed heartbeats and background tasks in any order.  If
    the next event changes the queues, the funds, the margins or the tables at
    all, it is a frame of a connection whose last credentials, checked against
    the keys, the revocations and the clock of the time, were those of one user:
    every command, forwarded message and task it adds is for that user; the
    funds and margins of all others and all positions are untouched; and so is
    the metadata of every order, but for the orders the event itself numbers with
    the next ids of the counter, which are that user's.  Or it is a background
    task of a user who was identified before, and cancels for that user. *)
Theorem ws_authority f0 evs f ev f' : fr_conns f0 = ∅ -> gw_spawned (fr_gateway f0) = [] ->
  mfold step f0 evs = Some f -> step f ev = Some f' ->
  core (fr_gateway f') = core (fr_gateway f) \/
  (exists conn u, sender ev = Some conn /\ identified evs conn u /\ acts u (fr_gateway f) (fr_gateway f')) \/
  (exists rows conn u symbol rest pre post, ev = Spawned rows /\ gw_spawned (fr_gateway f) = (u, symbol) :: rest /\
     evs = pre ++ post /\ identified pre conn u /\
     acts u (Gateway.set_spawned (fr_gateway f) rest) (fr_gateway f')).
Proof.
  intros Hc Hs Hrun Hst. destruct (run_traced f0 evs f Hc Hs Hrun) as [Hsess Hsp].
  destruct (sender ev) as [conn|] eqn:Hse.
  - destruct (step_handled f ev f' conn Hst Hse) as [[_ _ Ha]|(_ & _ & Hcore)]; [|by left].
    destruct (session_user f conn) as [u|] eqn:Hu; [|by left]. right. left. exists conn, u. auto.
  - destruct ev; try done. cbn in Hst. simplify_eq. cbn. unfold run_spawned.
    destruct (gw_spawned (fr_gateway f)) as [|[u symbol] rest] eqn:Hg; [by left|]. right. right.
    apply Forall_cons in Hsp as [(conn & pre & post & He & Hi) _].
    exists rows, conn, u, symbol, rest, pre, post. do 4 (split; [done|]). apply bulk_acts.
Qed.
End authority.

#[local] Existing Instance plain_crypto.

Definition demo_inputs : Inputs :=
  mkInputs (mkUserDb ∅ 1 {[str "k6" := (6, None)]} (Ledger.new ∅)) ∅ 50 7 (fun _ => (0, 0)) [].

(** A decoder of one message. *)
Definition demo_from_str (_ : bytes) : option json :=
  Some (JObject [(str "type", JString (str "auth_key")); (str "api_key", JString (str "k6"))]).

Definition demo_front : Front := mkFront (demo_gateway 600000000000000 1000000000) ∅ 0 [].
Definition demo_login : list event := [Opened 1; Opened 2; Text 1 demo_inputs (str "{}")].
Abbreviation demo_step := (front_step (str "key") (fun _ => []) demo_from_str demo_config).

(** Connection 1 logs in as user 6 and places an order. *)
Lemma ws_authority_witness : exists f frame f' u, mfold demo_step demo_front demo_login = Some f /\
  encode_client_place_order 9 (str "BTC_USDT") 0 0 10000 500000 = Some frame /\
  demo_step f (Binary 1 demo_inputs frame) = Some f' /\ length (gw_cmds (fr_gateway f')) = 1%nat /\
  identified (str "key") (fun _ => []) demo_from_str demo_login 1 u /\ acts u (fr_gateway f) (fr_gateway f').
Proof.
  destruct (encode_client_place_order 9 (str "BTC_USDT") 0 0 10000 500000) as [frame|] eqn:He; [|vm_compute in He; discriminate He].
  destruct (mfold demo_step demo_front demo_login) as [f|] eqn:Hf; [|vm_compute in Hf; discriminate Hf].
  destruct (demo_step f (Binary 1 demo_inputs frame)) as [f'|] eqn:Hs.
  2:{ exfalso. vm_compute in Hf, He. injection Hf as <-. injection He as <-. vm_compute in Hs. discriminate Hs. }
  assert (Hl : length (gw_cmds (fr_gateway f')) = 1%nat /\ length (gw_cmds (fr_gateway f)) = 0%nat).
  { vm_compute in Hf, He. injection Hf as <-. injection He as <-. vm_compute in Hs. injection Hs as <-. split; reflexivity. }
  exists f, frame, f'.
  destruct (ws_authority (str "key") (fun _ => []) demo_from_str demo_config demo_front demo_login f (Binary 1 demo_inputs frame) f'
              eq_refl eq_refl Hf Hs) as [Hc|[(conn & u & Hse & Hi & Ha)|(rows & conn & u & sym & rest & pre & post & Hev & _)]].
  - exfalso. injection Hc as Hc _. rewrite Hc in Hl. lia.
  - exists u. injection Hse as <-. split; [reflexivity|]. split; [reflexivity|]. split; [exact Hs|]. split; [apply Hl|]. split; [exact Hi|exact Ha].
  - discriminate Hev.
Defined.

(** ** Subscribers are counted *)

Definition registered_conns (m : gmap Z Conn) : nat := size (filter (fun kc => cn_market_registered kc.2 = true) m).
Definition one_if (b : bool) : nat := if b then 1%nat else 0%nat.

Lemma registered_insert m k c : m !! k = None -> registered_conns (<[k := c]> m) = (one_if (cn_market_registered c) + registered_conns m)%nat.
Proof.
  intros Hk. unfold registered_conns. destruct (cn_market_registered c) eqn:Hc; cbn [one_if].
  - rewrite map_filter_insert_True by done. rewrite map_size_insert_None; [done|]. apply map_lookup_filter_None. by left.
  - rewrite map_filter_insert_False by (cbn; congruence). by rewrite delete_id.
Qed.

Lemma registered_split m k c : m !! k = Some c -> registered_conns m = (one_if (cn_market_registered c) + registered_conns (delete k m))%nat.
Proof. intros Hk. rewrite <- (insert_delete_id m k c Hk) at 1. apply registered_insert, lookup_delete_eq. Qed.

Lemma registered_update m k c c' : m !! k = Some c ->
  (registered_conns (<[k := c']> m) + one_if (cn_market_registered c) = registered_conns m + one_if (cn_market_registered c'))%nat.
Proof.
  intros Hk. rewrite (registered_split m k c Hk), <- insert_delete_eq, registered_insert by apply lookup_delete_eq. lia.
Qed.

(** The copy of the subscriptions the market thread reads, the flag and the
    counter agree with the sessions. *)
Record counted (f : Front) : Prop := mkCounted {
  ct_conns : map_Forall (fun _ c => cn_subscriptions c = ws_subscribed (cn_session c) /\
               cn_market_registered c = negb (bool_decide (cn_subscriptions c = ∅))) (fr_conns f);
  ct_total : fr_subscribers f = wrap_u64 (Z.of_nat (registered_conns (fr_conns f)));
}.

Lemma wrap_u64_step a b k : a = wrap_u64 b -> wrap_u64 (a + k) = wrap_u64 (b + k).
Proof. intros ->. unfold wrap_u64. by rewrite Zplus_mod_idemp_l. Qed.

Lemma counted_same f g conn c c' out : counted f -> fr_conns f !! conn = Some c -> cn_session c' = cn_session c \/
  ws_subscribed (cn_session c') = ws_subscribed (cn_session c) -> cn_subscriptions c' = cn_subscriptions c ->
  cn_market_registered c' = cn_market_registered c -> counted (mkFront g (<[conn := c']> (fr_conns f)) (fr_subscribers f) out).
Proof.
  intros [Hcs Ht] Hc Hs Hsub Hreg. split; cbn.
  - apply map_Forall_insert_2; [|done]. destruct (Hcs _ _ Hc) as [H1 H2]. rewrite Hsub, Hreg. split; [|done].
    destruct Hs as [-> | ->]; done.
  - pose proof (registered_update _ _ _ c' Hc) as Hu. rewrite Hreg in Hu. rewrite Ht. f_equal. lia.
Qed.

Lemma counted_text f g conn c s out : counted f -> fr_conns f !! conn = Some c ->
  counted (update_subscriptions (mkFront g (fr_conns f) (fr_subscribers f) out) conn c (negb (bool_decide (ws_subscribed (cn_session c) = ∅))) s).
Proof.
  intros [Hcs Ht] Hc. destruct (Hcs _ _ Hc) as [H1 H2]. rewrite <- H1, <- H2. unfold update_subscriptions. cbn [fr_conns fr_subscribers fr_gateway fr_out].
  set (now := negb (bool_decide (ws_subscribed s = ∅))).
  pose proof (registered_update _ _ _ (mkConn s (ws_subscribed s) now (cn_waiting_pong c)) Hc) as Hu. cbn [cn_market_registered] in Hu.
  assert (Hgo : forall count reg, reg = now -> count = wrap_u64 (Z.of_nat (registered_conns (<[conn := mkConn s (ws_subscribed s) now (cn_waiting_pong c)]> (fr_conns f)))) ->
     counted (mkFront g (<[conn := mkConn s (ws_subscribed s) reg (cn_waiting_pong c)]> (fr_conns f)) count out)).
  { intros count reg -> ->. split; [|done]. cbn. apply map_Forall_insert_2; [|done]. done. }
  destruct (cn_market_registered c) eqn:Hr, now eqn:Hn; cbn [negb andb one_if] in *; apply Hgo; try done.
  - rewrite Ht. f_equal. lia.
  - change (fr_subscribers f - 1) with (fr_subscribers f + -1). rewrite (wrap_u64_step _ _ (-1) Ht). f_equal. lia.
  - rewrite (wrap_u64_step _ _ 1 Ht). f_equal. lia.
  - rewrite Ht. f_equal. lia.
Qed.

Lemma counted_delete f g conn c out : counted f -> fr_conns f !! conn = Some c ->
  counted (mkFront g (delete conn (fr_conns f)) (if cn_market_registered c then wrap_u64 (fr_subscribers f - 1) else fr_subscribers f) out).
Proof.
  intros [Hcs Ht] Hc. split; cbn; [by apply map_Forall_delete|]. pose proof (registered_split _ _ _ Hc) as Hsp.
  destruct (cn_market_registered c); cbn [one_if] in Hsp.
  - change (fr_subscribers f - 1) with (fr_subscribers f + -1). rewrite (wrap_u64_step _ _ (-1) Ht). f_equal. lia.
  - rewrite Ht. f_equal. lia.
Qed.

Section subscribers.
Context `{Crypto} (key : bytes) (describe : AuthError -> bytes) (from_str : bytes -> option json) (cfg : GatewayConfig).

(** A binary frame holds no subscription. *)
Lemma binary_subscribes_nothing payload msg g s conn i g' s' pushed reply : parse_binary payload = Some (Some msg) ->
  handle_client_message key describe cfg g s conn i msg = Some (g', s', pushed, reply) -> ws_subscribed s' = ws_subscribed s.
Proof.
  intros Hp Hm.
  assert (Hc : (exists o, msg = MsgPlaceOrder o) \/ (exists id, msg = MsgCancelOrder id) \/ msg = MsgPing).
  { revert Hp. unfold parse_binary, parse_place_order_binary. intros Hp.
    repeat (case_match || (apply bind_Some in Hp as (? & _ & Hp))); simplify_eq; eauto. }
  destruct Hc as [[o ->]|[[id ->]| ->]]; cbn [handle_client_message] in Hm.
  - apply bind_Some in Hm as ([g1 r] & _ & Hm). by simplify_eq.
  - destruct (cancel_order _ _ _ _ _ _ _). by simplify_eq.
  - by simplify_eq.
Qed.

Lemma step_counted f ev f' : counted f -> front_step key describe from_str cfg f ev = Some f' -> counted f'.
Proof.
  intros Hct Hst.
  destruct ev as [conn|conn i payload|conn i payload|conn payload|conn|conn|conn|rows]; cbn [front_step] in Hst;
    [| | | | | | |by simplify_eq; destruct Hct]; destruct (fr_conns f !! conn) as [c|] eqn:Hc; try (by simplify_eq; destruct Hct).
  - simplify_eq. destruct Hct as [Hcs Ht]. split; cbn; [by apply map_Forall_insert_2|]. by rewrite registered_insert.
  - revert Hst. unfold on_text. destruct (is_utf8 payload); cbn [negb]; [|by intros [= <-]].
    destruct (parse _ _) as [msg|]; [|intros [= <-]; by destruct Hct].
    intros ([[[g s] pushed] reply] & _ & Hf)%bind_Some. injection Hf as <-. by apply counted_text.
  - apply bind_Some in Hst as (msg & Hp & Hst). destruct msg as [msg|]; [|by simplify_eq].
    apply bind_Some in Hst as ([[[g s] pushed] reply] & Hm & Hf). injection Hf as <-.
    apply (counted_same f g conn c _ _ Hct Hc); [right|done..]. cbn. by eapply binary_subscribes_nothing.
  - simplify_eq. by apply (counted_same f _ conn c _ _ Hct Hc); [left|..].
  - simplify_eq. by apply counted_delete.
  - simplify_eq. unfold on_heartbeat. destruct (cn_waiting_pong c); [by apply counted_delete|].
    by apply (counted_same f _ conn c _ _ Hct Hc); [left|..].
Qed.

(** the fan-out counts its subscribers.  After any history of a desk that
    started without connections, the subscriber count is the number of open
    connections with a subscription, counted modulo [2^64] as the counter is,
    and the copy of the subscriptions the market threads read is the session's,
    however connections subscribe, unsubscribe, repeat themselves, close or miss
    a heartbeat. *)
Theorem subscribers_counted g evs f : mfold (front_step key describe from_str cfg) (mkFront g ∅ 0 []) evs = Some f ->
  fr_subscribers f = wrap_u64 (Z.of_nat (size (filter (fun kc => ws_subscribed (cn_session kc.2) <> ∅) (fr_conns f)))) /\
  map_Forall (fun _ c => cn_subscriptions c = ws_subscribed (cn_session c)) (fr_conns f).
Proof.
  intros Hrun. assert (Hct : counted f).
  { revert f Hrun. induction evs as [|ev evs IH] using rev_ind; intros f Hrun; [cbn in Hrun; by simplify_eq|].
    rewrite mfold_app in Hrun. apply bind_Some in Hrun as (f1 & H1 & H2). cbn in H2. apply bind_Some in H2 as (f2 & H2 & H3).
    simplify_eq. by eapply step_counted; [apply IH|]. }
  destruct Hct as [Hcs Ht]. split.
  - rewrite Ht. unfold registered_conns. do 3 f_equal. apply map_filter_ext. intros k c Hk. destruct (Hcs _ _ Hk) as [Hsub Hreg]. cbn.
    by rewrite <- Hsub, Hreg, negb_true_iff, bool_decide_eq_false.
  - intros k c Hk. apply (Hcs _ _ Hk).
Qed.
End subscribers.

(** Connection 2 subscribes to two channels and leaves one, connection 1
    subscribes and misses a heartbeat. *)
Definition demo_subscribe (text : bytes) : option json :=
  Some (JObject [(str "type", JString (if bool_decide (text = str "u") then str "unsubscribe" else str "subscribe"));
                 (str "channels", JArray (JString <$> (if bool_decide (text = str "u") then [str "depth.ETH_USDT"]
                                                       else [str "depth.BTC_USDT"; str "depth.ETH_USDT"])))]).

Lemma subscribers_counted_witness : exists f,
  mfold (front_step (str "key") (fun _ => []) demo_subscribe demo_config) (mkFront (demo_gateway 0 0) ∅ 0 [])
    [Opened 1; Opened 2; Text 1 demo_inputs (str "s"); Text 2 demo_inputs (str "s"); Text 2 demo_inputs (str "u");
     Heartbeat 1; Heartbeat 1; Opened 3] = Some f /\
  fr_subscribers f = 1 /\ map_Forall (fun _ c => cn_subscriptions c = ws_subscribed (cn_session c)) (fr_conns f).
Proof.
  match goal with |- context [mfold ?s ?f0 ?evs] => destruct (mfold s f0 evs) as [f|] eqn:Hf; [|vm_compute in Hf; discriminate Hf] end.
  exists f. split; [reflexivity|].
  destruct (subscribers_counted (str "key") (fun _ => []) demo_subscribe demo_config (demo_gateway 0 0) _ f Hf) as [Hn Hm].
  split; [|exact Hm]. rewrite Hn. vm_compute in Hf. injection Hf as <-. vm_compute. reflexivity.
Defined.
